(* ===== verification/_CoqProject ===== *)
-Q . S2P
Prelude.v
Collections.v
Text.v
Bitmap.v
Utf8.v
IpAddr.v
NetworkConfig.v
Protocol.v
MaskState.v
Control.v
ControlCodec.v
Fec.v
Fragment.v
FecReceiver.v
FecMemory.v
FecSender.v
Mask.v
ReplayWindow.v
Quality.v
Crypto.v
Presets.v
ClientWire.v
Mimicry.v
ClientReceive.v
Session.v
Link.v
Uplink.v
Bootstrap.v
SessionReplay.v
SessionTags.v
SessionSend.v
SessionManager.v
SessionIndex.v
Handshake.v
NodeRegistry.v
ClientDb.v
ClientAddr.v
ClientStore.v
ClientSync.v
ClientDigest.v
PeerGate.v
PoolExchange.v
PendingConfig.v
AuditLog.v
PoolView.v
MgmtService.v
MgmtAccess.v
IpPacket.v
FlowQueue.v
Pacing.v
DownlinkPacer.v
SiteRoutes.v
ExitRouting.v
Icmp.v
Qos.v
Forwarding.v
IngressLimits.v
MaskCatalog.v
MgmtClient.v
MaskFeedback.v
