(* ===== verification/Prelude.v ===== *)
(** * AIVPN in Rocq

    A verification library for AIVPN, a VPN whose packets imitate other protocols.
    The program is a Rust workspace: [crates/aivpn-common] holds the protocol,
    [crates/aivpn-server] the gateway, [crates/aivpn-client] the desktop client; the
    mobile cores and the desktop applications are shells around them. The library
    models the protocol layer, the parts of both ends that decide what a packet
    is, who sent it, and whether it is accepted, the records that servers keep and
    exchange about their clients and one another, the way of a packet from a client to the
    network, to another client or to another server, and the management of a server through
    its own tunnel; it proves what those parts promise one another, up to the delivery of a
    packet, the agreement of a handshake and the agreement of the servers of a pool.

    ** How the parts interact

    A client derives initial keys from the server's public key ([Crypto],
    [Handshake]), chooses a mask ([Presets], [Bootstrap]) and builds a handshake
    packet in the layout of the mask ([Mask], [Mimicry], [ClientWire]). The gateway
    reads the key out of it ([Uplink]), opens a session ([SessionManager], [Session])
    and answers with a ServerHello ([Link]); the client processes it and both ends
    ratchet to fresh keys. From then on each packet carries a tag that only the other
    end can compute for a counter; the gateway finds the session by the tag, the
    client the counter. Payloads are control messages ([Control]), user packets, their
    fragments ([Fragment]) and repairs of lost ones ([Fec], [FecSender],
    [FecReceiver]). The gateway knows its clients from a database in a file
    ([ClientDb]), which the command line changes too. Servers form a pool: one dials
    another over the same protocol, proves who it is ([NodeRegistry], [PeerGate]), and
    the two exchange digests and records until their databases agree
    ([PoolExchange]). What a client sends is checked and forwarded ([Forwarding]): to the
    network, to a neighbouring site ([SiteRoutes]), or to the server that is its exit
    ([ExitRouting]), within its limits ([Qos]); what comes back is queued by connection
    ([FlowQueue]) and leaves at the pace of the mask ([DownlinkPacer], [Pacing]). Packets of
    unknown senders are rationed ([IngressLimits]), masks that are blocked leave the
    rotation ([MaskCatalog]), and clients report which ones work ([MaskFeedback]). An
    administrator manages a server through the tunnel: the gateway decides who may ask what
    ([MgmtAccess]), the service changes clients and configuration ([MgmtService],
    [PendingConfig]) and writes down what it did ([AuditLog]); the client's end of it is [MgmtClient].

    ** Files

    - [Prelude]: integers with their width, slices, the outcome monad with panics,
      state methods, tactics and lemmas on lists and bytes.
    - [Collections]: hash maps; the order of iteration is a class [HashIter], so
      nothing depends on it. [Bitmap]: bit arrays. [Text], [Utf8]: strings. [IpAddr].
    - [NetworkConfig] models [network_config.rs]; [Protocol], [Control] model
      [protocol.rs], with the theorems on the codec in [ControlCodec]; [MaskState]
      models [mask_state.rs].
    - [Fec], [FecSender], [FecReceiver], [FecMemory] model [fec.rs]; [Fragment] models
      [fragment.rs].
    - [Crypto] models [crypto.rs]. The primitives are the class [Primitives] and what
      is assumed of them the class [PrimitiveLaws]: output lengths, that opening
      undoes sealing, that opened bytes are bytes. Nothing cryptographic is a law;
      where a theorem needs that a packet opens in one way only it says so
      ([Link.authentic]), and the toy primitives that run the definitions satisfy it.
    - [Mask] models the layout part of [mask.rs], [stun_wire.rs] and the layout
      queries of [gateway/mask_catalog.rs]; [Presets] the masks of [assets/masks];
      [Bootstrap] the descriptors and the choice of the opening mask in [mask.rs].
    - [ClientWire] models [client_wire.rs], with the theorems on reception in
      [ClientReceive]; [Mimicry] models the packet builder of [mimicry.rs] and the
      budgets of [mask_io.rs], [rtc_mask.rs] and [srtp_mask.rs].
    - [ReplayWindow], [Quality] model the windows of [session.rs], [kernel_accel.rs]
      and [quality.rs].
    - [Session] models one session of [session.rs] and the replay gate of
      [gateway/packet_ingress.rs]; [SessionReplay], [SessionTags], [SessionSend] hold
      its theorems. [SessionManager] models the table of sessions, [SessionIndex]
      holds its theorems.
    - [Link] models the downlink of [gateway/control_send.rs] and relates it to
      [ClientWire]; [Uplink] models the uplink of [gateway/packet_ingress.rs] and
      relates it to [Mimicry] and [ClientWire]; [Handshake] composes both.
    - [NodeRegistry] models [node_registry.rs]: which node has which key and which are
      revoked, in a file that several processes share.
    - [ClientDb] models [client_db]: records, calls, the file and its lock, addresses
      and partitions, digests and merges. [ClientAddr] holds the theorems on addresses
      and the comparison of partitions of [pool_partition.rs]; [ClientStore] those on
      the file and the life of a server; [ClientSync] those on merges between nodes;
      [ClientDigest] those on digests. The texts are the class [Serde].
    - [PeerGate] models the messages of a pool node in [gateway/control_dispatch.rs] and
      [pool_dialer.rs]; [PoolExchange] composes both ends of a connection.
    - [PendingConfig] models [pending_config.rs] with the files it guards, [AuditLog]
      models [audit_log.rs] and the reading of its file in [mgmt_service/mod.rs],
      [PoolView] models [mgmt_service/pool_view.rs], [MgmtService] the rest of
      [mgmt_service] and [mgmt_error.rs]; [MgmtAccess] models the gateway's side of a
      management request ([control_dispatch.rs], [gateway/mod.rs], [throttle.rs],
      [diagnostics.rs]). SHA-256 and the texts are the classes [AuditText], with its
      laws, and [MgmtText]. [MgmtClient] models [mgmt.rs], the calls of a client, as a
      machine of events.
    - [IpPacket] models [ip_packet.rs], [FlowQueue] [flow_queue.rs], [Pacing] [pacing.rs]
      and [DownlinkPacer] [gateway/downlink_pacing.rs]; the speed-up of a pacer is the class
      [Speed], and what a mask draws comes in [Shape].
    - [SiteRoutes] models [site_sync.rs]; [ExitRouting] models [gateway/exit_routing.rs],
      [gateway/chain_reverse.rs], the exits of [gateway/mod.rs] and the set of dialled
      servers of [pool_dialer.rs]; [Icmp] the replies to pings of [gateway/data_plane.rs];
      [Qos] models [qos.rs] in binary64, by the executable floats of [SpecFloat].
    - [Forwarding] composes them as [gateway/packet_ingress.rs], [control_dispatch.rs],
      [data_plane.rs] and [kernel_offload.rs] do: its state [Plane] is what those handlers
      share, and one definition stands for each handler.
    - [IngressLimits] models [source_rates.rs], [gateway/preauth.rs] and
      [gateway/throttle.rs]; [MaskCatalog] models [gateway/mask_catalog.rs], with its calls
      also as steps that interleave; [MaskFeedback] models [mask_feedback.rs] and the
      handler of its messages, with the logarithm of the platform as the class [Libm].

    ** State and operations

    A Rust struct is a [Record] with the fields that matter, an enum an [Inductive]. A
    method that changes its object returns the new object, in [method] where it can
    fail; fallible functions return an [outcome], whose [Panic] stands for an index out
    of range, an overflow of a checked operation or a division by zero. Time and
    randomness are arguments: [now] is an [Instant] in nanoseconds, [ts] the wall clock
    in milliseconds, the draws of a generator come in the records [Rng], [Draws],
    [Shape]. Each call of the session manager is atomic, as under its locks. A call on
    the client database or on the registry holds the lock of its file throughout, and is
    one step on the memory of the process and the file; what the operating system does
    meanwhile (whether it locks, reads, writes) comes in the records [System],
    [RegistryIo], [ApplyIo] and [LogIo], so that every theorem covers failing disks; a
    write to the audit log may stop after any byte.

    ** What the theorems show

    - Codecs: every control message, mask state and client configuration survives
      its wire form; decoders never panic on any input and return only well-formed
      values; exactly the messages that fit encode.
    - Delivery: a packet of the gateway is delivered by the client, a packet of the
      client by the gateway, in every layout a mask can ask for; the handshake is
      read, by both builders of the clients; both ends hold the same keys before and
      after the ratchet; payloads within the announced limit always fit.
    - Masks: a packet finished as STUN is STUN; the built-in masks, the candidates of
      descriptors and their variants are laid out so that both ends agree; the
      rotation reaches every candidate; a protected build uses signed masks only.
    - Replay: no packet of a session is accepted twice, through ratchets, rekeys and
      the windows of the kernel; the same for a client; no nonce is used twice; a
      handshake opens one session; the windows implement sets of counters, the loss
      window counts exactly, merging is union; the counter search is bounded.
    - Table of sessions: its indexes stay consistent through any calls, lookups by tag
      and by address are exact, limits hold.
    - Recovery: a lost packet of a group is rebuilt, no packet is delivered twice,
      memory is bounded; the sender implements one that remembers whole groups;
      fragments reassemble in any order within the limits.
    - Clients: no record on the file is lost by a change of another process, no two
      clients hold one address, a removed client stays removed; one way in which it does
      not, by a clock that runs fast, is shown as an example. Partitions of a subnet are
      disjoint and cover it.
    - Pool: nodes that merge the records of one another in any order agree; digests are
      equal exactly if the contents are; an exchange of two nodes ends, and leaves both
      with the winning version of each record. Only nodes in good standing take part; a
      node keeps its key; a revoked node is cut off, for all processes; the registry
      never locks itself out.
    - Management: only the proved device of a live administrator changes anything
      through the tunnel, nobody else learns a key, nobody is given a role, a revoked
      client is out; a session is served once in a window. Files and pending changes
      implement a table of committed and tentative contents, and what nobody confirms is
      undone. The audit log stays one chain whatever writes are cut short, its tail
      verifies, and two logs with one last hash agree. The view of a pool is exactly
      what its tables say. Two behaviours that surprise are shown as examples: a
      revocation that failed is answered as not found, and an exit node cannot be set
      through the tunnel. The client pairs responses with requests, sends a change at most
      once and paces its requests.
    - Forwarding: clients are kept apart, and a client sends from its own address only; a
      packet of the interface, of a site or of a chain goes where it belongs; routes of
      neighbours are installed exactly as the configuration allows; the servers that are
      dialled follow the exits that are named, and a global exit does not leak. Padded exit
      addresses and a stale cache are shown as examples.
    - Queues: the fair queue implements a ring of lanes, serves every connection in turn and
      loses nothing silently; the downlink pacer keeps its limits, releases a packet once
      and never under another profile; a session that cannot send delays no other; a batch
      is bounded.
    - Limits: an address, a handshake and an expensive request get their share and no more,
      and floods do not take the share of others; the limits of bandwidth follow the
      database, and marking a packet changes its class only.
    - Choice of masks: the detectors cannot take the last mask; a compromised mask is out
      for its hour, through interleaved calls too; two ways in which the maps disagree are
      shown as examples. A recommended mask was reported by enough distinct clients, and the
      store of reports is bounded.

    ** Bounds and fuel

    Overflow of [usize] is checked at 32 bits, the narrowest target the program ships
    for, and slices hold at most [isize_max] bytes. Recursion is structural almost
    everywhere. The exceptions carry fuel that covers every iteration: the walk over
    STUN attributes ([Mask.Stun.walk]) and [Text.trim] start with the length of their
    input and consume some of it at each step, the trimming of retired groups
    ([FecReceiver.trim_retired]) starts with the length of the queue it shortens,
    [Quality.clear_slots] with the number of slots to clear, and the group reader of
    [IpAddr] counts the groups left as the standard library does. The search for a free
    address ([ClientDb.probe]) tries as many offsets as its range has. An exchange of
    two nodes is run for five deliveries, which [PoolExchange.exchange_ends] shows to be
    all there can be. The scan for the last line of the audit log ([AuditLog.last_line])
    doubles its window nine times, from 8 KiB to the 4 MiB at which the code gives up, and
    [AuditLog.read_rounds] shows that cutting a torn line off takes one more round; the
    characters of a text are no more than its bytes ([MgmtService.chars]). The pacer looks
    once at every session that is due ([DownlinkPacer.pop_loop]), since one that cannot send
    is put off into the future; a request finds a free number after as many tries as there
    are pending ones ([MgmtClient.allocate]); three folds bring the sum of a checksum below
    16 bits ([Icmp.fold_carries]). The theorem on
    duplicate acceptance in [FecMemory] covers streams of up to 512 groups, the number
    the receiver remembers.

    ** What is not modelled

    Sockets, tasks, locks and files; the third-party carriers (QUIC, WebRTC, TURN
    stacks); the traffic shapes of masks and most of what is in floating point
    (distributions, neural detectors, mask generation), but for the token buckets and the
    estimate of reporters; JSON and MessagePack, which are parameters where a signature
    covers them or a file holds them; the HTTP handlers of the management interface, the
    command line, the listing of the mask directory, the budget of the diagnostics
    (floating point), the texts of errors of the operating system; the connections to other
    servers themselves; the platform shells and graphical applications. Locks are assumed
    to make the calls of a component atomic, but for the maps of [MaskCatalog]. The
    hash is not assumed to be free of collisions, which no function with 32 bytes of output
    is: where agreement of digests must mean agreement of records, the theorem says of which
    messages it needs that. *)

From Stdlib Require Export ZArith Lia.
From stdpp Require Export base numbers list gmap strings.

Local Open Scope Z_scope.

(** ** Numbers and bytes

    Every machine integer is a [Z] kept in range by a well-formedness
    predicate; a byte slice is a [list Z]. [len] is the Rust [len()] of a
    slice, as an integer rather than a [nat], so that length fields read from
    the wire can be compared with it without leaving [Z]. *)

Abbreviation len l := (Z.of_nat (length l)).
Abbreviation bytes := (list Z).

Definition byte_ok (b : Z) : Prop := 0 <= b < 256.
Abbreviation bytes_ok := (Forall byte_ok).

Definition u8_ok (x : Z) : Prop := 0 <= x < 256.
Definition u16_ok (x : Z) : Prop := 0 <= x < 65536.
Definition u32_ok (x : Z) : Prop := 0 <= x < 4294967296.
Definition u64_ok (x : Z) : Prop := 0 <= x < 18446744073709551616.
Definition u128_ok (x : Z) : Prop := 0 <= x < 340282366920938463463374607431768211456.

Definition u16_max : Z := 65535.
Definition u32_max : Z := 4294967295.
Definition u64_max : Z := 18446744073709551615.

(** The narrowest target the program ships for (armv7 and mipsel musl builds)
    has 32-bit pointers. Overflow checks are modelled at that width: an
    addition that cannot overflow there cannot overflow on a 64-bit target
    either. A Rust slice never exceeds [isize_max] bytes. *)
Definition usize_max : Z := 4294967295.
Definition isize_max : Z := 2147483647.

(** [wrapping_add], [saturating_sub] and friends at a given width. *)
Definition wrap8 (x : Z) : Z := x mod 256.
Definition wrap16 (x : Z) : Z := x mod 65536.
Definition wrap32 (x : Z) : Z := x mod 4294967296.
Definition wrap64 (x : Z) : Z := x mod 18446744073709551616.
Definition sat_sub (a b : Z) : Z := Z.max 0 (a - b).
Definition sat_add64 (a b : Z) : Z := Z.min u64_max (a + b).

Create HintDb aivpn_consts discriminated.
#[export] Hint Unfold byte_ok u8_ok u16_ok u32_ok u64_ok u128_ok u16_max u32_max u64_max
  usize_max isize_max : aivpn_consts.

(** ** Outcomes

    A Rust function that returns [Result<T>] has three observable outcomes:
    a value, an error value, or a panic (out-of-range indexing, a failed
    [unwrap], an arithmetic overflow of a checked build). *)

Inductive error : Type :=
  | InvalidPacket (msg : string)
  | Crypto (msg : string)
  | Io (msg : string)
  | Serialization (msg : string)
  | SessionError (msg : string)
  | MaskError (msg : string)
  | Channel (msg : string).

Inductive outcome (A : Type) : Type :=
  | Ok (a : A)
  | Err (e : error)
  | Panic.
Arguments Ok {A} a.
Arguments Err {A} e.
Arguments Panic {A}.

Definition obind {A B} (m : outcome A) (k : A -> outcome B) : outcome B :=
  match m with
  | Ok a => k a
  | Err e => Err e
  | Panic => Panic
  end.

Definition omap {A B} (f : A -> B) (m : outcome A) : outcome B :=
  obind m (fun a => Ok (f a)).

(** [Option::ok_or]. *)
Definition ok_or {A} (o : option A) (e : error) : outcome A :=
  match o with Some a => Ok a | None => Err e end.

(** [Result::ok]; a panic stays a panic, hence the [outcome]. *)
Definition ok_opt {A} (m : outcome A) : outcome (option A) :=
  match m with Ok a => Ok (Some a) | Err _ => Ok None | Panic => Panic end.

Declare Scope aivpn_scope.
Delimit Scope aivpn_scope with aivpn.
Notation "'let!' x := m 'in' k" := (obind m (fun x => k))
  (at level 10, x pattern, m at level 100, k at level 200) : aivpn_scope.
Open Scope aivpn_scope.

(** [safe m Q]: [m] does not panic, and a value it returns satisfies [Q]. *)
Definition safe {A} (m : outcome A) (Q : A -> Prop) : Prop :=
  match m with
  | Ok a => Q a
  | Err _ => True
  | Panic => False
  end.

(** A method that takes [&mut self] and may fail: the state it leaves behind
    and its outcome. *)
Definition method (S A : Type) : Type := S -> S * outcome A.

Definition mret {S A} (a : A) : method S A := fun s => (s, Ok a).
Definition mfail {S A} (e : error) : method S A := fun s => (s, Err e).
Definition mbind {S A B} (m : method S A) (k : A -> method S B) : method S B :=
  fun s => match m s with
           | (s', Ok a) => k a s'
           | (s', Err e) => (s', Err e)
           | (s', Panic) => (s', Panic)
           end.
Definition mget {S} : method S S := fun s => (s, Ok s).
Definition mput {S} (s : S) : method S unit := fun _ => (s, Ok tt).
Definition mmod {S} (f : S -> S) : method S unit := fun s => (f s, Ok tt).
Definition mlift {S A} (m : outcome A) : method S A := fun s => (s, m).

Notation "'do!' x := m 'in' k" := (mbind m (fun x => k))
  (at level 10, x pattern, m at level 100, k at level 200) : aivpn_scope.

(** ** Slices *)

(** [data[i]] *)
Definition idx (data : bytes) (i : Z) : outcome Z :=
  if (0 <=? i) && (i <? len data)
  then match data !! Z.to_nat i with Some b => Ok b | None => Panic end
  else Panic.

(** [&data[a..b]] *)
Definition slice (data : bytes) (a b : Z) : outcome bytes :=
  if (0 <=? a) && (a <=? b) && (b <=? len data)
  then Ok (take (Z.to_nat (b - a)) (drop (Z.to_nat a) data))
  else Panic.

(** [&data[a..]] *)
Definition slice_from (data : bytes) (a : Z) : outcome bytes := slice data a (len data).

(** [a + b] on [usize], panicking on overflow. *)
Definition uadd (a b : Z) : outcome Z := if a + b <=? usize_max then Ok (a + b) else Panic.

(** [x.to_le_bytes()] and [T::from_le_bytes(..)] for an [n]-byte integer. *)
Fixpoint le_bytes (n : nat) (x : Z) : bytes :=
  match n with
  | O => []
  | S m => x mod 256 :: le_bytes m (x / 256)
  end.

Fixpoint from_le (l : bytes) : Z :=
  match l with
  | [] => 0
  | b :: l' => b + 256 * from_le l'
  end.

Definition be_bytes (n : nat) (x : Z) : bytes := rev (le_bytes n x).
Definition from_be (l : bytes) : Z := from_le (rev l).

(** [T::from_le_bytes([data[i], ..])] for an [n]-byte integer. *)
Definition le_at (n : nat) (data : bytes) (i : Z) : outcome Z :=
  omap from_le (slice data i (i + Z.of_nat n)).
Definition be_at (n : nat) (data : bytes) (i : Z) : outcome Z :=
  omap from_be (slice data i (i + Z.of_nat n)).

Definition zeros (n : nat) : bytes := replicate n 0.

(** [u16::try_from(n)] *)
Definition u16_try_from (n : Z) (e : error) : outcome Z :=
  if n <=? u16_max then Ok n else Err e.

(** ** Automation

    [lenlia] normalises the length of a concatenation of wire fields and calls
    [lia]; [wire_lia] first unfolds the constants of the program. *)

Create HintDb aivpn discriminated.
Create Rewrite HintDb aivpn_len.

Lemma length_le_bytes n x : length (le_bytes n x) = n.
Proof. revert x; induction n; simpl; auto. Qed.

Lemma length_be_bytes n x : length (be_bytes n x) = n.
Proof. unfold be_bytes. by rewrite length_rev, length_le_bytes. Qed.

Definition bytes_okb (l : bytes) : bool := forallb (fun b => (0 <=? b) && (b <? 256)) l.

Lemma bytes_ok_check l : bytes_okb l = true -> bytes_ok l.
Proof.
  induction l as [|b l IH]; intros H; [constructor|].
  unfold bytes_okb in H. cbn [forallb] in H. rewrite !andb_true_iff in H. destruct H as [Hb Hl].
  constructor; [unfold byte_ok; lia|by apply IH].
Qed.

Lemma bytes_ok_zeros n : bytes_ok (zeros n).
Proof. apply Forall_replicate. unfold byte_ok. lia. Qed.

Lemma length_zeros n : length (zeros n) = n.
Proof. apply length_replicate. Qed.

#[export] Hint Rewrite @length_app @length_cons @length_nil length_le_bytes length_be_bytes
  length_zeros @length_take @length_drop : aivpn_len.

Create Rewrite HintDb aivpn_bool.
#[export] Hint Rewrite andb_true_iff orb_true_iff andb_false_iff orb_false_iff negb_true_iff
  negb_false_iff Z.leb_le Z.ltb_lt Z.leb_gt Z.ltb_ge Z.eqb_eq Z.eqb_neq : aivpn_bool.

(** [lia] with division and modulo by constants. *)
Ltac divlia := Z.to_euclidean_division_equations; lia.
Ltac lenlia := autorewrite with aivpn_len in *; lia.
Ltac wire_lia :=
  autounfold with aivpn_consts in *;
  autorewrite with aivpn_len aivpn_bool in *; lia.

(** Cases on the condition of the conditional at the head of an equation. *)
Ltac head_if E :=
  match goal with |- (if ?b then _ else _) = _ -> _ => destruct b eqn:E end.

(** Evaluate the first guard of the goal whose value follows from the lengths. *)
Ltac guard_false := match goal with
  | |- context [if ?b then _ else _] =>
      let H := fresh in assert (b = false) as H by wire_lia; rewrite H; clear H
  end.
Ltac guard_true := match goal with
  | |- context [if ?b then _ else _] =>
      let H := fresh in assert (b = true) as H by wire_lia; rewrite H; clear H
  end.

(** ** Bits *)

Lemma land_bound a b : 0 <= a -> 0 <= Z.land a b <= a.
Proof.
  intros Ha. apply Z.ldiff_le; [done|]. apply Z.bits_inj'. intros i Hi.
  rewrite Z.ldiff_spec, Z.land_spec, Z.bits_0. by destruct (Z.testbit a i), (Z.testbit b i).
Qed.

Lemma testbit_above n a i : 0 <= a < 2 ^ n -> n <= i -> Z.testbit a i = false.
Proof.
  intros Ha Hi. destruct (Z.eq_dec a 0) as [->|]; [apply Z.bits_0|].
  apply Z.bits_above_log2; [lia|]. apply Z.log2_lt_pow2; [lia|].
  eapply Z.lt_le_trans; [apply Ha|]. apply Z.pow_le_mono_r; lia.
Qed.

(** ** The outcome monad *)

Lemma obind_Ok {A B} (m : outcome A) (k : A -> outcome B) b :
  obind m k = Ok b <-> exists a, m = Ok a /\ k a = Ok b.
Proof.
  split.
  - destruct m as [a| |]; simpl; [by exists a|done|done].
  - by intros (a & -> & ?).
Qed.

Lemma Ok_inj {A} (a b : A) : Ok a = Ok b -> a = b.
Proof. congruence. Qed.

Lemma mbind_Ok {S A B} (m : method S A) (k : A -> method S B) s s' a :
  m s = (s', Ok a) -> mbind m k s = k a s'.
Proof. intros H. unfold mbind. by rewrite H. Qed.

Lemma safe_bind {A B} (m : outcome A) (k : A -> outcome B) (Q : B -> Prop) :
  safe m (fun a => safe (k a) Q) -> safe (obind m k) Q.
Proof. destruct m; simpl; auto. Qed.

Lemma safe_mono {A} (m : outcome A) (P Q : A -> Prop) :
  safe m P -> (forall a, P a -> Q a) -> safe m Q.
Proof. destruct m; simpl; auto. Qed.

Lemma safe_omap {A B} (f : A -> B) (m : outcome A) (Q : B -> Prop) :
  safe m (fun a => Q (f a)) -> safe (omap f m) Q.
Proof. destruct m; simpl; auto. Qed.

Lemma safe_no_panic {A} (m : outcome A) (Q : A -> Prop) : safe m Q -> m <> Panic.
Proof. by destruct m. Qed.

Lemma safe_Ok {A} (m : outcome A) (Q : A -> Prop) a : safe m Q -> m = Ok a -> Q a.
Proof. intros H ->. exact H. Qed.

Lemma safe_ok_or {A} (o : option A) e (Q : A -> Prop) :
  (forall a, o = Some a -> Q a) -> safe (ok_or o e) Q.
Proof. destruct o; simpl; auto. Qed.

(** ** Little- and big-endian integers *)

Lemma bytes_ok_le_bytes n x : bytes_ok (le_bytes n x).
Proof.
  revert x; induction n; simpl; intros; constructor; auto.
  unfold byte_ok. apply Z.mod_pos_bound. lia.
Qed.

Lemma bytes_ok_be_bytes n x : bytes_ok (be_bytes n x).
Proof. unfold be_bytes. apply Forall_rev, bytes_ok_le_bytes. Qed.

Lemma from_le_le_bytes n x : from_le (le_bytes n x) = x mod 256 ^ Z.of_nat n.
Proof.
  revert x; induction n as [|n IH]; intros x.
  - simpl. by rewrite Z.mod_1_r.
  - cbn [le_bytes from_le]. rewrite IH, Nat2Z.inj_succ, Z.pow_succ_r by lia.
    rewrite Z.rem_mul_r by (try apply Z.pow_nonzero; lia). lia.
Qed.

Lemma from_le_bound l : bytes_ok l -> 0 <= from_le l < 256 ^ len l.
Proof.
  induction 1 as [|b l Hb _ IH]; [simpl; lia|].
  cbn [from_le length]. rewrite Nat2Z.inj_succ, Z.pow_succ_r by lia.
  unfold byte_ok in Hb. lia.
Qed.

Lemma le_bytes_from_le l : bytes_ok l -> le_bytes (length l) (from_le l) = l.
Proof.
  induction 1 as [|b l Hb _ IH]; [done|]. cbn [from_le length le_bytes].
  unfold byte_ok in Hb. f_equal.
  - rewrite Z.mul_comm, Z.mod_add, Z.mod_small; lia.
  - replace ((b + 256 * from_le l) / 256) with (from_le l); [done|].
    rewrite Z.mul_comm, Z.div_add, Z.div_small; lia.
Qed.

Lemma from_be_be_bytes n x : from_be (be_bytes n x) = x mod 256 ^ Z.of_nat n.
Proof. unfold from_be, be_bytes. rewrite rev_involutive. apply from_le_le_bytes. Qed.

Lemma from_be_bound l : bytes_ok l -> 0 <= from_be l < 256 ^ len l.
Proof.
  intros H. unfold from_be. rewrite <-(length_rev l).
  apply from_le_bound. by apply Forall_rev.
Qed.

Lemma be_bytes_from_be l n : bytes_ok l -> length l = n -> be_bytes n (from_be l) = l.
Proof.
  intros H <-. unfold from_be, be_bytes. rewrite <-(length_rev l).
  rewrite le_bytes_from_le by by apply Forall_rev. apply rev_involutive.
Qed.

(** ** Reading back what was written *)

Lemma idx_Ok data i b : idx data i = Ok b <-> 0 <= i /\ data !! Z.to_nat i = Some b.
Proof.
  unfold idx. destruct (_ && _) eqn:E.
  - destruct (data !! Z.to_nat i) eqn:E'; [|apply lookup_ge_None in E'; lia].
    split; [intros [= ->]; split; [lia|done] | by intros [_ [= ->]]].
  - split; [done|]. intros [? ?%lookup_lt_Some]. lia.
Qed.

Lemma idx_cons_0 b l : idx (b :: l) 0 = Ok b.
Proof. apply idx_Ok. auto with lia. Qed.

(** Two reads agree when they look up the same element. *)
Lemma idx_shift data data' i i' :
  (0 <= i <-> 0 <= i') ->
  (0 <= i -> data !! Z.to_nat i = data' !! Z.to_nat i') -> idx data i = idx data' i'.
Proof.
  intros Hi Hl. unfold idx. destruct (decide (0 <= i)) as [H|H].
  - rewrite Hl by done.
    pose proof (lookup_lt_is_Some data (Z.to_nat i)) as H1.
    pose proof (lookup_lt_is_Some data' (Z.to_nat i')) as H2.
    rewrite Hl in H1 by done. destruct (data' !! Z.to_nat i') as [x|].
    + assert (is_Some (Some x)) as Hs by eauto. apply H1 in Hs as H1'. apply H2 in Hs.
      by repeat guard_true.
    + repeat case_match; done.
  - by repeat guard_false.
Qed.

Lemma idx_cons_S b l i : 0 < i -> idx (b :: l) i = idx l (i - 1).
Proof.
  intros Hi. apply idx_shift; [lia|]. intros _.
  by replace (Z.to_nat i) with (S (Z.to_nat (i - 1))) by lia.
Qed.

Lemma idx_app_r a l i : len a <= i -> idx (a ++ l) i = idx l (i - len a).
Proof.
  intros Hi. apply idx_shift; [lia|]. intros _. rewrite lookup_app_r by lia.
  f_equal. lia.
Qed.

Lemma idx_app_l a l i : 0 <= i < len a -> idx (a ++ l) i = idx a i.
Proof.
  intros Hi. apply idx_shift; [lia|]. intros _. by rewrite lookup_app_l by lia.
Qed.

Lemma slice_shift data data' i j d :
  0 <= i -> 0 <= i - d -> len data - i = len data' - (i - d) ->
  drop (Z.to_nat i) data = drop (Z.to_nat (i - d)) data' ->
  slice data i j = slice data' (i - d) (j - d).
Proof.
  intros H1 H2 H3 H4. unfold slice. rewrite H4.
  replace (j - d - (i - d)) with (j - i) by lia.
  destruct ((0 <=? i) && (i <=? j) && (j <=? len data)) eqn:E.
  - by guard_true.
  - by guard_false.
Qed.

Lemma slice_cons b l i j : 0 < i -> slice (b :: l) i j = slice l (i - 1) (j - 1).
Proof.
  intros Hi. apply slice_shift; [lia|lia|cbn [length]; lia|].
  by replace (Z.to_nat i) with (S (Z.to_nat (i - 1))) by lia.
Qed.

Lemma slice_app_r a l i j :
  len a <= i -> slice (a ++ l) i j = slice l (i - len a) (j - len a).
Proof.
  intros Hi. apply slice_shift; [lia|lia|rewrite length_app; lia|].
  rewrite drop_app_ge by lia. f_equal. lia.
Qed.

Lemma slice_app_l a l j : j = len a -> slice (a ++ l) 0 j = Ok a.
Proof.
  intros ->. unfold slice. rewrite length_app. guard_true.
  by rewrite Z.sub_0_r, Nat2Z.id, drop_0, take_app_length.
Qed.

Lemma slice_all a j : j = len a -> slice a 0 j = Ok a.
Proof.
  intros ->. unfold slice. guard_true. by rewrite Z.sub_0_r, Nat2Z.id, drop_0, firstn_all.
Qed.

Lemma slice_cons_0 b l j : 0 < j ->
  slice (b :: l) 0 j = omap (cons b) (slice l 0 (j - 1)).
Proof.
  intros Hj. unfold slice, omap. cbn [length].
  replace (j - 0) with j by lia. replace (j - 1 - 0) with (j - 1) by lia.
  replace (Z.to_nat j) with (S (Z.to_nat (j - 1))) by lia.
  destruct ((0 <=? 0) && (0 <=? j - 1) && (j - 1 <=? len l)) eqn:E.
  - by guard_true.
  - by guard_false.
Qed.

Lemma slice_Ok data i j s :
  slice data i j = Ok s <->
  0 <= i <= j /\ j <= len data /\ s = take (Z.to_nat (j - i)) (drop (Z.to_nat i) data).
Proof.
  unfold slice. destruct (_ && _ && _) eqn:E.
  - split; [intros [= <-]; repeat split; lia | by intros (_ & _ & ->)].
  - split; [done|]. lia.
Qed.

Lemma slice_length data i j s : slice data i j = Ok s -> len s = j - i.
Proof. intros (?&?&->)%slice_Ok. lenlia. Qed.

Lemma slice_bytes_ok data i j s : bytes_ok data -> slice data i j = Ok s -> bytes_ok s.
Proof. intros ? (?&?&->)%slice_Ok. by apply Forall_take, Forall_drop. Qed.

Lemma le_at_write n x l i :
  i = 0 -> 0 <= x < 256 ^ Z.of_nat n -> le_at n (le_bytes n x ++ l) i = Ok x.
Proof.
  intros -> Hx. unfold le_at. rewrite slice_app_l by lenlia. simpl.
  by rewrite from_le_le_bytes, Z.mod_small.
Qed.

Lemma le_at_write_end n x i :
  i = 0 -> 0 <= x < 256 ^ Z.of_nat n -> le_at n (le_bytes n x) i = Ok x.
Proof. intros. rewrite <-(app_nil_r (le_bytes n x)). by apply le_at_write. Qed.

Lemma be_at_write n x l i :
  i = 0 -> 0 <= x < 256 ^ Z.of_nat n -> be_at n (be_bytes n x ++ l) i = Ok x.
Proof.
  intros -> Hx. unfold be_at. rewrite slice_app_l by lenlia. simpl.
  by rewrite from_be_be_bytes, Z.mod_small.
Qed.

Lemma be_at_write_end n x i :
  i = 0 -> 0 <= x < 256 ^ Z.of_nat n -> be_at n (be_bytes n x) i = Ok x.
Proof. intros. rewrite <-(app_nil_r (be_bytes n x)). by apply be_at_write. Qed.

Lemma le_at_cons n b l i : 0 < i -> le_at n (b :: l) i = le_at n l (i - 1).
Proof.
  intros. unfold le_at. rewrite slice_cons by done.
  by replace (i + Z.of_nat n - 1) with (i - 1 + Z.of_nat n) by lia.
Qed.

Lemma be_at_cons n b l i : 0 < i -> be_at n (b :: l) i = be_at n l (i - 1).
Proof.
  intros. unfold be_at. rewrite slice_cons by done.
  by replace (i + Z.of_nat n - 1) with (i - 1 + Z.of_nat n) by lia.
Qed.

Lemma le_at_app_r n a l i : len a <= i -> le_at n (a ++ l) i = le_at n l (i - len a).
Proof.
  intros. unfold le_at. rewrite slice_app_r by done.
  by replace (i + Z.of_nat n - len a) with (i - len a + Z.of_nat n) by lia.
Qed.

Lemma be_at_app_r n a l i : len a <= i -> be_at n (a ++ l) i = be_at n l (i - len a).
Proof.
  intros. unfold be_at. rewrite slice_app_r by done.
  by replace (i + Z.of_nat n - len a) with (i - len a + Z.of_nat n) by lia.
Qed.

Lemma uadd_Ok a b : a + b <= usize_max -> uadd a b = Ok (a + b).
Proof. intros. unfold uadd. by guard_true. Qed.

(** ** Safety of the readers *)

Lemma safe_idx data i (Q : Z -> Prop) :
  0 <= i < len data ->
  (forall b, idx data i = Ok b -> (bytes_ok data -> byte_ok b) -> Q b) -> safe (idx data i) Q.
Proof.
  intros Hi HQ. destruct (lookup_lt_is_Some_2 data (Z.to_nat i)) as [b Hb]; [lia|].
  assert (idx data i = Ok b) as E by (apply idx_Ok; auto with lia).
  rewrite E. simpl. apply HQ; [done|]. intros Hok. by eapply Forall_lookup_1 in Hok.
Qed.

Lemma safe_slice data i j (Q : bytes -> Prop) :
  0 <= i <= j -> j <= len data ->
  (forall s, slice data i j = Ok s -> len s = j - i -> (bytes_ok data -> bytes_ok s) -> Q s) ->
  safe (slice data i j) Q.
Proof.
  intros Hi Hj HQ. destruct (slice data i j) eqn:E.
  - simpl. apply HQ; [done|by eapply slice_length|]. intros. by eapply slice_bytes_ok.
  - by unfold slice in E; case_match.
  - unfold slice in E. case_match; [done|lia].
Qed.

Lemma safe_slice_from data i (Q : bytes -> Prop) :
  0 <= i <= len data ->
  (forall s, slice data i (len data) = Ok s -> len s = len data - i ->
     (bytes_ok data -> bytes_ok s) -> Q s) ->
  safe (slice_from data i) Q.
Proof. intros. unfold slice_from. by apply safe_slice. Qed.

Lemma safe_uadd a b (Q : Z -> Prop) :
  a + b <= usize_max -> Q (a + b) -> safe (uadd a b) Q.
Proof. intros. unfold uadd. by guard_true. Qed.

Lemma safe_le_at n data i (Q : Z -> Prop) :
  0 <= i -> i + Z.of_nat n <= len data ->
  (forall x, le_at n data i = Ok x -> (bytes_ok data -> 0 <= x < 256 ^ Z.of_nat n) -> Q x) ->
  safe (le_at n data i) Q.
Proof.
  intros Hi Hj HQ. destruct (slice data i (i + Z.of_nat n)) as [s| |] eqn:E.
  - assert (le_at n data i = Ok (from_le s)) as E' by (unfold le_at; by rewrite E).
    rewrite E'. simpl. apply HQ; [done|]. intros Hd.
    pose proof (slice_length _ _ _ _ E). apply slice_bytes_ok in E; [|done].
    pose proof (from_le_bound s E). by replace (Z.of_nat n) with (len s) by lia.
  - by unfold slice in E; case_match.
  - unfold slice in E. case_match; [done|lia].
Qed.

Lemma safe_be_at n data i (Q : Z -> Prop) :
  0 <= i -> i + Z.of_nat n <= len data ->
  (forall x, be_at n data i = Ok x -> (bytes_ok data -> 0 <= x < 256 ^ Z.of_nat n) -> Q x) ->
  safe (be_at n data i) Q.
Proof.
  intros Hi Hj HQ. destruct (slice data i (i + Z.of_nat n)) as [s| |] eqn:E.
  - assert (be_at n data i = Ok (from_be s)) as E' by (unfold be_at; by rewrite E).
    rewrite E'. simpl. apply HQ; [done|]. intros Hd.
    pose proof (slice_length _ _ _ _ E). apply slice_bytes_ok in E; [|done].
    pose proof (from_be_bound s E). by replace (Z.of_nat n) with (len s) by lia.
  - by unfold slice in E; case_match.
  - unfold slice in E. case_match; [done|lia].
Qed.

(** ** Reassembling a message from its parts *)

Lemma slice_join data i j k a b :
  slice data i j = Ok a -> slice data j k = Ok b -> slice data i k = Ok (a ++ b).
Proof.
  intros (Hi & Hj & ->)%slice_Ok (Hjk & Hk & ->)%slice_Ok. apply slice_Ok. split; [lia|].
  split; [lia|]. replace (Z.to_nat (k - i)) with (Z.to_nat (j - i) + Z.to_nat (k - j))%nat by lia.
  rewrite <-take_take_drop, drop_drop.
  by replace (Z.to_nat i + Z.to_nat (j - i))%nat with (Z.to_nat j) by lia.
Qed.

Lemma slice_idx data i b : idx data i = Ok b -> slice data i (i + 1) = Ok [b].
Proof.
  intros [Hi Hb]%idx_Ok. apply slice_Ok.
  pose proof (lookup_lt_Some _ _ _ Hb). split; [lia|]. split; [lia|].
  replace (Z.to_nat (i + 1 - i)) with 1%nat by lia. erewrite drop_S by done. done.
Qed.

Lemma slice_join_cons data i k b l :
  idx data i = Ok b -> slice data (i + 1) k = Ok l -> slice data i k = Ok (b :: l).
Proof. intros Hb Hl. apply (slice_join _ i (i + 1) k [b] l); [|done]. by apply slice_idx. Qed.

Lemma slice_full data a : slice data 0 (len data) = Ok a <-> a = data.
Proof. rewrite slice_all by done. split; congruence. Qed.

Lemma slice_le_at n data i x :
  bytes_ok data -> le_at n data i = Ok x -> slice data i (i + Z.of_nat n) = Ok (le_bytes n x).
Proof.
  unfold le_at. intros Hok. destruct (slice _ _ _) as [s| |] eqn:E; [|done|done].
  intros [= <-]. f_equal. pose proof (slice_length _ _ _ _ E).
  apply slice_bytes_ok in E; [|done]. replace n with (length s) by lia.
  by rewrite le_bytes_from_le.
Qed.

Lemma slice_be_at n data i x :
  bytes_ok data -> be_at n data i = Ok x -> slice data i (i + Z.of_nat n) = Ok (be_bytes n x).
Proof.
  unfold be_at. intros Hok. destruct (slice _ _ _) as [s| |] eqn:E; [|done|done].
  intros [= <-]. f_equal. pose proof (slice_length _ _ _ _ E).
  apply slice_bytes_ok in E; [|done]. by rewrite be_bytes_from_be by (done || lia).
Qed.

(** ** Tactics for wire formats

    [read_step] advances one read of a message that is written out as a
    concatenation of fields; [safe_step] walks through a decoder, proving at
    each read that it stays inside the slice. *)

Ltac pos_lia := autounfold with aivpn_consts; autorewrite with aivpn_len; lia.

Ltac read_step :=
  match goal with
  | |- context [idx (?b :: ?l) ?i] =>
      first [ rewrite (idx_cons_S b l i) by pos_lia
            | replace i with 0 by pos_lia; rewrite (idx_cons_0 b l) ]
  | |- context [idx (?a ++ ?l) ?i] =>
      first [ rewrite (idx_app_r a l i) by pos_lia | rewrite (idx_app_l a l i) by pos_lia ]
  | |- context [slice (?b :: ?l) ?i ?j] => rewrite (slice_cons b l i j) by pos_lia
  | |- context [slice (?a ++ ?l) ?i ?j] =>
      first [ rewrite (slice_app_r a l i j) by pos_lia
            | replace i with 0 by pos_lia; rewrite (slice_app_l a l j) by pos_lia ]
  | |- context [slice ?a ?i ?j] =>
      replace i with 0 by pos_lia; rewrite (slice_all a j) by pos_lia
  | |- context [le_at ?n (?b :: ?l) ?i] => rewrite (le_at_cons n b l i) by pos_lia
  | |- context [le_at ?n (le_bytes ?n ?x ++ ?l) ?i] =>
      rewrite (le_at_write n x l i); [|pos_lia|first [assumption|wire_lia]]
  | |- context [le_at ?n (le_bytes ?n ?x) ?i] =>
      rewrite (le_at_write_end n x i); [|pos_lia|first [assumption|wire_lia]]
  | |- context [le_at ?n (?a ++ ?l) ?i] => rewrite (le_at_app_r n a l i) by pos_lia
  | |- context [be_at ?n (?b :: ?l) ?i] => rewrite (be_at_cons n b l i) by pos_lia
  | |- context [be_at ?n (be_bytes ?n ?x ++ ?l) ?i] =>
      rewrite (be_at_write n x l i); [|pos_lia|first [assumption|wire_lia]]
  | |- context [be_at ?n (be_bytes ?n ?x) ?i] =>
      rewrite (be_at_write_end n x i); [|pos_lia|first [assumption|wire_lia]]
  | |- context [be_at ?n (?a ++ ?l) ?i] => rewrite (be_at_app_r n a l i) by pos_lia
  end.

(** [read_field Hd] evaluates the read at the head of a decoder whose input
    [data] is given by [Hd : data = field ++ ...]; the input stays abstract in
    the goal. *)
Ltac eval_read Hd m :=
  let H := fresh in
  eassert (m = Ok _) as H by (rewrite Hd; repeat read_step; reflexivity);
  rewrite H; clear H; cbn [obind].
Ltac read_field Hd :=
  match goal with |- obind ?m _ = _ => eval_read Hd m end.

Ltac uadd_step :=
  match goal with
  | |- context [uadd ?a ?b] => rewrite (uadd_Ok a b) by (first [pos_lia | wire_lia])
  end.

(** The bytes of the input are bytes: use that for every value read. *)
Ltac use_bytes_ok :=
  repeat match goal with
  | H : Forall byte_ok ?d -> _, H' : Forall byte_ok ?d |- _ =>
      specialize (H H')
  end.

Ltac norm_bool E :=
  autounfold with aivpn_consts in E; autorewrite with aivpn_bool in E.

Ltac safe_lia := first [pos_lia | wire_lia].

Ltac safe_step :=
  match goal with
  | |- safe (obind _ _) _ => apply safe_bind
  | |- safe (if ?b then _ else _) _ =>
      let E := fresh "Hb" in destruct b eqn:E; norm_bool E
  | |- safe (Err _) _ => exact I
  | |- safe (Ok ?a) ?Q => change (Q a); cbv beta
  | |- safe (idx _ _) _ => apply safe_idx; [safe_lia | intros ? ? ?; use_bytes_ok]
  | |- safe (slice _ _ _) _ =>
      apply safe_slice; [safe_lia | safe_lia | intros ? ? ? ?; use_bytes_ok]
  | |- safe (slice_from _ _) _ =>
      apply safe_slice_from; [safe_lia | intros ? ? ? ?; use_bytes_ok]
  | |- safe (uadd _ _) _ => apply safe_uadd; [safe_lia | ]
  | |- safe (le_at _ _ _) _ =>
      apply safe_le_at; [safe_lia | safe_lia | intros ? ? ?; use_bytes_ok]
  | |- safe (be_at _ _ _) _ =>
      apply safe_be_at; [safe_lia | safe_lia | intros ? ? ?; use_bytes_ok]
  | |- safe (omap _ _) _ => apply safe_omap
  | |- safe (ok_or _ _) _ => apply safe_ok_or; intros ? ?
  end.

(** Evaluate the guard at the head of a decoder. *)
Ltac dec_guard :=
  match goal with
  | |- (if ?b then _ else _) = _ =>
      let H := fresh in
      first [ assert (b = false) as H by (unfold sat_sub; autorewrite with aivpn_bool; safe_lia)
            | assert (b = true) as H by (unfold sat_sub; autorewrite with aivpn_bool; safe_lia) ];
      rewrite H; clear H
  end.
