(* ===== verification/Collections.v ===== *)
(** * Hash maps and iteration

    A Rust [HashMap] is a [gmap]. The order in which
    [iter()], [values()] and [retain] visit it is unspecified, so the
    development is parametric in it: [HashIter] is the interface a component
    uses to walk a map, and its only law is that the walk visits every binding
    once. *)

From S2P Require Import Prelude.
From Stdlib Require Import Sorted.
Local Open Scope Z_scope.

Class HashIter : Type := {
  hash_iter : forall {K A : Type} `{!EqDecision K, !Countable K}, gmap K A -> list (K * A);
  hash_iter_perm : forall {K A : Type} `{!EqDecision K, !Countable K} (m : gmap K A),
    hash_iter m ≡ₚ map_to_list m;
}.

(** One admissible order: the one of the map itself. *)
Definition ordered_iter : HashIter :=
  {| hash_iter K A _ _ m := map_to_list m; hash_iter_perm K A _ _ m := Permutation_refl _ |}.

Section Iter.
Context `{!HashIter, !EqDecision K, !Countable K}.

Lemma elem_of_iter {A} (m : gmap K A) k x : (k, x) ∈ hash_iter m <-> m !! k = Some x.
Proof. rewrite hash_iter_perm. apply elem_of_map_to_list. Qed.

Lemma length_iter {A} (m : gmap K A) : length (hash_iter m) = size m.
Proof. rewrite hash_iter_perm. apply length_map_to_list. Qed.

Lemma NoDup_iter {A} (m : gmap K A) : NoDup (hash_iter m).*1.
Proof. rewrite hash_iter_perm. apply NoDup_fst_map_to_list. Qed.
End Iter.

(** [Iterator::min_by_key]: the first of the elements with the least key. *)
Section MinBy.
Context {A : Type} (lt : A -> A -> bool).

Fixpoint min_from (best : A) (l : list A) : A :=
  match l with
  | [] => best
  | x :: l => min_from (if lt x best then x else best) l
  end.

Definition min_by (l : list A) : option A :=
  match l with [] => None | x :: l => Some (min_from x l) end.

Lemma min_from_elem best l : min_from best l = best \/ min_from best l ∈ l.
Proof.
  revert best. induction l as [|x l IH]; intros best; [by left|]. cbn [min_from].
  destruct (IH (if lt x best then x else best)) as [->|H]; [|by right; right].
  destruct (lt x best); [right; left|by left].
Qed.

Lemma min_by_elem l x : min_by l = Some x -> x ∈ l.
Proof.
  destruct l as [|y l]; [done|]. intros [= <-].
  destruct (min_from_elem y l) as [->|H]; [left|by right].
Qed.

Lemma min_by_None l : min_by l = None <-> l = [].
Proof. by destruct l. Qed.
End MinBy.

(** The number of bindings that satisfy a predicate. *)
Definition count_where {A} (P : A -> bool) (m : gmap Z A) : nat :=
  size (filter (fun kx => P (snd kx) = true) m).

Section CountWhere.
Context {A : Type} (P : A -> bool).

Lemma count_where_insert m k x :
  m !! k = None ->
  count_where P (<[k := x]> m) = ((if P x then 1 else 0) + count_where P m)%nat.
Proof.
  intros Hk. unfold count_where. destruct (P x) eqn:E.
  - rewrite map_filter_insert_True by done. rewrite map_size_insert_None; [done|].
    apply map_lookup_filter_None. by left.
  - rewrite map_filter_insert_False by (simpl; congruence). by rewrite delete_id.
Qed.

Lemma count_where_delete m k x :
  m !! k = Some x ->
  count_where P m = ((if P x then 1 else 0) + count_where P (delete k m))%nat.
Proof.
  intros Hk. rewrite <-(insert_delete_id m k x) at 1 by done.
  apply count_where_insert, lookup_delete_eq.
Qed.

Lemma count_where_mono m m' : m ⊆ m' -> (count_where P m <= count_where P m')%nat.
Proof.
  intros H. unfold count_where. apply map_subseteq_size. by apply map_filter_subseteq_mono.
Qed.

Lemma count_where_replace m k x y :
  m !! k = Some x -> P x = P y -> count_where P (<[k := y]> m) = count_where P m.
Proof.
  intros Hk E. rewrite <-(insert_delete_eq m k y), count_where_insert by apply lookup_delete_eq.
  by rewrite (count_where_delete m k x), E.
Qed.

Lemma count_where_iter `{!HashIter} m :
  length (filter (fun kx : Z * A => P (snd kx) = true) (hash_iter m)) = count_where P m.
Proof.
  rewrite hash_iter_perm. induction m as [|k x m Hk IH] using map_ind; [done|].
  rewrite map_to_list_insert by done. rewrite count_where_insert by done. rewrite filter_cons.
  destruct (decide _) as [E|E]; simpl in E.
  - rewrite E. simpl. by f_equal.
  - apply not_true_is_false in E. by rewrite E.
Qed.
End CountWhere.

(** ** Sorting

    [slice::sort_by], which is stable: [lt] is the strict order of the keys, and an
    element stays behind the ones equal to it in front of it. *)
Section Sort.
Context {A : Type} (lt : A -> A -> bool).

Fixpoint insert_sorted (x : A) (l : list A) : list A :=
  match l with
  | [] => [x]
  | y :: l' => if lt y x then y :: insert_sorted x l' else x :: l
  end.

Fixpoint sort_by (l : list A) : list A :=
  match l with [] => [] | x :: l => insert_sorted x (sort_by l) end.

Lemma insert_sorted_perm x l : insert_sorted x l ≡ₚ x :: l.
Proof.
  induction l as [|y l IH]; [done|]. cbn [insert_sorted]. destruct (lt y x); [|done].
  rewrite IH. apply perm_swap.
Qed.

Lemma sort_by_perm l : sort_by l ≡ₚ l.
Proof. induction l as [|x l IH]; [done|]. cbn [sort_by]. by rewrite insert_sorted_perm, IH. Qed.

Lemma sort_by_fix l : Sorted (fun a b => lt b a = false) l -> sort_by l = l.
Proof.
  induction 1 as [|x l Hl IH Hd]; [done|]. cbn [sort_by]. rewrite IH.
  destruct Hd as [|y l Hxy]; [done|]. cbn [insert_sorted]. by rewrite Hxy.
Qed.

Hypothesis lt_asym : forall a b, lt a b = true -> lt b a = false.

Lemma insert_sorted_ok x l :
  Sorted (fun a b => lt b a = false) l -> Sorted (fun a b => lt b a = false) (insert_sorted x l).
Proof.
  induction 1 as [|y l Hl IH Hd]; [by repeat constructor|]. cbn [insert_sorted].
  destruct (lt y x) eqn:E; [|constructor; [by constructor|by constructor]].
  constructor; [done|]. destruct Hd as [|z l Hyz]; cbn [insert_sorted].
  - constructor. auto.
  - destruct (lt z x); constructor; auto.
Qed.

Lemma sort_by_sorted l : Sorted (fun a b => lt b a = false) (sort_by l).
Proof. induction l as [|x l IH]; [constructor|]. by apply insert_sorted_ok. Qed.
End Sort.
