(* ===== verification/Text.v ===== *)
(** * Strings

    The operations of Rust's [str] that the selection of masks uses, on the UTF-8
    bytes of a string: prefixes, splitting at an ASCII separator, trimming of Unicode
    white space, and the [Display] and [LowerHex] forms of a byte. The lemmas give
    the pieces of a string put together with a separator. *)

From S2P Require Import Prelude.
From Stdlib Require Import Ascii.
From Stdlib Require String.
Local Open Scope Z_scope.

(** [str::strip_prefix] *)
Fixpoint strip_prefix (prefix s : bytes) : option bytes :=
  match prefix, s with
  | [], _ => Some s
  | p :: prefix, b :: s => if p =? b then strip_prefix prefix s else None
  | _ :: _, [] => None
  end.

Definition starts_with (prefix s : bytes) : bool := bool_decide (is_Some (strip_prefix prefix s)).

(** [str::split] at a one-byte separator; never empty. *)
Fixpoint split (sep : Z) (s : bytes) : list bytes :=
  match s with
  | [] => [[]]
  | b :: s =>
      if b =? sep then [] :: split sep s
      else match split sep s with
           | piece :: pieces => (b :: piece) :: pieces
           | [] => [[b]]
           end
  end.

(** The pieces put back together. *)
Fixpoint join (sep : Z) (pieces : list bytes) : bytes :=
  match pieces with
  | [] => []
  | [piece] => piece
  | piece :: pieces => piece ++ sep :: join sep pieces
  end.

(** The pieces from the right, the last of [n] being what is left. *)
Fixpoint rpieces (sep : Z) (n : nat) (pieces : list bytes) : list bytes :=
  match n, pieces with
  | O, _ => []
  | _, [] => []
  | S O, pieces => [join sep (rev pieces)]
  | S n, piece :: pieces => piece :: rpieces sep n pieces
  end.

(** [str::rsplitn] *)
Definition rsplitn (n : nat) (sep : Z) (s : bytes) : list bytes := rpieces sep n (rev (split sep s)).

(** ** White space *)

(** The characters of white space: the ASCII ones, U+0085 and U+00A0 in two bytes,
    U+1680, U+2000..U+200A, U+2028, U+2029, U+202F, U+205F and U+3000 in three. *)
Definition space1 (a : Z) : bool := ((9 <=? a) && (a <=? 13)) || (a =? 32).
Definition space2 (a b : Z) : bool := (a =? 194) && ((b =? 133) || (b =? 160)).
Definition space3 (a b c : Z) : bool :=
  ((a =? 225) && (b =? 154) && (c =? 128))
  || ((a =? 226) && (b =? 128)
      && (((128 <=? c) && (c <=? 138)) || (c =? 168) || (c =? 169) || (c =? 175)))
  || ((a =? 226) && (b =? 129) && (c =? 159))
  || ((a =? 227) && (b =? 128) && (c =? 128)).

(** The bytes of the one in front, and of the one at the end of a reversed string. *)
Definition space_width (s : bytes) : nat :=
  let '(a, b, c) := (nth 0 s 0, nth 1 s 0, nth 2 s 0) in
  (if space1 a then 1 else if space2 a b then 2 else if space3 a b c then 3 else 0)%nat.

Definition space_width_rev (s : bytes) : nat :=
  let '(a, b, c) := (nth 0 s 0, nth 1 s 0, nth 2 s 0) in
  (if space1 a then 1 else if space2 b a then 2 else if space3 c b a then 3 else 0)%nat.

Fixpoint skip_spaces (width : bytes -> nat) (fuel : nat) (s : bytes) : bytes :=
  match fuel with
  | O => s
  | S fuel => match width s with O => s | n => skip_spaces width fuel (drop n s) end
  end.

(** [str::trim]: the fuel is the length, and every step drops a byte. *)
Definition trim (s : bytes) : bytes :=
  let s := skip_spaces space_width (length s) s in
  rev (skip_spaces space_width_rev (length s) (rev s)).

(** ** Numbers *)

(** [{}] of a u8 *)
Definition dec_u8 (x : Z) : bytes :=
  if x <? 10 then [48 + x]
  else if x <? 100 then [48 + x / 10; 48 + x mod 10]
  else [48 + x / 100; 48 + x / 10 mod 10; 48 + x mod 10].

Definition hex_digit (d : Z) : Z := if d <? 10 then 48 + d else 87 + d.

(** [{:02x}] of a u8 *)
Definition hex_u8 (x : Z) : bytes := [hex_digit (x / 16); hex_digit (x mod 16)].

(** [str::to_ascii_lowercase] *)
Definition to_ascii_lowercase (s : bytes) : bytes :=
  map (fun b => if (65 <=? b) && (b <=? 90) then b + 32 else b) s.

(** ** Pieces *)

(** ** Order *)

(** [Ord] of byte slices, arrays and strings *)
Fixpoint bytes_cmp (a b : bytes) : comparison :=
  match a, b with
  | [], [] => Eq
  | [], _ :: _ => Lt
  | _ :: _, [] => Gt
  | x :: a, y :: b => match x ?= y with Eq => bytes_cmp a b | c => c end
  end.

Definition bytes_lt (a b : bytes) : bool := match bytes_cmp a b with Lt => true | _ => false end.

Lemma bytes_cmp_refl a : bytes_cmp a a = Eq.
Proof. induction a as [|x a IH]; [done|]. cbn. by rewrite Z.compare_refl. Qed.

Lemma bytes_cmp_eq a b : bytes_cmp a b = Eq -> a = b.
Proof.
  revert b. induction a as [|x a IH]; intros [|y b]; [done..|]. cbn.
  destruct (Z.compare_spec x y) as [->| |]; [|done..]. by intros ->%IH.
Qed.

Lemma bytes_cmp_flip a b : bytes_cmp b a = CompOpp (bytes_cmp a b).
Proof.
  revert b. induction a as [|x a IH]; intros [|y b]; [done..|]. cbn.
  rewrite (Z.compare_antisym x y), (IH b). by destruct (x ?= y).
Qed.

Lemma bytes_lt_trans a b c : bytes_lt a b = true -> bytes_lt b c = true -> bytes_lt a c = true.
Proof.
  unfold bytes_lt. revert b c. induction a as [|x a IH]; intros [|y b] [|z c]; try done. cbn.
  destruct (Z.compare_spec x y) as [->|Hxy|], (Z.compare_spec y z) as [->|Hyz|]; try done.
  - by apply IH.
  - intros _ _. assert ((x ?= z) = Lt) as -> by (by apply Z.compare_lt_iff). done.
  - intros _ _. assert ((x ?= z) = Lt) as -> by (apply Z.compare_lt_iff; lia). done.
Qed.

Lemma bytes_lt_irrefl a : bytes_lt a a = false.
Proof. unfold bytes_lt. by rewrite bytes_cmp_refl. Qed.

Lemma bytes_lt_total a b : bytes_lt a b = false -> bytes_lt b a = false -> a = b.
Proof.
  unfold bytes_lt. rewrite (bytes_cmp_flip a b). destruct (bytes_cmp a b) eqn:E; [|done..].
  intros _ _. by apply bytes_cmp_eq.
Qed.

Lemma bytes_lt_neq a b : a <> b -> bytes_lt a b = negb (bytes_lt b a).
Proof.
  unfold bytes_lt. rewrite (bytes_cmp_flip a b). destruct (bytes_cmp a b) eqn:E; [|done..].
  intros H. by apply bytes_cmp_eq in E.
Qed.

Lemma bytes_lt_asym a b : bytes_lt a b = true -> bytes_lt b a = false.
Proof. unfold bytes_lt. rewrite (bytes_cmp_flip a b). by destruct (bytes_cmp a b). Qed.

Lemma strip_prefix_app prefix s : strip_prefix prefix (prefix ++ s) = Some s.
Proof. induction prefix as [|b prefix IH]; [by destruct s|]. cbn. by rewrite Z.eqb_refl. Qed.

Lemma strip_prefix_Some prefix s rest : strip_prefix prefix s = Some rest -> s = prefix ++ rest.
Proof.
  revert s. induction prefix as [|p prefix IH]; intros s; cbn; [by intros [= ->]|].
  destruct s as [|b s]; [done|]. destruct (Z.eqb_spec p b) as [->|]; [|done]. intros ->%IH. done.
Qed.

Lemma split_plain sep s : sep ∉ s -> split sep s = [s].
Proof.
  induction s as [|b s IH]; [done|]. intros [Hb Hs]%not_elem_of_cons. cbn [split].
  rewrite (proj2 (Z.eqb_neq b sep)) by done. by rewrite IH.
Qed.

Lemma split_app sep s rest : sep ∉ s -> split sep (s ++ sep :: rest) = s :: split sep rest.
Proof.
  induction s as [|b s IH]; cbn [app split]; [by rewrite Z.eqb_refl|].
  intros [Hb Hs]%not_elem_of_cons. rewrite (proj2 (Z.eqb_neq b sep)) by done. by rewrite IH.
Qed.

Lemma split_cons sep s : exists piece pieces, split sep s = piece :: pieces.
Proof. destruct s as [|b s]; cbn; [eauto|]. destruct (b =? sep); [eauto|]. case_match; eauto. Qed.

Lemma split_snoc sep rest s : sep ∉ s -> split sep (rest ++ sep :: s) = split sep rest ++ [s].
Proof.
  intros Hs. induction rest as [|b rest IH]; cbn [app split].
  - by rewrite Z.eqb_refl, (split_plain sep s Hs).
  - rewrite IH. destruct (split_cons sep rest) as (piece & pieces & ->). by destruct (b =? sep).
Qed.

(** A string is its pieces. *)
Lemma join_split sep s : join sep (split sep s) = s.
Proof.
  induction s as [|b s IH]; [done|]. cbn [split]. destruct (split_cons sep s) as (piece & pieces & E).
  rewrite E in *. destruct (Z.eqb_spec b sep) as [->|].
  - change (sep :: join sep (piece :: pieces) = sep :: s). by rewrite IH.
  - destruct pieces; cbn [join app] in *; by rewrite IH.
Qed.

Lemma hex_digit_plain d : hex_digit d <> 58.
Proof. unfold hex_digit. destruct (Z.ltb_spec d 10); lia. Qed.

Lemma dec_u8_plain x : 0 <= x < 256 -> 58 ∉ dec_u8 x.
Proof.
  intros Hx. unfold dec_u8. destruct (Z.ltb_spec x 10); [|destruct (Z.ltb_spec x 100)];
    rewrite ?not_elem_of_cons; repeat split; try apply not_elem_of_nil; divlia.
Qed.

Lemma dec_u8_inj x y : 0 <= x < 256 -> 0 <= y < 256 -> dec_u8 x = dec_u8 y -> x = y.
Proof.
  intros Hx Hy. unfold dec_u8.
  destruct (Z.ltb_spec x 10), (Z.ltb_spec y 10), (Z.ltb_spec x 100), (Z.ltb_spec y 100); intros [=]; divlia.
Qed.

(** The pieces behind the first bytes of a string. *)
Lemma split_drop sep k s :
  exists pre p post j, split sep s = pre ++ p :: post /\ split sep (drop k s) = drop j p :: post.
Proof.
  revert k. induction s as [|b s IH]; intros k; [exists [], [], [], 0%nat; by destruct k|].
  destruct k as [|k].
  { destruct (split_cons sep (b :: s)) as (p & post & E). exists [], p, post, 0%nat. by rewrite drop_0, E. }
  destruct (IH k) as (pre & p & post & j & E1 & E2). cbn [drop split]. rewrite E2. destruct (b =? sep).
  - exists ([] :: pre), p, post, j. by rewrite E1.
  - rewrite E1. destruct pre as [|q pre]; cbn [app].
    + by exists [], (b :: p), post, (S j).
    + by exists ((b :: q) :: pre), p, post, j.
Qed.
