(* ===== verification/Bitmap.v ===== *)
(** * Bit arrays

    Arrays of 64-bit words used as sets of small numbers, the way the FEC
    receiver ([[u64; 4]]), the anti-replay window ([[u64; 8]]) and the loss
    window ([[u64; 64]]) store them: number [i] is bit [i mod 64] of word
    [i / 64]. *)

From S2P Require Import Prelude.
Local Open Scope Z_scope.

Definition word_ok (x : Z) : Prop := 0 <= x < 2 ^ 64.

Definition words_ok (n : nat) (ws : list Z) : Prop := length ws = n /\ Forall word_ok ws.

Definition bit_at (ws : list Z) (i : Z) : bool :=
  Z.testbit (default 0 (ws !! Z.to_nat (i / 64))) (i mod 64).

(** [words[i / 64] |= 1u64 << (i % 64)] *)
Definition set_at (ws : list Z) (i : Z) : list Z :=
  let k := Z.to_nat (i / 64) in
  <[k := Z.lor (default 0 (ws !! k)) (Z.shiftl 1 (i mod 64))]> ws.

Lemma testbit_shiftl1 i k : 0 <= k -> 0 <= i -> Z.testbit (Z.shiftl 1 k) i = (i =? k).
Proof.
  intros Hk Hi. rewrite Z.shiftl_1_l. destruct (Z.eqb_spec i k) as [->|Hne].
  - by apply Z.pow2_bits_true.
  - by apply Z.pow2_bits_false.
Qed.

(** [word & (1 << k) != 0] reads bit [k]. *)
Lemma land_shiftl1 x k : 0 <= k -> negb (Z.land x (Z.shiftl 1 k) =? 0) = Z.testbit x k.
Proof.
  intros Hk. destruct (Z.testbit x k) eqn:E.
  - apply negb_true_iff, Z.eqb_neq. intros H0.
    assert (Z.testbit (Z.land x (Z.shiftl 1 k)) k = true) as Ht.
    { by rewrite Z.land_spec, E, testbit_shiftl1, Z.eqb_refl. }
    by rewrite H0, Z.bits_0 in Ht.
  - apply negb_false_iff, Z.eqb_eq, Z.bits_inj'. intros i Hi.
    rewrite Z.land_spec, Z.bits_0, testbit_shiftl1 by done.
    destruct (Z.eqb_spec i k) as [->|Hne]; [by rewrite E|apply andb_false_r].
Qed.

(** [(word >> k) & 1 == 1] reads bit [k]. *)
Lemma shiftr_land1 x k : 0 <= k -> (Z.land (Z.shiftr x k) 1 =? 1) = Z.testbit x k.
Proof.
  intros Hk. rewrite Z.testbit_odd. set (y := Z.shiftr x k).
  change 1 with (Z.ones 1) at 1. rewrite Z.land_ones by lia. change (2 ^ 1) with 2.
  rewrite Zmod_odd. by destruct (Z.odd y).
Qed.

Lemma length_set_at ws i : length (set_at ws i) = length ws.
Proof. apply length_insert. Qed.

Lemma bit_at_set ws i j :
  (Z.to_nat (i / 64) < length ws)%nat -> 0 <= i -> 0 <= j ->
  bit_at (set_at ws i) j = (i =? j) || bit_at ws j.
Proof.
  intros Hl Hi Hj. unfold bit_at, set_at.
  pose proof (Z.mod_pos_bound i 64 ltac:(lia)). pose proof (Z.mod_pos_bound j 64 ltac:(lia)).
  destruct (decide (Z.to_nat (i / 64) = Z.to_nat (j / 64))) as [E|E].
  - rewrite <-E. rewrite list_lookup_insert_eq by lia. cbn [from_option id].
    rewrite Z.lor_spec, testbit_shiftl1 by lia. rewrite orb_comm. f_equal.
    destruct (Z.eqb_spec i j), (Z.eqb_spec (j mod 64) (i mod 64)); try done; divlia.
  - rewrite list_lookup_insert_ne by done.
    destruct (Z.eqb_spec i j) as [->|]; [done|]. done.
Qed.

Lemma bit_at_zeros n i : bit_at (zeros n) i = false.
Proof.
  unfold bit_at. destruct (zeros n !! _) as [x|] eqn:E; cbn; [|apply Z.bits_0].
  apply lookup_replicate in E as [-> _]. apply Z.bits_0.
Qed.

Lemma bit_at_high ws i : Z.of_nat (length ws) * 64 <= i -> bit_at ws i = false.
Proof.
  intros Hi. unfold bit_at. rewrite lookup_ge_None_2; [apply Z.bits_0|]. divlia.
Qed.

(** ** Words *)

Lemma word_ok_bits x : 0 <= x -> (forall j, 64 <= j -> Z.testbit x j = false) -> word_ok x.
Proof.
  intros H0 Hb. split; [done|]. destruct (decide (x = 0)) as [->|Hne]; [done|].
  apply Z.log2_lt_pow2; [lia|]. destruct (Z.lt_ge_cases (Z.log2 x) 64) as [|Hge]; [done|].
  pose proof (Z.bit_log2 x ltac:(lia)) as Ht. rewrite Hb in Ht by done. done.
Qed.

Lemma word_ok_high x j : word_ok x -> 64 <= j -> Z.testbit x j = false.
Proof.
  intros [H0 H1] Hj. destruct (decide (x = 0)) as [->|]; [apply Z.bits_0|].
  apply Z.bits_above_log2; [done|]. apply Z.log2_lt_pow2 in H1; lia.
Qed.

Lemma word_ok_lor x y : word_ok x -> word_ok y -> word_ok (Z.lor x y).
Proof.
  intros Hx Hy. apply word_ok_bits; [apply Z.lor_nonneg; by destruct Hx, Hy|].
  intros j Hj. by rewrite Z.lor_spec, !word_ok_high.
Qed.

Lemma word_ok_shiftl1 k : 0 <= k < 64 -> word_ok (Z.shiftl 1 k).
Proof.
  intros Hk. split; [apply Z.shiftl_nonneg; lia|]. rewrite Z.shiftl_1_l. apply Z.pow_lt_mono_r; lia.
Qed.

Lemma word_ok_0 : word_ok 0.
Proof. unfold word_ok. lia. Qed.

Lemma words_ok_zeros n : words_ok n (zeros n).
Proof. split; [apply length_replicate|]. apply Forall_replicate, word_ok_0. Qed.

Lemma words_ok_lookup n ws k : words_ok n ws -> word_ok (default 0 (ws !! k)).
Proof.
  intros [_ H]. destruct (ws !! k) as [x|] eqn:E; cbn; [|apply word_ok_0].
  by apply (Forall_lookup_1 _ _ _ _ H E).
Qed.

Lemma words_ok_set n ws i : words_ok n ws -> words_ok n (set_at ws i).
Proof.
  intros Hw. split; [rewrite length_set_at; by destruct Hw|].
  apply Forall_insert; [by destruct Hw|]. apply word_ok_lor; [by eapply words_ok_lookup|].
  apply word_ok_shiftl1, Z.mod_pos_bound. lia.
Qed.

(** Two arrays with the same bits are the same. *)
Lemma words_ext n ws ws' :
  words_ok n ws -> words_ok n ws' ->
  (forall i, 0 <= i < Z.of_nat n * 64 -> bit_at ws i = bit_at ws' i) -> ws = ws'.
Proof.
  intros Hw Hw' Hb. destruct Hw as [Hl Ho], Hw' as [Hl' Ho'].
  apply list_eq_same_length with n; [done|done|]. intros k x y Hk Hx Hy.
  pose proof (Forall_lookup_1 _ _ _ _ Ho Hx) as Hxo. pose proof (Forall_lookup_1 _ _ _ _ Ho' Hy) as Hyo.
  apply Z.bits_inj'. intros j Hj. destruct (Z.lt_ge_cases j 64).
  - specialize (Hb (Z.of_nat k * 64 + j) ltac:(lia)). unfold bit_at in Hb.
    replace ((Z.of_nat k * 64 + j) / 64) with (Z.of_nat k) in Hb by divlia.
    replace ((Z.of_nat k * 64 + j) mod 64) with j in Hb by divlia.
    rewrite Nat2Z.id, Hx, Hy in Hb. done.
  - by rewrite !word_ok_high.
Qed.
