(* ===== verification/Utf8.v ===== *)
(** * UTF-8 text

    The Rust standard library functions on text that the wire decoders call:
    [std::str::from_utf8], [String::from_utf8_lossy] and [str::as_bytes]. A
    Rust [String] is its list of bytes, together with the invariant
    [utf8_valid]. The scanner follows [core::str::lossy::Utf8Chunks]: a
    sequence that is not well-formed UTF-8 is cut into maximal invalid chunks
    and each chunk is replaced by U+FFFD. *)

From S2P Require Import Prelude Text.

Local Open Scope Z_scope.

(** [safe_get]: a byte past the end reads as zero. *)
Definition safe_get (l : bytes) (i : nat) : Z := default 0 (l !! i).

(** [byte & 192 == TAG_CONT_U8] *)
Definition is_cont (b : Z) : bool := Z.land b 192 =? 128.

Definition in_range (lo hi b : Z) : bool := (lo <=? b) && (b <=? hi).

(** [utf8_char_width] *)
Definition char_width (b : Z) : Z :=
  if in_range 0 127 b then 1
  else if in_range 194 223 b then 2
  else if in_range 224 239 b then 3
  else if in_range 240 244 b then 4
  else 0.

(** The second byte of a three- or four-byte sequence. *)
Definition second_ok (b c : Z) : bool :=
  ((b =? 224) && in_range 160 191 c)
  || (in_range 225 236 b && in_range 128 191 c)
  || ((b =? 237) && in_range 128 159 c)
  || (in_range 238 239 b && in_range 128 191 c)
  || ((b =? 240) && in_range 144 191 c)
  || (in_range 241 243 b && in_range 128 191 c)
  || ((b =? 244) && in_range 128 143 c).

(** One step of the scanner at first byte [b]: how many bytes it consumes and
    whether they form a character. *)
Definition utf8_step (b : Z) (rest : bytes) : nat * bool :=
  match char_width b with
  | 1 => (1%nat, true)
  | 2 => if is_cont (safe_get rest 0) then (2%nat, true) else (1%nat, false)
  | 3 =>
      if second_ok b (safe_get rest 0) then
        if is_cont (safe_get rest 1) then (3%nat, true) else (2%nat, false)
      else (1%nat, false)
  | 4 =>
      if second_ok b (safe_get rest 0) then
        if is_cont (safe_get rest 1) then
          if is_cont (safe_get rest 2) then (4%nat, true) else (3%nat, false)
        else (2%nat, false)
      else (1%nat, false)
  | _ => (1%nat, false)
  end.

(** U+FFFD *)
Definition replacement : bytes := [239; 191; 189].

Fixpoint utf8_valid_fuel (fuel : nat) (l : bytes) : bool :=
  match fuel, l with
  | S f, b :: rest =>
      match utf8_step b rest with
      | (n, true) => utf8_valid_fuel f (drop n l)
      | (_, false) => false
      end
  | _, [] => true
  | O, _ => false
  end.

(** [std::str::from_utf8(l).is_ok()]; a step consumes at least one byte, so
    the length is fuel enough. *)
Definition utf8_valid (l : bytes) : bool := utf8_valid_fuel (length l) l.

Fixpoint lossy_fuel (fuel : nat) (l : bytes) : bytes :=
  match fuel, l with
  | S f, b :: rest =>
      match utf8_step b rest with
      | (n, true) => take n l ++ lossy_fuel f (drop n l)
      | (n, false) => replacement ++ lossy_fuel f (drop n l)
      end
  | _, _ => []
  end.

(** [String::from_utf8_lossy(l).to_string()] *)
Definition from_utf8_lossy (l : bytes) : bytes := lossy_fuel (length l) l.

(** [std::str::from_utf8(l).map_err(|_| e)] *)
Definition from_utf8 (l : bytes) (e : error) : outcome bytes :=
  if utf8_valid l then Ok l else Err e.

(** A Rust [String]. *)
Definition string_ok (s : bytes) : Prop := bytes_ok s /\ utf8_valid s = true.

Section Step.
Context (b : Z) (rest : bytes).

Lemma utf8_step_pos n ok : utf8_step b rest = (n, ok) -> (1 <= n)%nat.
Proof. unfold utf8_step. repeat case_match; intros; simplify_eq; lia. Qed.

Lemma safe_get_take n i : (i < n)%nat -> safe_get (take n rest) i = safe_get rest i.
Proof. intros. unfold safe_get. by rewrite lookup_take_lt. Qed.

Lemma safe_get_in i : safe_get rest i <> 0 -> (i < length rest)%nat.
Proof.
  unfold safe_get. intros H. apply lookup_lt_is_Some. destruct (rest !! i); [eauto|done].
Qed.

Lemma is_cont_nonzero c : is_cont c = true -> c <> 0.
Proof. by intros H ->. Qed.

Lemma second_ok_nonzero c : second_ok b c = true -> c <> 0.
Proof.
  intros H ->. unfold second_ok, in_range in H. wire_lia.
Qed.

(** A character is read from the bytes it consumes only. *)
Lemma utf8_step_valid n :
  utf8_step b rest = (n, true) ->
  (n <= S (length rest))%nat /\
  forall tail, utf8_step b (take (n - 1) rest ++ tail) = (n, true).
Proof.
  assert (forall k i tail, (i < k)%nat -> (i < length rest)%nat ->
    safe_get (take k rest ++ tail) i = safe_get rest i) as Hget.
  { intros k i tail ??. unfold safe_get.
    rewrite lookup_app_l by (rewrite length_take; lia). by rewrite lookup_take_lt by lia. }
  unfold utf8_step. repeat case_match; intros Hn; simplify_eq;
    repeat match goal with
    | H : is_cont (safe_get rest ?i) = true |- _ =>
        pose proof (safe_get_in i (is_cont_nonzero _ H)); revert H
    | H : second_ok b (safe_get rest ?i) = true |- _ =>
        pose proof (safe_get_in i (second_ok_nonzero _ H)); revert H
    end; intros; (split; [lia|]; intros tail; rewrite ?Hget by lia; try done).
  all: repeat match goal with H : _ = true |- _ => rewrite H; clear H end; done.
Qed.
End Step.

Lemma utf8_valid_fuel_more fuel fuel' l :
  (length l <= fuel)%nat -> (length l <= fuel')%nat ->
  utf8_valid_fuel fuel l = utf8_valid_fuel fuel' l.
Proof.
  revert fuel' l; induction fuel as [|f IH]; intros fuel' l H1 H2.
  - destruct l; simpl in *; [by destruct fuel'|lia].
  - destruct l as [|b rest]; [by destruct fuel'|].
    destruct fuel' as [|f']; simpl in *; [lia|].
    destruct (utf8_step b rest) as [n ok] eqn:E. destruct ok; [|done].
    apply utf8_step_pos in E. apply IH; rewrite length_drop; simpl; lia.
Qed.

Lemma utf8_valid_cons b rest :
  utf8_valid (b :: rest) =
  match utf8_step b rest with
  | (n, true) => utf8_valid (drop n (b :: rest))
  | (_, false) => false
  end.
Proof.
  unfold utf8_valid at 1. cbn [utf8_valid_fuel length].
  destruct (utf8_step b rest) as [n [|]] eqn:E; [|done].
  apply utf8_step_pos in E. apply utf8_valid_fuel_more; rewrite length_drop; simpl; lia.
Qed.

(** A character in front of valid text is valid text. *)
Lemma utf8_valid_step b rest n tail :
  utf8_step b rest = (n, true) -> utf8_valid tail = true ->
  utf8_valid (take n (b :: rest) ++ tail) = true.
Proof.
  intros Hs Ht. pose proof (utf8_step_pos _ _ _ _ Hs) as Hpos.
  apply utf8_step_valid in Hs as [Hlen Hs]. destruct n as [|n]; [lia|].
  simpl. rewrite utf8_valid_cons. specialize (Hs tail).
  rewrite Nat.sub_succ, Nat.sub_0_r in Hs. rewrite Hs. simpl.
  rewrite drop_app_length'; [done|]. rewrite length_take. lia.
Qed.

Lemma utf8_valid_app l tail :
  utf8_valid l = true -> utf8_valid tail = true -> utf8_valid (l ++ tail) = true.
Proof.
  remember (length l) as k eqn:Hk. revert l Hk.
  induction k as [k IH] using lt_wf_ind; intros l -> Hl Ht.
  destruct l as [|b rest]; [done|]. rewrite utf8_valid_cons in Hl.
  destruct (utf8_step b rest) as [n [|]] eqn:E; [|done].
  rewrite <-(take_drop n (b :: rest)), <-app_assoc.
  eapply utf8_valid_step; [done|]. eapply IH; [|done|done|done].
  apply utf8_step_pos in E. rewrite length_drop. simpl. lia.
Qed.

Lemma lossy_fuel_valid fuel l :
  (length l <= fuel)%nat -> utf8_valid l = true -> lossy_fuel fuel l = l.
Proof.
  revert l; induction fuel as [|f IH]; intros [|b rest] Hf Hv; simpl in *; try done; [lia|].
  rewrite utf8_valid_cons in Hv. destruct (utf8_step b rest) as [n [|]] eqn:E; [|done].
  rewrite IH; [apply take_drop| |done].
  apply utf8_step_pos in E. rewrite length_drop. simpl. lia.
Qed.

(** Decoding valid text returns it unchanged. *)
Lemma from_utf8_lossy_valid l : utf8_valid l = true -> from_utf8_lossy l = l.
Proof. intros. by apply lossy_fuel_valid. Qed.

Lemma lossy_fuel_is_valid fuel l : utf8_valid (lossy_fuel fuel l) = true.
Proof.
  revert l; induction fuel as [|f IH]; intros [|b rest]; simpl; try done.
  destruct (utf8_step b rest) as [n [|]] eqn:E.
  - by apply utf8_valid_step.
  - by apply (utf8_valid_app replacement).
Qed.

Lemma lossy_fuel_bytes_ok fuel l : bytes_ok l -> bytes_ok (lossy_fuel fuel l).
Proof.
  revert l; induction fuel as [|f IH]; intros [|b rest] Hl; cbn [lossy_fuel];
    try constructor.
  destruct (utf8_step b rest) as [n [|]] eqn:E; apply Forall_app; split.
  - by apply Forall_take.
  - by apply IH, Forall_drop.
  - repeat constructor; unfold byte_ok; lia.
  - by apply IH, Forall_drop.
Qed.

(** Whatever the peer sent, the decoded text is a Rust string. *)
Lemma from_utf8_lossy_ok l : bytes_ok l -> string_ok (from_utf8_lossy l).
Proof.
  intros. split; [by apply lossy_fuel_bytes_ok|apply lossy_fuel_is_valid].
Qed.

Lemma string_ok_lossy s : string_ok s -> from_utf8_lossy s = s.
Proof. intros [_ H]. by apply from_utf8_lossy_valid. Qed.

Lemma string_ok_bytes s : string_ok s -> bytes_ok s.
Proof. by intros [H _]. Qed.

Lemma ascii_valid s : Forall (fun b => 0 <= b < 128) s -> utf8_valid s = true.
Proof.
  induction 1 as [|b s Hb _ IH]; [done|]. rewrite utf8_valid_cons.
  unfold utf8_step, char_width, in_range. by guard_true.
Qed.

#[export] Hint Resolve string_ok_bytes from_utf8_lossy_ok : aivpn.

(** ** Text in pieces *)

Lemma lossy_fuel_more fuel fuel' l :
  (length l <= fuel)%nat -> (length l <= fuel')%nat -> lossy_fuel fuel l = lossy_fuel fuel' l.
Proof.
  revert fuel' l; induction fuel as [|f IH]; intros fuel' l H1 H2.
  - destruct l; simpl in *; [by destruct fuel'|lia].
  - destruct l as [|b rest]; [by destruct fuel'|].
    destruct fuel' as [|f']; cbn [lossy_fuel] in *; [simpl in *; lia|].
    destruct (utf8_step b rest) as [n ok] eqn:E. apply utf8_step_pos in E.
    destruct ok; f_equal; apply IH; rewrite length_drop; simpl in *; lia.
Qed.

Lemma lossy_cons b rest :
  from_utf8_lossy (b :: rest) =
  let '(n, ok) := utf8_step b rest in
  (if ok then take n (b :: rest) else replacement) ++ from_utf8_lossy (drop n (b :: rest)).
Proof.
  unfold from_utf8_lossy at 1. cbn [lossy_fuel length].
  destruct (utf8_step b rest) as [n ok] eqn:E. apply utf8_step_pos in E.
  destruct ok; f_equal; apply lossy_fuel_more; rewrite length_drop; simpl; lia.
Qed.

Lemma second_ok_ascii b c : 0 <= c < 128 -> second_ok b c = false.
Proof. intros Hc. apply not_true_iff_false. intros H. unfold second_ok, in_range in H. wire_lia. Qed.

(** A newline ends the character in front of it. *)
Lemma utf8_step_newline b r tail : utf8_step b (r ++ 10 :: tail) = utf8_step b r /\ ((utf8_step b r).1 <= S (length r))%nat.
Proof.
  assert (Hc : forall i, (i <= length r)%nat -> is_cont (safe_get (r ++ 10 :: tail) i) = is_cont (safe_get r i)).
  { intros i Hi. unfold safe_get. destruct (decide (i = length r)) as [->|].
    - by rewrite list_lookup_middle, lookup_ge_None_2.
    - by rewrite lookup_app_l by lia. }
  assert (Hs : second_ok b (safe_get (r ++ 10 :: tail) 0) = second_ok b (safe_get r 0)).
  { destruct r; [|done]. by rewrite !second_ok_ascii. }
  assert (Hl : forall i, is_cont (safe_get r i) = true -> (i < length r)%nat)
    by (intros i H; by apply safe_get_in, is_cont_nonzero).
  assert (Hl0 : second_ok b (safe_get r 0) = true -> (0 < length r)%nat)
    by (intros H; by eapply safe_get_in, second_ok_nonzero).
  unfold utf8_step. rewrite Hs, (Hc 0%nat) by lia. pose proof (Hl 0%nat) as H0.
  destruct (is_cont (safe_get r 0)) eqn:C0; [specialize (H0 eq_refl)|];
  (destruct (second_ok b (safe_get r 0)) eqn:S0;
   [specialize (Hl0 eq_refl); rewrite (Hc 1%nat) by lia; destruct (is_cont (safe_get r 1)) eqn:C1;
    [pose proof (Hl _ C1); rewrite (Hc 2%nat) by lia; destruct (is_cont (safe_get r 2)) eqn:C2;
     [pose proof (Hl _ C2)|]|]|]);
  (split; [done|]); repeat case_match; cbn; lia.
Qed.

Lemma lossy_newline a b : from_utf8_lossy (a ++ 10 :: b) = from_utf8_lossy a ++ 10 :: from_utf8_lossy b.
Proof.
  remember (length a) as k eqn:Hk. revert a Hk. induction k as [k IH] using lt_wf_ind; intros a ->.
  destruct a as [|x a]; [cbn [app]; by rewrite lossy_cons|]. rewrite <-app_comm_cons, !lossy_cons.
  destruct (utf8_step_newline x a b) as [E Hn]. rewrite E. destruct (utf8_step x a) as [n ok] eqn:Es. cbn in Hn.
  apply utf8_step_pos in Es. rewrite app_comm_cons, drop_app_le, take_app_le by (cbn; lia).
  rewrite (IH (length (drop n (x :: a)))); [by rewrite app_assoc|rewrite length_drop; cbn; lia|done].
Qed.

Lemma lossy_plain a : 10 ∉ a -> 10 ∉ from_utf8_lossy a.
Proof.
  remember (length a) as k eqn:Hk. revert a Hk. induction k as [k IH] using lt_wf_ind; intros a -> Hn.
  destruct a as [|x a]; [done|]. rewrite lossy_cons. destruct (utf8_step x a) as [n ok] eqn:Es. apply utf8_step_pos in Es.
  rewrite <-(take_drop n (x :: a)) in Hn. apply not_elem_of_app in Hn as [Ht Hd]. apply not_elem_of_app. split.
  - destruct ok; [done|]. unfold replacement. set_solver.
  - eapply IH; [|done|done]. rewrite length_drop. cbn. lia.
Qed.

(** Decoding text line by line. *)
Lemma split_lossy s : split 10 (from_utf8_lossy s) = map from_utf8_lossy (split 10 s).
Proof.
  remember (length s) as k eqn:Hk. revert s Hk. induction k as [k IH] using lt_wf_ind; intros s ->.
  destruct (decide (10 ∈ s)) as [Hin|Hn]; [|by rewrite !split_plain by by try apply lossy_plain].
  apply list_elem_of_split_l in Hin as (a & b & -> & Hn). rewrite lossy_newline, !split_app by by try apply lossy_plain.
  cbn [map]. f_equal. eapply IH; [|done]. rewrite length_app. cbn. lia.
Qed.

(** A character cut short is one error. *)
Lemma utf8_step_cut b rest k n :
  utf8_step b rest = (k, true) -> (0 < n < k)%nat -> utf8_step b (take (n - 1) rest) = (n, false).
Proof.
  intros Hs Hn. destruct rest as [|x [|y [|z rest]]]; destruct n as [|[|[|[|n]]]]; try lia; revert Hs;
    unfold utf8_step, safe_get; cbn [take lookup list_lookup default Nat.sub];
    change (is_cont 0) with false; rewrite ?(second_ok_ascii b 0) by lia;
    repeat case_match; intros; simplify_eq; try done; lia.
Qed.

(** The start of a text decodes to itself, but for a character cut short. *)
Lemma lossy_prefix t n :
  utf8_valid t = true ->
  from_utf8_lossy (take n t) = take n t \/ exists m, from_utf8_lossy (take n t) = take m t ++ replacement.
Proof.
  remember (length t) as k eqn:Hk. revert t n Hk. induction k as [k IH] using lt_wf_ind; intros t n -> Hv.
  destruct t as [|b rest]; [left; by rewrite take_nil|]. rewrite utf8_valid_cons in Hv.
  destruct n as [|n]; [by left|]. destruct (utf8_step b rest) as [j [|]] eqn:E; [|done].
  pose proof (utf8_step_pos _ _ _ _ E) as Hj. cbn [take]. rewrite lossy_cons.
  destruct (decide (S n < j)%nat) as [Hlt|Hge].
  - right. exists 0%nat. pose proof (utf8_step_cut b rest j (S n) E) as Hc. rewrite Nat.sub_succ, Nat.sub_0_r in Hc.
    rewrite Hc by lia. cbn [drop]. rewrite drop_ge; [done|]. rewrite length_take. lia.
  - apply utf8_step_valid in E as [Hl Hs]. specialize (Hs (drop (j - 1) (take n rest))).
    replace (take (j - 1) rest) with (take (j - 1) (take n rest)) in Hs by (rewrite take_take; f_equal; lia).
    rewrite take_drop in Hs. rewrite Hs. change (b :: take n rest) with (take (S n) (b :: rest)).
    replace (take j (take (S n) (b :: rest))) with (take j (b :: rest)) by (rewrite take_take; f_equal; lia).
    assert (Hd : drop j (take (S n) (b :: rest)) = take (S n - j) (drop j (b :: rest)))
      by (rewrite take_drop_commute; do 2 f_equal; lia).
    assert (Ht : take (S n) (b :: rest) = take j (b :: rest) ++ take (S n - j) (drop j (b :: rest)))
      by (rewrite <-Hd, <-(take_drop j (take (S n) (b :: rest))) at 1; f_equal; rewrite take_take; f_equal; lia).
    rewrite Hd. destruct (IH (length (drop j (b :: rest)))) with (t := drop j (b :: rest)) (n := (S n - j)%nat) as [-> | [m ->]];
      [rewrite length_drop; cbn; lia|done|done|by left|].
    right. exists (j + m)%nat. rewrite app_assoc. f_equal. by rewrite take_take_drop.
Qed.

(** ** Texts of a table

    A stand-in for a serialiser: the text of a value is its place in a table. *)

Section Table.
Context {A : Type} `{!EqDecision A}.

Definition table_text (l : list A) (x : A) : option bytes :=
  (fun e => replicate (S e.1) 65) <$> list_find (fun y => y = x) l.

Definition table_value (l : list A) (t : bytes) : option A := l !! pred (length t).

Lemma table_value_text l x t : table_text l x = Some t -> table_value l t = Some x.
Proof.
  unfold table_text, table_value. destruct (list_find _ l) as [[i y]|] eqn:E; [|done]. intros [= <-].
  apply list_find_Some in E as (E & -> & _). cbn. by rewrite length_replicate.
Qed.

Lemma table_text_shape l x t : table_text l x = Some t -> exists n, t = replicate (S n) 65.
Proof. unfold table_text. destruct (list_find _ l) as [[i y]|]; [|done]. intros [= <-]. by exists i. Qed.

Lemma table_text_ok l x t : table_text l x = Some t -> string_ok t.
Proof.
  intros [n ->]%table_text_shape. split; [apply Forall_replicate; unfold byte_ok; lia|].
  apply ascii_valid, Forall_replicate. lia.
Qed.
End Table.
