(* ===== verification/IpAddr.v ===== *)
(** * IP addresses

    [std::net] addresses as the program uses them. An [Ipv4Addr] is its [u32]
    value, an [Ipv6Addr] its [u128] value. The textual form of an IPv6 address
    matters because [ClientNetworkConfig] stores the address as a [String]:
    [show_ipv6] is [Ipv6Addr]'s [Display] and [parse_ipv6] its [FromStr],
    following [core::net::parser]. *)

From S2P Require Import Prelude Utf8.

Local Open Scope Z_scope.

Abbreviation Ipv4Addr := Z (only parsing).
Abbreviation Ipv6Addr := Z (only parsing).

Inductive IpAddr : Type :=
  | V4 (a : Ipv4Addr)
  | V6 (a : Ipv6Addr).

#[global] Instance IpAddr_eq_dec : EqDecision IpAddr.
Proof. solve_decision. Defined.

#[global] Instance IpAddr_countable : Countable IpAddr.
Proof.
  refine (inj_countable' (fun a => match a with V4 x => inl x | V6 x => inr x end)
    (fun s => match s with inl x => V4 x | inr x => V6 x end) _); by intros [].
Defined.

Definition ipv4_new (a b c d : Z) : Ipv4Addr := from_be [a; b; c; d].
Definition ipv4_octets (a : Ipv4Addr) : bytes := be_bytes 4 a.
Definition ipv6_octets (a : Ipv6Addr) : bytes := be_bytes 16 a.
Definition ipv6_from_octets (l : bytes) : Ipv6Addr := from_be l.

Definition ip_ok (a : IpAddr) : Prop :=
  match a with V4 x => u32_ok x | V6 x => u128_ok x end.

(** [Ipv6Addr::segments] and its inverse *)
Definition ipv6_segments (a : Ipv6Addr) : list Z :=
  map (fun k => (a / 65536 ^ k) mod 65536) [7; 6; 5; 4; 3; 2; 1; 0].
Definition ipv6_from_segments (l : list Z) : Ipv6Addr :=
  fold_left (fun acc s => acc * 65536 + s) l 0.

Definition ipv4_is_unspecified (a : Ipv4Addr) : bool := a =? 0.
Definition ipv4_is_multicast (a : Ipv4Addr) : bool :=
  let o := a / 16777216 in (224 <=? o) && (o <=? 239).
Definition ipv6_is_unspecified (a : Ipv6Addr) : bool := a =? 0.
Definition ipv6_is_loopback (a : Ipv6Addr) : bool := a =? 1.
Definition ipv6_is_multicast (a : Ipv6Addr) : bool :=
  a / 1329227995784915872903807060280344576 =? 255.
(** [segments()[0] & 0xffc0 == 0xfe80] *)
Definition ipv6_is_unicast_link_local (a : Ipv6Addr) : bool :=
  a / 332306998946228968225951765070086144 =? 1018.
(** [to_ipv4_mapped().is_some()]: the prefix ::ffff:0:0/96 *)
Definition ipv6_is_ipv4_mapped (a : Ipv6Addr) : bool := a / 4294967296 =? 65535.

Definition ip_is_unspecified (a : IpAddr) : bool :=
  match a with V4 x => ipv4_is_unspecified x | V6 x => ipv6_is_unspecified x end.
Definition ip_is_multicast (a : IpAddr) : bool :=
  match a with V4 x => ipv4_is_multicast x | V6 x => ipv6_is_multicast x end.

(** [SocketAddr]; the V6 form carries a flow label and a scope. *)
Inductive SocketAddr : Type :=
  | SocketV4 (ip : Ipv4Addr) (port : Z)
  | SocketV6 (ip : Ipv6Addr) (port flowinfo scope_id : Z).

Definition socket_new (ip : IpAddr) (port : Z) : SocketAddr :=
  match ip with V4 a => SocketV4 a port | V6 a => SocketV6 a port 0 0 end.
Definition socket_ip (s : SocketAddr) : IpAddr :=
  match s with SocketV4 a _ => V4 a | SocketV6 a _ _ _ => V6 a end.
Definition socket_port (s : SocketAddr) : Z :=
  match s with SocketV4 _ p => p | SocketV6 _ p _ _ => p end.

(** ** Printing *)

Definition char_colon : Z := 58.
Definition char_dot : Z := 46.

(** One digit of [{:x}] *)
Definition hex_digit (d : Z) : Z := if d <? 10 then 48 + d else 87 + d.

(** [{:x}] of a [u16] *)
Definition show_hex16 (g : Z) : bytes :=
  if g <? 16 then [hex_digit g]
  else if g <? 256 then [hex_digit (g / 16); hex_digit (g mod 16)]
  else if g <? 4096 then [hex_digit (g / 256); hex_digit (g / 16 mod 16); hex_digit (g mod 16)]
  else [hex_digit (g / 4096); hex_digit (g / 256 mod 16); hex_digit (g / 16 mod 16);
        hex_digit (g mod 16)].

(** [{}] of a [u8] *)
Definition show_dec8 (n : Z) : bytes :=
  if n <? 10 then [48 + n]
  else if n <? 100 then [48 + n / 10; 48 + n mod 10]
  else [48 + n / 100; 48 + n / 10 mod 10; 48 + n mod 10].

Definition show_ipv4 (a : Ipv4Addr) : bytes :=
  show_dec8 (a / 16777216 mod 256) ++ char_dot :: show_dec8 (a / 65536 mod 256)
  ++ char_dot :: show_dec8 (a / 256 mod 256) ++ char_dot :: show_dec8 (a mod 256).

(** [fmt_subslice]: segments joined with a colon *)
Fixpoint show_segments (l : list Z) : bytes :=
  match l with
  | [] => []
  | [g] => show_hex16 g
  | g :: l' => show_hex16 g ++ char_colon :: show_segments l'
  end.

(** The longest run of zero segments, the first of them if several are
    longest: [(start, len)]. *)
Fixpoint zero_span (i : nat) (segs : list Z) (cur best : nat * nat) : nat * nat :=
  match segs with
  | [] => best
  | s :: rest =>
      if s =? 0 then
        let start := if (snd cur =? 0)%nat then i else fst cur in
        let cur' := (start, S (snd cur)) in
        zero_span (S i) rest cur' (if (snd best <? snd cur')%nat then cur' else best)
      else zero_span (S i) rest (0%nat, 0%nat) best
  end.

Definition show_ipv6 (a : Ipv6Addr) : bytes :=
  if ipv6_is_ipv4_mapped a then
    [char_colon; char_colon; 102; 102; 102; 102; char_colon] ++ show_ipv4 (a mod 4294967296)
  else
    let segs := ipv6_segments a in
    let '(start, n) := zero_span 0 segs (0%nat, 0%nat) (0%nat, 0%nat) in
    if (1 <? n)%nat then
      show_segments (take start segs) ++ char_colon :: char_colon
      :: show_segments (drop (start + n) segs)
    else show_segments segs.

(** ** Parsing *)

(** [char::to_digit] *)
Definition to_digit (radix c : Z) : option Z :=
  let d := if in_range 48 57 c then Some (c - 48)
           else if in_range 97 122 c then Some (c - 87)
           else if in_range 65 90 c then Some (c - 55)
           else None in
  match d with Some v => if v <? radix then Some v else None | None => None end.

(** The maximal run of digits: value, number of digits, rest of the input. *)
Fixpoint read_digits (radix : Z) (l : bytes) (acc : Z) (count : nat) : Z * nat * bytes :=
  match l with
  | c :: l' =>
      match to_digit radix c with
      | Some d => read_digits radix l' (acc * radix + d) (S count)
      | None => (acc, count, l)
      end
  | [] => (acc, count, [])
  end.

(** [Parser::read_number] with a digit limit; [bound] is the target type's. *)
Definition read_number (radix : Z) (max_digits : nat) (allow_zero_prefix : bool) (bound : Z)
    (l : bytes) : option (Z * bytes) :=
  let '(r, n, rest) := read_digits radix l 0 0 in
  if (max_digits <? n)%nat then None
  else if (n =? 0)%nat then None
  else if negb allow_zero_prefix && (default 0 (head l) =? 48) && (1 <? n)%nat then None
  else if r <? bound then Some (r, rest) else None.

(** [Parser::read_separator] *)
Definition read_separator {A} (sep : Z) (index : nat) (inner : bytes -> option (A * bytes))
    (l : bytes) : option (A * bytes) :=
  if (0 <? index)%nat then
    match l with c :: l' => if c =? sep then inner l' else None | [] => None end
  else inner l.

(** [Parser::read_ipv4_addr] *)
Definition read_ipv4 (l : bytes) : option (Ipv4Addr * bytes) :=
  let num := read_number 10 3 false 256 in
  match read_separator char_dot 0 num l with
  | Some (a, l1) =>
      match read_separator char_dot 1 num l1 with
      | Some (b, l2) =>
          match read_separator char_dot 2 num l2 with
          | Some (c, l3) =>
              match read_separator char_dot 3 num l3 with
              | Some (d, l4) => Some (ipv4_new a b c d, l4)
              | None => None
              end
          | None => None
          end
      | None => None
      end
  | None => None
  end.

(** [read_groups]: the groups read, whether an embedded IPv4 address was read,
    and the rest of the input; [fuel] counts the slots left. *)
Fixpoint read_groups (fuel i : nat) (l : bytes) : list Z * bool * bytes :=
  match fuel with
  | O => ([], false, l)
  | S f =>
      match (if (0 <? f)%nat then read_separator char_colon i read_ipv4 l else None) with
      | Some (v4, rest) => ([v4 / 65536; v4 mod 65536], true, rest)
      | None =>
          match read_separator char_colon i (read_number 16 4 true 65536) l with
          | Some (g, rest) =>
              let '(gs, v4, rest') := read_groups f (S i) rest in (g :: gs, v4, rest')
          | None => ([], false, l)
          end
      end
  end.

Definition read_ipv6 (l : bytes) : option (Ipv6Addr * bytes) :=
  let '(head, head_ipv4, rest) := read_groups 8 0 l in
  if (length head =? 8)%nat then Some (ipv6_from_segments head, rest)
  else if head_ipv4 then None
  else
    match rest with
    | c1 :: c2 :: rest' =>
        if (c1 =? char_colon) && (c2 =? char_colon) then
          let '(tail, _, rest'') := read_groups (7 - length head) 0 rest' in
          Some (ipv6_from_segments
                  (head ++ zeros (8 - length head - length tail)%nat ++ tail), rest'')
        else None
    | _ => None
    end.

(** [str::parse::<Ipv6Addr>()]: the whole input is an address. *)
Definition parse_ipv6 (l : bytes) : option Ipv6Addr :=
  match read_ipv6 l with Some (a, []) => Some a | _ => None end.

Example parse_show_1 :
  parse_ipv6 (show_ipv6 (ipv6_from_segments [64784; 51966; 0; 0; 0; 0; 2560; 2]))
  = Some (ipv6_from_segments [64784; 51966; 0; 0; 0; 0; 2560; 2]).
Proof. reflexivity. Qed.

Example show_ipv6_1 :
  show_ipv6 (ipv6_from_segments [8193; 3512; 0; 0; 1; 0; 0; 1])
  = [50;48;48;49;58;100;98;56;58;58;49;58;48;58;48;58;49].
Proof. reflexivity. Qed.

(** ** A printed address parses back *)

(** The input does not continue with a digit. *)
Definition stops (radix : Z) (l : bytes) : Prop :=
  match l with c :: _ => to_digit radix c = None | [] => True end.

Lemma read_digits_app radix cs ds tail acc count :
  Forall2 (fun c d => to_digit radix c = Some d) cs ds -> stops radix tail ->
  read_digits radix (cs ++ tail) acc count
  = (fold_left (fun a d => a * radix + d) ds acc, (count + length ds)%nat, tail).
Proof.
  intros H Ht. revert acc count. induction H as [|c d cs ds Hc _ IH]; intros acc count.
  - simpl. rewrite Nat.add_0_r. destruct tail as [|c l]; simpl in *; [done|by rewrite Ht].
  - simpl. rewrite Hc, IH. simpl. do 2 f_equal. lia.
Qed.

Lemma to_digit_hex d : 0 <= d < 16 -> to_digit 16 (hex_digit d) = Some d.
Proof.
  intros H. unfold to_digit, hex_digit, in_range.
  destruct (d <? 10) eqn:E.
  - guard_true. guard_true. f_equal. lia.
  - guard_false. guard_true. guard_true. f_equal. lia.
Qed.

Lemma to_digit_dec d : 0 <= d < 10 -> to_digit 10 (48 + d) = Some d.
Proof. intros H. unfold to_digit, in_range. guard_true. guard_true. f_equal. lia. Qed.

(** [cs] are the digits of [v]. *)
Definition digits_of (radix : Z) (cs : bytes) (v : Z) (k : nat) : Prop :=
  exists ds, Forall2 (fun c d => to_digit radix c = Some d) cs ds /\
    fold_left (fun a d => a * radix + d) ds 0 = v /\ length ds = k.

Lemma read_number_digits radix max zp bound cs v k tail :
  digits_of radix cs v k -> stops radix tail -> (1 <= k <= max)%nat -> v < bound ->
  (zp = true \/ k = 1%nat \/ default 0 (head cs) <> 48) ->
  read_number radix max zp bound (cs ++ tail) = Some (v, tail).
Proof.
  intros (ds & Hds & Hv & Hk) Ht Hmax Hb Hz. unfold read_number.
  erewrite read_digits_app by done. rewrite Hv, Hk. simpl.
  destruct (Nat.ltb_spec max k); [lia|]. destruct (Nat.eqb_spec k 0); [lia|].
  assert (negb zp && (default 0 (head (cs ++ tail)) =? 48) && (1 <? k)%nat = false) as ->.
  { destruct cs as [|c cs]; [apply Forall2_nil_inv_l in Hds; subst; simpl in *; lia|].
    simpl in *. destruct zp; [done|]. destruct (Z.eqb_spec c 48); [|done].
    destruct (Nat.ltb_spec 1 k); [|done]. destruct Hz as [?|[?|?]]; [done|lia|done]. }
  by guard_true.
Qed.

Lemma digits_of_map radix (f : Z -> Z) ds v k :
  Forall (fun d => to_digit radix (f d) = Some d) ds ->
  fold_left (fun a d => a * radix + d) ds 0 = v -> length ds = k ->
  digits_of radix (map f ds) v k.
Proof.
  intros H Hv Hk. exists ds. split; [|done]. clear Hv Hk. induction H; simpl; auto.
Qed.

Lemma show_hex16_digits g :
  u16_ok g -> exists k, (1 <= k <= 4)%nat /\ digits_of 16 (show_hex16 g) g k.
Proof.
  intros Hg. unfold u16_ok in Hg. unfold show_hex16.
  assert (forall ds, fold_left (fun a d => a * 16 + d) ds 0 = g ->
    Forall (fun d => 0 <= d < 16) ds -> digits_of 16 (map hex_digit ds) g (length ds)) as H.
  { intros ds H1 H2. apply digits_of_map; [|done|done].
    eapply Forall_impl; [exact H2|]. intros. by apply to_digit_hex. }
  destruct (g <? 16) eqn:?; [|destruct (g <? 256) eqn:?; [|destruct (g <? 4096) eqn:?]].
  - exists 1%nat. split; [lia|]. apply (H [g]); [cbn [fold_left]; divlia|rewrite !Forall_cons, Forall_nil; divlia].
  - exists 2%nat. split; [lia|]. apply (H [g / 16; g mod 16]);
      [cbn [fold_left]; divlia|rewrite !Forall_cons, Forall_nil; divlia].
  - exists 3%nat. split; [lia|]. apply (H [g / 256; g / 16 mod 16; g mod 16]);
      [cbn [fold_left]; divlia|rewrite !Forall_cons, Forall_nil; divlia].
  - exists 4%nat. split; [lia|].
    apply (H [g / 4096; g / 256 mod 16; g / 16 mod 16; g mod 16]);
      [cbn [fold_left]; divlia|rewrite !Forall_cons, Forall_nil; divlia].
Qed.

Lemma show_dec8_digits n :
  u8_ok n -> exists k, (1 <= k <= 3)%nat /\ digits_of 10 (show_dec8 n) n k /\
    (k = 1%nat \/ default 0 (head (show_dec8 n)) <> 48).
Proof.
  intros Hn. unfold u8_ok in Hn. unfold show_dec8.
  assert (forall ds, fold_left (fun a d => a * 10 + d) ds 0 = n ->
    Forall (fun d => 0 <= d < 10) ds -> digits_of 10 (map (Z.add 48) ds) n (length ds)) as H.
  { intros ds H1 H2. apply digits_of_map; [|done|done].
    eapply Forall_impl; [exact H2|]. intros. by apply to_digit_dec. }
  destruct (n <? 10) eqn:?; [|destruct (n <? 100) eqn:?].
  - exists 1%nat. split; [lia|]. split; [|auto].
    apply (H [n]); [cbn [fold_left]; divlia|rewrite !Forall_cons, Forall_nil; divlia].
  - exists 2%nat. split; [lia|]. split; [|simpl; divlia].
    apply (H [n / 10; n mod 10]); [cbn [fold_left]; divlia|rewrite !Forall_cons, Forall_nil; divlia].
  - exists 3%nat. split; [lia|]. split; [|simpl; divlia].
    apply (H [n / 100; n / 10 mod 10; n mod 10]); [cbn [fold_left]; divlia|rewrite !Forall_cons, Forall_nil; divlia].
Qed.

Lemma read_number_hex16 g tail :
  u16_ok g -> stops 16 tail ->
  read_number 16 4 true 65536 (show_hex16 g ++ tail) = Some (g, tail).
Proof.
  intros Hg Ht. destruct (show_hex16_digits g Hg) as (k & Hk & Hd).
  unfold u16_ok in Hg. eapply read_number_digits; eauto. lia.
Qed.

Lemma read_number_dec8 n tail :
  u8_ok n -> stops 10 tail ->
  read_number 10 3 false 256 (show_dec8 n ++ tail) = Some (n, tail).
Proof.
  intros Hn Ht. destruct (show_dec8_digits n Hn) as (k & Hk & Hd & Hz).
  unfold u8_ok in Hn. eapply read_number_digits; eauto. lia.
Qed.

Lemma read_ipv4_show a tail :
  u32_ok a -> stops 10 tail -> read_ipv4 (show_ipv4 a ++ tail) = Some (a, tail).
Proof.
  intros Ha Ht. unfold u32_ok in Ha. unfold read_ipv4, show_ipv4, read_separator.
  repeat rewrite <-app_assoc, <-app_comm_cons. simpl.
  rewrite read_number_dec8 by (done || unfold u8_ok; divlia).
  do 3 (simpl; rewrite read_number_dec8 by (done || unfold u8_ok; divlia)).
  f_equal. f_equal. unfold ipv4_new, from_be. cbn [rev app from_le]. divlia.
Qed.

(** The input does not start with a dot or a decimal digit that a dot follows. *)
Definition no_dot (l : bytes) : Prop := match l with c :: _ => c <> char_dot | [] => True end.

Lemma read_digits_no_dot cs tail acc count :
  Forall (fun c => c <> char_dot) cs -> no_dot tail -> stops 10 tail ->
  no_dot (snd (read_digits 10 (cs ++ tail) acc count)).
Proof.
  intros H Hd Ht. revert acc count. induction H as [|c cs Hc H IH]; intros acc count.
  - destruct tail as [|c l]; simpl in *; [done|]. by rewrite Ht.
  - simpl. by destruct (to_digit 10 c).
Qed.

Lemma read_separator_no_dot {A} i (inner : bytes -> option (A * bytes)) l :
  no_dot l -> read_separator char_dot (S i) inner l = None.
Proof.
  unfold read_separator, no_dot. simpl. destruct l as [|c l]; [done|]. intros H.
  destruct (Z.eqb_spec c char_dot); done.
Qed.

Lemma read_ipv4_no_dot l :
  no_dot (snd (read_digits 10 l 0 0)) -> read_ipv4 l = None.
Proof.
  intros H. unfold read_ipv4.
  destruct (read_separator char_dot 0 (read_number 10 3 false 256) l) as [[a l1]|] eqn:E; [|done].
  rewrite read_separator_no_dot; [done|].
  unfold read_separator, read_number in E. cbn [Nat.ltb Nat.leb] in E.
  destruct (read_digits 10 l 0 0) as [[r n] rest]. repeat case_match; simplify_eq; done.
Qed.

Lemma show_hex16_no_dot g : u16_ok g -> Forall (fun c => c <> char_dot) (show_hex16 g).
Proof.
  assert (forall d, 0 <= d -> hex_digit d <> char_dot) as Hd.
  { intros d ?. unfold hex_digit, char_dot. case_match; lia. }
  intros Hg. unfold u16_ok in Hg. unfold show_hex16.
  repeat case_match; rewrite !Forall_cons, Forall_nil; repeat split; apply Hd; divlia.
Qed.

Lemma read_ipv4_hex16 g tail :
  u16_ok g -> no_dot tail -> stops 10 tail -> read_ipv4 (show_hex16 g ++ tail) = None.
Proof.
  intros. apply read_ipv4_no_dot, read_digits_no_dot; auto using show_hex16_no_dot.
Qed.

(** What may follow the groups: the end, or a double colon. *)
Definition groups_end (tail : bytes) : Prop :=
  tail = [] \/ exists t, tail = char_colon :: char_colon :: t.

Definition show_rest (l : list Z) : bytes := concat (map (fun g => char_colon :: show_hex16 g) l).

Lemma show_segments_cons g l : show_segments (g :: l) = show_hex16 g ++ show_rest l.
Proof.
  revert g; induction l as [|h l IH]; intros g.
  - unfold show_rest. simpl. by rewrite app_nil_r.
  - change (show_segments (g :: h :: l))
      with (show_hex16 g ++ char_colon :: show_segments (h :: l)).
    by rewrite IH.
Qed.

Lemma colon_stops radix l : stops radix (char_colon :: l).
Proof. done. Qed.

Lemma rest_tail l tail :
  groups_end tail ->
  stops 16 (show_rest l ++ tail) /\ stops 10 (show_rest l ++ tail) /\
  no_dot (show_rest l ++ tail).
Proof. intros [->|[t ->]]; destruct l; done. Qed.

(** The slots that are left run out, or the next group cannot be read. *)
Lemma read_groups_end fuel i tail :
  groups_end tail -> read_groups fuel i tail = ([], false, tail).
Proof.
  intros Ht. destruct fuel as [|f]; [done|]. cbn [read_groups].
  assert (read_separator char_colon i read_ipv4 tail = None) as ->.
  { by destruct Ht as [->|[t ->]]; destruct i. }
  destruct Ht as [->|[t ->]]; destruct i; by destruct (0 <? f)%nat.
Qed.

Lemma read_groups_rest segs fuel i tail :
  Forall u16_ok segs -> (length segs <= fuel)%nat -> groups_end tail ->
  read_groups fuel (S i) (show_rest segs ++ tail) = (segs, false, tail).
Proof.
  intros Hs. revert fuel i. induction Hs as [|g segs Hg Hs IH]; intros fuel i Hf Ht.
  - by apply read_groups_end.
  - destruct fuel as [|f]; simpl in Hf; [lia|].
    destruct (rest_tail segs tail Ht) as (H1 & H2 & H3).
    change (show_rest (g :: segs)) with (char_colon :: show_hex16 g ++ show_rest segs).
    rewrite <-app_comm_cons, <-app_assoc. cbn [read_groups read_separator Nat.ltb Nat.leb].
    rewrite Z.eqb_refl, read_ipv4_hex16, read_number_hex16 by done.
    rewrite IH by (done || lia). by destruct f.
Qed.

Lemma read_groups_segments segs fuel tail :
  Forall u16_ok segs -> (length segs <= fuel)%nat -> groups_end tail ->
  read_groups fuel 0 (show_segments segs ++ tail) = (segs, false, tail).
Proof.
  intros Hs Hf Ht. destruct Hs as [|g segs Hg Hs]; [by apply read_groups_end|].
  destruct fuel as [|f]; simpl in Hf; [lia|].
  destruct (rest_tail segs tail Ht) as (H1 & H2 & H3).
  rewrite show_segments_cons, <-app_assoc. cbn [read_groups read_separator Nat.ltb Nat.leb].
  rewrite read_ipv4_hex16, read_number_hex16 by done.
  rewrite read_groups_rest by (done || lia). by destruct f.
Qed.

(** [(start, n)] is a run of zero segments. *)
Definition zero_run (segs : list Z) (span : nat * nat) : Prop :=
  (fst span + snd span <= length segs)%nat /\
  forall k, (fst span <= k < fst span + snd span)%nat -> segs !! k = Some 0.

Lemma zero_span_run all segs i cur best :
  segs = drop i all -> (i <= length all)%nat -> zero_run all cur -> zero_run all best ->
  (snd cur = 0 \/ fst cur + snd cur = i)%nat ->
  zero_run all (zero_span i segs cur best).
Proof.
  revert i cur best; induction segs as [|s segs IH]; intros i cur best Hd Hi Hc Hb Hcur;
    [done|]. cbn [zero_span].
  assert (all !! i = Some s) as Hs.
  { assert (drop i all !! 0%nat = Some s) as H by by rewrite <-Hd.
    by rewrite lookup_drop, Nat.add_0_r in H. }
  assert (i < length all)%nat by by eapply lookup_lt_Some.
  assert (segs = drop (S i) all) by by rewrite <-Nat.add_1_r, <-drop_drop, <-Hd.
  destruct (Z.eqb_spec s 0) as [->|].
  - assert (zero_run all (if (snd cur =? 0)%nat then i else fst cur, S (snd cur))) as Hc'.
    { destruct Hc as [Hc1 Hc2]. destruct (Nat.eqb_spec (snd cur) 0); split; simpl in *.
      - lia.
      - intros k Hk. by replace k with i by lia.
      - lia.
      - intros k Hk. destruct (decide (k = i)) as [->|]; [done|]. apply Hc2. lia. }
    apply IH; [done|lia|done|by destruct (_ <? _)%nat|].
    right. simpl. destruct (Nat.eqb_spec (snd cur) 0); lia.
  - apply IH; [done|lia|split; simpl; [lia|lia]|done|by left].
Qed.

Lemma zero_run_split segs st n :
  zero_run segs (st, n) -> segs = take st segs ++ zeros n ++ drop (st + n) segs.
Proof.
  intros [Hl Hz]. simpl in *. apply list_eq. intros k.
  destruct (decide (k < st)%nat).
  - rewrite lookup_app_l by (rewrite length_take; lia). by rewrite lookup_take_lt.
  - rewrite lookup_app_r by (rewrite length_take; lia).
    rewrite length_take, Nat.min_l by lia.
    destruct (decide (k < st + n)%nat).
    + rewrite lookup_app_l by (rewrite length_zeros; lia).
      rewrite (Hz k) by lia. symmetry. apply lookup_replicate_2. lia.
    + rewrite lookup_app_r by (rewrite length_zeros; lia).
      rewrite length_zeros, lookup_drop. f_equal. lia.
Qed.

Lemma zero_span_split segs st n :
  zero_span 0 segs (0%nat, 0%nat) (0%nat, 0%nat) = (st, n) ->
  segs = take st segs ++ zeros n ++ drop (st + n) segs /\ (st + n <= length segs)%nat.
Proof.
  intros E. assert (zero_run segs (st, n)) as H.
  { rewrite <-E. apply zero_span_run; [done|lia|split; simpl; lia|split; simpl; lia|by left]. }
  split; [by apply zero_run_split|apply H].
Qed.

Lemma ipv6_segments_ok a : Forall u16_ok (ipv6_segments a).
Proof.
  unfold ipv6_segments. apply Forall_map, Forall_true. intros k. unfold u16_ok.
  apply Z.mod_pos_bound. lia.
Qed.

Lemma segments_step a k :
  0 <= k -> a / 65536 ^ (k + 1) * 65536 + (a / 65536 ^ k) mod 65536 = a / 65536 ^ k.
Proof.
  intros. rewrite Z.pow_add_r, <-Z.div_div by lia. change (65536 ^ 1) with 65536.
  generalize (a / 65536 ^ k). intros. divlia.
Qed.

Lemma ipv6_from_to_segments a : u128_ok a -> ipv6_from_segments (ipv6_segments a) = a.
Proof.
  intros Ha. unfold u128_ok in Ha. unfold ipv6_from_segments, ipv6_segments.
  cbn [map fold_left]. rewrite Z.mul_0_l, Z.add_0_l.
  rewrite (Z.mod_small (a / 65536 ^ 7)).
  2: { split; [apply Z.div_pos; lia|apply Z.div_lt_upper_bound; lia]. }
  pose proof (segments_step a 6 ltac:(lia)) as S6; change (6 + 1) with 7 in S6; rewrite S6.
  pose proof (segments_step a 5 ltac:(lia)) as S5; change (5 + 1) with 6 in S5; rewrite S5.
  pose proof (segments_step a 4 ltac:(lia)) as S4; change (4 + 1) with 5 in S4; rewrite S4.
  pose proof (segments_step a 3 ltac:(lia)) as S3; change (3 + 1) with 4 in S3; rewrite S3.
  pose proof (segments_step a 2 ltac:(lia)) as S2; change (2 + 1) with 3 in S2; rewrite S2.
  pose proof (segments_step a 1 ltac:(lia)) as S1; change (1 + 1) with 2 in S1; rewrite S1.
  pose proof (segments_step a 0 ltac:(lia)) as S0; change (0 + 1) with 1 in S0; rewrite S0.
  by rewrite Z.pow_0_r, Z.div_1_r.
Qed.

Lemma parse_read l a : read_ipv6 l = Some (a, []) -> parse_ipv6 l = Some a.
Proof. unfold parse_ipv6. by intros ->. Qed.

Lemma parse_show_compressed segs st n :
  length segs = 8%nat -> Forall u16_ok segs ->
  segs = take st segs ++ zeros n ++ drop (st + n) segs -> (st + n <= 8)%nat -> (1 < n)%nat ->
  parse_ipv6 (show_segments (take st segs) ++ char_colon :: char_colon
              :: show_segments (drop (st + n) segs)) = Some (ipv6_from_segments segs).
Proof.
  intros Hl Hs Hsplit Hst Hn. apply parse_read. unfold read_ipv6.
  rewrite read_groups_segments;
    [|by apply Forall_take|rewrite length_take; lia|right; by eexists].
  rewrite length_take, Nat.min_l by lia. destruct (Nat.eqb_spec st 8); [lia|].
  rewrite Z.eqb_refl. cbn [andb].
  pose proof (read_groups_segments (drop (st + n) segs) (7 - st) []) as Hg.
  rewrite app_nil_r in Hg.
  rewrite Hg; [|by apply Forall_drop|rewrite length_drop; lia|by left].
  rewrite length_drop, Hl. do 3 f_equal. rewrite Hsplit at 3.
  do 3 f_equal. lia.
Qed.

Lemma parse_show_mapped a :
  u128_ok a -> ipv6_is_ipv4_mapped a = true -> parse_ipv6 (show_ipv6 a) = Some a.
Proof.
  intros Ha Hm. unfold u128_ok in Ha. unfold show_ipv6. rewrite Hm.
  unfold ipv6_is_ipv4_mapped in Hm. apply Z.eqb_eq in Hm.
  apply parse_read. set (v := a mod 4294967296).
  assert (u32_ok v) as Hv by (unfold u32_ok; apply Z.mod_pos_bound; lia).
  pose proof (read_ipv4_show v [] Hv I) as Hr. rewrite app_nil_r in Hr.
  unfold read_ipv6.
  change ([char_colon; char_colon; 102; 102; 102; 102; char_colon] ++ show_ipv4 v)
    with (char_colon :: char_colon :: show_hex16 65535 ++ char_colon :: show_ipv4 v).
  rewrite read_groups_end by (right; by eexists). simpl length.
  cbn [Nat.eqb Z.eqb Pos.eqb char_colon andb Nat.sub].
  cbn [read_groups read_separator Nat.ltb Nat.leb].
  rewrite read_ipv4_hex16 by done. rewrite read_number_hex16 by done.
  cbn [char_colon Z.eqb Pos.eqb]. rewrite Hr. do 2 f_equal.
  unfold v, ipv6_from_segments. simpl fold_left. divlia.
Qed.

(** The textual form of an IPv6 address determines the address. *)
Lemma parse_show_ipv6 a : u128_ok a -> parse_ipv6 (show_ipv6 a) = Some a.
Proof.
  intros Ha. destruct (ipv6_is_ipv4_mapped a) eqn:Hm; [by apply parse_show_mapped|].
  unfold show_ipv6. rewrite Hm.
  destruct (zero_span 0 _ _ _) as [st n] eqn:E. apply zero_span_split in E as [E Hst].
  pose proof (ipv6_segments_ok a) as Hs. pose proof (ipv6_from_to_segments a Ha) as Hf.
  destruct (Nat.ltb_spec 1 n).
  - rewrite <-Hf at 3. by apply parse_show_compressed.
  - apply parse_read. unfold read_ipv6.
    rewrite <-(app_nil_r (show_segments _)), read_groups_segments; [|done|simpl; lia|by left].
    by rewrite Hf.
Qed.

Lemma show_hex16_bytes g : u16_ok g -> Forall (fun b => 0 <= b < 128) (show_hex16 g).
Proof.
  intros Hg. unfold u16_ok in Hg.
  assert (forall d, 0 <= d < 16 -> 0 <= hex_digit d < 128) as Hd.
  { intros d ?. unfold hex_digit. case_match; lia. }
  unfold show_hex16. repeat case_match; rewrite !Forall_cons, Forall_nil;
    repeat (split; [apply Hd; divlia|]); done.
Qed.

Lemma show_dec8_bytes n : u8_ok n -> Forall (fun b => 0 <= b < 128) (show_dec8 n).
Proof.
  intros Hn. unfold u8_ok in Hn. unfold show_dec8.
  repeat case_match; rewrite !Forall_cons, Forall_nil; divlia.
Qed.

Lemma show_segments_bytes l : Forall u16_ok l -> Forall (fun b => 0 <= b < 128) (show_segments l).
Proof.
  destruct 1 as [|g l Hg Hl]; [done|]. rewrite show_segments_cons. apply Forall_app.
  split; [by apply show_hex16_bytes|]. unfold show_rest. induction Hl; [done|]. simpl.
  apply Forall_cons; split; [unfold char_colon; lia|]. apply Forall_app.
  auto using show_hex16_bytes.
Qed.

Lemma show_ipv6_ok a : string_ok (show_ipv6 a).
Proof.
  assert (Forall (fun b => 0 <= b < 128) (show_ipv6 a)) as H.
  { unfold show_ipv6. case_match.
    - apply Forall_app. split.
      { unfold char_colon. rewrite !Forall_cons, Forall_nil. lia. }
      unfold show_ipv4.
      repeat first [ apply Forall_app; split
                   | apply Forall_cons; split; [unfold char_dot; lia|]
                   | apply show_dec8_bytes; unfold u8_ok; divlia ].
    - pose proof (ipv6_segments_ok a). case_match. case_match.
      + apply Forall_app; split; [by apply show_segments_bytes, Forall_take|].
        repeat (apply Forall_cons; split; [unfold char_colon; lia|]).
        by apply show_segments_bytes, Forall_drop.
      + by apply show_segments_bytes. }
  split; [|by apply ascii_valid]. eapply Forall_impl; [exact H|].
  intros b Hb. simpl in Hb. unfold byte_ok. lia.
Qed.

(** ** The value of a parsed address *)

Lemma to_digit_bound radix c d : to_digit radix c = Some d -> 0 <= d < radix.
Proof.
  unfold to_digit, in_range. intros H. repeat case_match; simplify_eq; wire_lia.
Qed.

Lemma read_digits_nonneg radix l acc count r n rest :
  0 <= radix -> 0 <= acc -> read_digits radix l acc count = (r, n, rest) -> 0 <= r.
Proof.
  intros Hr. revert acc count. induction l as [|c l IH]; simpl; intros acc count Ha H;
    [by simplify_eq|].
  destruct (to_digit radix c) as [d|] eqn:E; [|by simplify_eq].
  apply to_digit_bound in E. eapply IH in H; [done|nia].
Qed.

Lemma read_number_bound radix max zp bound l r rest :
  0 <= radix -> read_number radix max zp bound l = Some (r, rest) -> 0 <= r < bound.
Proof.
  intros Hr. unfold read_number. destruct (read_digits radix l 0 0) as [[v n] rest'] eqn:E.
  apply read_digits_nonneg in E; [|done|done]. intros. repeat case_match; simplify_eq. lia.
Qed.

Lemma read_separator_Some {A} sep i (inner : bytes -> option (A * bytes)) l x :
  read_separator sep i inner l = Some x -> exists l', inner l' = Some x.
Proof.
  unfold read_separator. intros. repeat case_match; simplify_eq; eauto.
Qed.

Lemma read_ipv4_bound l a rest : read_ipv4 l = Some (a, rest) -> u32_ok a.
Proof.
  unfold read_ipv4. intros. repeat case_match; simplify_eq.
  repeat match goal with
  | H : read_separator _ _ _ _ = Some _ |- _ =>
      apply read_separator_Some in H as [? H]; apply read_number_bound in H; [|lia]
  end.
  unfold u32_ok, ipv4_new, from_be. cbn [rev app from_le]. lia.
Qed.

Lemma read_groups_bound fuel i l gs v4 rest :
  read_groups fuel i l = (gs, v4, rest) -> Forall u16_ok gs /\ (length gs <= fuel)%nat.
Proof.
  revert i l gs v4 rest. induction fuel as [|f IH]; intros i l gs v4 rest; cbn [read_groups].
  - intros; simplify_eq. split; [done|simpl; lia].
  - destruct (if (0 <? f)%nat then _ else None) as [[a r]|] eqn:E.
    + destruct (Nat.ltb_spec 0 f); [|done].
      apply read_separator_Some in E as [? E]. apply read_ipv4_bound in E.
      unfold u32_ok in E. intros; simplify_eq.
      split; [rewrite !Forall_cons, Forall_nil; unfold u16_ok; divlia|simpl; lia].
    + destruct (read_separator _ i (read_number _ _ _ _) l) as [[g r]|] eqn:E'.
      * apply read_separator_Some in E' as [? E']. apply read_number_bound in E'; [|lia].
        destruct (read_groups f (S i) r) as [[gs' b] rest'] eqn:Er.
        apply IH in Er as [Er1 Er2]. intros; simplify_eq. split; [by constructor|simpl; lia].
      * intros; simplify_eq. split; [done|simpl; lia].
Qed.

Lemma from_segments_bound segs :
  Forall u16_ok segs -> (length segs <= 8)%nat -> u128_ok (ipv6_from_segments segs).
Proof.
  intros Hs Hl. unfold ipv6_from_segments.
  assert (forall acc, 0 <= acc -> 0 <= fold_left (fun acc s => acc * 65536 + s) segs acc
    < (acc + 1) * 65536 ^ len segs) as H.
  { clear Hl. induction Hs as [|g segs Hg Hs IH]; intros acc Ha; [simpl; lia|].
    cbn [fold_left length]. rewrite Nat2Z.inj_succ, Z.pow_succ_r by lia.
    unfold u16_ok in Hg. specialize (IH (acc * 65536 + g) ltac:(lia)).
    assert (0 < 65536 ^ len segs) by (apply Z.pow_pos_nonneg; lia). nia. }
  specialize (H 0 ltac:(lia)). unfold u128_ok.
  assert (65536 ^ len segs <= 65536 ^ 8) by (apply Z.pow_le_mono_r; lia). lia.
Qed.

Lemma parse_ipv6_bound l a : parse_ipv6 l = Some a -> u128_ok a.
Proof.
  unfold parse_ipv6, read_ipv6. destruct (read_groups 8 0 l) as [[hd v4] rest] eqn:E.
  apply read_groups_bound in E as [H1 H2]. destruct (Nat.eqb_spec (length hd) 8).
  - destruct rest; intros; simplify_eq. apply from_segments_bound; [done|lia].
  - destruct v4; [done|]. destruct rest as [|c1 [|c2 rest]]; try done.
    destruct (_ && _); [|done].
    destruct (read_groups (7 - length hd) 0 rest) as [[tl b] r] eqn:E'.
    apply read_groups_bound in E' as [H3 H4]. destruct r; intros; simplify_eq.
    apply from_segments_bound.
    + apply Forall_app. split; [done|]. apply Forall_app. split; [|done].
      apply Forall_replicate. unfold u16_ok. lia.
    + rewrite !length_app, length_zeros. lia.
Qed.

Lemma ipv6_from_octets_ok l : bytes_ok l -> len l = 16 -> u128_ok (ipv6_from_octets l).
Proof.
  intros H Hl. pose proof (from_be_bound l H) as Hb. rewrite Hl in Hb. exact Hb.
Qed.
