(* ===== verification/NetworkConfig.v ===== *)
(** * VPN network configuration

    [crates/aivpn-common/src/network_config.rs]: the server's view of the VPN
    subnet ([VpnNetworkConfig]), the assignment it sends to one client
    ([ClientNetworkConfig]), and the 30-byte wire form of the latter that
    [ServerHello] carries. *)

From S2P Require Import Prelude Utf8 IpAddr.

Local Open Scope Z_scope.

Definition MAX_MASK_TUN_MTU : Z := 1500.
Definition DEFAULT_VPN_MTU : Z := 1280.
Definition LEGACY_VPN_PREFIX_LEN : Z := 24.
Definition LEGACY_SERVER_VPN_IP : Z := ipv4_new 10 0 0 1.
Definition default_mdh_len : Z := 20.
(** "fd10:cafe::/48" *)
Definition default_ipv6_prefix : bytes := [102;100;49;48;58;99;97;102;101;58;58;47;52;56].

#[export] Hint Unfold MAX_MASK_TUN_MTU default_mdh_len : aivpn_consts.

Record VpnNetworkConfig : Type := {
  v_server_vpn_ip : Ipv4Addr;
  v_prefix_len : Z;
  v_mtu : Z;
  v_keepalive_secs : option Z;
  v_ipv6_enabled : bool;
  v_ipv6_prefix : bytes;
}.

Definition default_vpn_network_config : VpnNetworkConfig := {|
  v_server_vpn_ip := LEGACY_SERVER_VPN_IP;
  v_prefix_len := LEGACY_VPN_PREFIX_LEN;
  v_mtu := DEFAULT_VPN_MTU;
  v_keepalive_secs := None;
  v_ipv6_enabled := false;
  v_ipv6_prefix := default_ipv6_prefix;
|}.

Record ClientNetworkConfig : Type := {
  client_ip : Ipv4Addr;
  server_vpn_ip : Ipv4Addr;
  prefix_len : Z;
  mtu : Z;
  mdh_len : Z;
  keepalive_secs : option Z;
  ipv6_address : option bytes;
  ipv6_prefix_len : option Z;
}.

(** ** Masks *)

(** [!x] on [u32] *)
Definition not32 (x : Z) : Z := u32_max - x.

(** [u32::MAX << k] *)
Definition shl32_max (k : Z) : Z := wrap32 (Z.shiftl u32_max k).

(** [mask_u32] and [prefix_len_to_netmask] *)
Definition mask_u32 (p : Z) : Z :=
  if p =? 0 then 0 else if 32 <=? p then u32_max else shl32_max (32 - p).

Definition prefix_len_to_netmask (p : Z) : Ipv4Addr :=
  if p =? 0 then ipv4_new 0 0 0 0 else if 32 <=? p then u32_max else shl32_max (32 - p).

(** [u32::leading_ones] *)
Fixpoint leading_ones_fuel (fuel : nat) (x : Z) : Z :=
  match fuel with
  | O => 0
  | S f => if Z.testbit x (Z.of_nat f) then 1 + leading_ones_fuel f x else 0
  end.
Definition leading_ones32 (x : Z) : Z := leading_ones_fuel 32 x.

Definition netmask_to_prefix_len (netmask : Ipv4Addr) : outcome Z :=
  let prefix_len := leading_ones32 netmask in
  let expected := if prefix_len =? 0 then 0 else shl32_max (32 - prefix_len) in
  if negb (netmask =? expected)
  then Err (InvalidPacket "VPN netmask must be contiguous")
  else Ok prefix_len.

Section Vpn.
Context (cfg : VpnNetworkConfig).

Definition v_mask : Z := mask_u32 (v_prefix_len cfg).
Definition network_u32 : Z := Z.land (v_server_vpn_ip cfg) v_mask.
Definition v_netmask : Ipv4Addr := prefix_len_to_netmask (v_prefix_len cfg).
Definition network_addr : Ipv4Addr := Z.land (v_server_vpn_ip cfg) v_mask.
Definition broadcast_addr : Ipv4Addr := Z.lor network_u32 (not32 v_mask).
Definition contains (ip : Ipv4Addr) : bool := Z.land ip v_mask =? network_u32.
Definition host_offset (ip : Ipv4Addr) : Z := Z.land ip (not32 v_mask).
Definition max_host_offset : Z := sat_sub (not32 v_mask) 1.

Definition is_usable_host (ip : Ipv4Addr) : bool :=
  contains ip && negb (ip =? network_addr) && negb (ip =? broadcast_addr).

Definition ip_for_host_offset (off : Z) : option Ipv4Addr :=
  if (off =? 0) || (max_host_offset <? off) then None
  else Some (Z.lor network_u32 off).
End Vpn.

(** [str::split_once('/')] *)
Fixpoint split_once (sep : Z) (l : bytes) : option (bytes * bytes) :=
  match l with
  | [] => None
  | c :: l' =>
      if c =? sep then Some ([], l')
      else match split_once sep l' with
           | Some (a, b) => Some (c :: a, b)
           | None => None
           end
  end.

(** [str::parse::<u8>()]: an optional plus sign, then decimal digits. *)
Definition parse_u8 (l : bytes) : option Z :=
  let digits := match l with c :: l' => if c =? 43 then l' else l | [] => l end in
  let '(v, n, rest) := read_digits 10 digits 0 0 in
  match rest with
  | [] => if (n =? 0)%nat then None else if v <? 256 then Some v else None
  | _ => None
  end.

(** [u128::MAX << (128 - prefix)] *)
Definition mask_u128 (prefix : Z) : Z :=
  Z.shiftl (2 ^ 128 - 1) (128 - prefix) mod 2 ^ 128.

Definition ipv6_gateway (cfg : VpnNetworkConfig) : outcome (Ipv6Addr * Z) :=
  let invalid := InvalidPacket "Invalid VPN IPv6 prefix" in
  let! (address, prefix) := ok_or (split_once 47 (v_ipv6_prefix cfg)) invalid in
  let! address := ok_or (parse_ipv6 address) invalid in
  let! prefix := ok_or (parse_u8 prefix) invalid in
  if (prefix =? 0) || (96 <? prefix) || ipv6_is_multicast address || ipv6_is_loopback address
  then Err invalid
  else
    let gateway := Z.lor (Z.land address (mask_u128 prefix)) 1 in
    if ipv6_is_loopback gateway || ipv6_is_unicast_link_local gateway
       || ipv6_is_ipv4_mapped gateway
    then Err invalid
    else Ok (gateway, prefix).

(** [VpnNetworkConfig::client_ipv6] *)
Definition v_client_ipv6 (cfg : VpnNetworkConfig) (ip : Ipv4Addr)
    : outcome (option (Ipv6Addr * Z)) :=
  if negb (v_ipv6_enabled cfg) then Ok None
  else if negb (is_usable_host cfg ip) || (ip =? v_server_vpn_ip cfg)
  then Err (InvalidPacket "Invalid client IPv4 for IPv6 allocation")
  else
    let! (gateway, prefix) := ipv6_gateway cfg in
    let base := Z.land gateway (mask_u128 prefix) in
    Ok (Some (Z.lor base ip, prefix)).

Definition client_ip_for_ipv6 (cfg : VpnNetworkConfig) (address : Ipv6Addr) : option Ipv4Addr :=
  let client_ip := wrap32 address in
  match v_client_ipv6 cfg client_ip with
  | Ok (Some (assigned, _)) => if assigned =? address then Some client_ip else None
  | _ => None
  end.

(** [VpnNetworkConfig::validate] *)
Definition v_validate (cfg : VpnNetworkConfig) : outcome unit :=
  let! _ := if v_ipv6_enabled cfg then
              let! _ := ipv6_gateway cfg in
              if v_mtu cfg <? 1280
              then Err (InvalidPacket "IPv6 requires MTU of at least 1280")
              else Ok tt
            else Ok tt in
  if negb ((1 <=? v_prefix_len cfg) && (v_prefix_len cfg <=? 30))
  then Err (InvalidPacket "VPN prefix length must be in range 1..=30")
  else if (v_server_vpn_ip cfg =? network_addr cfg) || (v_server_vpn_ip cfg =? broadcast_addr cfg)
  then Err (InvalidPacket "Server VPN IP must be a usable host address")
  else Ok tt.

Definition client_config (cfg : VpnNetworkConfig) (ip : Ipv4Addr) : outcome ClientNetworkConfig :=
  let! _ := v_validate cfg in
  if negb (is_usable_host cfg ip)
  then Err (InvalidPacket "Client VPN IP is outside configured VPN subnet")
  else if ip =? v_server_vpn_ip cfg
  then Err (InvalidPacket "Client VPN IP cannot equal server VPN IP")
  else
    let! v6 := v_client_ipv6 cfg ip in
    Ok {| client_ip := ip;
          server_vpn_ip := v_server_vpn_ip cfg;
          prefix_len := v_prefix_len cfg;
          mtu := Z.min (v_mtu cfg) MAX_MASK_TUN_MTU;
          mdh_len := default_mdh_len;
          keepalive_secs := v_keepalive_secs cfg;
          ipv6_address := (fun p => show_ipv6 (fst p)) <$> v6;
          ipv6_prefix_len := snd <$> v6 |}.

(** ** The client's assignment *)

(** [ClientNetworkConfig::client_ipv6] *)
Definition client_ipv6 (c : ClientNetworkConfig) : outcome (option (Ipv6Addr * Z)) :=
  match ipv6_address c, ipv6_prefix_len c with
  | None, None => Ok None
  | Some address, Some prefix =>
      if (1 <=? prefix) && (prefix <=? 96) && (1280 <=? mtu c) then
        let! address := ok_or (parse_ipv6 address) (InvalidPacket "Invalid client IPv6") in
        if ipv6_is_unspecified address || ipv6_is_loopback address || ipv6_is_multicast address
        then Err (InvalidPacket "Invalid client IPv6")
        else Ok (Some (address, prefix))
      else Err (InvalidPacket "Invalid client IPv6 configuration")
  | _, _ => Err (InvalidPacket "Invalid client IPv6 configuration")
  end.

(** [ClientNetworkConfig::validate] *)
Definition c_validate (c : ClientNetworkConfig) : outcome unit :=
  let! _ := client_ipv6 c in
  omap (fun _ => tt)
    (client_config {| v_server_vpn_ip := server_vpn_ip c;
                      v_prefix_len := prefix_len c;
                      v_mtu := mtu c;
                      v_keepalive_secs := None;
                      v_ipv6_enabled := false;
                      v_ipv6_prefix := default_ipv6_prefix |} (client_ip c)).

Definition WIRE_SIZE : Z := 30.
Definition WIRE_VERSION : Z := 2.

#[export] Hint Unfold WIRE_SIZE WIRE_VERSION : aivpn_consts.

Definition encode_wire (c : ClientNetworkConfig) : bytes :=
  [WIRE_VERSION; prefix_len c] ++ le_bytes 2 (mtu c)
  ++ ipv4_octets (server_vpn_ip c) ++ ipv4_octets (client_ip c)
  ++ [default 0 (keepalive_secs c)]
  ++ match client_ipv6 c with
     | Ok (Some (address, prefix)) => prefix :: ipv6_octets address
     | _ => zeros 17
     end.

Definition decode_wire (data : bytes) : outcome ClientNetworkConfig :=
  if len data <? 12
  then Err (InvalidPacket "Client network config has invalid wire length")
  else
  let! d0 := idx data 0 in
  if negb (d0 =? WIRE_VERSION)
  then Err (InvalidPacket "Unsupported client network config wire version")
  else
  let! d1 := idx data 1 in
  if negb ((1 <=? d1) && (d1 <=? 30))
  then Err (InvalidPacket "Client network config prefix length out of range")
  else
  let! keepalive := if 13 <=? len data then
                      let! d12 := idx data 12 in
                      Ok (if 0 <? d12 then Some d12 else None)
                    else Ok None in
  if (13 <? len data) && negb (len data =? WIRE_SIZE)
  then Err (InvalidPacket "Truncated IPv6 network config")
  else
  let full := len data =? WIRE_SIZE in
  let! d13 := if full then idx data 13 else Ok 0 in
  let! stray := if full && (d13 =? 0) then
                  let! tail := slice_from data 14 in
                  Ok (existsb (fun b => negb (b =? 0)) tail)
                else Ok false in
  if stray then Err (InvalidPacket "IPv6 address without prefix length")
  else
  let ipv6 := full && negb (d13 =? 0) in
  let! mtu := le_at 2 data 2 in
  let! server := be_at 4 data 4 in
  let! client := be_at 4 data 8 in
  let! v6 := if ipv6 then
               let! octets := slice data 14 30 in
               Ok (Some (show_ipv6 (ipv6_from_octets octets)), Some d13)
             else Ok (None, None) in
  let config := {| client_ip := client;
                   server_vpn_ip := server;
                   prefix_len := d1;
                   mtu := mtu;
                   mdh_len := default_mdh_len;
                   keepalive_secs := keepalive;
                   ipv6_address := fst v6;
                   ipv6_prefix_len := snd v6 |} in
  let! _ := c_validate config in
  Ok config.

Example default_assignment :
  (let! c := client_config default_vpn_network_config (ipv4_new 10 0 0 2) in
   decode_wire (encode_wire c))
  = client_config default_vpn_network_config (ipv4_new 10 0 0 2).
Proof. vm_compute. reflexivity. Qed.

(** ** Subnet arithmetic *)

Lemma shl_ones_mod n k :
  0 <= k <= n -> Z.shiftl (2 ^ n - 1) k mod 2 ^ n = 2 ^ n - 2 ^ k.
Proof.
  intros Hk. rewrite Z.shiftl_mul_pow2 by lia.
  assert (0 < 2 ^ k <= 2 ^ n) as Hp.
  { split; [apply Z.pow_pos_nonneg; lia|apply Z.pow_le_mono_r; lia]. }
  replace ((2 ^ n - 1) * 2 ^ k) with ((2 ^ n - 2 ^ k) + (2 ^ k - 1) * 2 ^ n) by ring.
  rewrite Z.mod_add, Z.mod_small; lia.
Qed.

Lemma land_high n h a :
  0 <= h <= n -> 0 <= a < 2 ^ n -> Z.land a (2 ^ n - 2 ^ h) = 2 ^ h * (a / 2 ^ h).
Proof.
  intros Hh Ha.
  replace (2 ^ n - 2 ^ h) with (Z.shiftl (Z.ones (n - h)) h).
  2: { rewrite Z.shiftl_mul_pow2, Z.ones_equiv by lia. unfold Z.pred.
       rewrite Z.mul_add_distr_r, <-Z.pow_add_r by lia.
       replace (n - h + h) with n by lia. lia. }
  rewrite Z.mul_comm, <-Z.shiftl_mul_pow2, <-Z.shiftr_div_pow2 by lia.
  apply Z.bits_inj'. intros i Hi. rewrite Z.land_spec.
  destruct (Z.ltb_spec i h).
  - rewrite !Z.shiftl_spec_low by lia. apply andb_false_r.
  - rewrite !Z.shiftl_spec, Z.shiftr_spec by lia.
    replace (i - h + h) with i by lia. destruct (Z.ltb_spec (i - h) (n - h)).
    + rewrite Z.ones_spec_low by lia. apply andb_true_r.
    + rewrite Z.ones_spec_high by lia. rewrite andb_false_r. symmetry.
      apply (testbit_above n); lia.
Qed.

Lemma lor_low h q r : 0 <= h -> 0 <= r < 2 ^ h -> Z.lor (2 ^ h * q) r = 2 ^ h * q + r.
Proof.
  intros Hh Hr.
  assert (Z.land (2 ^ h * q) r = 0) as H0.
  { rewrite Z.mul_comm, <-Z.shiftl_mul_pow2 by lia. apply Z.bits_inj'. intros i Hi.
    rewrite Z.land_spec, Z.bits_0. destruct (Z.ltb_spec i h).
    - by rewrite Z.shiftl_spec_low.
    - rewrite (testbit_above h r) by lia. apply andb_false_r. }
  by rewrite <-Z.lxor_lor, Z.add_nocarry_lxor.
Qed.

Section Subnet.
Context (cfg : VpnNetworkConfig).
Context (Hprefix : 1 <= v_prefix_len cfg <= 30) (Hserver : u32_ok (v_server_vpn_ip cfg)).

(** The number of addresses of the subnet. *)
Definition subnet_size : Z := 2 ^ (32 - v_prefix_len cfg).

Lemma subnet_size_bound : 4 <= subnet_size <= 2147483648.
Proof.
  unfold subnet_size. change 4 with (2 ^ 2). change 2147483648 with (2 ^ 31).
  split; apply Z.pow_le_mono_r; lia.
Qed.

Lemma v_mask_eq : v_mask cfg = 2 ^ 32 - subnet_size.
Proof.
  unfold v_mask, mask_u32. repeat guard_false. unfold shl32_max, wrap32, u32_max.
  by apply (shl_ones_mod 32); lia.
Qed.

Lemma not_mask_eq : not32 (v_mask cfg) = subnet_size - 1.
Proof. rewrite v_mask_eq. unfold not32, u32_max. lia. Qed.

Lemma land_mask_eq ip :
  u32_ok ip -> Z.land ip (v_mask cfg) = subnet_size * (ip / subnet_size).
Proof.
  intros. rewrite v_mask_eq. unfold subnet_size. apply (land_high 32); [lia|].
  unfold u32_ok in *. lia.
Qed.

Lemma network_addr_eq :
  network_addr cfg = subnet_size * (v_server_vpn_ip cfg / subnet_size).
Proof. by apply land_mask_eq. Qed.

Lemma network_addr_bound : 0 <= network_addr cfg <= 4294967296 - subnet_size.
Proof.
  rewrite network_addr_eq. pose proof subnet_size_bound. unfold u32_ok in Hserver.
  assert (4294967296 = subnet_size * 2 ^ v_prefix_len cfg) as E.
  { unfold subnet_size. rewrite <-Z.pow_add_r by lia.
    replace (32 - v_prefix_len cfg + v_prefix_len cfg) with 32 by lia. done. }
  assert (v_server_vpn_ip cfg / subnet_size < 2 ^ v_prefix_len cfg)
    by (apply Z.div_lt_upper_bound; lia).
  assert (0 <= v_server_vpn_ip cfg / subnet_size) by (apply Z.div_pos; lia). nia.
Qed.

Lemma broadcast_addr_eq :
  broadcast_addr cfg = network_addr cfg + (subnet_size - 1).
Proof.
  unfold broadcast_addr. rewrite not_mask_eq.
  change (network_u32 cfg) with (network_addr cfg). rewrite network_addr_eq.
  unfold subnet_size. apply lor_low; [lia|]. pose proof subnet_size_bound.
  unfold subnet_size in *. lia.
Qed.

Lemma host_offset_eq ip : u32_ok ip -> host_offset cfg ip = ip mod subnet_size.
Proof.
  intros. unfold host_offset. rewrite not_mask_eq. unfold subnet_size.
  replace (2 ^ (32 - v_prefix_len cfg) - 1) with (Z.ones (32 - v_prefix_len cfg))
    by (rewrite Z.ones_equiv; lia).
  apply Z.land_ones. lia.
Qed.

Lemma max_host_offset_eq : max_host_offset cfg = subnet_size - 2.
Proof.
  unfold max_host_offset, sat_sub. rewrite not_mask_eq. pose proof subnet_size_bound. lia.
Qed.

Lemma usable_host_iff ip :
  u32_ok ip ->
  is_usable_host cfg ip = true <->
  ip / subnet_size = v_server_vpn_ip cfg / subnet_size /\
  1 <= ip mod subnet_size <= subnet_size - 2.
Proof.
  intros Hip. pose proof subnet_size_bound.
  unfold is_usable_host, contains. change (network_u32 cfg) with (network_addr cfg).
  rewrite land_mask_eq, broadcast_addr_eq, network_addr_eq by done.
  pose proof (Z.div_mod ip subnet_size ltac:(lia)).
  pose proof (Z.mod_pos_bound ip subnet_size ltac:(lia)).
  autorewrite with aivpn_bool. split.
  - intros [[Hq ?] ?]. apply Z.mul_reg_l in Hq; [|lia]. rewrite Hq in *. lia.
  - intros [Hq ?]. rewrite Hq in *. lia.
Qed.

Lemma ip_for_host_offset_Some k ip :
  0 <= k -> ip_for_host_offset cfg k = Some ip <->
  1 <= k <= subnet_size - 2 /\ ip = network_addr cfg + k.
Proof.
  intros Hk. pose proof subnet_size_bound. unfold ip_for_host_offset.
  rewrite max_host_offset_eq. destruct (_ || _) eqn:E.
  - split; [done|]. wire_lia.
  - change (network_u32 cfg) with (network_addr cfg). rewrite network_addr_eq.
    unfold subnet_size in *. rewrite lor_low by wire_lia.
    split; [intros [= <-]; wire_lia|by intros [_ ->]].
Qed.

(** Host offsets number the usable addresses of a VPN subnet: every usable
    host is the address at its own offset, and the address at an offset is a
    usable host with that offset; so allocation by offset never leaves the
    subnet and never yields the network or broadcast address. *)
Theorem host_offset_bijection :
  (forall ip, u32_ok ip -> is_usable_host cfg ip = true ->
     ip_for_host_offset cfg (host_offset cfg ip) = Some ip) /\
  (forall k ip, 0 <= k -> ip_for_host_offset cfg k = Some ip ->
     u32_ok ip /\ is_usable_host cfg ip = true /\ host_offset cfg ip = k).
Proof.
  pose proof subnet_size_bound as HB. split.
  - intros ip Hip Hu. apply usable_host_iff in Hu as [Hq Hr]; [|done].
    rewrite host_offset_eq by done. apply ip_for_host_offset_Some; [lia|].
    split; [lia|]. rewrite network_addr_eq, <-Hq. apply Z.div_mod. lia.
  - intros k ip Hk [Hr ->]%ip_for_host_offset_Some; [|done].
    assert (u32_ok (network_addr cfg + k)) as Hok.
    { pose proof network_addr_bound. unfold u32_ok. lia. }
    assert ((network_addr cfg + k) / subnet_size = v_server_vpn_ip cfg / subnet_size /\
            (network_addr cfg + k) mod subnet_size = k) as [H1 H2].
    { rewrite network_addr_eq. split.
      - rewrite Z.mul_comm, Z.div_add_l by lia. rewrite (Z.div_small k) by lia. lia.
      - rewrite Z.mul_comm, Z.add_comm, Z.mod_add by lia. apply Z.mod_small. lia. }
    split; [done|]. split; [apply usable_host_iff; [done|]; rewrite H1, H2; lia|].
    by rewrite host_offset_eq.
Qed.
End Subnet.

(** ** Validation *)

Lemma ipv6_gateway_no_panic cfg : ipv6_gateway cfg <> Panic.
Proof.
  unfold ipv6_gateway. destruct (split_once _ _) as [[]|]; cbn [ok_or obind]; [|done].
  destruct (parse_ipv6 _); cbn [ok_or obind]; [|done].
  destruct (parse_u8 _); cbn [ok_or obind]; [|done]. by repeat case_match.
Qed.

Lemma v_client_ipv6_no_panic cfg ip : v_client_ipv6 cfg ip <> Panic.
Proof.
  unfold v_client_ipv6. pose proof (ipv6_gateway_no_panic cfg).
  destruct (negb _); [done|]. destruct (_ || _); [done|].
  destruct (ipv6_gateway cfg) as [[]| |]; done.
Qed.

Lemma v_validate_no_panic cfg : v_validate cfg <> Panic.
Proof.
  unfold v_validate. pose proof (ipv6_gateway_no_panic cfg).
  destruct (v_ipv6_enabled cfg); [|by repeat case_match].
  destruct (ipv6_gateway cfg); [|done|done]. simpl. by repeat case_match.
Qed.

Lemma client_config_no_panic cfg ip : client_config cfg ip <> Panic.
Proof.
  unfold client_config. pose proof (v_validate_no_panic cfg).
  pose proof (v_client_ipv6_no_panic cfg ip).
  destruct (v_validate cfg); [|done|done]. simpl. do 2 (case_match; [done|]).
  by destruct (v_client_ipv6 cfg ip).
Qed.

Lemma client_ipv6_no_panic c : client_ipv6 c <> Panic.
Proof.
  unfold client_ipv6. repeat case_match; try done. destruct (parse_ipv6 _); simpl; [|done].
  by case_match.
Qed.

Lemma c_validate_no_panic c : c_validate c <> Panic.
Proof.
  unfold c_validate. pose proof (client_ipv6_no_panic c).
  destruct (client_ipv6 c); [|done|done]. simpl.
  destruct (client_config _ _) eqn:E; [done|done|by apply client_config_no_panic in E].
Qed.

(** The checks of [client_config] that do not concern IPv6. *)
Definition ipv4_assignment_ok (server client prefix : Z) : Prop :=
  1 <= prefix <= 30 /\
  let cfg := {| v_server_vpn_ip := server; v_prefix_len := prefix; v_mtu := 0;
                v_keepalive_secs := None; v_ipv6_enabled := false; v_ipv6_prefix := [] |} in
  server <> network_addr cfg /\ server <> broadcast_addr cfg /\
  is_usable_host cfg client = true /\ client <> server.

Lemma client_config_Ok cfg ip c :
  client_config cfg ip = Ok c ->
  v_validate cfg = Ok tt /\
  ipv4_assignment_ok (v_server_vpn_ip cfg) ip (v_prefix_len cfg) /\
  exists v6, v_client_ipv6 cfg ip = Ok v6 /\
  c = {| client_ip := ip; server_vpn_ip := v_server_vpn_ip cfg;
         prefix_len := v_prefix_len cfg; mtu := Z.min (v_mtu cfg) MAX_MASK_TUN_MTU;
         mdh_len := default_mdh_len; keepalive_secs := v_keepalive_secs cfg;
         ipv6_address := (fun p => show_ipv6 (fst p)) <$> v6;
         ipv6_prefix_len := snd <$> v6 |}.
Proof.
  unfold client_config. intros ([] & Hv & H)%obind_Ok. split; [done|].
  destruct (negb _) eqn:E1; [done|]. destruct (_ =? _) eqn:E2; [done|].
  apply obind_Ok in H as (v6 & Hv6 & [= <-]). split; [|eauto].
  unfold v_validate in Hv. apply obind_Ok in Hv as ([] & _ & Hv).
  destruct (negb (_ && _)) eqn:E3; [done|]. destruct (_ || _) eqn:E4; [done|].
  unfold ipv4_assignment_ok.
  change (network_addr {| v_server_vpn_ip := v_server_vpn_ip cfg; v_prefix_len := v_prefix_len cfg;
    v_mtu := 0; v_keepalive_secs := None; v_ipv6_enabled := false; v_ipv6_prefix := [] |})
    with (network_addr cfg).
  change (broadcast_addr {| v_server_vpn_ip := v_server_vpn_ip cfg; v_prefix_len := v_prefix_len cfg;
    v_mtu := 0; v_keepalive_secs := None; v_ipv6_enabled := false; v_ipv6_prefix := [] |})
    with (broadcast_addr cfg).
  change (is_usable_host {| v_server_vpn_ip := v_server_vpn_ip cfg; v_prefix_len := v_prefix_len cfg;
    v_mtu := 0; v_keepalive_secs := None; v_ipv6_enabled := false; v_ipv6_prefix := [] |} ip)
    with (is_usable_host cfg ip).
  autorewrite with aivpn_bool in *. destruct_and!. repeat split; try done; lia.
Qed.

Lemma c_validate_Ok c :
  c_validate c = Ok tt <->
  ipv4_assignment_ok (server_vpn_ip c) (client_ip c) (prefix_len c) /\
  exists v6, client_ipv6 c = Ok v6.
Proof.
  split.
  - unfold c_validate. intros (v6 & Hv6 & H)%obind_Ok. split; [|eauto].
    unfold omap in H. apply obind_Ok in H as (c' & H & _).
    by apply client_config_Ok in H as (_ & H & _).
  - intros ((Hp & Hn & Hb & Hu & Hc) & v6 & Hv6). unfold c_validate. rewrite Hv6.
    simpl. unfold client_config, v_validate. simpl obind. cbn [v_ipv6_enabled].
    guard_false.
    match goal with |- context [if ?b then _ else _] => assert (b = false) as -> end.
    { apply orb_false_iff. split; by apply Z.eqb_neq. }
    match goal with |- context [if negb ?b then _ else _] => assert (b = true) as -> end.
    { exact Hu. }
    simpl. match goal with |- context [if ?b then _ else _] => assert (b = false) as -> end;
      [by apply Z.eqb_neq|done].
Qed.

(** The values that have a wire form of their own: fields in the range of their
    types, the IPv6 text in the form [to_string] gives it, a keepalive other than
    the zero that stands for none, and the default [mdh_len], which the wire form
    does not carry. *)
Definition client_network_wf (c : ClientNetworkConfig) : Prop :=
  u32_ok (client_ip c) /\ u32_ok (server_vpn_ip c) /\ u8_ok (prefix_len c) /\ u16_ok (mtu c) /\
  mdh_len c = default_mdh_len /\
  (forall k, keepalive_secs c = Some k -> 0 < k < 256) /\
  (forall s, ipv6_address c = Some s -> exists a, u128_ok a /\ s = show_ipv6 a) /\
  (forall p, ipv6_prefix_len c = Some p -> u8_ok p).

Lemma length_ipv4_octets a : length (ipv4_octets a) = 4%nat.
Proof. apply length_be_bytes. Qed.
Lemma length_ipv6_octets a : length (ipv6_octets a) = 16%nat.
Proof. apply length_be_bytes. Qed.
#[export] Hint Rewrite length_ipv4_octets length_ipv6_octets : aivpn_len.

Lemma length_encode_wire c : length (encode_wire c) = 30%nat.
Proof. unfold encode_wire. repeat case_match; autorewrite with aivpn_len; lia. Qed.
#[export] Hint Rewrite length_encode_wire : aivpn_len.

(** The first 13 bytes and the IPv6 part of the wire form. *)
Definition wire_prefix (c : ClientNetworkConfig) : bytes :=
  [WIRE_VERSION; prefix_len c] ++ le_bytes 2 (mtu c)
  ++ ipv4_octets (server_vpn_ip c) ++ ipv4_octets (client_ip c)
  ++ [default 0 (keepalive_secs c)].

Lemma encode_wire_split c :
  encode_wire c = wire_prefix c ++
    match client_ipv6 c with
    | Ok (Some (address, prefix)) => prefix :: ipv6_octets address
    | _ => zeros 17
    end.
Proof. unfold encode_wire, wire_prefix. by rewrite <-!app_assoc. Qed.

Lemma length_wire_prefix c : length (wire_prefix c) = 13%nat.
Proof. unfold wire_prefix. autorewrite with aivpn_len. lia. Qed.
#[export] Hint Rewrite length_wire_prefix : aivpn_len.

Lemma client_ipv6_None c : client_ipv6 c = Ok None -> ipv6_address c = None /\ ipv6_prefix_len c = None.
Proof.
  unfold client_ipv6. repeat case_match; try done.
  destruct (parse_ipv6 _); simpl; [|done]. by case_match.
Qed.

Lemma client_ipv6_Some c a p :
  client_ipv6 c = Ok (Some (a, p)) ->
  exists s, ipv6_address c = Some s /\ parse_ipv6 s = Some a /\
    ipv6_prefix_len c = Some p /\ 1 <= p <= 96.
Proof.
  unfold client_ipv6. destruct (ipv6_address c) as [s|]; [|by destruct (ipv6_prefix_len c)].
  destruct (ipv6_prefix_len c) as [q|]; [|done]. destruct (_ && _ && _) eqn:E; [|done].
  destruct (parse_ipv6 s) as [b|] eqn:Ep; cbn [ok_or obind]; [|done].
  destruct (_ || _); [done|]. intros [= <- <-]. exists s. repeat split; try done; wire_lia.
Qed.

Lemma wire_prefix_fields c tail :
  client_network_wf c ->
  idx (wire_prefix c ++ tail) 0 = Ok WIRE_VERSION /\
  idx (wire_prefix c ++ tail) 1 = Ok (prefix_len c) /\
  idx (wire_prefix c ++ tail) 12 = Ok (default 0 (keepalive_secs c)) /\
  le_at 2 (wire_prefix c ++ tail) 2 = Ok (mtu c) /\
  be_at 4 (wire_prefix c ++ tail) 4 = Ok (server_vpn_ip c) /\
  be_at 4 (wire_prefix c ++ tail) 8 = Ok (client_ip c).
Proof.
  intros (Hc & Hs & Hp & Hm & _). unfold wire_prefix, ipv4_octets.
  rewrite <-!app_assoc. cbn [app]. repeat split; by repeat read_step.
Qed.

Lemma decode_encode_wire c :
  client_network_wf c -> c_validate c = Ok tt -> decode_wire (encode_wire c) = Ok c.
Proof.
  intros Hwf Hv. pose proof Hv as ((Hp30 & _) & v6 & Hv6)%c_validate_Ok.
  unfold decode_wire. rewrite length_encode_wire, encode_wire_split. guard_false.
  edestruct (wire_prefix_fields c) as (F0 & F1 & F12 & F2 & F4 & F8); [done|].
  rewrite F0, F1, F12, F2, F4, F8. destruct Hwf as (_ & _ & _ & _ & Hmdh & Hk & Ha & _).
  cbn [obind]. guard_false. guard_false. guard_true. cbn [obind]. guard_false.
  change (Z.of_nat 30 =? WIRE_SIZE) with true.
  assert ((if 0 <? default 0 (keepalive_secs c) then Some (default 0 (keepalive_secs c)) else None)
          = keepalive_secs c) as ->.
  { destruct (keepalive_secs c) as [k|]; [|done]. simpl. destruct (Hk k); [done|].
    by guard_true. }
  rewrite Hv6. unfold slice_from. destruct v6 as [[a p]|]; repeat read_step.
  - apply client_ipv6_Some in Hv6 as (s & Es & Ep & Epl & Hp).
    destruct (Ha s Es) as (a' & Ha' & ->). rewrite parse_show_ipv6 in Ep by done.
    injection Ep as ->. cbn [obind andb].
    assert ((p =? 0) = false) as -> by lia. cbn [obind andb negb].
    repeat read_step. cbn [obind fst snd].
    assert (ipv6_from_octets (ipv6_octets a) = a) as ->.
    { unfold ipv6_from_octets, ipv6_octets. rewrite from_be_be_bytes.
      apply Z.mod_small. exact Ha'. }
    rewrite <-Es, <-Epl, <-Hmdh. destruct c; simpl in *. by rewrite Hv.
  - apply client_ipv6_None in Hv6 as [Ea Epl]. cbn [obind andb].
    change (zeros 17) with (0 :: zeros 16). repeat read_step. cbn [obind Z.eqb andb].
    repeat read_step. cbn [obind negb andb fst snd existsb zeros replicate Z.eqb].
    rewrite <-Ea, <-Epl, <-Hmdh. destruct c; simpl in *. by rewrite Hv.
Qed.

(** The 30-byte wire form of a client assignment decodes to the assignment
    itself: every valid assignment (IPv4 only or dual-stack, with or without a
    keepalive override) survives [encode_wire] and [decode_wire] unchanged. *)
Theorem network_config_roundtrip c :
  client_network_wf c -> c_validate c = Ok tt -> decode_wire (encode_wire c) = Ok c.
Proof. apply decode_encode_wire. Qed.

Lemma safe_c_validate c (Q : unit -> Prop) :
  (c_validate c = Ok tt -> Q tt) -> safe (c_validate c) Q.
Proof.
  pose proof (c_validate_no_panic c). destruct (c_validate c) as [[]| |]; simpl; auto.
Qed.

Lemma decoded_wf client server p m k v6 :
  u32_ok client -> u32_ok server -> byte_ok p -> u16_ok m ->
  (forall x, k = Some x -> 0 < x < 256) ->
  (v6 = (None, None) \/ exists a d, u128_ok a /\ byte_ok d /\ v6 = (Some (show_ipv6 a), Some d)) ->
  client_network_wf {| client_ip := client; server_vpn_ip := server; prefix_len := p; mtu := m;
    mdh_len := default_mdh_len; keepalive_secs := k; ipv6_address := fst v6;
    ipv6_prefix_len := snd v6 |}.
Proof.
  intros Hc Hs Hp Hm Hk [->|(a & d & Ha & Hd & ->)]; unfold client_network_wf;
    split_and!; simpl; try done; intros; simplify_eq; eauto.
Qed.

Lemma safe_decode_wire data :
  bytes_ok data ->
  safe (decode_wire data) (fun c => client_network_wf c /\ c_validate c = Ok tt).
Proof.
  intros Hok. unfold decode_wire.
  repeat safe_step; (apply safe_c_validate; intros; repeat safe_step; split; [|done]);
    use_bytes_ok; apply decoded_wf; try done; try by left.
  all: try (right; do 2 eexists; split_and!; [by apply ipv6_from_octets_ok|done|done]).
  all: intros k; destruct (0 <? _) eqn:?; [|done]; intros [= <-]; unfold byte_ok in *; wire_lia.
Qed.

(** Decoding a client assignment never panics, whatever bytes arrive, and an
    assignment it accepts is a well-formed value that passes [validate]. *)
Theorem decode_wire_safe data :
  bytes_ok data ->
  safe (decode_wire data) (fun c => client_network_wf c /\ c_validate c = Ok tt).
Proof. apply safe_decode_wire. Qed.

(** ** IPv6 assignments *)

Lemma mask_u128_eq p : 1 <= p <= 96 -> mask_u128 p = 2 ^ 128 - 2 ^ (128 - p).
Proof. intros. unfold mask_u128. apply shl_ones_mod. lia. Qed.

Lemma mask_u128_low p : 1 <= p <= 96 -> exists q, mask_u128 p = 2 ^ 32 * q.
Proof.
  intros. rewrite mask_u128_eq by done. exists (2 ^ 96 - 2 ^ (96 - p)).
  rewrite Z.mul_sub_distr_l, <-!Z.pow_add_r by lia. do 2 f_equal; lia.
Qed.

(** The network part of an IPv6 prefix is a multiple of [2 ^ 32]. *)
Lemma ipv6_base_low g p : 1 <= p <= 96 -> exists q, Z.land g (mask_u128 p) = 2 ^ 32 * q.
Proof.
  intros Hp. destruct (mask_u128_low p Hp) as [q Hq]. exists (Z.land (Z.shiftr g 32) q).
  rewrite Hq. rewrite !(Z.mul_comm (2 ^ 32)), <-!Z.shiftl_mul_pow2 by lia.
  apply Z.bits_inj'. intros i Hi. rewrite Z.land_spec.
  destruct (Z.ltb_spec i 32).
  - rewrite !Z.shiftl_spec_low by lia. apply andb_false_r.
  - rewrite !Z.shiftl_spec, Z.land_spec, Z.shiftr_spec by lia.
    by replace (i - 32 + 32) with i by lia.
Qed.

Lemma mask_u128_pos p : 1 <= p <= 96 -> 0 <= mask_u128 p <= 2 ^ 128 - 2 ^ 32.
Proof.
  intros. rewrite mask_u128_eq by done.
  assert (2 ^ 32 <= 2 ^ (128 - p)) by (apply Z.pow_le_mono_r; lia).
  assert (2 ^ (128 - p) <= 2 ^ 128) by (apply Z.pow_le_mono_r; lia). lia.
Qed.

Lemma ipv6_base_bound g p :
  1 <= p <= 96 -> 0 <= Z.land g (mask_u128 p) <= 2 ^ 128 - 2 ^ 32.
Proof.
  intros Hp. pose proof (mask_u128_pos p Hp). rewrite Z.land_comm.
  pose proof (land_bound (mask_u128 p) g). lia.
Qed.

Lemma ipv6_gateway_Ok cfg g p :
  ipv6_gateway cfg = Ok (g, p) ->
  1 <= p <= 96 /\ exists a, u128_ok a /\ ipv6_is_multicast a = false /\
  g = Z.lor (Z.land a (mask_u128 p)) 1 /\ ipv6_is_loopback g = false.
Proof.
  unfold ipv6_gateway. destruct (split_once _ _) as [[x y]|]; cbn [ok_or obind]; [|done].
  destruct (parse_ipv6 x) as [a|] eqn:Ea; cbn [ok_or obind]; [|done].
  destruct (parse_u8 y) as [q|] eqn:Ep; cbn [ok_or obind]; [|done].
  apply parse_ipv6_bound in Ea.
  assert (0 <= q) as Hq.
  { unfold parse_u8 in Ep. destruct (read_digits _ _ _ _) as [[v n] rest] eqn:Er.
    apply read_digits_nonneg in Er; [|lia|lia]. repeat case_match; simplify_eq. lia. }
  head_if E1; [done|]. cbv zeta. head_if E2; [done|]. intros [= <- <-].
  rewrite !orb_false_iff in *. destruct_and!.
  split; [wire_lia|]. exists a. done.
Qed.

Lemma v_client_ipv6_Ok cfg ip a p :
  u32_ok ip -> v_client_ipv6 cfg ip = Ok (Some (a, p)) ->
  exists base, a = base + ip /\ 1 <= p <= 96 /\ 0 < base <= 2 ^ 128 - 2 ^ 32 /\
  base mod 2 ^ 32 = 0 /\ base / 2 ^ 120 <> 255.
Proof.
  intros Hip. unfold v_client_ipv6. destruct (negb _); [done|]. destruct (_ || _); [done|].
  destruct (ipv6_gateway cfg) as [[g q]| |] eqn:Eg; cbn [obind]; [|done|done].
  intros [= <- <-]. apply ipv6_gateway_Ok in Eg as (Hq & adr & Hadr & Hmc & -> & Hlo).
  pose proof (ipv6_base_bound adr q Hq) as Hb. destruct (ipv6_base_low adr q Hq) as [k Hk].
  assert (Z.land (Z.lor (Z.land adr (mask_u128 q)) 1) (mask_u128 q)
          = Z.land adr (mask_u128 q)) as ->.
  { rewrite Z.land_lor_distr_l, <-Z.land_assoc, Z.land_diag.
    destruct (ipv6_base_low 1 q Hq) as [j Hj].
    assert (Z.land 1 (mask_u128 q) = 0) as ->; [|apply Z.lor_0_r].
    pose proof (mask_u128_pos q Hq).
    pose proof (land_bound 1 (mask_u128 q)). lia. }
  exists (Z.land adr (mask_u128 q)).
  split; [|split; [done|]; split; [split; [|lia]|split]].
  - rewrite Hk. apply lor_low; [lia|]. unfold u32_ok in Hip. lia.
  - destruct (Z.eq_dec (Z.land adr (mask_u128 q)) 0) as [E|]; [|lia].
    rewrite E in Hlo. done.
  - rewrite Hk, Z.mul_comm. apply Z.mod_mul. lia.
  - intros H255. unfold ipv6_is_multicast in Hmc. apply Z.eqb_neq in Hmc. apply Hmc.
    change 1329227995784915872903807060280344576 with (2 ^ 120).
    rewrite <-Z.shiftr_div_pow2, Z.shiftr_land in H255 by lia.
    rewrite <-Z.shiftr_div_pow2 by lia. unfold u128_ok in Hadr.
    assert (0 <= Z.shiftr adr 120 < 2 ^ 8) as Hx.
    { rewrite Z.shiftr_div_pow2 by lia.
      split; [apply Z.div_pos; lia|apply Z.div_lt_upper_bound; lia]. }
    pose proof (land_bound (Z.shiftr adr 120) (Z.shiftr (mask_u128 q) 120)). lia.
Qed.

(** With IPv6 enabled, a client's IPv6 address and its IPv4 address determine
    each other: looking up the address that was assigned to a client returns that
    client, and an address that resolves to a client is the one assigned to it. *)
Theorem client_ipv6_roundtrip cfg ip a :
  u32_ok ip ->
  (exists p, v_client_ipv6 cfg ip = Ok (Some (a, p))) <-> client_ip_for_ipv6 cfg a = Some ip.
Proof.
  intros Hip. unfold client_ip_for_ipv6. split.
  - intros [p H]. pose proof H as (base & -> & _ & _ & Hm & _)%v_client_ipv6_Ok; [|done].
    assert (wrap32 (base + ip) = ip) as Hw.
    { unfold wrap32. change 4294967296 with (2 ^ 32). rewrite Z.add_mod, Hm by lia.
      unfold u32_ok in Hip. rewrite !Z.mod_small by (rewrite ?Z.mod_small; lia). lia. }
    by rewrite Hw, H, Z.eqb_refl.
  - destruct (v_client_ipv6 cfg (wrap32 a)) as [[[b p]|]| |] eqn:E; try done.
    destruct (Z.eqb_spec b a) as [->|]; [|done]. intros [= <-]. eauto.
Qed.

(** The assignment the server computes for a client passes the client's own
    [validate]: a client never rejects the configuration of a server that
    accepted its own. *)
Theorem client_config_validates cfg ip c :
  u32_ok (v_server_vpn_ip cfg) -> u32_ok ip ->
  client_config cfg ip = Ok c -> c_validate c = Ok tt.
Proof.
  intros Hs Hip (Hv & Ha & v6 & Hv6 & ->)%client_config_Ok.
  apply c_validate_Ok. cbn. split; [done|].
  destruct v6 as [[a p]|]; [|by exists None].
  pose proof Hv6 as (base & -> & Hp & Hb & Hm & Hmc)%v_client_ipv6_Ok; [|done].
  unfold u32_ok in Hip.
  exists (Some (base + ip, p)). unfold client_ipv6. cbn.
  assert (1280 <= v_mtu cfg).
  { unfold v_client_ipv6 in Hv6. unfold v_validate in Hv.
    destruct (v_ipv6_enabled cfg); [|done]. simpl in Hv.
    apply obind_Ok in Hv as ([] & Hv & _). apply obind_Ok in Hv as (? & _ & Hv).
    destruct (_ <? _) eqn:?; [done|]. lia. }
  guard_true. rewrite parse_show_ipv6 by (unfold u128_ok; lia). cbn [ok_or obind].
  assert (2 ^ 32 <= base) as Hbase.
  { apply Z.mod_divide in Hm as [k ->]; lia. }
  assert (ipv6_is_multicast (base + ip) = false) as ->.
  { unfold ipv6_is_multicast. apply Z.eqb_neq.
    change 1329227995784915872903807060280344576 with (2 ^ 120).
    replace ((base + ip) / 2 ^ 120) with (base / 2 ^ 120); [done|].
    apply Z.mod_divide in Hm as [k ->]; [|lia].
    change (2 ^ 120) with (2 ^ 32 * 2 ^ 88). rewrite <-!Z.div_div, Z.div_add_l, Z.div_mul by lia.
    rewrite (Z.div_small ip) by lia. by rewrite Z.add_0_r. }
  unfold ipv6_is_unspecified, ipv6_is_loopback. by guard_false.
Qed.

(** ** Netmasks *)

Lemma leading_ones_mask (n : nat) (k : Z) :
  (n <= 32)%nat -> 0 <= k <= Z.of_nat n ->
  leading_ones_fuel n (2 ^ 32 - 2 ^ k) = Z.of_nat n - k.
Proof.
  intros Hn Hk.
  replace (2 ^ 32 - 2 ^ k) with (Z.shiftl (Z.ones (32 - k)) k).
  2: { rewrite Z.shiftl_mul_pow2, Z.ones_equiv by lia. unfold Z.pred.
       rewrite Z.mul_add_distr_r, <-Z.pow_add_r by lia.
       replace (32 - k + k) with 32 by lia. lia. }
  induction n as [|n IH]; cbn [leading_ones_fuel]; [lia|].
  destruct (Z.eq_dec k (Z.of_nat (S n))) as [->|].
  - rewrite Z.shiftl_spec_low by lia. lia.
  - rewrite Z.shiftl_spec, Z.ones_spec_low by lia. rewrite IH by lia. lia.
Qed.

Lemma leading_ones_bound n x : 0 <= leading_ones_fuel n x <= Z.of_nat n.
Proof. induction n as [|n IH]; cbn [leading_ones_fuel]; [lia|]. case_match; lia. Qed.

(** The netmask of every prefix length from 0 to 32 converts back to that
    prefix length, and a netmask that converts to a prefix length is the netmask
    of that length: only contiguous netmasks are accepted. *)
Theorem netmask_prefix_roundtrip :
  (forall p, 0 <= p <= 32 -> netmask_to_prefix_len (prefix_len_to_netmask p) = Ok p) /\
  (forall m p, u32_ok m -> netmask_to_prefix_len m = Ok p -> m = prefix_len_to_netmask p).
Proof.
  assert (forall k, 0 <= k <= 32 -> shl32_max k = 2 ^ 32 - 2 ^ k) as Hshl.
  { intros. unfold shl32_max, wrap32, u32_max. by apply (shl_ones_mod 32). }
  split.
  - intros p Hp. unfold netmask_to_prefix_len.
    assert (prefix_len_to_netmask p = 2 ^ 32 - 2 ^ (32 - p)) as ->.
    { unfold prefix_len_to_netmask. destruct (Z.eqb_spec p 0) as [->|]; [done|].
      destruct (Z.leb_spec 32 p); [|by apply Hshl; lia].
      by replace p with 32 by lia. }
    unfold leading_ones32. rewrite leading_ones_mask by lia.
    replace (Z.of_nat 32 - (32 - p)) with p by lia.
    assert ((if p =? 0 then 0 else shl32_max (32 - p)) = 2 ^ 32 - 2 ^ (32 - p)) as ->.
    { destruct (Z.eqb_spec p 0) as [->|]; [done|]. apply Hshl. lia. }
    by rewrite Z.eqb_refl.
  - intros m p Hm. unfold netmask_to_prefix_len. cbv zeta.
    pose proof (leading_ones_bound 32 m) as Hb. fold (leading_ones32 m) in Hb.
    head_if E; [done|]. intros [= <-]. apply negb_false_iff, Z.eqb_eq in E.
    revert E Hb. unfold prefix_len_to_netmask. generalize (leading_ones32 m). intros q -> Hb.
    destruct (Z.eqb_spec q 0); [done|]. destruct (Z.leb_spec 32 q); [|done].
    by replace q with 32 by lia.
Qed.

(** ** Witnesses *)

Definition dual_stack_network : VpnNetworkConfig := {|
  v_server_vpn_ip := ipv4_new 10 0 0 1;
  v_prefix_len := 24;
  v_mtu := 1280;
  v_keepalive_secs := Some 25;
  v_ipv6_enabled := true;
  v_ipv6_prefix := default_ipv6_prefix;
|}.

Definition dual_stack_client : ClientNetworkConfig := Eval vm_compute in
  match client_config dual_stack_network (ipv4_new 10 0 0 7) with
  | Ok c => c
  | _ => {| client_ip := 0; server_vpn_ip := 0; prefix_len := 0; mtu := 0; mdh_len := 0;
            keepalive_secs := None; ipv6_address := None; ipv6_prefix_len := None |}
  end.

Lemma dual_stack_client_wf : client_network_wf dual_stack_client.
Proof.
  unfold client_network_wf, u32_ok, u8_ok, u16_ok. cbn -[show_ipv6].
  split_and!; try lia; try done.
  - intros k [= <-]. lia.
  - intros s [= <-]. exists (Z.lor (Z.shiftl 0xfd10cafe 96) (ipv4_new 10 0 0 7)).
    split; [unfold u128_ok|]; vm_compute; done.
  - intros p [= <-]. lia.
Qed.

Lemma host_offset_bijection_witness :
  ip_for_host_offset dual_stack_network (host_offset dual_stack_network (ipv4_new 10 0 0 7))
  = Some (ipv4_new 10 0 0 7).
Proof. apply host_offset_bijection; [cbn; lia|by vm_compute|by vm_compute|vm_compute; reflexivity]. Defined.

Lemma network_config_roundtrip_witness :
  decode_wire (encode_wire dual_stack_client) = Ok dual_stack_client.
Proof. apply network_config_roundtrip; [apply dual_stack_client_wf|vm_compute; reflexivity]. Defined.

Lemma decode_wire_safe_witness :
  safe (decode_wire (zeros 30)) (fun c => client_network_wf c /\ c_validate c = Ok tt).
Proof. apply decode_wire_safe, bytes_ok_zeros. Defined.

Lemma client_ipv6_roundtrip_witness :
  client_ip_for_ipv6 dual_stack_network (Z.lor (Z.shiftl 0xfd10cafe 96) (ipv4_new 10 0 0 7))
  = Some (ipv4_new 10 0 0 7).
Proof.
  apply client_ipv6_roundtrip; [by vm_compute|]. exists 48. vm_compute; reflexivity.
Defined.

Lemma client_config_validates_witness : c_validate dual_stack_client = Ok tt.
Proof.
  apply (client_config_validates dual_stack_network (ipv4_new 10 0 0 7));
    [by vm_compute|by vm_compute|vm_compute; reflexivity].
Defined.
