(* ===== verification/Protocol.v ===== *)
(** * The packet layer of the wire protocol

    Models the constants, the inner payload types, [InnerHeader], [AivpnPacket]
    and [AckPacket] of [crates/aivpn-common/src/protocol.rs], and the numbering
    of control messages ([ControlSubtype]). The control messages themselves are
    in [Control]. *)

From S2P Require Import Prelude.
Local Open Scope Z_scope.

Definition TAG_SIZE : Z := 8.
Definition POLY1305_TAG_SIZE : Z := 16.
Definition MAX_PACKET_SIZE : Z := 1500.
Definition MAX_MGMT_BODY_SIZE : Z := 512 * 1024.
Definition MAX_MGMT_PATH_SIZE : Z := 512.
Definition UDP_RECV_BUF_SIZE : Z := 65536.
Definition MIN_HEADER_OVERHEAD : Z := TAG_SIZE + 2 + 4 + POLY1305_TAG_SIZE.
Definition MAX_PAYLOAD_SIZE : Z := MAX_PACKET_SIZE - MIN_HEADER_OVERHEAD.

#[export] Hint Unfold TAG_SIZE POLY1305_TAG_SIZE MAX_PACKET_SIZE MAX_MGMT_BODY_SIZE
  MAX_MGMT_PATH_SIZE UDP_RECV_BUF_SIZE MIN_HEADER_OVERHEAD MAX_PAYLOAD_SIZE : aivpn_consts.

(** ** Inner payload types *)

Module InnerType.
Inductive t : Type := Data | Control | Fragment | Ack | FecRepair.

Definition as_u16 (x : t) : Z :=
  match x with Data => 1 | Control => 2 | Fragment => 3 | Ack => 4 | FecRepair => 5 end.

Definition from_u16 (value : Z) : option t :=
  match value with
  | 1 => Some Data
  | 2 => Some Control
  | 3 => Some Fragment
  | 4 => Some Ack
  | 5 => Some FecRepair
  | _ => None
  end.

#[global] Instance eq_dec : EqDecision t.
Proof. solve_decision. Defined.

Lemma inner_type_from_as x : from_u16 (as_u16 x) = Some x.
Proof. by destruct x. Qed.

Lemma inner_type_bound x : 1 <= as_u16 x <= 5.
Proof. destruct x; simpl; lia. Qed.

Lemma from_Some value x : from_u16 value = Some x -> value = as_u16 x.
Proof.
  unfold from_u16. intros H. repeat (case_match; simplify_eq; try done).
Qed.
End InnerType.

(** ** Control message numbers *)

Module ControlSubtype.
Inductive t : Type :=
  | KeyRotate | MaskUpdate | Keepalive | TelemetryRequest | TelemetryResponse | TimeSync
  | Shutdown | ControlAck | ServerHello | RecordingStart | RecordingAck | RecordingStop
  | RecordingComplete | RecordingFailed | RecordingStatusRequest | RecordingStatus
  | BootstrapDescriptorUpdate | PoolSync | RouteSync | ChainForward | ClientCert
  | CertRejected | DeviceEnrollment | KeepaliveAck | QualityReport | AdaptiveHint
  | MaskPreference | MaskFeedback | RegionalMaskHints | FeedbackConfig | MaskCatalog
  | HandshakeReject | PoolStateDigest | PoolBucketDigests | NodeEnrollment | Capabilities
  | MgmtRequest | MgmtResponse | PartitionAnnounce | SiteData | ClientHello | MaskState.

Definition as_u8 (x : t) : Z :=
  match x with
  | KeyRotate => 0x01 | MaskUpdate => 0x02 | Keepalive => 0x03 | TelemetryRequest => 0x04
  | TelemetryResponse => 0x05 | TimeSync => 0x06 | Shutdown => 0x07 | ControlAck => 0x08
  | ServerHello => 0x09 | RecordingStart => 0x0A | RecordingAck => 0x0B
  | RecordingStop => 0x0C | RecordingComplete => 0x0D | RecordingFailed => 0x0E
  | RecordingStatusRequest => 0x0F | RecordingStatus => 0x10
  | BootstrapDescriptorUpdate => 0x11 | PoolSync => 0x12 | RouteSync => 0x13
  | ChainForward => 0x14 | ClientCert => 0x15 | CertRejected => 0x16
  | DeviceEnrollment => 0x17 | KeepaliveAck => 0x18 | QualityReport => 0x19
  | AdaptiveHint => 0x1A | MaskPreference => 0x1B | MaskFeedback => 0x1C
  | RegionalMaskHints => 0x1D | FeedbackConfig => 0x1E | MaskCatalog => 0x1F
  | HandshakeReject => 0x20 | PoolStateDigest => 0x21 | PoolBucketDigests => 0x22
  | NodeEnrollment => 0x23 | Capabilities => 0x24 | MgmtRequest => 0x25
  | MgmtResponse => 0x26 | PartitionAnnounce => 0x27 | SiteData => 0x28
  | ClientHello => 0x29 | MaskState => 0x2A
  end.

Definition from_u8 (value : Z) : option t :=
  match value with
  | 0x01 => Some KeyRotate
  | 0x02 => Some MaskUpdate
  | 0x03 => Some Keepalive
  | 0x04 => Some TelemetryRequest
  | 0x05 => Some TelemetryResponse
  | 0x06 => Some TimeSync
  | 0x07 => Some Shutdown
  | 0x08 => Some ControlAck
  | 0x09 => Some ServerHello
  | 0x0A => Some RecordingStart
  | 0x0B => Some RecordingAck
  | 0x0C => Some RecordingStop
  | 0x0D => Some RecordingComplete
  | 0x0E => Some RecordingFailed
  | 0x0F => Some RecordingStatusRequest
  | 0x10 => Some RecordingStatus
  | 0x11 => Some BootstrapDescriptorUpdate
  | 0x12 => Some PoolSync
  | 0x13 => Some RouteSync
  | 0x14 => Some ChainForward
  | 0x15 => Some ClientCert
  | 0x16 => Some CertRejected
  | 0x17 => Some DeviceEnrollment
  | 0x18 => Some KeepaliveAck
  | 0x19 => Some QualityReport
  | 0x1A => Some AdaptiveHint
  | 0x1B => Some MaskPreference
  | 0x1C => Some MaskFeedback
  | 0x1D => Some RegionalMaskHints
  | 0x1E => Some FeedbackConfig
  | 0x1F => Some MaskCatalog
  | 0x20 => Some HandshakeReject
  | 0x21 => Some PoolStateDigest
  | 0x22 => Some PoolBucketDigests
  | 0x23 => Some NodeEnrollment
  | 0x24 => Some Capabilities
  | 0x25 => Some MgmtRequest
  | 0x26 => Some MgmtResponse
  | 0x27 => Some PartitionAnnounce
  | 0x28 => Some SiteData
  | 0x29 => Some ClientHello
  | 0x2A => Some MaskState
  | _ => None
  end.

#[global] Instance eq_dec : EqDecision t.
Proof. solve_decision. Defined.

Lemma subtype_from_as x : from_u8 (as_u8 x) = Some x.
Proof. by destruct x. Qed.

Lemma subtype_bound x : 1 <= as_u8 x <= 42.
Proof. destruct x; simpl; lia. Qed.
End ControlSubtype.

(** ** Inner header *)

Module InnerHeader.
Record t : Type := { inner_type : InnerType.t; seq_num : Z }.

Definition encode (h : t) : bytes :=
  le_bytes 2 (InnerType.as_u16 (inner_type h)) ++ le_bytes 2 (seq_num h).

Definition decode (data : bytes) : outcome t :=
  if len data <? 4 then Err (InvalidPacket "Inner header too short")
  else
  let! v := le_at 2 data 0 in
  let! inner_type := ok_or (InnerType.from_u16 v) (InvalidPacket "Unknown inner type") in
  let! seq_num := le_at 2 data 2 in
  Ok {| inner_type := inner_type; seq_num := seq_num |}.

Lemma decode_encode h rest : u16_ok (seq_num h) -> decode (encode h ++ rest) = Ok h.
Proof.
  intros Hs. unfold decode, encode. rewrite <-app_assoc. guard_false.
  pose proof (InnerType.inner_type_bound (inner_type h)).
  repeat read_step. cbn [obind]. rewrite InnerType.inner_type_from_as. cbn [ok_or obind].
  repeat read_step. cbn [obind]. by destruct h.
Qed.
End InnerHeader.

(** ** Packets *)

Module AivpnPacket.
Record t : Type := {
  resonance_tag : bytes;
  mask_dependent_header : bytes;
  pad_len : Z;
  encrypted_payload : bytes;
  random_padding : bytes;
}.

Section New.
(** [rand::thread_rng().fill_bytes]: the bytes the generator writes into a
    buffer of the given length. *)
Context (fill_bytes : nat -> bytes).

Definition new (resonance_tag mask_dependent_header encrypted_payload : bytes)
    (padding_len : Z) : t := {|
  resonance_tag := resonance_tag;
  mask_dependent_header := mask_dependent_header;
  pad_len := padding_len;
  encrypted_payload := encrypted_payload;
  random_padding := fill_bytes (Z.to_nat padding_len);
|}.
End New.

Definition to_bytes (p : t) : bytes :=
  resonance_tag p ++ mask_dependent_header p ++ le_bytes 2 (pad_len p)
  ++ encrypted_payload p ++ random_padding p.

Definition from_bytes (data : bytes) : outcome t :=
  if len data <? TAG_SIZE + 2 then Err (InvalidPacket "Packet too short")
  else
  let! resonance_tag := slice data 0 TAG_SIZE in
  let! _remaining := slice_from data TAG_SIZE in
  Ok {| resonance_tag := resonance_tag; mask_dependent_header := []; pad_len := 0;
        encrypted_payload := []; random_padding := [] |}.

Definition from_bytes_with_mdh_len (data : bytes) (mdh_len : Z) : outcome t :=
  let! need := uadd TAG_SIZE mdh_len in
  let! need := uadd need 2 in
  if len data <? need then Err (InvalidPacket "Packet too short")
  else
  let! resonance_tag := slice data 0 TAG_SIZE in
  let cursor := TAG_SIZE in
  let! mask_dependent_header := slice data cursor (cursor + mdh_len) in
  let cursor := cursor + mdh_len in
  let! pad_len := le_at 2 data cursor in
  let cursor := cursor + 2 in
  let remaining := sat_sub (len data) cursor in
  if remaining <? pad_len then Err (InvalidPacket "pad_len exceeds packet bounds")
  else
  let payload_len := remaining - pad_len in
  let! encrypted_payload := slice data cursor (cursor + payload_len) in
  let cursor := cursor + payload_len in
  let! random_padding := slice_from data cursor in
  Ok {| resonance_tag := resonance_tag; mask_dependent_header := mask_dependent_header;
        pad_len := pad_len; encrypted_payload := encrypted_payload;
        random_padding := random_padding |}.

(** A packet as [new] builds it: the tag has its size, and the padding has the
    declared length. *)
Definition wf (p : t) : Prop :=
  len (resonance_tag p) = TAG_SIZE /\ u16_ok (pad_len p) /\
  len (random_padding p) = pad_len p /\ len (to_bytes p) <= isize_max.

(** A packet that is serialized and parsed again with the header length of
    the active mask is the same packet, padding included. *)
Theorem packet_roundtrip p :
  wf p ->
  from_bytes_with_mdh_len (to_bytes p) (len (mask_dependent_header p)) = Ok p.
Proof.
  intros (Ht & Hp & Hr & Hl). unfold from_bytes_with_mdh_len, to_bytes in *.
  autorewrite with aivpn_len in Hl. unfold isize_max, TAG_SIZE in *.
  repeat uadd_step. cbn [obind]. repeat uadd_step. cbn [obind]. guard_false.
  unfold sat_sub. repeat read_step. cbn [obind]. repeat read_step. cbn [obind].
  repeat read_step. cbn [obind]. guard_false. repeat read_step. cbn [obind].
  unfold slice_from. repeat read_step. cbn [obind]. by destruct p.
Qed.

(** Parsing a datagram never panics, for any header length a mask can have,
    and the parts of a parsed packet are exactly the bytes of the datagram. *)
Theorem packet_parse_exact data mdh_len :
  bytes_ok data -> len data <= isize_max -> 0 <= mdh_len <= isize_max ->
  safe (from_bytes_with_mdh_len data mdh_len) (fun p =>
    wf p /\ len (mask_dependent_header p) = mdh_len /\ to_bytes p = data).
Proof.
  intros Hok Hl Hm. unfold from_bytes_with_mdh_len, sat_sub.
  repeat safe_step.
  match goal with |- wf ?p /\ _ => assert (to_bytes p = data) as Hd end.
  { unfold to_bytes. cbn -[le_bytes]. apply slice_full.
    repeat (eapply slice_join; [first [eassumption | by eapply slice_le_at]|]).
    eassumption. }
  unfold wf. rewrite Hd. cbn. split_and!; try done; wire_lia.
Qed.
End AivpnPacket.

(** ** Selective acknowledgements *)

Module AckPacket.
Record t : Type := { ack_seq : Z; ack_base : Z; bitmap : bytes }.

Definition encode (a : t) : bytes :=
  le_bytes 2 (InnerType.as_u16 InnerType.Ack) ++ le_bytes 2 (ack_seq a)
  ++ le_bytes 2 (ack_base a) ++ [wrap8 (len (bitmap a))] ++ bitmap a.

Definition decode (data : bytes) : outcome t :=
  if len data <? 7 then Err (InvalidPacket "ACK too short")
  else
  let! ack_seq := le_at 2 data 2 in
  let! ack_base := le_at 2 data 4 in
  let! bitmap_len := idx data 6 in
  if len data <? 7 + bitmap_len then Err (InvalidPacket "ACK invalid length")
  else
  let! bitmap := slice data 7 (7 + bitmap_len) in
  Ok {| ack_seq := ack_seq; ack_base := ack_base; bitmap := bitmap |}.

(** Decoding an encoded acknowledgement returns it, with the bitmap cut to
    its length modulo 256: a bitmap of 256 bytes or more does not survive the
    one-byte length field. *)
Theorem ack_roundtrip a :
  u16_ok (ack_seq a) -> u16_ok (ack_base a) ->
  decode (encode a) = Ok {| ack_seq := ack_seq a; ack_base := ack_base a;
                            bitmap := take (Z.to_nat (wrap8 (len (bitmap a)))) (bitmap a) |}.
Proof.
  intros Hs Hb. unfold decode, encode.
  assert (0 <= wrap8 (len (bitmap a)) <= len (bitmap a)) as Hw.
  { unfold wrap8. split; [apply Z.mod_pos_bound; lia|apply Z.mod_le; lia]. }
  guard_false. cbn [app]. repeat read_step. cbn [obind]. repeat read_step. cbn [obind].
  guard_false. unfold slice. guard_true. cbn [obind]. do 2 f_equal. f_equal. lia.
Qed.
End AckPacket.

(** ** Concrete packets *)

Definition sample_packet : AivpnPacket.t :=
  AivpnPacket.new (fun n => replicate n 7) [1; 2; 3; 4; 5; 6; 7; 8] [22; 3; 3] [9; 8; 7; 6] 2.

Lemma packet_roundtrip_witness :
  AivpnPacket.from_bytes_with_mdh_len
    [1; 2; 3; 4; 5; 6; 7; 8; 22; 3; 3; 2; 0; 9; 8; 7; 6; 7; 7] 3 = Ok sample_packet.
Proof.
  apply (AivpnPacket.packet_roundtrip sample_packet).
  repeat split; vm_compute; congruence.
Defined.

Lemma packet_parse_exact_witness :
  safe (AivpnPacket.from_bytes_with_mdh_len (repeat 5 12 ++ [2; 0] ++ repeat 5 16) 4) (fun p =>
    AivpnPacket.wf p /\ len (AivpnPacket.mask_dependent_header p) = 4 /\
    AivpnPacket.to_bytes p = repeat 5 12 ++ [2; 0] ++ repeat 5 16).
Proof.
  apply (AivpnPacket.packet_parse_exact (repeat 5 12 ++ [2; 0] ++ repeat 5 16) 4);
    [by apply bytes_ok_check; vm_compute|vm_compute; congruence|vm_compute; split; congruence].
Defined.

Lemma ack_roundtrip_witness :
  AckPacket.decode (AckPacket.encode {| AckPacket.ack_seq := 9; AckPacket.ack_base := 3;
                                        AckPacket.bitmap := replicate 258 255 |})
  = Ok {| AckPacket.ack_seq := 9; AckPacket.ack_base := 3; AckPacket.bitmap := [255; 255] |}.
Proof.
  apply (AckPacket.ack_roundtrip {| AckPacket.ack_seq := 9; AckPacket.ack_base := 3;
                                    AckPacket.bitmap := replicate 258 255 |});
    vm_compute; split; congruence.
Defined.
