(* ===== verification/MaskState.v ===== *)
(** * Mask state negotiation

    Models [crates/aivpn-common/src/mask_state.rs]: the parameters of an RTC or
    SRTP mask that the two ends exchange inside the protected channel, their
    validation, and the [MaskState] control message. *)

From S2P Require Import Prelude Utf8 IpAddr Protocol.
Local Open Scope Z_scope.

Definition MAX_CONTROL : Z := 512.
#[export] Hint Unfold MAX_CONTROL : aivpn_consts.

(** [byte.is_ascii_alphanumeric() || matches!(byte, b'+' | b'/')] *)
Definition ice_char (b : Z) : bool :=
  in_range 48 57 b || in_range 65 90 b || in_range 97 122 b || (b =? 43) || (b =? 47).

Definition validate_ice (ufrag password : bytes) (ssrc : Z) (server_addr : SocketAddr)
    : outcome unit :=
  if negb ((4 <=? len ufrag) && (len ufrag <=? 32))
     || negb ((22 <=? len password) && (len password <=? 64))
     || negb (forallb ice_char ufrag)
     || negb (forallb ice_char password)
     || (ssrc =? 0)
     || (socket_port server_addr =? 0)
     || ip_is_unspecified (socket_ip server_addr)
     || ip_is_multicast (socket_ip server_addr)
     || match server_addr with
        | SocketV6 _ _ flowinfo scope_id => negb (scope_id =? 0) || negb (flowinfo =? 0)
        | SocketV4 _ _ => false
        end
  then Err (InvalidPacket "Недопустимые параметры RTC-маски")
  else Ok tt.

Module RtcParameters.
Record t : Type := {
  fingerprint : bytes;
  ice_ufrag : bytes;
  ice_password : bytes;
  ssrc : Z;
  server_addr : SocketAddr;
}.

Definition validate (p : t) : outcome unit :=
  let! _ := validate_ice (ice_ufrag p) (ice_password p) (ssrc p) (server_addr p) in
  if bool_decide (fingerprint p = zeros 32)
  then Err (InvalidPacket "Пустой отпечаток RTC")
  else Ok tt.
End RtcParameters.

Module SrtpParameters.
Record t : Type := {
  master_secret : bytes;
  ice_ufrag : bytes;
  ice_password : bytes;
  ssrc : Z;
  server_addr : SocketAddr;
}.

Definition validate (p : t) : outcome unit :=
  let! _ := validate_ice (ice_ufrag p) (ice_password p) (ssrc p) (server_addr p) in
  if bool_decide (master_secret p = zeros 32)
  then Err (InvalidPacket "Пустой SRTP secret")
  else Ok tt.
End SrtpParameters.

Module MaskParameters.
Inductive t : Type :=
  | Rtc (params : RtcParameters.t)
  | Srtp (params : SrtpParameters.t).

Definition rtc (p : t) : outcome RtcParameters.t :=
  match p with
  | Rtc params => Ok params
  | _ => Err (InvalidPacket "Ожидались параметры DTLS")
  end.

Definition srtp (p : t) : outcome SrtpParameters.t :=
  match p with
  | Srtp params => Ok params
  | _ => Err (InvalidPacket "Ожидались параметры SRTP без DTLS")
  end.

Definition server_addr (p : t) : SocketAddr :=
  match p with
  | Rtc params => RtcParameters.server_addr params
  | Srtp params => SrtpParameters.server_addr params
  end.

Definition validate (p : t) : outcome unit :=
  match p with
  | Rtc params => RtcParameters.validate params
  | Srtp params => SrtpParameters.validate params
  end.
End MaskParameters.

Record MaskState : Type := {
  offer_id : bytes;
  answer : bool;
  mask_id : bytes;
  mask_version : Z;
  parameters : MaskParameters.t;
}.

(** [MaskState::validate] *)
Definition mask_state_validate (s : MaskState) : outcome unit :=
  if (mask_version s =? 0) || (len (mask_id s) =? 0) || (128 <? len (mask_id s))
     || negb (forallb (in_range 0x21 0x7e) (mask_id s))
  then Err (InvalidPacket "Недопустимый профиль RTC-маски")
  else MaskParameters.validate (parameters s).

(** The tuple [encode_control] reads out of the parameters: format, key
    material, ufrag, password, ssrc, server address. *)
Definition wire_parameters (p : MaskParameters.t)
    : Z * bytes * bytes * bytes * Z * SocketAddr :=
  match p with
  | MaskParameters.Rtc q =>
      (1, RtcParameters.fingerprint q, RtcParameters.ice_ufrag q,
       RtcParameters.ice_password q, RtcParameters.ssrc q, RtcParameters.server_addr q)
  | MaskParameters.Srtp q =>
      (2, SrtpParameters.master_secret q, SrtpParameters.ice_ufrag q,
       SrtpParameters.ice_password q, SrtpParameters.ssrc q, SrtpParameters.server_addr q)
  end.

Definition encode_ip (ip : IpAddr) : bytes :=
  match ip with
  | V4 address => 4 :: ipv4_octets address
  | V6 address => 6 :: ipv6_octets address
  end.

Definition encode_control (s : MaskState) : outcome bytes :=
  let! _ := mask_state_validate s in
  let '(format, material, ufrag, password, ssrc, server_addr) := wire_parameters (parameters s) in
  Ok ([ControlSubtype.as_u8 ControlSubtype.MaskState; format; Z.b2z (answer s)]
      ++ le_bytes 2 (mask_version s)
      ++ offer_id s
      ++ [wrap8 (len (mask_id s)); wrap8 (len ufrag); wrap8 (len password)]
      ++ encode_ip (socket_ip server_addr)
      ++ be_bytes 2 (socket_port server_addr)
      ++ material
      ++ be_bytes 4 ssrc
      ++ mask_id s ++ ufrag ++ password).

(** The [parameters] field [decode_control] builds; [format] is [data[1]]. *)
Definition decoded_parameters (format : Z) (fingerprint ufrag password : bytes) (ssrc : Z)
    (server_addr : SocketAddr) : MaskParameters.t :=
  if format =? 1 then
    MaskParameters.Rtc {|
      RtcParameters.fingerprint := fingerprint;
      RtcParameters.ice_ufrag := ufrag;
      RtcParameters.ice_password := password;
      RtcParameters.ssrc := ssrc;
      RtcParameters.server_addr := server_addr |}
  else
    MaskParameters.Srtp {|
      SrtpParameters.master_secret := fingerprint;
      SrtpParameters.ice_ufrag := ufrag;
      SrtpParameters.ice_password := password;
      SrtpParameters.ssrc := ssrc;
      SrtpParameters.server_addr := server_addr |}.

(** [text(start, length)] *)
Definition control_text (data : bytes) (start length : Z) : outcome bytes :=
  let! s := slice data start (start + length) in
  from_utf8 s (InvalidPacket "Некорректный текст параметров RTC").

Definition decode_control (data : bytes) : outcome MaskState :=
  let invalid := InvalidPacket "Некорректное сообщение RTC-маски" in
  if negb ((25 <=? len data) && (len data <=? MAX_CONTROL)) then Err invalid
  else
  let! d0 := idx data 0 in
  let! d1 := idx data 1 in
  let! d2 := idx data 2 in
  if negb (d0 =? ControlSubtype.as_u8 ControlSubtype.MaskState)
     || negb ((d1 =? 1) || (d1 =? 2)) || (1 <? d2)
  then Err invalid
  else
  let! mask_len := idx data 21 in
  let! ufrag_len := idx data 22 in
  let! password_len := idx data 23 in
  let! family := idx data 24 in
  let! address_len := if family =? 4 then Ok 4 else if family =? 6 then Ok 16
                      else Err (InvalidPacket "Неизвестное семейство адреса RTC") in
  let fixed_end := 25 + address_len + 2 + 32 + 4 in
  if negb ((1 <=? mask_len) && (mask_len <=? 128))
     || negb ((4 <=? ufrag_len) && (ufrag_len <=? 32))
     || negb ((22 <=? password_len) && (password_len <=? 64))
     || negb (len data =? fixed_end + mask_len + ufrag_len + password_len)
  then Err (InvalidPacket "Некорректная длина сообщения RTC")
  else
  let! ip := if address_len =? 4 then omap V4 (be_at 4 data 25) else omap V6 (be_at 16 data 25) in
  let cursor := 25 + address_len in
  let! port := be_at 2 data cursor in
  let cursor := cursor + 2 in
  let! fingerprint := slice data cursor (cursor + 32) in
  let cursor := cursor + 32 in
  let! ssrc := be_at 4 data cursor in
  let! offer_id := slice data 5 21 in
  let! mask_version := le_at 2 data 3 in
  let! mask_id := control_text data fixed_end mask_len in
  let! ufrag := control_text data (fixed_end + mask_len) ufrag_len in
  let! password := control_text data (fixed_end + mask_len + ufrag_len) password_len in
  let result := {|
    offer_id := offer_id;
    answer := d2 =? 1;
    mask_id := mask_id;
    mask_version := mask_version;
    parameters := decoded_parameters d1 fingerprint ufrag password ssrc (socket_new ip port) |} in
  let! _ := mask_state_validate result in
  Ok result.

(** ** Well-formed values *)

Definition socket_ok (s : SocketAddr) : Prop :=
  ip_ok (socket_ip s) /\ u16_ok (socket_port s).

Definition array_ok (n : Z) (b : bytes) : Prop := bytes_ok b /\ len b = n.

Definition parameters_wf (p : MaskParameters.t) : Prop :=
  let '(_, material, ufrag, password, ssrc, addr) := wire_parameters p in
  array_ok 32 material /\ string_ok ufrag /\ string_ok password /\ u32_ok ssrc /\ socket_ok addr.

Definition mask_state_wf (s : MaskState) : Prop :=
  array_ok 16 (offer_id s) /\ string_ok (mask_id s) /\ u16_ok (mask_version s) /\
  parameters_wf (parameters s).

(** What [validate] guarantees of the fields the codec transmits. *)
Definition wire_valid (s : MaskState) : Prop :=
  let '(_, _, ufrag, password, _, addr) := wire_parameters (parameters s) in
  1 <= len (mask_id s) <= 128 /\ 4 <= len ufrag <= 32 /\ 22 <= len password <= 64 /\
  addr = socket_new (socket_ip addr) (socket_port addr).

Lemma validate_ice_Ok ufrag password ssrc addr u :
  validate_ice ufrag password ssrc addr = Ok u ->
  4 <= len ufrag <= 32 /\ 22 <= len password <= 64 /\
  addr = socket_new (socket_ip addr) (socket_port addr).
Proof.
  unfold validate_ice. head_if E; [done|]. intros _. rewrite !orb_false_iff in E.
  destruct_and!. split; [wire_lia|]. split; [wire_lia|].
  destruct addr as [|a p f sc]; [done|]. simpl. f_equal; wire_lia.
Qed.

Lemma mask_state_validate_Ok s : mask_state_validate s = Ok tt -> wire_valid s.
Proof.
  unfold mask_state_validate, wire_valid. head_if E; [done|].
  rewrite !orb_false_iff in E. destruct_and!.
  destruct (parameters s) as [q|q]; cbn; intros (u & Hice & _)%obind_Ok;
    apply validate_ice_Ok in Hice as (? & ? & ?); split_and!; try done; wire_lia.
Qed.

Lemma validate_ice_no_panic ufrag password ssrc addr :
  validate_ice ufrag password ssrc addr <> Panic.
Proof. unfold validate_ice. by destruct (_ || _). Qed.

Lemma mask_state_validate_no_panic s : mask_state_validate s <> Panic.
Proof.
  unfold mask_state_validate. destruct (_ || _); [done|].
  destruct (parameters s) as [[fp u p c a]|[fp u p c a]]; cbn;
    unfold RtcParameters.validate, SrtpParameters.validate; cbn;
    pose proof (validate_ice_no_panic u p c a);
    (destruct (validate_ice u p c a); [|done..]); cbn [obind]; by case_match.
Qed.

Lemma safe_mask_state_validate s (Q : unit -> Prop) :
  (mask_state_validate s = Ok tt -> Q tt) -> safe (mask_state_validate s) Q.
Proof.
  pose proof (mask_state_validate_no_panic s).
  destruct (mask_state_validate s) as [[]| |]; simpl; auto.
Qed.

Lemma from_utf8_string s e : string_ok s -> from_utf8 s e = Ok s.
Proof. intros [_ H]. unfold from_utf8. by rewrite H. Qed.

Lemma safe_control_text data start n (Q : bytes -> Prop) :
  bytes_ok data -> 0 <= start -> 0 <= n -> start + n <= len data ->
  (forall s, slice data start (start + n) = Ok s -> len s = n -> string_ok s -> Q s) ->
  safe (control_text data start n) Q.
Proof.
  intros Hok H0 Hn Hl HQ. unfold control_text. repeat safe_step.
  unfold from_utf8. destruct (utf8_valid _) eqn:E; simpl; [|done].
  apply HQ; [done|lia|by split].
Qed.

Lemma control_text_Ok data start n s :
  slice data start (start + n) = Ok s -> string_ok s -> control_text data start n = Ok s.
Proof. intros Hs Hok. unfold control_text. rewrite Hs. by apply from_utf8_string. Qed.

Lemma length_encode_ip ip :
  len (encode_ip ip) = match ip with V4 _ => 5 | V6 _ => 17 end.
Proof. destruct ip; unfold encode_ip, ipv4_octets, ipv6_octets; lenlia. Qed.

Lemma wrap8_small n : 0 <= n < 256 -> wrap8 n = n.
Proof. apply Z.mod_small. Qed.

Lemma b2z_ltb b : (1 <? Z.b2z b) = false.
Proof. by destruct b. Qed.

Lemma b2z_eqb b : (Z.b2z b =? 1) = b.
Proof. by destruct b. Qed.

(** The body that follows the two bytes of subtype and format. *)
Lemma decode_encoded_control s fmt material ufrag password ssrc addr :
  mask_state_wf s -> mask_state_validate s = Ok tt ->
  wire_parameters (parameters s) = (fmt, material, ufrag, password, ssrc, addr) ->
  encode_control s = Ok (
    [42; fmt; Z.b2z (answer s)] ++ le_bytes 2 (mask_version s) ++ offer_id s
    ++ [len (mask_id s); len ufrag; len password] ++ encode_ip (socket_ip addr)
    ++ be_bytes 2 (socket_port addr) ++ material ++ be_bytes 4 ssrc
    ++ mask_id s ++ ufrag ++ password).
Proof.
  intros Hwf Hv Hp. unfold encode_control. rewrite Hv. cbn [obind]. rewrite Hp.
  apply mask_state_validate_Ok in Hv. unfold wire_valid in Hv. rewrite Hp in Hv.
  destruct Hv as (? & ? & ? & ?). by rewrite !wrap8_small by lia.
Qed.

Lemma wire_decoded_parameters fmt material ufrag password ssrc addr :
  fmt = 1 \/ fmt = 2 ->
  wire_parameters (decoded_parameters fmt material ufrag password ssrc addr)
  = (fmt, material, ufrag, password, ssrc, addr).
Proof. by intros [->| ->]. Qed.

Lemma decoded_wire_parameters p fmt material ufrag password ssrc addr :
  wire_parameters p = (fmt, material, ufrag, password, ssrc, addr) ->
  (fmt = 1 \/ fmt = 2) /\ decoded_parameters fmt material ufrag password ssrc addr = p.
Proof.
  destruct p as [[]|[]]; cbn; intros; simplify_eq; auto.
Qed.

Ltac read_text Hd :=
  match goal with |- obind (control_text ?d ?a ?n) _ = _ =>
    erewrite (control_text_Ok d a n); [|rewrite Hd; repeat read_step; reflexivity|assumption];
    cbn [obind]
  end.

Lemma mask_state_decode_encode s data :
  mask_state_wf s -> encode_control s = Ok data -> decode_control data = Ok s.
Proof.
  intros Hwf Henc. pose proof Henc as H. unfold encode_control in H.
  apply obind_Ok in H as ([] & Hv & _).
  destruct (wire_parameters (parameters s))
    as [[[[[fmt material] ufrag] password] ssrc] addr] eqn:Hp.
  erewrite decode_encoded_control in Henc by done.
  match type of Henc with Ok ?d = _ => assert (data = d) as Hd by congruence end.
  clear Henc. pose proof Hv as Hw%mask_state_validate_Ok. unfold wire_valid in Hw.
  rewrite Hp in Hw. destruct Hw as (? & ? & ? & Haddr).
  destruct Hwf as ((Hoff & Hoffl) & Hmid & Hver & Hpar). unfold parameters_wf in Hpar.
  rewrite Hp in Hpar. destruct Hpar as ((Hmat & Hmatl) & Huf & Hpw & Hssrc & Hsock & Hport).
  apply decoded_wire_parameters in Hp as [Hfmt Hp]. rewrite Haddr in Hp.
  assert (len data = 62 + len (encode_ip (socket_ip addr)) + len (mask_id s) + len ufrag
                     + len password) as Hl by (rewrite Hd; lenlia).
  rewrite length_encode_ip in Hl. unfold decode_control, MAX_CONTROL. cbv zeta.
  destruct (socket_ip addr) as [a|a] eqn:Eip; cbn [encode_ip app] in Hd;
    unfold ipv4_octets, ipv6_octets in Hd; simpl in Hsock;
    guard_false; do 3 read_field Hd; rewrite b2z_ltb; cbn [ControlSubtype.as_u8]; guard_false;
    do 4 read_field Hd; cbn [Z.eqb Pos.eqb obind]; guard_false; do 6 read_field Hd;
    do 3 read_text Hd; rewrite b2z_eqb, Hp; destruct s; cbn in *; by rewrite Hv.
Qed.

Lemma b2z_eq1 d : 0 <= d <= 1 -> Z.b2z (d =? 1) = d.
Proof. intros. destruct (Z.eqb_spec d 1) as [->|]; simpl; lia. Qed.

Ltac text_step :=
  match goal with
  | |- safe (control_text _ _ _) _ =>
      apply safe_control_text; [assumption|wire_lia..|intros ? ? ? ?]
  | |- safe (mask_state_validate _) _ => apply safe_mask_state_validate; intros ?
  end.

Ltac join_step :=
  first
    [ eapply slice_join_cons; [eassumption|]
    | eapply slice_join; [first [eassumption | by eapply slice_le_at | by eapply slice_be_at]|] ].

Lemma mask_state_encode_decode data :
  bytes_ok data ->
  safe (decode_control data) (fun s => mask_state_wf s /\ encode_control s = Ok data).
Proof.
  intros Hok. unfold decode_control.
  repeat first [safe_step | text_step]; try (exfalso; lia).
  all: match goal with H : mask_state_validate ?r = _ |- _ => set (s' := r) in * end.
  all: assert (wire_parameters (parameters s') = (b0, s, s2, s3, x1, _)) as Hp
    by (unfold s'; cbn; apply wire_decoded_parameters; tauto).
  all: assert (mask_state_wf s') as Hwf
    by (unfold mask_state_wf, parameters_wf, array_ok, socket_ok; rewrite Hp; cbn;
        split_and!; try done; lia).
  all: split; [done|].
  all: erewrite decode_encoded_control by done.
  all: f_equal; apply slice_full; unfold s'; cbn [answer mask_version offer_id mask_id];
    rewrite b2z_eq1 by (unfold byte_ok in *; lia).
  all: destruct_and!; subst b b2 b3 b4 b5; cbn [socket_new socket_ip socket_port encode_ip app].
  all: match goal with |- slice ?d _ _ = _ =>
         match goal with H : len d = _ |- _ => rewrite H end end.
  all: repeat join_step; eassumption.
Qed.

Lemma encode_control_head s data :
  encode_control s = Ok data ->
  exists rest, data = ControlSubtype.as_u8 ControlSubtype.MaskState :: rest.
Proof.
  unfold encode_control. intros (u & _ & H)%obind_Ok.
  destruct (wire_parameters _) as [[[[[f m] u'] p] c] a]. apply Ok_inj in H. subst data. by eexists.
Qed.

(** The mask-state message is a canonical encoding. The bytes [decode_control]
    accepts are exactly the bytes [encode_control] produces: a decoded message
    re-encodes to the datagram it came from, and an encoded message decodes to
    itself. Both directions include [validate]. *)
Theorem mask_state_canonical s data :
  bytes_ok data ->
  decode_control data = Ok s <-> mask_state_wf s /\ encode_control s = Ok data.
Proof.
  intros Hok. split.
  - intros H. exact (safe_Ok _ _ _ (mask_state_encode_decode data Hok) H).
  - intros [Hwf H]. by apply mask_state_decode_encode.
Qed.

Definition sample_state : MaskState := {|
  offer_id := map Z.of_nat (seq 1 16);
  answer := true;
  mask_id := [119; 101; 98; 114; 116; 99];
  mask_version := 3;
  parameters := MaskParameters.Srtp {|
    SrtpParameters.master_secret := replicate 32 7;
    SrtpParameters.ice_ufrag := [97; 98; 99; 43];
    SrtpParameters.ice_password := replicate 22 65;
    SrtpParameters.ssrc := 305419896;
    SrtpParameters.server_addr := SocketV6 (2 ^ 125 + 1) 443 0 0 |};
|}.

Definition sample_state_bytes : bytes := Eval vm_compute in
  match encode_control sample_state with Ok b => b | _ => [] end.

Lemma mask_state_canonical_witness :
  mask_state_wf sample_state /\ encode_control sample_state = Ok sample_state_bytes.
Proof.
  apply (mask_state_canonical sample_state sample_state_bytes).
  - apply bytes_ok_check. reflexivity.
  - vm_compute. reflexivity.
Defined.
