(* ===== verification/Control.v ===== *)
(** * Control messages

    Models [ControlPayload] of [crates/aivpn-common/src/protocol.rs]: the 42
    control messages the two ends (and the nodes of a server pool) exchange
    inside the encrypted channel. Each arm of [ControlPayload::encode] and of
    [ControlPayload::decode] is one definition; [encode] and [decode] dispatch
    on the message as the source does. The theorems are in [ControlCodec]. *)

From S2P Require Import Prelude Utf8 IpAddr NetworkConfig Protocol MaskState.
Local Open Scope Z_scope.

(** ** Single-precision floats

    An [f32] is carried as its 32 bits, which is what [to_le_bytes] and
    [from_le_bytes] transport. *)

Definition f32_exponent (bits : Z) : Z := (bits / 2 ^ 23) mod 2 ^ 8.
Definition f32_is_finite (bits : Z) : bool := negb (f32_exponent bits =? 255).
Definition f32_is_nan (bits : Z) : bool :=
  (f32_exponent bits =? 255) && negb (bits mod 2 ^ 23 =? 0).

(** Sign and magnitude as one integer; the two zeros coincide. *)
Definition f32_key (bits : Z) : Z := if bits <? 2 ^ 31 then bits else - (bits - 2 ^ 31).

(** [a <= b] *)
Definition f32_le (a b : Z) : bool :=
  negb (f32_is_nan a) && negb (f32_is_nan b) && (f32_key a <=? f32_key b).

Definition f32_zero : Z := 0.
Definition f32_one : Z := 0x3F800000.

(** [score.is_finite() && (0.0..=1.0).contains(&score)] *)
Definition score_ok (score : Z) : bool :=
  f32_is_finite score && (f32_le f32_zero score && f32_le score f32_one).

(** ** The messages *)

Module MaskOutcome.
Record t : Type := { mask_id : bytes; success : Z; fail : Z }.
End MaskOutcome.

Module ControlPayload.
Inductive t : Type :=
  | KeyRotate (new_eph_pub : bytes)
  | MaskUpdate (mask_data signature : bytes)
  | Keepalive (send_ts : Z)
  | TelemetryRequest (metric_flags : Z)
  | TelemetryResponse (packet_loss rtt_ms jitter_ms buffer_pct : Z)
  | TimeSync (server_ts_ms : Z)
  | Shutdown (reason : Z)
  | HandshakeReject (reason : Z)
  | ControlAck (ack_seq ack_for_subtype : Z)
  | ServerHello (server_eph_pub signature : bytes) (network_config : option ClientNetworkConfig)
  | RecordingStart (service : bytes)
  | RecordingAck (session_id status : bytes)
  | RecordingStop (session_id : bytes)
  | RecordingComplete (service mask_id : bytes) (confidence : Z)
  | RecordingFailed (reason : bytes)
  | RecordingStatusRequest
  | RecordingStatus (can_record : bool) (active_service : option bytes)
  | BootstrapDescriptorUpdate (descriptor_data : bytes)
  | PoolSync (clients_json : bytes)
  | PoolStateDigest (digest : bytes)
  | PoolBucketDigests (digests : bytes) (reply_requested : bool)
  | NodeEnrollment (node_id node_pub : bytes) (time_window : Z) (signature : bytes)
  | RouteSync (subnets_json : bytes)
  | ChainForward (payload : bytes)
  | ClientCert (cert_bytes : bytes)
  | CertRejected
  | DeviceEnrollment (static_pub dh_proof : bytes)
  | KeepaliveAck (echo_ts : Z)
  | QualityReport (quality rtt_ms loss_ppm jitter_ms : Z)
  | AdaptiveHint (level : Z)
  | MaskPreference (base_mask_id : bytes)
  | MaskFeedback (entries : list MaskOutcome.t) (country_code : bytes)
  | RegionalMaskHints (country_code : bytes) (masks : list (bytes * Z))
  | FeedbackConfig (report_failure_threshold report_interval_secs : Z)
  | MaskCatalog (masks : list (bytes * bytes * bool))
  | Capabilities (role features : Z)
  | MgmtRequest (req_id method : Z) (path body : bytes)
  | MgmtResponse (req_id status : Z) (body : bytes)
  | PartitionAnnounce (subnet_cidr : bytes)
      (partition_index partition_size num_partitions : Z) (explicit : bool)
  | SiteData (payload : bytes)
  | ClientHello (mask_id : bytes)
  | MaskState (state : MaskState.MaskState).
End ControlPayload.
Import ControlPayload (KeyRotate, MaskUpdate, Keepalive, TelemetryRequest, TelemetryResponse,
  TimeSync, Shutdown, HandshakeReject, ControlAck, ServerHello, RecordingStart, RecordingAck,
  RecordingStop, RecordingComplete, RecordingFailed, RecordingStatusRequest, RecordingStatus,
  BootstrapDescriptorUpdate, PoolSync, PoolStateDigest, PoolBucketDigests, NodeEnrollment,
  RouteSync, ChainForward, ClientCert, CertRejected, DeviceEnrollment, KeepaliveAck,
  QualityReport, AdaptiveHint, MaskPreference, MaskFeedback, RegionalMaskHints, FeedbackConfig,
  MaskCatalog, Capabilities, MgmtRequest, MgmtResponse, PartitionAnnounce, SiteData, ClientHello).

(** ** Encoding *)

(** [&u16::try_from(n).map_err(..)?.to_le_bytes()] *)
Definition u16_field (n : Z) : outcome bytes :=
  let! v := u16_try_from n (InvalidPacket "Поле управления длиннее u16") in Ok (le_bytes 2 v).

(** [&(n as u32).to_le_bytes()] *)
Definition u32_field (n : Z) : bytes := le_bytes 4 (wrap32 n).

(** A subtype byte, a [u16] length and the bytes themselves. *)
Definition encode_short_field (subtype : ControlSubtype.t) (body : bytes) : outcome bytes :=
  let! n := u16_field (len body) in
  Ok ([ControlSubtype.as_u8 subtype] ++ n ++ body).

(** A subtype byte, a [u32] length and the bytes themselves. *)
Definition encode_long_field (subtype : ControlSubtype.t) (body : bytes) : outcome bytes :=
  Ok ([ControlSubtype.as_u8 subtype] ++ u32_field (len body) ++ body).

Definition encode_KeyRotate (new_eph_pub : bytes) : outcome bytes :=
  let! n := u16_field (len new_eph_pub) in
  Ok ([ControlSubtype.as_u8 ControlSubtype.KeyRotate; 0] ++ n ++ new_eph_pub).

Definition encode_MaskUpdate (mask_data signature : bytes) : outcome bytes :=
  let! n := u16_field (len mask_data) in
  Ok ([ControlSubtype.as_u8 ControlSubtype.MaskUpdate] ++ n ++ mask_data ++ signature).

Definition encode_Keepalive (send_ts : Z) : outcome bytes :=
  Ok ([ControlSubtype.as_u8 ControlSubtype.Keepalive] ++ le_bytes 8 send_ts).

Definition encode_TelemetryRequest (metric_flags : Z) : outcome bytes :=
  Ok [ControlSubtype.as_u8 ControlSubtype.TelemetryRequest; metric_flags].

Definition encode_TelemetryResponse (packet_loss rtt_ms jitter_ms buffer_pct : Z)
    : outcome bytes :=
  Ok ([ControlSubtype.as_u8 ControlSubtype.TelemetryResponse; 0] ++ le_bytes 2 packet_loss
      ++ le_bytes 2 rtt_ms ++ le_bytes 2 jitter_ms ++ [buffer_pct] ++ zeros 3).

Definition encode_TimeSync (server_ts_ms : Z) : outcome bytes :=
  Ok ([ControlSubtype.as_u8 ControlSubtype.TimeSync] ++ le_bytes 8 server_ts_ms).

Definition encode_Shutdown (reason : Z) : outcome bytes :=
  Ok [ControlSubtype.as_u8 ControlSubtype.Shutdown; reason].

Definition encode_HandshakeReject (reason : Z) : outcome bytes :=
  Ok [ControlSubtype.as_u8 ControlSubtype.HandshakeReject; reason].

Definition encode_PoolStateDigest (digest : bytes) : outcome bytes :=
  Ok ([ControlSubtype.as_u8 ControlSubtype.PoolStateDigest] ++ digest).

Definition encode_PoolBucketDigests (digests : bytes) (reply_requested : bool) : outcome bytes :=
  Ok ([ControlSubtype.as_u8 ControlSubtype.PoolBucketDigests] ++ u32_field (1 + len digests)
      ++ [Z.b2z reply_requested] ++ digests).

Definition encode_NodeEnrollment (node_id node_pub : bytes) (time_window : Z)
    (signature : bytes) : outcome bytes :=
  Ok ([ControlSubtype.as_u8 ControlSubtype.NodeEnrollment]
      ++ u32_field (4 + len node_id + 32 + 8 + 64) ++ u32_field (len node_id)
      ++ node_id ++ node_pub ++ le_bytes 8 time_window ++ signature).

Definition encode_ControlAck (ack_seq ack_for_subtype : Z) : outcome bytes :=
  Ok ([ControlSubtype.as_u8 ControlSubtype.ControlAck] ++ le_bytes 2 ack_seq
      ++ [ack_for_subtype]).

Definition encode_ServerHello (server_eph_pub signature : bytes)
    (network_config : option ClientNetworkConfig) : outcome bytes :=
  let! tail := match network_config with
               | Some c => let! _ := c_validate c in Ok (encode_wire c)
               | None => Ok []
               end in
  Ok ([ControlSubtype.as_u8 ControlSubtype.ServerHello] ++ server_eph_pub ++ signature ++ tail).

Definition encode_RecordingStart (service : bytes) : outcome bytes :=
  encode_short_field ControlSubtype.RecordingStart service.

Definition encode_RecordingAck (session_id status : bytes) : outcome bytes :=
  let! n := u16_field (len status) in
  Ok ([ControlSubtype.as_u8 ControlSubtype.RecordingAck] ++ session_id ++ n ++ status).

Definition encode_RecordingStop (session_id : bytes) : outcome bytes :=
  Ok ([ControlSubtype.as_u8 ControlSubtype.RecordingStop] ++ session_id).

Definition encode_RecordingComplete (service mask_id : bytes) (confidence : Z) : outcome bytes :=
  let! n := u16_field (len service) in
  let! m := u16_field (len mask_id) in
  Ok ([ControlSubtype.as_u8 ControlSubtype.RecordingComplete] ++ n ++ service ++ m ++ mask_id
      ++ le_bytes 4 confidence).

Definition encode_RecordingFailed (reason : bytes) : outcome bytes :=
  encode_short_field ControlSubtype.RecordingFailed reason.

Definition encode_RecordingStatusRequest : outcome bytes :=
  Ok [ControlSubtype.as_u8 ControlSubtype.RecordingStatusRequest].

Definition encode_RecordingStatus (can_record : bool) (active_service : option bytes)
    : outcome bytes :=
  let flags := 0 in
  let flags := if can_record then Z.lor flags 1 else flags in
  let flags := match active_service with Some _ => Z.lor flags 2 | None => flags end in
  let! tail := match active_service with
               | Some service => let! n := u16_field (len service) in Ok (n ++ service)
               | None => Ok []
               end in
  Ok ([ControlSubtype.as_u8 ControlSubtype.RecordingStatus; flags] ++ tail).

Definition encode_BootstrapDescriptorUpdate (descriptor_data : bytes) : outcome bytes :=
  encode_short_field ControlSubtype.BootstrapDescriptorUpdate descriptor_data.

Definition encode_PoolSync (clients_json : bytes) : outcome bytes :=
  encode_long_field ControlSubtype.PoolSync clients_json.
Definition encode_RouteSync (subnets_json : bytes) : outcome bytes :=
  encode_long_field ControlSubtype.RouteSync subnets_json.
Definition encode_ChainForward (payload : bytes) : outcome bytes :=
  encode_long_field ControlSubtype.ChainForward payload.
Definition encode_ClientCert (cert_bytes : bytes) : outcome bytes :=
  encode_long_field ControlSubtype.ClientCert cert_bytes.

Definition encode_CertRejected : outcome bytes :=
  Ok [ControlSubtype.as_u8 ControlSubtype.CertRejected].

Definition encode_DeviceEnrollment (static_pub dh_proof : bytes) : outcome bytes :=
  Ok ([ControlSubtype.as_u8 ControlSubtype.DeviceEnrollment] ++ static_pub ++ dh_proof).

Definition encode_KeepaliveAck (echo_ts : Z) : outcome bytes :=
  Ok ([ControlSubtype.as_u8 ControlSubtype.KeepaliveAck] ++ le_bytes 8 echo_ts).

Definition encode_QualityReport (quality rtt_ms loss_ppm jitter_ms : Z) : outcome bytes :=
  Ok ([ControlSubtype.as_u8 ControlSubtype.QualityReport; quality] ++ le_bytes 2 rtt_ms
      ++ le_bytes 4 loss_ppm ++ le_bytes 2 jitter_ms).

Definition encode_AdaptiveHint (level : Z) : outcome bytes :=
  Ok [ControlSubtype.as_u8 ControlSubtype.AdaptiveHint; level].

Definition encode_ClientHello (mask_id : bytes) : outcome bytes :=
  if (len mask_id =? 0) || (96 <? len mask_id)
  then Err (InvalidPacket "Некорректная длина профиля ClientHello")
  else Ok ([ControlSubtype.as_u8 ControlSubtype.ClientHello; wrap8 (len mask_id)] ++ mask_id).

Definition encode_MaskPreference (base_mask_id : bytes) : outcome bytes :=
  encode_short_field ControlSubtype.MaskPreference base_mask_id.

(** The loop of the [MaskFeedback] arm. *)
Fixpoint encode_outcomes (entries : list MaskOutcome.t) : outcome bytes :=
  match entries with
  | [] => Ok []
  | entry :: entries =>
      let! n := u16_field (len (MaskOutcome.mask_id entry)) in
      let! rest := encode_outcomes entries in
      Ok (n ++ MaskOutcome.mask_id entry ++ le_bytes 2 (MaskOutcome.success entry)
          ++ le_bytes 2 (MaskOutcome.fail entry) ++ rest)
  end.

Definition encode_MaskFeedback (entries : list MaskOutcome.t) (country_code : bytes)
    : outcome bytes :=
  let count := Z.min (len entries) 64 in
  let! body := encode_outcomes (take (Z.to_nat count) entries) in
  Ok ([ControlSubtype.as_u8 ControlSubtype.MaskFeedback; wrap8 count] ++ body ++ country_code).

(** The loop of the [RegionalMaskHints] arm. *)
Fixpoint encode_hints (masks : list (bytes * Z)) : outcome bytes :=
  match masks with
  | [] => Ok []
  | (mask_id, score) :: masks =>
      let! n := u16_field (len mask_id) in
      let! rest := encode_hints masks in
      Ok (n ++ mask_id ++ le_bytes 4 score ++ rest)
  end.

Definition encode_RegionalMaskHints (country_code : bytes) (masks : list (bytes * Z))
    : outcome bytes :=
  let count := Z.min (len masks) 32 in
  let! body := encode_hints (take (Z.to_nat count) masks) in
  Ok ([ControlSubtype.as_u8 ControlSubtype.RegionalMaskHints] ++ country_code
      ++ [wrap8 count] ++ body).

Definition encode_FeedbackConfig (report_failure_threshold report_interval_secs : Z)
    : outcome bytes :=
  Ok ([ControlSubtype.as_u8 ControlSubtype.FeedbackConfig; report_failure_threshold]
      ++ le_bytes 4 report_interval_secs).

(** The loop of the [MaskCatalog] arm. *)
Fixpoint encode_catalog (masks : list (bytes * bytes * bool)) : outcome bytes :=
  match masks with
  | [] => Ok []
  | (mask_id, label, generated) :: masks =>
      let! n := u16_field (len mask_id) in
      let! m := u16_field (len label) in
      let! rest := encode_catalog masks in
      Ok (n ++ mask_id ++ m ++ label ++ [if generated then 1 else 0] ++ rest)
  end.

Definition encode_MaskCatalog (masks : list (bytes * bytes * bool)) : outcome bytes :=
  let count := Z.min (len masks) 64 in
  let! body := encode_catalog (take (Z.to_nat count) masks) in
  Ok ([ControlSubtype.as_u8 ControlSubtype.MaskCatalog; wrap8 count] ++ body).

Definition encode_Capabilities (role features : Z) : outcome bytes :=
  Ok ([ControlSubtype.as_u8 ControlSubtype.Capabilities; role] ++ le_bytes 4 features).

Definition encode_MgmtRequest (req_id method : Z) (path body : bytes) : outcome bytes :=
  if MAX_MGMT_PATH_SIZE <? len path then Err (InvalidPacket "MgmtRequest path too long")
  else if MAX_MGMT_BODY_SIZE <? len body then Err (InvalidPacket "MgmtRequest body too long")
  else
  let! n := u16_field (len path) in
  Ok ([ControlSubtype.as_u8 ControlSubtype.MgmtRequest] ++ le_bytes 4 req_id ++ [method]
      ++ n ++ path ++ u32_field (len body) ++ body).

Definition encode_MgmtResponse (req_id status : Z) (body : bytes) : outcome bytes :=
  if MAX_MGMT_BODY_SIZE <? len body then Err (InvalidPacket "MgmtResponse body too long")
  else
  Ok ([ControlSubtype.as_u8 ControlSubtype.MgmtResponse] ++ le_bytes 4 req_id
      ++ le_bytes 2 status ++ u32_field (len body) ++ body).

Definition encode_PartitionAnnounce (subnet_cidr : bytes)
    (partition_index partition_size num_partitions : Z) (explicit : bool) : outcome bytes :=
  if u16_max <? len subnet_cidr
  then Err (InvalidPacket "PartitionAnnounce subnet_cidr too long")
  else
  let! n := u16_field (len subnet_cidr) in
  Ok ([ControlSubtype.as_u8 ControlSubtype.PartitionAnnounce] ++ n ++ subnet_cidr
      ++ le_bytes 4 partition_index ++ le_bytes 4 partition_size ++ le_bytes 4 num_partitions
      ++ [Z.b2z explicit]).

Definition encode_SiteData (payload : bytes) : outcome bytes :=
  encode_long_field ControlSubtype.SiteData payload.

(** [ControlPayload::encode] *)
Definition encode (p : ControlPayload.t) : outcome bytes :=
  match p with
  | ControlPayload.MaskState state => encode_control state
  | KeyRotate new_eph_pub => encode_KeyRotate new_eph_pub
  | MaskUpdate mask_data signature => encode_MaskUpdate mask_data signature
  | Keepalive send_ts => encode_Keepalive send_ts
  | TelemetryRequest metric_flags => encode_TelemetryRequest metric_flags
  | TelemetryResponse a b c d => encode_TelemetryResponse a b c d
  | TimeSync server_ts_ms => encode_TimeSync server_ts_ms
  | Shutdown reason => encode_Shutdown reason
  | HandshakeReject reason => encode_HandshakeReject reason
  | PoolStateDigest digest => encode_PoolStateDigest digest
  | PoolBucketDigests digests reply => encode_PoolBucketDigests digests reply
  | NodeEnrollment node_id node_pub w sig => encode_NodeEnrollment node_id node_pub w sig
  | ControlAck ack_seq ack_for_subtype => encode_ControlAck ack_seq ack_for_subtype
  | ServerHello eph sig config => encode_ServerHello eph sig config
  | RecordingStart service => encode_RecordingStart service
  | RecordingAck session_id status => encode_RecordingAck session_id status
  | RecordingStop session_id => encode_RecordingStop session_id
  | RecordingComplete service mask_id c => encode_RecordingComplete service mask_id c
  | RecordingFailed reason => encode_RecordingFailed reason
  | RecordingStatusRequest => encode_RecordingStatusRequest
  | RecordingStatus can_record service => encode_RecordingStatus can_record service
  | BootstrapDescriptorUpdate d => encode_BootstrapDescriptorUpdate d
  | PoolSync clients_json => encode_PoolSync clients_json
  | RouteSync subnets_json => encode_RouteSync subnets_json
  | ChainForward payload => encode_ChainForward payload
  | ClientCert cert_bytes => encode_ClientCert cert_bytes
  | CertRejected => encode_CertRejected
  | DeviceEnrollment static_pub dh_proof => encode_DeviceEnrollment static_pub dh_proof
  | KeepaliveAck echo_ts => encode_KeepaliveAck echo_ts
  | QualityReport a b c d => encode_QualityReport a b c d
  | AdaptiveHint level => encode_AdaptiveHint level
  | ClientHello mask_id => encode_ClientHello mask_id
  | MaskPreference base_mask_id => encode_MaskPreference base_mask_id
  | MaskFeedback entries country_code => encode_MaskFeedback entries country_code
  | RegionalMaskHints country_code masks => encode_RegionalMaskHints country_code masks
  | FeedbackConfig threshold interval => encode_FeedbackConfig threshold interval
  | MaskCatalog masks => encode_MaskCatalog masks
  | Capabilities role features => encode_Capabilities role features
  | MgmtRequest req_id method path body => encode_MgmtRequest req_id method path body
  | MgmtResponse req_id status body => encode_MgmtResponse req_id status body
  | PartitionAnnounce cidr i s n e => encode_PartitionAnnounce cidr i s n e
  | SiteData payload => encode_SiteData payload
  end.

(** ** Decoding *)

(** A [u16]-prefixed field right after the subtype byte. *)
Definition decode_short_field (data : bytes) (too_short invalid : string) : outcome bytes :=
  if len data <? 3 then Err (InvalidPacket too_short)
  else
  let! n := le_at 2 data 1 in
  let! e := uadd 3 n in
  if len data <? e then Err (InvalidPacket invalid)
  else slice data 3 e.

(** A [u32]-prefixed field right after the subtype byte; the length check is
    written to survive a 32-bit [usize]. *)
Definition decode_long_field (data : bytes) (too_short invalid : string) : outcome bytes :=
  if len data <? 5 then Err (InvalidPacket too_short)
  else
  let! n := le_at 4 data 1 in
  if sat_sub (len data) 5 <? n then Err (InvalidPacket invalid)
  else
  let! e := uadd 5 n in
  slice data 5 e.

Definition decode_KeyRotate (data : bytes) : outcome ControlPayload.t :=
  if len data <? 6 then Err (InvalidPacket "KeyRotate too short")
  else
  let! new_eph_pub_len := le_at 2 data 2 in
  if negb (new_eph_pub_len =? 32)
  then Err (InvalidPacket "KeyRotate: invalid eph pub key length")
  else
  let! e := uadd 4 new_eph_pub_len in
  if len data <? e then Err (InvalidPacket "KeyRotate invalid length")
  else
  let! new_eph_pub := slice data 4 (4 + 32) in
  Ok (KeyRotate new_eph_pub).

Definition decode_MaskUpdate (data : bytes) : outcome ControlPayload.t :=
  if len data <? 4 then Err (InvalidPacket "MaskUpdate too short")
  else
  let! mask_len := le_at 2 data 1 in
  let! e := uadd 3 mask_len in
  let! e64 := uadd e 64 in
  if len data <? e64 then Err (InvalidPacket "MaskUpdate invalid length")
  else
  let! mask_data := slice data 3 e in
  let! signature := slice data e e64 in
  Ok (MaskUpdate mask_data signature).

Definition decode_Keepalive (data : bytes) : outcome ControlPayload.t :=
  let! send_ts := if 9 <=? len data then le_at 8 data 1 else Ok 0 in
  Ok (Keepalive send_ts).

Definition decode_TelemetryRequest (data : bytes) : outcome ControlPayload.t :=
  if len data <? 2 then Err (InvalidPacket "TelemetryRequest too short")
  else
  let! metric_flags := idx data 1 in
  Ok (TelemetryRequest metric_flags).

Definition decode_TelemetryResponse (data : bytes) : outcome ControlPayload.t :=
  if len data <? 12 then Err (InvalidPacket "TelemetryResponse too short")
  else
  let! packet_loss := le_at 2 data 2 in
  let! rtt_ms := le_at 2 data 4 in
  let! jitter_ms := le_at 2 data 6 in
  let! buffer_pct := idx data 8 in
  Ok (TelemetryResponse packet_loss rtt_ms jitter_ms buffer_pct).

Definition decode_TimeSync (data : bytes) : outcome ControlPayload.t :=
  if len data <? 9 then Err (InvalidPacket "TimeSync too short")
  else
  let! server_ts_ms := le_at 8 data 1 in
  Ok (TimeSync server_ts_ms).

Definition decode_Shutdown (data : bytes) : outcome ControlPayload.t :=
  if len data <? 2 then Err (InvalidPacket "Shutdown too short")
  else let! reason := idx data 1 in Ok (Shutdown reason).

Definition decode_HandshakeReject (data : bytes) : outcome ControlPayload.t :=
  if len data <? 2 then Err (InvalidPacket "HandshakeReject too short")
  else let! reason := idx data 1 in Ok (HandshakeReject reason).

Definition decode_PoolStateDigest (data : bytes) : outcome ControlPayload.t :=
  if len data <? 1 + 32 then Err (InvalidPacket "PoolStateDigest too short")
  else let! digest := slice data 1 (1 + 32) in Ok (PoolStateDigest digest).

Definition decode_PoolBucketDigests (data : bytes) : outcome ControlPayload.t :=
  if len data <? 6 then Err (InvalidPacket "PoolBucketDigests too short")
  else
  let! payload_len := le_at 4 data 1 in
  if payload_len <? 1 then Err (InvalidPacket "PoolBucketDigests invalid length")
  else if sat_sub (len data) 5 <? payload_len
  then Err (InvalidPacket "PoolBucketDigests invalid length")
  else
  let! d5 := idx data 5 in
  let reply_requested := negb (d5 =? 0) in
  let digests_len := payload_len - 1 in
  let! e := uadd 6 digests_len in
  let! digests := slice data 6 e in
  Ok (PoolBucketDigests digests reply_requested).

Definition decode_NodeEnrollment (data : bytes) : outcome ControlPayload.t :=
  if len data <? 9 then Err (InvalidPacket "NodeEnrollment too short")
  else
  let! total_len := le_at 4 data 1 in
  if sat_sub (len data) 5 <? total_len
  then Err (InvalidPacket "NodeEnrollment invalid length")
  else if total_len <? 4 + 32 + 8 + 64
  then Err (InvalidPacket "NodeEnrollment invalid length")
  else
  let! node_id_len := le_at 4 data 5 in
  if negb (node_id_len =? total_len - (4 + 32 + 8 + 64))
  then Err (InvalidPacket "NodeEnrollment length mismatch")
  else
  let offset := 9 in
  let! e := uadd offset node_id_len in
  if len data <? e then Err (InvalidPacket "NodeEnrollment node_id truncated")
  else
  let! node_id := omap from_utf8_lossy (slice data offset e) in
  let offset := e in
  let! e := uadd offset (32 + 8 + 64) in
  if len data <? e then Err (InvalidPacket "NodeEnrollment truncated")
  else
  let! node_pub := slice data offset (offset + 32) in
  let offset := offset + 32 in
  let! time_window := le_at 8 data offset in
  let offset := offset + 8 in
  let! signature := slice data offset (offset + 64) in
  Ok (NodeEnrollment node_id node_pub time_window signature).

Definition decode_ControlAck (data : bytes) : outcome ControlPayload.t :=
  if len data <? 4 then Err (InvalidPacket "ControlAck too short")
  else
  let! ack_seq := le_at 2 data 1 in
  let! ack_for_subtype := idx data 3 in
  Ok (ControlAck ack_seq ack_for_subtype).

Definition decode_ServerHello (data : bytes) : outcome ControlPayload.t :=
  if len data <? 1 + 32 + 64 then Err (InvalidPacket "ServerHello too short")
  else
  let! server_eph_pub := slice data 1 33 in
  let! signature := slice data 33 97 in
  let! network_config :=
    if 97 + 12 <=? len data then
      let stop := Z.min (97 + WIRE_SIZE) (len data) in
      let! wire := slice data 97 stop in
      omap Some (decode_wire wire)
    else Ok None in
  Ok (ServerHello server_eph_pub signature network_config).

Definition decode_RecordingStart (data : bytes) : outcome ControlPayload.t :=
  let! service := omap from_utf8_lossy
    (decode_short_field data "RecordingStart too short" "RecordingStart invalid length") in
  Ok (RecordingStart service).

Definition decode_RecordingAck (data : bytes) : outcome ControlPayload.t :=
  if len data <? 1 + 16 + 2 then Err (InvalidPacket "RecordingAck too short")
  else
  let! session_id := slice data 1 17 in
  let! status_len := le_at 2 data 17 in
  let! e := uadd 19 status_len in
  if len data <? e then Err (InvalidPacket "RecordingAck invalid length")
  else
  let! status := omap from_utf8_lossy (slice data 19 e) in
  Ok (RecordingAck session_id status).

Definition decode_RecordingStop (data : bytes) : outcome ControlPayload.t :=
  if len data <? 17 then Err (InvalidPacket "RecordingStop too short")
  else let! session_id := slice data 1 17 in Ok (RecordingStop session_id).

Definition decode_RecordingComplete (data : bytes) : outcome ControlPayload.t :=
  if len data <? 3 then Err (InvalidPacket "RecordingComplete too short")
  else
  let cursor := 1 in
  let! svc_len := le_at 2 data cursor in
  let cursor := cursor + 2 in
  let! e := uadd cursor svc_len in
  let! need := uadd e (2 + 4) in
  if len data <? need then Err (InvalidPacket "RecordingComplete invalid length")
  else
  let! service := omap from_utf8_lossy (slice data cursor e) in
  let cursor := e in
  let! mid_len := le_at 2 data cursor in
  let cursor := cursor + 2 in
  let! e := uadd cursor mid_len in
  let! need := uadd e 4 in
  if len data <? need then Err (InvalidPacket "RecordingComplete invalid mask_id")
  else
  let! mask_id := omap from_utf8_lossy (slice data cursor e) in
  let cursor := e in
  let! confidence := le_at 4 data cursor in
  Ok (RecordingComplete service mask_id confidence).

Definition decode_RecordingFailed (data : bytes) : outcome ControlPayload.t :=
  let! reason := omap from_utf8_lossy
    (decode_short_field data "RecordingFailed too short" "RecordingFailed invalid length") in
  Ok (RecordingFailed reason).

Definition decode_RecordingStatus (data : bytes) : outcome ControlPayload.t :=
  if len data <? 2 then Err (InvalidPacket "RecordingStatus too short")
  else
  let! flags := idx data 1 in
  let can_record := negb (Z.land flags 1 =? 0) in
  let has_service := negb (Z.land flags 2 =? 0) in
  let! active_service :=
    if has_service then
      if len data <? 4 then Err (InvalidPacket "RecordingStatus missing service length")
      else
      let! service_len := le_at 2 data 2 in
      let! e := uadd 4 service_len in
      if len data <? e then Err (InvalidPacket "RecordingStatus invalid service length")
      else omap (fun s => Some (from_utf8_lossy s)) (slice data 4 e)
    else Ok None in
  Ok (RecordingStatus can_record active_service).

Definition decode_BootstrapDescriptorUpdate (data : bytes) : outcome ControlPayload.t :=
  let! descriptor_data := decode_short_field data "BootstrapDescriptorUpdate too short"
    "BootstrapDescriptorUpdate invalid length" in
  Ok (BootstrapDescriptorUpdate descriptor_data).

Definition decode_PoolSync (data : bytes) : outcome ControlPayload.t :=
  let! clients_json :=
    decode_long_field data "PoolSync too short" "PoolSync invalid length" in
  Ok (PoolSync clients_json).

Definition decode_RouteSync (data : bytes) : outcome ControlPayload.t :=
  let! subnets_json :=
    decode_long_field data "RouteSync too short" "RouteSync invalid length" in
  Ok (RouteSync subnets_json).

Definition decode_ChainForward (data : bytes) : outcome ControlPayload.t :=
  let! payload :=
    decode_long_field data "ChainForward too short" "ChainForward invalid length" in
  Ok (ChainForward payload).

Definition decode_SiteData (data : bytes) : outcome ControlPayload.t :=
  let! payload := decode_long_field data "SiteData too short" "SiteData invalid length" in
  Ok (SiteData payload).

Definition decode_ClientCert (data : bytes) : outcome ControlPayload.t :=
  let! cert_bytes :=
    decode_long_field data "ClientCert too short" "ClientCert invalid length" in
  Ok (ClientCert cert_bytes).

Definition decode_DeviceEnrollment (data : bytes) : outcome ControlPayload.t :=
  if len data <? 65 then Err (InvalidPacket "DeviceEnrollment too short")
  else
  let! static_pub := slice data 1 33 in
  let! dh_proof := slice data 33 65 in
  Ok (DeviceEnrollment static_pub dh_proof).

Definition decode_KeepaliveAck (data : bytes) : outcome ControlPayload.t :=
  if len data <? 9 then Err (InvalidPacket "KeepaliveAck too short")
  else let! echo_ts := le_at 8 data 1 in Ok (KeepaliveAck echo_ts).

Definition decode_QualityReport (data : bytes) : outcome ControlPayload.t :=
  if len data <? 10 then Err (InvalidPacket "QualityReport too short")
  else
  let! quality := idx data 1 in
  let! rtt_ms := le_at 2 data 2 in
  let! loss_ppm := le_at 4 data 4 in
  let! jitter_ms := le_at 2 data 8 in
  Ok (QualityReport quality rtt_ms loss_ppm jitter_ms).

Definition decode_AdaptiveHint (data : bytes) : outcome ControlPayload.t :=
  if len data <? 2 then Err (InvalidPacket "AdaptiveHint too short")
  else let! level := idx data 1 in Ok (AdaptiveHint level).

Definition decode_ClientHello (data : bytes) : outcome ControlPayload.t :=
  if len data <? 2 then Err (InvalidPacket "Некорректный ClientHello")
  else
  let! n := idx data 1 in
  if (n =? 0) || (96 <? n) || negb (len data =? 2 + n)
  then Err (InvalidPacket "Некорректный ClientHello")
  else
  let! tail := slice_from data 2 in
  let! mask_id := from_utf8 tail (InvalidPacket "Некорректный ID профиля ClientHello") in
  Ok (ClientHello mask_id).

Definition decode_MaskPreference (data : bytes) : outcome ControlPayload.t :=
  let! base_mask_id := omap from_utf8_lossy
    (decode_short_field data "MaskPreference too short" "MaskPreference invalid length") in
  Ok (MaskPreference base_mask_id).

(** One [u16]-prefixed identifier at [offset], followed by at least [tail]
    bytes: the start of each loop body below. Returns the text and the offset
    after it. *)
Definition decode_entry_id (data : bytes) (offset tail : Z) (truncated : string)
    : outcome (bytes * Z) :=
  let! need := uadd offset 2 in
  if len data <? need then Err (InvalidPacket truncated)
  else
  let! id_len := le_at 2 data offset in
  let offset := need in
  let! e := uadd offset id_len in
  let! need := uadd e tail in
  if len data <? need then Err (InvalidPacket truncated)
  else
  let! mask_id := omap from_utf8_lossy (slice data offset e) in
  Ok (mask_id, e).

(** The loop of the [MaskFeedback] arm, over the entries still to come. *)
Fixpoint decode_outcomes (data : bytes) (count : nat) (offset : Z)
    : outcome (list MaskOutcome.t * Z) :=
  match count with
  | O => Ok ([], offset)
  | S count =>
      let! (mask_id, offset) := decode_entry_id data offset 4 "MaskFeedback entry truncated" in
      let! success := le_at 2 data offset in
      let offset := offset + 2 in
      let! fail := le_at 2 data offset in
      let offset := offset + 2 in
      let! (entries, offset) := decode_outcomes data count offset in
      Ok ({| MaskOutcome.mask_id := mask_id; MaskOutcome.success := success;
             MaskOutcome.fail := fail |} :: entries, offset)
  end.

Definition decode_MaskFeedback (data : bytes) : outcome ControlPayload.t :=
  if len data <? 2 then Err (InvalidPacket "MaskFeedback too short")
  else
  let! entry_count := idx data 1 in
  if 64 <? entry_count then Err (InvalidPacket "MaskFeedback entry_count exceeds cap")
  else
  let! (entries, offset) := decode_outcomes data (Z.to_nat entry_count) 2 in
  let! need := uadd offset 2 in
  if len data <? need then Err (InvalidPacket "MaskFeedback missing country code")
  else
  let! country_code := slice data offset (offset + 2) in
  Ok (MaskFeedback entries country_code).

(** The loop of the [RegionalMaskHints] arm. *)
Fixpoint decode_hints (data : bytes) (count : nat) (offset : Z) : outcome (list (bytes * Z)) :=
  match count with
  | O => Ok []
  | S count =>
      let! (mask_id, offset) :=
        decode_entry_id data offset 4 "RegionalMaskHints entry truncated" in
      let! score := le_at 4 data offset in
      let offset := offset + 4 in
      if negb (score_ok score)
      then Err (InvalidPacket "RegionalMaskHints score out of range")
      else
      let! masks := decode_hints data count offset in
      Ok ((mask_id, score) :: masks)
  end.

Definition decode_RegionalMaskHints (data : bytes) : outcome ControlPayload.t :=
  if len data <? 4 then Err (InvalidPacket "RegionalMaskHints too short")
  else
  let! country_code := slice data 1 3 in
  let! count := idx data 3 in
  if 32 <? count then Err (InvalidPacket "RegionalMaskHints count exceeds cap")
  else
  let! masks := decode_hints data (Z.to_nat count) 4 in
  Ok (RegionalMaskHints country_code masks).

Definition decode_FeedbackConfig (data : bytes) : outcome ControlPayload.t :=
  if len data <? 6 then Err (InvalidPacket "FeedbackConfig too short")
  else
  let! report_failure_threshold := idx data 1 in
  let! report_interval_secs := le_at 4 data 2 in
  Ok (FeedbackConfig report_failure_threshold report_interval_secs).

(** The loop of the [MaskCatalog] arm. *)
Fixpoint decode_catalog (data : bytes) (count : nat) (offset : Z)
    : outcome (list (bytes * bytes * bool)) :=
  match count with
  | O => Ok []
  | S count =>
      let! (mask_id, offset) := decode_entry_id data offset 2 "MaskCatalog entry truncated" in
      let! label_len := le_at 2 data offset in
      let offset := offset + 2 in
      let! e := uadd offset label_len in
      let! need := uadd e 1 in
      if len data <? need then Err (InvalidPacket "MaskCatalog entry truncated")
      else
      let! label := omap from_utf8_lossy (slice data offset e) in
      let offset := e in
      let! g := idx data offset in
      let generated := negb (g =? 0) in
      let offset := offset + 1 in
      let! masks := decode_catalog data count offset in
      Ok ((mask_id, label, generated) :: masks)
  end.

Definition decode_MaskCatalog (data : bytes) : outcome ControlPayload.t :=
  if len data <? 2 then Err (InvalidPacket "MaskCatalog too short")
  else
  let! count := idx data 1 in
  if 64 <? count then Err (InvalidPacket "MaskCatalog count exceeds cap")
  else
  let! masks := decode_catalog data (Z.to_nat count) 2 in
  Ok (MaskCatalog masks).

Definition decode_Capabilities (data : bytes) : outcome ControlPayload.t :=
  if len data <? 6 then Err (InvalidPacket "Capabilities too short")
  else
  let! role := idx data 1 in
  let! features := le_at 4 data 2 in
  Ok (Capabilities role features).

Definition decode_MgmtRequest (data : bytes) : outcome ControlPayload.t :=
  if len data <? 8 then Err (InvalidPacket "MgmtRequest too short")
  else
  let! req_id := le_at 4 data 1 in
  let! method := idx data 5 in
  let! path_len := le_at 2 data 6 in
  if MAX_MGMT_PATH_SIZE <? path_len then Err (InvalidPacket "MgmtRequest path too long")
  else if sat_sub (len data) 8 <? path_len
  then Err (InvalidPacket "MgmtRequest path truncated")
  else
  let path_start := 8 in
  let! path_end := uadd path_start path_len in
  let! path := omap from_utf8_lossy (slice data path_start path_end) in
  if sat_sub (len data) path_end <? 4
  then Err (InvalidPacket "MgmtRequest missing body length")
  else
  let! body_len := le_at 4 data path_end in
  let! body_start := uadd path_end 4 in
  if MAX_MGMT_BODY_SIZE <? body_len then Err (InvalidPacket "MgmtRequest body too long")
  else if sat_sub (len data) body_start <? body_len
  then Err (InvalidPacket "MgmtRequest body truncated")
  else
  let! e := uadd body_start body_len in
  let! body := slice data body_start e in
  Ok (MgmtRequest req_id method path body).

Definition decode_MgmtResponse (data : bytes) : outcome ControlPayload.t :=
  if len data <? 11 then Err (InvalidPacket "MgmtResponse too short")
  else
  let! req_id := le_at 4 data 1 in
  let! status := le_at 2 data 5 in
  let! body_len := le_at 4 data 7 in
  if MAX_MGMT_BODY_SIZE <? body_len then Err (InvalidPacket "MgmtResponse body too long")
  else if sat_sub (len data) 11 <? body_len
  then Err (InvalidPacket "MgmtResponse body truncated")
  else
  let! e := uadd 11 body_len in
  let! body := slice data 11 e in
  Ok (MgmtResponse req_id status body).

Definition decode_PartitionAnnounce (data : bytes) : outcome ControlPayload.t :=
  if len data <? 3 then Err (InvalidPacket "PartitionAnnounce too short")
  else
  let! cidr_len := le_at 2 data 1 in
  let cidr_start := 3 in
  if sat_sub (len data) cidr_start <? cidr_len
  then Err (InvalidPacket "PartitionAnnounce subnet_cidr truncated")
  else
  let! cidr_end := uadd cidr_start cidr_len in
  let! subnet_cidr := omap from_utf8_lossy (slice data cidr_start cidr_end) in
  if sat_sub (len data) cidr_end <? 13
  then Err (InvalidPacket "PartitionAnnounce truncated")
  else
  let! partition_index := le_at 4 data cidr_end in
  let! partition_size := le_at 4 data (cidr_end + 4) in
  let! num_partitions := le_at 4 data (cidr_end + 8) in
  let! x := idx data (cidr_end + 12) in
  let explicit := negb (x =? 0) in
  Ok (PartitionAnnounce subnet_cidr partition_index partition_size num_partitions explicit).

(** [ControlPayload::decode] *)
Definition decode (data : bytes) : outcome ControlPayload.t :=
  if len data =? 0 then Err (InvalidPacket "Empty control payload")
  else
  let! d0 := idx data 0 in
  let! subtype := ok_or (ControlSubtype.from_u8 d0) (InvalidPacket "Unknown control subtype") in
  match subtype with
  | ControlSubtype.MaskState => omap ControlPayload.MaskState (decode_control data)
  | ControlSubtype.KeyRotate => decode_KeyRotate data
  | ControlSubtype.MaskUpdate => decode_MaskUpdate data
  | ControlSubtype.Keepalive => decode_Keepalive data
  | ControlSubtype.TelemetryRequest => decode_TelemetryRequest data
  | ControlSubtype.TelemetryResponse => decode_TelemetryResponse data
  | ControlSubtype.TimeSync => decode_TimeSync data
  | ControlSubtype.Shutdown => decode_Shutdown data
  | ControlSubtype.HandshakeReject => decode_HandshakeReject data
  | ControlSubtype.PoolStateDigest => decode_PoolStateDigest data
  | ControlSubtype.PoolBucketDigests => decode_PoolBucketDigests data
  | ControlSubtype.NodeEnrollment => decode_NodeEnrollment data
  | ControlSubtype.ControlAck => decode_ControlAck data
  | ControlSubtype.ServerHello => decode_ServerHello data
  | ControlSubtype.RecordingStart => decode_RecordingStart data
  | ControlSubtype.RecordingAck => decode_RecordingAck data
  | ControlSubtype.RecordingStop => decode_RecordingStop data
  | ControlSubtype.RecordingComplete => decode_RecordingComplete data
  | ControlSubtype.RecordingFailed => decode_RecordingFailed data
  | ControlSubtype.RecordingStatusRequest => Ok RecordingStatusRequest
  | ControlSubtype.RecordingStatus => decode_RecordingStatus data
  | ControlSubtype.BootstrapDescriptorUpdate => decode_BootstrapDescriptorUpdate data
  | ControlSubtype.PoolSync => decode_PoolSync data
  | ControlSubtype.RouteSync => decode_RouteSync data
  | ControlSubtype.ChainForward => decode_ChainForward data
  | ControlSubtype.SiteData => decode_SiteData data
  | ControlSubtype.ClientCert => decode_ClientCert data
  | ControlSubtype.CertRejected => Ok CertRejected
  | ControlSubtype.DeviceEnrollment => decode_DeviceEnrollment data
  | ControlSubtype.KeepaliveAck => decode_KeepaliveAck data
  | ControlSubtype.QualityReport => decode_QualityReport data
  | ControlSubtype.AdaptiveHint => decode_AdaptiveHint data
  | ControlSubtype.ClientHello => decode_ClientHello data
  | ControlSubtype.MaskPreference => decode_MaskPreference data
  | ControlSubtype.MaskFeedback => decode_MaskFeedback data
  | ControlSubtype.RegionalMaskHints => decode_RegionalMaskHints data
  | ControlSubtype.FeedbackConfig => decode_FeedbackConfig data
  | ControlSubtype.MaskCatalog => decode_MaskCatalog data
  | ControlSubtype.Capabilities => decode_Capabilities data
  | ControlSubtype.MgmtRequest => decode_MgmtRequest data
  | ControlSubtype.MgmtResponse => decode_MgmtResponse data
  | ControlSubtype.PartitionAnnounce => decode_PartitionAnnounce data
  end.
