(* ===== verification/ControlCodec.v ===== *)
(** * The control codec: theorems

    Round trip, panic-freedom and the exact domain of [ControlPayload::encode]
    and [ControlPayload::decode] (definitions in [Control]). *)

From S2P Require Import Prelude Utf8 IpAddr NetworkConfig Protocol MaskState Control.
Import ControlPayload (KeyRotate, MaskUpdate, Keepalive, TelemetryRequest, TelemetryResponse,
  TimeSync, Shutdown, HandshakeReject, ControlAck, ServerHello, RecordingStart, RecordingAck,
  RecordingStop, RecordingComplete, RecordingFailed, RecordingStatusRequest, RecordingStatus,
  BootstrapDescriptorUpdate, PoolSync, PoolStateDigest, PoolBucketDigests, NodeEnrollment,
  RouteSync, ChainForward, ClientCert, CertRejected, DeviceEnrollment, KeepaliveAck,
  QualityReport, AdaptiveHint, MaskPreference, MaskFeedback, RegionalMaskHints, FeedbackConfig,
  MaskCatalog, Capabilities, MgmtRequest, MgmtResponse, PartitionAnnounce, SiteData, ClientHello).
Local Open Scope Z_scope.

(** ** Values *)

Definition outcome_wf (o : MaskOutcome.t) : Prop :=
  string_ok (MaskOutcome.mask_id o) /\ u16_ok (MaskOutcome.success o) /\
  u16_ok (MaskOutcome.fail o).
Definition hint_wf (h : bytes * Z) : Prop :=
  string_ok (fst h) /\ u32_ok (snd h) /\ score_ok (snd h) = true.
Definition catalog_wf (e : bytes * bytes * bool) : Prop :=
  string_ok (fst (fst e)) /\ string_ok (snd (fst e)).

(** The values a Rust [ControlPayload] can hold: integers in range, arrays of
    their length, [String]s valid UTF-8. Region hints carry success rates in
    [0, 1]; a network configuration is one whose wire form is faithful. *)
Definition payload_wf (p : ControlPayload.t) : Prop :=
  match p with
  | KeyRotate k => array_ok 32 k
  | MaskUpdate m s => bytes_ok m /\ array_ok 64 s
  | Keepalive ts | TimeSync ts | KeepaliveAck ts => u64_ok ts
  | TelemetryRequest x | Shutdown x | HandshakeReject x | AdaptiveHint x => u8_ok x
  | TelemetryResponse l r j b => u16_ok l /\ u16_ok r /\ u16_ok j /\ u8_ok b
  | ControlAck s x => u16_ok s /\ u8_ok x
  | ServerHello e s c => array_ok 32 e /\ array_ok 64 s /\ forall c', c = Some c' -> client_network_wf c'
  | RecordingStart s | RecordingFailed s | MaskPreference s | ClientHello s => string_ok s
  | RecordingAck i s => array_ok 16 i /\ string_ok s
  | RecordingStop i => array_ok 16 i
  | RecordingComplete s m c => string_ok s /\ string_ok m /\ u32_ok c
  | RecordingStatusRequest | CertRejected => True
  | RecordingStatus _ s => forall s', s = Some s' -> string_ok s'
  | BootstrapDescriptorUpdate b | PoolSync b | RouteSync b | ChainForward b | ClientCert b
  | SiteData b => bytes_ok b
  | PoolStateDigest d => array_ok 32 d
  | PoolBucketDigests d _ => bytes_ok d
  | NodeEnrollment i p w s => string_ok i /\ array_ok 32 p /\ u64_ok w /\ array_ok 64 s
  | DeviceEnrollment p d => array_ok 32 p /\ array_ok 32 d
  | QualityReport q r l j => u8_ok q /\ u16_ok r /\ u32_ok l /\ u16_ok j
  | MaskFeedback es c => Forall outcome_wf es /\ array_ok 2 c
  | RegionalMaskHints c ms => array_ok 2 c /\ Forall hint_wf ms
  | FeedbackConfig t i => u8_ok t /\ u32_ok i
  | MaskCatalog ms => Forall catalog_wf ms
  | Capabilities r f => u8_ok r /\ u32_ok f
  | MgmtRequest i m p b => u32_ok i /\ u8_ok m /\ string_ok p /\ bytes_ok b
  | MgmtResponse i s b => u32_ok i /\ u16_ok s /\ bytes_ok b
  | PartitionAnnounce c i s n _ => string_ok c /\ u32_ok i /\ u32_ok s /\ u32_ok n
  | ControlPayload.MaskState s => mask_state_wf s
  end.

(** What is transmitted: lists are cut to the cap of their message. *)
Definition canonical (p : ControlPayload.t) : ControlPayload.t :=
  match p with
  | MaskFeedback es c => MaskFeedback (take 64 es) c
  | RegionalMaskHints c ms => RegionalMaskHints c (take 32 ms)
  | MaskCatalog ms => MaskCatalog (take 64 ms)
  | _ => p
  end.

(** ** Fields *)

Lemma u16_field_Ok n b : u16_field n = Ok b -> n <= 65535 /\ b = le_bytes 2 n.
Proof.
  unfold u16_field, u16_try_from. destruct (_ <=? _) eqn:E; cbn [obind]; [|done].
  intros [= <-]. split; [wire_lia|done].
Qed.

Lemma u32_field_small n : 0 <= n < 4294967296 -> u32_field n = le_bytes 4 n.
Proof. intros. unfold u32_field, wrap32. by rewrite Z.mod_small. Qed.

Lemma length_u32_field n : length (u32_field n) = 4%nat.
Proof. apply length_le_bytes. Qed.
#[export] Hint Rewrite length_u32_field : aivpn_len.

Lemma b2z_neq0 b : negb (Z.b2z b =? 0) = b.
Proof. by destruct b. Qed.

(** ** Automation

    [open_message H] turns [H : encode_X .. = Ok data] into the equation
    [Hd : data = field ++ ...] and the length [Hl]; [dec_step Hd] evaluates the
    next guard, addition or read of a decoder on [data]. *)

Ltac open_message H :=
  repeat match type of H with
  | obind (u16_field _) _ = _ =>
      let x := fresh "f" in let E := fresh in
      apply obind_Ok in H as (x & E & H); apply u16_field_Ok in E as [? ->]
  end;
  match type of H with Ok ?d = Ok ?data =>
    let Hd := fresh "Hd" in assert (data = d) as Hd by congruence; clear H; cbn [app] in Hd;
    let Hl := fresh "Hl" in
    assert (len data = len d) as Hl by (by rewrite Hd); cbn [app] in Hl;
    autorewrite with aivpn_len in Hl; unfold isize_max in *;
    rewrite ?u32_field_small in Hd by lia
  end.

Ltac dec_step Hd :=
  match goal with
  | |- (if _ then _ else _) = _ => dec_guard
  | |- obind (uadd _ _) _ = _ => uadd_step; cbn [obind]
  | |- obind (Ok _) _ = _ => cbn [obind]
  | |- obind _ _ = _ => read_field Hd; rewrite ?string_ok_lossy by assumption
  end.

Create HintDb control_encode discriminated.
#[export] Hint Unfold encode_short_field encode_long_field
  encode_KeyRotate encode_MaskUpdate encode_Keepalive encode_TelemetryRequest
  encode_TelemetryResponse encode_TimeSync encode_Shutdown encode_HandshakeReject
  encode_PoolStateDigest encode_PoolBucketDigests encode_NodeEnrollment encode_ControlAck
  encode_ServerHello encode_RecordingStart encode_RecordingAck encode_RecordingStop
  encode_RecordingComplete encode_RecordingFailed encode_RecordingStatusRequest
  encode_RecordingStatus encode_BootstrapDescriptorUpdate encode_PoolSync encode_RouteSync
  encode_ChainForward encode_ClientCert encode_CertRejected encode_DeviceEnrollment
  encode_KeepaliveAck encode_QualityReport encode_AdaptiveHint encode_ClientHello
  encode_MaskPreference encode_MaskFeedback encode_RegionalMaskHints encode_FeedbackConfig
  encode_MaskCatalog encode_Capabilities encode_MgmtRequest encode_MgmtResponse
  encode_PartitionAnnounce encode_SiteData : control_encode.

Create HintDb control_decode discriminated.
#[export] Hint Unfold
  decode_KeyRotate decode_MaskUpdate decode_Keepalive decode_TelemetryRequest
  decode_TelemetryResponse decode_TimeSync decode_Shutdown decode_HandshakeReject
  decode_PoolStateDigest decode_PoolBucketDigests decode_NodeEnrollment decode_ControlAck
  decode_ServerHello decode_RecordingStart decode_RecordingAck decode_RecordingStop
  decode_RecordingComplete decode_RecordingFailed decode_RecordingStatus
  decode_BootstrapDescriptorUpdate decode_PoolSync decode_RouteSync decode_ChainForward
  decode_SiteData decode_ClientCert decode_DeviceEnrollment decode_KeepaliveAck
  decode_QualityReport decode_AdaptiveHint decode_ClientHello decode_MaskPreference
  decode_MaskFeedback decode_RegionalMaskHints decode_FeedbackConfig decode_MaskCatalog
  decode_Capabilities decode_MgmtRequest decode_MgmtResponse decode_PartitionAnnounce : control_decode.

(** Start a round trip: open the message and dispatch on its first byte. *)
Ltac start_roundtrip H :=
  autounfold with control_encode in H;
  repeat match type of H with
  | (if ?b then Err _ else _) = _ =>
      let E := fresh "Hb" in destruct b eqn:E; [done|]; norm_bool E
  end;
  unfold array_ok in *; destruct_and?;
  open_message H; unfold decode; dec_guard;
  match goal with Hd : _ = _ :: _ |- _ => read_field Hd end;
  cbn [ControlSubtype.as_u8 ControlSubtype.from_u8 ok_or obind].

Ltac finish_roundtrip :=
  match goal with Hd : _ = _ :: _ |- _ => repeat dec_step Hd; rewrite ?b2z_neq0; done end.

Lemma decode_short_field_Ok data c body e1 e2 :
  data = c :: le_bytes 2 (len body) ++ body -> len body <= 65535 ->
  decode_short_field data e1 e2 = Ok body.
Proof.
  intros Hd Hb. unfold decode_short_field.
  assert (len data = 3 + len body) as Hl by (rewrite Hd; lenlia).
  do 4 dec_step Hd. rewrite Hd. by repeat read_step.
Qed.

Lemma decode_long_field_Ok data c body e1 e2 :
  data = c :: le_bytes 4 (len body) ++ body -> len data <= isize_max ->
  decode_long_field data e1 e2 = Ok body.
Proof.
  intros Hd Hb. unfold isize_max in Hb. unfold decode_long_field.
  assert (len data = 5 + len body) as Hl by (rewrite Hd; lenlia).
  do 4 dec_step Hd. rewrite Hd. by repeat read_step.
Qed.

Ltac finish_field :=
  match goal with
  | Hd : _ = _ :: le_bytes 2 _ ++ _ |- _ => erewrite decode_short_field_Ok by done
  | Hd : _ = _ :: le_bytes 4 _ ++ _ |- _ => erewrite decode_long_field_Ok by done
  end; cbn [omap obind]; by rewrite ?string_ok_lossy.

(** The messages that are a fixed sequence of fields. *)
Definition plain_message (p : ControlPayload.t) : Prop :=
  match p with
  | ServerHello _ _ _ | RecordingStatus _ _ | MaskFeedback _ _ | RegionalMaskHints _ _
  | MaskCatalog _ | ControlPayload.MaskState _ => False
  | _ => True
  end.

Lemma plain_roundtrip p data :
  payload_wf p -> plain_message p -> len data <= isize_max ->
  encode p = Ok data -> decode data = Ok p.
Proof.
  intros Hwf Hp Hmax H. destruct p; try done; cbn [encode payload_wf] in *; clear Hp.
  all: start_roundtrip H; autounfold with control_decode.
  all: first [solve [finish_roundtrip] | solve [finish_field] | idtac].
  rewrite wrap8_small in Hd by lia. dec_step Hd. dec_step Hd. dec_step Hd.
  assert (slice_from data 2 = Ok mask_id) as -> by (unfold slice_from; rewrite Hd; by repeat read_step).
  cbn [obind]. by rewrite from_utf8_string.
Qed.

(** ** The repeated entries *)

Lemma decode_entry_id_Ok data pre id rest tail e :
  data = pre ++ le_bytes 2 (len id) ++ id ++ rest -> string_ok id -> len id <= 65535 ->
  0 <= tail <= len rest -> len data <= isize_max ->
  decode_entry_id data (len pre) tail e = Ok (id, len pre + 2 + len id).
Proof.
  intros Hd Hid Hn Ht Hmax. unfold isize_max in Hmax. unfold decode_entry_id.
  assert (len data = len pre + 2 + len id + len rest) as Hl by (rewrite Hd; lenlia).
  do 6 dec_step Hd. read_field Hd. by rewrite string_ok_lossy.
Qed.

Lemma decode_outcomes_Ok es body data pre post :
  encode_outcomes es = Ok body -> Forall outcome_wf es ->
  data = pre ++ body ++ post -> len data <= isize_max ->
  decode_outcomes data (length es) (len pre) = Ok (es, len pre + len body).
Proof.
  revert body pre. induction es as [|[id su fa] es IH]; intros body pre He Hwf Hd Hmax.
  - injection He as <-. cbn. by rewrite Z.add_0_r.
  - cbn [encode_outcomes MaskOutcome.mask_id MaskOutcome.success MaskOutcome.fail] in He.
    apply obind_Ok in He as (f & Hf & He). apply u16_field_Ok in Hf as [Hn ->].
    apply obind_Ok in He as (tl & Htl & <-%Ok_inj).
    apply Forall_cons in Hwf as [(Hid & Hsu & Hfa) Hwf]. cbn in Hid, Hsu, Hfa.
    rewrite <-!app_assoc in Hd.
    cbn [length decode_outcomes].
    erewrite decode_entry_id_Ok by (done || lenlia). cbn [obind].
    read_field Hd. read_field Hd.
    specialize (IH tl (pre ++ le_bytes 2 (len id) ++ id ++ le_bytes 2 su ++ le_bytes 2 fa) Htl Hwf).
    rewrite <-!app_assoc in IH. specialize (IH Hd Hmax).
    replace (len pre + 2 + len id + 2 + 2)
      with (len (pre ++ le_bytes 2 (len id) ++ id ++ le_bytes 2 su ++ le_bytes 2 fa)) by lenlia.
    rewrite IH. cbn [obind]. do 2 f_equal. lenlia.
Qed.

Lemma decode_hints_Ok ms body data pre post :
  encode_hints ms = Ok body -> Forall hint_wf ms ->
  data = pre ++ body ++ post -> len data <= isize_max ->
  decode_hints data (length ms) (len pre) = Ok ms.
Proof.
  revert body pre. induction ms as [|[id sc] ms IH]; intros body pre He Hwf Hd Hmax; [done|].
  cbn [encode_hints] in He.
  apply obind_Ok in He as (f & Hf & He). apply u16_field_Ok in Hf as [Hn ->].
  apply obind_Ok in He as (tl & Htl & <-%Ok_inj).
  apply Forall_cons in Hwf as [(Hid & Hsc & Hok) Hwf]. cbn in Hid, Hsc, Hok.
  rewrite <-!app_assoc in Hd. cbn [length decode_hints].
  erewrite decode_entry_id_Ok by (done || lenlia). cbn [obind].
  read_field Hd. rewrite Hok. cbn [negb].
  specialize (IH tl (pre ++ le_bytes 2 (len id) ++ id ++ le_bytes 4 sc) Htl Hwf).
  rewrite <-!app_assoc in IH. specialize (IH Hd Hmax).
  replace (len pre + 2 + len id + 4) with (len (pre ++ le_bytes 2 (len id) ++ id ++ le_bytes 4 sc))
    by lenlia.
  by rewrite IH.
Qed.

Lemma decode_catalog_Ok ms body data pre post :
  encode_catalog ms = Ok body -> Forall catalog_wf ms ->
  data = pre ++ body ++ post -> len data <= isize_max ->
  decode_catalog data (length ms) (len pre) = Ok ms.
Proof.
  revert body pre. induction ms as [|[[id lb] g] ms IH]; intros body pre He Hwf Hd Hmax; [done|].
  cbn [encode_catalog] in He.
  apply obind_Ok in He as (f & Hf & He). apply u16_field_Ok in Hf as [Hn ->].
  apply obind_Ok in He as (f & Hf & He). apply u16_field_Ok in Hf as [Hm ->].
  apply obind_Ok in He as (tl & Htl & <-%Ok_inj).
  apply Forall_cons in Hwf as [(Hid & Hlb) Hwf]. cbn in Hid, Hlb.
  rewrite <-!app_assoc in Hd. cbn [length decode_catalog].
  assert (len data = len pre + 2 + len id + 2 + len lb + 1 + len tl + len post) as Hl
    by (rewrite Hd; lenlia).
  erewrite decode_entry_id_Ok by (done || lenlia). cbn [obind]. unfold isize_max in *.
  do 4 dec_step Hd. dec_step Hd. dec_step Hd.
  specialize (IH tl (pre ++ le_bytes 2 (len id) ++ id ++ le_bytes 2 (len lb) ++ lb
                     ++ [if g then 1 else 0]) Htl Hwf).
  rewrite <-!app_assoc in IH. specialize (IH Hd Hmax).
  replace (len pre + 2 + len id + 2 + len lb + 1)
    with (len (pre ++ le_bytes 2 (len id) ++ id ++ le_bytes 2 (len lb) ++ lb
               ++ [if g then 1 else 0])) by lenlia.
  rewrite IH. cbn [obind]. by destruct g.
Qed.

Lemma take_min {A} (n : nat) (l : list A) :
  take (Z.to_nat (Z.min (len l) (Z.of_nat n))) l = take n l /\
  Z.to_nat (Z.min (len l) (Z.of_nat n)) = length (take n l).
Proof.
  rewrite length_take. replace (Z.to_nat (Z.min (len l) (Z.of_nat n))) with (n `min` length l)%nat by lia.
  split; [|done]. destruct (Nat.min_spec n (length l)) as [[? ->]|[? ->]]; [done|].
  by rewrite !take_ge by lia.
Qed.

(** ** Round trip *)

Ltac dispatch Hd :=
  unfold decode; dec_guard; read_field Hd;
  cbn [ControlSubtype.as_u8 ControlSubtype.from_u8 ok_or obind].

Lemma feedback_roundtrip es c data :
  Forall outcome_wf es -> array_ok 2 c -> len data <= isize_max ->
  encode_MaskFeedback es c = Ok data -> decode data = Ok (MaskFeedback (take 64 es) c).
Proof.
  intros Hes [Hc Hcl] Hmax H. unfold encode_MaskFeedback in H. cbv zeta in H.
  destruct (take_min 64 es) as [Ht Hn]. change (Z.of_nat 64) with 64 in *. rewrite Ht in H.
  apply obind_Ok in H as (body & Hbody & H). rewrite wrap8_small in H by lia.
  open_message H. dispatch Hd. unfold decode_MaskFeedback. do 3 dec_step Hd. rewrite Hn.
  pose proof (decode_outcomes_Ok _ body data [_; _] c Hbody (Forall_take _ _ _ Hes) Hd Hmax) as E.
  change (len [_; _]) with 2 in E. rewrite E. cbn [obind]. by repeat dec_step Hd.
Qed.

Lemma hints_roundtrip ms c data :
  array_ok 2 c -> Forall hint_wf ms -> len data <= isize_max ->
  encode_RegionalMaskHints c ms = Ok data -> decode data = Ok (RegionalMaskHints c (take 32 ms)).
Proof.
  intros [Hc Hcl] Hms Hmax H. unfold encode_RegionalMaskHints in H. cbv zeta in H.
  destruct (take_min 32 ms) as [Ht Hn]. change (Z.of_nat 32) with 32 in *. rewrite Ht in H.
  apply obind_Ok in H as (body & Hbody & H). rewrite wrap8_small in H by lia.
  open_message H. dispatch Hd. unfold decode_RegionalMaskHints. do 4 dec_step Hd. rewrite Hn.
  replace 4 with (len (ControlSubtype.as_u8 ControlSubtype.RegionalMaskHints
                       :: c ++ [Z.min (len ms) 32])) by lenlia.
  erewrite (decode_hints_Ok _ body data _ []); [done|done|by apply Forall_take|..|done].
  rewrite Hd, app_nil_r. cbn [app]. by rewrite <-app_assoc.
Qed.

Lemma catalog_roundtrip ms data :
  Forall catalog_wf ms -> len data <= isize_max ->
  encode_MaskCatalog ms = Ok data -> decode data = Ok (MaskCatalog (take 64 ms)).
Proof.
  intros Hms Hmax H. unfold encode_MaskCatalog in H. cbv zeta in H.
  destruct (take_min 64 ms) as [Ht Hn]. change (Z.of_nat 64) with 64 in *. rewrite Ht in H.
  apply obind_Ok in H as (body & Hbody & H). rewrite wrap8_small in H by lia.
  open_message H. dispatch Hd. unfold decode_MaskCatalog. do 3 dec_step Hd. rewrite Hn.
  rewrite <-(app_nil_r body) in Hd.
  pose proof (decode_catalog_Ok _ body data [_; _] [] Hbody (Forall_take _ _ _ Hms) Hd Hmax) as E.
  change (len [_; _]) with 2 in E. by rewrite E.
Qed.

Lemma hello_roundtrip e s c data :
  array_ok 32 e -> array_ok 64 s -> (forall c', c = Some c' -> client_network_wf c') ->
  len data <= isize_max ->
  encode_ServerHello e s c = Ok data -> decode data = Ok (ServerHello e s c).
Proof.
  intros [He Hel] [Hs Hsl] Hc Hmax H. unfold encode_ServerHello in H.
  apply obind_Ok in H as (tail & Htail & H).
  destruct c as [c|].
  - apply obind_Ok in Htail as ([] & Hv & Htail%Ok_inj). subst tail. open_message H.
    dispatch Hd. unfold decode_ServerHello. do 3 dec_step Hd.
    assert ((97 + 12 <=? len data) = true) as -> by wire_lia. cbv zeta.
    assert (slice data 97 (Z.min (97 + WIRE_SIZE) (len data)) = Ok (encode_wire c)) as ->.
    { rewrite Hd at 1. repeat read_step. reflexivity. }
    cbn [obind]. by rewrite decode_encode_wire by auto.
  - apply Ok_inj in Htail. subst tail. open_message H. rewrite app_nil_r in Hd.
    dispatch Hd. unfold decode_ServerHello. do 3 dec_step Hd.
    assert ((97 + 12 <=? len data) = false) as -> by wire_lia. done.
Qed.

Definition status_flags (b : bool) (s : option bytes) : Z :=
  match b, s with
  | false, None => 0 | true, None => 1 | false, Some _ => 2 | true, Some _ => 3
  end.

Lemma status_flags_spec b s :
  negb (Z.land (status_flags b s) 1 =? 0) = b /\
  negb (Z.land (status_flags b s) 2 =? 0) = match s with Some _ => true | None => false end.
Proof. by destruct b, s. Qed.

Lemma status_roundtrip b s data :
  (forall s', s = Some s' -> string_ok s') -> len data <= isize_max ->
  encode_RecordingStatus b s = Ok data -> decode data = Ok (RecordingStatus b s).
Proof.
  intros Hs Hmax H. unfold encode_RecordingStatus in H. cbv zeta in H.
  apply obind_Ok in H as (tail & Htail & H). destruct (status_flags_spec b s) as [F1 F2].
  match type of H with Ok ([_; ?f] ++ _) = _ =>
    replace f with (status_flags b s) in H by by destruct b, s end.
  set (flags := status_flags b s) in *. destruct s as [s|].
  - apply obind_Ok in Htail as (f & Hf & Htail%Ok_inj). subst tail.
    apply u16_field_Ok in Hf as [Hn ->]. open_message H. dispatch Hd.
    unfold decode_RecordingStatus. do 2 dec_step Hd. rewrite F1, F2.
    specialize (Hs s eq_refl).
    assert ((len data <? 4) = false) as -> by wire_lia.
    assert (le_at 2 data 2 = Ok (len s)) as -> by (rewrite Hd; by repeat read_step).
    cbn [obind]. uadd_step. cbn [obind].
    assert ((len data <? 4 + len s) = false) as -> by wire_lia.
    assert (slice data 4 (4 + len s) = Ok s) as -> by (rewrite Hd; by repeat read_step).
    cbn [omap obind]. by rewrite string_ok_lossy.
  - apply Ok_inj in Htail. subst tail. open_message H. dispatch Hd.
    unfold decode_RecordingStatus. do 2 dec_step Hd. by rewrite F1, F2.
Qed.

Lemma state_roundtrip s data :
  mask_state_wf s -> encode_control s = Ok data -> decode data = Ok (ControlPayload.MaskState s).
Proof.
  intros Hwf H. pose proof (encode_control_head _ _ H) as [rest Hd].
  assert (len data = 1 + len rest) as Hl by (rewrite Hd; lenlia).
  dispatch Hd. by rewrite (mask_state_decode_encode s).
Qed.


(** ** Safety *)

Lemma safe_short_field data e1 e2 (Q : bytes -> Prop) :
  bytes_ok data -> (forall s, bytes_ok s -> Q s) -> safe (decode_short_field data e1 e2) Q.
Proof. intros Hok HQ. unfold decode_short_field. repeat safe_step. by apply HQ. Qed.

Lemma safe_long_field data e1 e2 (Q : bytes -> Prop) :
  bytes_ok data -> len data <= isize_max -> (forall s, bytes_ok s -> Q s) ->
  safe (decode_long_field data e1 e2) Q.
Proof.
  intros Hok Hmax HQ. unfold decode_long_field, sat_sub, isize_max in *. repeat safe_step.
  by apply HQ.
Qed.

Lemma safe_entry_id data offset tail e (Q : bytes * Z -> Prop) :
  bytes_ok data -> len data <= isize_max -> 0 <= offset <= len data -> 0 <= tail <= 4 ->
  (forall id o, string_ok id -> offset + 2 <= o -> o + tail <= len data -> Q (id, o)) ->
  safe (decode_entry_id data offset tail e) Q.
Proof.
  intros Hok Hmax Ho Ht HQ. unfold decode_entry_id, isize_max in *. repeat safe_step.
  apply HQ; [by apply from_utf8_lossy_ok|lia..].
Qed.

Ltac entry_step :=
  match goal with
  | |- safe (decode_entry_id _ _ _ _) _ =>
      apply safe_entry_id; [assumption|assumption|lia|lia|intros ? ? ? ? ?]
  end.

Lemma safe_outcomes data count offset (Q : list MaskOutcome.t * Z -> Prop) :
  bytes_ok data -> len data <= isize_max -> 0 <= offset <= len data ->
  (forall es o, Forall outcome_wf es -> length es = count -> 0 <= o <= len data -> Q (es, o)) ->
  safe (decode_outcomes data count offset) Q.
Proof.
  intros Hok Hmax. revert offset Q. induction count as [|count IH]; intros offset Q Ho HQ;
    cbn [decode_outcomes].
  - apply HQ; [constructor|done|done].
  - unfold isize_max in Hmax. repeat first [safe_step | entry_step].
    apply IH; [lia|]. intros es o' Hes Hl Ho'. apply HQ; [|simpl; by f_equal|done].
    constructor; [|done]. by split_and!.
Qed.

Lemma safe_hints data count offset (Q : list (bytes * Z) -> Prop) :
  bytes_ok data -> len data <= isize_max -> 0 <= offset <= len data ->
  (forall ms, Forall hint_wf ms -> length ms = count -> Q ms) ->
  safe (decode_hints data count offset) Q.
Proof.
  intros Hok Hmax. revert offset Q. induction count as [|count IH]; intros offset Q Ho HQ;
    cbn [decode_hints].
  - apply HQ; [constructor|done].
  - unfold isize_max in Hmax. repeat first [safe_step | entry_step].
    apply IH; [lia|]. intros ms Hms Hl. apply HQ; [|simpl; by f_equal].
    constructor; [|done]. by split_and!.
Qed.

Lemma safe_catalog data count offset (Q : list (bytes * bytes * bool) -> Prop) :
  bytes_ok data -> len data <= isize_max -> 0 <= offset <= len data ->
  (forall ms, Forall catalog_wf ms -> length ms = count -> Q ms) ->
  safe (decode_catalog data count offset) Q.
Proof.
  intros Hok Hmax. revert offset Q. induction count as [|count IH]; intros offset Q Ho HQ;
    cbn [decode_catalog].
  - apply HQ; [constructor|done].
  - unfold isize_max in Hmax. repeat first [safe_step | entry_step].
    apply IH; [lia|]. intros ms Hms Hl. apply HQ; [|simpl; by f_equal].
    constructor; [|done]. split; [done|by apply from_utf8_lossy_ok].
Qed.

Definition decoded_ok (p : ControlPayload.t) : Prop := payload_wf p /\ canonical p = p.

Ltac control_step :=
  match goal with
  | |- safe (decode_short_field _ _ _) _ => apply safe_short_field; [assumption|intros ? ?]
  | |- safe (decode_long_field _ _ _) _ =>
      apply safe_long_field; [assumption|assumption|intros ? ?]
  | |- safe (decode_outcomes _ _ _) _ =>
      apply safe_outcomes; [assumption|assumption|lia|intros ? ? ? ? ?]
  | |- safe (decode_hints _ _ _) _ =>
      apply safe_hints; [assumption|assumption|lia|intros ? ? ?]
  | |- safe (decode_catalog _ _ _) _ =>
      apply safe_catalog; [assumption|assumption|lia|intros ? ? ?]
  | |- safe (decode_wire _) _ =>
      eapply safe_mono; [apply safe_decode_wire; assumption|intros ? [? ?]]
  | |- safe (decode_control _) _ =>
      eapply safe_mono; [apply mask_state_encode_decode; assumption|intros ? [? ?]]
  | |- safe (from_utf8 ?s _) _ =>
      unfold from_utf8; let E := fresh "Hu" in destruct (utf8_valid s) eqn:E; simpl
  end.

Lemma safe_decode data :
  bytes_ok data -> len data <= isize_max -> safe (decode data) decoded_ok.
Proof.
  intros Hok Hmax. unfold decode. repeat safe_step.
  destruct a; autounfold with control_decode; unfold isize_max, sat_sub in *.
  all: repeat first [safe_step | control_step]; try exact I.
  all: unfold decoded_ok; cbn [payload_wf canonical]; split; try done.
  all: try (rewrite take_ge by lia; done).
  all: unfold array_ok; split_and?; intros; simplify_eq; try done; try lia;
    by apply from_utf8_lossy_ok.
Qed.

(** Decoding a control message never panics and never overflows, on 32-bit
    targets included, whatever bytes arrive; an accepted message is well formed
    and respects the caps on its lists. *)
Theorem control_decode_safe data :
  bytes_ok data -> len data <= isize_max -> safe (decode data) decoded_ok.
Proof. apply safe_decode. Qed.

(** ** When encoding succeeds *)

Definition fits16 (s : bytes) : bool := len s <=? u16_max.

Definition fits (p : ControlPayload.t) : bool :=
  match p with
  | KeyRotate b | MaskUpdate b _ | RecordingStart b | RecordingAck _ b | RecordingFailed b
  | BootstrapDescriptorUpdate b | MaskPreference b => fits16 b
  | RecordingComplete s m _ => fits16 s && fits16 m
  | RecordingStatus _ (Some s) => fits16 s
  | ServerHello _ _ (Some c) => match c_validate c with Ok _ => true | _ => false end
  | ClientHello m => (1 <=? len m) && (len m <=? 96)
  | MaskFeedback es _ => forallb (fun e => fits16 (MaskOutcome.mask_id e)) (take 64 es)
  | RegionalMaskHints _ ms => forallb (fun m => fits16 (fst m)) (take 32 ms)
  | MaskCatalog ms => forallb (fun m => fits16 (fst (fst m)) && fits16 (snd (fst m))) (take 64 ms)
  | MgmtRequest _ _ p b => (len p <=? MAX_MGMT_PATH_SIZE) && (len b <=? MAX_MGMT_BODY_SIZE)
  | MgmtResponse _ _ b => len b <=? MAX_MGMT_BODY_SIZE
  | PartitionAnnounce c _ _ _ _ => fits16 c
  | ControlPayload.MaskState s => match mask_state_validate s with Ok _ => true | _ => false end
  | _ => true
  end.

(** [m] succeeds exactly when [b] holds, and never panics. *)
Definition succeeds_iff {A} (m : outcome A) (b : bool) : Prop :=
  match m with Ok _ => b = true | Err _ => b = false | Panic => False end.

Lemma succeeds_u16 {A} n (k : bytes -> outcome A) b :
  succeeds_iff (k (le_bytes 2 n)) b ->
  succeeds_iff (obind (u16_field n) k) ((n <=? u16_max) && b).
Proof.
  unfold u16_field, u16_try_from. destruct (n <=? u16_max); cbn [obind andb]; done.
Qed.

Lemma succeeds_bind_Ok {A B} (m : outcome A) (f : A -> B) b :
  succeeds_iff m b -> succeeds_iff (let! x := m in Ok (f x)) b.
Proof. by destruct m. Qed.

Lemma succeeds_outcomes es :
  succeeds_iff (encode_outcomes es) (forallb (fun e => fits16 (MaskOutcome.mask_id e)) es).
Proof.
  induction es as [|e es IH]; [done|]. cbn [encode_outcomes forallb].
  by apply succeeds_u16, succeeds_bind_Ok.
Qed.

Lemma succeeds_hints ms :
  succeeds_iff (encode_hints ms) (forallb (fun m => fits16 (fst m)) ms).
Proof.
  induction ms as [|[i s] ms IH]; [done|]. cbn [encode_hints forallb].
  by apply succeeds_u16, succeeds_bind_Ok.
Qed.

Lemma succeeds_catalog ms :
  succeeds_iff (encode_catalog ms)
    (forallb (fun m => fits16 (fst (fst m)) && fits16 (snd (fst m))) ms).
Proof.
  induction ms as [|[[i l] g] ms IH]; [done|]. cbn [encode_catalog forallb fst snd].
  rewrite <-andb_assoc. by apply succeeds_u16, succeeds_u16, succeeds_bind_Ok.
Qed.

Lemma succeeds_short st b : succeeds_iff (encode_short_field st b) (fits16 b).
Proof. unfold encode_short_field. rewrite <-(andb_true_r (fits16 b)). by apply succeeds_u16. Qed.

Lemma succeeds_state s :
  succeeds_iff (encode_control s) (match mask_state_validate s with Ok _ => true | _ => false end).
Proof.
  unfold encode_control. pose proof (mask_state_validate_no_panic s).
  destruct (mask_state_validate s) as [u| |]; [|done|done]. cbn [obind].
  by destruct (wire_parameters _) as [[[[[f m] u'] p] c] a].
Qed.

Lemma succeeds_hello c :
  succeeds_iff (match c with
                | Some c => let! _ := c_validate c in Ok (encode_wire c)
                | None => Ok []
                end)
    (match c with Some c => match c_validate c with Ok _ => true | _ => false end | None => true end).
Proof.
  destruct c as [c|]; [|done]. pose proof (c_validate_no_panic c). by destruct (c_validate c).
Qed.

Lemma succeeds_one {A} (s : bytes) (f : bytes -> A) :
  succeeds_iff (let! n := u16_field (len s) in Ok (f n)) (fits16 s).
Proof. rewrite <-(andb_true_r (fits16 s)). by apply succeeds_u16. Qed.

Lemma succeeds_if {A} (b c d : bool) e (m : outcome A) :
  (b = false -> succeeds_iff m c) -> negb b && c = d -> succeeds_iff (if b then Err e else m) d.
Proof. intros Hm <-. destruct b; simpl; auto. Qed.

Lemma fits16_small s : len s <= 65535 -> fits16 s = true.
Proof. unfold fits16, u16_max. lia. Qed.

(** [encode] never panics and fails exactly on the messages that do not fit
    their wire form: a text or blob behind a [u16] length longer than 65535
    bytes, a management path or body above its cap, a client hello identifier
    that is empty or longer than 96 bytes, an invalid network configuration or
    mask state. *)
Theorem control_encode_domain p : succeeds_iff (encode p) (fits p).
Proof.
  assert (Hmin : forall {A} (n : nat) (l : list A),
    take (Z.to_nat (Z.min (len l) (Z.of_nat n))) l = take n l) by (intros; apply take_min).
  destruct p; cbn [encode fits]; autounfold with control_encode; try done;
    try (by apply succeeds_one).
  - by apply succeeds_bind_Ok, succeeds_hello.
  - apply succeeds_u16, succeeds_one.
  - apply succeeds_bind_Ok. destruct active_service; [apply succeeds_one|done].
  - rewrite (Hmin _ 64%nat). apply succeeds_bind_Ok, succeeds_outcomes.
  - rewrite (Hmin _ 32%nat). apply succeeds_bind_Ok, succeeds_hints.
  - rewrite (Hmin _ 64%nat). apply succeeds_bind_Ok, succeeds_catalog.
  - eapply succeeds_if; [intros _|]. eapply succeeds_if; [intros _; apply succeeds_one|reflexivity].
    rewrite !Z.ltb_antisym, !negb_involutive.
    destruct (Z.leb_spec (len path) MAX_MGMT_PATH_SIZE) as [H|H]; [|done].
    rewrite fits16_small by wire_lia. by rewrite andb_true_r.
  - eapply succeeds_if; [done|]. rewrite Z.ltb_antisym, negb_involutive. by rewrite andb_true_r.
  - eapply succeeds_if; [intros _; apply succeeds_one|].
    rewrite Z.ltb_antisym, negb_involutive. apply andb_diag.
  - eapply succeeds_if; [done|]. rewrite andb_true_r, negb_orb, (Z.ltb_antisym (len mask_id)),
      negb_involutive. f_equal. destruct (Z.eqb_spec (len mask_id) 0), (Z.leb_spec 1 (len mask_id)); lia.
  - apply succeeds_state.
Qed.

(** ** Witnesses *)

Definition sample_hints : ControlPayload.t :=
  RegionalMaskHints [82; 85] (replicate 33 ([119; 101; 98], f32_one)).


Lemma control_decode_safe_witness : safe (decode [0x12; 255; 255; 255; 255; 0]) decoded_ok.
Proof. apply control_decode_safe; [by apply bytes_ok_check|vm_compute; done]. Defined.
