(* ===== verification/Fec.v ===== *)
(** * XOR forward error correction: the code

    Models the encoder half of [crates/aivpn-common/src/fec.rs]: the group
    encoder [FecEncoder], the repair packet [FecRepair] and the position of a
    packet in its group, [FecMetadata]. The sender that drives the encoder is
    in [FecSender], the receiver in [FecReceiver]. *)

From S2P Require Import Prelude Protocol.
Local Open Scope Z_scope.

(** [l.get(i).copied().unwrap_or(0)] *)
Definition byte_at (l : bytes) (i : nat) : Z := default 0 (l !! i).

(** [for (a, b) in buf.iter_mut().zip(payload) { *a ^= b }] *)
Fixpoint xor_into (buf payload : bytes) : bytes :=
  match buf, payload with
  | a :: buf, b :: payload => Z.lxor a b :: xor_into buf payload
  | _, _ => buf
  end.

(** ** Repair packets *)

Module FecMetadata.
Record t : Type := { group_seq : Z; group_size : Z; index : Z }.

#[global] Instance eq_dec : EqDecision t.
Proof. solve_decision. Defined.
End FecMetadata.

Module FecRepair.
Record t : Type := { group_seq : Z; group_size : Z; xor_data : bytes }.

Definition encode (r : t) : bytes := le_bytes 2 (group_seq r) ++ [group_size r] ++ xor_data r.

Definition decode (data : bytes) : outcome (option t) :=
  if len data <? 3 then Ok None
  else
  let! d2 := idx data 2 in
  if d2 =? 0 then Ok None
  else
  let! group_seq := le_at 2 data 0 in
  let! xor_data := slice_from data 3 in
  Ok (Some {| group_seq := group_seq; group_size := d2; xor_data := xor_data |}).

Definition recover (r : t) (received_xor : bytes) : bytes :=
  let n := Nat.max (length (xor_data r)) (length received_xor) in
  map (fun i => Z.lxor (byte_at (xor_data r) i) (byte_at received_xor i)) (seq 0 n).

Definition wf (r : t) : Prop :=
  u16_ok (group_seq r) /\ 0 < group_size r < 256 /\ bytes_ok (xor_data r).
End FecRepair.

(** ** The group encoder *)

Module FecEncoder.
Record t : Type := {
  xor_buf : bytes;
  max_len : Z;
  count : Z;
  group_size : Z;
  group_seq : Z;
}.

Definition new (group_size max_payload : Z) : outcome t :=
  if 0 <? group_size
  then Ok {| xor_buf := zeros (Z.to_nat max_payload); max_len := 0; count := 0;
             group_size := group_size; group_seq := 0 |}
  else Panic.

Definition set_group_seq (seq : Z) (e : t) : t := {|
  xor_buf := xor_buf e; max_len := max_len e; count := count e;
  group_size := group_size e; group_seq := seq |}.

Definition feed (e : t) (payload : bytes) : t * option FecRepair.t :=
  let len := Z.min (len payload) (len (xor_buf e)) in
  let buf := xor_into (xor_buf e) payload in
  let longest := if max_len e <? len then len else max_len e in
  let n := wrap8 (count e + 1) in
  if group_size e <=? n then
    ({| xor_buf := zeros (length buf); max_len := 0; count := 0; group_size := group_size e;
        group_seq := wrap16 (group_seq e + 1) |},
     Some {| FecRepair.group_seq := group_seq e; FecRepair.group_size := group_size e;
             FecRepair.xor_data := take (Z.to_nat longest) buf |})
  else
    ({| xor_buf := buf; max_len := longest; count := n; group_size := group_size e;
        group_seq := group_seq e |}, None).

Definition reset (e : t) : t := {|
  xor_buf := zeros (length (xor_buf e)); max_len := 0; count := 0;
  group_size := group_size e; group_seq := group_seq e |}.

(** Feed a sequence of packets, collecting the repairs. *)
Fixpoint feed_all (e : t) (packets : list bytes) : t * list FecRepair.t :=
  match packets with
  | [] => (e, [])
  | p :: packets =>
      let '(e, r) := feed e p in
      let '(e, rs) := feed_all e packets in
      (e, match r with Some r => r :: rs | None => rs end)
  end.
End FecEncoder.

(** ** XOR of packets *)

(** Byte [i] of the XOR of a list of packets, each padded with zeros. *)
Definition xor_byte (packets : list bytes) (i : nat) : Z :=
  fold_right (fun p acc => Z.lxor (byte_at p i) acc) 0 packets.

Definition longest (packets : list bytes) : Z :=
  fold_right (fun p acc => Z.max (len p) acc) 0 packets.

(** The XOR of a list of packets, as long as the longest of them. *)
Definition xor_packets (packets : list bytes) : bytes :=
  map (xor_byte packets) (seq 0 (Z.to_nat (longest packets))).

Lemma byte_at_cons a l i : byte_at (a :: l) (S i) = byte_at l i.
Proof. done. Qed.

Lemma byte_at_zeros n i : byte_at (zeros n) i = 0.
Proof.
  unfold byte_at, zeros. destruct (replicate n 0 !! i) as [x|] eqn:E; [|done].
  by apply lookup_replicate in E as [-> _].
Qed.

Lemma byte_at_beyond l i : (length l <= i)%nat -> byte_at l i = 0.
Proof. intros. unfold byte_at. by rewrite lookup_ge_None_2. Qed.

Lemma byte_at_map f n i : (i < n)%nat -> byte_at (map f (seq 0 n)) i = f i.
Proof.
  intros. unfold byte_at. rewrite list_lookup_fmap, lookup_seq_lt by done. done.
Qed.

Lemma length_xor_into buf payload : length (xor_into buf payload) = length buf.
Proof. revert payload; induction buf; intros [|b p]; simpl; auto. Qed.
#[export] Hint Rewrite length_xor_into : aivpn_len.

Lemma byte_at_xor_into buf payload i :
  (i < length buf)%nat -> byte_at (xor_into buf payload) i = Z.lxor (byte_at buf i) (byte_at payload i).
Proof.
  revert payload i. induction buf as [|a buf IH]; intros [|b payload] [|i] Hi; simpl in Hi; try lia.
  - change (byte_at (a :: buf) 0) with a. by rewrite Z.lxor_0_r.
  - cbn [xor_into]. rewrite byte_at_beyond with (l := []) by (simpl; lia). by rewrite Z.lxor_0_r.
  - done.
  - cbn [xor_into]. rewrite !byte_at_cons. apply IH. lia.
Qed.

Lemma byte_at_ext l l' :
  length l = length l' -> (forall i, (i < length l)%nat -> byte_at l i = byte_at l' i) -> l = l'.
Proof.
  intros Hl H. apply list_eq. intros i.
  destruct (decide (i < length l)%nat) as [Hi|Hi].
  - specialize (H i Hi). unfold byte_at in H.
    destruct (lookup_lt_is_Some_2 l i Hi) as [x Hx].
    destruct (lookup_lt_is_Some_2 l' i ltac:(lia)) as [y Hy].
    rewrite Hx, Hy in *. simpl in H. by subst.
  - rewrite !lookup_ge_None_2 by lia. done.
Qed.

Lemma byte_at_take n l i : (i < n)%nat -> byte_at (take n l) i = byte_at l i.
Proof. intros. unfold byte_at. by rewrite lookup_take_lt. Qed.

Lemma byte_at_bound l i : bytes_ok l -> 0 <= byte_at l i < 256.
Proof.
  intros H. unfold byte_at. destruct (l !! i) as [x|] eqn:E; simpl; [|lia].
  by apply (Forall_lookup_1 _ _ _ _ H) in E.
Qed.

Lemma longest_cons p ps : longest (p :: ps) = Z.max (len p) (longest ps).
Proof. done. Qed.

Lemma xor_byte_cons p ps i : xor_byte (p :: ps) i = Z.lxor (byte_at p i) (xor_byte ps i).
Proof. done. Qed.

Lemma longest_nonneg ps : 0 <= longest ps.
Proof. induction ps; [done|]. rewrite longest_cons. lia. Qed.

Lemma xor_byte_app ps qs i : xor_byte (ps ++ qs) i = Z.lxor (xor_byte ps i) (xor_byte qs i).
Proof.
  induction ps as [|p ps IH]; [done|]. cbn [app]. rewrite !xor_byte_cons, IH.
  by rewrite Z.lxor_assoc.
Qed.

Lemma longest_app ps qs : longest (ps ++ qs) = Z.max (longest ps) (longest qs).
Proof.
  induction ps as [|p ps IH]; cbn [app].
  - pose proof (longest_nonneg qs). change (longest []) with 0. lia.
  - rewrite !longest_cons, IH. lia.
Qed.

#[export] Instance xor_byte_Permutation : Proper ((≡ₚ) ==> eq ==> eq) xor_byte.
Proof.
  intros ps qs H i ? <-. induction H; rewrite ?xor_byte_cons; try congruence.
  rewrite <-!Z.lxor_assoc. f_equal. apply Z.lxor_comm.
Qed.

#[export] Instance longest_Permutation : Proper ((≡ₚ) ==> eq) longest.
Proof. intros ps qs H. induction H; rewrite ?longest_cons; lia. Qed.

Lemma longest_in p ps : p ∈ ps -> len p <= longest ps.
Proof. induction 1; rewrite longest_cons; lia. Qed.

Lemma longest_bound n ps : 0 <= n -> Forall (fun p => len p <= n) ps -> longest ps <= n.
Proof. intros Hn. induction 1; [done|]. rewrite longest_cons. lia. Qed.

Lemma xor_byte_beyond ps i : longest ps <= Z.of_nat i -> xor_byte ps i = 0.
Proof.
  induction ps as [|p ps IH]; [done|]. rewrite longest_cons, xor_byte_cons. intros H.
  rewrite byte_at_beyond, IH by lia. done.
Qed.

Lemma length_xor_packets ps : len (xor_packets ps) = longest ps.
Proof.
  unfold xor_packets. rewrite length_fmap, length_seq. pose proof (longest_nonneg ps). lia.
Qed.

Lemma byte_at_xor_packets ps i : byte_at (xor_packets ps) i = xor_byte ps i.
Proof.
  unfold xor_packets. pose proof (longest_nonneg ps).
  destruct (decide (Z.of_nat i < longest ps)).
  - rewrite byte_at_map by lia. done.
  - rewrite byte_at_beyond, xor_byte_beyond; [done|lia|]. rewrite length_fmap, length_seq. lia.
Qed.

Lemma xor_packets_perm ps qs : ps ≡ₚ qs -> xor_packets ps = xor_packets qs.
Proof.
  intros H. unfold xor_packets. rewrite (longest_Permutation ps qs H).
  apply map_ext. intros i. by rewrite H.
Qed.

(** ** The encoder computes the XOR of its group *)

Module EncoderSpec.
Import FecEncoder.

(** The state of an encoder that has been fed [ps] since its last repair. *)
Record holds (e : t) (ps : list bytes) : Prop := {
  holds_xor : forall i, (i < length (xor_buf e))%nat -> byte_at (xor_buf e) i = xor_byte ps i;
  holds_len : max_len e = longest ps;
  holds_count : count e = len ps;
  holds_size : 0 < group_size e < 256;
  holds_open : len ps < group_size e;
  holds_room : longest ps <= len (xor_buf e);
}.

Lemma holds_new n m e : new n m = Ok e -> 0 < n < 256 -> holds e [].
Proof.
  unfold new. destruct (0 <? n) eqn:E; [|done]. intros [= <-] Hn.
  constructor; cbn; try lia. intros i Hi. apply byte_at_zeros.
Qed.

Lemma holds_feed e ps p :
  holds e ps -> len p <= len (xor_buf e) ->
  match feed e p with
  | (e', None) =>
      holds e' (p :: ps) /\ length (xor_buf e') = length (xor_buf e) /\
      group_size e' = group_size e /\ group_seq e' = group_seq e
  | (e', Some r) =>
      len ps + 1 = group_size e /\
      r = {| FecRepair.group_seq := group_seq e; FecRepair.group_size := group_size e;
             FecRepair.xor_data := xor_packets (p :: ps) |} /\
      holds e' [] /\ length (xor_buf e') = length (xor_buf e) /\
      group_size e' = group_size e /\ group_seq e' = wrap16 (group_seq e + 1)
  end.
Proof.
  intros [Hx Hl Hc Hs Ho Hr] Hp. unfold feed.
  replace (Z.min (len p) (len (xor_buf e))) with (len p) by lia.
  assert ((if max_len e <? len p then len p else max_len e) = longest (p :: ps)) as ->.
  { rewrite Hl, longest_cons. destruct (Z.ltb_spec (longest ps) (len p)); lia. }
  assert (wrap8 (count e + 1) = len ps + 1) as ->.
  { unfold wrap8. rewrite Hc. apply Z.mod_small. lia. }
  pose proof (longest_nonneg (p :: ps)).
  assert (longest (p :: ps) <= len (xor_buf e)) by (rewrite longest_cons; lia).
  destruct (Z.leb_spec (group_size e) (len ps + 1)).
  - split; [lia|]. split.
    + f_equal. apply byte_at_ext.
      * pose proof (length_xor_packets (p :: ps)). rewrite length_take, length_xor_into. lia.
      * intros i Hi. rewrite length_take, length_xor_into in Hi.
        rewrite byte_at_take, byte_at_xor_into, Hx, byte_at_xor_packets by lia.
        by rewrite xor_byte_cons, Z.lxor_comm.
    + rewrite length_xor_into. split; [|cbn; by rewrite length_zeros].
      constructor; cbn; try lia. intros i Hi. apply byte_at_zeros.
  - cbn [xor_buf group_size group_seq]. rewrite length_xor_into. split; [|done].
    constructor; cbn [xor_buf max_len count group_size length];
      rewrite ?length_xor_into; try lia.
    intros i Hi. rewrite byte_at_xor_into, Hx by done. by rewrite xor_byte_cons, Z.lxor_comm.
Qed.

Lemma holds_feed_all e ps ps' :
  holds e ps -> Forall (fun p => len p <= len (xor_buf e)) ps' ->
  len ps + len ps' < group_size e ->
  exists e', feed_all e ps' = (e', []) /\ holds e' (rev ps' ++ ps) /\
    length (xor_buf e') = length (xor_buf e) /\ group_size e' = group_size e /\
    group_seq e' = group_seq e.
Proof.
  revert e ps. induction ps' as [|p ps' IH]; intros e ps He Hps Hn.
  { exists e. done. }
  apply Forall_cons in Hps as [Hp Hps]. cbn [length] in Hn. cbn [feed_all].
  pose proof (holds_feed e ps p He Hp) as Hf. destruct (feed e p) as [e1 [r|]].
  - destruct Hf as [Hf _]. lia.
  - destruct Hf as (He1 & Hl & Hs & Hq).
    destruct (IH e1 (p :: ps)) as (e' & -> & He' & Hl' & Hs' & Hq').
    + done.
    + by rewrite Hl.
    + cbn [length]. lia.
    + exists e'. split; [done|]. cbn [rev]. rewrite <-app_assoc. split; [done|].
      by rewrite Hl', Hs', Hq'.
Qed.
End EncoderSpec.

(** Feeding a fresh group of [group_size] packets yields exactly one repair,
    on the last packet: it carries the XOR of the group, padded to the longest
    packet, and the group's number; the encoder is then ready for the next
    group. *)
Theorem encoder_group e ps p :
  EncoderSpec.holds e [] ->
  Forall (fun q => len q <= len (FecEncoder.xor_buf e)) (ps ++ [p]) ->
  len (ps ++ [p]) = FecEncoder.group_size e ->
  exists e', FecEncoder.feed_all e (ps ++ [p]) = (e', [{|
      FecRepair.group_seq := FecEncoder.group_seq e;
      FecRepair.group_size := FecEncoder.group_size e;
      FecRepair.xor_data := xor_packets (ps ++ [p]) |}]) /\
    EncoderSpec.holds e' [] /\ FecEncoder.group_size e' = FecEncoder.group_size e /\
    FecEncoder.group_seq e' = wrap16 (FecEncoder.group_seq e + 1).
Proof.
  intros He Hps Hn. apply Forall_app in Hps as [Hps [Hp _]%Forall_cons].
  rewrite length_app in Hn. cbn [length] in Hn.
  destruct (EncoderSpec.holds_feed_all e [] ps He Hps) as (e1 & Hf & He1 & Hl & Hs & Hq);
    [cbn [length]; lia|]. rewrite app_nil_r in He1.
  assert (FecEncoder.feed_all e (ps ++ [p])
          = let '(e2, r) := FecEncoder.feed e1 p in
            (e2, match r with Some r => [r] | None => [] end)) as ->.
  { clear -Hf. revert e e1 Hf. induction ps as [|q ps IH]; intros e e1 Hf; cbn in *.
    - injection Hf as <-. by destruct (FecEncoder.feed e p) as [? []].
    - destruct (FecEncoder.feed e q) as [e' r]. destruct (FecEncoder.feed_all e' ps) as [e2 rs] eqn:E2.
      destruct r; [done|]. injection Hf as <- ->. rewrite (IH e' e2 E2).
      by destruct (FecEncoder.feed e2 p) as [? []]. }
  pose proof (EncoderSpec.holds_feed e1 (rev ps) p He1 ltac:(lia)) as Hf1.
  destruct (FecEncoder.feed e1 p) as [e2 [r|]].
  - destruct Hf1 as (_ & -> & H2 & _ & Hs2 & Hq2). exists e2. rewrite Hs2, Hq2, Hs, Hq.
    split; [|done]. rewrite (xor_packets_perm (p :: rev ps) (ps ++ [p])); [done|].
    by rewrite <-Permutation_cons_append, <-Permutation_rev.
  - destruct Hf1 as ([_ _ Hc _ Ho _] & _ & Hs2 & _).
    cbn [length] in *. rewrite length_rev in *. lia.
Qed.

(** ** Recovery *)

(** XOR-ing the bytes of the whole group with the bytes of the packets that
    arrived leaves the missing packet, padded with zeros. *)
Lemma xor_recovers (f g : nat -> Z) ps lost others :
  (forall i, Z.of_nat i < longest ps -> f i = xor_byte ps i) ->
  (forall i, Z.of_nat i < longest ps -> g i = xor_byte others i) ->
  ps ≡ₚ lost :: others ->
  map (fun i => Z.lxor (f i) (g i)) (seq 0 (Z.to_nat (longest ps)))
  = lost ++ zeros (Z.to_nat (longest ps - len lost)).
Proof.
  intros Hf Hg Hp.
  assert (longest ps = Z.max (len lost) (longest others)) as Hl by (by rewrite Hp, longest_cons).
  apply byte_at_ext.
  - rewrite length_fmap, length_seq, length_app, length_zeros. lia.
  - intros i Hi. rewrite length_fmap, length_seq in Hi. rewrite byte_at_map by done.
    rewrite Hf, Hg, Hp, xor_byte_cons, Z.lxor_assoc, Z.lxor_nilpotent, Z.lxor_0_r by lia.
    unfold byte_at. destruct (decide (i < length lost)%nat).
    + by rewrite lookup_app_l.
    + rewrite lookup_app_r by lia. rewrite lookup_ge_None_2 by lia. symmetry.
      apply byte_at_zeros.
Qed.

(** Losing any one packet of a group loses nothing: XOR-ing the repair with
    the packets that did arrive, in whatever order, gives the missing packet,
    followed by zeros up to the length of the longest packet of the group. *)
Theorem recover_missing r ps lost others :
  FecRepair.xor_data r = xor_packets ps -> ps ≡ₚ lost :: others ->
  FecRepair.recover r (xor_packets others)
  = lost ++ zeros (Z.to_nat (longest ps - len lost)).
Proof.
  intros Hr Hp. unfold FecRepair.recover. rewrite Hr.
  assert (longest ps = Z.max (len lost) (longest others)) as Hl by (by rewrite Hp, longest_cons).
  pose proof (length_xor_packets ps). pose proof (length_xor_packets others).
  replace (Nat.max _ _) with (Z.to_nat (longest ps)) by lia.
  apply xor_recovers with others; try done; intros; apply byte_at_xor_packets.
Qed.

(** A repair packet survives its wire form. *)
Theorem repair_roundtrip r : FecRepair.wf r -> FecRepair.decode (FecRepair.encode r) = Ok (Some r).
Proof.
  intros (Hs & Hg & Hx). unfold FecRepair.decode, FecRepair.encode.
  guard_false. cbn [app]. repeat read_step. cbn [obind]. guard_false. repeat read_step. cbn [obind].
  unfold slice_from. repeat read_step. cbn [obind]. by destruct r.
Qed.

Lemma repair_decode_safe data :
  bytes_ok data -> safe (FecRepair.decode data) (fun r => forall r', r = Some r' -> FecRepair.wf r').
Proof.
  intros Hok. unfold FecRepair.decode. repeat safe_step; intros ? [=]; subst.
  unfold FecRepair.wf. cbn. unfold byte_ok in *. split_and!; try done; lia.
Qed.

(** ** Witnesses *)

Definition sample_group : list bytes := [[1; 2; 3]; [255]; [7; 7]].

Definition sample_encoder : FecEncoder.t :=
  match FecEncoder.new 3 8 with
  | Ok e => e
  | _ => {| FecEncoder.xor_buf := []; FecEncoder.max_len := 0; FecEncoder.count := 0;
            FecEncoder.group_size := 0; FecEncoder.group_seq := 0 |}
  end.

Lemma encoder_group_witness :
  exists e', FecEncoder.feed_all sample_encoder sample_group = (e', [{|
      FecRepair.group_seq := 0; FecRepair.group_size := 3;
      FecRepair.xor_data := xor_packets sample_group |}]) /\
    EncoderSpec.holds e' [] /\ FecEncoder.group_size e' = 3 /\ FecEncoder.group_seq e' = wrap16 1.
Proof.
  apply (encoder_group sample_encoder [[1; 2; 3]; [255]] [7; 7]);
    [by eapply (EncoderSpec.holds_new 3 8)|repeat (constructor; [vm_compute; done|]); constructor|done].
Defined.

Lemma recover_missing_witness :
  FecRepair.recover {| FecRepair.group_seq := 0; FecRepair.group_size := 3;
                       FecRepair.xor_data := [249; 5; 3] |} (xor_packets [[1; 2; 3]; [7; 7]])
  = [255] ++ zeros 2.
Proof.
  apply (recover_missing _ sample_group [255] [[1; 2; 3]; [7; 7]]); [reflexivity|].
  apply Permutation_swap.
Defined.

Lemma repair_roundtrip_witness :
  FecRepair.decode (FecRepair.encode {| FecRepair.group_seq := 65535; FecRepair.group_size := 8;
                                        FecRepair.xor_data := [1; 2] |})
  = Ok (Some {| FecRepair.group_seq := 65535; FecRepair.group_size := 8;
                FecRepair.xor_data := [1; 2] |}).
Proof.
  apply repair_roundtrip. split; [by vm_compute|]. split; [by vm_compute|by apply bytes_ok_check].
Defined.
