(* ===== verification/Fragment.v ===== *)
(** * Fragmentation and reassembly

    Models [crates/aivpn-common/src/fragment.rs]: [split] and [split_fec_data]
    cut a payload into fragments that are encrypted one by one, [Reassembler]
    puts the fragments of several interleaved messages together again.

    The reassembler's state is [pending]. A random message id is an argument of
    [split]; an [Instant] is a [Z] in nanoseconds, passed in as [now]; the
    iteration order of the map is the interface [HashIter]. *)

From S2P Require Import Prelude Collections Protocol Fec.
Local Open Scope Z_scope.

Definition FRAGMENT_DATA_SIZE : Z := 900.
Definition MAX_REASSEMBLED_SIZE : Z := MAX_MGMT_BODY_SIZE + MAX_MGMT_PATH_SIZE + 12.
Definition HEADER_SIZE : Z := 20.
Definition FEC_META_SIZE : Z := 4.
Definition MAX_IN_FLIGHT : nat := 4.
Definition MAX_DATA_IN_FLIGHT : nat := 8.
Definition ASSEMBLY_TTL : Z := 10 * 1000000000.

#[export] Hint Unfold FRAGMENT_DATA_SIZE MAX_REASSEMBLED_SIZE HEADER_SIZE FEC_META_SIZE
  ASSEMBLY_TTL : aivpn_consts.

Record Assembly : Type := {
  kind : InnerType.t;
  fec : option FecMetadata.t;
  total : Z;
  created : Z;
  chunks : gmap Z bytes;
  received : Z;
}.

Module Reassembled.
Record t : Type := { kind : InnerType.t; payload : bytes; fec : option FecMetadata.t }.
End Reassembled.

Record Reassembler : Type := { pending : gmap Z Assembly }.

(** ** Splitting *)

(** The offsets [(0..total).step_by(FRAGMENT_DATA_SIZE)]. *)
Definition offsets (total : Z) : list Z :=
  map (fun i => Z.of_nat i * FRAGMENT_DATA_SIZE)
    (seq 0 (Z.to_nat ((total + FRAGMENT_DATA_SIZE - 1) / FRAGMENT_DATA_SIZE))).

(** The chunk of [payload.chunks(FRAGMENT_DATA_SIZE)] that starts at [offset]. *)
Definition chunk_at (payload : bytes) (offset : Z) : bytes :=
  take (Z.to_nat FRAGMENT_DATA_SIZE) (drop (Z.to_nat offset) payload).

Definition fragmentable (kind : InnerType.t) : bool :=
  match kind with
  | InnerType.Data | InnerType.Control | InnerType.FecRepair => true
  | _ => false
  end.

Definition fragment_bytes (kind : InnerType.t) (id : Z) (payload : bytes) (offset : Z) : bytes :=
  [1; InnerType.as_u16 kind; 0; 0] ++ be_bytes 8 id
  ++ be_bytes 4 (wrap32 (len payload)) ++ be_bytes 4 (wrap32 offset) ++ chunk_at payload offset.

Definition split (id : Z) (kind : InnerType.t) (payload : bytes) : outcome (list bytes) :=
  if negb (fragmentable kind) || (len payload =? 0) || (MAX_REASSEMBLED_SIZE <? len payload)
  then Err (InvalidPacket "Invalid fragmented payload")
  else Ok (map (fragment_bytes kind id payload) (offsets (len payload))).

(** [packet[2] = 1; packet[3] = FEC_META_SIZE as u8; packet.splice(..)] *)
Definition add_fec_header (meta : FecMetadata.t) (packet : bytes) : bytes :=
  let packet := <[3%nat := FEC_META_SIZE]> (<[2%nat := 1]> packet) in
  take (Z.to_nat HEADER_SIZE) packet
  ++ be_bytes 2 (FecMetadata.group_seq meta)
  ++ [FecMetadata.group_size meta; FecMetadata.index meta]
  ++ drop (Z.to_nat HEADER_SIZE) packet.

Definition split_fec_data (id : Z) (payload : bytes) (meta : FecMetadata.t)
    : outcome (list bytes) :=
  if (FecMetadata.group_size meta =? 0) || (FecMetadata.group_size meta <=? FecMetadata.index meta)
  then Err (InvalidPacket "Invalid FEC metadata")
  else if MAX_PACKET_SIZE <? len payload
  then Err (InvalidPacket "FEC data exceeds packet budget")
  else
  let! packets := split id InnerType.Data payload in
  Ok (map (add_fec_header meta) packets).

Definition fec_metadata (data : bytes) : outcome (option FecMetadata.t) :=
  if len data <? HEADER_SIZE + FEC_META_SIZE then Ok None
  else
  let! d0 := idx data 0 in
  let! d1 := idx data 1 in
  let! d2 := idx data 2 in
  let! d3 := idx data 3 in
  if negb (d0 =? 1) || negb (d1 =? InnerType.as_u16 InnerType.Data) || negb (d2 =? 1)
     || negb (d3 =? FEC_META_SIZE)
  then Ok None
  else
  let! group_size := idx data (HEADER_SIZE + 2) in
  let! index := idx data (HEADER_SIZE + 3) in
  if (group_size =? 0) || (group_size <=? index) then Ok None
  else
  let! group_seq := be_at 2 data HEADER_SIZE in
  Ok (Some {| FecMetadata.group_seq := group_seq; FecMetadata.group_size := group_size;
              FecMetadata.index := index |}).

(** ** Parsing a fragment *)

Record Fragment : Type := {
  f_kind : InnerType.t;
  f_id : Z;
  f_fec : option FecMetadata.t;
  f_total : Z;
  f_offset : Z;
  f_data : bytes;
}.

(** The header checks of [accept_detailed], up to the fragment bounds. *)
Definition parse_fragment (data : bytes) : outcome Fragment :=
  if len data <=? HEADER_SIZE then Err (InvalidPacket "Invalid fragment header")
  else
  let! d0 := idx data 0 in
  let! d2 := idx data 2 in
  if negb (d0 =? 1) || negb (Z.land d2 254 =? 0)
  then Err (InvalidPacket "Invalid fragment header")
  else
  let! d1 := idx data 1 in
  let! kind := match InnerType.from_u16 d1 with
               | Some k => if fragmentable k then Ok k
                           else Err (InvalidPacket "Invalid fragment type")
               | None => Err (InvalidPacket "Invalid fragment type")
               end in
  let flagged := d2 =? 1 in
  if flagged && negb (bool_decide (kind = InnerType.Data))
  then Err (InvalidPacket "FEC flag requires data fragments")
  else
  let header_size := HEADER_SIZE + if flagged then FEC_META_SIZE else 0 in
  let! d3 := idx data 3 in
  if (len data <=? header_size) || negb (d3 =? header_size - HEADER_SIZE)
  then Err (InvalidPacket "Invalid fragment header extension")
  else
  let! id := be_at 8 data 4 in
  let! fec := if flagged then
                let! m := fec_metadata data in
                omap Some (ok_or m (InvalidPacket "Invalid FEC fragment metadata"))
              else Ok None in
  let! total := be_at 4 data 12 in
  let! offset := be_at 4 data 16 in
  let! chunk := slice_from data header_size in
  if (total =? 0)
     || (bool_decide (kind = InnerType.Data) && (MAX_PACKET_SIZE <? total))
     || (bool_decide (kind = InnerType.FecRepair) && (MAX_PACKET_SIZE + 3 <? total))
     || (MAX_REASSEMBLED_SIZE <? total)
     || (total <=? offset)
     || negb (offset mod FRAGMENT_DATA_SIZE =? 0)
     || negb (len chunk =? Z.min FRAGMENT_DATA_SIZE (total - offset))
  then Err (InvalidPacket "Invalid fragment bounds")
  else Ok {| f_kind := kind; f_id := id; f_fec := fec; f_total := total; f_offset := offset;
             f_data := chunk |}.

(** ** Reassembly *)

Definition is_control (a : Assembly) : bool := bool_decide (kind a = InnerType.Control).

(** [assembly.chunks[&offset]] for every offset, in order *)
Fixpoint collect (chunks : gmap Z bytes) (os : list Z) : outcome bytes :=
  match os with
  | [] => Ok []
  | o :: os =>
      match chunks !! o with
      | Some d => let! rest := collect chunks os in Ok (d ++ rest)
      | None => Panic
      end
  end.

Section Reassembler.
Context `{!HashIter}.

(** Admission of a message that is not pending yet: control messages are
    refused above their limit, the oldest data message makes room for a new
    one. *)
Definition make_room (pending : gmap Z Assembly) (f : Fragment) : outcome (gmap Z Assembly) :=
  match pending !! f_id f with
  | Some _ => Ok pending
  | None =>
      let control := bool_decide (f_kind f = InnerType.Control) in
      let count := length (filter (fun ia => Bool.eqb (is_control (snd ia)) control = true)
                             (hash_iter pending)) in
      let limit := if control then MAX_IN_FLIGHT else MAX_DATA_IN_FLIGHT in
      if (limit <=? count)%nat then
        if control then Err (InvalidPacket "Too many fragmented messages")
        else
        let oldest := min_by (fun x y => created (snd x) <? created (snd y))
                        (filter (fun ia => negb (is_control (snd ia)) = true)
                           (hash_iter pending)) in
        match oldest with
        | Some (id, _) => Ok (delete id pending)
        | None => Ok pending
        end
      else Ok pending
  end.

(** The rest of [accept_detailed]: store the chunk, and hand the message over
    when it is complete. *)
Definition store_fragment (pending : gmap Z Assembly) (f : Fragment) (now : Z)
    : gmap Z Assembly * outcome (option Reassembled.t) :=
  let assembly := default {| kind := f_kind f; fec := f_fec f; total := f_total f;
                             created := now; chunks := ∅; received := 0 |}
                    (pending !! f_id f) in
  if negb (bool_decide (kind assembly = f_kind f)) || negb (total assembly =? f_total f)
     || negb (bool_decide (fec assembly = f_fec f))
  then (delete (f_id f) pending, Err (InvalidPacket "Conflicting fragment metadata"))
  else
  match chunks assembly !! f_offset f with
  | Some previous =>
      if negb (bool_decide (previous = f_data f))
      then (delete (f_id f) pending, Err (InvalidPacket "Conflicting duplicate fragment"))
      else (<[f_id f := assembly]> pending, Ok None)
  | None =>
      let assembly := {|
        kind := kind assembly; fec := fec assembly; total := total assembly;
        created := created assembly;
        chunks := <[f_offset f := f_data f]> (chunks assembly);
        received := received assembly + len (f_data f) |} in
      if negb (received assembly =? f_total f)
      then (<[f_id f := assembly]> pending, Ok None)
      else
      (delete (f_id f) pending,
       let! payload := collect (chunks assembly) (offsets (f_total f)) in
       Ok (Some {| Reassembled.kind := f_kind f; Reassembled.payload := payload;
                   Reassembled.fec := fec assembly |}))
  end.

Definition fresh_at (now : Z) (ia : Z * Assembly) : Prop :=
  sat_sub now (created (snd ia)) < ASSEMBLY_TTL.

#[export] Instance fresh_at_dec now ia : Decision (fresh_at now ia).
Proof. unfold fresh_at. apply _. Defined.

Definition accept_detailed (r : Reassembler) (data : bytes) (now : Z)
    : Reassembler * outcome (option Reassembled.t) :=
  let swept := filter (fresh_at now) (pending r) in
  match parse_fragment data with
  | Err e => ({| pending := swept |}, Err e)
  | Panic => ({| pending := swept |}, Panic)
  | Ok f =>
      match make_room swept f with
      | Err e => ({| pending := swept |}, Err e)
      | Panic => ({| pending := swept |}, Panic)
      | Ok room =>
          let '(pending', result) := store_fragment room f now in
          ({| pending := pending' |}, result)
      end
  end.

Definition accept (r : Reassembler) (data : bytes) (now : Z)
    : Reassembler * outcome (option (InnerType.t * bytes)) :=
  let '(r', result) := accept_detailed r data now in
  (r', omap (fmap (fun m => (Reassembled.kind m, Reassembled.payload m))) result).
End Reassembler.

Definition discard_fec_group (r : Reassembler) (group_seq : Z) : Reassembler := {|
  pending := filter (fun ia => match fec (snd ia) with
                               | Some m => negb (FecMetadata.group_seq m =? group_seq)
                               | None => true
                               end = true) (pending r) |}.

(** ** Offsets *)

Definition sumZ {A} (f : A -> Z) (l : list A) : Z := fold_right (fun x acc => f x + acc) 0 l.

Lemma sumZ_cons {A} (f : A -> Z) x l : sumZ f (x :: l) = f x + sumZ f l.
Proof. done. Qed.

Lemma sumZ_app {A} (f : A -> Z) l l' : sumZ f (l ++ l') = sumZ f l + sumZ f l'.
Proof. induction l; cbn [app]; rewrite ?sumZ_cons; [done|lia]. Qed.

Lemma sumZ_ext {A} (f g : A -> Z) l : (forall x, x ∈ l -> f x = g x) -> sumZ f l = sumZ g l.
Proof.
  induction l as [|x l IH]; intros H; [done|]. rewrite !sumZ_cons, (H x), IH; [done| |left].
  intros y Hy. apply H. by right.
Qed.

Lemma sumZ_le {A} (f g : A -> Z) l : (forall x, x ∈ l -> f x <= g x) -> sumZ f l <= sumZ g l.
Proof.
  induction l as [|x l IH]; intros H; [done|]. rewrite !sumZ_cons.
  assert (f x <= g x) by (apply H; left). assert (sumZ f l <= sumZ g l); [|lia].
  apply IH. intros y Hy. apply H. by right.
Qed.

(** Two pointwise ordered sums that agree agree pointwise. *)
Lemma sumZ_eq {A} (f g : A -> Z) l :
  (forall x, x ∈ l -> f x <= g x) -> sumZ f l = sumZ g l -> forall x, x ∈ l -> f x = g x.
Proof.
  induction l as [|y l IH]; intros H E x Hx; [by apply elem_of_nil in Hx|].
  rewrite !sumZ_cons in E.
  assert (f y <= g y) by (apply H; left).
  assert (sumZ f l <= sumZ g l) by (apply sumZ_le; intros z Hz; apply H; by right).
  apply elem_of_cons in Hx as [->|Hx]; [lia|]. apply IH; [|lia|done].
  intros z Hz. apply H. by right.
Qed.

Lemma offsets_elem n o : 0 < n -> o ∈ offsets n <-> 0 <= o < n /\ o mod FRAGMENT_DATA_SIZE = 0.
Proof.
  intros Hn. unfold offsets, FRAGMENT_DATA_SIZE. rewrite list_elem_of_fmap. split.
  - intros (i & -> & [_ Hi]%elem_of_seq). split; [|apply Z.mod_mul; lia]. divlia.
  - intros [Ho Hm]. exists (Z.to_nat (o / 900)). split; [divlia|].
    apply elem_of_seq. divlia.
Qed.

Lemma offsets_NoDup n : NoDup (offsets n).
Proof. apply NoDup_fmap_2; [intros i j; unfold FRAGMENT_DATA_SIZE; lia|apply NoDup_seq]. Qed.

(** The length of the chunk that belongs at [o]. *)
Definition chunk_size (total o : Z) : Z := Z.min FRAGMENT_DATA_SIZE (total - o).

Lemma sum_prefix total (n : nat) :
  0 <= total ->
  sumZ (fun i => Z.max 0 (chunk_size total (Z.of_nat i * FRAGMENT_DATA_SIZE))) (seq 0 n)
  = Z.min total (Z.of_nat n * FRAGMENT_DATA_SIZE).
Proof.
  intros Ht. unfold chunk_size, FRAGMENT_DATA_SIZE.
  induction n as [|n IH]; [cbn; lia|]. rewrite seq_S, sumZ_app, IH. cbn. lia.
Qed.

Lemma sumZ_map {A B} (f : B -> Z) (h : A -> B) l : sumZ f (map h l) = sumZ (fun x => f (h x)) l.
Proof. induction l; cbn [map]; rewrite ?sumZ_cons; [done|lia]. Qed.

Lemma sum_offsets total : 0 < total -> sumZ (chunk_size total) (offsets total) = total.
Proof.
  intros Ht. unfold offsets. rewrite sumZ_map.
  rewrite (sumZ_ext _ (fun i => Z.max 0 (chunk_size total (Z.of_nat i * FRAGMENT_DATA_SIZE)))).
  - rewrite sum_prefix by lia. unfold FRAGMENT_DATA_SIZE. divlia.
  - intros i [_ Hi]%elem_of_seq. unfold chunk_size, FRAGMENT_DATA_SIZE in *. divlia.
Qed.

(** ** The invariant *)

Definition kind_limit (kind : InnerType.t) : Z :=
  match kind with
  | InnerType.Data => MAX_PACKET_SIZE
  | InnerType.FecRepair => MAX_PACKET_SIZE + 3
  | _ => MAX_REASSEMBLED_SIZE
  end.

Definition fec_meta_wf (m : FecMetadata.t) : Prop :=
  u16_ok (FecMetadata.group_seq m) /\ 0 < FecMetadata.group_size m < 256 /\
  0 <= FecMetadata.index m < FecMetadata.group_size m.

(** What [parse_fragment] establishes. *)
Record fragment_ok (f : Fragment) : Prop := {
  frag_kind : fragmentable (f_kind f) = true;
  frag_id : u64_ok (f_id f);
  frag_total : 0 < f_total f <= kind_limit (f_kind f);
  frag_offset : f_offset f ∈ offsets (f_total f);
  frag_len : len (f_data f) = chunk_size (f_total f) (f_offset f);
  frag_data : bytes_ok (f_data f);
  frag_fec : forall m, f_fec f = Some m -> f_kind f = InnerType.Data /\ fec_meta_wf m;
}.

Definition chunk_len (cs : gmap Z bytes) (o : Z) : Z :=
  match cs !! o with Some d => len d | None => 0 end.

Record chunks_ok (total : Z) (cs : gmap Z bytes) (received : Z) : Prop := {
  chunk_fits : forall o d, cs !! o = Some d ->
    o ∈ offsets total /\ len d = chunk_size total o /\ bytes_ok d;
  chunk_sum : received = sumZ (chunk_len cs) (offsets total);
}.

Record assembly_ok (a : Assembly) : Prop := {
  asm_total : 0 < total a <= kind_limit (kind a);
  asm_chunks : chunks_ok (total a) (chunks a) (received a);
  asm_partial : received a < total a;
}.

Lemma chunk_size_pos total o : 0 < total -> o ∈ offsets total -> 0 < chunk_size total o.
Proof.
  intros Ht [Ho _]%offsets_elem; [|done]. unfold chunk_size, FRAGMENT_DATA_SIZE. lia.
Qed.

Lemma chunk_len_insert cs o d l :
  NoDup l -> o ∈ l -> cs !! o = None ->
  sumZ (chunk_len (<[o := d]> cs)) l = sumZ (chunk_len cs) l + len d.
Proof.
  intros Hnd Ho Hcs. revert Ho. induction Hnd as [|x l Hx Hnd IH]; intros Ho.
  { by apply elem_of_nil in Ho. }
  rewrite !sumZ_cons. apply elem_of_cons in Ho as [->|Ho].
  - rewrite (sumZ_ext _ (chunk_len cs) l).
    + unfold chunk_len. rewrite lookup_insert_eq, Hcs. lia.
    + intros y Hy. unfold chunk_len. rewrite lookup_insert_ne; [done|]. intros ->. done.
  - rewrite IH by done. unfold chunk_len at 1.
    rewrite lookup_insert_ne by (intros ->; done). unfold chunk_len at 2. lia.
Qed.

Lemma chunks_ok_insert n cs r o d :
  chunks_ok n cs r -> o ∈ offsets n -> len d = chunk_size n o -> bytes_ok d -> cs !! o = None ->
  chunks_ok n (<[o := d]> cs) (r + len d).
Proof.
  intros [Hf Hs] Ho Hd Hok Hcs. constructor.
  - intros o' d' H. destruct (decide (o' = o)) as [->|].
    + rewrite lookup_insert_eq in H. by injection H as <-.
    + rewrite lookup_insert_ne in H by done. eauto.
  - rewrite chunk_len_insert, Hs by (done || apply offsets_NoDup). done.
Qed.

Lemma chunks_ok_le n cs r o : 0 < n -> chunks_ok n cs r -> o ∈ offsets n -> chunk_len cs o <= chunk_size n o.
Proof.
  intros Hn [Hf _] Ho. unfold chunk_len. destruct (cs !! o) as [d|] eqn:E.
  - apply Hf in E as (_ & -> & _). done.
  - pose proof (chunk_size_pos n o Hn Ho). lia.
Qed.

Lemma chunks_ok_bound n cs r : 0 < n -> chunks_ok n cs r -> 0 <= r <= n.
Proof.
  intros Hn H. pose proof H as [_ ->]. rewrite <-(sum_offsets n) at 3 by done. split.
  - transitivity (sumZ (fun _ : Z => 0) (offsets n)).
    + clear. induction (offsets n); [done|]. rewrite sumZ_cons. lia.
    + apply sumZ_le. intros o _. unfold chunk_len. case_match; lia.
  - apply sumZ_le. intros o Ho. by eapply chunks_ok_le.
Qed.

(** When every byte has been received, every chunk is there. *)
Lemma chunks_ok_full n cs o : 0 < n -> chunks_ok n cs n -> o ∈ offsets n -> is_Some (cs !! o).
Proof.
  intros Hn H Ho. pose proof H as [_ Hs].
  assert (chunk_len cs o = chunk_size n o) as E.
  { apply (sumZ_eq (chunk_len cs) (chunk_size n) (offsets n)); [|by rewrite sum_offsets|done].
    intros x Hx. by eapply chunks_ok_le. }
  unfold chunk_len in E. pose proof (chunk_size_pos n o Hn Ho).
  destruct (cs !! o); [eauto|lia].
Qed.

Lemma collect_ok cs os :
  (forall o, o ∈ os -> is_Some (cs !! o)) ->
  exists p, collect cs os = Ok p /\ len p = sumZ (chunk_len cs) os /\
    ((forall o d, cs !! o = Some d -> bytes_ok d) -> bytes_ok p).
Proof.
  induction os as [|o os IH]; intros H; [by exists []|].
  destruct (H o) as [d Hd]; [left|]. destruct IH as (p & Hp & Hl & Hok).
  { intros o' Ho'. apply H. by right. }
  exists (d ++ p). cbn [collect]. rewrite Hd, Hp. cbn [obind]. split; [done|].
  rewrite sumZ_cons, length_app. unfold chunk_len at 1. rewrite Hd. split; [lia|].
  intros Hb. apply Forall_app. eauto.
Qed.

(** ** Parsing is safe *)

Lemma safe_fec_metadata data :
  bytes_ok data -> safe (fec_metadata data) (fun m => forall m', m = Some m' -> fec_meta_wf m').
Proof.
  intros Hok. unfold fec_metadata, FEC_META_SIZE, HEADER_SIZE.
  repeat safe_step; intros ? [=]; subst.
  unfold fec_meta_wf; cbn. unfold byte_ok in *. split_and!; try done; lia.
Qed.

Lemma land_254 d : byte_ok d -> Z.land d 254 = 0 -> d = 0 \/ d = 1.
Proof.
  intros Hd H.
  assert (d = Z.lor (Z.land d 254) (Z.land d 1)) as E.
  { rewrite <-Z.land_lor_distr_r. change (Z.lor 254 1) with (Z.ones 8).
    rewrite Z.land_ones by lia. unfold byte_ok in Hd. rewrite Z.mod_small; lia. }
  rewrite H, Z.lor_0_l in E. pose proof (land_bound 1 d ltac:(lia)). rewrite Z.land_comm in E. lia.
Qed.

Lemma safe_parse_fragment data :
  bytes_ok data -> safe (parse_fragment data) fragment_ok.
Proof.
  intros Hok. unfold parse_fragment, HEADER_SIZE, FEC_META_SIZE.
  repeat safe_step.
  destruct (InnerType.from_u16 _) as [k|] eqn:Ek; [|done].
  destruct (fragmentable k) eqn:Ef; [|done].
  repeat first [safe_step
    | match goal with |- safe (fec_metadata _) _ =>
        eapply safe_mono; [by apply safe_fec_metadata|intros] end].
  all: destruct_and!; constructor; cbn; try done.
  all: try (apply offsets_elem; unfold FRAGMENT_DATA_SIZE; lia).
  all: try (destruct k; simpl in *; autounfold with aivpn_consts; lia).
  intros m [= <-]. split; [|by auto].
  destruct Hb1 as [?|Hk]; [done|by apply bool_decide_eq_true in Hk].
Qed.

Lemma parse_fragment_no_panic data : bytes_ok data -> parse_fragment data <> Panic.
Proof. intros H. by eapply safe_no_panic, safe_parse_fragment. Qed.

(** ** Admission and storage keep the invariant *)

Definition room_ok (p : gmap Z Assembly) : Prop :=
  (count_where is_control p <= MAX_IN_FLIGHT)%nat /\
  (count_where (fun a => negb (is_control a)) p <= MAX_DATA_IN_FLIGHT)%nat.

(** The invariant of the reassembler: every pending message is partial and
    consistent, at most 4 control messages and 8 other messages are pending. *)
Definition reassembler_ok (p : gmap Z Assembly) : Prop :=
  map_Forall (fun _ a => assembly_ok a) p /\ room_ok p.

Lemma room_ok_mono p p' : p ⊆ p' -> room_ok p' -> room_ok p.
Proof.
  intros H [H1 H2]. split; (etransitivity; [by apply count_where_mono|done]).
Qed.

Lemma reassembler_ok_mono p p' : p ⊆ p' -> reassembler_ok p' -> reassembler_ok p.
Proof.
  intros H [H1 H2]. split; [|by eapply room_ok_mono].
  intros i a Hi. apply (H1 i). by eapply lookup_weaken.
Qed.
#[local] Hint Resolve reassembler_ok_mono map_filter_subseteq delete_subseteq : core.

Section Admission.
Context `{!HashIter}.

(** There is a free slot for the message of [f]. *)
Definition has_slot (p : gmap Z Assembly) (f : Fragment) : Prop :=
  if bool_decide (f_kind f = InnerType.Control)
  then (count_where is_control p < MAX_IN_FLIGHT)%nat
  else (count_where (fun a => negb (is_control a)) p < MAX_DATA_IN_FLIGHT)%nat.

Lemma count_eqb (c : bool) (p : gmap Z Assembly) :
  length (filter (fun ia => Bool.eqb (is_control (snd ia)) c = true) (hash_iter p))
  = if c then count_where is_control p else count_where (fun a => negb (is_control a)) p.
Proof.
  set (P := fun a => if c then is_control a else negb (is_control a)).
  transitivity (count_where P p); [|by destruct c].
  rewrite <-(count_where_iter P).
  rewrite (list_filter_iff (fun ia : Z * Assembly => Bool.eqb (is_control (snd ia)) c = true)
    (fun ia : Z * Assembly => P (snd ia) = true)); [done|].
  intros [i a]. unfold P. simpl. by destruct (is_control a), c.
Qed.

Lemma make_room_ok p f :
  reassembler_ok p ->
  safe (make_room p f) (fun room =>
    room ⊆ p /\ room !! f_id f = p !! f_id f /\ (room !! f_id f = None -> has_slot room f)).
Proof.
  intros [Ha [Hc Hd]]. unfold make_room, has_slot. destruct (p !! f_id f) as [a|] eqn:Ef.
  { cbn. by rewrite Ef. }
  rewrite count_eqb. destruct (bool_decide (f_kind f = InnerType.Control)).
  - destruct (Nat.leb_spec MAX_IN_FLIGHT (count_where is_control p)); [done|]. done.
  - cbv zeta. destruct (Nat.leb_spec MAX_DATA_IN_FLIGHT (count_where (fun a => negb (is_control a)) p)) as [Hle|];
      [|done].
    destruct (min_by _ _) as [[i a]|] eqn:Em.
    + apply min_by_elem, list_elem_of_filter in Em as [Hn Hi]. apply elem_of_iter in Hi.
      simpl. split; [apply delete_subseteq|]. rewrite lookup_delete_ne by congruence.
      split; [done|]. intros _.
      rewrite (count_where_delete _ p i a Hi) in Hd. simpl in Hn. rewrite Hn in Hd. lia.
    + apply min_by_None in Em. apply (f_equal length) in Em.
      rewrite (count_where_iter (fun a => negb (is_control a))) in Em.
      unfold MAX_DATA_IN_FLIGHT in *. simpl in Em. lia.
Qed.

Lemma insert_same_class p i a a' :
  reassembler_ok p -> p !! i = Some a -> is_control a = is_control a' -> assembly_ok a' ->
  reassembler_ok (<[i := a']> p).
Proof.
  intros [Ha [Hc Hd]] Hi Hk Hok. split; [by apply map_Forall_insert_2|].
  unfold room_ok. rewrite !(count_where_replace _ p i a a') by (congruence || done). done.
Qed.

Lemma insert_new p f a :
  reassembler_ok p -> p !! f_id f = None -> has_slot p f -> kind a = f_kind f -> assembly_ok a ->
  reassembler_ok (<[f_id f := a]> p).
Proof.
  intros [Ha [Hc Hd]] Hi Hs Hk Hok. split; [by apply map_Forall_insert_2|].
  unfold room_ok. rewrite !count_where_insert by done. unfold has_slot in Hs.
  assert (is_control a = bool_decide (f_kind f = InnerType.Control)) as E
    by (unfold is_control; by rewrite Hk).
  rewrite E. destruct (bool_decide _); simpl; lia.
Qed.

(** What a delivered message satisfies. *)
Definition delivered_ok (f : Fragment) (m : Reassembled.t) : Prop :=
  Reassembled.kind m = f_kind f /\ Reassembled.fec m = f_fec f /\
  len (Reassembled.payload m) = f_total f /\ bytes_ok (Reassembled.payload m).

Definition new_assembly (f : Fragment) (now : Z) : Assembly := {|
  kind := f_kind f; fec := f_fec f; total := f_total f; created := now; chunks := ∅; received := 0 |}.

Lemma chunks_ok_empty n : chunks_ok n ∅ 0.
Proof.
  constructor; [intros o d; by rewrite lookup_empty|].
  induction (offsets n) as [|o l IH]; [done|]. rewrite sumZ_cons, <-IH. unfold chunk_len.
  by rewrite lookup_empty.
Qed.

Lemma store_fragment_ok p f now :
  reassembler_ok p -> fragment_ok f -> (p !! f_id f = None -> has_slot p f) ->
  let '(p', r) := store_fragment p f now in
  reassembler_ok p' /\ safe r (fun m => forall m', m = Some m' -> delivered_ok f m').
Proof.
  intros Hp Hf Hslot. unfold store_fragment. fold (new_assembly f now).
  set (a := default _ _).
  assert (reassembler_ok (delete (f_id f) p)) as Hdel
    by (eapply reassembler_ok_mono; [apply delete_subseteq|done]).
  destruct (_ || _ || _) eqn:Econf; [done|].
  rewrite !orb_false_iff, !negb_false_iff, !bool_decide_eq_true, Z.eqb_eq in Econf.
  destruct Econf as [[Ek Et] Ef].
  assert (chunks_ok (f_total f) (chunks a) (received a) /\ (assembly_ok a \/ chunks a = ∅) /\
          forall a', kind a' = f_kind f -> assembly_ok a' -> reassembler_ok (<[f_id f := a']> p))
    as (Hch & Hold & Hins).
  { unfold a in *. destruct (p !! f_id f) as [a0|] eqn:E; simpl in *.
    - pose proof Hp as [Hall _]. pose proof (Hall _ _ E) as Ha0. rewrite <-Et.
      split; [apply Ha0|]. split; [by left|].
      intros a' Hk Hok. apply (insert_same_class p _ a0); try done.
      unfold is_control. by rewrite Hk, Ek.
    - split; [apply chunks_ok_empty|]. split; [by right|].
      intros a' Hk Hok. apply insert_new; auto. }
  clearbody a. destruct Hf as [Hfk Hid Htot Hoff Hlen Hdata Hfec].
  destruct (chunks a !! f_offset f) as [prev|] eqn:Eprev.
  - destruct (negb _); [done|]. split; [|done]. apply Hins; [done|].
    destruct Hold as [?|Hold]; [done|]. by rewrite Hold, lookup_empty in Eprev.
  - pose proof (chunks_ok_insert _ _ _ _ _ Hch Hoff Hlen Hdata Eprev) as Hch'. cbn [received chunks].
    destruct (Z.eqb_spec (received a + len (f_data f)) (f_total f)) as [E|E]; cbn [negb].
    + split; [done|]. rewrite E in Hch'.
      destruct (collect_ok (<[f_offset f := f_data f]> (chunks a)) (offsets (f_total f)))
        as (pl & -> & Hpl & Hb).
      { intros o Ho. eapply chunks_ok_full; [|done|done]. lia. }
      cbn. intros m' [= <-]. unfold delivered_ok. cbn. rewrite Ef, Hpl.
      split_and!; try done; [by destruct Hch'|]. apply Hb. intros o d Ho. by eapply Hch' in Ho as (_ & _ & ?).
    + split; [|done]. apply Hins; [done|]. assert (0 < f_total f) as Hpos by lia.
      pose proof (chunks_ok_bound _ _ _ Hpos Hch').
      constructor; cbn; rewrite ?Et, ?Ek; [done|done|lia].
Qed.

(** Whatever authenticated fragments arrive, in whatever order and at
    whatever times, the reassembler keeps at most 4 control and 8 other messages,
    each of them consistent and incomplete; it never panics (in particular the
    final collection finds every chunk); and a message it delivers has exactly
    the announced length, within the limit of its kind. *)
Theorem reassembler_invariant r data now :
  reassembler_ok (pending r) -> bytes_ok data ->
  let '(r', result) := accept_detailed r data now in
  reassembler_ok (pending r') /\
  safe result (fun m => forall m', m = Some m' ->
    fragmentable (Reassembled.kind m') = true /\
    0 < len (Reassembled.payload m') <= kind_limit (Reassembled.kind m') /\
    bytes_ok (Reassembled.payload m')).
Proof.
  intros Hr Hok. unfold accept_detailed.
  assert (reassembler_ok (filter (fresh_at now) (pending r))) as Hs
    by (eapply reassembler_ok_mono; [apply map_filter_subseteq|done]).
  pose proof (safe_parse_fragment data Hok) as Hpf.
  destruct (parse_fragment data) as [f|e|]; [|done|done]. simpl in Hpf.
  pose proof (make_room_ok _ f Hs) as Hm.
  destruct (make_room _ f) as [room|e|]; [|done|done]. destruct Hm as (Hsub & _ & Hslot).
  pose proof (store_fragment_ok room f now (reassembler_ok_mono _ _ Hsub Hs) Hpf Hslot) as Hst.
  destruct (store_fragment room f now) as [p' res]. destruct Hst as [Hp' Hres]. split; [done|].
  eapply safe_mono; [exact Hres|]. intros m Hm m' Hm'. destruct (Hm m' Hm') as (-> & _ & -> & Hb).
  destruct Hpf. done.
Qed.
End Admission.

(** ** Reassembly of a split message *)

(** A message that is sent in fragments: the sender's view. *)
Record Message : Type := {
  m_kind : InnerType.t;
  m_id : Z;
  m_fec : option FecMetadata.t;
  m_payload : bytes;
}.

Record message_ok (m : Message) : Prop := {
  msg_kind : fragmentable (m_kind m) = true;
  msg_id : u64_ok (m_id m);
  msg_len : 0 < len (m_payload m) <= kind_limit (m_kind m);
  msg_bytes : bytes_ok (m_payload m);
  msg_fec : forall f, m_fec m = Some f -> m_kind m = InnerType.Data /\ fec_meta_wf f;
}.

(** The fragment at [o], as [split] or [split_fec_data] writes it. *)
Definition message_fragment (m : Message) (o : Z) : bytes :=
  let packet := fragment_bytes (m_kind m) (m_id m) (m_payload m) o in
  match m_fec m with
  | Some meta => add_fec_header meta packet
  | None => packet
  end.

(** The same fragment, as the receiver parses it. *)
Definition parsed_fragment (m : Message) (o : Z) : Fragment := {|
  f_kind := m_kind m; f_id := m_id m; f_fec := m_fec m;
  f_total := len (m_payload m); f_offset := o; f_data := chunk_at (m_payload m) o |}.

Lemma split_message m packets :
  message_ok m ->
  match m_fec m with
  | Some meta => split_fec_data (m_id m) (m_payload m) meta
  | None => split (m_id m) (m_kind m) (m_payload m)
  end = Ok packets ->
  packets = map (message_fragment m) (offsets (len (m_payload m))).
Proof.
  intros [Hk Hid Hl Hb Hf]. unfold message_fragment, split_fec_data, split.
  destruct (m_fec m) as [meta|].
  - destruct (Hf meta eq_refl) as [-> _]. head_if E1; [done|]. head_if E2; [done|].
    match goal with |- obind (if ?b then _ else _) _ = _ -> _ => destruct b end; [done|].
    cbn [obind]. intros <-%Ok_inj. apply map_map.
  - head_if E; [done|]. by intros <-%Ok_inj.
Qed.

Lemma length_chunk_at payload o :
  0 <= o -> len (chunk_at payload o) = Z.max 0 (chunk_size (len payload) o).
Proof.
  intros Ho. unfold chunk_at, chunk_size. rewrite length_take, length_drop.
  unfold FRAGMENT_DATA_SIZE. lia.
Qed.

Lemma concat_chunks payload (n : nat) :
  concat (map (fun i => chunk_at payload (Z.of_nat i * FRAGMENT_DATA_SIZE)) (seq 0 n))
  = take (n * 900) payload.
Proof.
  induction n as [|n IH]; [done|]. rewrite seq_S, map_app, concat_app, IH. cbn [map concat Nat.add].
  rewrite app_nil_r. unfold chunk_at, FRAGMENT_DATA_SIZE.
  replace (S n * 900)%nat with (n * 900 + 900)%nat by lia. rewrite <-take_take_drop.
  do 3 f_equal. lia.
Qed.

Lemma concat_offsets payload :
  0 < len payload -> concat (map (chunk_at payload) (offsets (len payload))) = payload.
Proof.
  intros Hl. unfold offsets. rewrite map_map, concat_chunks. apply take_ge.
  unfold FRAGMENT_DATA_SIZE. divlia.
Qed.

Lemma collect_concat cs (h : Z -> bytes) os :
  (forall o, o ∈ os -> cs !! o = Some (h o)) -> collect cs os = Ok (concat (map h os)).
Proof.
  induction os as [|o os IH]; intros H; [done|]. cbn [collect map concat].
  rewrite (H o) by left. rewrite IH; [done|]. intros o' Ho'. apply H. by right.
Qed.

Lemma add_fec_header_eq meta k hdr body :
  length hdr = 16%nat ->
  add_fec_header meta ([1; k; 0; 0] ++ hdr ++ body)
  = [1; k; 1; 4] ++ hdr ++ be_bytes 2 (FecMetadata.group_seq meta)
    ++ [FecMetadata.group_size meta; FecMetadata.index meta] ++ body.
Proof.
  intros Hh. unfold add_fec_header. cbn [app list_insert insert].
  change (Z.to_nat HEADER_SIZE) with (4 + 16)%nat. cbn [Nat.add take drop].
  rewrite <-Hh, take_app_length, drop_app_length. unfold FEC_META_SIZE. cbn [app]. done.
Qed.

(** The bounds check of a fragment that belongs to a message. *)
Lemma bounds_guard m o :
  message_ok m -> o ∈ offsets (len (m_payload m)) ->
  (len (m_payload m) =? 0)
     || (bool_decide (m_kind m = InnerType.Data) && (MAX_PACKET_SIZE <? len (m_payload m)))
     || (bool_decide (m_kind m = InnerType.FecRepair) && (MAX_PACKET_SIZE + 3 <? len (m_payload m)))
     || (MAX_REASSEMBLED_SIZE <? len (m_payload m))
     || (len (m_payload m) <=? o)
     || negb (o mod FRAGMENT_DATA_SIZE =? 0)
     || negb (len (chunk_at (m_payload m) o) =? Z.min FRAGMENT_DATA_SIZE (len (m_payload m) - o))
  = false.
Proof.
  intros [Hk Hid Hl Hb Hf] Ho. apply offsets_elem in Ho as [Ho Hmod]; [|lia].
  rewrite length_chunk_at by lia. unfold chunk_size. rewrite Hmod.
  destruct (m_kind m); simpl in *; autounfold with aivpn_consts in *; wire_lia.
Qed.

Lemma parse_plain m o :
  message_ok m -> m_fec m = None -> o ∈ offsets (len (m_payload m)) ->
  parse_fragment (fragment_bytes (m_kind m) (m_id m) (m_payload m) o) = Ok (parsed_fragment m o).
Proof.
  intros Hm Hnone Ho. pose proof (bounds_guard m o Hm Ho) as Hbg. pose proof Hm as [Hk Hid Hl Hb Hf].
  pose proof Ho as [Ho' Hmod]%offsets_elem; [|lia].
  pose proof (length_chunk_at (m_payload m) o ltac:(lia)) as Hcl.
  assert (kind_limit (m_kind m) <= 1048576) as Hlim
    by (destruct (m_kind m); simpl; autounfold with aivpn_consts; lia).
  unfold fragment_bytes.
  assert (wrap32 (len (m_payload m)) = len (m_payload m)) as -> by (apply Z.mod_small; lia).
  assert (wrap32 o = o) as -> by (apply Z.mod_small; lia). cbn [app].
  match goal with |- parse_fragment ?d = _ => remember d as data eqn:Hd end.
  assert (len data = 20 + len (chunk_at (m_payload m) o)) as Hdl by (rewrite Hd; lenlia).
  unfold chunk_size, FRAGMENT_DATA_SIZE in Hcl.
  unfold parse_fragment, HEADER_SIZE, FEC_META_SIZE.
  dec_guard. do 2 read_field Hd. change (Z.land 0 254) with 0. dec_guard. read_field Hd.
  rewrite InnerType.inner_type_from_as, Hk.
  cbn [obind]. change (0 =? 1) with false. cbn [andb]. read_field Hd. dec_guard. read_field Hd.
  cbn [obind]. do 2 read_field Hd.
  assert (slice_from data (20 + 0) = Ok (chunk_at (m_payload m) o)) as ->
    by (unfold slice_from; rewrite Hd; by repeat read_step).
  cbn [obind]. rewrite Hbg. unfold parsed_fragment. by rewrite Hnone.
Qed.

Lemma parse_with_fec m o meta :
  message_ok m -> m_fec m = Some meta -> o ∈ offsets (len (m_payload m)) ->
  parse_fragment (add_fec_header meta (fragment_bytes (m_kind m) (m_id m) (m_payload m) o))
  = Ok (parsed_fragment m o).
Proof.
  intros Hm Hsome Ho. pose proof (bounds_guard m o Hm Ho) as Hbg. pose proof Hm as [Hk Hid Hl Hb Hf].
  destruct (Hf _ Hsome) as [Ekind (Hgs & Hgz & Hgi)].
  pose proof Ho as [Ho' Hmod]%offsets_elem; [|lia].
  pose proof (length_chunk_at (m_payload m) o ltac:(lia)) as Hcl.
  rewrite Ekind in *. simpl in Hl. unfold MAX_PACKET_SIZE in Hl.
  unfold fragment_bytes.
  assert (wrap32 (len (m_payload m)) = len (m_payload m)) as -> by (apply Z.mod_small; lia).
  assert (wrap32 o = o) as -> by (apply Z.mod_small; lia).
  pose proof (add_fec_header_eq meta (InnerType.as_u16 InnerType.Data)
    (be_bytes 8 (m_id m) ++ be_bytes 4 (len (m_payload m)) ++ be_bytes 4 o)
    (chunk_at (m_payload m) o) ltac:(lenlia)) as E.
  rewrite <-!app_assoc in E. rewrite E. clear E. cbn [app].
  match goal with |- parse_fragment ?d = _ => remember d as data eqn:Hd end.
  assert (len data = 24 + len (chunk_at (m_payload m) o)) as Hdl by (rewrite Hd; lenlia).
  unfold chunk_size, FRAGMENT_DATA_SIZE in Hcl.
  assert (fec_metadata data = Ok (Some meta)) as Hfm.
  { unfold fec_metadata, HEADER_SIZE, FEC_META_SIZE. dec_guard. do 4 read_field Hd.
    cbn [InnerType.as_u16]. dec_guard. do 2 read_field Hd. dec_guard. read_field Hd.
    by destruct meta. }
  unfold parse_fragment, HEADER_SIZE, FEC_META_SIZE.
  dec_guard. do 2 read_field Hd. change (Z.land 1 254) with 0. dec_guard. read_field Hd.
  rewrite InnerType.inner_type_from_as, Hk. cbn [obind]. change (1 =? 1) with true. cbv zeta iota.
  rewrite bool_decide_eq_true_2 in Hbg |- * by done. cbn [andb negb]. cbn [andb] in Hbg.
  read_field Hd. dec_guard. read_field Hd. rewrite Hfm. cbn [obind ok_or omap]. do 2 read_field Hd.
  assert (slice_from data (20 + 4) = Ok (chunk_at (m_payload m) o)) as ->
    by (unfold slice_from; rewrite Hd; by repeat read_step).
  cbn [obind]. rewrite Hbg. unfold parsed_fragment. by rewrite Hsome, Ekind.
Qed.

Lemma parse_message_fragment m o :
  message_ok m -> o ∈ offsets (len (m_payload m)) ->
  parse_fragment (message_fragment m o) = Ok (parsed_fragment m o).
Proof.
  intros Hm Ho. unfold message_fragment. destruct (m_fec m) as [meta|] eqn:E;
    [by apply parse_with_fec|by apply parse_plain].
Qed.

(** The assembly of a message of which the chunks at [dn] have arrived. *)
Record holds (m : Message) (dn : list Z) (t0 : Z) (a : Assembly) : Prop := {
  h_kind : kind a = m_kind m;
  h_fec : fec a = m_fec m;
  h_total : total a = len (m_payload m);
  h_created : created a = t0;
  h_chunks : forall o, chunks a !! o
    = if decide (o ∈ dn) then Some (chunk_at (m_payload m) o) else None;
  h_received : received a = sumZ (chunk_size (len (m_payload m))) dn;
}.

Lemma assembly_holds_new m o now : holds m [] now (new_assembly (parsed_fragment m o) now).
Proof. by constructor. Qed.

Lemma sumZ_perm {A} (f : A -> Z) l l' : l ≡ₚ l' -> sumZ f l = sumZ f l'.
Proof. induction 1; rewrite ?sumZ_cons; lia. Qed.

Lemma sum_chunks_pos n l :
  0 < n -> (forall x, x ∈ l -> x ∈ offsets n) -> l <> [] -> 0 < sumZ (chunk_size n) l.
Proof.
  intros Hn. induction l as [|x l IH]; intros Hin Hl; [done|]. rewrite sumZ_cons.
  assert (0 < chunk_size n x) by (apply chunk_size_pos, Hin; [done|left]).
  destruct l as [|y l]; [cbn; lia|].
  assert (0 < sumZ (chunk_size n) (y :: l)); [|lia].
  apply IH; [|done]. intros z Hz. apply Hin. by right.
Qed.

Section Stepwise.
Context `{!HashIter}.

Lemma store_step p m dn o rest t0 now a :
  message_ok m -> default (new_assembly (parsed_fragment m o) now) (p !! m_id m) = a ->
  holds m dn t0 a -> dn ++ o :: rest ≡ₚ offsets (len (m_payload m)) ->
  match rest with
  | [] => store_fragment p (parsed_fragment m o) now
          = (delete (m_id m) p,
             Ok (Some {| Reassembled.kind := m_kind m; Reassembled.payload := m_payload m;
                         Reassembled.fec := m_fec m |}))
  | _ => exists a', holds m (dn ++ [o]) t0 a' /\
         store_fragment p (parsed_fragment m o) now = (<[m_id m := a']> p, Ok None)
  end.
Proof.
  intros [Hk Hid Hl Hb Hf] Hdef [H1 H2 H3 H4 H5 H6] Hperm.
  pose proof (offsets_NoDup (len (m_payload m))) as Hnd. rewrite <-Hperm in Hnd.
  assert (forall x, x ∈ dn ++ o :: rest -> x ∈ offsets (len (m_payload m))) as Hin
    by (intros x; by rewrite Hperm).
  apply NoDup_app in Hnd as (Hnd1 & Hnd2 & Hnd3). apply NoDup_cons in Hnd3 as [Hnd3 _].
  assert (o ∉ dn) as Hodn by (intros Hdn; apply (Hnd2 o Hdn); left).
  assert (o ∈ offsets (len (m_payload m))) as Ho by (apply Hin, elem_of_app; right; left).
  assert (len (chunk_at (m_payload m) o) = chunk_size (len (m_payload m)) o) as Hcl.
  { pose proof (chunk_size_pos _ _ (proj1 Hl) Ho). apply offsets_elem in Ho as [? _]; [|lia].
    rewrite length_chunk_at by lia. lia. }
  unfold store_fragment. fold (new_assembly (parsed_fragment m o) now).
  cbn [f_kind f_fec f_total f_id f_offset f_data parsed_fragment]. rewrite Hdef.
  rewrite (bool_decide_eq_true_2 (kind a = m_kind m)) by done.
  rewrite (bool_decide_eq_true_2 (fec a = m_fec m)) by done.
  rewrite H3, Z.eqb_refl. cbn [negb orb]. rewrite H5, decide_False by done.
  cbn [received chunks]. rewrite H6, Hcl.
  pose proof (sum_offsets (len (m_payload m)) (proj1 Hl)) as Hsum.
  rewrite <-(sumZ_perm _ _ _ Hperm), sumZ_app, sumZ_cons in Hsum.
  assert (forall x, (<[o := chunk_at (m_payload m) o]> (chunks a)) !! x
    = if decide (x ∈ dn ++ [o]) then Some (chunk_at (m_payload m) x) else None) as Hins.
  { intros x. destruct (decide (x = o)) as [->|Hx].
    - rewrite lookup_insert_eq, decide_True; [done|]. apply elem_of_app. right. left.
    - rewrite lookup_insert_ne, H5 by done.
      assert (x ∈ dn <-> x ∈ dn ++ [o]) as Hiff
        by (rewrite elem_of_app, list_elem_of_singleton; tauto).
      by rewrite (decide_ext _ _ _ _ Hiff). }
  destruct rest as [|r rest].
  - change (sumZ _ []) with 0 in Hsum. destruct (Z.eqb_spec (sumZ (chunk_size (len (m_payload m))) dn
      + chunk_size (len (m_payload m)) o) (len (m_payload m))); [|lia]. cbn [negb].
    rewrite (collect_concat _ (chunk_at (m_payload m))).
    + cbn [obind]. rewrite concat_offsets by lia. by rewrite H2.
    + intros x Hx. rewrite Hins, decide_True; [done|]. by rewrite Hperm.
  - assert (0 < sumZ (chunk_size (len (m_payload m))) (r :: rest)) as Hpos.
    { apply sum_chunks_pos; [lia| |done]. intros x Hx. apply Hin, elem_of_app. right. by right. }
    match goal with |- context [if negb ?b then _ else _] => replace b with false by lia end.
    cbn [negb]. eexists. split; [|reflexivity].
    constructor; cbn; try done. rewrite sumZ_app, sumZ_cons. cbn. lia.
Qed.
(** Hand a sequence of datagrams, each with its arrival time, to the reassembler. *)
Fixpoint accept_all (r : Reassembler) (events : list (bytes * Z))
    : Reassembler * list (outcome (option Reassembled.t)) :=
  match events with
  | [] => (r, [])
  | (data, now) :: events =>
      let '(r, result) := accept_detailed r data now in
      let '(r, results) := accept_all r events in
      (r, result :: results)
  end.

Definition arrivals (m : Message) (evs : list (Z * Z)) : list (bytes * Z) :=
  map (fun e => (message_fragment m (fst e), snd e)) evs.

(** [n] times nothing, then the message. *)
Definition delivered_last (m : Message) (n : nat) : list (outcome (option Reassembled.t)) :=
  replicate n (Ok None) ++
  [Ok (Some {| Reassembled.kind := m_kind m; Reassembled.payload := m_payload m;
               Reassembled.fec := m_fec m |})].

Lemma accept_pending r m o now t0 dn a rest :
  message_ok m -> pending r !! m_id m = Some a -> holds m dn t0 a ->
  dn ++ o :: rest ≡ₚ offsets (len (m_payload m)) -> now < t0 + ASSEMBLY_TTL ->
  let '(r', res) := accept_detailed r (message_fragment m o) now in
  match rest with
  | [] => res = Ok (Some {| Reassembled.kind := m_kind m; Reassembled.payload := m_payload m;
                            Reassembled.fec := m_fec m |})
  | _ => res = Ok None /\ exists a', pending r' !! m_id m = Some a' /\ holds m (dn ++ [o]) t0 a'
  end.
Proof.
  intros Hm Hp Hh Hperm Hnow.
  assert (o ∈ offsets (len (m_payload m))) as Ho
    by (rewrite <-Hperm; apply elem_of_app; right; left).
  unfold accept_detailed. rewrite parse_message_fragment by done.
  assert (filter (fresh_at now) (pending r) !! m_id m = Some a) as Hs.
  { apply map_lookup_filter_Some_2; [done|]. unfold fresh_at. cbn. destruct Hh as [_ _ _ -> _ _].
    unfold sat_sub, ASSEMBLY_TTL in *. lia. }
  unfold make_room. cbn [f_id parsed_fragment]. rewrite Hs.
  pose proof (store_step (filter (fresh_at now) (pending r)) m dn o rest t0 now a Hm) as Hst.
  rewrite Hs in Hst. specialize (Hst eq_refl Hh Hperm). destruct rest as [|x rest].
  - by rewrite Hst.
  - destruct Hst as (a' & Ha' & ->). split; [done|]. exists a'. cbn. by rewrite lookup_insert_eq.
Qed.

Lemma accept_first r m o now rest :
  message_ok m -> reassembler_ok (pending r) -> pending r !! m_id m = None ->
  (m_kind m = InnerType.Control -> (count_where is_control (pending r) < MAX_IN_FLIGHT)%nat) ->
  o :: rest ≡ₚ offsets (len (m_payload m)) ->
  let '(r', res) := accept_detailed r (message_fragment m o) now in
  match rest with
  | [] => res = Ok (Some {| Reassembled.kind := m_kind m; Reassembled.payload := m_payload m;
                            Reassembled.fec := m_fec m |})
  | _ => res = Ok None /\ exists a', pending r' !! m_id m = Some a' /\ holds m [o] now a'
  end.
Proof.
  intros Hm Hr Hp Hroom Hperm.
  assert (o ∈ offsets (len (m_payload m))) as Ho by (rewrite <-Hperm; left).
  unfold accept_detailed. rewrite parse_message_fragment by done.
  set (swept := filter _ _).
  assert (swept ⊆ pending r) as Hsub by apply map_filter_subseteq.
  assert (swept !! m_id m = None) as Hs by by eapply lookup_weaken_None.
  pose proof (make_room_ok swept (parsed_fragment m o) (reassembler_ok_mono _ _ Hsub Hr)) as Hmr.
  destruct (make_room swept (parsed_fragment m o)) as [room|e|] eqn:Emr.
  - destruct Hmr as (_ & Hroomid & _). cbn [f_id parsed_fragment] in Hroomid. rewrite Hs in Hroomid.
    pose proof (store_step room m [] o rest now now _ Hm eq_refl) as Hst.
    rewrite Hroomid in Hst. specialize (Hst (assembly_holds_new m o now) Hperm).
    destruct rest as [|x rest].
    + by rewrite Hst.
    + destruct Hst as (a' & Ha' & ->). split; [done|]. exists a'. cbn. by rewrite lookup_insert_eq.
  - exfalso. unfold make_room in Emr. cbn [f_id f_kind parsed_fragment] in Emr.
    rewrite Hs, count_eqb in Emr. destruct (decide (m_kind m = InnerType.Control)) as [Ec|Ec].
    + rewrite bool_decide_eq_true_2 in Emr by done. specialize (Hroom Ec).
      pose proof (count_where_mono is_control _ _ Hsub).
      destruct (Nat.leb_spec MAX_IN_FLIGHT (count_where is_control swept)); [lia|done].
    + rewrite bool_decide_eq_false_2 in Emr by done. repeat case_match; done.
  - done.
Qed.

Lemma accept_rest r m dn evs t0 a :
  message_ok m -> pending r !! m_id m = Some a -> holds m dn t0 a -> evs <> [] ->
  dn ++ evs.*1 ≡ₚ offsets (len (m_payload m)) ->
  Forall (fun e => snd e < t0 + ASSEMBLY_TTL) evs ->
  snd (accept_all r (arrivals m evs)) = delivered_last m (pred (length evs)).
Proof.
  intros Hm. revert r dn a. induction evs as [|[o now] evs IH]; intros r dn a Hp Hh Hne Hperm Ht;
    [done|]. apply Forall_cons in Ht as [Hnow Ht]. cbn in Hnow, Hperm.
  cbn [arrivals map accept_all fst snd].
  pose proof (accept_pending r m o now t0 dn a (evs.*1) Hm Hp Hh Hperm Hnow) as Hstep.
  destruct (accept_detailed r (message_fragment m o) now) as [r' res].
  destruct evs as [|e evs].
  - cbn in *. by rewrite Hstep.
  - cbn [fmap list_fmap] in Hstep. destruct Hstep as (-> & a' & Hp' & Hh').
    specialize (IH r' (dn ++ [o]) a' Hp' Hh' ltac:(done)). rewrite <-app_assoc in IH.
    specialize (IH Hperm Ht). fold (arrivals m (e :: evs)).
    destruct (accept_all r' (arrivals m (e :: evs))) as [r2 rs]. cbn in IH. by rewrite IH.
Qed.

(** The fragments of a message may arrive in any order: after the last of
    them, and not before, the reassembler delivers exactly the payload, kind and
    FEC position that were split, provided they arrive within the assembly
    window of 10 seconds and, for a control message, fewer than 4 control
    messages were pending. Other messages may be pending all along. *)
Theorem reassembly_any_order r m evs t0 :
  message_ok m -> reassembler_ok (pending r) -> pending r !! m_id m = None ->
  (m_kind m = InnerType.Control -> (count_where is_control (pending r) < MAX_IN_FLIGHT)%nat) ->
  evs.*1 ≡ₚ offsets (len (m_payload m)) ->
  Forall (fun e => t0 <= snd e < t0 + ASSEMBLY_TTL) evs ->
  snd (accept_all r (arrivals m evs)) = delivered_last m (pred (length evs)).
Proof.
  intros Hm Hr Hp Hroom Hperm Ht. destruct evs as [|[o now] evs].
  { pose proof Hm as [_ _ Hl _ _]. exfalso. apply Permutation_nil_l in Hperm.
    pose proof (sum_offsets _ (proj1 Hl)) as Hsum. rewrite <-Hperm in Hsum. cbn in Hsum. lia. }
  cbn in Hperm. cbn [arrivals map accept_all fst snd].
  pose proof (accept_first r m o now (evs.*1) Hm Hr Hp Hroom Hperm) as Hstep.
  apply Forall_cons in Ht as [Hnow Ht]. cbn in Hnow.
  destruct (accept_detailed r (message_fragment m o) now) as [r' res].
  destruct evs as [|e evs].
  - cbn in *. by rewrite Hstep.
  - cbn [fmap list_fmap] in Hstep. destruct Hstep as (-> & a' & Hp' & Hh').
    pose proof (accept_rest r' m [o] (e :: evs) now a' Hm Hp' Hh' ltac:(done) Hperm) as IH.
    fold (arrivals m (e :: evs)) in *.
    destruct (accept_all r' (arrivals m (e :: evs))) as [r2 rs]. cbn in IH. cbn. rewrite IH; [done|].
    eapply Forall_impl; [exact Ht|]. cbn. lia.
Qed.
End Stepwise.

(** ** Isolation between messages *)

Section Isolation.
Context `{!HashIter}.

Lemma store_fragment_other p f now i :
  i <> f_id f -> fst (store_fragment p f now) !! i = p !! i.
Proof.
  intros Hi. unfold store_fragment. destruct (_ || _ || _); cbn [fst].
  { by rewrite lookup_delete_ne. }
  destruct (chunks _ !! f_offset f); destruct (negb _); cbn [fst];
    rewrite ?lookup_delete_ne, ?lookup_insert_ne by done; done.
Qed.

Lemma make_room_control p f room i a :
  make_room p f = Ok room -> p !! i = Some a -> is_control a = true -> room !! i = Some a.
Proof.
  unfold make_room. destruct (p !! f_id f); [by intros [= <-]|].
  head_if E; [|by intros [= <-]]. head_if Ec; [done|]. cbv zeta.
  destruct (min_by _ _) as [[j b]|] eqn:Em; [|by intros [= <-]].
  intros [= <-] Hi Hc. apply min_by_elem, list_elem_of_filter in Em as [Hn Hj].
  apply elem_of_iter in Hj. cbn in Hn. rewrite lookup_delete_ne; [done|]. intros ->.
  rewrite Hi in Hj. injection Hj as ->. by rewrite Hc in Hn.
Qed.

(** A control message in progress is not disturbed by other traffic: a
    datagram that is not a fragment of the same message, whatever it contains,
    leaves the assembly as it is, as long as the assembly window is open. Data
    fragments in particular cannot evict it. *)
Theorem control_isolation r data now id a :
  pending r !! id = Some a -> is_control a = true -> now < created a + ASSEMBLY_TTL ->
  (forall f, parse_fragment data = Ok f -> f_id f <> id) ->
  pending (fst (accept_detailed r data now)) !! id = Some a.
Proof.
  intros Hp Hc Hnow Hother. unfold accept_detailed.
  assert (filter (fresh_at now) (pending r) !! id = Some a) as Hs.
  { apply map_lookup_filter_Some_2; [done|]. unfold fresh_at. cbn.
    unfold sat_sub, ASSEMBLY_TTL in *. lia. }
  destruct (parse_fragment data) as [f|e|]; [|done|done].
  destruct (make_room _ f) as [room|e|] eqn:Em; [|done|done].
  pose proof (make_room_control _ _ _ _ _ Em Hs Hc) as Hr.
  pose proof (store_fragment_other room f now id) as Ho.
  destruct (store_fragment room f now) as [p' res]. cbn in *. rewrite Ho; [done|].
  intros E. by eapply Hother.
Qed.
End Isolation.

(** Giving up an FEC group drops exactly the pending data messages of that
    group and nothing else, and keeps the reassembler consistent. *)
Theorem discard_fec_group_exact r g :
  (forall i a, pending (discard_fec_group r g) !! i = Some a <->
     pending r !! i = Some a /\ forall m, fec a = Some m -> FecMetadata.group_seq m <> g) /\
  (reassembler_ok (pending r) -> reassembler_ok (pending (discard_fec_group r g))).
Proof.
  split.
  - intros i a. cbn. rewrite map_lookup_filter_Some. cbn. apply and_iff_compat_l.
    destruct (fec a) as [m|]; [|by split]. rewrite negb_true_iff, Z.eqb_neq. split; [|auto].
    by intros H ? [= <-].
  - intros H. cbn. eapply reassembler_ok_mono; [apply map_filter_subseteq|done].
Qed.

(** ** Witnesses *)

Definition sample_message : Message := {|
  m_kind := InnerType.Control;
  m_id := 77;
  m_fec := None;
  m_payload := replicate 1000 5;
|}.

Definition empty_reassembler : Reassembler := {| pending := ∅ |}.

Lemma empty_reassembler_ok : reassembler_ok (pending empty_reassembler).
Proof. split; [apply map_Forall_empty|]. split; vm_compute; lia. Qed.

Lemma sample_message_ok : message_ok sample_message.
Proof.
  constructor; [done|by vm_compute|by vm_compute| |done].
  apply Forall_replicate. unfold byte_ok. lia.
Qed.

Lemma reassembler_invariant_witness :
  let '(r', result) :=
    accept_detailed (H := ordered_iter) empty_reassembler (message_fragment sample_message 0) 3 in
  reassembler_ok (pending r') /\
  safe result (fun m => forall m', m = Some m' ->
    fragmentable (Reassembled.kind m') = true /\
    0 < len (Reassembled.payload m') <= kind_limit (Reassembled.kind m') /\
    bytes_ok (Reassembled.payload m')).
Proof.
  apply (reassembler_invariant (H := ordered_iter));
    [apply empty_reassembler_ok|apply bytes_ok_check; vm_compute; reflexivity].
Defined.

Lemma reassembly_any_order_witness :
  snd (accept_all (H := ordered_iter) empty_reassembler
         (arrivals sample_message [(900, 1); (0, 2)]))
  = delivered_last sample_message 1.
Proof.
  apply (reassembly_any_order (H := ordered_iter) empty_reassembler sample_message
           [(900, 1); (0, 2)] 0).
  - apply sample_message_ok.
  - apply empty_reassembler_ok.
  - reflexivity.
  - intros _. vm_compute. lia.
  - apply Permutation_swap.
  - repeat constructor; vm_compute; done.
Defined.

Definition sample_assembly : Assembly := {|
  kind := InnerType.Control; fec := None; total := 1000; created := 5; chunks := ∅; received := 0 |}.

Lemma control_isolation_witness :
  pending (fst (accept_detailed (H := ordered_iter) {| pending := {[ 9 := sample_assembly ]} |}
                  (message_fragment sample_message 0) 6)) !! 9 = Some sample_assembly.
Proof.
  apply (control_isolation (H := ordered_iter)); [reflexivity|reflexivity|by vm_compute|].
  intros f. rewrite (parse_message_fragment sample_message 0);
    [by intros [= <-]|apply sample_message_ok|by vm_compute; left].
Defined.
