(* ===== verification/FecReceiver.v ===== *)
(** * Forward error correction: the receiver

    Models [FecReceiver] of [crates/aivpn-common/src/fec.rs]. The receiver keeps
    up to 8 unfinished groups (an XOR buffer, a bitmap of the indices seen and at
    most one repair each), the last 512 completed group positions, and the last
    512 groups that expired or were evicted unfinished.

    Each method is a state transformer [method FecReceiver A]. The clock
    ([self.now()]) is the argument [now] in nanoseconds; the iteration order of
    the hash maps is the interface [HashIter]. *)

From S2P Require Import Prelude Collections Bitmap Protocol Fec.
Local Open Scope Z_scope.

Definition MAX_PENDING_GROUPS : nat := 8.
Definition COMPLETED_GROUPS : nat := 512.
Definition RETIRED_GROUPS : nat := 512.
Definition PENDING_TTL : Z := 10 * 1000000000.

#[export] Hint Unfold PENDING_TTL : aivpn_consts.

Record FecRxResult : Type := {
  accepted : bool;
  recovered : option bytes;
  complete : bool;
}.

Record StoredRepair : Type := { r_data : bytes; r_len : Z }.

Record PendingGroup : Type := {
  g_size : Z;
  g_xor_buf : bytes;
  g_xor_len : Z;
  g_seen : list Z;
  g_count : Z;
  g_repair : option StoredRepair;
  g_created : Z;
  g_ticket : Z;
}.

Record RetiredGroup : Type := { t_size : Z; t_seen : list Z }.

Record FecReceiver : Type := {
  pending : gmap Z PendingGroup;
  completed : list Z;
  completed_set : gset Z;
  retired : gmap Z RetiredGroup;
  retired_order : list Z;
  highest_group : option Z;
  next_ticket : Z;
}.

Definition default_receiver : FecReceiver := {|
  pending := ∅; completed := []; completed_set := ∅; retired := ∅; retired_order := [];
  highest_group := None; next_ticket := 0 |}.

(** Functional update of one field. *)
Definition set_pending (f : gmap Z PendingGroup -> gmap Z PendingGroup) (r : FecReceiver) : FecReceiver :=
  {| pending := f (pending r); completed := completed r; completed_set := completed_set r;
     retired := retired r; retired_order := retired_order r; highest_group := highest_group r;
     next_ticket := next_ticket r |}.
Definition set_completed (l : list Z) (s : gset Z) (r : FecReceiver) : FecReceiver :=
  {| pending := pending r; completed := l; completed_set := s;
     retired := retired r; retired_order := retired_order r; highest_group := highest_group r;
     next_ticket := next_ticket r |}.
Definition set_retired (m : gmap Z RetiredGroup) (l : list Z) (r : FecReceiver) : FecReceiver :=
  {| pending := pending r; completed := completed r; completed_set := completed_set r;
     retired := m; retired_order := l; highest_group := highest_group r;
     next_ticket := next_ticket r |}.
Definition set_highest (h : option Z) (r : FecReceiver) : FecReceiver :=
  {| pending := pending r; completed := completed r; completed_set := completed_set r;
     retired := retired r; retired_order := retired_order r; highest_group := h;
     next_ticket := next_ticket r |}.
Definition set_next_ticket (t : Z) (r : FecReceiver) : FecReceiver :=
  {| pending := pending r; completed := completed r; completed_set := completed_set r;
     retired := retired r; retired_order := retired_order r; highest_group := highest_group r;
     next_ticket := t |}.

Definition ignored : FecRxResult := {| accepted := false; recovered := None; complete := false |}.

Definition validate_member (meta : FecMetadata.t) (n : Z) : outcome unit :=
  if (FecMetadata.group_size meta =? 0) || (FecMetadata.group_size meta <=? FecMetadata.index meta)
  then Err (InvalidPacket "Invalid FEC metadata")
  else if (n =? 0) || (MAX_PACKET_SIZE <? n)
  then Err (InvalidPacket "FEC data exceeds packet budget")
  else Ok tt.

(** ** The bitmap of seen indices, [[u64; 4]] *)

Definition bitmap_seen (seen : list Z) (index : Z) : bool :=
  negb (Z.land (default 0 (seen !! Z.to_nat (index / 64))) (Z.shiftl 1 (index mod 64)) =? 0).

Definition bitmap_mark (seen : list Z) (index : Z) : list Z :=
  let i := Z.to_nat (index / 64) in
  <[i := Z.lor (default 0 (seen !! i)) (Z.shiftl 1 (index mod 64))]> seen.

Definition bitmap_or (dst src : list Z) : list Z := zip_with Z.lor dst src.

(** ** Groups *)

Definition absorb (g : PendingGroup) (payload : bytes) : PendingGroup := {|
  g_size := g_size g; g_xor_buf := xor_into (g_xor_buf g) payload;
  g_xor_len := Z.max (g_xor_len g) (len payload); g_seen := g_seen g; g_count := g_count g;
  g_repair := g_repair g; g_created := g_created g; g_ticket := g_ticket g |}.

(** [group.mark(index); group.count = group.count.saturating_add(1)] *)
Definition mark_and_count (g : PendingGroup) (index : Z) : PendingGroup := {|
  g_size := g_size g; g_xor_buf := g_xor_buf g; g_xor_len := g_xor_len g;
  g_seen := bitmap_mark (g_seen g) index; g_count := Z.min 255 (g_count g + 1);
  g_repair := g_repair g; g_created := g_created g; g_ticket := g_ticket g |}.

Definition store_repair (g : PendingGroup) (xor_data : bytes) : PendingGroup := {|
  g_size := g_size g; g_xor_buf := g_xor_buf g; g_xor_len := g_xor_len g; g_seen := g_seen g;
  g_count := g_count g;
  g_repair := Some {| r_data := xor_data ++ zeros (Z.to_nat MAX_PACKET_SIZE - length xor_data);
                      r_len := len xor_data |};
  g_created := g_created g; g_ticket := g_ticket g |}.

Definition missing_packet (g : PendingGroup) : option bytes :=
  match g_repair g with
  | None => None
  | Some repair =>
      let n := Z.max (r_len repair) (g_xor_len g) in
      Some (map (fun i => Z.lxor (byte_at (r_data repair) i) (byte_at (g_xor_buf g) i))
              (seq 0 (Z.to_nat n)))
  end.

(** ** The receiver *)

(** The epoch of a 16-bit group number: the 64-bit position closest to the
    highest one seen. *)
Definition position (r : FecReceiver) (seq : Z) : Z :=
  match highest_group r with
  | None => 65536 + seq
  | Some highest =>
      let distance := wrap16 (seq - wrap16 highest) in
      if distance <? 0x8000 then sat_add64 highest distance
      else sat_sub highest (wrap16 (0 - distance))
  end.

Definition advance (seq : Z) : method FecReceiver Z :=
  do! r := mget in
  let p := position r seq in
  do! _ := mmod (set_highest (Some (Z.max (default p (highest_group r)) p))) in
  mret p.

Fixpoint trim_retired (fuel : nat) (r : FecReceiver) : FecReceiver :=
  match fuel with
  | O => r
  | S fuel =>
      if (RETIRED_GROUPS <? length (retired_order r))%nat then
        match retired_order r with
        | old :: order => trim_retired fuel (set_retired (delete old (retired r)) order r)
        | [] => r
        end
      else r
  end.

Definition remember_incomplete (seq size : Z) (seen : list Z) (r : FecReceiver) : FecReceiver :=
  match retired r !! seq with
  | Some existing =>
      if t_size existing =? size
      then set_retired (<[seq := {| t_size := size; t_seen := bitmap_or (t_seen existing) seen |}]>
                          (retired r)) (retired_order r) r
      else r
  | None =>
      let order := retired_order r ++ [seq] in
      trim_retired (length order)
        (set_retired (<[seq := {| t_size := size; t_seen := seen |}]> (retired r)) order r)
  end.

Definition retire (seq : Z) (r : FecReceiver) : FecReceiver :=
  match pending r !! seq with
  | None => r
  | Some group =>
      remember_incomplete seq (g_size group) (g_seen group) (set_pending (delete seq) r)
  end.

Definition complete_group (seq : Z) (r : FecReceiver) : FecReceiver :=
  let r := set_pending (delete seq) r in
  if bool_decide (seq ∈ completed_set r) then r
  else
  let r := set_completed (completed r ++ [seq]) ({[seq]} ∪ completed_set r) r in
  if (COMPLETED_GROUPS <? length (completed r))%nat then
    match completed r with
    | old :: rest => set_completed rest (completed_set r ∖ {[old]}) r
    | [] => r
    end
  else r.

Definition finish (seq : Z) (acc : bool) : method FecReceiver FecRxResult :=
  do! r := mget in
  match pending r !! seq with
  | None => mret ignored
  | Some group =>
      let repair_ready := (1 <=? g_size group) && (g_count group =? g_size group - 1)
                          && bool_decide (is_Some (g_repair group)) in
      if g_count group =? g_size group then
        do! _ := mmod (complete_group seq) in
        mret {| accepted := acc; recovered := None; complete := true |}
      else if repair_ready then
        do! _ := mmod (complete_group seq) in
        mret {| accepted := acc; recovered := missing_packet group; complete := true |}
      else mret {| accepted := acc; recovered := None; complete := false |}
  end.

(** A late packet of an expired group: forwarded once, never recovered. *)
Definition accept_retired (pos size index : Z) : method FecReceiver (option FecRxResult) :=
  do! r := mget in
  match retired r !! pos with
  | None => mret None
  | Some group =>
      if negb (t_size group =? size) then mfail (InvalidPacket "Conflicting FEC group size")
      else if bitmap_seen (t_seen group) index then mret (Some ignored)
      else
      do! _ := mmod (set_retired
        (<[pos := {| t_size := t_size group; t_seen := bitmap_mark (t_seen group) index |}]>
           (retired r)) (retired_order r)) in
      mret (Some {| accepted := true; recovered := None; complete := false |})
  end.

Section Receiver.
Context {HI : HashIter}.

Definition sweep (now : Z) (r : FecReceiver) : FecReceiver :=
  let expired := filter (fun sg => PENDING_TTL <= sat_sub now (g_created (snd sg)))
                   (hash_iter (pending r)) in
  fold_left (fun r sg => retire (fst sg) r) expired r.

(** Age, then arrival order. *)
Definition older (x y : Z * PendingGroup) : bool :=
  (g_created (snd x) <? g_created (snd y))
  || ((g_created (snd x) =? g_created (snd y)) && (g_ticket (snd x) <? g_ticket (snd y))).

Definition new_group (size now ticket : Z) : PendingGroup := {|
  g_size := size; g_xor_buf := zeros (Z.to_nat MAX_PACKET_SIZE); g_xor_len := 0;
  g_seen := zeros 4; g_count := 0; g_repair := None; g_created := now; g_ticket := ticket |}.

Definition ensure_group (seq gsize now : Z) : method FecReceiver PendingGroup :=
  do! r := mget in
  match pending r !! seq with
  | Some group =>
      if negb (g_size group =? gsize) then mfail (InvalidPacket "Conflicting FEC group size")
      else mret group
  | None =>
      do! _ := if (MAX_PENDING_GROUPS <=? size (pending r))%nat then
                 match min_by older (hash_iter (pending r)) with
                 | Some (oldest, _) => mmod (retire oldest)
                 | None => mret tt
                 end
               else mret tt in
      do! r := mget in
      let ticket := next_ticket r in
      let group := new_group gsize now ticket in
      do! _ := mmod (set_next_ticket (wrap64 (next_ticket r + 1))) in
      do! _ := mmod (set_pending (<[seq := group]>)) in
      mret group
  end.

Definition record (meta : FecMetadata.t) (payload : bytes) (now : Z)
    : method FecReceiver FecRxResult :=
  do! _ := mlift (validate_member meta (len payload)) in
  do! _ := mmod (sweep now) in
  do! pos := advance (FecMetadata.group_seq meta) in
  do! r := mget in
  if bool_decide (pos ∈ completed_set r) then mret ignored
  else
  do! late := accept_retired pos (FecMetadata.group_size meta) (FecMetadata.index meta) in
  match late with
  | Some result => mret result
  | None =>
      do! group := ensure_group pos (FecMetadata.group_size meta) now in
      if bitmap_seen (g_seen group) (FecMetadata.index meta) then mret ignored
      else if match g_repair group with Some repair => r_len repair <? len payload | None => false end
      then mfail (InvalidPacket "FEC data exceeds repair length")
      else
      do! _ := mmod (set_pending
        (<[pos := mark_and_count (absorb group payload) (FecMetadata.index meta)]>)) in
      finish pos true
  end.

Definition repair (rep : FecRepair.t) (now : Z) : method FecReceiver FecRxResult :=
  if FecRepair.group_size rep =? 0 then mfail (InvalidPacket "Invalid FEC group size")
  else if (len (FecRepair.xor_data rep) =? 0) || (MAX_PACKET_SIZE <? len (FecRepair.xor_data rep))
  then mfail (InvalidPacket "FEC repair exceeds packet budget")
  else
  do! _ := mmod (sweep now) in
  do! pos := advance (FecRepair.group_seq rep) in
  do! r := mget in
  if bool_decide (pos ∈ completed_set r) then mret ignored
  else
  match retired r !! pos with
  | Some group =>
      if negb (t_size group =? FecRepair.group_size rep)
      then mfail (InvalidPacket "Conflicting FEC group size")
      else mret ignored
  | None =>
      do! group := ensure_group pos (FecRepair.group_size rep) now in
      match g_repair group with
      | Some existing =>
          let same := (r_len existing =? len (FecRepair.xor_data rep))
            && bool_decide (take (Z.to_nat (r_len existing)) (r_data existing)
                            = FecRepair.xor_data rep) in
          if negb same then mfail (InvalidPacket "Conflicting FEC repair")
          else mret ignored
      | None =>
          if len (FecRepair.xor_data rep) <? g_xor_len group
          then mfail (InvalidPacket "FEC repair is shorter than data")
          else
          do! _ := mmod (set_pending (<[pos := store_repair group (FecRepair.xor_data rep)]>)) in
          finish pos true
      end
  end.
End Receiver.

Definition is_duplicate (r : FecReceiver) (meta : FecMetadata.t) : bool :=
  let pos := position r (FecMetadata.group_seq meta) in
  if bool_decide (pos ∈ completed_set r) then true
  else
  match pending r !! pos with
  | Some group =>
      (g_size group =? FecMetadata.group_size meta)
      && bitmap_seen (g_seen group) (FecMetadata.index meta)
  | None =>
      match retired r !! pos with
      | None => false
      | Some group =>
          (t_size group =? FecMetadata.group_size meta)
          && bitmap_seen (t_seen group) (FecMetadata.index meta)
      end
  end.

(** ** Bitmaps as sets of indices *)

Lemma bitmap_seen_testbit seen i :
  bitmap_seen seen i = Z.testbit (default 0 (seen !! Z.to_nat (i / 64))) (i mod 64).
Proof. unfold bitmap_seen. apply land_shiftl1, Z.mod_pos_bound. lia. Qed.

Lemma bitmap_seen_mark seen i j :
  length seen = 4%nat -> 0 <= i < 256 -> 0 <= j < 256 ->
  bitmap_seen (bitmap_mark seen i) j = (i =? j) || bitmap_seen seen j.
Proof.
  intros Hl Hi Hj. rewrite !bitmap_seen_testbit. apply (bit_at_set seen i j); [divlia|lia|lia].
Qed.

Lemma length_bitmap_mark seen i : length (bitmap_mark seen i) = length seen.
Proof. apply length_insert. Qed.

Lemma bitmap_seen_zeros i : bitmap_seen (zeros 4) i = false.
Proof. rewrite bitmap_seen_testbit. apply (bit_at_zeros 4). Qed.

Lemma bitmap_seen_or a b i :
  length a = 4%nat -> length b = 4%nat -> 0 <= i < 256 ->
  bitmap_seen (bitmap_or a b) i = bitmap_seen a i || bitmap_seen b i.
Proof.
  intros Ha Hb Hi. rewrite !bitmap_seen_testbit. unfold bitmap_or.
  assert (Z.to_nat (i / 64) < 4)%nat by divlia.
  destruct (lookup_lt_is_Some_2 a (Z.to_nat (i / 64)) ltac:(lia)) as [x Hx].
  destruct (lookup_lt_is_Some_2 b (Z.to_nat (i / 64)) ltac:(lia)) as [y Hy].
  rewrite lookup_zip_with, Hx, Hy. apply Z.lor_spec.
Qed.

(** ** What a group holds *)

Record group_holds (g : PendingGroup) (ms : list (Z * bytes)) : Prop := {
  gh_size : 0 < g_size g < 256;
  gh_buf : len (g_xor_buf g) = MAX_PACKET_SIZE;
  gh_xor : forall i, (i < 1500)%nat -> byte_at (g_xor_buf g) i = xor_byte ms.*2 i;
  gh_len : g_xor_len g = longest ms.*2;
  gh_seen_len : length (g_seen g) = 4%nat;
  gh_seen : forall i, 0 <= i < 256 -> bitmap_seen (g_seen g) i = bool_decide (i ∈ ms.*1);
  gh_count : g_count g = len ms;
  gh_nodup : NoDup ms.*1;
  gh_member : Forall (fun m => 0 <= fst m < g_size g /\ 0 < len (snd m) <= MAX_PACKET_SIZE) ms;
}.

Definition repair_holds (g : PendingGroup) (rep : option bytes) : Prop :=
  match rep with
  | None => g_repair g = None
  | Some x => g_repair g = Some {| r_data := x ++ zeros (Z.to_nat MAX_PACKET_SIZE - length x);
                                   r_len := len x |} /\ 0 < len x <= MAX_PACKET_SIZE
  end.

Lemma new_group_holds size now t : 0 < size < 256 -> group_holds (new_group size now t) [].
Proof.
  intros Hs. constructor; cbn [new_group g_size g_xor_buf g_xor_len g_seen g_count]; try done.
  - intros i _. by rewrite byte_at_zeros.
  - intros i Hi. by rewrite bitmap_seen_zeros.
  - constructor.
Qed.

(** Distinct indices below [n] are at most [n]. *)
Lemma NoDup_below n l : NoDup l -> Forall (fun i => 0 <= i < n) l -> len l <= Z.max 0 n.
Proof.
  intros Hnd Hm.
  assert (incl l (map Z.of_nat (seq 0 (Z.to_nat n)))) as Hincl.
  { intros x Hx%list_elem_of_In. apply list_elem_of_In.
    rewrite Forall_forall in Hm. pose proof (Hm _ Hx).
    apply list_elem_of_fmap. exists (Z.to_nat x). split; [lia|]. apply elem_of_seq. lia. }
  apply NoDup_incl_length in Hincl; [|by apply NoDup_ListNoDup].
  rewrite length_map, length_seq in Hincl. lia.
Qed.

Lemma members_indices (n : Z) (ms : list (Z * bytes)) :
  Forall (fun m => 0 <= fst m < n /\ 0 < len (snd m) <= MAX_PACKET_SIZE) ms ->
  Forall (fun i => 0 <= i < n) ms.*1.
Proof. intros H. apply Forall_fmap. eapply Forall_impl; [exact H|]. by intros ? []. Qed.

Lemma group_holds_add g ms i p :
  group_holds g ms -> 0 <= i < g_size g -> i ∉ ms.*1 -> 0 < len p <= MAX_PACKET_SIZE ->
  group_holds (mark_and_count (absorb g p) i) ((i, p) :: ms).
Proof.
  intros [Hs Hbuf Hx Hl Hsl Hseen Hc Hnd Hm] Hi Hin Hp.
  assert (len (i :: ms.*1) <= Z.max 0 (g_size g)) as Hb.
  { apply NoDup_below; [by constructor|]. constructor; [done|by apply members_indices]. }
  cbn [length] in Hb. rewrite length_fmap in Hb. unfold MAX_PACKET_SIZE in *.
  constructor; cbn [mark_and_count absorb g_size g_xor_buf g_xor_len g_seen g_count fmap list_fmap fst snd];
    rewrite ?length_xor_into, ?length_bitmap_mark; try done.
  - intros k Hk. rewrite byte_at_xor_into, Hx by lia. by rewrite xor_byte_cons, Z.lxor_comm.
  - rewrite longest_cons, Hl. lia.
  - intros j Hj. rewrite bitmap_seen_mark, Hseen by lia.
    destruct (Z.eqb_spec i j) as [->|Hne]; cbn [orb].
    + symmetry. apply bool_decide_eq_true. left.
    + apply bool_decide_ext. rewrite elem_of_cons. split; [by right|]. by intros [->|].
  - cbn [length]. lia.
  - by constructor.
  - by constructor.
Qed.

Lemma missing_packet_recovers g ms ps lost :
  group_holds g ms -> repair_holds g (Some (xor_packets ps)) -> ps ≡ₚ lost :: ms.*2 ->
  missing_packet g = Some (lost ++ zeros (Z.to_nat (longest ps - len lost))).
Proof.
  intros [Hs Hbuf Hx Hl _ _ _ _ _] [Hr Hrl] Hp. unfold missing_packet. rewrite Hr. cbn [r_len r_data].
  pose proof (length_xor_packets ps) as Hxl. unfold MAX_PACKET_SIZE in *.
  assert (longest ps = Z.max (len lost) (longest ms.*2)) as Hlp by (by rewrite Hp, longest_cons).
  rewrite Hl, Hxl. replace (Z.max (longest ps) (longest ms.*2)) with (longest ps) by lia.
  f_equal. apply xor_recovers with ms.*2; [|intros i Hi; apply Hx; lia|done].
  intros i Hi. rewrite <-byte_at_xor_packets. unfold byte_at. rewrite lookup_app_l by lia. done.
Qed.

(** ** Group positions *)

Definition highest_ok (r : FecReceiver) : Prop :=
  match highest_group r with Some h => 65536 <= h < 2 ^ 63 | None => True end.

Lemma wrap16_sub seq h : u16_ok seq -> wrap16 (seq - wrap16 h) = wrap16 (seq - h).
Proof. intros. unfold wrap16. by rewrite Zminus_mod_idemp_r. Qed.

(** The position of a group number is the only number congruent to it within
    half a cycle of the highest position. *)
Lemma position_Some r h seq :
  highest_group r = Some h -> highest_ok r -> u16_ok seq ->
  let p := position r seq in
  wrap16 p = seq /\ h - 0x8000 <= p < h + 0x8000.
Proof.
  intros Hh Hok Hs. unfold highest_ok in Hok. rewrite Hh in Hok. unfold position. rewrite Hh.
  rewrite wrap16_sub by done. unfold u16_ok, wrap16, sat_add64, sat_sub, u64_max in *.
  change (2 ^ 63) with 9223372036854775808 in Hok.
  pose proof (Z.mod_pos_bound (seq - h) 65536 ltac:(lia)) as Hd.
  set (d := (seq - h) mod 65536) in *. cbv zeta.
  assert (exists k, seq - h = 65536 * k + d) as [k Hk]
    by (exists ((seq - h) / 65536); apply Z.div_mod; lia).
  destruct (Z.ltb_spec d 0x8000).
  - rewrite Z.min_r by lia. split; [|lia].
    replace (h + d) with (seq + (- k) * 65536) by lia. rewrite Z.mod_add by lia. apply Z.mod_small. lia.
  - assert ((0 - d) mod 65536 = 65536 - d) as ->.
    { replace (0 - d) with ((65536 - d) + (-1) * 65536) by lia. rewrite Z.mod_add by lia.
      apply Z.mod_small. lia. }
    rewrite Z.max_r by lia. split; [|lia].
    replace (h - (65536 - d)) with (seq + (- k - 1) * 65536) by lia.
    rewrite Z.mod_add by lia. apply Z.mod_small. lia.
Qed.

Lemma congruent_close p q h :
  wrap16 p = wrap16 q -> h - 0x8000 <= p < h + 0x8000 -> h - 0x8000 <= q < h + 0x8000 -> p = q.
Proof. unfold wrap16. intros E Hp Hq. divlia. Qed.

Lemma position_unique r h seq p :
  highest_group r = Some h -> highest_ok r -> u16_ok seq -> wrap16 p = seq ->
  h - 0x8000 <= p < h + 0x8000 -> position r seq = p.
Proof.
  intros Hh Hok Hs Hp Hb. destruct (position_Some r h seq Hh Hok Hs) as [H1 H2].
  eapply congruent_close; [by rewrite H1, Hp|done|done].
Qed.

(** Sixteen-bit group numbers are unwrapped correctly across any number of
    turns of the counter: the receiver recovers the sender's 64-bit group
    position from its low 16 bits as long as reordering stays within half a
    cycle (32768 groups) of the highest position seen. *)
Theorem position_unwraps r h x :
  highest_group r = Some h -> 65536 <= h < 2 ^ 63 -> h - 0x8000 <= x < h + 0x8000 ->
  position r (wrap16 x) = x.
Proof.
  intros Hh Hb Hx. apply (position_unique r h); [done|by unfold highest_ok; rewrite Hh| |done|done].
  unfold u16_ok, wrap16. apply Z.mod_pos_bound. lia.
Qed.

Definition advanced (r : FecReceiver) (seq : Z) : FecReceiver :=
  let p := position r seq in set_highest (Some (Z.max (default p (highest_group r)) p)) r.

Lemma advance_eq r seq : advance seq r = (advanced r seq, Ok (position r seq)).
Proof. done. Qed.

(** The position of a group does not move once the group has been seen. *)
Lemma position_stable r seq :
  highest_ok r -> u16_ok seq -> position r seq < 2 ^ 63 ->
  highest_ok (advanced r seq) /\ position (advanced r seq) seq = position r seq.
Proof.
  intros Hok Hs Hlt.
  destruct (highest_group r) as [h|] eqn:Hh.
  - destruct (position_Some r h seq Hh Hok Hs) as [H1 H2].
    assert (highest_ok (advanced r seq)) as Hok'.
    { unfold highest_ok, advanced in *. cbn. rewrite Hh in *. cbn. lia. }
    split; [done|]. eapply position_unique; [by unfold advanced; cbn; rewrite Hh|done..|].
    cbn. lia.
  - assert (position r seq = 65536 + seq) as E by (unfold position; by rewrite Hh).
    unfold u16_ok in Hs.
    assert (highest_ok (advanced r seq)) as Hok'.
    { unfold highest_ok, advanced. cbn. rewrite Hh. cbn. lia. }
    split; [done|]. eapply position_unique; [by unfold advanced; cbn; rewrite Hh|done|done|..].
    + rewrite E. unfold wrap16. divlia.
    + cbn. lia.
Qed.

(** ** What an operation leaves alone

    [frame pos r r']: the step from [r] to [r'] does not touch the group at
    [pos] or the numbering of groups. *)
Record frame (pos : Z) (r r' : FecReceiver) : Prop := {
  fr_pending : pending r' !! pos = pending r !! pos;
  fr_completed : completed_set r' = completed_set r;
  fr_retired : retired r !! pos = None -> retired r' !! pos = None;
  fr_highest : highest_group r' = highest_group r;
}.

Lemma frame_refl pos r : frame pos r r.
Proof. by constructor. Qed.

Lemma frame_trans pos r1 r2 r3 : frame pos r1 r2 -> frame pos r2 r3 -> frame pos r1 r3.
Proof. intros [] []. constructor; try congruence. auto. Qed.

Lemma frame_trim pos fuel r : frame pos r (trim_retired fuel r).
Proof.
  revert r. induction fuel as [|fuel IH]; intros r; [apply frame_refl|]. cbn [trim_retired].
  destruct (_ <? _)%nat; [|apply frame_refl]. destruct (retired_order r) as [|old order]; [apply frame_refl|].
  eapply frame_trans; [|apply IH]. constructor; cbn; try done. intros H.
  rewrite lookup_delete_None. by right.
Qed.

Lemma frame_retire pos q r : q <> pos -> frame pos r (retire q r).
Proof.
  intros Hq. unfold retire. destruct (pending r !! q) as [g|]; [|apply frame_refl].
  unfold remember_incomplete. cbn [set_pending retired].
  destruct (retired r !! q) as [e|].
  - destruct (_ =? _); constructor; cbn; try done; try (by rewrite lookup_delete_ne).
    intros H. by rewrite lookup_insert_ne.
  - eapply frame_trans; [|apply frame_trim]. constructor; cbn; try done.
    + by rewrite lookup_delete_ne.
    + intros H. by rewrite lookup_insert_ne.
Qed.

Section Frames.
Context {HI : HashIter}.

Lemma frame_sweep pos now r :
  (forall g, pending r !! pos = Some g -> now < g_created g + PENDING_TTL) ->
  frame pos r (sweep now r).
Proof.
  intros Hg. unfold sweep.
  assert (Forall (fun sg => fst sg <> pos)
    (filter (fun sg => PENDING_TTL <= sat_sub now (g_created (snd sg))) (hash_iter (pending r)))) as Hl.
  { apply Forall_forall. intros [q g] [He Hin]%list_elem_of_filter. apply elem_of_iter in Hin.
    cbn in *. intros ->. specialize (Hg g Hin). unfold sat_sub, PENDING_TTL in *. lia. }
  revert Hl. generalize (filter (fun sg => PENDING_TTL <= sat_sub now (g_created (snd sg)))
    (hash_iter (pending r))). clear Hg. intros l. revert r.
  induction l as [|[q g] l IH]; intros r Hl; [apply frame_refl|]. apply Forall_cons in Hl as [Hq Hl].
  cbn [fold_left fst]. eapply frame_trans; [by apply frame_retire|by apply IH].
Qed.

Lemma ensure_group_new r pos n now :
  pending r !! pos = None ->
  exists r' t, ensure_group pos n now r = (r', Ok (new_group n now t)) /\
    pending r' !! pos = Some (new_group n now t) /\ completed_set r' = completed_set r /\
    (retired r !! pos = None -> retired r' !! pos = None) /\ highest_group r' = highest_group r.
Proof.
  intros Hp. unfold ensure_group, mbind, mget, mmod, mret. rewrite Hp.
  set (r1 := if (MAX_PENDING_GROUPS <=? size (pending r))%nat then
    match min_by older (hash_iter (pending r)) with Some (o, _) => retire o r | None => r end else r).
  assert (frame pos r r1) as [F1 F2 F3 F4].
  { unfold r1. destruct (_ <=? _)%nat; [|apply frame_refl].
    destruct (min_by _ _) as [[q g]|] eqn:Em; [|apply frame_refl].
    apply frame_retire. intros ->. apply min_by_elem, elem_of_iter in Em. congruence. }
  exists (set_pending (<[pos := new_group n now (next_ticket r1)]>)
            (set_next_ticket (wrap64 (next_ticket r1 + 1)) r1)), (next_ticket r1).
  split; [|cbn; by rewrite lookup_insert_eq].
  unfold r1. destruct (_ <=? _)%nat; [|done]. by destruct (min_by _ _) as [[q g]|].
Qed.

(** ** Losing one packet of a group *)

Section Recovery.
(** The group as the sender numbered it: [ps] are its packets, [lost] the index
    of the one that does not arrive. *)
Context (s n lost : Z) (ps : list bytes) (missing : bytes).
Context (Hs : u16_ok s) (Hn : 0 < n < 256) (Hlen : len ps = n).
Context (Hps : Forall (fun p => 0 < len p <= MAX_PACKET_SIZE) ps).
Context (Hlost : 0 <= lost) (Hmissing : ps !! Z.to_nat lost = Some missing).

Inductive arrival : Type := Data (i : Z) | Repair.

Definition deliver (a : arrival) (now : Z) : method FecReceiver FecRxResult :=
  match a with
  | Data i => record {| FecMetadata.group_seq := s; FecMetadata.group_size := n;
                        FecMetadata.index := i |} (default [] (ps !! Z.to_nat i)) now
  | Repair => repair {| FecRepair.group_seq := s; FecRepair.group_size := n;
                        FecRepair.xor_data := xor_packets ps |} now
  end.

(** What should arrive: every packet but one, and the repair. *)
Definition expected_arrivals : list arrival :=
  Repair :: map Data (filter (fun i => i <> lost) (map Z.of_nat (seq 0 (Z.to_nat n)))).

Definition packet_at (i : Z) : bytes := default [] (ps !! Z.to_nat i).

(** The packets among the arrivals. *)
Fixpoint data_of (l : list arrival) : list (Z * bytes) :=
  match l with
  | [] => []
  | Data i :: l => (i, packet_at i) :: data_of l
  | Repair :: l => data_of l
  end.

Fixpoint repair_of (l : list arrival) : option bytes :=
  match l with
  | [] => None
  | Data _ :: l => repair_of l
  | Repair :: _ => Some (xor_packets ps)
  end.

Definition indices : list Z := filter (fun i => i <> lost) (map Z.of_nat (seq 0 (Z.to_nat n))).

Lemma data_of_app l l' : data_of (l ++ l') = data_of l ++ data_of l'.
Proof. induction l as [|[i|] l IH]; cbn [app data_of]; [done|by rewrite IH|done]. Qed.

Lemma data_of_perm l l' : l ≡ₚ l' -> data_of l ≡ₚ data_of l'.
Proof.
  induction 1 as [|[i|] l l' H IH|[i|] [j|] l|l1 l2 l3 H1 IH1 H2 IH2]; cbn [data_of]; try done.
  - by rewrite IH.
  - apply Permutation_swap.
  - by rewrite IH1.
Qed.

Lemma data_of_Data l : data_of (map Data l) = map (fun i => (i, packet_at i)) l.
Proof. induction l as [|i l IH]; cbn [map data_of]; [done|by rewrite IH]. Qed.

Lemma data_of_expected l :
  l ≡ₚ expected_arrivals -> data_of l ≡ₚ map (fun i => (i, packet_at i)) indices.
Proof. intros ->%data_of_perm. unfold expected_arrivals. cbn [data_of]. by rewrite data_of_Data. Qed.

Lemma lost_range : 0 <= lost < n.
Proof. split; [done|]. apply lookup_lt_Some in Hmissing. lia. Qed.

Lemma elem_indices i : i ∈ indices <-> i <> lost /\ 0 <= i < n.
Proof.
  unfold indices. rewrite list_elem_of_filter, list_elem_of_fmap. apply and_iff_compat_l. split.
  - intros (k & -> & Hk%elem_of_seq). lia.
  - intros Hi. exists (Z.to_nat i). split; [lia|]. apply elem_of_seq. lia.
Qed.

Lemma NoDup_indices : NoDup indices.
Proof. apply NoDup_filter, NoDup_fmap_2; [intros x y; lia|apply NoDup_seq]. Qed.

Lemma indices_perm : lost :: indices ≡ₚ map Z.of_nat (seq 0 (Z.to_nat n)).
Proof.
  apply NoDup_Permutation.
  - constructor; [|apply NoDup_indices]. rewrite elem_indices. tauto.
  - apply NoDup_fmap_2; [intros x y; lia|apply NoDup_seq].
  - intros i. rewrite elem_of_cons, elem_indices, list_elem_of_fmap. pose proof lost_range. split.
    + intros Hi. exists (Z.to_nat i). split; [lia|]. apply elem_of_seq. lia.
    + intros (k & -> & Hk%elem_of_seq). lia.
Qed.

Lemma len_indices : len indices = n - 1.
Proof.
  pose proof indices_perm as H. apply Permutation_length in H. cbn [length] in H.
  rewrite length_map, length_seq in H. lia.
Qed.

Lemma packets_perm : ps ≡ₚ missing :: map packet_at indices.
Proof.
  assert (ps = map packet_at (map Z.of_nat (seq 0 (Z.to_nat n)))) as E.
  { rewrite map_map. apply list_eq. intros k. rewrite list_lookup_fmap.
    destruct (decide (k < length ps)%nat) as [Hk|Hk].
    - rewrite lookup_seq_lt by lia. cbn. unfold packet_at. rewrite Nat2Z.id.
      destruct (lookup_lt_is_Some_2 ps k Hk) as [x ->]. done.
    - rewrite lookup_seq_ge by lia. by rewrite lookup_ge_None_2 by lia. }
  rewrite E at 1. rewrite <-indices_perm. cbn [map]. unfold packet_at at 1. by rewrite Hmissing.
Qed.
Lemma packet_at_ok i : 0 <= i < n -> 0 < len (packet_at i) <= MAX_PACKET_SIZE.
Proof.
  intros Hi. unfold packet_at. destruct (lookup_lt_is_Some_2 ps (Z.to_nat i)) as [p Hp]; [lia|].
  rewrite Hp. cbn. by eapply Forall_lookup_1 in Hps.
Qed.

Lemma packet_at_longest i : 0 <= i < n -> len (packet_at i) <= longest ps.
Proof.
  intros Hi. apply longest_in. unfold packet_at.
  destruct (lookup_lt_is_Some_2 ps (Z.to_nat i)) as [p Hp]; [lia|]. rewrite Hp.
  by eapply list_elem_of_lookup_2.
Qed.

Lemma longest_ps : 0 < longest ps <= MAX_PACKET_SIZE.
Proof.
  split.
  - pose proof (Forall_lookup_1 _ _ _ _ Hps Hmissing) as Hm. cbn in Hm.
    pose proof (longest_in missing ps ltac:(by eapply list_elem_of_lookup_2)). lia.
  - apply longest_bound; [done|]. eapply Forall_impl; [exact Hps|]. by intros ? [].
Qed.

(** The state of the receiver after the arrivals [dn], the first of them at
    [t0]; the group sits at [pos]. *)
Record receives (pos : Z) (dn : list arrival) (t0 : Z) (r : FecReceiver) : Prop := {
  rc_highest : highest_ok r;
  rc_position : position r s = pos;
  rc_bound : pos < 2 ^ 63;
  rc_completed : pos ∉ completed_set r;
  rc_retired : retired r !! pos = None;
  rc_group : match dn with
             | [] => pending r !! pos = None
             | _ => exists g, pending r !! pos = Some g /\ group_holds g (data_of dn) /\
                      repair_holds g (repair_of dn) /\ g_size g = n /\ g_created g = t0
             end;
}.

(** Sweeping and advancing keep that state. *)
Lemma receives_enter pos dn t0 r now :
  receives pos dn t0 r -> (dn <> [] -> now < t0 + PENDING_TTL) ->
  receives pos dn t0 (advanced (sweep now r) s) /\ position (sweep now r) s = pos.
Proof.
  intros [H1 H2 H3 H4 H5 H6] Hnow.
  assert (frame pos r (sweep now r)) as [F1 F2 F3 F4].
  { apply frame_sweep. intros g Hg. destruct dn as [|a dn]; [congruence|].
    destruct H6 as (g' & Hg' & _ & _ & _ & Hc). rewrite Hg' in Hg. injection Hg as ->.
    rewrite Hc. by apply Hnow. }
  assert (highest_ok (sweep now r)) as Hok by (unfold highest_ok in *; by rewrite F4).
  assert (position (sweep now r) s = pos) as Hp by (unfold position in *; by rewrite F4).
  destruct (position_stable (sweep now r) s Hok Hs ltac:(by rewrite Hp)) as [Hok' Hp'].
  split; [|done]. constructor; [done|by rewrite Hp'|done| | |]; unfold advanced;
    cbn [set_highest completed_set retired pending]; [by rewrite F2|by auto|by rewrite F1].
Qed.

(** The group an arrival works on: the pending one, or a fresh one. *)
Lemma receives_group pos dn t0 r now :
  receives pos dn t0 r ->
  exists r' g, ensure_group pos n now r = (r', Ok g) /\ group_holds g (data_of dn) /\
    repair_holds g (repair_of dn) /\ g_size g = n /\
    g_created g = (match dn with [] => now | _ => t0 end) /\
    highest_ok r' /\ position r' s = pos /\ (pos ∉ completed_set r') /\ retired r' !! pos = None.
Proof.
  intros [H1 H2 H3 H4 H5 H6]. destruct dn as [|a dn].
  - destruct (ensure_group_new r pos n now H6) as (r' & t & E & _ & E2 & E3 & E4).
    exists r', (new_group n now t). split; [done|]. split; [by apply new_group_holds|].
    split; [done|]. split; [done|]. split; [done|]. unfold highest_ok, position in *. rewrite E4, E2. auto.
  - destruct H6 as (g & Hg & Hgh & Hrh & Hsz & Hc). exists r, g.
    unfold ensure_group, mbind, mget. rewrite Hg, Hsz, Z.eqb_refl. cbn [negb]. by rewrite Hc.
Qed.

Lemma finish_eq pos r g ms :
  pending r !! pos = Some g -> group_holds g ms -> g_size g = n -> len ms < n ->
  finish pos true r
  = if (len ms =? n - 1) && bool_decide (is_Some (g_repair g))
    then (complete_group pos r, Ok {| accepted := true; recovered := missing_packet g; complete := true |})
    else (r, Ok {| accepted := true; recovered := None; complete := false |}).
Proof.
  intros Hg [_ _ _ _ _ _ Hc _ _] Hsz Hm. unfold finish, mbind, mget, mmod, mret.
  rewrite Hg, Hsz, Hc. cbv zeta.
  destruct (Z.eqb_spec (len ms) n) as [?|_]; [lia|].
  assert ((1 <=? n) = true) as -> by lia. cbn [andb]. by destruct (_ && _).
Qed.
Definition recovery : FecRxResult := {|
  accepted := true;
  recovered := Some (missing ++ zeros (Z.to_nat (longest ps - len missing)));
  complete := true |}.
Definition progress : FecRxResult := {| accepted := true; recovered := None; complete := false |}.

(** The result of a step that brings the arrivals to [dn]. *)
Definition outcome_of (rest : list arrival) : FecRxResult :=
  match rest with [] => recovery | _ => progress end.

Fixpoint repairs (l : list arrival) : nat :=
  match l with [] => 0 | Data _ :: l => repairs l | Repair :: l => S (repairs l) end.

Lemma repairs_app l l' : repairs (l ++ l') = (repairs l + repairs l')%nat.
Proof. induction l as [|[i|] l IH]; cbn [app repairs]; [done|done|by rewrite IH]. Qed.

Lemma repairs_perm l l' : l ≡ₚ l' -> repairs l = repairs l'.
Proof.
  induction 1 as [|[i|] l l' H IH|[i|] [j|] l|l1 l2 l3 H1 IH1 H2 IH2]; cbn [repairs]; try congruence.
Qed.

Lemma repairs_Data l : repairs (map Data l) = 0%nat.
Proof. by induction l. Qed.

Lemma repair_of_repairs l :
  repair_of l = match repairs l with O => None | S _ => Some (xor_packets ps) end.
Proof. by induction l as [|[i|] l IH]. Qed.

Lemma split_arrivals dn rest :
  dn ++ rest ≡ₚ expected_arrivals ->
  len (data_of dn) + len (data_of rest) = n - 1 /\
  (is_Some (repair_of dn) <-> repair_of rest = None) /\
  NoDup (data_of dn ++ data_of rest).*1 /\
  (forall i p, (i, p) ∈ data_of dn ++ data_of rest -> (i <> lost /\ 0 <= i < n) /\ p = packet_at i).
Proof.
  intros Hp. pose proof (data_of_expected _ Hp) as Hd. rewrite data_of_app in Hd.
  split; [|split; [|split]].
  - apply Permutation_length in Hd. rewrite length_app, length_map in Hd. pose proof len_indices. lia.
  - apply repairs_perm in Hp. unfold expected_arrivals in Hp.
    rewrite repairs_app in Hp. cbn [repairs] in Hp. rewrite repairs_Data in Hp.
    rewrite !repair_of_repairs. destruct (repairs dn), (repairs rest); try lia; split; by eauto || by intros [].
  - rewrite Hd, <-list_fmap_compose. unfold compose. cbn. rewrite list_fmap_id. apply NoDup_indices.
  - intros i p Hin. rewrite Hd in Hin. apply list_elem_of_fmap in Hin as (k & [= -> ->] & Hk).
    split; [by apply elem_indices|done].
Qed.

Lemma finish_arrival pos a dn rest t0 r g :
  (a :: dn) ++ rest ≡ₚ expected_arrivals -> pos < 2 ^ 63 ->
  highest_ok r -> position r s = pos -> pos ∉ completed_set r -> retired r !! pos = None ->
  pending r !! pos = Some g -> group_holds g (data_of (a :: dn)) ->
  repair_holds g (repair_of (a :: dn)) -> g_size g = n -> g_created g = t0 ->
  exists r', finish pos true r = (r', Ok (outcome_of rest)) /\
    (rest <> [] -> receives pos (a :: dn) t0 r').
Proof.
  intros Hperm Hb Hh Hp Hc Hr Hg Hgh Hrh Hsz Hcr.
  destruct (split_arrivals _ _ Hperm) as (Hcount & Hrep & _ & _).
  assert (is_Some (g_repair g) <-> is_Some (repair_of (a :: dn))) as Hsome.
  { unfold repair_holds in Hrh. destruct (repair_of (a :: dn)); [destruct Hrh as [-> _]|rewrite Hrh];
      split; (by eauto || by intros []). }
  erewrite finish_eq by (done || lia). destruct rest as [|b rest].
  - assert (len (data_of (a :: dn)) = n - 1) as ->
      by (change (len (data_of [])) with 0 in Hcount; lia).
    rewrite Z.eqb_refl, bool_decide_eq_true_2 by (rewrite Hsome; by apply Hrep).
    cbn [andb]. eexists. split; [|done]. unfold outcome_of, recovery.
    rewrite app_nil_r in Hperm.
    assert (repair_holds g (Some (xor_packets ps))) as Hrx.
    { pose proof (repair_of_repairs (a :: dn)) as E. apply repairs_perm in Hperm. rewrite Hperm in E.
      by rewrite E in Hrh. }
    rewrite (missing_packet_recovers g _ ps missing Hgh Hrx); [done|].
    rewrite (data_of_expected _ Hperm), packets_perm at 1. by rewrite <-list_fmap_compose.
  - match goal with |- context [if ?c then _ else _] => assert (c = false) as -> end.
    { apply andb_false_iff. destruct (repair_of (b :: rest)) as [x|] eqn:Er.
      - right. apply bool_decide_eq_false. rewrite Hsome, Hrep. done.
      - left. apply Z.eqb_neq. destruct b; cbn [data_of length] in *; [lia|done]. }
    exists r. split; [done|]. intros _. constructor; try done. by exists g.
Qed.
Definition first_time (dn : list arrival) (now t0 : Z) : Z :=
  match dn with [] => now | _ => t0 end.

(** The steps [record] and [repair] share, up to the group they work on. *)
Lemma deliver_enter pos dn t0 r now :
  receives pos dn t0 r -> (dn <> [] -> now < t0 + PENDING_TTL) ->
  exists r2, receives pos dn t0 r2 /\ bool_decide (pos ∈ completed_set r2) = false /\
  forall A (k : Z -> FecReceiver -> method FecReceiver A),
    (do! _ := mmod (sweep now) in do! p := advance s in do! r' := mget in k p r') r = k pos r2 r2.
Proof.
  intros Hr Hnow. destruct (receives_enter _ _ _ _ now Hr Hnow) as [Hr2 Hp].
  exists (advanced (sweep now r) s). split; [done|]. split.
  - apply bool_decide_eq_false. by destruct Hr2.
  - intros A k. erewrite mbind_Ok by reflexivity. erewrite mbind_Ok by apply advance_eq. rewrite Hp.
    by erewrite mbind_Ok by reflexivity.
Qed.

Lemma deliver_data pos dn i rest t0 r now :
  receives pos dn t0 r -> (dn <> [] -> now < t0 + PENDING_TTL) ->
  (Data i :: dn) ++ rest ≡ₚ expected_arrivals ->
  exists r', deliver (Data i) now r = (r', Ok (outcome_of rest)) /\
    (rest <> [] -> receives pos (Data i :: dn) (first_time dn now t0) r').
Proof.
  intros Hr Hnow Hperm.
  destruct (split_arrivals _ _ Hperm) as (_ & _ & Hnd & Hin). cbn [data_of app fmap list_fmap fst] in Hnd.
  destruct (Hin i (packet_at i)) as [[Hil Hi] _]; [left|].
  apply NoDup_cons in Hnd as [Hni _]. rewrite fmap_app, elem_of_app in Hni.
  pose proof (packet_at_ok i Hi) as Hpi. unfold deliver, record. fold (packet_at i).
  cbn [FecMetadata.group_seq FecMetadata.group_size FecMetadata.index].
  erewrite mbind_Ok; cycle 1.
  { unfold mlift, validate_member. cbn [FecMetadata.group_size FecMetadata.index].
    unfold MAX_PACKET_SIZE in *. repeat guard_false. reflexivity. }
  destruct (deliver_enter pos dn t0 r now) as (r2 & Hr2 & Hc2 & Hk); [done|done|].
  rewrite Hk, Hc2. clear Hk.
  pose proof Hr2 as [H1 H2 H3 H4 H5 _].
  erewrite mbind_Ok; cycle 1.
  { unfold accept_retired. erewrite mbind_Ok by reflexivity. rewrite H5. reflexivity. }
  cbv beta iota.
  destruct (receives_group pos dn t0 r2 now Hr2) as (r3 & g & E & Hgh & Hrh & Hsz & Hcr & K1 & K2 & K3 & K4).
  erewrite mbind_Ok by exact E.
  assert (bitmap_seen (g_seen g) i = false) as ->.
  { destruct Hgh as [_ _ _ _ _ -> _ _ _]; [|lia]. apply bool_decide_eq_false. tauto. }
  assert (match g_repair g with Some rp => r_len rp <? len (packet_at i) | None => false end = false) as ->.
  { unfold repair_holds in Hrh. rewrite repair_of_repairs in Hrh.
    destruct (repairs dn); [by rewrite Hrh|]. destruct Hrh as [-> _]. cbn.
    rewrite length_xor_packets. by apply Z.ltb_ge, packet_at_longest. }
  erewrite mbind_Ok by reflexivity.
  apply (finish_arrival pos (Data i) dn rest (first_time dn now t0) _ 
    (mark_and_count (absorb g (packet_at i)) i)); try done.
  - cbn. by rewrite lookup_insert_eq.
  - cbn [data_of]. apply group_holds_add; [done|by rewrite Hsz|tauto|done].
Qed.

Lemma deliver_repair pos dn rest t0 r now :
  receives pos dn t0 r -> (dn <> [] -> now < t0 + PENDING_TTL) ->
  (Repair :: dn) ++ rest ≡ₚ expected_arrivals ->
  exists r', deliver Repair now r = (r', Ok (outcome_of rest)) /\
    (rest <> [] -> receives pos (Repair :: dn) (first_time dn now t0) r').
Proof.
  intros Hr Hnow Hperm. pose proof longest_ps as Hlp. pose proof (length_xor_packets ps) as Hxl.
  unfold deliver, repair. cbn [FecRepair.group_seq FecRepair.group_size FecRepair.xor_data].
  unfold MAX_PACKET_SIZE in *. guard_false. guard_false.
  destruct (deliver_enter pos dn t0 r now) as (r2 & Hr2 & Hc2 & Hk); [done|done|].
  rewrite Hk, Hc2. clear Hk.
  pose proof Hr2 as [H1 H2 H3 H4 H5 _]. rewrite H5.
  destruct (receives_group pos dn t0 r2 now Hr2) as (r3 & g & E & Hgh & Hrh & Hsz & Hcr & K1 & K2 & K3 & K4).
  erewrite mbind_Ok by exact E.
  assert (repairs dn = 0%nat) as Hz.
  { apply repairs_perm in Hperm. unfold expected_arrivals in Hperm. cbn [app repairs] in Hperm.
    rewrite repairs_app, repairs_Data in Hperm. lia. }
  unfold repair_holds in Hrh. rewrite repair_of_repairs, Hz in Hrh. rewrite Hrh.
  assert (g_xor_len g <= longest ps) as Hle.
  { destruct Hgh as [_ _ _ -> _ _ _ _ Hm]. apply longest_bound; [lia|].
    destruct (split_arrivals _ _ Hperm) as (_ & _ & _ & Hin). cbn [data_of] in Hin.
    apply Forall_fmap, Forall_forall. intros [i p] Hip.
    destruct (Hin i p) as [[_ Hi] ->]; [apply elem_of_app; by left|]. by apply packet_at_longest. }
  guard_false. erewrite mbind_Ok by reflexivity.
  apply (finish_arrival pos Repair dn rest (first_time dn now t0) _ (store_repair g (xor_packets ps)));
    try done.
  - cbn. by rewrite lookup_insert_eq.
  - cbn [data_of]. by destruct Hgh.
  - cbn [repair_of]. split; [done|]. unfold MAX_PACKET_SIZE. lia.
Qed.
Lemma deliver_step pos dn a rest t0 r now :
  receives pos dn t0 r -> (dn <> [] -> now < t0 + PENDING_TTL) ->
  (a :: dn) ++ rest ≡ₚ expected_arrivals ->
  exists r', deliver a now r = (r', Ok (outcome_of rest)) /\
    (rest <> [] -> receives pos (a :: dn) (first_time dn now t0) r').
Proof. destruct a; [apply deliver_data|apply deliver_repair]. Qed.

Fixpoint deliver_all (evs : list (arrival * Z)) (r : FecReceiver)
    : FecReceiver * list (outcome FecRxResult) :=
  match evs with
  | [] => (r, [])
  | (a, now) :: evs =>
      let '(r, res) := deliver a now r in
      let '(r, ress) := deliver_all evs r in
      (r, res :: ress)
  end.

Lemma deliver_rest pos b dn evs t0 r :
  receives pos (b :: dn) t0 r -> (b :: dn) ++ evs.*1 ≡ₚ expected_arrivals -> evs <> [] ->
  Forall (fun e => snd e < t0 + PENDING_TTL) evs ->
  snd (deliver_all evs r) = replicate (pred (length evs)) (Ok progress) ++ [Ok recovery].
Proof.
  revert b dn r. induction evs as [|[a now] evs IH]; intros b dn r Hr Hperm Hne Ht; [done|].
  apply Forall_cons in Ht as [Hnow Ht]. cbn in Hnow, Hperm. cbn [deliver_all].
  assert ((a :: b :: dn) ++ evs.*1 ≡ₚ expected_arrivals) as Hperm'
    by (rewrite <-Hperm; apply (Permutation_middle (b :: dn))).
  destruct (deliver_step pos (b :: dn) a (evs.*1) t0 r now Hr ltac:(done) Hperm') as (r' & -> & Hr').
  destruct evs as [|e evs]; [done|]. cbn [fmap list_fmap] in Hr'. specialize (Hr' ltac:(done)).
  specialize (IH a (b :: dn) r' Hr' Hperm' ltac:(done) Ht).
  destruct (deliver_all (e :: evs) r') as [r2 rs]. cbn in IH. cbn. by rewrite IH.
Qed.

End Recovery.
End Frames.

(** ** Witnesses *)

Definition sample_receiver : FecReceiver := set_highest (Some 131071) default_receiver.

Lemma position_unwraps_witness : position sample_receiver (wrap16 131073) = 131073.
Proof. apply (position_unwraps sample_receiver 131071); [reflexivity|lia|lia]. Defined.

