(* ===== verification/FecMemory.v ===== *)
(** * Forward error correction: what the receiver remembers

    The invariant of [FecReceiver] ([crates/aivpn-common/src/fec.rs]): at most 8
    groups wait for packets, at most 512 completed and 512 abandoned groups are
    remembered, and no group is in two of these states. Every operation keeps it
    and never panics. From it follows that a packet is forwarded at most once:
    no index of a group is accepted twice while the receiver has room to
    remember the groups of the stream. *)

From S2P Require Import Prelude Collections Bitmap Protocol Fec FecReceiver.
Local Open Scope Z_scope.

(** ** The invariant *)

(** A group that is waiting for packets: incomplete, and not recoverable yet. *)
Definition waiting (g : PendingGroup) (ms : list (Z * bytes)) (rep : option bytes) : Prop :=
  group_holds g ms /\ repair_holds g rep /\ len ms < g_size g /\
  ~ (len ms = g_size g - 1 /\ is_Some rep) /\
  (forall x, rep = Some x -> longest ms.*2 <= len x).

Record receiver_ok (r : FecReceiver) : Prop := {
  ro_room : (size (pending r) <= MAX_PENDING_GROUPS)%nat;
  ro_groups : forall p g, pending r !! p = Some g -> exists ms rep, waiting g ms rep;
  ro_completed : NoDup (completed r);
  ro_completed_set : forall p, p ∈ completed_set r <-> p ∈ completed r;
  ro_completed_room : (length (completed r) <= COMPLETED_GROUPS)%nat;
  ro_retired : NoDup (retired_order r);
  ro_retired_dom : forall p, is_Some (retired r !! p) <-> p ∈ retired_order r;
  ro_retired_room : (length (retired_order r) <= RETIRED_GROUPS)%nat;
  ro_retired_seen : forall p g, retired r !! p = Some g -> length (t_seen g) = 4%nat;
  ro_apart : forall p, is_Some (pending r !! p) -> (p ∉ completed_set r) /\ retired r !! p = None;
  ro_apart_done : forall p, p ∈ completed_set r -> retired r !! p = None;
}.

(** Index [i] of the group at [p] has been forwarded, and the receiver knows. *)
Definition remembered (r : FecReceiver) (p i : Z) : Prop :=
  p ∈ completed_set r \/
  (exists g, pending r !! p = Some g /\ bitmap_seen (g_seen g) i = true) \/
  (exists g, retired r !! p = Some g /\ bitmap_seen (t_seen g) i = true).

(** The groups the receiver knows about. *)
Definition knows (r : FecReceiver) (p : Z) : Prop :=
  is_Some (pending r !! p) \/ p ∈ completed_set r \/ is_Some (retired r !! p).

(** A step forgets nothing as long as the positions in use, [P], fit the memory. *)
Definition keeps (P : gset Z) (r r' : FecReceiver) : Prop :=
  (size P <= RETIRED_GROUPS)%nat -> (forall p, knows r p -> p ∈ P) ->
  (forall p, knows r' p -> p ∈ P) /\ (forall p i, remembered r p i -> remembered r' p i).

#[global] Instance keeps_preorder P : PreOrder (keeps P).
Proof.
  split.
  - by intros r HP H.
  - intros r1 r2 r3 H1 H2 HP Hk. destruct (H1 HP Hk) as [K1 M1]. destruct (H2 HP K1) as [K2 M2]. auto.
Qed.

(** Distinct positions in use are at most as many as [P]. *)
Lemma room_for (P : gset Z) (l : list Z) : NoDup l -> (forall p, p ∈ l -> p ∈ P) -> (length l <= size P)%nat.
Proof.
  intros Hnd Hl. apply submseteq_length, NoDup_submseteq; [done|].
  intros p Hp. by apply elem_of_elements, Hl.
Qed.

Lemma waiting_seen g ms rep : waiting g ms rep -> length (g_seen g) = 4%nat.
Proof. by intros ([] & _). Qed.

Lemma trim_id fuel r : (length (retired_order r) <= RETIRED_GROUPS)%nat -> trim_retired fuel r = r.
Proof.
  intros H. destruct fuel; [done|]. cbn [trim_retired].
  destruct (Nat.ltb_spec RETIRED_GROUPS (length (retired_order r))); [lia|done].
Qed.

Lemma size_delete_pending r q g :
  pending r !! q = Some g -> size (pending r) = S (size (delete q (pending r))).
Proof.
  intros H. assert (is_Some (pending r !! q)) as Hq by eauto.
  pose proof (map_size_ne_0_lookup_2 _ _ Hq). rewrite map_size_delete_Some by done. lia.
Qed.

(** The state after moving a pending group to the retired ones, before trimming. *)
Lemma retire_eq q r g :
  receiver_ok r -> pending r !! q = Some g ->
  retire q r = trim_retired (S (length (retired_order r)))
    (set_retired (<[q := {| t_size := g_size g; t_seen := g_seen g |}]> (retired r))
       (retired_order r ++ [q]) (set_pending (delete q) r)).
Proof.
  intros Hr Hg. unfold retire, remember_incomplete. rewrite Hg. cbn [set_pending retired retired_order].
  destruct (ro_apart r Hr q) as [_ ->]; [by eauto|].
  by rewrite length_app, Nat.add_1_r.
Qed.
(** Moving a group to the retired ones, ignoring the bound on them. *)
Definition moved (q : Z) (g : PendingGroup) (r : FecReceiver) : FecReceiver :=
  set_retired (<[q := {| t_size := g_size g; t_seen := g_seen g |}]> (retired r))
    (retired_order r ++ [q]) (set_pending (delete q) r).

Lemma moved_remembers q g r p i :
  receiver_ok r -> pending r !! q = Some g -> remembered r p i -> remembered (moved q g r) p i.
Proof.
  intros Hr Hq [Hc|[(g' & Hg & Hs)|(g' & Hg & Hs)]]; unfold remembered, moved; cbn.
  - by left.
  - right. destruct (decide (p = q)) as [->|].
    + right. rewrite lookup_insert_eq. rewrite Hq in Hg. injection Hg as ->. by eexists.
    + left. rewrite lookup_delete_ne by done. eauto.
  - right. right. destruct (decide (p = q)) as [->|].
    + destruct (ro_apart r Hr q) as [_ E]; [by eauto|congruence].
    + rewrite lookup_insert_ne by done. eauto.
Qed.

(** Replacing the retired groups and dropping a pending one keeps the invariant. *)
Lemma retired_update_ok q g r m order :
  receiver_ok r -> pending r !! q = Some g -> NoDup order ->
  (forall p, is_Some (m !! p) <-> p ∈ order) -> (length order <= RETIRED_GROUPS)%nat ->
  (forall p x, m !! p = Some x -> retired r !! p = Some x \/ p = q /\ length (t_seen x) = 4%nat) ->
  receiver_ok (set_retired m order (set_pending (delete q) r)).
Proof.
  intros [H1 H2 H3 H4 H5 H6 H7 H8 H9 H10 H11] Hq Hnd Hdom Hlen Hm.
  constructor; cbn [set_retired set_pending pending completed completed_set retired retired_order]; try done.
  - rewrite (size_delete_pending r q g Hq) in H1. lia.
  - intros p g' Hp. apply lookup_delete_Some in Hp as [_ Hp]. eauto.
  - intros p x Hx. destruct (Hm p x Hx) as [?|[_ ?]]; [eauto|done].
  - intros p [x Hx]. apply lookup_delete_Some in Hx as [Hne Hx]. destruct (H10 p) as [Hc Hn]; [by eauto|].
    split; [done|]. destruct (m !! p) as [y|] eqn:E; [|done].
    destruct (Hm p y E) as [?|[-> _]]; congruence.
  - intros p Hp. destruct (m !! p) as [y|] eqn:E; [|done].
    destruct (Hm p y E) as [E'|[-> _]]; [by rewrite H11 in E'|].
    exfalso. destruct (H10 q) as [Hc _]; [by eauto|done].
Qed.

(** One abandoned group too many: the oldest is forgotten. *)
Lemma trim_pop fuel r old order :
  retired_order r = old :: order -> (length order <= RETIRED_GROUPS)%nat ->
  (RETIRED_GROUPS < length (old :: order))%nat ->
  trim_retired (S fuel) r = set_retired (delete old (retired r)) order r.
Proof.
  intros Ho Hle Hlt. cbn [trim_retired]. rewrite Ho.
  destruct (Nat.ltb_spec RETIRED_GROUPS (length (old :: order))); [|lia]. by apply trim_id.
Qed.

Lemma moved_order q g r :
  receiver_ok r -> pending r !! q = Some g ->
  NoDup (retired_order r ++ [q]) /\
  (forall p, is_Some (retired (moved q g r) !! p) <-> p ∈ retired_order r ++ [q]) /\
  (forall p x, retired (moved q g r) !! p = Some x ->
     retired r !! p = Some x \/ p = q /\ length (t_seen x) = 4%nat).
Proof.
  intros [H1 H2 H3 H4 H5 H6 H7 H8 H9 H10 H11] Hq.
  destruct (H2 q g Hq) as (ms & rep & Hw%waiting_seen).
  split; [|split].
  - apply NoDup_app. split; [done|]. split; [|apply NoDup_singleton].
    intros x Hx ->%list_elem_of_singleton. apply H7 in Hx as [y Hy].
    destruct (H10 q) as [_ ?]; [by eauto|congruence].
  - intros p. unfold moved. cbn [set_retired retired].
    rewrite lookup_insert_is_Some', elem_of_app, list_elem_of_singleton, H7.
    split; (intros [<-|]; [by right|by left]) || (intros [|]; auto).
  - unfold moved. cbn [set_retired retired].
    intros p x [[-> <-]|[Hne Hx]]%lookup_insert_Some; [by right|by left].
Qed.

Lemma retire_ok P q r :
  receiver_ok r ->
  receiver_ok (retire q r) /\ keeps P r (retire q r) /\ pending (retire q r) = delete q (pending r).
Proof.
  intros Hr. destruct (pending r !! q) as [g|] eqn:Hq.
  2: { unfold retire. rewrite Hq, delete_id by done. done. }
  rewrite (retire_eq q r g Hr Hq). fold (moved q g r).
  destruct (moved_order q g r Hr Hq) as (Hnd & Hdom & Hm).
  assert (forall p, knows (moved q g r) p -> knows r p) as Hknows.
  { intros p. unfold knows, moved. cbn [set_retired pending completed_set retired set_pending].
    rewrite lookup_delete_is_Some, lookup_insert_is_Some'. intros [[_ ?]|[?|[<-|?]]]; eauto. }
  pose proof (ro_retired_room r Hr) as Hroom.
  destruct (decide (length (retired_order r) < RETIRED_GROUPS)%nat) as [Hlt|Hge].
  - rewrite trim_id by (unfold moved; cbn; rewrite length_app; cbn; lia). split; [|split; [|done]].
    + apply (retired_update_ok q g); try done. rewrite length_app. cbn. lia.
    + intros HP Hk. split; [intros p Hp; auto|]. intros p i. by apply moved_remembers.
  - destruct (retired_order r) as [|old order] eqn:Eo; [cbn in Hge; unfold RETIRED_GROUPS in *; lia|].
    cbn [app] in *. cbn [length] in *.
    assert (length (order ++ [q]) <= RETIRED_GROUPS)%nat as Hlen by (rewrite length_app; cbn in *; lia).
    rewrite (trim_pop _ (moved q g r) old (order ++ [q])); [|unfold moved; cbn; by rewrite Eo|done|].
    2: { cbn [length]. rewrite length_app. cbn [length]. lia. }
    split; [|split; [|done]].
    + pose proof Hnd as [Hold Hnd']%NoDup_cons.
      apply (retired_update_ok q g r); try done.
      * intros p. rewrite lookup_delete_is_Some, Hdom, elem_of_cons. split.
        -- intros [? [->|?]]; done.
        -- intros Hp. split; [|by right]. intros <-. done.
      * intros p x Hx. apply lookup_delete_Some in Hx as [_ Hx]. auto.
    + intros HP Hk. exfalso.
      assert (length (old :: order ++ [q]) <= size P)%nat as Hbad.
      { apply room_for; [done|]. intros p Hp. apply Hk, Hknows. right. right. by apply Hdom. }
      cbn [length] in Hbad. rewrite length_app in Hbad. cbn [length] in Hbad. lia.
Qed.

Lemma sweep_ok {HI : HashIter} P now r :
  receiver_ok r ->
  receiver_ok (sweep now r) /\ keeps P r (sweep now r) /\ highest_group (sweep now r) = highest_group r.
Proof.
  unfold sweep. generalize (filter (fun sg : Z * PendingGroup =>
    PENDING_TTL <= sat_sub now (g_created (snd sg))) (hash_iter (pending r))).
  intros l. revert r. induction l as [|[q g] l IH]; intros r Hr; [done|]. cbn [fold_left fst].
  destruct (retire_ok P q r Hr) as (Hr' & Hk & _).
  destruct (IH _ Hr') as (H1 & H2 & ->). split; [done|]. split; [by etransitivity|].
  by destruct (frame_retire (q + 1) q r ltac:(lia)).
Qed.

(** ** Completing a group *)

(** The receiver is fine but for the group at [q], which may be full. *)
Definition ok_but (q : Z) (r : FecReceiver) : Prop :=
  receiver_ok (set_pending (delete q) r) /\ (size (pending r) <= MAX_PENDING_GROUPS)%nat /\
  (q ∉ completed_set r) /\ retired r !! q = None.

Lemma ok_but_intro q f r :
  receiver_ok r -> is_Some (pending r !! q) -> ok_but q (set_pending (<[q := f]>) r).
Proof.
  intros Hr [g Hq]. pose proof Hr as [H1 H2 H3 H4 H5 H6 H7 H8 H9 H10 H11].
  destruct (H10 q) as [Hc Hn]; [by eauto|]. split; [|split; [|done]].
  - constructor; cbn; rewrite ?delete_insert_eq; try done.
    + pose proof (size_delete_pending r q g Hq). lia.
    + intros p g' [_ Hp]%lookup_delete_Some. eauto.
    + intros p Hp%lookup_delete_is_Some. apply H10. by destruct Hp.
  - cbn. rewrite map_size_insert_Some; [done|by eauto].
Qed.

Lemma ok_but_restore q r g ms rep :
  ok_but q r -> pending r !! q = Some g -> waiting g ms rep -> receiver_ok r.
Proof.
  intros ([H1 H2 H3 H4 H5 H6 H7 H8 H9 H10 H11] & Hs & Hc & Hn) Hq Hw. constructor; try done.
  - intros p g' Hp. destruct (decide (p = q)) as [->|Hne].
    + rewrite Hq in Hp. injection Hp as <-. eauto.
    + apply (H2 p). cbn. by rewrite lookup_delete_ne.
  - intros p Hp. destruct (decide (p = q)) as [->|Hne]; [done|].
    apply (H10 p). cbn. by rewrite lookup_delete_ne.
Qed.

(** Forgetting a completed group, and remembering a new one. *)
Lemma completed_update_ok q r l c :
  ok_but q r -> NoDup l -> (forall p, p ∈ c <-> p ∈ l) -> (length l <= COMPLETED_GROUPS)%nat ->
  (forall p, p ∈ c -> p = q \/ p ∈ completed_set r) ->
  receiver_ok (set_completed l c (set_pending (delete q) r)).
Proof.
  intros ([H1 H2 H3 H4 H5 H6 H7 H8 H9 H10 H11] & Hs & Hc & Hn) Hnd Hdom Hlen Hsub.
  constructor; cbn in *; try done.
  - intros p Hp. split; [|by apply H10]. intros [->|Hin]%Hsub.
    + apply lookup_delete_is_Some in Hp as [? _]. done.
    + by apply H10 in Hp as [? _].
  - intros p [->|Hin]%Hsub; [done|]. by apply H11.
Qed.

Lemma complete_group_ok P q r :
  ok_but q r -> is_Some (pending r !! q) ->
  receiver_ok (complete_group q r) /\ keeps P r (complete_group q r).
Proof.
  intros Hok Hq. pose proof Hok as ([H1 H2 H3 H4 H5 H6 H7 H8 H9 H10 H11] & Hs & Hc & Hn).
  cbn in *. unfold complete_group. cbn [set_pending completed_set].
  rewrite bool_decide_eq_false_2 by done. cbn [set_completed set_pending completed].
  assert (NoDup (completed r ++ [q])) as Hnd.
  { apply NoDup_app. split; [done|]. split; [|apply NoDup_singleton].
    intros x Hx ->%list_elem_of_singleton. by apply Hc, H4. }
  assert (forall p, p ∈ {[q]} ∪ completed_set r <-> p ∈ completed r ++ [q]) as Hdom
    by (intros p; rewrite elem_of_app, elem_of_union, H4, elem_of_singleton, list_elem_of_singleton; tauto).
  destruct (Nat.ltb_spec COMPLETED_GROUPS (length (completed r ++ [q]))) as [Hlt|Hle].
  - rewrite length_app in Hlt. cbn [length] in Hlt.
    destruct (completed r) as [|old order] eqn:Eo; [cbn in Hlt; unfold COMPLETED_GROUPS in *; lia|].
    cbn [app] in *. split.
    + pose proof Hnd as [Hold Hnd']%NoDup_cons.
      apply completed_update_ok; try done.
      * intros p. rewrite elem_of_difference, Hdom, elem_of_cons, elem_of_singleton. split; [tauto|].
        intros Hp. split; [by right|]. intros ->. done.
      * cbn [length] in *. rewrite length_app. cbn [length]. lia.
      * intros p. set_solver.
    + intros HP Hk. exfalso. assert (length (old :: order ++ [q]) <= size P)%nat as Hbad.
      { apply room_for; [done|]. intros p Hp%Hdom. apply Hk. apply elem_of_union in Hp as [Hp|Hp].
        - apply elem_of_singleton in Hp as ->. by left.
        - right. by left. }
      cbn [length] in *. rewrite length_app in Hbad. cbn [length] in Hbad.
      unfold COMPLETED_GROUPS, RETIRED_GROUPS in *. lia.
  - split; [apply completed_update_ok; try done; set_solver|].
    intros HP Hk. split.
    + intros p. unfold knows. cbn. rewrite lookup_delete_is_Some. intros Hp. apply Hk. unfold knows.
      set_solver.
    + intros p i. unfold remembered. cbn. intros [Hp|[(g & Hg & Hi)|Hp]].
      * left. set_solver.
      * destruct (decide (p = q)) as [->|Hne]; [left; set_solver|].
        right. left. rewrite lookup_delete_ne by done. eauto.
      * by repeat right.
Qed.

(** ** The operations *)

Lemma finish_ok P q acc r g ms rep :
  ok_but q r -> pending r !! q = Some g -> group_holds g ms -> repair_holds g rep ->
  (forall x, rep = Some x -> longest ms.*2 <= len x) ->
  exists r' res, finish q acc r = (r', Ok res) /\ accepted res = acc /\
    receiver_ok r' /\ keeps P r r'.
Proof.
  intros Hok Hq Hg Hrep Hx. unfold finish. erewrite mbind_Ok by reflexivity. rewrite Hq.
  pose proof Hg as [Hs _ _ _ _ _ Hc Hnd Hm].
  pose proof (NoDup_below _ _ Hnd (members_indices _ _ Hm)) as Hle. rewrite length_fmap in Hle.
  destruct (complete_group_ok P q r Hok ltac:(by eauto)) as [Hdone Hkeep].
  destruct (Z.eqb_spec (g_count g) (g_size g)) as [Hfull|Hpart].
  { do 2 eexists. split; [reflexivity|]. done. }
  destruct ((1 <=? g_size g) && (g_count g =? g_size g - 1) && bool_decide (is_Some (g_repair g))) eqn:Er.
  { do 2 eexists. split; [reflexivity|]. done. }
  do 2 eexists. split; [reflexivity|]. split; [done|]. split; [|done].
  apply (ok_but_restore q r g ms rep Hok Hq). split; [done|]. split; [done|]. split; [lia|].
  split; [|done]. intros [Hn [x ->]]. destruct Hrep as [Hr _]. rewrite Hr in Er.
  rewrite bool_decide_eq_true_2, andb_true_r in Er by (by eexists). lia.
Qed.

(** Room for a new group, made by abandoning the oldest one. *)
Lemma make_group_ok P pos n now t r :
  receiver_ok r -> (size (pending r) < MAX_PENDING_GROUPS)%nat -> pending r !! pos = None ->
  (pos ∉ completed_set r) -> retired r !! pos = None -> 0 < n < 256 -> pos ∈ P ->
  let r' := set_pending (<[pos := new_group n now t]>) (set_next_ticket (wrap64 (t + 1)) r) in
  receiver_ok r' /\ keeps P r r'.
Proof.
  intros [H1 H2 H3 H4 H5 H6 H7 H8 H9 H10 H11] Hroom Hnew Hc Hn Hsz HP. split.
  - constructor; cbn; try done.
    + rewrite map_size_insert_None by done. lia.
    + intros p g [[<- <-]|[_ Hp]]%lookup_insert_Some; [|by eauto].
      exists [], None. split; [by apply new_group_holds|]. split; [done|].
      cbn. split; [lia|]. split; [|done]. by intros [_ []].
    + intros p [<-|Hp]%lookup_insert_is_Some'; [done|by apply H10].
  - intros _ Hk. split.
    + unfold knows. cbn. intros p [[<-|Hp]%lookup_insert_is_Some'|Hp];
        [done|apply Hk; by left|apply Hk; by right].
    + intros p i [Hp|[(g & Hg & Hi)|Hp]]; [by left| |by repeat right].
      right. left. exists g. cbn. split; [|done]. rewrite lookup_insert_ne; [done|congruence].
Qed.

Lemma ensure_group_ok {HI : HashIter} P pos n now r :
  receiver_ok r -> (pos ∉ completed_set r) -> retired r !! pos = None -> 0 < n < 256 ->
  (exists g, pending r !! pos = Some g /\ g_size g <> n /\
     ensure_group pos n now r = (r, Err (InvalidPacket "Conflicting FEC group size"))) \/
  exists r' g ms rep, ensure_group pos n now r = (r', Ok g) /\ receiver_ok r' /\
    pending r' !! pos = Some g /\ waiting g ms rep /\ g_size g = n /\
    (pos ∈ P -> keeps P r r') /\ highest_group r' = highest_group r.
Proof.
  intros Hr Hc Hn Hsz. unfold ensure_group. erewrite mbind_Ok by reflexivity.
  destruct (pending r !! pos) as [g|] eqn:Hp.
  { destruct (Z.eqb_spec (g_size g) n) as [E|E]; cbn [negb]; [right|left; by eauto].
    destruct (ro_groups r Hr pos g Hp) as (ms & rep & Hw). exists r, g, ms, rep. done. }
  right.
  set (r1 := if (MAX_PENDING_GROUPS <=? size (pending r))%nat then
    match min_by older (hash_iter (pending r)) with Some (o, _) => retire o r | None => r end else r).
  assert (receiver_ok r1 /\ (size (pending r1) < MAX_PENDING_GROUPS)%nat /\ keeps P r r1 /\
          frame pos r r1) as (Hr1 & Hs1 & Hk1 & [F1 F2 F3 F4]).
  { unfold r1. destruct (Nat.leb_spec MAX_PENDING_GROUPS (size (pending r))) as [Hfull|];
      [|split; [done|]; split; [done|]; split; [done|apply frame_refl]].
    destruct (min_by _ _) as [[q g]|] eqn:Em.
    - apply min_by_elem, elem_of_iter in Em. destruct (retire_ok P q r Hr) as (? & ? & Hd).
      split; [done|]. rewrite Hd. pose proof (size_delete_pending r q g Em).
      pose proof (ro_room r Hr). split; [lia|]. split; [done|]. apply frame_retire. congruence.
    - apply min_by_None in Em. pose proof (length_iter (pending r)) as Hl. rewrite Em in Hl.
      cbn [length] in Hl. unfold MAX_PENDING_GROUPS in *. lia. }
  rewrite Hp in F1. rewrite <-F2 in Hc. specialize (F3 Hn).
  exists (set_pending (<[pos := new_group n now (next_ticket r1)]>)
            (set_next_ticket (wrap64 (next_ticket r1 + 1)) r1)), (new_group n now (next_ticket r1)), [], None.
  split.
  { unfold mbind, mmod, mret, mget, r1. destruct (_ <=? _)%nat; [|done]. by destruct (min_by _ _) as [[q g]|]. }
  split; [apply (make_group_ok {[pos]}); try done; set_solver|]. split; [cbn; by rewrite lookup_insert_eq|].
  split; [|split; [done|split; [|done]]].
  - split; [by apply new_group_holds|]. split; [done|]. split; [cbn; lia|]. split; [by intros [_ []]|done].
  - intros HP. etransitivity; [exact Hk1|]. by apply make_group_ok.
Qed.

Lemma bitmap_mark_keeps seen i j :
  length seen = 4%nat -> 0 <= i < 256 ->
  bitmap_seen seen j = true -> bitmap_seen (bitmap_mark seen i) j = true.
Proof.
  intros Hl Hi. rewrite !bitmap_seen_testbit. unfold bitmap_mark.
  assert (Z.to_nat (i / 64) < 4)%nat by divlia.
  destruct (decide (Z.to_nat (i / 64) = Z.to_nat (j / 64))) as [<-|E].
  - rewrite list_lookup_insert_eq by lia. cbn [from_option id]. rewrite Z.lor_spec. by intros ->.
  - by rewrite list_lookup_insert_ne.
Qed.

Lemma bitmap_mark_seen seen i :
  length seen = 4%nat -> 0 <= i < 256 -> bitmap_seen (bitmap_mark seen i) i = true.
Proof. intros Hl Hi. by rewrite bitmap_seen_mark, Z.eqb_refl. Qed.

(** Updating the group at [pos] with one that has seen at least as much. *)
Lemma pending_update_keeps P pos g g' r :
  pending r !! pos = Some g ->
  (forall i, bitmap_seen (g_seen g) i = true -> bitmap_seen (g_seen g') i = true) ->
  keeps P r (set_pending (<[pos := g']>) r).
Proof.
  intros Hp Hseen _ Hk. split.
  - unfold knows. cbn. intros p [[<-|Hp']%lookup_insert_is_Some'|Hp']; apply Hk;
      [left; by eauto|by left|by right].
  - unfold remembered. cbn. intros p i [?|[(x & Hx & Hi)|?]]; [by left| |by repeat right].
    right. left. destruct (decide (p = pos)) as [->|Hne].
    + rewrite lookup_insert_eq. rewrite Hp in Hx. injection Hx as ->. eauto.
    + rewrite lookup_insert_ne by done. eauto.
Qed.

Lemma retired_mark_ok P pos g i r :
  receiver_ok r -> retired r !! pos = Some g -> 0 <= i < 256 ->
  let r' := set_retired (<[pos := {| t_size := t_size g; t_seen := bitmap_mark (t_seen g) i |}]>
                           (retired r)) (retired_order r) r in
  receiver_ok r' /\ keeps P r r' /\ remembered r' pos i.
Proof.
  intros Hr Hp Hi. pose proof Hr as [H1 H2 H3 H4 H5 H6 H7 H8 H9 H10 H11].
  pose proof (H9 pos g Hp) as Hl.
  assert (forall p, is_Some (<[pos := {| t_size := t_size g; t_seen := bitmap_mark (t_seen g) i |}]>
            (retired r) !! p) <-> is_Some (retired r !! p)) as Hdom.
  { intros p. rewrite lookup_insert_is_Some'. split; [|by right]. intros [<-|?]; [by eauto|done]. }
  assert (forall p, retired r !! p = None ->
            <[pos := {| t_size := t_size g; t_seen := bitmap_mark (t_seen g) i |}]> (retired r) !! p = None) as Hnone.
  { intros p. rewrite !eq_None_not_Some. by rewrite Hdom. }
  split; [|split].
  - constructor; cbn; try done.
    + intros p. by rewrite Hdom.
    + intros p x [[_ <-]|[_ Hx]]%lookup_insert_Some; [cbn; by rewrite length_bitmap_mark|by eauto].
    + intros p Hp'. destruct (H10 p Hp'). auto.
    + intros p Hp'. auto.
  - intros _ Hk. split.
    + unfold knows. cbn. intros p. rewrite Hdom. apply Hk.
    + unfold remembered. cbn. intros p j [?|[?|(x & Hx & Hj)]]; [by left|right; by left|].
      right. right. destruct (decide (p = pos)) as [->|Hne].
      * rewrite lookup_insert_eq. eexists. split; [done|]. cbn.
        rewrite Hp in Hx. injection Hx as ->. by apply bitmap_mark_keeps.
      * rewrite lookup_insert_ne by done. eauto.
  - right. right. cbn. rewrite lookup_insert_eq. eexists. split; [done|]. cbn. by apply bitmap_mark_seen.
Qed.

(** The positions in use fit the receiver's memory. *)
Definition fits (P : gset Z) (r : FecReceiver) : Prop :=
  (size P <= RETIRED_GROUPS)%nat /\ forall p, knows r p -> p ∈ P.

(** What each step guarantees: it does not panic, keeps the invariant, and
    forgets nothing while there is room. *)
Definition sound_step {A} (P : gset Z) (r r' : FecReceiver) (res : outcome A) : Prop :=
  receiver_ok r' /\ res <> Panic /\ keeps P r r'.

(** A packet is accepted only if it was not remembered, and then it is. *)
Definition accepts_new (P : gset Z) (pos i : Z) (r r' : FecReceiver) (res : outcome FecRxResult) : Prop :=
  forall x, res = Ok x -> accepted x = true -> fits P r -> ~ remembered r pos i /\ remembered r' pos i.

Lemma sound_step_after {A} P r r1 r' (res : outcome A) :
  keeps P r r1 -> sound_step P r1 r' res -> sound_step P r r' res.
Proof. intros Hk (? & ? & ?). split; [done|]. split; [done|]. by etransitivity. Qed.

Lemma accepts_new_after P pos i r r1 r' res :
  keeps P r r1 -> accepts_new P pos i r1 r' res -> accepts_new P pos i r r' res.
Proof.
  intros Hk H x Hx Ha [HP Hf]. destruct (Hk HP Hf) as [Hf1 Hm].
  destruct (H x Hx Ha) as [H1 H2]; [done|]. auto.
Qed.

Lemma accepts_new_not P pos i r r' res :
  (forall x, res = Ok x -> accepted x = false) -> accepts_new P pos i r r' res.
Proof. intros H x Hx Ha. rewrite (H x Hx) in Ha. done. Qed.

Lemma sound_step_stay {A} P r (res : outcome A) : receiver_ok r -> res <> Panic -> sound_step P r r res.
Proof. intros Hr Hres. split; [done|]. by split. Qed.

Lemma entered_ok {HI : HashIter} P now seq r :
  receiver_ok r ->
  receiver_ok (advanced (sweep now r) seq) /\ keeps P r (advanced (sweep now r) seq) /\
  position (sweep now r) seq = position r seq.
Proof.
  intros Hr. destruct (sweep_ok P now r Hr) as (Hr1 & Hk & Hh). split; [by destruct Hr1|].
  split; [by etransitivity|]. unfold position. by rewrite Hh.
Qed.

Lemma waiting_absorb g ms rep i p :
  waiting g ms rep -> 0 <= i < g_size g -> bitmap_seen (g_seen g) i = false ->
  0 < len p <= MAX_PACKET_SIZE ->
  match g_repair g with Some x => r_len x <? len p | None => false end = false ->
  let g' := mark_and_count (absorb g p) i in
  group_holds g' ((i, p) :: ms) /\ repair_holds g' rep /\
  (forall x, rep = Some x -> longest ((i, p) :: ms).*2 <= len x).
Proof.
  intros (Hg & Hr & _ & _ & Hx) Hi Hs Hp Hrep. pose proof Hg as [Hsz _ _ _ _ Hseen _ _ _].
  rewrite Hseen in Hs by lia. apply bool_decide_eq_false in Hs.
  split; [by apply group_holds_add|]. split; [done|].
  intros x ->. destruct Hr as [Hr _]. rewrite Hr in Hrep. cbn [r_len] in Hrep.
  apply Z.ltb_ge in Hrep. cbn [fmap list_fmap snd]. rewrite longest_cons.
  specialize (Hx x eq_refl). lia.
Qed.

Lemma record_group_ok P pos i p r g ms rep :
  receiver_ok r -> pending r !! pos = Some g -> waiting g ms rep -> 0 <= i < g_size g ->
  0 < len p <= MAX_PACKET_SIZE -> bitmap_seen (g_seen g) i = false ->
  match g_repair g with Some x => r_len x <? len p | None => false end = false ->
  let '(r', res) := finish pos true (set_pending (<[pos := mark_and_count (absorb g p) i]>) r) in
  sound_step P r r' res /\ accepts_new P pos i r r' res.
Proof.
  intros Hr Hp Hw Hi Hlen Hs Hrep. pose proof (waiting_seen _ _ _ Hw) as Hl.
  pose proof Hw as ([Hsz _ _ _ _ _ _ _ _] & _).
  destruct (waiting_absorb g ms rep i p Hw Hi Hs Hlen Hrep) as (Hg & Hrh & Hx).
  destruct (finish_ok P pos true (set_pending (<[pos := mark_and_count (absorb g p) i]>) r)
    (mark_and_count (absorb g p) i) ((i, p) :: ms) rep) as (r' & res & -> & Ha & Hr' & Hk); try done.
  { apply ok_but_intro; [done|by eauto]. }
  { cbn. by rewrite lookup_insert_eq. }
  assert (keeps P r (set_pending (<[pos := mark_and_count (absorb g p) i]>) r)) as Hk1.
  { apply (pending_update_keeps P pos g); [done|]. intros j. cbn. apply bitmap_mark_keeps; [done|lia]. }
  split; [split; [done|]; split; [done|by etransitivity]|].
  intros x _ _ [HP Hf]. destruct (Hk1 HP Hf) as [Hf1 _]. destruct (Hk HP Hf1) as [_ Hm]. split.
  - destruct (ro_apart r Hr pos) as [Hc Hn]; [by eauto|].
    intros [?|[(y & Hy & Hyi)|(y & Hy & _)]]; [done| |congruence].
    rewrite Hp in Hy. injection Hy as <-. congruence.
  - apply Hm. right. left. cbn. rewrite lookup_insert_eq. eexists. split; [done|]. cbn.
    apply bitmap_mark_seen; [done|lia].
Qed.

Lemma validate_member_cases meta n :
  0 <= FecMetadata.group_size meta -> 0 <= n ->
  (exists e, validate_member meta n = Err e) \/
  validate_member meta n = Ok tt /\ 0 < FecMetadata.group_size meta /\
  FecMetadata.index meta < FecMetadata.group_size meta /\ 0 < n <= MAX_PACKET_SIZE.
Proof.
  intros Hg Hn. unfold validate_member.
  destruct ((FecMetadata.group_size meta =? 0) || (FecMetadata.group_size meta <=? FecMetadata.index meta))
    eqn:E1; [left; by eexists|].
  destruct ((n =? 0) || (MAX_PACKET_SIZE <? n)) eqn:E2; [left; by eexists|].
  right. split; [done|]. lia.
Qed.

Lemma record_ok {HI : HashIter} P meta p now r :
  receiver_ok r -> 0 <= FecMetadata.group_size meta < 256 -> 0 <= FecMetadata.index meta ->
  let pos := position r (FecMetadata.group_seq meta) in
  pos ∈ P ->
  let '(r', res) := record meta p now r in
  sound_step P r r' res /\ accepts_new P pos (FecMetadata.index meta) r r' res.
Proof.
  intros Hr Hg Hi pos HP. unfold record.
  destruct (validate_member_cases meta (len p)) as [[e E]|(E & Hg0 & Hig & Hlen)]; [lia|lia|..];
    unfold mbind at 1, mlift at 1; rewrite E.
  { split; [by apply sound_step_stay|by apply accepts_new_not]. }
  erewrite mbind_Ok by reflexivity. erewrite mbind_Ok by apply advance_eq.
  destruct (entered_ok P now (FecMetadata.group_seq meta) r Hr) as (Hr1 & Hk1 & ->). fold pos.
  revert Hr1 Hk1. generalize (advanced (sweep now r) (FecMetadata.group_seq meta)). intros r1 Hr1 Hk1.
  assert (forall r' res, sound_step P r1 r' res /\ accepts_new P pos (FecMetadata.index meta) r1 r' res ->
    sound_step P r r' res /\ accepts_new P pos (FecMetadata.index meta) r r' res) as Hlift.
  { intros r' res []. split; [by eapply sound_step_after|by eapply accepts_new_after]. }
  erewrite mbind_Ok by reflexivity.
  assert (forall r' res, receiver_ok r' -> keeps P r1 r' -> res <> Panic ->
    (forall x, res = Ok x -> accepted x = false) ->
    sound_step P r r' res /\ accepts_new P pos (FecMetadata.index meta) r r' res) as Hstay.
  { intros r' res ????. apply Hlift. split; [by split|by apply accepts_new_not]. }
  destruct (bool_decide_reflect (pos ∈ completed_set r1)) as [Hc|Hc].
  { apply Hstay; [done..|]. by intros x [= <-]. }
  unfold accept_retired. unfold mbind at 1 2, mget at 1.
  destruct (retired r1 !! pos) as [t|] eqn:Ht; cbn [mret].
  { destruct (negb _); [by apply Hstay|].
    destruct (bitmap_seen (t_seen t) (FecMetadata.index meta)) eqn:Es; cbn.
    { apply Hstay; [done..|]. by intros x [= <-]. }
    destruct (retired_mark_ok P pos t (FecMetadata.index meta) r1 Hr1 Ht ltac:(lia)) as (H1 & H2 & H3).
    apply Hlift. split; [by split|]. intros x _ _ _. split; [|done].
    intros [?|[(y & Hy & _)|(y & Hy & Hyi)]]; [done| |congruence].
    destruct (ro_apart r1 Hr1 pos) as [_ ?]; [by eauto|congruence]. }
  destruct (ensure_group_ok P pos (FecMetadata.group_size meta) now r1 Hr1 Hc Ht ltac:(lia))
    as [(g & Hpg & _ & Eg)|(r2 & g & ms & rep & Eg & Hr2 & Hpg & Hw & Hsz & Hk2 & _)];
    unfold mbind at 1; rewrite Eg.
  { by apply Hstay. }
  specialize (Hk2 HP).
  destruct (bitmap_seen (g_seen g) (FecMetadata.index meta)) eqn:Es.
  { apply Hstay; [done..|]. by intros x [= <-]. }
  destruct (match g_repair g with Some x => r_len x <? len p | None => false end) eqn:Er.
  { by apply Hstay. }
  erewrite mbind_Ok by reflexivity.
  pose proof (record_group_ok P pos (FecMetadata.index meta) p r2 g ms rep Hr2 Hpg Hw
    ltac:(lia) Hlen Es Er) as Hfin.
  destruct (finish pos true _) as [r' res]. apply Hlift. destruct Hfin.
  split; [by eapply sound_step_after|by eapply accepts_new_after].
Qed.

Lemma repair_ok {HI : HashIter} P rep now r :
  receiver_ok r -> 0 <= FecRepair.group_size rep < 256 ->
  position r (FecRepair.group_seq rep) ∈ P ->
  let '(r', res) := repair rep now r in sound_step P r r' res.
Proof.
  intros Hr Hg HP. unfold repair.
  destruct (Z.eqb_spec (FecRepair.group_size rep) 0); [by apply sound_step_stay|].
  destruct ((_ =? _) || _) eqn:El; [by apply sound_step_stay|].
  erewrite mbind_Ok by reflexivity. erewrite mbind_Ok by apply advance_eq.
  destruct (entered_ok P now (FecRepair.group_seq rep) r Hr) as (Hr1 & Hk1 & ->).
  revert HP Hr1 Hk1. generalize (advanced (sweep now r) (FecRepair.group_seq rep)).
  generalize (position r (FecRepair.group_seq rep)). intros pos r1 HP Hr1 Hk1.
  erewrite mbind_Ok by reflexivity.
  destruct (bool_decide_reflect (pos ∈ completed_set r1)) as [Hc|Hc]; [by split|].
  destruct (retired r1 !! pos) as [t|] eqn:Ht.
  { destruct (negb _); by split. }
  destruct (ensure_group_ok P pos (FecRepair.group_size rep) now r1 Hr1 Hc Ht ltac:(lia))
    as [(g & Hpg & _ & Eg)|(r2 & g & ms & old & Eg & Hr2 & Hpg & Hw & Hsz & Hk2 & _)];
    unfold mbind at 1; rewrite Eg; [by split|].
  assert (keeps P r r2) as Hk by (etransitivity; [exact Hk1|auto]).
  destruct Hw as (Hgh & Hrh & _).
  destruct old as [x|]; unfold repair_holds in Hrh; [destruct Hrh as [-> _]|rewrite Hrh].
  { cbv zeta. destruct (negb _); by split. }
  destruct (Z.ltb_spec (len (FecRepair.xor_data rep)) (g_xor_len g)) as [|Hle]; [by split|].
  erewrite mbind_Ok by reflexivity.
  destruct (finish_ok P pos true (set_pending (<[pos := store_repair g (FecRepair.xor_data rep)]>) r2)
    (store_repair g (FecRepair.xor_data rep)) ms (Some (FecRepair.xor_data rep)))
    as (r' & res & -> & _ & Hr' & Hk'); try done.
  - apply ok_but_intro; [done|by eauto].
  - cbn. by rewrite lookup_insert_eq.
  - by destruct Hgh.
  - split; [done|]. lia.
  - intros x [= <-]. destruct Hgh. lia.
  - split; [done|]. split; [done|]. etransitivity; [|exact Hk'].
    etransitivity; [exact Hk|]. by apply (pending_update_keeps P pos g).
Qed.

Lemma default_receiver_ok : receiver_ok default_receiver.
Proof.
  constructor; cbn; rewrite ?lookup_empty; try done; try apply NoDup_nil; try set_solver; try apply Nat.le_0_l.
  - intros p. rewrite lookup_empty. split; [by intros []|set_solver].
Qed.

(** The receiver's invariant holds initially and every packet keeps it: at
    most 8 groups in progress, each an exact record of the distinct packets
    absorbed and never recoverable or complete, at most 512 completed and 512
    abandoned groups remembered without repetition, and no group in two of these
    states. No packet, however malformed, makes the receiver panic. *)
Theorem fec_receiver_invariant {HI : HashIter} r now meta payload rep :
  receiver_ok r -> 0 <= FecMetadata.group_size meta < 256 -> 0 <= FecMetadata.index meta ->
  0 <= FecRepair.group_size rep < 256 ->
  receiver_ok default_receiver /\
  (receiver_ok (record meta payload now r).1 /\ (record meta payload now r).2 <> Panic) /\
  (receiver_ok (repair rep now r).1 /\ (repair rep now r).2 <> Panic).
Proof.
  intros Hr Hg Hi Hgr. split; [apply default_receiver_ok|]. split.
  - pose proof (record_ok {[position r (FecMetadata.group_seq meta)]} meta payload now r Hr Hg Hi
      ltac:(set_solver)) as H.
    destruct (record _ _ _ _) as [r' res]. destruct H as [(? & ? & _) _]. done.
  - pose proof (repair_ok {[position r (FecRepair.group_seq rep)]} rep now r Hr Hgr
      ltac:(set_solver)) as H.
    destruct (repair _ _ _) as [r' res]. by destruct H as (? & ? & _).
Qed.

(** ** Streams of packets *)

Inductive input : Type :=
  | InData (meta : FecMetadata.t) (payload : bytes)
  | InRepair (rep : FecRepair.t).

Definition input_wf (x : input) : Prop :=
  match x with
  | InData meta _ => 0 <= FecMetadata.group_size meta < 256 /\ 0 <= FecMetadata.index meta
  | InRepair rep => 0 <= FecRepair.group_size rep < 256
  end.

Definition input_position (r : FecReceiver) (x : input) : Z :=
  position r (match x with InData meta _ => FecMetadata.group_seq meta
                         | InRepair rep => FecRepair.group_seq rep end).

Section Streams.
Context {HI : HashIter}.

Definition handle (x : input) (now : Z) : method FecReceiver FecRxResult :=
  match x with
  | InData meta payload => record meta payload now
  | InRepair rep => repair rep now
  end.

(** The packet forwarded by a step, as its group position and index. *)
Definition forwarded (r : FecReceiver) (x : input) (res : outcome FecRxResult) : list (Z * Z) :=
  match x, res with
  | InData meta _, Ok y =>
      if accepted y then [(input_position r x, FecMetadata.index meta)] else []
  | _, _ => []
  end.

(** A stream of packets with their arrival times: the group positions it
    touches and the packets it forwards. *)
Fixpoint stream (xs : list (input * Z)) (r : FecReceiver) : list Z * list (Z * Z) :=
  match xs with
  | [] => ([], [])
  | (x, now) :: xs =>
      let '(r', res) := handle x now r in
      let '(ps, fs) := stream xs r' in
      (input_position r x :: ps, forwarded r x res ++ fs)
  end.

Lemma handle_ok P x now r :
  receiver_ok r -> input_wf x -> input_position r x ∈ P ->
  let '(r', res) := handle x now r in
  sound_step P r r' res /\
  (fits P r -> forall p i, (p, i) ∈ forwarded r x res -> ~ remembered r p i /\ remembered r' p i).
Proof.
  intros Hr Hx HP. destruct x as [meta payload|rep]; cbn [handle input_wf] in *.
  - destruct Hx as [Hg Hi]. pose proof (record_ok P meta payload now r Hr Hg Hi HP) as H.
    destruct (record _ _ _ _) as [r' res]. destruct H as [Hs Ha]. split; [done|].
    intros Hf p i. unfold forwarded. destruct res as [y| |]; [|set_solver..].
    destruct (accepted y) eqn:Ey; [|set_solver]. intros [= -> ->]%list_elem_of_singleton.
    by apply (Ha y).
  - pose proof (repair_ok P rep now r Hr Hx HP) as H. destruct (repair _ _ _) as [r' res].
    split; [done|]. set_solver.
Qed.

Lemma stream_once P xs r :
  receiver_ok r -> fits P r -> Forall (fun e => input_wf (fst e)) xs ->
  (forall p, p ∈ (stream xs r).1 -> p ∈ P) ->
  NoDup (stream xs r).2 /\ (forall p i, (p, i) ∈ (stream xs r).2 -> ~ remembered r p i).
Proof.
  revert r. induction xs as [|[x now] xs IH]; intros r Hr Hf Hxs HP.
  { split; [constructor|set_solver]. }
  apply Forall_cons in Hxs as [Hx Hxs]. cbn [fst] in Hx. cbn [stream] in *.
  destruct (handle x now r) as [r' res] eqn:Eh. destruct (stream xs r') as [ps fs] eqn:Es. cbn [fst snd] in *.
  pose proof (handle_ok P x now r Hr Hx ltac:(apply HP; left)) as H. rewrite Eh in H.
  destruct H as [(Hr' & _ & Hk) Hnew]. specialize (Hnew Hf). destruct Hf as [Hsz Hf].
  destruct (Hk Hsz Hf) as [Hf' Hm].
  destruct (IH r' Hr' (conj Hsz Hf') Hxs) as [Hnd Hrest]; rewrite Es in *; cbn [fst snd] in *.
  { intros p Hp. apply HP. by right. }
  split.
  - apply NoDup_app. split; [|split; [|done]].
    + unfold forwarded. destruct x, res as [y| |]; try constructor.
      destruct (accepted y); [apply NoDup_singleton|constructor].
    + intros [p i] Hin Hin'. apply (Hrest p i Hin'), (Hnew p i Hin).
  - intros p i [Hin|Hin]%elem_of_app; [by apply Hnew|]. intros Hrem. apply (Hrest p i Hin). auto.
Qed.

(** No packet is forwarded twice: in any stream of data and repair packets,
    in any order, with duplicates, gaps and delays of any length, whose groups
    number at most 512, each index of each group is accepted at most once. *)
Theorem fec_no_double_accept (P : gset Z) xs :
  Forall (fun e => input_wf (fst e)) xs ->
  (forall p, p ∈ (stream xs default_receiver).1 -> p ∈ P) -> (size P <= RETIRED_GROUPS)%nat ->
  NoDup (stream xs default_receiver).2.
Proof.
  intros Hxs HP Hsz. apply (stream_once P); [apply default_receiver_ok| |done|done].
  split; [done|]. unfold knows. cbn. intros p [[? ?]|[?|[? ?]]]; set_solver.
Qed.
End Streams.

Lemma fec_receiver_invariant_witness :
  receiver_ok (repair (HI := ordered_iter) {| FecRepair.group_seq := 1; FecRepair.group_size := 4;
    FecRepair.xor_data := [1; 2] |} 0 default_receiver).1.
Proof.
  apply (fec_receiver_invariant (HI := ordered_iter) default_receiver 0
    {| FecMetadata.group_seq := 1; FecMetadata.group_size := 4; FecMetadata.index := 2 |} [3]);
    [apply default_receiver_ok|cbn; lia..].
Defined.

Definition sample_stream : list (input * Z) :=
  let data i := InData {| FecMetadata.group_seq := 9; FecMetadata.group_size := 3;
                          FecMetadata.index := i |} [i; i + 1] in
  [(data 0, 0); (data 0, 1); (data 1, 2); (data 0, PENDING_TTL + 1); (data 2, PENDING_TTL + 2)].

Lemma fec_no_double_accept_witness :
  (stream (HI := ordered_iter) sample_stream default_receiver).2 = [(65545, 0); (65545, 1); (65545, 2)] /\
  NoDup (stream (HI := ordered_iter) sample_stream default_receiver).2.
Proof.
  split; [vm_compute; reflexivity|].
  apply (fec_no_double_accept (HI := ordered_iter) {[65545]}).
  - repeat constructor; vm_compute; congruence.
  - assert ((stream (HI := ordered_iter) sample_stream default_receiver).1
      = [65545; 65545; 65545; 65545; 65545]) as -> by (vm_compute; reflexivity).
    intros p. set_solver.
  - apply Nat.leb_le. vm_compute. reflexivity.
Defined.
