(* ===== verification/FecSender.v ===== *)
(** * The sender of repair packets

    [FecSender] ([crates/aivpn-common/src/fec.rs]), shared by the desktop and the
    mobile clients: it numbers the packets of a group, hands the finished repair
    to the caller's encryption and queues the result. A new group size waits for
    the end of the group in progress. The abstract sender below keeps the packets
    of the group instead of their XOR, and the code refines it. *)

From S2P Require Import Prelude Protocol Fec Fragment FecReceiver.
Local Open Scope Z_scope.

(** ** The code *)

Record FecSender : Type := {
  encoder : option FecEncoder.t;
  pending_packets : list bytes;
  requested_group : Z;
  next_group_seq : Z;
}.

Definition default_sender : FecSender :=
  {| encoder := None; pending_packets := []; requested_group := 0; next_group_seq := 0 |}.

Definition with_encoder (e : option FecEncoder.t) (next : Z) (s : FecSender) : FecSender :=
  {| encoder := e; pending_packets := pending_packets s; requested_group := requested_group s;
     next_group_seq := next |}.
Definition with_pending (p : list bytes) (s : FecSender) : FecSender :=
  {| encoder := encoder s; pending_packets := p; requested_group := requested_group s;
     next_group_seq := next_group_seq s |}.
Definition with_requested (n : Z) (s : FecSender) : FecSender :=
  {| encoder := encoder s; pending_packets := pending_packets s; requested_group := n;
     next_group_seq := next_group_seq s |}.

(** [(requested_group > 0).then(|| ..)] *)
Definition replace_encoder (s : FecSender) (next : Z) : outcome FecSender :=
  if 0 <? requested_group s then
    let! e := FecEncoder.new (requested_group s) MAX_PACKET_SIZE in
    Ok (with_encoder (Some (FecEncoder.set_group_seq next e)) next s)
  else Ok (with_encoder None next s).

Definition apply_group_at_boundary (s : FecSender) : outcome FecSender :=
  match encoder s with
  | Some e =>
      if negb (FecEncoder.count e =? 0) then Ok s
      else
      let next := FecEncoder.group_seq e in
      if FecEncoder.group_size e =? requested_group s
      then Ok (with_encoder (Some e) next s)
      else replace_encoder s next
  | None => replace_encoder s (next_group_seq s)
  end.

Definition set_group (s : FecSender) (size : Z) : outcome FecSender :=
  apply_group_at_boundary (with_requested size s).

Definition enabled_for (s : FecSender) (length : Z) : bool :=
  bool_decide (is_Some (encoder s)) && (0 <? length) && (length <=? MAX_PACKET_SIZE).

Definition metadata_for (s : FecSender) (length : Z) : option FecMetadata.t :=
  if negb (enabled_for s length) then None
  else
  match encoder s with
  | None => None
  | Some e =>
      if (FecEncoder.group_size e =? 0) || (FecEncoder.group_size e <=? FecEncoder.count e) then None
      else Some {| FecMetadata.group_seq := FecEncoder.group_seq e;
                   FecMetadata.group_size := FecEncoder.group_size e;
                   FecMetadata.index := FecEncoder.count e |}
  end.

Definition discard_pending (s : FecSender) : FecSender := with_pending [] s.

Definition take_packet (s : FecSender) : FecSender * option bytes :=
  match pending_packets s with
  | [] => (s, None)
  | p :: rest => (with_pending rest s, Some p)
  end.

(** The first half of [feed]: the repair of a group that this packet completes. *)
Definition advance (s : FecSender) (payload : bytes) : outcome (FecSender * option FecRepair.t) :=
  if negb (enabled_for s (len payload)) then Ok (s, None)
  else
  match encoder s with
  | None => Ok (s, None)
  | Some e =>
      match FecEncoder.feed e payload with
      | (e, None) => Ok (with_encoder (Some e) (next_group_seq s) s, None)
      | (e, Some repair) =>
          let! s := apply_group_at_boundary (with_encoder (Some e) (next_group_seq s) s) in
          Ok (s, Some repair)
      end
  end.

(** What goes on the wire for a repair; [id] is the random id of the fragments. *)
Definition repair_parts (id payload_limit : Z) (repair : FecRepair.t) : list (InnerType.t * bytes) :=
  let data := FecRepair.encode repair in
  if len data <=? payload_limit then [(InnerType.FecRepair, data)]
  else
  match split id InnerType.FecRepair data with
  | Ok parts => map (fun part => (InnerType.Fragment, part)) parts
  | _ => []
  end.

Section Feed.
(** The closure of the caller, with its state. *)
Context {E : Type} (encrypt : E -> InnerType.t -> bytes -> E * outcome bytes).

Fixpoint encrypt_parts (env : E) (parts : list (InnerType.t * bytes)) : E * option (list bytes) :=
  match parts with
  | [] => (env, Some [])
  | (kind, payload) :: parts =>
      match encrypt env kind payload with
      | (env, Ok packet) =>
          let '(env, rest) := encrypt_parts env parts in
          (env, (fun l => packet :: l) <$> rest)
      | (env, _) => (env, None)
      end
  end.

Definition enqueue (s : FecSender) (packets : list bytes) : FecSender :=
  let old := if 8 <? len (pending_packets s) + len packets then [] else pending_packets s in
  with_pending (old ++ packets) s.

Definition feed (s : FecSender) (env : E) (payload : bytes) (payload_limit id : Z)
    : outcome (FecSender * E) :=
  let! (s, repair) := advance s payload in
  match repair with
  | None => Ok (s, env)
  | Some repair =>
      match encrypt_parts env (repair_parts id payload_limit repair) with
      | (env, Some packets) => Ok (enqueue s packets, env)
      | (env, None) => Ok (s, env)
      end
  end.
End Feed.

(** ** The abstract sender *)

Record plan : Type := {
  asked : Z;
  (** The group in progress: its size and its packets. *)
  group : option (Z * list bytes);
  (** Its number, or the one of the next group. *)
  number : Z;
}.

Definition open_group (n : Z) : option (Z * list bytes) := if 0 <? n then Some (n, []) else None.

Definition plan_set (a : plan) (n : Z) : plan :=
  {| asked := n;
     group := match group a with
              | Some (m, p :: ps) => Some (m, p :: ps)
              | _ => open_group n
              end;
     number := number a |}.

Definition plan_metadata (a : plan) (length : Z) : option FecMetadata.t :=
  match group a with
  | Some (m, ps) =>
      if (0 <? length) && (length <=? MAX_PACKET_SIZE)
      then Some {| FecMetadata.group_seq := number a; FecMetadata.group_size := m;
                   FecMetadata.index := len ps |}
      else None
  | None => None
  end.

Definition plan_feed (a : plan) (p : bytes) : plan * option FecRepair.t :=
  match group a with
  | Some (m, ps) =>
      if (0 <? len p) && (len p <=? MAX_PACKET_SIZE) then
        if len ps + 1 =? m then
          ({| asked := asked a; group := open_group (asked a); number := wrap16 (number a + 1) |},
           Some {| FecRepair.group_seq := number a; FecRepair.group_size := m;
                   FecRepair.xor_data := xor_packets (ps ++ [p]) |})
        else ({| asked := asked a; group := Some (m, ps ++ [p]); number := number a |}, None)
      else (a, None)
  | None => (a, None)
  end.

(** ** Refinement *)

Record implements (s : FecSender) (a : plan) : Prop := {
  im_asked : requested_group s = asked a;
  im_range : 0 <= asked a < 256;
  im_group : match group a with
             | Some (m, ps) => exists e, encoder s = Some e /\ EncoderSpec.holds e (rev ps) /\
                 FecEncoder.group_size e = m /\ FecEncoder.group_seq e = number a /\
                 len (FecEncoder.xor_buf e) = MAX_PACKET_SIZE
             | None => encoder s = None /\ next_group_seq s = number a
             end;
}.

Lemma replace_implements s next :
  0 <= requested_group s < 256 ->
  exists s', replace_encoder s next = Ok s' /\ pending_packets s' = pending_packets s /\
    implements s' {| asked := requested_group s; group := open_group (requested_group s); number := next |}.
Proof.
  intros Hr. unfold replace_encoder, open_group. destruct (Z.ltb_spec 0 (requested_group s)) as [Hpos|Hz].
  - unfold FecEncoder.new. rewrite (proj2 (Z.ltb_lt 0 (requested_group s)) Hpos). cbn [obind].
    eexists. split; [reflexivity|]. split; [done|]. split; [done|done|]. cbn [group number].
    eexists. split; [reflexivity|]. split_and!; [|done|done|by cbn; rewrite length_zeros].
    constructor; cbn; try lia. intros i _. apply byte_at_zeros.
  - eexists. split; [reflexivity|]. split; [done|]. by split.
Qed.

(** At a boundary the requested size comes into force. *)
Lemma boundary_implements s a :
  implements s a ->
  exists s', apply_group_at_boundary s = Ok s' /\ pending_packets s' = pending_packets s /\
    implements s' (plan_set a (asked a)).
Proof.
  intros [Ha Hr Hg]. unfold apply_group_at_boundary, plan_set. destruct (group a) as [[m ps]|].
  - destruct Hg as (e & He & Hh & Hm & Hn & Hx). rewrite He. pose proof (EncoderSpec.holds_count _ _ Hh) as Hc.
    rewrite length_rev in Hc. destruct ps as [|p ps].
    + rewrite Hc. cbn [length]. change (Z.of_nat 0 =? 0) with true. cbn [negb].
      pose proof (EncoderSpec.holds_size _ _ Hh) as Hsz. destruct (Z.eqb_spec (FecEncoder.group_size e) (requested_group s)) as [Heq|Hne].
      * eexists. split; [reflexivity|]. split; [done|]. split; [done|done|]. cbn [group]. unfold open_group.
        rewrite (proj2 (Z.ltb_lt 0 (asked a))) by lia. cbn [number]. exists e. split_and!; try done. congruence.
      * destruct (replace_implements s (FecEncoder.group_seq e)) as (s' & E & Hp & Hi); [by rewrite Ha|].
        exists s'. split_and!; [done|done|]. by rewrite Ha, Hn in Hi.
    + rewrite (proj2 (Z.eqb_neq (FecEncoder.count e) 0)) by (rewrite Hc; cbn [length]; lia). cbn [negb].
      exists s. split_and!; [done|done|]. split; [done|done|]. cbn [group number]. by exists e.
  - destruct Hg as [He Hn]. rewrite He. destruct (replace_implements s (next_group_seq s)) as (s' & E & Hp & Hi); [by rewrite Ha|].
    exists s'. split_and!; [done|done|]. by rewrite Ha, Hn in Hi.
Qed.

Lemma set_group_implements s a n :
  implements s a -> 0 <= n < 256 ->
  exists s', set_group s n = Ok s' /\ pending_packets s' = pending_packets s /\ implements s' (plan_set a n).
Proof.
  intros [Ha Hr Hg] Hn. unfold set_group.
  destruct (boundary_implements (with_requested n s) {| asked := n; group := group a; number := number a |})
    as (s' & E & Hp & Hi); [by split|]. by exists s'.
Qed.

Lemma enabled_implements s a length :
  implements s a ->
  enabled_for s length = bool_decide (is_Some (group a)) && ((0 <? length) && (length <=? MAX_PACKET_SIZE)).
Proof.
  intros [_ _ Hg]. unfold enabled_for. rewrite <-andb_assoc. f_equal. apply bool_decide_ext.
  destruct (group a) as [[m ps]|].
  - destruct Hg as (e & -> & _). split; by eexists.
  - destruct Hg as [-> _]. split; by intros [? ?].
Qed.

Lemma metadata_implements s a length : implements s a -> metadata_for s length = plan_metadata a length.
Proof.
  intros Hi. unfold metadata_for, plan_metadata. rewrite (enabled_implements s a) by done.
  destruct Hi as [_ _ Hg]. destruct (group a) as [[m ps]|]; [|done].
  rewrite bool_decide_eq_true_2 by by eexists. cbn [andb]. destruct (_ && _); [|done]. cbn [negb].
  destruct Hg as (e & -> & [_ _ Hc Hs Ho _] & <- & <- & _). rewrite length_rev in Hc, Ho.
  rewrite (proj2 (Z.eqb_neq (FecEncoder.group_size e) 0)), (proj2 (Z.leb_gt (FecEncoder.group_size e) (FecEncoder.count e))) by lia.
  cbn [orb]. by rewrite Hc.
Qed.

Lemma advance_implements s a p :
  implements s a ->
  exists s', advance s p = Ok (s', (plan_feed a p).2) /\ pending_packets s' = pending_packets s /\
    implements s' (plan_feed a p).1.
Proof.
  intros Hi. unfold advance, plan_feed. rewrite (enabled_implements s a) by done.
  destruct Hi as [Ha Hr Hg]. destruct (group a) as [[m ps]|] eqn:Eg.
  2: { exists s. cbn [fst snd]. split_and!; [done|done|]. split; [done|done|]. by rewrite Eg. }
  rewrite bool_decide_eq_true_2 by by eexists. cbn [andb].
  destruct ((0 <? len p) && (len p <=? MAX_PACKET_SIZE)) eqn:El; cbn [negb].
  2: { exists s. cbn [fst snd]. split_and!; [done|done|]. split; [done|done|]. by rewrite Eg. }
  apply andb_true_iff in El as [_ Hle%Z.leb_le]. destruct Hg as (e & He & Hh & Hm & Hn & Hx). rewrite He.
  pose proof (EncoderSpec.holds_feed e (rev ps) p Hh) as Hf. rewrite Hx in Hf. specialize (Hf Hle).
  pose proof (EncoderSpec.holds_open _ _ Hh) as Ho. rewrite length_rev in *.
  assert (rev (ps ++ [p]) = p :: rev ps) as Erev by by rewrite rev_app_distr.
  destruct (FecEncoder.feed e p) as [e' [repair|]].
  - destruct Hf as (Hlen & -> & Hh' & Hl' & Hs' & Hq'). rewrite (proj2 (Z.eqb_eq (len ps + 1) m)) by lia. cbn [fst snd].
    destruct (boundary_implements (with_encoder (Some e') (next_group_seq s) s)
      {| asked := asked a; group := Some (m, []); number := wrap16 (number a + 1) |}) as (s' & E & Hp' & Hi').
    { split; [done|done|]. cbn. exists e'. split_and!; [done|done|congruence|congruence|lia]. }
    rewrite E. cbn [obind]. exists s'. split_and!; [|done|exact Hi'].
    rewrite Hn, Hm. do 4 f_equal. apply xor_packets_perm. by rewrite <-Erev, <-Permutation_rev.
  - destruct Hf as (Hh' & Hl' & Hs' & Hq'). pose proof (EncoderSpec.holds_open _ _ Hh') as Ho'.
    cbn [length] in Ho'. rewrite length_rev in Ho'. rewrite (proj2 (Z.eqb_neq (len ps + 1) m)) by lia. cbn [fst snd].
    eexists. split; [reflexivity|]. split; [done|]. split; [done|done|]. cbn [group number].
    exists e'. rewrite Erev. split_and!; [done|done|congruence|congruence|lia].
Qed.

(** ** Streams *)

Inductive command : Type :=
  | SetGroup (n : Z)
  | FeedPacket (p : bytes) (payload_limit id : Z).

(** The position a packet is sent with, and the repair that follows it. *)
Definition output : Type := option FecMetadata.t * option FecRepair.t.

Fixpoint plan_run (a : plan) (l : list command) : list output :=
  match l with
  | [] => []
  | SetGroup n :: l => plan_run (plan_set a n) l
  | FeedPacket p _ _ :: l =>
      (plan_metadata a (len p), (plan_feed a p).2) :: plan_run (plan_feed a p).1 l
  end.

Section Stream.
Context {E : Type} (encrypt : E -> InnerType.t -> bytes -> E * outcome bytes).

(** The same on the code; the queue after each packet is kept as well. *)
Fixpoint sender_run (s : FecSender) (env : E) (l : list command) : outcome (list (output * list bytes)) :=
  match l with
  | [] => Ok []
  | SetGroup n :: l => let! s := set_group s n in sender_run s env l
  | FeedPacket p limit id :: l =>
      let meta := metadata_for s (len p) in
      let! (_, repair) := advance s p in
      let! (s, env) := feed encrypt s env p limit id in
      let! rest := sender_run s env l in
      Ok ((meta, repair, pending_packets s) :: rest)
  end.

Lemma encrypt_parts_length env parts env' packets :
  encrypt_parts encrypt env parts = (env', Some packets) -> length packets = length parts.
Proof.
  revert env packets. induction parts as [|[k p] parts IH]; intros env packets; cbn [encrypt_parts].
  - by intros [= <- <-].
  - destruct (encrypt env k p) as [env1 [packet|e|]]; [|done..].
    destruct (encrypt_parts encrypt env1 parts) as [env2 [rest|]] eqn:E1; [|done]. intros [= <- <-].
    cbn [length]. f_equal. by eapply IH.
Qed.

(** A repair takes at most two packets. *)
Lemma repair_parts_length id limit r : len (FecRepair.encode r) <= 1503 -> (length (repair_parts id limit r) <= 2)%nat.
Proof.
  intros Hl. unfold repair_parts. destruct (_ <=? limit); [cbn; lia|]. unfold split.
  destruct (_ || _); [cbn; lia|]. unfold offsets. rewrite !length_map, length_seq.
  change FRAGMENT_DATA_SIZE with 900. divlia.
Qed.

Lemma plan_repair_length a p r :
  (plan_feed a p).2 = Some r ->
  (forall m ps, group a = Some (m, ps) -> longest ps <= MAX_PACKET_SIZE) -> len (FecRepair.encode r) <= 1503.
Proof.
  intros Hr Hl. unfold plan_feed in Hr. destruct (group a) as [[m ps]|]; [|done].
  destruct ((0 <? len p) && (len p <=? MAX_PACKET_SIZE)) eqn:El; [|done]. destruct (_ =? m); [|done].
  injection Hr as <-. apply andb_true_iff in El as [_ Hle%Z.leb_le]. specialize (Hl m ps eq_refl).
  unfold FecRepair.encode. cbn [FecRepair.group_seq FecRepair.group_size FecRepair.xor_data].
  rewrite !length_app, length_le_bytes. cbn [length]. pose proof (length_xor_packets (ps ++ [p])).
  rewrite (xor_packets_perm (ps ++ [p]) (p :: ps)) by by rewrite <-Permutation_cons_append.
  pose proof (length_xor_packets (p :: ps)). rewrite longest_cons in *. unfold MAX_PACKET_SIZE in *. lia.
Qed.

Lemma implements_longest s a m ps : implements s a -> group a = Some (m, ps) -> longest ps <= MAX_PACKET_SIZE.
Proof.
  intros [_ _ Hg] Eg. rewrite Eg in Hg. destruct Hg as (e & _ & Hh & _ & _ & Hx).
  pose proof (EncoderSpec.holds_room _ _ Hh) as H. rewrite Hx in H. unfold MAX_PACKET_SIZE in *.
  rewrite <-(longest_Permutation (rev ps) ps); [done|]. by rewrite <-Permutation_rev.
Qed.

Lemma feed_implements s a env p limit id :
  implements s a -> len (pending_packets s) <= 8 ->
  exists s1 s' env', advance s p = Ok (s1, (plan_feed a p).2) /\ feed encrypt s env p limit id = Ok (s', env') /\
    implements s' (plan_feed a p).1 /\ len (pending_packets s') <= 8.
Proof.
  intros Hi Hp. destruct (advance_implements s a p Hi) as (s1 & Ea & Hp1 & Hi1). exists s1.
  unfold feed. rewrite Ea. cbn [obind]. destruct (plan_feed a p).2 as [r|] eqn:Er.
  2: { exists s1, env. split_and!; [done|done|done|by rewrite Hp1]. }
  destruct (encrypt_parts encrypt env (repair_parts id limit r)) as [env' [packets|]] eqn:Ep.
  2: { exists s1, env'. split_and!; [done|done|done|by rewrite Hp1]. }
  exists (enqueue s1 packets), env'. split_and!; [done|done|by destruct Hi1|].
  apply encrypt_parts_length in Ep. assert (length packets <= 2)%nat as Hl.
  { rewrite Ep. apply repair_parts_length. eapply plan_repair_length; [exact Er|]. intros m ps. by eapply implements_longest. }
  unfold enqueue. destruct (Z.ltb_spec 8 (len (pending_packets s1) + len packets)); cbn [pending_packets with_pending].
  - cbn [app]. lia.
  - rewrite length_app. lia.
Qed.

Definition command_wf (c : command) : Prop :=
  match c with SetGroup n => u8_ok n | FeedPacket _ _ _ => True end.

Lemma run_refines s a env l :
  implements s a -> len (pending_packets s) <= 8 -> Forall command_wf l ->
  exists outs, sender_run s env l = Ok outs /\ map fst outs = plan_run a l /\
    Forall (fun o => len (snd o) <= 8) outs.
Proof.
  intros Hi Hp Hwf. revert s a env Hi Hp. induction Hwf as [|c l Hc Hwf IH]; intros s a env Hi Hp; cbn [sender_run plan_run].
  { by exists []. }
  destruct c as [n|p limit id].
  - destruct (set_group_implements s a n Hi) as (s' & -> & Hp' & Hi'); [unfold command_wf, u8_ok in Hc; lia|].
    cbn [obind]. apply IH; [done|by rewrite Hp'].
  - destruct (feed_implements s a env p limit id Hi Hp) as (s1 & s' & env' & -> & -> & Hi' & Hp'). cbn [obind].
    destruct (IH s' (plan_feed a p).1 env' Hi' Hp') as (outs & -> & Hm & Hf). cbn [obind].
    eexists. split; [reflexivity|]. cbn [map fst]. rewrite (metadata_implements s a) by done. split; [by rewrite Hm|].
    by constructor.
Qed.

(** The sender behaves like one that remembers whole groups, whatever the caller's encryption does:
    over any sequence of packets and of changes of the group size, every packet is sent with the number
    of its group and its index in it, the repair after the last packet of a group is the XOR of exactly
    the packets of that group, a new size comes into force only between groups, group numbers go up by
    one modulo 65536 across such changes, at most eight repair packets wait, and nothing panics. *)
Theorem sender_refines env l :
  Forall command_wf l ->
  exists outs, sender_run default_sender env l = Ok outs /\
    map fst outs = plan_run {| asked := 0; group := None; number := 0 |} l /\
    Forall (fun o => len (snd o) <= 8) outs.
Proof. apply run_refines; [by split|done]. Qed.
End Stream.

Definition witness_encrypt (log : list bytes) (kind : InnerType.t) (p : bytes) : list bytes * outcome bytes :=
  (log ++ [p], Ok p).
Definition witness_commands : list command :=
  [SetGroup 2; FeedPacket [1; 2] 1200 7; SetGroup 3; FeedPacket [4] 1200 7; FeedPacket [9] 1200 7].

Lemma sender_refines_witness :
  exists outs, sender_run witness_encrypt default_sender [] witness_commands = Ok outs /\
    map fst outs = plan_run {| asked := 0; group := None; number := 0 |} witness_commands /\
    Forall (fun o => len (snd o) <= 8) outs.
Proof.
  apply (sender_refines witness_encrypt [] witness_commands).
  unfold witness_commands, command_wf, u8_ok. repeat constructor; lia.
Defined.
