(* ===== verification/Mask.v ===== *)
(** * The wire layout of a mask

    Models the part of [crates/aivpn-common/src/mask.rs] that decides how a packet
    is laid out on the wire ([HeaderSpec], the layout queries of [MaskProfile],
    [PacketFraming]), the STUN carrier of [crates/aivpn-common/src/stun_wire.rs],
    and the layout helpers of [crates/aivpn-server/src/gateway/mask_catalog.rs].
    [hex::decode] is an operation of the class [Hex]; random bytes come from an
    [Rng], numbered by the field that asks for them.

    The theorems: a generated header always has the length both ends compute from
    the mask, whatever the random bytes; the tag and the ciphertext are read back
    where the receiver looks for them; a packet finished as STUN parses as STUN. *)

From S2P Require Import Prelude Protocol.
Local Open Scope Z_scope.

(** ** Writing into a buffer *)

(** [data[a..a + src.len()].copy_from_slice(src)] *)
Definition write_at (data : bytes) (a : Z) (src : bytes) : outcome bytes :=
  if (0 <=? a) && (a + len src <=? len data)
  then Ok (take (Z.to_nat a) data ++ src ++ drop (Z.to_nat (a + len src)) data)
  else Panic.

(** ** Header specifications *)

(** [hex::decode] *)
Class Hex : Type := { hex_decode : string -> option bytes }.

(** What the generator gives: the bytes of the [i]th field that asks for [n] of
    them, and the number of the [i]th field in [0..=max]. *)
Record Rng : Type := { fill : nat -> nat -> bytes; gen_range : nat -> Z -> Z }.

Record rng_ok (rng : Rng) : Prop := {
  fill_length : forall i n, length (fill rng i n) = n;
  fill_bytes_ok : forall i n, bytes_ok (fill rng i n);
  gen_range_ok : forall i m, 0 <= m -> 0 <= gen_range rng i m <= m;
}.

Module HeaderEndian.
Inductive t : Type := Big | Little.
End HeaderEndian.

Module IdFieldMode.
Inductive t : Type := Random | Zero.
End IdFieldMode.

Module HeaderField.
Inductive t : Type :=
  | Fixed (fixed : bytes)
  | Random (width : Z)
  | Length (width : Z) (endian : HeaderEndian.t)
  | Id (width : Z) (mode : IdFieldMode.t)
  | CounterLike (width : Z) (endian : HeaderEndian.t) (start step : Z).
End HeaderField.

Definition MAX_HEADER_FIELD_LEN : Z := 1500.

Definition encode_semantic_u64 (value width : Z) (endian : HeaderEndian.t) : bytes :=
  let n := Z.min width MAX_HEADER_FIELD_LEN in
  let encoded := match endian with
                 | HeaderEndian.Big => be_bytes 8 value
                 | HeaderEndian.Little => le_bytes 8 value
                 end in
  if n <? 8 then
    match endian with
    | HeaderEndian.Big => drop (Z.to_nat (8 - n)) encoded
    | HeaderEndian.Little => take (Z.to_nat n) encoded
    end
  else
    let out := zeros (Z.to_nat (n - 8)) in
    match endian with
    | HeaderEndian.Big => out ++ encoded
    | HeaderEndian.Little => encoded ++ out
    end.

Module HeaderSpec.
Inductive t : Type :=
  | Structured (fields : list HeaderField.t)
  | RawPrefix (prefix_hex : string) (randomize_indices : list Z).

Definition structured (fields : list HeaderField.t) : t := Structured fields.

Definition stun_binding_with_cookie (magic_cookie : bool) : t :=
  structured
    [ HeaderField.Fixed [0; 1];
      HeaderField.Length 2 HeaderEndian.Big;
      HeaderField.Fixed (if magic_cookie then [33; 18; 164; 66] else [0; 0; 0; 0]);
      HeaderField.Id 12 IdFieldMode.Random ].

Definition stun_binding : t := stun_binding_with_cookie true.

Definition quic_initial (version dcid_len : Z) : t :=
  let dcid_len := Z.min (Z.max dcid_len 8) 20 in
  structured
    [ HeaderField.Fixed [192]; HeaderField.Fixed (be_bytes 4 version);
      HeaderField.Fixed [dcid_len]; HeaderField.Id dcid_len IdFieldMode.Random ].

Definition dns_query (flags : Z) : t :=
  structured
    [ HeaderField.Id 2 IdFieldMode.Random; HeaderField.Fixed (be_bytes 2 flags);
      HeaderField.Fixed [0; 1; 0; 0; 0; 0; 0; 0] ].

Definition tls_record (content_type version : Z) : t :=
  structured
    [ HeaderField.Fixed [content_type]; HeaderField.Fixed (be_bytes 2 version);
      HeaderField.Length 2 HeaderEndian.Big ].

(** [if !current_fixed.is_empty() { fields.push(Fixed { bytes: current_fixed }) }] *)
Definition flush_fixed (current_fixed : bytes) : list HeaderField.t :=
  match current_fixed with [] => [] | _ => [HeaderField.Fixed current_fixed] end.

(** The loop over the bytes of a raw prefix, from index [idx]. *)
Fixpoint raw_fields (idx : Z) (prefix : bytes) (randomize_indices : list Z) (current_fixed : bytes)
    : list HeaderField.t :=
  match prefix with
  | [] => flush_fixed current_fixed
  | b :: prefix =>
      if bool_decide (idx ∈ randomize_indices)
      then flush_fixed current_fixed
           ++ HeaderField.Random 1 :: raw_fields (idx + 1) prefix randomize_indices []
      else raw_fields (idx + 1) prefix randomize_indices (current_fixed ++ [b])
  end.

Section Fields.
Context {HX : Hex}.

Definition fields (spec : t) : list HeaderField.t :=
  match spec with
  | Structured fields => fields
  | RawPrefix prefix_hex randomize_indices =>
      let prefix := default [0; 1; 2; 3] (hex_decode prefix_hex) in
      match randomize_indices with
      | [] => [HeaderField.Fixed prefix]
      | _ => raw_fields 0 prefix randomize_indices []
      end
  end.

(** The body of the loop of [generate], for field number [i]. *)
Definition field_bytes (rng : Rng) (i : nat) (field : HeaderField.t) : bytes :=
  match field with
  | HeaderField.Fixed fixed => fixed
  | HeaderField.Random width => fill rng i (Z.to_nat (Z.min width MAX_HEADER_FIELD_LEN))
  | HeaderField.Length width endian => encode_semantic_u64 0 width endian
  | HeaderField.Id width mode =>
      let n := Z.to_nat (Z.min width MAX_HEADER_FIELD_LEN) in
      match mode with
      | IdFieldMode.Random => fill rng i n
      | IdFieldMode.Zero => zeros n
      end
  | HeaderField.CounterLike width endian start step =>
      let raw := sat_add64 start (gen_range rng i (Z.min u64_max (Z.max step 1 * 1024))) in
      encode_semantic_u64 raw width endian
  end.

Definition generate (spec : t) (rng : Rng) : bytes := concat (imap (field_bytes rng) (fields spec)).

Definition field_width (field : HeaderField.t) : Z :=
  match field with
  | HeaderField.Fixed fixed => len fixed
  | HeaderField.Random width | HeaderField.Length width _ | HeaderField.Id width _
  | HeaderField.CounterLike width _ _ _ => Z.min width MAX_HEADER_FIELD_LEN
  end.

Definition min_length (spec : t) : Z := foldr (fun field n => field_width field + n) 0 (fields spec).

Fixpoint find_length (offset : Z) (fields : list HeaderField.t) : option (Z * Z) :=
  match fields with
  | [] => None
  | HeaderField.Length width _ :: _ => Some (offset, Z.min width MAX_HEADER_FIELD_LEN)
  | field :: fields => find_length (offset + field_width field) fields
  end.

Definition length_field_offset (spec : t) : option (Z * Z) := find_length 0 (fields spec).
End Fields.
End HeaderSpec.

(** ** STUN carrier *)

Module Stun.
Definition HEADER_LEN : Z := 20.
Definition ATTRIBUTE_HEADER_LEN : Z := 4.
Definition ATTRIBUTE_TEMPLATE : bytes := [192; 114; 0; 0].
Definition MAGIC_COOKIE : bytes := [33; 18; 164; 66].

Definition aligned_padding (base requested maximum : Z) : outcome Z :=
  let desired := Z.min requested maximum in
  let up := desired + (4 - (base + desired) mod 4) mod 4 in
  if up <=? maximum then Ok (wrap16 up)
  else
  let end_ := base + maximum in
  let aligned := end_ - end_ mod 4 in
  if aligned <? base then Err (InvalidPacket "Нет места для выравнивания STUN")
  else Ok (wrap16 (aligned - base)).

(** The loop of [validate] from [offset]; [None] when the fuel runs out. *)
Fixpoint walk (fuel : nat) (packet : bytes) (offset : Z) : option (outcome unit) :=
  match fuel with
  | O => None
  | S fuel =>
      if len packet <=? offset then Some (Ok tt)
      else if len packet - offset <? ATTRIBUTE_HEADER_LEN
      then Some (Err (InvalidPacket "Обрезан заголовок атрибута STUN"))
      else
      match be_at 2 packet (offset + 2) with
      | Ok length =>
          let offset := offset + ATTRIBUTE_HEADER_LEN + Z.ldiff (length + 3) 3 in
          if len packet <? offset
          then Some (Err (InvalidPacket "Атрибут STUN выходит за границу пакета"))
          else walk fuel packet offset
      | Err e => Some (Err e)
      | Panic => Some Panic
      end
  end.

(** Every turn moves past an attribute header, so the length of the packet is
    enough fuel. *)
Definition walk_attributes (packet : bytes) : outcome unit :=
  match walk (S (length packet)) packet HEADER_LEN with Some result => result | None => Panic end.

Definition validate (packet : bytes) : outcome unit :=
  let bad := Err (InvalidPacket "Некорректный заголовок STUN") in
  if len packet <? HEADER_LEN then bad
  else
  let! first := idx packet 0 in
  if negb (Z.land first 192 =? 0) then bad
  else
  let! cookie := slice packet 4 8 in
  if negb (bool_decide (cookie = MAGIC_COOKIE)) then bad
  else
  let! length := be_at 2 packet 2 in
  if negb (length mod 4 =? 0) || negb (HEADER_LEN + length =? len packet)
  then Err (InvalidPacket "Некорректная длина STUN")
  else walk_attributes packet.

(** [attribute] is the random attribute type, [gen_range(0xc072..=0xffff)]. On an
    error every caller drops the buffer. *)
Definition finalize (packet : bytes) (attribute : Z) : outcome bytes :=
  if (len packet <? HEADER_LEN + ATTRIBUTE_HEADER_LEN) || negb (len packet mod 4 =? 0)
     || (u16_max <? len packet - HEADER_LEN)
  then Err (InvalidPacket "Некорректный размер носителя STUN")
  else
  let! packet := write_at packet 0 (be_bytes 2 17) in
  let body_len := wrap16 (len packet - HEADER_LEN) in
  let! packet := write_at packet 2 (be_bytes 2 body_len) in
  let! packet := write_at packet 20 (be_bytes 2 attribute) in
  let! packet := write_at packet 22 (be_bytes 2 (body_len - 4)) in
  let! _ := validate packet in
  Ok packet.
End Stun.

(** ** Packet framing *)

Record PacketFraming : Type := {
  f_tag_offset : option Z;
  stun_attributes : bool;
  stun_length_offset : option Z;
}.

Definition prefix_len (f : PacketFraming) : Z :=
  match f_tag_offset f with Some _ => 0 | None => TAG_SIZE end.

Definition padding (f : PacketFraming) (base requested maximum : Z) : outcome Z :=
  if stun_attributes f then Stun.aligned_padding base requested maximum
  else Ok (Z.min requested maximum).

(** The packet left in [output]; [attribute] as for [Stun.finalize]. *)
Definition assemble_into (f : PacketFraming) (mdh tag ciphertext : bytes) (attribute : Z) : outcome bytes :=
  match f_tag_offset f with
  | Some offset =>
      if len mdh <? offset + TAG_SIZE then Err (InvalidPacket "Тег выходит за границу MDH")
      else
      let! output := write_at mdh offset tag in
      let output := output ++ ciphertext in
      if stun_attributes f then Stun.finalize output attribute
      else
      match stun_length_offset f with
      | Some offset =>
          if (20 <=? len output) && (offset + 2 <=? len output)
          then
            let! length := u16_try_from (len output - 20) (InvalidPacket "Слишком большой STUN-пакет") in
            write_at output offset (be_bytes 2 length)
          else Ok output
      | None => Ok output
      end
  | None => Ok (tag ++ mdh ++ ciphertext)
  end.

Module SpoofProtocol.
Inductive t : Type :=
  | None | QUIC | WebRTC_STUN | HTTPS_H2 | DNS_over_UDP
  | WebRTC_DTLS_SRTP | WebRTC_TURN_DTLS_SRTP | WebRTC_SDES_SRTP.

#[global] Instance spoof_eq_dec : EqDecision t.
Proof. solve_decision. Defined.

Definition is_stun (p : t) : bool :=
  match p with
  | WebRTC_STUN | WebRTC_DTLS_SRTP | WebRTC_TURN_DTLS_SRTP | WebRTC_SDES_SRTP => true
  | _ => false
  end.
End SpoofProtocol.

(** The fields of a mask that lay out packets, its name and its signature; the
    traffic shape (sizes, timing, states) is not modelled. *)
Record MaskProfile : Type := {
  mask_id : bytes;
  spoof_protocol : SpoofProtocol.t;
  header_template : bytes;
  eph_pub_offset : Z;
  eph_pub_length : Z;
  signature : bytes;
  header_spec : option HeaderSpec.t;
  tag_offset : Z;
}.

Definition default_tag_offset : Z := u16_max.

Section Profile.
Context {HX : Hex}.

Definition mdh_len (mask : MaskProfile) : Z :=
  match header_spec mask with
  | Some spec => HeaderSpec.min_length spec
  | None => len (header_template mask)
  end.

Definition embedded_tag_offset (mask : MaskProfile) : option Z :=
  if tag_offset mask =? u16_max then None else Some (tag_offset mask).

Definition stun_length_field_offset (mask : MaskProfile) : option Z :=
  if negb (SpoofProtocol.is_stun (spoof_protocol mask)) then None
  else
  match header_spec mask with
  | None => None
  | Some spec => option_map fst (HeaderSpec.length_field_offset spec)
  end.

(** [packet.len() - 20) as u16]: the length wraps where the framing refuses. *)
Definition patch_stun_length (mask : MaskProfile) (packet : bytes) : outcome bytes :=
  match stun_length_field_offset mask with
  | None => Ok packet
  | Some offset =>
      if (len packet <? 20) || (len packet <? offset + 2) then Ok packet
      else write_at packet offset (be_bytes 2 (wrap16 (len packet - 20)))
  end.

Definition uses_stun_attributes (mask : MaskProfile) : bool :=
  SpoofProtocol.is_stun (spoof_protocol mask)
  && (24 <=? len (header_template mask))
  && bool_decide (take 4 (drop 20 (header_template mask)) = Stun.ATTRIBUTE_TEMPLATE)
  && (tag_offset mask =? 8)
  && (24 <=? eph_pub_offset mask).

Definition wire_padding (mask : MaskProfile) (base requested maximum : Z) : outcome Z :=
  if uses_stun_attributes mask then Stun.aligned_padding base requested maximum
  else Ok (Z.min requested maximum).

Definition finalize_packet (mask : MaskProfile) (packet : bytes) (attribute : Z) : outcome bytes :=
  if uses_stun_attributes mask then Stun.finalize packet attribute
  else patch_stun_length mask packet.

Definition tag_overlaps_eph_pub (mask : MaskProfile) (tag_size : Z) : bool :=
  match embedded_tag_offset mask with
  | None => false
  | Some tag_start =>
      let tag_end := tag_start + tag_size in
      let eph_start := eph_pub_offset mask in
      let eph_end := eph_start + eph_pub_length mask in
      (tag_start <? eph_end) && (eph_start <? tag_end)
  end.

Definition uses_embedded_layout (mask : MaskProfile) (mdh_len : Z) : bool :=
  match embedded_tag_offset mask with
  | Some off => (off + TAG_SIZE <=? mdh_len) && negb (tag_overlaps_eph_pub mask TAG_SIZE)
  | None => false
  end.

Definition effective_tag_prefix_len (mask : MaskProfile) (mdh_len : Z) : Z :=
  if uses_embedded_layout mask mdh_len then 0 else TAG_SIZE.

Definition packet_framing (mask : MaskProfile) (mdh_len : Z) : PacketFraming :=
  let embedded := uses_embedded_layout mask mdh_len in
  {| f_tag_offset := if embedded then Some (tag_offset mask) else None;
     stun_attributes := embedded && uses_stun_attributes mask;
     stun_length_offset := stun_length_field_offset mask |}.

Definition assemble_packet_into (mask : MaskProfile) (mdh tag ciphertext : bytes) (attribute : Z)
    : outcome bytes :=
  assemble_into (packet_framing mask (len mdh)) mdh tag ciphertext attribute.

(** *** The layout helpers of the server *)

Definition packet_layout_for_mask (mask : MaskProfile) : Z * Z * Z * Z :=
  let eph_offset := eph_pub_offset mask in
  let eph_len := eph_pub_length mask in
  let packet_mdh_len := match header_spec mask with
                        | Some spec => HeaderSpec.min_length spec
                        | None => len (header_template mask)
                        end in
  let handshake_mdh_len := Z.max packet_mdh_len (eph_offset + eph_len) in
  (packet_mdh_len, handshake_mdh_len, eph_offset, eph_len).

Definition packet_mdh_bytes_for_mask (mask : MaskProfile) (rng : Rng) : bytes :=
  match header_spec mask with
  | Some spec => HeaderSpec.generate spec rng
  | None => header_template mask
  end.

Definition tag_prefix_len (tag_offset : Z) : Z := if tag_offset =? u16_max then TAG_SIZE else 0.

Definition tag_byte_offset (tag_offset : Z) : Z := if tag_offset =? u16_max then 0 else tag_offset.

Definition extract_tag_for_layout (packet : bytes) (tag_offset : Z) : outcome (option bytes) :=
  let off := tag_byte_offset tag_offset in
  let end_ := off + TAG_SIZE in
  if len packet <? end_ then Ok None
  else
  let! tag := slice packet off end_ in
  Ok (Some tag).

Definition distinct_tag_offsets_of (masks : list MaskProfile) : list Z :=
  fold_left (fun offsets mask =>
    match embedded_tag_offset mask with
    | Some off => if bool_decide (off ∈ offsets) then offsets else offsets ++ [off]
    | None => offsets
    end) masks [0].
End Profile.

(** ** Reading around a write *)

(** A slice depends only on the bytes inside it. *)
Lemma slice_ext d d' i j :
  length d = length d' ->
  (forall k, i <= Z.of_nat k < j -> d !! k = d' !! k) -> slice d i j = slice d' i j.
Proof.
  intros Hl Hk. unfold slice. rewrite Hl. destruct (_ && _) eqn:E; [|done]. f_equal.
  apply list_eq. intros n. rewrite !lookup_take, !lookup_drop. case_decide; [|done].
  apply Hk. lia.
Qed.

Lemma write_at_total data a src :
  0 <= a -> a + len src <= len data -> exists out, write_at data a src = Ok out.
Proof. intros. unfold write_at. guard_true. eauto. Qed.

Lemma write_at_lookup data a src out :
  write_at data a src = Ok out ->
  length out = length data /\
  forall k, out !! k = if (a <=? Z.of_nat k) && (Z.of_nat k <? a + len src)
                       then src !! Z.to_nat (Z.of_nat k - a) else data !! k.
Proof.
  unfold write_at. destruct (_ && _) eqn:E; [|done]. intros <-%Ok_inj.
  split; [rewrite !length_app, length_take, length_drop; lia|]. intros k.
  destruct (Z.leb_spec a (Z.of_nat k)), (Z.ltb_spec (Z.of_nat k) (a + len src)); cbn [andb].
  - rewrite lookup_app_r, lookup_app_l by (rewrite length_take; lia). f_equal. rewrite length_take. lia.
  - rewrite !lookup_app_r by (rewrite ?length_take; lia). rewrite lookup_drop. f_equal.
    rewrite length_take. lia.
  - rewrite lookup_app_l, lookup_take_lt by (rewrite ?length_take; lia). done.
  - lia.
Qed.

Lemma write_at_length data a src out : write_at data a src = Ok out -> length out = length data.
Proof. by intros [? _]%write_at_lookup. Qed.

Lemma write_at_same data a src out :
  write_at data a src = Ok out -> slice out a (a + len src) = Ok src.
Proof.
  intros H. pose proof (write_at_lookup _ _ _ _ H) as [Hl Hk]. unfold write_at in H.
  destruct (_ && _) eqn:E in H; [|done]. unfold slice. guard_true. f_equal.
  apply list_eq. intros n. rewrite lookup_take, lookup_drop. case_decide.
  - rewrite Hk. guard_true. f_equal. lia.
  - symmetry. apply lookup_ge_None_2. lia.
Qed.

Lemma write_at_other data a src out i j :
  write_at data a src = Ok out -> j <= a \/ a + len src <= i -> slice out i j = slice data i j.
Proof.
  intros [Hl Hk]%write_at_lookup Hd. apply slice_ext; [done|]. intros k Hr. rewrite Hk.
  destruct (Z.leb_spec a (Z.of_nat k)), (Z.ltb_spec (Z.of_nat k) (a + len src)); cbn [andb]; done || lia.
Qed.

(** ** The length of a generated header *)

Definition width_ok (field : HeaderField.t) : Prop :=
  match field with
  | HeaderField.Fixed _ => True
  | HeaderField.Random width | HeaderField.Length width _ | HeaderField.Id width _
  | HeaderField.CounterLike width _ _ _ => 0 <= width
  end.

Lemma length_encode_semantic value width endian :
  0 <= width -> len (encode_semantic_u64 value width endian) = Z.min width MAX_HEADER_FIELD_LEN.
Proof.
  intros Hw. unfold encode_semantic_u64, MAX_HEADER_FIELD_LEN. cbv zeta.
  destruct (Z.ltb_spec (Z.min width 1500) 8), endian; lenlia.
Qed.

Lemma encode_semantic_0 width endian :
  0 <= width -> encode_semantic_u64 0 width endian = zeros (Z.to_nat (Z.min width MAX_HEADER_FIELD_LEN)).
Proof.
  intros Hw. unfold encode_semantic_u64, MAX_HEADER_FIELD_LEN. cbv zeta.
  replace (be_bytes 8 0) with (zeros 8) by done. replace (le_bytes 8 0) with (zeros 8) by done.
  destruct (Z.ltb_spec (Z.min width 1500) 8), endian; unfold zeros.
  - rewrite drop_replicate. f_equal. lia.
  - rewrite take_replicate. f_equal. lia.
  - rewrite <-replicate_add. f_equal. lia.
  - rewrite <-replicate_add. f_equal. lia.
Qed.

Section HeaderLength.
Context {HX : Hex} (rng : Rng) (Hrng : rng_ok rng).

Lemma field_bytes_length i field :
  width_ok field -> len (HeaderSpec.field_bytes rng i field) = HeaderSpec.field_width field.
Proof.
  destruct field as [fixed|width|width endian|width mode|width endian start step];
    cbn [width_ok HeaderSpec.field_bytes HeaderSpec.field_width]; intros Hw.
  - done.
  - rewrite (fill_length rng Hrng). unfold MAX_HEADER_FIELD_LEN. lia.
  - by apply length_encode_semantic.
  - destruct mode; rewrite ?(fill_length rng Hrng), ?length_zeros; unfold MAX_HEADER_FIELD_LEN; lia.
  - by apply length_encode_semantic.
Qed.

(** The fields of a header, generated with any numbering of the fields. *)
Lemma generated_length fs f :
  (forall i field, width_ok field -> len (f i field : bytes) = HeaderSpec.field_width field) ->
  Forall width_ok fs ->
  len (concat (imap f fs)) = foldr (fun field n => HeaderSpec.field_width field + n) 0 fs.
Proof.
  intros Hf Hw. revert f Hf. induction Hw as [|field fs Hfield _ IH]; intros f Hf; [done|].
  rewrite imap_cons. cbn [concat foldr]. rewrite length_app, Nat2Z.inj_add, (Hf _ _ Hfield).
  rewrite IH; [done|]. intros i x Hx. by apply Hf.
Qed.

Lemma length_field_is_zero fs f pre offset off width :
  (forall i field, width_ok field -> len (f i field : bytes) = HeaderSpec.field_width field) ->
  (forall i w endian, 0 <= w ->
     f i (HeaderField.Length w endian) = zeros (Z.to_nat (Z.min w MAX_HEADER_FIELD_LEN))) ->
  Forall width_ok fs -> len pre = offset ->
  HeaderSpec.find_length offset fs = Some (off, width) ->
  slice (pre ++ concat (imap f fs)) off (off + width) = Ok (zeros (Z.to_nat width)).
Proof.
  intros Hf Hz Hw. revert f Hf Hz pre offset.
  induction Hw as [|field fs Hfield _ IH]; intros f Hf Hz pre offset Hpre; [done|].
  rewrite imap_cons. cbn [concat HeaderSpec.find_length].
  assert (forall field', field' = field ->
    HeaderSpec.find_length (offset + HeaderSpec.field_width field') fs = Some (off, width) ->
    slice (pre ++ f 0%nat field ++ concat (imap (f ∘ S) fs)) off (off + width)
      = Ok (zeros (Z.to_nat width))) as Hstep.
  { intros ? -> Hl. rewrite app_assoc. eapply IH; [intros; by apply Hf|intros; by apply Hz| |exact Hl].
    rewrite length_app. specialize (Hf 0%nat _ Hfield). lia. }
  destruct field; try (by apply Hstep). cbn [width_ok] in Hfield. intros [= <- <-].
  rewrite slice_app_r by lia. rewrite (Hz _ _ _ Hfield). rewrite Hpre.
  replace (offset - offset) with 0 by lia. apply slice_app_l. rewrite length_zeros.
  unfold MAX_HEADER_FIELD_LEN. lia.
Qed.

Lemma length_generate spec :
  Forall width_ok (HeaderSpec.fields spec) -> len (HeaderSpec.generate spec rng) = HeaderSpec.min_length spec.
Proof. intros Hw. apply generated_length; [|done]. apply field_bytes_length. Qed.

(** The header of a mask has exactly the length that both ends compute from
    the mask ([min_length]) whatever the generator gives, even for field widths
    the sender of the mask chose absurdly, and the position reported for the
    length field is where the header has it, still zero. *)
Theorem header_layout spec :
  Forall width_ok (HeaderSpec.fields spec) ->
  len (HeaderSpec.generate spec rng) = HeaderSpec.min_length spec /\
  forall off width, HeaderSpec.length_field_offset spec = Some (off, width) ->
    slice (HeaderSpec.generate spec rng) off (off + width) = Ok (zeros (Z.to_nat width)).
Proof.
  intros Hw. split.
  - by apply length_generate.
  - intros off width Hl. apply (length_field_is_zero _ _ [] 0); try done.
    + apply field_bytes_length.
    + intros i w endian H. by apply encode_semantic_0.
Qed.
End HeaderLength.

(** ** STUN carriers *)

Lemma align4_bounds x : 0 <= x -> x <= Z.ldiff (x + 3) 3 <= x + 3.
Proof.
  intros Hx. change 3 with (Z.ones 2) at 2 4. rewrite Z.ldiff_ones_r by lia.
  rewrite Z.shiftl_mul_pow2, Z.shiftr_div_pow2 by lia. change (2 ^ 2) with 4. divlia.
Qed.

Lemma align4_multiple x : x mod 4 = 0 -> 0 <= x -> Z.ldiff (x + 3) 3 = x.
Proof.
  intros Hm Hx. change 3 with (Z.ones 2) at 2. rewrite Z.ldiff_ones_r by lia.
  rewrite Z.shiftl_mul_pow2, Z.shiftr_div_pow2 by lia. change (2 ^ 2) with 4. divlia.
Qed.

(** The walk over the attributes always ends: the fuel is enough. *)
Lemma walk_ends fuel packet offset :
  bytes_ok packet -> 0 <= offset <= len packet -> len packet - offset < Z.of_nat fuel ->
  exists result, Stun.walk fuel packet offset = Some result /\ result <> Panic.
Proof.
  intros Hok. revert offset. induction fuel as [|fuel IH]; intros offset Ho Hf;
    cbn [Stun.walk]; unfold Stun.ATTRIBUTE_HEADER_LEN.
  - lia.
  - destruct (Z.leb_spec (len packet) offset); [by eexists|].
    destruct (Z.ltb_spec (len packet - offset) 4); [by eexists|].
    assert (safe (be_at 2 packet (offset + 2)) (fun x => 0 <= x)) as Hs.
    { apply safe_be_at; [lia|lia|]. intros x _ Hx. specialize (Hx Hok). lia. }
    destruct (be_at 2 packet (offset + 2)) as [x| |]; [|by eexists|done]. cbn in Hs.
    pose proof (align4_bounds x Hs). destruct (Z.ltb_spec (len packet) (offset + 4 + Z.ldiff (x + 3) 3));
      [by eexists|]. apply IH; lia.
Qed.

(** The STUN check of an arbitrary packet ends without a panic. *)
Lemma stun_validate_safe packet : bytes_ok packet -> Stun.validate packet <> Panic.
Proof.
  intros Hok. apply (safe_no_panic _ (fun _ => True)). unfold Stun.validate, Stun.HEADER_LEN. cbv zeta.
  repeat safe_step. unfold Stun.walk_attributes.
  destruct (walk_ends (S (length packet)) packet Stun.HEADER_LEN Hok) as (r & -> & Hr);
    [unfold Stun.HEADER_LEN; lia|unfold Stun.HEADER_LEN; lia|]. by destruct r.
Qed.

Definition frozen (i j : Z) : Prop := 4 <= i /\ j <= 20 \/ 24 <= i.

Lemma be_at_same data a n x out :
  write_at data a (be_bytes n x) = Ok out -> 0 <= x < 256 ^ Z.of_nat n -> be_at n out a = Ok x.
Proof.
  intros H%write_at_same Hx. rewrite length_be_bytes in H. unfold be_at. rewrite H.
  cbn [omap obind]. by rewrite from_be_be_bytes, Z.mod_small.
Qed.

Lemma be_at_other data a src out n i :
  write_at data a src = Ok out -> i + Z.of_nat n <= a \/ a + len src <= i ->
  be_at n out i = be_at n data i.
Proof. intros H Hd. unfold be_at. by rewrite (write_at_other _ _ _ _ _ _ H) by lia. Qed.

(** What [validate] accepts, for a packet of one attribute that fills it. *)
Lemma one_attribute packet rest :
  idx packet 0 = Ok 0 -> slice packet 4 8 = Ok Stun.MAGIC_COOKIE ->
  be_at 2 packet 2 = Ok (rest + 4) -> be_at 2 packet 22 = Ok rest ->
  rest mod 4 = 0 -> 0 <= rest -> len packet = 24 + rest -> Stun.validate packet = Ok tt.
Proof.
  intros H0 Hc Hl Ha Hm Hr Hlen. unfold Stun.validate, Stun.HEADER_LEN. cbv zeta. guard_false.
  rewrite H0, Hc, Hl. cbn [obind]. rewrite Z.land_0_l. cbn [Z.eqb negb].
  rewrite bool_decide_eq_true_2 by done. cbn [negb].
  replace ((rest + 4) mod 4) with 0 by divlia. replace (20 + (rest + 4)) with (len packet) by lia.
  rewrite Z.eqb_refl. cbn [Z.eqb negb orb]. unfold Stun.walk_attributes, Stun.HEADER_LEN.
  cbn [Stun.walk]. unfold Stun.ATTRIBUTE_HEADER_LEN. repeat guard_false. change (20 + 2) with 22. rewrite Ha.
  rewrite align4_multiple by done. change (20 + 4) with 24. replace (24 + rest) with (len packet) by lia.
  guard_false. destruct (length packet) eqn:E; [lia|]. cbn [Stun.walk]. by guard_true.
Qed.

Lemma finalize_total packet attribute :
  u16_ok attribute -> slice packet 4 8 = Ok Stun.MAGIC_COOKIE ->
  24 <= len packet <= u16_max + 20 -> len packet mod 4 = 0 ->
  exists out, Stun.finalize packet attribute = Ok out /\ Stun.validate out = Ok tt /\
    length out = length packet /\ forall i j, frozen i j -> slice out i j = slice packet i j.
Proof.
  intros Hat Hc Hlen Hm. unfold Stun.finalize, Stun.HEADER_LEN, Stun.ATTRIBUTE_HEADER_LEN.
  unfold u16_max, u16_ok in *. assert ((len packet mod 4 =? 0) = true) as -> by lia.
  cbn [negb orb]. rewrite orb_false_r. repeat guard_false. cbn [orb].
  destruct (write_at_total packet 0 (be_bytes 2 17)) as [p1 H1]; [done|lenlia|].
  pose proof (write_at_length _ _ _ _ H1) as L1. rewrite H1. cbn [obind]. cbv zeta.
  set (body := wrap16 (len p1 - 20)). assert (body = len packet - 20) as Hbody.
  { unfold body, wrap16. rewrite L1, Z.mod_small by lia. done. }
  destruct (write_at_total p1 2 (be_bytes 2 body)) as [p2 H2]; [done|lenlia|].
  pose proof (write_at_length _ _ _ _ H2) as L2. rewrite H2. cbn [obind].
  destruct (write_at_total p2 20 (be_bytes 2 attribute)) as [p3 H3]; [done|lenlia|].
  pose proof (write_at_length _ _ _ _ H3) as L3. rewrite H3. cbn [obind].
  destruct (write_at_total p3 22 (be_bytes 2 (body - 4))) as [p4 H4]; [done|lenlia|].
  pose proof (write_at_length _ _ _ _ H4) as L4. rewrite H4. cbn [obind].
  assert (forall i j, frozen i j -> slice p4 i j = slice packet i j) as Hfrozen.
  { intros i j Hf. unfold frozen in Hf.
    rewrite (write_at_other _ _ _ _ _ _ H4), (write_at_other _ _ _ _ _ _ H3),
      (write_at_other _ _ _ _ _ _ H2), (write_at_other _ _ _ _ _ _ H1) by lenlia. done. }
  assert (Stun.validate p4 = Ok tt) as Hv.
  { apply (one_attribute p4 (body - 4)).
    - apply idx_Ok. split; [done|]. destruct (write_at_lookup _ _ _ _ H4) as [_ ->].
      destruct (write_at_lookup _ _ _ _ H3) as [_ ->]. destruct (write_at_lookup _ _ _ _ H2) as [_ ->].
      by destruct (write_at_lookup _ _ _ _ H1) as [_ ->].
    - rewrite Hfrozen; [done|unfold frozen; lia].
    - replace (body - 4 + 4) with body by lia.
      rewrite (be_at_other _ _ _ _ _ _ H4), (be_at_other _ _ _ _ _ _ H3) by lenlia.
      apply (be_at_same _ _ _ _ _ H2). cbn. lia.
    - apply (be_at_same _ _ _ _ _ H4). cbn. lia.
    - rewrite Hbody. divlia.
    - lia.
    - rewrite L4, L3, L2, L1. lia. }
  exists p4. rewrite Hv. cbn [obind]. split; [done|]. split; [done|].
  split; [by rewrite L4, L3, L2, L1|done].
Qed.

(** Finishing a packet of an aligned size that carries the magic cookie never
    fails; the result is valid STUN of the same length, and only the message type,
    the length and the attribute header have changed: the cookie, the transaction
    identifier (where the tag is) and the body are untouched. *)
Theorem stun_finalize_valid packet attribute :
  u16_ok attribute -> slice packet 4 8 = Ok Stun.MAGIC_COOKIE ->
  24 <= len packet <= u16_max + 20 -> len packet mod 4 = 0 ->
  exists out, Stun.finalize packet attribute = Ok out /\ Stun.validate out = Ok tt /\
    length out = length packet /\ forall i j, frozen i j -> slice out i j = slice packet i j.
Proof. apply finalize_total. Qed.

Lemma aligned_padding_spec base requested maximum :
  0 <= base -> u16_ok requested -> u16_ok maximum ->
  let wanted := Z.min requested maximum in
  let aligned p := 0 <= p <= maximum /\ (base + p) mod 4 = 0 in
  match Stun.aligned_padding base requested maximum with
  | Ok pad => aligned pad /\
      (wanted <= pad /\ (forall p, aligned p -> wanted <= p -> pad <= p) \/
       pad < wanted /\ forall p, aligned p -> p <= pad)
  | Err _ => forall p, ~ aligned p
  | Panic => False
  end.
Proof.
  intros Hb Hr Hm wanted aligned. unfold u16_ok in *. unfold Stun.aligned_padding. fold wanted. cbv zeta.
  set (up := wanted + (4 - (base + wanted) mod 4) mod 4).
  assert (wanted <= up < wanted + 4 /\ (base + up) mod 4 = 0) as [Hup Hup4] by (unfold up; divlia).
  assert (forall p, aligned p -> wanted <= p -> up <= p) as Hleast.
  { intros p [Hp Hp4] Hw. unfold up in *. divlia. }
  unfold aligned, wrap16 in *. destruct (Z.leb_spec up maximum).
  - rewrite Z.mod_small by lia. split; [lia|]. left. split; [lia|exact Hleast].
  - set (end_ := base + maximum) in *. assert (0 <= end_ mod 4 < 4) by divlia.
    destruct (Z.ltb_spec (end_ - end_ mod 4) base).
    + intros p [Hp Hp4]. unfold end_ in *. divlia.
    + rewrite Z.mod_small by lia. assert ((base + (end_ - end_ mod 4 - base)) mod 4 = 0) by divlia.
      split; [lia|]. right. split.
      * destruct (Z.lt_ge_cases (end_ - end_ mod 4 - base) wanted) as [|Hge]; [done|].
        specialize (Hleast (end_ - end_ mod 4 - base)). lia.
      * intros p [Hp Hp4]. unfold end_ in *. divlia.
Qed.

(** The padding of a STUN packet makes its size a multiple of four within the
    allowed maximum. It is the least such padding that is not below the requested
    one, or when there is no room for that the greatest one; an error means that
    no padding is aligned. *)
Theorem aligned_padding_best base requested maximum :
  0 <= base -> u16_ok requested -> u16_ok maximum ->
  let wanted := Z.min requested maximum in
  let aligned p := 0 <= p <= maximum /\ (base + p) mod 4 = 0 in
  match Stun.aligned_padding base requested maximum with
  | Ok pad => aligned pad /\
      (wanted <= pad /\ (forall p, aligned p -> wanted <= p -> pad <= p) \/
       pad < wanted /\ forall p, aligned p -> p <= pad)
  | Err _ => forall p, ~ aligned p
  | Panic => False
  end.
Proof. apply aligned_padding_spec. Qed.

(** ** Where the receiver finds the tag and the ciphertext *)

(** A framing that keeps the tag and the ciphertext clear of the STUN fields. *)
Definition framing_ok (f : PacketFraming) (mdh_len : Z) : Prop :=
  match f_tag_offset f with
  | None => True
  | Some offset =>
      0 <= offset /\
      if stun_attributes f then offset = 8 /\ 24 <= mdh_len
      else match stun_length_offset f with
           | None => True
           | Some at_ => 0 <= at_ /\ at_ + 2 <= mdh_len /\ (at_ + 2 <= offset \/ offset + TAG_SIZE <= at_)
           end
  end.

Definition tag_start (f : PacketFraming) : Z := default 0 (f_tag_offset f).

Lemma prefix_len_bound f : 0 <= prefix_len f <= TAG_SIZE.
Proof. unfold prefix_len, TAG_SIZE. destruct (f_tag_offset f); lia. Qed.

(** [finalize] touches nothing but the STUN fields, whether it accepts or not. *)
Lemma finalize_frozen packet attribute out :
  Stun.finalize packet attribute = Ok out ->
  length out = length packet /\ forall i j, frozen i j -> slice out i j = slice packet i j.
Proof.
  unfold Stun.finalize. destruct (_ || _); [done|].
  intros (p1 & H1 & (p2 & H2 & (p3 & H3 & (p4 & H4 & (_ & _ & [= ->])%obind_Ok)%obind_Ok)%obind_Ok)%obind_Ok)%obind_Ok.
  pose proof (write_at_length _ _ _ _ H1). pose proof (write_at_length _ _ _ _ H2).
  pose proof (write_at_length _ _ _ _ H3). pose proof (write_at_length _ _ _ _ H4).
  split; [congruence|]. intros i j Hf. unfold frozen in Hf.
  rewrite (write_at_other _ _ _ _ _ _ H4), (write_at_other _ _ _ _ _ _ H3),
    (write_at_other _ _ _ _ _ _ H2), (write_at_other _ _ _ _ _ _ H1) by lenlia. done.
Qed.

Lemma slice_app_within a l i j : j <= len a -> slice (a ++ l) i j = slice a i j.
Proof.
  intros Hj. unfold slice. rewrite length_app. destruct ((0 <=? i) && (i <=? j)) eqn:E; cbn [andb]; [|done].
  repeat guard_true. rewrite drop_app_le by lia. by rewrite take_app_le by (rewrite length_drop; lia).
Qed.

Lemma slice_app_tail a l : slice (a ++ l) (len a) (len (a ++ l)) = Ok l.
Proof.
  rewrite slice_app_r by lia. rewrite Z.sub_diag. apply slice_all. rewrite length_app. lia.
Qed.

Lemma assembled_frame f mdh tag ciphertext attribute packet :
  framing_ok f (len mdh) -> len tag = TAG_SIZE ->
  assemble_into f mdh tag ciphertext attribute = Ok packet ->
  len packet = prefix_len f + len mdh + len ciphertext /\
  slice packet (tag_start f) (tag_start f + TAG_SIZE) = Ok tag /\
  slice_from packet (prefix_len f + len mdh) = Ok ciphertext.
Proof.
  intros Hf Ht. unfold assemble_into, framing_ok, tag_start, prefix_len, slice_from, TAG_SIZE in *.
  destruct (f_tag_offset f) as [offset|]; cbn [default from_option id].
  2:{ intros <-%Ok_inj. split; [rewrite !length_app; lia|]. split; [by apply slice_app_l|].
      rewrite app_assoc. replace (8 + len mdh) with (len (tag ++ mdh)) by (rewrite length_app; lia).
      apply slice_app_tail. }
  destruct Hf as [Ho Hf]. destruct (Z.ltb_spec (len mdh) (offset + 8)) as [|Hfit]; [done|].
  intros (body & Hb & H)%obind_Ok. cbv zeta in H.
  pose proof (write_at_same _ _ _ _ Hb) as Hs. rewrite Ht in Hs. pose proof (write_at_length _ _ _ _ Hb) as Hl.
  rewrite <-Hl in *. rewrite Z.add_0_l.
  rewrite <-(slice_app_within body ciphertext) in Hs by lia. pose proof (slice_app_tail body ciphertext) as Hc.
  assert (len (body ++ ciphertext) = len body + len ciphertext) as Hlen by (rewrite length_app; lia).
  assert (length packet = length (body ++ ciphertext) /\
    slice packet offset (offset + 8) = slice (body ++ ciphertext) offset (offset + 8) /\
    slice packet (len body) (len packet) = slice (body ++ ciphertext) (len body) (len packet)) as (-> & -> & ->).
  { destruct (stun_attributes f).
    - apply finalize_frozen in H as [Hp Hslice]. rewrite Hp, !Hslice by (unfold frozen; lia). done.
    - destruct (stun_length_offset f) as [at_|]; [|by apply Ok_inj in H as <-].
      destruct (_ && _); [|by apply Ok_inj in H as <-]. apply obind_Ok in H as (x & _ & H).
      rewrite (write_at_length _ _ _ _ H), !(write_at_other _ _ _ _ _ _ H) by (rewrite ?length_be_bytes; lia).
      done. }
  by rewrite Hs, Hc.
Qed.

(** In every layout (tag before the header, tag inside it, STUN with
    attributes, STUN with a length field) the receiver reads back the tag at the
    tag position of the layout and the ciphertext right after the header. *)
Theorem frame_opens f mdh tag ciphertext attribute packet :
  framing_ok f (len mdh) -> len tag = TAG_SIZE ->
  assemble_into f mdh tag ciphertext attribute = Ok packet ->
  len packet = prefix_len f + len mdh + len ciphertext /\
  slice packet (tag_start f) (tag_start f + TAG_SIZE) = Ok tag /\
  slice_from packet (prefix_len f + len mdh) = Ok ciphertext.
Proof. apply assembled_frame. Qed.

(** The rest of the header arrives unchanged. *)
Lemma assembled_header f mdh tag ciphertext attribute packet i j :
  len tag = TAG_SIZE -> assemble_into f mdh tag ciphertext attribute = Ok packet -> 0 <= i <= j -> j <= len mdh ->
  match f_tag_offset f with
  | None => True
  | Some offset => (j <= offset \/ offset + TAG_SIZE <= i) /\
      if stun_attributes f then frozen i j
      else forall at_, stun_length_offset f = Some at_ -> j <= at_ \/ at_ + 2 <= i
  end ->
  slice packet (prefix_len f + i) (prefix_len f + j) = slice mdh i j.
Proof.
  intros Ht H Hi Hj Hclear. unfold assemble_into, prefix_len in *. destruct (f_tag_offset f) as [offset|].
  2:{ apply Ok_inj in H as <-. rewrite slice_app_r by lia. rewrite Ht.
      replace (TAG_SIZE + i - TAG_SIZE) with i by lia. replace (TAG_SIZE + j - TAG_SIZE) with j by lia.
      by apply slice_app_within. }
  destruct Hclear as [Htag Hstun]. destruct (_ <? _); [done|]. rewrite !Z.add_0_l.
  apply obind_Ok in H as (body & Hb & H). cbv zeta in H. pose proof (write_at_length _ _ _ _ Hb) as Hbl.
  rewrite <-(write_at_other _ _ _ _ i j Hb) by lia. rewrite <-(slice_app_within body ciphertext) by lia.
  destruct (stun_attributes f); [by apply finalize_frozen in H as [_ ->]|].
  destruct (stun_length_offset f) as [at_|]; [|by apply Ok_inj in H as <-].
  destruct (_ && _); [|by apply Ok_inj in H as <-]. apply obind_Ok in H as (x & _ & H).
  specialize (Hstun at_ eq_refl). apply (write_at_other _ _ _ _ _ _ H). rewrite length_be_bytes. lia.
Qed.

Lemma assemble_length f mdh tag ciphertext attribute packet :
  len tag = TAG_SIZE -> assemble_into f mdh tag ciphertext attribute = Ok packet ->
  len packet = prefix_len f + len mdh + len ciphertext.
Proof.
  intros Ht. unfold assemble_into, prefix_len. destruct (f_tag_offset f) as [offset|].
  2:{ intros <-%Ok_inj. rewrite !length_app. lia. }
  destruct (_ <? _); [done|]. intros (body & Hb%write_at_length & H)%obind_Ok. cbv zeta in H.
  assert (length packet = length (body ++ ciphertext)) as ->; [|rewrite length_app; lia].
  destruct (stun_attributes f); [by apply finalize_frozen in H as [? _]|].
  destruct (stun_length_offset f); [|by apply Ok_inj in H as <-].
  destruct (_ && _); [|by apply Ok_inj in H as <-]. apply obind_Ok in H as (x & _ & H). by eapply write_at_length.
Qed.

(** Assembly succeeds when the tag fits the header and, for STUN with attributes,
    the header carries the cookie and the size is aligned. *)
Lemma assemble_total f mdh tag ciphertext attribute :
  len tag = TAG_SIZE -> u16_ok attribute -> len mdh + len ciphertext <= u16_max + 20 ->
  match f_tag_offset f with
  | None => True
  | Some offset => 0 <= offset /\ offset + TAG_SIZE <= len mdh /\
      (stun_attributes f = true -> offset = 8 /\ 24 <= len mdh /\ slice mdh 4 8 = Ok Stun.MAGIC_COOKIE /\
         (len mdh + len ciphertext) mod 4 = 0) /\
      forall at_, stun_length_offset f = Some at_ -> 0 <= at_
  end ->
  exists packet, assemble_into f mdh tag ciphertext attribute = Ok packet /\
    (f_tag_offset f <> None -> stun_attributes f = true -> Stun.validate packet = Ok tt).
Proof.
  intros Ht Ha Hl Hf. unfold assemble_into, TAG_SIZE in *. destruct (f_tag_offset f) as [offset|]; [|by eexists].
  destruct Hf as (Ho & Hfit & Hstun & Hlen). guard_false.
  destruct (write_at_total mdh offset tag) as [body Hb]; [done|lia|]. rewrite Hb. cbn [obind].
  pose proof (write_at_length _ _ _ _ Hb) as Hbl.
  assert (len (body ++ ciphertext) = len mdh + len ciphertext) as Htotal by (rewrite length_app; lia).
  destruct (stun_attributes f).
  - destruct (Hstun eq_refl) as (-> & H24 & Hcookie & H4).
    destruct (finalize_total (body ++ ciphertext) attribute Ha) as (out & Hout & Hv & _).
    + rewrite slice_app_within by lia. by rewrite (write_at_other _ _ _ _ _ _ Hb) by lia.
    + lia.
    + by rewrite Htotal.
    + exists out. by split.
  - destruct (stun_length_offset f) as [at_|]; [|by eexists]. specialize (Hlen at_ eq_refl).
    destruct (_ && _) eqn:E; [|by eexists]. unfold u16_try_from. guard_true. cbn [obind].
    destruct (write_at_total (body ++ ciphertext) at_ (be_bytes 2 (len (body ++ ciphertext) - 20))) as [out Hout];
      [done|rewrite length_be_bytes; lia|]. rewrite Hout. by exists out.
Qed.

Lemma find_length_nonneg fs offset off width :
  Forall width_ok fs -> 0 <= offset -> HeaderSpec.find_length offset fs = Some (off, width) -> 0 <= off.
Proof.
  intros Hw. revert offset. induction Hw as [|field fs Hfield _ IH]; intros offset Ho; [done|].
  assert (0 <= HeaderSpec.field_width field) as Hwidth.
  { destruct field; cbn in *; unfold MAX_HEADER_FIELD_LEN; lia. }
  destruct field; cbn [HeaderSpec.find_length]; try (apply IH; lia). intros [= <- _]. lia.
Qed.

(** A mask whose field widths are machine integers. *)
Definition mask_ok {HX : Hex} (mask : MaskProfile) : Prop :=
  u16_ok (tag_offset mask) /\ u16_ok (eph_pub_offset mask) /\ u16_ok (eph_pub_length mask) /\
  forall spec, header_spec mask = Some spec -> Forall width_ok (HeaderSpec.fields spec).

Lemma length_mask_header {HX : Hex} mask rng :
  mask_ok mask -> rng_ok rng -> len (packet_mdh_bytes_for_mask mask rng) = mdh_len mask.
Proof.
  intros (_ & _ & _ & Hw) Hr. unfold packet_mdh_bytes_for_mask, mdh_len.
  destruct (header_spec mask) as [spec|]; [|done]. apply length_generate; [done|by apply Hw].
Qed.

Lemma stun_length_nonneg {HX : Hex} mask at_ :
  mask_ok mask -> stun_length_field_offset mask = Some at_ -> 0 <= at_.
Proof.
  intros (_ & _ & _ & Hw). unfold stun_length_field_offset. destruct (negb _); [done|].
  destruct (header_spec mask) as [spec|]; [|done]. specialize (Hw spec eq_refl).
  unfold HeaderSpec.length_field_offset. destruct (HeaderSpec.find_length _ _) as [[off width]|] eqn:E; [|done].
  intros [= <-]. by eapply find_length_nonneg.
Qed.

(** ** Concrete packets *)

Definition plain_hex : Hex := {| hex_decode := fun _ => None |}.
Definition quiet_rng : Rng := {| fill := fun _ n => zeros n; gen_range := fun _ _ => 0 |}.

Lemma quiet_rng_ok : rng_ok quiet_rng.
Proof. split; [intros; apply length_zeros|intros; apply bytes_ok_zeros|cbn; lia]. Qed.

Lemma header_layout_witness :
  len (HeaderSpec.generate (HX := plain_hex) HeaderSpec.stun_binding quiet_rng) = 20 /\
  slice (HeaderSpec.generate (HX := plain_hex) HeaderSpec.stun_binding quiet_rng) 2 4 = Ok [0; 0].
Proof.
  destruct (header_layout (HX := plain_hex) quiet_rng quiet_rng_ok HeaderSpec.stun_binding) as [Hl Hz].
  - repeat constructor; cbn; lia.
  - split; [exact Hl|exact (Hz 2 2 eq_refl)].
Defined.

(** A STUN packet of 28 bytes: header, attribute header and a body of 4 bytes. *)
Definition sample_packet : bytes :=
  [0; 1; 0; 0; 33; 18; 164; 66] ++ zeros 12 ++ [192; 114; 0; 0] ++ [1; 2; 3; 4].

Lemma stun_finalize_valid_witness :
  exists out, Stun.finalize sample_packet 50000 = Ok out /\ Stun.validate out = Ok tt /\
    length out = 28%nat /\ forall i j, frozen i j -> slice out i j = slice sample_packet i j.
Proof.
  apply (stun_finalize_valid sample_packet 50000).
  - unfold u16_ok. lia.
  - done.
  - cbn. unfold u16_max. lia.
  - done.
Defined.

Lemma aligned_padding_best_witness :
  exists pad, Stun.aligned_padding 101 16 19 = Ok pad /\ 0 <= pad <= 19 /\ (101 + pad) mod 4 = 0.
Proof.
  pose proof (aligned_padding_best 101 16 19 ltac:(lia) ltac:(unfold u16_ok; lia) ltac:(unfold u16_ok; lia)) as H.
  exists 19. split; [reflexivity|]. exact (proj1 H).
Defined.

Definition sample_framing : PacketFraming :=
  {| f_tag_offset := Some 8; stun_attributes := true; stun_length_offset := Some 2 |}.

Lemma frame_opens_witness :
  exists packet,
    assemble_into sample_framing (take 24 sample_packet) [9; 9; 9; 9; 9; 9; 9; 9] [1; 2; 3; 4] 50000
      = Ok packet /\
    slice packet 8 16 = Ok [9; 9; 9; 9; 9; 9; 9; 9] /\ slice_from packet 24 = Ok [1; 2; 3; 4].
Proof.
  eexists. split; [reflexivity|].
  edestruct (frame_opens sample_framing (take 24 sample_packet) [9; 9; 9; 9; 9; 9; 9; 9] [1; 2; 3; 4] 50000)
    as (_ & Ht & Hc).
  - cbn. lia.
  - done.
  - reflexivity.
  - split; [exact Ht|exact Hc].
Defined.
