(* ===== verification/ReplayWindow.v ===== *)
(** * The anti-replay window

    Models [ReplayWindow] of [crates/aivpn-server/src/session.rs] and the merge of
    two windows of [crates/aivpn-common/src/kernel_accel.rs]. A window is eight
    64-bit words, 512 bits; bit [i] stands for the counter [i] behind the newest
    one. The server runs on 64-bit targets, so [as usize] keeps a [u64].

    The theorems relate the word arithmetic to sets of counters: sliding the
    window moves every bit, and merging two windows is the union of what they
    have seen, cut to the 512 newest counters. *)

From S2P Require Import Prelude Bitmap.
Local Open Scope Z_scope.

Definition TAG_WINDOW_SIZE : Z := 512.
Definition REPLAY_WORDS : nat := Z.to_nat (TAG_WINDOW_SIZE / 64).
Definition REPLAY_BITS : Z := 512.

Record ReplayWindow : Type := { words : list Z }.

Definition default_window : ReplayWindow := {| words := zeros REPLAY_WORDS |}.

Definition set_bit (w : ReplayWindow) (bit : Z) : ReplayWindow :=
  if TAG_WINDOW_SIZE <=? bit then w
  else {| words := <[Z.to_nat (bit / 64) :=
            Z.lor (default 0 (words w !! Z.to_nat (bit / 64))) (Z.shiftl 1 (bit mod 64))]> (words w) |}.

Definition get_bit (w : ReplayWindow) (bit : Z) : bool :=
  if TAG_WINDOW_SIZE <=? bit then false
  else negb (Z.land (default 0 (words w !! Z.to_nat (bit / 64))) (Z.shiftl 1 (bit mod 64)) =? 0).

Definition clear (_ : ReplayWindow) : ReplayWindow := {| words := zeros REPLAY_WORDS |}.

(** [for i in (0..n).rev() { words[i] = f(words, i) }], updating in place. *)
Definition update_down (f : list Z -> nat -> Z) (n : nat) (ws : list Z) : list Z :=
  fold_left (fun ws i => <[i := f ws i]> ws) (rev (seq 0 n)) ws.

(** The two loop bodies of [shift_left]. *)
Definition shifted_word (word_shift : nat) (ws : list Z) (i : nat) : Z :=
  if (word_shift <=? i)%nat then default 0 (ws !! (i - word_shift)%nat) else 0.

Definition shifted_bits (word_shift : nat) (bit_shift : Z) (ws : list Z) (i : nat) : Z :=
  if (word_shift <=? i)%nat then
    let v := wrap64 (Z.shiftl (default 0 (ws !! (i - word_shift)%nat)) bit_shift) in
    if (word_shift <? i)%nat
    then Z.lor v (Z.shiftr (default 0 (ws !! (i - word_shift - 1)%nat)) (64 - bit_shift))
    else v
  else 0.

Definition shift_left (w : ReplayWindow) (shift : Z) : ReplayWindow :=
  if shift =? 0 then w
  else if TAG_WINDOW_SIZE <=? shift then clear w
  else
  let word_shift := Z.to_nat (shift / 64) in
  let bit_shift := shift mod 64 in
  if bit_shift =? 0
  then {| words := update_down (shifted_word word_shift) REPLAY_WORDS (words w) |}
  else {| words := update_down (shifted_bits word_shift bit_shift) REPLAY_WORDS (words w) |}.

(** ** Merging with the window of the kernel *)

Definition replay_marked (hi : Z) (ws : list Z) (counter : Z) : bool :=
  if hi <? counter then false
  else
  let diff := hi - counter in
  if REPLAY_BITS <=? diff then false
  else
  let bit := diff mod 64 in
  Z.land (Z.shiftr (default 0 (ws !! Z.to_nat (diff / 64))) bit) 1 =? 1.

(** [for i in 0..REPLAY_BITS { if new_hi < i { break; } .. }] *)
Fixpoint merge_bits (idxs : list Z) (new_hi : Z) (marked : Z -> bool) (out : list Z) : list Z :=
  match idxs with
  | [] => out
  | i :: idxs =>
      if new_hi <? i then out
      else
      let counter := new_hi - i in
      let out := if marked counter
                 then <[Z.to_nat (i / 64) := Z.lor (default 0 (out !! Z.to_nat (i / 64)))
                          (Z.shiftl 1 (i mod 64))]> out
                 else out in
      merge_bits idxs new_hi marked out
  end.

Definition merge_replay_window (hi : Z) (ws : list Z) (other_hi : Z) (other : list Z) : Z * list Z :=
  let new_hi := Z.max hi other_hi in
  let out := merge_bits (map Z.of_nat (seq 0 (Z.to_nat REPLAY_BITS))) new_hi
    (fun counter => replay_marked hi ws counter || replay_marked other_hi other counter)
    (zeros REPLAY_WORDS) in
  (new_hi, out).

Definition account_byte_delta (absolute synced : Z) : Z := sat_sub absolute synced.

(** ** Windows as sets of offsets *)

Definition window_ok (w : ReplayWindow) : Prop := words_ok REPLAY_WORDS (words w).

Lemma get_bit_at w i : 0 <= i -> get_bit w i = (i <? 512) && bit_at (words w) i.
Proof.
  intros Hi. unfold get_bit, TAG_WINDOW_SIZE. destruct (Z.leb_spec 512 i), (Z.ltb_spec i 512); try lia; try done.
  apply land_shiftl1, Z.mod_pos_bound. lia.
Qed.

Lemma default_window_ok : window_ok default_window.
Proof. apply words_ok_zeros. Qed.

Lemma clear_ok w : window_ok (clear w).
Proof. apply words_ok_zeros. Qed.

Lemma get_bit_clear w i : 0 <= i -> get_bit (clear w) i = false.
Proof. intros Hi. rewrite get_bit_at by done. unfold clear. cbn [words]. by rewrite bit_at_zeros, andb_false_r. Qed.

Lemma set_bit_ok w i : window_ok w -> window_ok (set_bit w i).
Proof. intros Hw. unfold set_bit. destruct (_ <=? _); [done|]. apply (words_ok_set _ _ i Hw). Qed.

Lemma get_bit_set w i j :
  window_ok w -> 0 <= i < 512 -> 0 <= j -> get_bit (set_bit w i) j = (i =? j) || get_bit w j.
Proof.
  intros [Hl _] Hi Hj. rewrite !get_bit_at by done. unfold set_bit, TAG_WINDOW_SIZE.
  destruct (Z.leb_spec 512 i) as [|_]; [lia|]. cbn [words].
  change (<[_ := _]> (words w)) with (set_at (words w) i).
  change REPLAY_WORDS with 8%nat in Hl.
  rewrite bit_at_set by (lia || divlia).
  destruct (Z.ltb_spec j 512), (Z.eqb_spec i j); try done; lia.
Qed.

(** ** Sliding the window *)

Section UpdateDown.
(** A loop from the top down that only reads at or below the entry it writes. *)
Context (f : list Z -> nat -> Z).
Context (Hlocal : forall ws ws' i, (forall j, (j <= i)%nat -> ws !! j = ws' !! j) -> f ws i = f ws' i).

Lemma update_down_above n ws k : (n <= k)%nat -> update_down f n ws !! k = ws !! k.
Proof.
  revert ws. induction n as [|n IH]; intros ws Hk; [done|].
  unfold update_down. rewrite seq_S, rev_app_distr. cbn [rev app fold_left plus].
  change (fold_left _ (rev (seq 0 n)) ?x) with (update_down f n x).
  rewrite IH by lia. apply list_lookup_insert_ne. lia.
Qed.

Lemma update_down_lookup n ws k :
  (k < n <= length ws)%nat -> update_down f n ws !! k = Some (f ws k).
Proof.
  revert ws. induction n as [|n IH]; intros ws Hk; [lia|].
  unfold update_down. rewrite seq_S, rev_app_distr. cbn [rev app fold_left plus].
  change (fold_left _ (rev (seq 0 n)) ?x) with (update_down f n x).
  destruct (decide (k = n)) as [->|Hne].
  - rewrite update_down_above by lia. apply list_lookup_insert_eq. lia.
  - rewrite IH by (rewrite length_insert; lia). f_equal. apply Hlocal. intros j Hj.
    apply list_lookup_insert_ne. lia.
Qed.

Lemma length_update_down n ws : length (update_down f n ws) = length ws.
Proof.
  revert ws. induction n as [|n IH]; intros ws; [done|].
  unfold update_down. rewrite seq_S, rev_app_distr. cbn [rev app fold_left plus].
  change (fold_left _ (rev (seq 0 n)) ?x) with (update_down f n x).
  by rewrite IH, length_insert.
Qed.
End UpdateDown.

Lemma shifted_word_local s ws ws' i :
  (forall j, (j <= i)%nat -> ws !! j = ws' !! j) -> shifted_word s ws i = shifted_word s ws' i.
Proof. intros H. unfold shifted_word. by rewrite H by lia. Qed.

Lemma shifted_bits_local s b ws ws' i :
  (forall j, (j <= i)%nat -> ws !! j = ws' !! j) -> shifted_bits s b ws i = shifted_bits s b ws' i.
Proof. intros H. unfold shifted_bits. by rewrite !H by lia. Qed.

Lemma testbit_wrap64 x j : 0 <= j -> Z.testbit (wrap64 x) j = (j <? 64) && Z.testbit x j.
Proof.
  intros Hj. unfold wrap64. change 18446744073709551616 with (2 ^ 64).
  destruct (Z.ltb_spec j 64).
  - by rewrite Z.mod_pow2_bits_low.
  - by rewrite Z.mod_pow2_bits_high.
Qed.

Lemma testbit_shifted_bits s b ws k j :
  words_ok REPLAY_WORDS ws -> 0 < b < 64 -> 0 <= j < 64 ->
  Z.testbit (shifted_bits s b ws k) j =
    (s <=? k)%nat && (if b <=? j then Z.testbit (default 0 (ws !! (k - s)%nat)) (j - b)
                      else (s <? k)%nat && Z.testbit (default 0 (ws !! (k - s - 1)%nat)) (j + 64 - b)).
Proof.
  intros Hw Hb Hj. unfold shifted_bits. cbv zeta.
  destruct (Nat.leb_spec s k); [|by rewrite Z.bits_0]. cbn [andb].
  destruct (Nat.ltb_spec s k); rewrite ?Z.lor_spec, testbit_wrap64, ?Z.shiftr_spec, Z.shiftl_spec by lia;
    replace (j <? 64) with true by lia; cbn [andb].
  - replace (j + (64 - b)) with (j + 64 - b) by lia. destruct (Z.leb_spec b j).
    + rewrite (word_ok_high (default 0 (ws !! (k - s - 1)%nat))); [apply orb_false_r| |lia].
      by eapply words_ok_lookup.
    + rewrite (Z.testbit_neg_r _ (j - b)) by lia. done.
  - destruct (Z.leb_spec b j); [done|]. apply Z.testbit_neg_r. lia.
Qed.

Lemma bit_at_update_down f ws i :
  (forall ws ws' i, (forall j, (j <= i)%nat -> ws !! j = ws' !! j) -> f ws i = f ws' i) ->
  words_ok REPLAY_WORDS ws -> 0 <= i < 512 ->
  bit_at (update_down f REPLAY_WORDS ws) i = Z.testbit (f ws (Z.to_nat (i / 64))) (i mod 64).
Proof.
  intros Hf [Hl _] Hi. unfold bit_at. rewrite update_down_lookup; [done|done|].
  rewrite Hl. change REPLAY_WORDS with 8%nat. split; [divlia|lia].
Qed.

Lemma get_bit_shift w s i :
  window_ok w -> 0 <= s -> 0 <= i -> get_bit (shift_left w s) i = (i <? 512) && (s <=? i) && get_bit w (i - s).
Proof.
  intros Hw Hs Hi. unfold shift_left, TAG_WINDOW_SIZE. destruct (Z.eqb_spec s 0) as [->|Hs0].
  { rewrite Z.sub_0_r, !get_bit_at by done. by destruct (Z.leb_spec 0 i), (Z.ltb_spec i 512); try lia. }
  destruct (Z.leb_spec 512 s) as [Hbig|Hsmall].
  { rewrite get_bit_clear by done. destruct (Z.ltb_spec i 512), (Z.leb_spec s i); try done; lia. }
  rewrite get_bit_at by done. destruct (Z.ltb_spec i 512) as [Hi5|]; [|by destruct (_ =? _)]. cbn [andb].
  assert (forall b, (s <=? i) = true -> get_bit w (i - s) = b -> bit_at (words w) (i - s) = b) as Hget.
  { intros b Hle <-. apply Z.leb_le in Hle. rewrite get_bit_at by lia. by replace (i - s <? 512) with true by lia. }
  assert (0 <= i / 64 /\ 0 <= s / 64 /\ 0 <= i mod 64 < 64 /\ 0 <= s mod 64 < 64) as (Hk & Hws & Hj & Hb)
    by divlia.
  cbv zeta. destruct (Z.eqb_spec (s mod 64) 0) as [Hb0|Hb0]; cbn [words].
  - rewrite bit_at_update_down; [|apply shifted_word_local|done|done].
    unfold shifted_word. destruct (Nat.leb_spec (Z.to_nat (s / 64)) (Z.to_nat (i / 64))) as [Hle|Hgt].
    + assert (s <= i) as Hsi by divlia. replace (s <=? i) with true by lia. cbn [andb].
      rewrite <-(Hget _ ltac:(lia) eq_refl). unfold bit_at. f_equal; [do 2 f_equal; divlia|divlia].
    + replace (s <=? i) with false by divlia. apply Z.bits_0.
  - rewrite bit_at_update_down; [|apply shifted_bits_local|done|done].
    rewrite testbit_shifted_bits by (done || lia).
    destruct (Nat.leb_spec (Z.to_nat (s / 64)) (Z.to_nat (i / 64))) as [Hle|Hgt]; cbn [andb].
    2: { by replace (s <=? i) with false by divlia. }
    destruct (Z.leb_spec (s mod 64) (i mod 64)).
    + replace (s <=? i) with true by divlia. cbn [andb].
      rewrite <-(Hget _ ltac:(divlia) eq_refl). unfold bit_at. f_equal; [do 2 f_equal; divlia|divlia].
    + destruct (Nat.ltb_spec (Z.to_nat (s / 64)) (Z.to_nat (i / 64))); cbn [andb].
      * replace (s <=? i) with true by divlia. cbn [andb].
        rewrite <-(Hget _ ltac:(divlia) eq_refl). unfold bit_at. f_equal; [do 2 f_equal; divlia|divlia].
      * by replace (s <=? i) with false by divlia.
Qed.

Lemma word_ok_shifted s b ws i :
  words_ok REPLAY_WORDS ws -> 0 < b < 64 -> word_ok (shifted_bits s b ws i).
Proof.
  intros Hw Hb. unfold shifted_bits. cbv zeta.
  assert (word_ok (wrap64 (Z.shiftl (default 0 (ws !! (i - s)%nat)) b))) as Hv
    by (unfold word_ok, wrap64; apply Z.mod_pos_bound; lia).
  destruct (_ <=? _)%nat; [|apply word_ok_0]. destruct (_ <? _)%nat; [|done].
  apply word_ok_lor; [done|]. pose proof (words_ok_lookup _ _ (i - s - 1) Hw) as [H0 H1].
  apply word_ok_bits; [by apply Z.shiftr_nonneg|]. intros j Hj.
  rewrite Z.shiftr_spec by lia. apply word_ok_high; [done|lia].
Qed.

Lemma update_down_ok f ws :
  (forall ws ws' i, (forall j, (j <= i)%nat -> ws !! j = ws' !! j) -> f ws i = f ws' i) ->
  (forall i, word_ok (f ws i)) -> words_ok REPLAY_WORDS ws ->
  words_ok REPLAY_WORDS (update_down f REPLAY_WORDS ws).
Proof.
  intros Hf Ho [Hl _]. split; [by rewrite length_update_down|].
  apply Forall_lookup. intros k x Hx. pose proof (lookup_lt_Some _ _ _ Hx) as Hk.
  rewrite length_update_down in Hk.
  rewrite update_down_lookup in Hx by (done || lia). by injection Hx as <-.
Qed.

Lemma shift_left_ok w s : window_ok w -> 0 <= s -> window_ok (shift_left w s).
Proof.
  intros Hw Hs. unfold shift_left. destruct (_ =? _); [done|]. destruct (_ <=? _); [apply clear_ok|].
  cbv zeta. destruct (Z.eqb_spec (s mod 64) 0).
  - apply update_down_ok; [apply shifted_word_local| |done]. intros i. unfold shifted_word.
    destruct (_ <=? _)%nat; [by eapply words_ok_lookup|apply word_ok_0].
  - apply update_down_ok; [apply shifted_bits_local| |done]. intros i.
    apply word_ok_shifted; [done|]. pose proof (Z.mod_pos_bound s 64 ltac:(lia)). lia.
Qed.

(** ** Merging is the union *)

Lemma replay_marked_at hi ws c :
  replay_marked hi ws c = (c <=? hi) && (hi - c <? 512) && bit_at ws (hi - c).
Proof.
  unfold replay_marked, REPLAY_BITS. rewrite (Z.leb_antisym hi c).
  destruct (Z.ltb_spec hi c); [done|]. cbn [negb andb]. cbv zeta.
  destruct (Z.leb_spec 512 (hi - c)), (Z.ltb_spec (hi - c) 512); try lia; try done. cbn [andb].
  unfold bit_at. apply shiftr_land1, Z.mod_pos_bound. lia.
Qed.

Lemma merge_bits_ok idxs hi marked out :
  words_ok REPLAY_WORDS out -> words_ok REPLAY_WORDS (merge_bits idxs hi marked out).
Proof.
  revert out. induction idxs as [|i idxs IH]; intros out Ho; [done|]. cbn [merge_bits].
  destruct (_ <? _); [done|]. apply IH. destruct (marked _); [by apply (words_ok_set _ _ i)|done].
Qed.

Lemma bit_at_merge_bits a n hi marked out j :
  words_ok REPLAY_WORDS out -> (a + n <= 512)%nat -> 0 <= j ->
  bit_at (merge_bits (map Z.of_nat (seq a n)) hi marked out) j =
    bit_at out j || ((Z.of_nat a <=? j) && (j <? Z.of_nat (a + n)) && (j <=? hi) && marked (hi - j)).
Proof.
  revert a out. induction n as [|n IH]; intros a out Ho Hn Hj.
  { cbn. destruct (Z.leb_spec (Z.of_nat a) j), (Z.ltb_spec j (Z.of_nat (a + 0))); try lia;
      cbn [andb]; by rewrite orb_false_r. }
  cbn [seq map merge_bits]. destruct (Z.ltb_spec hi (Z.of_nat a)) as [Hb|Hb].
  { destruct (Z.leb_spec (Z.of_nat a) j), (Z.leb_spec j hi); try lia;
      rewrite ?andb_false_r; cbn [andb]; by rewrite orb_false_r. }
  cbv zeta. change (<[_ := _]> out) with (set_at out (Z.of_nat a)).
  rewrite IH; [|destruct (marked (hi - Z.of_nat a)); [by apply words_ok_set|done]|lia|done].
  replace (Z.of_nat (S a + n)) with (Z.of_nat (a + S n)) by lia.
  destruct (Z.eq_dec j (Z.of_nat a)) as [->|Hne].
  - rewrite (proj2 (Z.leb_gt (Z.of_nat (S a)) (Z.of_nat a))) by lia.
    rewrite Z.leb_refl, (proj2 (Z.ltb_lt (Z.of_nat a) (Z.of_nat (a + S n)))),
      (proj2 (Z.leb_le (Z.of_nat a) hi)) by lia. cbn [andb]. rewrite orb_false_r.
    destruct (marked _); [|by rewrite orb_false_r]. rewrite orb_true_r. destruct Ho as [Hl _].
    change REPLAY_WORDS with 8%nat in Hl. rewrite bit_at_set by (lia || divlia). by rewrite Z.eqb_refl.
  - assert ((Z.of_nat (S a) <=? j) = (Z.of_nat a <=? j)) as ->
      by (destruct (Z.leb_spec (Z.of_nat (S a)) j), (Z.leb_spec (Z.of_nat a) j); lia). f_equal.
    destruct (marked (hi - Z.of_nat a)); [|done]. destruct Ho as [Hl _]. change REPLAY_WORDS with 8%nat in Hl. rewrite bit_at_set by (lia || divlia).
    by rewrite (proj2 (Z.eqb_neq (Z.of_nat a) j)).
Qed.

Lemma merge_marked hi ws other_hi other c :
  0 <= c ->
  let '(new_hi, out) := merge_replay_window hi ws other_hi other in
  replay_marked new_hi out c =
    (Z.max hi other_hi - c <? 512) && (replay_marked hi ws c || replay_marked other_hi other c).
Proof.
  intros Hc. unfold merge_replay_window. cbv zeta. rewrite (replay_marked_at (Z.max hi other_hi)).
  set (h := Z.max hi other_hi). destruct (Z.leb_spec c h) as [Hle|Hgt]; cbn [andb].
  2: { rewrite !replay_marked_at. replace (c <=? hi) with false by lia.
       replace (c <=? other_hi) with false by lia. by rewrite andb_false_r. }
  destruct (Z.ltb_spec (h - c) 512) as [Hin|Hout]; [|done]. cbn [andb].
  change (seq 0 (Z.to_nat REPLAY_BITS)) with (seq 0 512).
  rewrite bit_at_merge_bits by (apply words_ok_zeros || lia).
  rewrite bit_at_zeros. cbn [orb].
  rewrite (proj2 (Z.leb_le (Z.of_nat 0) (h - c))), (proj2 (Z.ltb_lt (h - c) (Z.of_nat (0 + 512)))),
    (proj2 (Z.leb_le (h - c) h)) by lia. cbn [andb]. by replace (h - (h - c)) with c by lia.
Qed.

(** Merging the window of the kernel into the one of the session is the union of the two sets of
    marked counters, cut to the 512 counters below the higher of the two tops. Neither side can lose
    a mark that is still inside the window, and no counter is marked that neither side had marked. *)
Theorem merge_is_union hi ws other_hi other c :
  0 <= c ->
  let '(new_hi, out) := merge_replay_window hi ws other_hi other in
  new_hi = Z.max hi other_hi /\ words_ok REPLAY_WORDS out /\
  (replay_marked new_hi out c = true <->
   new_hi - c < 512 /\ (replay_marked hi ws c = true \/ replay_marked other_hi other c = true)).
Proof.
  intros Hc. pose proof (merge_marked hi ws other_hi other c Hc) as Hm.
  unfold merge_replay_window in *. cbv zeta in *. split; [done|]. split; [apply merge_bits_ok, words_ok_zeros|].
  rewrite Hm, andb_true_iff, orb_true_iff. by rewrite Z.ltb_lt.
Qed.

Lemma merge_is_union_witness :
  let '(new_hi, out) := merge_replay_window 100 (5 :: zeros 7) 170 (1 :: zeros 7) in
  new_hi = Z.max 100 170 /\ words_ok REPLAY_WORDS out /\
  (replay_marked new_hi out 98 = true <->
   new_hi - 98 < 512 /\
   (replay_marked 100 (5 :: zeros 7) 98 = true \/ replay_marked 170 (1 :: zeros 7) 98 = true)).
Proof. apply (merge_is_union 100 (5 :: zeros 7) 170 (1 :: zeros 7) 98). lia. Defined.
