(* ===== verification/Quality.v ===== *)
(** * Observing losses

    Models [crates/aivpn-common/src/quality.rs]: the ring of the last 4096 packet
    counters ([ReceiverLossWindow]), the feedback of the peer that sizes the FEC
    groups ([PeerReceiverFeedback], [AdaptiveLevel]), and the integer part of
    [QualityTracker]. The quality score itself also weighs a floating point
    reconstruction error and is not modelled.

    The ring stores counter [c] at bit [c mod 4096]. The theorems show that the
    incremental bookkeeping is exact: for every sequence of counters the window
    reports the number of distinct counters among the last 4096 and the span they
    cover, and none of its subtractions underflows. *)

From S2P Require Import Prelude Bitmap.
Local Open Scope Z_scope.

Definition RECEIVER_LOSS_WINDOW : Z := 4096.
Definition RECEIVER_LOSS_MIN_SPAN : Z := 32.
Definition PEER_RECEIVER_FEEDBACK_TTL : Z := 30 * 1000000000.
Definition EWMA_ALPHA_INV : Z := 8.

(** [x - y] on unsigned integers, with the overflow check. *)
Definition usub (x y : Z) : outcome Z := if x <? y then Panic else Ok (x - y).

(** [u64::count_ones] *)
Definition count_ones (x : Z) : Z :=
  len (filter (fun j => Z.testbit x (Z.of_nat j) = true) (seq 0 64)).

(** ** The ring *)

Record ReceiverLossWindow : Type := {
  highest : option Z;
  span : Z;
  received : Z;
  words : list Z;
}.

Definition LOSS_WORDS : nat := Z.to_nat (RECEIVER_LOSS_WINDOW / 64).

Definition default_loss_window : ReceiverLossWindow :=
  {| highest := None; span := 0; received := 0; words := zeros LOSS_WORDS |}.

(** [if count == 64 { u64::MAX } else { ((1u64 << count) - 1) << offset }] *)
Definition slot_mask (offset count : Z) : Z :=
  if count =? 64 then u64_max
  else wrap64 (Z.shiftl (Z.shiftl 1 count - 1) offset).

(** [*word &= !mask] *)
Definition clear_mask (word mask : Z) : Z := Z.land word (u64_max - mask).

Fixpoint clear_slots (fuel : nat) (index length : Z) (ws : list Z) (received : Z) : outcome (list Z * Z) :=
  match fuel with
  | O => Ok (ws, received)
  | S fuel =>
      if length <=? 0 then Ok (ws, received)
      else
      let offset := index mod 64 in
      let count := Z.min length (64 - offset) in
      let mask := slot_mask offset count in
      let k := Z.to_nat (index / 64) in
      match ws !! k with
      | None => Panic
      | Some word =>
          let! received := usub received (count_ones (Z.land word mask)) in
          let ws := <[k := clear_mask word mask]> ws in
          clear_slots fuel ((index + count) mod RECEIVER_LOSS_WINDOW) (length - count) ws received
      end
  end.

(** The end of [observe]: mark the slot of [counter]. *)
Definition mark_slot (counter : Z) (w : ReceiverLossWindow) : ReceiverLossWindow :=
  let index := Z.land counter (RECEIVER_LOSS_WINDOW - 1) in
  let bit := Z.shiftl 1 (index mod 64) in
  let k := Z.to_nat (index / 64) in
  let word := default 0 (words w !! k) in
  if Z.land word bit =? 0
  then {| highest := highest w; span := span w; received := received w + 1;
          words := <[k := Z.lor word bit]> (words w) |}
  else w.

Definition observe (w : ReceiverLossWindow) (counter : Z) : outcome ReceiverLossWindow :=
  match highest w with
  | None => Ok (mark_slot counter {| highest := Some counter; span := 1; received := received w;
                                     words := words w |})
  | Some h =>
      if h <? counter then
        let delta := counter - h in
        if RECEIVER_LOSS_WINDOW <=? delta then
          Ok (mark_slot counter {| highest := Some counter; span := RECEIVER_LOSS_WINDOW;
                                   received := 0; words := zeros LOSS_WORDS |})
        else
        let start := (Z.land h (RECEIVER_LOSS_WINDOW - 1) + 1) mod RECEIVER_LOSS_WINDOW in
        let! (ws, rc) := clear_slots (Z.to_nat delta) start delta (words w) (received w) in
        Ok (mark_slot counter {| highest := Some counter;
                                 span := Z.min (span w + delta) RECEIVER_LOSS_WINDOW;
                                 received := rc; words := ws |})
      else
        let distance := h - counter in
        if RECEIVER_LOSS_WINDOW <=? distance then Ok w
        else Ok (mark_slot counter {| highest := highest w; span := Z.max (span w) (distance + 1);
                                      received := received w; words := words w |})
  end.

Definition reset (_ : ReceiverLossWindow) : ReceiverLossWindow := default_loss_window.

Definition counts (w : ReceiverLossWindow) : Z * Z := (received w, span w).

Definition loss_ppm (w : ReceiverLossWindow) : outcome (option Z) :=
  if RECEIVER_LOSS_MIN_SPAN <=? span w then
    let! lost := usub (span w) (received w) in
    Ok (Some (wrap32 (lost * 1000000 / span w)))
  else Ok None.

(** ** Adaptive level and peer feedback *)

Module AdaptiveLevel.
Inductive t : Type := Off | Light | Aggressive | Satellite.

Definition from_u8 (v : Z) : t :=
  match v with 1 => Light | 2 => Aggressive | 3 => Satellite | _ => Off end.

Definition keepalive_secs (l : t) : Z :=
  match l with Off => 8 | Light => 6 | Aggressive => 4 | Satellite => 15 end.

Definition fec_n (l : t) : Z :=
  match l with Off => 0 | Light => 16 | Aggressive => 8 | Satellite => 4 end.

Definition suggest (score : Z) : t :=
  if (80 <=? score) && (score <=? 100) then Off
  else if (50 <=? score) && (score <=? 79) then Light
  else if (20 <=? score) && (score <=? 49) then Aggressive
  else Satellite.
End AdaptiveLevel.

Record PeerReceiverFeedback : Type := {
  last_counter : option Z;
  observation : option (Z * Z);
}.

Definition default_feedback : PeerReceiverFeedback := {| last_counter := None; observation := None |}.

Definition record_feedback (f : PeerReceiverFeedback) (counter loss now : Z) : PeerReceiverFeedback * bool :=
  if match last_counter f with Some previous => counter <=? previous | None => false end
  then (f, false)
  else ({| last_counter := Some counter; observation := Some (Z.min loss 1000000, now) |}, true).

Definition fec_group (f : PeerReceiverFeedback) (level : AdaptiveLevel.t) (now : Z) : Z :=
  match observation f with
  | Some (loss, recorded) =>
      if sat_sub now recorded <? PEER_RECEIVER_FEEDBACK_TTL then
        if loss =? 0 then 0
        else if (1 <=? loss) && (loss <=? 9999) then 16
        else if (10000 <=? loss) && (loss <=? 49999) then 8
        else 4
      else AdaptiveLevel.fec_n level
  | None => AdaptiveLevel.fec_n level
  end.

(** ** Counting bits *)

Fixpoint total_ones (ws : list Z) : Z :=
  match ws with [] => 0 | x :: ws => count_ones x + total_ones ws end.

Lemma count_ones_nonneg x : 0 <= count_ones x.
Proof. unfold count_ones. lia. Qed.

Lemma total_ones_nonneg ws : 0 <= total_ones ws.
Proof. induction ws as [|x ws IH]; cbn [total_ones]; [lia|]. pose proof (count_ones_nonneg x). lia. Qed.

Lemma total_ones_insert ws k x y :
  ws !! k = Some x -> total_ones (<[k := y]> ws) = total_ones ws - count_ones x + count_ones y.
Proof.
  revert k. induction ws as [|z ws IH]; intros [|k] Hk; try done.
  - injection Hk as ->. cbn [insert list_insert total_ones]. lia.
  - change (ws !! k = Some x) in Hk.
    change (total_ones (<[S k := y]> (z :: ws))) with (count_ones z + total_ones (<[k := y]> ws)).
    rewrite (IH _ Hk). cbn [total_ones]. lia.
Qed.

Lemma total_ones_zeros n : total_ones (zeros n) = 0.
Proof. induction n as [|n IH]; [done|]. unfold zeros in *. cbn [replicate total_ones]. by rewrite IH. Qed.

(** Splitting the bits of a word with a mask. *)
Lemma filter_split {A} (P Q R : A -> Prop) `{!forall x, Decision (P x), !forall x, Decision (Q x),
    !forall x, Decision (R x)} (l : list A) :
  (forall x, x ∈ l -> (P x <-> Q x \/ R x)) -> (forall x, x ∈ l -> ~ (Q x /\ R x)) ->
  length (filter P l) = (length (filter Q l) + length (filter R l))%nat.
Proof.
  induction l as [|x l IH]; intros Hor Hxor; [done|].
  rewrite !filter_cons. specialize (IH ltac:(intros; apply Hor; by right) ltac:(intros; apply Hxor; by right)).
  pose proof (Hor x ltac:(left)). pose proof (Hxor x ltac:(left)).
  repeat case_decide; cbn [length]; rewrite ?IH; lia || tauto.
Qed.

Lemma count_ones_split x y z :
  (forall j, 0 <= j < 64 -> Z.testbit x j = Z.testbit y j || Z.testbit z j) ->
  (forall j, 0 <= j < 64 -> Z.testbit y j && Z.testbit z j = false) ->
  count_ones x = count_ones y + count_ones z.
Proof.
  intros H1 H2. unfold count_ones.
  rewrite (filter_split (fun j => Z.testbit x (Z.of_nat j) = true) (fun j => Z.testbit y (Z.of_nat j) = true)
    (fun j => Z.testbit z (Z.of_nat j) = true)); [lia|..].
  - intros j Hj%elem_of_seq. rewrite H1 by lia. by rewrite orb_true_iff.
  - intros j Hj%elem_of_seq [Hy Hz]. specialize (H2 (Z.of_nat j) ltac:(lia)). by rewrite Hy, Hz in H2.
Qed.

Lemma count_ones_shiftl1 k : 0 <= k < 64 -> count_ones (Z.shiftl 1 k) = 1.
Proof.
  intros Hk. unfold count_ones.
  assert (filter (fun j => Z.testbit (Z.shiftl 1 k) (Z.of_nat j) = true) (seq 0 64)
          = filter (fun j => j = Z.to_nat k) (seq 0 64)) as ->.
  { apply list_filter_iff. intros j. rewrite testbit_shiftl1, Z.eqb_eq by lia. lia. }
  assert (forall a n, (a <= Z.to_nat k < a + n)%nat ->
    length (filter (fun j => j = Z.to_nat k) (seq a n)) = 1%nat) as Hf.
  { intros a n. revert a. induction n as [|n IH]; intros a Ha; [lia|]. cbn [seq].
    rewrite filter_cons. case_decide as Hd.
    - cbn [length]. f_equal. subst a.
      destruct (filter (fun j => j = Z.to_nat k) (seq (S (Z.to_nat k)) n)) as [|j l] eqn:E; [done|].
      assert (j ∈ filter (fun j => j = Z.to_nat k) (seq (S (Z.to_nat k)) n)) as Hj by (rewrite E; left).
      apply list_elem_of_filter in Hj as [-> Hj%elem_of_seq]. lia.
    - apply IH. lia. }
  rewrite Hf; [done|lia].
Qed.

(** ** Clearing a run of slots *)

Lemma testbit_slot_mask offset count j :
  0 <= offset -> 0 < count -> offset + count <= 64 -> 0 <= j < 64 ->
  Z.testbit (slot_mask offset count) j = (offset <=? j) && (j <? offset + count).
Proof.
  intros Ho Hc Hoc Hj. unfold slot_mask. destruct (Z.eqb_spec count 64) as [->|Hne].
  - change u64_max with (Z.ones 64). rewrite Z.ones_spec_low by lia.
    destruct (Z.leb_spec offset j), (Z.ltb_spec j (offset + 64)); try done; lia.
  - unfold wrap64. change 18446744073709551616 with (2 ^ 64). rewrite Z.mod_pow2_bits_low by lia.
    rewrite Z.shiftl_spec, Z.shiftl_1_l by lia. rewrite Z.sub_1_r, <-Z.ones_equiv.
    destruct (Z.leb_spec offset j); cbn [andb].
    + destruct (Z.ltb_spec j (offset + count)); [apply Z.ones_spec_low|apply Z.ones_spec_high]; lia.
    + apply Z.testbit_neg_r. lia.
Qed.

Lemma word_ok_slot_mask offset count : word_ok (slot_mask offset count).
Proof.
  unfold slot_mask. destruct (_ =? _); [unfold word_ok, u64_max; lia|].
  unfold word_ok, wrap64. apply Z.mod_pos_bound. lia.
Qed.

Lemma testbit_clear_mask x m j :
  word_ok m -> 0 <= j < 64 -> Z.testbit (clear_mask x m) j = Z.testbit x j && negb (Z.testbit m j).
Proof.
  intros Hm Hj. unfold clear_mask. change u64_max with (Z.ones 64).
  rewrite Z.sub_nocarry_ldiff.
  - by rewrite Z.land_spec, Z.ldiff_spec, Z.ones_spec_low.
  - apply Z.bits_inj'. intros i Hi. rewrite Z.ldiff_spec, Z.bits_0.
    destruct (Z.lt_ge_cases i 64); [rewrite Z.ones_spec_low by lia; apply andb_false_r|].
    by rewrite word_ok_high.
Qed.

Lemma word_ok_clear x m : word_ok x -> word_ok m -> word_ok (clear_mask x m).
Proof.
  intros Hx Hm. apply word_ok_bits.
  - apply Z.land_nonneg. left. by destruct Hx.
  - intros j Hj. unfold clear_mask. by rewrite Z.land_spec, (word_ok_high x).
Qed.

Lemma usub_Ok x y : y <= x -> usub x y = Ok (x - y).
Proof. intros H. unfold usub. by destruct (Z.ltb_spec x y); [lia|]. Qed.

Lemma words_ok_insert n ws k x : words_ok n ws -> word_ok x -> words_ok n (<[k := x]> ws).
Proof. intros [Hl Ho] Hx. split; [by rewrite length_insert|by apply Forall_insert]. Qed.

(** Clearing part of one word. *)
Lemma clear_word ws index count word :
  words_ok LOSS_WORDS ws -> 0 <= index < 4096 -> 0 < count -> index mod 64 + count <= 64 ->
  ws !! Z.to_nat (index / 64) = Some word ->
  let mask := slot_mask (index mod 64) count in
  let ws' := <[Z.to_nat (index / 64) := clear_mask word mask]> ws in
  words_ok LOSS_WORDS ws' /\ usub (total_ones ws) (count_ones (Z.land word mask)) = Ok (total_ones ws') /\
  forall i, 0 <= i < 4096 ->
    bit_at ws' i = bit_at ws i && negb ((index <=? i) && (i <? index + count)).
Proof.
  intros Hw Hi Hc Hb Hx mask ws'. pose proof (word_ok_slot_mask (index mod 64) count) as Hm. fold mask in Hm.
  pose proof (Z.mod_pos_bound index 64 ltac:(lia)) as Hmod.
  assert (word_ok word) as Ho by (destruct Hw as [_ Ho]; by apply (Forall_lookup_1 _ _ _ _ Ho Hx)).
  split; [|split].
  - apply words_ok_insert; [done|by apply word_ok_clear].
  - assert (count_ones word = count_ones (Z.land word mask) + count_ones (clear_mask word mask)) as Hsplit.
    { apply count_ones_split; intros j Hj; rewrite Z.land_spec, testbit_clear_mask by done;
        by destruct (Z.testbit word j), (Z.testbit mask j). }
    unfold ws'. rewrite (total_ones_insert _ _ _ _ Hx). rewrite usub_Ok; [f_equal; lia|].
    pose proof (total_ones_insert ws _ word 0 Hx) as H0.
    pose proof (total_ones_nonneg (<[Z.to_nat (index / 64) := 0]> ws)).
    change (count_ones 0) with 0 in H0. pose proof (count_ones_nonneg (clear_mask word mask)). lia.
  - intros i Hi'. pose proof (Z.mod_pos_bound i 64 ltac:(lia)). unfold bit_at, ws'.
    destruct (decide (Z.to_nat (i / 64) = Z.to_nat (index / 64))) as [E|E].
    + rewrite E, list_lookup_insert_eq, Hx by (destruct Hw as [-> _]; change LOSS_WORDS with 64%nat; divlia).
      cbn [default from_option id]. rewrite testbit_clear_mask by done. unfold mask.
      rewrite testbit_slot_mask by lia. do 2 f_equal. assert (i / 64 = index / 64) by divlia.
      f_equal; [destruct (Z.leb_spec (index mod 64) (i mod 64)), (Z.leb_spec index i)
               |destruct (Z.ltb_spec (i mod 64) (index mod 64 + count)), (Z.ltb_spec i (index + count))];
        try done; divlia.
    + rewrite list_lookup_insert_ne by done.
      replace ((index <=? i) && (i <? index + count)) with false; [by rewrite andb_true_r|].
      symmetry. apply andb_false_iff. rewrite Z.leb_gt, Z.ltb_ge. divlia.
Qed.

Lemma clear_slots_spec fuel index length ws :
  words_ok LOSS_WORDS ws -> 0 <= index < 4096 -> 0 <= length <= 4096 -> (Z.to_nat length <= fuel)%nat ->
  exists ws', clear_slots fuel index length ws (total_ones ws) = Ok (ws', total_ones ws') /\
    words_ok LOSS_WORDS ws' /\
    forall i, 0 <= i < 4096 -> bit_at ws' i = bit_at ws i && negb ((i - index) mod 4096 <? length).
Proof.
  revert index length ws. induction fuel as [|fuel IH]; intros index length ws Hw Hi Hl Hf.
  { exists ws. split; [done|]. split; [done|]. intros i Hi'.
    replace length with 0 by lia. pose proof (Z.mod_pos_bound (i - index) 4096 ltac:(lia)).
    destruct (Z.ltb_spec ((i - index) mod 4096) 0); [lia|]. by rewrite andb_true_r. }
  cbn [clear_slots]. destruct (Z.leb_spec length 0) as [H0|Hpos].
  { exists ws. split; [done|]. split; [done|]. intros i Hi'.
    pose proof (Z.mod_pos_bound (i - index) 4096 ltac:(lia)).
    destruct (Z.ltb_spec ((i - index) mod 4096) length); [lia|]. by rewrite andb_true_r. }
  cbv zeta. pose proof (Z.mod_pos_bound index 64 ltac:(lia)) as Hmod.
  set (count := Z.min length (64 - index mod 64)).
  assert (0 < count <= length /\ index mod 64 + count <= 64) as [Hc Hb] by (unfold count; lia).
  destruct (lookup_lt_is_Some_2 ws (Z.to_nat (index / 64))) as [word Hx].
  { destruct Hw as [-> _]. change LOSS_WORDS with 64%nat. divlia. }
  rewrite Hx. destruct (clear_word ws index count word Hw Hi ltac:(lia) Hb Hx) as (Hw1 & -> & Hbits).
  cbn [obind].
  destruct (IH ((index + count) mod RECEIVER_LOSS_WINDOW) (length - count)
    (<[Z.to_nat (index / 64) := clear_mask word (slot_mask (index mod 64) count)]> ws))
    as (ws' & -> & Hw' & Hbits'); [done|apply Z.mod_pos_bound; done|lia|lia|].
  exists ws'. split; [done|]. split; [done|]. intros i Hi'. rewrite Hbits', Hbits by done.
  rewrite <-andb_assoc, <-negb_orb. do 2 f_equal.
  unfold RECEIVER_LOSS_WINDOW. rewrite Zminus_mod_idemp_r.
  pose proof (Z.mod_pos_bound (i - index) 4096 ltac:(lia)) as Hr.
  assert (index + count <= 4096) by divlia. clear -Hi Hi' Hc Hl H Hr.
  destruct (Z.leb_spec index i), (Z.ltb_spec i (index + count)); cbn [andb orb];
    destruct (Z.ltb_spec ((i - index) mod 4096) length),
      (Z.ltb_spec ((i - (index + count)) mod 4096) (length - count)); try done; divlia.
Qed.

(** ** What the window should report

    The reference: the highest and lowest counter taken into account, and the
    set of all of them. Counters more than 4096 behind the highest are ignored. *)

Definition observed : Type := option (Z * Z * gset Z).

Definition note (o : observed) (c : Z) : observed :=
  match o with
  | None => Some (c, c, {[c]})
  | Some (h, lo, s) =>
      if RECEIVER_LOSS_WINDOW <=? h - c then o
      else Some (Z.max h c, Z.min lo c, {[c]} ∪ s)
  end.

(** Distinct counters among the last 4096, and the span from the lowest one. *)
Definition observed_counts (o : observed) : Z * Z :=
  match o with
  | None => (0, 0)
  | Some (h, lo, s) =>
      (Z.of_nat (size (filter (fun c => h - c < RECEIVER_LOSS_WINDOW) s)),
       Z.min RECEIVER_LOSS_WINDOW (h - lo + 1))
  end.

Definition ring_ok (w : ReceiverLossWindow) (h : Z) (s : gset Z) : Prop :=
  words_ok LOSS_WORDS (words w) /\ received w = total_ones (words w) /\
  (forall c, c ∈ s -> 0 <= c <= h) /\
  forall d, 0 <= d < 4096 -> bit_at (words w) ((h - d) mod 4096) = bool_decide (h - d ∈ s).

Definition loss_holds (w : ReceiverLossWindow) (o : observed) : Prop :=
  match o with
  | None => w = default_loss_window
  | Some (h, lo, s) =>
      highest w = Some h /\ lo <= h /\ span w = Z.min RECEIVER_LOSS_WINDOW (h - lo + 1) /\ ring_ok w h s
  end.

Lemma land_ring c : Z.land c (RECEIVER_LOSS_WINDOW - 1) = c mod 4096.
Proof. change (RECEIVER_LOSS_WINDOW - 1) with (Z.ones 12). by rewrite Z.land_ones. Qed.

Lemma mark_slot_spec c w :
  words_ok LOSS_WORDS (words w) -> received w = total_ones (words w) ->
  let w' := mark_slot c w in
  highest w' = highest w /\ span w' = span w /\
  words_ok LOSS_WORDS (words w') /\ received w' = total_ones (words w') /\
  forall i, 0 <= i < 4096 -> bit_at (words w') i = (c mod 4096 =? i) || bit_at (words w) i.
Proof.
  intros Hw Hr. unfold mark_slot. rewrite land_ring. cbv zeta.
  pose proof (Z.mod_pos_bound c 4096 ltac:(lia)) as Hi. set (i := c mod 4096) in *.
  pose proof (Z.mod_pos_bound i 64 ltac:(lia)) as Hj. destruct Hw as [Hl Ho].
  destruct (lookup_lt_is_Some_2 (words w) (Z.to_nat (i / 64))) as [x Hx].
  { rewrite Hl. change LOSS_WORDS with 64%nat. divlia. }
  rewrite Hx. cbn [default from_option id].
  pose proof (land_shiftl1 x (i mod 64) ltac:(lia)) as Hbit.
  destruct (Z.land x (Z.shiftl 1 (i mod 64)) =? 0) eqn:E; cbn [negb] in Hbit.
  - cbn. split; [done|]. split; [done|].
    assert (<[Z.to_nat (i / 64) := Z.lor x (Z.shiftl 1 (i mod 64))]> (words w) = set_at (words w) i) as Hset
      by (unfold set_at; by rewrite Hx).
    split; [rewrite Hset; by apply words_ok_set|]. split.
    + rewrite (total_ones_insert _ _ _ _ Hx), Hr.
      rewrite (count_ones_split (Z.lor x _) x (Z.shiftl 1 (i mod 64))), count_ones_shiftl1; [lia|done|..].
      * intros k Hk. apply Z.lor_spec.
      * intros k Hk. rewrite testbit_shiftl1 by lia. destruct (Z.eqb_spec k (i mod 64)) as [->|].
        -- by rewrite <-Hbit.
        -- apply andb_false_r.
    + intros k Hk. rewrite Hset. apply bit_at_set; [|lia|lia]. rewrite Hl. change LOSS_WORDS with 64%nat. divlia.
  - split; [done|]. split; [done|]. split; [done|]. split; [done|]. intros k Hk.
    destruct (Z.eqb_spec i k) as [<-|]; [|done]. unfold bit_at. rewrite Hx. cbn [default from_option id orb].
    by rewrite <-Hbit.
Qed.

(** Marking [c] in a ring whose highest counter is [h]. *)
Lemma ring_mark w c h s lo :
  highest w = Some h -> 0 <= c -> 0 <= h - c < 4096 -> lo <= h ->
  span w = Z.min RECEIVER_LOSS_WINDOW (h - lo + 1) -> ring_ok w h s ->
  loss_holds (mark_slot c w) (Some (h, lo, {[c]} ∪ s)).
Proof.
  intros Hh Hc Hd Hlo Hsp (Hw & Hr & Hs & Hb).
  destruct (mark_slot_spec c w Hw Hr) as (H1 & H2 & H3 & H4 & H5).
  split; [congruence|]. split; [done|]. split; [congruence|]. split; [done|]. split; [done|]. split.
  - intros x [->%elem_of_singleton|Hx]%elem_of_union; [lia|auto].
  - intros d Hd'. rewrite H5 by (apply Z.mod_pos_bound; lia). rewrite Hb by done.
    assert ((c mod 4096 =? (h - d) mod 4096) = bool_decide (h - d ∈@{gset Z} {[c]})) as ->.
    { rewrite (bool_decide_ext _ (h - d = c)) by set_solver. symmetry.
      destruct (Z.eqb_spec (c mod 4096) ((h - d) mod 4096)) as [E|E].
      - apply bool_decide_eq_true. divlia.
      - apply bool_decide_eq_false. intros <-. done. }
    rewrite (bool_decide_ext (h - d ∈ {[c]} ∪ s) (h - d ∈@{gset Z} {[c]} \/ h - d ∈ s)) by set_solver.
    by rewrite bool_decide_or.
Qed.

Lemma ring_fresh h c (s : gset Z) ws rc sp :
  (forall x, x ∈ s -> 0 <= x <= h) -> h + 4096 <= c -> ws = zeros LOSS_WORDS -> rc = 0 ->
  ring_ok {| highest := Some c; span := sp; received := rc; words := ws |} c s.
Proof.
  intros Hs Hc -> ->. split; [apply words_ok_zeros|]. split; [cbn; by rewrite total_ones_zeros|].
  split; [intros x Hx; specialize (Hs x Hx); lia|]. intros d Hd. cbn [words]. rewrite bit_at_zeros.
  symmetry. apply bool_decide_eq_false. intros Hx%Hs. lia.
Qed.

Lemma ring_advance w h c s ws :
  ring_ok w h s -> h < c < h + 4096 -> words_ok LOSS_WORDS ws ->
  (forall i, 0 <= i < 4096 ->
     bit_at ws i = bit_at (words w) i && negb ((i - (h mod 4096 + 1) mod 4096) mod 4096 <? c - h)) ->
  forall sp, ring_ok {| highest := Some c; span := sp; received := total_ones ws; words := ws |} c s.
Proof.
  intros (Hw & Hr & Hs & Hb) Hc Hws Hbits sp. split; [done|]. split; [done|].
  split; [intros x Hx; specialize (Hs x Hx); lia|]. intros d Hd. cbn [words].
  rewrite Hbits by (apply Z.mod_pos_bound; lia).
  assert (((c - d) mod 4096 - (h mod 4096 + 1) mod 4096) mod 4096 = (c - d - h - 1) mod 4096) as ->.
  { rewrite <-Zminus_mod. replace (c - d - (h mod 4096 + 1)) with (c - d - 1 - h mod 4096) by lia.
    rewrite Zminus_mod_idemp_r. f_equal. lia. }
  destruct (Z.lt_ge_cases d (c - h)) as [Hlt|Hge].
  - rewrite (Z.mod_small (c - d - h - 1)) by lia. rewrite (proj2 (Z.ltb_lt _ _)) by lia.
    cbn [negb]. rewrite andb_false_r.
    symmetry. apply bool_decide_eq_false. intros Hx%Hs. lia.
  - replace (c - d - h - 1) with (4096 + (c - d - h - 1) + (-1) * 4096) by lia. rewrite Z.mod_add by lia.
    rewrite (Z.mod_small (4096 + _)) by lia. rewrite (proj2 (Z.ltb_ge _ _)) by lia. cbn [negb]. rewrite andb_true_r.
    replace (c - d) with (h - (d - (c - h))) by lia. apply Hb. lia.
Qed.

Lemma observe_holds w o c :
  loss_holds w o -> 0 <= c -> exists w', observe w c = Ok w' /\ loss_holds w' (note o c).
Proof.
  intros Hw Hc. destruct o as [[[h lo] s]|]; cbn [loss_holds note] in *.
  2: { subst w. eexists. split; [reflexivity|].
       assert (loss_holds (mark_slot c {| highest := Some c; span := 1; received := 0; words := zeros LOSS_WORDS |})
         (Some (c, c, {[c]} ∪ ∅))) as H.
       { apply ring_mark; [done|done|lia|lia|cbn; unfold RECEIVER_LOSS_WINDOW; lia|].
         apply (ring_fresh (c - 4096)); [set_solver|lia|done|done]. }
       by rewrite union_empty_r_L in H. }
  destruct Hw as (Hh & Hlo & Hsp & Hring). unfold observe. rewrite Hh. unfold RECEIVER_LOSS_WINDOW in *.
  destruct (Z.ltb_spec h c) as [Hgt|Hle].
  - rewrite (proj2 (Z.leb_gt 4096 (h - c))) by lia. cbv zeta. rewrite (Z.max_r h c), (Z.min_l lo c) by lia.
    destruct (Z.leb_spec 4096 (c - h)) as [Hfar|Hnear].
    + eexists. split; [reflexivity|]. apply ring_mark; [done|done|lia|lia|cbn; unfold RECEIVER_LOSS_WINDOW; lia|].
      destruct Hring as (_ & _ & Hs & _). by apply (ring_fresh h); [|lia|..].
    + change (4096 - 1) with (RECEIVER_LOSS_WINDOW - 1). rewrite land_ring.
      pose proof Hring as (Hws & Hr & _). rewrite Hr.
      destruct (clear_slots_spec (Z.to_nat (c - h)) ((h mod 4096 + 1) mod 4096) (c - h) (words w))
        as (ws & -> & Hws' & Hbits); [done|apply Z.mod_pos_bound; lia|lia|lia|]. cbn [obind].
      eexists. split; [reflexivity|].
      apply ring_mark; [done|done|lia|lia|cbn; unfold RECEIVER_LOSS_WINDOW; lia|].
      apply (ring_advance w h); [done|lia|done|exact Hbits].
  - cbv zeta. destruct (Z.leb_spec 4096 (h - c)) as [Hfar|Hnear].
    + eexists. split; [reflexivity|]. done.
    + eexists. split; [reflexivity|]. rewrite (Z.max_l h c) by lia.
      apply ring_mark; [done|done|lia|lia|cbn; unfold RECEIVER_LOSS_WINDOW; lia|].
      exact Hring.
Qed.

(** ** The bits of the ring are the counters of the window *)

Lemma length_filter_in {A} (P Q : A -> Prop) `{!forall x, Decision (P x), !forall x, Decision (Q x)} (l : list A) :
  (forall x, x ∈ l -> (P x <-> Q x)) -> length (filter P l) = length (filter Q l).
Proof.
  induction l as [|x l IH]; intros Hpq; [done|]. rewrite !filter_cons.
  specialize (IH ltac:(intros; apply Hpq; by right)). pose proof (Hpq x ltac:(left)).
  repeat case_decide; cbn [length]; rewrite ?IH; done || tauto.
Qed.

Lemma length_filter_map {A B} (f : A -> B) (P : B -> Prop) `{!forall x, Decision (P x)} (l : list A) :
  length (filter P (map f l)) = length (filter (fun x => P (f x)) l).
Proof.
  induction l as [|x l IH]; [done|]. cbn [map]. rewrite !filter_cons.
  case_decide; cbn [length]; by rewrite IH.
Qed.

Lemma total_ones_bits ws :
  total_ones ws = len (filter (fun i => bit_at ws (Z.of_nat i) = true) (seq 0 (length ws * 64))).
Proof.
  induction ws as [|x ws IH]; [done|]. cbn [total_ones length]. rewrite IH.
  change (S (length ws) * 64)%nat with (64 + length ws * 64)%nat.
  rewrite (seq_app 64), filter_app, length_app, Nat2Z.inj_add. apply (f_equal2 Z.add).
  - unfold count_ones. apply (f_equal Z.of_nat), length_filter_in.
    intros i Hi%elem_of_seq. unfold bit_at. rewrite Z.div_small, Z.mod_small by lia. done.
  - change (0 + 64)%nat with (64 + 0)%nat. rewrite <-(fmap_add_seq 64 0 (length ws * 64)).
    rewrite (length_filter_map (Nat.add 64)). apply (f_equal Z.of_nat), length_filter_in.
    intros i _. unfold bit_at.
    replace (Z.of_nat (64 + i)) with (Z.of_nat i + 1 * 64) by lia.
    rewrite Z.div_add, Z.mod_add by lia.
    replace (Z.to_nat (Z.of_nat i / 64 + 1)) with (S (Z.to_nat (Z.of_nat i / 64))) by divlia. done.
Qed.

(** Walking back from [h] visits every slot once. *)
Lemma ring_walk (h : Z) (n : nat) :
  (0 < n)%nat ->
  map (fun d => Z.to_nat ((h - Z.of_nat d) mod Z.of_nat n)) (seq 0 n) ≡ₚ seq 0 n.
Proof.
  intros Hn. apply submseteq_length_Permutation; [|by rewrite length_map].
  apply NoDup_submseteq.
  - apply NoDup_fmap_2_strong; [|apply NoDup_seq]. intros x y Hx%elem_of_seq Hy%elem_of_seq E.
    pose proof (Z.mod_pos_bound (h - Z.of_nat x) (Z.of_nat n) ltac:(lia)).
    pose proof (Z.mod_pos_bound (h - Z.of_nat y) (Z.of_nat n) ltac:(lia)).
    assert ((h - Z.of_nat x) mod Z.of_nat n = (h - Z.of_nat y) mod Z.of_nat n) as E' by lia.
    pose proof (Z.div_mod (h - Z.of_nat x) (Z.of_nat n) ltac:(lia)) as Ex.
    pose proof (Z.div_mod (h - Z.of_nat y) (Z.of_nat n) ltac:(lia)) as Ey. rewrite E' in Ex.
    set (qx := (h - Z.of_nat x) / Z.of_nat n) in *. set (qy := (h - Z.of_nat y) / Z.of_nat n) in *.
    assert (Z.of_nat n * (qx - qy) = Z.of_nat y - Z.of_nat x) as Hq by lia.
    assert (qx - qy = 0) by nia. nia.
  - intros x Hx. apply list_elem_of_fmap in Hx as (d & -> & Hd%elem_of_seq). apply elem_of_seq.
    pose proof (Z.mod_pos_bound (h - Z.of_nat d) (Z.of_nat n) ltac:(lia)). lia.
Qed.

(** The counters of [s] among the [n] up to [h], counted by their distance. *)
Lemma window_size (h : Z) (n : nat) (s : gset Z) :
  (forall c, c ∈ s -> c <= h) ->
  length (filter (fun d => h - Z.of_nat d ∈ s) (seq 0 n)) = size (filter (fun c => h - c < Z.of_nat n) s).
Proof.
  intros Hs. set (l := (fun d => h - Z.of_nat d) <$> filter (fun d => h - Z.of_nat d ∈ s) (seq 0 n)).
  assert (filter (fun c => h - c < Z.of_nat n) s = list_to_set l) as ->.
  { apply set_eq. intros c. rewrite elem_of_filter, elem_of_list_to_set. unfold l.
    rewrite list_elem_of_fmap. setoid_rewrite list_elem_of_filter. setoid_rewrite elem_of_seq. split.
    - intros [Hc Hin]. exists (Z.to_nat (h - c)). specialize (Hs c Hin).
      replace (h - Z.of_nat (Z.to_nat (h - c))) with c by lia. split; [done|]. split; [done|lia].
    - intros (d & -> & Hin & Hd). split; [lia|done]. }
  rewrite size_list_to_set; [unfold l; by rewrite length_fmap|].
  apply NoDup_fmap_2_strong; [intros; lia|]. apply NoDup_filter, NoDup_seq.
Qed.

Lemma ring_count w h s :
  ring_ok w h s -> received w = Z.of_nat (size (filter (fun c => h - c < RECEIVER_LOSS_WINDOW) s)).
Proof.
  intros ([Hl Ho] & -> & Hs & Hb). rewrite total_ones_bits.
  remember (length (words w) * 64)%nat as n eqn:En.
  assert (Z.of_nat n = 4096) as Hn by (rewrite En, Hl; reflexivity). clear En.
  unfold RECEIVER_LOSS_WINDOW. rewrite <-Hn, <-window_size by (intros c Hc; apply Hs in Hc; lia).
  apply (f_equal Z.of_nat).
  rewrite <-(ring_walk h n) at 1 by lia. rewrite length_filter_map. apply length_filter_in.
  intros d Hd%elem_of_seq. pose proof (Z.mod_pos_bound (h - Z.of_nat d) (Z.of_nat n) ltac:(lia)).
  rewrite Z2Nat.id, Hn, Hb by lia. by rewrite bool_decide_eq_true.
Qed.

(** ** The whole window *)

Fixpoint observe_all (w : ReceiverLossWindow) (cs : list Z) : outcome ReceiverLossWindow :=
  match cs with
  | [] => Ok w
  | c :: cs => let! w := observe w c in observe_all w cs
  end.

Definition observed_ok (o : observed) : Prop :=
  match o with None => True | Some (h, lo, s) => lo <= h /\ forall c, c ∈ s -> lo <= c <= h end.

Lemma note_ok o c : observed_ok o -> observed_ok (note o c).
Proof.
  destruct o as [[[h lo] s]|]; cbn [observed_ok note]; [|set_solver by lia].
  intros [Hlo Hs]. destruct (_ <=? _); [done|]. cbn [observed_ok]. split; [lia|].
  intros x [->%elem_of_singleton|Hx]%elem_of_union; [lia|]. specialize (Hs x Hx). lia.
Qed.

Lemma observed_counts_bound o :
  observed_ok o -> 0 <= (observed_counts o).1 <= (observed_counts o).2 /\ (observed_counts o).2 <= 4096.
Proof.
  destruct o as [[[h lo] s]|]; [|done]. intros [Hlo Hs]. cbn [observed_counts fst snd].
  unfold RECEIVER_LOSS_WINDOW. split; [|lia]. split; [lia|].
  set (n := Z.to_nat (Z.min 4096 (h - lo + 1))).
  cut (le (size (filter (fun c => h - c < 4096) s)) n); [lia|].
  assert (filter (fun c => h - c < 4096) s = filter (fun c => h - c < Z.of_nat n) s) as ->.
  { apply set_eq. intros c. rewrite !elem_of_filter. split; intros [Hc Hin]; (split; [|done]);
      specialize (Hs c Hin); lia. }
  rewrite <-window_size by (intros c Hc; specialize (Hs c Hc); lia).
  rewrite length_filter, length_seq. done.
Qed.

Lemma observe_all_holds cs w o :
  loss_holds w o -> observed_ok o -> Forall u64_ok cs ->
  exists w', observe_all w cs = Ok w' /\ loss_holds w' (fold_left note cs o) /\
    observed_ok (fold_left note cs o).
Proof.
  revert w o. induction cs as [|c cs IH]; intros w o Hw Ho Hcs; [by eauto|].
  apply Forall_cons in Hcs as [Hc Hcs]. cbn [observe_all fold_left].
  destruct (observe_holds w o c Hw) as (w1 & -> & Hw1); [unfold u64_ok in Hc; lia|]. cbn [obind].
  apply IH; [done|by apply note_ok|done].
Qed.

Lemma loss_holds_counts w o : loss_holds w o -> counts w = observed_counts o.
Proof.
  destruct o as [[[h lo] s]|]; cbn [loss_holds observed_counts]; [|by intros ->].
  intros (_ & _ & Hsp & Hring). unfold counts. by rewrite Hsp, (ring_count w h s).
Qed.

(** The loss window is exact. For every sequence of 64-bit counters, in any
    order and with any jumps, the ring never underflows and reports the number of
    distinct counters within 4096 of the highest one and the span they cover; the
    number received is at most the span, which is at most 4096, and the loss rate
    computed from them is their true ratio, at most one million. *)
Theorem loss_window_exact cs :
  Forall u64_ok cs ->
  let o := fold_left note cs None in
  exists w, observe_all default_loss_window cs = Ok w /\ counts w = observed_counts o /\
    received w <= span w <= RECEIVER_LOSS_WINDOW /\
    loss_ppm w = Ok (if RECEIVER_LOSS_MIN_SPAN <=? span w
                     then Some ((span w - received w) * 1000000 / span w) else None) /\
    (RECEIVER_LOSS_MIN_SPAN <= span w -> (span w - received w) * 1000000 / span w <= 1000000).
Proof.
  intros Hcs o. destruct (observe_all_holds cs default_loss_window None eq_refl I Hcs) as (w & Hw & Hh & Ho).
  exists w. split; [done|]. pose proof (loss_holds_counts _ _ Hh) as Hc. split; [done|].
  pose proof (observed_counts_bound _ Ho) as Hb. fold o in Hc, Hb. rewrite <-Hc in Hb. unfold counts in Hb.
  cbn [fst snd] in Hb. unfold RECEIVER_LOSS_WINDOW, RECEIVER_LOSS_MIN_SPAN, loss_ppm. split; [lia|].
  assert (32 <= span w -> 0 <= (span w - received w) * 1000000 / span w <= 1000000) as Hr.
  { intros Hs. split; [apply Z.div_pos; lia|]. apply Z.div_le_upper_bound; lia. }
  split; [|intros Hs; by apply Hr].
  unfold RECEIVER_LOSS_MIN_SPAN. destruct (Z.leb_spec 32 (span w)) as [Hs|]; [|done].
  rewrite usub_Ok by lia. cbn [obind]. unfold wrap32. rewrite Z.mod_small; [done|]. specialize (Hr Hs). lia.
Qed.

Definition sample_counters : list Z := [100; 103; 101; 10000; 9999; 101; 9999].

Lemma loss_window_exact_witness :
  exists w, observe_all default_loss_window sample_counters = Ok w /\ counts w = (2, 4096) /\
    observed_counts (fold_left note sample_counters None) = (2, 4096).
Proof.
  destruct (loss_window_exact sample_counters) as (w & Hw & Hc & _).
  { repeat constructor; vm_compute; congruence. }
  exists w. split; [exact Hw|].
  assert (observed_counts (fold_left note sample_counters None) = (2, 4096)) as H by (vm_compute; reflexivity).
  split; [by rewrite Hc|done].
Defined.

(** ** The tracker *)

Record QualityTracker : Type := { rtt_us : Z; jitter_us : Z; sent : Z; lost : Z }.

Definition default_tracker : QualityTracker := {| rtt_us := 0; jitter_us := 0; sent := 0; lost := 0 |}.

(** [(old * (EWMA_ALPHA_INV - 1) + sample) / EWMA_ALPHA_INV] with the overflow check. *)
Definition ewma (old sample : Z) : outcome Z :=
  let sum := old * (EWMA_ALPHA_INV - 1) + sample in
  if sum <=? u64_max then Ok (sum / EWMA_ALPHA_INV) else Panic.

Definition record_rtt (q : QualityTracker) (sample_us : Z) : outcome QualityTracker :=
  if rtt_us q =? 0 then
    Ok {| rtt_us := sample_us; jitter_us := jitter_us q; sent := sent q; lost := lost q |}
  else
  let dev := Z.abs (sample_us - rtt_us q) in
  let! jitter := ewma (jitter_us q) dev in
  let! rtt := ewma (rtt_us q) sample_us in
  Ok {| rtt_us := rtt; jitter_us := jitter; sent := sent q; lost := lost q |}.

Definition record_gap (q : QualityTracker) (gap : Z) : QualityTracker :=
  {| rtt_us := rtt_us q; jitter_us := jitter_us q; sent := sat_add64 (sent q) gap;
     lost := sat_add64 (lost q) (sat_sub gap 1) |}.

Definition record_received (q : QualityTracker) : QualityTracker :=
  {| rtt_us := rtt_us q; jitter_us := jitter_us q; sent := sat_add64 (sent q) 1; lost := lost q |}.

Definition record_window (q : QualityTracker) (received span : Z) : QualityTracker :=
  {| rtt_us := rtt_us q; jitter_us := jitter_us q; sent := span; lost := sat_sub span received |}.

Definition rtt_ms (q : QualityTracker) : Z := Z.min (rtt_us q / 1000) u16_max.
Definition jitter_ms (q : QualityTracker) : Z := Z.min (jitter_us q / 1000) u16_max.

Definition tracker_loss_ppm (q : QualityTracker) : outcome Z :=
  if sent q =? 0 then Ok 0
  else if u64_max <? lost q * 1000000 then Panic
  else Ok (wrap32 (Z.min (lost q * 1000000 / sent q) 1000000)).

Definition reset_loss (q : QualityTracker) : QualityTracker :=
  {| rtt_us := rtt_us q; jitter_us := jitter_us q; sent := 0; lost := 0 |}.

Fixpoint record_rtts (q : QualityTracker) (samples : list Z) : outcome QualityTracker :=
  match samples with
  | [] => Ok q
  | s :: samples => let! q := record_rtt q s in record_rtts q samples
  end.

Lemma ewma_between lo hi old sample :
  0 <= lo -> hi <= 2 ^ 60 -> lo <= old <= hi -> lo <= sample <= hi ->
  exists x, ewma old sample = Ok x /\ lo <= x <= hi.
Proof.
  intros Hlo Hhi Ho Hs. unfold ewma, EWMA_ALPHA_INV, u64_max.
  change (2 ^ 60) with 1152921504606846976 in Hhi.
  destruct (Z.leb_spec (old * (8 - 1) + sample) 18446744073709551615); [|lia].
  eexists. split; [reflexivity|]. divlia.
Qed.

Lemma record_rtts_between lo hi samples q :
  0 < lo -> hi <= 2 ^ 60 -> Forall (fun s => lo <= s <= hi) samples ->
  lo <= rtt_us q <= hi -> 0 <= jitter_us q <= hi - lo ->
  exists q', record_rtts q samples = Ok q' /\ lo <= rtt_us q' <= hi /\ 0 <= jitter_us q' <= hi - lo.
Proof.
  intros Hlo Hhi. revert q. induction samples as [|s samples IH]; intros q Hs Hr Hj; [by eauto|].
  apply Forall_cons in Hs as [Hs0 Hs]. cbn [record_rtts]. unfold record_rtt.
  destruct (Z.eqb_spec (rtt_us q) 0); [lia|]. cbv zeta.
  destruct (ewma_between 0 (hi - lo) (jitter_us q) (Z.abs (s - rtt_us q))) as (j & -> & Hj'); [lia..|].
  destruct (ewma_between lo hi (rtt_us q) s) as (x & -> & Hx); [lia..|]. cbn [obind].
  apply IH; cbn; done || lia.
Qed.

(** The smoothed round trip time stays between the smallest and the largest
    sample, the smoothed jitter below their difference, and the fixed-point
    averages never overflow for samples up to 2^60 microseconds. *)
Theorem rtt_average_bounded lo hi samples :
  0 < lo -> hi <= 2 ^ 60 -> samples <> [] -> Forall (fun s => lo <= s <= hi) samples ->
  exists q, record_rtts default_tracker samples = Ok q /\
    lo <= rtt_us q <= hi /\ 0 <= jitter_us q <= hi - lo.
Proof.
  intros Hlo Hhi Hne Hs. destruct samples as [|s samples]; [done|].
  apply Forall_cons in Hs as [Hs0 Hs].
  change (record_rtts default_tracker (s :: samples))
    with (record_rtts {| rtt_us := s; jitter_us := 0; sent := 0; lost := 0 |} samples).
  apply record_rtts_between; cbn; done || lia.
Qed.

Lemma rtt_average_bounded_witness :
  exists q, record_rtts default_tracker [40000; 60000; 50000] = Ok q /\
    40000 <= rtt_us q <= 60000 /\ 0 <= jitter_us q <= 60000 - 40000.
Proof.
  apply (rtt_average_bounded 40000 60000 [40000; 60000; 50000]);
    [lia|vm_compute; congruence|done|repeat constructor; lia].
Defined.
