(* ===== verification/Crypto.v ===== *)
(** * Key derivation, envelopes and tags

    Models [crates/aivpn-common/src/crypto.rs]. The primitives come from other
    crates (blake3, chacha20poly1305, x25519-dalek, ed25519-dalek); they are the
    operations of the class [Primitives], and what the code relies on is the class
    [PrimitiveLaws]: lengths, and that an AEAD opens what it sealed to bytes. Random bytes
    and the clock are arguments.

    The theorems are about the code around the primitives: packets survive the
    envelope of their epoch, the associated data and the signed messages determine
    their fields, the two ends of a peer link derive mirrored keys, and a tag never
    looks like a WireGuard message. *)

From S2P Require Import Prelude Text Protocol Fec.
From Stdlib Require Import Ascii.
Local Open Scope Z_scope.

(** [str::as_bytes] of an ASCII literal *)
Definition str_bytes (s : string) : bytes :=
  map (fun c => Z.of_N (N_of_ascii c)) (String.list_ascii_of_string s).

Definition NONCE_SIZE : Z := 12.
Definition DEFAULT_WINDOW_MS : Z := 10000.

(** ** The primitives *)

Class Primitives : Type := {
  blake3_hash : bytes -> bytes;
  derive_key : string -> bytes -> bytes;
  keyed_hash : bytes -> bytes -> bytes;
  x25519 : bytes -> bytes -> bytes;
  x25519_base : bytes -> bytes;
  (** ChaCha20-Poly1305: key, nonce, associated data, text. *)
  chacha_seal : bytes -> bytes -> bytes -> bytes -> option bytes;
  chacha_open : bytes -> bytes -> bytes -> bytes -> option bytes;
  (** XChaCha20-Poly1305 with the tag apart. *)
  xchacha_seal : bytes -> bytes -> bytes -> bytes -> option (bytes * bytes);
  xchacha_open : bytes -> bytes -> bytes -> bytes -> option bytes;
  verifying_key_ok : bytes -> bool;
  verify_strict : bytes -> bytes -> bytes -> bool;
}.

Class PrimitiveLaws {PR : Primitives} : Prop := {
  blake3_hash_length : forall m, len (blake3_hash m) = 32;
  derive_key_length : forall c m, len (derive_key c m) = 32;
  keyed_hash_length : forall k m, len (keyed_hash k m) = 32;
  keyed_hash_bytes : forall k m, bytes_ok (keyed_hash k m);
  chacha_open_seal : forall k n a p c, chacha_seal k n a p = Some c ->
    chacha_open k n a c = Some p /\ len c = len p + POLY1305_TAG_SIZE;
  xchacha_open_seal : forall k n a p c mac, xchacha_seal k n a p = Some (c, mac) ->
    xchacha_open k n a (c ++ mac) = Some p /\ len c = len p /\ len mac = POLY1305_TAG_SIZE;
  chacha_open_bytes : forall k n a c p, bytes_ok c -> chacha_open k n a c = Some p -> bytes_ok p;
  xchacha_open_bytes : forall k n a c p, bytes_ok c -> xchacha_open k n a c = Some p -> bytes_ok p;
}.

(** ** Keys *)

Module PacketCipher.
Inductive t : Type := Established | InitialV2 (client_eph_pub : bytes).

Definition is_initial (c : t) : bool := match c with InitialV2 _ => true | Established => false end.
End PacketCipher.

Module PacketDirection.
Inductive t : Type := ClientToServer | ServerToClient.
End PacketDirection.

Record SessionKeys : Type := {
  packet_cipher : PacketCipher.t;
  session_key : bytes;
  session_key_s2c : bytes;
  tag_secret : bytes;
  prng_seed : bytes;
}.

Record KeyPair : Type := { private_key_bytes : bytes; public_key_bytes : bytes }.

(** X25519 clamping: [b[0] &= 248; b[31] &= 127; b[31] |= 64] *)
Definition clamp (k : bytes) : bytes :=
  let k := <[0%nat := Z.land (default 0 (k !! 0%nat)) 248]> k in
  let k := <[31%nat := Z.land (default 0 (k !! 31%nat)) 127]> k in
  <[31%nat := Z.lor (default 0 (k !! 31%nat)) 64]> k.

Section Keys.
Context {PR : Primitives}.

Definition generate (random : bytes) : KeyPair :=
  let private_key_bytes := clamp random in
  {| private_key_bytes := private_key_bytes; public_key_bytes := x25519_base private_key_bytes |}.

Definition from_private_key (key_bytes : bytes) : KeyPair :=
  let key_bytes := clamp key_bytes in
  {| private_key_bytes := key_bytes; public_key_bytes := x25519_base key_bytes |}.

Definition compute_shared (k : KeyPair) (remote_public : bytes) : outcome bytes :=
  let shared := x25519 (private_key_bytes k) remote_public in
  if bool_decide (shared = zeros 32)
  then Err (Crypto "DH result is all-zero (possible small subgroup attack)")
  else Ok shared.

(** [dh || psk? || eph_pub] *)
Definition key_material (dh : bytes) (psk : option bytes) (eph_pub : bytes) : bytes :=
  dh ++ default [] psk ++ eph_pub.

Definition derive_session_keys (dh_result : bytes) (psk : option bytes) (eph_pub : bytes) : SessionKeys :=
  let input := key_material dh_result psk eph_pub in
  {| packet_cipher := PacketCipher.Established;
     session_key := derive_key "aivpn-session-key-v1" input;
     session_key_s2c := derive_key "aivpn-session-key-s2c-v1" input;
     tag_secret := derive_key "aivpn-tag-secret-v1" input;
     prng_seed := derive_key "aivpn-prng-seed-v1" input |}.

Definition derive_initial_session_keys (dh : bytes) (psk : option bytes) (client_eph_pub : bytes)
    : SessionKeys :=
  let material := key_material dh psk client_eph_pub in
  {| packet_cipher := PacketCipher.InitialV2 client_eph_pub;
     session_key := derive_key "aivpn-initial-session-key-v2" material;
     session_key_s2c := derive_key "aivpn-initial-session-key-s2c-v2" material;
     tag_secret := derive_key "aivpn-initial-tag-secret-v2" material;
     prng_seed := derive_key "aivpn-initial-prng-seed-v2" material |}.

Definition device_enrollment_proof (dh_shared server_eph_pub client_eph_pub : bytes) : bytes :=
  derive_key "aivpn-device-enrollment-v2" (dh_shared ++ server_eph_pub ++ client_eph_pub).

Definition pool_client_psk (sync_key : bytes) : bytes := derive_key "aivpn-pool-client-psk-v1" sync_key.

Definition pool_server_keypair (sync_key : bytes) : KeyPair :=
  from_private_key (derive_key "aivpn-pool-server-static-v1" sync_key).
End Keys.

Definition session_payload_overhead (keys : SessionKeys) : Z :=
  if PacketCipher.is_initial (packet_cipher keys) then 24 else 0.

(** ** Envelopes *)

Definition initial_packet_aad (direction : PacketDirection.t) (counter : Z)
    (tag client_eph_pub nonce : bytes) : bytes :=
  str_bytes "aivpn-packet-aead"
  ++ [2; 0]
  ++ [match direction with PacketDirection.ClientToServer => 0 | PacketDirection.ServerToClient => 1 end]
  ++ le_bytes 8 counter ++ tag ++ client_eph_pub ++ nonce.

(** [nonce[..8].copy_from_slice(&counter.to_le_bytes())] in a zeroed nonce *)
Definition counter_nonce (counter : Z) : bytes := le_bytes 8 counter ++ zeros 4.

Definition direction_key (keys : SessionKeys) (direction : PacketDirection.t) : bytes :=
  match direction with
  | PacketDirection.ClientToServer => session_key keys
  | PacketDirection.ServerToClient => session_key_s2c keys
  end.

Section Envelopes.
Context {PR : Primitives}.

Definition aead_error : error := Crypto "aead::Error".

(** The [_into] variants write a buffer that they clear first: the buffer after
    the call, and the result. *)
Definition encrypt_payload_into (key nonce plaintext out : bytes) : bytes * outcome unit :=
  match chacha_seal key nonce [] plaintext with
  | Some c => (c, Ok tt)
  | None => ([], Err aead_error)
  end.

Definition encrypt_payload (key nonce plaintext : bytes) : outcome bytes :=
  let '(out, result) := encrypt_payload_into key nonce plaintext [] in
  let! _ := result in
  Ok out.

Definition decrypt_payload_into (key nonce ciphertext out : bytes) : bytes * outcome unit :=
  match chacha_open key nonce [] ciphertext with
  | Some p => (p, Ok tt)
  | None => ([], Err aead_error)
  end.

Definition decrypt_payload (key nonce ciphertext : bytes) : outcome bytes :=
  let '(out, result) := decrypt_payload_into key nonce ciphertext [] in
  let! _ := result in
  Ok out.

(** [rng] is what the generator gives: 24 bytes, or nothing when it fails. *)
Definition encrypt_session_payload_into_with_rng (keys : SessionKeys) (direction : PacketDirection.t)
    (counter : Z) (tag plaintext output : bytes) (rng : option bytes) : bytes * outcome unit :=
  let key := direction_key keys direction in
  match packet_cipher keys with
  | PacketCipher.Established => encrypt_payload_into key (counter_nonce counter) plaintext output
  | PacketCipher.InitialV2 client_eph_pub =>
      match rng with
      | None => ([], Err (Crypto "Не удалось получить nonce из системного RNG"))
      | Some nonce =>
          let aad := initial_packet_aad direction counter tag client_eph_pub nonce in
          match xchacha_seal key nonce aad plaintext with
          | Some (c, mac) => (nonce ++ c ++ mac, Ok tt)
          | None => ([], Err aead_error)
          end
      end
  end.

Definition encrypt_session_payload (keys : SessionKeys) (direction : PacketDirection.t)
    (counter : Z) (tag plaintext : bytes) (rng : option bytes) : outcome bytes :=
  let '(output, result) :=
    encrypt_session_payload_into_with_rng keys direction counter tag plaintext [] rng in
  let! _ := result in
  Ok output.

Definition decrypt_session_payload (keys : SessionKeys) (direction : PacketDirection.t)
    (counter : Z) (tag envelope : bytes) : outcome bytes :=
  let key := direction_key keys direction in
  match packet_cipher keys with
  | PacketCipher.Established => decrypt_payload key (counter_nonce counter) envelope
  | PacketCipher.InitialV2 client_eph_pub =>
      if len envelope <? 24 + POLY1305_TAG_SIZE
      then Err (InvalidPacket "InitialV2 envelope too short")
      else
      let! nonce := slice envelope 0 24 in
      let aad := initial_packet_aad direction counter tag client_eph_pub nonce in
      let! ciphertext := slice_from envelope 24 in
      match xchacha_open key nonce aad ciphertext with
      | Some plaintext => Ok plaintext
      | None => Err aead_error
      end
  end.

(** ** Tags *)

Definition generate_resonance_tag (tag_secret : bytes) (counter time_window : Z) : bytes :=
  let hash := keyed_hash tag_secret (le_bytes 8 counter ++ le_bytes 8 time_window) in
  let tag := take (Z.to_nat TAG_SIZE) hash in
  match tag with
  | t0 :: rest => if (1 <=? t0) && (t0 <=? 4) then wrap8 (t0 + 5) :: rest else tag
  | [] => tag
  end.

Definition obfuscate_eph_pub (eph_pub server_static_pub : bytes) : bytes :=
  let mask := derive_key "aivpn-eph-obfuscation-v1" server_static_pub in
  zip_with Z.lxor eph_pub mask.
End Envelopes.

Definition compute_time_window (timestamp_ms window_ms : Z) : Z := timestamp_ms / window_ms.

(** ** Peer links and node identities *)

Definition peer_pair_material (shared_key low_id high_id : bytes) : bytes :=
  shared_key ++ le_bytes 4 (wrap32 (len low_id)) ++ low_id ++ high_id.

Definition node_enrollment_signing_bytes (node_id node_pub : bytes) (time_window : Z)
    (server_eph_pub client_eph_pub : bytes) : bytes :=
  str_bytes "aivpn-node-enrollment-v1"
  ++ le_bytes 4 (wrap32 (len node_id)) ++ node_id ++ node_pub
  ++ le_bytes 8 time_window ++ server_eph_pub ++ client_eph_pub.

Section Peers.
Context {PR : Primitives}.

Definition derive_peer_pair_key (context : string) (shared_key low_id high_id : bytes) : bytes :=
  derive_key context (peer_pair_material shared_key low_id high_id).

Definition derive_directional_peer_keys (shared_key local_id peer_id : bytes) : outcome (bytes * bytes) :=
  if bool_decide (local_id = peer_id)
  then Err (Crypto "directional peer keys require distinct peer ids")
  else
  let local_is_client := bytes_lt local_id peer_id in
  let '(low, high) := if local_is_client then (local_id, peer_id) else (peer_id, local_id) in
  let c2s := derive_peer_pair_key "aivpn-peer-dir-c2s-v1" shared_key low high in
  let s2c := derive_peer_pair_key "aivpn-peer-dir-s2c-v1" shared_key low high in
  Ok (if local_is_client then (c2s, s2c) else (s2c, c2s)).

Definition verify_node_enrollment (node_pub node_id : bytes) (time_window : Z)
    (signature server_eph_pub client_eph_pub : bytes) : bool :=
  if negb (verifying_key_ok node_pub) then false
  else
  let message := node_enrollment_signing_bytes node_id node_pub time_window server_eph_pub client_eph_pub in
  verify_strict node_pub message signature.
End Peers.

(** ** Envelopes open *)

Section EnvelopeTheorems.
Context {PR : Primitives} {PL : PrimitiveLaws}.

Lemma sealed_opens keys direction counter tag plaintext rng envelope :
  (forall nonce, rng = Some nonce -> len nonce = 24) ->
  encrypt_session_payload keys direction counter tag plaintext rng = Ok envelope ->
  decrypt_session_payload keys direction counter tag envelope = Ok plaintext /\
  len envelope = len plaintext + POLY1305_TAG_SIZE + session_payload_overhead keys.
Proof.
  intros Hrng. unfold encrypt_session_payload, encrypt_session_payload_into_with_rng,
    decrypt_session_payload, session_payload_overhead.
  destruct (packet_cipher keys) as [|eph]; cbn [PacketCipher.is_initial].
  - unfold encrypt_payload_into, decrypt_payload, decrypt_payload_into.
    destruct (chacha_seal _ _ _ _) as [c|] eqn:E; [|done]. cbn [obind]. intros <-%Ok_inj.
    apply chacha_open_seal in E as [-> ->]. cbn [obind]. split; [done|lia].
  - destruct rng as [nonce|]; [|done]. specialize (Hrng nonce eq_refl).
    destruct (xchacha_seal _ _ _ _) as [[c mac]|] eqn:E; [|done]. cbn [obind]. intros <-%Ok_inj.
    apply xchacha_open_seal in E as (Ho & Hc & Hm). unfold POLY1305_TAG_SIZE in *.
    split; [|rewrite !length_app; lia].
    rewrite (proj2 (Z.ltb_ge _ _)) by (rewrite !length_app; lia).
    rewrite slice_app_l by done. cbn [obind]. unfold slice_from.
    rewrite (slice_app_r nonce (c ++ mac)) by lia. rewrite Hrng, Z.sub_diag.
    rewrite slice_all by (rewrite !length_app; lia). cbn [obind]. by rewrite Ho.
Qed.

(** What is sealed for a direction, counter and tag opens to the same
    plaintext under the same keys, whatever the cipher of the epoch, and the
    envelope is longer than the plaintext by exactly the authentication tag and
    [session_payload_overhead]. *)
Theorem session_payload_roundtrip keys direction counter tag plaintext rng envelope :
  (forall nonce, rng = Some nonce -> len nonce = 24) ->
  encrypt_session_payload keys direction counter tag plaintext rng = Ok envelope ->
  decrypt_session_payload keys direction counter tag envelope = Ok plaintext /\
  len envelope = len plaintext + POLY1305_TAG_SIZE + session_payload_overhead keys.
Proof. apply sealed_opens. Qed.

(** Opening an envelope of bytes never panics and gives bytes. *)
Lemma decrypt_session_payload_safe keys direction counter tag envelope :
  bytes_ok envelope ->
  safe (decrypt_session_payload keys direction counter tag envelope) (fun p => bytes_ok p).
Proof.
  intros Hok. unfold decrypt_session_payload. destruct (packet_cipher keys) as [|eph].
  - unfold decrypt_payload, decrypt_payload_into. destruct (chacha_open _ _ _ _) eqn:E; [|done].
    cbn. by eapply chacha_open_bytes.
  - unfold POLY1305_TAG_SIZE. repeat safe_step. destruct (xchacha_open _ _ _ _) eqn:E; [|done].
    cbn. by eapply xchacha_open_bytes.
Qed.

Lemma resonance_tag_length secret counter time_window :
  len (generate_resonance_tag secret counter time_window) = TAG_SIZE.
Proof.
  unfold generate_resonance_tag, TAG_SIZE. set (h := keyed_hash _ _).
  assert (len h = 32) by apply keyed_hash_length.
  assert (length (take (Z.to_nat 8) h) = 8%nat) as Ht by (rewrite length_take; lia).
  destruct (take (Z.to_nat 8) h); [done|]. destruct (_ && _); cbn in *; lia.
Qed.

(** A tag has 8 bytes and its first byte is never a WireGuard message type. *)
Theorem resonance_tag_shape secret counter time_window :
  let tag := generate_resonance_tag secret counter time_window in
  len tag = TAG_SIZE /\ bytes_ok tag /\ forall t0, head tag = Some t0 -> t0 = 0 \/ 5 <= t0.
Proof.
  intros tag. unfold tag, generate_resonance_tag.
  pose proof (keyed_hash_bytes secret (le_bytes 8 counter ++ le_bytes 8 time_window)) as Hok.
  pose proof (keyed_hash_length secret (le_bytes 8 counter ++ le_bytes 8 time_window)) as Hl.
  set (h := keyed_hash _ _) in *. assert (bytes_ok (take (Z.to_nat TAG_SIZE) h)) as Ht by (by apply Forall_take).
  assert (len (take (Z.to_nat TAG_SIZE) h) = TAG_SIZE) as Hlt
    by (rewrite length_take; unfold TAG_SIZE; lia).
  destruct (take (Z.to_nat TAG_SIZE) h) as [|t0 rest]; [done|]. apply Forall_cons in Ht as [Hb Hr].
  unfold byte_ok in Hb. destruct ((1 <=? t0) && (t0 <=? 4)) eqn:E; cbn [head].
  - assert (wrap8 (t0 + 5) = t0 + 5) as -> by (unfold wrap8; rewrite Z.mod_small by lia; lia).
    split; [done|]. split; [constructor; [unfold byte_ok; lia|done]|]. intros x [= <-]. lia.
  - split; [done|]. split; [by constructor|]. intros x [= <-]. lia.
Qed.

(** The hiding of the ephemeral key is its own inverse, so the server reads back
    the key the client sent. *)
Lemma obfuscation_involutive eph_pub server_static_pub :
  len eph_pub = 32 ->
  obfuscate_eph_pub (obfuscate_eph_pub eph_pub server_static_pub) server_static_pub = eph_pub.
Proof.
  intros Hl. unfold obfuscate_eph_pub.
  pose proof (derive_key_length "aivpn-eph-obfuscation-v1" server_static_pub) as Hm.
  set (m := derive_key _ _) in *. assert (length eph_pub = length m) as Hlm by lia. clearbody m. clear Hl Hm.
  revert m Hlm. induction eph_pub as [|x l IH]; intros [|y m] H; try done. cbn in *.
  rewrite Z.lxor_assoc, Z.lxor_nilpotent, Z.lxor_0_r. f_equal. apply IH. lia.
Qed.
End EnvelopeTheorems.

(** ** Unambiguous encodings *)

Lemma app_inj_len {A} (a a' b b' : list A) : length a = length a' -> a ++ b = a' ++ b' -> a = a' /\ b = b'.
Proof. intros Hl H. by apply app_inj_1. Qed.

Lemma le_bytes_inj n x y :
  0 <= x < 256 ^ Z.of_nat n -> 0 <= y < 256 ^ Z.of_nat n -> le_bytes n x = le_bytes n y -> x = y.
Proof.
  intros Hx Hy E. apply (f_equal from_le) in E. rewrite !from_le_le_bytes in E.
  by rewrite !Z.mod_small in E.
Qed.

(** Peel the next field off an equation between two encodings. *)
Ltac peel H :=
  let E := fresh "E" in
  apply app_inj_len in H as [E H]; [|rewrite ?length_le_bytes; first [reflexivity|lia]].

(** The associated data of an initial packet determines its direction,
    counter, tag, client key and nonce. *)
Theorem initial_aad_injective d c tag eph nonce d' c' tag' eph' nonce' :
  u64_ok c -> u64_ok c' -> len tag = TAG_SIZE -> len tag' = TAG_SIZE ->
  len eph = 32 -> len eph' = 32 ->
  initial_packet_aad d c tag eph nonce = initial_packet_aad d' c' tag' eph' nonce' ->
  d = d' /\ c = c' /\ tag = tag' /\ eph = eph' /\ nonce = nonce'.
Proof.
  intros Hc Hc' Ht Ht' He He' H. unfold initial_packet_aad in H. unfold u64_ok in *.
  do 3 peel H. apply app_inj_len in H as [Ec H]; [|by rewrite !length_le_bytes].
  apply le_bytes_inj in Ec; [|change (256 ^ Z.of_nat 8) with 18446744073709551616; lia..].
  peel H. peel H. repeat split; try done. by destruct d, d'.
Qed.

Lemma wrap32_inj x y : 0 <= x < 4294967296 -> 0 <= y < 4294967296 ->
  le_bytes 4 (wrap32 x) = le_bytes 4 (wrap32 y) -> x = y.
Proof.
  intros Hx Hy E. unfold wrap32 in E. rewrite !Z.mod_small in E by done.
  apply le_bytes_inj in E; change (256 ^ Z.of_nat 4) with 4294967296; done.
Qed.

(** A node enrollment signature covers every field: two enrollments with the
    same signed bytes have the same node name, key, time window and session
    transcript. *)
Theorem enrollment_bytes_injective id pub tw se ce id' pub' tw' se' ce' :
  len id <= u32_max -> len id' <= u32_max -> len pub = 32 -> len pub' = 32 -> u64_ok tw -> u64_ok tw' ->
  len se = 32 -> len se' = 32 ->
  node_enrollment_signing_bytes id pub tw se ce = node_enrollment_signing_bytes id' pub' tw' se' ce' ->
  id = id' /\ pub = pub' /\ tw = tw' /\ se = se' /\ ce = ce'.
Proof.
  intros Hi Hi' Hp Hp' Ht Ht' Hs Hs' H. unfold node_enrollment_signing_bytes in H.
  unfold u64_ok, u32_max in *. peel H.
  apply app_inj_len in H as [El H]; [|by rewrite !length_le_bytes].
  apply wrap32_inj in El; [|lia|lia]. peel H. peel H.
  apply app_inj_len in H as [Et H]; [|by rewrite !length_le_bytes].
  apply le_bytes_inj in Et; [|change (256 ^ Z.of_nat 8) with 18446744073709551616; lia..].
  peel H. done.
Qed.

Section PeerTheorems.
Context {PR : Primitives}.

(** The two ends of a peer link derive mirrored keys without a handshake,
    the two directions come from different contexts, and the key material of a
    link determines the shared key and the ordered pair of names; a link to
    oneself is refused. *)
Theorem directional_keys_mirror shared a b :
  len shared = 32 -> len a <= u32_max -> len b <= u32_max ->
  (a = b -> exists e, derive_directional_peer_keys shared a b = Err e) /\
  (a <> b -> exists low high c2s s2c,
    c2s = derive_key "aivpn-peer-dir-c2s-v1" (peer_pair_material shared low high) /\
    s2c = derive_key "aivpn-peer-dir-s2c-v1" (peer_pair_material shared low high) /\
    ((low, high) = (a, b) /\ derive_directional_peer_keys shared a b = Ok (c2s, s2c) /\
       derive_directional_peer_keys shared b a = Ok (s2c, c2s) \/
     (low, high) = (b, a) /\ derive_directional_peer_keys shared a b = Ok (s2c, c2s) /\
       derive_directional_peer_keys shared b a = Ok (c2s, s2c)) /\
    forall shared' low' high', len shared' = 32 -> len low' <= u32_max ->
      peer_pair_material shared low high = peer_pair_material shared' low' high' ->
      shared = shared' /\ low = low' /\ high = high').
Proof.
  intros Hs Ha Hb.
  assert (forall low high shared' low' high', len low <= u32_max -> len shared' = 32 -> len low' <= u32_max ->
    peer_pair_material shared low high = peer_pair_material shared' low' high' ->
    shared = shared' /\ low = low' /\ high = high') as Hinj.
  { intros low high shared' low' high' Hl Hs' Hl' H. unfold peer_pair_material, u32_max in *. peel H.
    apply app_inj_len in H as [El H]; [|by rewrite !length_le_bytes].
    apply wrap32_inj in El; [|lia|lia]. peel H. done. }
  unfold derive_directional_peer_keys. split.
  - intros ->. rewrite bool_decide_eq_true_2 by done. by eexists.
  - intros Hne. rewrite !bool_decide_eq_false_2 by done. rewrite (bytes_lt_neq a b Hne).
    destruct (bytes_lt b a); cbn [negb].
    + exists b, a. do 2 eexists. split; [reflexivity|]. split; [reflexivity|]. split; [by right|].
      intros. by apply Hinj.
    + exists a, b. do 2 eexists. split; [reflexivity|]. split; [reflexivity|]. split; [by left|].
      intros. by apply Hinj.
Qed.
End PeerTheorems.

(** ** Concrete primitives

    Toy instances that satisfy the laws, to run the definitions. The toy AEAD hides
    nothing, but it authenticates: its tag is the counter and the length, so that one
    suffix of a packet opens at most, under one counter. *)

Definition toy_hash (m : bytes) : bytes := map wrap8 (take 32 (m ++ zeros 32)).

Definition toy_mac (counter : bytes) (n : nat) : bytes := take 8 (counter ++ zeros 8) ++ le_bytes 8 (Z.of_nat n).

Definition toy_open (counter c : bytes) : option bytes :=
  let n := (length c - 16)%nat in
  if len c <? 16 then None
  else if bool_decide (drop n c = toy_mac counter n) then Some (take n c) else None.

(** Where [initial_packet_aad] puts the counter. *)
Definition toy_aad_counter (aad : bytes) : bytes := take 8 (drop 20 aad).

#[local] Instance toy_primitives : Primitives := {|
  blake3_hash := toy_hash;
  derive_key := fun c m => toy_hash (str_bytes c ++ m);
  keyed_hash := fun k m => toy_hash (m ++ k);
  x25519 := zip_with Z.lxor;
  x25519_base := fun k => k;
  chacha_seal := fun k n a p => Some (p ++ toy_mac n (length p));
  chacha_open := fun k n a c => toy_open n c;
  xchacha_seal := fun k n a p => Some (p, toy_mac (toy_aad_counter a) (length p));
  xchacha_open := fun k n a c => toy_open (toy_aad_counter a) c;
  verifying_key_ok := fun k => len k =? 32;
  verify_strict := fun k m s => bool_decide (s = m);
|}.

Lemma length_toy_hash m : len (toy_hash m) = 32.
Proof. unfold toy_hash. rewrite length_map, length_take, length_app, length_zeros. lia. Qed.

Lemma length_toy_mac counter n : length (toy_mac counter n) = 16%nat.
Proof. unfold toy_mac. rewrite length_app, length_take, length_app, length_le_bytes, length_zeros. lia. Qed.

Lemma toy_open_seal counter p :
  toy_open counter (p ++ toy_mac counter (length p)) = Some p /\
  len (p ++ toy_mac counter (length p)) = len p + POLY1305_TAG_SIZE.
Proof.
  unfold toy_open, POLY1305_TAG_SIZE. rewrite !length_app, length_toy_mac. split; [|lia].
  rewrite (proj2 (Z.ltb_ge _ _)) by lia. rewrite Nat.add_sub, drop_app_length, take_app_length.
  by rewrite bool_decide_eq_true_2.
Qed.

Lemma toy_open_bytes counter c p : bytes_ok c -> toy_open counter c = Some p -> bytes_ok p.
Proof. unfold toy_open. intros Hc. repeat case_match; [done| |done]. intros [= <-]. by apply Forall_take. Qed.

(** What opens is a suffix, with the counter and its own length at the end. *)
Lemma toy_open_suffix counter k data p :
  toy_open counter (drop k data) = Some p ->
  let n := (length data - k - 16)%nat in
  (k + 16 <= length data)%nat /\ drop (length data - 16) data = toy_mac counter n /\ p = take n (drop k data).
Proof.
  unfold toy_open. rewrite length_drop. case_match eqn:E; [done|]. apply Z.ltb_ge in E.
  case_bool_decide as Hm; [|done]. intros [= <-]. split; [lia|]. split; [|done].
  rewrite drop_drop in Hm. by replace (k + (length data - k - 16))%nat with (length data - 16)%nat in Hm by lia.
Qed.

#[local] Instance toy_laws : PrimitiveLaws.
Proof.
  constructor; cbn.
  - intros. apply length_toy_hash.
  - intros. apply length_toy_hash.
  - intros. apply length_toy_hash.
  - intros. unfold toy_hash. apply Forall_fmap, Forall_forall. intros x _. unfold byte_ok, wrap8. cbn.
    apply Z.mod_pos_bound. lia.
  - intros k n a p c [= <-]. apply toy_open_seal.
  - intros k n a p c mac [= <- <-]. split; [apply toy_open_seal|]. split; [done|]. by rewrite length_toy_mac.
  - intros k n a. apply toy_open_bytes.
  - intros k n a. apply toy_open_bytes.
Qed.

(** The toy tag is the counter, but for the reserved first bytes. *)
Lemma toy_tag_inj secret c c0 tw tw' :
  u64_ok c -> u64_ok c0 -> c0 mod 256 = 0 \/ c0 mod 256 = 5 \/ 10 <= c0 mod 256 ->
  generate_resonance_tag secret c tw' = generate_resonance_tag secret c0 tw -> c = c0.
Proof.
  intros Hc Hc0 Hclear H. unfold generate_resonance_tag, keyed_hash, toy_primitives, toy_hash, TAG_SIZE in H.
  cbn [Z.to_nat Pos.to_nat Pos.iter_op] in H.
  assert (forall x w, take (Z.to_nat 8) (map wrap8 (take 32 (((le_bytes 8 x ++ le_bytes 8 w) ++ secret) ++ zeros 32)))
    = le_bytes 8 x) as Ht.
  { intros x w. rewrite <-!app_assoc. cbn [le_bytes app take map]. unfold wrap8.
    change (2 ^ 8) with 256. by rewrite !Z.mod_mod by lia. }
  rewrite !Ht in H. cbn [le_bytes] in H.
  assert ((1 <=? c0 mod 256) && (c0 mod 256 <=? 4) = false) as E0 by lia. rewrite E0 in H.
  destruct ((1 <=? c mod 256) && (c mod 256 <=? 4)) eqn:E.
  - apply andb_true_iff in E as [?%Z.leb_le ?%Z.leb_le].
    change (wrap8 (c mod 256 + 5)) with ((c mod 256 + 5) mod 256) in H. rewrite Z.mod_small in H by lia.
    injection H as H _. lia.
  - assert (le_bytes 8 c = le_bytes 8 c0) as H' by exact H.
    apply (f_equal from_le) in H'. rewrite !from_le_le_bytes in H'. unfold u64_ok in *.
    change (256 ^ Z.of_nat 8) with 18446744073709551616 in H'. by rewrite !Z.mod_small in H' by lia.
Qed.

(** So a packet opens at one place, under one counter. *)
Lemma toy_decrypt_suffix keys direction c tag k packet p :
  decrypt_session_payload keys direction c tag (drop k packet) = Ok p ->
  exists n, (n + 16 <= length packet)%nat /\ p = take n (drop (length packet - 16 - n) packet) /\
    drop (length packet - 16) packet = le_bytes 8 c ++ le_bytes 8 (Z.of_nat n).
Proof.
  unfold decrypt_session_payload. intros H. destruct (packet_cipher keys).
  - unfold decrypt_payload, decrypt_payload_into in H. cbn [chacha_open toy_primitives] in H.
    destruct (toy_open _ _) as [p'|] eqn:E; [|done]. injection H as <-.
    apply toy_open_suffix in E as (Hk & Hm & ->). exists (length packet - k - 16)%nat. split; [lia|]. split.
    + do 2 f_equal. lia.
    + rewrite Hm. unfold toy_mac, counter_nonce. by rewrite <-app_assoc, take_app_length' by by rewrite length_le_bytes.
  - destruct (_ <? _) in H; [done|]. apply obind_Ok in H as (nonce & _ & H).
    apply obind_Ok in H as (ct & Hct & H). apply slice_Ok in Hct as (_ & _ & ->).
    cbn [xchacha_open toy_primitives] in H. destruct (toy_open _ _) as [p'|] eqn:E; [|done]. injection H as <-.
    rewrite take_ge in E by (rewrite length_drop; lia). rewrite drop_drop in E.
    apply toy_open_suffix in E as (Hk & Hm & ->). exists (length packet - (k + 24) - 16)%nat.
    change (Z.to_nat 24) with 24%nat in *. split; [lia|]. split.
    + do 2 f_equal. lia.
    + rewrite Hm. unfold toy_mac, toy_aad_counter, initial_packet_aad.
      change (drop 20 (str_bytes "aivpn-packet-aead" ++ [2; 0] ++ [_] ++ ?r)) with r.
      by rewrite take_app_length', take_app_length' by (rewrite ?length_take, ?length_app, length_le_bytes; lia).
Qed.

Definition toy_keys : SessionKeys := derive_initial_session_keys (zeros 32) None (zeros 32).

Lemma session_payload_roundtrip_witness :
  exists envelope,
    encrypt_session_payload toy_keys PacketDirection.ClientToServer 7 (zeros 8) [1; 2; 3] (Some (zeros 24))
    = Ok envelope /\
    decrypt_session_payload toy_keys PacketDirection.ClientToServer 7 (zeros 8) envelope = Ok [1; 2; 3] /\
    len envelope = 43.
Proof.
  destruct (encrypt_session_payload toy_keys PacketDirection.ClientToServer 7 (zeros 8) [1; 2; 3]
    (Some (zeros 24))) as [envelope|e|] eqn:E; [|vm_compute in E; congruence..].
  exists envelope. split; [reflexivity|].
  apply (session_payload_roundtrip (PL := toy_laws) toy_keys PacketDirection.ClientToServer 7 (zeros 8)
    [1; 2; 3] (Some (zeros 24))); [|exact E]. by intros nonce [= <-].
Defined.

Lemma resonance_tag_shape_witness : len (generate_resonance_tag (zeros 32) 3 1000) = TAG_SIZE.
Proof. apply (resonance_tag_shape (PL := toy_laws) (zeros 32) 3 1000). Defined.

Lemma initial_aad_injective_witness :
  PacketDirection.ClientToServer = PacketDirection.ClientToServer /\ 5 = 5 /\ zeros 8 = zeros 8 /\
  zeros 32 = zeros 32 /\ [1] = [1].
Proof.
  apply (initial_aad_injective PacketDirection.ClientToServer 5 (zeros 8) (zeros 32) [1]
    PacketDirection.ClientToServer 5 (zeros 8) (zeros 32) [1]);
    try reflexivity; vm_compute; split; congruence.
Defined.

Lemma enrollment_bytes_injective_witness :
  [110; 49] = [110; 49] /\ zeros 32 = zeros 32 /\ 3 = 3 /\ zeros 32 = zeros 32 /\ zeros 32 = zeros 32.
Proof.
  apply (enrollment_bytes_injective [110; 49] (zeros 32) 3 (zeros 32) (zeros 32)
    [110; 49] (zeros 32) 3 (zeros 32) (zeros 32)); try reflexivity; vm_compute; try split; congruence.
Defined.

Lemma directional_keys_mirror_witness :
  exists c2s s2c, derive_directional_peer_keys (zeros 32) [97] [98] = Ok (c2s, s2c) /\
    derive_directional_peer_keys (zeros 32) [98] [97] = Ok (s2c, c2s).
Proof.
  destruct (directional_keys_mirror (zeros 32) [97] [98]) as [_ H];
    [reflexivity|vm_compute; congruence|vm_compute; congruence|].
  destruct (H ltac:(done)) as (low & high & c2s & s2c & _ & _ & [(_ & H1 & H2)|(_ & H1 & H2)] & _).
  - by exists c2s, s2c.
  - by exists s2c, c2s.
Defined.
