(* ===== verification/Presets.v ===== *)
(** * The built-in masks

    The layouts of the ten masks that ship with the program
    ([assets/masks/*.json], loaded by [preset_masks] of
    [crates/aivpn-common/src/mask.rs]), and how one is chosen. The seven masks that
    imitate calls have one header, a STUN message with an attribute, and the three
    that imitate sites another, a QUIC long header. *)

From S2P Require Import Prelude Protocol Mask Crypto.
Local Open Scope Z_scope.

Module preset_masks.
(** The [header_spec] of the STUN masks and of the QUIC masks. *)
Definition stun_spec : HeaderSpec.t :=
  HeaderSpec.Structured
    [ HeaderField.Fixed [0; 17];
      HeaderField.Length 2 HeaderEndian.Big;
      HeaderField.Fixed [33; 18; 164; 66];
      HeaderField.Id 8 IdFieldMode.Random;
      HeaderField.Id 4 IdFieldMode.Random;
      HeaderField.Fixed [192; 114];
      HeaderField.Length 2 HeaderEndian.Big ].

Definition quic_spec : HeaderSpec.t :=
  HeaderSpec.Structured
    [ HeaderField.Fixed [192];
      HeaderField.Fixed [0; 0; 0; 1];
      HeaderField.Fixed [8];
      HeaderField.Id 8 IdFieldMode.Random ].

Definition webrtc_zoom_v3 : MaskProfile :=
  {| mask_id := str_bytes "webrtc_zoom_v3"; spoof_protocol := SpoofProtocol.WebRTC_DTLS_SRTP;
     header_template := [0; 17; 0; 0; 33; 18; 164; 66; 127; 178; 123; 148; 22; 2; 208; 29; 156; 91; 45; 203; 192; 114; 0; 0];
     eph_pub_offset := 24; eph_pub_length := 32; signature := zeros 64;
     header_spec := Some stun_spec; tag_offset := 8 |}.

Definition quic_https_v2 : MaskProfile :=
  {| mask_id := str_bytes "quic_https_v2"; spoof_protocol := SpoofProtocol.QUIC;
     header_template := [192; 0; 0; 0; 1; 8; 73; 142; 56; 201; 15; 88; 197; 42];
     eph_pub_offset := 14; eph_pub_length := 32; signature := zeros 64;
     header_spec := Some quic_spec; tag_offset := 6 |}.

Definition webrtc_yandex_telemost_v1 : MaskProfile :=
  {| mask_id := str_bytes "webrtc_yandex_telemost_v1"; spoof_protocol := SpoofProtocol.WebRTC_DTLS_SRTP;
     header_template := [0; 17; 0; 0; 33; 18; 164; 66; 156; 42; 189; 73; 211; 88; 14; 147; 62; 205; 31; 119; 192; 114; 0; 0];
     eph_pub_offset := 24; eph_pub_length := 32; signature := zeros 64;
     header_spec := Some stun_spec; tag_offset := 8 |}.

Definition webrtc_vk_teams_v1 : MaskProfile :=
  {| mask_id := str_bytes "webrtc_vk_teams_v1"; spoof_protocol := SpoofProtocol.WebRTC_STUN;
     header_template := [0; 17; 0; 1; 33; 18; 164; 66; 203; 14; 167; 92; 38; 185; 71; 124; 49; 217; 86; 15; 192; 114; 0; 0];
     eph_pub_offset := 24; eph_pub_length := 32; signature := zeros 64;
     header_spec := Some stun_spec; tag_offset := 8 |}.

Definition webrtc_sberjazz_v1 : MaskProfile :=
  {| mask_id := str_bytes "webrtc_sberjazz_v1"; spoof_protocol := SpoofProtocol.WebRTC_TURN_DTLS_SRTP;
     header_template := [0; 17; 0; 0; 33; 18; 164; 66; 89; 201; 77; 134; 45; 167; 22; 98; 173; 55; 141; 210; 192; 114; 0; 0];
     eph_pub_offset := 24; eph_pub_length := 32; signature := zeros 64;
     header_spec := Some stun_spec; tag_offset := 8 |}.

Definition sber_salute_v1 : MaskProfile :=
  {| mask_id := str_bytes "sber_salute_v1"; spoof_protocol := SpoofProtocol.WebRTC_STUN;
     header_template := [0; 17; 0; 32; 33; 18; 164; 66; 91; 134; 77; 22; 188; 44; 103; 67; 215; 38; 11; 9; 192; 114; 0; 0];
     eph_pub_offset := 24; eph_pub_length := 32; signature := zeros 64;
     header_spec := Some stun_spec; tag_offset := 8 |}.

Definition whatsapp_voip_v1 : MaskProfile :=
  {| mask_id := str_bytes "whatsapp_voip_v1"; spoof_protocol := SpoofProtocol.WebRTC_SDES_SRTP;
     header_template := [0; 17; 0; 20; 33; 18; 164; 66; 183; 92; 241; 107; 56; 19; 148; 233; 74; 162; 31; 85; 192; 114; 0; 0];
     eph_pub_offset := 24; eph_pub_length := 32; signature := zeros 64;
     header_spec := Some stun_spec; tag_offset := 8 |}.

Definition avito_api_v1 : MaskProfile :=
  {| mask_id := str_bytes "avito_api_v1"; spoof_protocol := SpoofProtocol.QUIC;
     header_template := [192; 0; 0; 0; 1; 8; 43; 187; 97; 252; 18; 143; 77; 38];
     eph_pub_offset := 14; eph_pub_length := 32; signature := zeros 64;
     header_spec := Some quic_spec; tag_offset := 6 |}.

Definition telegram_calls_v1 : MaskProfile :=
  {| mask_id := str_bytes "telegram_calls_v1"; spoof_protocol := SpoofProtocol.WebRTC_TURN_DTLS_SRTP;
     header_template := [0; 17; 0; 0; 33; 18; 164; 66; 127; 178; 123; 148; 22; 2; 208; 29; 156; 91; 45; 203; 192; 114; 0; 0];
     eph_pub_offset := 24; eph_pub_length := 32; signature := zeros 64;
     header_spec := Some stun_spec; tag_offset := 8 |}.

Definition vk_video_v1 : MaskProfile :=
  {| mask_id := str_bytes "vk_video_v1"; spoof_protocol := SpoofProtocol.QUIC;
     header_template := [192; 0; 0; 0; 1; 8; 122; 34; 209; 87; 164; 31; 200; 76];
     eph_pub_offset := 14; eph_pub_length := 32; signature := zeros 64;
     header_spec := Some quic_spec; tag_offset := 6 |}.

Definition catalog : list MaskProfile :=
  [ webrtc_zoom_v3;
    quic_https_v2;
    webrtc_yandex_telemost_v1;
    webrtc_vk_teams_v1;
    webrtc_sberjazz_v1;
    sber_salute_v1;
    whatsapp_voip_v1;
    avito_api_v1;
    telegram_calls_v1;
    vk_video_v1 ].

Definition all : list MaskProfile := catalog.

Definition ids : list bytes := map mask_id catalog.

Definition by_id (id : bytes) : option MaskProfile := List.find (fun mask => bool_decide (mask_id mask = id)) catalog.

(** The choice by key stays among the first five, whatever the catalog grows to. *)
Definition bootstrap_for_psk {PR : Primitives} (psk : option bytes) : outcome MaskProfile :=
  let! index := match psk with
                | Some key =>
                    match derive_key "aivpn-bootstrap-mask-v1" key with
                    | b :: _ => Ok (b mod 5)
                    | [] => Panic
                    end
                | None => Ok 0
                end in
  match catalog !! Z.to_nat index with Some mask => Ok mask | None => Panic end.

Definition bootstrap_default : MaskProfile := webrtc_zoom_v3.

(** ** The catalog *)

Lemma all_distinct : NoDup ids.
Proof. apply NoDup_ListNoDup. repeat constructor; vm_compute; intros H; repeat destruct H as [H|H]; congruence. Qed.

Lemma by_id_elem id mask : by_id id = Some mask -> mask ∈ catalog /\ mask_id mask = id.
Proof. intros [Hin H%bool_decide_eq_true]%List.find_some. split; [by apply list_elem_of_In|done]. Qed.

Lemma by_id_complete mask : mask ∈ catalog -> by_id (mask_id mask) = Some mask.
Proof. intros H. repeat (apply elem_of_cons in H as [->|H]; [by vm_compute|]). by apply not_elem_of_nil in H. Qed.
End preset_masks.
