(* ===== verification/ClientWire.v ===== *)
(** * The wire code of the clients

    Models [crates/aivpn-common/src/client_wire.rs], shared by the desktop, Android
    and iOS clients: the receive window that finds the counter of a packet from its
    tag and refuses repetitions, the builders of uplink packets and the decoders of
    downlink packets in the layouts of all masks, and the ServerHello that completes
    the handshake. Clocks and random bytes are arguments: [ts] is the wall clock in
    milliseconds and [now] the monotonic clock in nanoseconds, read once per call.
    A [RecvWindow] owns its recovery quota; copies that share one are not modelled. *)

From S2P Require Import Prelude Bitmap Protocol NetworkConfig Control Quality Crypto Mask Presets.
Local Open Scope Z_scope.

Definition DEFAULT_MDH_LEN : Z := 20.
Definition DEFAULT_ZERO_MDH : bytes := zeros 4.
Definition RECV_REORDER_WINDOW : Z := 256.
Definition RECV_FUTURE_SEARCH_WINDOW : Z := 1024.
Definition RECV_FUTURE_SEARCH_SYNCED : Z := 512.
Definition RECV_RECOVERY_CANDIDATES : Z := 65536.
Definition RECV_RECOVERY_INTERVAL : Z := 1000000000.
Definition MAX_DOWNLINK_MDH_SCAN : Z := 64.

Record DecodedPacket : Type := {
  d_counter : Z;
  d_header : InnerHeader.t;
  d_payload : bytes;
}.

Definition server_hello_matches_connection (pinned : option bytes) (received : bytes) : bool :=
  match pinned with None => true | Some expected => bool_decide (expected = received) end.

(** ** A set of 256 bits *)

Module Bitset256.
Record t : Type := { lo : Z; hi : Z }.

(** [u128]'s [<<] drops the bits shifted out. *)
Definition wrap128 (x : Z) : Z := x mod 340282366920938463463374607431768211456.

Definition new : t := {| lo := 0; hi := 0 |}.
Definition clear (_ : t) : t := {| lo := 0; hi := 0 |}.

Definition shl (b : t) (shift : Z) : t :=
  if 256 <=? shift then new
  else if shift =? 0 then b
  else if 128 <=? shift then {| lo := 0; hi := wrap128 (Z.shiftl (lo b) (shift - 128)) |}
  else {| lo := wrap128 (Z.shiftl (lo b) shift);
          hi := Z.lor (wrap128 (Z.shiftl (hi b) shift)) (Z.shiftr (lo b) (128 - shift)) |}.

Definition set_bit (b : t) (bit : Z) : t :=
  if bit <? 128 then {| lo := Z.lor (lo b) (Z.shiftl 1 bit); hi := hi b |}
  else if bit <? 256 then {| lo := lo b; hi := Z.lor (hi b) (Z.shiftl 1 (bit - 128)) |}
  else b.

Definition get_bit (b : t) (bit : Z) : bool :=
  if bit <? 128 then Z.land (Z.shiftr (lo b) bit) 1 =? 1
  else if bit <? 256 then Z.land (Z.shiftr (hi b) (bit - 128)) 1 =? 1
  else false.
End Bitset256.

(** ** The receive window *)

(** [Option<u64>::max]: [None] is below every [Some]. *)
Definition opt_max (a b : option Z) : option Z :=
  match a, b with
  | Some a, Some b => Some (Z.max a b)
  | Some a, None => Some a
  | None, b => b
  end.

Module RecvWindow.
Record t : Type := {
  highest : option Z;
  bitmap : Bitset256.t;
  authenticated_counter_hint : option Z;
  preferred_tag_offset : option Z;
  (** [CounterRecoveryBudget::last_attempt] *)
  last_attempt : option Z;
}.

Definition with_hint (h : option Z) (w : t) : t :=
  {| highest := highest w; bitmap := bitmap w; authenticated_counter_hint := h;
     preferred_tag_offset := preferred_tag_offset w; last_attempt := last_attempt w |}.
Definition with_preferred (p : option Z) (w : t) : t :=
  {| highest := highest w; bitmap := bitmap w;
     authenticated_counter_hint := authenticated_counter_hint w;
     preferred_tag_offset := p; last_attempt := last_attempt w |}.
Definition with_last_attempt (a : option Z) (w : t) : t :=
  {| highest := highest w; bitmap := bitmap w;
     authenticated_counter_hint := authenticated_counter_hint w;
     preferred_tag_offset := preferred_tag_offset w; last_attempt := a |}.

Definition new : t :=
  {| highest := None; bitmap := Bitset256.new; authenticated_counter_hint := None;
     preferred_tag_offset := None; last_attempt := None |}.

Definition begin_counter_recovery_epoch (w : t) : t := with_last_attempt None w.

Definition clear_authenticated_counter_hint (w : t) : t := with_hint None w.

Definition reset (w : t) : t :=
  let w := {| highest := None; bitmap := Bitset256.clear (bitmap w);
              authenticated_counter_hint := authenticated_counter_hint w;
              preferred_tag_offset := preferred_tag_offset w; last_attempt := last_attempt w |} in
  begin_counter_recovery_epoch (with_preferred None (clear_authenticated_counter_hint w)).

Definition reserve_counter_recovery (w : t) (now : Z) : t * bool :=
  match last_attempt w with
  | Some previous =>
      if sat_sub now previous <? RECV_RECOVERY_INTERVAL then (w, false)
      else (with_last_attempt (Some now) w, true)
  | None => (with_last_attempt (Some now) w, true)
  end.

Definition search_bounds (w : t) : Z * Z :=
  match opt_max (highest w) (authenticated_counter_hint w) with
  | None => (0, RECV_FUTURE_SEARCH_WINDOW - 1)
  | Some anchor => (sat_sub anchor (RECV_REORDER_WINDOW - 1), sat_add64 anchor RECV_FUTURE_SEARCH_SYNCED)
  end.

Definition recovery_bounds (w : t) (layouts : Z) : option (Z * Z) :=
  match opt_max (highest w) (authenticated_counter_hint w) with
  | None => None
  | Some _ =>
      let end_ := snd (search_bounds w) in
      if u64_max <=? end_ then None
      else
      let start := end_ + 1 in
      let count := Z.max (RECV_RECOVERY_CANDIDATES / Z.max layouts 1) 1 in
      Some (start, sat_add64 start (count - 1))
  end.

Definition observe_authenticated_counter (w : t) (counter : Z) : t :=
  with_hint (Some (match authenticated_counter_hint w with
                   | None => counter
                   | Some previous => Z.max previous counter
                   end)) w.

Definition is_new (w : t) (counter : Z) : bool :=
  match highest w with
  | None => true
  | Some highest =>
      if highest <? counter then true
      else
      let diff := highest - counter in
      if RECV_REORDER_WINDOW <=? diff then false
      else negb (Bitset256.get_bit (bitmap w) diff)
  end.

(** The branch for a counter above everything seen, and the other one. *)
Definition mark (w : t) (counter : Z) : t :=
  let above := match highest w with None => true | Some highest => highest <? counter end in
  let w :=
    if above then
      let shift := match highest w with None => RECV_REORDER_WINDOW | Some highest => counter - highest end in
      let shifted := if RECV_REORDER_WINDOW <=? shift
                     then Bitset256.set_bit Bitset256.new 0
                     else Bitset256.set_bit (Bitset256.shl (bitmap w) shift) 0 in
      {| highest := Some counter; bitmap := shifted;
         authenticated_counter_hint := authenticated_counter_hint w;
         preferred_tag_offset := preferred_tag_offset w; last_attempt := last_attempt w |}
    else
      let diff := default 0 (highest w) - counter in
      if diff <? RECV_REORDER_WINDOW
      then {| highest := highest w; bitmap := Bitset256.set_bit (bitmap w) diff;
              authenticated_counter_hint := authenticated_counter_hint w;
              preferred_tag_offset := preferred_tag_offset w; last_attempt := last_attempt w |}
      else w in
  clear_authenticated_counter_hint w.

Section Search.
Context {PR : Primitives}.

(** The loop over the counters of one time window. *)
Fixpoint find_in (w : t) (secret : bytes) (tw : Z) (counters : list Z) (tag : bytes) : option Z :=
  match counters with
  | [] => None
  | counter :: counters =>
      if negb (is_new w counter) then find_in w secret tw counters tag
      else if bool_decide (generate_resonance_tag secret counter tw = tag) then Some counter
      else find_in w secret tw counters tag
  end.

Fixpoint find_windows (w : t) (secret : bytes) (tws counters : list Z) (tag : bytes) : option Z :=
  match tws with
  | [] => None
  | tw :: tws =>
      match find_in w secret tw counters tag with
      | Some counter => Some counter
      | None => find_windows w secret tws counters tag
      end
  end.

Definition find_counter_in_bounds (w : t) (tag : bytes) (keys : SessionKeys) (bounds : Z * Z) (ts : Z)
    : option Z :=
  let '(start, end_) := bounds in
  let base_tw := compute_time_window ts DEFAULT_WINDOW_MS in
  let tws := map (fun tw_offset => wrap64 (base_tw + tw_offset)) [0; -1; 1] in
  find_windows w (tag_secret keys) tws (seqZ start (end_ - start + 1)) tag.

Definition find_counter (w : t) (tag : bytes) (keys : SessionKeys) (ts : Z) : option Z :=
  find_counter_in_bounds w tag keys (search_bounds w) ts.
End Search.
End RecvWindow.

(** The loss estimate read off the window: packets received, and the span from the
    newest to the oldest of them. *)
Definition replay_observation_counts (words : list Z) : Z * Z :=
  let received := foldr (fun word n => count_ones word + n) 0 words in
  let occupied := filter (fun e => e.2 <> 0) (imap (fun i word => (i, word)) words) in
  let span := match last occupied with
              | Some (index, word) => Z.of_nat index * 64 + 64 - (63 - Z.log2 word)
              | None => 0
              end in
  (received, span).

Definition observation_counts (w : RecvWindow.t) : Z * Z :=
  let b := RecvWindow.bitmap w in
  replay_observation_counts
    [wrap64 (Bitset256.lo b); wrap64 (Z.shiftr (Bitset256.lo b) 64);
     wrap64 (Bitset256.hi b); wrap64 (Z.shiftr (Bitset256.hi b) 64)].

(** ** Uplink packets *)

Definition build_inner_packet (inner_type : InnerType.t) (seq_num : Z) (payload : bytes) : bytes :=
  le_bytes 2 (InnerType.as_u16 inner_type) ++ le_bytes 2 seq_num ++ payload.

(** The random values a builder draws: the number for the padding length, the
    padding, the filler of the header, the header generator, the nonce and the
    STUN attribute type. *)
Record Draws : Type := {
  pad_draw : Z;
  pad_bytes : nat -> bytes;
  filler : nat -> bytes;
  header_rng : Rng;
  nonce_draw : option bytes;
  attribute_draw : Z;
}.

Section Codec.
Context {PR : Primitives} {HX : Hex}.

(** The send counter after the call, and the packet. *)
Definition build_mdh_packet_core (keys : SessionKeys) (counter : Z) (inner : bytes)
    (obfuscated_eph_pub : option bytes) (mdh_len tag_offset : Z) (header_mask : option MaskProfile)
    (draws : Draws) (ts : Z) : Z * outcome bytes :=
  if (match header_mask with Some mask => uses_stun_attributes mask && (mdh_len <? 24) | None => false end)
  then (counter, Err (InvalidPacket "MDH не вмещает атрибут STUN"))
  else
  let requested := 8 + wrap16 (pad_draw draws) mod 16 in
  let eph_len := match obfuscated_eph_pub with Some _ => 32 | None => 0 end in
  let base := mdh_len + eph_len + session_payload_overhead keys + 2 + len inner + POLY1305_TAG_SIZE in
  match (match header_mask with Some mask => wire_padding mask base requested 26 | None => Ok requested end) with
  | Err e => (counter, Err e)
  | Panic => (counter, Panic)
  | Ok pad_len =>
  let plaintext := le_bytes 2 pad_len ++ inner ++ pad_bytes draws (Z.to_nat pad_len) in
  if counter =? u64_max then (counter, Err (Crypto "Счетчик отправки исчерпан"))
  else
  let current_counter := counter in
  let counter := current_counter + 1 in
  let time_window := compute_time_window ts DEFAULT_WINDOW_MS in
  let tag := generate_resonance_tag (tag_secret keys) current_counter time_window in
  (counter,
   let! ciphertext := encrypt_session_payload keys PacketDirection.ClientToServer current_counter tag
                        plaintext (nonce_draw draws) in
   let mdh := match header_mask with
              | Some {| header_spec := Some spec |} =>
                  let h := HeaderSpec.generate spec (header_rng draws) in
                  if len h <? mdh_len then h ++ filler draws (Z.to_nat (mdh_len - len h))
                  else take (Z.to_nat mdh_len) h
              | _ => filler draws (Z.to_nat mdh_len)
              end in
   let embed_tag_offset := if negb (tag_offset =? u16_max) && (tag_offset + TAG_SIZE <=? mdh_len)
                           then Some tag_offset else None in
   let! head := match embed_tag_offset with
                | Some off => write_at mdh off tag
                | None => Ok (tag ++ mdh)
                end in
   let packet := head ++ default [] obfuscated_eph_pub ++ ciphertext in
   match embed_tag_offset, header_mask with
   | Some _, Some mask => finalize_packet mask packet (attribute_draw draws)
   | _, _ => Ok packet
   end)
  end.

Definition build_random_mdh_packet_with_tag_offset (keys : SessionKeys) (counter : Z) (inner : bytes)
    (obfuscated_eph_pub : option bytes) (mdh_len tag_offset : Z) (draws : Draws) (ts : Z) : Z * outcome bytes :=
  build_mdh_packet_core keys counter inner obfuscated_eph_pub mdh_len tag_offset None draws ts.

Definition build_random_mdh_packet (keys : SessionKeys) (counter : Z) (inner : bytes)
    (obfuscated_eph_pub : option bytes) (mdh_len : Z) (draws : Draws) (ts : Z) : Z * outcome bytes :=
  build_random_mdh_packet_with_tag_offset keys counter inner obfuscated_eph_pub mdh_len
    default_tag_offset draws ts.

Definition build_shaped_mdh_packet (keys : SessionKeys) (counter : Z) (inner : bytes)
    (obfuscated_eph_pub : option bytes) (mdh_len : Z) (mask : MaskProfile) (draws : Draws) (ts : Z)
    : Z * outcome bytes :=
  build_mdh_packet_core keys counter inner obfuscated_eph_pub mdh_len (tag_offset mask) (Some mask) draws ts.

Definition build_zero_mdh_packet (keys : SessionKeys) (counter : Z) (inner : bytes)
    (obfuscated_eph_pub : option bytes) (draws : Draws) (ts : Z) : Z * outcome bytes :=
  build_random_mdh_packet keys counter inner obfuscated_eph_pub (len DEFAULT_ZERO_MDH) draws ts.

(** ** Downlink packets *)

Definition parse_downlink_inner (counter : Z) (padded : bytes) : outcome DecodedPacket :=
  if len padded <? 2 then Err (InvalidPacket "Decrypted payload too short")
  else
  let! pad_len := le_at 2 padded 0 in
  if len padded <? pad_len then Err (InvalidPacket "Invalid padding length")
  else
  let end_ := len padded - pad_len in
  if end_ <? 2 then Err (InvalidPacket "Invalid padding length")
  else
  let! inner := slice padded 2 end_ in
  if len inner <? 4 then Err (InvalidPacket "Inner payload too short")
  else
  let! header := InnerHeader.decode inner in
  let! payload := slice_from inner 4 in
  Ok {| d_counter := counter; d_header := header; d_payload := payload |}.

Definition decode_packet_with_layout (packet : bytes) (keys : SessionKeys) (w : RecvWindow.t)
    (mdh_len tag_offset now ts : Z) : RecvWindow.t * outcome DecodedPacket :=
  let '(tag_start, ct_start, header_len) :=
    if tag_offset =? u16_max then (0, TAG_SIZE + mdh_len, TAG_SIZE + mdh_len)
    else (tag_offset, mdh_len, Z.max mdh_len (tag_offset + TAG_SIZE)) in
  if len packet <? header_len + 16 then (w, Err (InvalidPacket "Packet too short"))
  else
  match slice packet tag_start (tag_start + TAG_SIZE) with
  | Err e => (w, Err e)
  | Panic => (w, Panic)
  | Ok tag =>
  let '(w, found) :=
    match RecvWindow.find_counter w tag keys ts with
    | Some counter => (w, Some counter)
    | None =>
        match RecvWindow.recovery_bounds w 1 with
        | None => (w, None)
        | Some bounds =>
            let '(w, reserved) := RecvWindow.reserve_counter_recovery w now in
            if reserved then (w, RecvWindow.find_counter_in_bounds w tag keys bounds ts) else (w, None)
        end
    end in
  match found with
  | None => (w, Err (InvalidPacket "Invalid resonance tag"))
  | Some counter =>
      match (let! ciphertext := slice_from packet ct_start in
             let! padded := decrypt_session_payload keys PacketDirection.ServerToClient counter tag ciphertext in
             parse_downlink_inner counter padded) with
      | Ok decoded =>
          (RecvWindow.with_preferred (Some tag_offset) (RecvWindow.mark w counter), Ok decoded)
      | Err e => (w, Err e)
      | Panic => (w, Panic)
      end
  end
  end.

Definition decode_packet_with_mdh_len (packet : bytes) (keys : SessionKeys) (w : RecvWindow.t)
    (mdh_len now ts : Z) : RecvWindow.t * outcome DecodedPacket :=
  decode_packet_with_layout packet keys w mdh_len default_tag_offset now ts.

(** One header length: too short or overlapping the tag, not authentic, or the
    decrypted payload. *)
Inductive attempt : Type := Skip | Miss | Hit (padded : bytes).

Definition attempt_at (packet : bytes) (keys : SessionKeys) (counter : Z) (tag : bytes)
    (prefix_len tag_start mdh_len : Z) : outcome attempt :=
  let! ct_start := uadd prefix_len mdh_len in
  if ct_start <? tag_start + TAG_SIZE then Ok Skip
  else
  let! least := uadd ct_start 16 in
  if len packet <? least then Ok Skip
  else
  let! ciphertext := slice_from packet ct_start in
  match decrypt_session_payload keys PacketDirection.ServerToClient counter tag ciphertext with
  | Ok padded => Ok (Hit padded)
  | Err _ => Ok Miss
  | Panic => Panic
  end.

(** The loop over the learned lengths: whether one was tried, and the packet. *)
Fixpoint try_learned (attempt_len : Z -> outcome attempt) (counter : Z) (lens : list Z) (tried_any : bool)
    : outcome (bool * option DecodedPacket) :=
  match lens with
  | [] => Ok (tried_any, None)
  | mdh_len :: lens =>
      let! a := attempt_len mdh_len in
      match a with
      | Skip => try_learned attempt_len counter lens tried_any
      | Miss => try_learned attempt_len counter lens true
      | Hit padded =>
          let! decoded := parse_downlink_inner counter padded in
          Ok (true, Some decoded)
      end
  end.

(** The scan of lengths that are not among the learned ones. *)
Fixpoint scan_lens (attempt_len : Z -> outcome attempt) (counter : Z) (known candidates : list Z)
    : outcome (option (Z * DecodedPacket)) :=
  match candidates with
  | [] => Ok None
  | mdh_len :: candidates =>
      if bool_decide (mdh_len ∈ known) then scan_lens attempt_len counter known candidates
      else
      let! a := attempt_len mdh_len in
      match a with
      | Skip | Miss => scan_lens attempt_len counter known candidates
      | Hit padded =>
          match parse_downlink_inner counter padded with
          | Ok decoded => Ok (Some (mdh_len, decoded))
          | Err _ => scan_lens attempt_len counter known candidates
          | Panic => Panic
          end
      end
  end.

(** The receive state of a connection: the window and the learned lengths. *)
Record Rx : Type := { window : RecvWindow.t; mdh_lens : list Z }.

Definition decode_downlink_one_layout (packet : bytes) (keys : SessionKeys) (tag_offset : Z)
    (recovery_bounds : option (Z * Z)) (ts : Z) (s : Rx) : Rx * outcome DecodedPacket :=
  let w := window s in
  let prefix_len := if tag_offset =? u16_max then TAG_SIZE else 0 in
  let tag_start := if tag_offset =? u16_max then 0 else tag_offset in
  if len packet <? tag_start + TAG_SIZE + 16 then (s, Err (InvalidPacket "Packet too short"))
  else
  match slice packet tag_start (tag_start + TAG_SIZE) with
  | Err e => (s, Err e)
  | Panic => (s, Panic)
  | Ok tag =>
  let found := match recovery_bounds with
               | None => RecvWindow.find_counter w tag keys ts
               | Some bounds => RecvWindow.find_counter_in_bounds w tag keys bounds ts
               end in
  match found with
  | None => (s, Err (InvalidPacket "Invalid resonance tag"))
  | Some counter =>
  let attempt_len := attempt_at packet keys counter tag prefix_len tag_start in
  match try_learned attempt_len counter (mdh_lens s) false with
  | Err e => (s, Err e)
  | Panic => (s, Panic)
  | Ok (_, Some decoded) => ({| window := RecvWindow.mark w counter; mdh_lens := mdh_lens s |}, Ok decoded)
  | Ok (tried_any, None) =>
  match scan_lens attempt_len counter (mdh_lens s) (seqZ 0 (MAX_DOWNLINK_MDH_SCAN + 1)) with
  | Err e => (s, Err e)
  | Panic => (s, Panic)
  | Ok (Some (mdh_len, decoded)) =>
      ({| window := RecvWindow.mark w counter; mdh_lens := mdh_len :: mdh_lens s |}, Ok decoded)
  | Ok None =>
      (s, Err (InvalidPacket (if tried_any
        then "resonance tag matched but no MDH length (learned or scanned) authenticated"
        else "Packet too short")))
  end
  end
  end
  end.

(** [if !offsets.contains(&offset) { offsets.push(offset) }] *)
Definition push_new (offsets : list Z) (offset : Z) : list Z :=
  if bool_decide (offset ∈ offsets) then offsets else offsets ++ [offset].

(** The order in which the layouts are tried: the last one that worked, the ones
    of the caller, the prefixed tag. *)
Definition layout_order (preferred : option Z) (tag_offsets : list Z) : list Z :=
  let offsets := match preferred with
                 | Some p => if (p =? u16_max) || bool_decide (p ∈ tag_offsets) then [p] else []
                 | None => []
                 end in
  push_new (fold_left push_new tag_offsets offsets) u16_max.

(** The loop over the layouts, carrying the last error. *)
Fixpoint try_offsets (packet : bytes) (keys : SessionKeys) (bounds : option (Z * Z)) (ts : Z)
    (offsets : list Z) (error : error) (s : Rx) : Rx * outcome DecodedPacket :=
  match offsets with
  | [] => (s, Err error)
  | offset :: offsets =>
      match decode_downlink_one_layout packet keys offset bounds ts s with
      | (s, Ok decoded) =>
          ({| window := RecvWindow.with_preferred (Some offset) (window s); mdh_lens := mdh_lens s |}, Ok decoded)
      | (s, Err failure) => try_offsets packet keys bounds ts offsets failure s
      | (s, Panic) => (s, Panic)
      end
  end.

Definition decode_downlink_with_offsets (packet : bytes) (keys : SessionKeys) (tag_offsets : list Z)
    (now ts : Z) (s : Rx) : Rx * outcome DecodedPacket :=
  let offsets := layout_order (RecvWindow.preferred_tag_offset (window s)) tag_offsets in
  match try_offsets packet keys None ts offsets (InvalidPacket "Invalid resonance tag") s with
  | (s, Err error) =>
      match RecvWindow.recovery_bounds (window s) (len offsets) with
      | None => (s, Err error)
      | Some bounds =>
          let '(w, reserved) := RecvWindow.reserve_counter_recovery (window s) now in
          let s := {| window := w; mdh_lens := mdh_lens s |} in
          if reserved then try_offsets packet keys (Some bounds) ts offsets error s else (s, Err error)
      end
  | result => result
  end.

(** With the tag offsets of the built-in masks. *)
Definition decode_downlink_any_mdh_len (packet : bytes) (keys : SessionKeys) (now ts : Z) (s : Rx)
    : Rx * outcome DecodedPacket :=
  decode_downlink_with_offsets packet keys (map tag_offset preset_masks.all) now ts s.

(** ** The handshake *)

(** What the handshake changes: the keys, the window and the send counter. *)
Record Handshake : Type := { h_keys : SessionKeys; h_window : RecvWindow.t; h_send_counter : Z }.

Definition process_server_hello_with_offsets (packet : bytes) (keypair : KeyPair) (mdh_len : Z)
    (server_signing_key : option bytes) (tag_offsets : list Z) (now ts : Z) (h : Handshake)
    : Handshake * outcome (option ClientNetworkConfig * bytes) :=
  let '(s, result) := decode_downlink_with_offsets packet (h_keys h) tag_offsets now ts
                        {| window := h_window h; mdh_lens := [mdh_len] |} in
  let h := {| h_keys := h_keys h; h_window := window s; h_send_counter := h_send_counter h |} in
  let checked :=
    let! decoded := result in
    if negb (bool_decide (InnerHeader.inner_type (d_header decoded) = InnerType.Control))
    then Err (InvalidPacket "Expected control packet for ServerHello")
    else
    let! control := Control.decode (d_payload decoded) in
    match control with
    | ControlPayload.ServerHello server_eph_pub signature network_config =>
        let! _ := match server_signing_key with
                  | None => Ok tt
                  | Some signing_key =>
                      if negb (verifying_key_ok signing_key) then Err (Crypto "Invalid server signing key")
                      else if negb (verify_strict signing_key
                                      (server_eph_pub ++ public_key_bytes keypair) signature)
                      then Err (Crypto "ServerHello signature invalid — possible MITM attack")
                      else Ok tt
                  end in
        let! dh2 := compute_shared keypair server_eph_pub in
        Ok (dh2, network_config, server_eph_pub)
    | _ => Err (InvalidPacket "Expected ServerHello control payload")
    end in
  match checked with
  | Ok (dh2, network_config, server_eph_pub) =>
      let old_session_key := session_key (h_keys h) in
      ({| h_keys := derive_session_keys dh2 (Some old_session_key) (public_key_bytes keypair);
          h_window := RecvWindow.reset (h_window h); h_send_counter := 0 |},
       Ok (network_config, server_eph_pub))
  | Err e => (h, Err e)
  | Panic => (h, Panic)
  end.

Definition process_server_hello_with_mdh_len (packet : bytes) (keypair : KeyPair) (mdh_len : Z)
    (server_signing_key : option bytes) (now ts : Z) (h : Handshake)
    : Handshake * outcome (option ClientNetworkConfig * bytes) :=
  process_server_hello_with_offsets packet keypair mdh_len server_signing_key [u16_max] now ts h.

Definition obfuscate_client_eph_pub (keypair : KeyPair) (server_public_key : bytes) : bytes :=
  obfuscate_eph_pub (public_key_bytes keypair) server_public_key.
End Codec.

Definition counter_to_nonce (counter : Z) : bytes := le_bytes 8 counter ++ zeros (Z.to_nat (NONCE_SIZE - 8)).

(** ** The window is a set *)

Module Bits.
Import Bitset256.

Definition ok (b : t) : Prop := 0 <= lo b < 2 ^ 128 /\ 0 <= hi b < 2 ^ 128.

Lemma get_bit_test b i : 0 <= i ->
  get_bit b i = if i <? 128 then Z.testbit (lo b) i
                else if i <? 256 then Z.testbit (hi b) (i - 128) else false.
Proof.
  intros Hi. unfold get_bit. destruct (Z.ltb_spec i 128); [by apply shiftr_land1|].
  destruct (_ <? _); [apply shiftr_land1; lia|done].
Qed.

Lemma testbit_wrap128 x j : 0 <= j -> Z.testbit (wrap128 x) j = (j <? 128) && Z.testbit x j.
Proof.
  intros Hj. unfold wrap128. change 340282366920938463463374607431768211456 with (2 ^ 128).
  destruct (Z.ltb_spec j 128); [by rewrite Z.mod_pow2_bits_low|by rewrite Z.mod_pow2_bits_high].
Qed.

Lemma wrap128_bound x : 0 <= wrap128 x < 2 ^ 128.
Proof. unfold wrap128. apply (Z.mod_pos_bound x (2 ^ 128)). lia. Qed.

Lemma lor_bound x y : 0 <= x < 2 ^ 128 -> 0 <= y < 2 ^ 128 -> 0 <= Z.lor x y < 2 ^ 128.
Proof.
  intros Hx Hy. assert (0 <= Z.lor x y) as H0 by (apply Z.lor_nonneg; lia). split; [done|].
  destruct (decide (Z.lor x y = 0)) as [->|Hne]; [lia|]. apply Z.log2_lt_pow2; [lia|].
  rewrite Z.log2_lor by lia. apply Z.max_lub_lt; (destruct (Z.eq_dec x 0), (Z.eq_dec y 0);
    subst; cbn; try lia; apply Z.log2_lt_pow2; lia).
Qed.

Lemma new_ok : ok new.
Proof. unfold ok. cbn. lia. Qed.

Lemma get_new i : 0 <= i -> get_bit new i = false.
Proof. intros Hi. rewrite get_bit_test by done. cbn. rewrite !Z.bits_0. by repeat case_match. Qed.

Lemma set_ok b i : ok b -> 0 <= i -> ok (set_bit b i).
Proof.
  intros [Hlo Hhi] Hi. unfold set_bit, ok.
  assert (forall k, 0 <= k < 128 -> 0 <= Z.shiftl 1 k < 2 ^ 128) as Hb.
  { intros k Hk. rewrite Z.shiftl_1_l. split; [apply Z.pow_nonneg; lia|apply Z.pow_lt_mono_r; lia]. }
  destruct (Z.ltb_spec i 128); [|destruct (Z.ltb_spec i 256)]; cbn [lo hi]; split; try done;
    (apply lor_bound; [done|apply Hb; lia]).
Qed.

Lemma get_set b i j : 0 <= i < 256 -> 0 <= j -> get_bit (set_bit b i) j = (i =? j) || get_bit b j.
Proof.
  intros Hi Hj. rewrite !get_bit_test by done. unfold set_bit.
  destruct (Z.ltb_spec i 128); [|destruct (Z.ltb_spec i 256); [|lia]]; cbn [lo hi];
    destruct (Z.ltb_spec j 128); try destruct (Z.ltb_spec j 256);
    rewrite ?Z.lor_spec, ?testbit_shiftl1 by lia;
    rewrite ?(orb_comm (Z.testbit _ _)); try (f_equal; lia);
    (replace (i =? j) with false by lia; done).
Qed.

Lemma shl_ok b s : ok b -> 0 <= s -> ok (shl b s).
Proof.
  intros [Hlo Hhi] Hs. unfold shl. destruct (_ <=? _); [apply new_ok|]. destruct (_ =? _); [done|].
  destruct (Z.leb_spec 128 s); unfold ok; cbn [lo hi]; split; try apply wrap128_bound; try lia.
  apply lor_bound; [apply wrap128_bound|]. rewrite Z.shiftr_div_pow2 by lia.
  split; [apply Z.div_pos; lia|]. apply Z.div_lt_upper_bound; [lia|]. nia.
Qed.

Lemma get_shl b s j : ok b -> 0 <= s -> 0 <= j ->
  get_bit (shl b s) j = (s <=? j) && (j <? 256) && get_bit b (j - s).
Proof.
  intros [Hlo Hhi] Hs Hj. unfold shl. destruct (Z.leb_spec 256 s).
  { rewrite get_new by done. destruct (Z.leb_spec s j), (Z.ltb_spec j 256); done || lia. }
  destruct (Z.eqb_spec s 0) as [->|].
  { rewrite Z.sub_0_r, (proj2 (Z.leb_le 0 j) Hj). cbn [andb]. rewrite get_bit_test by done.
    destruct (Z.ltb_spec j 128), (Z.ltb_spec j 256); done || lia. }
  destruct (Z.leb_spec s j).
  2:{ rewrite get_bit_test by done. destruct (Z.leb_spec 128 s); cbn [lo hi andb].
      - rewrite Z.bits_0. destruct (Z.ltb_spec j 128); [done|]. destruct (_ <? 256); [|done].
        rewrite testbit_wrap128, Z.shiftl_spec, Z.testbit_neg_r by lia. by rewrite andb_false_r.
      - rewrite (proj2 (Z.ltb_lt j 128)) by lia.
        rewrite testbit_wrap128, Z.shiftl_spec, Z.testbit_neg_r by lia. apply andb_false_r. }
  cbn [andb]. rewrite !get_bit_test by lia. destruct (Z.leb_spec 128 s); cbn [lo hi].
  - destruct (Z.ltb_spec j 128); [lia|]. destruct (Z.ltb_spec j 256); [|done]. cbn [andb].
    rewrite (proj2 (Z.ltb_lt (j - s) 128)) by lia. rewrite testbit_wrap128, Z.shiftl_spec by lia.
    rewrite (proj2 (Z.ltb_lt (j - 128) 128)) by lia. cbn [andb]. f_equal. lia.
  - destruct (Z.ltb_spec j 128), (Z.ltb_spec j 256); cbn [andb]; try lia; try done.
    + rewrite (proj2 (Z.ltb_lt (j - s) 128)) by lia. rewrite testbit_wrap128, Z.shiftl_spec by lia.
      by rewrite (proj2 (Z.ltb_lt j 128)) by lia.
    + rewrite Z.lor_spec, testbit_wrap128, Z.shiftl_spec, Z.shiftr_spec by lia.
      rewrite (proj2 (Z.ltb_lt (j - 128) 128)) by lia. cbn [andb].
      destruct (Z.ltb_spec (j - s) 128).
      * rewrite (Z.testbit_neg_r (hi b)) by lia. cbn [orb]. f_equal. lia.
      * rewrite (proj2 (Z.ltb_lt (j - s) 256)) by lia. rewrite (testbit_above 128 (lo b)) by lia.
        rewrite orb_false_r. f_equal. lia.
Qed.
End Bits.

(** ** Inputs of the runs *)

Definition quiet_draws : Draws :=
  {| pad_draw := 0; pad_bytes := zeros; filler := zeros; header_rng := quiet_rng; nonce_draw := Some (zeros 24);
     attribute_draw := 0 |}.

Definition plain_keys : SessionKeys :=
  {| packet_cipher := PacketCipher.Established; session_key := zeros 32; session_key_s2c := 1 :: zeros 31;
     tag_secret := 2 :: zeros 31; prng_seed := zeros 32 |}.

