(* ===== verification/Mimicry.v ===== *)
(** * The packet builder of the data path

    Models the packet construction of [MimicryEngine] and the queueing of
    [MimicryEncryptor] ([crates/aivpn-common/src/mimicry.rs]), the padding strategies
    of [crates/aivpn-common/src/mask.rs] and the packet budgets of [mask_io.rs],
    [rtc_mask.rs] and [srtp_mask.rs]. The size that the traffic shape samples for a
    packet, and the random values, are arguments.

    The theorems: a payload within the limit that the engine announces always fits
    its budget, alignment included; header, tag and ciphertext are where the layout
    of the mask says, also in the handshake packet with its key. *)

From S2P Require Import Prelude Protocol Crypto Mask Presets ClientWire.
Local Open Scope Z_scope.

Definition SAFE_OUTER_PACKET_BUDGET : Z := 1380.
Definition MAX_QUIC_INNER : Z := 1140.
Definition SRTP_MAX_INNER : Z := 1358.
Definition SRTP_OVERHEAD : Z := 22.
Definition WIRE_BUDGET : Z := 1380.
Definition RTP_HEADER_BUDGET : Z := 32.
Definition SRTP_TAG_BYTES : Z := 16.
Definition SRTP_BLOCK_BYTES : Z := 16.
Definition RTX_PREFIX_BYTES : Z := 2.

Definition inner_budget (turn : bool) : Z :=
  let available := WIRE_BUDGET - (if turn then 4 else 0) - RTP_HEADER_BUDGET - SRTP_TAG_BYTES in
  (available / SRTP_BLOCK_BYTES * SRTP_BLOCK_BYTES - RTX_PREFIX_BYTES) / 4 * 4.

Definition rtc_carrier_overhead (turn : bool) : Z :=
  let reserve := RTP_HEADER_BUDGET + SRTP_TAG_BYTES + (SRTP_BLOCK_BYTES - 1) + (if turn then 4 else 0) in
  (reserve + 3) / 4 * 4.

Definition needs_state (mask : MaskProfile) : bool :=
  match spoof_protocol mask with SpoofProtocol.QUIC => true | _ => false end.

Definition uses_rtc (mask : MaskProfile) : bool :=
  match spoof_protocol mask with
  | SpoofProtocol.WebRTC_DTLS_SRTP | SpoofProtocol.WebRTC_TURN_DTLS_SRTP | SpoofProtocol.WebRTC_SDES_SRTP => true
  | _ => false
  end.

(** [turn_realm(mask).is_some()] *)
Definition uses_turn (mask : MaskProfile) : bool :=
  match spoof_protocol mask with SpoofProtocol.WebRTC_TURN_DTLS_SRTP => true | _ => false end.

Definition is_sdes (mask : MaskProfile) : bool :=
  match spoof_protocol mask with SpoofProtocol.WebRTC_SDES_SRTP => true | _ => false end.

Definition rtc_inner_budget (mask : MaskProfile) : Z :=
  if is_sdes mask then SRTP_MAX_INNER else inner_budget (uses_turn mask).

Definition carrier_overhead (mask : MaskProfile) : Z :=
  if negb (uses_rtc mask) then 0
  else if is_sdes mask then (SRTP_OVERHEAD + 3) / 4 * 4
  else rtc_carrier_overhead (uses_turn mask).

Definition requires_userspace (mask : MaskProfile) : bool := needs_state mask || uses_rtc mask.

(** ** Padding *)

Module PaddingStrategy.
Inductive t : Type :=
  | RandomUniform (min max : Z)
  | MatchDistribution
  | Fixed (size : Z).

(** [between lo hi] is what [gen_range(lo..=hi)] gives. *)
Definition calc_padding (strategy : t) (payload_size target_size : Z) (between : Z -> Z -> Z) : Z :=
  match strategy with
  | RandomUniform min max =>
      let '(lo, hi) := if min <=? max then (min, max) else (max, min) in
      between lo hi
  | MatchDistribution =>
      if payload_size <? target_size then wrap16 (target_size - payload_size) else 0
  | Fixed size => size
  end.
End PaddingStrategy.

(** ** Packets *)

(** What shapes one packet: the strategy in force, the sampled size and the number
    a random strategy draws. *)
Record Shape : Type := {
  strategy : PaddingStrategy.t;
  target_size : Z;
  between : Z -> Z -> Z;
}.

Section Engine.
Context {PR : Primitives} {HX : Hex}.

Definition data_payload_limit (mask : MaskProfile) (datagram_limit : Z) : Z :=
  let mdh_len := mdh_len mask in
  let budget := if needs_state mask then MAX_QUIC_INNER
                else if uses_rtc mask then rtc_inner_budget mask
                else Z.min SAFE_OUTER_PACKET_BUDGET MAX_PACKET_SIZE in
  sat_sub (Z.min budget datagram_limit)
    (prefix_len (packet_framing mask mdh_len) + mdh_len + 2 + 4 + POLY1305_TAG_SIZE + 6).

Definition build_mdh (mask : MaskProfile) (eph_pub : option bytes) (rng : Rng) : outcome bytes :=
  let mdh := match header_spec mask with
             | Some spec => HeaderSpec.generate spec rng
             | None => header_template mask
             end in
  match eph_pub with
  | None => Ok mdh
  | Some eph =>
      let offset := eph_pub_offset mask in
      let size := eph_pub_length mask in
      let required := offset + size in
      let mdh := if len mdh <? required then mdh ++ zeros (Z.to_nat (required - len mdh)) else mdh in
      let copy_len := Z.min size (len eph) in
      write_at mdh offset (take (Z.to_nat copy_len) eph)
  end.

Definition packet_budget (mask : MaskProfile) (keys : SessionKeys) : Z :=
  if needs_state mask then
    if PacketCipher.is_initial (packet_cipher keys) then 512 else MAX_QUIC_INNER
  else if uses_rtc mask then rtc_inner_budget mask
  else Z.min SAFE_OUTER_PACKET_BUDGET MAX_PACKET_SIZE.

(** The tag offset when the tag goes inside a header of this length. *)
Definition embed_tag_offset (mask : MaskProfile) (mdh_len : Z) : option Z :=
  if uses_embedded_layout mask mdh_len then embedded_tag_offset mask else None.

Definition assemble (mask : MaskProfile) (mdh tag ciphertext : bytes) (attribute : Z) : outcome bytes :=
  match embed_tag_offset mask (len mdh) with
  | Some off =>
      let! mdh := write_at mdh off tag in
      finalize_packet mask (mdh ++ ciphertext) attribute
  | None => Ok (tag ++ mdh ++ ciphertext)
  end.

(** The send counter after the call, and the packet. *)
Definition build_packet (mask : MaskProfile) (shape : Shape) (plaintext : bytes) (keys : SessionKeys)
    (counter : Z) (eph_pub : option bytes) (draws : Draws) (ts : Z) : Z * outcome bytes :=
  match build_mdh mask eph_pub (header_rng draws) with
  | Err e => (counter, Err e)
  | Panic => (counter, Panic)
  | Ok mdh =>
  let tag_prefix_len := match embed_tag_offset mask (len mdh) with Some _ => 0 | None => TAG_SIZE end in
  let envelope_overhead := session_payload_overhead keys in
  let base_overhead := tag_prefix_len + len mdh + envelope_overhead + 2 + len plaintext + POLY1305_TAG_SIZE in
  let requested_pad_len :=
    PaddingStrategy.calc_padding (strategy shape) (base_overhead + carrier_overhead mask) (target_size shape)
      (between shape) in
  let packet_budget := packet_budget mask keys in
  if packet_budget <? base_overhead then (counter, Err (InvalidPacket "Packet exceeds mask budget"))
  else
  let max_pad_len := wrap16 (sat_sub packet_budget base_overhead) in
  match wire_padding mask base_overhead requested_pad_len max_pad_len with
  | Err e => (counter, Err e)
  | Panic => (counter, Panic)
  | Ok pad_len =>
  let padded := le_bytes 2 pad_len ++ plaintext ++ pad_bytes draws (Z.to_nat pad_len) in
  if u64_max <=? counter then (counter, Panic)
  else
  let packet_counter := counter in
  let time_window := compute_time_window ts DEFAULT_WINDOW_MS in
  let tag := generate_resonance_tag (tag_secret keys) packet_counter time_window in
  (packet_counter + 1,
   let! ciphertext := encrypt_session_payload keys PacketDirection.ClientToServer packet_counter tag padded
                        (nonce_draw draws) in
   assemble mask mdh tag ciphertext (attribute_draw draws))
  end
  end.
End Engine.

(** ** The builders agree with the shared framing *)

Section Framing.
Context {HX : Hex}.

(** [patch_stun_length] and the framing write the same length field, up to the
    sizes where one wraps and the other refuses. *)
Lemma finalize_as_framing mask packet attribute :
  len packet <= u16_max + 20 ->
  finalize_packet mask packet attribute =
  (if uses_stun_attributes mask then Stun.finalize packet attribute
   else match stun_length_field_offset mask with
        | Some offset =>
            if (20 <=? len packet) && (offset + 2 <=? len packet)
            then let! length := u16_try_from (len packet - 20) (InvalidPacket "Слишком большой STUN-пакет") in
                 write_at packet offset (be_bytes 2 length)
            else Ok packet
        | None => Ok packet
        end).
Proof.
  intros Hl. unfold finalize_packet, patch_stun_length, u16_try_from, u16_max in *.
  destruct (uses_stun_attributes mask); [done|]. destruct (stun_length_field_offset mask) as [offset|]; [|done].
  destruct (Z.ltb_spec (len packet) 20), (Z.ltb_spec (len packet) (offset + 2)),
    (Z.leb_spec 20 (len packet)), (Z.leb_spec (offset + 2) (len packet)); try lia; try done.
  cbn [orb andb]. guard_true. cbn [obind]. unfold wrap16. by rewrite Z.mod_small by lia.
Qed.

Lemma assemble_framed mask mdh tag ciphertext attribute :
  len mdh + len ciphertext <= u16_max + 20 ->
  assemble mask mdh tag ciphertext attribute = assemble_packet_into mask mdh tag ciphertext attribute.
Proof.
  intros Hl. unfold assemble, embed_tag_offset, assemble_packet_into, assemble_into, packet_framing. cbv zeta.
  destruct (uses_embedded_layout mask (len mdh)) eqn:E; cbn [f_tag_offset stun_attributes stun_length_offset andb];
    [|done].
  unfold uses_embedded_layout, embedded_tag_offset in *. destruct (tag_offset mask =? u16_max); [done|].
  apply andb_true_iff in E as [Hfit _]. guard_false. unfold obind.
  destruct (write_at mdh (tag_offset mask) tag) as [m| |] eqn:Hw; [|done|done].
  apply finalize_as_framing. rewrite length_app, (write_at_length _ _ _ _ Hw). lia.
Qed.

(** The data path of the clients assembles its packets itself; the result is
    the one of the framing that the server uses, for every mask: tag inside the
    header or before it, STUN fields included. *)
Theorem engine_assembly mask mdh tag ciphertext attribute :
  len mdh + len ciphertext <= u16_max + 20 ->
  assemble mask mdh tag ciphertext attribute = assemble_packet_into mask mdh tag ciphertext attribute.
Proof. apply assemble_framed. Qed.
End Framing.

(** ** Payloads within the announced limit fit *)

Lemma embed_prefix {HX : Hex} mask n :
  match embed_tag_offset mask n with Some _ => 0 | None => TAG_SIZE end = prefix_len (packet_framing mask n).
Proof.
  unfold embed_tag_offset, prefix_len, packet_framing. cbn [f_tag_offset]. destruct (uses_embedded_layout mask n) eqn:E; [|done].
  unfold uses_embedded_layout, embedded_tag_offset in *. by destruct (tag_offset mask =? u16_max).
Qed.

Lemma padding_within base requested maximum mask :
  0 <= base -> u16_ok requested -> 3 <= maximum < 65536 ->
  exists pad, wire_padding mask base requested maximum = Ok pad /\ 0 <= pad <= maximum /\
    (uses_stun_attributes mask = true -> (base + pad) mod 4 = 0).
Proof.
  intros Hb Hr Hm. unfold wire_padding. destruct (uses_stun_attributes mask).
  - pose proof (aligned_padding_spec base requested maximum Hb Hr) as H.
    destruct (Stun.aligned_padding base requested maximum) as [pad|e|].
    + destruct H as [[Hp H4] _]; [unfold u16_ok; lia|]. eauto.
    + exfalso. apply (H ltac:(unfold u16_ok; lia) ((- base) mod 4)). split; [divlia|]. divlia.
    + destruct H. unfold u16_ok. lia.
  - unfold u16_ok in Hr. eexists. split; [done|]. split; [lia|done].
Qed.

Section Fits.
Context {PR : Primitives} {PL : PrimitiveLaws} {HX : Hex}.
Context (Hseals : forall k n a p, is_Some (chacha_seal k n a p)).

Lemma seal_established keys direction counter tag plaintext rng :
  packet_cipher keys = PacketCipher.Established ->
  exists ciphertext, encrypt_session_payload keys direction counter tag plaintext rng = Ok ciphertext /\
    len ciphertext = len plaintext + POLY1305_TAG_SIZE.
Proof.
  intros Hk. unfold encrypt_session_payload, encrypt_session_payload_into_with_rng, encrypt_payload_into. rewrite Hk.
  destruct (Hseals (direction_key keys direction) (counter_nonce counter) [] plaintext) as [ct E]. rewrite E.
  exists ct. split; [done|]. by apply chacha_open_seal in E as [_ ?].
Qed.

Lemma budget_bound mask keys : packet_cipher keys = PacketCipher.Established -> packet_budget mask keys <= 1380.
Proof.
  intros Hk. unfold packet_budget. rewrite Hk. cbn [PacketCipher.is_initial]. unfold rtc_inner_budget.
  destruct (needs_state mask); [done|]. destruct (uses_rtc mask); [|done].
  destruct (is_sdes mask); [done|]. by destruct (uses_turn mask).
Qed.

(** The padding that a shape asks for is a [u16]. *)
Definition shape_ok (shape : Shape) : Prop :=
  forall size, u16_ok (PaddingStrategy.calc_padding (strategy shape) size (target_size shape) (between shape)).

(** The header of a mask that finishes its packets as STUN carries the cookie. *)
Definition stun_header_ok (mask : MaskProfile) (rng : Rng) : Prop :=
  uses_stun_attributes mask = true ->
  24 <= mdh_len mask /\ slice (packet_mdh_bytes_for_mask mask rng) 4 8 = Ok Stun.MAGIC_COOKIE.

Lemma mask_assembles mask rng tag ciphertext attribute :
  mask_ok mask -> rng_ok rng -> stun_header_ok mask rng -> len tag = TAG_SIZE -> u16_ok attribute ->
  let mdh := packet_mdh_bytes_for_mask mask rng in
  let f := packet_framing mask (mdh_len mask) in
  len mdh + len ciphertext <= u16_max + 20 ->
  (uses_stun_attributes mask = true -> (prefix_len f + len mdh + len ciphertext) mod 4 = 0) ->
  exists packet, assemble_packet_into mask mdh tag ciphertext attribute = Ok packet /\
    len packet = prefix_len f + len mdh + len ciphertext /\
    (uses_stun_attributes mask = true -> f_tag_offset f <> None -> Stun.validate packet = Ok tt).
Proof.
  intros Hm Hrng Hstun Ht Ha mdh f Hl H4. unfold assemble_packet_into.
  assert (len mdh = mdh_len mask) as Hmdh by by apply length_mask_header. rewrite Hmdh. fold f.
  assert (uses_embedded_layout mask (mdh_len mask) = true ->
    f_tag_offset f = Some (tag_offset mask) /\ tag_offset mask + TAG_SIZE <= mdh_len mask) as Hemb.
  { intros E. split; [unfold f, packet_framing; cbn [f_tag_offset]; by rewrite E|].
    unfold uses_embedded_layout, embedded_tag_offset in E. destruct (tag_offset mask =? u16_max); [done|lia]. }
  destruct (assemble_total f mdh tag ciphertext attribute Ht Ha Hl) as (packet & Hasm & Hv).
  - unfold f, packet_framing. cbn [f_tag_offset stun_attributes stun_length_offset].
    destruct (uses_embedded_layout mask (mdh_len mask)) eqn:E; [|done]. cbn [andb].
    destruct (Hemb eq_refl) as [Hoff Hfit]. pose proof Hm as ([Hnn _] & _). split; [done|]. split; [lia|]. split.
    + intros Hu. destruct (Hstun Hu) as [H24 Hcookie]. specialize (H4 Hu).
      unfold prefix_len in H4. rewrite Hoff in H4. unfold uses_stun_attributes in Hu. repeat split; [lia|lia|done|done].
    + intros at_. by apply stun_length_nonneg.
  - exists packet. split; [done|]. split; [rewrite <-Hmdh; by eapply assemble_length|]. intros Hu Hne.
    apply Hv; [done|]. unfold f, packet_framing in *. cbn [stun_attributes f_tag_offset] in *.
    destruct (uses_embedded_layout _ _); [|done]. by rewrite Hu.
Qed.

(** A payload within the announced limit always becomes a packet, within the
    budget of the mask whatever size the traffic shape asked for, and a valid STUN
    message where the mask promises one: the limit leaves room for the header, the
    envelope and the alignment. *)
Theorem payload_fits mask shape kind seq payload keys counter draws ts datagram_limit :
  mask_ok mask -> packet_cipher keys = PacketCipher.Established -> rng_ok (header_rng draws) ->
  stun_header_ok mask (header_rng draws) -> (forall n, length (pad_bytes draws n) = n) ->
  u16_ok (attribute_draw draws) -> 0 <= counter < u64_max -> shape_ok shape ->
  0 < data_payload_limit mask datagram_limit -> len payload <= data_payload_limit mask datagram_limit ->
  exists packet,
    build_packet mask shape (build_inner_packet kind seq payload) keys counter None draws ts
      = (counter + 1, Ok packet) /\
    len packet <= packet_budget mask keys /\
    (uses_stun_attributes mask = true -> f_tag_offset (packet_framing mask (mdh_len mask)) <> None ->
     Stun.validate packet = Ok tt).
Proof.
  intros Hm Hk Hrng Hstun Hpad Hat Hc Hcalc Hpos Hlen.
  pose proof (budget_bound mask keys Hk) as Hbudget.
  set (mdh := packet_mdh_bytes_for_mask mask (header_rng draws)).
  assert (len mdh = mdh_len mask) as Hmdh by by apply length_mask_header.
  assert (packet_budget mask keys = if needs_state mask then MAX_QUIC_INNER else if uses_rtc mask
    then rtc_inner_budget mask else Z.min SAFE_OUTER_PACKET_BUDGET MAX_PACKET_SIZE) as Eb
    by (unfold packet_budget; by rewrite Hk).
  unfold data_payload_limit, sat_sub in Hpos, Hlen. cbv zeta in Hpos, Hlen. rewrite <-Eb in Hpos, Hlen.
  unfold build_packet. change (build_mdh mask None (header_rng draws)) with (Ok mdh). cbv beta iota zeta.
  rewrite embed_prefix, Hmdh. set (f := packet_framing mask (mdh_len mask)) in *.
  unfold session_payload_overhead. rewrite Hk. cbn [PacketCipher.is_initial].
  assert (len (build_inner_packet kind seq payload) = 4 + len payload) as Hin by (unfold build_inner_packet; lenlia).
  set (base := prefix_len f + mdh_len mask + 0 + 2 + len (build_inner_packet kind seq payload) + POLY1305_TAG_SIZE).
  assert (0 <= base <= packet_budget mask keys - 6) as Hbase.
  { unfold base, POLY1305_TAG_SIZE in *. pose proof (prefix_len_bound f). lia. }
  destruct (Z.ltb_spec (packet_budget mask keys) base); [lia|]. unfold sat_sub, wrap16. rewrite Z.mod_small by lia.
  set (requested := PaddingStrategy.calc_padding _ _ _ _).
  destruct (padding_within base requested (Z.max 0 (packet_budget mask keys - base)) mask) as (pad & Hwp & Hp & H4);
    [lia|apply Hcalc|lia|]. rewrite Hwp. guard_false.
  set (tag := generate_resonance_tag _ _ _). set (padded := _ ++ _ ++ pad_bytes _ _).
  destruct (seal_established keys PacketDirection.ClientToServer counter tag padded (nonce_draw draws) Hk)
    as (ct & Hseal & Hct). rewrite Hseal. cbn [obind].
  assert (len mdh + len ct = base + pad - prefix_len f) as Htotal.
  { rewrite Hct. unfold padded, base. rewrite !length_app, length_le_bytes, Hpad. lia. }
  pose proof (prefix_len_bound f).
  destruct (mask_assembles mask (header_rng draws) tag ct (attribute_draw draws)) as (packet & Hasm & Hl & Hv);
    [done..|apply resonance_tag_length|done| | |].
  - fold mdh. unfold u16_max. lia.
  - fold mdh f. intros Hu. rewrite <-(H4 Hu). f_equal. lia.
  - exists packet. fold mdh in Hasm, Hl. fold f in Hl, Hv. rewrite assemble_framed by (unfold u16_max; lia).
    rewrite Hasm. split; [done|]. split; [lia|done].
Qed.
End Fits.

(** ** Runs *)

#[local] Existing Instance toy_primitives.
#[local] Existing Instance toy_laws.
#[local] Existing Instance plain_hex.

Definition fixed_shape : Shape := {| strategy := PaddingStrategy.Fixed 40; target_size := 0; between := fun lo _ => lo |}.

Lemma fixed_shape_ok : shape_ok fixed_shape.
Proof. intros size. vm_compute. intuition congruence. Qed.

Lemma engine_assembly_witness :
  assemble preset_masks.webrtc_zoom_v3 (packet_mdh_bytes_for_mask preset_masks.webrtc_zoom_v3 quiet_rng) (zeros 8)
    (zeros 40) 7
  = assemble_packet_into preset_masks.webrtc_zoom_v3
      (packet_mdh_bytes_for_mask preset_masks.webrtc_zoom_v3 quiet_rng) (zeros 8) (zeros 40) 7.
Proof.
  apply (engine_assembly preset_masks.webrtc_zoom_v3
    (packet_mdh_bytes_for_mask preset_masks.webrtc_zoom_v3 quiet_rng) (zeros 8) (zeros 40) 7).
  vm_compute. congruence.
Defined.

Lemma payload_fits_witness :
  exists packet, build_packet preset_masks.webrtc_zoom_v3 fixed_shape (build_inner_packet InnerType.Data 7 [1; 2; 3])
    plain_keys 9 None quiet_draws 500 = (10, Ok packet).
Proof.
  destruct (payload_fits ltac:(by eexists) preset_masks.webrtc_zoom_v3 fixed_shape InnerType.Data 7 [1; 2; 3]
    plain_keys 9 quiet_draws 500 1400) as (packet & H & _ & _); [..|by exists packet].
  - unfold mask_ok, u16_ok. split_and!; cbn; try lia. intros spec [= <-]. repeat constructor; cbn; lia.
  - reflexivity.
  - apply quiet_rng_ok.
  - intros _. vm_compute. intuition congruence.
  - intros n. apply length_zeros.
  - vm_compute. intuition congruence.
  - vm_compute. intuition congruence.
  - apply fixed_shape_ok.
  - vm_compute. reflexivity.
  - vm_compute. congruence.
Defined.
