(* ===== verification/ClientReceive.v ===== *)
(** * What a client accepts

    Theorems about the receive side of [ClientWire]: the window is the set of the
    counters marked in it, cut to the newest 256; no packet is accepted twice
    whatever arrives in whatever layout, and the recovery search after losses does
    not change that; the search stays within its quota; no packet makes the client
    panic. *)

From S2P Require Import Prelude Bitmap Protocol NetworkConfig Control Crypto Mask ClientWire.
Local Open Scope Z_scope.
Import RecvWindow.

(** ** The window as a set *)

(** The window stands for the counters [seen]: exactly those within 256 of the
    highest have their bit. *)
Definition represents (w : t) (seen : list Z) : Prop :=
  Bits.ok (bitmap w) /\
  match highest w with
  | None => seen = []
  | Some h => h ∈ seen /\ (forall x, x ∈ seen -> x <= h) /\
      forall d, 0 <= d < RECV_REORDER_WINDOW -> Bitset256.get_bit (bitmap w) d = bool_decide ((h - d) ∈ seen)
  end.

Lemma represents_new : represents new [].
Proof. split; [apply Bits.new_ok|done]. Qed.

Lemma is_new_spec w seen c :
  represents w seen -> (is_new w c = true <-> (c ∉ seen) /\ forall x, x ∈ seen -> x < c + RECV_REORDER_WINDOW).
Proof.
  unfold represents, is_new, RECV_REORDER_WINDOW. intros [_ Hr]. destruct (highest w) as [h|].
  2:{ subst seen. split; [|done]. intros _. split; [set_solver|]. intros x Hx. set_solver. }
  destruct Hr as (Hh & Hmax & Hbits). destruct (Z.ltb_spec h c) as [Hlt|Hle].
  { split; [|done]. intros _. split; [intros Hin; specialize (Hmax c Hin); lia|].
    intros x Hx. specialize (Hmax x Hx). lia. }
  destruct (Z.leb_spec 256 (h - c)) as [Hfar|Hnear].
  { split; [done|]. intros [_ Hall]. specialize (Hall h Hh). lia. }
  rewrite Hbits by lia. replace (h - (h - c)) with c by lia. rewrite negb_true_iff, bool_decide_eq_false.
  split; [|tauto]. intros Hc. split; [done|]. intros x Hx. specialize (Hmax x Hx). lia.
Qed.

(** What [mark] does to the highest counter and the bits, case by case. *)
Lemma mark_first w c : highest w = None ->
  highest (mark w c) = Some c /\ bitmap (mark w c) = Bitset256.set_bit Bitset256.new 0.
Proof. intros E. unfold mark. by rewrite E. Qed.

Lemma mark_above w c h : highest w = Some h -> h < c ->
  highest (mark w c) = Some c /\
  bitmap (mark w c) = Bitset256.set_bit (Bitset256.shl (bitmap w) (c - h)) 0.
Proof.
  intros E Hlt. unfold mark. rewrite E, (proj2 (Z.ltb_lt h c) Hlt). split; [done|].
  cbn [bitmap clear_authenticated_counter_hint with_hint]. unfold Bitset256.shl, RECV_REORDER_WINDOW.
  by destruct (Z.leb_spec 256 (c - h)).
Qed.

Lemma mark_below w c h : highest w = Some h -> c <= h ->
  highest (mark w c) = Some h /\
  bitmap (mark w c) = if h - c <? RECV_REORDER_WINDOW then Bitset256.set_bit (bitmap w) (h - c) else bitmap w.
Proof.
  intros E Hle. unfold mark. rewrite E, (proj2 (Z.ltb_ge h c) Hle). cbn [default from_option id].
  by destruct (_ <? _).
Qed.

Lemma mark_represents w seen c : represents w seen -> represents (mark w c) (c :: seen).
Proof.
  unfold represents. intros [Hok Hr]. destruct (highest w) as [h|] eqn:E.
  2:{ subst seen. destruct (mark_first w c E) as [-> ->]. unfold RECV_REORDER_WINDOW.
      split; [apply Bits.set_ok; [apply Bits.new_ok|done]|]. split; [set_solver|].
      split; [set_solver by lia|]. intros d Hd. rewrite Bits.get_set, Bits.get_new, orb_false_r by lia.
      rewrite (bool_decide_ext _ (0 = d)) by (rewrite list_elem_of_singleton; lia). by destruct (Z.eqb_spec 0 d);
        case_bool_decide. }
  destruct Hr as (Hh & Hmax & Hbits). unfold RECV_REORDER_WINDOW in Hbits. destruct (Z.lt_ge_cases h c) as [Hlt|Hle].
  - destruct (mark_above w c h E Hlt) as [-> ->]. unfold RECV_REORDER_WINDOW.
    split; [apply Bits.set_ok; [apply Bits.shl_ok; [done|lia]|done]|]. split; [set_solver|].
    split; [intros x [->|Hx]%elem_of_cons; [done|]; specialize (Hmax x Hx); lia|].
    intros d Hd. rewrite Bits.get_set, Bits.get_shl by (done || lia). replace (d <? 256) with true by lia.
    rewrite andb_true_r. destruct (Z.eqb_spec 0 d) as [<-|Hne]; cbn [orb].
    { symmetry. apply bool_decide_eq_true_2. rewrite Z.sub_0_r. set_solver. }
    destruct (Z.leb_spec (c - h) d); cbn [andb].
    + rewrite Hbits by lia. apply bool_decide_ext. replace (h - (d - (c - h))) with (c - d) by lia.
      rewrite elem_of_cons. split; [auto|intros [?|?]; [lia|done]].
    + symmetry. apply bool_decide_eq_false_2. intros [?|Hx%Hmax]%elem_of_cons; lia.
  - destruct (mark_below w c h E Hle) as [-> ->]. unfold RECV_REORDER_WINDOW.
    split; [destruct (_ <? _); [apply Bits.set_ok; [done|lia]|done]|]. split; [set_solver|].
    split; [intros x [->|Hx]%elem_of_cons; [done|by apply Hmax]|]. intros d Hd.
    assert (Bitset256.get_bit (if h - c <? 256 then Bitset256.set_bit (bitmap w) (h - c) else bitmap w) d
      = (h - c =? d) || Bitset256.get_bit (bitmap w) d) as ->.
    { destruct (Z.ltb_spec (h - c) 256); [apply Bits.get_set; lia|]. by replace (h - c =? d) with false by lia. }
    rewrite Hbits by done. rewrite (bool_decide_ext ((h - d) ∈ c :: seen) (h - c = d \/ (h - d) ∈ seen))
      by (rewrite elem_of_cons; split; intros [?|?]; [left; lia|by right|left; lia|by right]).
    rewrite bool_decide_or. f_equal. by destruct (Z.eqb_spec (h - c) d); case_bool_decide.
Qed.

Lemma marks_represent w seen cs : represents w seen -> represents (fold_left mark cs w) (rev cs ++ seen).
Proof.
  revert w seen. induction cs as [|c cs IH]; intros w seen Hw; [done|]. cbn [fold_left rev].
  rewrite <-app_assoc. apply IH, mark_represents, Hw.
Qed.

(** After any counters have been marked in a fresh window, in any order, a
    counter is new to it exactly when it was not among them and is less than 256
    behind the newest: the two words and the shifts implement the set. *)
Theorem recv_window_is_set cs c :
  is_new (fold_left mark cs new) c = true <->
  (c ∉ cs) /\ forall x, x ∈ cs -> x < c + RECV_REORDER_WINDOW.
Proof.
  rewrite (is_new_spec _ _ c (marks_represent _ _ cs represents_new)), app_nil_r.
  assert (forall x, x ∈ rev cs <-> x ∈ cs) as Hrev by (intros x; rewrite !list_elem_of_In; symmetry; apply in_rev).
  by setoid_rewrite Hrev.
Qed.

(** ** The layouts that are tried *)

Lemma push_new_elem offsets offset x : x ∈ offsets \/ x = offset -> x ∈ push_new offsets offset.
Proof. unfold push_new. case_bool_decide; set_solver. Qed.

(** Every layout of the caller is tried, and the prefixed tag. *)
Lemma layout_order_elem preferred tag_offsets offset :
  offset = u16_max \/ offset ∈ tag_offsets -> offset ∈ layout_order preferred tag_offsets.
Proof.
  unfold layout_order. intros Hin. apply push_new_elem. destruct Hin as [->|Hin]; [by right|]. left.
  set (start := match preferred with Some _ => _ | None => _ end). clearbody start.
  assert (forall l st, offset ∈ st -> offset ∈ fold_left push_new l st) as Hkeep.
  { induction l as [|o l IH]; intros st Hst; [done|]. apply IH, push_new_elem. by left. }
  revert start. induction tag_offsets as [|o tag_offsets IH]; intros start; [set_solver|]. cbn [fold_left].
  apply elem_of_cons in Hin as [->|Hin]; [apply Hkeep, push_new_elem; by right|by apply IH].
Qed.

(** ** The search *)

Section Receive.
Context {PR : Primitives}.

Lemma find_in_sound w secret tw counters tag c :
  find_in w secret tw counters tag = Some c ->
  c ∈ counters /\ is_new w c = true /\ generate_resonance_tag secret c tw = tag.
Proof.
  induction counters as [|x counters IH]; [done|]. cbn [find_in]. destruct (is_new w x) eqn:E; cbn [negb].
  - case_bool_decide as Ht; [intros [= <-]; split; [set_solver|done]|]. intros H. destruct (IH H). set_solver.
  - intros H. destruct (IH H). set_solver.
Qed.

Lemma find_windows_sound w secret tws counters tag c :
  find_windows w secret tws counters tag = Some c ->
  c ∈ counters /\ is_new w c = true /\ exists tw, tw ∈ tws /\ generate_resonance_tag secret c tw = tag.
Proof.
  induction tws as [|tw tws IH]; [done|]. cbn [find_windows].
  destruct (find_in w secret tw counters tag) as [x|] eqn:E.
  - intros [= <-]. apply find_in_sound in E as (? & ? & ?). split; [done|]. split; [done|]. exists tw. set_solver.
  - intros H. destruct (IH H) as (? & ? & tw' & ? & ?). split; [done|]. split; [done|]. exists tw'. set_solver.
Qed.

(** The time windows a tag may come from. *)
Definition tag_windows (ts : Z) : list Z :=
  map (fun tw_offset => wrap64 (compute_time_window ts DEFAULT_WINDOW_MS + tw_offset)) [0; -1; 1].

Lemma find_counter_sound w tag keys bounds ts c :
  find_counter_in_bounds w tag keys bounds ts = Some c ->
  is_new w c = true /\ fst bounds <= c <= snd bounds /\
  exists tw, tw ∈ tag_windows ts /\ generate_resonance_tag (tag_secret keys) c tw = tag.
Proof.
  destruct bounds as [a b]. intros (Hc & Hn & Ht)%find_windows_sound. split; [done|].
  apply elem_of_seqZ in Hc. cbn. split; [lia|done].
Qed.

(** ** One packet *)

(** The part of the window that decides which counters are new. *)
Definition core (w : t) : option Z * Bitset256.t := (highest w, bitmap w).

Lemma is_new_core w w' c : core w = core w' -> is_new w c = is_new w' c.
Proof. intros [= H1 H2]. unfold is_new. by rewrite H1, H2. Qed.

Lemma represents_core w w' seen : core w = core w' -> represents w seen -> represents w' seen.
Proof. intros [= H1 H2]. unfold represents. by rewrite H1, H2. Qed.

Lemma mark_core w w' c : core w = core w' -> core (mark w c) = core (mark w' c).
Proof.
  intros [= H1 H2]. unfold core, mark. rewrite H1, H2.
  destruct (match highest w' with Some _ => _ | None => true end); [done|].
  destruct (_ <? _); cbn; congruence.
Qed.

(** [w'] follows [w] after a call with this outcome: a packet marks its counter,
    which was new; anything else leaves the set alone. *)
Definition follows (w w' : t) (result : outcome DecodedPacket) : Prop :=
  match result with
  | Ok d => is_new w (d_counter d) = true /\ core w' = core (mark w (d_counter d))
  | _ => core w' = core w
  end.

Lemma follows_mark w c d : d_counter d = c -> is_new w c = true -> follows w (mark w c) (Ok d).
Proof. intros <- H. done. Qed.

Lemma follows_core w0 w w' w'' result :
  core w = core w0 -> core w'' = core w' -> follows w w' result -> follows w0 w'' result.
Proof.
  intros H1 H2. unfold follows. destruct result as [d| |].
  - intros [Hn Hm]. rewrite (is_new_core _ _ _ (eq_sym H1)), H2, Hm. split; [done|by apply mark_core].
  - congruence.
  - congruence.
Qed.

Lemma parse_counter counter padded d : parse_downlink_inner counter padded = Ok d -> d_counter d = counter.
Proof.
  unfold parse_downlink_inner. intros H. repeat (case_match; try done); cbn in H.
  all: repeat match goal with
    | H : obind ?m _ = Ok _ |- _ => apply obind_Ok in H as (? & ? & H)
    | H : (if ?b then _ else _) = Ok _ |- _ => destruct b; [done|]
    end; by apply Ok_inj in H as <-.
Qed.

Lemma try_learned_counter f counter lens tried tried' d :
  try_learned f counter lens tried = Ok (tried', Some d) -> d_counter d = counter.
Proof.
  revert tried. induction lens as [|l lens IH]; intros tried; [done|]. cbn [try_learned].
  intros ([| |padded] & _ & H)%obind_Ok; [by eapply IH|by eapply IH|].
  apply obind_Ok in H as (d' & H & [= <- <-]). by eapply parse_counter.
Qed.

Lemma scan_lens_counter f counter known candidates l d :
  scan_lens f counter known candidates = Ok (Some (l, d)) -> d_counter d = counter.
Proof.
  induction candidates as [|x candidates IH]; [done|]. cbn [scan_lens].
  case_bool_decide as Hk; [apply IH|]. intros ([| |padded] & _ & H)%obind_Ok; [by apply IH|by apply IH|].
  destruct (parse_downlink_inner counter padded) as [d'| |] eqn:E; [|by apply IH|done].
  injection H as <- <-. by eapply parse_counter.
Qed.

Lemma one_layout_follows packet keys offset bounds ts s :
  let '(s', result) := decode_downlink_one_layout packet keys offset bounds ts s in
  follows (window s) (window s') result.
Proof.
  unfold decode_downlink_one_layout. destruct (_ <? _); [done|].
  destruct (slice _ _ _) as [tag| |]; [|done|done].
  destruct (match bounds with Some _ => _ | None => _ end) as [counter|] eqn:Hc; [|done].
  assert (is_new (window s) counter = true) as Hnew.
  { destruct bounds as [b|]; [by apply find_counter_sound in Hc as [? _]|].
    unfold find_counter in Hc. by apply find_counter_sound in Hc as [? _]. }
  destruct (try_learned _ _ _ _) as [[tried [d|]]| |] eqn:El; [|..|done|done].
  { apply follows_mark; [by eapply try_learned_counter|done]. }
  destruct (scan_lens _ _ _ _) as [[[l d]|]| |] eqn:Es; [|done|done|done].
  apply follows_mark; [by eapply scan_lens_counter|done].
Qed.

Lemma try_offsets_follows packet keys bounds ts offsets error s :
  let '(s', result) := try_offsets packet keys bounds ts offsets error s in
  follows (window s) (window s') result.
Proof.
  revert error s. induction offsets as [|offset offsets IH]; intros error s; [done|]. cbn [try_offsets].
  pose proof (one_layout_follows packet keys offset bounds ts s) as H.
  destruct (decode_downlink_one_layout _ _ _ _ _ _) as [s1 [d|e|]]; cbn [follows] in H; [|..|done].
  - by apply (follows_core _ (window s) (window s1)).
  - specialize (IH e s1). destruct (try_offsets _ _ _ _ _ _ s1) as [s2 result].
    by apply (follows_core _ (window s1) (window s2)).
Qed.

Lemma reserve_core w now : core (fst (reserve_counter_recovery w now)) = core w.
Proof. unfold reserve_counter_recovery. by repeat case_match. Qed.

Lemma decode_downlink_follows packet keys tag_offsets now ts s :
  let '(s', result) := decode_downlink_with_offsets packet keys tag_offsets now ts s in
  follows (window s) (window s') result.
Proof.
  unfold decode_downlink_with_offsets. set (offsets := layout_order _ _).
  pose proof (try_offsets_follows packet keys None ts offsets (InvalidPacket "Invalid resonance tag") s) as H.
  destruct (try_offsets _ _ _ _ _ _ s) as [s1 [d|e|]]; [done| |done]. cbn [follows] in H.
  destruct (recovery_bounds _ _) as [bounds|]; [|done].
  pose proof (reserve_core (window s1) now) as Hr.
  destruct (reserve_counter_recovery (window s1) now) as [w reserved]. cbn in Hr.
  destruct reserved; [|cbn; congruence].
  pose proof (try_offsets_follows packet keys (Some bounds) ts offsets e {| window := w; mdh_lens := mdh_lens s1 |}) as H2.
  destruct (try_offsets _ _ (Some bounds) _ _ _ _) as [s2 result]. cbn [window] in H2.
  apply (follows_core _ w (window s2)); [congruence|done|done].
Qed.

Lemma decode_layout_follows packet keys w mdh_len tag_offset now ts :
  let '(w', result) := decode_packet_with_layout packet keys w mdh_len tag_offset now ts in
  follows w w' result.
Proof.
  unfold decode_packet_with_layout. destruct (if _ =? _ then _ else _) as [[tag_start ct_start] header_len].
  destruct (_ <? _); [done|]. destruct (slice _ _ _) as [tag| |]; [|done|done].
  set (pair := match find_counter w tag keys ts with Some _ => _ | None => _ end).
  assert (core (fst pair) = core w /\ forall c, snd pair = Some c -> is_new w c = true) as [Hcore Hfound].
  { unfold pair, find_counter. destruct (find_counter_in_bounds w tag keys (search_bounds w) ts) as [c|] eqn:E.
    { split; [done|]. intros ? [= <-]. by apply find_counter_sound in E as [? _]. }
    destruct (recovery_bounds w 1) as [bounds|]; [|done]. pose proof (reserve_core w now) as Hr.
    destruct (reserve_counter_recovery w now) as [w1 [|]]; cbn in Hr |- *; [|done]. split; [done|].
    intros c [Hc _]%find_counter_sound. by rewrite <-(is_new_core w1 w c Hr). }
  clearbody pair. destruct pair as [w1 [c|]]; cbn in Hcore, Hfound; [|done].
  destruct (let! _ := slice_from _ _ in _) as [d| |] eqn:E; [|done|done].
  assert (d_counter d = c) as Hd.
  { apply obind_Ok in E as (? & _ & E). apply obind_Ok in E as (? & _ & E). by eapply parse_counter. }
  apply (follows_core _ w1 (mark w1 c)); [done|done|]. apply follows_mark; [done|].
  rewrite (is_new_core _ _ _ Hcore). by apply Hfound.
Qed.

(** ** Everything a window goes through under one set of keys *)

Inductive event : Type :=
  | Downlink (packet : bytes) (tag_offsets : list Z) (now ts : Z)
  | FixedLayout (packet : bytes) (mdh_len tag_offset now ts : Z)
  | ObserveCounter (counter : Z)
  | NewRecoveryQuota.

(** The state after an event, and the counter of the packet it accepted. *)
Definition receive (keys : SessionKeys) (s : Rx) (e : event) : Rx * list Z :=
  match e with
  | Downlink packet tag_offsets now ts =>
      let '(s, result) := decode_downlink_with_offsets packet keys tag_offsets now ts s in
      (s, match result with Ok d => [d_counter d] | _ => [] end)
  | FixedLayout packet mdh_len tag_offset now ts =>
      let '(w, result) := decode_packet_with_layout packet keys (window s) mdh_len tag_offset now ts in
      ({| window := w; mdh_lens := mdh_lens s |}, match result with Ok d => [d_counter d] | _ => [] end)
  | ObserveCounter counter =>
      ({| window := observe_authenticated_counter (window s) counter; mdh_lens := mdh_lens s |}, [])
  | NewRecoveryQuota =>
      ({| window := begin_counter_recovery_epoch (window s); mdh_lens := mdh_lens s |}, [])
  end.

Fixpoint receive_events (keys : SessionKeys) (s : Rx) (events : list event) : Rx * list Z :=
  match events with
  | [] => (s, [])
  | e :: events =>
      let '(s, now_accepted) := receive keys s e in
      let '(s, later) := receive_events keys s events in
      (s, now_accepted ++ later)
  end.

Lemma receive_represents keys s e seen :
  represents (window s) seen ->
  let '(s', accepted) := receive keys s e in
  represents (window s') (accepted ++ seen) /\ forall c, c ∈ accepted -> c ∉ seen.
Proof.
  intros Hw.
  assert (forall w' result, follows (window s) w' result ->
    let accepted := match result with Ok d => [d_counter d] | _ => [] end in
    represents w' (accepted ++ seen) /\ forall c, c ∈ accepted -> c ∉ seen) as Hstep.
  { intros w' [d| |] Hf; cbn [follows] in Hf |- *; cbn [app].
    - destruct Hf as [Hn Hm]. split; [by eapply represents_core, mark_represents|].
      intros c ->%list_elem_of_singleton. by apply (is_new_spec _ _ _ Hw).
    - split; [by apply (represents_core (window s))|set_solver].
    - split; [by apply (represents_core (window s))|set_solver]. }
  destruct e as [packet tag_offsets now ts|packet mdh_len tag_offset now ts|counter|]; cbn [receive].
  - pose proof (decode_downlink_follows packet keys tag_offsets now ts s) as H.
    destruct (decode_downlink_with_offsets _ _ _ _ _ _) as [s' result]. by apply Hstep.
  - pose proof (decode_layout_follows packet keys (window s) mdh_len tag_offset now ts) as H.
    destruct (decode_packet_with_layout _ _ _ _ _ _ _) as [w' result]. by apply Hstep.
  - split; [by apply (represents_core (window s))|set_solver].
  - split; [by apply (represents_core (window s))|set_solver].
Qed.

Lemma receive_events_fresh keys s events seen :
  represents (window s) seen ->
  NoDup (snd (receive_events keys s events)) /\
  forall c, c ∈ snd (receive_events keys s events) -> c ∉ seen.
Proof.
  revert s seen. induction events as [|e events IH]; intros s seen Hw; [split; [constructor|set_solver]|].
  cbn [receive_events]. pose proof (receive_represents keys s e seen Hw) as Hstep.
  destruct (receive keys s e) as [s1 accepted] eqn:E. destruct Hstep as [Hw1 Hfresh].
  destruct (IH s1 _ Hw1) as [Hnd Hnew]. destruct (receive_events keys s1 events) as [s2 later].
  cbn in Hnd, Hnew |- *. split.
  - apply NoDup_app. split; [|split; [|done]].
    + destruct e; cbn in E; repeat case_match; injection E as <- <-; repeat constructor; set_solver.
    + intros c Hc Hl. specialize (Hnew c Hl). set_solver.
  - intros c [Hc|Hc]%elem_of_app; [by apply Hfresh|]. specialize (Hnew c Hc). set_solver.
Qed.

(** C30: whatever packets arrive on a connection, in whatever layouts, order and
    with whatever losses, hints and recovery searches in between, no counter is
    accepted twice: a recorded downlink packet cannot be replayed to a client. *)
Theorem downlink_no_replay keys lens events :
  NoDup (snd (receive_events keys {| window := new; mdh_lens := lens |} events)).
Proof. apply (receive_events_fresh keys {| window := new; mdh_lens := lens |} events []), represents_new. Qed.

(** ** The recovery quota *)

Lemma mark_last_attempt w c : last_attempt (mark w c) = last_attempt w.
Proof. unfold mark. cbn [last_attempt clear_authenticated_counter_hint with_hint]. by repeat case_match. Qed.

Lemma one_layout_last_attempt packet keys offset bounds ts s :
  last_attempt (window (fst (decode_downlink_one_layout packet keys offset bounds ts s)))
  = last_attempt (window s).
Proof.
  unfold decode_downlink_one_layout. destruct (_ <? _); [done|]. destruct (slice _ _ _) as [tag| |]; [|done|done].
  destruct (match bounds with Some _ => _ | None => _ end) as [counter|]; [|done].
  destruct (try_learned _ _ _ _) as [[tried [d|]]| |]; [apply mark_last_attempt| |done|done].
  destruct (scan_lens _ _ _ _) as [[[l d]|]| |]; [apply mark_last_attempt|done|done|done].
Qed.

Lemma try_offsets_last_attempt packet keys bounds ts offsets error s :
  last_attempt (window (fst (try_offsets packet keys bounds ts offsets error s))) = last_attempt (window s).
Proof.
  revert error s. induction offsets as [|offset offsets IH]; intros error s; [done|]. cbn [try_offsets].
  pose proof (one_layout_last_attempt packet keys offset bounds ts s) as H.
  destruct (decode_downlink_one_layout _ _ _ _ _ _) as [s1 [d|e|]]; cbn in H |- *; [done| |done].
  by rewrite IH.
Qed.

(** The recovery search starts behind the normal one and stays within the quota. *)
Lemma recovery_bounds_quota w layouts a b :
  1 <= layouts <= RECV_RECOVERY_CANDIDATES -> recovery_bounds w layouts = Some (a, b) ->
  a = snd (search_bounds w) + 1 /\ b <= u64_max /\ layouts * (b - a + 1) <= RECV_RECOVERY_CANDIDATES.
Proof.
  unfold recovery_bounds, RECV_RECOVERY_CANDIDATES, sat_add64. intros Hl.
  destruct (opt_max _ _); [|done]. destruct (Z.leb_spec u64_max (snd (search_bounds w))); [done|].
  intros [= <- <-]. split; [done|]. split; [lia|].
  rewrite (Z.max_l layouts 1) by lia. assert (1 <= 65536 / layouts) by (apply Z.div_le_lower_bound; lia).
  rewrite Z.max_l by lia. pose proof (Z.mul_div_le 65536 layouts ltac:(lia)). nia.
Qed.

(** A packet either gets only the normal search, or uses up the recovery
    quota: at least a second after the previous time, and then at most 65,536
    pairs of layout and counter are searched, none beyond the 64-bit counters. So
    a flood of packets with unknown tags costs one wide search per second. *)
Theorem recovery_quota packet keys tag_offsets now ts s :
  let offsets := layout_order (preferred_tag_offset (window s)) tag_offsets in
  len offsets <= RECV_RECOVERY_CANDIDATES ->
  let normal := try_offsets packet keys None ts offsets (InvalidPacket "Invalid resonance tag") s in
  let after := decode_downlink_with_offsets packet keys tag_offsets now ts s in
  last_attempt (window (fst after)) = last_attempt (window s) /\ after = normal \/
  last_attempt (window (fst after)) = Some now /\
  (forall previous, last_attempt (window s) = Some previous -> RECV_RECOVERY_INTERVAL <= now - previous) /\
  exists a b, recovery_bounds (window (fst normal)) (len offsets) = Some (a, b) /\ b <= u64_max /\
    len offsets * (b - a + 1) <= RECV_RECOVERY_CANDIDATES.
Proof.
  intros offsets Hlen normal after. unfold after, decode_downlink_with_offsets. fold offsets. fold normal.
  pose proof (try_offsets_last_attempt packet keys None ts offsets (InvalidPacket "Invalid resonance tag") s) as Hn.
  fold normal in Hn. destruct normal as [s1 [d|e|]]; [by left| |by left]. cbn [fst] in *.
  destruct (recovery_bounds (window s1) (len offsets)) as [[a b]|] eqn:Hb; [|by left].
  assert (1 <= len offsets) as Hone.
  { unfold offsets, layout_order. set (folded := fold_left _ _ _).
    pose proof (push_new_elem folded u16_max u16_max (or_intror eq_refl)) as Hin.
    destruct (push_new folded u16_max); [set_solver|cbn; lia]. }
  unfold reserve_counter_recovery. rewrite Hn. destruct (last_attempt (window s)) as [previous|] eqn:Hp.
  - unfold sat_sub. destruct (Z.ltb_spec (Z.max 0 (now - previous)) RECV_RECOVERY_INTERVAL).
    + left. by destruct s1.
    + right. rewrite try_offsets_last_attempt. split; [done|]. unfold RECV_RECOVERY_INTERVAL in *.
      split; [intros ? [= <-]; lia|]. exists a, b. split; [done|]. by eapply recovery_bounds_quota.
  - right. rewrite try_offsets_last_attempt. split; [done|]. split; [done|]. exists a, b.
    split; [done|]. by eapply recovery_bounds_quota.
Qed.

(** ** No packet makes a client panic *)

Context {PL : PrimitiveLaws}.

(** A header length that the address space allows. *)
Definition len_ok (l : Z) : Prop := 0 <= l <= isize_max.

Lemma parse_downlink_safe counter padded : bytes_ok padded -> safe (parse_downlink_inner counter padded) (fun _ => True).
Proof.
  intros Hok. unfold parse_downlink_inner, InnerHeader.decode. repeat safe_step; done.
Qed.

Lemma attempt_at_safe packet keys counter tag prefix_len tag_start mdh_len :
  bytes_ok packet -> 0 <= prefix_len <= 8 -> len_ok mdh_len ->
  safe (attempt_at packet keys counter tag prefix_len tag_start mdh_len)
    (fun a => match a with Hit padded => bytes_ok padded | _ => True end).
Proof.
  intros Hok Hp Hl. unfold attempt_at, len_ok, isize_max in *. repeat safe_step; try done.
  match goal with |- context [decrypt_session_payload ?k ?d ?c ?t ?e] =>
    pose proof (decrypt_session_payload_safe k d c t e ltac:(assumption)) as Hs;
    by destruct (decrypt_session_payload k d c t e)
  end.
Qed.

Section Attempts.
Context (f : Z -> outcome attempt) (counter : Z).
Context (Hf : forall l, len_ok l -> safe (f l) (fun a => match a with Hit padded => bytes_ok padded | _ => True end)).

Lemma try_learned_safe lens tried : Forall len_ok lens -> safe (try_learned f counter lens tried) (fun _ => True).
Proof.
  intros Hl. revert tried. induction Hl as [|l lens Hl _ IH]; intros tried; [done|]. cbn [try_learned].
  apply safe_bind. eapply safe_mono; [by apply Hf|]. intros [| |padded] Hp; [by apply IH|by apply IH|].
  apply safe_bind. eapply safe_mono; [by apply parse_downlink_safe|done].
Qed.

Lemma scan_lens_safe known candidates :
  Forall len_ok candidates ->
  safe (scan_lens f counter known candidates) (fun r => match r with Some (l, _) => l ∈ candidates | None => True end).
Proof.
  intros Hl. assert (forall l candidates, safe (scan_lens f counter known candidates)
      (fun r => match r with Some (l, _) => l ∈ candidates | None => True end) ->
    safe (scan_lens f counter known candidates)
      (fun r => match r with Some (l', _) => l' ∈ l :: candidates | None => True end)) as Hmono.
  { intros l cs H. eapply safe_mono; [exact H|]. intros [[l' d]|] Hin; [set_solver|done]. }
  induction Hl as [|l candidates Hl _ IH]; [done|]. cbn [scan_lens].
  case_bool_decide; [by apply Hmono|]. apply safe_bind. eapply safe_mono; [by apply Hf|].
  intros [| |padded] Hp; [by apply Hmono|by apply Hmono|].
  pose proof (parse_downlink_safe counter padded Hp) as Hd.
  destruct (parse_downlink_inner counter padded) as [d| |]; [|by apply Hmono|done]. cbn. set_solver.
Qed.
End Attempts.

Lemma one_layout_safe packet keys offset bounds ts s :
  bytes_ok packet -> u16_ok offset -> Forall len_ok (mdh_lens s) ->
  let '(s', result) := decode_downlink_one_layout packet keys offset bounds ts s in
  result <> Panic /\ Forall len_ok (mdh_lens s').
Proof.
  intros Hok Ho Hl. unfold u16_ok, decode_downlink_one_layout, TAG_SIZE in *.
  set (tag_start := if offset =? u16_max then 0 else offset). assert (0 <= tag_start) by (unfold tag_start; case_match; lia).
  destruct (Z.ltb_spec (len packet) (tag_start + 8 + 16)); [done|].
  assert (exists tag, slice packet tag_start (tag_start + 8) = Ok tag) as [tag ->].
  { unfold slice. guard_true. eauto. }
  destruct (match bounds with Some _ => _ | None => _ end) as [counter|]; [|done].
  set (f := attempt_at _ _ _ _ _ _).
  assert (forall l, len_ok l -> safe (f l) (fun a => match a with Hit padded => bytes_ok padded | _ => True end)) as Hf.
  { intros l Hlo. apply attempt_at_safe; [done| |done]. case_match; lia. }
  pose proof (try_learned_safe f counter Hf (mdh_lens s) false Hl) as Hlearned.
  destruct (try_learned f counter (mdh_lens s) false) as [[tried [d|]]| |]; [done| |done|done].
  assert (Forall len_ok (seqZ 0 (MAX_DOWNLINK_MDH_SCAN + 1))) as Hseq.
  { apply Forall_forall. intros x Hx%elem_of_seqZ. unfold len_ok, isize_max, MAX_DOWNLINK_MDH_SCAN in *. lia. }
  pose proof (scan_lens_safe f counter Hf (mdh_lens s) _ Hseq) as Hscan.
  destruct (scan_lens _ _ _ _) as [[[l d]|]| |]; [|done|done|done]. split; [done|]. cbn [mdh_lens].
  constructor; [|done]. rewrite Forall_forall in Hseq. by apply Hseq.
Qed.

Lemma try_offsets_safe packet keys bounds ts offsets error s :
  bytes_ok packet -> Forall u16_ok offsets -> Forall len_ok (mdh_lens s) ->
  let '(s', result) := try_offsets packet keys bounds ts offsets error s in
  result <> Panic /\ Forall len_ok (mdh_lens s').
Proof.
  intros Hok Ho. revert error s. induction Ho as [|offset offsets Hx _ IH]; intros error s Hl; [done|].
  cbn [try_offsets]. pose proof (one_layout_safe packet keys offset bounds ts s Hok Hx Hl) as H.
  destruct (decode_downlink_one_layout _ _ _ _ _ _) as [s1 [d|e|]]; destruct H as [H1 H2]; [done| |done].
  by apply IH.
Qed.

Lemma push_new_ok offsets offset : Forall u16_ok offsets -> u16_ok offset -> Forall u16_ok (push_new offsets offset).
Proof. intros. unfold push_new. case_bool_decide; [done|]. apply Forall_app_2; [done|by constructor]. Qed.

Lemma layout_order_ok preferred tag_offsets :
  Forall u16_ok tag_offsets -> Forall u16_ok (layout_order preferred tag_offsets).
Proof.
  intros Ho. assert (u16_ok u16_max) as Hmax by (unfold u16_ok, u16_max; lia).
  set (start := match preferred with
                | Some p => if (p =? u16_max) || bool_decide (p ∈ tag_offsets) then [p] else []
                | None => []
                end).
  assert (Forall u16_ok start) as Hs.
  { unfold start. destruct preferred as [p|]; [|done]. destruct (_ || _) eqn:E; [|done].
    constructor; [|done]. apply orb_true_iff in E as [->%Z.eqb_eq|Hin%bool_decide_eq_true]; [done|].
    rewrite Forall_forall in Ho. by apply Ho. }
  unfold layout_order. fold start. apply push_new_ok; [|done]. clearbody start. revert start Hs.
  induction Ho as [|o tag_offsets Hx _ IH]; intros start Hs; [done|]. by apply IH, push_new_ok.
Qed.

(** No bytes from the network make the downlink decoder panic, whatever
    masks the caller lists and whatever state earlier packets left. *)
Theorem downlink_decode_safe packet keys tag_offsets now ts s :
  bytes_ok packet -> Forall u16_ok tag_offsets -> Forall len_ok (mdh_lens s) ->
  let '(s', result) := decode_downlink_with_offsets packet keys tag_offsets now ts s in
  result <> Panic /\ Forall len_ok (mdh_lens s').
Proof.
  intros Hok Ho Hl. unfold decode_downlink_with_offsets.
  pose proof (layout_order_ok (preferred_tag_offset (window s)) tag_offsets Ho) as Hord.
  set (offsets := layout_order _ _) in *.
  pose proof (try_offsets_safe packet keys None ts offsets (InvalidPacket "Invalid resonance tag") s Hok Hord Hl) as H.
  destruct (try_offsets _ _ _ _ _ _ s) as [s1 [d|e|]]; [done| |done]. destruct H as [_ Hl1].
  destruct (recovery_bounds _ _) as [bounds|]; [|done].
  destruct (reserve_counter_recovery _ _) as [w [|]]; [|done].
  by apply (try_offsets_safe packet keys (Some bounds) ts offsets e {| window := w; mdh_lens := mdh_lens s1 |}).
Qed.
End Receive.

(** ** Runs *)

#[local] Existing Instance toy_primitives.
#[local] Existing Instance toy_laws.

(** A window that has moved on: an unknown packet starts a recovery. *)
Definition moved_rx : Rx := {| window := mark new 40; mdh_lens := [20] |}.

Lemma recovery_quota_witness :
  last_attempt (window (fst (decode_downlink_with_offsets (zeros 60) plain_keys [8] 90 500 moved_rx))) = None \/
  last_attempt (window (fst (decode_downlink_with_offsets (zeros 60) plain_keys [8] 90 500 moved_rx))) = Some 90.
Proof.
  destruct (recovery_quota (zeros 60) plain_keys [8] 90 500 moved_rx) as [[H _]|[H _]]; [vm_compute; congruence|..].
  - left. exact H.
  - right. exact H.
Defined.

Lemma downlink_decode_safe_witness :
  snd (decode_downlink_with_offsets (zeros 60) plain_keys [8] 90 500 moved_rx) <> Panic.
Proof.
  pose proof (downlink_decode_safe (zeros 60) plain_keys [8] 90 500 moved_rx (bytes_ok_zeros 60)
    ltac:(repeat constructor; vm_compute; congruence) ltac:(repeat constructor; vm_compute; congruence)) as H.
  destruct (decode_downlink_with_offsets (zeros 60) plain_keys [8] 90 500 moved_rx) as [s r]. exact (proj1 H).
Defined.
