(* ===== verification/Session.v ===== *)
(** * Sessions

    Models the per-session state machine of [crates/aivpn-server/src/session.rs]:
    receive counters and the anti-replay window, precomputed tags, the PFS ratchet,
    the inline rekey with its grace period for the previous keys, send counters,
    rate limits and telemetry. The fields of [Session] are grouped by concern;
    masks, the kernel offload bookkeeping and the session table are not part of
    this model.

    [Instant::now()] is the argument [now] in nanoseconds, [current_timestamp_ms()]
    the argument [ts]; key pairs come in as arguments where the code draws random
    ones. *)

From S2P Require Import Prelude Collections Bitmap Protocol ReplayWindow Quality Crypto.
Local Open Scope Z_scope.

Definition REKEY_TAG_LOOKAHEAD : Z := 4096.
Definition REKEY_INTERVAL_SECS : Z := 120.
Definition REKEY_BYTES_THRESHOLD : Z := 64 * 1024 * 1024.
Definition MAX_REKEY_SEND_ATTEMPTS : Z := 5.
Definition REKEY_RETRANSMIT_SECS : Z := 3.
Definition second_ns : Z := 1000000000.
Definition milli_ns : Z := 1000000.
Definition INLINE_REKEY_GRACE_MIN : Z := 20 * second_ns.
Definition QUALITY_REPORT_MIN_INTERVAL : Z := second_ns.
Definition HANDSHAKE_TIMEOUT : Z := 10 * second_ns.

(** ** State *)

(** Receiving under the current keys. *)
Record Inbound : Type := {
  counter : Z;
  received_bitmap : ReplayWindow;
  tag_search_hint : option Z;
  expected_tags : gmap Z bytes;
  tag_window_base : Z;
  tag_window_tw : Z;
}.

(** The previous keys, while their packets may still be in flight. *)
Record Grace : Type := {
  pre_ratchet_tags : gmap Z bytes;
  pre_ratchet_expire : option Z;
  pre_ratchet_monotonic : bool;
  pre_ratchet_counter : Z;
  pre_ratchet_window_base : Z;
  pre_ratchet_received : gset Z;
  pre_ratchet_keys : option SessionKeys;
}.

Record Ratchet : Type := {
  ratcheted_keys : option SessionKeys;
  ratcheted_expected_tags : gmap Z bytes;
  is_ratcheted : bool;
  initial_hello_sends : Z;
  initial_hello_last_sent : option Z;
}.

Record Rekey : Type := {
  pending_rekey_keypair : option KeyPair;
  pending_rekey_attempts : Z;
  last_keyrotate_sent_at : Z;
  last_rekey_at : Z;
  bytes_since_rekey : Z;
}.

Record Outbound : Type := { send_seq : Z; send_counter : Z }.

Record Telemetry : Type := {
  receiver_loss : ReceiverLossWindow;
  receiver_report_sent_at : option Z;
  quality_report_received_at : option Z;
  client_srtt_ms : Z;
}.

Record SimpleCert : Type := { client_pub_key : bytes; expiry_ts : Z; ca_signature : bytes }.

Record Identity : Type := {
  vpn_ip : option Z;
  client_id : option bytes;
  client_admitted : bool;
  kernel_epoch : Z;
  kernel_faulted : bool;
  kernel_prev_epoch : Z;
  is_site_peer : bool;
  is_masked_pool_peer : bool;
  verified_device_pub : option bytes;
  mtls_ok : bool;
  mtls_required : bool;
  mtls_cert : option SimpleCert;
}.

Record Session : Type := {
  removed : bool;
  created_at : Z;
  keys : SessionKeys;
  rx : Inbound;
  grace : Grace;
  ratchet : Ratchet;
  rekey : Rekey;
  tx : Outbound;
  telemetry : Telemetry;
  identity : Identity;
  rtc_retired_offers : list bytes;
}.

Definition with_rx (x : Inbound) (s : Session) : Session :=
  {| removed := removed s; created_at := created_at s; keys := keys s; rx := x; grace := grace s;
     ratchet := ratchet s; rekey := rekey s; tx := tx s; telemetry := telemetry s;
     identity := identity s; rtc_retired_offers := rtc_retired_offers s |}.
Definition with_grace (x : Grace) (s : Session) : Session :=
  {| removed := removed s; created_at := created_at s; keys := keys s; rx := rx s; grace := x;
     ratchet := ratchet s; rekey := rekey s; tx := tx s; telemetry := telemetry s;
     identity := identity s; rtc_retired_offers := rtc_retired_offers s |}.
Definition with_keys (x : SessionKeys) (s : Session) : Session :=
  {| removed := removed s; created_at := created_at s; keys := x; rx := rx s; grace := grace s;
     ratchet := ratchet s; rekey := rekey s; tx := tx s; telemetry := telemetry s;
     identity := identity s; rtc_retired_offers := rtc_retired_offers s |}.
Definition with_ratchet (x : Ratchet) (s : Session) : Session :=
  {| removed := removed s; created_at := created_at s; keys := keys s; rx := rx s; grace := grace s;
     ratchet := x; rekey := rekey s; tx := tx s; telemetry := telemetry s;
     identity := identity s; rtc_retired_offers := rtc_retired_offers s |}.
Definition with_rekey (x : Rekey) (s : Session) : Session :=
  {| removed := removed s; created_at := created_at s; keys := keys s; rx := rx s; grace := grace s;
     ratchet := ratchet s; rekey := x; tx := tx s; telemetry := telemetry s;
     identity := identity s; rtc_retired_offers := rtc_retired_offers s |}.
Definition with_tx (x : Outbound) (s : Session) : Session :=
  {| removed := removed s; created_at := created_at s; keys := keys s; rx := rx s; grace := grace s;
     ratchet := ratchet s; rekey := rekey s; tx := x; telemetry := telemetry s;
     identity := identity s; rtc_retired_offers := rtc_retired_offers s |}.
Definition with_telemetry (x : Telemetry) (s : Session) : Session :=
  {| removed := removed s; created_at := created_at s; keys := keys s; rx := rx s; grace := grace s;
     ratchet := ratchet s; rekey := rekey s; tx := tx s; telemetry := x;
     identity := identity s; rtc_retired_offers := rtc_retired_offers s |}.
Definition with_identity (x : Identity) (s : Session) : Session :=
  {| removed := removed s; created_at := created_at s; keys := keys s; rx := rx s; grace := grace s;
     ratchet := ratchet s; rekey := rekey s; tx := tx s; telemetry := telemetry s;
     identity := x; rtc_retired_offers := rtc_retired_offers s |}.
Definition with_offers (x : list bytes) (s : Session) : Session :=
  {| removed := removed s; created_at := created_at s; keys := keys s; rx := rx s; grace := grace s;
     ratchet := ratchet s; rekey := rekey s; tx := tx s; telemetry := telemetry s;
     identity := identity s; rtc_retired_offers := x |}.

Definition new_session (keys : SessionKeys) (now : Z) : Session := {|
  removed := false; created_at := now; keys := keys;
  rx := {| counter := 0; received_bitmap := default_window; tag_search_hint := None;
           expected_tags := ∅; tag_window_base := 0; tag_window_tw := 0 |};
  grace := {| pre_ratchet_tags := ∅; pre_ratchet_expire := None; pre_ratchet_monotonic := false;
              pre_ratchet_counter := 0; pre_ratchet_window_base := 0; pre_ratchet_received := ∅;
              pre_ratchet_keys := None |};
  ratchet := {| ratcheted_keys := None; ratcheted_expected_tags := ∅; is_ratcheted := false;
                initial_hello_sends := 0; initial_hello_last_sent := None |};
  rekey := {| pending_rekey_keypair := None; pending_rekey_attempts := 0;
              last_keyrotate_sent_at := now; last_rekey_at := now; bytes_since_rekey := 0 |};
  tx := {| send_seq := 0; send_counter := 0 |};
  telemetry := {| receiver_loss := default_loss_window; receiver_report_sent_at := None;
                  quality_report_received_at := None; client_srtt_ms := 0 |};
  identity := {| vpn_ip := None; client_id := None; client_admitted := false;
                 kernel_epoch := 0; kernel_faulted := false; kernel_prev_epoch := 0;
                 is_site_peer := false; is_masked_pool_peer := false; verified_device_pub := None;
                 mtls_ok := true; mtls_required := false; mtls_cert := None |};
  rtc_retired_offers := [];
|}.

(** ** Counters *)

Definition counter_is_fresh (r : Inbound) (c : Z) : bool :=
  (counter r <? c)
  || ((counter r - c <? TAG_WINDOW_SIZE) && negb (get_bit (received_bitmap r) (counter r - c))).

(** [Option::is_some_and] *)
Definition is_some_and {A} (o : option A) (p : A -> bool) : bool :=
  match o with Some a => p a | None => false end.

Definition clear_consumed_tag_hint (r : Inbound) : Inbound :=
  if is_some_and (tag_search_hint r) (fun hint => hint <=? counter r)
  then {| counter := counter r; received_bitmap := received_bitmap r; tag_search_hint := None;
          expected_tags := expected_tags r; tag_window_base := tag_window_base r;
          tag_window_tw := tag_window_tw r |}
  else r.

(** A new counter and bitmap. *)
Definition with_window (r : Inbound) (c : Z) (w : ReplayWindow) : Inbound :=
  {| counter := c; received_bitmap := w; tag_search_hint := tag_search_hint r;
     expected_tags := expected_tags r; tag_window_base := tag_window_base r;
     tag_window_tw := tag_window_tw r |}.

Definition mark_tag_received (r : Inbound) (c : Z) : Inbound :=
  if counter r <? c then
    let shift := c - counter r in
    clear_consumed_tag_hint (with_window r c (set_bit (shift_left (received_bitmap r) shift) 0))
  else
  let bit_index := counter r - c in
  clear_consumed_tag_hint
    (if bit_index <? TAG_WINDOW_SIZE
     then with_window r (counter r) (set_bit (received_bitmap r) bit_index) else r).

Definition absorb_shared_replay (r : Inbound) (hi : Z) (ws : list Z) : Inbound :=
  let '(c, ws) := merge_replay_window (counter r) (ReplayWindow.words (received_bitmap r)) hi ws in
  clear_consumed_tag_hint (with_window r c {| ReplayWindow.words := ws |}).

Definition adopt_shared_replay (r : Inbound) (hi : Z) (ws : list Z) : Inbound :=
  clear_consumed_tag_hint (with_window r hi {| ReplayWindow.words := ws |}).

Definition tag_search_center (r : Inbound) : Z :=
  Z.max (counter r) (default (counter r) (tag_search_hint r)).

Definition pre_ratchet_keys_in_grace (g : Grace) (now : Z) : option SessionKeys :=
  if is_some_and (pre_ratchet_expire g) (fun expire => now <? expire) then pre_ratchet_keys g else None.

Definition authenticated_counter_epoch (s : Session) (c : Z) (authenticated_tag_secret : bytes) (now : Z)
    : option bool :=
  if removed s then None
  else if bool_decide (tag_secret (keys s) = authenticated_tag_secret)
  then (if counter_is_fresh (rx s) c then Some false else None)
  else
  match pre_ratchet_keys_in_grace (grace s) now with
  | None => None
  | Some previous =>
      if bool_decide (tag_secret previous = authenticated_tag_secret)
         && bool_decide (is_Some (pre_ratchet_tags (grace s) !! c))
         && negb (bool_decide (c ∈ pre_ratchet_received (grace s)))
      then Some true else None
  end.

Definition mark_pre_ratchet_received (s : Session) (c : Z) : Session :=
  let g := grace s in
  let r := rx s in
  let inserted := negb (bool_decide (c ∈ pre_ratchet_received g)) in
  let advance := inserted && pre_ratchet_monotonic g in
  let g := {| pre_ratchet_tags := pre_ratchet_tags g; pre_ratchet_expire := pre_ratchet_expire g;
              pre_ratchet_monotonic := pre_ratchet_monotonic g;
              pre_ratchet_counter := if advance then Z.max (pre_ratchet_counter g) c
                                     else pre_ratchet_counter g;
              pre_ratchet_window_base := pre_ratchet_window_base g;
              pre_ratchet_received := {[c]} ∪ pre_ratchet_received g;
              pre_ratchet_keys := pre_ratchet_keys g |} in
  let r := if advance && (counter r <? c)
           then {| counter := counter r; received_bitmap := received_bitmap r;
                   tag_search_hint := Some (Z.max (tag_search_center r) c);
                   expected_tags := expected_tags r; tag_window_base := tag_window_base r;
                   tag_window_tw := tag_window_tw r |}
           else r in
  with_rx r (with_grace g s).

(** ** Tags *)

Section Tags.
Context {PR : Primitives}.

(** The tags of the counters [lo..=hi] in a time window. *)
Definition tag_band (secret : bytes) (tw lo hi : Z) : gmap Z bytes :=
  list_to_map (map (fun c => (c, generate_resonance_tag secret c tw)) (seqZ lo (hi - lo + 1))).

Definition window_fwd (k : Rekey) : Z :=
  TAG_WINDOW_SIZE - 1
  + (if bool_decide (is_Some (pending_rekey_keypair k)) then REKEY_TAG_LOOKAHEAD else 0).

Definition update_tag_window (s : Session) (now ts : Z) : Session :=
  let time_window := compute_time_window ts DEFAULT_WINDOW_MS in
  let r := rx s in
  let center := tag_search_center r in
  let window_start := sat_sub center (TAG_WINDOW_SIZE - 1) in
  let window_end := sat_add64 center (window_fwd (rekey s)) in
  let r := {| counter := counter r; received_bitmap := received_bitmap r;
              tag_search_hint := tag_search_hint r;
              expected_tags := tag_band (tag_secret (keys s)) time_window window_start window_end;
              tag_window_base := center; tag_window_tw := time_window |} in
  let s := with_rx r s in
  let g := grace s in
  match pre_ratchet_keys_in_grace g now with
  | Some previous =>
      if pre_ratchet_monotonic g
         && (128 <=? sat_sub (pre_ratchet_counter g) (pre_ratchet_window_base g))
      then
        let center := pre_ratchet_counter g in
        let start := sat_sub center (TAG_WINDOW_SIZE - 1) in
        let end_ := sat_add64 center (TAG_WINDOW_SIZE - 1 + REKEY_TAG_LOOKAHEAD) in
        with_grace {| pre_ratchet_tags := tag_band (tag_secret previous) time_window start end_;
                      pre_ratchet_expire := pre_ratchet_expire g;
                      pre_ratchet_monotonic := pre_ratchet_monotonic g;
                      pre_ratchet_counter := pre_ratchet_counter g;
                      pre_ratchet_window_base := center;
                      pre_ratchet_received := filter (fun c => start <= c) (pre_ratchet_received g);
                      pre_ratchet_keys := pre_ratchet_keys g |} s
      else s
  | None => s
  end.

Definition refresh_tag_window_if_needed (s : Session) (now ts : Z) : Session * bool :=
  let primary_advanced := 128 <=? sat_sub (tag_search_center (rx s)) (tag_window_base (rx s)) in
  let previous_advanced :=
    pre_ratchet_monotonic (grace s)
    && bool_decide (is_Some (pre_ratchet_keys_in_grace (grace s) now))
    && (128 <=? sat_sub (pre_ratchet_counter (grace s)) (pre_ratchet_window_base (grace s))) in
  if negb primary_advanced && negb previous_advanced then (s, false)
  else (update_tag_window s now ts, true).

Definition is_replay (r : Inbound) (c : Z) : bool :=
  if counter r <? c then false
  else
  let bit_index := counter r - c in
  if TAG_WINDOW_SIZE <=? bit_index then true
  else get_bit (received_bitmap r) bit_index.

(** The first entry that carries the tag. *)
Definition find_tag (l : list (Z * bytes)) (tag : bytes) : option Z :=
  match filter (fun e => snd e = tag) l with
  | (c, _) :: _ => Some c
  | [] => None
  end.

(** The tags of [lo..=hi] computed on the fly, window by window. *)
Fixpoint search_tag (secret : bytes) (tws : list Z) (lo hi : Z) (tag : bytes) : option Z :=
  match tws with
  | [] => None
  | tw :: tws =>
      match find_tag (map (fun c => (c, generate_resonance_tag secret c tw)) (seqZ lo (hi - lo + 1))) tag with
      | Some c => Some c
      | None => search_tag secret tws lo hi tag
      end
  end.

Section Validate.
Context {HI : HashIter}.

Definition validate_tag (s : Session) (tag : bytes) (now ts : Z) : option (Z * bool) :=
  let r := rx s in
  let accept c := if is_replay r c then None else Some (c, false) in
  let center := tag_search_center r in
  let window_start := sat_sub center (TAG_WINDOW_SIZE - 1) in
  let window_end := sat_add64 center (window_fwd (rekey s)) in
  match find_tag (hash_iter (expected_tags r)) tag with
  | Some c => accept c
  | None =>
  let current_tw := compute_time_window ts DEFAULT_WINDOW_MS in
  let tws := filter (fun tw => tw <> tag_window_tw r)
               [current_tw; wrap64 (current_tw - 1); wrap64 (current_tw + 1)] in
  match search_tag (tag_secret (keys s)) tws window_start window_end tag with
  | Some c => accept c
  | None =>
  let old := if is_some_and (pre_ratchet_expire (grace s)) (fun expire => now <? expire)
             then find_tag (hash_iter (pre_ratchet_tags (grace s))) tag else None in
  match old with
  | Some c => if bool_decide (c ∈ pre_ratchet_received (grace s)) then None else Some (c, false)
  | None =>
  if is_ratcheted (ratchet s) then None
  else
  match find_tag (hash_iter (ratcheted_expected_tags (ratchet s))) tag with
  | Some c => Some (c, true)
  | None =>
      match ratcheted_keys (ratchet s) with
      | None => None
      | Some k =>
          (fun c => (c, true)) <$>
            search_tag (tag_secret k) [wrap64 (current_tw - 1); wrap64 (current_tw + 1)]
              0 (TAG_WINDOW_SIZE - 1) tag
      end
  end
  end
  end
  end.
End Validate.

Definition HANDSHAKE_SKEW_WINDOWS : list Z := [0; -1; 1; -2; 2].

Definition validate_handshake_tag (s : Session) (tag : bytes) (ts : Z) : option (Z * bool) :=
  let base_tw := compute_time_window ts DEFAULT_WINDOW_MS in
  (fun c => (c, false)) <$>
    search_tag (tag_secret (keys s)) (map (fun d => wrap64 (base_tw + d)) HANDSHAKE_SKEW_WINDOWS) 0 16 tag.

Definition update_ratcheted_tag_window (s : Session) (ts : Z) : Session :=
  match ratcheted_keys (ratchet s) with
  | None => s
  | Some k =>
      let time_window := compute_time_window ts DEFAULT_WINDOW_MS in
      let t := ratchet s in
      with_ratchet {| ratcheted_keys := ratcheted_keys t;
                      ratcheted_expected_tags := tag_band (tag_secret k) time_window 0 (TAG_WINDOW_SIZE - 1);
                      is_ratcheted := is_ratcheted t; initial_hello_sends := initial_hello_sends t;
                      initial_hello_last_sent := initial_hello_last_sent t |} s
  end.
End Tags.

(** ** Changing keys *)

Definition rekey_grace (s : Session) : Z :=
  let floor := 2 * second_ns in
  let cap := 30 * second_ns in
  if client_srtt_ms (telemetry s) =? 0 then floor
  else Z.min cap (Z.max floor (client_srtt_ms (telemetry s) * 4 * milli_ns)).

Definition inline_rekey_grace (s : Session) : Z := Z.max (rekey_grace s) INLINE_REKEY_GRACE_MIN.

(** The stale counters of the current epoch, its tags and its deadline. *)
Definition preserve_replay_for_grace (s : Session) (period now : Z) : Session :=
  let r := rx s in
  let g := grace s in
  let stale := filter (fun c => counter_is_fresh r c = false) (dom (expected_tags r)) in
  with_grace {| pre_ratchet_tags := expected_tags r; pre_ratchet_expire := Some (now + period);
                pre_ratchet_monotonic := pre_ratchet_monotonic g;
                pre_ratchet_counter := counter r; pre_ratchet_window_base := tag_window_base r;
                pre_ratchet_received := stale; pre_ratchet_keys := pre_ratchet_keys g |}
    (with_rx {| counter := counter r; received_bitmap := received_bitmap r;
                tag_search_hint := tag_search_hint r; expected_tags := ∅;
                tag_window_base := tag_window_base r; tag_window_tw := tag_window_tw r |} s).

(** [pre_ratchet_keys = Some(replace(keys, new_keys))], with the monotonic flag. *)
Definition install_keys (new_keys : SessionKeys) (monotonic : bool) (s : Session) : Session :=
  let g := grace s in
  with_keys new_keys
    (with_grace {| pre_ratchet_tags := pre_ratchet_tags g; pre_ratchet_expire := pre_ratchet_expire g;
                   pre_ratchet_monotonic := monotonic; pre_ratchet_counter := pre_ratchet_counter g;
                   pre_ratchet_window_base := pre_ratchet_window_base g;
                   pre_ratchet_received := pre_ratchet_received g;
                   pre_ratchet_keys := Some (keys s) |} s).

Definition complete_ratchet (s : Session) (now : Z) : Session :=
  match ratcheted_keys (ratchet s) with
  | None => s
  | Some new_keys =>
      let t := telemetry s in
      let s := with_telemetry {| receiver_loss := reset (receiver_loss t); receiver_report_sent_at := None;
                                 quality_report_received_at := None;
                                 client_srtt_ms := client_srtt_ms t |} s in
      let s := preserve_replay_for_grace s (rekey_grace s) now in
      let s := install_keys new_keys false s in
      let s := with_rx {| counter := 0; received_bitmap := clear (received_bitmap (rx s));
                          tag_search_hint := None;
                          expected_tags := ratcheted_expected_tags (ratchet s);
                          tag_window_base := 0; tag_window_tw := tag_window_tw (rx s) |} s in
      let s := with_tx {| send_seq := send_seq (tx s); send_counter := 0 |} s in
      let t := ratchet s in
      with_ratchet {| ratcheted_keys := None; ratcheted_expected_tags := ∅; is_ratcheted := true;
                      initial_hello_sends := initial_hello_sends t;
                      initial_hello_last_sent := initial_hello_last_sent t |} s
  end.

Section Rekeying.
Context {PR : Primitives}.

(** The body of [SessionManager::start_rekeying_sessions] for one session. *)
Definition start_rekeying (s : Session) (fresh : KeyPair) (now ts : Z) : Session * option bytes :=
  let k := rekey s in
  let time_due := REKEY_INTERVAL_SECS <=? sat_sub now (last_rekey_at k) / second_ns in
  let bytes_due := REKEY_BYTES_THRESHOLD <=? bytes_since_rekey k in
  if negb (is_ratcheted (ratchet s)) then (s, None)
  else if bool_decide (is_Some (pending_rekey_keypair k)) then (s, None)
  else if negb time_due && negb bytes_due then (s, None)
  else
  let s := with_rekey {| pending_rekey_keypair := Some fresh; pending_rekey_attempts := 1;
                         last_keyrotate_sent_at := now; last_rekey_at := last_rekey_at k;
                         bytes_since_rekey := bytes_since_rekey k |} s in
  (update_tag_window s now ts, Some (public_key_bytes fresh)).

(** The body of [SessionManager::rekey_retransmits_due] for one session. *)
Definition rekey_retransmit (s : Session) (now : Z) : Session * option bytes :=
  let k := rekey s in
  match pending_rekey_keypair k with
  | None => (s, None)
  | Some kp =>
      if sat_sub now (last_keyrotate_sent_at k) / second_ns <? REKEY_RETRANSMIT_SECS then (s, None)
      else if pending_rekey_attempts k <? MAX_REKEY_SEND_ATTEMPTS then
        (with_rekey {| pending_rekey_keypair := Some kp;
                       pending_rekey_attempts := pending_rekey_attempts k + 1;
                       last_keyrotate_sent_at := now; last_rekey_at := last_rekey_at k;
                       bytes_since_rekey := bytes_since_rekey k |} s,
         Some (public_key_bytes kp))
      else
        (with_rekey {| pending_rekey_keypair := None; pending_rekey_attempts := 0;
                       last_keyrotate_sent_at := last_keyrotate_sent_at k; last_rekey_at := now;
                       bytes_since_rekey := bytes_since_rekey k |} s,
         None)
  end.

(** [SessionManager::commit_session_rekey] on the session it finds. *)
Definition commit_session_rekey (s : Session) (client_rekey_eph_pub : bytes) (now ts : Z) : Session :=
  let k := rekey s in
  match pending_rekey_keypair k with
  | None => s
  | Some server_rekey_kp =>
      let s := with_rekey {| pending_rekey_keypair := None; pending_rekey_attempts := 0;
                             last_keyrotate_sent_at := last_keyrotate_sent_at k;
                             last_rekey_at := last_rekey_at k;
                             bytes_since_rekey := bytes_since_rekey k |} s in
      match compute_shared server_rekey_kp client_rekey_eph_pub with
      | Ok dh_rekey =>
          let new_keys := derive_session_keys dh_rekey (Some (session_key (keys s))) client_rekey_eph_pub in
          let s := preserve_replay_for_grace s (inline_rekey_grace s) now in
          let s := install_keys new_keys true s in
          let k := rekey s in
          let s := with_rekey {| pending_rekey_keypair := pending_rekey_keypair k;
                                 pending_rekey_attempts := pending_rekey_attempts k;
                                 last_keyrotate_sent_at := last_keyrotate_sent_at k;
                                 last_rekey_at := now; bytes_since_rekey := 0 |} s in
          let t := ratchet s in
          let s := with_ratchet {| ratcheted_keys := ratcheted_keys t; ratcheted_expected_tags := ∅;
                                   is_ratcheted := is_ratcheted t;
                                   initial_hello_sends := initial_hello_sends t;
                                   initial_hello_last_sent := initial_hello_last_sent t |} s in
          update_tag_window s now ts
      | _ => s
      end
  end.
End Rekeying.

(** The purge of an expired grace period in [SessionManager::cleanup_expired]. *)
Definition purge_grace (s : Session) (now : Z) : Session :=
  if is_some_and (pre_ratchet_expire (grace s)) (fun expire => expire <=? now)
  then with_grace {| pre_ratchet_tags := ∅; pre_ratchet_expire := None; pre_ratchet_monotonic := false;
                     pre_ratchet_counter := 0; pre_ratchet_window_base := 0; pre_ratchet_received := ∅;
                     pre_ratchet_keys := None |} s
  else s.

(** ** Sending *)

Definition next_send_nonce (s : Session) : outcome (Session * (bytes * Z)) :=
  let c := send_counter (tx s) in
  let nonce := le_bytes 8 c ++ zeros 4 in
  if c + 1 <=? u64_max
  then Ok (with_tx {| send_seq := send_seq (tx s); send_counter := c + 1 |} s, (nonce, c))
  else Panic.

Definition next_seq (s : Session) : Session * Z :=
  let seq := send_seq (tx s) in
  (with_tx {| send_seq := wrap32 (seq + 1); send_counter := send_counter (tx s) |} s, seq).

(** ** Limits, identity and telemetry *)

Definition retire_rtc_offer (s : Session) (id : bytes) : Session :=
  if bool_decide (id ∈ rtc_retired_offers s) then s
  else
  let offers := rtc_retired_offers s ++ [id] in
  with_offers (drop (length offers - 64) offers) s.

Definition admit_initial_hello (s : Session) (now : Z) : Session * bool :=
  let t := ratchet s in
  if is_ratcheted t then (s, true)
  else if (16 <=? initial_hello_sends t)
     || (HANDSHAKE_TIMEOUT <=? sat_sub now (created_at s))
     || ((2 <=? initial_hello_sends t)
         && is_some_and (initial_hello_last_sent t) (fun last => sat_sub now last <? 200 * milli_ns))
  then (s, false)
  else (with_ratchet {| ratcheted_keys := ratcheted_keys t;
                        ratcheted_expected_tags := ratcheted_expected_tags t;
                        is_ratcheted := is_ratcheted t;
                        initial_hello_sends := initial_hello_sends t + 1;
                        initial_hello_last_sent := Some now |} s, true).

Definition with_device (i : Identity) (pub : option bytes) : Identity :=
  {| vpn_ip := vpn_ip i; client_id := client_id i; client_admitted := client_admitted i;
     kernel_epoch := kernel_epoch i; kernel_faulted := kernel_faulted i;
     kernel_prev_epoch := kernel_prev_epoch i; is_site_peer := is_site_peer i;
     is_masked_pool_peer := is_masked_pool_peer i; verified_device_pub := pub; mtls_ok := mtls_ok i;
     mtls_required := mtls_required i; mtls_cert := mtls_cert i |}.

Definition with_mtls (i : Identity) (ok required : bool) (cert : option SimpleCert) : Identity :=
  {| vpn_ip := vpn_ip i; client_id := client_id i; client_admitted := client_admitted i;
     kernel_epoch := kernel_epoch i; kernel_faulted := kernel_faulted i;
     kernel_prev_epoch := kernel_prev_epoch i; is_site_peer := is_site_peer i;
     is_masked_pool_peer := is_masked_pool_peer i; verified_device_pub := verified_device_pub i;
     mtls_ok := ok; mtls_required := required; mtls_cert := cert |}.

Definition record_verified_device (s : Session) (static_pub : bytes) : Session * bool :=
  if is_some_and (verified_device_pub (identity s)) (fun key => negb (bool_decide (key = static_pub)))
  then (s, false)
  else (with_identity (with_device (identity s) (Some static_pub)) s, true).

Definition record_mtls_cert (s : Session) (cert : SimpleCert) : Session :=
  let i := identity s in
  with_identity (with_mtls i (mtls_ok i) (mtls_required i) (Some cert)) s.

Definition refresh_mtls_gate (s : Session) (required : bool) (ts : Z) : Session * bool :=
  let i := identity s in
  let ok := negb required
            || is_some_and (mtls_cert i) (fun cert =>
                 bool_decide (verified_device_pub i = Some (client_pub_key cert))
                 && (ts / 1000 <=? expiry_ts cert)) in
  (with_identity (with_mtls i ok required (mtls_cert i)) s, ok).

Definition allows_data_source (s : Session) (source : Z) : bool :=
  bool_decide (vpn_ip (identity s) = Some source).

Definition with_loss (t : Telemetry) (w : ReceiverLossWindow) : Telemetry :=
  {| receiver_loss := w; receiver_report_sent_at := receiver_report_sent_at t;
     quality_report_received_at := quality_report_received_at t; client_srtt_ms := client_srtt_ms t |}.

Definition observe_receiver_counter (s : Session) (c : Z) (previous_epoch : bool) : outcome Session :=
  if is_ratcheted (ratchet s) && (negb previous_epoch || pre_ratchet_monotonic (grace s))
  then let! w := observe (receiver_loss (telemetry s)) c in
       Ok (with_telemetry (with_loss (telemetry s) w) s)
  else Ok s.

Definition accept_quality_report (s : Session) (now : Z) : Session * bool :=
  let t := telemetry s in
  if is_some_and (quality_report_received_at t)
       (fun last => sat_sub now last <? QUALITY_REPORT_MIN_INTERVAL)
  then (s, false)
  else (with_telemetry {| receiver_loss := receiver_loss t;
                          receiver_report_sent_at := receiver_report_sent_at t;
                          quality_report_received_at := Some now;
                          client_srtt_ms := client_srtt_ms t |} s, true).

(** The loss rate of the report, in parts per million; the other fields are 0. *)
Definition receiver_quality_report (s : Session) (observation_complete : bool) (now : Z)
    : outcome (Session * option Z) :=
  let i := identity s in
  let t := telemetry s in
  if negb observation_complete || negb (is_ratcheted (ratchet s)) || negb (client_admitted i)
     || kernel_faulted i || negb (bool_decide (is_Some (client_id i))) || is_site_peer i
     || is_masked_pool_peer i
  then Ok (s, None)
  else
  let! loss := loss_ppm (receiver_loss t) in
  match loss with
  | None => Ok (s, None)
  | Some loss_ppm =>
      if is_some_and (receiver_report_sent_at t)
           (fun last => sat_sub now last <? QUALITY_REPORT_MIN_INTERVAL)
      then Ok (s, None)
      else Ok (with_telemetry {| receiver_loss := receiver_loss t; receiver_report_sent_at := Some now;
                                 quality_report_received_at := quality_report_received_at t;
                                 client_srtt_ms := client_srtt_ms t |} s, Some loss_ppm)
  end.

Definition observe_client_rtt (s : Session) (rtt_ms : Z) : Session :=
  let t := telemetry s in
  let sample := Z.min 60000 (Z.max 1 rtt_ms) in
  let srtt := if client_srtt_ms t =? 0 then sample
              else wrap32 ((client_srtt_ms t * 7 + sample) / 8) in
  with_telemetry {| receiver_loss := receiver_loss t;
                    receiver_report_sent_at := receiver_report_sent_at t;
                    quality_report_received_at := quality_report_received_at t;
                    client_srtt_ms := srtt |} s.

(** ** Opening *)

Definition with_pool_peer (i : Identity) (peer : bool) : Identity :=
  {| vpn_ip := vpn_ip i; client_id := client_id i; client_admitted := client_admitted i;
     kernel_epoch := kernel_epoch i; kernel_faulted := kernel_faulted i;
     kernel_prev_epoch := kernel_prev_epoch i; is_site_peer := is_site_peer i;
     is_masked_pool_peer := peer; verified_device_pub := verified_device_pub i; mtls_ok := mtls_ok i;
     mtls_required := mtls_required i; mtls_cert := mtls_cert i |}.

(** The session of [SessionManager::build_and_insert_session], once the keys are derived. *)
Definition open_session {PR : Primitives} (initial_keys next_keys : SessionKeys) (pool_peer : bool)
    (now ts : Z) : Session :=
  let s := new_session initial_keys now in
  let t := ratchet s in
  let s := with_ratchet {| ratcheted_keys := Some next_keys;
                           ratcheted_expected_tags := ratcheted_expected_tags t;
                           is_ratcheted := is_ratcheted t;
                           initial_hello_sends := initial_hello_sends t;
                           initial_hello_last_sent := initial_hello_last_sent t |} s in
  let s := with_identity (with_pool_peer (identity s) pool_peer) s in
  let s := update_tag_window s now ts in
  update_ratcheted_tag_window s ts.

(** ** The gate of the gateway *)

(** The codes of the kernel for a claim. *)
Definition CLAIM_OK : Z := 0.
Definition CLAIM_DUP : Z := 1.
Definition CLAIM_TOO_OLD : Z := 2.
Definition CLAIM_EPOCH : Z := 3.

(** [true] is [ReplayGate::Deliver]. *)
Definition classify_claim (code : Z) : bool :=
  if code =? CLAIM_OK then true
  else if (code =? CLAIM_DUP) || (code =? CLAIM_TOO_OLD) || (code =? CLAIM_EPOCH) then false
  else false.

(** What [KernelAccel::replay_claim] answers for an epoch and a counter. *)
Inductive claim_answer : Type :=
  | ClaimCode (code : Z)
  | ClaimNoEntry
  | ClaimError.

Definition kernel_claim_deliver (ka : option (Z -> Z -> claim_answer)) (s : Session) (c : Z)
    (previous_epoch : bool) : bool :=
  let i := identity s in
  if kernel_faulted i then false
  else if (if previous_epoch then bool_decide (c ∈ pre_ratchet_received (grace s))
           else negb (counter_is_fresh (rx s) c))
  then false
  else
  match ka with
  | None => true
  | Some replay_claim =>
      let epoch := if previous_epoch then kernel_prev_epoch i else kernel_epoch i in
      if epoch =? 0 then true
      else
      match replay_claim epoch c with
      | ClaimCode code => classify_claim code
      | ClaimNoEntry => kernel_epoch i =? 0
      | ClaimError => false
      end
  end.

Definition insert_pre_received (g : Grace) (c : Z) : Grace :=
  {| pre_ratchet_tags := pre_ratchet_tags g; pre_ratchet_expire := pre_ratchet_expire g;
     pre_ratchet_monotonic := pre_ratchet_monotonic g; pre_ratchet_counter := pre_ratchet_counter g;
     pre_ratchet_window_base := pre_ratchet_window_base g;
     pre_ratchet_received := {[c]} ∪ pre_ratchet_received g; pre_ratchet_keys := pre_ratchet_keys g |}.

Definition kernel_note_rejected (s : Session) (c : Z) (previous_epoch : bool) : Session :=
  if previous_epoch then with_grace (insert_pre_received (grace s) c) s
  else if counter (rx s) <? c then s
  else with_rx (mark_tag_received (rx s) c) s.

(** The replay gate of [handle_packet], without a kernel accelerator, for a packet that the AEAD
    opened with the keys of [secret]: the session after it, and whether the packet goes on. *)
Definition replay_gate (s : Session) (c : Z) (secret : bytes) (now : Z) : Session * bool :=
  match authenticated_counter_epoch s c secret now with
  | None => (s, false)
  | Some previous_epoch =>
      if kernel_claim_deliver None s c previous_epoch then
        (if previous_epoch then mark_pre_ratchet_received s c
         else with_rx (mark_tag_received (rx s) c) s, true)
      else (kernel_note_rejected s c previous_epoch, false)
  end.
