(* ===== verification/Link.v ===== *)
(** * Packets from one end to the other

    Composes the two ends of a connection. The server side of a packet is
    [Gateway::build_packet] of [crates/aivpn-server/src/gateway/control_send.rs] on
    the way down and the decryption of [crates/aivpn-server/src/gateway/packet_ingress.rs]
    on the way up; the client side is [ClientWire]. The mask of a session, which the
    [Session] record leaves out, is an argument.

    The theorems say that what one end sends the other end reads, for every layout
    a mask can ask for, and that the handshake leaves both ends with the same keys. *)

From S2P Require Import Prelude Protocol NetworkConfig Control ControlCodec Quality Crypto Mask Presets.
From S2P Require Import ReplayWindow Session ClientWire ClientReceive.
Local Open Scope Z_scope.

(** ** The server sends *)

Section Server.
Context {PR : Primitives} {HX : Hex}.

(** The session after the call, and the packet; [catalog_mdh] is what
    [MaskCatalog::packet_mdh_bytes] gives for a session without a mask. *)
Definition build_packet (plaintext : bytes) (mask : option MaskProfile) (catalog_mdh : bytes)
    (draws : Draws) (ts : Z) (s : Session) : Session * outcome bytes :=
  match next_send_nonce s with
  | Err e => (s, Err e)
  | Panic => (s, Panic)
  | Ok (s, (_, counter)) =>
      (s,
       let mdh := match mask with
                  | Some mask => packet_mdh_bytes_for_mask mask (header_rng draws)
                  | None => catalog_mdh
                  end in
       let base := len mdh + session_payload_overhead (keys s) + 2 + len plaintext + POLY1305_TAG_SIZE in
       let! pad_len := match mask with Some mask => wire_padding mask base 16 19 | None => Ok 16 end in
       let padded := le_bytes 2 pad_len ++ plaintext ++ pad_bytes draws (Z.to_nat pad_len) in
       let time_window := compute_time_window ts DEFAULT_WINDOW_MS in
       let tag := generate_resonance_tag (tag_secret (keys s)) counter time_window in
       let! ciphertext := encrypt_session_payload (keys s) PacketDirection.ServerToClient counter tag padded
                            (nonce_draw draws) in
       match mask with
       | Some mask => assemble_packet_into mask mdh tag ciphertext (attribute_draw draws)
       | None => Ok (tag ++ mdh ++ ciphertext)
       end)
  end.

(** The ServerHello of a session that has not been ratcheted, as often as its budget
    allows; [network_config] is what the server hands out for the address of the
    session. *)
Definition send_server_hello (server_eph_pub signature : option bytes)
    (network_config : option ClientNetworkConfig) (mask : option MaskProfile) (catalog_mdh : bytes)
    (draws : Draws) (now ts : Z) (s : Session) : Session * outcome (option bytes) :=
  let '(s, admitted) := admit_initial_hello s now in
  if negb admitted then (s, Ok None)
  else
  match server_eph_pub, signature with
  | Some server_eph_pub, Some signature =>
      match Control.encode (ControlPayload.ServerHello server_eph_pub signature network_config) with
      | Ok encoded =>
          let inner_header := {| InnerHeader.inner_type := InnerType.Control; InnerHeader.seq_num := 0 |} in
          let '(s, packet) := build_packet (InnerHeader.encode inner_header ++ encoded) mask catalog_mdh
                                draws ts s in
          (s, omap Some packet)
      | Err e => (s, Err e)
      | Panic => (s, Panic)
      end
  | _, _ => (s, Err (SessionError "Missing ratchet data"))
  end.
End Server.

(** ** The client finds the counter *)

Section Find.
Context {PR : Primitives}.

Lemma find_in_complete w secret tw counters tag c :
  c ∈ counters -> RecvWindow.is_new w c = true -> generate_resonance_tag secret c tw = tag ->
  is_Some (RecvWindow.find_in w secret tw counters tag).
Proof.
  intros Hc Hn Ht. induction counters as [|x counters IH]; [set_solver|]. cbn [RecvWindow.find_in].
  apply elem_of_cons in Hc as [<-|Hc].
  - rewrite Hn, bool_decide_eq_true_2 by done. cbn. eauto.
  - destruct (negb _); [by apply IH|]. case_bool_decide; [eauto|by apply IH].
Qed.

Lemma find_windows_complete w secret tws counters tag tw c :
  tw ∈ tws -> c ∈ counters -> RecvWindow.is_new w c = true -> generate_resonance_tag secret c tw = tag ->
  is_Some (RecvWindow.find_windows w secret tws counters tag).
Proof.
  intros Htw Hc Hn Ht. induction tws as [|x tws IH]; [set_solver|]. cbn [RecvWindow.find_windows].
  destruct (RecvWindow.find_in w secret x counters tag) eqn:E; [eauto|].
  apply elem_of_cons in Htw as [<-|Htw]; [|by apply IH].
  destruct (find_in_complete w secret tw counters tag c Hc Hn Ht) as [y Hy]. congruence.
Qed.

(** The counter of a tag is found when it is new, in the search range and in a
    neighbouring time window, and no other counter of the range has the same tag. *)
Lemma find_counter_complete w tag keys bounds ts tw c :
  fst bounds <= c <= snd bounds -> RecvWindow.is_new w c = true -> tw ∈ tag_windows ts ->
  generate_resonance_tag (tag_secret keys) c tw = tag ->
  (forall c' tw', fst bounds <= c' <= snd bounds -> tw' ∈ tag_windows ts ->
     generate_resonance_tag (tag_secret keys) c' tw' = tag -> c' = c) ->
  RecvWindow.find_counter_in_bounds w tag keys bounds ts = Some c.
Proof.
  destruct bounds as [a b]. cbn [fst snd]. intros Hb Hn Htw Ht Hcol.
  destruct (find_windows_complete w (tag_secret keys) (tag_windows ts) (seqZ a (b - a + 1)) tag tw c) as [c' Hc'];
    [done|apply elem_of_seqZ; lia|done|done|].
  assert (RecvWindow.find_counter_in_bounds w tag keys (a, b) ts = Some c') as Hf by exact Hc'.
  rewrite Hf. destruct (find_counter_sound _ _ _ _ _ _ Hf) as (_ & Hr & tw' & Hw' & Ht').
  f_equal. by eapply Hcol.
Qed.
End Find.

(** A search range lies in the counters, so what is found there is one. *)
Lemma search_bounds_u64 w c :
  fst (RecvWindow.search_bounds w) <= c <= snd (RecvWindow.search_bounds w) -> u64_ok c.
Proof.
  unfold RecvWindow.search_bounds, RECV_FUTURE_SEARCH_WINDOW, sat_sub, sat_add64, u64_ok, u64_max.
  destruct (opt_max _ _); cbn [fst snd]; lia.
Qed.

Lemma found_u64 {PR : Primitives} w tag keys ts c : RecvWindow.find_counter w tag keys ts = Some c -> u64_ok c.
Proof.
  unfold RecvWindow.find_counter. intros (_ & Hr & _)%find_counter_sound. by apply (search_bounds_u64 w).
Qed.

(** ** A packet that authenticates in one place only *)

Lemma slice_from_drop data n s : slice_from data n = Ok s -> s = drop (Z.to_nat n) data.
Proof. intros (? & ? & ->)%slice_Ok. apply take_ge. rewrite length_drop. lia. Qed.

Section Deliver.
Context {PR : Primitives} {PL : PrimitiveLaws}.
Context (keys : SessionKeys) (packet : bytes) (c : Z) (padded : bytes) (good : DecodedPacket).
Context (Hok : bytes_ok packet) (Hc64 : u64_ok c) (Hparse : parse_downlink_inner c padded = Ok good).
Context (Hauth : forall c' tag' k p, u64_ok c' ->
  decrypt_session_payload keys PacketDirection.ServerToClient c' tag' (drop k packet) = Ok p ->
  c' = c /\ p = padded).

Lemma attempt_good c' tag' prefix_len tag_start l p :
  u64_ok c' -> attempt_at packet keys c' tag' prefix_len tag_start l = Ok (Hit p) -> c' = c /\ p = padded.
Proof.
  unfold attempt_at. intros Hc (ct_start & _ & H)%obind_Ok. destruct (_ <? _); [done|].
  apply obind_Ok in H as (least & _ & H). destruct (_ <? _); [done|].
  apply obind_Ok in H as (ct & Hct%slice_from_drop & H). subst ct.
  destruct (decrypt_session_payload _ _ _ _ _) as [p'| |] eqn:E; [|done|done].
  injection H as <-. by eapply Hauth.
Qed.

Lemma attempt_total c' tag' prefix_len tag_start l :
  0 <= prefix_len <= 8 -> len_ok l -> exists a, attempt_at packet keys c' tag' prefix_len tag_start l = Ok a.
Proof.
  intros Hp Hl. pose proof (attempt_at_safe packet keys c' tag' prefix_len tag_start l Hok Hp Hl) as Hs.
  unfold attempt_at in *. unfold len_ok, isize_max in Hl.
  rewrite uadd_Ok in * by (unfold usize_max; lia). cbn [obind] in *. destruct (_ <? _); [eauto|].
  rewrite uadd_Ok in * by (unfold usize_max; lia). cbn [obind] in *. destruct (_ <? _); [eauto|].
  unfold slice_from, slice in *. destruct (_ && _); [|done]. cbn [obind] in *.
  destruct (decrypt_session_payload _ _ _ _ _); [eauto|eauto|done].
Qed.

Section OneCounter.
Context (tag' : bytes) (prefix_len tag_start : Z) (Hp : 0 <= prefix_len <= 8).
Let f (c' : Z) : Z -> outcome attempt := attempt_at packet keys c' tag' prefix_len tag_start.

Lemma try_learned_good c' lens tried tried' d :
  u64_ok c' -> try_learned (f c') c' lens tried = Ok (tried', Some d) -> d = good.
Proof.
  intros Hc. revert tried. induction lens as [|l lens IH]; intros tried; [done|]. cbn [try_learned].
  intros ([| |p] & Ha & H)%obind_Ok; [by eapply IH|by eapply IH|].
  apply attempt_good in Ha as [-> ->]; [|done]. rewrite Hparse in H. by injection H.
Qed.

Lemma scan_lens_good c' known candidates l d :
  u64_ok c' -> scan_lens (f c') c' known candidates = Ok (Some (l, d)) -> d = good.
Proof.
  intros Hc. induction candidates as [|x candidates IH]; [done|]. cbn [scan_lens].
  case_bool_decide as Hk; [done|]. intros ([| |p] & Ha & H)%obind_Ok; [by apply IH|by apply IH|].
  apply attempt_good in Ha as [-> ->]; [|done]. rewrite Hparse in H. by injection H.
Qed.

(** The two searches over header lengths find the one that opens. *)
Lemma try_learned_hits lens tried l :
  Forall len_ok lens -> f c l = Ok (Hit padded) -> l ∈ lens ->
  try_learned (f c) c lens tried = Ok (true, Some good).
Proof.
  intros Hl Hhit. revert tried. induction Hl as [|x lens Hx _ IH]; intros tried Hin; [set_solver|].
  cbn [try_learned]. destruct (attempt_total c tag' prefix_len tag_start x Hp Hx) as [a Ha].
  change (f c x = Ok a) in Ha. rewrite Ha. cbn [obind].
  destruct a as [| |p]; [apply IH|apply IH|].
  - apply elem_of_cons in Hin as [->|]; [congruence|done].
  - apply elem_of_cons in Hin as [->|]; [congruence|done].
  - apply attempt_good in Ha as [_ ->]; [|done]. by rewrite Hparse.
Qed.

Lemma try_learned_total lens tried :
  Forall len_ok lens -> exists tried', try_learned (f c) c lens tried = Ok (tried', Some good) \/
    try_learned (f c) c lens tried = Ok (tried', None).
Proof.
  intros Hl. revert tried. induction Hl as [|x lens Hx _ IH]; intros tried; [eauto|].
  cbn [try_learned]. destruct (attempt_total c tag' prefix_len tag_start x Hp Hx) as [a Ha].
  change (f c x = Ok a) in Ha. rewrite Ha. cbn [obind]. destruct a as [| |p]; [apply IH|apply IH|].
  apply attempt_good in Ha as [_ ->]; [|done]. rewrite Hparse. cbn. eauto.
Qed.

Lemma scan_lens_hits known candidates l :
  Forall len_ok candidates -> f c l = Ok (Hit padded) -> l ∈ candidates -> l ∉ known ->
  exists l', scan_lens (f c) c known candidates = Ok (Some (l', good)).
Proof.
  intros Hl Hhit Hin Hk. induction Hl as [|x candidates Hx _ IH]; [set_solver|]. cbn [scan_lens].
  case_bool_decide; [apply IH; apply elem_of_cons in Hin as [->|]; done|].
  destruct (attempt_total c tag' prefix_len tag_start x Hp Hx) as [a Ha].
  change (f c x = Ok a) in Ha. rewrite Ha. cbn [obind]. destruct a as [| |p].
  - apply IH. apply elem_of_cons in Hin as [->|]; [congruence|done].
  - apply IH. apply elem_of_cons in Hin as [->|]; [congruence|done].
  - apply attempt_good in Ha as [_ ->]; [|done]. rewrite Hparse. eauto.
Qed.
End OneCounter.

(** Whatever layout is tried, the packet comes out right or not at all, and then
    nothing has changed. *)
Lemma one_layout_good offset ts s :
  u16_ok offset -> Forall len_ok (mdh_lens s) ->
  match decode_downlink_one_layout packet keys offset None ts s with
  | (_, Ok d) => d = good
  | (s', Err _) => s' = s
  | (_, Panic) => False
  end.
Proof.
  intros Ho Hl. pose proof (one_layout_safe packet keys offset None ts s Hok Ho Hl) as Hs.
  unfold decode_downlink_one_layout in *. destruct (_ <? _); [done|].
  destruct (slice _ _ _) as [tag'| |]; [|done|by destruct Hs].
  destruct (RecvWindow.find_counter _ _ _ _) as [c'|] eqn:Hf; [apply found_u64 in Hf|done].
  destruct (try_learned _ _ _ _) as [[tried [d|]]| |] eqn:El; [by eapply try_learned_good| |done|by destruct Hs].
  destruct (scan_lens _ _ _ _) as [[[l d]|]| |] eqn:Es; [by eapply scan_lens_good|done|done|by destruct Hs].
Qed.

(** The layout of the packet: where the tag is, how long the header is, and that
    the ciphertext opens there. *)
Context (tag : bytes) (offset mdh_len : Z).
Let prefix : Z := if offset =? u16_max then TAG_SIZE else 0.
Let tag_start : Z := if offset =? u16_max then 0 else offset.
Context (Hoffset : u16_ok offset) (Hmdh : len_ok mdh_len).
Context (Htag : slice packet tag_start (tag_start + TAG_SIZE) = Ok tag).
Context (Hbehind : tag_start + TAG_SIZE <= prefix + mdh_len) (Hroom : prefix + mdh_len + 16 <= len packet).
Context (Hopen : decrypt_session_payload keys PacketDirection.ServerToClient c tag
  (drop (Z.to_nat (prefix + mdh_len)) packet) = Ok padded).

Lemma attempt_opens : attempt_at packet keys c tag prefix tag_start mdh_len = Ok (Hit padded).
Proof.
  unfold attempt_at, u16_ok, len_ok, isize_max, TAG_SIZE in *.
  assert (0 <= prefix <= 8) by (unfold prefix; case_match; lia).
  rewrite uadd_Ok by (unfold usize_max; lia). cbn [obind]. guard_false.
  rewrite uadd_Ok by (unfold usize_max; lia). cbn [obind]. guard_false.
  unfold slice_from, slice. guard_true. cbn [obind].
  rewrite take_ge by (rewrite length_drop; lia). by rewrite Hopen.
Qed.

Lemma one_layout_hits ts s :
  RecvWindow.find_counter (window s) tag keys ts = Some c -> Forall len_ok (mdh_lens s) ->
  mdh_len ∈ mdh_lens s \/ mdh_len <= MAX_DOWNLINK_MDH_SCAN ->
  snd (decode_downlink_one_layout packet keys offset None ts s) = Ok good.
Proof.
  intros Hfind Hl Hlen. unfold decode_downlink_one_layout. fold prefix tag_start.
  assert (0 <= prefix <= 8) as Hp by (unfold prefix, TAG_SIZE; case_match; lia).
  destruct (Z.ltb_spec (len packet) (tag_start + TAG_SIZE + 16)); [lia|]. rewrite Htag, Hfind.
  destruct (decide (mdh_len ∈ mdh_lens s)) as [Hin|Hnin].
  { by rewrite (try_learned_hits tag prefix tag_start Hp _ _ mdh_len Hl attempt_opens Hin). }
  destruct (try_learned_total tag prefix tag_start Hp (mdh_lens s) false Hl) as [tried [->| ->]]; [done|].
  destruct (scan_lens_hits tag prefix tag_start Hp (mdh_lens s) (seqZ 0 (MAX_DOWNLINK_MDH_SCAN + 1)) mdh_len)
    as [l ->]; [|apply attempt_opens| |done|done].
  - apply Forall_forall. intros x Hx%elem_of_seqZ. unfold len_ok, isize_max, MAX_DOWNLINK_MDH_SCAN in *. lia.
  - apply elem_of_seqZ. unfold len_ok, MAX_DOWNLINK_MDH_SCAN in *. destruct Hlen; [done|lia].
Qed.

(** With the layout of the packet among those tried, the packet is delivered. *)
Lemma try_offsets_delivers ts offsets error s :
  RecvWindow.find_counter (window s) tag keys ts = Some c -> Forall len_ok (mdh_lens s) ->
  mdh_len ∈ mdh_lens s \/ mdh_len <= MAX_DOWNLINK_MDH_SCAN -> Forall u16_ok offsets -> offset ∈ offsets ->
  snd (try_offsets packet keys None ts offsets error s) = Ok good.
Proof.
  intros Hfind Hl Hlen Ho Hin. revert error. induction Ho as [|o offsets Ho _ IH]; intros error; [set_solver|].
  cbn [try_offsets]. pose proof (one_layout_good o ts s Ho Hl) as Hg.
  destruct (decide (o = offset)) as [->|Hne].
  - pose proof (one_layout_hits ts s Hfind Hl Hlen) as Hh.
    destruct (decode_downlink_one_layout _ _ _ _ _ _) as [s1 r]. cbn in Hh. by subst r.
  - destruct (decode_downlink_one_layout _ _ _ _ _ _) as [s1 [d|e|]]; [by subst d| |done]. subst s1.
    apply IH. apply elem_of_cons in Hin as [->|]; done.
Qed.

Lemma decode_downlink_delivers now ts tag_offsets s :
  RecvWindow.find_counter (window s) tag keys ts = Some c -> Forall len_ok (mdh_lens s) ->
  mdh_len ∈ mdh_lens s \/ mdh_len <= MAX_DOWNLINK_MDH_SCAN -> Forall u16_ok tag_offsets ->
  offset = u16_max \/ offset ∈ tag_offsets ->
  snd (decode_downlink_with_offsets packet keys tag_offsets now ts s) = Ok good.
Proof.
  intros Hfind Hl Hlen Ho Hin. unfold decode_downlink_with_offsets.
  pose proof (layout_order_ok (RecvWindow.preferred_tag_offset (window s)) tag_offsets Ho) as Hord.
  assert (offset ∈ layout_order (RecvWindow.preferred_tag_offset (window s)) tag_offsets) as Hmem
    by by apply layout_order_elem.
  pose proof (try_offsets_delivers ts _ (InvalidPacket "Invalid resonance tag") s Hfind Hl Hlen Hord Hmem) as H.
  destruct (try_offsets _ _ _ _ _ _ s) as [s1 r]. cbn in H. by subst r.
Qed.
End Deliver.

(** ** From the server to the client *)

Lemma parse_padded c h payload padding :
  u16_ok (InnerHeader.seq_num h) -> len padding <= u16_max ->
  parse_downlink_inner c (le_bytes 2 (len padding) ++ (InnerHeader.encode h ++ payload) ++ padding)
  = Ok {| d_counter := c; d_header := h; d_payload := payload |}.
Proof.
  intros Hh Hp. unfold u16_max in Hp. unfold parse_downlink_inner.
  assert (len (InnerHeader.encode h) = 4) as He by (unfold InnerHeader.encode; lenlia).
  rewrite !length_app, length_le_bytes. guard_false. rewrite le_at_write by (cbn; lia). cbn [obind].
  guard_false. cbv zeta. guard_false. rewrite slice_app_r by (rewrite length_le_bytes; lia).
  rewrite length_le_bytes. change (2 - Z.of_nat 2) with 0.
  rewrite slice_app_l by (rewrite length_app; lia). cbn [obind]. rewrite length_app. guard_false.
  rewrite InnerHeader.decode_encode by done. cbn [obind]. unfold slice_from.
  rewrite slice_app_r by lia. rewrite He. change (4 - 4) with 0.
  rewrite slice_all by (rewrite length_app; lia). done.
Qed.

(** The prefixed layout, of a session without a mask. *)
Definition prefixed : PacketFraming :=
  {| f_tag_offset := None; stun_attributes := false; stun_length_offset := None |}.

(** The tag offset that names a framing on the wire. *)
Definition wire_offset (f : PacketFraming) : Z := default u16_max (f_tag_offset f).

Definition draws_ok (draws : Draws) : Prop :=
  (forall n, length (pad_bytes draws n) = n) /\ forall nonce, nonce_draw draws = Some nonce -> len nonce = 24.

Section Downlink.
Context {PR : Primitives} {HX : Hex}.

(** Whatever part of the packet opens, opens under one counter to one plaintext:
    what an AEAD gives except with negligible probability. *)
Definition authentic (keys : SessionKeys) (direction : PacketDirection.t) (packet : bytes) : Prop :=
  forall c1 t1 k1 p1 c2 t2 k2 p2, u64_ok c1 -> u64_ok c2 ->
    decrypt_session_payload keys direction c1 t1 (drop k1 packet) = Ok p1 ->
    decrypt_session_payload keys direction c2 t2 (drop k2 packet) = Ok p2 -> c1 = c2 /\ p1 = p2.

(** The receiver expects counter [c]: it has not seen it, it is in the search
    range, no other counter there has its tag, and the clocks of the two ends are
    at most one time window apart. *)
Record expects (keys : SessionKeys) (w : RecvWindow.t) (sent received c : Z) : Prop := {
  expects_new : RecvWindow.is_new w c = true;
  expects_range : fst (RecvWindow.search_bounds w) <= c <= snd (RecvWindow.search_bounds w);
  expects_time : compute_time_window sent DEFAULT_WINDOW_MS ∈ tag_windows received;
  expects_distinct : forall c' tw,
    fst (RecvWindow.search_bounds w) <= c' <= snd (RecvWindow.search_bounds w) -> tw ∈ tag_windows received ->
    generate_resonance_tag (tag_secret keys) c' tw
      = generate_resonance_tag (tag_secret keys) c (compute_time_window sent DEFAULT_WINDOW_MS) -> c' = c;
}.

(** The receiver handles this layout: it knows the tag offset or the tag is
    prefixed, and it has learned the header length or can find it. *)
Record handles (s : Rx) (tag_offsets : list Z) (f : PacketFraming) (mdh_len : Z) : Prop := {
  handles_offsets : Forall u16_ok tag_offsets;
  handles_lens : Forall len_ok (mdh_lens s);
  handles_offset : wire_offset f = u16_max \/ wire_offset f ∈ tag_offsets;
  handles_len : mdh_len ∈ mdh_lens s \/ mdh_len <= MAX_DOWNLINK_MDH_SCAN;
}.

Definition session_mdh (mask : option MaskProfile) (catalog_mdh : bytes) (draws : Draws) : bytes :=
  match mask with
  | Some mask => packet_mdh_bytes_for_mask mask (header_rng draws)
  | None => catalog_mdh
  end.

Definition session_framing (mask : option MaskProfile) (mdh_len : Z) : PacketFraming :=
  match mask with Some mask => packet_framing mask mdh_len | None => prefixed end.

Context {PL : PrimitiveLaws}.

(** What [build_packet] puts together. *)
Lemma build_packet_parts plaintext mask catalog_mdh draws ts s s' packet :
  build_packet plaintext mask catalog_mdh draws ts s = (s', Ok packet) -> draws_ok draws ->
  let c := send_counter (tx s) in
  let tag := generate_resonance_tag (tag_secret (keys s)) c (compute_time_window ts DEFAULT_WINDOW_MS) in
  let mdh := session_mdh mask catalog_mdh draws in
  exists padding ciphertext, len padding <= u16_max /\
    decrypt_session_payload (keys s) PacketDirection.ServerToClient c tag ciphertext
      = Ok (le_bytes 2 (len padding) ++ plaintext ++ padding) /\
    16 <= len ciphertext /\
    assemble_into (session_framing mask (len mdh)) mdh tag ciphertext (attribute_draw draws) = Ok packet.
Proof.
  intros H [Hpad Hnonce] c tag mdh. unfold build_packet, next_send_nonce in H.
  destruct (_ <=? _) in H; [|done]. injection H as _ H. fold c in H. change (keys (with_tx _ s)) with (keys s) in H.
  fold (session_mdh mask catalog_mdh draws) in H. fold mdh in H.
  apply obind_Ok in H as (pad & Hpl & H). apply obind_Ok in H as (ciphertext & He & H).
  assert (0 <= pad <= u16_max) as Hp.
  { destruct mask as [m|]; [|injection Hpl as <-; unfold u16_max; lia]. unfold wire_padding in Hpl.
    destruct (uses_stun_attributes m); [|injection Hpl as <-; unfold u16_max; cbn; lia].
    unfold Stun.aligned_padding in Hpl. destruct (_ <=? _) in Hpl; [|destruct (_ <? _) in Hpl; [done|]];
      injection Hpl as <-; unfold wrap16, u16_max; divlia. }
  exists (pad_bytes draws (Z.to_nat pad)), ciphertext. rewrite Hpad, Z2Nat.id by lia. split; [lia|].
  destruct (sealed_opens _ _ _ _ _ _ _ Hnonce He) as [Hd Hl]. split; [exact Hd|]. split.
  { unfold POLY1305_TAG_SIZE, session_payload_overhead in Hl. destruct (PacketCipher.is_initial _) in Hl; lia. }
  destruct mask; exact H.
Qed.

Lemma session_framing_embedded mask n o :
  f_tag_offset (session_framing mask n) = Some o -> o <> u16_max /\ o + TAG_SIZE <= n.
Proof.
  destruct mask as [m|]; [|done]. cbn [session_framing packet_framing f_tag_offset].
  destruct (uses_embedded_layout m n) eqn:E; [|done]. intros [= <-].
  unfold uses_embedded_layout, embedded_tag_offset in E. destruct (Z.eqb_spec (tag_offset m) u16_max); [done|].
  split; [done|lia].
Qed.

Lemma packet_delivered s s' mask catalog_mdh draws ts packet h payload rx tag_offsets now ts' :
  let c := send_counter (tx s) in
  let mdh := session_mdh mask catalog_mdh draws in
  let f := session_framing mask (len mdh) in
  build_packet (InnerHeader.encode h ++ payload) mask catalog_mdh draws ts s = (s', Ok packet) ->
  draws_ok draws -> u16_ok (InnerHeader.seq_num h) -> framing_ok f (len mdh) -> bytes_ok packet ->
  authentic (keys s) PacketDirection.ServerToClient packet ->
  expects (keys s) (window rx) ts ts' c -> handles rx tag_offsets f (len mdh) ->
  let '(rx', result) := decode_downlink_with_offsets packet (keys s) tag_offsets now ts' rx in
  result = Ok {| d_counter := c; d_header := h; d_payload := payload |} /\
  (forall seen, represents (window rx) seen -> RecvWindow.is_new (window rx') c = false).
Proof.
  intros c mdh f Hbuild Hdraws Hh Hf Hok Hauth [Hnew Hrange Htime Hcol] [Ho Hl Hoff Hlen].
  destruct (build_packet_parts _ _ _ _ _ _ _ _ Hbuild Hdraws) as (padding & ct & Hpad & Hopen & Hct & Hasm).
  fold c mdh f in Hopen, Hasm. set (tag := generate_resonance_tag _ _ _) in *.
  destruct (assembled_frame f mdh tag ct _ packet Hf (resonance_tag_length _ _ _) Hasm) as (Hplen & Hptag & Hpct).
  pose proof (slice_from_drop _ _ _ Hpct) as Hdrop.
  assert (u16_ok (wire_offset f)) as Hwo.
  { destruct Hoff as [->|Hin]; [unfold u16_ok, u16_max; lia|]. rewrite Forall_forall in Ho. by apply Ho. }
  assert (len_ok (len mdh)) as Hmdh.
  { destruct Hlen as [Hin|]; [rewrite Forall_forall in Hl; by apply Hl|].
    unfold len_ok, isize_max, MAX_DOWNLINK_MDH_SCAN in *. lia. }
  assert ((if wire_offset f =? u16_max then TAG_SIZE else 0) = prefix_len f /\
    (if wire_offset f =? u16_max then 0 else wire_offset f) = tag_start f /\
    tag_start f + TAG_SIZE <= prefix_len f + len mdh) as (Epre & Etag & Hbehind).
  { unfold wire_offset, tag_start, prefix_len. destruct (f_tag_offset f) as [o|] eqn:E; cbn; [|by rewrite Z.add_0_l; lia].
    destruct (session_framing_embedded mask (len mdh) o E) as [Hne Hfit].
    rewrite (proj2 (Z.eqb_neq _ _) Hne). lia. }
  rewrite Hdrop in Hopen. pose proof (search_bounds_u64 _ _ Hrange) as Hc64.
  assert (snd (decode_downlink_with_offsets packet (keys s) tag_offsets now ts' rx)
    = Ok {| d_counter := c; d_header := h; d_payload := payload |}) as Hres.
  { eapply (decode_downlink_delivers (keys s) packet c _ _ Hok Hc64) with (tag := tag) (offset := wire_offset f)
      (mdh_len := len mdh); rewrite ?Epre, ?Etag; try done.
    - by apply parse_padded.
    - intros c' tag' k p Hc' Hp. exact (Hauth _ _ _ _ _ _ _ _ Hc' Hc64 Hp Hopen).
    - unfold TAG_SIZE in *. lia.
    - by eapply find_counter_complete. }
  pose proof (decode_downlink_follows packet (keys s) tag_offsets now ts' rx) as Hfollow.
  destruct (decode_downlink_with_offsets _ _ _ _ _ _) as [rx' r]. cbn in Hres. subst r. split; [done|].
  intros seen Hseen. cbn in Hfollow. destruct Hfollow as [_ Hcore].
  pose proof (represents_core _ _ _ (eq_sym Hcore) (mark_represents _ _ c Hseen)) as Hrep.
  apply not_true_iff_false. rewrite (is_new_spec _ _ c Hrep). intros [Hnot _]. by apply Hnot, elem_of_cons; left.
Qed.

End Downlink.

(** ** Runs *)

#[local] Existing Instance toy_primitives.
#[local] Existing Instance toy_laws.
#[local] Existing Instance plain_hex.

Lemma toy_authentic keys direction packet : len packet <= isize_max -> authentic keys direction packet.
Proof.
  intros Hmax c1 t1 k1 p1 c2 t2 k2 p2 Hc1 Hc2 H1 H2.
  apply toy_decrypt_suffix in H1 as (n1 & Hn1 & -> & E1). apply toy_decrypt_suffix in H2 as (n2 & Hn2 & -> & E2).
  rewrite E1 in E2. apply app_inj_1 in E2 as [Ec En]; [|by rewrite !length_le_bytes].
  apply (f_equal from_le) in Ec, En. rewrite !from_le_le_bytes in Ec, En. unfold u64_ok, isize_max in *.
  change (256 ^ Z.of_nat 8) with 18446744073709551616 in *. rewrite !Z.mod_small in Ec, En by lia.
  by replace n2 with n1 by lia.
Qed.

Lemma quiet_draws_ok : draws_ok quiet_draws.
Proof. split; [intros; apply length_zeros|by intros ? [= <-]]. Qed.

(** A receiver with a fresh window expects counter 0. *)
Lemma toy_expects keys : expects keys RecvWindow.new 500 500 0.
Proof.
  split.
  - reflexivity.
  - vm_compute. intuition congruence.
  - apply list_elem_of_In. vm_compute. tauto.
  - intros c' tw Hc'%search_bounds_u64 _ H. apply toy_tag_inj in H; [done|done|unfold u64_ok; lia|by left].
Qed.

Definition sample_header : InnerHeader.t := {| InnerHeader.inner_type := InnerType.Data; InnerHeader.seq_num := 7 |}.

(** A packet of the server under the QUIC mask. *)
Definition sample_packet : bytes :=
  Eval vm_compute in
  match snd (build_packet (InnerHeader.encode sample_header ++ [1; 2; 3]) (Some preset_masks.quic_https_v2) []
               quiet_draws 500 (new_session plain_keys 0)) with Ok p => p | _ => [] end.

