(* ===== verification/Uplink.v ===== *)
(** * Packets from the client to the server

    Models how the gateway reads an uplink packet
    ([crates/aivpn-server/src/gateway/packet_ingress.rs]): where a handshake packet
    carries its tag and key, at which offsets the ciphertext may start, under which
    keys it opens, and how the padding is stripped. The client side is the data path
    of [Mimicry] and the builders of [ClientWire].

    The theorems: the server reads what the data path of the clients sends, data and
    handshake packets, in every layout; the handshake leaves both ends with the same
    keys; the second builder of the clients decides the layout by other rules, and a
    mask on which they differ is given. *)

From S2P Require Import Prelude Protocol NetworkConfig Control ControlCodec Quality Crypto Mask Presets.
From S2P Require Import ReplayWindow Session ClientWire ClientReceive Mimicry Link.
Local Open Scope Z_scope.

(** ** The gateway reads a packet *)

Section Ingress.
Context {PR : Primitives} {HX : Hex}.

(** The tag and the client key of a handshake packet, for one candidate mask. *)
Definition read_handshake (mask : MaskProfile) (packet server_public_key : bytes)
    : outcome (option (bytes * bytes)) :=
  let '(_, handshake_mdh_len, eph_offset, eph_len) := packet_layout_for_mask mask in
  let prefix := tag_prefix_len (tag_offset mask) in
  if len packet <? prefix + handshake_mdh_len then Ok None
  else
  let eph_start := prefix + eph_offset in
  if len packet <? eph_start + eph_len then Ok None
  else
  let! tag := extract_tag_for_layout packet (tag_offset mask) in
  match tag with
  | None => Ok None
  | Some tag =>
      let! eph_pub := slice packet eph_start (eph_start + eph_len) in
      if negb (len eph_pub =? 32) then Panic
      else Ok (Some (tag, obfuscate_eph_pub eph_pub server_public_key))
  end.

(** [MaskCatalog::packet_layout] of the primary mask. *)
Definition packet_layout (primary : option MaskProfile) : Z * Z * Z * Z :=
  match primary with None => (20, 52, 20, 32) | Some mask => packet_layout_for_mask mask end.

(** What the lookup of the tag found out about the packet. *)
Record Matched : Type := {
  is_new_session : bool;
  is_ratcheted_tag : bool;
  m_counter : Z;
  m_tag : bytes;
}.

(** Header lengths and tag prefixes of data and handshake packets of the session. *)
Definition session_layout (mask primary : option MaskProfile) : Z * Z * Z * Z :=
  match mask with
  | Some mask =>
      let '(p, h, _, _) := packet_layout_for_mask mask in
      (p, h, effective_tag_prefix_len mask p, effective_tag_prefix_len mask h)
  | None =>
      let '(catalog_mdh_len, catalog_hs_mdh_len, _, _) := packet_layout primary in
      let catalog_tag_offset := match primary with Some p => tag_offset p | None => u16_max end in
      (catalog_mdh_len, catalog_hs_mdh_len, tag_prefix_len catalog_tag_offset, tag_prefix_len catalog_tag_offset)
  end.

(** The offsets of the mask of the session. *)
Definition session_offsets (m : Matched) (session_ratcheted : bool) (packet_len : Z)
    (layout : Z * Z * Z * Z) : list Z :=
  let '(packet_mdh_len, handshake_mdh_len, data_prefix, hs_prefix) := layout in
  let is_pre_ratchet_retry :=
    negb (is_new_session m) && negb (is_ratcheted_tag m)
    && (negb session_ratcheted && (hs_prefix + handshake_mdh_len + 16 <=? packet_len)) in
  if is_new_session m then [hs_prefix + handshake_mdh_len]
  else if is_pre_ratchet_retry && negb (handshake_mdh_len =? packet_mdh_len)
  then [data_prefix + packet_mdh_len; hs_prefix + handshake_mdh_len]
  else [data_prefix + packet_mdh_len].

(** Where the ciphertext of a data packet of this mask starts. *)
Definition data_offset (mask : MaskProfile) : Z :=
  let '(mdh_len, _, _, _) := packet_layout_for_mask mask in
  effective_tag_prefix_len mask mdh_len + mdh_len.

(** The offsets at which the ciphertext may start, in the order they are tried:
    the mask of the session, the pending mask, the primary mask of the catalog. *)
Definition payload_offsets (m : Matched) (session_ratcheted : bool) (packet_len : Z)
    (mask pending primary : option MaskProfile) : list Z :=
  let offsets := session_offsets m session_ratcheted packet_len (session_layout mask primary) in
  let offsets := match pending with
                 | Some mask => push_new offsets (data_offset mask)
                 | None => offsets
                 end in
  let catalog_offset := match primary with
                        | Some mask => data_offset mask
                        | None => let '(catalog_mdh_len, _, _, _) := packet_layout None in
                                  tag_prefix_len u16_max + catalog_mdh_len
                        end in
  push_new offsets catalog_offset.

(** The loop over the offsets: the payload and the last error. *)
Fixpoint open_at (keys : SessionKeys) (m : Matched) (packet : bytes) (offsets : list Z)
    (last_error : option error) : outcome (option (Z * bytes) * option error) :=
  match offsets with
  | [] => Ok (None, last_error)
  | payload_offset :: offsets =>
      if len packet <=? payload_offset then open_at keys m packet offsets last_error
      else
      let! encrypted_payload := slice_from packet payload_offset in
      match decrypt_session_payload keys PacketDirection.ClientToServer (m_counter m) (m_tag m)
              encrypted_payload with
      | Ok padded => Ok (Some (payload_offset, padded), last_error)
      | Err e => open_at keys m packet offsets (Some e)
      | Panic => Panic
      end
  end.

(** What the decryption establishes. *)
Record Opened : Type := {
  o_payload_offset : Z;
  o_padded : bytes;
  o_authenticated_secret : bytes;
  o_initial_packet : bool;
}.

Definition open_payload (s : Session) (m : Matched) (packet : bytes) (offsets : list Z) (now : Z)
    : outcome Opened :=
  let keys := if is_new_session m then keys s
              else if is_ratcheted_tag m
              then default (keys s) (ratcheted_keys (ratchet s))
              else keys s in
  let opened keys '(payload_offset, padded) :=
    {| o_payload_offset := payload_offset; o_padded := padded; o_authenticated_secret := tag_secret keys;
       o_initial_packet := PacketCipher.is_initial (packet_cipher keys) |} in
  let! (decrypted, last_error) := open_at keys m packet offsets None in
  match decrypted with
  | Some found => Ok (opened keys found)
  | None =>
      let failed := Err (default (InvalidPacket "Invalid length") last_error) in
      match pre_ratchet_keys_in_grace (grace s) now with
      | None => failed
      | Some old_keys =>
          let! (decrypted, _) := open_at old_keys m packet offsets None in
          match decrypted with
          | Some found => Ok (opened old_keys found)
          | None => failed
          end
      end
  end.

Definition strip_padding (padded : bytes) : outcome bytes :=
  if len padded <? 2 then Err (InvalidPacket "Decrypted payload too short")
  else
  let! pad_len := le_at 2 padded 0 in
  if len padded <? 2 + pad_len then Err (InvalidPacket "Invalid padding length")
  else slice padded 2 (len padded - pad_len).
End Ingress.

(** ** What the data path of the client puts together *)

Section Client.
Context {PR : Primitives} {PL : PrimitiveLaws} {HX : Hex}.

Lemma any_budget mask keys : packet_budget mask keys <= 1380.
Proof.
  unfold packet_budget, rtc_inner_budget, inner_budget. repeat case_match; vm_compute; discriminate.
Qed.

Lemma wire_padding_bound mask base requested maximum pad :
  0 <= base -> u16_ok requested -> u16_ok maximum ->
  wire_padding mask base requested maximum = Ok pad -> 0 <= pad <= maximum.
Proof.
  intros Hb Hr Hm. unfold wire_padding. destruct (uses_stun_attributes mask).
  - intros H. pose proof (aligned_padding_spec base requested maximum Hb Hr Hm) as Hs. rewrite H in Hs. by destruct Hs as [[Hp _] _].
  - unfold u16_ok in *. intros [= <-]. lia.
Qed.

Lemma engine_parts mask shape plaintext keys counter eph draws ts counter' packet :
  Mimicry.build_packet mask shape plaintext keys counter eph draws ts = (counter', Ok packet) ->
  draws_ok draws -> shape_ok shape ->
  let tag := generate_resonance_tag (tag_secret keys) counter (compute_time_window ts DEFAULT_WINDOW_MS) in
  exists mdh padding ciphertext,
    build_mdh mask eph (header_rng draws) = Ok mdh /\ len padding <= u16_max /\
    decrypt_session_payload keys PacketDirection.ClientToServer counter tag ciphertext
      = Ok (le_bytes 2 (len padding) ++ plaintext ++ padding) /\
    16 <= len ciphertext /\ assemble_packet_into mask mdh tag ciphertext (attribute_draw draws) = Ok packet.
Proof.
  intros H [Hpad Hnonce] Hshape tag. unfold Mimicry.build_packet in H.
  destruct (build_mdh mask eph (header_rng draws)) as [mdh| |] eqn:Hmdh; [|done|done]. cbv zeta in H.
  set (prefix := match embed_tag_offset mask (len mdh) with Some _ => 0 | None => TAG_SIZE end) in H.
  set (base := prefix + len mdh + session_payload_overhead keys + 2 + len plaintext + POLY1305_TAG_SIZE) in H.
  pose proof (any_budget mask keys) as Hbudget.
  assert (0 <= prefix /\ (session_payload_overhead keys = 0 \/ session_payload_overhead keys = 24)) as [Hpre Hover].
  { unfold prefix, TAG_SIZE, session_payload_overhead. split; [destruct (embed_tag_offset _ _); lia|].
    destruct (PacketCipher.is_initial _); lia. }
  destruct (Z.ltb_spec (packet_budget mask keys) base) as [|Hfit]; [done|].
  destruct (wire_padding _ _ _ _) as [pad| |] eqn:Hwp; [|done|done].
  assert (0 <= base) by (unfold base, POLY1305_TAG_SIZE; lia).
  apply wire_padding_bound in Hwp; [|done|apply Hshape|unfold u16_ok, wrap16; apply Z.mod_pos_bound; lia].
  unfold wrap16, sat_sub in Hwp. rewrite Z.mod_small in Hwp by lia.
  destruct (u64_max <=? counter); [done|]. apply (f_equal snd) in H. cbn [snd] in H. fold tag in H.
  apply obind_Ok in H as (ct & Hseal & H). destruct (sealed_opens _ _ _ _ _ _ _ Hnonce Hseal) as [Hopen Hlen].
  rewrite !length_app, length_le_bytes, Hpad in Hlen. unfold base, POLY1305_TAG_SIZE in *.
  exists mdh, (pad_bytes draws (Z.to_nat pad)), ct. rewrite Hpad, Z2Nat.id by lia.
  split; [done|]. split; [unfold u16_max; lia|]. split; [exact Hopen|]. split; [lia|].
  rewrite <-assemble_framed; [exact H|]. unfold u16_max. lia.
Qed.

(** The header of a handshake packet, with the key where the mask wants it. *)
Lemma handshake_header mask eph rng mdh :
  mask_ok mask -> rng_ok rng -> eph_pub_length mask = 32 -> len eph = 32 ->
  build_mdh mask (Some eph) rng = Ok mdh ->
  len mdh = Z.max (mdh_len mask) (eph_pub_offset mask + 32) /\
  slice mdh (eph_pub_offset mask) (eph_pub_offset mask + 32) = Ok eph.
Proof.
  intros Hm Hr Hl He. unfold build_mdh. fold (packet_mdh_bytes_for_mask mask rng).
  pose proof (length_mask_header mask rng Hm Hr) as Hh. rewrite Hl, He. cbv zeta.
  rewrite take_ge by (vm_compute (Z.to_nat _); lia). intros H.
  pose proof (write_at_same _ _ _ _ H) as Hs. rewrite He in Hs. split; [|done].
  rewrite (write_at_length _ _ _ _ H). destruct (Z.ltb_spec (len (packet_mdh_bytes_for_mask mask rng)) (eph_pub_offset mask + 32)).
  - rewrite length_app, length_zeros. lia.
  - lia.
Qed.
End Client.

(** ** The server opens it *)

Lemma strip_padded plaintext padding :
  len padding <= u16_max -> strip_padding (le_bytes 2 (len padding) ++ plaintext ++ padding) = Ok plaintext.
Proof.
  intros Hp. unfold strip_padding, u16_max in *. rewrite !length_app, length_le_bytes. guard_false.
  rewrite le_at_write by (cbn; lia). cbn [obind]. guard_false.
  rewrite slice_app_r by (rewrite length_le_bytes; lia). rewrite length_le_bytes.
  change (2 - Z.of_nat 2) with 0. apply slice_app_l. lia.
Qed.

Section Open.
Context {PR : Primitives} {PL : PrimitiveLaws}.

(** With the start of the ciphertext among the offsets, the payload comes out,
    whatever is tried before it. *)
Lemma open_at_finds keys m packet offsets start padded last_error :
  bytes_ok packet -> authentic keys PacketDirection.ClientToServer packet -> u64_ok (m_counter m) ->
  decrypt_session_payload keys PacketDirection.ClientToServer (m_counter m) (m_tag m)
    (drop (Z.to_nat start) packet) = Ok padded ->
  0 <= start < len packet -> Forall (fun o => 0 <= o) offsets -> start ∈ offsets ->
  exists o e, open_at keys m packet offsets last_error = Ok (Some (o, padded), e).
Proof.
  intros Hok Hauth Hc Hopen Hstart Ho Hin. revert last_error.
  induction Ho as [|o offsets Hpos _ IH]; intros last_error; [set_solver|]. cbn [open_at].
  destruct (Z.leb_spec (len packet) o) as [Hout|Hlt].
  { apply IH. apply elem_of_cons in Hin as [->|]; [lia|done]. }
  destruct (slice_from packet o) as [ct| |] eqn:Hs; [|unfold slice_from, slice in Hs; by destruct (_ && _)|].
  2:{ unfold slice_from, slice in Hs. destruct (_ && _) eqn:E in Hs; [done|lia]. }
  cbn [obind]. pose proof (slice_from_drop _ _ _ Hs) as ->.
  pose proof (decrypt_session_payload_safe keys PacketDirection.ClientToServer (m_counter m) (m_tag m)
    (drop (Z.to_nat o) packet) (Forall_drop _ _ _ Hok)) as Hsafe.
  destruct (decrypt_session_payload _ _ _ _ (drop (Z.to_nat o) packet)) as [p| |] eqn:E; [|..|done].
  - destruct (Hauth _ _ _ _ _ _ _ _ Hc Hc E Hopen) as [_ ->]. eauto.
  - apply IH. apply elem_of_cons in Hin as [->|]; [congruence|done].
Qed.
End Open.

Section Deliver.
Context {PR : Primitives} {PL : PrimitiveLaws} {HX : Hex}.

(** The keys the gateway tries first. *)
Definition expected_keys (s : Session) (m : Matched) : SessionKeys :=
  if is_new_session m then keys s
  else if is_ratcheted_tag m then default (keys s) (ratcheted_keys (ratchet s)) else keys s.

Lemma effective_prefix mask n : effective_tag_prefix_len mask n = prefix_len (packet_framing mask n).
Proof.
  unfold effective_tag_prefix_len, prefix_len, packet_framing. cbn [f_tag_offset]. by destruct (uses_embedded_layout mask n).
Qed.

Lemma push_new_nonneg offsets o : Forall (fun o => 0 <= o) offsets -> 0 <= o -> Forall (fun o => 0 <= o) (push_new offsets o).
Proof. intros. unfold push_new. case_bool_decide; [done|]. apply Forall_app_2; [done|by constructor]. Qed.

Lemma mdh_len_nonneg mask : mask_ok mask -> 0 <= mdh_len mask.
Proof.
  intros (_ & _ & _ & Hw). unfold mdh_len. destruct (header_spec mask) as [spec|]; [|lia].
  specialize (Hw spec eq_refl). unfold HeaderSpec.min_length.
  induction Hw as [|field fs Hf _ IH]; cbn [foldr]; [lia|].
  destruct field; cbn in *; unfold MAX_HEADER_FIELD_LEN; lia.
Qed.

Lemma prefix_nonneg mask n : 0 <= effective_tag_prefix_len mask n.
Proof. rewrite effective_prefix. apply prefix_len_bound. Qed.

Lemma data_offset_nonneg mask : mask_ok mask -> 0 <= data_offset mask.
Proof.
  intros Hm. pose proof (mdh_len_nonneg mask Hm) as H. pose proof (prefix_nonneg mask (mdh_len mask)).
  change (0 <= effective_tag_prefix_len mask (mdh_len mask) + mdh_len mask). lia.
Qed.

(** The header length of the packet, of a data or a handshake packet. *)
Definition packet_header_len (mask : MaskProfile) (handshake : bool) : Z :=
  if handshake then Z.max (mdh_len mask) (eph_pub_offset mask + eph_pub_length mask) else mdh_len mask.

Lemma payload_offsets_session m ratcheted n mask pending primary :
  mask_ok mask -> (forall p, pending = Some p -> mask_ok p) -> (forall p, primary = Some p -> mask_ok p) ->
  let size := packet_header_len mask (is_new_session m) in
  let offsets := payload_offsets m ratcheted n (Some mask) pending primary in
  effective_tag_prefix_len mask size + size ∈ offsets /\ Forall (fun o => 0 <= o) offsets.
Proof.
  intros Hm Hpend Hprim size offsets. unfold offsets, payload_offsets.
  assert (effective_tag_prefix_len mask size + size
      ∈ session_offsets m ratcheted n (session_layout (Some mask) primary) /\
    Forall (fun o => 0 <= o) (session_offsets m ratcheted n (session_layout (Some mask) primary))) as [Hin Hpos].
  { pose proof (mdh_len_nonneg mask Hm). pose proof Hm as (_ & [? _] & [? _] & _).
    unfold session_offsets, session_layout, packet_layout_for_mask, size, packet_header_len. fold (mdh_len mask).
    cbv beta iota zeta. pose proof (prefix_nonneg mask (mdh_len mask)).
    pose proof (prefix_nonneg mask (Z.max (mdh_len mask) (eph_pub_offset mask + eph_pub_length mask))).
    destruct (is_new_session m); [|destruct (_ && negb (_ =? _))]; (split; [set_solver|]); repeat constructor; lia. }
  set (start := session_offsets _ _ _ _) in *. clearbody start.
  set (next := match pending with Some _ => _ | None => start end).
  assert (effective_tag_prefix_len mask size + size ∈ next /\ Forall (fun o => 0 <= o) next) as [Hin' Hpos'].
  { unfold next. destruct pending as [p|]; [|done]. split; [apply push_new_elem; by left|].
    apply push_new_nonneg; [done|]. by apply data_offset_nonneg, Hpend. }
  split; [apply push_new_elem; by left|]. apply push_new_nonneg; [done|].
  destruct primary as [p|]; [by apply data_offset_nonneg, Hprim|by vm_compute].
Qed.

Lemma framing_tag_offset mask n :
  tag_byte_offset (wire_offset (packet_framing mask n)) = tag_start (packet_framing mask n).
Proof.
  unfold tag_byte_offset, wire_offset, tag_start.
  destruct (f_tag_offset (packet_framing mask n)) as [o|] eqn:E; [|done]. cbn.
  destruct (session_framing_embedded (Some mask) n o E) as [Hne _]. by rewrite (proj2 (Z.eqb_neq _ _) Hne).
Qed.

(** What the gateway makes of a packet of the data path. *)
Lemma engine_packet_opens mask shape plaintext ckeys counter eph draws ts counter' packet mdh s m pending primary now :
  Mimicry.build_packet mask shape plaintext ckeys counter eph draws ts = (counter', Ok packet) ->
  build_mdh mask eph (header_rng draws) = Ok mdh ->
  len mdh = packet_header_len mask (is_new_session m) -> framing_ok (packet_framing mask (len mdh)) (len mdh) ->
  mask_ok mask -> (forall p, pending = Some p -> mask_ok p) -> (forall p, primary = Some p -> mask_ok p) ->
  draws_ok draws -> shape_ok shape -> bytes_ok packet ->
  authentic ckeys PacketDirection.ClientToServer packet -> u64_ok counter ->
  let tag := generate_resonance_tag (tag_secret ckeys) counter (compute_time_window ts DEFAULT_WINDOW_MS) in
  expected_keys s m = ckeys -> m_counter m = counter -> m_tag m = tag ->
  extract_tag_for_layout packet (wire_offset (packet_framing mask (len mdh))) = Ok (Some tag) /\
  exists o, open_payload s m packet
      (payload_offsets m (is_ratcheted (ratchet s)) (len packet) (Some mask) pending primary) now = Ok o /\
    strip_padding (o_padded o) = Ok plaintext /\ o_authenticated_secret o = tag_secret ckeys.
Proof.
  intros Hbuild Hmdh Hlen Hf Hm Hpend Hprim Hdraws Hshape Hok Hauth Hc64 tag Hkeys Hc Ht.
  destruct (engine_parts _ _ _ _ _ _ _ _ _ _ Hbuild Hdraws Hshape) as (mdh' & padding & ct & Hmdh' & Hpad & Hopen & Hct & Hasm).
  rewrite Hmdh in Hmdh'. injection Hmdh' as <-. fold tag in Hopen, Hasm.
  unfold assemble_packet_into in Hasm. set (f := packet_framing mask (len mdh)) in *.
  destruct (assembled_frame f mdh tag ct _ packet Hf (resonance_tag_length _ _ _) Hasm) as (Hplen & Hptag & Hpct).
  pose proof (slice_from_drop _ _ _ Hpct) as Hdrop. split.
  - unfold extract_tag_for_layout. rewrite (framing_tag_offset mask (len mdh) : tag_byte_offset (wire_offset f) = tag_start f).
    assert (tag_start f + TAG_SIZE <= len packet) by (apply slice_Ok in Hptag; lia).
    cbv zeta. guard_false. by rewrite Hptag.
  - destruct (payload_offsets_session m (is_ratcheted (ratchet s)) (len packet) mask pending primary Hm Hpend Hprim)
      as [Hin Hpos]. rewrite <-Hlen in Hin. rewrite effective_prefix in Hin. fold f in Hin.
    unfold open_payload. fold (expected_keys s m). rewrite Hkeys. rewrite Hdrop, <-Hc, <-Ht in Hopen.
    pose proof (prefix_len_bound f).
    destruct (open_at_finds ckeys m packet _ (prefix_len f + len mdh) _ None Hok Hauth ltac:(by rewrite Hc) Hopen ltac:(lia) Hpos Hin)
      as (o & e & Hfound). rewrite Hfound. cbn [obind]. eexists. split; [done|]. cbn [o_padded o_authenticated_secret].
    split; [by apply strip_padded|done].
Qed.

(** C8: a data packet of a client is opened by the server, in whatever layout the
    mask of the session asks for and whatever other masks are pending or in the
    catalog: the server reads the tag the client computed, and gets exactly the
    plaintext back under the keys the tag stands for. *)
Theorem uplink_delivered mask shape plaintext ckeys counter draws ts counter' packet s m pending primary now :
  Mimicry.build_packet mask shape plaintext ckeys counter None draws ts = (counter', Ok packet) ->
  mask_ok mask -> (forall p, pending = Some p -> mask_ok p) -> (forall p, primary = Some p -> mask_ok p) ->
  rng_ok (header_rng draws) -> draws_ok draws -> shape_ok shape -> bytes_ok packet ->
  framing_ok (packet_framing mask (mdh_len mask)) (mdh_len mask) ->
  authentic ckeys PacketDirection.ClientToServer packet -> u64_ok counter ->
  let tag := generate_resonance_tag (tag_secret ckeys) counter (compute_time_window ts DEFAULT_WINDOW_MS) in
  is_new_session m = false -> expected_keys s m = ckeys -> m_counter m = counter -> m_tag m = tag ->
  extract_tag_for_layout packet (wire_offset (packet_framing mask (mdh_len mask))) = Ok (Some tag) /\
  exists o, open_payload s m packet
      (payload_offsets m (is_ratcheted (ratchet s)) (len packet) (Some mask) pending primary) now = Ok o /\
    strip_padding (o_padded o) = Ok plaintext /\ o_authenticated_secret o = tag_secret ckeys.
Proof.
  intros Hbuild Hm Hpend Hprim Hrng Hdraws Hshape Hok Hf Hauth Hc64 tag Hnew Hkeys Hc Ht.
  pose proof (length_mask_header mask (header_rng draws) Hm Hrng) as Hl.
  eapply (engine_packet_opens mask shape plaintext ckeys counter None draws ts counter' packet
    (packet_mdh_bytes_for_mask mask (header_rng draws)) s m pending primary now) in Hbuild; try done.
  - by rewrite Hl in Hbuild.
  - by rewrite Hnew.
  - by rewrite Hl.
Qed.

(** Both ends agree on the layout of a handshake packet of this mask: the tag is
    prefixed for both or embedded for both, and the STUN length field does not
    touch the key. *)
Record handshake_mask_ok (mask : MaskProfile) : Prop := {
  hs_mask_ok : mask_ok mask;
  hs_key_len : eph_pub_length mask = 32;
  hs_layout : let n := packet_header_len mask true in
    tag_prefix_len (tag_offset mask) = effective_tag_prefix_len mask n;
  hs_framing : let n := packet_header_len mask true in framing_ok (packet_framing mask n) n;
  hs_clear : forall at_, stun_length_field_offset mask = Some at_ ->
    eph_pub_offset mask + 32 <= at_ \/ at_ + 2 <= eph_pub_offset mask;
}.

(** The key of the handshake is clear of the tag and of the STUN fields. *)
Lemma key_clear mask :
  handshake_mask_ok mask ->
  match f_tag_offset (packet_framing mask (packet_header_len mask true)) with
  | None => True
  | Some offset =>
      (eph_pub_offset mask + 32 <= offset \/ offset + TAG_SIZE <= eph_pub_offset mask) /\
      if stun_attributes (packet_framing mask (packet_header_len mask true))
      then frozen (eph_pub_offset mask) (eph_pub_offset mask + 32)
      else forall at_, stun_length_field_offset mask = Some at_ ->
        eph_pub_offset mask + 32 <= at_ \/ at_ + 2 <= eph_pub_offset mask
  end.
Proof.
  intros [_ H32 _ _ Hclear]. cbn [packet_framing f_tag_offset stun_attributes].
  destruct (uses_embedded_layout mask _) eqn:E; [|done]. split.
  - unfold uses_embedded_layout, tag_overlaps_eph_pub, embedded_tag_offset in E.
    destruct (tag_offset mask =? u16_max); [done|]. rewrite H32 in E. unfold TAG_SIZE in *. lia.
  - cbn [andb]. destruct (uses_stun_attributes mask) eqn:Eu; [|done].
    unfold uses_stun_attributes in Eu. unfold frozen. lia.
Qed.

Lemma handshake_tag_offset mask packet :
  handshake_mask_ok mask ->
  extract_tag_for_layout packet (tag_offset mask) =
  extract_tag_for_layout packet (wire_offset (packet_framing mask (packet_header_len mask true))).
Proof.
  intros [_ _ Hlayout _ _]. cbv zeta in Hlayout. f_equal. unfold wire_offset, packet_framing. cbn [f_tag_offset].
  unfold effective_tag_prefix_len in Hlayout. destruct (uses_embedded_layout mask _); [done|].
  unfold tag_prefix_len, TAG_SIZE in Hlayout. destruct (Z.eqb_spec (tag_offset mask) u16_max); [done|lia].
Qed.

Lemma read_handshake_reads mask mdh tag ct attribute packet eph server_pub :
  handshake_mask_ok mask -> len mdh = packet_header_len mask true ->
  slice mdh (eph_pub_offset mask) (eph_pub_offset mask + 32) = Ok eph -> len tag = TAG_SIZE ->
  assemble_packet_into mask mdh tag ct attribute = Ok packet ->
  read_handshake mask packet server_pub = Ok (Some (tag, obfuscate_eph_pub eph server_pub)).
Proof.
  intros Hhs Hlen Hkey Ht Hasm. pose proof Hhs as [Hm H32 Hlayout Hf _]. cbv zeta in Hlayout, Hf.
  unfold assemble_packet_into in Hasm. rewrite Hlen in Hasm. set (f := packet_framing mask _) in *.
  rewrite <-Hlen in Hf. destruct (assembled_frame f mdh tag ct _ packet Hf Ht Hasm) as (Hplen & Hptag & _).
  unfold read_handshake, packet_layout_for_mask. fold (mdh_len mask). rewrite H32. cbv beta iota zeta.
  assert (tag_prefix_len (tag_offset mask) = prefix_len f) as -> by (rewrite Hlayout; apply effective_prefix).
  rewrite Hlen in Hplen. unfold packet_header_len in Hplen. rewrite H32 in Hplen.
  pose proof Hm as (_ & [Hoff _] & _). guard_false. guard_false.
  rewrite handshake_tag_offset by done. fold f. unfold extract_tag_for_layout.
  rewrite (framing_tag_offset mask _ : tag_byte_offset (wire_offset f) = tag_start f). cbv zeta.
  assert (tag_start f + TAG_SIZE <= len packet) by (apply slice_Ok in Hptag; lia). guard_false.
  rewrite Hptag. cbn [obind]. replace (prefix_len f + eph_pub_offset mask + 32)
    with (prefix_len f + (eph_pub_offset mask + 32)) by lia.
  rewrite (assembled_header f mdh tag ct attribute packet) by
    (done || lia || (rewrite Hlen; unfold packet_header_len; lia) || exact (key_clear mask Hhs)).
  rewrite Hkey. cbn [obind]. pose proof (slice_length _ _ _ _ Hkey). by guard_false.
Qed.

Lemma length_obfuscated keypair server_pub :
  len (public_key_bytes keypair) = 32 -> len (obfuscate_client_eph_pub keypair server_pub) = 32.
Proof.
  intros H. unfold obfuscate_client_eph_pub, obfuscate_eph_pub. rewrite length_zip_with.
  pose proof (derive_key_length "aivpn-eph-obfuscation-v1" server_pub). lia.
Qed.

(** The server reads from a handshake packet of a client the tag and the public
    key of the client, hidden on the wire, and opens its payload. *)
Theorem handshake_read mask shape plaintext ckeys counter keypair server_pub draws ts counter' packet s m pending primary now :
  Mimicry.build_packet mask shape plaintext ckeys counter
    (Some (obfuscate_client_eph_pub keypair server_pub)) draws ts = (counter', Ok packet) ->
  handshake_mask_ok mask -> (forall p, pending = Some p -> mask_ok p) -> (forall p, primary = Some p -> mask_ok p) ->
  rng_ok (header_rng draws) -> draws_ok draws -> shape_ok shape -> bytes_ok packet ->
  len (public_key_bytes keypair) = 32 ->
  authentic ckeys PacketDirection.ClientToServer packet -> u64_ok counter ->
  let tag := generate_resonance_tag (tag_secret ckeys) counter (compute_time_window ts DEFAULT_WINDOW_MS) in
  read_handshake mask packet server_pub = Ok (Some (tag, public_key_bytes keypair)) /\
  (is_new_session m = true -> keys s = ckeys -> m_counter m = counter -> m_tag m = tag ->
   exists o, open_payload s m packet
       (payload_offsets m (is_ratcheted (ratchet s)) (len packet) (Some mask) pending primary) now = Ok o /\
     strip_padding (o_padded o) = Ok plaintext).
Proof.
  intros Hbuild Hhs Hpend Hprim Hrng Hdraws Hshape Hok Hpk Hauth Hc64 tag.
  pose proof Hhs as [Hm H32 _ Hf _]. cbv zeta in Hf.
  set (eph := obfuscate_client_eph_pub keypair server_pub) in *.
  assert (len eph = 32) as Heph by by apply length_obfuscated.
  destruct (engine_parts _ _ _ _ _ _ _ _ _ _ Hbuild Hdraws Hshape) as (mdh & padding & ct & Hmdh & Hpad & Hopen & Hct & Hasm).
  fold tag in Hopen, Hasm. destruct (handshake_header mask eph _ mdh Hm Hrng H32 Heph Hmdh) as [Hlen Hkey].
  assert (len mdh = packet_header_len mask true) as Hlen' by (unfold packet_header_len; rewrite H32; lia).
  split.
  - rewrite (read_handshake_reads mask mdh tag ct _ packet eph server_pub) by
      (done || apply resonance_tag_length). unfold eph, obfuscate_client_eph_pub.
    by rewrite obfuscation_involutive.
  - intros Hnew Hkeys Hc Ht. rewrite <-Hlen' in Hf.
    destruct (engine_packet_opens mask shape plaintext ckeys counter (Some eph) draws ts counter' packet mdh s m
      pending primary now) as [_ (o & Ho & Hs & _)]; try done.
    + by rewrite Hnew.
    + unfold expected_keys. by rewrite Hnew.
    + by exists o.
Qed.
(** ** The packets of the mobile cores

    They put the key behind the header themselves and decide on their own whether the
    tag goes inside. *)

Lemma write_at_app data a src tail out :
  write_at data a src = Ok out -> write_at (data ++ tail) a src = Ok (out ++ tail).
Proof.
  unfold write_at. destruct (_ && _) eqn:E; [|done]. apply andb_true_iff in E as [Ea%Z.leb_le Eb%Z.leb_le].
  intros [= <-]. rewrite length_app. guard_true. f_equal.
  rewrite (take_app_le data), (drop_app_le data) by lia. by rewrite <-!app_assoc.
Qed.

(** Where the key is when a packet carries one. *)
Definition key_behind_header (mask : MaskProfile) (eph : option bytes) : Prop :=
  forall e, eph = Some e -> len e = 32 /\ eph_pub_length mask = 32 /\ eph_pub_offset mask = mdh_len mask.

(** Without an overlap the decision is the one of the mask. *)
Lemma shaped_decision mask eph :
  tag_overlaps_eph_pub mask TAG_SIZE = false -> key_behind_header mask eph -> 0 <= mdh_len mask ->
  (if negb (tag_offset mask =? u16_max) && (tag_offset mask + TAG_SIZE <=? mdh_len mask)
   then Some (tag_offset mask) else None) =
  embed_tag_offset mask (mdh_len mask + len (default [] eph)).
Proof.
  intros Hover Hkey Hn. unfold embed_tag_offset, uses_embedded_layout. rewrite Hover.
  unfold tag_overlaps_eph_pub, embedded_tag_offset in *. destruct (tag_offset mask =? u16_max); [done|].
  cbn [negb andb]. rewrite andb_true_r. destruct eph as [e|]; [|cbn [default length]; by rewrite Z.add_0_r]. destruct (Hkey e eq_refl) as (He & Hl & Ho). change (default [] (Some e)) with e.
  rewrite Hl, Ho in Hover. unfold TAG_SIZE in *.
  destruct (Z.leb_spec (tag_offset mask + 8) (mdh_len mask)), (Z.leb_spec (tag_offset mask + 8) (mdh_len mask + len e));
    try done; exfalso; lia.
Qed.

Lemma shaped_parts keys counter inner eph mask spec draws ts counter' packet :
  build_shaped_mdh_packet keys counter inner eph (mdh_len mask) mask draws ts = (counter', Ok packet) ->
  mask_ok mask -> header_spec mask = Some spec -> rng_ok (header_rng draws) -> draws_ok draws ->
  tag_overlaps_eph_pub mask TAG_SIZE = false -> key_behind_header mask eph -> mdh_len mask + len inner <= 65000 ->
  let tag := generate_resonance_tag (tag_secret keys) counter (compute_time_window ts DEFAULT_WINDOW_MS) in
  exists padding ciphertext, len padding <= 26 /\
    decrypt_session_payload keys PacketDirection.ClientToServer counter tag ciphertext
      = Ok (le_bytes 2 (len padding) ++ inner ++ padding) /\
    assemble_packet_into mask (packet_mdh_bytes_for_mask mask (header_rng draws) ++ default [] eph) tag ciphertext
      (attribute_draw draws) = Ok packet.
Proof.
  intros H Hm Hspec Hrng [Hpad Hnonce] Hover Hkey Hsize tag. pose proof (length_mask_header mask _ Hm Hrng) as Hh.
  pose proof (mdh_len_nonneg mask Hm) as Hn.
  unfold build_shaped_mdh_packet, build_mdh_packet_core in H. destruct (_ && _) in H; [done|].
  set (base := mdh_len mask + _ + _ + _ + _ + _) in H. cbv zeta in H.
  destruct (wire_padding mask base _ 26) as [pad| |] eqn:Hwp; [|done..].
  assert (0 <= base) by (unfold base, session_payload_overhead, POLY1305_TAG_SIZE;
    destruct eph, (PacketCipher.is_initial _); lia).
  apply wire_padding_bound in Hwp; [|done|unfold u16_ok; divlia|unfold u16_ok; lia].
  destruct (counter =? u64_max); [done|]. apply (f_equal snd) in H. cbn [snd] in H. fold tag in H.
  apply obind_Ok in H as (ct & Hseal & H). destruct (sealed_opens _ _ _ _ _ _ _ Hnonce Hseal) as [Hopen Hlen].
  rewrite !length_app, length_le_bytes, Hpad in Hlen. unfold POLY1305_TAG_SIZE in Hlen.
  assert (session_payload_overhead keys <= 24) by (unfold session_payload_overhead; destruct (PacketCipher.is_initial _); lia).
  assert (len (default [] eph) <= 32) by (destruct eph as [e|]; [destruct (Hkey e eq_refl) as [He _]; cbn; lia|done]).
  exists (pad_bytes draws (Z.to_nat pad)), ct. rewrite Hpad, Z2Nat.id by lia. split; [lia|]. split; [exact Hopen|].
  assert (match mask with {| header_spec := Some spec |} => 
    let h := HeaderSpec.generate spec (header_rng draws) in
    if len h <? mdh_len mask then h ++ filler draws (Z.to_nat (mdh_len mask - len h)) else take (Z.to_nat (mdh_len mask)) h
    | _ => filler draws (Z.to_nat (mdh_len mask)) end = packet_mdh_bytes_for_mask mask (header_rng draws)) as Emdh.
  { unfold packet_mdh_bytes_for_mask in *. destruct mask as [id sp tm eo el sg hs tg]. cbn [header_spec] in *. subst hs. cbv zeta.
    guard_false. apply take_ge. lia. }
  cbv zeta in Emdh. rewrite Emdh in H. clear Emdh. set (h := packet_mdh_bytes_for_mask mask (header_rng draws)) in *.
  rewrite <-assemble_framed by (rewrite length_app; unfold u16_max; lia).
  rewrite (shaped_decision mask eph Hover Hkey Hn) in H. unfold assemble.
  rewrite length_app, Nat2Z.inj_add, Hh. apply obind_Ok in H as (head & Hhead & H).
  destruct (embed_tag_offset mask (mdh_len mask + len (default [] eph))) as [off|].
  - rewrite (write_at_app _ _ _ _ _ Hhead). cbn [obind]. by rewrite <-app_assoc.
  - injection Hhead as <-. by rewrite <-!app_assoc in *.
Qed.

(** The handshake packet of a mobile core, which puts the key behind the header
    itself, is read by the server like the one of the desktop client: the server
    finds the tag and the key, as long as the tag of the mask does not overlap the
    key. *)
Theorem mobile_handshake_read mask spec keys counter inner keypair server_pub draws ts counter' packet :
  build_shaped_mdh_packet keys counter inner (Some (obfuscate_client_eph_pub keypair server_pub)) (mdh_len mask) mask
    draws ts = (counter', Ok packet) ->
  handshake_mask_ok mask -> header_spec mask = Some spec -> rng_ok (header_rng draws) -> draws_ok draws ->
  tag_overlaps_eph_pub mask TAG_SIZE = false -> eph_pub_offset mask = mdh_len mask ->
  len (public_key_bytes keypair) = 32 -> mdh_len mask + len inner <= 65000 ->
  read_handshake mask packet server_pub =
    Ok (Some (generate_resonance_tag (tag_secret keys) counter (compute_time_window ts DEFAULT_WINDOW_MS),
              public_key_bytes keypair)).
Proof.
  intros Hbuild Hhs Hspec Hrng Hdraws Hover Hoff Hpk Hsize. pose proof Hhs as [Hm H32 _ _ _].
  set (eph := obfuscate_client_eph_pub keypair server_pub) in *.
  assert (len eph = 32) as Heph by by apply length_obfuscated.
  destruct (shaped_parts _ _ _ _ _ _ _ _ _ _ Hbuild Hm Hspec Hrng Hdraws Hover ltac:(by intros e [= <-]) Hsize)
    as (padding & ct & _ & _ & Hasm).
  pose proof (length_mask_header mask _ Hm Hrng) as Hh. change (default [] (Some eph)) with eph in Hasm.
  assert (slice (packet_mdh_bytes_for_mask mask (header_rng draws) ++ eph) (eph_pub_offset mask) (eph_pub_offset mask + 32)
    = Ok eph) as Hkey.
  { rewrite Hoff, slice_app_r by lia. rewrite Hh, Z.sub_diag.
    replace (mdh_len mask + 32 - mdh_len mask) with (len eph) by lia. by apply slice_all. }
  assert (len (packet_mdh_bytes_for_mask mask (header_rng draws) ++ eph) = packet_header_len mask true) as Hlen
    by (rewrite length_app; unfold packet_header_len; lia).
  rewrite (read_handshake_reads _ _ _ _ _ _ _ server_pub Hhs Hlen Hkey (resonance_tag_length _ _ _) Hasm).
  unfold eph, obfuscate_client_eph_pub. by rewrite obfuscation_involutive.
Qed.
End Deliver.

(** ** Runs *)

#[local] Existing Instance toy_primitives.
#[local] Existing Instance toy_laws.
#[local] Existing Instance plain_hex.

(** A data packet and a handshake packet of a client under the QUIC mask. *)
Definition sample_uplink : bytes :=
  Eval vm_compute in
  match snd (Mimicry.build_packet preset_masks.quic_https_v2 fixed_shape [1; 2; 3] plain_keys 9 None quiet_draws 500)
  with Ok p => p | _ => [] end.

Definition sample_keypair : KeyPair := from_private_key (40 :: zeros 31).

Definition sample_hello : bytes :=
  Eval vm_compute in
  match snd (Mimicry.build_packet preset_masks.quic_https_v2 fixed_shape [1; 2; 3] plain_keys 9
    (Some (obfuscate_client_eph_pub sample_keypair (6 :: zeros 31))) quiet_draws 500) with Ok p => p | _ => [] end.

Lemma quic_ok : mask_ok preset_masks.quic_https_v2.
Proof. unfold mask_ok, u16_ok. split_and!; cbn; try lia. intros spec [= <-]. repeat constructor; cbn; lia. Qed.

Lemma quic_handshake_ok : handshake_mask_ok preset_masks.quic_https_v2.
Proof. split; [apply quic_ok|reflexivity|reflexivity|vm_compute; intuition congruence|discriminate]. Qed.

Definition sample_match (new : bool) : Matched :=
  {| is_new_session := new; is_ratcheted_tag := false; m_counter := 9;
     m_tag := generate_resonance_tag (tag_secret plain_keys) 9 (compute_time_window 500 DEFAULT_WINDOW_MS) |}.

Lemma uplink_delivered_witness :
  exists o, open_payload (new_session plain_keys 0) (sample_match false) sample_uplink
      (payload_offsets (sample_match false) false (len sample_uplink) (Some preset_masks.quic_https_v2) None None) 0 = Ok o /\
    strip_padding (o_padded o) = Ok [1; 2; 3].
Proof.
  destruct (uplink_delivered preset_masks.quic_https_v2 fixed_shape [1; 2; 3] plain_keys 9 quiet_draws 500 10
    sample_uplink (new_session plain_keys 0) (sample_match false) None None 0) as [_ (o & Ho & Hs & _)].
  - vm_compute. reflexivity.
  - apply quic_ok.
  - discriminate.
  - discriminate.
  - apply quiet_rng_ok.
  - apply quiet_draws_ok.
  - apply fixed_shape_ok.
  - by apply bytes_ok_check.
  - vm_compute. intuition congruence.
  - apply toy_authentic. vm_compute. congruence.
  - vm_compute. intuition congruence.
  - reflexivity.
  - reflexivity.
  - reflexivity.
  - reflexivity.
  - exists o. split; [exact Ho|exact Hs].
Defined.

Lemma handshake_read_witness :
  read_handshake preset_masks.quic_https_v2 sample_hello (6 :: zeros 31)
  = Ok (Some (m_tag (sample_match true), public_key_bytes sample_keypair)).
Proof.
  refine (proj1 (handshake_read preset_masks.quic_https_v2 fixed_shape [1; 2; 3] plain_keys 9 sample_keypair
    (6 :: zeros 31) quiet_draws 500 10 sample_hello (new_session plain_keys 0) (sample_match true) None None 0
    _ _ _ _ _ _ _ _ _ _ _)).
  - vm_compute. reflexivity.
  - apply quic_handshake_ok.
  - discriminate.
  - discriminate.
  - apply quiet_rng_ok.
  - apply quiet_draws_ok.
  - apply fixed_shape_ok.
  - by apply bytes_ok_check.
  - reflexivity.
  - apply toy_authentic. vm_compute. congruence.
  - vm_compute. intuition congruence.
Defined.

Lemma mobile_handshake_read_witness :
  exists packet, snd (build_shaped_mdh_packet plain_keys 9 [1; 2; 3] (Some (obfuscate_client_eph_pub sample_keypair (6 :: zeros 31)))
      14 preset_masks.quic_https_v2 quiet_draws 500) = Ok packet /\
    read_handshake preset_masks.quic_https_v2 packet (6 :: zeros 31)
    = Ok (Some (m_tag (sample_match true), public_key_bytes sample_keypair)).
Proof.
  destruct (build_shaped_mdh_packet plain_keys 9 [1; 2; 3] (Some (obfuscate_client_eph_pub sample_keypair (6 :: zeros 31)))
    14 preset_masks.quic_https_v2 quiet_draws 500) as [c [packet| |]] eqn:E; [|vm_compute in E; discriminate..].
  exists packet. split; [reflexivity|].
  refine (mobile_handshake_read preset_masks.quic_https_v2 preset_masks.quic_spec plain_keys 9 [1; 2; 3] sample_keypair
    (6 :: zeros 31) quiet_draws 500 c packet E quic_handshake_ok eq_refl quiet_rng_ok quiet_draws_ok eq_refl eq_refl
    eq_refl _).
  vm_compute. congruence.
Defined.

(** A mask whose tag lies over the key. *)
Definition overlapping_mask : MaskProfile :=
  {| mask_id := str_bytes "overlap"; spoof_protocol := SpoofProtocol.QUIC; header_template := zeros 20;
     eph_pub_offset := 10; eph_pub_length := 32; signature := zeros 64;
     header_spec := Some (HeaderSpec.Structured [HeaderField.Random 20]); tag_offset := 8 |}.

