(* ===== verification/Bootstrap.v ===== *)
(** * Bootstrap descriptors and the choice of the opening mask

    Models the selection of the mask of a handshake in
    [crates/aivpn-common/src/mask.rs]: the descriptors that rotate, the candidates
    derived from one, the choice by name, by rotation and as a last resort, the
    polymorphic variants (their layout), and the check of a mask's signature. The
    feature [production-secure] is the argument [production_secure]; the two
    serialisers ([rmp_serde] of a descriptor, [serde_json] of a mask) are the class
    [Encodings].

    The theorems: whatever descriptor or variant a mask comes from, both ends agree
    on its layout when they agree on the layout of its base; a mask asked for by name
    is the one that is used; the rotation reaches every candidate; a protected build
    only uses what is signed. *)

From Stdlib Require Import Sorted.
From S2P Require Import Prelude Text Utf8 Protocol Mask Crypto Presets ClientWire Link Uplink.
Local Open Scope Z_scope.

Definition colon : Z := 58.

Record BootstrapDescriptor : Type := {
  descriptor_id : bytes;
  d_version : Z;
  created_at : Z;
  expires_at : Z;
  base_mask_ids : list bytes;
  embedded_masks : list MaskProfile;
  candidate_count : Z;
  kdf_salt : bytes;
  d_signature : bytes;
}.

Definition is_valid_at (d : BootstrapDescriptor) (unix_secs : Z) : bool :=
  (created_at d <=? unix_secs) && (unix_secs <=? expires_at d).

(** ** Signatures *)

(** The serialised forms that are signed: [rmp_serde::to_vec] of a descriptor and
    [serde_json::to_vec] of a mask, which fails when it does not parse back. *)
Class Encodings : Type := {
  descriptor_to_vec : BootstrapDescriptor -> bytes;
  mask_to_json : MaskProfile -> outcome bytes;
}.

Definition with_d_signature (d : BootstrapDescriptor) (signature : bytes) : BootstrapDescriptor :=
  {| descriptor_id := descriptor_id d; d_version := d_version d; created_at := created_at d;
     expires_at := expires_at d; base_mask_ids := base_mask_ids d; embedded_masks := embedded_masks d;
     candidate_count := candidate_count d; kdf_salt := kdf_salt d; d_signature := signature |}.

Definition with_signature (mask : MaskProfile) (signature : bytes) : MaskProfile :=
  {| mask_id := mask_id mask; spoof_protocol := spoof_protocol mask; header_template := header_template mask;
     eph_pub_offset := eph_pub_offset mask; eph_pub_length := eph_pub_length mask; signature := signature;
     header_spec := header_spec mask; tag_offset := tag_offset mask |}.

Section Signatures.
Context {PR : Primitives} {EN : Encodings}.

Definition d_signing_bytes (d : BootstrapDescriptor) : bytes := descriptor_to_vec (with_d_signature d (zeros 64)).

Definition d_verify_signature (d : BootstrapDescriptor) (public_key : bytes) : outcome bool :=
  if negb (verifying_key_ok public_key) then Err (Crypto "Invalid Ed25519 public key")
  else Ok (verify_strict public_key (d_signing_bytes d) (d_signature d)).

Definition signing_message (mask : MaskProfile) : outcome bytes := mask_to_json (with_signature mask (zeros 64)).

Definition verify_signature (mask : MaskProfile) (public_key : bytes) : outcome bool :=
  if negb (verifying_key_ok public_key) then Err (Crypto "Invalid Ed25519 public key")
  else
  let! message := signing_message mask in
  Ok (verify_strict public_key message (signature mask)).

Definition is_unsigned (mask : MaskProfile) : bool := bool_decide (signature mask = zeros 64).

Definition is_derived_variant (mask : MaskProfile) : bool :=
  starts_with (str_bytes "polymorphic:") (mask_id mask) || starts_with (str_bytes "bootstrap:") (mask_id mask).

(** *** The check of an artifact *)

Inductive MaskVerifyMode : Type := Off | Warn | Enforce.
Inductive MaskVerifyDetail : Type := ModeOff | Valid | NoOperatorKey | Unsigned | Invalid.
Record MaskVerifyResult : Type := { accept : bool; detail : MaskVerifyDetail }.

Definition is_failure (r : MaskVerifyResult) : bool :=
  match detail r with Unsigned | Invalid | NoOperatorKey => true | ModeOff | Valid => false end.

(** [MaskVerifyMode::from_str] *)
Definition mode_from_str (s : bytes) : option MaskVerifyMode :=
  let s := to_ascii_lowercase (trim s) in
  if bool_decide (s = str_bytes "off") then Some Off
  else if bool_decide (s = str_bytes "warn") then Some Warn
  else if bool_decide (s = str_bytes "enforce") then Some Enforce
  else None.

Definition verify_mask_artifact (profile : MaskProfile) (operator_pubkey : option bytes) (mode : MaskVerifyMode)
    : MaskVerifyResult :=
  let detail := match mode, operator_pubkey with
                | Off, _ => ModeOff
                | _, None => NoOperatorKey
                | _, Some pk =>
                    if is_unsigned profile then Unsigned
                    else match verify_signature profile pk with Ok true => Valid | _ => Invalid end
                end in
  let accept := match mode with
                | Off | Warn => true
                | Enforce => match detail with Valid => true | _ => false end
                end in
  {| accept := accept; detail := detail |}.

Definition resolve_protected_mask_verify_mode (production_secure : bool) (explicit : option MaskVerifyMode)
    : option MaskVerifyMode :=
  if production_secure then
    match explicit with None | Some Enforce => Some Enforce | Some _ => None end
  else Some (default Warn explicit).

Definition protected_build_requires_keys (production_secure signing operator : bool) : bool :=
  negb production_secure || (signing && operator).

(** *** Descriptors kept by the application *)

(** [sort_by_key(Reverse(created_at))], a stable sort. *)
Fixpoint insert_newest (d : BootstrapDescriptor) (l : list BootstrapDescriptor) : list BootstrapDescriptor :=
  match l with
  | [] => [d]
  | x :: rest => if created_at x <? created_at d then d :: l else x :: insert_newest d rest
  end.

Definition sort_newest (l : list BootstrapDescriptor) : list BootstrapDescriptor :=
  fold_left (fun sorted d => insert_newest d sorted) l [].

Definition trusted (production_secure : bool) (trusted_key : option bytes) (d : BootstrapDescriptor) : bool :=
  match trusted_key with
  | Some key => negb (bool_decide (d_signature d = zeros 64))
                && match d_verify_signature d key with Ok true => true | _ => false end
  | None => negb production_secure
  end.

(** [parsed] is what [serde_json] makes of the stored text. *)
Definition accept_persisted_descriptors (production_secure : bool) (parsed : list BootstrapDescriptor)
    (trusted_key : option bytes) (now : Z) : list BootstrapDescriptor :=
  sort_newest (List.filter (trusted production_secure trusted_key) (List.filter (fun d => is_valid_at d now) parsed)).
End Signatures.

(** ** Candidates *)

Section Candidates.
Context {PR : Primitives} {HX : Hex}.

Definition derive_bootstrap_seed (d : BootstrapDescriptor) (preshared_key : option bytes) (slot : Z) : bytes :=
  blake3_hash (kdf_salt d ++ descriptor_id d ++ [slot]
               ++ match preshared_key with Some psk => psk | None => zeros 32 end).

Definition with_mask_id (mask : MaskProfile) (id : bytes) : MaskProfile :=
  {| mask_id := id; spoof_protocol := spoof_protocol mask; header_template := header_template mask;
     eph_pub_offset := eph_pub_offset mask; eph_pub_length := eph_pub_length mask; signature := signature mask;
     header_spec := header_spec mask; tag_offset := tag_offset mask |}.

(** The random gap behind the header that candidates and polymorphic variants get. *)
Definition add_gap (mask : MaskProfile) (extra_gap_len : Z) : MaskProfile :=
  if 0 <? extra_gap_len then
    let fields := match header_spec mask with
                  | Some spec => HeaderSpec.fields spec
                  | None => [HeaderField.Fixed (header_template mask)]
                  end in
    {| mask_id := mask_id mask; spoof_protocol := spoof_protocol mask; header_template := header_template mask;
       eph_pub_offset := Z.min u16_max (eph_pub_offset mask + extra_gap_len);
       eph_pub_length := eph_pub_length mask; signature := signature mask;
       header_spec := Some (HeaderSpec.Structured (fields ++ [HeaderField.Random extra_gap_len]));
       tag_offset := tag_offset mask |}
  else mask.

(** [format!("bootstrap:{}:{}:{}:{:02x}{:02x}", ...)] *)
Definition candidate_id (descriptor_id base_id : bytes) (slot b0 b1 : Z) : bytes :=
  str_bytes "bootstrap:" ++ descriptor_id ++ [colon] ++ base_id ++ [colon] ++ dec_u8 slot ++ [colon]
  ++ hex_u8 b0 ++ hex_u8 b1.

(** The base mask of a slot, by the first byte of the seed. *)
Definition candidate_base (d : BootstrapDescriptor) (b0 : Z) : option (bytes * MaskProfile) :=
  let base_ids := match base_mask_ids d, embedded_masks d with
                  | [], [] => preset_masks.ids
                  | ids, _ => ids
                  end in
  match embedded_masks d with
  | [] =>
      match base_ids with
      | [] => None
      | _ =>
          match base_ids !! Z.to_nat (b0 mod len base_ids) with
          | Some base_id => option_map (fun mask => (base_id, mask)) (preset_masks.by_id base_id)
          | None => None
          end
      end
  | masks => option_map (fun mask => (mask_id mask, mask)) (masks !! Z.to_nat (b0 mod len masks))
  end.

Definition derive_bootstrap_candidate_with_base (d : BootstrapDescriptor) (preshared_key : option bytes) (slot : Z)
    : option (bytes * MaskProfile) :=
  let seed := derive_bootstrap_seed d preshared_key slot in
  let '(b0, b1) := (safe_get seed 0, safe_get seed 1) in
  match candidate_base d b0 with
  | None => None
  | Some (base_id, mask) =>
      let mask := add_gap mask (b1 mod 9) in
      Some (base_id, with_mask_id mask (candidate_id (descriptor_id d) base_id slot b0 b1))
  end.

Definition derive_bootstrap_candidate (d : BootstrapDescriptor) (preshared_key : option bytes) (slot : Z)
    : option MaskProfile :=
  option_map snd (derive_bootstrap_candidate_with_base d preshared_key slot).

(** [0..descriptor.candidate_count] *)
Definition slots (d : BootstrapDescriptor) : list Z := seqZ 0 (candidate_count d).

Definition derive_bootstrap_candidates (d : BootstrapDescriptor) (preshared_key : option bytes) : list MaskProfile :=
  base.omap (derive_bootstrap_candidate d preshared_key) (slots d).

(** ** Polymorphic variants *)

Definition polymorphic_seed (prng_seed : bytes) : bytes := derive_key "aivpn-polymorphic-mask-v1" prng_seed.

(** What [apply_polymorphic_perturbation] does to the layout and the name, with the
    [stream] expanded from the seed; the nudges to timing and padding are floating
    point and leave the layout alone. *)
Definition apply_polymorphic_perturbation (mask : MaskProfile) (max_header_gap : Z) (stream : bytes) : MaskProfile :=
  let base_id := mask_id mask in
  let mask := if 0 <? max_header_gap
              then add_gap mask (safe_get stream 2 mod (max_header_gap + 1)) else mask in
  with_mask_id mask (str_bytes "polymorphic:" ++ base_id ++ [colon]
                     ++ hex_u8 (safe_get stream 0) ++ hex_u8 (safe_get stream 1)).

(** ** Names *)

Definition base_mask_family (mask_id : bytes) : bytes :=
  match strip_prefix (str_bytes "bootstrap:") mask_id with
  | Some rest => default rest (split colon rest !! 1%nat)
  | None =>
      match strip_prefix (str_bytes "polymorphic:") mask_id with
      | Some rest => default rest (head (split colon rest))
      | None => mask_id
      end
  end.

Definition mask_matches_preferred_base (mask : MaskProfile) (base_id : bytes) : bool :=
  match preset_masks.by_id base_id with
  | None => false
  | Some base =>
      if negb (bool_decide (spoof_protocol mask = spoof_protocol base)) then false
      else if bool_decide (mask_id mask = base_id) then true
      else
      match strip_prefix (str_bytes "polymorphic:") (mask_id mask) with
      | Some rest =>
          match strip_prefix base_id rest with
          | Some tail => starts_with [colon] tail && (1 <? len tail)
          | None => false
          end
      | None =>
          match strip_prefix (str_bytes "bootstrap:") (mask_id mask) with
          | Some rest => bool_decide (rsplitn 4 colon rest !! 2%nat = Some base_id)
          | None => false
          end
      end
  end.

(** [.map(str::trim).filter(|name| !name.is_empty() && *name != "auto")] *)
Definition wanted (preferred : option bytes) : option bytes :=
  match preferred with
  | None => None
  | Some name =>
      let name := trim name in
      if bool_decide (name = []) || bool_decide (name = str_bytes "auto") then None else Some name
  end.

Definition post_pfs_mask_preference (preferred polymorphic_base : option bytes) (opening : MaskProfile)
    : option bytes :=
  match polymorphic_base with
  | Some base => Some base
  | None =>
      match wanted preferred with
      | None => None
      | Some preferred =>
          match preset_masks.by_id preferred with
          | None => None
          | Some _ => if mask_matches_preferred_base opening preferred then None else Some preferred
          end
      end
  end.
End Candidates.

(** ** The choice *)

Definition HANDSHAKE_FALLBACK_THRESHOLD : Z := 3.

Section Choice.
Context {PR : Primitives} {HX : Hex}.
Context (preshared_key : option bytes).

(** The slots that give a mask, by descriptor: [find] in one, [filter_map] over all. *)
Definition first_slot (d : BootstrapDescriptor) : option Z :=
  List.find (fun slot => bool_decide (is_Some (derive_bootstrap_candidate d preshared_key slot))) (slots d).

Definition rotation_groups (descriptors : list BootstrapDescriptor) (now : Z) : list (BootstrapDescriptor * Z) :=
  base.omap (fun d => option_map (fun slot => (d, slot)) (first_slot d))
    (List.filter (fun d => is_valid_at d now) descriptors).

Definition bootstrap_candidate_for_attempt (descriptors : list BootstrapDescriptor) (fail_streak now : Z)
    : outcome (option MaskProfile) :=
  let groups := rotation_groups descriptors now in
  match groups with
  | [] => Ok None
  | _ =>
      let round := fail_streak / HANDSHAKE_FALLBACK_THRESHOLD in
      match groups !! Z.to_nat (round mod len groups) with
      | None => Panic
      | Some (d, first) =>
          if candidate_count d =? 0 then Panic
          else
          let slot := wrap8 ((round / len groups) mod candidate_count d) in
          Ok (match derive_bootstrap_candidate d preshared_key slot with
              | Some mask => Some mask
              | None => derive_bootstrap_candidate d preshared_key first
              end)
      end
  end.

(** The candidates of one base. *)
Definition base_candidates (base : bytes) (protocol : SpoofProtocol.t) (d : BootstrapDescriptor) : list MaskProfile :=
  base.omap (fun slot =>
    match derive_bootstrap_candidate_with_base d preshared_key slot with
    | Some (id, mask) =>
        if bool_decide (id = base) && bool_decide (spoof_protocol mask = protocol) then Some mask else None
    | None => None
    end) (slots d).

Definition preferred_bootstrap_candidate_for_attempt (descriptors : list BootstrapDescriptor)
    (preferred_base : bytes) (fail_streak now : Z) : outcome (option MaskProfile) :=
  let preferred_base := trim preferred_base in
  match preset_masks.by_id preferred_base with
  | None => Ok None
  | Some base =>
      let groups := List.filter (fun candidates => negb (bool_decide (candidates = @nil MaskProfile)))
        (map (base_candidates preferred_base (spoof_protocol base))
           (List.filter (fun d => is_valid_at d now) descriptors)) in
      match groups with
      | [] => Ok None
      | _ =>
          let round := fail_streak / HANDSHAKE_FALLBACK_THRESHOLD in
          match groups !! Z.to_nat (round mod len groups) with
          | None => Panic
          | Some candidates =>
              match candidates !! Z.to_nat ((round / len groups) mod len candidates) with
              | None => Panic
              | Some mask => Ok (Some mask)
              end
          end
      end
  end.

(** The mask a descriptor gives for a name of its own. *)
Definition by_descriptor (descriptors : list BootstrapDescriptor) (name : bytes) : option MaskProfile :=
  match strip_prefix (str_bytes "bootstrap:") name with
  | None => None
  | Some rest =>
      match List.find (fun d => bool_decide (Some (descriptor_id d) = head (split colon rest))) descriptors with
      | None => None
      | Some d =>
          let candidates := derive_bootstrap_candidates d preshared_key in
          match List.find (fun mask => bool_decide (mask_id mask = name)) candidates with
          | Some exact => Some exact
          | None => head candidates
          end
      end
  end.

(** The first candidate of the first descriptor that has one. *)
Fixpoint first_covert (descriptors : list BootstrapDescriptor) : option MaskProfile :=
  match descriptors with
  | [] => None
  | d :: descriptors =>
      match head (derive_bootstrap_candidates d preshared_key) with
      | Some mask => Some mask
      | None => first_covert descriptors
      end
  end.

Definition resolve_handshake_mask (production_secure : bool) (preferred : option bytes)
    (descriptors : list BootstrapDescriptor) (now : Z) : outcome MaskProfile :=
  let pref := wanted preferred in
  let! pinned := match pref with
                 | Some name =>
                     if production_secure
                     then preferred_bootstrap_candidate_for_attempt descriptors name 0 now else Ok None
                 | None => Ok None
                 end in
  match pinned with
  | Some candidate => Ok candidate
  | None =>
      let keep_descriptor := production_secure && negb (bool_decide (len descriptors = 0)) in
      let preset := match pref with
                    | Some name => if keep_descriptor then None else preset_masks.by_id name
                    | None => None
                    end in
      match preset with
      | Some mask => Ok mask
      | None =>
          match match pref with Some name => by_descriptor descriptors name | None => None end with
          | Some mask => Ok mask
          | None =>
              match first_covert descriptors with
              | Some mask => Ok mask
              | None => preset_masks.bootstrap_for_psk preshared_key
              end
          end
      end
  end.

Definition resolve_handshake_mask_resilient (production_secure : bool) (preferred : option bytes)
    (descriptors : list BootstrapDescriptor) (fail_streak now : Z) : outcome MaskProfile :=
  if production_secure then
    let! pinned := match preferred with
                   | Some name => preferred_bootstrap_candidate_for_attempt descriptors name fail_streak now
                   | None => Ok None
                   end in
    match pinned with
    | Some candidate => Ok candidate
    | None =>
        let! rotated := if HANDSHAKE_FALLBACK_THRESHOLD <=? fail_streak
                        then bootstrap_candidate_for_attempt descriptors fail_streak now else Ok None in
        match rotated with
        | Some candidate => Ok candidate
        | None => resolve_handshake_mask true preferred descriptors now
        end
    end
  else if HANDSHAKE_FALLBACK_THRESHOLD <=? fail_streak
  then resolve_handshake_mask false preferred [] now
  else resolve_handshake_mask false preferred descriptors now.
End Choice.

(** ** The layout of variants *)

Section Layout.
Context {PR : Primitives} {HX : Hex}.

(** Both ends find the tag of a packet with a header of [n] bytes. *)
Definition agrees (mask : MaskProfile) (n : Z) : Prop :=
  tag_prefix_len (tag_offset mask) = effective_tag_prefix_len mask n /\ framing_ok (packet_framing mask n) n.

(** A mask that works for handshakes and for data, with what comes before the key
    really in front of it, so that a gap there disturbs nothing. *)
Record ready (mask : MaskProfile) : Prop := {
  ready_ok : mask_ok mask;
  ready_key : eph_pub_length mask = 32;
  ready_handshake : agrees mask (packet_header_len mask true);
  ready_data : agrees mask (packet_header_len mask false);
  ready_tag : tag_offset mask = u16_max \/ tag_offset mask + TAG_SIZE <= eph_pub_offset mask;
  ready_carrier : SpoofProtocol.is_stun (spoof_protocol mask) = true -> 24 <= eph_pub_offset mask;
  ready_length : forall at_, stun_length_field_offset mask = Some at_ -> at_ + 2 <= eph_pub_offset mask;
}.

Lemma ready_handshake_mask mask : ready mask -> handshake_mask_ok mask.
Proof. intros [Hok Hk [Hp Hf] _ _ _ Hl]. split; try done. intros at_ Hat. right. by apply Hl. Qed.

Lemma ready_data_framing mask : ready mask -> framing_ok (packet_framing mask (mdh_len mask)) (mdh_len mask).
Proof. by intros [_ _ _ [_ Hf] _ _ _]. Qed.

Lemma find_length_app offset fs g :
  HeaderSpec.find_length offset (fs ++ [HeaderField.Random g]) = HeaderSpec.find_length offset fs.
Proof. revert offset. induction fs as [|[] fs IH]; intros offset; cbn; done. Qed.

Lemma min_length_app fs g :
  foldr (fun field n => HeaderSpec.field_width field + n) 0 (fs ++ [HeaderField.Random g]) =
  foldr (fun field n => HeaderSpec.field_width field + n) 0 fs + Z.min g MAX_HEADER_FIELD_LEN.
Proof. induction fs as [|f fs IH]; cbn; [lia|]. rewrite IH. lia. Qed.

Section Gap.
Context (mask : MaskProfile) (g : Z) (Hg : 0 < g <= 255) (Hroom : eph_pub_offset mask + g <= u16_max).

Lemma gap_mdh_len : mdh_len (add_gap mask g) = mdh_len mask + g.
Proof.
  unfold add_gap, mdh_len. guard_true. cbn [header_spec]. unfold HeaderSpec.min_length at 1. cbn [HeaderSpec.fields].
  rewrite min_length_app. unfold MAX_HEADER_FIELD_LEN. destruct (header_spec mask) as [spec|]; [|cbn; lia].
  change (foldr _ 0 (HeaderSpec.fields spec)) with (HeaderSpec.min_length spec). lia.
Qed.

Lemma gap_eph : eph_pub_offset (add_gap mask g) = eph_pub_offset mask + g.
Proof. unfold add_gap. guard_true. cbn. lia. Qed.

Lemma gap_rest :
  eph_pub_length (add_gap mask g) = eph_pub_length mask /\ tag_offset (add_gap mask g) = tag_offset mask /\
  spoof_protocol (add_gap mask g) = spoof_protocol mask /\ header_template (add_gap mask g) = header_template mask.
Proof. unfold add_gap. by guard_true. Qed.

Lemma gap_length_field : stun_length_field_offset (add_gap mask g) = stun_length_field_offset mask.
Proof.
  unfold stun_length_field_offset. destruct gap_rest as (_ & _ & -> & _). destruct (negb _); [done|].
  unfold add_gap. guard_true. cbn [header_spec]. unfold HeaderSpec.length_field_offset at 1. cbn [HeaderSpec.fields].
  rewrite find_length_app. by destruct (header_spec mask).
Qed.

Lemma gap_header_len handshake :
  packet_header_len (add_gap mask g) handshake = packet_header_len mask handshake + g.
Proof.
  unfold packet_header_len. rewrite gap_mdh_len, gap_eph. destruct gap_rest as (-> & _).
  destruct handshake; lia.
Qed.

Lemma gap_agrees n :
  ready mask -> agrees mask n -> agrees (add_gap mask g) (n + g).
Proof.
  intros [_ Hk _ _ Htag H24 Hlen] [Hp Hf]. destruct gap_rest as (El & Et & Es & Eh).
  assert (uses_embedded_layout (add_gap mask g) (n + g) = uses_embedded_layout mask n) as Eu.
  { unfold agrees, effective_tag_prefix_len, tag_prefix_len, uses_embedded_layout, tag_overlaps_eph_pub,
      embedded_tag_offset in *. rewrite Et, El, gap_eph. destruct (tag_offset mask =? u16_max) eqn:E; [done|].
    unfold TAG_SIZE in *. destruct (_ && _) eqn:Eb in Hp; [|done]. rewrite Eb. lia. }
  assert (uses_stun_attributes (add_gap mask g) = uses_stun_attributes mask) as Ea.
  { unfold uses_stun_attributes. rewrite Es, Eh, Et, gap_eph.
    destruct (SpoofProtocol.is_stun _); [specialize (H24 eq_refl)|done]. f_equal. lia. }
  unfold agrees, effective_tag_prefix_len. rewrite Eu, Et. split; [exact Hp|].
  unfold framing_ok, packet_framing in *. cbn [f_tag_offset stun_attributes stun_length_offset] in *.
  rewrite Eu, Et, gap_length_field, Ea. destruct (uses_embedded_layout mask n); [|done].
  destruct Hf as [H0 Hf]. split; [done|]. destruct (_ && _); [lia|]. case_match; [lia|done].
Qed.

Lemma gap_ready : ready mask -> ready (add_gap mask g).
Proof.
  intros H. pose proof H as [(Hm1 & [Hm2 _] & Hm3 & Hw) Hk Hh Hd Htag H24 Hlen]. unfold u16_max in Hroom.
  destruct gap_rest as (El & Et & Es & Eh). split.
  - unfold mask_ok. rewrite Et, El, gap_eph. split; [done|]. split; [unfold u16_ok; lia|]. split; [done|].
    unfold add_gap. guard_true. cbn [header_spec]. intros spec [= <-]. apply Forall_app. split; [|repeat constructor; cbn; lia].
    destruct (header_spec mask) as [spec|]; [by apply Hw|by repeat constructor].
  - by rewrite El.
  - rewrite gap_header_len. by apply gap_agrees.
  - rewrite gap_header_len. by apply gap_agrees.
  - rewrite Et, gap_eph. lia.
  - rewrite Es, gap_eph. intros ?%H24. lia.
  - rewrite gap_length_field, gap_eph. intros at_ Hat%Hlen. lia.
Qed.
End Gap.

Lemma variant_ready mask g :
  ready mask -> 0 <= g <= 255 -> eph_pub_offset mask + g <= u16_max -> ready (add_gap mask g).
Proof.
  intros H Hg Hroom. destruct (Z.eq_dec g 0) as [->|]; [done|]. apply gap_ready; [lia|done|done].
Qed.

Lemma renamed_ready mask id : ready mask -> ready (with_mask_id mask id).
Proof. intros [? ? ? ? ? ? ?]. by split. Qed.

Lemma presets_ready : Forall ready preset_masks.catalog.
Proof.
  repeat (apply Forall_cons_2; [|]); try apply Forall_nil_2; split; cbn; try (unfold u16_max, TAG_SIZE; lia);
    try (vm_compute; intuition congruence).
  all: try (intros at_ [= <-]; lia).
  all: unfold mask_ok, u16_ok; split_and!; cbn; try lia; intros spec [= <-]; repeat constructor; cbn; lia.
Qed.

(** *** Variants of a mask *)

(** The base of a candidate is a mask of the descriptor or of the catalog. *)
Lemma candidate_base_from d b0 base mask :
  candidate_base d b0 = Some (base, mask) ->
  mask_id mask = base /\ (mask ∈ embedded_masks d \/ embedded_masks d = [] /\ mask ∈ preset_masks.catalog).
Proof.
  unfold candidate_base. destruct (embedded_masks d) as [|m ms].
  - destruct (match base_mask_ids d with [] => preset_masks.ids | _ => _ end) as [|id0 ids]; [done|].
    destruct (_ !! _) as [id|]; [|done]. destruct (preset_masks.by_id id) as [p|] eqn:E; [|done].
    intros [= <- <-]. apply preset_masks.by_id_elem in E as [??]. auto.
  - destruct (_ !! _) as [m'|] eqn:E; [|done]. intros [= <- <-]. split; [done|]. left.
    by eapply list_elem_of_lookup_2.
Qed.

(** What a candidate is: its base with a gap of at most eight bytes and a name. *)
Lemma candidate_shape d psk slot base mask :
  derive_bootstrap_candidate_with_base d psk slot = Some (base, mask) ->
  exists m g b0 b1, 0 <= g <= 8 /\ mask_id m = base /\
    (m ∈ embedded_masks d \/ embedded_masks d = [] /\ m ∈ preset_masks.catalog) /\
    mask = with_mask_id (add_gap m g) (candidate_id (descriptor_id d) base slot b0 b1).
Proof.
  unfold derive_bootstrap_candidate_with_base.
  destruct (candidate_base d _) as [[base' m]|] eqn:E; [|done]. intros [= <- <-].
  apply candidate_base_from in E as [??]. do 4 eexists. split; [|split; [|split; [|reflexivity]]]; [|done|done].
  pose proof (Z.mod_pos_bound (safe_get (derive_bootstrap_seed d psk slot) 1) 9). lia.
Qed.

Definition masks_ready (d : BootstrapDescriptor) : Prop :=
  forall m, m ∈ embedded_masks d -> ready m /\ eph_pub_offset m + 8 <= u16_max.

Lemma preset_room m : m ∈ preset_masks.catalog -> ready m /\ eph_pub_offset m + 255 <= u16_max.
Proof.
  intros Hin. split; [pose proof presets_ready as H; rewrite Forall_forall in H; by apply H|].
  repeat (apply elem_of_cons in Hin as [->|Hin]; [by vm_compute|]). by apply not_elem_of_nil in Hin.
Qed.

Lemma candidate_ready d psk slot mask :
  masks_ready d -> derive_bootstrap_candidate d psk slot = Some mask -> ready mask.
Proof.
  unfold derive_bootstrap_candidate. intros Hd H.
  destruct (derive_bootstrap_candidate_with_base d psk slot) as [[base m]|] eqn:E; [|done]. injection H as <-.
  apply candidate_shape in E as (b & g & b0 & b1 & Hg & _ & Hfrom & ->).
  assert (ready b /\ eph_pub_offset b + 8 <= u16_max) as [Hb Hroom].
  { destruct Hfrom as [Hin|[_ Hin]]; [by apply Hd|]. destruct (preset_room b Hin). split; [done|lia]. }
  apply renamed_ready, variant_ready; [done|lia|lia].
Qed.

Lemma polymorphic_ready mask max_gap stream :
  ready mask -> 0 <= max_gap <= 255 -> eph_pub_offset mask + max_gap <= u16_max ->
  ready (apply_polymorphic_perturbation mask max_gap stream).
Proof.
  intros H Hg Hroom. unfold apply_polymorphic_perturbation. apply renamed_ready.
  destruct (Z.ltb_spec 0 max_gap); [|done].
  pose proof (Z.mod_pos_bound (safe_get stream 2) (max_gap + 1) ltac:(lia)). apply variant_ready; [done|lia|lia].
Qed.

(** Both ends agree on the layout of every mask the program derives. A candidate
    of a descriptor, and a polymorphic variant of a candidate or of a built-in mask,
    is laid out so that the server reads back the tag and the key of the client,
    when the masks inside the descriptor are; the built-in masks always are. *)
Theorem variants_agree d psk slot mask max_gap stream :
  masks_ready d -> 0 <= max_gap <= 255 ->
  (derive_bootstrap_candidate d psk slot = Some mask /\ eph_pub_offset mask + max_gap <= u16_max
   \/ mask ∈ preset_masks.catalog) ->
  let variant := apply_polymorphic_perturbation mask max_gap stream in
  handshake_mask_ok mask /\ handshake_mask_ok variant /\
  framing_ok (packet_framing mask (mdh_len mask)) (mdh_len mask) /\
  framing_ok (packet_framing variant (mdh_len variant)) (mdh_len variant).
Proof.
  intros Hd Hg Hmask variant.
  assert (ready mask /\ eph_pub_offset mask + max_gap <= u16_max) as [Hr Hroom].
  { destruct Hmask as [[H Hroom]|Hin]; [split; [by eapply candidate_ready|done]|].
    destruct (preset_room mask Hin). split; [done|lia]. }
  assert (ready variant) as Hv by (apply polymorphic_ready; [done|lia|done]).
  split_and!; by (apply ready_handshake_mask || apply ready_data_framing).
Qed.
End Layout.

(** ** The names of candidates *)

Section Names.
Context {PR : Primitives} {HX : Hex}.

(** The pieces of the name of a candidate behind the prefix. *)
Definition id_rest (descriptor_id base_id : bytes) (slot b0 b1 : Z) : bytes :=
  ((descriptor_id ++ colon :: base_id) ++ colon :: dec_u8 slot) ++ colon :: hex_u8 b0 ++ hex_u8 b1.

Lemma candidate_id_eq id base slot b0 b1 :
  candidate_id id base slot b0 b1 = str_bytes "bootstrap:" ++ id_rest id base slot b0 b1.
Proof. unfold candidate_id, id_rest. by rewrite <-!app_assoc. Qed.

Lemma hex_plain b0 b1 : colon ∉ hex_u8 b0 ++ hex_u8 b1.
Proof.
  unfold hex_u8, colon. cbn [app]. rewrite !not_elem_of_cons.
  pose proof hex_digit_plain. repeat split; try apply not_elem_of_nil; by apply not_eq_sym.
Qed.

Lemma split_id_rest id base slot b0 b1 :
  0 <= slot < 256 ->
  split colon (id_rest id base slot b0 b1) =
    (split colon (id ++ colon :: base) ++ [dec_u8 slot]) ++ [hex_u8 b0 ++ hex_u8 b1].
Proof.
  intros Hs. unfold id_rest. rewrite split_snoc by apply hex_plain.
  by rewrite split_snoc by by apply dec_u8_plain.
Qed.

(** One descriptor never gives two slots the same name. *)
Lemma candidate_id_slot id base base' slot slot' b0 b1 b0' b1' :
  0 <= slot < 256 -> 0 <= slot' < 256 ->
  candidate_id id base slot b0 b1 = candidate_id id base' slot' b0' b1' -> slot = slot'.
Proof.
  intros Hs Hs' H. rewrite !candidate_id_eq in H. apply app_inv_head in H.
  apply (f_equal (split colon)) in H. rewrite !split_id_rest in H by done.
  apply app_inj_tail in H as [H _]. apply app_inj_tail in H as [_ H]. by apply dec_u8_inj.
Qed.

Lemma skip_none width fuel s : width s = O -> skip_spaces width fuel s = s.
Proof. destruct fuel; [done|]. cbn. by intros ->. Qed.

Lemma space_width_b s : space_width (98 :: s) = O.
Proof. done. Qed.

Lemma space_width_hex x s : space_width_rev (hex_digit (x mod 16) :: s) = O.
Proof.
  pose proof (Z.mod_pos_bound x 16 ltac:(lia)). unfold space_width_rev, space1, space2, space3, hex_digit.
  cbn [nth]. set (b := nth 0 s 0). set (c := nth 1 s 0). destruct (Z.ltb_spec (x mod 16) 10); repeat case_match; lia.
Qed.

Lemma trim_candidate_id id base slot b0 b1 :
  trim (candidate_id id base slot b0 b1) = candidate_id id base slot b0 b1.
Proof.
  rewrite candidate_id_eq. change (str_bytes "bootstrap:") with (98 :: str_bytes "ootstrap:").
  unfold trim. rewrite (skip_none space_width) by apply space_width_b. unfold id_rest, hex_u8.
  rewrite skip_none; [by rewrite rev_involutive|].
  set (front := (id ++ colon :: base) ++ colon :: dec_u8 slot).
  replace ((98 :: str_bytes "ootstrap:") ++ front ++ colon :: [hex_digit (b0 / 16); hex_digit (b0 mod 16)]
    ++ [hex_digit (b1 / 16); hex_digit (b1 mod 16)])
    with (((98 :: str_bytes "ootstrap:") ++ front ++ [colon; hex_digit (b0 / 16); hex_digit (b0 mod 16);
      hex_digit (b1 / 16)]) ++ [hex_digit (b1 mod 16)]) by (by rewrite <-!app_assoc).
  rewrite rev_unit. apply space_width_hex.
Qed.
End Names.

(** ** What the choice gives *)

Section Chosen.
Context {PR : Primitives} {HX : Hex}.
Context (psk : option bytes).

Lemma candidate_of d slot mask :
  derive_bootstrap_candidate d psk slot = Some mask ->
  exists base, derive_bootstrap_candidate_with_base d psk slot = Some (base, mask).
Proof.
  unfold derive_bootstrap_candidate. destruct (derive_bootstrap_candidate_with_base d psk slot) as [[base m]|]; [|done].
  intros [= <-]. eauto.
Qed.

Lemma candidate_name d slot mask :
  derive_bootstrap_candidate d psk slot = Some mask ->
  exists base b0 b1, mask_id mask = candidate_id (descriptor_id d) base slot b0 b1.
Proof. intros (base & (m & g & b0 & b1 & _ & _ & _ & ->)%candidate_shape)%candidate_of. eauto. Qed.

Lemma slot_range d slot : 0 <= candidate_count d < 256 -> slot ∈ slots d -> 0 <= slot < 256.
Proof. intros Hc Hs%elem_of_seqZ. lia. Qed.

Lemma preset_plain : Forall (fun id => (colon ∉ id) /\ starts_with (str_bytes "bootstrap:") id = false) preset_masks.ids.
Proof. by apply (bool_decide_unpack _). Qed.

Lemma preset_no_candidate id base slot b0 b1 : preset_masks.by_id (candidate_id id base slot b0 b1) = None.
Proof.
  destruct (preset_masks.by_id _) as [m|] eqn:E; [|done]. apply preset_masks.by_id_elem in E as [Hin Hid].
  pose proof preset_plain as Hp. rewrite Forall_forall in Hp.
  destruct (Hp (mask_id m)) as [_ H]; [by apply list_elem_of_fmap_2|].
  rewrite Hid, candidate_id_eq in H. unfold starts_with in H. rewrite strip_prefix_app in H. done.
Qed.

(** The name of a candidate gives back its base. The client recognises a
    candidate as a mask of the base it prefers, whatever the descriptor is called;
    and the family it reports is the base, when the name of the descriptor has no
    colon. *)
Theorem candidate_family d slot base mask preset :
  0 <= slot < 256 -> derive_bootstrap_candidate_with_base d psk slot = Some (base, mask) ->
  preset_masks.by_id base = Some preset -> spoof_protocol mask = spoof_protocol preset ->
  mask_matches_preferred_base mask base = true /\
  (colon ∉ descriptor_id d -> base_mask_family (mask_id mask) = base).
Proof.
  intros Hs (m & g & b0 & b1 & _ & _ & _ & ->)%candidate_shape Hbase Hproto.
  assert (colon ∉ base) as Hplain.
  { apply preset_masks.by_id_elem in Hbase as [Hin <-]. pose proof preset_plain as Hp. rewrite Forall_forall in Hp.
    apply Hp. by apply list_elem_of_fmap_2. }
  cbn [mask_id with_mask_id]. split.
  - unfold mask_matches_preferred_base. rewrite Hbase, bool_decide_eq_true_2 by done. cbn [negb mask_id with_mask_id].
    case_bool_decide; [done|]. rewrite candidate_id_eq, strip_prefix_app.
    change (strip_prefix (str_bytes "polymorphic:") (str_bytes "bootstrap:" ++ _)) with (@None bytes).
    apply bool_decide_eq_true_2. unfold rsplitn.
    rewrite split_id_rest, split_snoc, !rev_unit by done. cbn [rpieces]. by destruct (rev (split colon _)).
  - intros Hd. unfold base_mask_family. rewrite candidate_id_eq, strip_prefix_app.
    rewrite split_id_rest, split_app by done. by rewrite (split_plain _ _ Hplain).
Qed.

(** A candidate asked for by its name is the mask that is used, whatever other
    descriptors and candidates there are, as long as the name of its descriptor has
    no colon and is not the name of an earlier one. *)
Theorem named_candidate_used descriptors before d after slot mask now :
  descriptors = before ++ d :: after -> Forall (fun d' => descriptor_id d' <> descriptor_id d) before ->
  colon ∉ descriptor_id d -> 0 <= candidate_count d < 256 -> slot ∈ slots d ->
  derive_bootstrap_candidate d psk slot = Some mask ->
  resolve_handshake_mask psk false (Some (mask_id mask)) descriptors now = Ok mask.
Proof.
  intros -> Hbefore Hplain Hcount Hslot Hmask.
  destruct (candidate_name d slot mask Hmask) as (base & b0 & b1 & Hid).
  unfold resolve_handshake_mask, wanted. rewrite Hid, trim_candidate_id. cbn [obind andb].
  assert (forall s, candidate_id (descriptor_id d) base slot b0 b1 <> s \/ starts_with (str_bytes "bootstrap:") s = true) as Hne.
  { intros s. destruct (decide (candidate_id (descriptor_id d) base slot b0 b1 = s)) as [<-|]; [right|by left].
    unfold starts_with. by rewrite candidate_id_eq, strip_prefix_app. }
  rewrite !bool_decide_eq_false_2; [|by destruct (Hne (str_bytes "auto"))|by destruct (Hne [])]. cbn [orb].
  rewrite preset_no_candidate. unfold by_descriptor. rewrite candidate_id_eq, strip_prefix_app.
  assert (head (split colon (id_rest (descriptor_id d) base slot b0 b1)) = Some (descriptor_id d)) as ->.
  { by rewrite split_id_rest, split_app by (done || eapply slot_range; done). }
  assert (List.find (fun d' => bool_decide (Some (descriptor_id d') = Some (descriptor_id d))) (before ++ d :: after)
    = Some d) as ->.
  { induction Hbefore as [|d' before Hd' _ IH]; cbn [app List.find]; [by rewrite bool_decide_eq_true_2|].
    rewrite bool_decide_eq_false_2 by (intros [= H]; by apply Hd'). exact IH. }
  rewrite <-candidate_id_eq, <-Hid. cbv zeta.
  destruct (List.find _ _) as [exact|] eqn:E.
  - cbn [obind]. f_equal. apply List.find_some in E as [Hin%list_elem_of_In Hsame%bool_decide_eq_true].
    apply list_elem_of_omap in Hin as (slot' & Hslot' & Hexact).
    destruct (candidate_name d slot' exact Hexact) as (base' & b0' & b1' & Hid').
    rewrite Hid, Hid' in Hsame.
    apply candidate_id_slot in Hsame as <-; [|by eapply slot_range..]. rewrite Hmask in Hexact. by injection Hexact.
  - exfalso. assert (List.In mask (derive_bootstrap_candidates d psk)) as Hin
      by (apply list_elem_of_In, list_elem_of_omap; eauto).
    apply (List.find_none _ _ E) in Hin. by rewrite bool_decide_eq_true_2 in Hin.
Qed.

(** *** The rotation *)

Lemma rotation_groups_elem descriptors now d slot mask :
  d ∈ descriptors -> is_valid_at d now = true -> slot ∈ slots d ->
  derive_bootstrap_candidate d psk slot = Some mask ->
  exists i first, rotation_groups psk descriptors now !! i = Some (d, first).
Proof.
  intros Hd Hv Hs Hm. destruct (first_slot psk d) as [first|] eqn:E.
  - assert ((d, first) ∈ rotation_groups psk descriptors now) as [i Hi]%list_elem_of_lookup_1.
    { apply list_elem_of_omap. exists d. rewrite E. split; [|done].
      apply list_elem_of_In, List.filter_In. by rewrite <-list_elem_of_In. }
    eauto.
  - apply list_elem_of_In in Hs. apply (List.find_none _ _ E) in Hs. by rewrite Hm, bool_decide_eq_true_2 in Hs.
Qed.

(** The rotation reaches every candidate of every valid descriptor: for each of
    them there is a round, among the first 256 of each descriptor, in whose three
    attempts it is the mask that is tried. *)
Theorem rotation_covers descriptors now d slot mask :
  d ∈ descriptors -> is_valid_at d now = true -> 0 <= candidate_count d < 256 -> slot ∈ slots d ->
  derive_bootstrap_candidate d psk slot = Some mask ->
  exists round, 0 <= round < 256 * len (rotation_groups psk descriptors now) /\
    forall k, 0 <= k < HANDSHAKE_FALLBACK_THRESHOLD ->
      bootstrap_candidate_for_attempt psk descriptors (HANDSHAKE_FALLBACK_THRESHOLD * round + k) now = Ok (Some mask).
Proof.
  intros Hd Hv Hc Hs Hm. destruct (rotation_groups_elem _ _ _ _ _ Hd Hv Hs Hm) as (i & first & Hi).
  apply elem_of_seqZ in Hs. pose proof (lookup_lt_Some _ _ _ Hi) as Hlen.
  unfold bootstrap_candidate_for_attempt. set (groups := rotation_groups psk descriptors now) in *.
  exists (slot * len groups + Z.of_nat i). split; [nia|]. intros k Hk. unfold HANDSHAKE_FALLBACK_THRESHOLD in *.
  replace ((3 * (slot * len groups + Z.of_nat i) + k) / 3) with (Z.of_nat i + slot * len groups) by divlia.
  rewrite Z_mod_plus_full, Z.mod_small, Nat2Z.id, Hi by lia.
  clearbody groups. destruct groups as [|g rest] eqn:Eg; [done|]. rewrite <-Eg in *.
  destruct (Z.eqb_spec (candidate_count d) 0); [lia|].
  rewrite Z_div_plus_full, (Z.div_small (Z.of_nat i)), Z.add_0_l by lia.
  rewrite Z.mod_small by lia. unfold wrap8. rewrite Z.mod_small by lia. by rewrite Hm.
Qed.

(** *** What a protected build uses *)

(** A candidate of one of the descriptors. *)
Definition covert (descriptors : list BootstrapDescriptor) (mask : MaskProfile) : Prop :=
  exists d slot, d ∈ descriptors /\ slot ∈ slots d /\ derive_bootstrap_candidate d psk slot = Some mask.

Definition covert_or_none (descriptors : list BootstrapDescriptor) (r : outcome (option MaskProfile)) : Prop :=
  exists o, r = Ok o /\ forall mask, o = Some mask -> covert descriptors mask.

Lemma none_covert descriptors : covert_or_none descriptors (Ok None).
Proof. by exists None. Qed.

Lemma candidates_covert descriptors d mask :
  d ∈ descriptors -> mask ∈ derive_bootstrap_candidates d psk -> covert descriptors mask.
Proof. intros Hd (slot & Hs & Hm)%list_elem_of_omap. by exists d, slot. Qed.

Lemma base_candidates_covert descriptors base protocol d mask :
  d ∈ descriptors -> mask ∈ base_candidates psk base protocol d -> covert descriptors mask.
Proof.
  intros Hd (slot & Hs & Hm)%list_elem_of_omap. exists d, slot. split; [done|]. split; [done|].
  unfold derive_bootstrap_candidate. destruct (derive_bootstrap_candidate_with_base d psk slot) as [[id m]|]; [|done].
  by destruct (_ && _) in Hm.
Qed.

Lemma index_mod {A} (l : list A) i : l <> [] -> exists x, l !! Z.to_nat (i mod len l) = Some x /\ x ∈ l.
Proof.
  intros Hl. assert (0 < len l) as Hpos by (destruct l; [done|cbn; lia]).
  destruct (lookup_lt_is_Some_2 l (Z.to_nat (i mod len l))) as [x Hx].
  { pose proof (Z.mod_pos_bound i (len l) Hpos). lia. }
  exists x. split; [done|]. by eapply list_elem_of_lookup_2.
Qed.

Lemma preferred_covert descriptors name streak now :
  covert_or_none descriptors (preferred_bootstrap_candidate_for_attempt psk descriptors name streak now).
Proof.
  unfold preferred_bootstrap_candidate_for_attempt.
  destruct (preset_masks.by_id _) as [base|]; [|apply none_covert].
  set (groups := List.filter _ _). destruct (decide (groups = [])) as [->|Hne]; [apply none_covert|].
  destruct (index_mod groups (streak / HANDSHAKE_FALLBACK_THRESHOLD) Hne) as (candidates & Hi & Hin).
  destruct groups as [|g rest] eqn:Eg; [done|]. rewrite <-Eg in *. rewrite Hi.
  apply list_elem_of_In, List.filter_In in Hin as [Hin Hnil%negb_true_iff].
  rewrite bool_decide_eq_false in Hnil.
  destruct (index_mod candidates (streak / HANDSHAKE_FALLBACK_THRESHOLD / len groups) Hnil) as (mask & Hj & Hmask).
  rewrite Hj. exists (Some mask). split; [done|]. intros mask' [= <-].
  apply List.in_map_iff in Hin as (d & <- & [Hd _]%List.filter_In).
  eapply base_candidates_covert; [by apply list_elem_of_In|done].
Qed.

Lemma rotation_covert descriptors streak now :
  Forall (fun d => candidate_count d < 256) descriptors ->
  covert_or_none descriptors (bootstrap_candidate_for_attempt psk descriptors streak now).
Proof.
  intros Hcount. unfold bootstrap_candidate_for_attempt. set (groups := rotation_groups psk descriptors now).
  destruct (decide (groups = [])) as [->|Hne]; [apply none_covert|].
  destruct (index_mod groups (streak / HANDSHAKE_FALLBACK_THRESHOLD) Hne) as ([d first] & Hi & Hin).
  destruct groups as [|g rest] eqn:Eg; [done|]. rewrite <-Eg in *. rewrite Hi.
  apply list_elem_of_omap in Hin as (d' & Hd & Hfirst). destruct (first_slot psk d') as [f|] eqn:E; [|done].
  injection Hfirst as -> ->. apply list_elem_of_In, List.filter_In in Hd as [Hd%list_elem_of_In _].
  apply List.find_some in E as [Hs%list_elem_of_In _]. pose proof Hs as Hrange%elem_of_seqZ.
  rewrite Forall_forall in Hcount. specialize (Hcount d Hd). cbn in Hcount.
  destruct (Z.eqb_spec (candidate_count d) 0); [lia|]. set (q := _ / len groups).
  pose proof (Z.mod_pos_bound q (candidate_count d) ltac:(lia)). unfold wrap8.
  rewrite (Z.mod_small (q mod _)) by lia. eexists. split; [done|]. intros mask Hm.
  destruct (derive_bootstrap_candidate d psk (q mod candidate_count d)) as [m|] eqn:Em.
  - injection Hm as <-. exists d, (q mod candidate_count d). split; [done|]. split; [apply elem_of_seqZ; lia|done].
  - by exists d, first.
Qed.

Lemma head_elem {A} (l : list A) x : head l = Some x -> x ∈ l.
Proof. destruct l; [done|]. intros [= <-]. by apply elem_of_cons; left. Qed.

Lemma by_descriptor_covert descriptors name mask : by_descriptor psk descriptors name = Some mask -> covert descriptors mask.
Proof.
  unfold by_descriptor. destruct (strip_prefix _ name) as [rest|]; [|done].
  destruct (List.find _ descriptors) as [d|] eqn:E; [|done].
  apply List.find_some in E as [Hd%list_elem_of_In _]. cbv zeta.
  destruct (List.find _ _) as [m|] eqn:Ef.
  - intros [= <-]. apply List.find_some in Ef as [Hm%list_elem_of_In _]. by eapply candidates_covert.
  - intros Hm%head_elem. by eapply candidates_covert.
Qed.

Lemma first_covert_covert descriptors :
  (exists mask, covert descriptors mask) -> exists mask, first_covert psk descriptors = Some mask /\ covert descriptors mask.
Proof.
  induction descriptors as [|d descriptors IH]; cbn [first_covert]; intros (mask & d' & slot & Hd & Hs & Hm).
  - by apply not_elem_of_nil in Hd.
  - destruct (head (derive_bootstrap_candidates d psk)) as [m|] eqn:E.
    + exists m. split; [done|]. eapply candidates_covert; [by apply elem_of_cons; left|by apply head_elem].
    + apply elem_of_cons in Hd as [->|Hd].
      * assert (mask ∈ derive_bootstrap_candidates d psk) as Hin by (apply list_elem_of_omap; eauto).
        destruct (derive_bootstrap_candidates d psk); [by apply not_elem_of_nil in Hin|done].
      * destruct IH as (m & Hm' & d2 & s2 & Hd2 & ?); [by exists mask, d', slot|].
        exists m. split; [done|]. exists d2, s2. split; [by apply elem_of_cons; right|done].
Qed.

Lemma resolve_covert preferred descriptors now :
  (exists mask, covert descriptors mask) ->
  exists mask, resolve_handshake_mask psk true preferred descriptors now = Ok mask /\ covert descriptors mask.
Proof.
  intros Hsome. destruct (first_covert_covert descriptors Hsome) as (first & Hfirst & Hcov).
  assert (len descriptors <> 0) as Hne.
  { destruct Hsome as (? & d & ? & Hd & _). destruct descriptors; [by apply not_elem_of_nil in Hd|cbn; lia]. }
  unfold resolve_handshake_mask. cbn [andb]. rewrite bool_decide_eq_false_2 by done. cbn [negb].
  destruct (wanted preferred) as [name|].
  - destruct (preferred_covert descriptors name 0 now) as (o & -> & Ho). cbn [obind].
    destruct o as [m|]; [exists m; by auto|].
    destruct (by_descriptor psk descriptors name) as [m|] eqn:E.
    + exists m. split; [done|]. by eapply by_descriptor_covert.
    + rewrite Hfirst. eauto.
  - cbn [obind]. rewrite Hfirst. eauto.
Qed.

(** A protected build that holds a descriptor with a candidate always opens with
    a candidate of a descriptor it holds, whatever the user prefers and however many
    attempts have failed; it never falls back to a built-in mask. *)
Theorem protected_choice preferred descriptors streak now :
  (exists mask, covert descriptors mask) -> Forall (fun d => candidate_count d < 256) descriptors ->
  exists mask, resolve_handshake_mask_resilient psk true preferred descriptors streak now = Ok mask /\
    covert descriptors mask.
Proof.
  intros Hsome Hcount. unfold resolve_handshake_mask_resilient.
  assert (covert_or_none descriptors (match preferred with
    | Some name => preferred_bootstrap_candidate_for_attempt psk descriptors name streak now
    | None => Ok None end)) as (o & -> & Ho) by (destruct preferred; [apply preferred_covert|apply none_covert]).
  cbn [obind]. destruct o as [m|]; [exists m; by auto|].
  assert (covert_or_none descriptors (if HANDSHAKE_FALLBACK_THRESHOLD <=? streak
    then bootstrap_candidate_for_attempt psk descriptors streak now else Ok None)) as (o & -> & Ho')
    by (destruct (_ <=? _); [by apply rotation_covert|apply none_covert]).
  cbn [obind]. destruct o as [m|]; [exists m; by auto|]. by apply resolve_covert.
Qed.
End Chosen.

(** ** Descriptors kept by the application *)

Section Persisted.
Context {PR : Primitives} {EN : Encodings}.

Lemma insert_newest_perm d l : insert_newest d l ≡ₚ d :: l.
Proof. induction l as [|x l IH]; cbn; [done|]. destruct (_ <? _); [done|]. rewrite IH. apply perm_swap. Qed.

Lemma insert_newest_sorted d l :
  Sorted (fun a b => created_at b <= created_at a) l -> Sorted (fun a b => created_at b <= created_at a) (insert_newest d l).
Proof.
  induction 1 as [|x l Hl IH Hx]; cbn; [by repeat constructor|].
  destruct (Z.ltb_spec (created_at x) (created_at d)); [repeat constructor; done || lia|].
  constructor; [done|]. destruct l as [|y l]; cbn; [by constructor|].
  inversion Hx; subst. destruct (_ <? _); constructor; done.
Qed.

(** The descriptors a client takes from its storage are those that are valid
    now and, with a trusted key, carry its signature over their own content; without
    a key a protected build takes none. They come newest first. *)
Theorem persisted_trusted production_secure parsed key now :
  let out := accept_persisted_descriptors production_secure parsed key now in
  Sorted (fun a b => created_at b <= created_at a) out /\
  forall d, d ∈ out <-> d ∈ parsed /\ is_valid_at d now = true /\
    match key with
    | Some k => d_signature d <> zeros 64 /\ verifying_key_ok k = true /\
        verify_strict k (d_signing_bytes d) (d_signature d) = true
    | None => production_secure = false
    end.
Proof.
  unfold accept_persisted_descriptors, sort_newest. set (l := List.filter _ _). split.
  - assert (forall acc, Sorted (fun a b => created_at b <= created_at a) acc ->
      Sorted (fun a b => created_at b <= created_at a) (fold_left (fun sorted d => insert_newest d sorted) l acc)) as H.
    { induction l as [|d l IH]; intros acc Hacc; [done|]. cbn. by apply IH, insert_newest_sorted. }
    apply H. constructor.
  - intros d. assert (forall acc, fold_left (fun sorted d => insert_newest d sorted) l acc ≡ₚ l ++ acc) as Hperm.
    { induction l as [|x l IH]; intros acc; [done|]. cbn. rewrite IH, insert_newest_perm. by rewrite Permutation_middle. }
    assert (trusted production_secure key d = true <-> match key with
      | Some k => d_signature d <> zeros 64 /\ verifying_key_ok k = true /\
          verify_strict k (d_signing_bytes d) (d_signature d) = true
      | None => production_secure = false end) as Ht.
    { unfold trusted, d_verify_signature. destruct key as [k|]; [|by rewrite negb_true_iff].
      rewrite andb_true_iff, negb_true_iff, bool_decide_eq_false.
      destruct (verifying_key_ok k); cbn [negb]; [destruct (verify_strict _ _ _)|]; intuition congruence. }
    rewrite Hperm, app_nil_r, <-Ht. unfold l. rewrite !list_elem_of_In, !List.filter_In. tauto.
Qed.
End Persisted.

(** ** Runs *)

#[local] Existing Instance toy_primitives.
#[local] Existing Instance plain_hex.

Definition sample_descriptor : BootstrapDescriptor :=
  {| descriptor_id := str_bytes "epoch-1"; d_version := 1; created_at := 10; expires_at := 90; base_mask_ids := [];
     embedded_masks := []; candidate_count := 3; kdf_salt := 1 :: 2 :: zeros 30; d_signature := zeros 64 |}.

(** Its third candidate: the QUIC mask with a gap of two bytes. *)
Definition sample_candidate : MaskProfile :=
  with_mask_id (add_gap preset_masks.quic_https_v2 2)
    (candidate_id (str_bytes "epoch-1") (str_bytes "quic_https_v2") 2 1 2).

Lemma sample_derived : derive_bootstrap_candidate sample_descriptor None 2 = Some sample_candidate.
Proof. vm_compute. reflexivity. Qed.

Lemma sample_slot : 2 ∈ slots sample_descriptor.
Proof. apply elem_of_seqZ. cbn. lia. Qed.

Lemma sample_covert : covert None [sample_descriptor] sample_candidate.
Proof. exists sample_descriptor, 2. split; [apply elem_of_cons; by left|]. split; [apply sample_slot|apply sample_derived]. Qed.

Lemma variants_agree_witness : handshake_mask_ok sample_candidate.
Proof.
  refine (proj1 (variants_agree sample_descriptor None 2 sample_candidate 4 (zeros 16) _ _ _)).
  - intros m Hm. by apply not_elem_of_nil in Hm.
  - lia.
  - left. split; [apply sample_derived|]. vm_compute. congruence.
Defined.

Lemma candidate_family_witness : base_mask_family (mask_id sample_candidate) = str_bytes "quic_https_v2".
Proof.
  refine (proj2 (candidate_family None sample_descriptor 2 (str_bytes "quic_https_v2") sample_candidate
    preset_masks.quic_https_v2 _ _ _ _) _).
  - lia.
  - vm_compute. reflexivity.
  - vm_compute. reflexivity.
  - vm_compute. reflexivity.
  - apply (bool_decide_unpack _). vm_compute. exact I.
Defined.

Lemma named_candidate_used_witness :
  resolve_handshake_mask None false (Some (mask_id sample_candidate)) [sample_descriptor] 50 = Ok sample_candidate.
Proof.
  apply (named_candidate_used None [sample_descriptor] [] sample_descriptor [] 2 sample_candidate 50).
  - reflexivity.
  - constructor.
  - apply (bool_decide_unpack _). vm_compute. exact I.
  - cbn. lia.
  - apply sample_slot.
  - apply sample_derived.
Defined.

Lemma rotation_covers_witness :
  exists round, bootstrap_candidate_for_attempt None [sample_descriptor] (3 * round + 0) 50 = Ok (Some sample_candidate).
Proof.
  destruct (rotation_covers None [sample_descriptor] 50 sample_descriptor 2 sample_candidate) as (round & _ & H).
  - apply elem_of_cons. by left.
  - reflexivity.
  - cbn. lia.
  - apply sample_slot.
  - apply sample_derived.
  - exists round. apply H. unfold HANDSHAKE_FALLBACK_THRESHOLD. lia.
Defined.

Lemma protected_choice_witness :
  exists mask, resolve_handshake_mask_resilient None true (Some (str_bytes "webrtc_zoom_v3")) [sample_descriptor] 7 50
    = Ok mask /\ covert None [sample_descriptor] mask.
Proof.
  apply (protected_choice None (Some (str_bytes "webrtc_zoom_v3")) [sample_descriptor] 7 50).
  - exists sample_candidate. apply sample_covert.
  - repeat constructor.
Defined.
