(* ===== verification/SessionReplay.v ===== *)
(** * No packet is accepted twice

    The replay protection of [Session] ([crates/aivpn-server/src/session.rs]) as
    the gateway drives it ([gateway/packet_ingress.rs]): a packet that passed the
    AEAD check is admitted by [authenticated_counter_epoch], marked, and the tag
    window is refreshed. The theorem follows a session through any sequence of
    packets, window refreshes, merges with the kernel's window, the PFS ratchet,
    inline rekeys and the expiry of the grace period: no pair of key and counter is
    admitted twice. *)

From S2P Require Import Prelude Collections Bitmap Protocol ReplayWindow Quality Crypto Session.
Local Open Scope Z_scope.

(** ** Freshness *)

Lemma fresh_clear_hint r c : counter_is_fresh (clear_consumed_tag_hint r) c = counter_is_fresh r c.
Proof. unfold clear_consumed_tag_hint. by destruct (is_some_and _ _). Qed.

Lemma fresh_spec r c :
  0 <= c -> counter_is_fresh r c = true <->
  counter r < c \/ (c <= counter r /\ counter r - c < 512 /\ bit_at (ReplayWindow.words (received_bitmap r)) (counter r - c) = false).
Proof.
  intros Hc. unfold counter_is_fresh, TAG_WINDOW_SIZE.
  destruct (Z.ltb_spec (counter r) c) as [Hlt|Hge]; cbn [orb]; [intuition lia|].
  rewrite get_bit_at by lia. destruct (Z.ltb_spec (counter r - c) 512); cbn [andb]; [|intuition (lia || done)].
  rewrite negb_true_iff. intuition lia.
Qed.

Lemma stale_le r c : counter_is_fresh r c = false -> c <= counter r.
Proof. unfold counter_is_fresh. destruct (Z.ltb_spec (counter r) c); [done|]. done. Qed.

(** Marking a counter makes it stale, and otherwise only ages the window. *)
Lemma fresh_mark r c x :
  window_ok (received_bitmap r) -> 0 <= c -> 0 <= x ->
  counter_is_fresh (mark_tag_received r c) x =
    counter_is_fresh r x && negb (x =? c) && (Z.max (counter r) c - x <? 512).
Proof.
  intros Hw Hc Hx. unfold mark_tag_received, TAG_WINDOW_SIZE.
  destruct (Z.ltb_spec (counter r) c) as [Hlt|Hge]; rewrite fresh_clear_hint.
  - unfold counter_is_fresh, TAG_WINDOW_SIZE. cbn [with_window counter received_bitmap]. rewrite Z.max_r by lia.
    destruct (Z.ltb_spec c x) as [Hxc|Hxc]; cbn [orb].
    { destruct (Z.ltb_spec (counter r) x), (Z.eqb_spec x c), (Z.ltb_spec (c - x) 512); lia || done. }
    destruct (Z.ltb_spec (c - x) 512) as [Hin|]; [|by rewrite andb_false_r]. cbn [andb].
    rewrite get_bit_set by (lia || by apply shift_left_ok; [|lia]).
    rewrite get_bit_shift by (done || lia). rewrite andb_true_r.
    destruct (Z.eqb_spec x c) as [->|Hne].
    { rewrite Z.sub_diag. cbn. by rewrite andb_false_r. }
    rewrite (proj2 (Z.eqb_neq 0 (c - x))) by lia. rewrite (proj2 (Z.ltb_lt (c - x) 512)) by lia. cbn [orb andb negb].
    rewrite andb_true_r. destruct (Z.ltb_spec (counter r) x) as [Hnew|Hold]; cbn [orb].
    { by rewrite (proj2 (Z.leb_gt (c - counter r) (c - x))) by lia. }
    rewrite (proj2 (Z.leb_le (c - counter r) (c - x))) by lia. cbn [andb].
    replace (c - x - (c - counter r)) with (counter r - x) by lia.
    by rewrite (proj2 (Z.ltb_lt (counter r - x) 512)) by lia.
  - rewrite Z.max_l by lia. destruct (Z.ltb_spec (counter r - c) 512) as [Hin|Hout].
    + unfold counter_is_fresh, TAG_WINDOW_SIZE. cbn [with_window counter received_bitmap].
      destruct (Z.ltb_spec (counter r) x) as [Hnew|Hold]; cbn [orb].
      { destruct (Z.eqb_spec x c), (Z.ltb_spec (counter r - x) 512); lia || done. }
      rewrite get_bit_set by (done || lia).
      destruct (Z.eqb_spec (counter r - c) (counter r - x)), (Z.eqb_spec x c); try lia; cbn [orb negb];
        rewrite ?andb_false_r, ?andb_true_r;
        destruct (Z.ltb_spec (counter r - x) 512); cbn [andb]; by rewrite ?andb_true_r.
    + unfold counter_is_fresh, TAG_WINDOW_SIZE.
      destruct (Z.ltb_spec (counter r) x), (Z.eqb_spec x c), (Z.ltb_spec (counter r - x) 512);
        cbn [orb andb negb]; try lia; by rewrite ?andb_true_r, ?andb_false_r.
Qed.

(** Merging with the kernel's window never makes a counter fresh again. *)
Lemma fresh_absorb r hi ws x :
  0 <= x -> counter_is_fresh (absorb_shared_replay r hi ws) x = true -> counter_is_fresh r x = true.
Proof.
  intros Hx. unfold absorb_shared_replay.
  pose proof (merge_marked (counter r) (ReplayWindow.words (received_bitmap r)) hi ws x Hx) as Hm.
  destruct (merge_replay_window _ _ _ _) as [c ws'] eqn:E. rewrite fresh_clear_hint.
  assert (c = Z.max (counter r) hi) as -> by (unfold merge_replay_window in E; congruence).
  rewrite !replay_marked_at in Hm. rewrite !fresh_spec by done. cbn [with_window counter received_bitmap ReplayWindow.words].
  intros [Hlt|(Hle & Hin & Hbit)]; [left; lia|].
  rewrite Hbit, andb_false_r in Hm. rewrite (proj2 (Z.ltb_lt (Z.max (counter r) hi - x) 512)) in Hm by lia.
  cbn [andb] in Hm. symmetry in Hm. apply orb_false_iff in Hm as [Hm _].
  destruct (Z.leb_spec x (counter r)); [|left; lia]. right. split; [done|]. split; [lia|].
  rewrite (proj2 (Z.ltb_lt (counter r - x) 512)) in Hm by lia. done.
Qed.

(** ** The window as a set

    Receiving a list of counters, whatever their order, their repetitions and their age. *)

Definition receive_all (r : Inbound) (cs : list Z) : Inbound := fold_left mark_tag_received cs r.

Lemma mark_window_ok r c :
  window_ok (received_bitmap r) -> 0 <= c -> window_ok (received_bitmap (mark_tag_received r c)).
Proof.
  intros Hw Hc. unfold mark_tag_received, clear_consumed_tag_hint.
  destruct (Z.ltb_spec (counter r) c); repeat case_match; cbn [received_bitmap with_window]; try done;
    apply set_bit_ok; done || (apply shift_left_ok; [done|lia]).
Qed.

Lemma counter_mark r c : counter (mark_tag_received r c) = Z.max (counter r) c.
Proof.
  unfold mark_tag_received, clear_consumed_tag_hint.
  destruct (Z.ltb_spec (counter r) c); repeat case_match; cbn [counter with_window]; lia.
Qed.

(** The eight shifted words are exactly the set of received counters: after any list of counters, a
    counter is fresh if and only if it was never received and is less than 512 below the highest one,
    so duplicates are refused, reordering inside the window is not, and everything older is refused. *)
Theorem window_is_set r cs x :
  window_ok (received_bitmap r) -> 0 <= x -> Forall (fun c => 0 <= c) cs ->
  let r' := receive_all r cs in
  counter r' = foldr Z.max (counter r) cs /\
  ((counter_is_fresh r' x = true) <->
   counter_is_fresh r x = true /\ (x ∉ cs) /\ ((counter r' - x < 512)%Z \/ cs = [])).
Proof.
  intros Hw Hx Hcs. cbv zeta. unfold receive_all. revert r Hw.
  induction Hcs as [|c cs Hc Hcs IH]; intros r Hw; cbn [fold_left foldr].
  { split; [done|]. pose proof (not_elem_of_nil x). tauto. }
  destruct (IH (mark_tag_received r c) (mark_window_ok r c Hw Hc)) as [Ec Ef]. rewrite Ef, Ec.
  assert (foldr Z.max (counter (mark_tag_received r c)) cs = Z.max c (foldr Z.max (counter r) cs)) as ->.
  { rewrite counter_mark. clear. induction cs as [|d cs IH]; cbn [foldr]; lia. }
  split; [done|]. rewrite fresh_mark, !andb_true_iff, negb_true_iff, Z.eqb_neq, Z.ltb_lt, not_elem_of_cons by done.
  assert (Z.max (counter r) c <= Z.max c (foldr Z.max (counter r) cs)) as Hle.
  { clear. induction cs as [|d cs IH]; cbn [foldr]; lia. }
  split.
  - intros (((? & ?) & Hlt) & Hn & Hlim). split; [done|]. split; [done|]. left.
    destruct Hlim as [?| ->]; cbn [foldr] in *; lia.
  - intros (? & (? & ?) & [?|?]); [|done]. split_and!; try done; [lia|by left].
Qed.

(** ** The life of a session *)

Inductive event : Type :=
  (** A packet that opened under the keys of [secret] reaches the replay gate. *)
  | Receive (secret : bytes) (c now : Z)
  (** A packet that goes on refreshes the tag window when it moved far enough. *)
  | Refresh (now ts : Z)
  (** A lookup in a new time window rebuilds the tags. *)
  | NextTimeWindow (now ts : Z)
  (** The counters of the kernel are merged. *)
  | Absorb (hi : Z) (ws : list Z)
  | StartRekey (fresh : KeyPair) (now ts : Z)
  | Retransmit (now : Z)
  (** A packet that carries [KeyRotate]. *)
  | RekeyPacket (secret : bytes) (c : Z) (eph : bytes) (now ts : Z)
  | CompleteRatchet (now : Z)
  | Purge (now : Z).

(** Counters are [u64]. *)
Definition event_wf (e : event) : Prop :=
  match e with
  | Receive _ c _ | RekeyPacket _ c _ _ _ => u64_ok c
  | Absorb hi _ => u64_ok hi
  | _ => True
  end.

Section Life.
Context {PR : Primitives}.

(** The session after an event, and the packets it admitted. *)
Definition handle (s : Session) (e : event) : Session * list (bytes * Z) :=
  match e with
  | Receive secret c now =>
      let '(s, ok) := replay_gate s c secret now in (s, if ok then [(secret, c)] else [])
  | Refresh now ts => ((refresh_tag_window_if_needed s now ts).1, [])
  | NextTimeWindow now ts => (update_ratcheted_tag_window (update_tag_window s now ts) ts, [])
  | Absorb hi ws => (with_rx (absorb_shared_replay (rx s) hi ws) s, [])
  | StartRekey fresh now ts => ((start_rekeying s fresh now ts).1, [])
  | Retransmit now => ((rekey_retransmit s now).1, [])
  | RekeyPacket secret c eph now ts =>
      let '(s, ok) := replay_gate s c secret now in
      if ok then (commit_session_rekey (refresh_tag_window_if_needed s now ts).1 eph now ts, [(secret, c)])
      else (s, [])
  | CompleteRatchet now => (complete_ratchet s now, [])
  | Purge now => (purge_grace s now, [])
  end.

(** The packets a sequence of events admits, in order. *)
Fixpoint run (s : Session) (es : list event) : list (bytes * Z) :=
  match es with
  | [] => []
  | e :: es => let '(s, admitted) := handle s e in admitted ++ run s es
  end.

(** The keys that an inline rekey would install. *)
Definition offered_keys (s : Session) (eph : bytes) : option SessionKeys :=
  match pending_rekey_keypair (rekey s) with
  | None => None
  | Some kp =>
      match compute_shared kp eph with
      | Ok dh => Some (derive_session_keys dh (Some (session_key (keys s))) eph)
      | _ => None
      end
  end.

(** The keys that an event may install. *)
Definition incoming_keys (s : Session) (e : event) : option SessionKeys :=
  match e with
  | RekeyPacket _ _ eph _ _ => offered_keys s eph
  | CompleteRatchet _ => ratcheted_keys (ratchet s)
  | _ => None
  end.

(** Key derivation never repeats a tag secret of the session. *)
Fixpoint fresh_keys (s : Session) (used : list bytes) (es : list event) : Prop :=
  match es with
  | [] => True
  | e :: es =>
      (forall k, incoming_keys s e = Some k -> tag_secret k ∉ used) /\
      fresh_keys (handle s e).1 (tag_secret (keys (handle s e).1) :: used) es
  end.

Definition unused (used : list bytes) (o : option SessionKeys) : bool :=
  match o with Some k => bool_decide (tag_secret k ∉ used) | None => true end.

(** [fresh_keys] as a program. *)
Fixpoint fresh_keys_check (s : Session) (used : list bytes) (es : list event) : bool :=
  match es with
  | [] => true
  | e :: es =>
      let s' := (handle s e).1 in
      unused used (incoming_keys s e) && fresh_keys_check s' (tag_secret (keys s') :: used) es
  end.

Lemma fresh_keys_checked es s used : fresh_keys_check s used es = true -> fresh_keys s used es.
Proof.
  revert s used. induction es as [|e es IH]; intros s used; [done|]. cbn [fresh_keys_check fresh_keys].
  intros [Hu H]%andb_true_iff. split; [|by apply IH]. intros k Hk. rewrite Hk in Hu. by apply bool_decide_eq_true in Hu.
Qed.

(** ** The books

    [h] holds the packets admitted so far, [used] the secrets in use so far. *)

Record inbound_ok (r : Inbound) : Prop := {
  in_window : window_ok (received_bitmap r);
  in_counter : u64_ok (counter r);
  in_hint : forall x, tag_search_hint r = Some x -> u64_ok x;
}.

(** The precomputed tags cover the band of the window. *)
Definition banded (r : Inbound) : Prop :=
  forall c, u64_ok c -> sat_sub (tag_window_base r) 511 <= c <= tag_window_base r + 511 ->
    is_Some (expected_tags r !! c).

(** No admitted counter of the previous keys can be admitted again, not even after
    their window moves. *)
Definition previous_ok (g : Grace) (h : list (bytes * Z)) : Prop :=
  forall k c, pre_ratchet_keys g = Some k -> (tag_secret k, c) ∈ h ->
    c ∈ pre_ratchet_received g \/
    (pre_ratchet_tags g !! c = None /\
     (pre_ratchet_monotonic g = true -> c < sat_sub (pre_ratchet_window_base g) 511)).

(** The prepared ratchet has its tags, and excludes an inline rekey. *)
Definition ratchet_ok (t : Ratchet) (k : Rekey) : Prop :=
  is_Some (ratcheted_keys t) ->
  (forall c, 0 <= c <= 511 -> is_Some (ratcheted_expected_tags t !! c)) /\
  is_ratcheted t = false /\ pending_rekey_keypair k = None.

Record books (s : Session) (h : list (bytes * Z)) (used : list bytes) : Prop := {
  bk_inbound : inbound_ok (rx s);
  bk_spent : forall c, (tag_secret (keys s), c) ∈ h -> counter_is_fresh (rx s) c = false;
  bk_history : forall k c, (k, c) ∈ h -> u64_ok c /\ k ∈ used;
  bk_used : tag_secret (keys s) ∈ used;
  bk_distinct : forall k, pre_ratchet_keys (grace s) = Some k ->
    tag_secret k <> tag_secret (keys s) /\ tag_secret k ∈ used;
  bk_previous : previous_ok (grace s) h;
  bk_ratchet : ratchet_ok (ratchet s) (rekey s);
}.

Lemma lookup_tag_band secret tw lo hi c :
  tag_band secret tw lo hi !! c =
    if decide (lo <= c <= hi) then Some (generate_resonance_tag secret c tw) else None.
Proof.
  unfold tag_band. case_decide as Hc.
  - apply elem_of_list_to_map_1.
    + rewrite <-list_fmap_compose. rewrite (list_fmap_ext _ id) by done. rewrite list_fmap_id. apply NoDup_seqZ.
    + apply list_elem_of_fmap. exists c. split; [done|]. apply elem_of_seqZ. lia.
  - apply not_elem_of_list_to_map_1. rewrite <-list_fmap_compose, (list_fmap_ext _ id) by done.
    rewrite list_fmap_id, elem_of_seqZ. lia.
Qed.

(** ** Receiving *)

Lemma clear_hint_ok r : inbound_ok r -> inbound_ok (clear_consumed_tag_hint r).
Proof. intros [Hw Hc Hh]. unfold clear_consumed_tag_hint. destruct (is_some_and _ _); by split. Qed.

Lemma with_window_ok r c w : inbound_ok r -> window_ok w -> u64_ok c -> inbound_ok (with_window r c w).
Proof. intros [Hw Hc Hh] ??. by split. Qed.

Lemma mark_ok r c : inbound_ok r -> u64_ok c -> inbound_ok (mark_tag_received r c).
Proof.
  intros Hr Hc. pose proof (in_window _ Hr) as Hw. pose proof (in_counter _ Hr) as Hk.
  unfold mark_tag_received. destruct (Z.ltb_spec (counter r) c); apply clear_hint_ok.
  - apply with_window_ok; [done| |done]. apply set_bit_ok, shift_left_ok; [done|lia].
  - destruct (_ <? _); [|done]. apply with_window_ok; [done|by apply set_bit_ok|done].
Qed.

Lemma absorb_ok r hi ws : inbound_ok r -> u64_ok hi -> inbound_ok (absorb_shared_replay r hi ws).
Proof.
  intros Hr Hh. unfold absorb_shared_replay, merge_replay_window. apply clear_hint_ok, with_window_ok; [done| |].
  - apply merge_bits_ok, words_ok_zeros.
  - pose proof (in_counter _ Hr). unfold u64_ok in *. lia.
Qed.

Lemma stale_mark r c x :
  inbound_ok r -> u64_ok c -> u64_ok x -> counter_is_fresh r x = false \/ x = c ->
  counter_is_fresh (mark_tag_received r c) x = false.
Proof.
  intros Hr Hc Hx H. rewrite fresh_mark; [|apply Hr|apply Hc|apply Hx].
  destruct H as [-> | ->]; [done|]. by rewrite Z.eqb_refl, andb_false_r.
Qed.

Lemma center_bounds r : inbound_ok r -> counter r <= tag_search_center r /\ u64_ok (tag_search_center r).
Proof.
  intros [_ Hc Hh]. unfold tag_search_center, u64_ok in *.
  destruct (tag_search_hint r) as [x|]; cbn; [specialize (Hh x eq_refl)|]; lia.
Qed.

Lemma hint_ok s c : inbound_ok (rx s) -> u64_ok c -> inbound_ok (rx (mark_pre_ratchet_received s c)).
Proof.
  intros Hr Hc. pose proof (center_bounds _ Hr) as [_ Hz]. destruct Hr as [Hw Hk Hh].
  unfold mark_pre_ratchet_received. cbn [rx with_rx]. destruct (_ && (counter (rx s) <? c)); [|done].
  split; cbn; try done. intros x [= <-]. unfold u64_ok in *. lia.
Qed.

Lemma fresh_mark_pre s c x :
  counter_is_fresh (rx (mark_pre_ratchet_received s c)) x = counter_is_fresh (rx s) x.
Proof. unfold mark_pre_ratchet_received. cbn [rx with_rx]. by destruct (_ && (counter (rx s) <? c)). Qed.

(** A packet of the previous keys that the gate admits was not admitted before. *)
Lemma previous_admits g h k c :
  previous_ok g h -> pre_ratchet_keys g = Some k -> is_Some (pre_ratchet_tags g !! c) ->
  c ∉ pre_ratchet_received g -> (tag_secret k, c) ∉ h.
Proof. intros Hp Hk [t Ht] Hn Hin. destruct (Hp k c Hk Hin) as [|[Hnone _]]; [done|congruence]. Qed.

(** More marks of the previous keys, and one more admitted packet. *)
Lemma previous_mark g g' h secret c :
  previous_ok g h -> pre_ratchet_keys g' = pre_ratchet_keys g -> pre_ratchet_tags g' = pre_ratchet_tags g ->
  pre_ratchet_monotonic g' = pre_ratchet_monotonic g ->
  pre_ratchet_window_base g' = pre_ratchet_window_base g ->
  pre_ratchet_received g' = {[c]} ∪ pre_ratchet_received g -> previous_ok g' ((secret, c) :: h).
Proof.
  intros Hp Ek Et Em Eb Er k x Hk. rewrite Ek in Hk. rewrite Et, Em, Eb, Er.
  intros [[= _ ->]|Hin]%elem_of_cons; [left; set_solver|].
  destruct (Hp k x Hk Hin); [left; set_solver|by right].
Qed.

Lemma previous_other g h secret c :
  previous_ok g h -> (forall k, pre_ratchet_keys g = Some k -> tag_secret k <> secret) ->
  previous_ok g ((secret, c) :: h).
Proof.
  intros Hp Hd k x Hk [[= E _]|Hin]%elem_of_cons; [by destruct (Hd k Hk)|by apply (Hp k x)].
Qed.

Lemma in_grace_keys g now k : pre_ratchet_keys_in_grace g now = Some k -> pre_ratchet_keys g = Some k.
Proof. unfold pre_ratchet_keys_in_grace. by destruct (is_some_and _ _). Qed.

(** Marks of the current keys. *)
Lemma books_mark s h used c :
  books s h used -> u64_ok c -> books (with_rx (mark_tag_received (rx s) c) s) h used.
Proof.
  intros [Hr Hs Hh Hu Hd Hp Ht] Hc. split; try done; cbn [rx with_rx keys].
  - by apply mark_ok.
  - intros x Hx. apply stale_mark; [done|done|by eapply Hh|left; by apply Hs].
Qed.

(** One more packet of the current keys, once its counter is marked. *)
Lemma books_admit_current s h used c :
  books s h used -> u64_ok c ->
  books (with_rx (mark_tag_received (rx s) c) s) ((tag_secret (keys s), c) :: h) used.
Proof.
  intros B Hc. pose proof (books_mark _ _ _ _ B Hc) as [Hr Hs Hh Hu Hd Hp Ht].
  split; try done; cbn [rx with_rx keys grace] in *.
  - intros x [[= ->]|Hx]%elem_of_cons; [|by apply Hs].
    apply stale_mark; [apply B|done|done|by right].
  - intros k x [[= -> ->]|Hx]%elem_of_cons; [done|by apply Hh].
  - apply previous_other; [done|]. by intros k [? _]%Hd.
Qed.

Lemma books_mark_previous s h used c k :
  books s h used -> u64_ok c -> pre_ratchet_keys (grace s) = Some k ->
  books (mark_pre_ratchet_received s c) ((tag_secret k, c) :: h) used.
Proof.
  intros [Hr Hs Hh Hu Hd Hp Ht] Hc Hk. destruct (Hd k Hk) as [Hne Hin]. split; try done.
  - by apply hint_ok.
  - intros x [[= E _]|Hx]%elem_of_cons; [by destruct Hne|]. rewrite fresh_mark_pre. by apply Hs.
  - intros k' x [[= -> ->]|Hx]%elem_of_cons; [done|by apply Hh].
  - by apply (previous_mark (grace s)).
Qed.

Lemma books_reject_previous s h used c :
  books s h used -> books (with_grace (insert_pre_received (grace s) c) s) h used.
Proof.
  intros [Hr Hs Hh Hu Hd Hp Ht]. split; try done. intros k x Hk Hx.
  destruct (Hp k x Hk Hx); [left|by right]. cbn. set_solver.
Qed.

(** The gate keeps the books, and admits only what it has not admitted before. *)
Lemma gate_books s h used c secret now s' ok :
  books s h used -> u64_ok c -> replay_gate s c secret now = (s', ok) ->
  books s' ((if ok then [(secret, c)] else []) ++ h) used /\ (ok = true -> (secret, c) ∉ h).
Proof.
  intros B Hc. unfold replay_gate, authenticated_counter_epoch. destruct (removed s); [by intros [= <- <-]|].
  case_bool_decide as Hsec.
  - subst secret. destruct (counter_is_fresh (rx s) c) eqn:Hf; [|by intros [= <- <-]].
    unfold kernel_claim_deliver. rewrite Hf. cbn [negb]. destruct (kernel_faulted (identity s)); intros [= <- <-].
    + unfold kernel_note_rejected. destruct (_ <? _); (split; [|done]); [done|by apply books_mark].
    + split; [by apply books_admit_current|]. intros _ Hin. apply (bk_spent _ _ _ B) in Hin. congruence.
  - destruct (pre_ratchet_keys_in_grace (grace s) now) as [k|] eqn:Hk; [|by intros [= <- <-]].
    apply in_grace_keys in Hk. destruct (bool_decide (tag_secret k = secret)) eqn:E; [|by intros [= <- <-]].
    apply bool_decide_eq_true in E as <-. case_bool_decide as Htag; [|by intros [= <- <-]].
    case_bool_decide as Hrec; [by intros [= <- <-]|]. cbn [andb negb]. unfold kernel_claim_deliver.
    rewrite bool_decide_eq_false_2 by done. destruct (kernel_faulted (identity s)); intros [= <- <-].
    + split; [|done]. by apply books_reject_previous.
    + split; [by apply books_mark_previous|]. intros _. by eapply previous_admits; [apply B|..].
Qed.

(** ** Moving the windows *)

Lemma band_covers secret tw base fwd c :
  511 <= fwd -> u64_ok c -> sat_sub base 511 <= c <= base + 511 ->
  is_Some (tag_band secret tw (sat_sub base (TAG_WINDOW_SIZE - 1)) (sat_add64 base fwd) !! c).
Proof.
  intros Hf Hc Hb. rewrite lookup_tag_band. unfold sat_sub, sat_add64, u64_max, u64_ok, TAG_WINDOW_SIZE in *.
  rewrite decide_True by lia. by eexists.
Qed.

Lemma window_fwd_ge k : 511 <= window_fwd k.
Proof. unfold window_fwd, TAG_WINDOW_SIZE, REKEY_TAG_LOOKAHEAD. case_bool_decide; lia. Qed.

(** The window of the previous keys after it moved to their counter. *)
Lemma previous_slide g h k tw :
  previous_ok g h -> pre_ratchet_keys g = Some k -> pre_ratchet_monotonic g = true ->
  pre_ratchet_window_base g <= pre_ratchet_counter g ->
  previous_ok {| pre_ratchet_tags := tag_band (tag_secret k) tw (sat_sub (pre_ratchet_counter g) (TAG_WINDOW_SIZE - 1))
                   (sat_add64 (pre_ratchet_counter g) (TAG_WINDOW_SIZE - 1 + REKEY_TAG_LOOKAHEAD));
                 pre_ratchet_expire := pre_ratchet_expire g; pre_ratchet_monotonic := pre_ratchet_monotonic g;
                 pre_ratchet_counter := pre_ratchet_counter g; pre_ratchet_window_base := pre_ratchet_counter g;
                 pre_ratchet_received :=
                   filter (fun c => sat_sub (pre_ratchet_counter g) (TAG_WINDOW_SIZE - 1) <= c) (pre_ratchet_received g);
                 pre_ratchet_keys := pre_ratchet_keys g |} h.
Proof.
  intros Hp Hk Hm Hb k' c. cbn. intros Hk' Hin. rewrite Hm, lookup_tag_band, elem_of_filter.
  unfold TAG_WINDOW_SIZE, sat_sub in *. destruct (Z.le_gt_cases (Z.max 0 (pre_ratchet_counter g - 511)) c) as [Hc|Hc].
  - left. split; [done|]. destruct (Hp k' c Hk' Hin) as [|[_ Hlt]]; [done|]. specialize (Hlt Hm).
    unfold sat_sub in Hlt. lia.
  - right. rewrite decide_False by lia. split; [done|]. intros _. lia.
Qed.

Lemma update_grace_books s h used now ts :
  books s h used ->
  pre_ratchet_keys (grace (update_tag_window s now ts)) = pre_ratchet_keys (grace s) /\
  previous_ok (grace (update_tag_window s now ts)) h.
Proof.
  intros B. pose proof (bk_previous _ _ _ B) as Hp. unfold update_tag_window. cbn [grace with_rx].
  destruct (pre_ratchet_keys_in_grace (grace s) now) as [k|] eqn:Hk; [|done]. apply in_grace_keys in Hk.
  destruct (pre_ratchet_monotonic (grace s)) eqn:Hm; [|done]. cbn [andb].
  destruct (Z.leb_spec 128 (sat_sub (pre_ratchet_counter (grace s)) (pre_ratchet_window_base (grace s)))); [|done].
  split; [done|]. cbn [grace with_grace]. rewrite <-Hm at 1. apply previous_slide; [done|done|done|].
  unfold sat_sub in *. lia.
Qed.

Lemma update_rest s now ts :
  let s' := update_tag_window s now ts in
  keys s' = keys s /\ ratchet s' = ratchet s /\ rekey s' = rekey s /\
  counter (rx s') = counter (rx s) /\ received_bitmap (rx s') = received_bitmap (rx s) /\
  tag_search_hint (rx s') = tag_search_hint (rx s) /\
  tag_window_base (rx s') = tag_search_center (rx s) /\
  expected_tags (rx s') = tag_band (tag_secret (keys s)) (compute_time_window ts DEFAULT_WINDOW_MS)
    (sat_sub (tag_search_center (rx s)) (TAG_WINDOW_SIZE - 1))
    (sat_add64 (tag_search_center (rx s)) (window_fwd (rekey s))).
Proof.
  cbv zeta. unfold update_tag_window. destruct (pre_ratchet_keys_in_grace _ _); [|done].
  by destruct (_ && _).
Qed.

Lemma fresh_ext r r' c :
  counter r' = counter r -> received_bitmap r' = received_bitmap r ->
  counter_is_fresh r' c = counter_is_fresh r c.
Proof. unfold counter_is_fresh. by intros -> ->. Qed.

Lemma center_ext r r' :
  counter r' = counter r -> tag_search_hint r' = tag_search_hint r -> tag_search_center r' = tag_search_center r.
Proof. unfold tag_search_center. by intros -> ->. Qed.

(** Moving the window rebuilds the band and keeps the books. *)
Lemma update_books s h used now ts :
  books s h used -> books (update_tag_window s now ts) h used /\ banded (rx (update_tag_window s now ts)).
Proof.
  intros B. destruct (update_grace_books s h used now ts B) as [Ek Hp].
  destruct (update_rest s now ts) as (E1 & E2 & E3 & E4 & E5 & E6 & E7 & E8). destruct B as [[Hw Hc Hx] Hs Hh Hu Hd _ Ht].
  split.
  - split; rewrite ?E1, ?E2, ?E3, ?Ek; try done.
    + split; by rewrite ?E4, ?E5, ?E6.
    + intros c Hin. rewrite (fresh_ext (rx s)) by done. by apply Hs.
  - intros c Hu64. rewrite E7, E8. apply band_covers; [apply window_fwd_ge|done].
Qed.

Lemma refresh_books s h used now ts :
  books s h used -> banded (rx s) ->
  let s' := (refresh_tag_window_if_needed s now ts).1 in
  books s' h used /\ banded (rx s') /\ tag_search_center (rx s') <= tag_window_base (rx s') + 127.
Proof.
  intros B Hb. cbv zeta. unfold refresh_tag_window_if_needed.
  destruct (Z.leb_spec 128 (sat_sub (tag_search_center (rx s)) (tag_window_base (rx s)))) as [Hfar|Hnear].
  2: destruct (_ && _ && (128 <=? _)).
  3: by split_and!; [| |cbn; unfold sat_sub in Hnear; lia].
  all: cbn [negb andb fst]; destruct (update_books s h used now ts B) as [B' Hb']; split_and!; [done|done|].
  all: destruct (update_rest s now ts) as (_ & _ & _ & E4 & _ & E6 & E7 & _); rewrite (center_ext (rx s)), E7 by done; lia.
Qed.

Lemma gate_rest s c secret now :
  let s' := (replay_gate s c secret now).1 in
  keys s' = keys s /\ ratchet s' = ratchet s /\ rekey s' = rekey s /\
  expected_tags (rx s') = expected_tags (rx s) /\ tag_window_base (rx s') = tag_window_base (rx s).
Proof.
  cbv zeta. unfold replay_gate. destruct (authenticated_counter_epoch _ _ _ _) as [[]|]; [..|done];
    (destruct (kernel_claim_deliver _ _ _ _); cbn [fst]);
    unfold mark_pre_ratchet_received, kernel_note_rejected, mark_tag_received, clear_consumed_tag_hint;
    cbn [rx with_rx keys ratchet rekey with_grace]; repeat case_match; done.
Qed.

(** ** Changing keys *)

Lemma stale_tags r c :
  is_Some (expected_tags r !! c) -> counter_is_fresh r c = false ->
  c ∈ filter (fun c => counter_is_fresh r c = false) (dom (expected_tags r)).
Proof. intros Ht Hf. apply elem_of_filter. split; [done|]. by apply elem_of_dom. Qed.

(** The grace period that the current keys enter. *)
Lemma previous_enter s h used g :
  books s h used -> pre_ratchet_keys g = Some (keys s) -> pre_ratchet_tags g = expected_tags (rx s) ->
  pre_ratchet_received g = filter (fun c => counter_is_fresh (rx s) c = false) (dom (expected_tags (rx s))) ->
  (pre_ratchet_monotonic g = true -> pre_ratchet_window_base g = tag_window_base (rx s) /\
     banded (rx s) /\ tag_search_center (rx s) <= tag_window_base (rx s) + 127) ->
  previous_ok g h.
Proof.
  intros B Ek Et Er Hm k c. rewrite Ek, Et, Er. intros [= <-] Hin.
  pose proof (bk_spent _ _ _ B c Hin) as Hf. destruct (bk_history _ _ _ B _ _ Hin) as [Hc _].
  destruct (expected_tags (rx s) !! c) as [t|] eqn:E; [left; apply stale_tags; [by rewrite E; eexists|done]|].
  right. split; [done|]. intros (Eb & Hb & Hn)%Hm. rewrite Eb.
  apply stale_le in Hf. destruct (center_bounds (rx s)) as [Hcc _]; [apply B|].
  apply Z.nle_gt. intros Hlow. destruct (Hb c Hc) as [t Ht]; [lia|congruence].
Qed.

Lemma ratchet_books s h used now k :
  books s h used -> ratcheted_keys (ratchet s) = Some k -> tag_secret k ∉ used ->
  books (complete_ratchet s now) h (tag_secret k :: used) /\ banded (rx (complete_ratchet s now)).
Proof.
  intros B Hk Hnew. assert (previous_ok (grace (complete_ratchet s now)) h) as Hp.
  { unfold complete_ratchet. rewrite Hk. by apply (previous_enter s h used). }
  destruct B as [[Hw Hc Hx] Hs Hh Hu Hd _ Ht]. destruct (Ht ltac:(by eexists)) as (Htags & _ & _).
  unfold complete_ratchet in *. rewrite Hk in *. split.
  - split; cbn; try done.
    + split; cbn; [apply clear_ok|unfold u64_ok; lia|done].
    + intros c Hin%Hh. destruct Hnew, Hin. done.
    + intros k' c [? ?]%Hh. split; [done|by right].
    + by left.
    + intros k' [= <-]. split; [|by right]. intros E. by rewrite E in Hu.
    + intros [? ?]. done.
  - intros c Hc64. cbn. unfold sat_sub, u64_ok in *. intros ?. apply Htags. lia.
Qed.

Lemma books_more s h used k : books s h used -> books s h (k :: used).
Proof.
  intros [Hr Hs Hh Hu Hd Hp Ht]. split; try done; [|by right|].
  - intros k' c [? ?]%Hh. split; [done|by right].
  - intros k' [? ?]%Hd. split; [done|by right].
Qed.

(** The bookkeeping of a rekey touches nothing that the books speak of. *)
Lemma books_with_rekey s h used k :
  books s h used -> (is_Some (ratcheted_keys (ratchet s)) -> pending_rekey_keypair k = None) ->
  books (with_rekey k s) h used.
Proof.
  intros [Hr Hs Hh Hu Hd Hp Ht] Hk. split; try done. intros Hsome. destruct (Ht Hsome) as (? & ? & _).
  by auto.
Qed.

Lemma no_ratchet_pending s h used kp :
  books s h used -> pending_rekey_keypair (rekey s) = Some kp -> ~ is_Some (ratcheted_keys (ratchet s)).
Proof. intros B Hp Hs. destruct (bk_ratchet _ _ _ B Hs) as (_ & _ & Hn). congruence. Qed.

Lemma commit_books s h used eph now ts :
  books s h used -> banded (rx s) -> tag_search_center (rx s) <= tag_window_base (rx s) + 127 ->
  (forall k, offered_keys s eph = Some k -> tag_secret k ∉ used) ->
  let s' := commit_session_rekey s eph now ts in
  books s' h (tag_secret (keys s') :: used) /\ banded (rx s').
Proof.
  intros B Hb Hn. cbv zeta. unfold offered_keys, commit_session_rekey.
  destruct (pending_rekey_keypair (rekey s)) as [kp|] eqn:Hkp; [|intros _; by split; [apply books_more|]].
  pose proof (no_ratchet_pending _ _ _ _ B Hkp) as Hnr.
  destruct (compute_shared kp eph) as [dh|e|]; cbn [keys with_rekey].
  2,3: intros _; split; [apply books_more, books_with_rekey|]; done.
  set (nk := derive_session_keys dh (Some (session_key (keys s))) eph). intros Hnew. specialize (Hnew nk eq_refl).
  match goal with |- context [update_tag_window ?x now ts] => set (mid := x) end.
  assert (keys (update_tag_window mid now ts) = nk) as -> by by destruct (update_rest mid now ts) as [-> _].
  assert (previous_ok (grace mid) h) as Hp by by apply (previous_enter s h used).
  apply update_books. destruct B as [Hr Hs Hh Hu Hd _ Ht]. split; cbn; try done.
  - by destruct Hr.
  - by intros c [_ ?]%Hh.
  - intros k c [? ?]%Hh. split; [done|by right].
  - by left.
  - intros k [= <-]. split; [|by right]. intros E. by rewrite E in Hu.
Qed.

Lemma books_with_ratchet s h used t :
  books s h used -> ratchet_ok t (rekey s) -> books (with_ratchet t s) h used.
Proof. intros [Hr Hs Hh Hu Hd Hp Ht] H. by split. Qed.

Lemma update_ratcheted_books s h used ts :
  books s h used -> books (update_ratcheted_tag_window s ts) h used.
Proof.
  intros B. pose proof (bk_ratchet _ _ _ B) as Ht. unfold update_ratcheted_tag_window.
  destruct (ratcheted_keys (ratchet s)) as [k|] eqn:Hk; [|done]. apply books_with_ratchet; [done|].
  rewrite <-Hk. intros Hsome. destruct (Ht Hsome) as (_ & ? & ?). split; [|done]. intros c Hc. cbn.
  rewrite lookup_tag_band. unfold TAG_WINDOW_SIZE. rewrite decide_True by lia. by eexists.
Qed.

Lemma start_rekeying_books s h used fresh now ts :
  books s h used -> banded (rx s) ->
  let s' := (start_rekeying s fresh now ts).1 in keys s' = keys s /\ books s' h used /\ banded (rx s').
Proof.
  intros B Hb. cbv zeta. unfold start_rekeying.
  destruct (is_ratcheted (ratchet s)) eqn:Hir; [|done]. cbn [negb].
  case_bool_decide; [done|]. destruct (_ && _); [done|]. cbn [fst].
  match goal with |- context [update_tag_window ?x now ts] => set (mid := x) end.
  split; [by destruct (update_rest mid now ts) as [-> _]|]. apply update_books, books_with_rekey; [done|].
  intros Hs. destruct (bk_ratchet _ _ _ B Hs) as (_ & ? & _). congruence.
Qed.

Lemma retransmit_books s h used now :
  books s h used ->
  let s' := (rekey_retransmit s now).1 in keys s' = keys s /\ books s' h used /\ rx s' = rx s.
Proof.
  intros B. cbv zeta. unfold rekey_retransmit.
  destruct (pending_rekey_keypair (rekey s)) as [kp|] eqn:Hkp; [|done].
  pose proof (no_ratchet_pending _ _ _ _ B Hkp). repeat (destruct (_ <? _)); [done|..];
    (split_and!; [done| |done]); by apply books_with_rekey.
Qed.

Lemma purge_books s h used now : books s h used -> books (purge_grace s now) h used.
Proof.
  intros B. unfold purge_grace. destruct (is_some_and _ _); [|done]. destruct B. by split.
Qed.

Lemma absorb_books s h used hi ws :
  books s h used -> u64_ok hi -> books (with_rx (absorb_shared_replay (rx s) hi ws) s) h used.
Proof.
  intros [Hr Hs Hh Hu Hd Hp Ht] Hhi. split; try done; cbn [rx with_rx keys].
  - by apply absorb_ok.
  - intros c Hin. destruct (Hh _ _ Hin) as [[Hc _] _]. apply not_true_iff_false. intros Hf%fresh_absorb; [|done].
    apply Hs in Hin. congruence.
Qed.

Lemma new_books initial now i :
  books (with_identity i (new_session initial now)) [] [tag_secret initial].
Proof.
  split; cbn; try done; try set_solver.
  - split; cbn; [apply default_window_ok|unfold u64_ok; lia|done].
  - by intros [? ?].
Qed.

Lemma open_books initial next peer now ts :
  books (open_session initial next peer now ts) [] [tag_secret initial] /\
  banded (rx (open_session initial next peer now ts)).
Proof.
  destruct (update_books _ _ _ now ts
    (new_books initial now (with_pool_peer (identity (new_session initial now)) peer))) as [B Hb].
  split; [|exact Hb]. apply (books_with_ratchet _ _ _ _ B). intros _. split; [|done].
  intros c Hc. cbn [ratcheted_expected_tags]. rewrite lookup_tag_band. unfold TAG_WINDOW_SIZE.
  rewrite decide_True by lia. by eexists.
Qed.

Lemma banded_ext r r' :
  banded r -> expected_tags r' = expected_tags r -> tag_window_base r' = tag_window_base r -> banded r'.
Proof. unfold banded. by intros Hb -> ->. Qed.

Lemma absorb_rest r hi ws :
  expected_tags (absorb_shared_replay r hi ws) = expected_tags r /\
  tag_window_base (absorb_shared_replay r hi ws) = tag_window_base r.
Proof.
  unfold absorb_shared_replay, clear_consumed_tag_hint. destruct (merge_replay_window _ _ _ _) as [c w].
  by destruct (is_some_and _ _).
Qed.

(** What an event guarantees. *)
Definition step_ok (s' : Session) (admitted h : list (bytes * Z)) (used : list bytes) : Prop :=
  books s' (admitted ++ h) (tag_secret (keys s') :: used) /\ banded (rx s') /\
  NoDup admitted /\ (forall x, x ∈ admitted -> x ∉ h).

Lemma step_quiet s' h used : books s' h used -> banded (rx s') -> step_ok s' [] h used.
Proof. intros B Hb. split_and!; [by apply books_more|done|constructor|]. by intros x ?%not_elem_of_nil. Qed.

Lemma receive_ok s h used secret c now s' ok :
  books s h used -> banded (rx s) -> u64_ok c -> replay_gate s c secret now = (s', ok) ->
  step_ok s' (if ok then [(secret, c)] else []) h used.
Proof.
  intros B Hb Hc E. destruct (gate_books _ _ _ _ _ _ _ _ B Hc E) as [B' Hnew].
  pose proof (gate_rest s c secret now) as (_ & _ & _ & E4 & E5). rewrite E in E4, E5.
  split_and!; [by apply books_more|by eapply banded_ext|destruct ok; [apply NoDup_singleton|constructor]|].
  destruct ok; [|by intros x ?%not_elem_of_nil]. intros x ->%list_elem_of_singleton. by apply Hnew.
Qed.

Lemma offered_keys_ext s s' eph : keys s' = keys s -> rekey s' = rekey s -> offered_keys s' eph = offered_keys s eph.
Proof. unfold offered_keys. by intros -> ->. Qed.

Lemma refresh_rest s now ts :
  let s' := (refresh_tag_window_if_needed s now ts).1 in keys s' = keys s /\ rekey s' = rekey s.
Proof.
  cbv zeta. unfold refresh_tag_window_if_needed. destruct (_ && _); [done|].
  by destruct (update_rest s now ts) as (? & _ & ? & _).
Qed.

Lemma rekey_packet_ok s h used secret c eph now ts :
  books s h used -> banded (rx s) -> u64_ok c ->
  (forall k, offered_keys s eph = Some k -> tag_secret k ∉ used) ->
  let r := handle s (RekeyPacket secret c eph now ts) in step_ok r.1 r.2 h used.
Proof.
  intros B Hb Hc Hnew. cbn [handle]. destruct (replay_gate s c secret now) as [s1 ok] eqn:E.
  pose proof (receive_ok _ _ _ _ _ _ _ _ B Hb Hc E) as (_ & Hb1 & Hd & Hx).
  destruct (gate_books _ _ _ _ _ _ _ _ B Hc E) as [B1 _].
  pose proof (gate_rest s c secret now) as (E1 & _ & E3 & _). rewrite E in E1, E3. cbn [fst] in E1, E3.
  destruct ok; cbn [fst snd]; [|by apply step_quiet].
  destruct (refresh_books _ _ _ now ts B1 Hb1) as (B2 & Hb2 & Hn2).
  destruct (refresh_rest s1 now ts) as [E4 E5].
  destruct (commit_books _ _ _ eph now ts B2 Hb2 Hn2) as [B3 Hb3]; [|by split_and!].
  intros k. rewrite (offered_keys_ext s) by congruence. apply Hnew.
Qed.

(** One event: the books are kept, and what it admits was not admitted before. *)
Lemma handle_keeps_books s h used e :
  books s h used -> banded (rx s) -> event_wf e ->
  (forall k, incoming_keys s e = Some k -> tag_secret k ∉ used) ->
  step_ok (handle s e).1 (handle s e).2 h used.
Proof.
  intros B Hb Hwf Hnew. destruct e as [secret c now|now ts|now ts|hi ws|fresh now ts|now|secret c eph now ts|now|now];
    cbn [handle event_wf incoming_keys] in *.
  - destruct (replay_gate s c secret now) as [s' ok] eqn:E. by eapply receive_ok.
  - destruct (refresh_books _ _ _ now ts B Hb) as (? & ? & _). by apply step_quiet.
  - destruct (update_books _ _ _ now ts B) as [B' Hb']. apply step_quiet; [by apply update_ratcheted_books|].
    unfold update_ratcheted_tag_window. by destruct (ratcheted_keys _).
  - apply step_quiet; [by apply absorb_books|]. destruct (absorb_rest (rx s) hi ws). by apply (banded_ext (rx s)).
  - destruct (start_rekeying_books _ _ _ fresh now ts B Hb) as (_ & ? & ?). by apply step_quiet.
  - destruct (retransmit_books _ _ _ now B) as (_ & ? & E). apply step_quiet; [done|]. cbn [fst]. by rewrite E.
  - by apply rekey_packet_ok.
  - destruct (ratcheted_keys (ratchet s)) as [k|] eqn:Hk; cbn [fst snd].
    + destruct (ratchet_books _ _ _ now k B Hk (Hnew k eq_refl)) as [B' Hb'].
      assert (keys (complete_ratchet s now) = k) as E by by (unfold complete_ratchet; rewrite Hk).
      split_and!; [by rewrite E|done|constructor|by intros x ?%not_elem_of_nil].
    + unfold complete_ratchet. rewrite Hk. by apply step_quiet.
  - apply step_quiet; [by apply purge_books|]. unfold purge_grace. by destruct (is_some_and _ _).
Qed.

Lemma run_NoDup s h used es :
  books s h used -> banded (rx s) -> Forall event_wf es -> fresh_keys s used es ->
  NoDup (run s es) /\ (forall x, x ∈ run s es -> x ∉ h).
Proof.
  revert s h used. induction es as [|e es IH]; intros s h used B Hb Hwf Hf; cbn [run fresh_keys] in *.
  { split; [constructor|]. by intros x ?%not_elem_of_nil. }
  apply Forall_cons in Hwf as [Hwf Hwfs]. destruct Hf as [Hnew Hf].
  pose proof (handle_keeps_books s h used e B Hb Hwf Hnew) as (B' & Hb' & Hd & Hx).
  destruct (handle s e) as [s' admitted]. cbn [fst snd] in *.
  destruct (IH _ _ _ B' Hb' Hwfs Hf) as [Hd' Hx']. split.
  - apply NoDup_app. split_and!; [done| |done]. intros x Hin Hin'. apply (Hx' x Hin'). set_solver.
  - intros x [Hin|Hin]%elem_of_app; [by apply Hx|]. specialize (Hx' x Hin). set_solver.
Qed.

End Life.

(** ** A concrete life *)

#[local] Existing Instance toy_primitives.

Lemma window_is_set_witness :
  let r' := receive_all (rx (new_session toy_keys 0)) [5; 900; 3; 899] in
  counter r' = foldr Z.max 0 [5; 900; 3; 899] /\
  (counter_is_fresh r' 898 = true <->
   counter_is_fresh (rx (new_session toy_keys 0)) 898 = true /\ (898 ∉ [5; 900; 3; 899]) /\
   (counter r' - 898 < 512 \/ [5; 900; 3; 899] = [])).
Proof.
  apply (window_is_set (rx (new_session toy_keys 0)) [5; 900; 3; 899] 898);
    [apply default_window_ok|lia|repeat constructor; lia].
Defined.

Definition witness_secret (x : Z) : bytes := replicate 32 x.
Definition witness_keys (x : Z) : SessionKeys :=
  {| packet_cipher := PacketCipher.Established; session_key := witness_secret x;
     session_key_s2c := witness_secret x; tag_secret := witness_secret x; prng_seed := witness_secret x |}.
Definition witness_pair : KeyPair := {| private_key_bytes := replicate 32 64; public_key_bytes := replicate 32 9 |}.

(** A handshake packet and its replay, the ratchet, packets of both keys, an inline rekey whose old
    keys stay in grace, and replays of both. *)
Definition witness_life : list event :=
  [Receive (witness_secret 1) 0 5; Receive (witness_secret 1) 0 5; CompleteRatchet 7;
   Receive (witness_secret 2) 3 8; Receive (witness_secret 1) 1 9; Receive (witness_secret 1) 1 9;
   Purge 90000000000; StartRekey witness_pair 130000000000 1000; Retransmit 131000000000;
   RekeyPacket (witness_secret 2) 200 (replicate 32 5) 132000000000 1000;
   Receive (witness_secret 2) 200 132000000001; Receive (witness_secret 2) 400 132000000002;
   Absorb 300 (replicate 8 0); Receive (witness_secret 2) 400 132000000004].
Definition witness_session : Session := open_session (witness_keys 1) (witness_keys 2) false 0 500.

