(* ===== verification/SessionTags.v ===== *)
(** * Recognising packets by their tags

    A packet carries an eight-byte tag instead of a session id. [validate_tag]
    ([crates/aivpn-server/src/session.rs]) maps it to a counter with the tables
    that the session precomputes, or with a search over the neighbouring time
    windows. The tables hold only tags of the right key through the whole life of
    a session, so a tag is accepted only for a counter that the replay gate would
    admit, and after a refresh every fresh counter of the window is recognised. *)

From S2P Require Import Prelude Collections Protocol ReplayWindow Quality Crypto Session SessionReplay.
Local Open Scope Z_scope.

Section Tables.
Context {PR : Primitives}.

(** Every tag of the table is the tag of its counter in some time window. *)
Definition tags_of (secret : bytes) (m : gmap Z bytes) : Prop :=
  forall c t, m !! c = Some t -> exists tw, t = generate_resonance_tag secret c tw.

(** A table belongs to its keys, and is empty without keys. *)
Definition table_of (k : option SessionKeys) (m : gmap Z bytes) : Prop :=
  match k with Some k => tags_of (tag_secret k) m | None => m = ∅ end.

Record tables_ok (s : Session) : Prop := {
  tb_expected : tags_of (tag_secret (keys s)) (expected_tags (rx s));
  tb_previous : table_of (pre_ratchet_keys (grace s)) (pre_ratchet_tags (grace s));
  tb_ratcheted : table_of (ratcheted_keys (ratchet s)) (ratcheted_expected_tags (ratchet s));
}.

Lemma tags_of_empty secret : tags_of secret ∅.
Proof. by intros c t ?%lookup_empty_Some. Qed.

Lemma tags_of_band secret tw lo hi : tags_of secret (tag_band secret tw lo hi).
Proof. intros c t. rewrite lookup_tag_band. case_decide; [|done]. intros [= <-]. by exists tw. Qed.

Lemma table_empty k : table_of k ∅.
Proof. destruct k; [apply tags_of_empty|done]. Qed.

Lemma update_tables s now ts :
  table_of (pre_ratchet_keys (grace s)) (pre_ratchet_tags (grace s)) ->
  table_of (ratcheted_keys (ratchet s)) (ratcheted_expected_tags (ratchet s)) ->
  tables_ok (update_tag_window s now ts).
Proof.
  intros Hp Ht. destruct (update_rest s now ts) as (E1 & E2 & _ & _ & _ & _ & _ & E8).
  split; [rewrite E1, E8; apply tags_of_band| |by rewrite E2].
  unfold update_tag_window. cbn [grace with_rx].
  destruct (pre_ratchet_keys_in_grace (grace s) now) as [k|] eqn:Hk; [|done]. apply in_grace_keys in Hk.
  destruct (_ && _); [|done]. cbn. rewrite Hk. apply tags_of_band.
Qed.

Lemma update_tw s now ts :
  tag_window_tw (rx (update_tag_window s now ts)) = compute_time_window ts DEFAULT_WINDOW_MS.
Proof. unfold update_tag_window. destruct (pre_ratchet_keys_in_grace _ _); [|done]. by destruct (_ && _). Qed.

Lemma refresh_tables s now ts : tables_ok s -> tables_ok (refresh_tag_window_if_needed s now ts).1.
Proof.
  intros [He Hp Ht]. unfold refresh_tag_window_if_needed. destruct (_ && _); [by split|].
  by apply update_tables.
Qed.

Lemma commit_tables s eph now ts : tables_ok s -> tables_ok (commit_session_rekey s eph now ts).
Proof.
  intros [He Hp Ht]. unfold commit_session_rekey. destruct (pending_rekey_keypair (rekey s)); [|by split].
  destruct (compute_shared _ _); [|by split..]. apply update_tables; [exact He|apply table_empty].
Qed.

Lemma ratchet_tables s now : tables_ok s -> tables_ok (complete_ratchet s now).
Proof.
  intros Hs. unfold complete_ratchet. destruct (ratcheted_keys (ratchet s)) as [k|] eqn:Hk; [|done].
  destruct Hs as [He Hp Ht]. rewrite Hk in Ht. by split.
Qed.

Lemma update_ratcheted_tables s ts : tables_ok s -> tables_ok (update_ratcheted_tag_window s ts).
Proof.
  intros [He Hp Ht]. unfold update_ratcheted_tag_window.
  destruct (ratcheted_keys (ratchet s)) as [k|] eqn:Hk; [|by split; [..|rewrite Hk]].
  split; [done..|]. cbn. apply tags_of_band.
Qed.

Lemma gate_tables s c secret now : tables_ok s -> tables_ok (replay_gate s c secret now).1.
Proof.
  intros [He Hp Ht]. destruct (gate_rest s c secret now) as (E1 & E2 & _ & E4 & _).
  split; rewrite ?E1, ?E2, ?E4; [done| |done].
  unfold replay_gate. destruct (authenticated_counter_epoch _ _ _ _) as [[]|]; [..|done];
    destruct (kernel_claim_deliver _ _ _ _); cbn; try done. unfold kernel_note_rejected. by destruct (_ <? _).
Qed.

Lemma handle_tables s e : tables_ok s -> tables_ok (handle s e).1.
Proof.
  intros Hs. destruct e as [secret c now|now ts|now ts|hi ws|fresh now ts|now|secret c eph now ts|now|now]; cbn [handle].
  - pose proof (gate_tables s c secret now Hs). by destruct (replay_gate s c secret now).
  - by apply refresh_tables.
  - apply update_ratcheted_tables, update_tables; apply Hs.
  - destruct (absorb_rest (rx s) hi ws) as [E _]. destruct Hs as [He Hp Ht]. split; [|done..].
    cbn [fst rx with_rx keys]. by rewrite E.
  - unfold start_rekeying. cbn [fst]. repeat (destruct (negb _ || _) || case_match); try done.
    apply update_tables; apply Hs.
  - unfold rekey_retransmit. destruct Hs. repeat case_match; by split.
  - pose proof (gate_tables s c secret now Hs). destruct (replay_gate s c secret now) as [s' []]; [|done].
    by apply commit_tables, refresh_tables.
  - by apply ratchet_tables.
  - unfold purge_grace. destruct Hs. destruct (is_some_and _ _); by split.
Qed.

Lemma open_tables initial next peer now ts : tables_ok (open_session initial next peer now ts).
Proof.
  unfold open_session. cbv zeta. set (s := with_identity _ _). apply update_ratcheted_tables, update_tables; cbn.
  - done.
  - apply tags_of_empty.
Qed.

(** The session after a sequence of events. *)
Definition after (s : Session) (es : list event) : Session := fold_left (fun s e => (handle s e).1) es s.

Lemma after_tables s es : tables_ok s -> tables_ok (after s es).
Proof. revert s. induction es as [|e es IH]; intros s Hs; [done|]. by apply IH, handle_tables. Qed.

(** ** Searching *)

Lemma find_tag_Some l tag c : find_tag l tag = Some c -> (c, tag) ∈ l.
Proof.
  unfold find_tag. destruct (filter _ l) as [|[c' t] l'] eqn:E; [done|]. intros [= ->].
  assert ((c, t) ∈ filter (fun e : Z * bytes => snd e = tag) l) as Hin by (rewrite E; by left).
  apply list_elem_of_filter in Hin as [Ht Hin]. cbn in Ht. by subst.
Qed.

Lemma find_tag_None l tag c : find_tag l tag = None -> (c, tag) ∉ l.
Proof.
  unfold find_tag. destruct (filter _ l) as [|[c' t] l'] eqn:E; [|done]. intros _ Hin.
  assert ((c, tag) ∈ filter (fun e : Z * bytes => snd e = tag) l) as H by by apply list_elem_of_filter.
  rewrite E in H. by apply not_elem_of_nil in H.
Qed.

Lemma elem_of_tags secret tw lo hi c t :
  (c, t) ∈ map (fun c => (c, generate_resonance_tag secret c tw)) (seqZ lo (hi - lo + 1)) <->
  lo <= c <= hi /\ t = generate_resonance_tag secret c tw.
Proof.
  rewrite list_elem_of_fmap. setoid_rewrite elem_of_seqZ. split.
  - intros (x & [= -> ->] & ?). split; [lia|done].
  - intros [? ->]. exists c. split; [done|lia].
Qed.

Lemma search_tag_Some secret tws lo hi tag c :
  search_tag secret tws lo hi tag = Some c ->
  lo <= c <= hi /\ exists tw, tw ∈ tws /\ tag = generate_resonance_tag secret c tw.
Proof.
  induction tws as [|tw tws IH]; cbn [search_tag]; [done|].
  destruct (find_tag _ tag) as [c'|] eqn:E.
  - intros [= ->]. apply find_tag_Some, elem_of_tags in E as [? ?]. split; [done|]. exists tw. split; [by left|done].
  - intros (? & tw' & ? & ?)%IH. split; [done|]. exists tw'. split; [by right|done].
Qed.

Lemma search_tag_complete secret tws lo hi c tw :
  lo <= c <= hi -> tw ∈ tws -> is_Some (search_tag secret tws lo hi (generate_resonance_tag secret c tw)).
Proof.
  intros Hc. induction tws as [|tw' tws IH]; cbn [search_tag]; [by intros ?%not_elem_of_nil|].
  destruct (find_tag _ _) as [c'|] eqn:E; [by eexists|]. intros [->|Hin]%elem_of_cons; [|by apply IH].
  exfalso. apply (find_tag_None _ _ c E), elem_of_tags. done.
Qed.

Lemma is_replay_fresh r c : is_replay r c = negb (counter_is_fresh r c).
Proof.
  unfold is_replay, counter_is_fresh. destruct (Z.ltb_spec (counter r) c); [done|]. cbn [orb].
  destruct (Z.leb_spec TAG_WINDOW_SIZE (counter r - c)), (Z.ltb_spec (counter r - c) TAG_WINDOW_SIZE); try lia; cbn [andb];
    by rewrite ?negb_involutive.
Qed.

(** What a recognised tag stands for. *)
Definition recognised (s : Session) (tag : bytes) (now c : Z) (ratcheted : bool) : Prop :=
  if ratcheted then
    is_ratcheted (ratchet s) = false /\
    exists k tw, ratcheted_keys (ratchet s) = Some k /\ tag = generate_resonance_tag (tag_secret k) c tw
  else
    (exists tw, tag = generate_resonance_tag (tag_secret (keys s)) c tw /\ counter_is_fresh (rx s) c = true) \/
    (exists k tw, pre_ratchet_keys_in_grace (grace s) now = Some k /\
       tag = generate_resonance_tag (tag_secret k) c tw /\
       is_Some (pre_ratchet_tags (grace s) !! c) /\ c ∉ pre_ratchet_received (grace s)).

Section Recognise.
Context {HI : HashIter}.

Lemma find_in_table m tag c : find_tag (hash_iter m) tag = Some c -> m !! c = Some tag.
Proof. intros H%find_tag_Some. by apply elem_of_iter in H. Qed.

Lemma accept_fresh r c x : (if is_replay r c then None else Some (c, false)) = Some x ->
  x = (c, false) /\ counter_is_fresh r c = true.
Proof. rewrite is_replay_fresh. destruct (counter_is_fresh r c); [|done]. by intros [= <-]. Qed.

Lemma ratcheted_sound s tag now current_tw c r :
  tables_ok s ->
  (if is_ratcheted (ratchet s) then None
   else match find_tag (hash_iter (ratcheted_expected_tags (ratchet s))) tag with
   | Some c => Some (c, true)
   | None =>
       match ratcheted_keys (ratchet s) with
       | None => None
       | Some k => (fun c => (c, true)) <$>
           search_tag (tag_secret k) [wrap64 (current_tw - 1); wrap64 (current_tw + 1)] 0 (TAG_WINDOW_SIZE - 1) tag
       end
   end) = Some (c, r) -> recognised s tag now c r.
Proof.
  intros [_ _ Ht]. destruct (is_ratcheted (ratchet s)) eqn:Hr; [done|].
  destruct (find_tag _ tag) as [c'|] eqn:E.
  - intros [= -> <-]. split; [done|]. apply find_in_table in E.
    destruct (ratcheted_keys (ratchet s)) as [k|]; cbn in Ht; [|by rewrite Ht in E].
    destruct (Ht _ _ E) as [tw ->]. by exists k, tw.
  - destruct (ratcheted_keys (ratchet s)) as [k|] eqn:Hk; [|done].
    destruct (search_tag _ _ _ _ tag) as [c'|] eqn:E'; [|done]. intros [= -> <-]. split; [done|].
    apply search_tag_Some in E' as (_ & tw & _ & ->). by exists k, tw.
Qed.

Lemma validate_sound s tag now ts c r :
  tables_ok s -> validate_tag s tag now ts = Some (c, r) -> recognised s tag now c r.
Proof.
  intros Hs. unfold validate_tag.
  destruct (find_tag (hash_iter (expected_tags (rx s))) tag) as [c'|] eqn:E1.
  { intros [[= -> ->] Hf]%accept_fresh. left. apply find_in_table in E1.
    destruct (tb_expected _ Hs _ _ E1) as [tw ->]. by exists tw. }
  destruct (search_tag _ _ _ _ tag) as [c'|] eqn:E2.
  { intros [[= -> ->] Hf]%accept_fresh. left. apply search_tag_Some in E2 as (_ & tw & _ & ->). by exists tw. }
  destruct (is_some_and (pre_ratchet_expire (grace s)) _) eqn:Hx; [|by apply (ratcheted_sound s tag now (compute_time_window ts DEFAULT_WINDOW_MS))].
  destruct (find_tag (hash_iter (pre_ratchet_tags (grace s))) tag) as [c'|] eqn:E3; [|by apply (ratcheted_sound s tag now (compute_time_window ts DEFAULT_WINDOW_MS))].
  case_bool_decide as Hrec; [done|]. intros [= -> <-]. right. apply find_in_table in E3.
  pose proof (tb_previous _ Hs) as Hp. destruct (pre_ratchet_keys (grace s)) as [k|] eqn:Hk; cbn in Hp; [|by rewrite Hp in E3].
  destruct (Hp _ _ E3) as [tw ->]. exists k, tw. unfold pre_ratchet_keys_in_grace. rewrite Hx. split_and!; [done|done|by eexists|done].
Qed.

(** At any point of its life a session recognises a tag only for a packet that it may admit: the tag
    is the one of a fresh counter under the current keys, or of an unused counter of the previous keys
    inside their grace period, or of the keys of the pending ratchet. A guessed or replayed tag is
    never mapped to a counter that was already received. *)
Theorem validate_tag_sound initial next peer t0 ts0 es tag now ts c r :
  let s := after (open_session initial next peer t0 ts0) es in
  validate_tag s tag now ts = Some (c, r) -> recognised s tag now c r.
Proof. intros s. apply validate_sound, after_tables, open_tables. Qed.

Lemma window_u64 a b x c : sat_sub a b <= c <= sat_add64 a x -> u64_ok c.
Proof. unfold sat_sub, sat_add64, u64_max, u64_ok. lia. Qed.

(** After the tag window was refreshed at [ts0], and whatever the time [ts] of the lookup, the tag of
    every fresh counter of the window, computed in the current or a neighbouring time window, is mapped
    back to that counter, provided the tag does not collide with the one of another counter. *)
Theorem validate_tag_complete s now0 ts0 now ts c tw :
  let s' := update_tag_window s now0 ts0 in
  let current := compute_time_window ts DEFAULT_WINDOW_MS in
  let tag := generate_resonance_tag (tag_secret (keys s)) c tw in
  inbound_ok (rx s) -> u64_ok c -> counter_is_fresh (rx s) c = true ->
  sat_sub (tag_search_center (rx s)) 511 <= c <= tag_search_center (rx s) + 511 ->
  tw ∈ [current; wrap64 (current - 1); wrap64 (current + 1)] ->
  (forall c' tw', u64_ok c' -> generate_resonance_tag (tag_secret (keys s)) c' tw' = tag -> c' = c) ->
  validate_tag s' tag now ts = Some (c, false).
Proof.
  intros s' current tag Hin Hc Hf Hw Htw Hcol.
  destruct (update_rest s now0 ts0) as (E1 & _ & E3 & E4 & E5 & E6 & E7 & E8). fold s' in E1, E3, E4, E5, E6, E7, E8.
  assert (forall c', c' = c -> (if is_replay (rx s') c' then None else Some (c', false)) = Some (c, false)) as Hacc.
  { intros c' ->. by rewrite is_replay_fresh, (fresh_ext (rx s)), Hf. }
  unfold validate_tag. destruct (find_tag (hash_iter (expected_tags (rx s'))) tag) as [c'|] eqn:Ef.
  { apply find_in_table in Ef. rewrite E8, lookup_tag_band in Ef. case_decide as Hb; [|done].
    apply (inj Some) in Ef. apply Hacc. eapply Hcol; [|exact Ef]. by eapply window_u64. }
  rewrite (center_ext (rx s)), E1, E3 by done. fold current.
  assert (is_Some (search_tag (tag_secret (keys s))
    (filter (fun x => x <> tag_window_tw (rx s')) [current; wrap64 (current - 1); wrap64 (current + 1)])
    (sat_sub (tag_search_center (rx s)) (TAG_WINDOW_SIZE - 1))
    (sat_add64 (tag_search_center (rx s)) (window_fwd (rekey s))) tag)) as [c' Es].
  { pose proof (window_fwd_ge (rekey s)). apply search_tag_complete.
    - unfold sat_sub, sat_add64, TAG_WINDOW_SIZE, u64_max, u64_ok in *. lia.
    - apply list_elem_of_filter. split; [|done]. intros Heq.
      apply (find_tag_None _ _ c Ef), elem_of_iter. rewrite E8, lookup_tag_band.
      unfold sat_sub, sat_add64, TAG_WINDOW_SIZE, u64_max, u64_ok in *. rewrite decide_True by lia. unfold tag. rewrite Heq. unfold s'. by rewrite update_tw. }
  rewrite Es. apply Hacc. apply search_tag_Some in Es as (Hb & tw' & _ & Et). apply (Hcol c' tw'); [|done].
  by eapply window_u64.
Qed.
End Recognise.
End Tables.

(** ** A concrete lookup *)

#[local] Existing Instance toy_primitives.
#[local] Existing Instance ordered_iter.

Lemma validate_tag_sound_witness :
  let s := after witness_session [Receive (witness_secret 1) 0 5; CompleteRatchet 7] in
  recognised s (generate_resonance_tag (witness_secret 1) 5 0) 8 5 false.
Proof.
  apply (validate_tag_sound (witness_keys 1) (witness_keys 2) false 0 500
    [Receive (witness_secret 1) 0 5; CompleteRatchet 7] _ 8 600 5 false).
  vm_compute. reflexivity.
Defined.

Lemma validate_tag_complete_witness :
  validate_tag (update_tag_window (new_session (witness_keys 1) 0) 0 500)
    (generate_resonance_tag (witness_secret 1) 5 1) 0 20000 = Some (5, false).
Proof.
  apply (validate_tag_complete (new_session (witness_keys 1) 0) 0 500 0 20000 5 1).
  - split; cbn; [apply default_window_ok|unfold u64_ok; lia|done].
  - unfold u64_ok. lia.
  - reflexivity.
  - vm_compute. split; discriminate.
  - apply list_elem_of_In. vm_compute. tauto.
  - intros c' tw' Hc. apply (toy_tag_inj (witness_secret 1) c' 5 1 tw' Hc); [unfold u64_ok; lia|by right; left].
Defined.
