(* ===== verification/SessionSend.v ===== *)
(** * What a session sends

    The sending side of [Session] ([crates/aivpn-server/src/session.rs]): the
    counter that is the nonce of every packet, followed through rekeys and the
    ratchet, and the budget of [ServerHello] answers to a handshake that was not
    confirmed yet. *)

From S2P Require Import Prelude Collections Protocol ReplayWindow Quality Crypto Session SessionReplay.
Local Open Scope Z_scope.

(** ** Nonces *)

(** Sending a packet, or any event of the life of the session. *)
Inductive traffic : Type :=
  | Send
  | Happens (e : event).

Section Nonces.
Context {PR : Primitives}.

(** The session after a step, and the key and nonce it used. *)
Definition transmit (s : Session) (t : traffic) : Session * list (bytes * bytes) :=
  match t with
  | Send =>
      match next_send_nonce s with
      | Ok (s', (nonce, _)) => (s', [(session_key_s2c (keys s), nonce)])
      | _ => (s, [])
      end
  | Happens e => ((handle s e).1, [])
  end.

Fixpoint nonces (s : Session) (ts : list traffic) : list (bytes * bytes) :=
  match ts with
  | [] => []
  | t :: ts => let '(s, used) := transmit s t in used ++ nonces s ts
  end.

(** Key derivation never repeats a sending key of the session. *)
Fixpoint fresh_send_keys (s : Session) (used : list bytes) (ts : list traffic) : Prop :=
  match ts with
  | [] => True
  | t :: ts =>
      let s' := (transmit s t).1 in
      match t with
      | Happens e => forall k, incoming_keys s e = Some k -> session_key_s2c k ∉ used
      | Send => True
      end /\
      fresh_send_keys s' (session_key_s2c (keys s') :: used) ts
  end.

Lemma update_tx s now ts : tx (update_tag_window s now ts) = tx s.
Proof. unfold update_tag_window. destruct (pre_ratchet_keys_in_grace _ _); [|done]. by destruct (_ && _). Qed.

Lemma refresh_tx s now ts : tx (refresh_tag_window_if_needed s now ts).1 = tx s.
Proof. unfold refresh_tag_window_if_needed. destruct (_ && _); [done|apply update_tx]. Qed.

Lemma gate_tx s c secret now : tx (replay_gate s c secret now).1 = tx s.
Proof.
  unfold replay_gate. destruct (authenticated_counter_epoch _ _ _ _) as [[]|]; [..|done];
    destruct (kernel_claim_deliver _ _ _ _); try done. unfold kernel_note_rejected. by destruct (_ <? _).
Qed.

Lemma commit_sends s eph now ts :
  let s' := commit_session_rekey s eph now ts in
  (keys s' = keys s \/ offered_keys s eph = Some (keys s')) /\ tx s' = tx s.
Proof.
  cbv zeta. unfold commit_session_rekey, offered_keys.
  destruct (pending_rekey_keypair (rekey s)) as [kp|]; [|by split; [left|]].
  destruct (compute_shared kp eph) as [dh|e|]; [|by split; [left|]..].
  split; [right|by rewrite update_tx]. f_equal. symmetry.
  match goal with |- keys (update_tag_window ?x now ts) = _ => by destruct (update_rest x now ts) as [-> _] end.
Qed.

(** An event keeps the keys and the counter, or installs incoming keys. *)
Lemma handle_sends s e :
  let s' := (handle s e).1 in
  (keys s' = keys s /\ tx s' = tx s) \/
  (incoming_keys s e = Some (keys s') /\ 0 <= send_counter (tx s') <= Z.max 0 (send_counter (tx s)) \/
   incoming_keys s e = Some (keys s') /\ tx s' = tx s).
Proof.
  cbv zeta. destruct e as [secret c now|now ts|now ts|hi ws|fresh now ts|now|secret c eph now ts|now|now];
    cbn [handle incoming_keys].
  - left. pose proof (gate_tx s c secret now) as Et. destruct (gate_rest s c secret now) as [Ek _].
    by destruct (replay_gate s c secret now).
  - left. split; [apply refresh_rest|apply refresh_tx].
  - left. unfold update_ratcheted_tag_window. destruct (update_rest s now ts) as [Ek _]. pose proof (update_tx s now ts).
    by destruct (ratcheted_keys _).
  - by left.
  - left. unfold start_rekeying. repeat case_match; try done. cbn [fst]. rewrite update_tx. split; [|done].
    match goal with |- keys (update_tag_window ?x now ts) = _ => by destruct (update_rest x now ts) as [-> _] end.
  - left. unfold rekey_retransmit. by repeat case_match.
  - pose proof (gate_tx s c secret now) as Et. destruct (gate_rest s c secret now) as (Ek & _ & Er & _).
    destruct (replay_gate s c secret now) as [s1 []]; cbn [fst] in *; [|by left].
    destruct (refresh_rest s1 now ts) as [Ek' Er']. pose proof (refresh_tx s1 now ts) as Et'.
    destruct (commit_sends (refresh_tag_window_if_needed s1 now ts).1 eph now ts) as [[Hk|Hk] Ht].
    + left. split; congruence.
    + right. right. rewrite (offered_keys_ext s) in Hk by congruence. split; congruence.
  - unfold complete_ratchet. destruct (ratcheted_keys (ratchet s)); [|by left]. right. left. cbn. split; [done|lia].
  - left. unfold purge_grace. by destruct (is_some_and _ _).
Qed.

(** What was sent under the current key lies below the counter. *)
Record ledger (s : Session) (h : list (bytes * bytes)) (used : list bytes) : Prop := {
  ld_counter : u64_ok (send_counter (tx s));
  ld_keys : forall k n, (k, n) ∈ h -> k ∈ used;
  ld_used : session_key_s2c (keys s) ∈ used;
  ld_below : forall n, (session_key_s2c (keys s), n) ∈ h ->
    exists c, 0 <= c < send_counter (tx s) /\ n = counter_nonce c;
}.

Lemma counter_nonce_inj c c' : u64_ok c -> u64_ok c' -> counter_nonce c = counter_nonce c' -> c = c'.
Proof.
  unfold counter_nonce, u64_ok. intros Hc Hc' H%app_inj_2; [|done]. destruct H as [H _].
  apply (f_equal from_le) in H. rewrite !from_le_le_bytes in H.
  change (256 ^ Z.of_nat 8) with 18446744073709551616 in H. by rewrite !Z.mod_small in H by lia.
Qed.

Lemma transmit_ok s h used t :
  ledger s h used ->
  match t with Happens e => forall k, incoming_keys s e = Some k -> session_key_s2c k ∉ used | Send => True end ->
  let s' := (transmit s t).1 in
  ledger s' ((transmit s t).2 ++ h) (session_key_s2c (keys s') :: used) /\
  NoDup (transmit s t).2 /\ (forall x, x ∈ (transmit s t).2 -> x ∉ h).
Proof.
  intros [Hc Hk Hu Hb] Hf. cbv zeta. destruct t as [|e]; cbn [transmit].
  - unfold next_send_nonce. destruct (Z.leb_spec (send_counter (tx s) + 1) u64_max) as [Hle|]; cbn [fst snd app].
    + split_and!; [|apply NoDup_singleton|].
      * unfold u64_ok, u64_max in *. split; cbn [tx with_tx send_counter keys]; [unfold u64_ok; lia| |by left|].
        -- intros k n [[= -> _]|Hin]%elem_of_cons; [by left|right; by eapply Hk].
        -- intros n [[= ->]|Hin]%elem_of_cons; [exists (send_counter (tx s)); split; [lia|done]|].
           destruct (Hb n Hin) as (c & ? & ->). exists c. split; [lia|done].
      * intros x ->%list_elem_of_singleton Hin. destruct (Hb _ Hin) as (c & Hlt & E).
        apply counter_nonce_inj in E; unfold u64_ok in *; lia.
    + split_and!; [|constructor|by intros x ?%not_elem_of_nil]. split; [done| |by left|done].
      intros k n Hin. right. by eapply Hk.
  - cbn [fst snd app]. split_and!; [|constructor|by intros x ?%not_elem_of_nil].
    assert (forall k, incoming_keys s e = Some k -> forall n, (session_key_s2c k, n) ∉ h) as Hno
      by (intros k Hi n Hin; by apply (Hf k Hi), (Hk _ n)).
    assert (forall k n, (k, n) ∈ h -> k ∈ session_key_s2c (keys (handle s e).1) :: used) as Hk'
      by (intros k n Hin; right; by eapply Hk).
    destruct (handle_sends s e) as [[E1 E2]|[[E1 E2]|[E1 E2]]].
    + split; rewrite ?E1, ?E2; [done| |by left|done]. by rewrite E1 in Hk'.
    + split; [unfold u64_ok in *; lia|done|by left|]. intros n Hin. by destruct (Hno _ E1 n).
    + split; [by rewrite E2|done|by left|]. intros n Hin. by destruct (Hno _ E1 n).
Qed.

Lemma nonces_NoDup s h used ts :
  ledger s h used -> fresh_send_keys s used ts ->
  NoDup (nonces s ts) /\ (forall x, x ∈ nonces s ts -> x ∉ h).
Proof.
  revert s h used. induction ts as [|t ts IH]; intros s h used L Hf; cbn [nonces fresh_send_keys] in *.
  { split; [constructor|]. by intros x ?%not_elem_of_nil. }
  destruct Hf as [Hnew Hf]. destruct (transmit_ok s h used t L Hnew) as (L' & Hd & Hx).
  destruct (transmit s t) as [s' used']. cbn [fst snd] in *. destruct (IH _ _ _ L' Hf) as [Hd' Hx']. split.
  - apply NoDup_app. split_and!; [done| |done]. intros x Hin Hin'. apply (Hx' x Hin'). set_solver.
  - intros x [Hin|Hin]%elem_of_app; [by apply Hx|]. specialize (Hx' x Hin). set_solver.
Qed.

End Nonces.

(** ** Answers to an unconfirmed handshake *)

(** The times, of the given attempts, at which a [ServerHello] is sent. *)
Fixpoint hello_times (s : Session) (attempts : list Z) : list Z :=
  match attempts with
  | [] => []
  | now :: rest =>
      let '(s, sent) := admit_initial_hello s now in
      (if sent then [now] else []) ++ hello_times s rest
  end.

(** At most 16, within ten seconds of [created], and 200 ms apart from the third on. *)
Definition within_budget (created : Z) (sent : list Z) : Prop :=
  (length sent <= 16)%nat /\ Forall (fun t => t < created + 10 * second_ns) sent /\
  (forall i t t', (1 <= i)%nat -> sent !! i = Some t -> sent !! S i = Some t' -> t + 200 * milli_ns <= t').

Definition hellos_sent (s : Session) (sent : list Z) : Prop :=
  is_ratcheted (ratchet s) = false /\ initial_hello_sends (ratchet s) = Z.of_nat (length sent) /\
  initial_hello_last_sent (ratchet s) = last sent.

Lemma budget_snoc created sent now :
  within_budget created sent -> (length sent < 16)%nat -> now < created + 10 * second_ns ->
  ((2 <= length sent)%nat -> forall t, last sent = Some t -> t + 200 * milli_ns <= now) ->
  within_budget created (sent ++ [now]).
Proof.
  intros (Hl & Hf & Hs) Hlt Hnow Hgap. split_and!.
  - rewrite length_app. cbn. lia.
  - apply Forall_app. by repeat constructor.
  - intros i t t' Hi Ht Ht'. apply lookup_app_Some in Ht' as [Ht'|[Hlen Ht']].
    + pose proof (lookup_lt_Some _ _ _ Ht'). rewrite lookup_app_l in Ht by lia. by eapply Hs.
    + assert (S i = length sent) as Hi'.
      { destruct (decide (S i = length sent)); [done|]. rewrite lookup_ge_None_2 in Ht'; [done|]. cbn. lia. }
      replace (S i - length sent)%nat with 0%nat in Ht' by lia. injection Ht' as <-.
      apply Hgap; [lia|]. rewrite last_lookup. rewrite lookup_app_l in Ht by lia. by replace (pred (length sent)) with i by lia.
Qed.

Lemma hello_step s sent now :
  hellos_sent s sent -> within_budget (created_at s) sent ->
  let '(s', ok) := admit_initial_hello s now in
  let sent' := sent ++ (if ok then [now] else []) in
  created_at s' = created_at s /\ hellos_sent s' sent' /\ within_budget (created_at s) sent'.
Proof.
  intros (Hr & Hn & Hl) Hb. unfold admit_initial_hello. rewrite Hr, Hn, Hl. cbv zeta.
  destruct (Z.leb_spec 16 (Z.of_nat (length sent))); cbn [orb]; [by rewrite app_nil_r|].
  destruct (Z.leb_spec HANDSHAKE_TIMEOUT (sat_sub now (created_at s))) as [|Hc]; cbn [orb]; [by rewrite app_nil_r|].
  destruct ((2 <=? Z.of_nat (length sent)) && _) eqn:Hg; [by rewrite app_nil_r|]. cbn [created_at with_ratchet].
  split; [done|]. split.
  - split_and!; [done| |]; cbn [ratchet with_ratchet initial_hello_sends initial_hello_last_sent].
    + rewrite length_app. cbn. lia.
    + by rewrite last_snoc.
  - apply budget_snoc; [done|lia| |].
    + unfold HANDSHAKE_TIMEOUT, sat_sub in Hc. lia.
    + intros H2 t Ht. rewrite (proj2 (Z.leb_le 2 (Z.of_nat (length sent)))) in Hg by lia. rewrite Ht in Hg. cbn in Hg.
      apply Z.ltb_ge in Hg. unfold sat_sub, milli_ns in *. lia.
Qed.

(** A handshake that the client has not confirmed makes the gateway send at most 16 answers, all
    within ten seconds of the creation of the session and, after the first two, at least 200 ms apart,
    however many initial packets arrive and whenever they arrive, so the gateway cannot be used to
    amplify traffic towards a spoofed address. *)
Theorem hello_budget {PR : Primitives} initial next peer now ts attempts :
  within_budget now (hello_times (open_session initial next peer now ts) attempts).
Proof.
  set (s := open_session initial next peer now ts).
  assert (forall l s sent, hellos_sent s sent -> within_budget (created_at s) sent ->
    within_budget (created_at s) (sent ++ hello_times s l)) as H.
  { clear. induction l as [|x l IH]; intros s sent Hs Hb; cbn [hello_times]; [by rewrite app_nil_r|].
    pose proof (hello_step s sent x Hs Hb) as H. destruct (admit_initial_hello s x) as [s' ok].
    destruct H as (Ec & Hs' & Hb'). rewrite app_assoc. rewrite <-Ec in *. by apply IH. }
  apply (H attempts s []); [done|]. split_and!; [cbn; lia|constructor|done].
Qed.

(** ** Concrete traffic *)

#[local] Existing Instance toy_primitives.

