(* ===== verification/SessionManager.v ===== *)
(** * The session table of the gateway

    [SessionManager] ([crates/aivpn-server/src/session.rs]): the table of sessions,
    the index from tags to sessions, the index from VPN addresses to sessions, and
    the cache of handshakes that were seen. Every method is a definition on the
    record [Manager]; a method that fails keeps the state it leaves behind. The
    maps are walked in an order that nothing relies on ([HashIter]); clocks, the
    random session id and the ephemeral keys are arguments. The [Arc] of a session
    that a worker still holds after its removal is not in the table; it is the
    value with [removed] set that [Session.authenticated_counter_epoch] refuses. *)

From S2P Require Import Prelude Collections IpAddr Protocol ReplayWindow Quality Crypto Session.
Local Open Scope Z_scope.

(** ** State *)

Definition MAX_SESSIONS : Z := 500.
Definition IDLE_TIMEOUT : Z := 30 * second_ns.
Definition HARD_TIMEOUT : Z := 0.
Definition HANDSHAKE_REPLAY_TTL : Z := (5 * DEFAULT_WINDOW_MS + 10000) * milli_ns.
Definition HANDSHAKE_REPLAY_CAPACITY : Z := 8192.

#[global] Instance SocketAddr_eq_dec : EqDecision SocketAddr.
Proof. solve_decision. Defined.

(** A session of the table; its id is its key. *)
Record Managed : Type := {
  session : Session;
  client_addr : SocketAddr;
  last_seen : Z;
  verified_node_id : option bytes;
}.

Inductive TagEpoch : Type := Active | Ratcheted | GraceEpoch.

Record IndexedTag : Type := {
  it_session : bytes;
  it_counter : Z;
  it_window : Z;
  it_epoch : TagEpoch;
}.

Record Manager : Type := {
  handshake_replays : gmap bytes Z;
  sessions : gmap bytes Managed;
  tag_map : gmap bytes IndexedTag;
  indexed_tags : gmap bytes (list bytes);
  vpn_ip_map : gmap Z bytes;
  server_keys : KeyPair;
  hard_timeout : Z;
  idle_timeout : Z;
}.

Definition with_session (ms : Managed) (s : Session) : Managed :=
  {| session := s; client_addr := client_addr ms; last_seen := last_seen ms;
     verified_node_id := verified_node_id ms |}.
Definition with_replays (r : gmap bytes Z) (m : Manager) : Manager :=
  {| handshake_replays := r; sessions := sessions m; tag_map := tag_map m; indexed_tags := indexed_tags m;
     vpn_ip_map := vpn_ip_map m; server_keys := server_keys m; hard_timeout := hard_timeout m;
     idle_timeout := idle_timeout m |}.
Definition with_sessions (t : gmap bytes Managed) (m : Manager) : Manager :=
  {| handshake_replays := handshake_replays m; sessions := t; tag_map := tag_map m;
     indexed_tags := indexed_tags m; vpn_ip_map := vpn_ip_map m; server_keys := server_keys m;
     hard_timeout := hard_timeout m; idle_timeout := idle_timeout m |}.
Definition with_index (t : gmap bytes IndexedTag) (i : gmap bytes (list bytes)) (m : Manager) : Manager :=
  {| handshake_replays := handshake_replays m; sessions := sessions m; tag_map := t; indexed_tags := i;
     vpn_ip_map := vpn_ip_map m; server_keys := server_keys m; hard_timeout := hard_timeout m;
     idle_timeout := idle_timeout m |}.
Definition with_vpn (v : gmap Z bytes) (m : Manager) : Manager :=
  {| handshake_replays := handshake_replays m; sessions := sessions m; tag_map := tag_map m;
     indexed_tags := indexed_tags m; vpn_ip_map := v; server_keys := server_keys m;
     hard_timeout := hard_timeout m; idle_timeout := idle_timeout m |}.

(** [SessionManager::with_timeouts] *)
Definition with_timeouts (keys : KeyPair) (session_timeout_secs idle_timeout_secs : option Z) : Manager :=
  {| handshake_replays := ∅; sessions := ∅; tag_map := ∅; indexed_tags := ∅; vpn_ip_map := ∅;
     server_keys := keys;
     hard_timeout := default HARD_TIMEOUT ((fun s => s * second_ns) <$> session_timeout_secs);
     idle_timeout := default IDLE_TIMEOUT ((fun s => s * second_ns) <$> idle_timeout_secs) |}.

(** ** The index of tags *)

Section Manager.
Context {PR : Primitives} {HI : HashIter}.

(** The entries of one table of a session, in each of the time windows. *)
Definition table_entries (id secret : bytes) (counters : gmap Z bytes) (windows : list Z)
    (epoch : TagEpoch) : list (bytes * IndexedTag) :=
  c ← map fst (hash_iter counters);
  tw ← windows;
  [(generate_resonance_tag secret c tw,
    {| it_session := id; it_counter := c; it_window := tw; it_epoch := epoch |})].

(** Everything that the index holds for a session. *)
Definition session_entries (id : bytes) (s : Session) (now : Z) (windows : list Z)
    : list (bytes * IndexedTag) :=
  table_entries id (tag_secret (keys s)) (expected_tags (rx s)) windows Active
  ++ (if is_ratcheted (ratchet s) then []
      else match ratcheted_keys (ratchet s) with
           | Some k => table_entries id (tag_secret k) (ratcheted_expected_tags (ratchet s)) windows Ratcheted
           | None => []
           end)
  ++ (if is_some_and (pre_ratchet_expire (grace s)) (fun expiry => now <? expiry)
      then match pre_ratchet_keys (grace s) with
           | Some k => table_entries id (tag_secret k) (pre_ratchet_tags (grace s)) windows GraceEpoch
           | None => []
           end
      else []).

(** [tags.insert(..)] in turn: a later entry replaces an earlier one. *)
Definition insert_all (l : list (bytes * IndexedTag)) : gmap bytes IndexedTag :=
  fold_left (fun m e => <[fst e := snd e]> m) l ∅.

(** [tag_map.remove_if(&tag, |_, indexed| indexed.session_id == id)] *)
Definition remove_tag_if (id : bytes) (t : gmap bytes IndexedTag) (tag : bytes) : gmap bytes IndexedTag :=
  match t !! tag with
  | Some i => if bool_decide (it_session i = id) then delete tag t else t
  | None => t
  end.

Definition reindex_session (m : Manager) (id : bytes) (s : Session) (now ts : Z) : Manager :=
  if removed s then m
  else
  let now_tw := compute_time_window ts DEFAULT_WINDOW_MS in
  let windows := [wrap64 (now_tw - 1); now_tw; wrap64 (now_tw + 1)] in
  let tags := insert_all (session_entries id s now windows) in
  let t := tags ∪ tag_map m in
  let next_tags := map fst (hash_iter tags) in
  let old_tags := default [] (indexed_tags m !! id) in
  let t := fold_left (fun t tag => if bool_decide (is_Some (tags !! tag)) then t else remove_tag_if id t tag)
             old_tags t in
  with_index t (<[id := next_tags]> (indexed_tags m)) m.

Definition get_session_by_tag (m : Manager) (tag : bytes) : option Managed :=
  match tag_map m !! tag with
  | Some entry => sessions m !! it_session entry
  | None => None
  end.

(** [u64::abs_diff] *)
Definition abs_diff (a b : Z) : Z := Z.abs (a - b).

(** The counter is new, or inside the window and not seen. *)
Definition index_fresh (s : Session) (c : Z) : bool :=
  let r := rx s in
  if counter r <? c then
    let ahead := TAG_WINDOW_SIZE - 1
                 + (if bool_decide (is_Some (pending_rekey_keypair (rekey s))) then REKEY_TAG_LOOKAHEAD else 0) in
    c <=? sat_add64 (tag_search_center r) ahead
  else
  let distance := counter r - c in
  (distance <? TAG_WINDOW_SIZE) && negb (get_bit (received_bitmap r) distance).

(** The keys that an entry of the index stands for. *)
Definition index_keys (s : Session) (i : IndexedTag) (now : Z) : option SessionKeys :=
  match it_epoch i with
  | Active => if index_fresh s (it_counter i) then Some (keys s) else None
  | Ratcheted => if is_ratcheted (ratchet s) then None else ratcheted_keys (ratchet s)
  | GraceEpoch =>
      if is_some_and (pre_ratchet_expire (grace s)) (fun expiry => now <? expiry)
         && bool_decide (is_Some (pre_ratchet_tags (grace s) !! it_counter i))
         && negb (bool_decide (it_counter i ∈ pre_ratchet_received (grace s)))
      then pre_ratchet_keys (grace s) else None
  end.

(** The id of the session, the counter, and whether the entry is of the pending ratchet. *)
Definition find_session_by_tag (m : Manager) (tag : bytes) (now ts : Z)
    : outcome (option (bytes * Z * bool)) :=
  match tag_map m !! tag with
  | None => Ok None
  | Some indexed =>
      match sessions m !! it_session indexed with
      | None => Ok None
      | Some ms =>
          let s := session ms in
          let now_tw := compute_time_window ts DEFAULT_WINDOW_MS in
          let valid :=
            negb (removed s)
            && (abs_diff (it_window indexed) now_tw <=? 1)
            && is_some_and (index_keys s indexed now) (fun k =>
                 bool_decide (generate_resonance_tag (tag_secret k) (it_counter indexed) (it_window indexed) = tag)) in
          if valid
          then Ok (Some (it_session indexed, it_counter indexed,
                         match it_epoch indexed with Ratcheted => true | _ => false end))
          else Err (InvalidPacket "Invalid indexed tag")
      end
  end.

(** ** Removal *)

Definition remove_session (m : Manager) (id : bytes) : Manager * option bytes :=
  match sessions m !! id with
  | None => (m, None)
  | Some ms =>
      let m := with_sessions (delete id (sessions m)) m in
      let m := match indexed_tags m !! id with
               | Some tags => with_index (fold_left (remove_tag_if id) tags (tag_map m))
                                (delete id (indexed_tags m)) m
               | None => m
               end in
      let m := match vpn_ip (identity (session ms)) with
               | Some ip => if bool_decide (vpn_ip_map m !! ip = Some id)
                            then with_vpn (delete ip (vpn_ip_map m)) m else m
               | None => m
               end in
      (m, Some id)
  end.

(** Remove a list of sessions; the ids that were there. *)
Fixpoint remove_sessions (m : Manager) (ids : list bytes) : Manager * list bytes :=
  match ids with
  | [] => (m, [])
  | id :: ids =>
      let '(m, r) := remove_session m id in
      let '(m, removed) := remove_sessions m ids in
      (m, match r with Some id => id :: removed | None => removed end)
  end.

(** The ids of the sessions that satisfy a predicate. *)
Definition select (m : Manager) (p : bytes -> Managed -> bool) : list bytes :=
  map fst (filter (fun e => p (fst e) (snd e) = true) (hash_iter (sessions m))).

Definition cleanup_old_sessions_for_ip (m : Manager) (ip : IpAddr) (keep : bytes) : Manager * list bytes :=
  remove_sessions m (select m (fun id ms =>
    bool_decide (socket_ip (client_addr ms) = ip) && negb (bool_decide (id = keep)))).

Definition cleanup_masked_peers (m : Manager) (keep : bytes) (p : Managed -> bool) : Manager * list bytes :=
  remove_sessions m (select m (fun id ms =>
    if bool_decide (id = keep) then false
    else is_masked_pool_peer (identity (session ms)) && p ms)).

Definition cleanup_masked_peer_handshakes (m : Manager) (addr : SocketAddr) (keep : bytes)
    : Manager * list bytes :=
  cleanup_masked_peers m keep (fun ms =>
    bool_decide (client_addr ms = addr) && negb (bool_decide (is_Some (verified_node_id ms)))).

Definition cleanup_masked_peer_identity (m : Manager) (node_id keep : bytes) : Manager * list bytes :=
  match sessions m !! keep with
  | None => (m, [])
  | Some ms =>
      let valid := negb (removed (session ms)) && is_masked_pool_peer (identity (session ms))
                   && bool_decide (verified_node_id ms = Some node_id) in
      if negb valid then (m, [])
      else cleanup_masked_peers m keep (fun ms => bool_decide (verified_node_id ms = Some node_id))
  end.

Definition cleanup_old_sessions_for_vpn_ip (m : Manager) (ip : Z) (keep : bytes) : Manager * list bytes :=
  remove_sessions m (select m (fun id ms =>
    bool_decide (vpn_ip (identity (session ms)) = Some ip) && negb (bool_decide (id = keep)))).

Definition cleanup_old_sessions_for_client_id (m : Manager) (cid keep : bytes) : Manager * list bytes :=
  remove_sessions m (select m (fun id ms =>
    bool_decide (client_id (identity (session ms)) = Some cid) && negb (bool_decide (id = keep)))).

(** ** Downlink routing *)

(** An unadmitted client owns no address. *)
Definition routable (ms : Managed) : bool :=
  let i := identity (session ms) in
  negb (bool_decide (is_Some (client_id i))) || client_admitted i.

(** The scan of the table when the index has no usable answer. *)
Definition repair_vpn_ip (m : Manager) (ip : Z) : Manager * option bytes :=
  match select m (fun _ ms => bool_decide (vpn_ip (identity (session ms)) = Some ip) && routable ms) with
  | id :: _ => (with_vpn (<[ip := id]> (vpn_ip_map m)) m, Some id)
  | [] => (m, None)
  end.

Definition get_session_by_vpn_ip (m : Manager) (ip : Z) : Manager * option bytes :=
  match vpn_ip_map m !! ip with
  | Some id =>
      match sessions m !! id with
      | Some ms => if routable ms then (m, Some id) else repair_vpn_ip m ip
      | None => repair_vpn_ip m ip
      end
  | None => repair_vpn_ip m ip
  end.

Definition bind_vpn_ip (m : Manager) (ip : Z) (id : bytes) : Manager :=
  match sessions m !! id with
  | Some ms =>
      if bool_decide (vpn_ip (identity (session ms)) = Some ip) && routable ms
      then with_vpn (<[ip := id]> (vpn_ip_map m)) m else m
  | None => m
  end.

Definition rollback_failed_session (m : Manager) (id : bytes) : Manager :=
  let ip := ms ← sessions m !! id; vpn_ip (identity (session ms)) in
  let '(m, _) := remove_session m id in
  match ip with
  | Some ip => (get_session_by_vpn_ip m ip).1
  | None => m
  end.

Definition has_session_for_addr (m : Manager) (addr : SocketAddr) : bool :=
  existsb (fun e => bool_decide (client_addr (snd e) = addr)) (hash_iter (sessions m)).

(** ** Handshakes *)

Definition HANDSHAKE_TAG_SEARCH : Z := 16.

Definition handshake_tag_precheck_inner (eph_pub : bytes) (psk : option bytes) (cand_tag dh1 : bytes)
    (ts : Z) : bool :=
  let k := derive_initial_session_keys dh1 psk eph_pub in
  let base_tw := compute_time_window ts DEFAULT_WINDOW_MS in
  bool_decide (is_Some (search_tag (tag_secret k) (map (fun d => wrap64 (base_tw + d)) HANDSHAKE_SKEW_WINDOWS)
                          0 HANDSHAKE_TAG_SEARCH cand_tag)).

Definition handshake_tag_precheck_with_static (eph_pub : bytes) (psk : option bytes) (cand_tag : bytes)
    (static_kp : KeyPair) (ts : Z) : bool :=
  match compute_shared static_kp eph_pub with
  | Ok dh1 => handshake_tag_precheck_inner eph_pub psk cand_tag dh1 ts
  | _ => false
  end.

Definition handshake_tag_precheck (m : Manager) (eph_pub : bytes) (psk : option bytes) (cand_tag : bytes)
    (ts : Z) : bool :=
  match compute_shared (server_keys m) eph_pub with
  | Ok dh1 => handshake_tag_precheck_inner eph_pub psk cand_tag dh1 ts
  | _ => false
  end.

Definition handshake_fingerprint (k : SessionKeys) : bytes :=
  derive_key "aivpn handshake replay tombstone v1" (tag_secret k).

Definition claim_initial_keyspace (k : SessionKeys) (now : Z) : method Manager unit := fun m =>
  let fingerprint := handshake_fingerprint k in
  let replays := filter (fun e => now < e.2) (handshake_replays m) in
  if bool_decide (is_Some (replays !! fingerprint))
  then (with_replays replays m, Err (InvalidPacket "Replayed initial handshake"))
  else if HANDSHAKE_REPLAY_CAPACITY <=? Z.of_nat (size replays)
  then (with_replays replays m, Err (SessionError "Handshake replay cache full"))
  else (with_replays (<[fingerprint := now + HANDSHAKE_REPLAY_TTL]> replays) m, Ok tt).

Definition build_and_insert_session (addr : SocketAddr) (eph_pub dh1 : bytes) (psk : option bytes)
    (pool_peer : bool) (abandoned : list bytes) (session_id : bytes) (server_eph_kp : KeyPair)
    (now ts : Z) : method Manager bytes :=
  let initial_keys := derive_initial_session_keys dh1 psk eph_pub in
  do! _ := claim_initial_keyspace initial_keys now in
  do! dh2 := mlift (compute_shared server_eph_kp eph_pub) in
  let next_keys := derive_session_keys dh2 (Some (session_key initial_keys)) eph_pub in
  do! _ := mmod (fun m => (remove_sessions m abandoned).1) in
  let s := open_session initial_keys next_keys pool_peer now ts in
  do! _ := mmod (fun m => reindex_session m session_id s now ts) in
  do! _ := mmod (fun m => with_sessions (<[session_id :=
             {| session := s; client_addr := addr; last_seen := now; verified_node_id := None |}]> (sessions m)) m) in
  mret session_id.

(** The sessions of the same client: the one to replace, and the unfinished handshakes. *)
Fixpoint scan_client (cid : bytes) (l : list (bytes * Managed)) (previous : option IpAddr)
    (abandoned : list (bytes * IpAddr)) : outcome (option IpAddr * list (bytes * IpAddr)) :=
  match l with
  | [] => Ok (previous, abandoned)
  | (id, ms) :: l =>
      let s := session ms in
      let ip := socket_ip (client_addr ms) in
      if bool_decide (client_id (identity s) = Some cid) then
        if negb (is_ratcheted (ratchet s)) && negb (client_admitted (identity s))
        then scan_client cid l previous (abandoned ++ [(id, ip)])
        else if bool_decide (is_Some previous)
        then Err (SessionError "Client replacement is already pending")
        else scan_client cid l (Some ip) abandoned
      else scan_client cid l previous abandoned
  end.

(** The sessions whose source address satisfies a predicate. *)
Definition count_ip (m : Manager) (p : IpAddr -> bool) : Z :=
  len (filter (fun e : bytes * Managed => p (socket_ip (client_addr (snd e))) = true) (hash_iter (sessions m))).

Definition same_subnet (subnet24 : Z) (ip : IpAddr) : bool :=
  match ip with V4 a => Z.shiftr a 8 =? subnet24 | V6 _ => false end.

(** The sessions of a class of addresses that stay once the abandoned handshakes and the replaced
    session are gone. *)
Definition staying (m : Manager) (previous : option IpAddr) (abandoned : list (bytes * IpAddr))
    (p : IpAddr -> bool) : Z :=
  sat_sub (count_ip m p)
    (len (filter (fun e : bytes * IpAddr => p (snd e) = true) abandoned)
     + (if is_some_and previous p then 1 else 0)).

Definition with_owner (i : Identity) (cid : option bytes) (ip : option Z) : Identity :=
  {| vpn_ip := ip; client_id := cid; client_admitted := client_admitted i;
     kernel_epoch := kernel_epoch i; kernel_faulted := kernel_faulted i;
     kernel_prev_epoch := kernel_prev_epoch i; is_site_peer := is_site_peer i;
     is_masked_pool_peer := is_masked_pool_peer i; verified_device_pub := verified_device_pub i;
     mtls_ok := mtls_ok i; mtls_required := mtls_required i; mtls_cert := mtls_cert i |}.

(** The limits of [create_client_session]: the sessions to drop, or why there is no room. *)
Definition admission (m : Manager) (addr : SocketAddr) (client_id : option bytes) : outcome (list bytes) :=
  let! (previous, abandoned) :=
    match client_id with
    | Some cid => scan_client cid (hash_iter (sessions m)) None []
    | None => Ok (None, [])
    end in
  let global_limit :=
    if bool_decide (is_Some client_id) && negb (bool_decide (is_Some previous))
       && bool_decide (abandoned = [])
    then MAX_SESSIONS - 10 else MAX_SESSIONS in
  if global_limit <=? sat_sub (Z.of_nat (size (sessions m))) (len abandoned)
  then Err (SessionError "Max sessions reached")
  else if 5 <=? staying m previous abandoned (fun ip => bool_decide (ip = socket_ip addr))
  then Err (SessionError "Per-IP session limit reached")
  else if match socket_ip addr with
          | V4 v4 => 10 <=? staying m previous abandoned (same_subnet (Z.shiftr v4 8))
          | V6 _ => false
          end
  then Err (SessionError "Per-subnet (/24) session limit reached")
  else Ok (map fst abandoned).

Definition create_client_session (addr : SocketAddr) (eph_pub : bytes) (psk : option bytes)
    (static_vpn_ip : option Z) (client_id : option bytes) (session_id : bytes) (server_eph_kp : KeyPair)
    (now ts : Z) : method Manager bytes :=
  do! m := mget in
  do! abandoned := mlift (admission m addr client_id) in
  do! dh1 := mlift (compute_shared (server_keys m) eph_pub) in
  do! id := build_and_insert_session addr eph_pub dh1 psk false abandoned session_id server_eph_kp now ts in
  do! _ := mmod (fun m =>
    match sessions m !! id with
    | Some ms =>
        let s := session ms in
        let i := identity s in
        let ip := match static_vpn_ip with Some ip => Some ip | None => vpn_ip i end in
        with_sessions (<[id := with_session ms (with_identity (with_owner i client_id ip) s)]> (sessions m)) m
    | None => m
    end) in
  do! _ := mmod (fun m =>
    match static_vpn_ip, client_id with
    | Some ip, None => with_vpn (<[ip := id]> (vpn_ip_map m)) m
    | _, _ => m
    end) in
  mret id.

Definition create_session (addr : SocketAddr) (eph_pub : bytes) (psk : option bytes)
    (static_vpn_ip : option Z) (session_id : bytes) (server_eph_kp : KeyPair) (now ts : Z)
    : method Manager bytes :=
  create_client_session addr eph_pub psk static_vpn_ip None session_id server_eph_kp now ts.

Definition create_authenticated_session (addr : SocketAddr) (eph_pub psk : bytes) (vpn_ip : Z)
    (client_id tag session_id : bytes) (server_eph_kp : KeyPair) (now ts : Z) : method Manager bytes :=
  do! m := mget in
  if negb (handshake_tag_precheck m eph_pub (Some psk) tag ts)
  then mfail (InvalidPacket "Invalid authenticated handshake tag")
  else create_client_session addr eph_pub (Some psk) (Some vpn_ip) (Some client_id) session_id
         server_eph_kp now ts.

Definition create_masked_pool_peer_session (addr : SocketAddr) (eph_pub : bytes) (pool_kp : KeyPair)
    (pool_psk session_id : bytes) (server_eph_kp : KeyPair) (now ts : Z) : method Manager bytes :=
  do! m := mget in
  if MAX_SESSIONS <=? Z.of_nat (size (sessions m))
  then mfail (SessionError "Max sessions reached")
  else
  do! dh1 := mlift (compute_shared pool_kp eph_pub) in
  build_and_insert_session addr eph_pub dh1 (Some pool_psk) true [] session_id server_eph_kp now ts.

(** ** Maintenance *)

(** A change of one session of the table. *)
Definition update_session (m : Manager) (id : bytes) (f : Session -> Session) : Manager :=
  match sessions m !! id with
  | Some ms => with_sessions (<[id := with_session ms (f (session ms))]> (sessions m)) m
  | None => m
  end.

Definition refresh_session_tags (m : Manager) (id : bytes) (now ts : Z) : Manager :=
  match sessions m !! id with
  | Some ms => reindex_session m id (session ms) now ts
  | None => m
  end.

Definition complete_session_ratchet (m : Manager) (id : bytes) (now ts : Z) : Manager :=
  match sessions m !! id with
  | Some ms =>
      if bool_decide (is_Some (ratcheted_keys (ratchet (session ms))))
      then refresh_session_tags (update_session m id (fun s => complete_ratchet s now)) id now ts
      else m
  | None => m
  end.

(** One session of the first loop of [cleanup_expired]. *)
Definition purge_session (now ts : Z) (m : Manager) (id : bytes) : Manager :=
  match sessions m !! id with
  | Some ms =>
      if is_some_and (pre_ratchet_expire (grace (session ms))) (fun expire => expire <=? now)
      then refresh_session_tags (update_session m id (fun s => purge_grace s now)) id now ts
      else m
  | None => m
  end.

Definition expired (m : Manager) (now : Z) (ms : Managed) : bool :=
  (idle_timeout m <? sat_sub now (last_seen ms))
  || ((0 <? hard_timeout m) && (hard_timeout m <? sat_sub now (created_at (session ms)))).

Definition cleanup_expired (m : Manager) (now ts : Z) : Manager * list bytes :=
  let m := fold_left (purge_session now ts) (map fst (hash_iter (sessions m))) m in
  remove_sessions m (select m (fun _ ms => expired m now ms)).

(** One session of [refresh_and_find_by_tag]: the table after it, and the match. *)
Definition refresh_and_try (m : Manager) (id tag : bytes) (ip : IpAddr) (now ts : Z)
    : Manager * option (bytes * Z * bool) :=
  let current_tw := compute_time_window ts DEFAULT_WINDOW_MS in
  match sessions m !! id with
  | None => (m, None)
  | Some ms =>
      let m :=
        if bool_decide (tag_window_tw (rx (session ms)) = current_tw) then m
        else refresh_session_tags
               (update_session m id (fun s => update_ratcheted_tag_window (update_tag_window s now ts) ts))
               id now ts in
      let found :=
        if bool_decide (socket_ip (client_addr ms) = ip)
        then ms ← sessions m !! id; validate_tag (session ms) tag now ts else None in
      (m, (fun r => (id, fst r, snd r)) <$> found)
  end.

Fixpoint refresh_and_find (m : Manager) (ids : list bytes) (tag : bytes) (ip : IpAddr) (now ts : Z)
    : Manager * option (bytes * Z * bool) :=
  match ids with
  | [] => (m, None)
  | id :: ids =>
      match refresh_and_try m id tag ip now ts with
      | (m, Some r) => (m, Some r)
      | (m, None) => refresh_and_find m ids tag ip now ts
      end
  end.

Definition refresh_and_find_by_tag (m : Manager) (tag : bytes) (ip : IpAddr) (now ts : Z)
    : Manager * option (bytes * Z * bool) :=
  refresh_and_find m (map fst (hash_iter (sessions m))) tag ip now ts.

Definition RECOVERY_RANGE : Z := 2048.

(** [recover_session_by_tag] on the sessions of the source address, in turn. *)
Fixpoint recover_in (l : list (bytes * Managed)) (tag : bytes) (ip : IpAddr) (current_tw : Z)
    : option (bytes * Z * bool) :=
  match l with
  | [] => None
  | (id, ms) :: l =>
      if negb (bool_decide (socket_ip (client_addr ms) = ip)) then recover_in l tag ip current_tw
      else
      let s := session ms in
      let base := tag_search_center (rx s) in
      let tws := map (fun d => wrap64 (current_tw + d)) [0; -1; 1] in
      match search_tag (tag_secret (keys s)) tws base (Z.min u64_max (base + RECOVERY_RANGE)) tag with
      | None => recover_in l tag ip current_tw
      | Some c => if removed s || negb (counter_is_fresh (rx s) c) then None else Some (id, c, false)
      end
  end.

Definition recover_session_by_tag (m : Manager) (tag : bytes) (ip : IpAddr) (ts : Z)
    : option (bytes * Z * bool) :=
  recover_in (hash_iter (sessions m)) tag ip (compute_time_window ts DEFAULT_WINDOW_MS).

(** One session of [start_rekeying_sessions]: what is due is collected in [due]. *)
Definition start_rekeying_one (fresh : bytes -> KeyPair) (now ts : Z) (acc : Manager * list (bytes * bytes))
    (id : bytes) : Manager * list (bytes * bytes) :=
  let '(m, due) := acc in
  match sessions m !! id with
  | None => (m, due)
  | Some ms =>
      let '(s, pub) := start_rekeying (session ms) (fresh id) now ts in
      (with_sessions (<[id := with_session ms s]> (sessions m)) m,
       match pub with Some pub => due ++ [(id, pub)] | None => due end)
  end.

Definition start_rekeying_sessions (m : Manager) (fresh : bytes -> KeyPair) (now ts : Z)
    : Manager * list (bytes * bytes) :=
  let '(m, due) := fold_left (start_rekeying_one fresh now ts) (map fst (hash_iter (sessions m))) (m, []) in
  (fold_left (fun m e => refresh_session_tags m (fst e) now ts) due m, due).

Definition rekey_retransmit_one (now : Z) (acc : Manager * list (bytes * bytes)) (id : bytes)
    : Manager * list (bytes * bytes) :=
  let '(m, due) := acc in
  match sessions m !! id with
  | None => (m, due)
  | Some ms =>
      let '(s, pub) := rekey_retransmit (session ms) now in
      (with_sessions (<[id := with_session ms s]> (sessions m)) m,
       match pub with Some pub => due ++ [(id, pub)] | None => due end)
  end.

Definition rekey_retransmits_due (m : Manager) (now : Z) : Manager * list (bytes * bytes) :=
  fold_left (rekey_retransmit_one now) (map fst (hash_iter (sessions m))) (m, []).

(** [commit_session_rekey] of the manager; the index follows when new keys were installed. *)
Definition commit_rekey (m : Manager) (id eph_pub : bytes) (now ts : Z) : Manager :=
  match sessions m !! id with
  | None => m
  | Some ms =>
      match pending_rekey_keypair (rekey (session ms)) with
      | None => m
      | Some kp =>
          let m := update_session m id (fun s => commit_session_rekey s eph_pub now ts) in
          match compute_shared kp eph_pub with
          | Ok _ => refresh_session_tags m id now ts
          | _ => m
          end
      end
  end.
End Manager.
