(* ===== verification/SessionIndex.v ===== *)
(** * The indexes of the session table

    [SessionManager] keeps three views of the same sessions: the table, the index
    from tags and the index from VPN addresses. The invariant [manager_ok] says
    that they agree, and every method keeps it. A lookup by tag returns only what
    the session itself would accept, and a handshake is opened only once. *)

From S2P Require Import Prelude Collections IpAddr Protocol ReplayWindow Quality Crypto Session.
From S2P Require Import SessionReplay SessionTags SessionManager.
Local Open Scope Z_scope.

(** ** The invariant *)

Record manager_ok (m : Manager) : Prop := {
  mk_tags : forall t i, tag_map m !! t = Some i ->
    exists l, indexed_tags m !! it_session i = Some l /\ t ∈ l;
  mk_indexed : forall id, is_Some (indexed_tags m !! id) -> is_Some (sessions m !! id);
  mk_vpn : forall ip id, vpn_ip_map m !! ip = Some id ->
    exists ms, sessions m !! id = Some ms /\ vpn_ip (identity (session ms)) = Some ip;
}.

(** The table and the cache of handshakes are bounded. *)
Definition bounded (m : Manager) : Prop :=
  Z.of_nat (size (sessions m)) <= MAX_SESSIONS /\
  Z.of_nat (size (handshake_replays m)) <= HANDSHAKE_REPLAY_CAPACITY.

(** ** The index of tags *)

Lemma lookup_remove_tag_if id t tag x i :
  remove_tag_if id t tag !! x = Some i <->
  t !! x = Some i /\ ~ (x = tag /\ it_session i = id).
Proof.
  unfold remove_tag_if. destruct (t !! tag) as [j|] eqn:E.
  - case_bool_decide as Hj.
    + destruct (decide (x = tag)) as [->|Hne].
      * rewrite lookup_delete_eq. split; [done|]. intros [? H]. destruct H. split; congruence.
      * rewrite lookup_delete_ne by done. intuition.
    + split; [|tauto]. intros Hx. split; [done|]. intros [-> ?]. congruence.
  - split; [|tauto]. intros Hx. split; [done|]. intros [-> ?]. congruence.
Qed.

Lemma lookup_remove_tags id tags t x i :
  fold_left (remove_tag_if id) tags t !! x = Some i <->
  t !! x = Some i /\ ~ (x ∈ tags /\ it_session i = id).
Proof.
  revert t. induction tags as [|tag tags IH]; intros t; cbn [fold_left].
  - pose proof (not_elem_of_nil x). tauto.
  - rewrite IH, lookup_remove_tag_if, elem_of_cons. tauto.
Qed.

Lemma lookup_drop_tags id (keep : bytes -> bool) tags t x i :
  fold_left (fun t tag => if keep tag then t else remove_tag_if id t tag) tags t !! x = Some i <->
  t !! x = Some i /\ ~ (x ∈ tags /\ keep x = false /\ it_session i = id).
Proof.
  revert t. induction tags as [|tag tags IH]; intros t; cbn [fold_left].
  - pose proof (not_elem_of_nil x). tauto.
  - rewrite IH, elem_of_cons. destruct (keep tag) eqn:Hk.
    + split; [|tauto]. intros [? ?]. split; [done|]. intros ([->|] & ? & ?); [congruence|tauto].
    + rewrite lookup_remove_tag_if. naive_solver.
Qed.

Lemma insert_all_from (l : list (bytes * IndexedTag)) (m : gmap bytes IndexedTag) t i :
  fold_left (fun m e => <[fst e := snd e]> m) l m !! t = Some i -> (t, i) ∈ l \/ m !! t = Some i.
Proof.
  revert m. induction l as [|[t' i'] l IH]; intros m; cbn [fold_left fst snd]; [by right|].
  intros [Hin|Hm]%IH; [left; by right|]. destruct (decide (t' = t)) as [->|Hne].
  - rewrite lookup_insert_eq in Hm. injection Hm as ->. left. by left.
  - rewrite lookup_insert_ne in Hm by done. by right.
Qed.

Lemma insert_all_Some (l : list (bytes * IndexedTag)) t i : insert_all l !! t = Some i -> (t, i) ∈ l.
Proof. intros [?|H]%insert_all_from; [done|]. by rewrite lookup_empty in H. Qed.

Lemma insert_all_is_Some (l : list (bytes * IndexedTag)) t i : (t, i) ∈ l -> is_Some (insert_all l !! t).
Proof.
  unfold insert_all. generalize (∅ : gmap bytes IndexedTag). induction l as [|[t' i'] l IH]; intros m; cbn [fold_left fst snd].
  { by intros ?%not_elem_of_nil. }
  assert (forall m : gmap bytes IndexedTag, is_Some (m !! t) ->
    is_Some (fold_left (fun m e => <[fst e := snd e]> m) l m !! t)) as Hmono.
  { clear IH. induction l as [|[t'' i''] l IH]; intros m' Hm; cbn [fold_left fst snd]; [done|].
    apply IH, lookup_insert_is_Some'. by right. }
  intros [[= -> ->]|Hin]%elem_of_cons; [apply Hmono, lookup_insert_is_Some'; by left|by apply IH].
Qed.

Section Index.
Context {PR : Primitives} {HI : HashIter}.

Lemma elem_of_table id secret counters windows epoch t i :
  (t, i) ∈ table_entries id secret counters windows epoch <->
  exists c tw, is_Some (counters !! c) /\ tw ∈ windows /\ t = generate_resonance_tag secret c tw /\
    i = {| it_session := id; it_counter := c; it_window := tw; it_epoch := epoch |}.
Proof.
  unfold table_entries. rewrite list_elem_of_bind. split.
  - intros (c & Hin & Hc). apply list_elem_of_bind in Hin as (tw & Hin & Htw).
    apply list_elem_of_singleton in Hin. injection Hin as -> ->.
    apply list_elem_of_fmap in Hc as ([c' x] & -> & Hc%elem_of_iter). exists c', tw. by split_and!.
  - intros (c & tw & [x Hx] & Htw & -> & ->). exists c. split.
    + apply list_elem_of_bind. exists tw. split; [by apply list_elem_of_singleton|done].
    + apply list_elem_of_fmap. exists (c, x). split; [done|]. by apply elem_of_iter.
Qed.

Lemma elem_of_entries id s now windows t i :
  (t, i) ∈ session_entries id s now windows -> it_session i = id.
Proof.
  assert (forall secret counters epoch, (t, i) ∈ table_entries id secret counters windows epoch -> it_session i = id) as Ht
    by by intros secret counters epoch (? & ? & _ & _ & _ & ->)%elem_of_table.
  unfold session_entries. rewrite !elem_of_app. intros [H|[H|H]]; [by eapply Ht|..]; repeat case_match;
    by (apply not_elem_of_nil in H) || by eapply Ht.
Qed.

(** ** Each method keeps the invariant *)

Lemma reindex_ok m id s now ts :
  manager_ok m -> is_Some (sessions m !! id) -> manager_ok (reindex_session m id s now ts).
Proof.
  intros [Ht Hi Hv] Hid. unfold reindex_session. destruct (removed s); [by split|]. cbv zeta.
  set (tags := insert_all _). split; cbn [tag_map indexed_tags sessions vpn_ip_map with_index]; [| |done].
  - intros t i Hl. apply (lookup_drop_tags id (fun tag => bool_decide (is_Some (tags !! tag)))) in Hl as [Hl Hdrop].
    apply lookup_union_Some_raw in Hl as [Hl|[Hnone Hl]].
    + pose proof (elem_of_entries _ _ _ _ _ _ (insert_all_Some _ _ _ Hl)) as <-.
      eexists. split; [apply lookup_insert_eq|]. apply list_elem_of_fmap. exists (t, i). split; [done|]. by apply elem_of_iter.
    + destruct (Ht _ _ Hl) as (l & Hl' & Hin). destruct (decide (it_session i = id)) as [E|E].
      * destruct Hdrop. rewrite E in Hl'. rewrite Hl'. split_and!; [done| |done].
        apply bool_decide_eq_false_2. rewrite Hnone. by intros [? ?].
      * exists l. rewrite lookup_insert_ne by done. done.
  - intros id' H. apply lookup_insert_is_Some' in H as [<-|H]; [done|by apply Hi].
Qed.

Lemma remove_ok m id : manager_ok m -> manager_ok (remove_session m id).1.
Proof.
  intros [Ht Hi Hv]. unfold remove_session. destruct (sessions m !! id) as [ms|] eqn:Hs; [|by split].
  cbn [fst indexed_tags with_sessions].
  assert (forall id', id' <> id -> is_Some (sessions m !! id') -> is_Some (delete id (sessions m) !! id')) as Hdel
    by (intros id' Hne Hid; by rewrite lookup_delete_ne).
  set (m1 := match indexed_tags m !! id with Some _ => _ | None => _ end).
  assert ((forall t i, tag_map m1 !! t = Some i -> exists l, indexed_tags m1 !! it_session i = Some l /\ t ∈ l) /\
    (forall id', is_Some (indexed_tags m1 !! id') -> is_Some (delete id (sessions m) !! id')) /\
    sessions m1 = delete id (sessions m) /\ vpn_ip_map m1 = vpn_ip_map m) as (Ht1 & Hi1 & Es & Ev).
  { unfold m1. destruct (indexed_tags m !! id) as [tags|] eqn:Hx; cbn [tag_map indexed_tags sessions vpn_ip_map with_index with_sessions].
    - split_and!; [| |done|done].
      + intros t i [Hl Hn]%lookup_remove_tags. destruct (Ht _ _ Hl) as (l & Hl' & Hin). exists l. split; [|done].
        rewrite lookup_delete_ne; [done|]. intros E. rewrite <-E, Hx in Hl'. injection Hl' as ->. by destruct Hn.
      + intros id' H. apply lookup_delete_is_Some in H as [Hne H]. apply Hdel; [done|by apply Hi].
    - split_and!; [done| |done|done]. intros id' H. apply Hdel; [|by apply Hi]. intros ->. rewrite Hx in H. by destruct H. }
  assert (forall ip id', vpn_ip_map m1 !! ip = Some id' -> id' <> id ->
    exists ms, delete id (sessions m) !! id' = Some ms /\ vpn_ip (identity (session ms)) = Some ip) as Hv1.
  { intros ip id' H Hne. rewrite Ev in H. destruct (Hv _ _ H) as (ms' & ? & ?). exists ms'. by rewrite lookup_delete_ne. }
  clearbody m1. destruct (vpn_ip (identity (session ms))) as [ip|] eqn:Hip.
  - case_bool_decide as Hm; split; cbn [tag_map indexed_tags sessions vpn_ip_map with_vpn]; rewrite ?Es; try done.
    + intros ip' id' [Hne H]%lookup_delete_Some. apply Hv1; [done|]. intros ->. rewrite Ev in H.
      destruct (Hv _ _ H) as (? & ? & ?). congruence.
    + intros ip' id' H. apply Hv1; [done|]. intros ->. rewrite Ev in H, Hm. destruct (Hv _ _ H) as (? & ? & ?). congruence.
  - split; rewrite ?Es; try done. intros ip' id' H. apply Hv1; [done|]. intros ->. rewrite Ev in H.
    destruct (Hv _ _ H) as (? & ? & ?). congruence.
Qed.

Lemma remove_sessions_eq m id :
  sessions (remove_session m id).1 = delete id (sessions m) /\
  handshake_replays (remove_session m id).1 = handshake_replays m.
Proof.
  unfold remove_session. destruct (sessions m !! id) eqn:Hs; [|by rewrite delete_id].
  cbn [fst]. destruct (indexed_tags _ !! id), (vpn_ip _); repeat case_match; done.
Qed.

Lemma removes_ok m ids : manager_ok m -> manager_ok (remove_sessions m ids).1.
Proof.
  revert m. induction ids as [|id ids IH]; intros m Hm; cbn [remove_sessions]; [done|].
  pose proof (remove_ok m id Hm) as H1. destruct (remove_session m id) as [m1 r]. cbn [fst] in H1.
  specialize (IH m1 H1). by destruct (remove_sessions m1 ids).
Qed.

Lemma removes_replays m ids : handshake_replays (remove_sessions m ids).1 = handshake_replays m.
Proof.
  revert m. induction ids as [|id ids IH]; intros m; cbn [remove_sessions]; [done|].
  destruct (remove_sessions_eq m id) as [_ E]. destruct (remove_session m id) as [m1 r]. cbn [fst] in E.
  specialize (IH m1). destruct (remove_sessions m1 ids). cbn [fst] in *. congruence.
Qed.

Lemma removes_size m ids : (size (sessions (remove_sessions m ids).1) <= size (sessions m))%nat.
Proof.
  revert m. induction ids as [|id ids IH]; intros m; cbn [remove_sessions]; [done|].
  destruct (remove_sessions_eq m id) as [E _]. destruct (remove_session m id) as [m1 r]. cbn [fst] in E.
  specialize (IH m1). destruct (remove_sessions m1 ids) as [m2 r2]. cbn [fst] in *. rewrite E in IH.
  etrans; [exact IH|]. rewrite map_size_delete. destruct (sessions m !! id); [lia|done].
Qed.

(** Removing distinct sessions of the table frees their places. *)
Lemma removes_size_eq m ids :
  NoDup ids -> (forall id, id ∈ ids -> is_Some (sessions m !! id)) ->
  size (sessions (remove_sessions m ids).1) = (size (sessions m) - length ids)%nat.
Proof.
  revert m. induction ids as [|id ids IH]; intros m Hd Hin; cbn [remove_sessions length]; [cbn; lia|].
  apply NoDup_cons in Hd as [Hn Hd]. destruct (remove_sessions_eq m id) as [E _].
  destruct (remove_session m id) as [m1 r]. cbn [fst] in E. specialize (IH m1 Hd).
  destruct (remove_sessions m1 ids) as [m2 r2]. cbn [fst] in *. rewrite IH, E, map_size_delete_Some.
  - lia.
  - apply Hin. by left.
  - intros id' H'. rewrite E, lookup_delete_ne; [apply Hin; by right|]. by intros ->.
Qed.

(** A change of a session that keeps its address. *)
Lemma update_session_ok m id f :
  manager_ok m ->
  (forall ms, sessions m !! id = Some ms -> vpn_ip (identity (f (session ms))) = vpn_ip (identity (session ms))) ->
  manager_ok (update_session m id f).
Proof.
  intros [Ht Hi Hv] Hf. unfold update_session. destruct (sessions m !! id) as [ms|] eqn:Hs; [|by split].
  split; cbn [tag_map indexed_tags sessions vpn_ip_map with_sessions]; [done| |].
  - intros id' H. apply lookup_insert_is_Some'. right. by apply Hi.
  - intros ip id' H. destruct (Hv _ _ H) as (ms' & Hs' & Hip). destruct (decide (id' = id)) as [->|Hne].
    + rewrite lookup_insert_eq. eexists. split; [done|]. cbn. rewrite (Hf ms eq_refl). congruence.
    + rewrite lookup_insert_ne by done. by exists ms'.
Qed.

Lemma update_session_size m id f :
  size (sessions (update_session m id f)) = size (sessions m) /\
  handshake_replays (update_session m id f) = handshake_replays m.
Proof.
  unfold update_session. destruct (sessions m !! id) eqn:Hs; [|done]. split; [|done]. cbn.
  by rewrite map_size_insert_Some.
Qed.

Lemma reindex_rest m id s now ts :
  sessions (reindex_session m id s now ts) = sessions m /\
  handshake_replays (reindex_session m id s now ts) = handshake_replays m /\
  vpn_ip_map (reindex_session m id s now ts) = vpn_ip_map m.
Proof. unfold reindex_session. by destruct (removed s). Qed.

Lemma refresh_tags_ok m id now ts : manager_ok m -> manager_ok (refresh_session_tags m id now ts).
Proof.
  intros Hm. unfold refresh_session_tags. destruct (sessions m !! id) eqn:Hs; [|done].
  apply reindex_ok; [done|]. by rewrite Hs.
Qed.

Lemma refresh_tags_rest m id now ts :
  sessions (refresh_session_tags m id now ts) = sessions m /\
  handshake_replays (refresh_session_tags m id now ts) = handshake_replays m.
Proof.
  unfold refresh_session_tags. destruct (sessions m !! id) as [ms|]; [|done].
  by destruct (reindex_rest m id (session ms) now ts) as (? & ? & _).
Qed.

(** ** Methods that change one session *)

Lemma identity_update s now ts : identity (update_tag_window s now ts) = identity s.
Proof. unfold update_tag_window. destruct (pre_ratchet_keys_in_grace _ _); [|done]. by destruct (_ && _). Qed.

Lemma identity_update_ratcheted s ts : identity (update_ratcheted_tag_window s ts) = identity s.
Proof. unfold update_ratcheted_tag_window. by destruct (ratcheted_keys _). Qed.

Lemma identity_ratchet s now : identity (complete_ratchet s now) = identity s.
Proof. unfold complete_ratchet. by destruct (ratcheted_keys _). Qed.

Lemma identity_purge s now : identity (purge_grace s now) = identity s.
Proof. unfold purge_grace. by destruct (is_some_and _ _). Qed.

Lemma identity_start s fresh now ts : identity (start_rekeying s fresh now ts).1 = identity s.
Proof. unfold start_rekeying. repeat case_match; try done. cbn [fst]. by rewrite identity_update. Qed.

Lemma identity_retransmit s now : identity (rekey_retransmit s now).1 = identity s.
Proof. unfold rekey_retransmit. by repeat case_match. Qed.

Lemma identity_commit s eph now ts : identity (commit_session_rekey s eph now ts) = identity s.
Proof. unfold commit_session_rekey. repeat case_match; try done. by rewrite identity_update. Qed.

(** The invariant with its bounds, for methods that admit no session. *)
Definition sound (m : Manager) : Prop := manager_ok m /\ bounded m.

(** The step from [m] to [m'] keeps the invariant and grows neither table. *)
Definition keeps (m m' : Manager) : Prop :=
  (manager_ok m -> manager_ok m') /\ (size (sessions m') <= size (sessions m))%nat /\
  handshake_replays m' = handshake_replays m.

#[local] Instance keeps_refl : Reflexive keeps.
Proof. by intros m; unfold keeps; split_and!. Qed.

#[local] Instance keeps_trans : Transitive keeps.
Proof. intros m1 m2 m3 (? & ? & ?) (? & ? & ?). split_and!; [auto|lia|congruence]. Qed.

Lemma keeps_sound m m' : keeps m m' -> sound m -> sound m'.
Proof.
  intros (Hk & Hs & Hr) [Hm [Hb1 Hb2]]. split; [auto|]. unfold bounded. rewrite Hr. split; [lia|done].
Qed.

Lemma keeps_remove m ids : keeps m (remove_sessions m ids).1.
Proof. split_and!; [apply removes_ok|apply removes_size|apply removes_replays]. Qed.

Lemma keeps_remove_one m id : keeps m (remove_session m id).1.
Proof.
  pose proof (keeps_remove m [id]) as H. cbn [remove_sessions] in H. by destruct (remove_session m id) as [m1 []].
Qed.

Lemma keeps_update m id f :
  (forall ms, sessions m !! id = Some ms -> vpn_ip (identity (f (session ms))) = vpn_ip (identity (session ms))) ->
  keeps m (update_session m id f).
Proof.
  intros Hf. destruct (update_session_size m id f) as [Es Er].
  split_and!; [intros; by apply update_session_ok|by rewrite Es|done].
Qed.

Lemma keeps_refresh m id now ts : keeps m (refresh_session_tags m id now ts).
Proof.
  destruct (refresh_tags_rest m id now ts) as [Es Er].
  split_and!; [apply refresh_tags_ok|by rewrite Es|done].
Qed.

Lemma keeps_fold {A} (f : Manager -> A -> Manager) l m : (forall m x, keeps m (f m x)) -> keeps m (fold_left f l m).
Proof.
  intros Hf. revert m. induction l as [|x l IH]; intros m; cbn [fold_left]; [done|]. by transitivity (f m x).
Qed.

Lemma keeps_update_refresh m id f now ts :
  (forall s, identity (f s) = identity s) -> keeps m (refresh_session_tags (update_session m id f) id now ts).
Proof.
  intros Hf. transitivity (update_session m id f); [|apply keeps_refresh]. apply keeps_update. intros ms _. by rewrite Hf.
Qed.

Lemma keeps_complete_ratchet m id now ts : keeps m (complete_session_ratchet m id now ts).
Proof.
  unfold complete_session_ratchet. destruct (sessions m !! id); [|done]. case_bool_decide; [|done].
  apply keeps_update_refresh. intros. apply identity_ratchet.
Qed.

Lemma keeps_cleanup_expired m now ts : keeps m (cleanup_expired m now ts).1.
Proof.
  unfold cleanup_expired. etrans; [|apply keeps_remove]. apply keeps_fold. intros m' id. unfold purge_session.
  destruct (sessions m' !! id); [|done]. destruct (is_some_and _ _); [|done].
  apply keeps_update_refresh. intros. apply identity_purge.
Qed.

Lemma keeps_commit m id eph now ts : keeps m (commit_rekey m id eph now ts).
Proof.
  unfold commit_rekey. destruct (sessions m !! id) as [ms|]; [|done].
  destruct (pending_rekey_keypair _) as [kp|]; [|done].
  assert (keeps m (update_session m id (fun s => commit_session_rekey s eph now ts))) as Hu.
  { apply keeps_update. intros ms' _. by rewrite identity_commit. }
  destruct (compute_shared kp eph); [|done..]. etrans; [apply Hu|apply keeps_refresh].
Qed.

Lemma keeps_refresh_and_find m ids tag ip now ts : keeps m (refresh_and_find m ids tag ip now ts).1.
Proof.
  revert m. induction ids as [|id ids IH]; intros m; cbn [refresh_and_find]; [done|].
  assert (keeps m (refresh_and_try m id tag ip now ts).1) as H.
  { unfold refresh_and_try. destruct (sessions m !! id) as [ms|]; [|done]. cbn [fst].
    case_bool_decide; [done|]. apply keeps_update_refresh. intros s. by rewrite identity_update_ratcheted, identity_update. }
  destruct (refresh_and_try m id tag ip now ts) as [m1 [r|]]; [done|]. etrans; [exact H|apply IH].
Qed.

(** A session of the table replaced by one with the same address. *)
Lemma keeps_replace m id ms s :
  sessions m !! id = Some ms -> vpn_ip (identity s) = vpn_ip (identity (session ms)) ->
  keeps m (with_sessions (<[id := with_session ms s]> (sessions m)) m).
Proof.
  intros Hs Hip. assert (with_sessions (<[id := with_session ms s]> (sessions m)) m = update_session m id (fun _ => s)) as ->
    by by (unfold update_session; rewrite Hs).
  apply keeps_update. intros ms' Hs'. congruence.
Qed.

Lemma keeps_start_rekeying m fresh now ts : keeps m (start_rekeying_sessions m fresh now ts).1.
Proof.
  unfold start_rekeying_sessions.
  assert (forall l m due, keeps m (fold_left (start_rekeying_one fresh now ts) l (m, due)).1) as H.
  { induction l as [|id l IH]; intros m' due; cbn [fold_left]; [done|]. unfold start_rekeying_one at 2.
    destruct (sessions m' !! id) as [ms|] eqn:Hs; [|apply IH].
    pose proof (identity_start (session ms) (fresh id) now ts) as Hi.
    destruct (start_rekeying (session ms) (fresh id) now ts) as [s pub]. cbn [fst] in Hi.
    etrans; [|apply IH]. apply keeps_replace; [done|]. by rewrite Hi. }
  specialize (H (map fst (hash_iter (sessions m))) m []).
  destruct (fold_left _ _ (m, [])) as [m1 due]. cbn [fst] in *. etrans; [exact H|].
  apply (keeps_fold (fun m e => refresh_session_tags m e.1 now ts)). intros. apply keeps_refresh.
Qed.

Lemma keeps_retransmits m now : keeps m (rekey_retransmits_due m now).1.
Proof.
  unfold rekey_retransmits_due. generalize (map fst (hash_iter (sessions m))) as l. intros l.
  generalize (@nil (bytes * bytes)). revert m. induction l as [|id l IH]; intros m due; cbn [fold_left]; [done|].
  unfold rekey_retransmit_one at 2. destruct (sessions m !! id) as [ms|] eqn:Hs; [|apply IH].
  pose proof (identity_retransmit (session ms) now) as Hi.
  destruct (rekey_retransmit (session ms) now) as [s pub]. cbn [fst] in Hi.
  etrans; [|apply IH]. apply keeps_replace; [done|]. by rewrite Hi.
Qed.

(** ** Addresses *)

Lemma elem_of_select m p id : id ∈ select m p <-> exists ms, sessions m !! id = Some ms /\ p id ms = true.
Proof.
  unfold select. rewrite list_elem_of_fmap. split.
  - intros ([id' ms] & -> & [Hp Hin]%list_elem_of_filter). apply elem_of_iter in Hin. by exists ms.
  - intros (ms & Hs & Hp). exists (id, ms). split; [done|]. apply list_elem_of_filter. split; [done|]. by apply elem_of_iter.
Qed.

(** The index learns the owner of an address. *)
Lemma keeps_own m ip id ms :
  sessions m !! id = Some ms -> vpn_ip (identity (session ms)) = Some ip ->
  keeps m (with_vpn (<[ip := id]> (vpn_ip_map m)) m).
Proof.
  intros Hs Hip. split_and!; [|done|done]. intros [Ht Hi Hv]. split; [done|done|]. cbn.
  intros ip' id' [[<- <-]|[Hne H]]%lookup_insert_Some; [by exists ms|by apply Hv].
Qed.

Lemma keeps_repair m ip : keeps m (repair_vpn_ip m ip).1.
Proof.
  unfold repair_vpn_ip. destruct (select m _) as [|id l] eqn:E; [done|].
  assert (id ∈ select m (fun _ ms => bool_decide (vpn_ip (identity (session ms)) = Some ip) && routable ms)) as H
    by (rewrite E; by left).
  apply elem_of_select in H as (ms & Hs & [Hip%bool_decide_eq_true _]%andb_true_iff). by eapply keeps_own.
Qed.

Lemma keeps_lookup_vpn m ip : keeps m (get_session_by_vpn_ip m ip).1.
Proof. unfold get_session_by_vpn_ip. repeat case_match; done || apply keeps_repair. Qed.

Lemma keeps_bind m ip id : keeps m (bind_vpn_ip m ip id).
Proof.
  unfold bind_vpn_ip. destruct (sessions m !! id) as [ms|] eqn:Hs; [|done]. case_bool_decide as Hip; [|done].
  destruct (routable ms); [|done]. by eapply keeps_own.
Qed.

Lemma keeps_rollback m id : keeps m (rollback_failed_session m id).
Proof.
  unfold rollback_failed_session. pose proof (keeps_remove_one m id) as H. destruct (remove_session m id) as [m1 r].
  cbn [fst] in H. destruct (sessions m !! id ≫= _) as [ip|]; [|done]. etrans; [exact H|apply keeps_lookup_vpn].
Qed.

(** ** Creation *)

Lemma claim_sound k now m :
  sound m -> let m' := (claim_initial_keyspace k now m).1 in sound m' /\ sessions m' = sessions m.
Proof.
  intros [[Ht Hi Hv] [Hb1 Hb2]]. cbv zeta. unfold claim_initial_keyspace.
  assert (size (filter (fun e : bytes * Z => (now < e.2)%Z) (handshake_replays m)) <= size (handshake_replays m))%nat as Hsz
    by apply map_size_filter.
  case_bool_decide; [|destruct (Z.leb_spec HANDSHAKE_REPLAY_CAPACITY
    (Z.of_nat (size (filter (fun e : bytes * Z => now < e.2) (handshake_replays m))))) as [|Hlt]];
    (split; [|done]); (split; [done|]); (split; [done|]); cbn [fst handshake_replays with_replays].
  1,2: lia.
  rewrite map_size_insert. case_match; unfold id; lia.
Qed.

Lemma removes_lookup m ids id : sessions m !! id = None -> sessions (remove_sessions m ids).1 !! id = None.
Proof.
  revert m. induction ids as [|id' ids IH]; intros m Hs; cbn [remove_sessions]; [done|].
  destruct (remove_sessions_eq m id') as [E _]. destruct (remove_session m id') as [m1 r]. cbn [fst] in E.
  specialize (IH m1). destruct (remove_sessions m1 ids). cbn [fst] in *. apply IH. rewrite E.
  apply lookup_delete_None. by right.
Qed.

(** A new session, under an id that is not in use. *)
Lemma insert_session_ok m id ms now ts :
  manager_ok m -> sessions m !! id = None ->
  let m' := with_sessions (<[id := ms]> (sessions (reindex_session m id (session ms) now ts)))
              (reindex_session m id (session ms) now ts) in
  manager_ok m' /\ (forall ip, vpn_ip_map m' !! ip <> Some id).
Proof.
  intros [Ht Hi Hv] Hnone. cbv zeta. destruct (reindex_rest m id (session ms) now ts) as (Es & _ & Ev).
  assert (forall ip, vpn_ip_map m !! ip <> Some id) as Hfree
    by (intros ip H; destruct (Hv _ _ H) as (? & ? & _); congruence).
  split; [|cbn [vpn_ip_map with_sessions]; by rewrite Ev].
  assert (with_sessions (<[id := ms]> (sessions (reindex_session m id (session ms) now ts)))
    (reindex_session m id (session ms) now ts) =
    reindex_session (with_sessions (<[id := ms]> (sessions m)) m) id (session ms) now ts) as ->
    by (rewrite Es; unfold reindex_session; by destruct (removed (session ms))).
  apply reindex_ok; [|cbn; by rewrite lookup_insert_eq].
  split; cbn [tag_map indexed_tags sessions vpn_ip_map with_sessions]; [done| |].
  - intros id' H. apply lookup_insert_is_Some'. right. by apply Hi.
  - intros ip id' H. destruct (Hv _ _ H) as (ms' & Hs' & Hip). rewrite lookup_insert_ne; [by exists ms'|].
    intros ->. by destruct (Hfree ip).
Qed.

(** What a creation leaves behind: a sound table and, when it succeeds, an owner of no address. *)
Lemma build_sound addr eph dh1 psk peer abandoned id kp now ts m :
  sound m -> sessions m !! id = None -> NoDup abandoned ->
  (forall x, x ∈ abandoned -> is_Some (sessions m !! x)) ->
  Z.of_nat (size (sessions m)) - len abandoned < MAX_SESSIONS ->
  let '(m', r) := build_and_insert_session addr eph dh1 psk peer abandoned id kp now ts m in
  sound m' /\
  (forall x, r = Ok x -> x = id /\ is_Some (sessions m' !! id) /\ forall ip, vpn_ip_map m' !! ip <> Some id).
Proof.
  intros Hm Hnone Hd Hin Hlim. unfold build_and_insert_session, mbind. cbv zeta.
  destruct (claim_sound (derive_initial_session_keys dh1 psk eph) now m Hm) as [Hm1 Es1].
  destruct (claim_initial_keyspace _ now m) as [m1 [u|e|]]; cbn [fst] in *; [|by split..].
  unfold mlift. destruct (compute_shared kp eph) as [dh2|e|]; [|by split..]. unfold mmod, mret.
  set (s := open_session _ _ _ _ _). set (m2 := (remove_sessions m1 abandoned).1).
  assert (sound m2) as [Hm2 [Hb1 Hb2]] by (eapply keeps_sound; [apply keeps_remove|done]).
  assert (sessions m2 !! id = None) as Hnone2 by (apply removes_lookup; by rewrite Es1).
  assert (size (sessions m2) = size (sessions m) - length abandoned)%nat as Hsz.
  { unfold m2. rewrite removes_size_eq; rewrite ?Es1; done. }
  destruct (reindex_rest m2 id s now ts) as (Es & Er & _).
  destruct (insert_session_ok m2 id {| session := s; client_addr := addr; last_seen := now;
    verified_node_id := None |} now ts Hm2 Hnone2) as [Hok Hfree]. cbn [session] in *. split.
  - split; [done|]. unfold bounded. cbn [sessions handshake_replays with_sessions]. rewrite Es, Er.
    split; [|done]. rewrite map_size_insert_None by done. unfold MAX_SESSIONS in *. lia.
  - intros x [= <-]. split; [done|]. split; [|done]. cbn [sessions with_sessions]. by rewrite lookup_insert_eq.
Qed.

(** The unfinished handshakes are distinct sessions of the table. *)
Lemma scan_client_abandoned cid l previous abandoned previous' abandoned' :
  scan_client cid l previous abandoned = Ok (previous', abandoned') ->
  exists found, map fst abandoned' = map fst abandoned ++ found /\ sublist found (map fst l).
Proof.
  revert previous abandoned. induction l as [|[id ms] l IH]; intros previous abandoned; cbn [scan_client map fst].
  - intros [= <- <-]. exists []. by rewrite app_nil_r.
  - case_bool_decide; [destruct (_ && _); [|case_bool_decide; [done|]]|].
    + intros (found & E & Hsub)%IH. exists (id :: found). rewrite E, map_app, <-app_assoc. split; [done|by constructor].
    + intros (found & E & Hsub)%IH. exists found. split; [done|by constructor].
    + intros (found & E & Hsub)%IH. exists found. split; [done|by constructor].
Qed.

Lemma admission_sound m addr cid abandoned :
  admission m addr cid = Ok abandoned ->
  NoDup abandoned /\ (forall x, x ∈ abandoned -> is_Some (sessions m !! x)) /\
  Z.of_nat (size (sessions m)) - len abandoned < MAX_SESSIONS.
Proof.
  unfold admission. assert (exists r, match cid with
    | Some cid => scan_client cid (hash_iter (sessions m)) None [] | None => Ok (None, []) end = r) as [r Hr] by by eexists.
  rewrite Hr. destruct r as [[previous ab]|e|]; cbn [obind]; [|done..].
  assert (sublist (map fst ab) (map fst (hash_iter (sessions m)))) as Hsub.
  { destruct cid as [cid|].
    - apply scan_client_abandoned in Hr as (found & E & Hs). cbn in E. by rewrite E.
    - injection Hr as <- <-. apply sublist_nil_l. }
  match goal with |- context [?g <=? sat_sub _ _] => destruct (Z.leb_spec g (sat_sub (Z.of_nat (size (sessions m))) (len ab))) as [|Hlt]; [done|];
    assert (g <= MAX_SESSIONS) as Hg by (unfold MAX_SESSIONS; case_match; lia) end.
  destruct (5 <=? _); [done|]. destruct (match socket_ip addr with V4 _ => _ | V6 _ => _ end); [done|]. intros [= <-].
  split_and!.
  - exact (sublist_NoDup _ _ (NoDup_iter (sessions m)) Hsub).
  - intros x Hx. pose proof (elem_of_sublist _ _ _ Hx Hsub) as H.
    apply list_elem_of_fmap in H as ([x' ms] & -> & Hin%elem_of_iter). by eexists.
  - rewrite length_map. unfold sat_sub in Hlt. lia.
Qed.

(** The owner of a new session. *)
Lemma owner_ok m id f ip :
  manager_ok m -> (forall ip, vpn_ip_map m !! ip <> Some id) ->
  manager_ok (update_session m id f) /\
  (forall ms, sessions m !! id = Some ms -> vpn_ip (identity (f (session ms))) = Some ip ->
     manager_ok (with_vpn (<[ip := id]> (vpn_ip_map (update_session m id f))) (update_session m id f))).
Proof.
  intros [Ht Hi Hv] Hfree. assert (manager_ok (update_session m id f)) as Hok.
  { unfold update_session. destruct (sessions m !! id) as [ms|] eqn:Hs; [|by split].
    split; cbn [tag_map indexed_tags sessions vpn_ip_map with_sessions]; [done| |].
    - intros id' H. apply lookup_insert_is_Some'. right. by apply Hi.
    - intros ip' id' H. destruct (Hv _ _ H) as (ms' & Hs' & Hip). rewrite lookup_insert_ne; [by exists ms'|].
      intros ->. by destruct (Hfree ip'). }
  split; [done|]. intros ms Hs Hip. apply (keeps_own _ ip id (with_session ms (f (session ms)))); [|exact Hip|done].
  unfold update_session. rewrite Hs. cbn. by rewrite lookup_insert_eq.
Qed.

Lemma create_client_sound addr eph psk ip cid id kp now ts m :
  sound m -> sessions m !! id = None ->
  sound (create_client_session addr eph psk ip cid id kp now ts m).1.
Proof.
  intros Hm Hnone. unfold create_client_session, mbind at 1, mget, mlift.
  unfold mbind at 1. destruct (admission m addr cid) as [abandoned|e|] eqn:Ha; [|done..].
  destruct (admission_sound _ _ _ _ Ha) as (Hd & Hin & Hlim).
  unfold mbind at 1. destruct (compute_shared (server_keys m) eph) as [dh1|e|]; [|done..].
  pose proof (build_sound addr eph dh1 psk false abandoned id kp now ts m Hm Hnone Hd Hin Hlim) as H.
  unfold mbind at 1. destruct (build_and_insert_session _ _ _ _ _ _ _ _ _ _ m) as [m1 [x|e|]]; [|by apply H..].
  destruct H as [[Hok [Hb1 Hb2]] H]. destruct (H x eq_refl) as (-> & [ms Hs] & Hfree).
  unfold mbind, mmod, mret. cbn [fst]. rewrite Hs.
  set (f := fun s => with_identity (with_owner (identity s) cid
    match ip with Some ip => Some ip | None => vpn_ip (identity s) end) s).
  change (with_session ms (with_identity _ (session ms))) with (with_session ms (f (session ms))).
  assert (with_sessions (<[id := with_session ms (f (session ms))]> (sessions m1)) m1 = update_session m1 id f) as ->
    by by (unfold update_session; rewrite Hs).
  destruct (update_session_size m1 id f) as [Ez Er].
  destruct (owner_ok m1 id f (default 0 ip) Hok Hfree) as [Hok1 Hown].
  destruct ip as [ip|]; [destruct cid as [cid|]|]; (split; [|unfold bounded; cbn; rewrite ?Ez, ?Er; done]).
  - done.
  - by apply (Hown ms Hs).
  - done.
Qed.

(** ** Every method *)

(** A call of the manager, or a change of a session by the worker that handles its packets. *)
Inductive call : Type :=
  | CreateSession (addr : SocketAddr) (eph : bytes) (psk : option bytes) (ip : option Z) (id : bytes) (kp : KeyPair)
  | CreateAuthenticated (addr : SocketAddr) (eph psk : bytes) (ip : Z) (cid tag id : bytes) (kp : KeyPair)
  | CreatePoolPeer (addr : SocketAddr) (eph : bytes) (pool_kp : KeyPair) (psk id : bytes) (kp : KeyPair)
  | CleanupIp (ip : IpAddr) (keep : bytes)
  | CleanupHandshakes (addr : SocketAddr) (keep : bytes)
  | CleanupIdentity (node_id keep : bytes)
  | CleanupVpnIp (ip : Z) (keep : bytes)
  | CleanupClient (cid keep : bytes)
  | Rollback (id : bytes)
  | RouteTo (ip : Z)
  | BindVpnIp (ip : Z) (id : bytes)
  | RemoveSession (id : bytes)
  | RefreshTags (id : bytes)
  | RatchetSession (id : bytes)
  | CleanupExpired
  | FindByTag (tag : bytes) (ip : IpAddr)
  | StartRekeying (fresh : bytes -> KeyPair)
  | RetransmitRekeys
  | CommitRekey (id eph : bytes)
  | Work (id : bytes) (f : Session -> Session).

Definition invoke (m : Manager) (c : call) (now ts : Z) : Manager :=
  match c with
  | CreateSession addr eph psk ip id kp => (create_session addr eph psk ip id kp now ts m).1
  | CreateAuthenticated addr eph psk ip cid tag id kp =>
      (create_authenticated_session addr eph psk ip cid tag id kp now ts m).1
  | CreatePoolPeer addr eph pool_kp psk id kp =>
      (create_masked_pool_peer_session addr eph pool_kp psk id kp now ts m).1
  | CleanupIp ip keep => (cleanup_old_sessions_for_ip m ip keep).1
  | CleanupHandshakes addr keep => (cleanup_masked_peer_handshakes m addr keep).1
  | CleanupIdentity node_id keep => (cleanup_masked_peer_identity m node_id keep).1
  | CleanupVpnIp ip keep => (cleanup_old_sessions_for_vpn_ip m ip keep).1
  | CleanupClient cid keep => (cleanup_old_sessions_for_client_id m cid keep).1
  | Rollback id => rollback_failed_session m id
  | RouteTo ip => (get_session_by_vpn_ip m ip).1
  | BindVpnIp ip id => bind_vpn_ip m ip id
  | RemoveSession id => (remove_session m id).1
  | RefreshTags id => refresh_session_tags m id now ts
  | RatchetSession id => complete_session_ratchet m id now ts
  | CleanupExpired => (cleanup_expired m now ts).1
  | FindByTag tag ip => (refresh_and_find_by_tag m tag ip now ts).1
  | StartRekeying fresh => (start_rekeying_sessions m fresh now ts).1
  | RetransmitRekeys => (rekey_retransmits_due m now).1
  | CommitRekey id eph => commit_rekey m id eph now ts
  | Work id f => update_session m id f
  end.

(** A new session gets an id that is not in use; a worker keeps the address of its session. *)
Definition call_wf (m : Manager) (c : call) : Prop :=
  match c with
  | CreateSession _ _ _ _ id _ | CreateAuthenticated _ _ _ _ _ _ id _ | CreatePoolPeer _ _ _ _ id _ =>
      sessions m !! id = None
  | Work id f => forall ms, sessions m !! id = Some ms ->
      vpn_ip (identity (f (session ms))) = vpn_ip (identity (session ms))
  | _ => True
  end.

Lemma invoke_sound m c now ts : sound m -> call_wf m c -> sound (invoke m c now ts).
Proof.
  intros Hm Hwf. destruct c; cbn [invoke call_wf] in *.
  1: by apply create_client_sound.
  1: { unfold create_authenticated_session, mbind at 1, mget. destruct (handshake_tag_precheck _ _ _ _ _); [|done].
       by apply create_client_sound. }
  1: { unfold create_masked_pool_peer_session, mbind at 1, mget.
       destruct (Z.leb_spec MAX_SESSIONS (Z.of_nat (size (sessions m)))); [done|].
       unfold mbind at 1, mlift. destruct (compute_shared pool_kp eph) as [dh1|e|]; [|done..].
       pose proof (build_sound addr eph dh1 (Some psk) true [] id kp now ts m Hm Hwf (NoDup_nil_2)) as Hb.
       destruct (build_and_insert_session _ _ _ _ _ _ _ _ _ _ m) as [m1 r]. apply Hb; [|cbn; lia].
       by intros x ?%not_elem_of_nil. }
  all: refine (keeps_sound _ _ _ Hm).
  - apply keeps_remove.
  - apply keeps_remove.
  - unfold cleanup_masked_peer_identity. repeat case_match; done || apply keeps_remove.
  - apply keeps_remove.
  - apply keeps_remove.
  - apply keeps_rollback.
  - apply keeps_lookup_vpn.
  - apply keeps_bind.
  - apply keeps_remove_one.
  - apply keeps_refresh.
  - apply keeps_complete_ratchet.
  - apply keeps_cleanup_expired.
  - apply keeps_refresh_and_find.
  - apply keeps_start_rekeying.
  - apply keeps_retransmits.
  - apply keeps_commit.
  - by apply keeps_update.
Qed.

(** The calls of the life of a gateway, each with its clocks. *)
Fixpoint serve (m : Manager) (calls : list (call * Z * Z)) : Manager :=
  match calls with
  | [] => m
  | (c, now, ts) :: calls => serve (invoke m c now ts) calls
  end.

Fixpoint calls_wf (m : Manager) (calls : list (call * Z * Z)) : Prop :=
  match calls with
  | [] => True
  | (c, now, ts) :: calls => call_wf m c /\ calls_wf (invoke m c now ts) calls
  end.

Lemma serve_sound m calls : sound m -> calls_wf m calls -> sound (serve m calls).
Proof.
  revert m. induction calls as [|[[c now] ts] calls IH]; intros m Hm; cbn [serve calls_wf]; [done|].
  intros [Hwf Hrest]. apply IH; [by apply invoke_sound|done].
Qed.

Lemma start_sound kp hard idle : sound (with_timeouts kp hard idle).
Proof.
  split; [|by split]. split; cbn.
  - intros t i. by rewrite lookup_empty.
  - intros id. rewrite lookup_empty. by intros [? ?].
  - intros ip id. by rewrite lookup_empty.
Qed.


(** A lookup in the tag index is as strict as the session itself: it answers only with a session of
    the table that was not removed, and only if the tag is the one of a fresh counter under the current
    keys, of an unused counter of the previous keys in grace, or of the pending ratchet. A stale entry
    of the index is an error and never a match. *)
Theorem find_session_by_tag_sound m tag now ts id c r :
  find_session_by_tag m tag now ts = Ok (Some (id, c, r)) ->
  exists ms, sessions m !! id = Some ms /\ removed (session ms) = false /\ recognised (session ms) tag now c r.
Proof.
  unfold find_session_by_tag. destruct (tag_map m !! tag) as [i|]; [|done].
  destruct (sessions m !! it_session i) as [ms|] eqn:Hs; [|done]. cbv zeta.
  destruct (removed (session ms)) eqn:Hr; [done|]. cbn [negb andb].
  destruct (abs_diff _ _ <=? 1); [|done]. cbn [andb].
  destruct (index_keys (session ms) i now) as [k|] eqn:Hk; [|done]. cbn [is_some_and].
  case_bool_decide as Htag; [|done]. intros [= <- <- <-]. exists ms. split_and!; [done|done|].
  unfold index_keys in Hk. unfold recognised. destruct (it_epoch i).
  - left. exists (it_window i). unfold index_fresh in Hk. unfold counter_is_fresh.
    destruct (counter (rx (session ms)) <? it_counter i).
    + destruct (_ <=? _); [|done]. injection Hk as <-. by split.
    + destruct (_ && _); [|done]. injection Hk as <-. by split.
  - destruct (is_ratcheted (ratchet (session ms))); [done|]. split; [done|]. by exists k, (it_window i).
  - right. destruct (is_some_and _ _) eqn:Hx; [|done]. case_bool_decide; [|done]. case_bool_decide; [done|].
    cbn [negb andb] in Hk. exists k, (it_window i). unfold pre_ratchet_keys_in_grace. by rewrite Hx.
Qed.

(** Downlink routing is exact, also when the index is stale: a packet for a VPN address goes to a
    session of the table that owns the address and whose client is admitted, and it is dropped only
    if there is no such session. *)
Theorem route_exact m ip :
  manager_ok m ->
  match (get_session_by_vpn_ip m ip).2 with
  | Some id => exists ms, sessions m !! id = Some ms /\
      vpn_ip (identity (session ms)) = Some ip /\ routable ms = true
  | None => forall id ms, sessions m !! id = Some ms ->
      vpn_ip (identity (session ms)) = Some ip -> routable ms = false
  end.
Proof.
  intros Hm. assert (match (repair_vpn_ip m ip).2 with
    | Some id => exists ms, sessions m !! id = Some ms /\ vpn_ip (identity (session ms)) = Some ip /\ routable ms = true
    | None => forall id ms, sessions m !! id = Some ms -> vpn_ip (identity (session ms)) = Some ip -> routable ms = false
    end) as Hrep.
  { unfold repair_vpn_ip. pose proof (elem_of_select m
      (fun _ ms => bool_decide (vpn_ip (identity (session ms)) = Some ip) && routable ms)) as Hsel.
    destruct (select m _) as [|id l]; cbn [snd].
    - intros id ms Hs Hip. apply not_true_iff_false. intros Hr. apply (not_elem_of_nil id), Hsel.
      exists ms. split; [done|]. by rewrite bool_decide_eq_true_2.
    - destruct (proj1 (Hsel id)) as (ms & Hs & [Hip%bool_decide_eq_true ?]%andb_true_iff); [by left|]. by exists ms. }
  unfold get_session_by_vpn_ip. destruct (vpn_ip_map m !! ip) as [id|] eqn:Hv; [|done].
  destruct (mk_vpn _ Hm _ _ Hv) as (ms & Hs & Hip). rewrite Hs. destruct (routable ms) eqn:Hr; [|done]. by exists ms.
Qed.

(** ** Handshakes *)

Lemma claim_keeps k now m fp d :
  handshake_replays m !! fp = Some d -> now < d ->
  exists d', handshake_replays (claim_initial_keyspace k now m).1 !! fp = Some d' /\ d <= d'.
Proof.
  intros Hfp Hlt. unfold claim_initial_keyspace.
  set (replays := filter _ (handshake_replays m)).
  assert (replays !! fp = Some d) as Hr by (by apply map_lookup_filter_Some).
  case_bool_decide as Hin; [by exists d|]. destruct (_ <=? _); [by exists d|]. cbn [fst handshake_replays with_replays].
  destruct (decide (handshake_fingerprint k = fp)) as [<-|Hne]; [destruct Hin; by eexists|].
  exists d. by rewrite lookup_insert_ne.
Qed.

Lemma build_replays addr eph dh1 psk peer abandoned id kp now ts m :
  handshake_replays (build_and_insert_session addr eph dh1 psk peer abandoned id kp now ts m).1 =
  handshake_replays (claim_initial_keyspace (derive_initial_session_keys dh1 psk eph) now m).1.
Proof.
  unfold build_and_insert_session, mbind, mlift, mmod, mret. cbv zeta.
  destruct (claim_initial_keyspace _ now m) as [m1 [u|e|]]; [|done..].
  destruct (compute_shared kp eph) as [dh2|e|]; [|done..]. cbn [fst handshake_replays with_sessions].
  destruct (reindex_rest (remove_sessions m1 abandoned).1 id
    (open_session (derive_initial_session_keys dh1 psk eph)
      (derive_session_keys dh2 (Some (session_key (derive_initial_session_keys dh1 psk eph))) eph) peer now ts) now ts) as (_ & -> & _).
  apply removes_replays.
Qed.

(** The cache remembers [fp] until [d]. *)
Definition remembers (m : Manager) (fp : bytes) (d : Z) : Prop :=
  exists d', handshake_replays m !! fp = Some d' /\ d <= d'.

Lemma remembers_same m m' fp d : handshake_replays m' = handshake_replays m -> remembers m fp d -> remembers m' fp d.
Proof. unfold remembers. by intros ->. Qed.

Lemma claim_remembers k now m fp d :
  now < d -> remembers m fp d -> remembers (claim_initial_keyspace k now m).1 fp d.
Proof.
  intros Hlt (d1 & Hfp & Hle). destruct (claim_keeps k now m fp d1 Hfp) as (d2 & ? & ?); [lia|].
  exists d2. split; [done|lia].
Qed.

Lemma create_remembers addr eph psk ip cid id kp now ts m fp d :
  now < d -> remembers m fp d -> remembers (create_client_session addr eph psk ip cid id kp now ts m).1 fp d.
Proof.
  intros Hlt Hr. unfold create_client_session, mbind at 1, mget, mlift.
  unfold mbind at 1. destruct (admission m addr cid) as [abandoned|e|]; [|done..].
  unfold mbind at 1. destruct (compute_shared (server_keys m) eph) as [dh1|e|]; [|done..].
  pose proof (build_replays addr eph dh1 psk false abandoned id kp now ts m) as E.
  pose proof (claim_remembers (derive_initial_session_keys dh1 psk eph) now m fp d Hlt Hr) as Hc.
  unfold mbind at 1. destruct (build_and_insert_session _ _ _ _ _ _ _ _ _ _ m) as [m1 [x|e|]]; cbn [fst] in E;
    [|by eapply remembers_same..].
  unfold mbind, mmod, mret. cbn [fst]. eapply remembers_same; [|exact Hc]. rewrite <-E.
  destruct (sessions m1 !! x), ip, cid; done.
Qed.

Lemma invoke_remembers m c now ts fp d :
  now < d -> remembers m fp d -> remembers (invoke m c now ts) fp d.
Proof.
  intros Hlt Hr. destruct c; cbn [invoke].
  1: by apply create_remembers.
  1: { unfold create_authenticated_session, mbind at 1, mget. destruct (handshake_tag_precheck _ _ _ _ _); [|done].
       by apply create_remembers. }
  1: { unfold create_masked_pool_peer_session, mbind at 1, mget. destruct (_ <=? _); [done|].
       unfold mbind at 1, mlift. destruct (compute_shared pool_kp eph) as [dh1|e|]; [|done..].
       eapply remembers_same; [apply build_replays|]. by apply claim_remembers. }
  all: eapply remembers_same; [|exact Hr].
  1-5: try apply removes_replays.
  - unfold cleanup_masked_peer_identity. repeat case_match; done || apply removes_replays.
  - apply keeps_rollback.
  - apply keeps_lookup_vpn.
  - apply keeps_bind.
  - apply keeps_remove_one.
  - apply keeps_refresh.
  - apply keeps_complete_ratchet.
  - apply keeps_cleanup_expired.
  - apply keeps_refresh_and_find.
  - apply keeps_start_rekeying.
  - apply keeps_retransmits.
  - apply keeps_commit.
  - apply update_session_size.
Qed.

Lemma serve_remembers m calls fp d :
  Forall (fun e => e.1.2 < d) calls -> remembers m fp d -> remembers (serve m calls) fp d.
Proof.
  intros Hall. revert m. induction Hall as [|[[c now] ts] calls Hlt Hall IH]; intros m Hr; cbn [serve]; [done|].
  apply IH, invoke_remembers; done.
Qed.

(** A captured handshake packet cannot be replayed: once it has opened a session, and whatever the
    gateway does in between, a second session from the same ephemeral key, shared secret and pre-shared
    key is refused for 60 seconds. *)
Theorem handshake_once addr eph dh1 psk peer abandoned id kp now ts m calls addr' peer' abandoned' id' kp' now' ts' x :
  (build_and_insert_session addr eph dh1 psk peer abandoned id kp now ts m).2 = Ok x ->
  let m1 := (build_and_insert_session addr eph dh1 psk peer abandoned id kp now ts m).1 in
  Forall (fun e => e.1.2 < now + 60 * second_ns) calls -> now' < now + 60 * second_ns ->
  (build_and_insert_session addr' eph dh1 psk peer' abandoned' id' kp' now' ts' (serve m1 calls)).2
  = Err (InvalidPacket "Replayed initial handshake").
Proof.
  intros Hok. cbv zeta. intros Hcalls Hlt. set (k := derive_initial_session_keys dh1 psk eph).
  assert (remembers (build_and_insert_session addr eph dh1 psk peer abandoned id kp now ts m).1
    (handshake_fingerprint k) (now + 60 * second_ns)) as Hr.
  { eapply remembers_same; [apply build_replays|]. fold k. revert Hok. unfold build_and_insert_session, mbind. fold k.
    unfold claim_initial_keyspace. case_bool_decide; [done|]. destruct (_ <=? _); [done|]. intros _.
    eexists. cbn [fst handshake_replays with_replays]. split; [apply lookup_insert_eq|done]. }
  apply (serve_remembers _ calls) in Hr as (d & Hd & Hle); [|done].
  unfold build_and_insert_session, mbind, claim_initial_keyspace. fold k. rewrite bool_decide_eq_true_2; [done|].
  exists d. apply map_lookup_filter_Some. split; [done|]. cbn. lia.
Qed.
End Index.

(** ** A concrete table *)

#[local] Existing Instance toy_primitives.
#[local] Existing Instance ordered_iter.

Definition witness_addr : SocketAddr := SocketV4 3232235777 40000.
Definition witness_manager : Manager := with_timeouts witness_pair None None.
Definition witness_calls : list (call * Z * Z) :=
  [(CreateSession witness_addr (replicate 32 5) None (Some 167772162) (zeros 16) witness_pair, 1, 500);
   (RouteTo 167772162, 2, 500); (RatchetSession (zeros 16), 3, 600); (CleanupExpired, 4, 700);
   (CleanupIp (V4 3232235777) (replicate 16 1), 5, 800)].


Definition witness_tag : bytes := generate_resonance_tag (witness_secret 1) 7 0.
Definition witness_index : Manager :=
  with_index {[witness_tag := {| it_session := zeros 16; it_counter := 7; it_window := 0; it_epoch := Active |}]}
    {[zeros 16 := [witness_tag]]}
    (with_sessions {[zeros 16 := {| session := new_session (witness_keys 1) 0; client_addr := witness_addr;
       last_seen := 0; verified_node_id := None |}]} witness_manager).

Lemma find_session_by_tag_sound_witness :
  exists ms, sessions witness_index !! zeros 16 = Some ms /\ removed (session ms) = false /\
    recognised (session ms) witness_tag 5 7 false.
Proof. apply (find_session_by_tag_sound witness_index witness_tag 5 500 (zeros 16) 7 false). vm_compute. reflexivity. Defined.

Lemma route_exact_witness :
  match (get_session_by_vpn_ip (serve witness_manager (take 1 witness_calls)) 167772162).2 with
  | Some id => exists ms, sessions (serve witness_manager (take 1 witness_calls)) !! id = Some ms /\
      vpn_ip (identity (session ms)) = Some 167772162 /\ routable ms = true
  | None => forall id ms, sessions (serve witness_manager (take 1 witness_calls)) !! id = Some ms ->
      vpn_ip (identity (session ms)) = Some 167772162 -> routable ms = false
  end.
Proof.
  apply (route_exact (serve witness_manager (take 1 witness_calls)) 167772162).
  by apply serve_sound; [apply start_sound|].
Defined.

Lemma handshake_once_witness :
  (build_and_insert_session witness_addr (replicate 32 5) (replicate 32 6) None false [] (replicate 16 1) witness_pair 9 500
     (serve (build_and_insert_session witness_addr (replicate 32 5) (replicate 32 6) None false [] (zeros 16) witness_pair
               1 500 witness_manager).1 [(CleanupExpired, 8, 500)])).2
  = Err (InvalidPacket "Replayed initial handshake").
Proof.
  apply (handshake_once witness_addr (replicate 32 5) (replicate 32 6) None false [] (zeros 16) witness_pair 1 500
    witness_manager [(CleanupExpired, 8, 500)] witness_addr false [] (replicate 16 1) witness_pair 9 500 (zeros 16)).
  - reflexivity.
  - repeat constructor.
  - reflexivity.
Defined.
