(* ===== verification/Handshake.v ===== *)
(** * The handshake

    Composes the two ends of the handshake: the initial keys of the client
    ([crates/aivpn-client/src/client/mod.rs]), the session that the server opens
    ([SessionManager]), its ServerHello ([Link]) and what the client makes of it
    ([ClientWire]). The theorem is that both ends hold the same keys afterwards,
    before and after the ratchet. The one fact about X25519 it needs, that both ends
    compute the same secret, is a hypothesis. *)

From S2P Require Import Prelude Collections Protocol NetworkConfig MaskState Control ControlCodec Quality Crypto Mask.
From S2P Require Import Presets ReplayWindow Session ClientWire ClientReceive Link Uplink SessionManager SessionIndex.
Local Open Scope Z_scope.

Section Handshake.
Context {HI : HashIter} {PR : Primitives} {HX : Hex}.

(** The keys of a connection before the first answer of the server. *)
Definition client_initial_keys (keypair : KeyPair) (server_public_key : bytes) (preshared_key : option bytes)
    : outcome SessionKeys :=
  let! dh_result := compute_shared keypair server_public_key in
  Ok (derive_initial_session_keys dh_result preshared_key (public_key_bytes keypair)).

(** ** Both ends derive the same keys *)

(** Every pair the program makes, generated or loaded. *)
Definition keypair_ok (k : KeyPair) : Prop := public_key_bytes k = x25519_base (private_key_bytes k).

(** Diffie-Hellman: the two ends compute the same secret. *)
Definition dh_commutes : Prop := forall a b, x25519 a (x25519_base b) = x25519 b (x25519_base a).

Lemma shared_commutes a b :
  dh_commutes -> keypair_ok a -> keypair_ok b ->
  compute_shared a (public_key_bytes b) = compute_shared b (public_key_bytes a).
Proof. unfold keypair_ok, compute_shared. intros Hdh -> ->. by rewrite Hdh. Qed.

Lemma open_session_keys initial next peer now ts :
  let s := open_session initial next peer now ts in
  keys s = initial /\ ratcheted_keys (ratchet s) = Some next.
Proof. unfold open_session, update_tag_window, update_ratcheted_tag_window. cbn. repeat case_match; done. Qed.

Lemma hello_keys s now : let s' := fst (admit_initial_hello s now) in
  keys s' = keys s /\ ratcheted_keys (ratchet s') = ratcheted_keys (ratchet s) /\ tx s' = tx s.
Proof. unfold admit_initial_hello. by repeat case_match. Qed.

Lemma build_packet_keys plaintext mask catalog_mdh draws ts s :
  let s' := fst (build_packet plaintext mask catalog_mdh draws ts s) in
  keys s' = keys s /\ ratchet s' = ratchet s.
Proof. unfold build_packet, next_send_nonce. by destruct (_ <=? _). Qed.

Lemma complete_ratchet_keys s k now : ratcheted_keys (ratchet s) = Some k -> keys (complete_ratchet s now) = k.
Proof. unfold complete_ratchet. by intros ->. Qed.

Lemma hello_length e s c data :
  array_ok 32 e -> array_ok 64 s -> encode_ServerHello e s c = Ok data -> len data <= isize_max.
Proof.
  intros [_ He] [_ Hs] H. unfold encode_ServerHello in H. apply obind_Ok in H as (tail & Ht & [= <-]).
  assert (len tail <= 30).
  { destruct c; [apply obind_Ok in Ht as (? & _ & [= <-]); by rewrite length_encode_wire|by injection Ht as <-]. }
  cbn [app length]. rewrite !length_app. unfold isize_max. lia.
Qed.

(** What the manager stores for an accepted handshake. *)
Lemma created_session addr eph psk ip cid id kp now ts m m' id' :
  create_client_session addr eph psk ip cid id kp now ts m = (m', Ok id') ->
  exists dh1 dh2 ms, compute_shared (server_keys m) eph = Ok dh1 /\ compute_shared kp eph = Ok dh2 /\
    sessions m' !! id' = Some ms /\
    let initial := derive_initial_session_keys dh1 psk eph in
    let next := derive_session_keys dh2 (Some (session_key initial)) eph in
    exists identity, session ms = with_identity identity (open_session initial next false now ts).
Proof.
  unfold create_client_session, mbind at 1, mget, mlift. unfold mbind at 1.
  destruct (admission m addr cid) as [abandoned| |]; [|done..]. unfold mbind at 1.
  destruct (compute_shared (server_keys m) eph) as [dh1| |]; [|done..]. unfold mbind at 1.
  unfold build_and_insert_session, mlift, mmod, mret. cbv zeta. unfold mbind.
  destruct (claim_initial_keyspace _ now m) as [m1 [u| |]]; [|done..].
  destruct (compute_shared kp eph) as [dh2| |]; [|done..]. cbn [sessions with_sessions].
  set (s := open_session _ _ _ _ _). rewrite lookup_insert_eq. intros [= <- <-]. exists dh1, dh2. eexists. split; [done|]. split; [done|]. split.
  - destruct ip, cid; cbn [sessions with_sessions with_vpn]; by rewrite lookup_insert_eq.
  - cbn. by eexists.
Qed.

Context {PL : PrimitiveLaws}.

(** The ServerHello is the packet of [Link.build_packet]. *)
Lemma send_server_hello_parts e sig cfg mask catalog_mdh draws now ts s s' packet :
  send_server_hello (Some e) (Some sig) cfg mask catalog_mdh draws now ts s = (s', Ok (Some packet)) ->
  exists encoded s1, encode_ServerHello e sig cfg = Ok encoded /\ keys s1 = keys s /\ tx s1 = tx s /\
    ratcheted_keys (ratchet s') = ratcheted_keys (ratchet s) /\
    build_packet (InnerHeader.encode {| InnerHeader.inner_type := InnerType.Control; InnerHeader.seq_num := 0 |}
      ++ encoded) mask catalog_mdh draws ts s1 = (s', Ok packet).
Proof.
  unfold send_server_hello. pose proof (hello_keys s now) as (Hk & Hr & Ht).
  destruct (admit_initial_hello s now) as [s1 admitted]. cbn [fst] in *. destruct admitted; [|done]. cbn [negb].
  change (Control.encode (ControlPayload.ServerHello e sig cfg)) with (encode_ServerHello e sig cfg).
  destruct (encode_ServerHello e sig cfg) as [encoded| |]; [|done..].
  destruct (build_packet _ _ _ _ _ s1) as [s2 r] eqn:Hb. intros [= <- H].
  destruct r as [p| |]; [|done..]. injection H as <-. exists encoded, s1. split_and!; try done.
  apply (f_equal fst) in Hb. cbn [fst] in Hb. subst s2. by rewrite (proj2 (build_packet_keys _ _ _ _ _ _)).
Qed.

(** The client accepts the signature of the server, when it pins a key. *)
Definition signature_accepted (server_signing_key : option bytes) (message signature : bytes) : Prop :=
  forall key, server_signing_key = Some key ->
    verifying_key_ok key = true /\ verify_strict key message signature = true.

(** What the client makes of a ServerHello that it can open. *)
Lemma process_server_hello_ok packet keypair mdh_len signing_key tag_offsets now ts h rx' c encoded e sig cfg dh2 :
  decode_downlink_with_offsets packet (h_keys h) tag_offsets now ts
    {| window := h_window h; mdh_lens := [mdh_len] |} =
    (rx', Ok {| d_counter := c;
                d_header := {| InnerHeader.inner_type := InnerType.Control; InnerHeader.seq_num := 0 |};
                d_payload := encoded |}) ->
  encode_ServerHello e sig cfg = Ok encoded -> array_ok 32 e -> array_ok 64 sig ->
  (forall cfg', cfg = Some cfg' -> client_network_wf cfg') ->
  signature_accepted signing_key (e ++ public_key_bytes keypair) sig -> compute_shared keypair e = Ok dh2 ->
  process_server_hello_with_offsets packet keypair mdh_len signing_key tag_offsets now ts h =
    ({| h_keys := derive_session_keys dh2 (Some (session_key (h_keys h))) (public_key_bytes keypair);
        h_window := RecvWindow.reset (window rx'); h_send_counter := 0 |}, Ok (cfg, e)).
Proof.
  intros Hdec Henc He Hs Hcfg Hsig Hdh2. unfold process_server_hello_with_offsets. rewrite Hdec.
  cbn [obind d_header d_payload InnerHeader.inner_type h_keys]. rewrite bool_decide_eq_true_2 by done. cbn [negb].
  rewrite (hello_roundtrip e sig cfg encoded He Hs Hcfg (hello_length _ _ _ _ He Hs Henc) Henc). cbn [obind].
  destruct signing_key as [key|].
  - destruct (Hsig key eq_refl) as [-> ->]. cbn [negb obind]. by rewrite Hdh2.
  - cbn [obind]. by rewrite Hdh2.
Qed.

(** C5: the handshake agrees on keys. The session the server opens for the key of a
    client has the initial keys of the client; and the client that processes the
    ServerHello of the server has the keys the server ratchets to, with its send
    counter at zero and nothing seen in its window. *)
Theorem handshake_agreement addr keypair psk ip cid id ekp now ts m m1 id' ms ckeys
    sig cfg mask catalog_mdh draws now1 ts1 s' packet signing_key tag_offsets now2 ts2 h :
  dh_commutes -> keypair_ok keypair -> keypair_ok (server_keys m) -> keypair_ok ekp ->
  client_initial_keys keypair (public_key_bytes (server_keys m)) psk = Ok ckeys ->
  create_client_session addr (public_key_bytes keypair) psk ip cid id ekp now ts m = (m1, Ok id') ->
  sessions m1 !! id' = Some ms ->
  send_server_hello (Some (public_key_bytes ekp)) (Some sig) cfg mask catalog_mdh draws now1 ts1 (session ms)
    = (s', Ok (Some packet)) ->
  let mdh := session_mdh mask catalog_mdh draws in
  let f := session_framing mask (len mdh) in
  array_ok 32 (public_key_bytes ekp) -> array_ok 64 sig ->
  (forall cfg', cfg = Some cfg' -> client_network_wf cfg') ->
  signature_accepted signing_key (public_key_bytes ekp ++ public_key_bytes keypair) sig ->
  draws_ok draws -> framing_ok f (len mdh) -> bytes_ok packet ->
  authentic ckeys PacketDirection.ServerToClient packet -> h_keys h = ckeys ->
  expects ckeys (h_window h) ts1 ts2 (send_counter (tx (session ms))) ->
  handles {| window := h_window h; mdh_lens := [len mdh] |} tag_offsets f (len mdh) ->
  let '(h', result) :=
    process_server_hello_with_offsets packet keypair (len mdh) signing_key tag_offsets now2 ts2 h in
  keys (session ms) = ckeys /\ result = Ok (cfg, public_key_bytes ekp) /\
  (forall now3, h_keys h' = keys (complete_ratchet s' now3)) /\
  h_send_counter h' = 0 /\ represents (h_window h') [].
Proof.
  intros Hdh Hkp Hsk Hek Hinit Hcreate Hms Hhello mdh f He Hs Hcfg Hsig Hdraws Hf Hok Hauth Hh Hexp Hhan.
  destruct (created_session _ _ _ _ _ _ _ _ _ _ _ _ Hcreate) as (dh1 & dh2 & ms' & H1 & H2 & Hms' & i & Hses).
  rewrite Hms in Hms'. injection Hms' as <-.
  assert (keys (session ms) = derive_initial_session_keys dh1 psk (public_key_bytes keypair) /\
    ratcheted_keys (ratchet (session ms)) = Some (derive_session_keys dh2
      (Some (session_key (derive_initial_session_keys dh1 psk (public_key_bytes keypair)))) (public_key_bytes keypair)))
    as [Hkeys Hnext] by (rewrite Hses; exact (open_session_keys _ _ _ _ _)).
  unfold client_initial_keys in Hinit. rewrite (shared_commutes _ _ Hdh Hkp Hsk), H1 in Hinit.
  injection Hinit as <-. set (initial := derive_initial_session_keys _ _ _) in *.
  destruct (send_server_hello_parts _ _ _ _ _ _ _ _ _ _ _ Hhello) as (encoded & s1 & Henc & Hk1 & Ht1 & Hr & Hbuild).
  rewrite <-Hkeys, <-Hk1 in Hauth, Hexp. rewrite <-Ht1 in Hexp.
  pose proof (packet_delivered s1 s' mask catalog_mdh draws ts1 packet _ encoded
    {| window := h_window h; mdh_lens := [len mdh] |} tag_offsets now2 ts2 Hbuild Hdraws) as Hdel.
  cbv zeta in Hdel. fold mdh in Hdel. fold f in Hdel. specialize (Hdel ltac:(done) Hf Hok Hauth Hexp Hhan).
  rewrite Hk1, Hkeys, <-Hh in Hdel. destruct (decode_downlink_with_offsets _ _ _ _ _ _) as [rx' r] eqn:Hdec.
  destruct Hdel as [-> _].
  rewrite (process_server_hello_ok _ _ _ _ _ _ _ _ _ _ _ _ sig cfg dh2 Hdec Henc He Hs Hcfg Hsig) by
    (rewrite (shared_commutes keypair ekp) by done; exact H2).
  split; [done|]. split; [done|]. split; [|split; [done|apply represents_new]].
  intros now3. cbn [h_keys]. rewrite (complete_ratchet_keys _ _ now3 (eq_trans Hr Hnext)). by rewrite Hh.
Qed.
End Handshake.

(** ** A run *)

#[local] Existing Instance toy_primitives.
#[local] Existing Instance toy_laws.
#[local] Existing Instance plain_hex.
#[local] Existing Instance ordered_iter.

Definition server_pair : KeyPair := from_private_key (16 :: zeros 31).
Definition ephemeral_pair : KeyPair := from_private_key (24 :: zeros 31).
Definition sample_manager : Manager := with_timeouts server_pair None None.
Definition sample_signature : bytes := public_key_bytes ephemeral_pair ++ public_key_bytes sample_keypair.

Definition sample_created : Manager * outcome bytes :=
  create_client_session witness_addr (public_key_bytes sample_keypair) None None None (zeros 16) ephemeral_pair 1 500
    sample_manager.

Definition hello_of (s : Session) : Session * outcome (option bytes) :=
  send_server_hello (Some (public_key_bytes ephemeral_pair)) (Some sample_signature) None
    (Some preset_masks.quic_https_v2) [] quiet_draws 2 500 s.

(** The session that the manager stores, but for its owner. *)
Definition sample_session (i : Identity) : Session :=
  let initial := derive_initial_session_keys (56 :: zeros 31) None (public_key_bytes sample_keypair) in
  with_identity i (open_session initial
    (derive_session_keys (48 :: zeros 31) (Some (session_key initial)) (public_key_bytes sample_keypair)) false 1 500).

Definition hello_packet : bytes :=
  Eval vm_compute in
  match snd (hello_of (new_session (derive_initial_session_keys (56 :: zeros 31) None (public_key_bytes sample_keypair)) 1))
  with Ok (Some p) => p | _ => [] end.

Definition client_keys : SessionKeys :=
  Eval vm_compute in
  match client_initial_keys sample_keypair (public_key_bytes server_pair) None with Ok k => k | _ => plain_keys end.

Lemma toy_dh : dh_commutes.
Proof.
  intros a. unfold x25519, x25519_base, toy_primitives.
  induction a as [|x a IH]; intros [|y b]; cbn [zip_with]; [done..|]. by rewrite Z.lxor_comm, IH.
Qed.

Lemma sample_created_ok : snd sample_created = Ok (zeros 16).
Proof. reflexivity. Qed.

Lemma sample_hello_sent i : snd (hello_of (sample_session i)) = Ok (Some hello_packet).
Proof. lazy. reflexivity. Qed.

(** The client before the hello. *)
Definition sample_client : Handshake := {| h_keys := client_keys; h_window := RecvWindow.new; h_send_counter := 3 |}.

Lemma handshake_agreement_witness :
  exists s', snd (process_server_hello_with_offsets hello_packet sample_keypair 14 (Some (zeros 32)) [6] 3 500 sample_client)
      = Ok (None, public_key_bytes ephemeral_pair) /\
    h_keys (fst (process_server_hello_with_offsets hello_packet sample_keypair 14 (Some (zeros 32)) [6] 3 500 sample_client))
      = keys (complete_ratchet s' 4).
Proof.
  destruct sample_created as [m1 r] eqn:Ec.
  assert (r = Ok (zeros 16)) as Hr by (rewrite <-sample_created_ok; by rewrite Ec). rewrite Hr in Ec.
  unfold sample_created in Ec.
  destruct (created_session _ _ _ _ _ _ _ _ _ _ _ _ Ec) as (dh1 & dh2 & ms & H1 & H2 & Hms & i & Hses).
  assert (dh1 = 56 :: zeros 31) as -> by (vm_compute in H1; by injection H1).
  assert (dh2 = 48 :: zeros 31) as -> by (vm_compute in H2; by injection H2).
  destruct (hello_of (session ms)) as [s' p] eqn:Eh.
  assert (p = Ok (Some hello_packet)) as Hp
    by (rewrite <-(sample_hello_sent i); unfold sample_session; by rewrite <-Hses, Eh).
  rewrite Hp in Eh.
  pose proof (handshake_agreement witness_addr sample_keypair None None None (zeros 16) ephemeral_pair 1 500 sample_manager
    m1 (zeros 16) ms client_keys sample_signature None (Some preset_masks.quic_https_v2) [] quiet_draws 2 500 s' hello_packet
    (Some (zeros 32)) [6] 3 500 sample_client toy_dh eq_refl eq_refl eq_refl eq_refl Ec Hms Eh) as H.
  cbv zeta in H.
  assert (len (session_mdh (Some preset_masks.quic_https_v2) [] quiet_draws) = 14) as El by reflexivity.
  specialize (H ltac:(split; [apply bytes_ok_check; vm_compute; reflexivity|reflexivity])
    ltac:(split; [apply bytes_ok_check; vm_compute; reflexivity|reflexivity])
    ltac:(discriminate) ltac:(intros key [= <-]; split; vm_compute; reflexivity) quiet_draws_ok ltac:(vm_compute; intuition congruence)
    ltac:(apply bytes_ok_check; vm_compute; reflexivity) ltac:(apply toy_authentic; vm_compute; congruence) eq_refl).
  rewrite El in H.
  specialize (H ltac:(rewrite Hses; exact (toy_expects client_keys))).
  specialize (H ltac:(split; [repeat constructor; vm_compute; congruence|repeat constructor; vm_compute; congruence|
    right; apply elem_of_cons; by left|left; apply elem_of_cons; by left])).
  exists s'. destruct (process_server_hello_with_offsets _ _ _ _ _ _ _ _) as [h' result].
  destruct H as (_ & Hresult & Hkeys & _). split; [exact Hresult|exact (Hkeys 4)].
Defined.
