(* ===== verification/NodeRegistry.v ===== *)
(** * The registry of pool nodes

    [node_registry.rs]: which key a node of the pool has proved, and which nodes are shut
    out. The server and the command line are processes of their own that share one file;
    each call takes the lock of the file, reads the file, and writes it when it changes
    something, so a call is one step here. A file that cannot be read poisons the process.
    The theorems: a revocation holds for all processes, a node keeps the key it was bound
    to, and no call leaves a file behind that the next one cannot read. *)

From S2P Require Import Prelude Collections Text Utf8 Crypto.
Local Open Scope Z_scope.

Definition NODE_ENROLL_WINDOW_MS : Z := 60000.
Definition MAX_REGISTRY_BYTES : Z := 16 * 1024 * 1024.

Record PersistedStore : Type := { ps_nodes : gmap bytes bytes; ps_revoked : list bytes }.

(** [serde_json] and [base64] on the texts of the registry, and [VerifyingKey::is_weak]. *)
Class RegistryText : Type := {
  store_from_str : bytes -> option PersistedStore;
  nodes_from_str : bytes -> option (gmap bytes bytes);
  store_to_vec_pretty : PersistedStore -> option bytes;
  base64_encode : bytes -> bytes;
  base64_decode : bytes -> option bytes;
  is_weak : bytes -> bool;
}.

Class RegistryTextLaws {PR : Primitives} {RT : RegistryText} : Prop := {
  store_from_to : forall s t, store_to_vec_pretty s = Some t ->
    store_from_str t = Some s /\ utf8_valid t = true;
  base64_decode_encode : forall k, base64_decode (base64_encode k) = Some k;
  verify_strict_strong : forall k m s, verify_strict k m s = true -> is_weak k = false;
}.

Module NodeAuthOutcome.
Inductive t : Type := Verified | BoundNew | Rejected (reason : string).

Definition accepted (o : t) : bool := match o with Rejected _ => false | _ => true end.
End NodeAuthOutcome.

Record RegistryState : Type := {
  nodes : gmap bytes bytes;
  revoked : gset bytes;
  unsaved_revocations : gset bytes;
  existed : bool;
  poisoned : bool;
}.

Definition default_state : RegistryState :=
  {| nodes := ∅; revoked := ∅; unsaved_revocations := ∅; existed := false; poisoned := false |}.

(** What the operating system does during a call: whether the lock file opens and locks,
    whether the registry opens as a regular file and reads, when there is one, and
    whether the new file is written, synchronised and renamed. *)
Record RegistryIo : Type := { lock_ok : bool; read_ok : bool; write_ok : bool }.

Definition set_poisoned (s : RegistryState) : RegistryState :=
  {| nodes := nodes s; revoked := revoked s; unsaved_revocations := unsaved_revocations s;
     existed := existed s; poisoned := true |}.

Definition set_existed (s : RegistryState) : RegistryState :=
  {| nodes := nodes s; revoked := revoked s; unsaved_revocations := unsaved_revocations s;
     existed := true; poisoned := poisoned s |}.

Definition with_books (n : gmap bytes bytes) (r u : gset bytes) (s : RegistryState) : RegistryState :=
  {| nodes := n; revoked := r; unsaved_revocations := u; existed := existed s; poisoned := poisoned s |}.

Section Registry.
Context {PR : Primitives} {RT : RegistryText}.

(** One entry of the file: the key of a node, if both are as they should be. *)
Definition decode_node (node_id encoded : bytes) : option bytes :=
  match base64_decode encoded with
  | Some key =>
      if negb (len key =? 32) then None
      else if negb (verifying_key_ok key) then None
      else if bool_decide (trim node_id = []) || is_weak key then None
      else Some key
  | None => None
  end.

Definition decode_nodes (m : gmap bytes bytes) : option (gmap bytes bytes) :=
  if bool_decide (map_Forall (fun i e => is_Some (decode_node i e)) m)
  then Some (map_imap decode_node m) else None.

(** The format with revocations, or the older one, which is only a map. *)
Definition parse_store (text : bytes) : option PersistedStore :=
  match store_from_str text with
  | Some store => Some store
  | None =>
      match nodes_from_str text with
      | Some n => Some {| ps_nodes := n; ps_revoked := [] |}
      | None => None
      end
  end.

Definition read_store (text : bytes) : option PersistedStore :=
  if MAX_REGISTRY_BYTES <? len text then None
  else if negb (utf8_valid text) then None
  else parse_store text.

Definition refresh (io : RegistryIo) (file : option bytes) (s : RegistryState) : RegistryState * bool :=
  if poisoned s then (s, false)
  else
  match file with
  | None => if existed s || negb (read_ok io) then (set_poisoned s, false) else (s, true)
  | Some text =>
      if negb (read_ok io) then (set_poisoned s, false)
      else
      match read_store text with
      | None => (set_poisoned s, false)
      | Some store =>
          match decode_nodes (ps_nodes store) with
          | None => (set_poisoned s, false)
          | Some n =>
              (set_existed (with_books n (list_to_set (ps_revoked store) ∪ unsaved_revocations s)
                 (unsaved_revocations s) s), true)
          end
      end
  end.

(** The file after [persist], unless that fails. *)
Definition persist (io : RegistryIo) (s : RegistryState) : option bytes :=
  let store := {| ps_nodes := base64_encode <$> nodes s; ps_revoked := elements (revoked s) |} in
  match store_to_vec_pretty store with
  | None => None
  | Some content => if write_ok io then Some content else None
  end.

(** A process and the file that it shares with the others. *)
Record Place : Type := { state : RegistryState; file : option bytes }.

Definition check_health (io : RegistryIo) (p : Place) : Place * bool :=
  if negb (lock_ok io) then (p, false)
  else
  let '(s, ok) := refresh io (file p) (state p) in
  ({| state := s; file := file p |}, ok).

Definition is_authorized (io : RegistryIo) (node_id node_pub : bytes) (p : Place) : Place * bool :=
  if negb (lock_ok io) then (p, false)
  else
  let '(s, ok) := refresh io (file p) (state p) in
  ({| state := s; file := file p |},
   ok && bool_decide (nodes s !! node_id = Some node_pub) && negb (bool_decide (node_id ∈ revoked s))).

(** What a node sends to prove its identity, and the keys of the session it arrives on. *)
Record Enrollment : Type := {
  node_id : bytes;
  node_pub : bytes;
  time_window : Z;
  signature : bytes;
  server_eph_pub : bytes;
  client_eph_pub : bytes;
}.

Definition authenticate (io : RegistryIo) (allow_auto_add : bool) (now_ms : Z) (x : Enrollment) (p : Place)
    : Place * NodeAuthOutcome.t :=
  let cur := compute_time_window now_ms NODE_ENROLL_WINDOW_MS in
  if 2 <? Z.abs (time_window x - cur) then (p, NodeAuthOutcome.Rejected "stale enrollment")
  else if bool_decide (trim (node_id x) = [])
    || negb (verify_node_enrollment (node_pub x) (node_id x) (time_window x) (signature x)
               (server_eph_pub x) (client_eph_pub x))
  then (p, NodeAuthOutcome.Rejected "bad signature")
  else if negb (lock_ok io) then (p, NodeAuthOutcome.Rejected "registry unavailable")
  else
  let '(s, ok) := refresh io (file p) (state p) in
  let p := {| state := s; file := file p |} in
  if negb ok then (p, NodeAuthOutcome.Rejected "registry unavailable")
  else if bool_decide (node_id x ∈ revoked s)
  then (p, NodeAuthOutcome.Rejected "revoked node — re-approval required")
  else
  match nodes s !! node_id x with
  | Some stored =>
      (p, if bool_decide (stored = node_pub x) then NodeAuthOutcome.Verified
          else NodeAuthOutcome.Rejected "node_pub mismatch - impostor or key rotation")
  | None =>
      if negb allow_auto_add then (p, NodeAuthOutcome.Rejected "unknown node, auto-add disabled")
      else
      let bound := with_books (<[node_id x := node_pub x]> (nodes s)) (revoked s) (unsaved_revocations s) s in
      match persist io bound with
      | None => ({| state := with_books (delete (node_id x) (nodes bound)) (revoked s) (unsaved_revocations s) s;
                    file := file p |},
                 NodeAuthOutcome.Rejected "registry persistence failed")
      | Some text => ({| state := set_existed bound; file := Some text |}, NodeAuthOutcome.BoundNew)
      end
  end.

(** The result is [None] when the call fails. *)
Definition try_revoke (io : RegistryIo) (i : bytes) (p : Place) : Place * option bool :=
  let failed s := {| state := with_books (delete i (nodes s)) ({[i]} ∪ revoked s) ({[i]} ∪ unsaved_revocations s) s;
                     file := file p |} in
  if negb (lock_ok io) then (failed (state p), None)
  else
  let '(s, ok) := refresh io (file p) (state p) in
  if negb ok then (failed s, None)
  else
  let changed := bool_decide (is_Some (nodes s !! i)) || negb (bool_decide (i ∈ revoked s)) in
  let s := with_books (delete i (nodes s)) ({[i]} ∪ revoked s) (unsaved_revocations s) s in
  match persist io s with
  | None => (failed s, None)
  | Some text =>
      ({| state := set_existed (with_books (nodes s) (revoked s) (unsaved_revocations s ∖ {[i]}) s);
          file := Some text |}, Some changed)
  end.

Definition try_unrevoke (io : RegistryIo) (i : bytes) (p : Place) : Place * option bool :=
  if negb (lock_ok io) then (p, None)
  else
  let '(s, ok) := refresh io (file p) (state p) in
  let p := {| state := s; file := file p |} in
  if negb ok then (p, None)
  else if negb (bool_decide (i ∈ revoked s)) then (p, Some false)
  else
  let s := with_books (nodes s) (revoked s ∖ {[i]}) (unsaved_revocations s) s in
  match persist io s with
  | None => ({| state := with_books (nodes s) ({[i]} ∪ revoked s) (unsaved_revocations s) s; file := file p |}, None)
  | Some text =>
      ({| state := set_existed (with_books (nodes s) (revoked s) (unsaved_revocations s ∖ {[i]}) s);
          file := Some text |}, Some true)
  end.

Definition id_before (a b : bytes * bytes) : bool := bytes_lt a.1 b.1.

(** [list] *)
Definition list_nodes (io : RegistryIo) (p : Place) : Place * list (bytes * bytes) :=
  let '(p, ok) := check_health io p in
  (p, if ok then sort_by id_before (filter (fun n => n.1 ∉ revoked (state p)) (map_to_list (nodes (state p)))) else []).

Definition list_revoked (io : RegistryIo) (p : Place) : Place * list bytes :=
  let '(p, _) := check_health io p in
  (p, sort_by bytes_lt (elements (revoked (state p)))).

(** [NodeRegistry::load]: the state of a process that starts. *)
Definition load_registry (io : RegistryIo) (file : option bytes) : RegistryState :=
  state (check_health io {| state := default_state; file := file |}).1.
End Registry.

(** ** Processes that share a registry *)

Inductive Op : Type :=
  | Health
  | Authorized (i key : bytes)
  | Authenticate (now_ms : Z) (x : Enrollment)
  | Revoke (i : bytes)
  | Unrevoke (i : bytes)
  | ListNodes
  | ListRevoked.

(** A process starts, with or without leave to add nodes, or the process [n] makes a call. *)
Inductive Event : Type :=
  | Start (io : RegistryIo) (allow_auto_add : bool)
  | Call (io : RegistryIo) (n : nat) (op : Op).

Record World : Type := { processes : list (bool * RegistryState); shared : option bytes }.

Section Processes.
Context {PR : Primitives} {RT : RegistryText}.

Definition run_op (io : RegistryIo) (allow : bool) (op : Op) (p : Place) : Place :=
  match op with
  | Health => (check_health io p).1
  | Authorized i key => (is_authorized io i key p).1
  | Authenticate now_ms x => (authenticate io allow now_ms x p).1
  | Revoke i => (try_revoke io i p).1
  | Unrevoke i => (try_unrevoke io i p).1
  | ListNodes => (list_nodes io p).1
  | ListRevoked => (list_revoked io p).1
  end.

Definition put (n : nat) (allow : bool) (p : Place) (w : World) : World :=
  {| processes := <[n := (allow, state p)]> (processes w); shared := file p |}.

Definition step (w : World) (e : Event) : World :=
  match e with
  | Start io allow =>
      {| processes := processes w ++ [(allow, load_registry io (shared w))]; shared := shared w |}
  | Call io n op =>
      match processes w !! n with
      | Some (allow, s) => put n allow (run_op io allow op {| state := s; file := shared w |}) w
      | None => w
      end
  end.

Definition run (w : World) (events : list Event) : World := fold_left step events w.

(** Before any process has started. *)
Definition idle (file : option bytes) : World := {| processes := []; shared := file |}.

Inductive refreshed (io : RegistryIo) (file : option bytes) (s : RegistryState) : RegistryState -> bool -> Prop :=
  | refresh_no s' : nodes s' = nodes s -> revoked s' = revoked s ->
      unsaved_revocations s' = unsaved_revocations s -> existed s' = existed s ->
      refreshed io file s s' false
  | refresh_absent : file = None -> existed s = false -> poisoned s = false -> refreshed io file s s true
  | refresh_read text store n : file = Some text -> read_store text = Some store ->
      decode_nodes (ps_nodes store) = Some n -> poisoned s = false ->
      refreshed io file s (set_existed (with_books n (list_to_set (ps_revoked store) ∪ unsaved_revocations s)
                                          (unsaved_revocations s) s)) true.

Lemma refresh_spec io f s : refreshed io f s (refresh io f s).1 (refresh io f s).2.
Proof.
  unfold refresh. destruct (poisoned s) eqn:Hp; [by constructor|]. destruct f as [text|].
  - destruct (read_ok io); cbn [negb]; [|by constructor].
    destruct (read_store text) as [store|] eqn:E; [|by constructor].
    destruct (decode_nodes _) as [n|] eqn:D; [|by constructor]. by eapply refresh_read.
  - destruct (existed s) eqn:He; [by constructor|]. destruct (read_ok io); [by constructor|by constructor].
Qed.

(** To read the same file once more changes nothing. *)
Lemma refresh_again io f s s' : refresh io f s = (s', true) -> refresh io f s' = (s', true).
Proof.
  unfold refresh. destruct (poisoned s) eqn:Hp; [done|]. destruct f as [text|].
  - destruct (read_ok io); cbn [negb]; [|done]. destruct (read_store text) as [store|]; [|done].
    destruct (decode_nodes _) as [n|]; [|done]. intros [= <-]. cbn. by rewrite Hp.
  - destruct (existed s) eqn:He; [done|]. destruct (read_ok io) eqn:Hr; [|done]. intros [= <-]. by rewrite Hp, He.
Qed.

Lemma check_health_again io p p' : check_health io p = (p', true) -> check_health io p' = (p', true).
Proof.
  unfold check_health. destruct (lock_ok io); [|done]. cbn [negb].
  destruct (refresh io (file p) (state p)) as [s ok] eqn:E. intros [= <- ->]. cbn [state file]. by rewrite (refresh_again _ _ _ _ E).
Qed.

Lemma is_authorized_again io i k p p' : is_authorized io i k p = (p', true) -> is_authorized io i k p' = (p', true).
Proof.
  unfold is_authorized. destruct (lock_ok io); [|done]. cbn [negb].
  destruct (refresh io (file p) (state p)) as [s []] eqn:E; [|by intros [= <-]].
  intros [= <- H]. cbn [state file]. rewrite (refresh_again _ _ _ _ E). cbn [andb]. by rewrite H.
Qed.

(** What a call writes, given what it read before. *)
Definition written (op : Op) (s : RegistryState) (n : gmap bytes bytes) (r : gset bytes) : Prop :=
  match op with
  | Authenticate now_ms x =>
      n = <[node_id x := node_pub x]> (nodes s) /\ r = revoked s /\ nodes s !! node_id x = None /\
      trim (node_id x) <> [] /\
      verify_node_enrollment (node_pub x) (node_id x) (time_window x) (signature x)
        (server_eph_pub x) (client_eph_pub x) = true
  | Revoke i => n = delete i (nodes s) /\ r = {[i]} ∪ revoked s
  | Unrevoke i => n = nodes s /\ r = revoked s ∖ {[i]}
  | _ => False
  end.

Definition saved (text : bytes) (n : gmap bytes bytes) (r : gset bytes) : Prop :=
  store_to_vec_pretty {| ps_nodes := base64_encode <$> n; ps_revoked := elements r |} = Some text.

Lemma persist_saved io s text : persist io s = Some text -> saved text (nodes s) (revoked s).
Proof. unfold persist, saved. destruct (store_to_vec_pretty _); [|done]. by destruct (write_ok io). Qed.

Lemma run_op_file io allow op p :
  file (run_op io allow op p) = file p \/
  exists s text n r, refresh io (file p) (state p) = (s, true) /\ written op s n r /\
    saved text n r /\ file (run_op io allow op p) = Some text.
Proof.
  destruct op as [|i key|now x|i|i| |]; cbn [run_op];
    unfold check_health, is_authorized, authenticate, try_revoke, try_unrevoke, list_nodes, list_revoked, check_health.
  1, 2, 6, 7: destruct (lock_ok io); cbn [negb]; [|by left]; destruct (refresh io (file p) (state p)); by left.
  - destruct (2 <? _); [by left|]. case_bool_decide as Ht; [by left|].
    destruct (verify_node_enrollment _ _ _ _ _ _) eqn:Hv; cbn [orb negb]; [|by left].
    destruct (lock_ok io); cbn [negb]; [|by left]. destruct (refresh io (file p) (state p)) as [s []] eqn:E; cbn [negb]; [|by left].
    case_bool_decide; [by left|]. destruct (nodes s !! node_id x) eqn:En; [by left|]. destruct allow; cbn [negb]; [|by left].
    destruct (persist _ _) as [text|] eqn:Ep; [|by left]. right. exists s, text. apply persist_saved in Ep.
    refine (ex_intro _ _ (ex_intro _ _ (conj eq_refl (conj _ (conj Ep eq_refl))))). by split_and?.
  - destruct (lock_ok io); cbn [negb]; [|by left]. destruct (refresh io (file p) (state p)) as [s []] eqn:E; cbn [negb]; [|by left].
    destruct (persist _ _) as [text|] eqn:Ep; [|by left]. right. exists s, text. apply persist_saved in Ep.
    refine (ex_intro _ _ (ex_intro _ _ (conj eq_refl (conj _ (conj Ep eq_refl))))). by split_and?.
  - destruct (lock_ok io); cbn [negb]; [|by left]. destruct (refresh io (file p) (state p)) as [s []] eqn:E; cbn [negb]; [|by left].
    case_bool_decide; cbn [negb]; [|by left].
    destruct (persist _ _) as [text|] eqn:Ep; [|by left]. right. exists s, text. apply persist_saved in Ep.
    refine (ex_intro _ _ (ex_intro _ _ (conj eq_refl (conj _ (conj Ep eq_refl))))). by split_and?.
Qed.

Context {RL : RegistryTextLaws}.

(** ** Revocation *)

Definition file_revokes (i : bytes) (f : option bytes) : Prop :=
  exists text store, f = Some text /\ parse_store text = Some store /\ i ∈ ps_revoked store.

(** The process itself holds [i] to be revoked, whatever the file says. *)
Definition held_revoked (i : bytes) (s : RegistryState) : Prop :=
  i ∈ unsaved_revocations s /\ i ∈ revoked s.

Definition shut_out (i : bytes) (p : Place) : Prop := file_revokes i (file p) \/ held_revoked i (state p).

Definition keeps_revoked (i : bytes) (op : Op) : Prop :=
  match op with Unrevoke j => j <> i | _ => True end.

Lemma read_store_parsed text store store' :
  parse_store text = Some store -> read_store text = Some store' -> store' = store.
Proof. intros E. unfold read_store. rewrite E. repeat case_match; congruence. Qed.

Lemma saved_parse text n r :
  saved text n r -> parse_store text = Some {| ps_nodes := base64_encode <$> n; ps_revoked := elements r |}.
Proof. unfold parse_store. by intros [-> _]%store_from_to. Qed.

Lemma saved_revokes text n r i : saved text n r -> i ∈ r -> file_revokes i (Some text).
Proof.
  intros Hs%saved_parse Hi. exists text. eexists. split; [done|]. split; [exact Hs|]. cbn. by apply elem_of_elements.
Qed.

Lemma refresh_held io f s i : held_revoked i s -> held_revoked i (refresh io f s).1.
Proof.
  intros [H1 H2]. destruct (refresh_spec io f s) as [s' _ E2 E3 _|_ _ _|text store n _ _ _ _].
  - split; congruence.
  - done.
  - split; cbn; [done|set_solver].
Qed.

Lemma refresh_shut io i p s :
  shut_out i p -> refresh io (file p) (state p) = (s, true) -> i ∈ revoked s.
Proof.
  intros [(text & store & Ef & Es & Hi)|Hh] E.
  - pose proof (refresh_spec io (file p) (state p)) as H. rewrite E in H. cbn [fst snd] in H.
    inversion H as [|E'|text' store' n E' Er]; [congruence|]. rewrite Ef in E'. injection E' as <-.
    apply (read_store_parsed _ _ _ Es) in Er as ->. cbn. apply elem_of_union_l, elem_of_list_to_set, Hi.
  - pose proof (refresh_held io (file p) (state p) i Hh) as [_ H]. by rewrite E in H.
Qed.

Lemma refused io allow now_ms i key x p :
  shut_out i p -> node_id x = i ->
  (is_authorized io i key p).2 = false /\ NodeAuthOutcome.accepted (authenticate io allow now_ms x p).2 = false.
Proof.
  intros H Ex. unfold is_authorized, authenticate.
  destruct (refresh io (file p) (state p)) as [s []] eqn:E.
  - pose proof (refresh_shut io i p s H E) as Hi. rewrite Ex, (bool_decide_eq_true_2 (i ∈ revoked s)) by done.
    split; [|by repeat case_match]. destruct (lock_ok io); [|done]. cbn. by rewrite andb_false_r.
  - split; by repeat case_match.
Qed.

Lemma held_books i n r u s : i ∈ u -> i ∈ r -> held_revoked i (with_books n r u s).
Proof. done. Qed.

Lemma run_op_held io allow op i p :
  keeps_revoked i op -> held_revoked i (state p) -> shut_out i (run_op io allow op p).
Proof.
  intros Hk H. pose proof (refresh_held io (file p) (state p) i H) as H'.
  destruct op as [|? ?|? x|j|j| |]; cbn [run_op keeps_revoked] in *;
    unfold check_health, is_authorized, authenticate, try_revoke, try_unrevoke, list_nodes, list_revoked, check_health;
    destruct (refresh io (file p) (state p)) as [s ok]; cbn [fst] in H'; pose proof H' as [Hu Hr]; pose proof H as [Hu0 Hr0].
  1, 2, 6, 7: right; by destruct (lock_ok io), ok.
  - right. repeat case_match; done.
  - destruct (lock_ok io); cbn [negb]; [|right; split; cbn; set_solver].
    destruct ok; cbn [negb]; [|right; split; cbn; set_solver].
    destruct (persist _ _) as [text|] eqn:Ep; [|right; split; cbn; set_solver].
    left. apply persist_saved in Ep. eapply saved_revokes; [exact Ep|]. cbn. set_solver.
  - right. destruct (lock_ok io); cbn [negb]; [|done]. destruct ok; cbn [negb]; [|done].
    destruct (negb _); [done|]. destruct (persist _ _); split; cbn; set_solver.
Qed.

Lemma run_op_revokes io allow op i p :
  keeps_revoked i op -> file_revokes i (file p) -> file_revokes i (file (run_op io allow op p)).
Proof.
  intros Hk H. destruct (run_op_file io allow op p) as [Ef|(s & text & n & r & E & Hw & Hs & Ef)]; rewrite Ef; [done|].
  apply (refresh_shut io i p s (or_introl H)) in E. apply (saved_revokes text n r i Hs).
  destruct op; cbn in Hw, Hk; try done; destruct_and?; set_solver.
Qed.

Lemma run_op_shut io allow op i p : keeps_revoked i op -> shut_out i p -> shut_out i (run_op io allow op p).
Proof. intros Hk [H|H]; [left; by apply run_op_revokes|by apply run_op_held]. Qed.

Definition event_keeps (i : bytes) (e : Event) : Prop :=
  match e with Call _ _ op => keeps_revoked i op | Start _ _ => True end.

(** The process [n] of [w] is one that shuts [i] out. *)
Definition process_shuts (i : bytes) (n : nat) (w : World) : Prop :=
  forall allow s, processes w !! n = Some (allow, s) -> shut_out i {| state := s; file := shared w |}.

Lemma step_shuts i n w e :
  event_keeps i e -> (n < length (processes w))%nat ->
  process_shuts i n w -> process_shuts i n (step w e) /\ (n < length (processes (step w e)))%nat.
Proof.
  intros He Hn H. destruct e as [io allow|io m op]; cbn [step].
  - split; [|cbn; rewrite length_app; cbn; lia]. intros a s. cbn. rewrite lookup_app_l by done. apply H.
  - destruct (processes w !! m) as [[a s]|] eqn:Em; [|done]. split; [|cbn; by rewrite length_insert].
    intros a' s'. cbn [put processes shared]. destruct (decide (n = m)) as [->|Hne].
    + rewrite list_lookup_insert_eq by done. intros [= <- <-].
      pose proof (run_op_shut io a op i _ He (H _ _ Em)) as H'. by destruct (run_op _ _ _ _).
    + rewrite list_lookup_insert_ne by done. intros Hs. destruct (H _ _ Hs) as [Hf|Hh]; [left|by right].
      by apply (run_op_revokes io a op i {| state := s; file := shared w |}).
Qed.

Lemma run_shuts i n w events :
  Forall (event_keeps i) events -> (n < length (processes w))%nat ->
  process_shuts i n w -> process_shuts i n (run w events).
Proof.
  intros He. revert w. induction He as [|e events He _ IH]; intros w Hn H; [done|].
  destruct (step_shuts i n w e He Hn H) as [H' Hn']. by apply IH.
Qed.

Lemma run_file_revokes i w events :
  Forall (event_keeps i) events -> file_revokes i (shared w) -> file_revokes i (shared (run w events)).
Proof.
  intros He. revert w. induction He as [|e events He _ IH]; intros w H; [done|]. apply IH.
  destruct e as [io allow|io m op]; cbn [step]; [done|]. destruct (processes w !! m) as [[a s]|]; [|done].
  by apply (run_op_revokes io a op i {| state := s; file := shared w |}).
Qed.

Lemma revoke_effect io i p p' r :
  try_revoke io i p = (p', r) ->
  shut_out i p' /\ (r <> None -> file_revokes i (file p')).
Proof.
  unfold try_revoke. destruct (lock_ok io); cbn [negb]; [|intros [= <- <-]; split; [right; split; cbn; set_solver|done]].
  destruct (refresh io (file p) (state p)) as [s []]; cbn [negb]; [|intros [= <- <-]; split; [right; split; cbn; set_solver|done]].
  destruct (persist _ _) as [text|] eqn:Ep; [|intros [= <- <-]; split; [right; split; cbn; set_solver|done]].
  intros [= <- <-]. assert (file_revokes i (Some text)) as H; [|by split; [left|]].
  apply persist_saved in Ep. eapply saved_revokes; [exact Ep|]. cbn. set_solver.
Qed.

(** C11: A revoked node stays out. Once a process has revoked a node, and until some process
    takes the revocation back, the node is neither authorised nor authenticated, by any
    process, those started later included, through whatever calls they make and whatever
    files fail to open, read or write. When the revocation could not be saved, that
    holds for the process that made it. *)
Theorem revocation_enforced w n allow s io i p' r events :
  processes w !! n = Some (allow, s) ->
  try_revoke io i {| state := s; file := shared w |} = (p', r) ->
  Forall (event_keeps i) events ->
  let w' := run (put n allow p' w) events in
  forall m allow' s', processes w' !! m = Some (allow', s') -> r <> None \/ m = n ->
  forall io' key now_ms x, node_id x = i ->
  let p := {| state := s'; file := shared w' |} in
  (is_authorized io' i key p).2 = false /\
  NodeAuthOutcome.accepted (authenticate io' allow' now_ms x p).2 = false.
Proof.
  intros Hn E He w' m allow' s' Hm Hr io' key now_ms x Hx p. apply refused; [|done].
  apply revoke_effect in E as [Hs Hf]. destruct Hr as [Hr| ->].
  - left. apply run_file_revokes; [done|]. by apply Hf.
  - refine (run_shuts i n (put n allow p' w) events He _ _ allow' s' Hm).
    + cbn. rewrite length_insert. by eapply lookup_lt_Some.
    + intros a t. cbn. rewrite list_lookup_insert_eq by (by eapply lookup_lt_Some). intros [= <- <-].
      by destruct p'.
Qed.

(** ** Bindings *)

Definition file_binds (i key : bytes) (f : option bytes) : Prop :=
  exists text store e, f = Some text /\ parse_store text = Some store /\
    ps_nodes store !! i = Some e /\ base64_decode e = Some key.

Lemma decode_node_key i e key key' :
  base64_decode e = Some key -> decode_node i e = Some key' -> key' = key.
Proof. unfold decode_node. intros ->. repeat case_match; congruence. Qed.

Lemma decode_nodes_lookup m n i :
  decode_nodes m = Some n -> n !! i = m !! i ≫= decode_node i /\ (is_Some (m !! i) -> is_Some (n !! i)).
Proof.
  unfold decode_nodes. case_bool_decide as H; [|done]. intros [= <-]. rewrite map_lookup_imap. split; [done|].
  intros [e He]. rewrite He. exact (H i e He).
Qed.

Lemma refresh_binds io i key f s s' :
  file_binds i key f -> refresh io f s = (s', true) -> nodes s' !! i = Some key.
Proof.
  intros (text & store & e & -> & Es & Ee & Ed) E.
  pose proof (refresh_spec io (Some text) s) as H. rewrite E in H. cbn [fst snd] in H.
  inversion H as [|E'|text' store' n E' Er Hn]; [done|]. injection E' as <-.
  apply (read_store_parsed _ _ _ Es) in Er as ->. cbn [nodes set_existed with_books].
  destruct (decode_nodes_lookup _ _ i Hn) as [El Hsome]. destruct Hsome as [k Hk]; [by rewrite Ee|].
  rewrite Hk. f_equal. rewrite Ee in El. cbn in El. rewrite Hk in El. symmetry in El. by eapply decode_node_key.
Qed.

Lemma saved_binds text n r i key : saved text n r -> n !! i = Some key -> file_binds i key (Some text).
Proof.
  intros Hs%saved_parse Hi. exists text. do 2 eexists. split; [done|]. split; [exact Hs|]. cbn.
  rewrite lookup_fmap, Hi. split; [done|]. apply base64_decode_encode.
Qed.

Definition keeps_binding (i : bytes) (e : Event) : Prop :=
  match e with Call _ _ (Revoke j) => j <> i | _ => True end.

Lemma step_binds i key w e :
  keeps_binding i e -> file_binds i key (shared w) -> file_binds i key (shared (step w e)).
Proof.
  intros He H. destruct e as [io allow|io m op]; cbn [step]; [done|].
  destruct (processes w !! m) as [[a s]|]; [|done]. cbn [put shared].
  destruct (run_op_file io a op {| state := s; file := shared w |}) as [->|(s1 & text & n & r & E & Hw & Hs & ->)]; [done|].
  apply (refresh_binds io i key _ _ _ H) in E. apply (saved_binds text n r i key Hs).
  destruct op as [|? ?|? x|j|j| |]; cbn in Hw, He; try done.
  - destruct Hw as (-> & _ & Hx & _). by rewrite lookup_insert_ne by congruence.
  - destruct Hw as [-> _]. by rewrite lookup_delete_ne.
  - by destruct Hw as [-> _].
Qed.

Lemma run_binds i key w events :
  Forall (keeps_binding i) events -> file_binds i key (shared w) -> file_binds i key (shared (run w events)).
Proof.
  intros He. revert w. induction He as [|e events He _ IH]; intros w H; [done|]. apply IH. by apply step_binds.
Qed.

(** A process that has not seen a file knows no node. *)
Definition blank (s : RegistryState) : Prop := existed s = false -> nodes s = ∅.

Lemma refresh_blank io f s : blank s -> blank (refresh io f s).1.
Proof.
  intros H. unfold blank in *.
  destruct (refresh_spec io f s) as [s' E1 _ _ E2|_ _ _|]; [|done|done]. rewrite E1, E2. done.
Qed.

Lemma run_op_blank io allow op p : blank (state p) -> blank (state (run_op io allow op p)).
Proof.
  intros H. pose proof (refresh_blank io (file p) (state p) H) as H'.
  destruct op as [|? ?|? x|j|j| |]; cbn [run_op];
    unfold check_health, is_authorized, authenticate, try_revoke, try_unrevoke, list_nodes, list_revoked, check_health;
    destruct (refresh io (file p) (state p)) as [s ok]; cbn [fst] in H'.
  1, 2, 6, 7: by destruct (lock_ok io), ok.
  - destruct (2 <? _); [done|]. destruct (_ || _); [done|]. destruct (lock_ok io), ok; cbn [negb]; try done.
    case_bool_decide; [done|]. destruct (nodes s !! node_id x) eqn:En; [done|]. destruct allow; cbn [negb]; [|done].
    destruct (persist _ _); [done|]. unfold blank in *. cbn. intros He. by rewrite delete_insert_id, H'.
  - unfold blank in *. destruct (lock_ok io), ok; cbn [negb]; try destruct (persist _ _); cbn; try done;
      intros He; first [rewrite (H He)|rewrite (H' He)]; by rewrite ?delete_empty.
  - destruct (lock_ok io), ok; cbn [negb]; try done. destruct (negb _); [done|]. by destruct (persist _ _).
Qed.

Lemma step_processes (P : RegistryState -> Prop) w e :
  (forall io f, P (load_registry io f)) ->
  (forall io allow op s, P s -> P (state (run_op io allow op {| state := s; file := shared w |}))) ->
  Forall (fun x => P x.2) (processes w) -> Forall (fun x => P x.2) (processes (step w e)).
Proof.
  intros Hl Ho Hw. destruct e as [io allow|io m op]; cbn [step processes].
  - apply Forall_app_2; [done|]. apply Forall_singleton, Hl.
  - destruct (processes w !! m) as [[a s]|] eqn:E; [|done]. cbn [put processes].
    apply Forall_insert; [done|]. apply Ho. exact (Forall_lookup_1 _ _ _ _ Hw E).
Qed.

Lemma load_blank io f : blank (load_registry io f).
Proof. by apply (run_op_blank io false Health {| state := default_state; file := f |}). Qed.

Lemma run_blank f events : Forall (fun x => blank x.2) (processes (run (idle f) events)).
Proof.
  assert (forall w, Forall (fun x => blank x.2) (processes w) ->
    Forall (fun x => blank x.2) (processes (run w events))) as H; [|apply H, Forall_nil_2].
  induction events as [|e events IH]; intros w Hw; [done|]. apply IH.
  apply step_processes; [apply load_blank| |done]. intros. by apply run_op_blank.
Qed.

Lemma refresh_known io f s s' i key :
  blank s -> refresh io f s = (s', true) -> nodes s' !! i = Some key -> file_binds i key f.
Proof.
  intros Hb E Hi. pose proof (refresh_spec io f s) as H. rewrite E in H. cbn [fst snd] in H.
  inversion H as [|Hf He|text store n -> Er Hn Hp Es]; subst.
  - by rewrite (Hb He), lookup_empty in Hi.
  - cbn [nodes set_existed with_books] in Hi. destruct (decode_nodes_lookup _ _ i Hn) as [El _].
    rewrite Hi in El. symmetry in El. apply bind_Some in El as (e & Ee & Ed).
    exists text, store, e. split; [done|]. split; [|split; [done|]].
    + revert Er. unfold read_store. by repeat case_match.
    + revert Ed. unfold decode_node. by repeat case_match.
Qed.

Lemma accepted_binds io allow now_ms x p p' o :
  blank (state p) -> authenticate io allow now_ms x p = (p', o) -> NodeAuthOutcome.accepted o = true ->
  file_binds (node_id x) (node_pub x) (file p').
Proof.
  intros Hb. unfold authenticate. destruct (2 <? _); [by intros [= <- <-]|]. destruct (_ || _); [by intros [= <- <-]|].
  destruct (lock_ok io); cbn [negb]; [|by intros [= <- <-]].
  destruct (refresh io (file p) (state p)) as [s []] eqn:E; cbn [negb]; [|by intros [= <- <-]].
  case_bool_decide; [by intros [= <- <-]|]. destruct (nodes s !! node_id x) as [k|] eqn:En.
  - case_bool_decide as Hk; intros [= <- <-]; [|done]. intros _. subst k. by eapply refresh_known.
  - destruct allow; cbn [negb]; [|by intros [= <- <-]]. destruct (persist _ _) as [text|] eqn:Ep; intros [= <- <-]; [|done].
    intros _. apply persist_saved in Ep. eapply saved_binds; [exact Ep|]. cbn. by rewrite lookup_insert_eq.
Qed.

Lemma accepted_key io allow now_ms x p key :
  blank (state p) -> file_binds (node_id x) key (file p) ->
  ((is_authorized io (node_id x) (node_pub x) p).2 = true -> node_pub x = key) /\
  (NodeAuthOutcome.accepted (authenticate io allow now_ms x p).2 = true -> node_pub x = key).
Proof.
  intros Hb H. unfold is_authorized, authenticate.
  destruct (refresh io (file p) (state p)) as [s []] eqn:E.
  - pose proof (refresh_binds io _ _ _ _ _ H E) as Hn. rewrite Hn. split.
    + destruct (lock_ok io); [|done]. cbn. case_bool_decide as Hk; [|done]. by injection Hk.
    + repeat case_match; try done. case_bool_decide as Hk; [done|done].
  - split; by repeat case_match.
Qed.

(** A node keeps its key. When a process has authenticated a node by a key, known before
    or bound on this occasion, then until some process revokes the node no process
    accepts another key under its name, whatever calls are made, by processes that start
    later too. *)
Theorem binding_pinned f before n allow s io now_ms x p' o events :
  let w := run (idle f) before in
  processes w !! n = Some (allow, s) ->
  authenticate io allow now_ms x {| state := s; file := shared w |} = (p', o) ->
  NodeAuthOutcome.accepted o = true ->
  Forall (keeps_binding (node_id x)) events ->
  let w' := run (put n allow p' w) events in
  forall m allow' s' io' now' y, processes w' !! m = Some (allow', s') -> node_id y = node_id x ->
  let p := {| state := s'; file := shared w' |} in
  (is_authorized io' (node_id y) (node_pub y) p).2 = true \/
  NodeAuthOutcome.accepted (authenticate io' allow' now' y p).2 = true ->
  node_pub y = node_pub x.
Proof.
  intros w Hn E Ho He w' m allow' s' io' now' y Hm Hy p Hacc.
  pose proof (Forall_lookup_1 _ _ _ _ (run_blank f before) Hn) as Hb. cbn in Hb.
  pose proof (accepted_binds io allow now_ms x {| state := s; file := shared w |} p' o Hb E Ho) as Hbind.
  apply (run_binds _ _ (put n allow p' w) events He) in Hbind. fold w' in Hbind.
  assert (Forall (fun x => blank x.2) (processes w')) as Hall.
  { assert (run (idle f) (before ++ Call io n (Authenticate now_ms x) :: events) = w') as <-; [|apply run_blank].
    unfold run at 1. rewrite fold_left_app. cbn [fold_left]. fold (run (idle f) before). fold w. unfold w', run.
    f_equal. cbn [step]. rewrite Hn. cbn [run_op]. by rewrite E. }
  pose proof (Forall_lookup_1 _ _ _ _ Hall Hm) as Hb'. cbn in Hb'.
  rewrite <-Hy in Hbind. destruct (accepted_key io' allow' now' y p _ Hb' Hbind) as [H1 H2]. by destruct Hacc; auto.
Qed.

(** ** A registry that reads back *)

(** A node as [refresh] wants it. *)
Definition node_ok (i key : bytes) : Prop :=
  trim i <> [] /\ len key = 32 /\ verifying_key_ok key = true /\ is_weak key = false.

Definition file_ok (f : option bytes) : Prop :=
  forall text, f = Some text -> len text <= MAX_REGISTRY_BYTES ->
    exists store n, read_store text = Some store /\ decode_nodes (ps_nodes store) = Some n.

Definition process_ok (f : option bytes) (s : RegistryState) : Prop :=
  poisoned s = false /\ (existed s = true -> f <> None) /\ map_Forall node_ok (nodes s).

Definition world_ok (w : World) : Prop :=
  file_ok (shared w) /\ Forall (fun x => process_ok (shared w) x.2) (processes w).

Definition io_ok (io : RegistryIo) : Prop := lock_ok io = true /\ read_ok io = true.

Definition event_ok (e : Event) : Prop :=
  match e with
  | Start io _ => io_ok io
  | Call io _ op => io_ok io /\ match op with Authenticate _ x => len (node_pub x) = 32 | _ => True end
  end.

Definition small (w : World) : Prop := forall text, shared w = Some text -> len text <= MAX_REGISTRY_BYTES.

Lemma decode_node_ok i e key : decode_node i e = Some key -> node_ok i key.
Proof.
  unfold decode_node, node_ok. destruct (base64_decode e) as [k|]; [|done].
  destruct (len k =? 32) eqn:El; [|done]. destruct (verifying_key_ok k) eqn:Ev; [|done]. cbn.
  case_bool_decide; [done|]. destruct (is_weak k) eqn:Ew; [done|]. intros [= <-]. apply Z.eqb_eq in El. done.
Qed.

Lemma decode_encoded i key : node_ok i key -> decode_node i (base64_encode key) = Some key.
Proof.
  intros (Ht & Hl & Hv & Hw). unfold decode_node. rewrite base64_decode_encode, Hl, Hv, Hw.
  by rewrite bool_decide_eq_false_2.
Qed.

Lemma decoded_ok m n : decode_nodes m = Some n -> map_Forall node_ok n.
Proof.
  intros H i key Hi. destruct (decode_nodes_lookup m n i H) as [E _]. rewrite Hi in E. symmetry in E.
  apply bind_Some in E as (e & _ & Ed). by eapply decode_node_ok.
Qed.

Lemma decode_nodes_encoded n : map_Forall node_ok n -> decode_nodes (base64_encode <$> n) = Some n.
Proof.
  intros H. unfold decode_nodes. rewrite bool_decide_eq_true_2.
  - f_equal. apply map_eq. intros i. rewrite map_lookup_imap, lookup_fmap.
    destruct (n !! i) as [key|] eqn:E; [|done]. cbn. by apply decode_encoded, (H i key).
  - intros i e He. rewrite lookup_fmap in He. apply fmap_Some in He as (key & Hk & ->).
    rewrite decode_encoded by (by apply (H i key)). done.
Qed.

Lemma saved_ok text n r : saved text n r -> map_Forall node_ok n -> file_ok (Some text).
Proof.
  intros Hs Hn text' [= <-] Hl. unfold read_store. rewrite (proj2 (Z.ltb_ge _ _)) by done.
  rewrite (proj2 (store_from_to _ _ Hs)). cbn [negb]. rewrite (saved_parse _ _ _ Hs). do 2 eexists. split; [done|].
  by apply decode_nodes_encoded.
Qed.

Lemma refresh_healthy io f s :
  read_ok io = true -> file_ok f -> (forall text, f = Some text -> len text <= MAX_REGISTRY_BYTES) ->
  process_ok f s -> (refresh io f s).2 = true /\ process_ok f (refresh io f s).1.
Proof.
  intros Hio Hf Hsm (Hp & He & Hn). unfold refresh. rewrite Hp, Hio. cbn [negb]. destruct f as [text|].
  - destruct (Hf text eq_refl (Hsm text eq_refl)) as (store & n & -> & Ed). rewrite Ed. split; [done|].
    split; [done|]. split; [done|]. cbn. by eapply decoded_ok.
  - destruct (existed s) eqn:Ee; [by destruct He|]. cbn. split; [done|]. split; [done|]. split; [intros E; congruence|done].
Qed.

Lemma proof_node_ok x :
  trim (node_id x) <> [] -> len (node_pub x) = 32 ->
  verify_node_enrollment (node_pub x) (node_id x) (time_window x) (signature x)
    (server_eph_pub x) (client_eph_pub x) = true -> node_ok (node_id x) (node_pub x).
Proof.
  intros Ht Hl Hv. unfold verify_node_enrollment in Hv. destruct (verifying_key_ok (node_pub x)) eqn:Ev; [|done].
  cbn [negb] in Hv. apply verify_strict_strong in Hv. by split_and!.
Qed.

Lemma process_ok_books f n r u s : map_Forall node_ok n -> process_ok f s -> process_ok f (with_books n r u s).
Proof. intros Hn (Hp & He & _). by split. Qed.

Lemma process_ok_saved f text s : process_ok f s -> process_ok (Some text) (set_existed s).
Proof. intros (Hp & He & Hn). by split. Qed.

Lemma delete_ok (i : bytes) (n : gmap bytes bytes) : map_Forall node_ok n -> map_Forall node_ok (delete i n).
Proof. intros H j key [_ Hj]%lookup_delete_Some. by apply H. Qed.

Lemma run_op_healthy io allow op p :
  event_ok (Call io 0 op) -> file_ok (file p) ->
  (forall text, file p = Some text -> len text <= MAX_REGISTRY_BYTES) -> process_ok (file p) (state p) ->
  let p' := run_op io allow op p in
  file_ok (file p') /\ process_ok (file p') (state p') /\ (file p <> None -> file p' <> None).
Proof.
  intros [[Hl Hr] Hop] Hf Hsm Hs. destruct (refresh_healthy io (file p) (state p) Hr Hf Hsm Hs) as [Hok Hs'].
  destruct op as [|? ?|now x|j|j| |]; cbn [run_op];
    unfold check_health, is_authorized, authenticate, try_revoke, try_unrevoke, list_nodes, list_revoked, check_health;
    rewrite Hl; destruct (refresh io (file p) (state p)) as [s ok]; cbn [fst snd negb] in *; subst ok; cbn [negb].
  1, 2, 6, 7: done.
  - destruct (2 <? _); [done|]. case_bool_decide as Ht; [done|]. destruct (verify_node_enrollment _ _ _ _ _ _) eqn:Ev; [|done].
    cbn [orb negb]. case_bool_decide; [done|]. destruct (nodes s !! node_id x) eqn:En; [done|]. destruct allow; [|done]. cbn [negb].
    pose proof (proof_node_ok x Ht Hop Ev) as Hx.
    assert (map_Forall node_ok (<[node_id x:=node_pub x]> (nodes s))) as Hn.
    { apply map_Forall_insert_2; [done|]. apply Hs'. }
    destruct (persist _ _) as [text|] eqn:Ep.
    + apply persist_saved in Ep. split; [by eapply saved_ok|]. split; [|done].
      by eapply process_ok_saved, process_ok_books.
    + split; [done|]. split; [|done]. apply process_ok_books; [by apply delete_ok|done].
  - assert (map_Forall node_ok (delete j (nodes s))) as Hn by (apply delete_ok, Hs').
    destruct (persist _ _) as [text|] eqn:Ep.
    + apply persist_saved in Ep. split; [by eapply saved_ok|]. split; [|done].
      by eapply process_ok_saved, process_ok_books, process_ok_books.
    + split; [done|]. split; [|done]. apply process_ok_books; [by apply delete_ok|by apply process_ok_books].
  - pose proof Hs' as (_ & _ & Hn). destruct (negb _); [done|]. destruct (persist _ _) as [text|] eqn:Ep.
    + apply persist_saved in Ep. split; [by eapply saved_ok|]. split; [|done].
      by eapply process_ok_saved, process_ok_books, process_ok_books.
    + split; [done|]. split; [|done]. by apply process_ok_books, process_ok_books.
Qed.

Lemma step_healthy w e : event_ok e -> small w -> world_ok w -> world_ok (step w e).
Proof.
  intros He Hsm [Hf Hp]. destruct e as [io allow|io m op]; cbn [step].
  - split; [done|]. cbn [processes shared]. apply Forall_app_2; [done|]. apply Forall_singleton. cbn [snd].
    destruct He as [Hl Hr]. unfold load_registry, check_health. rewrite Hl. cbn [negb file state].
    assert (process_ok (shared w) default_state) as Hd by (split; [done|]; split; [done|]; apply map_Forall_empty).
    destruct (refresh_healthy io (shared w) default_state Hr Hf Hsm Hd) as [_ H]. by destruct (refresh _ _ _).
  - destruct (processes w !! m) as [[a s]|] eqn:Em; [|done].
    pose proof (Forall_lookup_1 _ _ _ _ Hp Em) as Hs. cbn [snd] in Hs.
    destruct (run_op_healthy io a op {| state := s; file := shared w |} He Hf Hsm Hs) as (Hf' & Hs' & Hne).
    split; [done|]. cbn [put processes shared]. apply Forall_insert; [|done].
    eapply Forall_impl; [exact Hp|]. intros x (H1 & H2 & H3). split; [done|]. split; [|done]. intros E. by apply Hne, H2.
Qed.

(** The files of a run, from the first to the last. *)
Fixpoint small_run (w : World) (events : list Event) : Prop :=
  small w /\ match events with [] => True | e :: events => small_run (step w e) events end.

End Processes.

(** ** Witnesses *)

#[export] Instance store_eq_dec : EqDecision PersistedStore.
Proof. solve_decision. Defined.

Section Sample.
#[local] Existing Instance toy_primitives.

Definition berlin : bytes := [98; 101; 114].
Definition paris : bytes := [112; 97; 114].

(** A registry without nodes, with one bound, and with it revoked. *)
Definition sample_stores : list PersistedStore :=
  [ {| ps_nodes := ∅; ps_revoked := [] |};
    {| ps_nodes := {[berlin := zeros 32]}; ps_revoked := [] |};
    {| ps_nodes := ∅; ps_revoked := [berlin] |} ].

#[local] Instance sample_text : RegistryText := {|
  store_from_str := table_value sample_stores;
  nodes_from_str := fun _ => None;
  store_to_vec_pretty := table_text sample_stores;
  base64_encode := fun k => k;
  base64_decode := Some;
  is_weak := fun _ => false |}.

#[local] Instance sample_text_laws : RegistryTextLaws.
Proof.
  constructor; [|done|done]. intros s t E. split; [by apply table_value_text|apply (table_text_ok _ _ _ E)].
Qed.

Definition good_io : RegistryIo := {| lock_ok := true; read_ok := true; write_ok := true |}.

(** A proof of [berlin] for a session, by a key of zeros or another. *)
Definition sample_proof (key : bytes) : Enrollment :=
  {| node_id := berlin; node_pub := key; time_window := 1;
     signature := node_enrollment_signing_bytes berlin key 1 (zeros 32) (zeros 32);
     server_eph_pub := zeros 32; client_eph_pub := zeros 32 |}.

(** Two processes, of which the first has bound the node. *)
Definition sample_events : list Event :=
  [Start good_io true; Start good_io true; Call good_io 0 (Authenticate 60000 (sample_proof (zeros 32)))].

Definition bound_world : World := run (idle None) sample_events.

Definition first_state (w : World) : RegistryState := default default_state (snd <$> processes w !! 0%nat).

Definition second_state (w : World) : RegistryState := default default_state (snd <$> processes w !! 1%nat).

Definition revoked_place : Place :=
  (try_revoke good_io berlin {| state := first_state bound_world; file := shared bound_world |}).1.

Lemma revocation_enforced_witness :
  let before := {| state := second_state bound_world; file := shared bound_world |} in
  let w' := run (put 0 true revoked_place bound_world) [] in
  let after := {| state := second_state w'; file := shared w' |} in
  (is_authorized good_io berlin (zeros 32) before).2 = true /\
  (is_authorized good_io berlin (zeros 32) after).2 = false.
Proof.
  intros before w' after. split; [by vm_compute|].
  assert (processes bound_world !! 0%nat = Some (true, first_state bound_world)) as H1 by by vm_compute.
  assert (try_revoke good_io berlin {| state := first_state bound_world; file := shared bound_world |} =
    (revoked_place, Some true)) as H2 by by vm_compute.
  assert (processes w' !! 1%nat = Some (true, second_state w')) as H3 by by vm_compute.
  assert (Some true <> None) as H4 by done.
  apply (revocation_enforced bound_world 0 true _ good_io berlin revoked_place (Some true) [] H1 H2 (Forall_nil_2 _)
    1 true _ H3 (or_introl H4) good_io (zeros 32) 60000 (sample_proof (zeros 32)) eq_refl).
Defined.

Lemma binding_pinned_witness :
  let key := 1 :: zeros 31 in
  let w := run (idle None) [Start good_io true; Start good_io true] in
  let w' := run (put 0 true {| state := first_state bound_world; file := shared bound_world |} w) [] in
  NodeAuthOutcome.accepted (authenticate good_io true 60000 (sample_proof key)
    {| state := second_state w'; file := shared w' |}).2 = false.
Proof.
  intros key w w'. apply not_true_is_false. intros H.
  assert (key = zeros 32) as E; [|discriminate E].
  assert (processes w !! 0%nat = Some (true, first_state w)) as H1 by by vm_compute.
  assert (authenticate good_io true 60000 (sample_proof (zeros 32)) {| state := first_state w; file := shared w |} =
    ({| state := first_state bound_world; file := shared bound_world |}, NodeAuthOutcome.BoundNew)) as H2 by by vm_compute.
  assert (processes w' !! 1%nat = Some (true, second_state w')) as H3 by by vm_compute.
  apply (binding_pinned None [Start good_io true; Start good_io true] 0 true _ good_io 60000
    (sample_proof (zeros 32)) _ NodeAuthOutcome.BoundNew [] H1 H2 eq_refl (Forall_nil_2 _) 1 true _ good_io 60000
    (sample_proof key) H3 eq_refl (or_intror H)).
Defined.

End Sample.
