(* ===== verification/ClientDb.v ===== *)
(** * The database of clients

    [crates/aivpn-server/src/client_db]: the records of [model.rs], the allocation of
    addresses and the partitions of a pool ([ip_allocation.rs]), the merge of the
    records of another node with its digests ([merge.rs]), and the transactions over
    the file that several processes share ([mod.rs]).

    A time is a number of nanoseconds; a call reads the clock once. The serialiser of
    the file is the class [Serde]. [File] is the file on the disk; [System] is what the
    operating system answers during a call: the time, and whether the lock, the read
    and the write succeed. A call of the database takes and returns the [Host], the
    database in memory together with the file. *)

From S2P Require Import Prelude Collections Text Utf8 IpAddr NetworkConfig Crypto.
Local Open Scope Z_scope.

(** ** Records *)

Module ClientRole.
Inductive t : Type := User | Viewer | Admin.
#[global] Instance eq_dec : EqDecision t.
Proof. solve_decision. Defined.

Definition rank (r : t) : Z := match r with User => 0 | Viewer => 1 | Admin => 2 end.
Definition at_least (self req : t) : bool := rank req <=? rank self.
End ClientRole.

Record ClientQos : Type := {
  bandwidth_limit_up : option Z;
  bandwidth_limit_down : option Z;
  dscp_class : option Z;
  priority : option Z;
}.

Record ClientStats : Type := {
  bytes_in : Z;
  bytes_out : Z;
  last_connected : option Z;
  total_connections : Z;
  last_handshake : option Z;
}.

Definition no_stats : ClientStats :=
  {| bytes_in := 0; bytes_out := 0; last_connected := None; total_connections := 0; last_handshake := None |}.

Record ClientConfig : Type := {
  id : bytes;
  name : bytes;
  psk : bytes;
  vpn_ip : Ipv4Addr;
  enabled : bool;
  created_at : Z;
  stats : ClientStats;
  qos : option ClientQos;
  device_pubkey : option bytes;
  one_time : bool;
  expires_at : option Z;
  updated_at : option Z;
  deleted : bool;
  role : ClientRole.t;
  exit_node : option bytes;
}.

Record ClientDbFile : Type := { clients : list ClientConfig; next_host_offset : Z }.

Definition default_db : ClientDbFile := {| clients := []; next_host_offset := 2 |}.

Definition with_clients (l : list ClientConfig) (d : ClientDbFile) : ClientDbFile :=
  {| clients := l; next_host_offset := next_host_offset d |}.

Definition push (c : ClientConfig) (d : ClientDbFile) : ClientDbFile := with_clients (clients d ++ [c]) d.

Definition set_vpn_ip (ip : Ipv4Addr) (c : ClientConfig) : ClientConfig :=
  {| id := id c; name := name c; psk := psk c; vpn_ip := ip; enabled := enabled c;
     created_at := created_at c; stats := stats c; qos := qos c; device_pubkey := device_pubkey c;
     one_time := one_time c; expires_at := expires_at c; updated_at := updated_at c;
     deleted := deleted c; role := role c; exit_node := exit_node c |}.

Definition set_stats (s : ClientStats) (c : ClientConfig) : ClientConfig :=
  {| id := id c; name := name c; psk := psk c; vpn_ip := vpn_ip c; enabled := enabled c;
     created_at := created_at c; stats := s; qos := qos c; device_pubkey := device_pubkey c;
     one_time := one_time c; expires_at := expires_at c; updated_at := updated_at c;
     deleted := deleted c; role := role c; exit_node := exit_node c |}.

(** [iter_mut().find(p)] followed by an assignment: the first match changes. *)
Fixpoint update_first {A} (p : A -> bool) (f : A -> A) (l : list A) : list A :=
  match l with
  | [] => []
  | x :: l => if p x then f x :: l else x :: update_first p f l
  end.

Definition has_id (i : bytes) (c : ClientConfig) : bool := bool_decide (id c = i).
Definition live_id (i : bytes) (c : ClientConfig) : bool := has_id i c && negb (deleted c).

(** [str::parse::<u16>()] *)
Definition parse_u16 (l : bytes) : option Z :=
  let digits := match l with c :: l' => if c =? 43 then l' else l | [] => l end in
  let '(v, n, rest) := read_digits 10 digits 0 0 in
  match rest with
  | [] => if (n =? 0)%nat then None else if v <? 65536 then Some v else None
  | _ => None
  end.

Definition validate_exit_node_addr (addr : bytes) : outcome unit :=
  match rsplitn 2 58 addr with
  | [port; host] =>
      if bool_decide (host = []) then Err (SessionError "exit_node host must not be empty")
      else match parse_u16 port with
           | Some _ => Ok tt
           | None => Err (SessionError "exit_node port must be a valid number (0-65535)")
           end
  | _ => Err (SessionError "exit_node must be in host:port format")
  end.

(** ** The database *)

Record PartitionBounds : Type := {
  start_offset : Z;
  end_offset : Z;
  index : Z;
  num_partitions : Z;
  explicit : bool;
}.

Record PartitionInfo : Type := {
  pi_partition_index : Z;
  pi_partition_size : Z;
  pi_num_partitions : Z;
  pi_explicit : bool;
}.

Record ClientDatabase : Type := {
  data : ClientDbFile;
  network_config : VpnNetworkConfig;
  partition : option PartitionBounds;
  last_mtime : option Z;
}.

Definition with_data (d : ClientDbFile) (db : ClientDatabase) : ClientDatabase :=
  {| data := d; network_config := network_config db; partition := partition db; last_mtime := last_mtime db |}.

(** ** Addresses *)

Section Allocation.
Context (db : ClientDatabase).

Definition held (d : ClientDbFile) (ip : Ipv4Addr) : bool :=
  existsb (fun c => (vpn_ip c =? ip) && negb (deleted c)) (clients d).

Definition allocation_range : Z * Z :=
  match partition db with
  | Some p => (start_offset p, end_offset p)
  | None => (1, max_host_offset (network_config db) + 1)
  end.

Definition next_offset (range_start range_end offset : Z) : Z :=
  if range_end <=? offset + 1 then range_start else offset + 1.

(** The loop of both searches: at most [n] offsets from [offset] on, wrapping at the
    end of the range. *)
Fixpoint probe (d : ClientDbFile) (range_start range_end : Z) (n : nat) (offset : Z) : option (Z * Ipv4Addr) :=
  match n with
  | O => None
  | S n =>
      match ip_for_host_offset (network_config db) offset with
      | Some ip =>
          if negb (ip =? v_server_vpn_ip (network_config db)) && negb (held d ip) then Some (offset, ip)
          else probe d range_start range_end n (next_offset range_start range_end offset)
      | None => probe d range_start range_end n (next_offset range_start range_end offset)
      end
  end.

Definition allocate_vpn_ip (d : ClientDbFile) : ClientDbFile * outcome Ipv4Addr :=
  if max_host_offset (network_config db) <? 1
  then (d, Err (SessionError "Configured VPN subnet has no usable host addresses"))
  else
  let '(range_start, range_end) := allocation_range in
  if range_end <=? range_start
  then (d, Err (SessionError "node IP partition exhausted; increase subnet size or partition capacity"))
  else
  let cursor := next_host_offset d in
  let candidate_offset :=
    if (cursor =? 0) || negb ((range_start <=? cursor) && (cursor <? range_end)) then range_start else cursor in
  match probe d range_start range_end (Z.to_nat (range_end - range_start)) candidate_offset with
  | Some (offset, ip) =>
      ({| clients := clients d; next_host_offset := next_offset range_start range_end offset |}, Ok ip)
  | None =>
      (d, Err (SessionError match partition db with
                           | Some _ => "node IP partition exhausted"
                           | None => "No more VPN IPs available in configured subnet"
                           end))
  end.

Definition TARGET_NUM_PARTITIONS : Z := 8.
Definition MIN_PARTITION_SIZE : Z := 8.
Definition MAX_PARTITION_SIZE : Z := 254.

Definition default_num_partitions : Z :=
  let max := max_host_offset (network_config db) in
  if max <? 2 then 1
  else
  let partition_size :=
    Z.min (Z.max (max / TARGET_NUM_PARTITIONS) MIN_PARTITION_SIZE) MAX_PARTITION_SIZE in
  Z.max (max / partition_size) 1.

(** [u32::saturating_mul] *)
Definition sat_mul32 (a b : Z) : Z := Z.min u32_max (a * b).

Definition compute_partition_bounds (max_host_offset num_partitions index : Z) (explicit : bool) : PartitionBounds :=
  let partition_size := Z.max (max_host_offset / num_partitions) 1 in
  let start_offset := Z.min (1 + sat_mul32 index partition_size) max_host_offset in
  let end_offset :=
    if num_partitions <=? index + 1 then max_host_offset + 1
    else Z.min (start_offset + partition_size) (max_host_offset + 1) in
  {| start_offset := start_offset; end_offset := end_offset; index := index;
     num_partitions := num_partitions; explicit := explicit |}.

Definition apply_partition (index num_partitions : Z) (explicit : bool) : ClientDatabase :=
  let max := max_host_offset (network_config db) in
  if (max <? 2) || (num_partitions <=? 1) then db
  else
  let num_partitions := if max <? num_partitions then max else num_partitions in
  let index := index mod num_partitions in
  {| data := data db; network_config := network_config db;
     partition := Some (compute_partition_bounds max num_partitions index explicit);
     last_mtime := last_mtime db |}.

Definition fnv1a_step (hash b : Z) : Z := wrap64 (Z.lxor hash b * 1099511628211).
Definition fnv1a_hash (l : bytes) : Z := fold_left fnv1a_step l 14695981039346656037.

Definition set_node_partition (node_id : bytes) : ClientDatabase :=
  let num_partitions := default_num_partitions in
  if num_partitions <=? 1 then db
  else apply_partition (fnv1a_hash node_id mod num_partitions) num_partitions false.

Definition set_node_partition_explicit (index : Z) (num : option Z) : ClientDatabase :=
  let num_partitions := default default_num_partitions num in
  if num_partitions <=? 1 then db
  else apply_partition (index mod num_partitions) num_partitions true.

Definition partition_info : option PartitionInfo :=
  (fun b => {| pi_partition_index := index b; pi_partition_size := sat_sub (end_offset b) (start_offset b);
               pi_num_partitions := num_partitions b; pi_explicit := explicit b |}) <$> partition db.

Definition deterministic_reassign_offset (client_id : bytes) (d : ClientDbFile) : option Ipv4Addr :=
  if max_host_offset (network_config db) <? 1 then None
  else
  let '(range_start, range_end) := allocation_range in
  if range_end <=? range_start then None
  else
  let range_len := range_end - range_start in
  let offset := range_start + fnv1a_hash client_id mod range_len in
  snd <$> probe d range_start range_end (Z.to_nat range_len) offset.
End Allocation.

(** ** Digests *)

(** serde_json: the text of a value, if it has one, and the value of a text. *)
Class Serde : Type := {
  qos_to_vec : option ClientQos -> option bytes;
  clients_to_string : list ClientConfig -> option bytes;
  clients_from_str : bytes -> option (list ClientConfig);
  db_to_string_pretty : ClientDbFile -> option bytes;
  db_from_str : bytes -> option ClientDbFile;
}.

(** A text reads back as the value it was written from, and is not blank. *)
Class SerdeLaws {SD : Serde} : Prop := {
  qos_inj : forall q q' t, qos_to_vec q = Some t -> qos_to_vec q' = Some t -> q = q';
  clients_from_to : forall l t, clients_to_string l = Some t ->
    clients_from_str t = Some l /\ string_ok t;
  db_from_to : forall d t, db_to_string_pretty d = Some t -> db_from_str t = Some d /\ trim t <> [];
}.

(** [DateTime::timestamp_millis] *)
Definition timestamp_millis (t : Z) : Z := t / 1000000.

(** [i64::to_le_bytes] *)
Definition i64_le (x : Z) : bytes := le_bytes 8 (wrap64 x).

Definition encode_opt_millis (t : option Z) : bytes :=
  i64_le match t with Some t => timestamp_millis t | None => - 2 ^ 63 end.

Definition POOL_SYNC_BUCKETS : nat := 64.

Definition byte_of (b : bool) : Z := if b then 1 else 0.

(** [x.len() as u32], then the bytes *)
Definition prefixed_field (x : bytes) : bytes := le_bytes 4 (wrap32 (len x)) ++ x.

Section Digest.
Context {PR : Primitives} {SD : Serde}.

(** What [write_record_canonical_fields] feeds to the hasher. *)
Definition record_canonical_fields (c : ClientConfig) : bytes :=
  prefixed_field (id c) ++ psk c ++ prefixed_field (name c)
  ++ [byte_of (enabled c); byte_of (deleted c); byte_of (one_time c)]
  ++ encode_opt_millis (updated_at c) ++ encode_opt_millis (expires_at c)
  ++ match device_pubkey c with Some key => 1 :: key | None => 0 :: zeros 32 end
  ++ prefixed_field (default [] (qos_to_vec (qos c)))
  ++ [ClientRole.rank (role c)]
  ++ match exit_node c with Some addr => 1 :: prefixed_field addr | None => [0] end.

Definition record_canonical_hash (c : ClientConfig) : bytes := blake3_hash (record_canonical_fields c).

Definition bucket_index_for_id (i : bytes) : Z :=
  from_le (take 8 (blake3_hash i)) mod Z.of_nat POOL_SYNC_BUCKETS.

Definition id_lt (a b : ClientConfig) : bool := bytes_lt (id a) (id b).

Definition state_digest (d : ClientDbFile) : bytes :=
  let records := sort_by id_lt (clients d) in
  blake3_hash (le_bytes 8 (len records) ++ concat (map record_canonical_fields records)).

Definition in_bucket (i : nat) (c : ClientConfig) : bool := bucket_index_for_id (id c) =? Z.of_nat i.

Definition bucket_digest (records : list ClientConfig) (i : nat) : bytes :=
  match filter (fun c => in_bucket i c = true) records with
  | [] => zeros 8
  | bucket =>
      let bucket := sort_by id_lt bucket in
      take 8 (blake3_hash (le_bytes 4 (wrap32 (len bucket)) ++ concat (map record_canonical_hash bucket)))
  end.

Definition bucket_digests (d : ClientDbFile) : bytes :=
  concat (map (bucket_digest (clients d)) (seq 0 POOL_SYNC_BUCKETS)).

Definition records_for_buckets (d : ClientDbFile) (buckets : list Z) : list ClientConfig :=
  filter (fun c => wrap16 (bucket_index_for_id (id c)) ∈ buckets) (clients d).

Definition clients_json_for_buckets (d : ClientDbFile) (buckets : list Z) : bytes :=
  default [91; 93] (clients_to_string (records_for_buckets d buckets)).
End Digest.

(** [as_chunks::<8>] *)
Fixpoint chunks8 (n : nat) (l : bytes) : list bytes :=
  match n with O => [] | S n => take 8 l :: chunks8 n (drop 8 l) end.

Definition differing_pool_buckets (local peer : bytes) : list Z :=
  if negb (len local =? len peer) || negb (len local mod 8 =? 0) then []
  else
  let n := Nat.div (length local) 8 in
  map (fun e => wrap16 (Z.of_nat e.1))
    (filter (fun e => e.2.1 <> e.2.2) (zip (seq 0 n) (zip (chunks8 n local) (chunks8 n peer)))).

(** ** The merge of the records of another node *)

(** 30 days *)
Definition TOMBSTONE_TTL : Z := 2592000000000000.

Definition expired_tombstone (now : Z) (c : ClientConfig) : bool :=
  deleted c && match updated_at c with Some t => t <? now - TOMBSTONE_TTL | None => false end.

Definition reap_expired_tombstones (now : Z) (l : list ClientConfig) : list ClientConfig :=
  filter (fun c => expired_tombstone now c = false) l.

Definition reap (now : Z) (d : ClientDbFile) : ClientDbFile :=
  with_clients (reap_expired_tombstones now (clients d)) d.

(** The fields of a record that an incoming one replaces. *)
Definition adopt (existing inc : ClientConfig) : ClientConfig :=
  {| id := id existing; name := name inc; psk := psk existing; vpn_ip := vpn_ip existing;
     enabled := enabled inc && negb (deleted inc); created_at := created_at existing;
     stats := stats existing; qos := qos inc; device_pubkey := device_pubkey inc;
     one_time := one_time inc; expires_at := expires_at inc; updated_at := updated_at inc;
     deleted := deleted inc; role := role inc; exit_node := exit_node inc |}.

Definition strictly_newer (inc existing : option Z) : bool :=
  match inc, existing with
  | Some i, Some e => e <? i
  | Some _, None => true
  | None, _ => false
  end.

(** The order of two records that hold one address. *)
Definition earlier (inc resident : ClientConfig) : bool :=
  match created_at inc ?= created_at resident with
  | Lt => true
  | Gt => false
  | Eq => bytes_lt (id inc) (id resident)
  end.

Definition conflicts (inc c : ClientConfig) : bool :=
  (vpn_ip c =? vpn_ip inc) && negb (has_id (id inc) c) && negb (deleted c).

Section Merge.
Context {PR : Primitives} {SD : Serde} (db : ClientDatabase).

Definition tie_break_wins (inc existing : ClientConfig) : bool :=
  bool_decide (updated_at inc = updated_at existing)
  && bytes_lt (record_canonical_hash inc) (record_canonical_hash existing).

Definition incoming_wins (inc existing : ClientConfig) : bool :=
  match deleted existing, deleted inc with
  | true, false => false
  | false, true => true
  | _, _ => strictly_newer (updated_at inc) (updated_at existing) || tie_break_wins inc existing
  end.

(** A live record with an unknown id: it or the holder of its address moves. *)
Definition merge_new (inc : ClientConfig) (d : ClientDbFile) : option ClientDbFile :=
  match find (conflicts inc) (clients d) with
  | None => Some (push inc d)
  | Some resident =>
      if earlier inc resident then
        match deterministic_reassign_offset db (id resident) d with
        | Some new_ip =>
            Some (push inc (with_clients (update_first (conflicts inc) (set_vpn_ip new_ip) (clients d)) d))
        | None => None
        end
      else
        match deterministic_reassign_offset db (id inc) d with
        | Some new_ip => Some (push (set_vpn_ip new_ip inc) d)
        | None => None
        end
  end.

(** One turn of the loop; [None] where it goes on without a change. *)
Definition merge_one (inc : ClientConfig) (d : ClientDbFile) : option ClientDbFile :=
  match find (has_id (id inc)) (clients d) with
  | Some existing =>
      if bool_decide (psk existing = psk inc) && incoming_wins inc existing
      then Some (with_clients (update_first (has_id (id inc)) (fun e => adopt e inc) (clients d)) d)
      else None
  | None =>
      if deleted inc then Some (push inc d)
      else if vpn_ip inc =? v_server_vpn_ip (network_config db) then
        match deterministic_reassign_offset db (id inc) d with
        | Some new_ip => merge_new (set_vpn_ip new_ip inc) d
        | None => None
        end
      else merge_new inc d
  end.

Fixpoint merge_loop (incoming : list ClientConfig) (d : ClientDbFile) (merged : Z) : ClientDbFile * Z :=
  match incoming with
  | [] => (d, merged)
  | inc :: incoming =>
      match merge_one inc d with
      | Some d => merge_loop incoming d (merged + 1)
      | None => merge_loop incoming d merged
      end
  end.

Definition merge_records (incoming : list ClientConfig) (now : Z) : method ClientDbFile Z := fun d =>
  let '(d, merged) := merge_loop incoming d 0 in
  (reap now d, Ok merged).
End Merge.

(** ** The file and the transactions *)

Record File : Type := { text : bytes; modified : Z }.

Record System : Type := {
  now : Z;
  lock_ok : bool;
  read_ok : bool;
  write_ok : bool;
  (** the modification time that a write leaves *)
  write_time : Z;
}.

Record Host : Type := { db : ClientDatabase; disk : option File }.

Definition max_opt_time (a b : option Z) : option Z :=
  match a, b with
  | Some a, Some b => Some (Z.max a b)
  | Some a, None => Some a
  | None, b => b
  end.

Definition max_stats (a b : ClientStats) : ClientStats :=
  {| bytes_in := Z.max (bytes_in a) (bytes_in b); bytes_out := Z.max (bytes_out a) (bytes_out b);
     total_connections := Z.max (total_connections a) (total_connections b);
     last_connected := max_opt_time (last_connected a) (last_connected b);
     last_handshake := max_opt_time (last_handshake a) (last_handshake b) |}.

Definition restore_preserving_traffic (current snapshot : ClientDbFile) : ClientDbFile :=
  with_clients
    (map (fun c => match find (has_id (id c)) (clients current) with
                   | Some live => set_stats (max_stats (stats c) (stats live)) c
                   | None => c
                   end) (clients snapshot)) snapshot.

Definition read_db_text (io : System) (disk : option File) : outcome (option bytes) :=
  if read_ok io then Ok (text <$> disk) else Err (SessionError "Failed to read client DB").

Section Store.
Context {PR : Primitives} {SD : Serde}.

Definition read_disk_snapshot (io : System) (disk : option File) : outcome (option ClientDbFile) :=
  let! content := read_db_text io disk in
  match content with
  | None => Ok None
  | Some content =>
      if bool_decide (trim content = []) then Ok (Some default_db)
      else omap Some (ok_or (db_from_str content) (SessionError "Failed to parse client DB"))
  end.

Definition absorb_one_client (mem disk : ClientConfig) : ClientConfig :=
  let disk_newer := strictly_newer (updated_at disk) (updated_at mem) in
  let mem_newer := strictly_newer (updated_at mem) (updated_at disk) in
  let digest_differs := negb (bool_decide (record_canonical_hash disk = record_canonical_hash mem))
                        || negb (vpn_ip disk =? vpn_ip mem) in
  let take_disk := if disk_newer then true
                   else if mem_newer then false
                   else if negb (Bool.eqb (deleted disk) (deleted mem)) then deleted disk
                   else digest_differs in
  let stats := max_stats (stats mem) (stats disk) in
  set_stats stats (if take_disk then disk else mem).

Fixpoint absorb_all (disk mem : list ClientConfig) : list ClientConfig :=
  match disk with
  | [] => mem
  | c :: disk =>
      absorb_all disk
        (if existsb (has_id (id c)) mem
         then update_first (has_id (id c)) (fun m => absorb_one_client m c) mem else mem ++ [c])
  end.

(** [client_snapshot_sig] *)
Definition snapshot_sig (d : ClientDbFile) : list (bytes * Ipv4Addr * Z) :=
  sort_by (fun a b => bytes_lt a.1.1 b.1.1)
    (map (fun c => (record_canonical_hash c, vpn_ip c, next_host_offset d)) (clients d)).

Definition absorb_disk_locked (io : System) (disk : option File) (d : ClientDbFile) : outcome (ClientDbFile * bool) :=
  let! snapshot := read_disk_snapshot io disk in
  let merged := match snapshot with
                | Some on_disk =>
                    {| clients := absorb_all (clients on_disk) (clients d);
                       next_host_offset := Z.max (next_host_offset d) (next_host_offset on_disk) |}
                | None => d
                end in
  let merged := reap (now io) merged in
  Ok (merged, negb (bool_decide (snapshot_sig merged = snapshot_sig d))).

Definition write_snapshot_locked (io : System) (d : ClientDbFile) (disk : option File) : outcome (option File) :=
  let! content := ok_or (db_to_string_pretty d) (SessionError "Failed to serialize client DB") in
  let! existing := read_db_text io disk in
  let write := if write_ok io then Ok (Some {| text := content; modified := write_time io |})
               else Err (SessionError "Failed to write client DB") in
  match existing with
  | None => write
  | Some existing =>
      if bool_decide (trim existing = []) then write
      else match db_from_str existing with
           | None => Err (SessionError "Refusing to overwrite malformed client DB")
           | Some _ => if bool_decide (existing = content) then Ok disk else write
           end
  end.

Definition remember_mtime (disk : option File) (db : ClientDatabase) : ClientDatabase :=
  {| data := data db; network_config := network_config db; partition := partition db;
     last_mtime := match disk with Some f => Some (modified f) | None => last_mtime db end |}.

Definition with_mutation {R} (f : ClientDatabase -> method ClientDbFile R) (io : System) : method Host R := fun h =>
  let at_data d := {| db := with_data d (db h); disk := disk h |} in
  if negb (lock_ok io) then (h, Err (SessionError "Failed to lock client DB"))
  else
  match absorb_disk_locked io (disk h) (data (db h)) with
  | Err e => (h, Err e)
  | Panic => (h, Panic)
  | Ok (rollback, _) =>
      match f (db h) rollback with
      | (d, Panic) => (at_data d, Panic)
      | (d, Err e) => (at_data (restore_preserving_traffic d rollback), Err e)
      | (d, Ok result) =>
          match write_snapshot_locked io d (disk h) with
          | Panic => (at_data d, Panic)
          | Err e => (at_data (restore_preserving_traffic d rollback), Err e)
          | Ok written => ({| db := remember_mtime written (with_data d (db h)); disk := written |}, Ok result)
          end
      end
  end.

Definition save : System -> method Host unit := with_mutation (fun _ => mret tt).

(** [ClientDatabase::load] *)
Definition load (cfg : VpnNetworkConfig) (io : System) (disk : option File) : outcome ClientDatabase :=
  let! _ := v_validate cfg in
  if negb (lock_ok io) then Err (Io "flock")
  else
  let! snapshot := read_disk_snapshot io disk in
  Ok {| data := reap (now io) (default default_db snapshot); network_config := cfg; partition := None;
        last_mtime := modified <$> disk |}.

Definition reload_from_disk (io : System) : method Host bool := fun h =>
  if negb (lock_ok io) then (h, Err (SessionError "Failed to lock client DB"))
  else
  match absorb_disk_locked io (disk h) (data (db h)) with
  | Ok (d, changed) => ({| db := with_data d (db h); disk := disk h |}, Ok changed)
  | Err e => (h, Err e)
  | Panic => (h, Panic)
  end.

Definition reload_if_changed (io : System) : method Host bool := fun h =>
  match disk h with
  | None => (h, Ok false)
  | Some f =>
      if bool_decide (last_mtime (db h) = Some (modified f)) then (h, Ok false)
      else
      match reload_from_disk io h with
      | (h, Ok changed) => ({| db := remember_mtime (disk h) (db h); disk := disk h |}, Ok changed)
      | (h, Err _) => (h, Ok false)
      | (h, Panic) => (h, Panic)
      end
  end.

(** ** Calls *)

Definition not_found {S A} : method S A := mfail (SessionError "Client not found").

(** The draws of [insert_client]. *)
Record Draw : Type := { draw_id : bytes; draw_psk : bytes }.

Definition insert_client (new_name : bytes) (device : option bytes) (once : bool) (draw : Draw) (now : Z)
    (db : ClientDatabase) : method ClientDbFile ClientConfig := fun d =>
  if existsb (fun c => bool_decide (name c = new_name) && negb (deleted c)) (clients d)
  then (d, Err (SessionError "Client already exists"))
  else
  match allocate_vpn_ip db d with
  | (d, Ok ip) =>
      let client := {| id := concat (map hex_u8 (draw_id draw)); name := new_name; psk := draw_psk draw;
                       vpn_ip := ip; enabled := true; created_at := now; stats := no_stats; qos := None;
                       device_pubkey := device; one_time := once; expires_at := None;
                       updated_at := Some now; deleted := false; role := ClientRole.User;
                       exit_node := None |} in
      (push client d, Ok client)
  | (d, Err e) => (d, Err e)
  | (d, Panic) => (d, Panic)
  end.

Definition add_client_inner (new_name : bytes) (device : option bytes) (draw : Draw) (io : System)
    : method Host ClientConfig :=
  with_mutation (insert_client new_name device false draw (now io)) io.

Definition add_client (new_name : bytes) : Draw -> System -> method Host ClientConfig :=
  add_client_inner new_name None.

Definition add_client_bound (new_name device : bytes) : Draw -> System -> method Host ClientConfig :=
  add_client_inner new_name (Some device).

Definition add_client_one_time (new_name : bytes) (draw : Draw) (io : System) : method Host ClientConfig :=
  with_mutation (insert_client new_name None true draw (now io)) io.

Definition add_client_one_time_bound (new_name device : bytes) (draw : Draw) (io : System)
    : method Host ClientConfig :=
  with_mutation (insert_client new_name (Some device) true draw (now io)) io.

Record CreateClientOptions : Type := {
  co_one_time : bool;
  co_expires_at : option Z;
  co_role : ClientRole.t;
  co_qos : option ClientQos;
}.

Definition with_options (o : CreateClientOptions) (c : ClientConfig) : ClientConfig :=
  {| id := id c; name := name c; psk := psk c; vpn_ip := vpn_ip c; enabled := enabled c;
     created_at := created_at c; stats := stats c; qos := co_qos o; device_pubkey := device_pubkey c;
     one_time := one_time c; expires_at := co_expires_at o; updated_at := updated_at c;
     deleted := deleted c; role := co_role o; exit_node := exit_node c |}.

(** The assignment to [last_mut()]. *)
Definition update_last {A} (f : A -> A) (l : list A) : list A := rev (match rev l with x :: l => f x :: l | [] => [] end).

Definition insert_with_options (new_name : bytes) (o : CreateClientOptions) (draw : Draw) (now : Z)
    (db : ClientDatabase) : method ClientDbFile ClientConfig := fun d =>
  if negb (bool_decide (co_role o = ClientRole.User))
  then (d, Err (SessionError "elevated role requires device binding"))
  else
  match insert_client new_name None (co_one_time o) draw now db d with
  | (d, Ok client) => (with_clients (update_last (with_options o) (clients d)) d, Ok (with_options o client))
  | (d, Err e) => (d, Err e)
  | (d, Panic) => (d, Panic)
  end.

Definition add_client_with_options (new_name : bytes) (o : CreateClientOptions) (draw : Draw) (io : System)
    : method Host ClientConfig :=
  with_mutation (insert_with_options new_name o draw (now io)) io.

(** Device, flag, role and time of a record change together. *)
Definition set_binding (device : option bytes) (once : bool) (r : ClientRole.t) (now : Z) (c : ClientConfig)
    : ClientConfig :=
  {| id := id c; name := name c; psk := psk c; vpn_ip := vpn_ip c; enabled := enabled c;
     created_at := created_at c; stats := stats c; qos := qos c; device_pubkey := device;
     one_time := once; expires_at := expires_at c; updated_at := Some now;
     deleted := deleted c; role := r; exit_node := exit_node c |}.

Definition bind_device (client_id static_pub : bytes) (now : Z) (_ : ClientDatabase) : method ClientDbFile bool :=
  fun d =>
  match find (has_id client_id) (clients d) with
  | None => not_found d
  | Some client =>
      let enforce := one_time client || negb (bool_decide (role client = ClientRole.User)) in
      let bound := with_clients (update_first (has_id client_id)
                     (fun c => set_binding (Some static_pub) (one_time c) (role c) now c) (clients d)) d in
      match device_pubkey client with
      | None =>
          if negb (bool_decide (role client = ClientRole.User))
          then (d, Err (SessionError "elevated role requires existing device binding"))
          else (bound, Ok true)
      | Some key =>
          if bool_decide (key = static_pub) then (d, Ok false)
          else if enforce then (d, Err (SessionError "Device binding mismatch for client"))
          else (bound, Ok true)
      end
  end.

Definition enroll_device (client_id static_pub : bytes) (io : System) : method Host bool :=
  with_mutation (bind_device client_id static_pub (now io)) io.

Definition unbind_device (client_id : bytes) (now : Z) (_ : ClientDatabase) : method ClientDbFile unit := fun d =>
  match find (has_id client_id) (clients d) with
  | None => not_found d
  | Some _ =>
      (with_clients (update_first (has_id client_id) (set_binding None true ClientRole.User now) (clients d)) d,
       Ok tt)
  end.

Definition reset_device_binding (client_id : bytes) (io : System) : method Host unit :=
  with_mutation (unbind_device client_id (now io)) io.

Definition tombstone (now : Z) (c : ClientConfig) : ClientConfig :=
  {| id := id c; name := name c; psk := psk c; vpn_ip := vpn_ip c; enabled := false;
     created_at := created_at c; stats := stats c; qos := qos c; device_pubkey := None;
     one_time := one_time c; expires_at := expires_at c; updated_at := Some now;
     deleted := true; role := role c; exit_node := exit_node c |}.

Definition bury (client_id : bytes) (now : Z) (_ : ClientDatabase) : method ClientDbFile unit := fun d =>
  match find (live_id client_id) (clients d) with
  | None => not_found d
  | Some _ => (with_clients (update_first (live_id client_id) (tombstone now) (clients d)) d, Ok tt)
  end.

Definition remove_client (client_id : bytes) (io : System) : method Host unit :=
  with_mutation (bury client_id (now io)) io.

Record UpdateClientParams : Type := {
  up_name : option bytes;
  up_enabled : option bool;
  up_one_time : option bool;
  up_qos : option (option ClientQos);
  up_expires_at : option (option Z);
  up_role : option ClientRole.t;
  up_exit_node : option (option bytes);
}.

Definition apply_update (p : UpdateClientParams) (now : Z) (c : ClientConfig) : ClientConfig :=
  {| id := id c; name := default (name c) (up_name p); psk := psk c; vpn_ip := vpn_ip c;
     enabled := default (enabled c) (up_enabled p); created_at := created_at c; stats := stats c;
     qos := default (qos c) (up_qos p); device_pubkey := device_pubkey c;
     one_time := default (one_time c) (up_one_time p);
     expires_at := default (expires_at c) (up_expires_at p); updated_at := Some now;
     deleted := deleted c; role := default (role c) (up_role p);
     exit_node := default (exit_node c) (up_exit_node p) |}.

Definition edit_client (client_id : bytes) (p : UpdateClientParams) (now : Z) (_ : ClientDatabase)
    : method ClientDbFile ClientConfig := fun d =>
  let taken := match up_name p with
               | Some new_name =>
                   existsb (fun c => bool_decide (name c = new_name) && negb (has_id client_id c)
                                     && negb (deleted c)) (clients d)
               | None => false
               end in
  if taken then (d, Err (SessionError "Client name already taken"))
  else
  match find (live_id client_id) (clients d) with
  | None => not_found d
  | Some client =>
      if negb (bool_decide (default (role client) (up_role p) = ClientRole.User))
         && bool_decide (device_pubkey client = None)
      then (d, Err (SessionError "role requires device binding"))
      else (with_clients (update_first (live_id client_id) (apply_update p now) (clients d)) d,
            Ok (apply_update p now client))
  end.

Definition update_client (client_id : bytes) (p : UpdateClientParams) (io : System) : method Host ClientConfig :=
  do! _ := mlift match up_name p with
                 | Some new_name => if bool_decide (trim new_name = [])
                                    then Err (SessionError "Client name must not be empty") else Ok tt
                 | None => Ok tt
                 end in
  do! _ := mlift match up_exit_node p with
                 | Some (Some addr) => validate_exit_node_addr addr
                 | _ => Ok tt
                 end in
  with_mutation (edit_client client_id p (now io)) io.

Definition set_qos (q : ClientQos) (now : Z) (c : ClientConfig) : ClientConfig :=
  {| id := id c; name := name c; psk := psk c; vpn_ip := vpn_ip c; enabled := enabled c;
     created_at := created_at c; stats := stats c; qos := Some q; device_pubkey := device_pubkey c;
     one_time := one_time c; expires_at := expires_at c; updated_at := Some now;
     deleted := deleted c; role := role c; exit_node := exit_node c |}.

Definition edit_qos (client_id : bytes) (q : ClientQos) (now : Z) (_ : ClientDatabase) : method ClientDbFile unit :=
  fun d =>
  match find (live_id client_id) (clients d) with
  | Some _ => (with_clients (update_first (live_id client_id) (set_qos q now) (clients d)) d, Ok tt)
  | None => not_found d
  end.

Definition set_client_qos (client_id : bytes) (q : ClientQos) (io : System) : method Host unit :=
  with_mutation (edit_qos client_id q (now io)) io.

Definition merge_from_json (json : bytes) (io : System) : method Host Z := fun h =>
  match clients_from_str json with
  | None => (h, Err (SessionError "merge_from_json parse"))
  | Some incoming => with_mutation (fun db => merge_records db incoming (now io)) io h
  end.

Definition export_json (h : Host) : outcome bytes :=
  ok_or (clients_to_string (clients (data (db h)))) (SessionError "export_json").
End Store.

(** The counters are checked additions on [u64]. *)
Definition add64 (a b : Z) : outcome Z := if a + b <=? u64_max then Ok (a + b) else Panic.

(** A change of the counters of one record, in memory only. *)
Definition count (client_id : bytes) (f : ClientStats -> outcome ClientStats) : method Host unit := fun h =>
  match find (has_id client_id) (clients (data (db h))) with
  | None => (h, Ok tt)
  | Some c =>
      match f (stats c) with
      | Ok s =>
          let d := data (db h) in
          ({| db := with_data (with_clients (update_first (has_id client_id) (set_stats s) (clients d)) d) (db h);
              disk := disk h |}, Ok tt)
      | Err e => (h, Err e)
      | Panic => (h, Panic)
      end
  end.

Definition record_handshake (client_id : bytes) (now : Z) : method Host unit :=
  count client_id (fun s =>
    let! n := add64 (total_connections s) 1 in
    Ok {| bytes_in := bytes_in s; bytes_out := bytes_out s; last_connected := Some now;
          total_connections := n; last_handshake := Some now |}).

Definition record_traffic (client_id : bytes) (n_in n_out now : Z) : method Host unit :=
  count client_id (fun s =>
    let! i := add64 (bytes_in s) n_in in
    let! o := add64 (bytes_out s) n_out in
    Ok {| bytes_in := i; bytes_out := o; last_connected := Some now;
          total_connections := total_connections s; last_handshake := last_handshake s |}).

(** ** Lookups *)

Definition find_by_name (n : bytes) (h : Host) : option ClientConfig :=
  find (fun c => bool_decide (name c = n) && negb (deleted c)) (clients (data (db h))).

Definition find_by_psk (key : bytes) (now : Z) (h : Host) : option ClientConfig :=
  find (fun c => negb (deleted c) && enabled c
                 && negb match expires_at c with Some t => t <=? now | None => false end
                 && bool_decide (psk c = key)) (clients (data (db h))).

Definition find_by_vpn_ip (ip : Ipv4Addr) (h : Host) : option ClientConfig :=
  find (fun c => (vpn_ip c =? ip) && negb (deleted c)) (clients (data (db h))).

Definition find_by_id (i : bytes) (h : Host) : option ClientConfig :=
  find (live_id i) (clients (data (db h))).

Definition list_clients (h : Host) : list ClientConfig :=
  filter (fun c => deleted c = false) (clients (data (db h))).
