(* ===== verification/ClientAddr.v ===== *)
(** * Addresses of clients

    The allocator of [client_db/ip_allocation.rs] hands out an address that nobody
    holds whenever its range has one, the partitions of a pool are disjoint and leave
    no gap, and the address that a merge moves a record to is free. *)

From S2P Require Import Prelude Collections Text IpAddr NetworkConfig Crypto ClientDb.
Local Open Scope Z_scope.

(** The subnet of a database that [load] accepted. *)
Definition subnet_ok (cfg : VpnNetworkConfig) : Prop :=
  1 <= v_prefix_len cfg <= 30 /\ u32_ok (v_server_vpn_ip cfg).

(** An address that the database may give to a client. *)
Definition free (db : ClientDatabase) (d : ClientDbFile) (ip : Ipv4Addr) : Prop :=
  ip <> v_server_vpn_ip (network_config db) /\ held d ip = false.

Definition in_range (db : ClientDatabase) (offset : Z) : Prop :=
  (allocation_range db).1 <= offset < (allocation_range db).2.

(** The range is not empty and lies within the subnet. *)
Definition range_ok (db : ClientDatabase) : Prop :=
  1 <= (allocation_range db).1 < (allocation_range db).2 /\
  (allocation_range db).2 <= max_host_offset (network_config db) + 1.

Lemma held_spec d ip : held d ip = true <-> exists c, c ∈ clients d /\ vpn_ip c = ip /\ deleted c = false.
Proof.
  unfold held. rewrite existsb_exists. setoid_rewrite list_elem_of_In.
  setoid_rewrite andb_true_iff. setoid_rewrite Z.eqb_eq. setoid_rewrite negb_true_iff. done.
Qed.

Lemma held_false d ip : held d ip = false <-> forall c, c ∈ clients d -> deleted c = false -> vpn_ip c <> ip.
Proof.
  rewrite <-not_true_iff_false, held_spec. split.
  - intros H c Hc Hd E. apply H. by exists c.
  - intros H (c & Hc & E & Hd). by apply (H c).
Qed.

Section Probe.
Context (db : ClientDatabase) (d : ClientDbFile) (rs re : Z).
Hypothesis Hr : rs < re.

Lemma next_offset_cycle x :
  next_offset rs re (rs + x mod (re - rs)) = rs + (x + 1) mod (re - rs).
Proof.
  pose proof (Z.mod_pos_bound x (re - rs) ltac:(lia)). unfold next_offset.
  rewrite <-(Z.add_mod_idemp_l x 1) by lia.
  destruct (Z.leb_spec re (rs + x mod (re - rs) + 1)).
  - replace (x mod (re - rs) + 1) with (re - rs) by lia. rewrite Z.mod_same by lia. lia.
  - rewrite (Z.mod_small (x mod (re - rs) + 1)) by lia. lia.
Qed.

(** What the search says of one offset. *)
Definition blocked (offset : Z) : Prop :=
  forall ip, ip_for_host_offset (network_config db) offset = Some ip -> ~ free db d ip.

Lemma probe_Some n x offset ip :
  probe db d rs re n (rs + x mod (re - rs)) = Some (offset, ip) ->
  rs <= offset < re /\ ip_for_host_offset (network_config db) offset = Some ip /\ free db d ip.
Proof.
  revert x. induction n as [|n IH]; intros x; [done|]. cbn [probe].
  rewrite next_offset_cycle.
  destruct (ip_for_host_offset _ (rs + x mod (re - rs))) as [a|] eqn:E; [|apply IH].
  destruct (_ && _) eqn:F; [|apply IH]. intros [= <- <-]. apply andb_true_iff in F as [F1 F2].
  pose proof (Z.mod_pos_bound x (re - rs) ltac:(lia)).
  split; [lia|]. split; [done|]. apply negb_true_iff in F2. split; [wire_lia|done].
Qed.

Lemma probe_None n x k :
  probe db d rs re n (rs + x mod (re - rs)) = None -> 0 <= k < Z.of_nat n ->
  blocked (rs + (x + k) mod (re - rs)).
Proof.
  revert x k. induction n as [|n IH]; intros x k; [lia|]. cbn [probe]. rewrite next_offset_cycle.
  intros Hp Hk. destruct (Z.eq_dec k 0) as [->|].
  - rewrite Z.add_0_r. intros ip Hip [H1 H2]. rewrite Hip, H2 in Hp. apply Z.eqb_neq in H1.
    by rewrite H1 in Hp.
  - replace (x + k) with (x + 1 + (k - 1)) by lia. apply IH; [|lia].
    destruct (ip_for_host_offset _ _); [|done]. by destruct (_ && _).
Qed.

(** A search over the whole range fails only if no address of it is free. *)
Lemma probe_all start :
  rs <= start < re -> probe db d rs re (Z.to_nat (re - rs)) start = None ->
  forall offset, rs <= offset < re -> blocked offset.
Proof.
  intros Hs Hp offset Ho.
  replace start with (rs + (start - rs) mod (re - rs)) in Hp by (rewrite Z.mod_small; lia).
  assert (offset = rs + ((start - rs) + (offset - start) mod (re - rs)) mod (re - rs)) as ->.
  { rewrite Z.add_mod_idemp_r by lia. rewrite Z.mod_small by lia. lia. }
  eapply probe_None; [done|]. pose proof (Z.mod_pos_bound (offset - start) (re - rs) ltac:(lia)). lia.
Qed.

Lemma probe_found start offset ip :
  rs <= start < re -> probe db d rs re (Z.to_nat (re - rs)) start = Some (offset, ip) ->
  rs <= offset < re /\ ip_for_host_offset (network_config db) offset = Some ip /\ free db d ip.
Proof.
  intros Hs Hp. replace start with (rs + (start - rs) mod (re - rs)) in Hp by (rewrite Z.mod_small; lia).
  by eapply probe_Some.
Qed.
End Probe.

(** An address of the range of [db]. *)
Definition address_in_range (db : ClientDatabase) (ip : Ipv4Addr) : Prop :=
  exists offset, in_range db offset /\ ip_for_host_offset (network_config db) offset = Some ip.

Section Allocate.
Context (db : ClientDatabase).
Hypothesis Hr : range_ok db.

Lemma next_in_range offset :
  in_range db offset ->
  in_range db (next_offset (allocation_range db).1 (allocation_range db).2 offset).
Proof. unfold in_range, next_offset. destruct Hr. destruct (_ <=? _) eqn:E; wire_lia. Qed.

Lemma allocate_spec d :
  let '(d', result) := allocate_vpn_ip db d in
  clients d' = clients d /\
  match result with
  | Ok ip => address_in_range db ip /\ free db d ip /\ in_range db (next_host_offset d')
  | Err _ => d' = d /\ forall ip, address_in_range db ip -> ~ free db d ip
  | Panic => False
  end.
Proof.
  destruct Hr as [[H1 H2] H3]. pose proof next_in_range as Hn. unfold allocate_vpn_ip, address_in_range, in_range in *.
  destruct (allocation_range db) as [rs re]. cbn [fst snd] in *.
  guard_false. guard_false.
  set (start := if _ || _ then rs else _).
  assert (rs <= start < re) as Hs by (subst start; destruct (_ || _) eqn:E; wire_lia).
  destruct (probe _ _ _ _ _ _) as [[offset ip]|] eqn:E.
  - apply probe_found in E as (Ho & Hip & Hf); [|done|done]. cbn [clients next_host_offset].
    split; [done|]. split; [by exists offset|]. split; [done|by apply Hn].
  - split_and!; [done|done|]. intros ip (offset & Ho & Hip).
    exact (probe_all db d rs re H2 start Hs E offset Ho ip Hip).
Qed.

Lemma reassign_found i d ip :
  deterministic_reassign_offset db i d = Some ip -> address_in_range db ip /\ free db d ip.
Proof.
  destruct Hr as [[H1 H2] H3]. unfold deterministic_reassign_offset, address_in_range, in_range in *.
  destruct (allocation_range db) as [rs re]. cbn [fst snd] in *. guard_false. guard_false.
  pose proof (Z.mod_pos_bound (fnv1a_hash i) (re - rs) ltac:(lia)).
  destruct (probe _ _ _ _ _ _) as [[offset a]|] eqn:E; [|done]. intros [= <-].
  apply probe_found in E as (Ho & Hip & Hf); [|lia|lia]. split; [by exists offset|done].
Qed.

Lemma reassign_None i d ip :
  deterministic_reassign_offset db i d = None -> address_in_range db ip -> ~ free db d ip.
Proof.
  destruct Hr as [[H1 H2] H3]. unfold deterministic_reassign_offset, address_in_range, in_range in *.
  destruct (allocation_range db) as [rs re]. cbn [fst snd] in *. guard_false. guard_false.
  pose proof (Z.mod_pos_bound (fnv1a_hash i) (re - rs) ltac:(lia)).
  destruct (probe _ _ _ _ _ _) as [[offset a]|] eqn:E; [done|]. intros _ (offset & Ho & Hip).
  exact (probe_all db d rs re H2 (rs + fnv1a_hash i mod (re - rs)) ltac:(lia) E offset Ho ip Hip).
Qed.
(** Allocation is exact. It returns an address of the node's own range that no live
    client holds and that is not the server's, whenever there is one, and fails only
    when there is none; it never touches the records, and the cursor stays within the
    range. *)
Theorem allocation_exact d :
  let '(d', result) := allocate_vpn_ip db d in
  clients d' = clients d /\
  match result with
  | Ok ip => address_in_range db ip /\ free db d ip /\ in_range db (next_host_offset d')
  | Err _ => d' = d /\ forall ip, address_in_range db ip -> ~ free db d ip
  | Panic => False
  end.
Proof. apply allocate_spec. Qed.

Lemma allocate_found d d' ip : allocate_vpn_ip db d = (d', Ok ip) ->
  address_in_range db ip /\ free db d ip /\ clients d' = clients d.
Proof. intros E. pose proof (allocate_spec d) as H. rewrite E in H. naive_solver. Qed.
End Allocate.

(** ** Partitions *)

Section Partitions.
Context (max n : Z).
Hypothesis Hn : 1 <= n <= max.
Hypothesis Hmax : max < u32_max.

Lemma partition_start i explicit :
  0 <= i < n -> start_offset (compute_partition_bounds max n i explicit) = 1 + i * (max / n).
Proof.
  intros Hi. unfold compute_partition_bounds, sat_mul32. cbn [start_offset].
  assert (1 <= max / n) by (apply Z.div_le_lower_bound; lia).
  assert (n * (max / n) <= max) by (apply Z.mul_div_le; lia).
  assert ((i + 1) * (max / n) <= n * (max / n)) by (apply Z.mul_le_mono_nonneg_r; lia).
  rewrite (Z.max_l (max / n)) by lia. rewrite (Z.min_r u32_max) by lia. rewrite Z.min_l by lia. lia.
Qed.

Lemma partition_end i explicit :
  0 <= i < n ->
  end_offset (compute_partition_bounds max n i explicit) =
  if i + 1 =? n then max + 1 else 1 + (i + 1) * (max / n).
Proof.
  intros Hi. pose proof (partition_start i explicit Hi) as Hs. unfold compute_partition_bounds in *.
  cbn [start_offset end_offset] in *. rewrite Hs.
  assert (1 <= max / n) by (apply Z.div_le_lower_bound; lia).
  assert (n * (max / n) <= max) by (apply Z.mul_div_le; lia).
  destruct (Z.leb_spec n (i + 1)), (Z.eqb_spec (i + 1) n); [done|lia|lia|].
  assert ((i + 1) * (max / n) <= n * (max / n)) by (apply Z.mul_le_mono_nonneg_r; lia).
  rewrite (Z.max_l (max / n)) by lia. rewrite Z.min_l by lia. lia.
Qed.

(** The offsets of partition [i]. *)
Definition owns (i offset : Z) : Prop :=
  start_offset (compute_partition_bounds max n i false) <= offset <
  end_offset (compute_partition_bounds max n i false).

Lemma owns_inj i j offset : 0 <= i < n -> 0 <= j < n -> owns i offset -> owns j offset -> i = j.
Proof.
  unfold owns. intros Hi Hj. rewrite !partition_start, !partition_end by lia.
  assert (1 <= max / n) by (apply Z.div_le_lower_bound; lia). intros [Hi1 Hi2] [Hj1 Hj2].
  destruct (Z.lt_trichotomy i j) as [Hij|[Hij|Hij]]; [|done|]; exfalso.
  - destruct (Z.eqb_spec (i + 1) n); [lia|].
    assert ((i + 1) * (max / n) <= j * (max / n)) by (apply Z.mul_le_mono_nonneg_r; lia). lia.
  - destruct (Z.eqb_spec (j + 1) n); [lia|].
    assert ((j + 1) * (max / n) <= i * (max / n)) by (apply Z.mul_le_mono_nonneg_r; lia). lia.
Qed.

Lemma owns_cover offset : 1 <= offset <= max -> exists i, 0 <= i < n /\ owns i offset.
Proof.
  intros Ho. set (q := max / n). assert (1 <= q) by (apply Z.div_le_lower_bound; lia).
  exists (Z.min ((offset - 1) / q) (n - 1)).
  assert (0 <= (offset - 1) / q) by (apply Z.div_pos; lia).
  pose proof (Z.mul_div_le (offset - 1) q ltac:(lia)).
  pose proof (Z.mul_succ_div_gt (offset - 1) q ltac:(lia)).
  split; [lia|]. unfold owns. rewrite partition_start, partition_end by lia. fold q.
  destruct (Z.min_spec ((offset - 1) / q) (n - 1)) as [[Hm ->]|[Hm ->]].
  - split; [lia|]. destruct (_ =? _) eqn:E; lia.
  - assert ((n - 1) * q <= (offset - 1) / q * q) by (apply Z.mul_le_mono_nonneg_r; lia).
    split; [lia|]. rewrite Z.sub_add, Z.eqb_refl. lia.
Qed.
End Partitions.

(** The offsets that a database allocates from. *)
Lemma explicit_range db i n :
  subnet_ok (network_config db) -> 1 < n <= max_host_offset (network_config db) -> 0 <= i ->
  let db' := set_node_partition_explicit db i (Some n) in
  network_config db' = network_config db /\
  (forall offset, in_range db' offset <-> owns (max_host_offset (network_config db)) n (i mod n) offset) /\
  range_ok db'.
Proof.
  intros [Hp Hs] Hn Hi. cbv zeta.
  pose proof (max_host_offset_eq (network_config db) Hp) as Hm.
  pose proof (subnet_size_bound (network_config db) Hp) as HB.
  set (max := max_host_offset (network_config db)) in *.
  assert (set_node_partition_explicit db i (Some n) =
    {| data := data db; network_config := network_config db;
       partition := Some (compute_partition_bounds max n (i mod n) true); last_mtime := last_mtime db |}) as ->.
  { unfold set_node_partition_explicit, apply_partition. fold max. cbn [default from_option]. unfold Datatypes.id.
    guard_false. guard_false. guard_false. by rewrite Zmod_mod. }
  pose proof (Z.mod_pos_bound i n ltac:(lia)) as Hb.
  split; [done|]. unfold in_range, range_ok, allocation_range, owns. cbn [partition fst snd network_config]. fold max.
  split; [done|].
  rewrite partition_start, partition_end by (unfold u32_max; lia).
  assert (1 <= max / n) by (apply Z.div_le_lower_bound; lia).
  assert (n * (max / n) <= max) by (apply Z.mul_div_le; lia).
  assert ((i mod n + 1) * (max / n) <= n * (max / n)) by (apply Z.mul_le_mono_nonneg_r; lia).
  destruct (Z.eqb_spec (i mod n + 1) n); split; nia.
Qed.

(** The partition that a database takes from its node id. *)
Lemma default_range db node_id :
  subnet_ok (network_config db) -> range_ok db -> range_ok (set_node_partition db node_id).
Proof.
  intros Hc Hr. unfold set_node_partition. destruct (Z.leb_spec (default_num_partitions db) 1) as [|Hn]; [done|].
  set (n := default_num_partitions db) in *. set (max := max_host_offset (network_config db)).
  assert (n <= max).
  { subst n. revert Hn. unfold default_num_partitions. fold max. destruct (_ <? 2) eqn:E; [lia|]. intros _.
    set (size := Z.min _ _). assert (8 <= size)
      by (unfold size, MIN_PARTITION_SIZE, MAX_PARTITION_SIZE; lia).
    assert (max / size <= max) by (apply Z.div_le_upper_bound; nia). wire_lia. }
  pose proof (Z.mod_pos_bound (fnv1a_hash node_id) n ltac:(lia)) as Hb.
  destruct (explicit_range db (fnv1a_hash node_id mod n) n Hc ltac:(lia) ltac:(lia)) as (_ & _ & Ho).
  revert Ho. unfold set_node_partition_explicit, apply_partition. cbn [default from_option]. unfold Datatypes.id.
  fold max. guard_false. guard_false. guard_false. rewrite Zmod_mod. done.
Qed.

(** The nodes of a pool that took different partitions of one subnet never hand out
    the same address, whatever their databases hold; and the partitions leave no gap:
    every usable address of the subnet belongs to one of them. *)
Theorem partitions_exclusive db1 db2 n :
  subnet_ok (network_config db1) -> network_config db2 = network_config db1 ->
  1 < n <= max_host_offset (network_config db1) ->
  (forall i j d1 d2 ip1 ip2, 0 <= i -> 0 <= j -> i mod n <> j mod n ->
     (allocate_vpn_ip (set_node_partition_explicit db1 i (Some n)) d1).2 = Ok ip1 ->
     (allocate_vpn_ip (set_node_partition_explicit db2 j (Some n)) d2).2 = Ok ip2 -> ip1 <> ip2) /\
  (forall ip, u32_ok ip -> is_usable_host (network_config db1) ip = true ->
     exists i, 0 <= i < n /\ address_in_range (set_node_partition_explicit db1 i (Some n)) ip).
Proof.
  intros Hc E Hn. pose proof Hc as [Hp Hs]. split.
  - intros i j d1 d2 ip1 ip2 Hi Hj Hij H1 H2 ->.
    destruct (explicit_range db1 i n Hc Hn Hi) as (E1 & R1 & O1).
    destruct (explicit_range db2 j n ltac:(by rewrite E) ltac:(by rewrite E) Hj) as (E2 & R2 & O2).
    destruct (allocate_vpn_ip (_ db1 _ _) d1) as [? ?] eqn:A1. cbn [snd] in H1. subst.
    destruct (allocate_vpn_ip (_ db2 _ _) d2) as [? ?] eqn:A2. cbn [snd] in H2. subst.
    apply allocate_found in A1 as ((o1 & Ho1 & I1) & _); [|done].
    apply allocate_found in A2 as ((o2 & Ho2 & I2) & _); [|done].
    apply R1 in Ho1 as Hown1. apply R2 in Ho2 as Hown2. rewrite E in Hown2.
    rewrite E1 in I1. rewrite E2, E in I2. destruct O1 as [? _], O2 as [? _]. unfold in_range in *.
    apply ip_for_host_offset_Some in I1 as [_ ->]; [|done|done|lia].
    apply ip_for_host_offset_Some in I2 as [_ I2]; [|done|done|lia]. assert (o1 = o2) as -> by lia.
    pose proof (max_host_offset_eq _ Hp). pose proof (subnet_size_bound _ Hp).
    apply Hij. eapply owns_inj; [| | | |exact Hown1|exact Hown2]; try (apply Z.mod_pos_bound; lia); unfold u32_max; lia.
  - intros ip Hip Hu. pose proof (max_host_offset_eq _ Hp) as Hm. pose proof (subnet_size_bound _ Hp).
    pose proof (usable_host_iff _ Hp Hs ip Hip) as [Hb _]. destruct (Hb Hu) as [Hq Hb'].
    destruct (owns_cover (max_host_offset (network_config db1)) n ltac:(lia) ltac:(unfold u32_max; lia)
                (ip mod subnet_size (network_config db1)) ltac:(lia)) as (i & Hi & Ho).
    exists i. split; [done|]. destruct (explicit_range db1 i n Hc Hn ltac:(lia)) as (E1 & R1 & _).
    exists (ip mod subnet_size (network_config db1)). split; [apply R1; by rewrite Z.mod_small by lia|].
    rewrite E1. apply ip_for_host_offset_Some; [done..|lia|]. split; [lia|].
    rewrite network_addr_eq, <-Hq by done. apply Z.div_mod. lia.
Qed.

(** ** What the nodes tell one another

    [pool_partition.rs]: a node announces its partition with every beacon, and the node that
    gets it compares the two. *)

Module PartitionCheck.
Inductive t : Type := Ok | IndexConflict (explicit : bool) | SubnetMismatch.
End PartitionCheck.

Definition decode_peer_partition (partition_index partition_size num_partitions : Z) (explicit : bool)
    : option (Z * bool) :=
  if (partition_size =? 0) && (num_partitions <=? 1) then None else Some (partition_index, explicit).

Definition check_partition (local_cidr : bytes) (local_partition : option (Z * bool))
    (peer_cidr : bytes) (peer_partition : option (Z * bool)) : PartitionCheck.t :=
  if negb (bool_decide (local_cidr = peer_cidr)) then PartitionCheck.SubnetMismatch
  else
  match local_partition, peer_partition with
  | Some (local_index, local_explicit), Some (peer_index, peer_explicit) =>
      if local_index =? peer_index then PartitionCheck.IndexConflict (local_explicit || peer_explicit)
      else PartitionCheck.Ok
  | _, _ => PartitionCheck.Ok
  end.

(** The numbers of [PartitionAnnounce], read by the other side. *)
Definition announced (db : ClientDatabase) : option (Z * bool) :=
  let info := default {| pi_partition_index := 0; pi_partition_size := 0; pi_num_partitions := 1; pi_explicit := false |}
                (partition_info db) in
  decode_peer_partition (pi_partition_index info) (pi_partition_size info) (pi_num_partitions info) (pi_explicit info).

(** The check that a node makes when a peer announces itself. *)
Definition hears_partition (cidr : bytes) (db peer : ClientDatabase) : PartitionCheck.t :=
  check_partition cidr ((fun info => (pi_partition_index info, pi_explicit info)) <$> partition_info db)
    cidr (announced peer).

Lemma explicit_info db i n :
  1 < n <= max_host_offset (network_config db) -> 0 <= i ->
  exists size, partition_info (set_node_partition_explicit db i (Some n)) =
    Some {| pi_partition_index := i mod n; pi_partition_size := size; pi_num_partitions := n; pi_explicit := true |}.
Proof.
  intros Hn Hi. unfold set_node_partition_explicit, apply_partition. cbn [default from_option]. unfold Datatypes.id.
  guard_false. guard_false. guard_false. unfold partition_info. cbn. rewrite Zmod_mod. by eexists.
Qed.

(** A warning is exact among nodes that cut the subnet into equally many partitions. *)
Lemma hears_conflict cidr db peer i j n :
  network_config peer = network_config db -> 1 < n <= max_host_offset (network_config db) -> 0 <= i -> 0 <= j ->
  hears_partition cidr (set_node_partition_explicit db i (Some n)) (set_node_partition_explicit peer j (Some n)) =
  if i mod n =? j mod n then PartitionCheck.IndexConflict true else PartitionCheck.Ok.
Proof.
  intros E Hn Hi Hj. unfold hears_partition, announced.
  destruct (explicit_info db i n Hn Hi) as [si ->]. destruct (explicit_info peer j n ltac:(by rewrite E) Hj) as [sj ->].
  cbn [fmap option_fmap option_map default from_option]. unfold Datatypes.id.
  cbn [pi_partition_index pi_explicit pi_partition_size pi_num_partitions]. unfold decode_peer_partition. rewrite (proj2 (Z.leb_gt n 1)) by lia. rewrite andb_false_r.
  unfold check_partition. by rewrite bool_decide_eq_true_2.
Qed.

(** ** Room

    A range with more addresses than the database has records, the server's own
    address set aside, has a free one. *)

Definition roomy (db : ClientDatabase) (n : nat) : Prop :=
  Z.of_nat n + 1 < (allocation_range db).2 - (allocation_range db).1.

Lemma room_free db d :
  subnet_ok (network_config db) -> range_ok db -> roomy db (length (clients d)) ->
  exists ip, address_in_range db ip /\ free db d ip.
Proof.
  intros [Hp Hs] [[H1 H2] H3] Hroom.
  set (addr o := network_addr (network_config db) + o).
  set (all := addr <$> seqZ (allocation_range db).1 ((allocation_range db).2 - (allocation_range db).1)).
  set (taken := v_server_vpn_ip (network_config db) :: (vpn_ip <$> clients d)).
  assert (NoDup all) as Hnd by (apply NoDup_fmap_2; [intros ?? E; unfold addr in E; lia|apply NoDup_seqZ]).
  destruct (decide (Forall (.∈ taken) all)) as [Hsub|Hsub].
  { rewrite Forall_forall in Hsub. apply NoDup_submseteq, submseteq_length in Hsub; [|done].
    unfold all, taken, roomy in *. rewrite length_cons, !length_fmap, length_seqZ in Hsub. lia. }
  assert (exists ip, ip ∈ all /\ ip ∉ taken) as (ip & Hin & Hno).
  { apply not_Forall_Exists in Hsub as (x & Hx & Hn)%Exists_exists; [|apply _]. by exists x. }
  unfold all in Hin. apply list_elem_of_fmap in Hin as (o & -> & Ho). apply elem_of_seqZ in Ho.
  exists (addr o). split.
  - exists o. split; [unfold in_range; lia|]. apply ip_for_host_offset_Some; [done..|lia|].
    rewrite max_host_offset_eq in H3 by done. split; [lia|done].
  - unfold taken in Hno. apply not_elem_of_cons in Hno as [Hn1 Hn2]. split; [done|].
    apply held_false. intros c Hc _ E. apply Hn2. rewrite <-E. by apply list_elem_of_fmap_2.
Qed.

Lemma reassign_room db i d :
  subnet_ok (network_config db) -> range_ok db -> roomy db (length (clients d)) ->
  is_Some (deterministic_reassign_offset db i d).
Proof.
  intros Hc Hr Hroom. destruct (deterministic_reassign_offset db i d) eqn:E; [done|].
  destruct (room_free db d Hc Hr Hroom) as (ip & Hin & Hf). by destruct (reassign_None db Hr i d ip E Hin).
Qed.
