(* ===== verification/ClientStore.v ===== *)
(** * Transactions on the database of clients

    The invariant of [client_db]: ids are unique, no two live clients hold one address
    and none holds the server's. Every call keeps it, the merge of whatever another
    node sends included. A transaction commits as a whole or leaves the file alone,
    and loses no record that another process wrote; a revocation lasts. *)

From S2P Require Import Prelude Collections Text Utf8 IpAddr NetworkConfig Crypto ClientDb ClientAddr.
Local Open Scope Z_scope.

(** ** Updates of one record *)

Lemma elem_of_update_first {A} (p : A -> bool) f l x :
  x ∈ update_first p f l -> x ∈ l \/ exists y, y ∈ l /\ p y = true /\ x = f y.
Proof.
  induction l as [|y l IH]; [by left|]. cbn [update_first]. destruct (p y) eqn:E.
  - intros [->|?]%elem_of_cons; [|left; by right]. right. exists y. split; [by left|done].
  - intros [->|[?|(z & ? & ?)]%IH]%elem_of_cons; [by left; left|by left; right|].
    right. exists z. split; [by right|done].
Qed.

Lemma update_first_map {A B} (g : A -> B) (p : A -> bool) f l :
  (forall x, x ∈ l -> p x = true -> g (f x) = g x) -> map g (update_first p f l) = map g l.
Proof.
  induction l as [|x l IH]; [done|]. intros Hg. cbn [update_first map].
  destruct (p x) eqn:E; cbn [map]; [rewrite Hg; [done|by left|done]|].
  rewrite IH; [done|]. intros y Hy. apply Hg. by right.
Qed.

Lemma update_first_in {A} (p : A -> bool) f l x :
  find p l = Some x -> f x ∈ update_first p f l.
Proof.
  induction l as [|y l IH]; [done|]. cbn [find update_first]. destruct (p y).
  - intros [= ->]. by left.
  - intros H. right. by apply IH.
Qed.

Lemma update_first_other {A} (p : A -> bool) f l x :
  x ∈ l -> p x = false -> x ∈ update_first p f l.
Proof.
  induction 1 as [x l|x y l H IH]; intros Hp; cbn [update_first].
  - rewrite Hp. by left.
  - destruct (p y); right; auto.
Qed.

Lemma find_elem {A} (p : A -> bool) l x : find p l = Some x -> x ∈ l /\ p x = true.
Proof. intros H. apply find_some in H as [H1 H2]. by apply list_elem_of_In in H1. Qed.

Lemma find_None_iff {A} (p : A -> bool) l : find p l = None <-> forall x, x ∈ l -> p x = false.
Proof.
  split; [intros H x Hx; by apply (find_none _ _ H), list_elem_of_In|].
  induction l as [|y l IH]; [done|]. intros H. cbn [find]. rewrite (H y) by left.
  apply IH. intros x Hx. apply H. by right.
Qed.

Lemma has_id_true i c : has_id i c = true <-> id c = i.
Proof. apply bool_decide_eq_true. Qed.

Lemma has_id_false i c : has_id i c = false <-> id c <> i.
Proof. apply bool_decide_eq_false. Qed.

Lemma live_id_true i c : live_id i c = true <-> id c = i /\ deleted c = false.
Proof. unfold live_id. rewrite andb_true_iff, has_id_true, negb_true_iff. done. Qed.

(** ** The invariant *)

Definition apart (a b : ClientConfig) : Prop :=
  id a <> id b /\ (deleted a = false -> deleted b = false -> vpn_ip a <> vpn_ip b).

Lemma apart_sym a b : apart a b -> apart b a.
Proof. unfold apart. intros [Hi Hv]. split; [congruence|]. intros Db Da E. by apply Hv. Qed.

Record records_ok (cfg : VpnNetworkConfig) (l : list ClientConfig) : Prop := {
  ok_apart : ForallOrdPairs apart l;
  ok_server : forall c, c ∈ l -> deleted c = false -> vpn_ip c <> v_server_vpn_ip cfg;
}.

Lemma fop_elem {A} (R : A -> A -> Prop) l x y :
  (forall a b, R a b -> R b a) -> ForallOrdPairs R l -> x ∈ l -> y ∈ l -> x = y \/ R x y.
Proof.
  intros Hs. induction 1 as [|z l Hz Hl IH]; [by intros ?%elem_of_nil|].
  rewrite List.Forall_forall in Hz. setoid_rewrite <-list_elem_of_In in Hz.
  intros [->|Hx]%elem_of_cons [->|Hy]%elem_of_cons; auto.
Qed.

(** Records with one id, or live ones with one address, are the same record. *)
Lemma same_id cfg l a b : records_ok cfg l -> a ∈ l -> b ∈ l -> id a = id b -> a = b.
Proof.
  intros [H _] Ha Hb E. destruct (fop_elem _ _ a b apart_sym H Ha Hb) as [?|[? _]]; [done|congruence].
Qed.

Lemma same_ip cfg l a b :
  records_ok cfg l -> a ∈ l -> b ∈ l -> deleted a = false -> deleted b = false -> vpn_ip a = vpn_ip b -> a = b.
Proof.
  intros [H _] Ha Hb Da Db E.
  destruct (fop_elem _ _ a b apart_sym H Ha Hb) as [?|[_ Hn]]; [done|by destruct (Hn Da Db)].
Qed.

Lemma fop_filter {A} (R : A -> A -> Prop) (P : A -> Prop) `{!forall x, Decision (P x)} l :
  ForallOrdPairs R l -> ForallOrdPairs R (filter P l).
Proof.
  induction 1 as [|x l Hx Hl IH]; [constructor|]. rewrite filter_cons. case_decide; [|done].
  constructor; [|done]. apply List.Forall_forall. intros y Hy. apply list_elem_of_In in Hy.
  apply list_elem_of_filter in Hy as [_ Hy].
  rewrite List.Forall_forall in Hx. apply Hx. by apply list_elem_of_In.
Qed.

Lemma fop_snoc {A} (R : A -> A -> Prop) l x :
  ForallOrdPairs R l -> (forall y, y ∈ l -> R y x) -> ForallOrdPairs R (l ++ [x]).
Proof.
  induction 1 as [|y l Hy Hl IH]; intros H; [by repeat constructor|]. cbn. constructor.
  - apply List.Forall_app. split; [done|]. constructor; [apply H; by left|constructor].
  - apply IH. intros z Hz. apply H. by right.
Qed.

Lemma fop_update {A} (R : A -> A -> Prop) (p : A -> bool) f l :
  (forall a b, R a b -> R b a) -> ForallOrdPairs R l ->
  (forall a b, a ∈ l -> b ∈ l -> p a = true -> R a b -> R (f a) b) ->
  ForallOrdPairs R (update_first p f l).
Proof.
  intros Hs. induction 1 as [|x l Hx Hl IH]; intros Hf; [constructor|]. cbn [update_first].
  rewrite List.Forall_forall in Hx. setoid_rewrite <-list_elem_of_In in Hx.
  destruct (p x) eqn:E; constructor; [|done| |].
  - apply List.Forall_forall. intros y Hy. apply list_elem_of_In in Hy.
    apply Hf; [by left|by right|done|by apply Hx].
  - apply List.Forall_forall. intros y Hy. apply list_elem_of_In in Hy.
    apply elem_of_update_first in Hy as [Hy|(z & Hz & Hp & ->)]; [by apply Hx|].
    apply Hs, Hf; [by right|by left|done|by apply Hs, Hx].
  - apply IH. intros a b Ha Hb. apply Hf; by right.
Qed.

Section Records.
Context (cfg : VpnNetworkConfig).

(** A change that keeps id and address and revives nobody. *)
Lemma records_update p f l :
  (forall c, id (f c) = id c /\ vpn_ip (f c) = vpn_ip c /\ (deleted (f c) = false -> deleted c = false)) ->
  records_ok cfg l -> records_ok cfg (update_first p f l).
Proof.
  intros Hf [Ha Hs]. constructor.
  - apply fop_update; [apply apart_sym|done|]. intros a b _ _ _ [Hi Hv].
    destruct (Hf a) as (Ei & Ev & Ed). split; [congruence|]. rewrite Ev. auto.
  - intros c [Hc|(a & Hin & _ & ->)]%elem_of_update_first; [auto|].
    destruct (Hf a) as (_ & Ev & Ed). rewrite Ev. auto.
Qed.

Lemma records_filter (P : ClientConfig -> Prop) `{!forall x, Decision (P x)} l :
  records_ok cfg l -> records_ok cfg (filter P l).
Proof.
  intros [Ha Hs]. constructor; [by apply fop_filter|].
  intros c [_ Hc]%list_elem_of_filter. auto.
Qed.

Lemma records_push c l :
  records_ok cfg l -> (forall y, y ∈ l -> id y <> id c) ->
  (deleted c = false -> vpn_ip c <> v_server_vpn_ip cfg /\
     forall y, y ∈ l -> deleted y = false -> vpn_ip y <> vpn_ip c) ->
  records_ok cfg (l ++ [c]).
Proof.
  intros [Ha Hs] Hi Hv. constructor.
  - apply fop_snoc; [done|]. intros y Hy. split; [by apply Hi|]. intros Dy Dc. by apply Hv.
  - intros y [Hy|Hy%list_elem_of_singleton]%elem_of_app Dy; [auto|subst; by apply Hv].
Qed.

Lemma records_rehome p ip l :
  records_ok cfg l -> ip <> v_server_vpn_ip cfg ->
  (forall y, y ∈ l -> deleted y = false -> vpn_ip y <> ip) ->
  records_ok cfg (update_first p (set_vpn_ip ip) l).
Proof.
  intros [Ha Hs] Hip Hfree. constructor.
  - apply fop_update; [apply apart_sym|done|]. intros a b _ Hb _ [Hi _]. split; [done|].
    cbn. intros _ Db E. by apply (Hfree b).
  - intros c [Hc|(a & _ & _ & ->)]%elem_of_update_first Dc; [auto|done].
Qed.
End Records.

(** Where at most one record matches, every other record is one that does not. *)
Lemma elem_of_update_unique {A} (R : A -> A -> Prop) (p : A -> bool) f l x :
  ForallOrdPairs R l -> (forall a b, p a = true -> p b = true -> ~ R a b) ->
  x ∈ update_first p f l -> (x ∈ l /\ p x = false) \/ exists y, y ∈ l /\ p y = true /\ x = f y.
Proof.
  intros H Hp. induction H as [|y l Hy Hl IH]; [by intros ?%elem_of_nil|]. cbn [update_first].
  rewrite List.Forall_forall in Hy. setoid_rewrite <-list_elem_of_In in Hy. destruct (p y) eqn:E.
  - intros [->|Hx]%elem_of_cons; [right; exists y; split; [by left|done]|].
    left. split; [by right|]. destruct (p x) eqn:F; [|done]. destruct (Hp y x E F). by apply Hy.
  - intros [->|[[? ?]|(z & ? & ?)]%IH]%elem_of_cons; [left; split; [by left|done]|left; split; [by right|done]|].
    right. exists z. split; [by right|done].
Qed.

Lemma has_id_unique i a b : has_id i a = true -> has_id i b = true -> ~ apart a b.
Proof. intros Ha%has_id_true Hb%has_id_true [H _]. congruence. Qed.

Lemma conflicts_true inc c :
  conflicts inc c = true <-> vpn_ip c = vpn_ip inc /\ id c <> id inc /\ deleted c = false.
Proof.
  unfold conflicts. rewrite !andb_true_iff, Z.eqb_eq, !negb_true_iff, has_id_false. tauto.
Qed.

Lemma conflicts_unique inc a b : conflicts inc a = true -> conflicts inc b = true -> ~ apart a b.
Proof. intros (Ea & _ & Da)%conflicts_true (Eb & _ & Db)%conflicts_true [_ H]. apply H; congruence. Qed.

Section MergeOk.
Context {PR : Primitives} {SD : Serde} (db : ClientDatabase).
Abbreviation cfg := (network_config db).

Lemma reassign_free i d ip :
  range_ok db -> deterministic_reassign_offset db i d = Some ip ->
  ip <> v_server_vpn_ip cfg /\ forall y, y ∈ clients d -> deleted y = false -> vpn_ip y <> ip.
Proof. intros Hr [_ [H1 H2]]%reassign_found; [|done]. by rewrite held_false in H2. Qed.

Lemma merge_new_ok inc d d' :
  range_ok db -> records_ok cfg (clients d) -> (forall y, y ∈ clients d -> id y <> id inc) ->
  vpn_ip inc <> v_server_vpn_ip cfg ->
  merge_new db inc d = Some d' -> records_ok cfg (clients d').
Proof.
  intros Hr Hok Hid Hip. unfold merge_new.
  destruct (find (conflicts inc) (clients d)) as [r|] eqn:E.
  - apply find_elem in E as [Hin Hc]. pose proof Hc as (Er & _ & Dr)%conflicts_true.
    destruct (earlier inc r); destruct (deterministic_reassign_offset _ _ _) as [ip|] eqn:F; try done;
      apply reassign_free in F as [F1 F2]; [|done| |done]; intros [= <-]; cbn [push clients with_clients].
    + apply records_push; [by apply records_rehome| |].
      * intros y [Hy|(z & Hz & _ & ->)]%elem_of_update_first; [by apply Hid|exact (Hid z Hz)].
      * intros _. split; [done|]. intros y Hy Dy.
        apply (elem_of_update_unique apart) in Hy as [[Hy Hn]|(z & Hz & _ & ->)];
          [| |apply Hok|apply conflicts_unique].
        -- intros Ey. apply not_true_iff_false in Hn. apply Hn, conflicts_true. auto.
        -- cbn. intros Ez. apply (F2 r Hin Dr). congruence.
    + apply records_push; [done|done|]. cbn. auto.
  - intros [= <-]. cbn [push clients with_clients]. rewrite find_None_iff in E.
    apply records_push; [done|done|]. intros _. split; [done|]. intros y Hy Dy Ey.
    specialize (E y Hy). apply not_true_iff_false in E. apply E, conflicts_true. auto.
Qed.

Lemma merge_one_ok inc d d' :
  range_ok db -> records_ok cfg (clients d) -> merge_one db inc d = Some d' -> records_ok cfg (clients d').
Proof.
  intros Hr Hok. unfold merge_one. destruct (find (has_id (id inc)) (clients d)) as [e|] eqn:E.
  - destruct (_ && _) eqn:F; [|done]. intros [= <-]. cbn [with_clients clients].
    apply andb_true_iff in F as [_ F]. apply find_elem in E as [He Hid].
    assert (forall a, a ∈ clients d -> has_id (id inc) a = true -> a = e) as Hone.
    { intros a Hin Hp. apply has_id_true in Hid, Hp. eapply same_id; [done..|congruence]. }
    destruct Hok as [Ha Hs]. constructor.
    + apply fop_update; [apply apart_sym|done|]. intros a b Hin _ Hp [Hi Hv].
      rewrite (Hone a Hin Hp) in *.
      split; [exact Hi|]. cbn. intros Di. apply Hv. unfold incoming_wins in F. rewrite Di in F. by destruct (deleted e).
    + intros c [Hc|(a & Hin & Hp & ->)]%elem_of_update_first Dc; [auto|].
      rewrite (Hone a Hin Hp) in *.
      apply (Hs e); [done|]. cbn in Dc. unfold incoming_wins in F. rewrite Dc in F. by destruct (deleted e).
  - rewrite find_None_iff in E.
    assert (forall y, y ∈ clients d -> id y <> id inc) as Hid by (intros y Hy; by apply has_id_false, E).
    destruct (deleted inc) eqn:Di.
    { intros [= <-]. apply records_push; [done|done|congruence]. }
    destruct (Z.eqb_spec (vpn_ip inc) (v_server_vpn_ip cfg)).
    + destruct (deterministic_reassign_offset _ _ _) as [ip|] eqn:F; [|done].
      apply reassign_free in F as [F1 F2]; [|done]. by apply merge_new_ok.
    + by apply merge_new_ok.
Qed.

Lemma merge_loop_ok incoming d n :
  range_ok db -> records_ok cfg (clients d) -> records_ok cfg (clients (merge_loop db incoming d n).1).
Proof.
  intros Hr. revert d n. induction incoming as [|inc l IH]; intros d n Hok; [done|]. cbn [merge_loop].
  destruct (merge_one db inc d) as [d'|] eqn:E; [|by apply IH]. apply IH. by eapply merge_one_ok.
Qed.

Lemma merge_records_ok incoming now d :
  range_ok db -> records_ok cfg (clients d) -> records_ok cfg (clients (merge_records db incoming now d).1).
Proof.
  intros Hr Hok. unfold merge_records. pose proof (merge_loop_ok incoming d 0 Hr Hok) as H.
  destruct (merge_loop _ _ _ _). by apply records_filter.
Qed.
End MergeOk.

(** ** What the file holds and what memory holds *)

Definition same_but_stats (a b : ClientConfig) : Prop := set_stats no_stats a = set_stats no_stats b.

#[export] Instance same_but_stats_equiv : Equivalence same_but_stats.
Proof. split; [done|intros ?? H; by symmetry in H|intros ??? H1 H2; unfold same_but_stats in *; congruence]. Qed.

Lemma same_fields a b : same_but_stats a b ->
  id a = id b /\ vpn_ip a = vpn_ip b /\ deleted a = deleted b /\ updated_at a = updated_at b.
Proof. unfold same_but_stats, set_stats. intros H. by inversion H. Qed.

Lemma same_role a b : same_but_stats a b -> role a = role b.
Proof. unfold same_but_stats, set_stats. intros H. by inversion H. Qed.

Lemma same_set_stats s a : same_but_stats (set_stats s a) a.
Proof. done. Qed.

(** Every record of [mem] is one of [l], counters aside. *)
Definition mirrors (mem l : list ClientConfig) : Prop :=
  NoDup (map id mem) /\ forall m, m ∈ mem -> exists c, c ∈ l /\ same_but_stats m c.

Lemma fop_NoDup l : ForallOrdPairs apart l -> NoDup (map id l).
Proof.
  induction 1 as [|x l Hx Hl IH]; [constructor|]. cbn. constructor; [|done].
  intros (y & E & Hy)%list_elem_of_fmap. rewrite List.Forall_forall in Hx.
  apply list_elem_of_In in Hy. by destruct (Hx y Hy).
Qed.

Lemma mirrors_refl l : NoDup (map id l) -> mirrors l l.
Proof. intros H. split; [done|]. intros m Hm. by exists m. Qed.

Lemma mirrors_filter (P : ClientConfig -> Prop) `{!forall x, Decision (P x)} mem l :
  mirrors mem l -> mirrors (filter P mem) l.
Proof.
  intros [Hn Hm]. split; [|intros m [_ Hin]%list_elem_of_filter; auto]. clear Hm.
  induction mem as [|m mem IH]; [done|]. cbn in Hn. apply NoDup_cons in Hn as [Hm Hn].
  rewrite filter_cons. case_decide; [|auto]. cbn. constructor; [|auto].
  intros (y & E & [_ Hy]%list_elem_of_filter)%list_elem_of_fmap. apply Hm. rewrite E.
  by apply (list_elem_of_fmap_2 id).
Qed.

Lemma mirrors_ok cfg mem l : records_ok cfg l -> mirrors mem l -> records_ok cfg mem.
Proof.
  intros Hok [Hn Hm]. constructor.
  - assert (forall a b, a ∈ mem -> b ∈ mem -> id a <> id b -> apart a b) as Hap.
    { intros a b Ha Hb Hi. split; [done|]. intros Da Db Ev.
      destruct (Hm a Ha) as (a' & Ha' & Ea), (Hm b Hb) as (b' & Hb' & Eb).
      apply same_fields in Ea as (Ia & Va & Xa & _), Eb as (Ib & Vb & Xb & _).
      apply Hi. rewrite Ia, Ib. f_equal. eapply (same_ip cfg); [done..|congruence|congruence|congruence]. }
    clear Hm. induction mem as [|m mem IH]; [constructor|]. cbn in Hn. apply NoDup_cons in Hn as [Hx Hn].
    constructor; [|apply IH; [done|]; intros a b Ha Hb; apply Hap; by right].
    apply List.Forall_forall. intros y Hy. apply list_elem_of_In in Hy.
    apply Hap; [by left|by right|]. intros E. apply Hx. rewrite E. by apply (list_elem_of_fmap_2 id).
  - intros m Hin Dm. destruct (Hm m Hin) as (c & Hc & (_ & Ev & Ed & _)%same_fields). rewrite Ev.
    apply Hok; congruence.
Qed.

Section Absorb.
Context {PR : Primitives} {SD : Serde}.

Lemma absorb_same m c : same_but_stats m c -> same_but_stats (absorb_one_client m c) c.
Proof. intros H. unfold absorb_one_client. case_match; rewrite same_set_stats; [done|exact H]. Qed.

Lemma existsb_id i l : existsb (has_id i) l = true <-> i ∈ map id l.
Proof.
  rewrite existsb_exists. rewrite list_elem_of_fmap. setoid_rewrite <-list_elem_of_In.
  setoid_rewrite has_id_true. naive_solver.
Qed.

Section Step.
Context (cfg : VpnNetworkConfig) (l : list ClientConfig) (c : ClientConfig) (mem : list ClientConfig).
Hypothesis Hok : records_ok cfg l.
Hypothesis Hc : c ∈ l.
Hypothesis Hm : mirrors mem l.

Lemma mirror_of m : m ∈ mem -> has_id (id c) m = true -> same_but_stats m c.
Proof.
  intros Hin Hi%has_id_true. destruct Hm as [_ Hp], (Hp m Hin) as (c' & Hc' & E).
  pose proof E as (Ei & _)%same_fields. by assert (c' = c) as -> by (eapply same_id; [done..|congruence]).
Qed.

Lemma absorb_found y : y ∈ mem -> has_id (id c) y = true ->
  exists m, m ∈ update_first (has_id (id c)) (fun m => absorb_one_client m c) mem /\ same_but_stats m c.
Proof.
  intros Hy Hi. destruct (find (has_id (id c)) mem) as [z|] eqn:F.
  - exists (absorb_one_client z c). split; [by apply (update_first_in _ (fun m => absorb_one_client m c))|].
    apply find_elem in F as [Hz Fz]. by apply absorb_same, mirror_of.
  - rewrite find_None_iff in F. by rewrite F in Hi.
Qed.

Lemma absorb_step :
  let mem' := if existsb (has_id (id c)) mem
              then update_first (has_id (id c)) (fun m => absorb_one_client m c) mem else mem ++ [c] in
  mirrors mem' l /\ (forall m, m ∈ mem -> exists m', m' ∈ mem' /\ same_but_stats m' m) /\
  exists m, m ∈ mem' /\ same_but_stats m c.
Proof.
  destruct Hm as [Hn Hp]. cbv zeta. destruct (existsb (has_id (id c)) mem) eqn:E.
  - split; [split|split].
    + rewrite update_first_map; [done|]. intros m Hin Hi.
      pose proof (absorb_same m c (mirror_of m Hin Hi)) as (F & _)%same_fields.
      apply has_id_true in Hi. congruence.
    + intros m [Hin|(y & Hin & Hy & ->)]%elem_of_update_first; [auto|]. exists c.
      split; [done|]. by apply absorb_same, mirror_of.
    + intros m Hin. destruct (has_id (id c) m) eqn:Hi; [|exists m; split; [by apply update_first_other|done]].
      destruct (absorb_found m Hin Hi) as (y & Hy & Ey). exists y. split; [done|].
      by rewrite Ey, (mirror_of m Hin Hi).
    + apply existsb_exists in E as (y & Hy & Hi). apply list_elem_of_In in Hy. by eapply absorb_found.
  - split; [split|split].
    + rewrite map_app. cbn. apply NoDup_app. split; [done|]. split; [|apply NoDup_singleton].
      intros i Hi ->%list_elem_of_singleton. apply not_true_iff_false in E. by apply E, existsb_id.
    + intros m [Hin|Hin%list_elem_of_singleton]%elem_of_app; [auto|subst; by exists c].
    + intros m Hin. exists m. split; [apply elem_of_app; by left|done].
    + exists c. split; [apply elem_of_app; right; by left|done].
Qed.
End Step.

Lemma absorb_loop cfg l l' mem :
  records_ok cfg l -> (forall c, c ∈ l' -> c ∈ l) -> mirrors mem l ->
  mirrors (absorb_all l' mem) l /\
  (forall m, m ∈ mem -> exists m', m' ∈ absorb_all l' mem /\ same_but_stats m' m) /\
  forall c, c ∈ l' -> exists m, m ∈ absorb_all l' mem /\ same_but_stats m c.
Proof.
  intros Hok. revert mem. induction l' as [|c l' IH]; intros mem Hsub Hm.
  { split; [done|]. split; [|by intros c ?%elem_of_nil]. intros m Hin. by exists m. }
  cbn [absorb_all]. pose proof (absorb_step cfg l c mem Hok ltac:(apply Hsub; by left) Hm) as Hstep.
  cbv zeta in Hstep. set (mem' := if existsb _ _ then _ else _) in *. destruct Hstep as (Hm' & Hk & Hc).
  destruct (IH mem' ltac:(intros x Hx; apply Hsub; by right) Hm') as (H1 & H2 & H3).
  assert (forall m c', m ∈ mem' -> same_but_stats m c' ->
    exists m', m' ∈ absorb_all l' mem' /\ same_but_stats m' c') as Hstep.
  { intros m c' Hin E. destruct (H2 m Hin) as (m2 & Hin2 & E2). exists m2. split; [done|]. by rewrite E2. }
  split; [done|]. split.
  - intros m Hin. destruct (Hk m Hin) as (m' & Hin' & E'). by eapply Hstep.
  - intros x [->|Hx]%elem_of_cons; [|by apply H3]. destruct Hc as (m & Hin & Em). by eapply Hstep.
Qed.

(** Memory that mirrors the file becomes the file, counters aside. *)
Lemma absorb_mirrors cfg l mem :
  records_ok cfg l -> mirrors mem l ->
  mirrors (absorb_all l mem) l /\ forall c, c ∈ l -> exists m, m ∈ absorb_all l mem /\ same_but_stats m c.
Proof. intros Hok Hm. by destruct (absorb_loop cfg l l mem Hok ltac:(done) Hm) as (H1 & _ & H2). Qed.
End Absorb.

(** ** Transactions *)

Section Transactions.
Context {PR : Primitives} {SD : Serde}.

(** The database that the file holds; none if the file is malformed. *)
Definition stored (disk : option File) : option ClientDbFile :=
  match disk with
  | None => Some default_db
  | Some f => if bool_decide (trim (text f) = []) then Some default_db else db_from_str (text f)
  end.

Lemma snapshot_stored sys disk s :
  read_disk_snapshot sys disk = Ok s -> stored disk = Some (default default_db s).
Proof.
  unfold read_disk_snapshot, read_db_text, stored. destruct (read_ok sys); [|done].
  destruct disk as [f|]; cbn [obind fmap option_fmap option_map]; [|by intros [= <-]].
  destruct (bool_decide _); [by intros [= <-]|]. destruct (db_from_str _); [|done]. by intros [= <-].
Qed.

Lemma snapshot_no_panic sys disk : read_disk_snapshot sys disk <> Panic.
Proof.
  unfold read_disk_snapshot, read_db_text. destruct (read_ok sys); [|done]. cbn [obind].
  destruct (text <$> disk); [|done]. destruct (bool_decide _); [done|]. by destruct (db_from_str _).
Qed.

Lemma absorb_Ok sys disk d d' changed :
  absorb_disk_locked sys disk d = Ok (d', changed) ->
  exists d0, stored disk = Some d0 /\
    clients d' = reap_expired_tombstones (now sys) (absorb_all (clients d0) (clients d)).
Proof.
  unfold absorb_disk_locked. intros (s & Hs & E)%obind_Ok. apply snapshot_stored in Hs.
  eexists. split; [done|]. injection E as <- _. by destruct s.
Qed.

Lemma absorb_no_panic sys disk d : absorb_disk_locked sys disk d <> Panic.
Proof.
  unfold absorb_disk_locked. pose proof (snapshot_no_panic sys disk).
  by destruct (read_disk_snapshot sys disk).
Qed.

Lemma write_no_panic sys d disk : write_snapshot_locked sys d disk <> Panic.
Proof.
  unfold write_snapshot_locked, read_db_text. destruct (db_to_string_pretty d); [|done]. cbn [ok_or obind].
  destruct (read_ok sys); [|done]. cbn [obind]. repeat (case_match; try done).
Qed.

Lemma write_Ok {SL : SerdeLaws} sys d disk disk' :
  write_snapshot_locked sys d disk = Ok disk' -> stored disk' = Some d.
Proof.
  unfold write_snapshot_locked. destruct (db_to_string_pretty d) as [content|] eqn:E; [|done].
  apply db_from_to in E as [Ef Et]. cbn [ok_or obind]. unfold read_db_text.
  destruct (read_ok sys); [|done]. cbn [obind]. set (write := if write_ok sys then _ else _).
  assert (forall disk', write = Ok disk' -> stored disk' = Some d) as Hw.
  { intros x. subst write. destruct (write_ok sys); [|done]. intros [= <-]. cbn [stored text].
    by rewrite bool_decide_eq_false_2. }
  destruct disk as [f|]; cbn [fmap option_fmap option_map]; [|by apply Hw].
  destruct (bool_decide (trim (text f) = [])) eqn:F; [by apply Hw|].
  destruct (db_from_str (text f)) eqn:G; [|done].
  destruct (bool_decide (text f = content)) eqn:K; [|by apply Hw]. intros [= <-].
  apply bool_decide_eq_true in K. cbn [stored]. by rewrite F, K, Ef.
Qed.

(** A transaction either commits, and then the file holds what memory holds and the body
    ran on the absorbed file, or it leaves the file as it was, with memory at what was
    absorbed, counters aside, or untouched. *)
Lemma transaction_cases {SL : SerdeLaws} {R} (f : ClientDatabase -> method ClientDbFile R) sys h h' r :
  with_mutation f sys h = (h', r) -> (forall d, (f (db h) d).2 <> Panic) ->
  network_config (db h') = network_config (db h) /\ partition (db h') = partition (db h) /\
  match r with
  | Ok x => exists d0 rollback, stored (disk h) = Some d0 /\
      clients rollback = reap_expired_tombstones (now sys) (absorb_all (clients d0) (clients (data (db h)))) /\
      f (db h) rollback = (data (db h'), Ok x) /\ stored (disk h') = Some (data (db h'))
  | Err _ => disk h' = disk h /\
      (data (db h') = data (db h) \/
       exists d0, stored (disk h) = Some d0 /\
         Forall2 same_but_stats (clients (data (db h')))
           (reap_expired_tombstones (now sys) (absorb_all (clients d0) (clients (data (db h))))))
  | Panic => False
  end.
Proof.
  intros E Hp. unfold with_mutation in E. destruct (lock_ok sys); cbn [negb] in E;
    [|injection E as <- <-; by auto].
  pose proof (absorb_no_panic sys (disk h) (data (db h))) as Ha.
  destruct (absorb_disk_locked _ _ _) as [[rollback b]| |] eqn:A; [|injection E as <- <-; by auto|done].
  apply absorb_Ok in A as (d0 & Hd0 & Hr).
  assert (forall d, Forall2 same_but_stats (clients (restore_preserving_traffic d rollback)) (clients rollback)) as Hrest.
  { intros d. cbn [restore_preserving_traffic with_clients clients]. apply Forall2_fmap_l, Forall_Forall2_diag.
    apply Forall_forall. intros c _. unfold compose. by destruct (find _ _). }
  rewrite Hr in Hrest. specialize (Hp rollback).
  destruct (f (db h) rollback) as [d [x|e|]] eqn:F; [| |done].
  - pose proof (write_no_panic sys d (disk h)) as Hw.
    destruct (write_snapshot_locked sys d (disk h)) as [disk'| |] eqn:W; [| |done]; injection E as <- <-.
    + apply write_Ok in W. split; [done|]. split; [done|]. exists d0, rollback. cbn. auto.
    + split; [done|]. split; [done|]. split; [done|]. right. exists d0. split; [done|apply Hrest].
  - injection E as <- <-. split; [done|]. split; [done|]. split; [done|]. right. exists d0. split; [done|apply Hrest].
Qed.
End Transactions.

(** ** Edits

    The calls that change records, all of them transactions. *)

Inductive Edit : Type :=
  | Insert (new_name : bytes) (device : option bytes) (once : bool) (draw : Draw)
  | InsertWith (new_name : bytes) (o : CreateClientOptions) (draw : Draw)
  | Enroll (client_id static_pub : bytes)
  | ResetDevice (client_id : bytes)
  | Remove (client_id : bytes)
  | Update (client_id : bytes) (p : UpdateClientParams)
  | SetQos (client_id : bytes) (q : ClientQos)
  | Save.

(** The result of a call, forgotten. *)
Definition forget {S A} (m : method S A) : method S unit := fun s =>
  match m s with
  | (s, Ok _) => (s, Ok tt)
  | (s, Err e) => (s, Err e)
  | (s, Panic) => (s, Panic)
  end.

Definition edit_body (e : Edit) (now : Z) (db : ClientDatabase) : method ClientDbFile unit :=
  match e with
  | Insert new_name device once draw => forget (insert_client new_name device once draw now db)
  | InsertWith new_name o draw => forget (insert_with_options new_name o draw now db)
  | Enroll client_id static_pub => forget (bind_device client_id static_pub now db)
  | ResetDevice client_id => unbind_device client_id now db
  | Remove client_id => bury client_id now db
  | Update client_id p => forget (edit_client client_id p now db)
  | SetQos client_id q => edit_qos client_id q now db
  | Save => mret tt
  end.

Section Edits.
Context {PR : Primitives} {SD : Serde}.

Definition run_edit (e : Edit) (sys : System) : method Host unit :=
  match e with
  | Insert new_name None false draw => forget (add_client new_name draw sys)
  | Insert new_name (Some device) false draw => forget (add_client_bound new_name device draw sys)
  | Insert new_name None true draw => forget (add_client_one_time new_name draw sys)
  | Insert new_name (Some device) true draw => forget (add_client_one_time_bound new_name device draw sys)
  | InsertWith new_name o draw => forget (add_client_with_options new_name o draw sys)
  | Enroll client_id static_pub => forget (enroll_device client_id static_pub sys)
  | ResetDevice client_id => reset_device_binding client_id sys
  | Remove client_id => remove_client client_id sys
  | Update client_id p => forget (update_client client_id p sys)
  | SetQos client_id q => set_client_qos client_id q sys
  | Save => save sys
  end.

Lemma forget_mutation {R} (f : ClientDatabase -> method ClientDbFile R) sys h :
  forget (with_mutation f sys) h = with_mutation (fun db => forget (f db)) sys h.
Proof.
  unfold forget, with_mutation. destruct (lock_ok sys); [|done]. cbn [negb].
  destruct (absorb_disk_locked _ _ _) as [[d b]| |]; [|done..].
  destruct (f (db h) d) as [d' [x| |]]; [|done..]. by destruct (write_snapshot_locked _ _ _).
Qed.

(** An edit is refused at once, or it is the transaction of its body. *)
Lemma run_edit_body e sys h :
  (exists x, run_edit e sys h = (h, Err x)) \/
  run_edit e sys h = with_mutation (edit_body e (now sys)) sys h.
Proof.
  destruct e; cbn [run_edit edit_body]; try (by right); try (right; apply forget_mutation).
  - right. destruct device, once; apply forget_mutation.
  - unfold update_client, forget, mbind, mlift.
    assert (forall addr, validate_exit_node_addr addr <> Panic) as Hv.
    { intros addr. unfold validate_exit_node_addr. repeat (case_match; try done). }
    match goal with |- context [match ?m with Ok _ => _ | Err _ => _ | Panic => _ end] =>
      assert (m <> Panic) by (by destruct (up_name p); [destruct (bool_decide _)|]);
      destruct m; [|left; by eexists|done] end.
    match goal with |- context [match ?m with Ok _ => _ | Err _ => _ | Panic => _ end] =>
      assert (m <> Panic) by (destruct (up_exit_node p) as [[]|]; [apply Hv|done..]);
      destruct m; [|left; by eexists|done] end.
    right. apply (forget_mutation (edit_client client_id p (now sys))).
Qed.
End Edits.

(** What an edit does to the list of records. *)
Inductive edit_shape (db : ClientDatabase) (d : ClientDbFile) (now : Z) (new_id : option bytes) :
    list ClientConfig -> Prop :=
  | shape_same : edit_shape db d now new_id (clients d)
  | shape_push c : new_id = Some (id c) -> deleted c = false -> (range_ok db -> free db d (vpn_ip c)) ->
      edit_shape db d now new_id (clients d ++ [c])
  | shape_update p f :
      (forall c, id (f c) = id c /\ vpn_ip (f c) = vpn_ip c /\
         (deleted (f c) = false -> deleted c = false) /\ updated_at (f c) = Some now) ->
      edit_shape db d now new_id (update_first p f (clients d)).

Definition new_id (e : Edit) : option bytes :=
  match e with
  | Insert _ _ _ draw | InsertWith _ _ draw => Some (concat (map hex_u8 (draw_id draw)))
  | _ => None
  end.

Lemma update_last_snoc {A} (f : A -> A) l x : update_last f (l ++ [x]) = l ++ [f x].
Proof. unfold update_last. rewrite rev_app_distr. cbn. by rewrite rev_involutive. Qed.

Lemma insert_shape new_name device once draw now db d d' c :
  insert_client new_name device once draw now db d = (d', Ok c) ->
  clients d' = clients d ++ [c] /\ id c = concat (map hex_u8 (draw_id draw)) /\ deleted c = false /\
  (range_ok db -> free db d (vpn_ip c)).
Proof.
  unfold insert_client. destruct (existsb _ _); [done|].
  destruct (allocate_vpn_ip db d) as [d1 [ip| |]] eqn:E; [|done..]. intros [= <- <-].
  assert (clients d1 = clients d) as E1.
  { revert E. unfold allocate_vpn_ip. destruct (_ <? _); [done|]. destruct (allocation_range db).
    destruct (_ <=? _); [done|]. destruct (probe _ _ _ _ _ _) as [[]|]; [|done]. by intros [= <- _]. }
  cbn [push with_clients clients id deleted vpn_ip]. rewrite E1. split_and!; [done..|].
  intros Hr. by apply allocate_found in E as (_ & Hf & _).
Qed.

Lemma insert_no_panic new_name device once draw now db d :
  (insert_client new_name device once draw now db d).2 <> Panic.
Proof.
  unfold insert_client, allocate_vpn_ip. destruct (existsb _ _); [done|]. destruct (_ <? _); [done|].
  destruct (allocation_range db). destruct (_ <=? _); [done|]. by destruct (probe _ _ _ _ _ _) as [[]|].
Qed.

Lemma edit_body_shape e now db d d' :
  edit_body e now db d = (d', Ok tt) -> edit_shape db d now (new_id e) (clients d').
Proof.
  destruct e; cbn [edit_body new_id]; unfold forget.
  - destruct (insert_client _ _ _ _ _ _ _) as [d1 [c| |]] eqn:E; [|done..]. intros [= <-].
    apply insert_shape in E as (-> & E1 & E2 & E3). apply shape_push; [by rewrite E1|done|done].
  - unfold insert_with_options. destruct (negb _); [done|].
    destruct (insert_client _ _ _ _ _ _ _) as [d1 [c| |]] eqn:E; [|done..]. intros [= <-].
    apply insert_shape in E as (E & E1 & E2 & E3). cbn [with_clients clients]. rewrite E, update_last_snoc.
    apply shape_push; [by rewrite <-E1|done|done].
  - unfold bind_device. destruct (find _ _) as [c|]; [|done].
    assert (edit_shape db d now None (update_first (has_id client_id)
      (fun c => set_binding (Some static_pub) (one_time c) (role c) now c) (clients d))) as Hs
      by (apply shape_update; intros x; by split_and!).
    destruct (device_pubkey c) as [key|].
    + destruct (bool_decide _); [intros [= <-]; apply shape_same|]. destruct (_ || _); [done|].
      by intros [= <-].
    + destruct (negb _); [done|]. by intros [= <-].
  - unfold unbind_device. destruct (find _ _); [|done]. intros [= <-]. apply shape_update. intros x. by split_and!.
  - unfold bury. destruct (find _ _); [|done]. intros [= <-]. apply shape_update. intros x. by split_and!.
  - unfold edit_client. cbv zeta. match goal with |- context [if ?b then _ else _] => destruct b end; [done|].
    destruct (find _ _); [|done]. destruct (_ && _); [done|]. intros [= <-].
    apply shape_update. intros x. by split_and!.
  - unfold edit_qos. destruct (find _ _); [|done]. intros [= <-]. apply shape_update. intros x. by split_and!.
  - intros [= <-]. apply shape_same.
Qed.

Lemma edit_body_no_panic e now db d : (edit_body e now db d).2 <> Panic.
Proof.
  destruct e; cbn [edit_body]; unfold forget.
  - pose proof (insert_no_panic new_name device once draw now db d).
    by destruct (insert_client _ _ _ _ _ _ _) as [? []].
  - unfold insert_with_options. destruct (negb _); [done|].
    pose proof (insert_no_panic new_name None (co_one_time o) draw now db d).
    by destruct (insert_client _ _ _ _ _ _ _) as [? []].
  - unfold bind_device. destruct (find _ _) as [c|]; [|done]. by destruct (device_pubkey c); repeat case_match.
  - unfold unbind_device. by destruct (find _ _).
  - unfold bury. by destruct (find _ _).
  - unfold edit_client. cbv zeta. match goal with |- context [if ?b then _ else _] => destruct b end; [done|].
    destruct (find _ _); [|done]. by destruct (_ && _).
  - unfold edit_qos. by destruct (find _ _).
  - done.
Qed.

(** ** Nothing is lost *)

Section Lost.
Context {PR : Primitives} {SD : Serde}.

Lemma absorb_one_origin m c :
  same_but_stats (absorb_one_client m c) m \/ same_but_stats (absorb_one_client m c) c.
Proof. unfold absorb_one_client. case_match; [right|left]; by rewrite same_set_stats. Qed.

(** Whatever memory holds: each record of the result is one of the file or of memory, and
    no id of either is missing. *)
Lemma absorb_any l mem :
  (forall m, m ∈ absorb_all l mem -> exists c, (c ∈ l \/ c ∈ mem) /\ same_but_stats m c) /\
  (forall i, i ∈ map id l \/ i ∈ map id mem -> i ∈ map id (absorb_all l mem)).
Proof.
  revert mem. induction l as [|c l IH]; intros mem; cbn [absorb_all].
  { split; [|intros i [?%elem_of_nil|?]; done]. intros m Hm. exists m. split; [by right|done]. }
  destruct (existsb (has_id (id c)) mem) eqn:E.
  - destruct (IH (update_first (has_id (id c)) (fun m => absorb_one_client m c) mem)) as [H1 H2].
    assert (forall m, has_id (id c) m = true -> id (absorb_one_client m c) = id m) as Hid.
    { intros m Hm%has_id_true. destruct (absorb_one_origin m c) as [F|F]; apply same_fields in F as [F _]; congruence. }
    split.
    + intros m (x & [Hx|Hx] & Em)%H1; [exists x; split; [left; by right|done]|].
      apply elem_of_update_first in Hx as [Hx|(y & Hy & _ & ->)]; [exists x; auto|].
      destruct (absorb_one_origin y c) as [F|F]; [exists y|exists c].
      * split; [by right|by rewrite Em].
      * split; [left; by left|by rewrite Em].
    + intros i Hi. apply H2. rewrite update_first_map by (intros; by apply Hid). cbn in Hi.
      destruct Hi as [[->|Hi]%elem_of_cons|Hi]; [right; by apply existsb_id|by left|by right].
  - destruct (IH (mem ++ [c])) as [H1 H2]. split.
    + intros m (x & [Hx|[Hx|Hx%list_elem_of_singleton]%elem_of_app] & Em)%H1; exists x; (split; [|done]).
      * left. by right.
      * by right.
      * subst. left. by left.
    + intros i Hi. apply H2. rewrite map_app. cbn in *. rewrite elem_of_app.
      destruct Hi as [[->|Hi]%elem_of_cons|Hi]; [right; right; by left|by left|right; by left].
Qed.

Lemma shape_ids db d now i l : edit_shape db d now i l -> forall x, x ∈ map id (clients d) -> x ∈ map id l.
Proof.
  destruct 1 as [|c|p f Hf]; intros x Hx; [done| |].
  - rewrite map_app, elem_of_app. by left.
  - rewrite update_first_map; [done|]. intros c _ _. apply Hf.
Qed.

Lemma reap_ids now l i :
  i ∈ map id l -> i ∈ map id (reap_expired_tombstones now l) \/
  exists c, c ∈ l /\ id c = i /\ expired_tombstone now c = true.
Proof.
  intros (c & -> & Hc)%list_elem_of_fmap. destruct (expired_tombstone now c) eqn:E; [right; by exists c|].
  left. apply (list_elem_of_fmap_2 id). by apply list_elem_of_filter.
Qed.

Lemma same_expired now a b : same_but_stats a b -> expired_tombstone now a = expired_tombstone now b.
Proof. intros (_ & _ & Hd & Hu)%same_fields. unfold expired_tombstone. by rewrite Hd, Hu. Qed.

(** An edit of any process, whatever it still has in memory, commits or fails as a
    whole. When it succeeds, the file holds exactly what memory holds, and every client
    that was on the file, written by whichever process, is still there; the only records
    that go are tombstones past their thirty days. When it fails, the file is as it
    was. No edit panics. *)
Theorem nothing_lost {SL : SerdeLaws} e sys h h' r :
  run_edit e sys h = (h', r) ->
  match r with
  | Ok _ => stored (disk h') = Some (data (db h')) /\
      exists d0, stored (disk h) = Some d0 /\
        forall i, i ∈ map id (clients d0) ->
          i ∈ map id (clients (data (db h'))) \/
          exists c, (c ∈ clients d0 \/ c ∈ clients (data (db h))) /\ id c = i /\
            expired_tombstone (now sys) c = true
  | Err _ => disk h' = disk h
  | Panic => False
  end.
Proof.
  destruct (run_edit_body e sys h) as [[x ->]| ->]; [by intros [= <- <-]|].
  intros E. apply transaction_cases in E as (_ & _ & E); [|intros; apply edit_body_no_panic].
  destruct r as [[]| |]; [|by destruct E|done].
  destruct E as (d0 & rollback & Hd0 & Hr & Hf & Hs). split; [done|]. exists d0. split; [done|].
  intros i Hi. apply edit_body_shape in Hf.
  destruct (absorb_any (clients d0) (clients (data (db h)))) as [Ho Hk].
  destruct (reap_ids (now sys) _ i (Hk i (or_introl Hi))) as [Hin|(m & Hm & <- & Hx)].
  - left. eapply shape_ids; [done|]. by rewrite Hr.
  - right. destruct (Ho m Hm) as (c & Hc & Es). exists c. pose proof Es as (Ei & _)%same_fields.
    split; [done|]. split; [done|]. by rewrite <-(same_expired _ _ _ Es).
Qed.
End Lost.

(** ** A life of the server process *)

Inductive Call : Type :=
  | Edited (e : Edit)
  | Merged (json : bytes)
  | Reloaded
  | Handshaken (client_id : bytes)
  | Carried (client_id : bytes) (n_in n_out : Z).

Section Life.
Context {PR : Primitives} {SD : Serde}.

Definition run_call (c : Call) (sys : System) (h : Host) : Host :=
  match c with
  | Edited e => (run_edit e sys h).1
  | Merged json => (merge_from_json json sys h).1
  | Reloaded => (reload_if_changed sys h).1
  | Handshaken i => (record_handshake i (now sys) h).1
  | Carried i n_in n_out => (record_traffic i n_in n_out (now sys) h).1
  end.

Fixpoint serve (h : Host) (calls : list (Call * System)) : Host :=
  match calls with [] => h | (c, sys) :: calls => serve (run_call c sys h) calls end.

(** The id drawn for a new client is not in use. *)
Definition call_ok (c : Call) (h : Host) : Prop :=
  match c with
  | Edited e => forall i d0, new_id e = Some i -> stored (disk h) = Some d0 -> i ∉ map id (clients d0)
  | _ => True
  end.

Fixpoint calls_ok (h : Host) (calls : list (Call * System)) : Prop :=
  match calls with
  | [] => True
  | (c, sys) :: calls => call_ok c h /\ calls_ok (run_call c sys h) calls
  end.

(** The file is well-formed and memory mirrors it. *)
Definition host_ok (P : list ClientConfig -> Prop) (h : Host) : Prop :=
  range_ok (db h) /\
  exists d0, stored (disk h) = Some d0 /\ records_ok (network_config (db h)) (clients d0) /\
    P (clients d0) /\ mirrors (clients (data (db h))) (clients d0).

Section Keep.
Context {SL : SerdeLaws} (P : list ClientConfig -> Prop) (time_ok : Z -> Prop).
Hypothesis P_cover : forall l l', (forall c, c ∈ l -> exists m, m ∈ l' /\ same_but_stats m c) -> P l -> P l'.
Hypothesis P_reap : forall t l, time_ok t -> P l -> P (reap_expired_tombstones t l).
Hypothesis P_edit : forall db d t i l, time_ok t -> edit_shape db d t i l -> P (clients d) -> P l.
Hypothesis P_merge : forall db inc d d', records_ok (network_config db) (clients d) ->
  merge_one db inc d = Some d' -> P (clients d) -> P (clients d').

Lemma range_ok_cong db db' :
  network_config db' = network_config db -> partition db' = partition db -> range_ok db -> range_ok db'.
Proof. unfold range_ok, allocation_range. by intros -> ->. Qed.

Lemma rollback_ok cfg l mem t :
  time_ok t -> records_ok cfg l -> P l -> mirrors mem l ->
  records_ok cfg (reap_expired_tombstones t (absorb_all l mem)) /\
  P (reap_expired_tombstones t (absorb_all l mem)) /\
  mirrors (reap_expired_tombstones t (absorb_all l mem)) l.
Proof.
  intros Ht Hok HP Hm. destruct (absorb_mirrors cfg l mem Hok Hm) as [Hm' Hc].
  split; [|split; [|by apply mirrors_filter]].
  - apply records_filter. by eapply mirrors_ok.
  - apply P_reap; [done|]. by eapply P_cover.
Qed.

Lemma mirrors_same mem mem' l : Forall2 same_but_stats mem' mem -> mirrors mem l -> mirrors mem' l.
Proof.
  intros H [Hn Hm]. split.
  - assert (map id mem' = map id mem) as ->; [|done].
    induction H as [|a b l1 l2 Hab]; [done|]. cbn. apply same_fields in Hab as [-> _]. f_equal.
    apply IHForall2; [by inversion Hn|]. intros m Hin. apply Hm. by right.
  - intros m (i & Hi)%list_elem_of_lookup.
    destruct (Forall2_lookup_l _ _ _ _ _ H Hi) as (b & Hb & Hab).
    destruct (Hm b ltac:(by eapply list_elem_of_lookup_2)) as (c & Hc & Hbc). exists c. split; [done|]. by rewrite Hab.
Qed.

(** A transaction whose body keeps the records well-formed keeps the host so. *)
Lemma mutation_ok {R} (f : ClientDatabase -> method ClientDbFile R) sys h :
  time_ok (now sys) -> host_ok P h -> (forall d, (f (db h) d).2 <> Panic) ->
  (forall d0 d d' x, stored (disk h) = Some d0 -> f (db h) d = (d', Ok x) ->
     mirrors (clients d) (clients d0) -> records_ok (network_config (db h)) (clients d) -> P (clients d) ->
     records_ok (network_config (db h)) (clients d') /\ P (clients d')) ->
  host_ok P (with_mutation f sys h).1.
Proof.
  intros Ht (Hr & d0 & Hd0 & Hok & HP & Hm) Hp Hf.
  destruct (with_mutation f sys h) as [h' r] eqn:E. cbn [fst].
  apply transaction_cases in E as (En & Epa & E); [|done]. pose proof (range_ok_cong _ _ En Epa Hr) as Hr'.
  destruct (rollback_ok (network_config (db h)) _ _ (now sys) Ht Hok HP Hm) as (R1 & R2 & R3).
  split; [done|]. rewrite En. destruct r as [x| |]; [| |done].
  - destruct E as (d1 & rollback & Hd1 & Hrb & Hx & Hs). rewrite Hd0 in Hd1. injection Hd1 as <-.
    rewrite <-Hrb in R1, R2, R3.
    destruct (Hf d0 rollback _ x Hd0 Hx R3 R1 R2) as [K1 K2].
    exists (data (db h')). split; [done|]. split; [done|]. split; [done|].
    apply mirrors_refl, fop_NoDup, K1.
  - destruct E as (-> & E). exists d0. split; [done|]. split; [done|]. split; [done|].
    destruct E as [-> |(d1 & Hd1 & F)]; [done|]. rewrite Hd0 in Hd1. injection Hd1 as <-.
    by eapply mirrors_same.
Qed.

Lemma count_ok i f h : host_ok P h -> host_ok P (count i f h).1.
Proof.
  intros (Hr & d0 & Hd0 & Hok & HP & Hm). unfold count.
  assert (host_ok P h) by (split; [done|]; by exists d0).
  destruct (find _ _) as [c|]; [|done]. destruct (f (stats c)) as [s| |]; [|done..].
  split; [done|]. exists d0. split; [done|]. split; [done|]. split; [done|].
  cbn. destruct Hm as [Hn Hm]. split; [by rewrite update_first_map|].
  intros m [Hin|(y & Hy & _ & ->)]%elem_of_update_first; [auto|].
  destruct (Hm y Hy) as (z & Hz & E). exists z. split; [done|exact E].
Qed.

Lemma reload_ok sys h : time_ok (now sys) -> host_ok P h -> host_ok P (reload_if_changed sys h).1.
Proof.
  intros Ht Hh. unfold reload_if_changed. destruct (disk h) as [f|] eqn:Ef; [|done].
  destruct (bool_decide _); [done|].
  assert (host_ok P (reload_from_disk sys h).1) as Hl.
  { unfold reload_from_disk. destruct (lock_ok sys); [|done]. cbn [negb].
    destruct (absorb_disk_locked _ _ _) as [[d b]| |] eqn:A; [|done..].
    apply absorb_Ok in A as (d1 & Hd1 & E). destruct Hh as (Hr & d0 & Hd0 & Hok & HP & Hm).
    rewrite Hd0 in Hd1. injection Hd1 as <-. split; [done|]. exists d0. cbn [fst disk db with_data data].
    split; [done|]. split; [done|]. split; [done|]. rewrite E.
    by apply (rollback_ok (network_config (db h))). }
  destruct (reload_from_disk sys h) as [h' [b| |]]; [|done..]. cbn [fst] in *. exact Hl.
Qed.

Lemma merge_loop_P db incoming d n :
  range_ok db -> records_ok (network_config db) (clients d) -> P (clients d) ->
  P (clients (merge_loop db incoming d n).1).
Proof.
  intros Hr. revert d n. induction incoming as [|inc l IH]; intros d n Hok HP; [done|]. cbn [merge_loop].
  destruct (merge_one db inc d) as [d'|] eqn:E; [|by apply IH].
  apply IH; [by eapply merge_one_ok|by eapply P_merge].
Qed.

Lemma shape_ok db d t i l :
  range_ok db -> records_ok (network_config db) (clients d) ->
  (forall x, i = Some x -> x ∉ map id (clients d)) -> edit_shape db d t i l ->
  records_ok (network_config db) l.
Proof.
  intros Hr Hok Hi. destruct 1 as [|c Ec Dc Hf|p f Hf]; [done| |].
  - apply records_push; [done| |].
    + intros y Hy E. apply (Hi _ Ec). rewrite <-E. by apply (list_elem_of_fmap_2 id).
    + intros _. destruct (Hf Hr) as [F1 F2]. rewrite held_false in F2. done.
  - apply records_update; [|done]. intros c. destruct (Hf c) as (? & ? & ? & _). done.
Qed.

Lemma run_call_ok c sys h : time_ok (now sys) -> host_ok P h -> call_ok c h -> host_ok P (run_call c sys h).
Proof.
  intros Ht Hh Hc. destruct c as [e|json| |i|i a b]; cbn [run_call call_ok] in *.
  - destruct (run_edit_body e sys h) as [[x ->]| ->]; [done|]. pose proof Hh as (Hr & _).
    apply mutation_ok; [done|done|intros; apply edit_body_no_panic|].
    intros d0 d d' [] Hd0 E Hm Hok HP. apply edit_body_shape in E. split; [|by eapply P_edit].
    eapply shape_ok; [done|done| |done]. intros i Hi (y & -> & Hy)%list_elem_of_fmap.
    destruct Hm as [_ Hm], (Hm y Hy) as (z & Hz & (Ei & _)%same_fields).
    apply (Hc _ _ Hi Hd0). rewrite Ei. by apply (list_elem_of_fmap_2 id).
  - unfold merge_from_json. destruct (clients_from_str json) as [incoming|]; [|done]. pose proof Hh as (Hr & _).
    apply mutation_ok; [done|done| |].
    + intros d. unfold merge_records. by destruct (merge_loop _ _ _ _).
    + intros d0 d d' x _ E _ Hok HP. split.
      * pose proof (merge_records_ok (db h) incoming (now sys) d Hr Hok) as H. by rewrite E in H.
      * unfold merge_records in E. pose proof (merge_loop_P (db h) incoming d 0 Hr Hok HP) as H.
        destruct (merge_loop _ _ _ _). injection E as <- _. by apply P_reap.
  - by apply reload_ok.
  - by apply count_ok.
  - by apply count_ok.
Qed.

Lemma serve_ok calls h :
  Forall (fun c => time_ok (now c.2)) calls -> host_ok P h -> calls_ok h calls -> host_ok P (serve h calls).
Proof.
  revert h. induction calls as [|[c sys] calls IH]; intros h Ht Hh Hc; [done|].
  apply Forall_cons in Ht as [Ht1 Ht2]. destruct Hc as [Hc1 Hc2]. cbn [serve].
  apply IH; [done| |done]. by apply run_call_ok.
Qed.
End Keep.
End Life.

(** ** Addresses stay distinct *)

Section Invariants.
Context {PR : Primitives} {SD : Serde} {SL : SerdeLaws}.

(** The database after start-up: loaded, and confined to the partition of a pool node. *)
Definition started (part : option bytes) (db : ClientDatabase) : ClientDatabase :=
  match part with Some node_id => set_node_partition db node_id | None => db end.

Lemma partition_frame db node_id :
  data (set_node_partition db node_id) = data db /\
  network_config (set_node_partition db node_id) = network_config db.
Proof. unfold set_node_partition, apply_partition. by destruct (_ <=? 1); [|destruct (_ || _)]. Qed.

Lemma load_ok (P : list ClientConfig -> Prop) cfg part sys disk d0 db0 :
  load cfg sys disk = Ok db0 -> u32_ok (v_server_vpn_ip cfg) ->
  stored disk = Some d0 -> records_ok cfg (clients d0) -> P (clients d0) ->
  host_ok P {| db := started part db0; disk := disk |} /\ network_config (started part db0) = cfg.
Proof.
  intros E Hs Hd0 Hok HP. unfold load in E. destruct (v_validate cfg) as [[]| |] eqn:V; [|done..].
  cbn [obind] in E. destruct (lock_ok sys); [|done]. cbn [negb] in E.
  destruct (read_disk_snapshot sys disk) as [s| |] eqn:S; [|done..]. cbn [obind] in E. injection E as <-.
  apply snapshot_stored in S. rewrite Hd0 in S. injection S as ->.
  assert (1 <= v_prefix_len cfg <= 30) as Hp.
  { unfold v_validate in V. destruct (if v_ipv6_enabled cfg then _ else _); [|done..]. cbn [obind] in V.
    destruct ((1 <=? v_prefix_len cfg) && (v_prefix_len cfg <=? 30)) eqn:F; [wire_lia|done]. }
  set (db0 := {| data := _; network_config := cfg; partition := None; last_mtime := _ |}).
  assert (range_ok db0) as Hr.
  { unfold range_ok, allocation_range. cbn. pose proof (max_host_offset_eq cfg Hp). pose proof (subnet_size_bound cfg Hp).
    lia. }
  assert (range_ok (started part db0) /\ data (started part db0) = data db0 /\
          network_config (started part db0) = cfg) as (H1 & H2 & H3).
  { destruct part as [node_id|]; [|done]. cbn [started]. destruct (partition_frame db0 node_id) as [-> ->].
    split; [|done]. by apply default_range. }
  split; [|done]. split; [done|]. exists (default default_db s). cbn [ClientDb.db ClientDb.disk]. rewrite H2, H3.
  split; [done|]. split; [done|]. split; [done|].
  apply mirrors_filter, mirrors_refl, fop_NoDup, Hok.
Qed.

Lemma live_ips cfg l : records_ok cfg l -> NoDup (map vpn_ip (filter (fun c => deleted c = false) l)).
Proof.
  intros [H _]. apply (fop_filter apart (fun c => deleted c = false)) in H.
  assert (forall c, c ∈ filter (fun c => deleted c = false) l -> deleted c = false) as Hd
    by (by intros c [? _]%list_elem_of_filter).
  induction H as [|x xs Hx Hl IH]; [constructor|]. cbn. constructor.
  - intros (y & E & Hy)%list_elem_of_fmap. rewrite List.Forall_forall in Hx.
    pose proof (Hx y ltac:(by apply list_elem_of_In)) as [_ Hv].
    apply Hv; [apply Hd; by left|apply Hd; by right|done].
  - apply IH. intros c Hc. apply Hd. by right.
Qed.

End Invariants.

(** ** Revocation lasts *)

Section Revocation.
Context {PR : Primitives} {SD : Serde} (i : bytes) (since : Z).

(** A tombstone of [i] not older than [since]. *)
Definition revoked (l : list ClientConfig) : Prop :=
  exists c t, c ∈ l /\ id c = i /\ deleted c = true /\ updated_at c = Some t /\ since <= t.

Lemma revoked_cover l l' :
  (forall c, c ∈ l -> exists m, m ∈ l' /\ same_but_stats m c) -> revoked l -> revoked l'.
Proof.
  intros H (c & t & Hc & Hi & Hd & Hu & Ht). destruct (H c Hc) as (m & Hm & (Ei & _ & Ed & Eu)%same_fields).
  exists m, t. split_and!; [done|congruence..|done].
Qed.

Lemma revoked_reap now l : now <= since + TOMBSTONE_TTL -> revoked l -> revoked (reap_expired_tombstones now l).
Proof.
  intros Hn (c & t & Hc & Hi & Hd & Hu & Ht). exists c, t. split_and!; [|done..].
  apply list_elem_of_filter. split; [|done]. unfold expired_tombstone. rewrite Hu, Hd. cbn. wire_lia.
Qed.

Lemma update_first_either {A} (p : A -> bool) f l x :
  x ∈ l -> x ∈ update_first p f l \/ f x ∈ update_first p f l.
Proof.
  induction 1 as [x l|x y l H IH]; cbn [update_first].
  - destruct (p x); [right|left]; by left.
  - destruct (p y); [left; by right|]. destruct IH; [left|right]; by right.
Qed.

Lemma revoked_edit db d now new l : since <= now -> edit_shape db d now new l -> revoked (clients d) -> revoked l.
Proof.
  intros Hn Hs (c & t & Hc & Hi & Hd & Hu & Ht). destruct Hs as [|x|p f Hf].
  - by exists c, t.
  - exists c, t. split_and!; [|done..]. apply elem_of_app. by left.
  - destruct (update_first_either p f _ _ Hc) as [H|H]; [by exists c, t|].
    destruct (Hf c) as (Ei & _ & Ed & Eu). exists (f c), now. split_and!; [done|congruence| |done|done].
    destruct (deleted (f c)); [done|]. by rewrite Ed in Hd.
Qed.

Lemma revoked_merge db inc d d' :
  records_ok (network_config db) (clients d) -> merge_one db inc d = Some d' ->
  revoked (clients d) -> revoked (clients d').
Proof.
  intros Hok E (c & t & Hc & Hi & Hd & Hu & Ht). unfold merge_one in E.
  destruct (find (has_id (id inc)) (clients d)) as [e|] eqn:F.
  - destruct (_ && incoming_wins _ _) eqn:W; [|done]. injection E as <-. cbn [with_clients clients].
    apply andb_true_iff in W as [_ W]. pose proof (find_elem _ _ _ F) as [He Hp%has_id_true].
    destruct (decide (id inc = i)) as [Ei|Ei].
    + assert (e = c) as -> by (eapply same_id; [done..|congruence]).
      unfold incoming_wins in W. rewrite Hd in W. destruct (deleted inc) eqn:Di; [|done].
      assert (exists u, updated_at inc = Some u /\ t <= u) as (u & Eu & Hut).
      { unfold strictly_newer, tie_break_wins in W. rewrite Hu in W. destruct (updated_at inc) as [u|]; [|done].
        exists u. split; [done|]. destruct (Z.ltb_spec t u); [lia|]. cbn in W.
        apply andb_true_iff in W as [W _]. apply bool_decide_eq_true in W. injection W as ->. lia. }
      exists (adopt c inc), u. split_and!; [|done..|lia].
      by apply (update_first_in _ (fun e => adopt e inc)).
    + exists c, t. split_and!; [|done..]. apply update_first_other; [done|]. apply has_id_false. congruence.
  - assert (forall inc', merge_new db inc' d = Some d' -> revoked (clients d')) as Hnew.
    { clear E. intros x. unfold merge_new. destruct (find (conflicts x) _) as [r|];
        [destruct (earlier x r); destruct (deterministic_reassign_offset _ _ _) as [ip|]; try done|];
        intros [= <-]; exists c, t; (split_and!; [|done..]); cbn [push with_clients clients];
        apply elem_of_app; left; try done.
      apply update_first_other; [done|]. unfold conflicts. rewrite Hd. apply andb_false_r. }
    repeat case_match; try done; [injection E as <-|by eapply Hnew|by eapply Hnew].
    exists c, t. split_and!; [|done..]. apply elem_of_app. by left.
Qed.
End Revocation.

Section Lasting.
Context {PR : Primitives} {SD : Serde} {SL : SerdeLaws}.

(** No record of a removed client is live. *)
Lemma removed_gone i sys h h1 calls m :
  host_ok (fun _ => True) h -> remove_client i sys h = (h1, Ok tt) -> calls_ok h1 calls ->
  Forall (fun c => now sys <= now c.2 <= now sys + TOMBSTONE_TTL) calls ->
  m ∈ clients (data (db (serve h1 calls))) -> deleted m = false -> id m <> i.
Proof.
  intros Hh E Hc Ht.
  assert (host_ok (revoked i (now sys)) h1) as Hh1.
  { assert (host_ok (fun _ => True) (run_call (Edited (Remove i)) sys h)) as (Hr & d1 & Hd1 & Hok & _ & Hm).
    { by apply (run_call_ok (fun _ => True) (fun _ => True)). }
    cbn [run_call run_edit] in Hr, Hd1, Hok, Hm. rewrite E in Hr, Hd1, Hok, Hm. cbn [fst] in *.
    split; [done|]. exists d1. split; [done|]. split; [done|]. split; [|done].
    unfold remove_client in E. apply transaction_cases in E as (_ & _ & d0 & rb & _ & _ & Ef & Es);
      [|intros d; unfold bury; by destruct (find _ _)].
    rewrite Hd1 in Es. injection Es as ->. unfold bury in Ef.
    destruct (find _ _) as [c|] eqn:F; [|done]. injection Ef as <-. cbn [with_clients clients].
    exists (tombstone (now sys) c), (now sys). split_and!; [by apply update_first_in| |done..].
    by apply find_elem in F as [_ [? _]%live_id_true]. }
  apply (serve_ok (revoked i (now sys)) (fun t => now sys <= t <= now sys + TOMBSTONE_TTL)) in Hc;
    [|apply revoked_cover|intros t l [_ ?]; by apply revoked_reap|intros ????? [? _]; by apply revoked_edit
     |apply revoked_merge|done|done].
  set (h' := serve _ _) in *. destruct Hc as (_ & d1 & _ & Hok & (c & t & Hin & Hi & Hd & _) & _ & Hm).
  intros Hmin Dm Em. destruct (Hm m Hmin) as (c' & Hc' & (Ei & _ & Ed & _)%same_fields).
  assert (c' = c) as -> by (eapply same_id; [done..|congruence]). congruence.
Qed.

(** C37: Once a client is removed, no call brings it back while its tombstone lives: for
    thirty days, through edits, failing disks and merges of stale or back-dated copies
    from other nodes, no lookup by id, key or address answers with it. *)
Theorem revocation_lasts i sys h h1 calls :
  host_ok (fun _ => True) h -> remove_client i sys h = (h1, Ok tt) -> calls_ok h1 calls ->
  Forall (fun c => now sys <= now c.2 <= now sys + TOMBSTONE_TTL) calls ->
  let h' := serve h1 calls in
  find_by_id i h' = None /\
  (forall key t c, find_by_psk key t h' = Some c -> id c <> i) /\
  forall ip c, find_by_vpn_ip ip h' = Some c -> id c <> i.
Proof.
  intros Hh E Hc Ht. cbv zeta. pose proof (fun m => removed_gone i sys h h1 calls m Hh E Hc Ht) as Hno.
  set (h' := serve _ _) in *.
  split; [|split].
  - destruct (find_by_id i h') as [m|] eqn:F; [|done]. apply find_elem in F as [Hmin [Em Dm]%live_id_true].
    by destruct (Hno m Hmin Dm).
  - intros key t' m [Hmin Hp]%find_elem. apply Hno; [done|].
    destruct (deleted m); [|done]. cbn in Hp. by rewrite ?andb_false_r in Hp.
  - intros ip m [Hmin Hp]%find_elem. apply Hno; [done|].
    destruct (deleted m); [|done]. cbn in Hp. by rewrite ?andb_false_r in Hp.
Qed.
End Lasting.

(** ** A concrete file

    A serialiser of finitely many values, with the texts of a table. *)

#[export] Instance qos_eq_dec : EqDecision ClientQos.
Proof. solve_decision. Defined.
#[export] Instance stats_eq_dec : EqDecision ClientStats.
Proof. solve_decision. Defined.
#[export] Instance client_eq_dec : EqDecision ClientConfig.
Proof. solve_decision. Defined.
#[export] Instance db_file_eq_dec : EqDecision ClientDbFile.
Proof. solve_decision. Defined.

Definition table_serde (dbs : list ClientDbFile) (lists : list (list ClientConfig)) : Serde := {|
  qos_to_vec q := match q with None => Some [110; 117; 108; 108] | Some _ => None end;
  clients_to_string := table_text lists;
  clients_from_str := table_value lists;
  db_to_string_pretty := table_text dbs;
  db_from_str := table_value dbs |}.

Lemma trim_letters n : trim (replicate (S n) 65) <> [].
Proof.
  intros E. apply (f_equal (@length Z)) in E. revert E. unfold trim.
  assert (forall f k, f (65 :: replicate k 65) = O -> forall fuel,
    skip_spaces f fuel (65 :: replicate k 65) = 65 :: replicate k 65) as Hskip
    by (intros f k Hf [|fuel]; [done|]; cbn; by rewrite Hf).
  change (replicate (S n) 65) with (65 :: replicate n 65). rewrite Hskip by done.
  assert (rev (65 :: replicate n 65) = 65 :: replicate n 65) as ->.
  { symmetry. change (replicate (S n) 65 = rev (replicate (S n) 65)). apply replicate_as_elem_of.
    split; [by rewrite length_rev, length_replicate|]. intros y Hy%list_elem_of_In%in_rev%list_elem_of_In.
    by apply elem_of_replicate_inv in Hy. }
  rewrite Hskip by (by destruct n as [|[|]]). by rewrite length_rev.
Qed.

Lemma table_laws dbs lists : @SerdeLaws (table_serde dbs lists).
Proof.
  constructor.
  - by intros [] [] ?.
  - intros l t E. split; [by apply table_value_text|exact (table_text_ok _ _ _ E)].
  - intros d t E. split; [by apply table_value_text|]. apply table_text_shape in E as [n ->]. apply trim_letters.
Qed.

Section Sample.
#[local] Existing Instance toy_primitives.

(** A client whose record another node, with its clock an hour ahead, last changed. *)
Definition alice (gone : bool) (changed : Z) : ClientConfig := {|
  id := [97]; name := [97; 108]; psk := zeros 32; vpn_ip := ipv4_new 10 0 0 2; enabled := negb gone;
  created_at := 0; stats := no_stats; qos := None; device_pubkey := None; one_time := false;
  expires_at := None; updated_at := Some changed; deleted := gone; role := ClientRole.User;
  exit_node := None |}.

Definition alice_alive : ClientDbFile := {| clients := [alice false 7200]; next_host_offset := 3 |}.
Definition alice_removed : ClientDbFile := {| clients := [alice true 3600]; next_host_offset := 3 |}.

#[local] Instance sample_serde : Serde := table_serde [alice_alive; alice_removed] [[alice false 7200]].
#[local] Instance sample_laws : SerdeLaws := table_laws _ _.

Definition at_time (t : Z) : System :=
  {| now := t; lock_ok := true; read_ok := true; write_ok := true; write_time := t |}.

Definition sample_file : File := {| text := [65]; modified := 0 |}.

Definition loaded (file : option File) : ClientDatabase :=
  {| data := default default_db (stored file); network_config := default_vpn_network_config;
     partition := None; last_mtime := modified <$> file |}.

Definition sample_host : Host := {| db := loaded (Some sample_file); disk := Some sample_file |}.

Lemma allocation_exact_witness :
  range_ok (loaded None) /\ (allocate_vpn_ip (loaded None) default_db).2 = Ok (ipv4_new 10 0 0 2) /\
  free (loaded None) default_db (ipv4_new 10 0 0 2).
Proof.
  assert (range_ok (loaded None)) as Hr by (vm_compute; by split_and!).
  split; [done|]. pose proof (allocation_exact (loaded None) Hr default_db) as H.
  assert (allocate_vpn_ip (loaded None) default_db =
    ({| clients := []; next_host_offset := 3 |}, Ok (ipv4_new 10 0 0 2))) as E by reflexivity.
  rewrite E in *. by destruct H as (_ & _ & Hf & _).
Defined.

Lemma partitions_exclusive_witness :
  (allocate_vpn_ip (set_node_partition_explicit (loaded None) 1 (Some 8)) default_db).2 = Ok (ipv4_new 10 0 0 32) /\
  (allocate_vpn_ip (set_node_partition_explicit (loaded None) 2 (Some 8)) default_db).2 = Ok (ipv4_new 10 0 0 63) /\
  ipv4_new 10 0 0 32 <> ipv4_new 10 0 0 63.
Proof.
  split; [reflexivity|]. split; [reflexivity|].
  refine (proj1 (partitions_exclusive (loaded None) (loaded None) 8 _ eq_refl _) 1 2 default_db default_db _ _ _ _ _ _ _);
    [vm_compute; by split_and!|vm_compute; by split_and!|lia|lia|done|reflexivity|reflexivity].
Defined.

Lemma nothing_lost_witness :
  stored (disk (run_edit (Remove [97]) (at_time 3600) sample_host).1) = Some alice_removed /\
  [97] ∈ map id (clients alice_removed).
Proof.
  pose proof (nothing_lost (Remove [97]) (at_time 3600) sample_host) as H.
  destruct (run_edit (Remove [97]) (at_time 3600) sample_host) as [h r] eqn:E.
  specialize (H h r eq_refl). revert H. vm_compute in E. injection E as <- <-. intros [H _].
  split; [exact H|left].
Defined.

Lemma alice_records : records_ok default_vpn_network_config (clients alice_alive).
Proof.
  constructor; [repeat constructor|]. intros c Hc%list_elem_of_singleton _. subst c. by vm_compute.
Qed.


Lemma sample_ok : host_ok (fun _ => True) sample_host.
Proof.
  split; [vm_compute; by split_and!|].
  exists alice_alive. split; [done|]. split; [exact alice_records|]. split; [done|].
  apply mirrors_refl. repeat constructor. by intros ?%elem_of_nil.
Qed.

Lemma revocation_lasts_witness :
  let h := serve (remove_client [97] (at_time 3600) sample_host).1 [(Merged [65], at_time 4000)] in
  find_by_id [97] sample_host = Some (alice false 7200) /\ find_by_id [97] h = None.
Proof.
  split; [by vm_compute|].
  refine (proj1 (revocation_lasts [97] (at_time 3600) sample_host _ _ sample_ok _ _ _)); [by vm_compute|done|].
  repeat constructor; by vm_compute.
Defined.

(** A removal by another process can be lost. The server holds a record that a node with a fast
    clock stamped in the future; an administrator removes the client with the command
    line, which puts a tombstone with the present time on the file; when the server next
    saves, its own copy counts as newer than the tombstone, and the client is live again,
    in memory and on the file. *)
Theorem skewed_clock_revives :
  let '(cli, removed) := remove_client [97] (at_time 3600) sample_host in
  let '(server, saved) := save (at_time 3700) {| db := db sample_host; disk := disk cli |} in
  removed = Ok tt /\ stored (disk cli) = Some alice_removed /\
  saved = Ok tt /\ stored (disk server) = Some alice_alive /\
  find_by_id [97] server = Some (alice false 7200).
Proof. vm_compute. by split_and!. Qed.
End Sample.
