(* ===== verification/ClientSync.v ===== *)
(** * Convergence of the client databases of a pool

    The merge of [client_db/merge.rs] as a join: [view] is what the databases of a pool
    agree on, for each id the liveness, the time and the canonical fields of its record;
    [beats] orders the versions of a record; a merge takes the better version of each id.
    From this: nodes that have heard of the same nodes agree, in whatever order and
    however often they merged; equal digests mean equal content; and one exchange of the
    protocol between two nodes ends with both holding the join. *)

From S2P Require Import Prelude Collections Text Utf8 IpAddr NetworkConfig Crypto Control.
From S2P Require Import ClientDb ClientAddr ClientStore.
From stdpp Require Import sorting.
Local Open Scope Z_scope.

(** ** Versions *)

Record Version : Type := {
  v_deleted : bool;
  v_updated : option Z;
  v_fields : bytes;
}.

Section Versions.
Context {PR : Primitives} {SD : Serde}.

Definition version (c : ClientConfig) : Version :=
  {| v_deleted := deleted c; v_updated := updated_at c; v_fields := record_canonical_fields c |}.

Definition view (l : list ClientConfig) (i : bytes) : option Version := version <$> find (has_id i) l.

(** The canonical bytes of the record of an id. *)
Definition content (l : list ClientConfig) (i : bytes) : option bytes := v_fields <$> view l i.

Definition beats (v w : Version) : bool :=
  match v_deleted w, v_deleted v with
  | true, false => false
  | false, true => true
  | _, _ => strictly_newer (v_updated v) (v_updated w)
            || (bool_decide (v_updated v = v_updated w)
                && bytes_lt (blake3_hash (v_fields v)) (blake3_hash (v_fields w)))
  end.

Definition better (o o' : option Version) : option Version :=
  match o, o' with
  | Some v, Some w => Some (if beats w v then w else v)
  | Some v, None => Some v
  | None, o' => o'
  end.

Lemma wins_beats inc existing : incoming_wins inc existing = beats (version inc) (version existing).
Proof. done. Qed.

Lemma newer_spec a b :
  strictly_newer a b = true <-> (exists x y, a = Some x /\ b = Some y /\ y < x) \/ (a <> None /\ b = None).
Proof.
  destruct a as [x|], b as [y|]; cbn; rewrite ?Z.ltb_lt; naive_solver.
Qed.

Lemma newer_trans a b c : strictly_newer a b = true -> strictly_newer b c = true -> strictly_newer a c = true.
Proof. destruct a, b, c; cbn; try done. rewrite !Z.ltb_lt. lia. Qed.

Lemma newer_total a b : strictly_newer a b = false -> strictly_newer b a = false -> a = b.
Proof.
  destruct a, b; cbn; try done. rewrite !Z.ltb_ge. intros. f_equal. lia.
Qed.

Lemma newer_irrefl a : strictly_newer a a = false.
Proof. destruct a; [|done]. apply Z.ltb_irrefl. Qed.

Lemma beats_irrefl v : beats v v = false.
Proof.
  unfold beats. destruct (v_deleted v); by rewrite newer_irrefl, bytes_lt_irrefl, andb_false_r.
Qed.

Lemma beats_trans a b c : beats a b = true -> beats b c = true -> beats a c = true.
Proof.
  unfold beats. destruct (v_deleted a), (v_deleted b), (v_deleted c); try done;
    rewrite !orb_true_iff, !andb_true_iff, !bool_decide_eq_true;
    (intros [H1|[H1 K1]] [H2|[H2 K2]];
     [left; by eapply newer_trans|left; congruence|left; congruence|
      right; split; [congruence|by eapply bytes_lt_trans]]).
Qed.

(** Versions that do not beat one another have one hash. *)
Lemma beats_total v w : beats v w = false -> beats w v = false ->
  v_deleted v = v_deleted w /\ v_updated v = v_updated w /\
  blake3_hash (v_fields v) = blake3_hash (v_fields w).
Proof.
  unfold beats. destruct (v_deleted v), (v_deleted w); try done;
    rewrite !orb_false_iff; intros [H1 K1] [H2 K2]; pose proof (newer_total _ _ H1 H2) as E;
    (split; [done|split; [done|]]);
    rewrite bool_decide_eq_true_2 in K1, K2 by done; by apply bytes_lt_total.
Qed.
End Versions.

(** ** The best version

    [best S o]: [o] is a version of [S] that none of [S] beats, or [S] is empty. *)

Section Best.
Context {PR : Primitives}.

Definition best (S : Version -> Prop) (o : option Version) : Prop :=
  match o with
  | Some v => S v /\ forall w, S w -> beats w v = false
  | None => forall w, ~ S w
  end.

Lemma beats_cong x v w : beats v w = false -> beats w v = false -> beats x v = beats x w.
Proof. intros H1 H2. destruct (beats_total v w H1 H2) as (E1 & E2 & E3). unfold beats. by rewrite E1, E2, E3. Qed.

Lemma best_better S T o o' : best S o -> best T o' -> best (fun v => S v \/ T v) (better o o').
Proof.
  destruct o as [v|], o' as [w|]; cbn; intros Hv Hw.
  - destruct Hv as [Sv Bv], Hw as [Tw Bw]. destruct (beats w v) eqn:E; (split; [auto|]); intros x [Hx|Hx]; auto.
    + specialize (Bv x Hx). destruct (beats x w) eqn:F; [|done]. by rewrite (beats_trans _ _ _ F E) in Bv.
    + specialize (Bw x Hx). destruct (beats x v) eqn:F; [|done]. destruct (beats v w) eqn:G.
      * by rewrite (beats_trans _ _ _ F G) in Bw.
      * by rewrite (beats_cong x v w G E), Bw in F.
  - split; [left; apply Hv|]. intros x [Hx|Hx]; [by apply Hv|by destruct (Hw x)].
  - split; [right; apply Hw|]. intros x [Hx|Hx]; [by destruct (Hv x)|by apply Hw].
  - intros x [Hx|Hx]; [by apply (Hv x)|by apply (Hw x)].
Qed.

(** No two contents of [S] have one hash. *)
Definition collision_free (S : Version -> Prop) : Prop :=
  forall v w, S v -> S w -> blake3_hash (v_fields v) = blake3_hash (v_fields w) -> v_fields v = v_fields w.

Lemma best_unique S o o' : collision_free S -> best S o -> best S o' -> o = o'.
Proof.
  intros Hc. destruct o as [v|], o' as [w|]; cbn; [|naive_solver..|done].
  intros [Sv Bv] [Sw Bw]. destruct (beats_total v w (Bw v Sv) (Bv w Sw)) as (E1 & E2 & E3).
  apply (Hc v w Sv Sw) in E3. destruct v, w; cbn in *; congruence.
Qed.

(** The best of [T] stands for all of it. *)
Lemma best_absorb S T t o :
  best T t -> best (fun v => S v \/ t = Some v) o -> best (fun v => S v \/ T v) o.
Proof.
  intros Ht. destruct o as [v|]; cbn.
  - intros [Hv Bv]. split; [destruct Hv as [?| ->]; [by left|right; apply Ht]|].
    intros x [Hx|Hx]; [by apply Bv; left|]. destruct t as [w|]; cbn in Ht; [|by destruct (Ht x)].
    destruct Ht as [Tw Bw]. specialize (Bw x Hx). pose proof (Bv w (or_intror eq_refl)) as Bwv.
    destruct (beats x v) eqn:F; [|done]. destruct (beats v w) eqn:G.
    + by rewrite (beats_trans _ _ _ F G) in Bw.
    + by rewrite (beats_cong x v w G Bwv), Bw in F.
  - intros H x [Hx|Hx]; [by apply (H x); left|]. destruct t as [w|]; cbn in Ht; [by apply (H w); right|by apply (Ht x)].
Qed.

Lemma best_ext S T o : (forall v, S v <-> T v) -> best S o -> best T o.
Proof. intros H. destruct o as [v|]; cbn; naive_solver. Qed.

Lemma best_one o : best (fun v => o = Some v) o.
Proof. destruct o as [v|]; cbn; [|done]. split; [done|]. intros w [= ->]. apply beats_irrefl. Qed.
End Best.

(** ** A merge takes the better version of each record *)

(** The records of a pool: one key per id, tombstones disabled. *)
Record pool_ok (U : list ClientConfig) : Prop := {
  pool_psk : forall a b, a ∈ U -> b ∈ U -> id a = id b -> psk a = psk b;
  pool_tombs : forall a, a ∈ U -> deleted a = true -> enabled a = false;
}.

Section Merging.
Context {PR : Primitives} {SD : Serde} (db : ClientDatabase) (U : list ClientConfig).
Hypothesis HU : pool_ok U.
Hypothesis Hnet : subnet_ok (network_config db).
Hypothesis Hrange : range_ok db.

(** A record with the id, the key and the version of one of the pool. *)
Definition from_pool (c : ClientConfig) : Prop :=
  exists u, u ∈ U /\ id c = id u /\ psk c = psk u /\ version c = version u /\ enabled c = enabled u.

Lemma adopt_version e inc :
  id e = id inc -> psk e = psk inc -> (deleted inc = true -> enabled inc = false) ->
  version (adopt e inc) = version inc /\ enabled (adopt e inc) = enabled inc.
Proof.
  intros Ei Ep Hd.
  assert (enabled inc && negb (deleted inc) = enabled inc) as Hen
    by (destruct (deleted inc); [rewrite Hd by done; done|apply andb_true_r]).
  unfold version, record_canonical_fields. cbn. rewrite Ei, Ep, Hen. done.
Qed.

Lemma set_ip_version ip c : version (set_vpn_ip ip c) = version c.
Proof. done. Qed.

Lemma from_pool_set_ip ip c : from_pool c -> from_pool (set_vpn_ip ip c).
Proof. done. Qed.

Lemma find_app {A} (p : A -> bool) l x :
  find p (l ++ [x]) = match find p l with Some y => Some y | None => if p x then Some x else None end.
Proof. induction l as [|y l IH]; [done|]. cbn. by destruct (p y). Qed.

Lemma view_push l c i : view (l ++ [c]) i = match view l i with
  | Some v => Some v | None => if has_id i c then Some (version c) else None end.
Proof. unfold view. rewrite find_app. destruct (find _ l); [done|]. by destruct (has_id i c). Qed.

Lemma view_update_same p f l i :
  (forall c, id (f c) = id c /\ version (f c) = version c) -> view (update_first p f l) i = view l i.
Proof.
  intros Hf. unfold view. induction l as [|c l IH]; [done|]. cbn [update_first].
  destruct (p c); cbn [find].
  - assert (has_id i (f c) = has_id i c) as -> by (unfold has_id; by destruct (Hf c) as [-> _]).
    destruct (has_id i c); [|done]. cbn. f_equal. apply Hf.
  - destruct (has_id i c); [done|apply IH].
Qed.

Lemma view_adopt l e inc i :
  find (has_id (id inc)) l = Some e -> version (adopt e inc) = version inc ->
  view (update_first (has_id (id inc)) (fun e => adopt e inc) l) i =
  if bool_decide (id inc = i) then Some (version inc) else view l i.
Proof.
  intros He Hv. unfold view. revert He. induction l as [|c l IH]; [done|]. cbn [find update_first].
  destruct (has_id (id inc) c) eqn:E.
  - intros [= ->]. cbn [find]. apply has_id_true in E. unfold has_id. cbn [adopt id]. rewrite E.
    destruct (bool_decide (id inc = i)); [cbn; by rewrite Hv|done].
  - intros He. cbn [find]. apply has_id_false in E. destruct (has_id i c) eqn:F; [|by apply IH].
    apply has_id_true in F. rewrite bool_decide_eq_false_2 by congruence. done.
Qed.

Definition merged (inc : ClientConfig) (d : ClientDbFile) : ClientDbFile := default d (merge_one db inc d).

(** The view of one record. *)
Definition only (inc : ClientConfig) (i : bytes) : option Version :=
  if bool_decide (id inc = i) then Some (version inc) else None.

Lemma better_None o : better o None = o.
Proof. by destruct o. Qed.

Lemma merge_new_view inc d :
  find (has_id (id inc)) (clients d) = None -> roomy db (length (clients d)) ->
  exists d', merge_new db inc d = Some d' /\
    (forall i, view (clients d') i = better (view (clients d) i) (only inc i)) /\
    (Forall from_pool (clients d) -> from_pool inc -> Forall from_pool (clients d')) /\
    length (clients d') = S (length (clients d)).
Proof.
  intros Hf Hroom.
  assert (forall x l i, id x = id inc -> version x = version inc -> view l (id inc) = None ->
    view (l ++ [x]) i = better (view l i) (only inc i)) as Hpush.
  { intros x l i Hi Hx Hl. rewrite view_push, Hx. unfold only, has_id. rewrite Hi.
    destruct (bool_decide (id inc = i)) eqn:E; [|by destruct (view l i)].
    apply bool_decide_eq_true in E. subst i. by rewrite Hl. }
  assert (view (clients d) (id inc) = None) as Hv by (unfold view; by rewrite Hf).
  unfold merge_new. destruct (find (conflicts inc) (clients d)) as [r|].
  - destruct (earlier inc r).
    + destruct (reassign_room db (id r) d Hnet Hrange Hroom) as [ip ->].
      eexists. split; [done|]. cbn [push with_clients clients].
      assert (forall x, view (update_first (conflicts inc) (set_vpn_ip ip) (clients d)) x = view (clients d) x) as Hu
        by (intros x; by apply view_update_same).
      split; [intros i; rewrite Hpush by (try done; by rewrite Hu); by rewrite Hu|]. split.
      * intros Hp Hi. apply Forall_app. split; [|by apply Forall_singleton]. rewrite Forall_forall in *.
        intros x [Hx|(y & Hy & _ & ->)]%elem_of_update_first; [auto|]. apply from_pool_set_ip. auto.
      * rewrite length_app. cbn. rewrite <-(length_map id), update_first_map by done. rewrite length_map. lia.
    + destruct (reassign_room db (id inc) d Hnet Hrange Hroom) as [ip ->].
      eexists. split; [done|]. cbn [push with_clients clients]. split; [intros i; by apply Hpush|]. split.
      * intros Hp Hi. apply Forall_app. split; [done|]. by apply Forall_singleton, from_pool_set_ip.
      * rewrite length_app. cbn. lia.
  - eexists. split; [done|]. cbn [push with_clients clients]. split; [intros i; by apply Hpush|]. split.
    + intros Hp Hi. apply Forall_app. split; [done|]. by apply Forall_singleton.
    + rewrite length_app. cbn. lia.
Qed.

Lemma merged_view inc d :
  Forall from_pool (clients d) -> from_pool inc -> roomy db (length (clients d)) ->
  (forall i, view (clients (merged inc d)) i = better (view (clients d) i) (only inc i)) /\
  Forall from_pool (clients (merged inc d)) /\ (length (clients (merged inc d)) <= S (length (clients d)))%nat.
Proof.
  intros Hd Hi Hroom. pose proof Hi as (u & Hu & Iu & Pu & Vu & Eu). unfold merged, merge_one.
  destruct (find (has_id (id inc)) (clients d)) as [e|] eqn:F.
  - pose proof (find_elem _ _ _ F) as [He Ie%has_id_true]. rewrite Forall_forall in Hd.
    pose proof (Hd e He) as (w & Hw & Iw & Pw & _).
    assert (psk e = psk inc) as Ep by (rewrite Pw, Pu; apply (pool_psk _ HU); [done..|congruence]).
    rewrite bool_decide_eq_true_2 by done. cbn [andb]. rewrite wins_beats.
    assert (forall i, better (view (clients d) i) (only inc i) =
      if bool_decide (id inc = i) && beats (version inc) (version e) then Some (version inc) else view (clients d) i) as Hb.
    { intros i. unfold only. destruct (bool_decide (id inc = i)) eqn:E; [|apply better_None].
      apply bool_decide_eq_true in E. subst i. unfold view. rewrite F. cbn. by destruct (beats _ _). }
    destruct (beats (version inc) (version e)) eqn:B; cbn [default from_option Datatypes.id with_clients clients].
    + assert (deleted inc = true -> enabled inc = false) as Ht.
      { intros Di. rewrite Eu. apply (pool_tombs _ HU); [done|]. apply (f_equal v_deleted) in Vu. cbn in Vu. congruence. }
      destruct (adopt_version e inc Ie Ep Ht) as [Va Ea]. split; [|split].
      * intros i. rewrite Hb, andb_true_r. by apply (view_adopt _ e).
      * apply Forall_forall. intros x [Hx|(y & Hy & Iy%has_id_true & ->)]%elem_of_update_first; [auto|].
        destruct (Hd y Hy) as (z & Hz & Iz & Pz & _).
        assert (psk y = psk inc) as Py by (rewrite Pz, Pu; apply (pool_psk _ HU); [done..|congruence]).
        destruct (adopt_version y inc Iy Py Ht) as [Vy Ey]. exists u.
        split_and!; [done|cbn [adopt id]; congruence|cbn [adopt psk]; congruence|congruence|congruence].
      * rewrite <-(length_map id), update_first_map by done. rewrite length_map. lia.
    + split; [intros i; by rewrite Hb, andb_false_r|]. split; [by apply Forall_forall|lia].
  - destruct (deleted inc) eqn:Di; [|destruct (vpn_ip inc =? _)].
    + cbn [from_option Datatypes.id push with_clients clients].
      split; [|split; [apply Forall_app; by rewrite Forall_singleton|rewrite length_app; cbn [length]; lia]].
      intros i. rewrite view_push. unfold only, has_id. destruct (bool_decide _) eqn:E; [|by destruct (view _ i)].
      apply bool_decide_eq_true in E. subst i. assert (view (clients d) (id inc) = None) as -> by (unfold view; by rewrite F). done.
    + destruct (reassign_room db (id inc) d Hnet Hrange Hroom) as [ip ->].
      destruct (merge_new_view (set_vpn_ip ip inc) d F Hroom) as (d' & -> & Hv & Hp & Hl). cbn.
      split; [done|split; [by apply Hp|lia]].
    + destruct (merge_new_view inc d F Hroom) as (d' & -> & Hv & Hp & Hl). cbn.
      split; [done|split; [by apply Hp|lia]].
Qed.

Definition merge_all (incoming : list ClientConfig) (d : ClientDbFile) : ClientDbFile :=
  fold_left (fun d inc => merged inc d) incoming d.

Lemma merge_loop_all incoming d n : (merge_loop db incoming d n).1 = merge_all incoming d.
Proof.
  revert d n. induction incoming as [|inc l IH]; intros d n; [done|]. cbn [merge_loop merge_all fold_left].
  unfold merged at 2. by destruct (merge_one db inc d).
Qed.

(** The versions of [i] in a list. *)
Definition offers (l : list ClientConfig) (i : bytes) (v : Version) : Prop :=
  exists c, c ∈ l /\ id c = i /\ version c = v.

Lemma only_best inc i : best (fun v => id inc = i /\ version inc = v) (only inc i).
Proof.
  unfold only. destruct (bool_decide (id inc = i)) eqn:E; cbn.
  - apply bool_decide_eq_true in E. split; [done|]. intros w [_ <-]. apply beats_irrefl.
  - apply bool_decide_eq_false in E. naive_solver.
Qed.

Lemma roomy_le n m : (m <= n)%nat -> roomy db n -> roomy db m.
Proof. unfold roomy. lia. Qed.

Lemma merge_all_pool incoming d :
  Forall from_pool (clients d) -> Forall from_pool incoming ->
  roomy db (length (clients d) + length incoming) ->
  Forall from_pool (clients (merge_all incoming d)).
Proof.
  revert d. induction incoming as [|inc l IH]; intros d Hd Hi Hroom; [done|].
  apply Forall_cons in Hi as [Hinc Hl]. cbn [length] in Hroom.
  destruct (merged_view inc d Hd Hinc ltac:(eapply roomy_le; [|exact Hroom]; lia)) as (_ & Hp & Hlen).
  apply IH; [done|done|]. eapply roomy_le; [|done]. lia.
Qed.

(** A merge of any records of the pool leaves the best version of each. *)
Lemma merge_all_best incoming d S i :
  Forall from_pool (clients d) -> Forall from_pool incoming ->
  roomy db (length (clients d) + length incoming) ->
  best S (view (clients d) i) ->
  best (fun v => S v \/ offers incoming i v) (view (clients (merge_all incoming d)) i).
Proof.
  revert d S. induction incoming as [|inc l IH]; intros d S Hd Hi Hroom Hb.
  { eapply best_ext; [|exact Hb]. intros v. split; [by left|]. intros [?|(c & ?%elem_of_nil & _)]; done. }
  apply Forall_cons in Hi as [Hinc Hl]. cbn [length] in Hroom.
  destruct (merged_view inc d Hd Hinc ltac:(eapply roomy_le; [|exact Hroom]; lia)) as (Hv & Hp & Hlen).
  specialize (IH (merged inc d) (fun v => S v \/ (id inc = i /\ version inc = v)) Hp Hl
    ltac:(eapply roomy_le; [|done]; lia)).
  eapply best_ext; [|apply IH; rewrite Hv; apply best_better; [done|apply only_best]].
  intros v. unfold offers. setoid_rewrite elem_of_cons. naive_solver.
Qed.

(** A merge that has nothing better to offer changes nothing. *)
Lemma merge_settled incoming d n :
  (forall c, c ∈ incoming -> exists e, find (has_id (id c)) (clients d) = Some e /\ beats (version c) (version e) = false) ->
  merge_loop db incoming d n = (d, n).
Proof.
  induction incoming as [|inc l IH]; intros H; [done|]. cbn [merge_loop].
  destruct (H inc ltac:(by left)) as (e & He & Hb). unfold merge_one. rewrite He, wins_beats, Hb, andb_false_r.
  apply IH. intros c Hc. apply H. by right.
Qed.
End Merging.

(** ** Equal views have equal digests *)

Section Digests.
Context {PR : Primitives} {SD : Serde}.

Lemma find_unique l c : NoDup (map id l) -> c ∈ l -> find (has_id (id c)) l = Some c.
Proof.
  intros Hn Hc. induction Hc as [c l|c x l Hc IH]; cbn in *; apply NoDup_cons in Hn as [Hx Hn].
  - unfold has_id. by rewrite bool_decide_eq_true_2.
  - destruct (has_id (id c) x) eqn:E; [|auto]. apply has_id_true in E. destruct Hx. rewrite E.
    by apply (list_elem_of_fmap_2 id).
Qed.

Lemma view_in l i : is_Some (view l i) <-> i ∈ map id l.
Proof.
  unfold view. rewrite fmap_is_Some. split.
  - intros [c [Hc Hi%has_id_true]%find_elem]. rewrite <-Hi. by apply (list_elem_of_fmap_2 id).
  - intros (c & -> & Hc)%list_elem_of_fmap. destruct (find _ l) as [x|] eqn:E; [by eexists|].
    rewrite find_None_iff in E. specialize (E c Hc). by apply has_id_false in E.
Qed.

Lemma view_offers l i : NoDup (map id l) -> best (offers l i) (view l i).
Proof.
  intros Hn. destruct (view l i) as [v|] eqn:E; cbn.
  - unfold view in E. apply fmap_Some in E as (c & Hc & ->). pose proof (find_elem _ _ _ Hc) as [Hin Hi%has_id_true].
    split; [by exists c|]. intros w (x & Hx & Ex & <-).
    pose proof (find_unique l x Hn Hx) as F. rewrite Ex, Hc in F. injection F as ->. apply beats_irrefl.
  - intros w (c & Hc & Hi & _). assert (is_Some (view l i)) as [? ?]; [|congruence].
    apply view_in. rewrite <-Hi. by apply (list_elem_of_fmap_2 id).
Qed.

(** The order in which [state_digest] walks the records. *)
Definition ordered (l : list ClientConfig) : list ClientConfig := sort_by id_lt l.

Definition ids_le (a b : bytes) : Prop := bytes_lt b a = false.

#[local] Instance ids_le_trans : Transitive ids_le.
Proof.
  intros a b c H1 H2. unfold ids_le in *. destruct (bytes_lt c a) eqn:E; [|done].
  destruct (bytes_lt a b) eqn:F.
  - by rewrite (bytes_lt_trans _ _ _ E F) in H2.
  - rewrite (bytes_lt_total a b F H1) in *. congruence.
Qed.

#[local] Instance ids_le_antisymm : AntiSymm (=) ids_le.
Proof. intros a b H1 H2. by apply bytes_lt_total. Qed.

Lemma ordered_ids l : Sorted ids_le (map id (ordered l)).
Proof.
  unfold ordered. pose proof (sort_by_sorted id_lt (fun a b => bytes_lt_asym (id a) (id b)) l) as H.
  induction H as [|x l' Hl IH Hd]; [constructor|]. cbn. constructor; [done|].
  destruct Hd; constructor. done.
Qed.

Lemma ordered_perm l : map id (ordered l) ≡ₚ map id l.
Proof. unfold ordered. by rewrite sort_by_perm. Qed.

(** Without duplicate ids the fields of the records, in order, are a function of the view. *)
Lemma ordered_fields l :
  NoDup (map id l) ->
  map record_canonical_fields (ordered l) =
  map (fun i => default [] (content l i)) (map id (ordered l)).
Proof.
  intros Hn. rewrite map_map. apply map_ext_in. intros c Hc%list_elem_of_In.
  unfold ordered in Hc. rewrite sort_by_perm in Hc. unfold content, view. by rewrite find_unique.
Qed.

Lemma content_in l i : is_Some (content l i) <-> i ∈ map id l.
Proof. unfold content. by rewrite fmap_is_Some, view_in. Qed.

Lemma same_ids l l' :
  NoDup (map id l) -> NoDup (map id l') -> (forall i, i ∈ map id l <-> i ∈ map id l') ->
  map id (ordered l) = map id (ordered l').
Proof.
  intros Hn Hn' Hi. apply (Sorted_unique ids_le); [apply ordered_ids|apply ordered_ids|].
  rewrite !ordered_perm. by apply NoDup_Permutation.
Qed.

Lemma content_digest d d' :
  NoDup (map id (clients d)) -> NoDup (map id (clients d')) ->
  (forall i, content (clients d) i = content (clients d') i) -> state_digest d = state_digest d'.
Proof.
  intros Hn Hn' Hv.
  assert (map id (ordered (clients d)) = map id (ordered (clients d'))) as E.
  { apply same_ids; [done..|]. intros i. by rewrite <-!content_in, Hv. }
  unfold state_digest. fold (ordered (clients d)) (ordered (clients d')).
  rewrite !ordered_fields by done. rewrite <-(length_map id), E, length_map. do 3 f_equal.
  apply map_ext. intros i. by rewrite Hv.
Qed.
End Digests.

(** ** Gossip

    A pool of nodes, each with the set of the nodes whose records have reached it. *)

Section Gossip.
Context {PR : Primitives} {SD : Serde}.

(** Node [db] merges what [from] exports. *)
Definition receive_export (now : Z) (from db : ClientDatabase) : ClientDatabase :=
  with_data (merge_records db (clients (data from)) now (data db)).1 db.

Abbreviation Pool := (list (ClientDatabase * gset nat)).

Definition start_pool (nodes : list ClientDatabase) : Pool := imap (fun i db => (db, {[i]})) nodes.

Definition deliver (now : Z) (p : Pool) (route : nat * nat) : Pool :=
  let '(j, i) := route in
  match p !! i, p !! j with
  | Some (db, heard), Some (from, told) => <[i := (receive_export now from db, heard ∪ told)]> p
  | _, _ => p
  end.

Lemma merged_ids db inc d :
  NoDup (map id (clients d)) -> NoDup (map id (clients (merged db inc d))).
Proof.
  intros Hn. unfold merged, merge_one. destruct (find (has_id (id inc)) (clients d)) as [e|] eqn:F.
  - destruct (_ && _); [|done]. cbn. by rewrite update_first_map.
  - assert (forall l c, map id l = map id (clients d) -> id c = id inc -> NoDup (map id (l ++ [c]))) as Hpush.
    { intros l c El Ec. rewrite map_app, El. cbn. apply NoDup_app. split; [done|]. split; [|apply NoDup_singleton].
      intros i (x & -> & Hx)%list_elem_of_fmap E%list_elem_of_singleton. rewrite find_None_iff in F.
      specialize (F x Hx). apply has_id_false in F. congruence. }
    assert (forall inc', id inc' = id inc -> NoDup (map id (clients (default d (merge_new db inc' d))))) as Hnew.
    { intros c Ec. unfold merge_new. destruct (find (conflicts c) _) as [r|]; [|by apply Hpush].
      destruct (earlier c r); destruct (deterministic_reassign_offset _ _ _); try done; apply Hpush; try done.
      by apply update_first_map. }
    destruct (deleted inc); [by apply Hpush|]. destruct (vpn_ip inc =? _); [|by apply Hnew].
    destruct (deterministic_reassign_offset _ _ _); [by apply Hnew|done].
Qed.

Lemma merge_all_ids db incoming d :
  NoDup (map id (clients d)) -> NoDup (map id (clients (merge_all db incoming d))).
Proof.
  revert d. induction incoming as [|inc l IH]; intros d Hn; [done|]. apply IH. by apply merged_ids.
Qed.

Context (nodes : list ClientDatabase) (now : Z).

(** Everything the nodes of the pool hold at the start. *)
Definition records : list ClientConfig := concat (map (fun db => clients (data db)) nodes).

(** A node of the pool: a valid subnet, unique ids, and room for the records of all. *)
Definition node_ok (db : ClientDatabase) : Prop :=
  subnet_ok (network_config db) /\ range_ok db /\ NoDup (map id (clients (data db))) /\
  roomy db (2 * length records).

Hypothesis Hpool : pool_ok records.
Hypothesis Hnodes : Forall node_ok nodes.
Hypothesis Halive : forall c, c ∈ records -> expired_tombstone now c = false.

(** The versions of [i] on the nodes of [heard]. *)
Definition heard_versions (heard : gset nat) (i : bytes) (v : Version) : Prop :=
  exists n db, n ∈ heard /\ nodes !! n = Some db /\ offers (clients (data db)) i v.

Record entry_ok (e : ClientDatabase * gset nat) : Prop := {
  entry_node : node_ok e.1;
  entry_pool : Forall (from_pool records) (clients (data e.1));
  entry_best : forall i, best (heard_versions e.2 i) (view (clients (data e.1)) i);
}.

Lemma pool_alive c : from_pool records c -> expired_tombstone now c = false.
Proof.
  intros (u & Hu & _ & _ & Hv & _). rewrite <-(Halive u Hu). unfold expired_tombstone.
  pose proof (f_equal v_deleted Hv) as E1. pose proof (f_equal v_updated Hv) as E2. cbn in E1, E2.
  by rewrite E1, E2.
Qed.

Lemma reap_alive l : Forall (from_pool records) l -> reap_expired_tombstones now l = l.
Proof.
  induction 1 as [|c l Hc Hl IH]; [done|]. unfold reap_expired_tombstones in *. rewrite filter_cons, IH.
  by rewrite decide_True by (by apply pool_alive).
Qed.

Lemma pool_length l : Forall (from_pool records) l -> NoDup (map id l) -> (length l <= length records)%nat.
Proof.
  intros Hp Hn. rewrite <-(length_map id l), <-(length_map id records).
  apply submseteq_length, NoDup_submseteq; [done|]. intros i (c & -> & Hc)%list_elem_of_fmap.
  rewrite Forall_forall in Hp. destruct (Hp c Hc) as (u & Hu & -> & _). by apply (list_elem_of_fmap_2 id).
Qed.

Lemma receive_entry db heard from told :
  entry_ok (db, heard) -> entry_ok (from, told) ->
  entry_ok (receive_export now from db, heard ∪ told).
Proof.
  intros [(Hc & Hr & Hn & Hroom) Hp Hb] [(_ & _ & Hn' & _) Hp' Hb']. cbn [fst snd] in *.
  pose proof (pool_length _ Hp Hn) as L. pose proof (pool_length _ Hp' Hn') as L'.
  assert (roomy db (length (clients (data db)) + length (clients (data from)))) as Hroom'
    by (eapply roomy_le; [|exact Hroom]; lia).
  pose proof (merge_all_pool db records Hpool Hc Hr _ _ Hp Hp' Hroom') as Hp2.
  assert (data (receive_export now from db) = merge_all db (clients (data from)) (data db)) as E.
  { unfold receive_export, merge_records. pose proof (merge_loop_all db (clients (data from)) (data db) 0) as E.
    destruct (merge_loop _ _ _ _) as [d n]. cbn [fst] in E. subst d. cbn [fst with_data data].
    unfold reap. rewrite reap_alive by done. by destruct (merge_all _ _ _). }
  split; cbn [fst snd].
  - split; [done|]. split; [done|]. split; [|done]. rewrite E. by apply merge_all_ids.
  - by rewrite E.
  - intros i. rewrite E.
    pose proof (merge_all_best db records Hpool Hc Hr (clients (data from)) (data db) _ i Hp Hp' Hroom' (Hb i)) as K.
    apply (best_ext (fun v => heard_versions heard i v \/ heard_versions told i v));
      [|eapply best_absorb; [exact (Hb' i)|]; eapply best_ext; [|exact K]].
    + intros v. split.
      * intros [(n & x & H & Hx)|(n & x & H & Hx)]; exists n, x; (split; [set_solver|done]).
      * intros (n & x & [H|H]%elem_of_union & Hx); [left|right]; by exists n, x.
    + intros v. apply or_iff_compat_l. pose proof (view_offers _ i Hn') as Ho. split.
      * intros (c & Hin & <- & <-). unfold view. by rewrite find_unique.
      * intros Ev. rewrite Ev in Ho. apply Ho.
Qed.

Lemma node_records n db c : nodes !! n = Some db -> c ∈ clients (data db) -> c ∈ records.
Proof.
  intros Hn Hc. apply list_elem_of_In, in_concat. exists (clients (data db)). split; [|by apply list_elem_of_In].
  apply in_map_iff. exists db. split; [done|]. apply list_elem_of_In. by eapply list_elem_of_lookup_2.
Qed.

Lemma start_entries i e : start_pool nodes !! i = Some e -> entry_ok e.
Proof.
  unfold start_pool. rewrite list_lookup_imap. intros (db & Hdb & ->)%fmap_Some.
  pose proof (Forall_lookup_1 _ _ _ _ Hnodes Hdb) as Hok. split; cbn [fst snd].
  - done.
  - apply Forall_forall. intros c Hc. exists c. split; [by eapply node_records|done].
  - intros k. destruct Hok as (_ & _ & Hn & _). eapply best_ext; [|by apply view_offers]. intros v. split.
    + intros Ho. exists i, db. split; [set_solver|done].
    + intros (n & x & ->%elem_of_singleton & Hx & Ho). rewrite Hdb in Hx. by injection Hx as <-.
Qed.

Lemma gossip_entries routes i e :
  fold_left (deliver now) routes (start_pool nodes) !! i = Some e -> entry_ok e.
Proof.
  assert (forall p, (forall i e, p !! i = Some e -> entry_ok e) -> forall i e,
    fold_left (deliver now) routes p !! i = Some e -> entry_ok e) as Hgen; [|apply Hgen, start_entries].
  induction routes as [|[j k] routes IH]; intros p Hp; [done|]. cbn [fold_left]. apply IH.
  intros n x. unfold deliver. destruct (p !! k) as [[db heard]|] eqn:Ek; [|apply Hp].
  destruct (p !! j) as [[from told]|] eqn:Ej; [|apply Hp].
  destruct (decide (n = k)) as [->|Hne]; [|rewrite list_lookup_insert_ne by done; apply Hp].
  rewrite list_lookup_insert_eq by (by eapply lookup_lt_Some). intros [= <-].
  by apply receive_entry; eapply Hp.
Qed.

(** C12: Strong eventual consistency. Let the nodes of a pool merge one another's exports in
    any order and as often as they like. Two nodes that have been reached by the records
    of the same nodes, directly or through others, agree: their digests are equal, and a
    further merge between them changes nothing. *)
Theorem gossip_converges routes i j a b heard :
  collision_free (fun v => exists k, offers records k v) ->
  fold_left (deliver now) routes (start_pool nodes) !! i = Some (a, heard) ->
  fold_left (deliver now) routes (start_pool nodes) !! j = Some (b, heard) ->
  state_digest (data a) = state_digest (data b) /\
  merge_loop a (clients (data b)) (data a) 0 = (data a, 0).
Proof.
  intros Hc [[_ [_ [Ha _]]] _ Ba]%gossip_entries [[_ [_ [Hb _]]] _ Bb]%gossip_entries. cbn [fst snd] in *.
  assert (forall k, view (clients (data a)) k = view (clients (data b)) k) as Hv.
  { intros k. eapply best_unique; [|apply Ba|apply Bb]. intros v w (n & x & _ & Hx & c & Hcx & _ & <-)
      (n' & x' & _ & Hx' & c' & Hcx' & _ & <-). apply Hc.
    - exists (id c), c. split; [exact (node_records n x c Hx Hcx)|done].
    - exists (id c'), c'. split; [exact (node_records n' x' c' Hx' Hcx')|done]. }
  split; [apply content_digest; [done..|]; intros k; unfold content; by rewrite Hv|]. apply merge_settled. intros c Hin.
  specialize (Hv (id c)). unfold view in Hv. rewrite (find_unique _ c Hb Hin) in Hv.
  apply fmap_Some in Hv as (e & He & Ev). exists e. split; [done|]. rewrite <-Ev. apply beats_irrefl.
Qed.
End Gossip.
