(* ===== verification/ClientDigest.v ===== *)
(** * The digests of the client database

    [state_digest] and [bucket_digests] of [client_db/merge.rs] decide whether two nodes
    have anything to tell one another. The canonical bytes of a record read back in one
    way, alone and in sequence; so without a collision of the hash equal digests mean
    equal content, the whole state and bucket by bucket, and the delta that one node
    sends another holds all that they differ in. *)

From S2P Require Import Prelude Collections Text IpAddr NetworkConfig Crypto.
From S2P Require Import ClientDb ClientStore ClientSync.
Local Open Scope Z_scope.

(** ** The canonical bytes of a record *)

Section Fields.
Context {PR : Primitives} {SD : Serde}.

Record record_wf (c : ClientConfig) : Prop := {
  wf_id : len (id c) < 4294967296;
  wf_psk : len (psk c) = 32;
  wf_name : len (name c) < 4294967296;
  wf_device : forall key, device_pubkey c = Some key -> len key = 32;
  wf_qos : len (default [] (qos_to_vec (qos c))) < 4294967296;
  wf_exit : forall addr, exit_node c = Some addr -> len addr < 4294967296;
}.

Lemma prefixed_inj x y r r' :
  len x < 4294967296 -> len y < 4294967296 ->
  prefixed_field x ++ r = prefixed_field y ++ r' -> x = y /\ r = r'.
Proof.
  intros Hx Hy. unfold prefixed_field. rewrite <-!app_assoc. intros H.
  apply app_inj_len in H as [El H]; [|by rewrite !length_le_bytes].
  apply wrap32_inj in El; [|lia|lia]. apply app_inj_len in H; [done|lia].
Qed.

Lemma byte_of_inj a b : byte_of a = byte_of b -> a = b.
Proof. by destruct a, b. Qed.

(** The bytes of a record in front of others tell where it ends, whose it is, and
    whether it is a tombstone. *)
Lemma fields_prefix c c' r r' :
  record_wf c -> record_wf c' ->
  record_canonical_fields c ++ r = record_canonical_fields c' ++ r' ->
  record_canonical_fields c = record_canonical_fields c' /\ r = r' /\ id c = id c' /\ deleted c = deleted c'.
Proof.
  intros Hc Hc' H.
  assert (length (record_canonical_fields c) = length (record_canonical_fields c') /\
          id c = id c' /\ deleted c = deleted c') as (El & Ei & Ed).
  { unfold record_canonical_fields in *. rewrite <-!app_assoc in H.
    apply prefixed_inj in H as [Ei H]; [|apply Hc|apply Hc'].
    apply app_inj_len in H as [Ep H]; [|pose proof (wf_psk _ Hc); pose proof (wf_psk _ Hc'); lia].
    apply prefixed_inj in H as [En H]; [|apply Hc|apply Hc'].
    apply app_inj_len in H as [Eb H]; [|done]. injection Eb as _ Ed _. apply byte_of_inj in Ed.
    apply app_inj_len in H as [Eu H]; [|done]. apply app_inj_len in H as [Ex H]; [|done].
    assert (forall c, record_wf c ->
      length (match device_pubkey c with Some key => 1 :: key | None => 0 :: zeros 32 end) = 33%nat) as Hdev.
    { intros x Hx. destruct (device_pubkey x) as [key|] eqn:E; [|done]. pose proof (wf_device _ Hx key E). cbn. lia. }
    apply app_inj_len in H as [Ek H]; [|by rewrite !Hdev].
    apply prefixed_inj in H as [Eq H]; [|apply Hc|apply Hc'].
    apply app_inj_len in H as [Er H]; [|done].
    assert (match exit_node c with Some addr => 1 :: prefixed_field addr | None => [0] end =
            match exit_node c' with Some addr => 1 :: prefixed_field addr | None => [0] end) as Ee.
    { pose proof (wf_exit _ Hc) as Hx. pose proof (wf_exit _ Hc') as Hx'.
      destruct (exit_node c) as [a|], (exit_node c') as [a'|]; try done.
      apply (f_equal (drop 1)) in H. change (prefixed_field a ++ r = prefixed_field a' ++ r') in H.
      apply prefixed_inj in H as [-> _]; [done|by apply Hx|by apply Hx']. }
    split; [|done]. rewrite !length_app, Ei, Ep, En, Ek, Eq, Ee. done. }
  apply app_inj_len in H as [Ef Hr]; done.
Qed.

Lemma fields_inj c c' :
  record_wf c -> record_wf c' -> record_canonical_fields c = record_canonical_fields c' ->
  id c = id c' /\ deleted c = deleted c'.
Proof.
  intros Hc Hc' H. destruct (fields_prefix c c' [] [] Hc Hc') as (_ & _ & ? & ?); [by rewrite H|done].
Qed.

Lemma concat_fields l l' :
  Forall record_wf l -> Forall record_wf l' -> length l = length l' ->
  concat (map record_canonical_fields l) = concat (map record_canonical_fields l') ->
  map record_canonical_fields l = map record_canonical_fields l' /\ map id l = map id l'.
Proof.
  intros H. revert l'. induction H as [|c l Hc Hl IH]; intros [|c' l'] H' Hlen E; try done.
  apply Forall_cons in H' as [Hc' Hl']. cbn [map concat] in E. apply fields_prefix in E as (Ef & E & Ei & _); [|done..].
  cbn [map]. rewrite Ef, Ei. destruct (IH l' Hl' ltac:(by injection Hlen) E) as [-> ->]. done.
Qed.
End Fields.

(** ** From digests to content *)

Section Contents.
Context {PR : Primitives} {SD : Serde}.

Lemma content_lists l l' i :
  map id l = map id l' -> map record_canonical_fields l = map record_canonical_fields l' -> content l i = content l' i.
Proof.
  revert l'. induction l as [|c l IH]; intros [|c' l'] Ei Ef; try done.
  cbn [map] in Ei, Ef. apply (inj2 cons) in Ei as [Ei Ei'], Ef as [Ef Ef'].
  specialize (IH l' Ei' Ef'). unfold content, view in *. cbn [find]. unfold has_id at 1 3. rewrite Ei.
  destruct (bool_decide (id c' = i)); [cbn [fmap option_fmap option_map version v_fields]; by rewrite Ef|done].
Qed.

Lemma content_perm l l' i : NoDup (map id l) -> l ≡ₚ l' -> content l i = content l' i.
Proof.
  intros Hn Hp. assert (NoDup (map id l')) as Hn' by (by rewrite <-Hp). unfold content, view.
  destruct (find (has_id i) l) as [c|] eqn:E.
  - apply find_elem in E as [Hc <-%has_id_true]. rewrite Hp in Hc. by rewrite find_unique.
  - rewrite find_None_iff in E. destruct (find (has_id i) l') as [c|] eqn:E'; [|done].
    apply find_elem in E' as [Hc Hi]. rewrite <-Hp in Hc. by rewrite E in Hi.
Qed.

Lemma content_bucket b l i :
  bucket_index_for_id i = Z.of_nat b -> content (filter (fun c => in_bucket b c = true) l) i = content l i.
Proof.
  intros Hb. induction l as [|c l IH]; [done|]. unfold content, view in *. rewrite filter_cons.
  destruct (decide (in_bucket b c = true)) as [Hc|Hc]; cbn [find].
  - by destruct (has_id i c).
  - destruct (has_id i c) eqn:E; [|done]. apply has_id_true in E. destruct Hc. unfold in_bucket. rewrite E, Hb.
    apply Z.eqb_refl.
Qed.

Definition digest_message (d : ClientDbFile) : bytes :=
  let records := ordered (clients d) in le_bytes 8 (len records) ++ concat (map record_canonical_fields records).

Definition bucket (l : list ClientConfig) (b : nat) : list ClientConfig := filter (fun c => in_bucket b c = true) l.

Definition bucket_message (l : list ClientConfig) (b : nat) : bytes :=
  let records := ordered (bucket l b) in
  le_bytes 4 (wrap32 (len records)) ++ concat (map record_canonical_hash records).

(** Everything that is hashed for the digests of a list. *)
Definition messages (l : list ClientConfig) : list bytes :=
  digest_message {| clients := l; next_host_offset := 0 |} :: map record_canonical_fields l
  ++ map (bucket_message l) (seq 0 POOL_SYNC_BUCKETS).

(** The first eight bytes of the hash tell the messages apart, and from an empty bucket. *)
Definition distinguishes (ms : list bytes) : Prop :=
  (forall a b, a ∈ ms -> b ∈ ms -> take 8 (blake3_hash a) = take 8 (blake3_hash b) -> a = b) /\
  forall a, a ∈ ms -> take 8 (blake3_hash a) <> zeros 8.

(** A list of records as a node holds it. *)
Record node_records_ok (l : list ClientConfig) : Prop := {
  nr_ids : NoDup (map id l);
  nr_wf : Forall record_wf l;
  nr_len : len l < 4294967296;
}.

Lemma content_ordered l i : NoDup (map id l) -> content l i = content (ordered l) i.
Proof. intros Hn. apply content_perm; [done|]. unfold ordered. by rewrite sort_by_perm. Qed.

Lemma ordered_wf l : Forall record_wf l -> Forall record_wf (ordered l).
Proof. intros H. unfold ordered. by rewrite sort_by_perm. Qed.

Lemma length_ordered l : length (ordered l) = length l.
Proof. unfold ordered. by rewrite sort_by_perm. Qed.

Lemma state_content d d' :
  node_records_ok (clients d) -> node_records_ok (clients d') ->
  digest_message d = digest_message d' -> forall i, content (clients d) i = content (clients d') i.
Proof.
  intros [Hn Hw Hl] [Hn' Hw' Hl'] E i. unfold digest_message in E.
  apply app_inj_len in E as [El E]; [|by rewrite !length_le_bytes].
  apply le_bytes_inj in El; [|change (256 ^ Z.of_nat 8) with 18446744073709551616; rewrite length_ordered; lia..].
  apply concat_fields in E as [Ef Ei]; [|by apply ordered_wf..|lia].
  rewrite (content_ordered (clients d)), (content_ordered (clients d')) by done. by apply content_lists.
Qed.

Lemma concat_hashes {PL : PrimitiveLaws} l l' :
  length l = length l' -> concat (map record_canonical_hash l) = concat (map record_canonical_hash l') ->
  map record_canonical_hash l = map record_canonical_hash l'.
Proof.
  revert l'. induction l as [|c l IH]; intros [|c' l'] Hl E; try done. cbn [map concat] in *.
  apply app_inj_len in E as [-> E].
  - f_equal. apply IH; [by injection Hl|done].
  - pose proof (blake3_hash_length (record_canonical_fields c)).
    pose proof (blake3_hash_length (record_canonical_fields c')). unfold record_canonical_hash. lia.
Qed.

Lemma hashes_fields ms l l' :
  distinguishes ms -> (forall c, c ∈ l -> record_canonical_fields c ∈ ms) ->
  (forall c, c ∈ l' -> record_canonical_fields c ∈ ms) ->
  map record_canonical_hash l = map record_canonical_hash l' ->
  map record_canonical_fields l = map record_canonical_fields l'.
Proof.
  intros [Hd _]. revert l'. induction l as [|c l IH]; intros [|c' l'] Hl Hl' E; try done.
  cbn [map] in *. apply (inj2 cons) in E as [E E']. f_equal.
  - apply Hd; [apply Hl; by left|apply Hl'; by left|]. unfold record_canonical_hash in E. by rewrite E.
  - apply IH; [intros x Hx; apply Hl; by right|intros x Hx; apply Hl'; by right|done].
Qed.

Lemma fields_ids l l' :
  Forall record_wf l -> Forall record_wf l' ->
  map record_canonical_fields l = map record_canonical_fields l' -> map id l = map id l'.
Proof.
  intros H. revert l'. induction H as [|c l Hc Hl IH]; intros [|c' l'] H' E; try done.
  apply Forall_cons in H' as [Hc' Hl']. cbn [map] in *. apply (inj2 cons) in E as [E E'].
  apply fields_inj in E as [-> _]; [|done..]. by rewrite (IH l').
Qed.

Lemma NoDup_bucket l b : NoDup (map id l) -> NoDup (map id (bucket l b)).
Proof.
  intros Hn. destruct (mirrors_filter (fun c => in_bucket b c = true) l l (mirrors_refl l Hn)) as [H _]. done.
Qed.

Lemma messages_fields l c : c ∈ l -> record_canonical_fields c ∈ messages l.
Proof. intros Hc. right. apply elem_of_app. left. by apply (list_elem_of_fmap_2 record_canonical_fields). Qed.

Lemma messages_bucket l b : (b < POOL_SYNC_BUCKETS)%nat -> bucket_message l b ∈ messages l.
Proof.
  intros Hb. right. apply elem_of_app. right. apply (list_elem_of_fmap_2 (bucket_message l)).
  apply elem_of_seq. lia.
Qed.

Lemma bucket_digest_eq l b :
  bucket_digest l b = match bucket l b with [] => zeros 8 | _ => take 8 (blake3_hash (bucket_message l b)) end.
Proof. unfold bucket_digest, bucket_message. fold (bucket l b). by destruct (bucket l b). Qed.

Lemma bucket_fields l b c : c ∈ ordered (bucket l b) -> record_canonical_fields c ∈ messages l.
Proof.
  unfold ordered. rewrite sort_by_perm. intros [_ Hc]%list_elem_of_filter. by apply messages_fields.
Qed.

Lemma bucket_wf l b : Forall record_wf l -> Forall record_wf (bucket l b).
Proof. rewrite !Forall_forall. intros H c [_ Hc]%list_elem_of_filter. auto. Qed.

(** Equal digests of a bucket mean equal content of it. *)
Lemma bucket_same {PL : PrimitiveLaws} ms l l' b :
  distinguishes ms -> (forall m, m ∈ messages l \/ m ∈ messages l' -> m ∈ ms) ->
  node_records_ok l -> node_records_ok l' -> (b < POOL_SYNC_BUCKETS)%nat ->
  bucket_digest l b = bucket_digest l' b ->
  forall i, bucket_index_for_id i = Z.of_nat b -> content l i = content l' i.
Proof.
  intros Hd Hms [Hn Hw Hl] [Hn' Hw' Hl'] Hb E i Hi.
  rewrite <-(content_bucket b l i Hi), <-(content_bucket b l' i Hi).
  fold (bucket l b) (bucket l' b). rewrite !bucket_digest_eq in E.
  pose proof Hd as [Hinj Hz].
  pose proof (Hms _ (or_introl (messages_bucket l b Hb))) as Hm.
  pose proof (Hms _ (or_intror (messages_bucket l' b Hb))) as Hm'.
  assert (bucket l b = [] /\ bucket l' b = [] \/ bucket_message l b = bucket_message l' b) as [[-> ->]|Em]; [|done|].
  { destruct (bucket l b) as [|c bl] eqn:B, (bucket l' b) as [|c' bl'] eqn:B'; [by left| | |right; by apply Hinj].
    - by destruct (Hz _ Hm').
    - by destruct (Hz _ Hm). }
  assert (len (bucket l b) <= len l /\ len (bucket l' b) <= len l') as [HL HL'].
  { split; apply inj_le, length_filter. }
  unfold bucket_message in Em. apply app_inj_len in Em as [El Em]; [|by rewrite !length_le_bytes].
  rewrite !length_ordered in El. apply wrap32_inj in El; [|lia|lia].
  assert (length (ordered (bucket l b)) = length (ordered (bucket l' b))) as Elen by (rewrite !length_ordered; lia).
  apply concat_hashes in Em; [|done].
  apply (hashes_fields ms) in Em; [|done|intros x Hx; apply Hms; left; by eapply bucket_fields
    |intros x Hx; apply Hms; right; by eapply bucket_fields].
  rewrite (content_ordered (bucket l b)), (content_ordered (bucket l' b)) by (by apply NoDup_bucket).
  apply content_lists; [|done]. apply fields_ids; [| |done]; apply ordered_wf; by apply bucket_wf.
Qed.

(** Equal content of a bucket gives equal digests of it. *)
Lemma content_bucket_digest l l' b :
  NoDup (map id l) -> NoDup (map id l') ->
  (forall i, bucket_index_for_id i = Z.of_nat b -> content l i = content l' i) ->
  bucket_digest l b = bucket_digest l' b.
Proof.
  intros Hn Hn' Hc.
  assert (forall i, content (bucket l b) i = content (bucket l' b) i) as Hb.
  { intros i. destruct (decide (bucket_index_for_id i = Z.of_nat b)) as [E|E].
    - unfold bucket. rewrite !content_bucket by done. auto.
    - assert (forall x, content (bucket x b) i = None) as Hx; [|by rewrite !Hx].
      intros x. destruct (content (bucket x b) i) eqn:F; [|done].
      assert (i ∈ map id (bucket x b)) as (c & -> & [Hin _]%list_elem_of_filter)%list_elem_of_fmap
        by (apply content_in; by rewrite F). unfold in_bucket in Hin. apply Z.eqb_eq in Hin. done. }
  apply NoDup_bucket with (b := b) in Hn, Hn'.
  assert (map id (ordered (bucket l b)) = map id (ordered (bucket l' b))) as Ei.
  { apply same_ids; [done..|]. intros i. by rewrite <-!content_in, Hb. }
  assert (map record_canonical_fields (ordered (bucket l b)) = map record_canonical_fields (ordered (bucket l' b))) as Ef.
  { rewrite !ordered_fields, Ei by done. apply map_ext. intros i. by rewrite Hb. }
  assert (length (bucket l b) = length (bucket l' b)) as El
    by (rewrite <-(length_ordered (bucket l b)), <-(length_ordered (bucket l' b)), <-(length_map id), Ei; apply length_map).
  assert (map record_canonical_hash (ordered (bucket l b)) = map record_canonical_hash (ordered (bucket l' b))) as Eh.
  { apply (f_equal (map blake3_hash)) in Ef. by rewrite !map_map in Ef. }
  rewrite !bucket_digest_eq. unfold bucket_message. rewrite Eh, !length_ordered, El.
  by destruct (bucket l b), (bucket l' b).
Qed.

Lemma length_bucket_digest {PL : PrimitiveLaws} l b : length (bucket_digest l b) = 8%nat.
Proof.
  rewrite bucket_digest_eq. destruct (bucket l b); [done|].
  rewrite length_take. pose proof (blake3_hash_length (bucket_message l b)). lia.
Qed.

Lemma chunks8_concat ps : Forall (fun p => length p = 8%nat) ps -> chunks8 (length ps) (concat ps) = ps.
Proof.
  induction 1 as [|p ps Hp Hps IH]; [done|]. cbn [length concat chunks8].
  rewrite take_app_length' by done. by rewrite drop_app_length', IH.
Qed.

Lemma length_concat8 (ps : list bytes) : Forall (fun p => length p = 8%nat) ps -> length (concat ps) = (8 * length ps)%nat.
Proof. induction 1 as [|p ps Hp Hps IH]; [done|]. cbn [concat length]. rewrite length_app, IH. lia. Qed.

Definition digest_list (d : ClientDbFile) : list bytes := map (bucket_digest (clients d)) (seq 0 POOL_SYNC_BUCKETS).

Lemma digest_list_8 {PL : PrimitiveLaws} d : Forall (fun p => length p = 8%nat) (digest_list d).
Proof.
  apply Forall_forall. intros p (b & -> & _)%list_elem_of_fmap. apply length_bucket_digest.
Qed.

Lemma differing_spec {PL : PrimitiveLaws} d d' x :
  x ∈ differing_pool_buckets (bucket_digests d) (bucket_digests d') <->
  exists b, (b < POOL_SYNC_BUCKETS)%nat /\ x = Z.of_nat b /\ bucket_digest (clients d) b <> bucket_digest (clients d') b.
Proof.
  unfold differing_pool_buckets, bucket_digests. fold (digest_list d) (digest_list d').
  pose proof (digest_list_8 d) as H8. pose proof (digest_list_8 d') as H8'.
  assert (length (digest_list d) = POOL_SYNC_BUCKETS /\ length (digest_list d') = POOL_SYNC_BUCKETS) as [L L']
    by (unfold digest_list; by rewrite !length_map, length_seq).
  rewrite !length_concat8, L, L' by done.
  change (negb (_ =? _) || _) with false. cbv iota.
  replace (Nat.div (8 * POOL_SYNC_BUCKETS) 8) with POOL_SYNC_BUCKETS by reflexivity.
  pose proof (chunks8_concat _ H8) as C. pose proof (chunks8_concat _ H8') as C'.
  rewrite L in C. rewrite L' in C'. rewrite C, C'.
  rewrite list_elem_of_fmap. setoid_rewrite list_elem_of_filter. split.
  - intros (e & -> & Hne & (k & Hk)%list_elem_of_lookup).
    apply lookup_zip_with_Some in Hk as (a & [p q] & -> & Ha & Hz). apply lookup_zip_with_Some in Hz as (p' & q' & [= -> ->] & Hp & Hq).
    apply lookup_seq in Ha as [-> Hlt]. cbn [fst snd] in *. exists k. split; [done|].
    unfold digest_list in Hp, Hq. apply list_lookup_fmap_Some in Hp as (i & -> & Hi), Hq as (j & -> & Hj).
    apply lookup_seq in Hi as [-> _], Hj as [-> _]. split; [|done]. unfold wrap16, POOL_SYNC_BUCKETS in *.
    rewrite Z.mod_small by lia. done.
  - intros (b & Hb & -> & Hne). exists (b, (bucket_digest (clients d) b, bucket_digest (clients d') b)).
    cbn [fst snd]. split; [unfold wrap16, POOL_SYNC_BUCKETS in *; rewrite Z.mod_small by lia; done|]. split; [done|].
    apply list_elem_of_lookup. exists b. apply lookup_zip_with_Some. do 2 eexists. split; [done|].
    split; [by apply lookup_seq|]. apply lookup_zip_with_Some. do 2 eexists. split; [done|].
    unfold digest_list. rewrite !list_lookup_fmap. by rewrite !(proj2 (lookup_seq 0 POOL_SYNC_BUCKETS b b)).
Qed.

Lemma bucket_bound i : 0 <= bucket_index_for_id i < 64.
Proof. unfold bucket_index_for_id. change (Z.of_nat POOL_SYNC_BUCKETS) with 64. apply Z.mod_pos_bound. lia. Qed.

Lemma digests_content {PL : PrimitiveLaws} ms d d' :
  distinguishes ms -> (forall m, m ∈ messages (clients d) \/ m ∈ messages (clients d') -> m ∈ ms) ->
  node_records_ok (clients d) -> node_records_ok (clients d') ->
  (state_digest d = state_digest d' \/ bucket_digests d = bucket_digests d') ->
  forall i, content (clients d) i = content (clients d') i.
Proof.
  intros Hd Hms Hok Hok' [E|E] i.
  - apply state_content; [done..|]. apply Hd; [apply Hms; left; left|apply Hms; right; left|].
    change (digest_message {| clients := clients d; next_host_offset := 0 |}) with (digest_message d).
    change (blake3_hash (digest_message d)) with (state_digest d). by rewrite E.
  - pose proof (bucket_bound i) as Hi.
    apply (bucket_same ms (clients d) (clients d') (Z.to_nat (bucket_index_for_id i))); try done;
      [unfold POOL_SYNC_BUCKETS; lia| |lia].
    destruct (decide (bucket_digest (clients d) (Z.to_nat (bucket_index_for_id i)) =
                      bucket_digest (clients d') (Z.to_nat (bucket_index_for_id i)))) as [|Hne]; [done|].
    assert (bucket_index_for_id i ∈ differing_pool_buckets (bucket_digests d) (bucket_digests d')) as Hin.
    { apply differing_spec. exists (Z.to_nat (bucket_index_for_id i)). unfold POOL_SYNC_BUCKETS. split_and!; [lia|lia|done]. }
    rewrite E in Hin. apply differing_spec in Hin as (b & _ & _ & Hb). done.
Qed.

(** C39: The digest of the whole state and the digests of the buckets say the same: without a
    collision among the messages hashed, either is equal on two nodes if and only if the
    nodes hold the same content for every id. *)
Theorem digests_decide {PL : PrimitiveLaws} d d' :
  node_records_ok (clients d) -> node_records_ok (clients d') ->
  distinguishes (messages (clients d) ++ messages (clients d')) ->
  (state_digest d = state_digest d' <-> forall i, content (clients d) i = content (clients d') i) /\
  (state_digest d = state_digest d' <-> bucket_digests d = bucket_digests d').
Proof.
  intros Hok Hok' Hd.
  assert (forall m, m ∈ messages (clients d) \/ m ∈ messages (clients d') ->
    m ∈ messages (clients d) ++ messages (clients d')) as Hms by (intros; by apply elem_of_app).
  pose proof (digests_content _ d d' Hd Hms Hok Hok') as H.
  assert ((forall i, content (clients d) i = content (clients d') i) ->
    state_digest d = state_digest d' /\ bucket_digests d = bucket_digests d') as Hc.
  { intros Hi. split; [apply content_digest; [apply Hok|apply Hok'|done]|]. unfold bucket_digests. f_equal.
    apply map_ext. intros b. apply content_bucket_digest; [apply Hok|apply Hok'|auto]. }
  split; split; intros E; [apply H; by left|by apply Hc|apply Hc, H; by left|apply Hc, H; by right].
Qed.
End Contents.

(** ** Witnesses *)

Section Sample.

(** A stand-in for BLAKE3 whose first eight bytes depend on the whole message. *)
#[local] Instance fnv_primitives : Primitives := {|
  blake3_hash := fun m => le_bytes 8 (fnv1a_hash m) ++ zeros 24;
  derive_key := fun c m => toy_hash (str_bytes c ++ m);
  keyed_hash := fun k m => toy_hash (m ++ k);
  x25519 := zip_with Z.lxor;
  x25519_base := fun k => k;
  chacha_seal := fun k n a p => Some (p ++ toy_mac n (length p));
  chacha_open := fun k n a c => toy_open n c;
  xchacha_seal := fun k n a p => Some (p, toy_mac (toy_aad_counter a) (length p));
  xchacha_open := fun k n a c => toy_open (toy_aad_counter a) c;
  verifying_key_ok := fun k => len k =? 32;
  verify_strict := fun k m s => bool_decide (s = m);
|}.

#[local] Instance fnv_laws : PrimitiveLaws.
Proof.
  destruct toy_laws as [_ ? ? ? ? ? ? ?]. constructor; try done.
Qed.

#[local] Instance no_serde : Serde := table_serde [] [].

Definition node (l : list ClientConfig) : ClientDatabase :=
  with_data {| clients := l; next_host_offset := 2 |} (loaded None).

(** Two nodes that disagree about one client. *)
Definition two_nodes : list ClientDatabase := [node [alice false 3600000000]; node [alice true 1000000]].

Lemma alice_once b t : NoDup (map id [alice b t]).
Proof. apply NoDup_singleton. Qed.

Lemma two_records c :
  c ∈ records two_nodes -> c = alice false 3600000000 \/ c = alice true 1000000.
Proof.
  change (records two_nodes) with [alice false 3600000000; alice true 1000000].
  by rewrite elem_of_cons, list_elem_of_singleton.
Qed.

Lemma gossip_converges_witness :
  let p := fold_left (deliver 0) [(0, 1); (1, 0)]%nat (start_pool two_nodes) in
  fmap (fun e => map deleted (clients (data e.1))) p = [[true]; [true]] /\
  fmap (fun e => state_digest (data e.1)) (p !! 0%nat) = fmap (fun e => state_digest (data e.1)) (p !! 1%nat).
Proof.
  split; [by vm_compute|].
  destruct (fold_left (deliver 0) [(0, 1); (1, 0)]%nat (start_pool two_nodes) !! 0%nat) as [[a h]|] eqn:Ea; [|done].
  destruct (fold_left (deliver 0) [(0, 1); (1, 0)]%nat (start_pool two_nodes) !! 1%nat) as [[b h']|] eqn:Eb; [|done].
  assert (h = h') as <-.
  { apply (f_equal (fmap snd)) in Ea, Eb. cbn [fmap option_fmap option_map snd] in Ea, Eb.
    vm_compute in Ea. vm_compute in Eb. congruence. }
  cbn [fmap option_fmap option_map fst]. f_equal.
  refine (proj1 (gossip_converges two_nodes 0 _ _ _ [(0, 1); (1, 0)]%nat 0 1 a b h _ Ea Eb)).
  - constructor; [by intros x y [-> | ->]%two_records [-> | ->]%two_records|by intros x [-> | ->]%two_records].
  - apply Forall_cons_2; [|apply Forall_cons_2; [|apply Forall_nil_2]];
      (split; [vm_compute; by split_and?|]; split; [vm_compute; by split_and?|]; split; [apply alice_once|by vm_compute]).
  - by intros x [-> | ->]%two_records.
  - intros v w (k & c & [-> | ->]%two_records & _ & <-) (k' & c' & [-> | ->]%two_records & _ & <-);
      vm_compute; by intros E.
Defined.

Definition distinguishes_b (ms : list bytes) : bool :=
  let hs := map (fun a => (take 8 (blake3_hash a), a)) ms in
  forallb (fun h => negb (bool_decide (h.1 = zeros 8)) &&
    forallb (fun h' => negb (bool_decide (h.1 = h'.1)) || bool_decide (h.2 = h'.2)) hs) hs.

Lemma distinguishes_check ms : distinguishes_b ms = true -> distinguishes ms.
Proof.
  unfold distinguishes_b. rewrite forallb_forall. intros H.
  assert (forall a, a ∈ ms -> In (take 8 (blake3_hash a), a) (map (fun a => (take 8 (blake3_hash a), a)) ms)) as Hin.
  { intros a Ha%list_elem_of_In. apply in_map_iff. by exists a. }
  split.
  - intros a b Ha Hb E. specialize (H _ (Hin a Ha)). apply andb_prop in H as [_ H].
    rewrite forallb_forall in H. specialize (H _ (Hin b Hb)). cbn [fst snd] in H.
    rewrite bool_decide_eq_true_2 in H by done. by apply bool_decide_eq_true in H.
  - intros a Ha E. specialize (H _ (Hin a Ha)). cbn [fst] in H. by rewrite bool_decide_eq_true_2 in H by done.
Qed.

Lemma digests_decide_witness :
  let d := {| clients := [alice false 3600000000]; next_host_offset := 2 |} in
  let d' := {| clients := [alice true 1000000]; next_host_offset := 2 |} in
  bucket_digests d <> bucket_digests d'.
Proof.
  intros d d' E.
  assert (forall b t, node_records_ok [alice b t]) as Hok.
  { intros b t. split; [apply alice_once| |done]. apply Forall_singleton. by constructor. }
  destruct (digests_decide d d' (Hok _ _) (Hok _ _)) as [Hc Hb]; [apply distinguishes_check; by vm_compute|].
  apply Hb, Hc with (i := [97]) in E. vm_compute in E. discriminate E.
Defined.
End Sample.
