(* ===== verification/PeerGate.v ===== *)
(** * Messages between the nodes of a pool

    What the gateway does with the control messages of another server:
    [handle_control_message] of [gateway/control_dispatch.rs] with its checks of the
    registry, of the enrollment and of site peers, the handlers of the enrollment and of
    the pool messages, and the side of the node that dialled, [anti_entropy] of
    [pool_dialer.rs]. The theorems: only a node that is let in sees or changes the clients,
    and a node that is revoked is let in no more. *)

From S2P Require Import Prelude Collections Text Utf8 IpAddr NetworkConfig Control Crypto.
From S2P Require Import NodeRegistry ClientDb.
Import ControlPayload (PoolSync, PoolStateDigest, PoolBucketDigests, NodeEnrollment, RouteSync, SiteData).
Import ControlPayload (Keepalive, KeepaliveAck, ControlAck, KeyRotate).
Local Open Scope Z_scope.

(** The fields of a session that say who the peer is. *)
Record PeerSession : Type := {
  is_site_peer : bool;
  site_peer_names : list bytes;
  is_masked_pool_peer : bool;
  verified_node_id : option bytes;
  verified_node_pub : option bytes;
  session_server_eph_pub : option bytes;
  eph_pub : bytes;
}.

Definition with_verified (node_id node_pub : bytes) (s : PeerSession) : PeerSession :=
  {| is_site_peer := is_site_peer s; site_peer_names := site_peer_names s;
     is_masked_pool_peer := is_masked_pool_peer s; verified_node_id := Some node_id;
     verified_node_pub := Some node_pub; session_server_eph_pub := session_server_eph_pub s;
     eph_pub := eph_pub s |}.

(** The registry of the gateway: whether it may add nodes, and its process and file. *)
Record Gateway : Type := {
  client_db : option Host;
  node_registry : option (bool * Place);
  require_node_enrollment : bool;
}.

Definition with_registry (p : Place) (g : Gateway) : Gateway :=
  {| client_db := client_db g; node_registry := (fun r => (r.1, p)) <$> node_registry g;
     require_node_enrollment := require_node_enrollment g |}.

Definition with_client_db (h : Host) (g : Gateway) : Gateway :=
  {| client_db := Some h; node_registry := node_registry g;
     require_node_enrollment := require_node_enrollment g |}.

(** What an unverified node may send. *)
Definition before_enrollment (m : ControlPayload.t) : bool :=
  match m with
  | NodeEnrollment _ _ _ _ | Keepalive _ | KeepaliveAck _ | ControlAck _ _ | KeyRotate _ => true
  | _ => false
  end.

(** What a site may send. *)
Definition of_site (m : ControlPayload.t) : bool :=
  match m with
  | NodeEnrollment _ _ _ _ | RouteSync _ | ControlPayload.MaskState _ | SiteData _
  | Keepalive _ | KeepaliveAck _ | ControlAck _ _ | KeyRotate _ => true
  | _ => false
  end.

Definition identity (s : PeerSession) : option (bytes * bytes) :=
  match verified_node_id s, verified_node_pub s with Some i, Some k => Some (i, k) | _, _ => None end.

Section Gate.
Context {PR : Primitives} {RT : RegistryText} {SD : Serde}.

(** The registry lets the session go on. *)
Definition registry_gate (io : RegistryIo) (s : PeerSession) (g : Gateway) : Gateway * bool :=
  match node_registry g with
  | None => (g, true)
  | Some (_, p) =>
      match identity s with
      | None =>
          if is_masked_pool_peer s then
            let '(p, ok) := check_health io p in (with_registry p g, ok)
          else (g, true)
      | Some (node_id, node_pub) =>
          let '(p, ok) := is_authorized io node_id node_pub p in (with_registry p g, ok)
      end
  end.

(** The checks of [handle_control_message] in front of the handlers. *)
Definition control_gate (io : RegistryIo) (s : PeerSession) (m : ControlPayload.t) (g : Gateway) : Gateway * bool :=
  let '(g, ok) := registry_gate io s g in
  if negb ok then (g, false)
  else
  let unverified_peer := is_masked_pool_peer s && require_node_enrollment g
                         && negb (bool_decide (is_Some (verified_node_id s))) in
  if unverified_peer && negb (before_enrollment m) then (g, false)
  else if is_site_peer s && negb (of_site m) then (g, false)
  else (g, true).

Definition on_pool_sync (sys : System) (s : PeerSession) (clients_json : bytes) (g : Gateway) : Gateway :=
  if negb (is_masked_pool_peer s && negb (is_site_peer s)) then g
  else
  match client_db g with
  | Some h => with_client_db (merge_from_json (from_utf8_lossy clients_json) sys h).1 g
  | None => g
  end.

Definition on_pool_state_digest (s : PeerSession) (digest : bytes) (g : Gateway) : list ControlPayload.t :=
  if negb (is_masked_pool_peer s) then []
  else
  match client_db g with
  | Some h =>
      if bool_decide (digest = state_digest (data (db h))) then []
      else [PoolBucketDigests (bucket_digests (data (db h))) true]
  | None => []
  end.

(** The answer to the bucket digests of a peer, on either side of a connection. *)
Definition bucket_reply (h : Host) (digests : bytes) (reply_requested : bool) : list ControlPayload.t :=
  let local_buckets := bucket_digests (data (db h)) in
  let differing := differing_pool_buckets local_buckets digests in
  (match differing with
   | [] => []
   | _ => [PoolSync (clients_json_for_buckets (data (db h)) differing)]
   end) ++ (if reply_requested then [PoolBucketDigests local_buckets false] else []).

Definition on_pool_bucket_digests (s : PeerSession) (digests : bytes) (reply_requested : bool) (g : Gateway)
    : list ControlPayload.t :=
  if negb (is_masked_pool_peer s) then []
  else
  match client_db g with
  | Some h => bucket_reply h digests reply_requested
  | None => []
  end.

(** The session once the registry has answered. *)
Definition on_node_enrollment (io : RegistryIo) (now_ms : Z) (node_id node_pub : bytes) (time_window : Z)
    (signature : bytes) (s : PeerSession) (g : Gateway) : PeerSession * Gateway :=
  if is_site_peer s && negb (bool_decide (node_id ∈ site_peer_names s)) then (s, g)
  else if negb (is_masked_pool_peer s) then (s, g)
  else
  match node_registry g with
  | None => (s, g)
  | Some (allow, p) =>
      let x := {| NodeRegistry.node_id := node_id; NodeRegistry.node_pub := node_pub;
                  NodeRegistry.time_window := time_window; NodeRegistry.signature := signature;
                  server_eph_pub := default (zeros 32) (session_server_eph_pub s);
                  client_eph_pub := eph_pub s |} in
      let '(p, o) := authenticate io allow now_ms x p in
      (if NodeAuthOutcome.accepted o then with_verified node_id node_pub s else s, with_registry p g)
  end.

(** What a message of a peer does to the gateway and to the session, and the pool messages
    that are sent back. Messages of other kinds go to other parts of the gateway. *)
Definition handle_control (io : RegistryIo) (sys : System) (now_ms : Z) (m : ControlPayload.t)
    (s : PeerSession) (g : Gateway) : PeerSession * Gateway * list ControlPayload.t :=
  let '(g, ok) := control_gate io s m g in
  if negb ok then (s, g, [])
  else
  match m with
  | PoolSync clients_json => (s, on_pool_sync sys s clients_json g, [])
  | PoolStateDigest digest => (s, g, on_pool_state_digest s digest g)
  | PoolBucketDigests digests reply_requested => (s, g, on_pool_bucket_digests s digests reply_requested g)
  | NodeEnrollment node_id node_pub time_window signature =>
      let '(s, g) := on_node_enrollment io now_ms node_id node_pub time_window signature s g in (s, g, [])
  | _ => (s, g, [])
  end.

(** ** The node that dialled *)

Record Dialer : Type := {
  dl_host : Host;
  dl_require_node_enrollment : bool;
  verified_node : option bytes;
  site_identity : option bytes;
  last_converged : Z;
  warned_stale : bool;
}.

Definition with_host (h : Host) (d : Dialer) : Dialer :=
  {| dl_host := h; dl_require_node_enrollment := dl_require_node_enrollment d; verified_node := verified_node d;
     site_identity := site_identity d; last_converged := last_converged d; warned_stale := warned_stale d |}.

Definition converged_at (t : Z) (d : Dialer) : Dialer :=
  {| dl_host := dl_host d; dl_require_node_enrollment := dl_require_node_enrollment d;
     verified_node := verified_node d; site_identity := site_identity d; last_converged := t; warned_stale := false |}.

(** The digest that each beacon announces. *)
Definition beacon (d : Dialer) : list ControlPayload.t :=
  match site_identity d with
  | None => [PoolStateDigest (state_digest (data (db (dl_host d))))]
  | Some _ => []
  end.

(** The messages that a site link passes on. *)
Definition dialer_of_site (m : ControlPayload.t) : bool :=
  match m with NodeEnrollment _ _ _ _ | RouteSync _ | SiteData _ => true | _ => false end.

(** Whether the dialer looks at a message. *)
Definition dialer_takes (m : ControlPayload.t) (d : Dialer) : bool :=
  if dl_require_node_enrollment d && negb (bool_decide (is_Some (verified_node d))) then false
  else
  match site_identity d with
  | Some expected => bool_decide (verified_node d = Some expected) && dialer_of_site m
  | None => true
  end.

Definition dialer_receives (sys : System) (m : ControlPayload.t) (d : Dialer) : Dialer * list ControlPayload.t :=
  if negb (dialer_takes m d) then (d, [])
  else
  let h := dl_host d in
  match m with
  | PoolStateDigest digest =>
      if bool_decide (digest = state_digest (data (db h))) then (converged_at (now sys) d, [])
      else (d, [PoolBucketDigests (bucket_digests (data (db h))) true])
  | PoolBucketDigests peer_buckets reply_requested =>
      let d := match differing_pool_buckets (bucket_digests (data (db h))) peer_buckets with
               | [] => converged_at (now sys) d
               | _ => d
               end in
      (d, bucket_reply h peer_buckets reply_requested)
  | PoolSync clients_json =>
      if utf8_valid clients_json then (with_host (merge_from_json clients_json sys h).1 d, []) else (d, [])
  | _ => (d, [])
  end.
End Gate.

(** ** Who gets in *)

Section Access.
Context {PR : Primitives} {RT : RegistryText} {SD : Serde}.

Lemma with_registry_db p g : client_db (with_registry p g) = client_db g.
Proof. done. Qed.

(** What the registry says of the session. *)
Definition registry_clears (io : RegistryIo) (s : PeerSession) (g : Gateway) : Prop :=
  forall allow p, node_registry g = Some (allow, p) ->
    match identity s with
    | Some (i, k) => (is_authorized io i k p).2 = true
    | None => is_masked_pool_peer s = true -> (check_health io p).2 = true
    end.

Lemma registry_gate_spec io s g :
  client_db (registry_gate io s g).1 = client_db g /\
  require_node_enrollment (registry_gate io s g).1 = require_node_enrollment g /\
  ((registry_gate io s g).2 = true <-> registry_clears io s g).
Proof.
  unfold registry_gate, registry_clears. destruct (node_registry g) as [[allow p]|] eqn:E; [|naive_solver].
  destruct (identity s) as [[i k]|].
  - destruct (is_authorized io i k p) as [p' ok] eqn:A. split; [done|]. split; [done|]. cbn. split.
    + intros -> ? ? [= <- <-]. by rewrite A.
    + intros H. specialize (H allow p eq_refl). by rewrite A in H.
  - destruct (is_masked_pool_peer s); [|naive_solver].
    destruct (check_health io p) as [p' ok] eqn:A. split; [done|]. split; [done|]. cbn. split.
    + intros -> ? ? [= <- <-] _. by rewrite A.
    + intros H. specialize (H allow p eq_refl eq_refl). by rewrite A in H.
Qed.

Lemma control_gate_spec io s m g :
  client_db (control_gate io s m g).1 = client_db g /\
  ((control_gate io s m g).2 = true <->
   registry_clears io s g /\
   (is_masked_pool_peer s = true -> require_node_enrollment g = true -> before_enrollment m = false ->
    is_Some (verified_node_id s)) /\
   (is_site_peer s = true -> of_site m = true)).
Proof.
  destruct (registry_gate_spec io s g) as (Hdb & Hreq & Hok). unfold control_gate.
  destruct (registry_gate io s g) as [g1 ok]. cbn [fst snd] in *. rewrite <-Hreq.
  destruct ok; cbn [negb]; [|split; [done|]; naive_solver].
  assert (registry_clears io s g) as Hc by by apply Hok.
  destruct (is_masked_pool_peer s), (require_node_enrollment g1), (before_enrollment m), (is_site_peer s), (of_site m);
    cbn; try case_bool_decide; cbn; split; naive_solver.
Qed.

Lemma pool_handlers io sys now_ms m s g s' g' out :
  handle_control io sys now_ms m s g = (s', g', out) ->
  out <> [] \/ client_db g' <> client_db g ->
  (control_gate io s m g).2 = true /\ before_enrollment m = false /\ of_site m = false /\ is_masked_pool_peer s = true.
Proof.
  unfold handle_control. destruct (control_gate_spec io s m g) as [Hdb _].
  destruct (control_gate io s m g) as [g1 []]; cbn [fst snd negb] in *; [|intros [= <- <- <-]; rewrite Hdb; naive_solver].
  destruct m; try (intros [= <- <- <-]; rewrite Hdb; naive_solver).
  - intros [= <- <- <-]. unfold on_pool_sync. rewrite <-Hdb. destruct (is_masked_pool_peer s); [|naive_solver].
    intros _. done.
  - intros [= <- <- <-]. unfold on_pool_state_digest. rewrite <-Hdb. destruct (is_masked_pool_peer s); naive_solver.
  - intros [= <- <- <-]. unfold on_pool_bucket_digests. rewrite <-Hdb. destruct (is_masked_pool_peer s); naive_solver.
  - destruct (on_node_enrollment _ _ _ _ _ _ _ _) as [s2 g2] eqn:E. intros [= <- <- <-]. rewrite <-Hdb. intros [?|H]; [done|].
    destruct H. revert E. unfold on_node_enrollment. repeat case_match; by intros [= _ <-].
Qed.

(** Only a node of the pool sees or changes the clients. When a message makes the gateway
    answer with digests or records, or changes a record, then the session is one of a pool
    node and not of a site, it is verified where the gateway asks for that, and the
    registry, read anew for this very message, holds the key of the session for the
    node's and has not revoked it. *)
Theorem pool_access io sys now_ms m s g s' g' out :
  handle_control io sys now_ms m s g = (s', g', out) ->
  out <> [] \/ client_db g' <> client_db g ->
  is_masked_pool_peer s = true /\ is_site_peer s = false /\
  (require_node_enrollment g = true -> is_Some (verified_node_id s)) /\
  registry_clears io s g.
Proof.
  intros E H. destruct (pool_handlers _ _ _ _ _ _ _ _ _ E H) as (Hg & Hb & Ho & Hm).
  destruct (control_gate_spec io s m g) as [_ [Hs _]]. destruct (Hs Hg) as (Hc & Hv & Hsite).
  split; [done|]. split; [|split; [by intros; apply Hv|done]].
  destruct (is_site_peer s); [|done]. rewrite Hsite in Ho by done. done.
Qed.

Lemma registry_gate_file io s g allow p :
  node_registry g = Some (allow, p) ->
  exists p', node_registry (registry_gate io s g).1 = Some (allow, p') /\ file p' = file p.
Proof.
  intros E. unfold registry_gate. rewrite E. destruct (identity s) as [[i k]|].
  - unfold is_authorized. destruct (refresh _ _ _). destruct (negb _); cbn; rewrite E; by eexists.
  - destruct (is_masked_pool_peer s); [|by exists p]. unfold check_health.
    destruct (refresh _ _ _). destruct (negb _); cbn; rewrite E; by eexists.
Qed.

Lemma control_gate_file io s m g allow p :
  node_registry g = Some (allow, p) ->
  exists p', node_registry (control_gate io s m g).1 = Some (allow, p') /\ file p' = file p.
Proof.
  intros E. destruct (registry_gate_file io s g allow p E) as (p' & E' & Ef). exists p'. split; [|done].
  unfold control_gate. destruct (registry_gate io s g) as [g1 []]; cbn [fst negb] in *; [|done].
  by repeat case_match.
Qed.

Lemma handled_session io sys now_ms m s g :
  (handle_control io sys now_ms m s g).1.1 = s \/
  exists i k tw sg allow p, m = NodeEnrollment i k tw sg /\ (handle_control io sys now_ms m s g).1.1 = with_verified i k s /\
    node_registry (control_gate io s m g).1 = Some (allow, p) /\
    NodeAuthOutcome.accepted (authenticate io allow now_ms
      {| NodeRegistry.node_id := i; NodeRegistry.node_pub := k; NodeRegistry.time_window := tw; NodeRegistry.signature := sg;
         server_eph_pub := default (zeros 32) (session_server_eph_pub s); client_eph_pub := eph_pub s |} p).2 = true.
Proof.
  unfold handle_control. destruct (control_gate io s m g) as [g1 []]; cbn [negb fst]; [|by left].
  destruct m as [| | | | | | | | | | | | | | | | | | | | |i k tw sg| | | | | | | | | | | | | | | | | | | |]; try (by left).
  unfold on_node_enrollment. destruct (_ && _); [by left|]. destruct (negb _); [by left|].
  destruct (node_registry g1) as [[allow p]|] eqn:E; [|by left].
  destruct (authenticate _ _ _ _ _) as [p' o] eqn:A. destruct (NodeAuthOutcome.accepted o) eqn:O; [right|by left].
  exists i, k, tw, sg, allow, p. split; [done|]. split; [done|]. split; [done|]. by rewrite A.
Qed.


(** ** A node that is let in *)

(** The session is one of a pool node in good standing. *)
Record passes (io : RegistryIo) (s : PeerSession) (g : Gateway) : Prop := {
  passes_peer : is_masked_pool_peer s = true;
  passes_site : is_site_peer s = false;
  passes_verified : require_node_enrollment g = true -> is_Some (verified_node_id s);
  passes_registry : registry_clears io s g;
}.

Lemma registry_gate_again io s g :
  (registry_gate io s g).2 = true -> registry_clears io s (registry_gate io s g).1.
Proof.
  unfold registry_gate, registry_clears. destruct (node_registry g) as [[allow p]|] eqn:E; [|cbn; by rewrite E].
  destruct (identity s) as [[i k]|].
  - destruct (is_authorized io i k p) as [p' ok] eqn:A. cbn. intros -> a q. rewrite E. intros [= _ <-].
    by rewrite (is_authorized_again _ _ _ _ _ A).
  - destruct (is_masked_pool_peer s) eqn:Hm; [|done].
    destruct (check_health io p) as [p' ok] eqn:A. cbn. intros -> a q. rewrite E. intros [= _ <-] _.
    by rewrite (check_health_again _ _ _ A).
Qed.

Lemma gate_passes io s g m :
  passes io s g ->
  passes io s (control_gate io s m g).1 /\ (control_gate io s m g).2 = true /\
  client_db (control_gate io s m g).1 = client_db g.
Proof.
  intros [Hp Hs Hv Hr]. destruct (control_gate_spec io s m g) as [Hdb [_ Hok]].
  assert ((control_gate io s m g).2 = true) as Ho by (apply Hok; split; [done|]; split; [auto|by rewrite Hs]).
  split; [|done]. destruct (registry_gate_spec io s g) as (_ & Hreq & Hclear).
  assert ((control_gate io s m g).1 = (registry_gate io s g).1) as ->.
  { unfold control_gate. destruct (registry_gate io s g) as [g1 []]; cbn; [|done]. by repeat case_match. }
  split; [done|done|by rewrite Hreq|]. apply registry_gate_again. by apply Hclear.
Qed.
End Access.
