(* ===== verification/PoolExchange.v ===== *)
(** * The exchange between two nodes of a pool

    A node that has dialled another announces the digest of its clients; when the digests
    differ, the two compare the digests of 64 buckets and send one another the records of
    the buckets that differ ([on_pool_state_digest] and [on_pool_bucket_digests] of
    [gateway/control_dispatch.rs], [anti_entropy] of [pool_dialer.rs]). However the messages
    interleave, get lost or overtake one another, an exchange ends after a few of them;
    and when they arrive in order, both nodes end with the same clients, each record in
    the version that wins the merge. *)

From S2P Require Import Prelude Collections Text Utf8 IpAddr NetworkConfig Control Crypto.
From S2P Require Import NodeRegistry ClientDb ClientAddr ClientStore ClientSync ClientDigest PeerGate.
Import ControlPayload (PoolSync, PoolStateDigest, PoolBucketDigests).
Local Open Scope Z_scope.

(** ** The connection *)

(** Two nodes, the session of the dialler on the gateway, and the messages on their way. *)
Record Link : Type := {
  gw : Gateway;
  sess : PeerSession;
  dl : Dialer;
  to_gateway : list ControlPayload.t;
  to_dialer : list ControlPayload.t;
}.

(** What the machines of the two nodes do during a delivery. *)
Record Moment : Type := { registry_io : RegistryIo; system : System; now_ms : Z }.

Section Exchange.
Context {PR : Primitives} {RT : RegistryText} {SD : Serde}.

Definition at_gateway (t : Moment) (m : ControlPayload.t) (rest : list ControlPayload.t) (l : Link) : Link :=
  let '(s, g, out) := handle_control (registry_io t) (system t) (now_ms t) m (sess l) (gw l) in
  {| gw := g; sess := s; dl := dl l; to_gateway := rest; to_dialer := to_dialer l ++ out |}.

Definition at_dialer (t : Moment) (m : ControlPayload.t) (rest : list ControlPayload.t) (l : Link) : Link :=
  let '(d, out) := dialer_receives (system t) m (dl l) in
  {| gw := gw l; sess := sess l; dl := d; to_gateway := to_gateway l ++ out; to_dialer := rest |}.

(** Any message on its way may be the next to arrive, or be lost. *)
Inductive moves (l : Link) : Link -> Prop :=
  | gateway_gets t a m b : to_gateway l = a ++ m :: b -> moves l (at_gateway t m (a ++ b) l)
  | dialer_gets t a m b : to_dialer l = a ++ m :: b -> moves l (at_dialer t m (a ++ b) l)
  | gateway_misses a m b : to_gateway l = a ++ m :: b ->
      moves l {| gw := gw l; sess := sess l; dl := dl l; to_gateway := a ++ b; to_dialer := to_dialer l |}
  | dialer_misses a m b : to_dialer l = a ++ m :: b ->
      moves l {| gw := gw l; sess := sess l; dl := dl l; to_gateway := to_gateway l; to_dialer := a ++ b |}.

(** How many deliveries a message can still lead to, its own included. *)
Definition weight (m : ControlPayload.t) : nat :=
  match m with
  | PoolBucketDigests _ false => 2
  | PoolBucketDigests _ true => 4
  | PoolStateDigest _ => 5
  | _ => 1
  end.

Definition pending (l : list ControlPayload.t) : nat := sum_list_with weight l.

Definition in_flight (l : Link) : nat := pending (to_gateway l) + pending (to_dialer l).

Lemma weight_pos m : (0 < weight m)%nat.
Proof. destruct m; cbn; try lia. destruct reply_requested; cbn; lia. Qed.

Lemma pending_app a b : pending (a ++ b) = (pending a + pending b)%nat.
Proof. apply sum_list_with_app. Qed.

Lemma pending_take a m b : pending (a ++ m :: b) = (weight m + pending (a ++ b))%nat.
Proof. rewrite !pending_app. change (pending (m :: b)) with (weight m + pending b)%nat. lia. Qed.

Lemma bucket_reply_weight h digests reply :
  (pending (bucket_reply h digests reply) <= if reply then 3 else 1)%nat.
Proof. unfold bucket_reply. rewrite pending_app. repeat case_match; cbn; lia. Qed.

Lemma gateway_out_weight io sys now_ms m s g :
  (pending (handle_control io sys now_ms m s g).2 < weight m)%nat.
Proof.
  unfold handle_control. destruct (control_gate io s m g) as [g1 []]; cbn [negb]; [|apply weight_pos].
  destruct m; cbn [snd]; try (apply weight_pos).
  - unfold on_pool_state_digest. repeat case_match; cbn; lia.
  - unfold on_pool_bucket_digests. destruct (negb _); [apply weight_pos|].
    destruct (client_db g1) as [h|]; [|apply weight_pos].
    pose proof (bucket_reply_weight h digests reply_requested). destruct reply_requested; cbn [weight]; lia.
  - destruct (on_node_enrollment _ _ _ _ _ _ _ _). apply weight_pos.
Qed.

Lemma dialer_out_weight sys m d : (pending (dialer_receives sys m d).2 < weight m)%nat.
Proof.
  unfold dialer_receives. destruct (negb _); [apply weight_pos|]. destruct m; try apply weight_pos.
  - destruct (utf8_valid _); cbn; lia.
  - destruct (bool_decide _); cbn; lia.
  - cbn [snd]. pose proof (bucket_reply_weight (dl_host d) digests reply_requested).
    destruct reply_requested; cbn [weight]; lia.
Qed.

Lemma moves_lighter l l' : moves l l' -> (in_flight l' < in_flight l)%nat.
Proof.
  unfold in_flight. intros [t a m b E|t a m b E|a m b E|a m b E].
  - unfold at_gateway. pose proof (gateway_out_weight (registry_io t) (system t) (now_ms t) m (sess l) (gw l)).
    destruct (handle_control _ _ _ _ _ _) as [[s g] out]. cbn [snd to_gateway to_dialer] in *. rewrite E, pending_take, !pending_app. lia.
  - unfold at_dialer. pose proof (dialer_out_weight (system t) m (dl l)).
    destruct (dialer_receives _ _ _) as [d out]. cbn [snd to_gateway to_dialer] in *. rewrite E, pending_take, !pending_app. lia.
  - cbn [to_gateway to_dialer]. rewrite E, pending_take. pose proof (weight_pos m). lia.
  - cbn [to_gateway to_dialer]. rewrite E, pending_take. pose proof (weight_pos m). lia.
Qed.

(** C36: There is no ping-pong of digests. Whatever the two nodes hold, whatever fails on them,
    and in whatever order the messages arrive or get lost, the messages that are on their
    way lead to boundedly many more: after a beacon, five deliveries or losses at most
    happen until nothing is on its way. *)
Theorem exchange_ends l n l' :
  nsteps moves n l l' ->
  (n + in_flight l' <= in_flight l)%nat /\
  (to_gateway l = beacon (dl l) -> to_dialer l = [] -> n <= 5)%nat.
Proof.
  intros H.
  assert (n + in_flight l' <= in_flight l)%nat as Hn.
  { induction H as [l|n x y z Hxy _ IH]; [lia|]. apply moves_lighter in Hxy. lia. }
  split; [done|]. intros Eg Ed. unfold in_flight in Hn at 2. rewrite Eg, Ed in Hn. unfold beacon in Hn.
  destruct (site_identity (dl l)); cbn in Hn; lia.
Qed.
End Exchange.

(** ** What a delta does *)

Section Delta.
Context {PR : Primitives} {SD : Serde} {SL : SerdeLaws}.

Abbreviation held h := (clients (data (db h))).

(** A node whose memory and file agree, counters aside, on a valid subnet. *)
Record synced (h : Host) : Prop := {
  synced_net : subnet_ok (network_config (db h));
  synced_ok : host_ok (fun _ => True) h;
  synced_covers : forall d0 c, stored (disk h) = Some d0 -> c ∈ clients d0 ->
    exists m, m ∈ held h /\ same_but_stats m c;
}.

Lemma same_version a b : same_but_stats a b -> id a = id b /\ version a = version b.
Proof.
  intros H. pose proof (same_fields a b H) as (Ei & _). split; [done|].
  change (version (set_stats no_stats a) = version (set_stats no_stats b)). by rewrite H.
Qed.

Lemma view_same l l' i :
  NoDup (map id l) -> NoDup (map id l') ->
  (forall m, m ∈ l -> exists m', m' ∈ l' /\ same_but_stats m' m) ->
  (forall m, m ∈ l' -> exists m', m' ∈ l /\ same_but_stats m' m) -> view l i = view l' i.
Proof.
  intros Hn Hn' H H'. assert (forall a b, NoDup (map id a) -> NoDup (map id b) ->
    (forall m, m ∈ a -> exists m', m' ∈ b /\ same_but_stats m' m) -> forall v, view a i = Some v -> view b i = Some v) as Hhalf.
  { intros a b Ha Hb Hab v (c & Hc & ->)%fmap_Some. apply find_elem in Hc as [Hin Hi%has_id_true].
    destruct (Hab c Hin) as (m & Hm & [Ei Ev]%same_version). unfold view.
    by rewrite <-Hi, <-Ei, (find_unique b m Hb Hm), <-Ev. }
  destruct (view l i) as [v|] eqn:E; [symmetry; exact (Hhalf l l' Hn Hn' H v E)|].
  destruct (view l' i) as [v|] eqn:E'; [|done]. by rewrite (Hhalf l' l Hn' Hn H' v E') in E.
Qed.

Lemma synced_ids h : synced h -> NoDup (map id (held h)).
Proof. intros [_ (_ & d0 & _ & _ & _ & [H _]) _]. done. Qed.

(** The records that a transaction starts from are those in memory. *)
Lemma synced_absorb h d0 :
  synced h -> stored (disk h) = Some d0 ->
  NoDup (map id (absorb_all (clients d0) (held h))) /\
  (forall i, view (absorb_all (clients d0) (held h)) i = view (held h) i) /\
  forall m, m ∈ absorb_all (clients d0) (held h) -> exists m', m' ∈ held h /\ same_but_stats m' m.
Proof.
  intros Hs Hd0. pose proof (synced_ids h Hs) as Hn. destruct Hs as [_ (_ & d1 & Hd1 & Hok & _ & Hm) Hc].
  rewrite Hd0 in Hd1. injection Hd1 as <-.
  destruct (absorb_loop _ (clients d0) (clients d0) (held h) Hok ltac:(done) Hm) as ([Hn' Hf] & Hmem & _).
  assert (forall m, m ∈ absorb_all (clients d0) (held h) -> exists m', m' ∈ held h /\ same_but_stats m' m) as Hback.
  { intros m Hin. destruct (Hf m Hin) as (c & Hcin & Es). destruct (Hc d0 c Hd0 Hcin) as (m' & Hm' & Es').
    exists m'. split; [done|]. by rewrite Es', Es. }
  split; [done|]. split; [|done]. intros i. symmetry. by apply view_same.
Qed.

Lemma same_from_pool U a b : same_but_stats a b -> from_pool U a -> from_pool U b.
Proof.
  intros H (u & Hu & Ei & Ep & Ev & Ee). exists u. split; [done|].
  pose proof (same_version a b H) as [Ei' Ev']. unfold same_but_stats in H.
  pose proof (f_equal psk H) as Hp. pose proof (f_equal enabled H) as He. cbn in Hp, He.
  split_and!; congruence.
Qed.

Lemma wf_set_ip ip c : record_wf c -> record_wf (set_vpn_ip ip c).
Proof. by intros []. Qed.

Lemma wf_adopt e inc : record_wf e -> record_wf inc -> record_wf (adopt e inc).
Proof. by intros [] []. Qed.

Lemma wf_same a b : same_but_stats a b -> record_wf a -> record_wf b.
Proof.
  intros H Ha. assert (record_wf (set_stats no_stats a)) as H' by by destruct Ha. rewrite H in H'. by destruct H'.
Qed.

Lemma wf_update p f l :
  (forall c, record_wf c -> record_wf (f c)) -> Forall record_wf l -> Forall record_wf (update_first p f l).
Proof.
  intros Hf Hl. rewrite Forall_forall in *. intros c [Hc|(y & Hy & _ & ->)]%elem_of_update_first; auto.
Qed.

Lemma wf_push c d : record_wf c -> Forall record_wf (clients d) -> Forall record_wf (clients (push c d)).
Proof. intros Hc Hd. apply Forall_app_2; [done|by apply Forall_singleton]. Qed.

Lemma merge_new_wf d0 inc d d' :
  record_wf inc -> Forall record_wf (clients d) -> merge_new d0 inc d = Some d' -> Forall record_wf (clients d').
Proof.
  intros Hi Hd. unfold merge_new. destruct (find _ _) as [r|]; [|intros [= <-]; by apply wf_push].
  destruct (earlier inc r); destruct (deterministic_reassign_offset _ _ _) as [ip|]; [|done| |done]; intros [= <-].
  - apply wf_push; [done|]. apply wf_update; [|done]. intros; by apply wf_set_ip.
  - apply wf_push; [by apply wf_set_ip|done].
Qed.

Lemma merged_wf d0 inc d :
  record_wf inc -> Forall record_wf (clients d) -> Forall record_wf (clients (merged d0 inc d)).
Proof.
  intros Hi Hd. unfold merged, merge_one. destruct (find _ _) as [e|].
  - destruct (_ && _); [|done]. apply wf_update; [|done]. intros; by apply wf_adopt.
  - destruct (deleted inc); [by apply wf_push|].
    assert (forall c, record_wf c -> Forall record_wf (clients (default d (merge_new d0 c d)))) as Hn.
    { intros c Hc. destruct (merge_new d0 c d) eqn:E; [by eapply merge_new_wf|done]. }
    destruct (_ =? _); [|by apply Hn]. destruct (deterministic_reassign_offset _ _ _); [|done]. by apply Hn, wf_set_ip.
Qed.

Lemma merge_all_wf d0 incoming d :
  Forall record_wf incoming -> Forall record_wf (clients d) -> Forall record_wf (clients (merge_all d0 incoming d)).
Proof.
  intros Hi. revert d. induction Hi as [|c l Hc _ IH]; intros d Hd; [done|]. apply IH. by apply merged_wf.
Qed.

Context (nodes : list ClientDatabase) (Hpool : pool_ok (records nodes)).

(** A node that takes part, with records of the pool and room for all of them. *)
Record member (h : Host) : Prop := {
  member_synced : synced h;
  member_pool : Forall (from_pool (records nodes)) (held h);
  member_wf : Forall record_wf (held h);
  member_room : roomy (db h) (2 * length (records nodes));
}.

Definition alive (t : Z) : Prop := forall c, c ∈ records nodes -> expired_tombstone t c = false.

Lemma merge_records_alive t dbase incoming d d' n :
  alive t -> Forall (from_pool (records nodes)) (clients (merge_all dbase incoming d)) ->
  merge_records dbase incoming t d = (d', Ok n) -> clients d' = clients (merge_all dbase incoming d).
Proof.
  intros Ha Hp. unfold merge_records. pose proof (merge_loop_all dbase incoming d 0) as E.
  destruct (merge_loop _ _ _ _) as [x k]. cbn [fst] in E. subst x. intros [= <- <-]. cbn. by apply (reap_alive nodes).
Qed.

Lemma merge_host sys h incoming json h' n :
  member h -> Forall (from_pool (records nodes)) incoming -> Forall record_wf incoming ->
  (length incoming <= length (records nodes))%nat -> alive (now sys) ->
  clients_from_str json = Some incoming -> merge_from_json json sys h = (h', Ok n) ->
  NoDup (map id (held h')) /\ Forall (from_pool (records nodes)) (held h') /\ Forall record_wf (held h') /\
  forall i, best (fun v => offers (held h) i v \/ offers incoming i v) (view (held h') i).
Proof.
  intros [Hs Hp Hw Hroom] Hip Hiw Hil Ha Ej E. pose proof (synced_net h Hs) as Hnet.
  pose proof (synced_ok h Hs) as (Hrange & _). pose proof (synced_ids h Hs) as Hn.
  unfold merge_from_json in E. rewrite Ej in E.
  apply transaction_cases in E as (_ & _ & d0 & rb & Hd0 & Erb & Ef & _);
    [|intros d; unfold merge_records; by destruct (merge_loop _ _ _ _)].
  destruct (synced_absorb h d0 Hs Hd0) as (Hna & Hv & Hback).
  rewrite Forall_forall in Hp, Hw.
  assert (Forall (from_pool (records nodes)) (absorb_all (clients d0) (held h))) as Hpa.
  { apply Forall_forall. intros m (m' & Hm' & Es)%Hback. eapply same_from_pool; [exact Es|]. by apply Hp. }
  assert (Forall record_wf (absorb_all (clients d0) (held h))) as Hwa.
  { apply Forall_forall. intros m (m' & Hm' & Es)%Hback. eapply wf_same; [exact Es|]. by apply Hw. }
  rewrite (reap_alive nodes (now sys) Ha _ Hpa) in Erb.
  pose proof (pool_length nodes _ Hpa Hna) as Hlen. rewrite <-Erb in Hpa, Hwa, Hna, Hlen, Hv.
  assert (roomy (db h) (length (clients rb) + length incoming)) as Hroom' by (eapply roomy_le; [|exact Hroom]; lia).
  pose proof (merge_all_pool (db h) (records nodes) Hpool Hnet Hrange incoming rb Hpa Hip Hroom') as Hpm.
  rewrite (merge_records_alive (now sys) (db h) incoming rb _ n Ha Hpm Ef).
  split; [by apply merge_all_ids|]. split; [done|]. split; [by apply merge_all_wf|]. intros i.
  apply (merge_all_best (db h) (records nodes) Hpool Hnet Hrange incoming rb _ i Hpa Hip Hroom').
  rewrite Hv. by apply view_offers.
Qed.

(** The buckets in which two nodes differ, and a node once it has merged what the other
    sends it from these. *)
Definition difference (from to : Host) : list Z :=
  differing_pool_buckets (bucket_digests (data (db from))) (bucket_digests (data (db to))).

Definition delta (from to : Host) : list ClientConfig := records_for_buckets (data (db from)) (difference from to).

Definition absorb_delta (sys : System) (from to : Host) : Host :=
  match difference from to with
  | [] => to
  | _ => (merge_from_json (clients_json_for_buckets (data (db from)) (difference from to)) sys to).1
  end.

(** The delta is written out and merged without an error. *)
Definition delta_ok (sys : System) (from to : Host) : bool :=
  match difference from to with
  | [] => true
  | _ =>
      bool_decide (is_Some (clients_to_string (delta from to))) &&
      match (merge_from_json (clients_json_for_buckets (data (db from)) (difference from to)) sys to).2 with
      | Ok _ => true
      | _ => false
      end
  end.

Lemma wrap16_bucket i : wrap16 (bucket_index_for_id i) = bucket_index_for_id i.
Proof. pose proof (bucket_bound i). unfold wrap16. apply Z.mod_small. lia. Qed.

Lemma offers_delta from to i v :
  offers (delta from to) i v <-> bucket_index_for_id i ∈ difference from to /\ offers (held from) i v.
Proof.
  unfold offers, delta, records_for_buckets. setoid_rewrite list_elem_of_filter. setoid_rewrite wrap16_bucket. naive_solver.
Qed.

(** Records that a node of the pool can hold. *)
Record stock (l : list ClientConfig) : Prop := {
  stock_ids : NoDup (map id l);
  stock_pool : Forall (from_pool (records nodes)) l;
  stock_wf : Forall record_wf l;
}.

Lemma member_stock h : member h -> stock (held h).
Proof. intros [Hs Hp Hw _]. split; [by apply synced_ids|done|done]. Qed.

Lemma delta_stock from to : stock (held from) -> stock (delta from to).
Proof.
  intros [Hn Hp Hw]. unfold delta, records_for_buckets. rewrite Forall_forall in Hp, Hw. split.
  - by destruct (mirrors_filter (fun c => wrap16 (bucket_index_for_id (id c)) ∈ difference from to) _ _ (mirrors_refl _ Hn)).
  - apply Forall_forall. intros c [_ Hc]%list_elem_of_filter. by apply Hp.
  - apply Forall_forall. intros c [_ Hc]%list_elem_of_filter. by apply Hw.
Qed.

Lemma absorb_effect sys from to :
  stock (held from) -> member to -> alive (now sys) -> delta_ok sys from to = true ->
  let to' := held (absorb_delta sys from to) in
  stock to' /\
  forall i, (bucket_index_for_id i ∈ difference from to ->
             best (fun v => offers (held to) i v \/ offers (held from) i v) (view to' i)) /\
            (bucket_index_for_id i ∉ difference from to -> best (offers (held to) i) (view to' i)).
Proof.
  intros Hf Ht Ha. unfold delta_ok, absorb_delta. pose proof (member_stock to Ht) as Hst.
  destruct (difference from to) as [|x xs] eqn:E.
  { intros _. split; [done|]. intros i. split; [by intros ?%elem_of_nil|]. intros _. apply view_offers, Hst. }
  rewrite <-E. intros [Hser Hok]%andb_prop. apply bool_decide_eq_true in Hser as [json Hj].
  unfold clients_json_for_buckets in *. fold (delta from to) in *. rewrite Hj in *. change (default [91; 93] (Some json)) with json in *.
  pose proof (delta_stock from to Hf) as [Hdn Hdp Hdw]. pose proof (pool_length nodes _ Hdp Hdn) as Hlen.
  pose proof (clients_from_to _ _ Hj) as [Hjson _].
  destruct (merge_from_json json sys to) as [h' r] eqn:Em. cbn [snd] in Hok. destruct r as [n| |]; [|done..]. cbn [fst].
  destruct (merge_host sys to (delta from to) json h' n Ht Hdp Hdw Hlen Ha Hjson Em) as (H1 & H2 & H3 & H4).
  split; [done|]. intros i. specialize (H4 i). split; intros Hi; (eapply best_ext; [|exact H4]); intros v;
    setoid_rewrite offers_delta; naive_solver.
Qed.
End Delta.

(** ** Two nodes reconciled *)

Section Reconcile.
Context {PR : Primitives} {PL : PrimitiveLaws} {SD : Serde} {SL : SerdeLaws}.
Context (hd hg : Host) (tg td : System).

Abbreviation held h := (clients (data (db h))).
Abbreviation nodes := [db hd; db hg].

(** The gateway with the delta of the dialler, and then the dialler with that of the gateway. *)
Abbreviation hg' := (absorb_delta tg hd hg).
Abbreviation hd' := (absorb_delta td hg' hd).

Record meeting : Prop := {
  meet_pool : pool_ok (records nodes);
  meet_dialer : member nodes hd;
  meet_gateway : member nodes hg;
  meet_alive : alive nodes (now tg) /\ alive nodes (now td);
  meet_size : len (records nodes) < 4294967296;
  meet_hashes : distinguishes (messages (held hd) ++ messages (held hg) ++ messages (held hg'));
  meet_merges : delta_ok tg hd hg = true /\ delta_ok td hg' hd = true;
}.

Hypothesis Hmeet : meeting.

Lemma stock_records l : stock nodes l -> node_records_ok l.
Proof.
  intros [Hn Hp Hw]. split; [done|done|]. pose proof (pool_length nodes l Hp Hn). pose proof (meet_size Hmeet). lia.
Qed.

(** Both nodes agree on [i] already. *)
Definition quiet (a b : Host) : Prop :=
  forall i, bucket_index_for_id i ∉ difference a b -> content (held a) i = content (held b) i.

Lemma quiet_pair a b :
  stock nodes (held a) -> stock nodes (held b) ->
  (forall m, m ∈ messages (held a) \/ m ∈ messages (held b) ->
    m ∈ messages (held hd) ++ messages (held hg) ++ messages (held hg')) -> quiet a b.
Proof.
  intros Ha Hb Hms i Hi. pose proof (bucket_bound i) as Hbound.
  apply (bucket_same _ (held a) (held b) (Z.to_nat (bucket_index_for_id i)) (meet_hashes Hmeet) Hms);
    [by apply stock_records..|unfold POOL_SYNC_BUCKETS; lia| |lia].
  destruct (decide (bucket_digest (held a) (Z.to_nat (bucket_index_for_id i)) =
                    bucket_digest (held b) (Z.to_nat (bucket_index_for_id i)))) as [|Hne]; [done|].
  destruct Hi. apply differing_spec. exists (Z.to_nat (bucket_index_for_id i)).
  unfold POOL_SYNC_BUCKETS. split_and!; [lia|lia|done].
Qed.

Lemma offers_records i v : offers (records nodes) i v <-> offers (held hd) i v \/ offers (held hg) i v.
Proof.
  unfold offers, records. cbn [map concat]. rewrite app_nil_r. setoid_rewrite elem_of_app. naive_solver.
Qed.

Lemma records_collision_free i : collision_free (offers (records nodes) i).
Proof.
  intros v w Hv%offers_records Hw%offers_records E. destruct (meet_hashes Hmeet) as [Hd _].
  assert (forall x, offers (held hd) i x \/ offers (held hg) i x ->
    v_fields x ∈ messages (held hd) ++ messages (held hg) ++ messages (held hg')) as Hin.
  { intros x. rewrite !elem_of_app. intros [(c & Hc & _ & <-)|(c & Hc & _ & <-)]; [left|right; left]; by apply messages_fields. }
  apply Hd; [by apply Hin..|]. by rewrite E.
Qed.

Lemma offers_content l i v : NoDup (map id l) -> offers l i v -> content l i = Some (v_fields v).
Proof. intros Hn (c & Hc & <- & <-). unfold content, view. by rewrite (find_unique l c Hn Hc). Qed.

Lemma best_content l i o : NoDup (map id l) -> best (offers l i) o -> content l i = v_fields <$> o.
Proof.
  intros Hn Hb. destruct o as [v|]; cbn in *; [destruct Hb as [Hv _]; by apply offers_content|].
  unfold content. destruct (view l i) as [x|] eqn:E; [|done]. pose proof (view_offers l i Hn) as H. rewrite E in H.
  destruct H as [Hx _]. by destruct (Hb x).
Qed.

Definition settled (l : list ClientConfig) (i : bytes) : Prop :=
  forall w, best (offers (records nodes) i) w -> content l i = v_fields <$> w.

Lemma settled_same i :
  content (held hd) i = content (held hg) i -> settled (held hd) i /\ settled (held hg) i.
Proof.
  intros E. pose proof (stock_ids _ _ (member_stock nodes hd (meet_dialer Hmeet))) as Hd.
  pose proof (stock_ids _ _ (member_stock nodes hg (meet_gateway Hmeet))) as Hg.
  assert (settled (held hd) i) as H; [|split; [done|]; intros w Hw; rewrite <-E; by apply H].
  intros [v|] Hw; cbn in Hw.
  - destruct Hw as [[Hv|Hv]%offers_records _]; [by apply offers_content|]. rewrite E. by apply offers_content.
  - apply (best_content _ i None Hd). cbn. intros v Hv. apply (Hw v). apply offers_records. by left.
Qed.

Lemma gateway_effect :
  stock nodes (held hg') /\
  forall i, (bucket_index_for_id i ∈ difference hd hg -> best (offers (records nodes) i) (view (held hg') i)) /\
            (bucket_index_for_id i ∉ difference hd hg -> best (offers (held hg) i) (view (held hg') i)).
Proof.
  destruct (absorb_effect nodes (meet_pool Hmeet) tg hd hg (member_stock _ _ (meet_dialer Hmeet)) (meet_gateway Hmeet)
    (proj1 (meet_alive Hmeet)) (proj1 (meet_merges Hmeet))) as [Hs H].
  split; [done|]. intros i. destruct (H i) as [H1 H2]. split; [|done]. intros Hi. eapply best_ext; [|by apply H1].
  intros v. rewrite offers_records. tauto.
Qed.

Lemma dialer_effect :
  stock nodes (held hd') /\
  forall i, (bucket_index_for_id i ∈ difference hg' hd ->
             best (fun v => offers (held hd) i v \/ offers (held hg') i v) (view (held hd') i)) /\
            (bucket_index_for_id i ∉ difference hg' hd -> best (offers (held hd) i) (view (held hd') i)).
Proof.
  apply (absorb_effect nodes (meet_pool Hmeet) td hg' hd (proj1 gateway_effect) (meet_dialer Hmeet)
    (proj2 (meet_alive Hmeet)) (proj2 (meet_merges Hmeet))).
Qed.

Lemma dialer_ids : NoDup (map id (held hd)).
Proof. apply (stock_ids nodes), member_stock, Hmeet. Qed.

Lemma gateway_ids : NoDup (map id (held hg)).
Proof. apply (stock_ids nodes), member_stock, Hmeet. Qed.

Lemma first_quiet : quiet hd hg.
Proof.
  apply quiet_pair; [apply member_stock, Hmeet|apply member_stock, Hmeet|]. intros m. rewrite !elem_of_app. tauto.
Qed.

Lemma second_quiet : quiet hg' hd.
Proof.
  apply quiet_pair; [apply gateway_effect|apply member_stock, Hmeet|]. intros m. rewrite !elem_of_app. tauto.
Qed.

(** An id on which the nodes agreed keeps its content on the gateway. *)
Lemma gateway_kept i : bucket_index_for_id i ∉ difference hd hg -> content (held hg') i = content (held hg) i.
Proof.
  intros Hi. destruct gateway_effect as [_ H]. destruct (H i) as [_ H2].
  symmetry. exact (best_content (held hg) i _ gateway_ids (H2 Hi)).
Qed.

Lemma gateway_settled i : settled (held hg') i.
Proof.
  destruct (decide (bucket_index_for_id i ∈ difference hd hg)) as [Hi|Hi].
  - intros w Hw. destruct gateway_effect as [_ H]. destruct (H i) as [H1 _].
    by rewrite <-(best_unique _ _ _ (records_collision_free i) (H1 Hi) Hw).
  - intros w Hw. rewrite gateway_kept by done. by apply (settled_same i (first_quiet i Hi)).
Qed.

(** When the gateway has the best version, so has the dialler after the delta. *)
Lemma dialer_takes_best i o w :
  best (offers (records nodes) i) w -> view (held hg') i = w ->
  best (fun v => offers (held hd) i v \/ offers (held hg') i v) o -> o = w.
Proof.
  intros Hw Hg Ho. pose proof (view_offers (held hg') i (stock_ids _ _ (proj1 gateway_effect))) as Hv. rewrite Hg in Hv.
  assert (forall v, offers (held hd) i v \/ offers (held hg') i v -> offers (records nodes) i v) as Hin.
  { intros v [Hd|Hg']; [apply offers_records; by left|]. destruct w as [x|]; cbn in Hv; [|by destruct (Hv v)].
    destruct Hv as [Hx Hb]. pose proof (stock_ids _ _ (proj1 gateway_effect)) as Hn.
    destruct Hg' as (c & Hc & Hi & <-), Hx as (c' & Hc' & Hi' & Ex).
    pose proof (find_unique _ c Hn Hc) as F. pose proof (find_unique _ c' Hn Hc') as F'.
    rewrite Hi in F. rewrite Hi' in F'. rewrite F in F'. injection F' as ->. rewrite Ex. apply Hw. }
  apply (best_unique (fun v => offers (held hd) i v \/ offers (held hg') i v)); [|done|].
  - intros x y Hx Hy. apply (records_collision_free i); by apply Hin.
  - destruct w as [x|]; cbn in *.
    + split; [right; apply Hv|]. intros y Hy. apply Hw, Hin, Hy.
    + intros y Hy. by apply (Hw y), Hin.
Qed.

Lemma dialer_settled i : settled (held hd') i.
Proof.
  intros w Hw. destruct dialer_effect as [_ H]. destruct (H i) as [H1 H2].
  destruct (decide (bucket_index_for_id i ∈ difference hg' hd)) as [Hi|Hi].
  - specialize (H1 Hi). destruct (decide (bucket_index_for_id i ∈ difference hd hg)) as [Hj|Hj].
    + unfold content. f_equal. apply (dialer_takes_best i); [done| |done].
      destruct gateway_effect as [_ Hg]. destruct (Hg i) as [Hg1 _].
      exact (best_unique _ _ _ (records_collision_free i) (Hg1 Hj) Hw).
    + pose proof (first_quiet i Hj) as E. pose proof (proj1 (settled_same i E) w Hw) as Ed.
      pose proof (gateway_settled i w Hw) as Eg. unfold content at 1.
      destruct (view (held hd') i) as [v|] eqn:Ev; cbn in H1.
      * destruct H1 as [[Hv|Hv] _]; [rewrite <-Ed|rewrite <-Eg]; symmetry.
        -- apply offers_content; [apply dialer_ids|done].
        -- apply offers_content; [apply (stock_ids nodes), gateway_effect|done].
      * rewrite <-Ed. symmetry. apply (best_content _ i None dialer_ids). cbn. intros v Hv. apply (H1 v). by left.
  - unfold content. rewrite <-(best_content (held hd) i _ dialer_ids (H2 Hi)), <-(second_quiet i Hi).
    by apply gateway_settled.
Qed.

Lemma some_best i : exists w, best (offers (records nodes) i) w.
Proof.
  exists (better (view (held hd) i) (view (held hg) i)). eapply best_ext; [|apply best_better; apply view_offers].
  - intros v. symmetry. apply offers_records.
  - apply dialer_ids.
  - apply gateway_ids.
Qed.

Lemma settled_digests a b :
  stock nodes (held a) -> stock nodes (held b) -> (forall i, settled (held a) i) -> (forall i, settled (held b) i) ->
  state_digest (data (db a)) = state_digest (data (db b)).
Proof.
  intros Ha Hb Sa Sb. apply content_digest; [apply Ha|apply Hb|]. intros i. destruct (some_best i) as [w Hw].
  by rewrite (Sa i w Hw), (Sb i w Hw).
Qed.
End Reconcile.

(** ** The exchange in order *)

Section Settle.
Context {PR : Primitives} {RT : RegistryText} {SD : Serde}.

(** The message that was sent first arrives first; [None] when nothing is on its way. *)
Definition deliver_next (tg td : Moment) (l : Link) : option Link :=
  match to_gateway l, to_dialer l with
  | m :: rest, _ => Some (at_gateway tg m rest l)
  | [], m :: rest => Some (at_dialer td m rest l)
  | [], [] => None
  end.

Fixpoint settle (n : nat) (tg td : Moment) (l : Link) : Link :=
  match n with
  | O => l
  | S n => match deliver_next tg td l with Some l => settle n tg td l | None => l end
  end.

Lemma settle_gateway n tg td g s d m rest q :
  settle (S n) tg td {| gw := g; sess := s; dl := d; to_gateway := m :: rest; to_dialer := q |} =
  settle n tg td (at_gateway tg m rest {| gw := g; sess := s; dl := d; to_gateway := m :: rest; to_dialer := q |}).
Proof. done. Qed.

Lemma settle_dialer n tg td g s d m rest :
  settle (S n) tg td {| gw := g; sess := s; dl := d; to_gateway := []; to_dialer := m :: rest |} =
  settle n tg td (at_dialer td m rest {| gw := g; sess := s; dl := d; to_gateway := []; to_dialer := m :: rest |}).
Proof. done. Qed.

Lemma settle_done n tg td g s d :
  settle n tg td {| gw := g; sess := s; dl := d; to_gateway := []; to_dialer := [] |} =
  {| gw := g; sess := s; dl := d; to_gateway := []; to_dialer := [] |}.
Proof. by destruct n. Qed.

(** A gateway that holds [h] and lets the session in. *)
Definition ready (t : Moment) (s : PeerSession) (g : Gateway) (h : Host) : Prop :=
  passes (registry_io t) s g /\ client_db g = Some h.

Lemma gateway_digest t s g h d rest q x :
  ready t s g h ->
  exists g', ready t s g' h /\
  at_gateway t (PoolStateDigest x) rest {| gw := g; sess := s; dl := d; to_gateway := PoolStateDigest x :: rest; to_dialer := q |} =
  {| gw := g'; sess := s; dl := d; to_gateway := rest;
     to_dialer := q ++ (if bool_decide (x = state_digest (data (db h))) then []
                        else [PoolBucketDigests (bucket_digests (data (db h))) true]) |}.
Proof.
  intros [Hp Hdb]. destruct (gate_passes _ s g (PoolStateDigest x) Hp) as (Hp' & Ho & Hdb').
  unfold at_gateway, handle_control. cbn [gw sess].
  destruct (control_gate _ _ _ _) as [g1 ok]. cbn [fst snd] in *. subst ok. exists g1. rewrite Hdb in Hdb'. split; [done|].
  cbn [negb]. unfold on_pool_state_digest. rewrite (passes_peer _ _ _ Hp), Hdb'. done.
Qed.

Lemma gateway_buckets t s g h d rest q x reply :
  ready t s g h ->
  exists g', ready t s g' h /\
  at_gateway t (PoolBucketDigests x reply) rest
    {| gw := g; sess := s; dl := d; to_gateway := PoolBucketDigests x reply :: rest; to_dialer := q |} =
  {| gw := g'; sess := s; dl := d; to_gateway := rest; to_dialer := q ++ bucket_reply h x reply |}.
Proof.
  intros [Hp Hdb]. destruct (gate_passes _ s g (PoolBucketDigests x reply) Hp) as (Hp' & Ho & Hdb').
  unfold at_gateway, handle_control. cbn [gw sess].
  destruct (control_gate _ _ _ _) as [g1 ok]. cbn [fst snd] in *. subst ok. exists g1. rewrite Hdb in Hdb'. split; [done|].
  cbn [negb]. unfold on_pool_bucket_digests. rewrite (passes_peer _ _ _ Hp), Hdb'. done.
Qed.

Lemma gateway_sync t s g h d rest q json :
  ready t s g h ->
  exists g', ready t s g' (merge_from_json (from_utf8_lossy json) (system t) h).1 /\
  at_gateway t (PoolSync json) rest {| gw := g; sess := s; dl := d; to_gateway := PoolSync json :: rest; to_dialer := q |} =
  {| gw := g'; sess := s; dl := d; to_gateway := rest; to_dialer := q ++ [] |}.
Proof.
  intros [Hp Hdb]. destruct (gate_passes _ s g (PoolSync json) Hp) as (Hp' & Ho & Hdb').
  unfold at_gateway, handle_control. cbn [gw sess].
  destruct (control_gate _ _ _ _) as [g1 ok]. cbn [fst snd] in *. subst ok. cbn [negb].
  unfold on_pool_sync. rewrite (passes_peer _ _ _ Hp), (passes_site _ _ _ Hp). cbn [andb negb]. rewrite Hdb', Hdb.
  eexists. split; [|done]. by split; [destruct Hp'; split|].
Qed.

(** A dialler of the pool, not of a site, that has verified its peer where it must. *)
Definition open_dialer (d : Dialer) : Prop :=
  site_identity d = None /\ (dl_require_node_enrollment d = true -> is_Some (verified_node d)).

Lemma open_takes m d : open_dialer d -> dialer_takes m d = true.
Proof.
  intros [Hs Hv]. unfold dialer_takes. rewrite Hs. destruct (dl_require_node_enrollment d); [|done].
  by rewrite bool_decide_eq_true_2 by auto.
Qed.

Lemma dialer_buckets t g s d rest q x reply :
  open_dialer d ->
  exists d', open_dialer d' /\ dl_host d' = dl_host d /\
  at_dialer t (PoolBucketDigests x reply) rest
    {| gw := g; sess := s; dl := d; to_gateway := q; to_dialer := PoolBucketDigests x reply :: rest |} =
  {| gw := g; sess := s; dl := d'; to_gateway := q ++ bucket_reply (dl_host d) x reply; to_dialer := rest |}.
Proof.
  intros Hd. unfold at_dialer, dialer_receives. cbn [dl gw sess to_gateway]. rewrite (open_takes _ _ Hd). cbn [negb].
  eexists. split; [|split; [|done]]; by destruct (differing_pool_buckets _ _).
Qed.

Lemma dialer_sync t g s d rest q json :
  open_dialer d -> utf8_valid json = true ->
  exists d', open_dialer d' /\ dl_host d' = (merge_from_json json (system t) (dl_host d)).1 /\
  at_dialer t (PoolSync json) rest {| gw := g; sess := s; dl := d; to_gateway := q; to_dialer := PoolSync json :: rest |} =
  {| gw := g; sess := s; dl := d'; to_gateway := q ++ []; to_dialer := rest |}.
Proof.
  intros Hd Hj. unfold at_dialer, dialer_receives. cbn [dl gw sess to_gateway]. rewrite (open_takes _ _ Hd), Hj. cbn [negb].
  eexists. split; [|split; [|done]]; done.
Qed.

Lemma json_valid {SL : SerdeLaws} d x :
  utf8_valid (clients_json_for_buckets d x) = true /\
  from_utf8_lossy (clients_json_for_buckets d x) = clients_json_for_buckets d x.
Proof.
  unfold clients_json_for_buckets. destruct (clients_to_string _) as [t|] eqn:E; [|done].
  apply clients_from_to in E as [_ H]. split; [apply H|by apply string_ok_lossy].
Qed.

Lemma bucket_reply_cases a b reply :
  bucket_reply a (bucket_digests (data (db b))) reply =
  (match difference a b with
   | [] => []
   | _ => [PoolSync (clients_json_for_buckets (data (db a)) (difference a b))]
   end) ++ (if reply then [PoolBucketDigests (bucket_digests (data (db a))) false] else []).
Proof. done. Qed.

(** The last part: the gateway has the buckets of the dialler and sends its delta. *)
Lemma second_half {SL : SerdeLaws} n tg td s g hg d :
  ready tg s g hg -> open_dialer d ->
  exists g' d', ready tg s g' hg /\ open_dialer d' /\ dl_host d' = absorb_delta (system td) hg (dl_host d) /\
  settle (2 + n) tg td {| gw := g; sess := s; dl := d;
    to_gateway := [PoolBucketDigests (bucket_digests (data (db (dl_host d)))) false]; to_dialer := [] |} =
  {| gw := g'; sess := s; dl := d'; to_gateway := []; to_dialer := [] |}.
Proof.
  intros Hg Hd. change (2 + n)%nat with (S (S n)). rewrite settle_gateway.
  destruct (gateway_buckets tg s g hg d [] [] (bucket_digests (data (db (dl_host d)))) false Hg) as (g1 & Hg1 & ->).
  rewrite bucket_reply_cases, app_nil_r. unfold absorb_delta.
  destruct (difference hg (dl_host d)) as [|x xs] eqn:E; cbn [app].
  { rewrite settle_done. by exists g1, d. }
  rewrite <-E, settle_dialer. destruct (json_valid (data (db hg)) (difference hg (dl_host d))) as [Hv _].
  destruct (dialer_sync td g1 s d [] [] _ Hd Hv) as (d1 & Hd1 & Eh & ->). cbn [app]. rewrite settle_done. by exists g1, d1.
Qed.

Lemma exchange_run {SL : SerdeLaws} tg td s g hg d :
  ready tg s g hg -> open_dialer d ->
  state_digest (data (db (dl_host d))) <> state_digest (data (db hg)) ->
  let hg' := absorb_delta (system tg) (dl_host d) hg in
  exists g' d', ready tg s g' hg' /\ dl_host d' = absorb_delta (system td) hg' (dl_host d) /\
  settle 5 tg td {| gw := g; sess := s; dl := d; to_gateway := beacon d; to_dialer := [] |} =
  {| gw := g'; sess := s; dl := d'; to_gateway := []; to_dialer := [] |}.
Proof.
  intros Hg Hd Hne hg'. unfold beacon. rewrite (proj1 Hd), settle_gateway.
  destruct (gateway_digest tg s g hg d [] [] (state_digest (data (db (dl_host d)))) Hg) as (g1 & Hg1 & ->).
  rewrite bool_decide_eq_false_2 by done. cbn [app]. rewrite settle_dialer.
  destruct (dialer_buckets td g1 s d [] [] (bucket_digests (data (db hg))) true Hd) as (d1 & Hd1 & Eh & ->).
  rewrite bucket_reply_cases. cbn [app].
  assert (hg' = match difference (dl_host d) hg with [] => hg | _ =>
    (merge_from_json (clients_json_for_buckets (data (db (dl_host d))) (difference (dl_host d) hg)) (system tg) hg).1 end) as Ehg by done.
  clearbody hg'. destruct (difference (dl_host d) hg) as [|x xs] eqn:E; cbn [app].
  - subst hg'. rewrite <-Eh.
    destruct (second_half 1 tg td s g1 hg d1 Hg1 Hd1) as (g2 & d2 & Hg2 & _ & Eh2 & R). by exists g2, d2.
  - rewrite <-E in Ehg |- *. rewrite settle_gateway.
    destruct (json_valid (data (db (dl_host d))) (difference (dl_host d) hg)) as [_ Hv].
    destruct (gateway_sync tg s g1 hg d1 [PoolBucketDigests (bucket_digests (data (db (dl_host d)))) false] []
      (clients_json_for_buckets (data (db (dl_host d))) (difference (dl_host d) hg)) Hg1) as (g2 & Hg2 & ->).
    rewrite Hv, <-Ehg in Hg2. rewrite <-Eh. cbn [app].
    destruct (second_half 0 tg td s g2 hg' d1 Hg2 Hd1) as (g3 & d3 & Hg3 & _ & Eh3 & R). by exists g3, d3.
Qed.
End Settle.

(** ** Convergence *)

Section Converge.
Context {PR : Primitives} {PL : PrimitiveLaws} {RT : RegistryText} {SD : Serde} {SL : SerdeLaws}.

(** C4: One beacon reconciles two nodes. Let a node in good standing announce its digest to
    another, let both have room, working disks and no tombstone about to expire, and let no
    two of the hashed messages collide. Then after at most five messages in order nothing
    is on its way any more, the digests of the two nodes are equal, and both hold of
    every client exactly the version that wins among the ones either of them had:
    whatever each had changed, removed or added meanwhile. *)
Theorem exchange_converges tg td s g hg d :
  ready tg s g hg -> open_dialer d -> meeting (dl_host d) hg (system tg) (system td) ->
  let l := settle 5 tg td {| gw := g; sess := s; dl := d; to_gateway := beacon d; to_dialer := [] |} in
  let had := clients (data (db (dl_host d))) ++ clients (data (db hg)) in
  to_gateway l = [] /\ to_dialer l = [] /\
  exists hg', client_db (gw l) = Some hg' /\
  state_digest (data (db hg')) = state_digest (data (db (dl_host (dl l)))) /\
  forall i w, best (offers had i) w ->
    content (clients (data (db hg'))) i = v_fields <$> w /\
    content (clients (data (db (dl_host (dl l))))) i = v_fields <$> w.
Proof.
  intros Hg Hd Hm l had.
  assert (records [db (dl_host d); db hg] = had) as Eh by (unfold records, had; cbn [map concat]; by rewrite app_nil_r).
  rewrite <-Eh. clear had Eh.
  destruct (decide (state_digest (data (db (dl_host d))) = state_digest (data (db hg)))) as [E|Hne].
  - assert (exists g', ready tg s g' hg /\ l = {| gw := g'; sess := s; dl := d; to_gateway := []; to_dialer := [] |})
      as (g' & [_ Hg'] & ->).
    { subst l. unfold beacon. rewrite (proj1 Hd), settle_gateway.
      destruct (gateway_digest tg s g hg d [] [] (state_digest (data (db (dl_host d)))) Hg) as (g1 & Hg1 & ->).
      exists g1. rewrite bool_decide_eq_true_2 by done. by rewrite app_nil_r, settle_done. }
    cbn [to_gateway to_dialer gw dl]. split; [done|]. split; [done|]. exists hg. split; [done|]. split; [done|].
    pose proof (member_stock _ _ (meet_dialer _ _ _ _ Hm)) as S1. pose proof (member_stock _ _ (meet_gateway _ _ _ _ Hm)) as S2.
    intros i w Hw.
    assert (content (clients (data (db (dl_host d)))) i = content (clients (data (db hg))) i) as Ec.
    { eapply digests_content; [exact (meet_hashes _ _ _ _ Hm)| | | |by left]; [|by eapply stock_records..].
      intros m. rewrite !elem_of_app. tauto. }
    destruct (settled_same _ _ _ _ Hm i Ec) as [H1 H2]. split; [by apply H2|by apply H1].
  - destruct (exchange_run tg td s g hg d Hg Hd Hne) as (g' & d' & [_ Hg'] & Ed & El). fold l in El. rewrite El.
    cbn [to_gateway to_dialer gw dl]. split; [done|]. split; [done|]. eexists. split; [exact Hg'|]. rewrite Ed.
    split; [|intros i w Hw; split; [by eapply gateway_settled|by eapply dialer_settled]].
    destruct (gateway_effect _ _ _ _ Hm) as [S1 _]. destruct (dialer_effect _ _ _ _ Hm) as [S2 _].
    eapply settled_digests; [exact Hm|exact S1|exact S2| |].
    + intros i. by eapply gateway_settled.
    + intros i. by eapply dialer_settled.
Qed.
End Converge.

(** ** Witnesses *)

Section Sample.
#[local] Existing Instance fnv_primitives.
#[local] Existing Instance fnv_laws.
#[local] Existing Instance sample_text.

(** One client, changed on the node that dials, removed on the other. *)
Definition changed : ClientConfig := alice false 3600000000.
Definition removed : ClientConfig := alice true 1000000.
Definition stored_changed : ClientDbFile := {| clients := [changed]; next_host_offset := 3 |}.
Definition stored_removed : ClientDbFile := {| clients := [removed]; next_host_offset := 3 |}.

#[local] Instance pair_serde : Serde := table_serde [stored_changed; stored_removed] [[changed]; [removed]].
#[local] Instance pair_laws : SerdeLaws := table_laws _ _.

Definition host_of (d : ClientDbFile) (t : bytes) : Host :=
  {| db := {| data := d; network_config := default_vpn_network_config; partition := None; last_mtime := None |};
     disk := Some {| text := t; modified := 0 |} |}.

Definition dialing : Host := host_of stored_changed [65].
Definition dialed : Host := host_of stored_removed [65; 65].

Definition sample_moment (t : Z) : Moment := {| registry_io := good_io; system := at_time t; now_ms := 60000 |}.

Definition berlin_session : PeerSession :=
  {| is_site_peer := false; site_peer_names := []; is_masked_pool_peer := true; verified_node_id := Some berlin;
     verified_node_pub := Some (zeros 32); session_server_eph_pub := Some (zeros 32); eph_pub := zeros 32 |}.

Definition sample_gateway : Gateway :=
  {| client_db := Some dialed;
     node_registry := Some (true, {| state := second_state bound_world; file := shared bound_world |});
     require_node_enrollment := true |}.

Definition sample_dialer : Dialer :=
  {| dl_host := dialing; dl_require_node_enrollment := true; verified_node := Some paris; site_identity := None;
     last_converged := 0; warned_stale := false |}.

Definition sample_link : Link :=
  {| gw := sample_gateway; sess := berlin_session; dl := sample_dialer; to_gateway := beacon sample_dialer; to_dialer := [] |}.

Lemma sample_ready : ready (sample_moment 100) berlin_session sample_gateway dialed.
Proof.
  split; [|done]. split; [done|done|by eexists|]. intros allow p [= <- <-]. by vm_compute.
Qed.

Lemma sample_records c : c ∈ records [db dialing; db dialed] -> c = changed \/ c = removed.
Proof.
  change (records [db dialing; db dialed]) with [changed; removed]. by rewrite elem_of_cons, list_elem_of_singleton.
Qed.

Lemma sample_member d t :
  d = stored_changed /\ t = [65] \/ d = stored_removed /\ t = [65; 65] -> member [db dialing; db dialed] (host_of d t).
Proof.
  intros Hd. assert (exists b u, clients d = [alice b u] /\ from_pool (records [db dialing; db dialed]) (alice b u) /\
    stored (Some {| text := t; modified := 0 |}) = Some d) as (b & u & Ed & Hp & Hst).
  { destruct Hd as [[-> ->]|[-> ->]]; do 2 eexists; (split; [done|]); (split; [|by vm_compute]).
    - exists changed. split; [left|done].
    - exists removed. split; [right; left|done]. }
  split.
  - split; [vm_compute; by split_and?| |].
    + split; [vm_compute; by split_and?|]. exists d. split; [done|]. cbn [db host_of data network_config]. rewrite Ed. split; [|split; [done|]].
      * constructor; [repeat constructor|]. intros c ->%list_elem_of_singleton _. by vm_compute.
      * apply mirrors_refl, alice_once.
    + cbn [disk db host_of data]. intros d0 c. rewrite Hst. intros [= <-] Hc. by exists c.
  - cbn [db host_of data]. rewrite Ed. by apply Forall_singleton.
  - cbn [db host_of data]. rewrite Ed. apply Forall_singleton. by constructor.
  - by vm_compute.
Qed.

Lemma sample_meeting : meeting dialing dialed (at_time 100) (at_time 200).
Proof.
  constructor.
  - constructor; [by intros x y [-> | ->]%sample_records [-> | ->]%sample_records|by intros x [-> | ->]%sample_records].
  - apply (sample_member stored_changed [65]). by left.
  - apply (sample_member stored_removed [65; 65]). by right.
  - split; by intros x [-> | ->]%sample_records.
  - by vm_compute.
  - apply distinguishes_check. by vm_compute.
  - split; by vm_compute.
Qed.

Lemma exchange_converges_witness :
  let l := settle 5 (sample_moment 100) (sample_moment 200) sample_link in
  map deleted (clients (data (db (dl_host (dl sample_link))))) = [false] /\
  map deleted (clients (data (db (dl_host (dl l))))) = [true] /\
  to_gateway l = [] /\ to_dialer l = [].
Proof.
  intros l. split; [done|]. split; [by vm_compute|].
  assert (open_dialer sample_dialer) as Ho by (split; [done|by eexists]).
  destruct (exchange_converges (sample_moment 100) (sample_moment 200) berlin_session sample_gateway dialed sample_dialer
    sample_ready Ho sample_meeting) as (H1 & H2 & _). split; [exact H1|exact H2].
Defined.

Lemma exchange_ends_witness :
  let m := PoolStateDigest (state_digest (data (db dialing))) in
  let l := at_gateway (sample_moment 100) m [] sample_link in
  to_dialer l = [PoolBucketDigests (bucket_digests (data (db dialed))) true] /\ (1 + in_flight l <= in_flight sample_link)%nat.
Proof.
  intros m l. split; [by vm_compute|].
  assert (nsteps moves 1 sample_link l) as H.
  { eapply nsteps_l; [|apply nsteps_O]. by apply (gateway_gets sample_link (sample_moment 100) [] m []). }
  exact (proj1 (exchange_ends sample_link 1 l H)).
Defined.

Lemma pool_access_witness :
  let m := PoolStateDigest (state_digest (data (db dialing))) in
  (handle_control good_io (at_time 100) 60000 m berlin_session sample_gateway).2 <> [] /\
  registry_clears good_io berlin_session sample_gateway.
Proof.
  intros m. destruct (handle_control good_io (at_time 100) 60000 m berlin_session sample_gateway) as [[s' g'] out] eqn:E.
  assert (out <> []) as Ho.
  { intros ->. apply (f_equal snd) in E. vm_compute in E. discriminate E. }
  split; [exact Ho|]. apply (pool_access good_io (at_time 100) 60000 m berlin_session sample_gateway s' g' out E). by left.
Defined.

#[local] Instance pair_text_laws : RegistryTextLaws.
Proof.
  constructor; [|done|done]. intros x t E. split; [by apply table_value_text|apply (table_text_ok _ _ _ E)].
Qed.

End Sample.
