(* ===== verification/PendingConfig.v ===== *)
(** * Changes that must be confirmed

    [pending_config.rs] and the file part of [mgmt_service/heavy_settings.rs]: a change of
    the configuration that could lock an administrator out is written at once, and undone
    unless it is confirmed in time. The manager keeps for each change what the file held
    before; a sweep restores it after the deadline. The theorem: files and manager together
    implement a table in which each file has a committed content and perhaps a tentative
    one, through any sequence of changes, confirmations and sweeps, failing disks
    included. *)

From S2P Require Import Prelude Collections.
Local Open Scope Z_scope.

(** In nanoseconds. *)
Definition PENDING_CONFIG_TIMEOUT : Z := 120 * 1000000000.

Record PendingConfig : Type := {
  token : bytes;
  target_path : bytes;
  prior : option bytes;
  descriptor : bytes;
  expires_at : Z;
  confirmed : bool;
}.

(** [PendingConfig::begin] *)
Definition begin_pending (token target_path : bytes) (prior : option bytes) (descriptor : bytes) (now timeout : Z)
    : PendingConfig :=
  {| token := token; target_path := target_path; prior := prior; descriptor := descriptor;
     expires_at := now + timeout; confirmed := false |}.

Definition with_prior (x : option bytes) (p : PendingConfig) : PendingConfig :=
  {| token := token p; target_path := target_path p; prior := x; descriptor := descriptor p;
     expires_at := expires_at p; confirmed := confirmed p |}.

Definition is_expired (now : Z) (p : PendingConfig) : bool := negb (confirmed p) && (expires_at p <=? now).

Abbreviation Manager := (gmap bytes PendingConfig).
Abbreviation Files := (gmap bytes bytes).

(** What the file system does during a change: whether the old content can be read, the
    directory made and the new content written. *)
Record ApplyIo : Type := { prior_ok : bool; mkdir_ok : bool; content_ok : bool }.

Section Manager.
Context {HI : HashIter}.

Definition superseded_token (path : bytes) (m : Manager) : option bytes :=
  fst <$> find (fun e => bool_decide (target_path e.2 = path)) (hash_iter m).

Definition begin_locked (pending : PendingConfig) (m : Manager) : Manager :=
  let '(pending, m) :=
    match superseded_token (target_path pending) m with
    | Some t =>
        match m !! t with
        | Some superseded => (with_prior (prior superseded) pending, delete t m)
        | None => (pending, m)
        end
    | None => (pending, m)
    end in
  <[token pending := pending]> m.

Definition confirm_and_take (t : bytes) (now : Z) (m : Manager) : Manager * option PendingConfig :=
  match m !! t with
  | Some pending => if negb (is_expired now pending) then (delete t m, Some pending) else (m, None)
  | None => (m, None)
  end.

Definition has_pending_for_path (path : bytes) (m : Manager) : bool :=
  existsb (fun e => bool_decide (target_path e.2 = path)) (hash_iter m).

Definition tick_locked (now : Z) (m : Manager) : Manager * list PendingConfig :=
  let expired_tokens := map fst (filter (fun e => is_expired now e.2 = true) (hash_iter m)) in
  fold_left (fun '(m, l) t =>
    match m !! t with Some v => (delete t m, l ++ [v]) | None => (m, l) end) expired_tokens (m, []).

(** One file restored, or the entry kept for the next sweep. *)
Definition restore (ok : bytes -> bool) (pending : PendingConfig) (fm : Files * Manager) : Files * Manager :=
  let '(f, m) := fm in
  if ok (target_path pending) then
    (match prior pending with
     | Some x => <[target_path pending := x]> f
     | None => delete (target_path pending) f
     end, m)
  else (f, <[token pending := pending]> m).

Definition rollback_expired (ok : bytes -> bool) (now : Z) (fm : Files * Manager) : Files * Manager :=
  let '(f, m) := fm in
  let '(m, expired) := tick_locked now m in
  fold_left (fun fm pending => restore ok pending fm) expired (f, m).

(** The transaction of [apply_heavy] once the setting is resolved; [None] when it fails. *)
Definition apply_resolved (io : ApplyIo) (t path content descriptor : bytes) (now : Z) (fm : Files * Manager)
    : Files * Manager * option bytes :=
  let '(f, m) := fm in
  if negb (prior_ok io) then (f, m, None)
  else
  let prior := f !! path in
  if negb (mkdir_ok io) then (f, m, None)
  else if negb (content_ok io) then (f, m, None)
  else
  (<[path := content]> f,
   begin_locked (begin_pending t path prior descriptor now PENDING_CONFIG_TIMEOUT) m, Some t).
End Manager.

(** ** The table *)

Record Tentative : Type := { t_token : bytes; t_deadline : Z; t_content : bytes }.
Record Slot : Type := { committed : option bytes; tentative : option Tentative }.

Definition shown (s : Slot) : option bytes :=
  match tentative s with Some t => Some (t_content t) | None => committed s end.

Definition Table : Type := bytes -> Slot.

Definition propose (t path content : bytes) (now : Z) (T : Table) : Table := fun p =>
  if bool_decide (p = path) then
    {| committed := committed (T p);
       tentative := Some {| t_token := t; t_deadline := now + PENDING_CONFIG_TIMEOUT; t_content := content |} |}
  else T p.

Definition commit (t : bytes) (now : Z) (T : Table) : Table := fun p =>
  match tentative (T p) with
  | Some x => if bool_decide (t_token x = t) && (now <? t_deadline x)
              then {| committed := Some (t_content x); tentative := None |} else T p
  | None => T p
  end.

Definition expire (ok : bytes -> bool) (now : Z) (T : Table) : Table := fun p =>
  match tentative (T p) with
  | Some x => if (t_deadline x <=? now) && ok p
              then {| committed := committed (T p); tentative := None |} else T p
  | None => T p
  end.

Inductive Event : Type :=
  | Apply (io : ApplyIo) (t path content descriptor : bytes) (now : Z)
  | Confirm (t : bytes) (now : Z)
  | Sweep (ok : bytes -> bool) (now : Z).

Section Refinement.
Context {HI : HashIter}.

Definition step (fm : Files * Manager) (e : Event) : Files * Manager :=
  match e with
  | Apply io t path content descriptor now => (apply_resolved io t path content descriptor now fm).1
  | Confirm t now => (fm.1, (confirm_and_take t now fm.2).1)
  | Sweep ok now => rollback_expired ok now fm
  end.

Definition spec_step (T : Table) (e : Event) : Table :=
  match e with
  | Apply io t path content _ now =>
      if prior_ok io && mkdir_ok io && content_ok io then propose t path content now T else T
  | Confirm t now => commit t now T
  | Sweep ok now => expire ok now T
  end.

(** The entry of the manager for a tentative content. *)
Definition entry_for (p : bytes) (c : option bytes) (x : Tentative) (e : PendingConfig) : Prop :=
  token e = t_token x /\ target_path e = p /\ prior e = c /\ expires_at e = t_deadline x /\ confirmed e = false.

Record implements (fm : Files * Manager) (T : Table) : Prop := {
  impl_files : forall p, fm.1 !! p = shown (T p);
  impl_slot : forall p x, tentative (T p) = Some x ->
    exists e, fm.2 !! t_token x = Some e /\ entry_for p (committed (T p)) x e;
  impl_entry : forall t e, fm.2 !! t = Some e ->
    exists x, tentative (T (target_path e)) = Some x /\ t = t_token x /\
      entry_for (target_path e) (committed (T (target_path e))) x e;
}.

Lemma superseded_spec path m T f :
  implements (f, m) T ->
  superseded_token path m = t_token <$> tentative (T path).
Proof.
  intros [_ Hs He]. cbn in *. unfold superseded_token. destruct (find _ _) as [[t e]|] eqn:F.
  - apply find_some in F as [Hin Hp%bool_decide_eq_true]. cbn in Hp. apply list_elem_of_In, elem_of_iter in Hin.
    destruct (He t e Hin) as (x & Hx & -> & _). rewrite <-Hp. by rewrite Hx.
  - destruct (tentative (T path)) as [x|] eqn:E; [|done]. destruct (Hs path x E) as (e & Hm & _ & Hp & _).
    apply elem_of_iter, list_elem_of_In in Hm. pose proof (find_none _ _ F _ Hm) as Hf. cbn in Hf.
    by rewrite bool_decide_eq_true_2 in Hf.
Qed.

Lemma impl_ext fm T T' : (forall p, T p = T' p) -> implements fm T -> implements fm T'.
Proof. intros E [Hf Hs He]. split; intros; rewrite <-?E in *; eauto. Qed.

Lemma impl_token fm T p x : implements fm T -> tentative (T p) = Some x -> is_Some (fm.2 !! t_token x).
Proof. intros H E. destruct (impl_slot _ _ H p x E) as (e & -> & _). by eexists. Qed.

(** Distinct files have distinct tokens. *)
Lemma impl_inj fm T p q x y :
  implements fm T -> tentative (T p) = Some x -> tentative (T q) = Some y -> t_token x = t_token y -> p = q.
Proof.
  intros H Hp Hq E. destruct (impl_slot _ _ H p x Hp) as (e & Hm & _ & <- & _).
  destruct (impl_slot _ _ H q y Hq) as (e' & Hm' & _ & <- & _). rewrite E in Hm. congruence.
Qed.

Lemma begin_locked_eq f m T t path d now :
  implements (f, m) T ->
  begin_locked (begin_pending t path (f !! path) d now PENDING_CONFIG_TIMEOUT) m =
  <[t := begin_pending t path (committed (T path)) d now PENDING_CONFIG_TIMEOUT]>
    (match tentative (T path) with Some x => delete (t_token x) m | None => m end).
Proof.
  intros H. unfold begin_locked. cbn [target_path begin_pending].
  rewrite (superseded_spec path m T f H). destruct (tentative (T path)) as [x|] eqn:E; cbn [fmap option_fmap option_map].
  - destruct (impl_slot _ _ H path x E) as (e & Hm & _ & _ & Hp & _). cbn in Hm. rewrite Hm. by rewrite Hp.
  - pose proof (impl_files _ _ H path) as Hf. cbn in Hf. rewrite Hf. unfold shown. by rewrite E.
Qed.

Lemma propose_ok f m T t path content d now :
  implements (f, m) T -> m !! t = None ->
  implements (<[path := content]> f,
    begin_locked (begin_pending t path (f !! path) d now PENDING_CONFIG_TIMEOUT) m) (propose t path content now T).
Proof.
  intros H Hn. rewrite (begin_locked_eq f m T) by done. split; cbn [fst snd].
  - intros p. unfold propose. case_bool_decide as E; [subst; by rewrite lookup_insert_eq|].
    rewrite lookup_insert_ne by done. apply (impl_files _ _ H).
  - intros p x. unfold propose. case_bool_decide as E; cbn.
    { intros [= <-]. eexists. rewrite lookup_insert_eq. split; [done|]. subst. done. }
    intros Hx. destruct (impl_slot _ _ H p x Hx) as (e & Hm & He). exists e. split; [|done]. cbn in Hm.
    rewrite lookup_insert_ne by congruence. destruct (tentative (T path)) as [y|] eqn:Hy; [|done].
    rewrite lookup_delete_ne; [done|]. intros Et. by eapply E, impl_inj.
  - intros t' e Ht. apply lookup_insert_Some in Ht as [[<- <-] | [Hne Ht]].
    { unfold propose. cbn. rewrite bool_decide_eq_true_2 by done. by eexists. }
    assert (Hm : m !! t' = Some e) by (destruct (tentative (T path)); [by apply lookup_delete_Some in Ht as [] | done]).
    destruct (impl_entry _ _ H t' e Hm) as (x & Hx & -> & He). exists x. unfold propose.
    case_bool_decide as Ep; [|done]. subst path. rewrite Hx in Ht. by rewrite lookup_delete_eq in Ht.
Qed.

Lemma commit_ok f m T t now : implements (f, m) T -> implements (f, (confirm_and_take t now m).1) (commit t now T).
Proof.
  intros H. unfold confirm_and_take. destruct (m !! t) as [e|] eqn:Hm.
  2:{ eapply impl_ext; [|done]. intros p. unfold commit. destruct (tentative (T p)) as [x|] eqn:Hx; [|done].
      case_bool_decide; [|done]. destruct (impl_token _ _ _ _ H Hx) as [? Hs]. cbn in Hs. congruence. }
  destruct (impl_entry _ _ H t e Hm) as (x & Hx & Et & Hex & _ & Hp & Hd & Hc).
  unfold is_expired. rewrite Hc, Hd. cbn [negb andb]. destruct (Z.leb_spec (t_deadline x) now); cbn [negb fst].
  { eapply impl_ext; [|done]. intros p. unfold commit. destruct (tentative (T p)) as [y|] eqn:Hy; [|done].
    case_bool_decide as Ey; [|done]. assert (p = target_path e) as -> by (eapply impl_inj; [done..|congruence]).
    replace y with x by congruence. destruct (Z.ltb_spec now (t_deadline x)); [lia|done]. }
  split; cbn [fst snd].
  - intros p. pose proof (impl_files _ _ H p) as Hf. cbn in Hf. rewrite Hf. unfold commit, shown.
    destruct (tentative (T p)) as [y|] eqn:Hy; [|by rewrite Hy]. destruct (_ && _); [done|by rewrite Hy].
  - intros p y. unfold commit. destruct (tentative (T p)) as [z|] eqn:Hz; [|congruence].
    destruct (_ && _) eqn:B; [done|]. rewrite Hz. intros [= <-]. destruct (impl_slot _ _ H p z Hz) as (e' & Hm' & He').
    exists e'. split; [|done]. rewrite lookup_delete_ne; [done|]. intros ->. assert (p = target_path e) as ->.
    { eapply impl_inj; [done..|]. done. }
    rewrite Hx in Hz. injection Hz as ->. rewrite bool_decide_eq_true_2 in B by done.
    destruct (Z.ltb_spec now (t_deadline z)); [done|lia].
  - intros t' e' [Hne Hm']%lookup_delete_Some. destruct (impl_entry _ _ H t' e' Hm') as (y & Hy & -> & He').
    exists y. unfold commit. rewrite Hy. by rewrite bool_decide_eq_false_2 by done.
Qed.

(** *** The sweep *)

Definition put (e : PendingConfig) (m : Manager) : Manager := <[token e := e]> m.

Lemma put_all_none m l t : foldr put m l !! t = None <-> m !! t = None /\ t ∉ map token l.
Proof.
  induction l as [|e l IH]; cbn [foldr map]; [set_solver|]. unfold put at 1. rewrite lookup_insert_None, IH, not_elem_of_cons.
  naive_solver.
Qed.

Lemma put_all_commute m l e : token e ∉ map token l -> foldr put (put e m) l = put e (foldr put m l).
Proof.
  induction l as [|x l IH]; cbn; [done|]. rewrite not_elem_of_cons. intros [Hne Hl]. rewrite IH by done.
  unfold put. by rewrite insert_insert_ne.
Qed.

Lemma NoDup_filtered_keys {K A} (P : K * A -> Prop) `{!forall x, Decision (P x)} (l : list (K * A)) :
  NoDup l.*1 -> NoDup (filter P l).*1.
Proof.
  induction l as [|x l IH]; [done|]. rewrite fmap_cons, NoDup_cons, filter_cons. intros [Hn Hl].
  case_decide; [|by apply IH]. rewrite fmap_cons, NoDup_cons. split; [|by apply IH].
  intros (y & E & [_ Hy]%list_elem_of_filter)%list_elem_of_fmap. apply Hn. rewrite E. by apply list_elem_of_fmap_2.
Qed.

Definition take_token : Manager * list PendingConfig -> bytes -> Manager * list PendingConfig :=
  fun '(m, l) t => match m !! t with Some v => (delete t m, l ++ [v]) | None => (m, l) end.

Lemma take_tokens ts m l0 :
  NoDup ts -> (forall t, t ∈ ts -> exists e, m !! t = Some e /\ token e = t) ->
  exists m' l, fold_left take_token ts (m, l0) = (m', l0 ++ l) /\ foldr put m' l = m /\
    NoDup (map token l) /\ (forall e, e ∈ l -> m' !! token e = None /\ token e ∈ ts) /\
    (forall t, t ∈ ts -> exists e, e ∈ l /\ token e = t).
Proof.
  revert m l0. induction ts as [|t ts IH]; intros m l0 Hnd Hts; cbn [fold_left].
  { exists m, []. rewrite app_nil_r. repeat split; [constructor|set_solver..]. }
  apply NoDup_cons in Hnd as [Hnin Hnd]. destruct (Hts t) as (v & Hv & <-); [set_solver|].
  cbn [take_token]. rewrite Hv. destruct (IH (delete (token v) m) (l0 ++ [v]) Hnd) as (m' & l & -> & Hp & Hn & Hin & Hall).
  { intros t Ht. destruct (Hts t) as (e & ? & ?); [set_solver|]. exists e. split; [|done].
    rewrite lookup_delete_ne; [done|]. intros E. apply Hnin. by rewrite E. }
  exists m', (v :: l). rewrite <-app_assoc. split; [done|]. cbn. rewrite Hp. split; [|split; [|split]].
  - unfold put. by apply insert_delete_id.
  - constructor; [|done]. apply (put_all_none m' l). rewrite Hp. apply lookup_delete_eq.
  - intros e [-> | He]%elem_of_cons; [split; [|set_solver]|].
    + apply (put_all_none m' l). rewrite Hp. apply lookup_delete_eq.
    + apply Hin in He as [? ?]. split; [done|]. by apply elem_of_cons; right.
  - intros t [-> | Ht]%elem_of_cons; [exists v; set_solver|]. destruct (Hall t Ht) as (e & ? & ?). exists e. set_solver.
Qed.

Lemma put_all_lookup m l e : NoDup (map token l) -> e ∈ l -> foldr put m l !! token e = Some e.
Proof.
  induction l as [|x l IH]; cbn; [set_solver|]. intros [Hn Hnd]%NoDup_cons [-> | He]%elem_of_cons.
  - apply lookup_insert_eq.
  - unfold put. rewrite lookup_insert_ne; [by apply IH|]. intros E. apply Hn. rewrite E. by apply list_elem_of_fmap_2.
Qed.

(** One file back to its committed content. *)
Definition drop_one (path : bytes) (T : Table) : Table := fun p =>
  if bool_decide (p = path) then {| committed := committed (T p); tentative := None |} else T p.

Lemma restore_ok f m T e :
  implements (f, put e m) T -> m !! token e = None ->
  implements (match prior e with Some x => <[target_path e := x]> f | None => delete (target_path e) f end, m)
    (drop_one (target_path e) T).
Proof.
  intros H Hn. destruct (impl_entry _ _ H (token e) e) as (x & Hx & Et & _ & _ & Hp & _); [apply lookup_insert_eq|].
  split; cbn [fst snd].
  - intros p. unfold drop_one, shown. case_bool_decide as Ep; [subst p; cbn; rewrite Hp|].
    + destruct (committed _); [apply lookup_insert_eq|apply lookup_delete_eq].
    + pose proof (impl_files _ _ H p) as Hf. cbn in Hf. unfold shown in Hf. rewrite <-Hf.
      destruct (prior e); [by rewrite lookup_insert_ne|by rewrite lookup_delete_ne].
  - intros p y. unfold drop_one. case_bool_decide as Ep; [done|]. intros Hy.
    destruct (impl_slot _ _ H p y Hy) as (e' & Hm & He'). exists e'. split; [|done].
    cbn in Hm. unfold put in Hm. apply lookup_insert_Some in Hm as [[E <-] | [_ ?]]; [|done]. destruct He' as (_ & Hpath & _). congruence.
  - intros t e' Ht. destruct (impl_entry _ _ H t e') as (y & Hy & -> & He').
    { cbn. unfold put. apply lookup_insert_Some. right. split; [congruence|done]. }
    exists y. unfold drop_one. rewrite bool_decide_eq_false_2; [done|]. intros Ep. rewrite Ep in Hy. congruence.
Qed.

Definition drop_all (ok : bytes -> bool) (l : list PendingConfig) (T : Table) : Table :=
  fold_left (fun T e => if ok (target_path e) then drop_one (target_path e) T else T) l T.

Lemma restores_ok ok l f m T :
  implements (f, foldr put m l) T -> NoDup (map token l) -> (forall e, e ∈ l -> m !! token e = None) ->
  implements (fold_left (fun fm e => restore ok e fm) l (f, m)) (drop_all ok l T).
Proof.
  revert f m T. induction l as [|e l IH]; intros f m T H Hnd Hm; [done|]. cbn [fold_left drop_all].
  cbn in Hnd. apply NoDup_cons in Hnd as [Hn Hnd]. unfold restore at 2. unfold drop_all. cbn [fold_left].
  destruct (ok (target_path e)).
  - apply IH; [|done|set_solver]. apply restore_ok; [done|].
    apply put_all_none. split; [apply Hm; set_solver|done].
  - apply IH; [|done|].
    + cbn in H. change (<[token e:=e]> m) with (put e m). by rewrite put_all_commute.
    + intros e' He'. rewrite lookup_insert_ne; [apply Hm; set_solver|]. intros E. apply Hn. rewrite E.
      by apply list_elem_of_fmap_2.
Qed.

Lemma drop_all_eq ok l T p :
  drop_all ok l T p =
  if ok p && existsb (fun e => bool_decide (target_path e = p)) l
  then {| committed := committed (T p); tentative := None |} else T p.
Proof.
  revert T. induction l as [|e l IH]; intros T; [by rewrite andb_false_r|].
  change (drop_all ok (e :: l) T) with (drop_all ok l (if ok (target_path e) then drop_one (target_path e) T else T)).
  rewrite IH. cbn [existsb]. destruct (ok (target_path e)) eqn:Hok.
  - unfold drop_one. destruct (bool_decide_reflect (p = target_path e)) as [->|Hne].
    + rewrite Hok, (bool_decide_eq_true_2 (_ = _)) by done. cbn. by destruct (existsb _ _).
    + by rewrite (bool_decide_eq_false_2 (target_path e = p)).
  - case_bool_decide as E; [|done]. subst p. by rewrite Hok.
Qed.

Lemma sweeps_ok f m T ok now : implements (f, m) T -> implements (rollback_expired ok now (f, m)) (expire ok now T).
Proof.
  intros H. unfold rollback_expired, tick_locked. set (ts := map fst _). fold take_token.
  assert (Hts : forall t, t ∈ ts <-> exists e, m !! t = Some e /\ is_expired now e = true).
  { intros t. unfold ts. rewrite list_elem_of_fmap. split.
    - intros ([t' e] & -> & [Hx Hin]%list_elem_of_filter). exists e. by rewrite <-elem_of_iter.
    - intros (e & Hm & Hx). exists (t, e). split; [done|]. apply list_elem_of_filter. by rewrite elem_of_iter. }
  destruct (take_tokens ts m []) as (m' & l & -> & Hm & Hnd & Hin & Hall).
  { apply NoDup_filtered_keys, NoDup_iter. }
  { intros t (e & Ht & _)%Hts. exists e. split; [done|]. by destruct (impl_entry _ _ H t e Ht) as (x & _ & -> & -> & _). }
  cbn [app]. eapply impl_ext; [|apply restores_ok; [by rewrite Hm|done|by intros e [? ?]%Hin]].
  intros p. rewrite drop_all_eq. unfold expire. destruct (existsb _ l) eqn:Ex.
  - apply existsb_exists in Ex as (e & He & <-%bool_decide_eq_true). apply list_elem_of_In in He.
    pose proof (put_all_lookup m' l e Hnd He) as Hl. rewrite Hm in Hl.
    apply Hin in He as [_ (e' & Hm' & Hx)%Hts]. replace e' with e in * by congruence.
    destruct (impl_entry _ _ H _ e Hl) as (x & -> & _ & _ & _ & _ & Hd & Hc). unfold is_expired in Hx.
    rewrite Hc, Hd in Hx. cbn in Hx. rewrite Hx. by destruct (ok _).
  - rewrite andb_false_r. destruct (tentative (T p)) as [x|] eqn:Hx; [|done].
    destruct (Z.leb_spec (t_deadline x) now) as [Hle|]; [|done]. exfalso.
    destruct (impl_slot _ _ H p x Hx) as (e & Hl & Ht & Hp & _ & Hd & Hc). cbn in Hl.
    destruct (Hall (t_token x)) as (e' & He' & Et).
    { apply Hts. exists e. split; [done|]. unfold is_expired. rewrite Hc, Hd. by apply Z.leb_le. }
    pose proof (put_all_lookup m' l e' Hnd He') as Hl'. rewrite Hm, Et in Hl'. replace e' with e in * by congruence.
    apply not_true_iff_false in Ex. apply Ex, existsb_exists. exists e. by rewrite <-list_elem_of_In, bool_decide_eq_true.
Qed.

(** ** Runs *)

Definition proposed (e : Event) : option bytes := match e with Apply _ t _ _ _ _ => Some t | _ => None end.

(** The tokens drawn by the changes of a run. *)
Fixpoint drawn (events : list Event) : list bytes :=
  match events with
  | [] => []
  | e :: events => match proposed e with Some t => t :: drawn events | None => drawn events end
  end.

Lemma drawn_app l l' : drawn (l ++ l') = drawn l ++ drawn l'.
Proof. induction l as [|e l IH]; [done|]. cbn. rewrite IH. by destruct (proposed e). Qed.

Definition run (fm : Files * Manager) (events : list Event) : Files * Manager := fold_left step events fm.
Definition spec_run (T : Table) (events : list Event) : Table := fold_left spec_step events T.

Definition settled (f : Files) : Table := fun p => {| committed := f !! p; tentative := None |}.

Lemma settled_ok f : implements (f, ∅) (settled f).
Proof. split; done. Qed.

Lemma step_ok fm T e :
  implements fm T -> (forall t, proposed e = Some t -> fm.2 !! t = None) -> implements (step fm e) (spec_step T e).
Proof.
  destruct fm as [f m]. intros H Hn. destruct e as [io t path content d now|t now|ok now]; cbn [step spec_step].
  - unfold apply_resolved. destruct (prior_ok io), (mkdir_ok io), (content_ok io); cbn; try done.
    apply propose_ok; [done|]. by apply (Hn t).
  - by apply commit_ok.
  - by apply sweeps_ok.
Qed.

(** Only a proposal brings a token, and only its own. *)
Lemma step_tokens fm T e t :
  implements fm T -> (forall t', proposed e = Some t' -> fm.2 !! t' = None) ->
  is_Some ((step fm e).2 !! t) -> is_Some (fm.2 !! t) \/ proposed e = Some t.
Proof.
  intros H Hn [x Hx]. pose proof (step_ok fm T e H Hn) as H'.
  destruct (impl_entry _ _ H' t x Hx) as (y & Hy & -> & _). set (p := target_path x) in *. clearbody p. clear Hx H' x.
  destruct e as [io t path content d now|t now|ok now]; cbn [spec_step proposed] in *.
  - destruct (_ && _); [|left; by eapply impl_token]. unfold propose in Hy.
    case_bool_decide; [right; by injection Hy as <-|left; by eapply impl_token].
  - unfold commit in Hy. destruct (tentative (T p)) as [z|] eqn:Hz; [|congruence]. destruct (_ && _); [done|].
    left. by eapply impl_token.
  - unfold expire in Hy. destruct (tentative (T p)) as [z|] eqn:Hz; [|congruence]. destruct (_ && _); [done|].
    left. by eapply impl_token.
Qed.

Lemma run_ok fm T events :
  implements fm T -> NoDup (drawn events) -> (forall t, t ∈ drawn events -> fm.2 !! t = None) ->
  implements (run fm events) (spec_run T events).
Proof.
  revert fm T. induction events as [|e events IH]; intros fm T H Hnd Hn; [done|]. cbn in Hnd, Hn.
  assert (He : forall t, proposed e = Some t -> fm.2 !! t = None).
  { intros t E. apply Hn. rewrite E. set_solver. }
  apply IH; [by apply step_ok| |].
  - destruct (proposed e); [by apply NoDup_cons in Hnd as [_ ?]|done].
  - intros t Ht. apply eq_None_not_Some. intros Hs. destruct (step_tokens fm T e t H He Hs) as [Hs'|E].
    + destruct (proposed e); rewrite Hn in Hs' by set_solver; by destruct Hs'.
    + rewrite E in Hnd. by apply NoDup_cons in Hnd as [? _].
Qed.

Lemma run_settled f events : NoDup (drawn events) -> implements (run (f, ∅) events) (spec_run (settled f) events).
Proof. intros. apply run_ok; [apply settled_ok|done|]. intros. apply lookup_empty. Qed.

Lemma confirm_spec fm T t now :
  implements fm T ->
  is_Some (confirm_and_take t now fm.2).2 <->
  exists p x, tentative (T p) = Some x /\ t_token x = t /\ now < t_deadline x.
Proof.
  intros H. unfold confirm_and_take. destruct (fm.2 !! t) as [e|] eqn:Hm; cbn.
  - destruct (impl_entry _ _ H t e Hm) as (x & Hx & -> & _ & _ & _ & Hd & Hc). unfold is_expired. rewrite Hc, Hd.
    destruct (Z.leb_spec (t_deadline x) now); cbn.
    + split; [by intros []|]. intros (p & y & Hy & Et & Hlt). assert (p = target_path e) as -> by by eapply impl_inj.
      rewrite Hx in Hy. injection Hy as <-. lia.
    + split; [|by eexists]. intros _. by exists (target_path e), x.
  - split; [by intros []|]. intros (p & x & Hx & <- & _). destruct (impl_token _ _ _ _ H Hx). congruence.
Qed.

Lemma pending_spec fm T p : implements fm T -> has_pending_for_path p fm.2 = true <-> is_Some (tentative (T p)).
Proof.
  intros H. unfold has_pending_for_path. rewrite existsb_exists. split.
  - intros ([t e] & Hin & <-%bool_decide_eq_true). apply list_elem_of_In, elem_of_iter in Hin. cbn.
    destruct (impl_entry _ _ H t e Hin) as (x & -> & _). by eexists.
  - intros [x Hx]. destruct (impl_slot _ _ H p x Hx) as (e & Hm & _ & Hp & _). exists (t_token x, e).
    by rewrite <-list_elem_of_In, elem_of_iter, bool_decide_eq_true.
Qed.

(** C10: the files and the manager of pending changes implement the table of committed and
    tentative contents. After any sequence of changes, confirmations and sweeps, with any
    of the reads, writes and restores failing, and tokens drawn without repetition: every
    file holds its tentative content if it has one and its committed content otherwise; a
    confirmation succeeds exactly for the token of a tentative content before its deadline;
    and a file counts as pending exactly when it has a tentative content. *)
Theorem pending_refines f events :
  NoDup (drawn events) ->
  let fm := run (f, ∅) events in
  let T := spec_run (settled f) events in
  (forall p, fm.1 !! p = shown (T p)) /\
  (forall t now, is_Some (confirm_and_take t now fm.2).2 <->
    exists p x, tentative (T p) = Some x /\ t_token x = t /\ now < t_deadline x) /\
  (forall p, has_pending_for_path p fm.2 = true <-> is_Some (tentative (T p))).
Proof.
  intros Hnd fm T. pose proof (run_settled f events Hnd) as H. split; [apply (impl_files _ _ H)|]. split.
  - intros t now. by apply confirm_spec.
  - intros p. by apply pending_spec.
Qed.

(** *** What becomes of one change *)

(** Events that neither replace the change of [path] nor confirm it. *)
Definition leaves_alone (t path : bytes) (e : Event) : Prop :=
  match e with
  | Apply _ _ path' _ _ _ => path' <> path
  | Confirm t' _ => t' <> t
  | Sweep _ _ => True
  end.

Lemma spec_step_committed t path e T c :
  leaves_alone t path e -> committed (T path) = c -> (forall x, tentative (T path) = Some x -> t_token x = t) ->
  committed (spec_step T e path) = c /\ (forall x, tentative (spec_step T e path) = Some x -> tentative (T path) = Some x).
Proof.
  intros He Hc Ht. destruct e as [io t' path' content d now|t' now|ok now]; cbn [spec_step leaves_alone] in *.
  - destruct (_ && _); [|done]. unfold propose. by rewrite bool_decide_eq_false_2.
  - unfold commit. destruct (tentative (T path)) as [x|] eqn:Hx; [|by rewrite Hx].
    rewrite bool_decide_eq_false_2 by (rewrite (Ht x) by done; done). cbn [andb]. split; [done|]. intros y. by rewrite Hx.
  - unfold expire. destruct (tentative (T path)) as [x|] eqn:Hx; [|by rewrite Hx]. destruct (_ && _); [done|]. split; [done|]. intros y. by rewrite Hx.
Qed.

Lemma spec_run_committed t path events T c :
  Forall (leaves_alone t path) events -> committed (T path) = c ->
  (forall x, tentative (T path) = Some x -> t_token x = t) ->
  committed (spec_run T events path) = c /\
  (forall x, tentative (spec_run T events path) = Some x -> tentative (T path) = Some x).
Proof.
  intros Hf. revert T. induction Hf as [|e events He Hf IH]; intros T Hc Ht; [done|].
  destruct (spec_step_committed t path e T c He Hc Ht) as [Hc' Ht'].
  destruct (IH (spec_step T e) Hc') as [? Ht'']; [by intros x ?%Ht'; apply Ht|]. split; [done|]. eauto.
Qed.

End Refinement.

(** ** A sample: the mask of a client changed twice, the second change confirmed *)

Section Sample.
#[local] Existing Instance ordered_iter.

Definition good_io : ApplyIo := {| prior_ok := true; mkdir_ok := true; content_ok := true |}.
Definition sample_files : Files := {[ [1] := [100] ]}.
Definition chained : list Event :=
  [Apply good_io [10] [1] [101] [] 0; Apply good_io [11] [1] [102] [] 50; Confirm [10] 60; Confirm [11] 70;
   Apply good_io [12] [2] [103] [] 80; Sweep (fun _ => true) (10 * PENDING_CONFIG_TIMEOUT)].

Lemma pending_refines_witness :
  (run (sample_files, ∅) chained).1 !! [1] = Some [102] /\ (run (sample_files, ∅) chained).1 !! [2] = None /\
  (forall p, (run (sample_files, ∅) chained).1 !! p = shown (spec_run (settled sample_files) chained p)).
Proof.
  split; [by vm_compute|]. split; [by vm_compute|].
  assert (Hnd : NoDup (drawn chained)) by (apply (bool_decide_eq_true_1 _); by vm_compute).
  exact (proj1 (pending_refines sample_files chained Hnd)).
Defined.

Definition unlucky : list Event :=
  [Confirm [10] 5; Sweep (fun _ => false) (2 * PENDING_CONFIG_TIMEOUT); Apply good_io [12] [2] [103] [] 80].

End Sample.
