(* ===== verification/AuditLog.v ===== *)
(** * The audit log

    [audit_log.rs], and [audit_tail] and [audit_verify] of [mgmt_service/mod.rs]. Every
    administrative action is a line of a file, each with the hash of the line before it. The
    file is modelled as its bytes: a logger, of any process, takes the hash of the last
    line, mends a tail that a crash left behind, and appends. The theorems: whatever crashes
    and failures there are, the lines of the file form an unbroken chain of the actions; a
    reader of the tail finds it unbroken; and whoever holds the hash of the last line
    notices every change but the loss of the oldest lines. *)

From S2P Require Import Prelude Text Utf8 Crypto ClientDb.
Local Open Scope Z_scope.

Module AuditActor.
Inductive t : Type := Cli | Api | System.
Definition as_str (a : t) : bytes :=
  match a with Cli => str_bytes "cli" | Api => str_bytes "api" | System => str_bytes "system" end.
End AuditActor.

Definition GENESIS_HASH : bytes := replicate 64 48.

Record AuditEntry : Type := {
  ts : bytes;
  actor : AuditActor.t;
  action : bytes;
  target : bytes;
  result : bytes;
  prev_hash : bytes;
  hash : bytes;
  hash_version : Z;
}.

(** sha2, and the text of an entry by serde_json. *)
Class AuditText : Type := {
  sha256 : bytes -> bytes;
  entry_to_vec : AuditEntry -> option bytes;
  entry_from_slice : bytes -> option AuditEntry;
}.

(** [hex::encode] *)
Definition hex_encode (l : bytes) : bytes := concat (map hex_u8 l).

(** What [log] is asked to record. *)
Record Action : Type := {
  a_actor : AuditActor.t;
  a_action : bytes;
  a_target : bytes;
  a_result : bytes;
}.

(** The system during one call: the time of the entry; whether the file can be opened and
    locked, read, cut, and completed by a newline; and how many bytes of the new line reach
    the file, all of them or not. *)
Record LogIo : Type := {
  at_time : bytes;
  open_ok : bool;
  scan_ok : bool;
  cut_ok : bool;
  newline_ok : bool;
  written : option nat;
}.

(** [Iterator::rposition] *)
Fixpoint rposition (p : Z -> bool) (l : bytes) : option nat :=
  match l with
  | [] => None
  | x :: l => match rposition p l with
              | Some i => Some (S i)
              | None => if p x then Some O else None
              end
  end.

(** [u8::is_ascii_whitespace] *)
Definition is_ascii_whitespace (b : Z) : bool := (b =? 32) || (b =? 9) || (b =? 10) || (b =? 12) || (b =? 13).

Definition MAX_SCAN : Z := 4 * 1024 * 1024.

(** Where the last line starts, the line, and whether the file ends in a newline. *)
Definition LastLine : Type := nat * bytes * bool.

(** One round of the loop: the window of [budget] bytes at the end of the file. *)
Definition scan_window (budget : Z) (file : bytes) : option LastLine :=
  let start := Z.to_nat (sat_sub (len file) budget) in
  let window := drop start file in
  let terminated := bool_decide (last window = Some 10) in
  let end_ := match rposition (fun b => negb (is_ascii_whitespace b)) window with Some i => S i | None => O end in
  let window := take end_ window in
  let line_start := match rposition (fun b => b =? 10) window with
                    | Some i => Some (S i)
                    | None => if (start =? 0)%nat then Some O else None
                    end in
  (fun i => (start + i, drop i window, terminated))%nat <$> line_start.

(** The loop over growing windows; ten of them reach the limit. *)
Fixpoint last_line (rounds : nat) (budget : Z) (file : bytes) : option LastLine :=
  match scan_window budget file with
  | Some found => Some found
  | None =>
      if MAX_SCAN <=? budget then None
      else match rounds with S rounds => last_line rounds (2 * budget) file | O => None end
  end.

Section Log.
Context {AT : AuditText}.

Definition canonical_join (e : AuditEntry) : bytes :=
  ts e ++ 124 :: AuditActor.as_str (actor e) ++ 124 :: action e ++ 124 :: target e ++ 124 :: result e
  ++ 124 :: prev_hash e.

Definition compute_hash_legacy (e : AuditEntry) : bytes := hex_encode (sha256 (canonical_join e)).

Definition field (x : bytes) : bytes := be_bytes 8 (wrap64 (len x)) ++ x.

Definition hash_input (e : AuditEntry) : bytes :=
  (str_bytes "aivpn-audit-v1" ++ [0])
  ++ concat (map field [ts e; AuditActor.as_str (actor e); action e; target e; result e; prev_hash e]).

Definition compute_hash (e : AuditEntry) : bytes := hex_encode (sha256 (hash_input e)).

(** The hash of an entry matches its fields. *)
Definition self_consistent (e : AuditEntry) : bool :=
  match hash_version e with
  | 0 => bool_decide (hash e = compute_hash_legacy e)
  | 1 => bool_decide (hash e = compute_hash e)
  | _ => false
  end.

(** The first bad entry, if there is one; [before] is the hash of the entry in front. *)
Fixpoint verify_from (before : option bytes) (i : nat) (entries : list AuditEntry) : option nat :=
  match entries with
  | [] => None
  | e :: entries =>
      if match before with Some h => negb (bool_decide (prev_hash e = h)) | None => false end then Some i
      else if negb (self_consistent e) then Some i
      else verify_from (Some (hash e)) (S i) entries
  end.

Definition verify_chain (entries : list AuditEntry) : option nat := verify_from None 0 entries.

(** The file after it is mended and the hash to chain to, or no hash on failure. A file
    that was cut ends in a newline or is empty, so two rounds are enough. *)
Fixpoint read_last_hash (rounds : nat) (io : LogIo) (file : bytes) : bytes * option bytes :=
  if negb (scan_ok io) then (file, None)
  else
  match last_line 9 8192 file with
  | None => (file, None)
  | Some (at_byte, line, terminated) =>
      match line with
      | [] => (file, Some GENESIS_HASH)
      | _ =>
          match entry_from_slice line with
          | None =>
              if negb terminated then
                if cut_ok io then
                  match rounds with
                  | S rounds => read_last_hash rounds io (take at_byte file)
                  | O => (take at_byte file, None)
                  end
                else (file, None)
              else (file, None)
          | Some entry =>
              let h := match hash entry with [] => GENESIS_HASH | h => h end in
              if terminated then (file, Some h)
              else if newline_ok io then (file ++ [10], Some h) else (file, None)
          end
      end
  end.

(** The entry for an action, hashed. *)
Definition new_entry (time : bytes) (a : Action) (before : bytes) : AuditEntry :=
  let e := {| ts := time; actor := a_actor a; action := a_action a; target := a_target a; result := a_result a;
              prev_hash := before; hash := []; hash_version := 1 |} in
  {| ts := ts e; actor := actor e; action := action e; target := target e; result := result e;
     prev_hash := prev_hash e; hash := compute_hash e; hash_version := 1 |}.

Definition log (io : LogIo) (a : Action) (file : bytes) : bytes :=
  if negb (open_ok io) then file
  else
  match read_last_hash 1 io file with
  | (file, None) => file
  | (file, Some before) =>
      match entry_to_vec (new_entry (at_time io) a before) with
      | None => file
      | Some text =>
          let line := text ++ [10] in
          file ++ match written io with None => line | Some n => take n line end
      end
  end.

(** ** Reading *)

Definition strip_cr (l : bytes) : bytes := match rev l with 13 :: l => rev l | _ => l end.

(** [str::lines] *)
Definition lines (s : bytes) : list bytes :=
  let pieces := split 10 s in
  let pieces := match rev pieces with [] :: front => rev front | _ => pieces end in
  map strip_cr pieces.

(** The lines of a text that are not blank. *)
Definition not_blank (l : bytes) : Prop := trim l <> [].
Definition log_lines (file : bytes) : list bytes := filter not_blank (lines (from_utf8_lossy file)).

Definition audit_tail (limit : Z) (file : option bytes) : option (list AuditEntry) :=
  match file with
  | None => None
  | Some file =>
      let max_bytes := Z.max (64 * 1024) (Z.min (4 * 1024 * 1024) (Z.min u64_max (limit * 1024))) in
      let start := sat_sub (len file) max_bytes in
      let ls := log_lines (drop (Z.to_nat start) file) in
      let ls := if 0 <? start then tl ls else ls in
      Some (base.omap entry_from_slice (rev (take (Z.to_nat limit) (rev ls))))
  end.

Record AuditVerifyView : Type := { av_entries : list AuditEntry; av_verified : bool; av_broken_at : option nat }.

Definition audit_verify (limit : Z) (file : option bytes) : option AuditVerifyView :=
  entries ← audit_tail limit file;
  let broken_at := verify_chain entries in
  Some {| av_entries := entries; av_verified := bool_decide (broken_at = None); av_broken_at := broken_at |}.
End Log.

(** ** The end of the file *)

Lemma rposition_None p l : rposition p l = None <-> Forall (fun x => p x = false) l.
Proof.
  induction l as [|x l IH]; cbn; [by split; [constructor|]|]. rewrite Forall_cons. destruct (rposition p l).
  - split; [done|]. intros [_ H]. by apply IH in H.
  - destruct IH as [IH _]. specialize (IH eq_refl). destruct (p x); naive_solver.
Qed.

Lemma rposition_last p l x r :
  p x = true -> Forall (fun y => p y = false) r -> rposition p (l ++ x :: r) = Some (length l).
Proof.
  intros Hx Hr. induction l as [|y l IH]; cbn; [|by rewrite IH]. by rewrite (proj2 (rposition_None p r) Hr), Hx.
Qed.

(** A line of text: no newline in it, and something but white space at its end. *)
Definition plain_line (l : bytes) : Prop :=
  10 ∉ l /\ exists m x, l = m ++ [x] /\ is_ascii_whitespace x = false.

Definition blank (ws : bytes) : Prop := Forall (fun b => is_ascii_whitespace b = true) ws.

Definition ends_line (l : bytes) : Prop := l = [] \/ last l = Some 10.

Lemma blank_newline : blank [10].
Proof. by apply Forall_singleton. Qed.

Lemma blank_none ws : blank ws -> rposition (fun b => negb (is_ascii_whitespace b)) ws = None.
Proof. intros H. apply rposition_None. eapply Forall_impl; [done|]. by intros x ->. Qed.

Lemma plain_nonempty line : plain_line line -> line <> [].
Proof. intros (_ & m & x & -> & _). by destruct m. Qed.

Lemma plain_drop line k : (k < length line)%nat -> plain_line line -> plain_line (drop k line).
Proof.
  intros Hk (Hn & m & x & -> & Hx). split.
  - intros Hin. apply Hn. rewrite <-(take_drop k (m ++ [x])). set_solver.
  - exists (drop k m), x. split; [|done]. rewrite length_app in Hk. cbn in Hk. rewrite drop_app_le by lia. done.
Qed.

Lemma plain_no_newline line : plain_line line -> Forall (fun b => (b =? 10) = false) line.
Proof. intros [Hn _]. apply Forall_forall. intros y Hy. apply Z.eqb_neq. by intros ->. Qed.

Lemma line_terminated f line ws :
  plain_line line -> bool_decide (last (f ++ line ++ ws) = Some 10) = bool_decide (last ws = Some 10).
Proof.
  intros (Hn & m & x & -> & Hx). apply bool_decide_ext. destruct ws as [|y ws _] using rev_ind.
  - rewrite app_nil_r, app_assoc, last_snoc. split; [by intros [= ->]|done].
  - by rewrite !app_assoc, !last_snoc.
Qed.

(** The window without the white space at its end. *)
Lemma window_line f line ws :
  plain_line line -> blank ws ->
  let window := f ++ line ++ ws in
  let end_ := match rposition (fun b => negb (is_ascii_whitespace b)) window with Some i => S i | None => O end in
  take end_ window = f ++ line.
Proof.
  intros (_ & m & x & -> & Hx) Hb. cbv zeta. rewrite <-app_assoc, (app_assoc f). cbn [app].
  rewrite rposition_last; [|by rewrite Hx|eapply Forall_impl; [done|]; by intros y ->].
  rewrite cons_middle, (app_assoc (f ++ m)), take_app_length' by (rewrite !length_app; cbn; lia). by rewrite <-app_assoc.
Qed.

(** A window either shows where the last line starts, or begins behind that place. *)
Lemma scan_window_spec front line ws b :
  plain_line line -> blank ws -> ends_line front ->
  let file := front ++ line ++ ws in
  scan_window b file =
  if (len file <=? b) || (len (line ++ ws) <? b) then Some (length front, line, bool_decide (last ws = Some 10)) else None.
Proof.
  intros Hl Hw Hf file. unfold scan_window. set (start := Z.to_nat (sat_sub (len file) b)). destruct (_ || _) eqn:E.
  - assert (Hs : (start = 0 \/ start < length front)%nat /\ drop start file = drop start front ++ line ++ ws).
    { unfold start, file, sat_sub in *. rewrite !length_app in *.
      apply orb_true_iff in E as [?%Z.leb_le | ?%Z.ltb_lt]; (split; [lia|apply drop_app_le; lia]). }
    destruct Hs as [Hs ->]. rewrite line_terminated, window_line by done.
    destruct Hf as [-> | Hf].
    + destruct Hs as [->|Hs]; [|cbn in Hs; lia]. cbn. rewrite (proj2 (rposition_None _ _)); [done|].
      by apply plain_no_newline.
    + destruct front as [|x front _] using rev_ind; [done|]. rewrite last_snoc in Hf. injection Hf as ->.
      rewrite length_app in Hs. cbn in Hs. rewrite drop_app_le by lia. rewrite <-!app_assoc. cbn [app].
      rewrite rposition_last by (done || by apply plain_no_newline).
      cbn [fmap option_fmap option_map]. rewrite length_drop, length_app. cbn [length].
      f_equal. f_equal. f_equal; [lia|].
      rewrite cons_middle, (app_assoc _ [10]). rewrite drop_app_length'; [done|]. rewrite length_app, length_drop. cbn. lia.
  - apply orb_false_iff in E as [E0%Z.leb_gt E1%Z.ltb_ge]. assert (Hs : (length front <= start)%nat /\ start <> 0%nat).
    { unfold start, file, sat_sub in *. rewrite !length_app in *. lia. }
    destruct Hs as [Hs Hs0]. replace (start =? 0)%nat with false by (symmetry; by apply Nat.eqb_neq).
    set (k := (start - length front)%nat).
    assert (Hd : drop start file = drop k (line ++ ws)) by by (unfold file; rewrite drop_app_ge).
    rewrite Hd. destruct (decide (k < length line)%nat) as [Hk|Hk].
    + rewrite drop_app_le by lia. pose proof (plain_drop line k Hk Hl) as Hp.
      change (drop k line ++ ws) with ([] ++ drop k line ++ ws). rewrite window_line by done. cbn [app].
      by rewrite (proj2 (rposition_None _ _) (plain_no_newline _ Hp)).
    + rewrite drop_app_ge by lia. rewrite blank_none by by apply Forall_drop. done.
Qed.

Lemma last_line_found front line ws b rounds :
  plain_line line -> blank ws -> ends_line front -> 
  MAX_SCAN <= 2 ^ Z.of_nat rounds * b -> len (line ++ ws) < MAX_SCAN ->
  last_line rounds b (front ++ line ++ ws) = Some (length front, line, bool_decide (last ws = Some 10)).
Proof.
  intros Hl Hw Hf. revert b. induction rounds as [|rounds IH]; intros b Hr Hs; cbn [last_line];
    rewrite scan_window_spec by done; destruct (_ || _) eqn:E; try done;
    apply orb_false_iff in E as [_ E%Z.ltb_ge].
  - exfalso. change (2 ^ Z.of_nat 0) with 1 in Hr. lia.
  - destruct (Z.leb_spec MAX_SCAN b); [lia|]. apply IH; [|done]. rewrite Nat2Z.inj_succ, Z.pow_succ_r in Hr by lia. lia.
Qed.

Lemma last_line_of front line ws :
  plain_line line -> blank ws -> ends_line front -> len (line ++ ws) < MAX_SCAN ->
  last_line 9 8192 (front ++ line ++ ws) = Some (length front, line, bool_decide (last ws = Some 10)).
Proof. intros. by apply last_line_found. Qed.

(** *** A file is cut once at most *)

Lemma rposition_Some p l i : rposition p l = Some i -> exists x, l !! i = Some x /\ p x = true.
Proof.
  revert i. induction l as [|y l IH]; intros i; cbn; [done|]. destruct (rposition p l) as [j|].
  - intros [= <-]. by apply IH.
  - destruct (p y) eqn:E; [|done]. intros [= <-]. by exists y.
Qed.

Lemma last_of_drop (l : bytes) n : (n < length l)%nat -> last (drop n l) = last l.
Proof. intros H. rewrite !last_lookup, lookup_drop, length_drop. f_equal. lia. Qed.

Lemma scan_ends budget file a l t :
  0 < budget -> scan_window budget file = Some (a, l, t) ->
  ends_line (take a file) /\ (ends_line file -> file = [] \/ t = true).
Proof.
  intros Hb. unfold scan_window. set (start := Z.to_nat _). set (window := take _ _).
  destruct (rposition (fun b => b =? 10) window) as [i|] eqn:E; [|destruct (start =? 0)%nat eqn:E0; [|done]];
    cbn [fmap option_fmap option_map]; intros [= <- _ <-]; (split; [|intros [-> | Hl]; [by left|]; right]).
  - apply rposition_Some in E as (x & Hx & ->%Z.eqb_eq). right. apply lookup_take_Some in Hx as [Hx _].
    rewrite lookup_drop in Hx. rewrite Nat.add_succ_r, (take_S_r _ _ _ Hx). apply last_snoc.
  - apply bool_decide_eq_true_2. rewrite last_of_drop; [done|]. destruct file; [done|]. unfold start, sat_sub. cbn. lia.
  - apply Nat.eqb_eq in E0 as ->. by left.
  - apply bool_decide_eq_true_2. rewrite last_of_drop; [done|]. destruct file; [done|]. unfold start, sat_sub. cbn. lia.
Qed.

Lemma last_line_ends rounds budget file a l t :
  0 < budget -> last_line rounds budget file = Some (a, l, t) ->
  ends_line (take a file) /\ (ends_line file -> file = [] \/ t = true).
Proof.
  revert budget. induction rounds as [|n IH]; intros budget Hb; cbn [last_line];
    destruct (scan_window budget file) as [[[a' l'] t']|] eqn:E.
  - intros [= <- <- <-]. by eapply scan_ends.
  - by destruct (_ <=? _).
  - intros [= <- <- <-]. by eapply scan_ends.
  - destruct (_ <=? _); [done|]. apply IH. lia.
Qed.

Lemma read_ended {AT : AuditText} rounds rounds' io file :
  ends_line file -> read_last_hash rounds io file = read_last_hash rounds' io file.
Proof.
  intros He. assert (H : forall r, read_last_hash r io file = read_last_hash 0 io file); [|by rewrite (H rounds), (H rounds')].
  intros r. destruct r as [|r]; [done|]. cbn [read_last_hash]. destruct (scan_ok io); [|done]. cbn [negb].
  destruct (last_line 9 8192 file) as [[[a l] t]|] eqn:E; [|done]. destruct (last_line_ends 9 8192 _ _ _ _ eq_refl E) as [_ Ht].
  destruct (Ht He) as [-> | ->]; [|by destruct l]. destruct l; [done|]. by vm_compute in E.
Qed.

(** Two rounds of [read_last_hash] are enough. *)
Lemma read_rounds {AT : AuditText} rounds io file : read_last_hash (S rounds) io file = read_last_hash 1 io file.
Proof.
  assert (H : forall r, read_last_hash (S r) io file =
    if negb (scan_ok io) then (file, None) else
    match last_line 9 8192 file with
    | Some (a, x :: l, t) =>
        match entry_from_slice (x :: l) with
        | None => if negb t then if cut_ok io then read_last_hash 0 io (take a file) else (file, None) else (file, None)
        | Some _ => read_last_hash 0 io file
        end
    | _ => read_last_hash 0 io file
    end); [|by rewrite (H rounds), (H 0%nat)].
  intros r. cbn [read_last_hash]. destruct (scan_ok io) eqn:Hs; [|done]. cbn [negb].
  destruct (last_line 9 8192 file) as [[[a l] t]|] eqn:E; [|done]. destruct (last_line_ends 9 8192 _ _ _ _ eq_refl E) as [Ha _].
  destruct l as [|x l]; [done|]. destruct (entry_from_slice _); [done|]. destruct (negb t); [|done].
  destruct (cut_ok io) eqn:Hc; [|done]. rewrite (read_ended r 0) by done. cbn [read_last_hash]. by rewrite Hs, Hc.
Qed.

(** ** What is known of the libraries *)

Record entry_ok (e : AuditEntry) : Prop := {
  ok_ts : string_ok (ts e);
  ok_action : string_ok (action e);
  ok_target : string_ok (target e);
  ok_result : string_ok (result e);
  ok_prev_hash : string_ok (prev_hash e);
  ok_hash : string_ok (hash e);
  ok_version : u8_ok (hash_version e);
}.

(** A digest has 32 bytes. The text of an entry is a JSON object in one line that reads
    back, and no proper prefix of it is an entry. The text of an entry ends in a closing
    bracket, white space aside. *)
Class AuditTextLaws {AT : AuditText} : Prop := {
  sha256_ok : forall m, bytes_ok (sha256 m) /\ length (sha256 m) = 32%nat;
  entry_text : forall e t, entry_ok e -> entry_to_vec e = Some t ->
    entry_from_slice t = Some e /\ string_ok t /\ Forall (fun b => 32 <= b) t /\ exists m, t = 123 :: m ++ [125];
  entry_torn : forall e t n, entry_ok e -> entry_to_vec e = Some t -> (n < length t)%nat ->
    entry_from_slice (take n t) = None;
  entry_end : forall l e, entry_from_slice l = Some e ->
    exists m b, l = m ++ [b] /\ (b = 125 \/ b = 93 \/ is_ascii_whitespace b = true);
}.

Section Chain.
Context {AT : AuditText} {AL : AuditTextLaws}.

(** The text of an entry that fits the windows of [read_last_hash]. *)
Definition stored_as (e : AuditEntry) (t : bytes) : Prop :=
  entry_ok e /\ entry_to_vec e = Some t /\ len t + 1 < MAX_SCAN.

Definition as_lines (texts : list bytes) : bytes := concat (map (fun t => t ++ [10]) texts).

(** The file of a log: whole lines, perhaps followed by the start of a line that was cut
    short, or by a line without its newline. *)
Inductive log_file (es : list AuditEntry) : bytes -> Prop :=
  | log_whole texts : Forall2 stored_as es texts -> log_file es (as_lines texts)
  | log_torn texts e t n : Forall2 stored_as es texts -> stored_as e t -> (0 < n < length t)%nat ->
      log_file es (as_lines texts ++ take n t)
  | log_open es' texts e t : Forall2 stored_as es' texts -> stored_as e t -> es = es' ++ [e] ->
      log_file es (as_lines texts ++ t).

Lemma as_lines_snoc texts t : as_lines (texts ++ [t]) = as_lines texts ++ t ++ [10].
Proof. unfold as_lines. rewrite map_app, concat_app. cbn. by rewrite app_nil_r. Qed.

Lemma stored_snoc es texts e t : Forall2 stored_as es texts -> stored_as e t -> Forall2 stored_as (es ++ [e]) (texts ++ [t]).
Proof. intros ? ?. apply Forall2_app; [done|]. by apply Forall2_cons. Qed.

Lemma as_lines_end texts : ends_line (as_lines texts).
Proof.
  destruct texts as [|t texts _] using rev_ind; [by left|]. right.
  by rewrite as_lines_snoc, app_assoc, last_snoc.
Qed.

Lemma stored_plain e t : stored_as e t -> plain_line t.
Proof.
  intros (He & Ht & _). destruct (entry_text e t He Ht) as (_ & _ & Hc & m & ->). split.
  - intros Hin. rewrite Forall_forall in Hc. specialize (Hc 10 Hin). lia.
  - by exists (123 :: m), 125.
Qed.

(** What is left of the start of a line when the white space at its end is taken off. *)
Lemma trim_prefix e t n :
  stored_as e t -> (0 < n < length t)%nat ->
  exists m ws, take n t = take m t ++ ws /\ (0 < m <= n)%nat /\ plain_line (take m t) /\ blank ws /\ last ws <> Some 10.
Proof.
  intros (He & Ht & _). destruct (entry_text e t He Ht) as (_ & _ & Hc & mid & Et).
  induction n as [|n IH]; [lia|]. intros Hn. assert (Hx : exists x, t !! n = Some x) by (apply lookup_lt_is_Some; lia).
  destruct Hx as [x Hx]. assert (Hx32 : 32 <= x) by (by eapply Forall_lookup_1 in Hc).
  assert (Hno : forall k, 10 ∉ take k t).
  { intros k Hin. assert (Ht10 : 10 ∈ t) by (rewrite <-(take_drop k t); set_solver).
    rewrite Forall_forall in Hc. specialize (Hc 10 Ht10). lia. }
  destruct (decide (x = 32)) as [->|Hne].
  - destruct (decide (n = 0)%nat) as [->|Hn0]; [by rewrite Et in Hx|].
    destruct IH as (m & ws & E & Hm & Hp & Hw & _); [lia|]. exists m, (ws ++ [32]). rewrite last_snoc.
    rewrite (take_S_r _ _ _ Hx), E, app_assoc. split_and!; [done|lia|lia|done|by apply Forall_app; split; [|repeat constructor]|done].
  - exists (S n), []. rewrite app_nil_r. split_and!; [done|lia..| |constructor|done]. split; [apply Hno|].
    exists (take n t), x. split; [by apply take_S_r|]. unfold is_ascii_whitespace.
    rewrite !orb_false_iff, !Z.eqb_neq. lia.
Qed.

(** *** The hash to chain to *)

(** The hash of the last entry. *)
Definition tip (before : bytes) (es : list AuditEntry) : bytes :=
  match last es with Some e => hash e | None => before end.

Lemma verify_snoc b i es e :
  verify_from (Some b) i (es ++ [e]) = None <->
  verify_from (Some b) i es = None /\ prev_hash e = tip b es /\ self_consistent e = true.
Proof.
  revert b i. induction es as [|x es IH]; intros b i; cbn [app verify_from].
  - unfold tip. cbn. case_bool_decide; cbn; [|naive_solver]. destruct (self_consistent e); naive_solver.
  - case_bool_decide; cbn [negb]; [|naive_solver]. destruct (self_consistent x); cbn [negb]; [|naive_solver].
    rewrite IH. unfold tip. rewrite last_cons. by destruct (last es).
Qed.

Lemma digest_nonempty m : hex_encode (sha256 m) <> [].
Proof. destruct (sha256_ok m) as [_ Hl]. unfold hex_encode. by destruct (sha256 m). Qed.

Lemma consistent_hash e : self_consistent e = true -> hash e <> [].
Proof.
  unfold self_consistent. destruct (hash_version e) as [|[]|]; try done;
    intros ->%bool_decide_eq_true; apply digest_nonempty.
Qed.

Lemma read_step io rounds front line ws :
  plain_line line -> blank ws -> ends_line front -> len (line ++ ws) < MAX_SCAN -> scan_ok io = true ->
  let file := front ++ line ++ ws in
  read_last_hash rounds io file =
  match entry_from_slice line with
  | None =>
      if negb (bool_decide (last ws = Some 10)) then
        if cut_ok io then
          match rounds with S rounds => read_last_hash rounds io front | O => (front, None) end
        else (file, None)
      else (file, None)
  | Some entry =>
      let h := match hash entry with [] => GENESIS_HASH | h => h end in
      if bool_decide (last ws = Some 10) then (file, Some h)
      else if newline_ok io then (file ++ [10], Some h) else (file, None)
  end.
Proof.
  intros Hl Hw Hf Hs Hio file. pose proof (last_line_of front line ws Hl Hw Hf Hs) as E. fold file in E.
  pose proof (plain_nonempty _ Hl). destruct line as [|x line]; [done|].
  assert (take (length front) file = front) as Et by apply take_app_length.
  destruct rounds; cbn [read_last_hash]; rewrite Hio, E, Et; cbn [negb]; by destruct (entry_from_slice _).
Qed.

Lemma read_empty rounds io : scan_ok io = true -> read_last_hash rounds io [] = ([], Some GENESIS_HASH).
Proof. intros H. destruct rounds; cbn [read_last_hash]; rewrite H; done. Qed.

Lemma read_whole rounds io es texts :
  Forall2 stored_as es texts -> verify_from (Some GENESIS_HASH) 0 es = None -> scan_ok io = true ->
  read_last_hash rounds io (as_lines texts) = (as_lines texts, Some (tip GENESIS_HASH es)).
Proof.
  intros H Hv Hio. destruct es as [|e es _] using rev_ind.
  { apply Forall2_nil_inv_l in H as ->. by apply read_empty. }
  apply Forall2_app_inv_l in H as (ts1 & ts2 & H1 & (t & ? & He & ->%Forall2_nil_inv_l & ->)%Forall2_cons_inv_l & ->).
  apply verify_snoc in Hv as (_ & _ & Hc%consistent_hash). rewrite as_lines_snoc.
  rewrite read_step; [|by eapply stored_plain|apply blank_newline|apply as_lines_end| |done].
  2:{ destruct He as (_ & _ & ?). rewrite length_app. cbn. lia. }
  destruct He as (He & Ht & _). destruct (entry_text e t He Ht) as [-> _].
  rewrite bool_decide_eq_true_2 by done. unfold tip. rewrite last_snoc. by destruct (hash e).
Qed.

(** Reading the hash keeps the log, and the hash is that of its last entry; it is read if
    nothing fails. *)
Lemma read_last_hash_ok io es file :
  log_file es file -> verify_from (Some GENESIS_HASH) 0 es = None ->
  let '(file', r) := read_last_hash 1 io file in
  match r with
  | Some h => h = tip GENESIS_HASH es /\ exists texts, Forall2 stored_as es texts /\ file' = as_lines texts
  | None => log_file es file' /\ ~ (scan_ok io = true /\ cut_ok io = true /\ newline_ok io = true)
  end.
Proof.
  intros H Hv. destruct (scan_ok io) eqn:Hio.
  2:{ cbn [read_last_hash]. rewrite Hio. cbn. split; [done|]. by intros [? _]. }
  destruct H as [texts H|texts e t n H He Hn|es' texts e t H He ->].
  - rewrite (read_whole 1 io es texts) by done. split; [done|]. by exists texts.
  - destruct (trim_prefix e t n He Hn) as (m & ws & E & Hm & Hp & Hw & Hl). rewrite E.
    rewrite read_step; [|done|done|apply as_lines_end| |done].
    2:{ rewrite <-E. destruct He as (_ & _ & ?). rewrite length_take. lia. }
    destruct He as (He & Ht & Hs). rewrite (entry_torn e t m He Ht) by lia.
    rewrite bool_decide_eq_false_2 by done. cbn [negb]. destruct (cut_ok io) eqn:Hc.
    + rewrite (read_whole 0 io es texts) by done. split; [done|]. by exists texts.
    + split; [|naive_solver]. rewrite <-E. by apply log_torn with e.
  - rewrite <-(app_nil_r t). rewrite read_step; [|by eapply stored_plain|constructor|apply as_lines_end| |done].
    2:{ rewrite app_nil_r. destruct He as (_ & _ & ?). lia. }
    apply verify_snoc in Hv as (_ & _ & Hc%consistent_hash).
    pose proof He as (Hok & Ht & _). destruct (entry_text e t Hok Ht) as [-> _].
    rewrite bool_decide_eq_false_2 by done. destruct (newline_ok io) eqn:Hnl.
    + split; [unfold tip; rewrite last_snoc; by destruct (hash e)|]. exists (texts ++ [t]).
      split; [by apply stored_snoc|]. by rewrite as_lines_snoc, app_nil_r, app_assoc.
    + split; [|naive_solver]. rewrite app_nil_r. by apply log_open with es' e.
Qed.
(** *** A call *)

Definition action_of (e : AuditEntry) : Action :=
  {| a_actor := actor e; a_action := action e; a_target := target e; a_result := result e |}.

Definition action_ok (a : Action) : Prop := string_ok (a_action a) /\ string_ok (a_target a) /\ string_ok (a_result a).

(** Nothing fails during the call. *)
Definition whole (io : LogIo) : Prop :=
  open_ok io = true /\ scan_ok io = true /\ cut_ok io = true /\ newline_ok io = true /\ written io = None.

(** The line that a call writes is one that [read_last_hash] will find again. *)
Definition fits (io : LogIo) (a : Action) (file : bytes) : Prop :=
  match read_last_hash 1 io file with
  | (_, Some before) =>
      match entry_to_vec (new_entry (at_time io) a before) with Some t => len t + 1 < MAX_SCAN | None => False end
  | (_, None) => True
  end.

Lemma hex_digit_ascii d : 0 <= d < 16 -> 0 <= hex_digit d < 128.
Proof. unfold hex_digit. destruct (Z.ltb_spec d 10); lia. Qed.

Lemma hex_encode_ok l : bytes_ok l -> string_ok (hex_encode l).
Proof.
  intros H. assert (Ha : Forall (fun b => 0 <= b < 128) (hex_encode l)).
  { induction H as [|x l Hx H IH]; [constructor|]. unfold byte_ok in Hx.
    assert (0 <= x / 16 < 16) by (split; [apply Z.div_pos|apply Z.div_lt_upper_bound]; lia).
    pose proof (Z.mod_pos_bound x 16 ltac:(lia)).
    apply Forall_cons; split; [by apply hex_digit_ascii|]. apply Forall_cons; split; [by apply hex_digit_ascii|done]. }
  split; [|by apply ascii_valid]. eapply Forall_impl; [done|]. unfold byte_ok. cbn. lia.
Qed.

Lemma tip_ok es texts : Forall2 stored_as es texts -> string_ok (tip GENESIS_HASH es).
Proof.
  intros H. unfold tip. destruct (last es) as [e|] eqn:E; [|by split; [apply bytes_ok_check|]; vm_compute].
  apply last_Some in E as [es' ->]. apply Forall2_app_inv_l in H as (? & ? & _ & (t & ? & [He _] & _)%Forall2_cons_inv_l & _).
  apply He.
Qed.

Lemma new_entry_ok time a before :
  string_ok time -> action_ok a -> string_ok before -> entry_ok (new_entry time a before).
Proof.
  intros Ht (Ha & Hb & Hc) Hd. split; try done. cbn. unfold compute_hash. apply hex_encode_ok, sha256_ok.
Qed.

Lemma new_entry_consistent time a before : self_consistent (new_entry time a before) = true.
Proof. cbn. by apply bool_decide_eq_true_2. Qed.

(** A call keeps the log or adds its entry, and adds it if nothing fails. *)
Lemma log_ok io a es file :
  log_file es file -> verify_from (Some GENESIS_HASH) 0 es = None ->
  string_ok (at_time io) -> action_ok a -> fits io a file ->
  (log_file es (log io a file) /\ ~ whole io) \/
  exists e, log_file (es ++ [e]) (log io a file) /\ action_of e = a /\
    verify_from (Some GENESIS_HASH) 0 (es ++ [e]) = None.
Proof.
  intros Hf Hv Ht Ha Hfit. pose proof (read_last_hash_ok io es file Hf Hv) as Hr. unfold log, fits in *.
  destruct (open_ok io) eqn:Ho; cbn [negb]; [|left; split; [done|]; intros [? _]; congruence].
  destruct (read_last_hash 1 io file) as [file' [before|]].
  2:{ destruct Hr as [Hr Hn]. left. split; [done|]. intros (_ & ? & ? & ? & _). by apply Hn. }
  destruct Hr as (-> & texts & Hs & ->). set (e := new_entry _ _ _) in *.
  destruct (entry_to_vec e) as [t|] eqn:E; [|done].
  assert (He : stored_as e t) by (split; [by apply new_entry_ok; [..|by eapply tip_ok]|done]).
  assert (Hv' : verify_from (Some GENESIS_HASH) 0 (es ++ [e]) = None)
    by (apply verify_snoc; split_and!; [done..|apply new_entry_consistent]).
  assert (Hw : log_file (es ++ [e]) (as_lines texts ++ t ++ [10]))
    by (rewrite <-as_lines_snoc; by apply log_whole, stored_snoc).
  destruct (written io) as [n|] eqn:Hwr; [|right; exists e; split_and!; [done| |done]; by destruct a].
  destruct (decide (n < length t)%nat).
  - left. split; [|intros (_ & _ & _ & _ & ?); congruence]. rewrite take_app_le by lia.
    destruct n as [|n]; [rewrite take_0, app_nil_r; by apply log_whole|]. apply log_torn with e; [done..|lia].
  - right. exists e. split_and!; [|by destruct a|done]. destruct (decide (n = length t)) as [->|].
    + rewrite take_app_length. by apply log_open with es e.
    + rewrite take_ge; [done|]. rewrite length_app. cbn. lia.
Qed.

(** *** Reading *)

(** The entries in a file. *)
Definition entries_in (file : bytes) : list AuditEntry := base.omap entry_from_slice (log_lines file).

(** The line of a piece of the file, if it is not blank. *)
Definition piece_line (l : bytes) : list bytes := filter not_blank [strip_cr (from_utf8_lossy l)].

Lemma log_lines_split s : log_lines s = concat (map piece_line (split 10 s)).
Proof.
  assert (H : forall l, filter not_blank (map strip_cr (map from_utf8_lossy l)) = concat (map piece_line l)).
  { induction l as [|x l IH]; [done|]. cbn [map concat]. rewrite <-IH. unfold piece_line.
    change (strip_cr (from_utf8_lossy x) :: ?l) with ([strip_cr (from_utf8_lossy x)] ++ l). by rewrite filter_app. }
  unfold log_lines, lines. rewrite <-H, split_lossy. set (l := map from_utf8_lossy _).
  destruct (rev l) as [|[|x y] front] eqn:E; [done| |done].
  rewrite <-(rev_involutive l), E. cbn [rev]. rewrite map_app, filter_app. cbn. by rewrite app_nil_r.
Qed.

Lemma split_as_lines es texts tail :
  Forall2 stored_as es texts -> 10 ∉ tail -> split 10 (as_lines texts ++ tail) = texts ++ [tail].
Proof.
  intros H Hn. induction H as [|e t es texts He H IH]; [by apply split_plain|].
  cbn [as_lines map concat]. rewrite <-!app_assoc. cbn [app]. rewrite split_app; [|by apply stored_plain in He as [? _]].
  cbn [app]. f_equal. exact IH.
Qed.

Lemma trim_brace m : trim (123 :: m) <> [].
Proof.
  unfold trim. replace (skip_spaces space_width (length (123 :: m)) (123 :: m)) with (123 :: m) by done.
  intros E. apply (f_equal (@rev Z)) in E. rewrite rev_involutive in E. cbn [rev] in E.
  assert (H : forall n l, skip_spaces space_width_rev n (l ++ [123]) <> []); [|by eapply H].
  clear. intros n. induction n as [|n IH]; intros l; cbn [skip_spaces]; [by destruct l|].
  destruct (space_width_rev (l ++ [123])) as [|k] eqn:E; [by destruct l|].
  destruct (decide (S k <= length l)%nat).
  - rewrite drop_app_le by lia. apply IH.
  - exfalso. destruct l as [|a [|b [|c l]]]; cbn in *; unfold space_width_rev in E; cbn in E;
      repeat case_match; try lia; unfold space1, space2, space3 in *; wire_lia.
Qed.

Lemma piece_text e t :
  stored_as e t -> strip_cr (from_utf8_lossy t) = t /\ strip_cr t = t /\ not_blank t /\ entry_from_slice t = Some e.
Proof.
  intros (He & Ht & _). destruct (entry_text e t He Ht) as (Hp & Hs & _ & m & E).
  rewrite string_ok_lossy by done. assert (Hc : strip_cr t = t).
  { rewrite E. unfold strip_cr. cbn [rev]. by rewrite rev_app_distr. }
  split_and!; [done|done| |done]. rewrite E. apply trim_brace.
Qed.

Lemma piece_torn e t n : stored_as e t -> (n < length t)%nat -> base.omap entry_from_slice (piece_line (take n t)) = [].
Proof.
  intros (He & Ht & _) Hn. destruct (entry_text e t He Ht) as (_ & [_ Hu] & Hc & _).
  assert (Hp : entry_from_slice (strip_cr (from_utf8_lossy (take n t))) = None).
  { destruct (lossy_prefix t n Hu) as [-> | [m ->]].
    - assert (E : strip_cr (take n t) = take n t); [|rewrite E; by apply (entry_torn e)].
      unfold strip_cr. destruct (rev (take n t)) as [|x l] eqn:E; [done|].
      assert (x <> 13); [|by repeat case_match; simplify_eq]. intros ->. apply (f_equal (@rev Z)) in E.
      rewrite rev_involutive in E. cbn in E. assert (13 ∈ t) as Hin by (rewrite <-(take_drop n t), E; set_solver).
      rewrite Forall_forall in Hc. specialize (Hc _ Hin). lia.
    - unfold strip_cr, replacement. rewrite rev_app_distr. cbn [rev app].
      destruct (entry_from_slice _) as [e'|] eqn:E; [|done]. apply entry_end in E as (l & b & El & Hb).
      change [239; 191; 189] with ([239; 191] ++ [189]) in El. rewrite app_assoc in El. apply app_inj_tail in El as [_ <-].
      by destruct Hb as [?|[?|?]]. }
  unfold piece_line. rewrite filter_cons. case_decide; [|done]. cbn. by rewrite Hp.
Qed.

Lemma concat_app_map {A B} (f : A -> list B) l l' : concat (map f (l ++ l')) = concat (map f l) ++ concat (map f l').
Proof. by rewrite map_app, concat_app. Qed.

Lemma entries_texts es texts :
  Forall2 stored_as es texts -> concat (map piece_line texts) = texts /\ base.omap entry_from_slice texts = es.
Proof.
  induction 1 as [|e t es texts He H [IH1 IH2]]; [done|]. destruct (piece_text e t He) as (E1 & E2 & Hb & Hp).
  cbn [map concat]. unfold piece_line at 1. rewrite E1, filter_cons, decide_True by done. split; [by rewrite IH1|].
  cbn. by rewrite Hp, IH2.
Qed.

(** The pieces of the file of a log. *)
Lemma log_pieces es file :
  log_file es file -> base.omap entry_from_slice (concat (map piece_line (split 10 file))) = es.
Proof.
  intros [texts H|texts e t n H He Hn|es' texts e t H He ->].
  - rewrite <-(app_nil_r (as_lines texts)), (split_as_lines es) by (done || set_solver).
    destruct (entries_texts es texts H) as [E1 E2]. rewrite concat_app_map, E1. cbn. by rewrite app_nil_r.
  - pose proof (stored_plain e t He) as [Hpl _].
    assert (10 ∉ take n t) by (intros Hin; apply Hpl; rewrite <-(take_drop n t); set_solver).
    rewrite (split_as_lines es) by done. destruct (entries_texts es texts H) as [E1 E2].
    rewrite concat_app_map, E1, omap_app, E2. cbn [map concat]. rewrite app_nil_r, (piece_torn e) by (done || lia).
    apply app_nil_r.
  - pose proof (stored_plain e t He) as [Hpl _]. rewrite (split_as_lines es') by done.
    destruct (entries_texts _ _ (stored_snoc _ _ _ _ H He)) as [E1 E2]. by rewrite E1.
Qed.

Lemma entries_log es file : log_file es file -> entries_in file = es.
Proof. intros H. unfold entries_in. rewrite log_lines_split. by apply log_pieces. Qed.

(** *** The tail *)

Lemma omap_suffix {A B} (f : A -> option B) l k : l `suffix_of` k -> base.omap f l `suffix_of` base.omap f k.
Proof. intros [m ->]. rewrite omap_app. by eexists. Qed.

Lemma tl_suffix {A} (l : list A) : tl l `suffix_of` l.
Proof. destruct l as [|x l]; [done|]. by exists [x]. Qed.

Lemma rev_take_rev {A} n (l : list A) : rev (take n (rev l)) `suffix_of` l.
Proof. exists (rev (drop n (rev l))). by rewrite <-rev_app_distr, take_drop, rev_involutive. Qed.

(** The lines that [audit_tail] looks at are the last ones of the file. *)
Lemma window_lines file k :
  (if (0 <? k)%nat then tl (log_lines (drop k file)) else log_lines (drop k file)) `suffix_of` log_lines file.
Proof.
  destruct (Nat.ltb_spec 0 k); [|replace k with 0%nat by lia; by rewrite drop_0].
  rewrite !log_lines_split. destruct (split_drop 10 k file) as (pre & p & post & j & -> & ->).
  cbn [map concat]. rewrite concat_app_map. cbn [map concat]. apply suffix_app_r.
  trans (concat (map piece_line post)); [|by apply suffix_app_r].
  unfold piece_line at 1. rewrite filter_cons. case_decide; [done|apply tl_suffix].
Qed.

Lemma audit_tail_ok limit file es :
  log_file es file ->
  exists l, audit_tail limit (Some file) = Some l /\ l `suffix_of` es /\
    (len file <= 64 * 1024 -> len (log_lines file) <= limit -> l = es).
Proof.
  intros H. eexists. split; [reflexivity|]. set (start := sat_sub _ _).
  assert (Hw := window_lines file (Z.to_nat start)).
  replace (0 <? Z.to_nat start)%nat with (0 <? start) in Hw.
  2:{ destruct (Z.ltb_spec 0 start), (Nat.ltb_spec 0 (Z.to_nat start)); lia. }
  split.
  - rewrite <-(log_pieces es file H), <-log_lines_split. apply omap_suffix. etrans; [apply rev_take_rev|done].
  - intros Hl Hn. assert (start = 0) as -> by (unfold start, sat_sub; lia). cbn [Z.ltb Z.compare Z.to_nat].
    rewrite drop_0, take_ge, rev_involutive by (rewrite length_rev; lia). by apply entries_log.
Qed.

Lemma verify_index b i j es : verify_from b i es = None <-> verify_from b j es = None.
Proof.
  revert b i j. induction es as [|e es IH]; intros b i j; [done|]. cbn [verify_from].
  destruct (match b with Some _ => _ | None => _ end); [done|]. destruct (negb _); [done|]. apply IH.
Qed.

Lemma verify_suffix b i es l : verify_from b i es = None -> l `suffix_of` es -> verify_chain l = None.
Proof.
  intros H [k ->]. revert b i H. induction k as [|x k IH]; intros b i; cbn [app].
  - destruct l as [|e l]; [done|]. unfold verify_chain. cbn [verify_from].
    destruct (match b with Some _ => _ | None => _ end); [done|]. destruct (negb _); [done|]. apply verify_index.
  - cbn [verify_from]. destruct (match b with Some _ => _ | None => _ end); [done|]. destruct (negb _); [done|]. apply IH.
Qed.

(** *** Runs *)

#[local] Instance whole_dec io : Decision (whole io).
Proof. unfold whole. apply _. Defined.

Definition Call : Type := LogIo * Action.

Definition run_log (file : bytes) (calls : list Call) : bytes := fold_left (fun f c => log c.1 c.2 f) calls file.

Definition call_ok (c : Call) : Prop := string_ok (at_time c.1) /\ action_ok c.2.

(** Every line of the run can be found again. *)
Fixpoint all_fit (file : bytes) (calls : list Call) : Prop :=
  match calls with
  | [] => True
  | c :: calls => fits c.1 c.2 file /\ all_fit (log c.1 c.2 file) calls
  end.

Lemma run_log_ok calls file es :
  log_file es file -> verify_from (Some GENESIS_HASH) 0 es = None -> Forall call_ok calls -> all_fit file calls ->
  exists new, log_file (es ++ new) (run_log file calls) /\ verify_from (Some GENESIS_HASH) 0 (es ++ new) = None /\
    map action_of new `sublist_of` map snd calls /\
    map snd (filter (fun c => whole c.1) calls) `sublist_of` map action_of new.
Proof.
  intros Hf Hv Hc. revert file es Hf Hv. induction Hc as [|[io a] calls [Ht Ha] Hc IH]; intros file es Hf Hv; cbn [all_fit].
  { intros _. exists []. by rewrite app_nil_r. }
  intros [Hfit Hall]. cbn [run_log fold_left map fst snd] in *. rewrite filter_cons.
  destruct (log_ok io a es file Hf Hv Ht Ha Hfit) as [[Hf' Hw] | (e & Hf' & Ea & Hv')].
  - destruct (IH _ _ Hf' Hv Hall) as (new & H1 & H2 & H3 & H4). exists new. rewrite decide_False by done.
    split_and!; [done|done|by apply sublist_cons|done].
  - destruct (IH _ _ Hf' Hv' Hall) as (new & H1 & H2 & H3 & H4). exists (e :: new).
    rewrite cons_middle, app_assoc. split_and!; [done|done|cbn; rewrite Ea; by apply sublist_skip|].
    case_decide; cbn; rewrite Ea; [by apply sublist_skip|by apply sublist_cons].
Qed.

Lemma run_from_empty calls :
  Forall call_ok calls -> all_fit [] calls ->
  exists es, log_file es (run_log [] calls) /\ verify_from (Some GENESIS_HASH) 0 es = None /\
    map action_of es `sublist_of` map snd calls /\
    map snd (filter (fun c => whole c.1) calls) `sublist_of` map action_of es.
Proof.
  intros Hc Ha. destruct (run_log_ok calls [] [] (log_whole [] [] (List.Forall2_nil _)) eq_refl Hc Ha) as (es & ?). by exists es.
Qed.

(** C16: The log stays a chain. Any number of loggers append to an empty file, each call
    failing anywhere, and any write cut short at any byte. Then the entries in the file are
    chained from the first one on, they are calls in their order, and every call in which
    nothing failed is among them. *)
Theorem audit_chain_kept calls :
  Forall call_ok calls -> all_fit [] calls ->
  let es := entries_in (run_log [] calls) in
  verify_from (Some GENESIS_HASH) 0 es = None /\
  map action_of es `sublist_of` map snd calls /\
  map snd (filter (fun c => whole c.1) calls) `sublist_of` map action_of es.
Proof.
  intros Hc Ha. destruct (run_from_empty calls Hc Ha) as (es & Hf & H). cbv zeta. by rewrite (entries_log es).
Qed.

(** A reader of the tail is never told of a break that is not there. At any moment of
    such a run, also between a crash and the next call, [audit_verify] gives the last
    entries of the log and says that they are chained; it gives all of them when they fit
    its window. *)
Theorem audit_tail_verifies calls limit :
  Forall call_ok calls -> all_fit [] calls ->
  let file := run_log [] calls in
  exists v, audit_verify limit (Some file) = Some v /\ av_verified v = true /\ av_broken_at v = None /\
    av_entries v `suffix_of` entries_in file /\
    (len file <= 64 * 1024 -> len (log_lines file) <= limit -> av_entries v = entries_in file).
Proof.
  intros Hc Ha file. destruct (run_from_empty calls Hc Ha) as (es & Hf & Hv & _). fold file in Hf.
  destruct (audit_tail_ok limit file es Hf) as (l & El & Hs & Hall). rewrite (entries_log es file Hf).
  unfold audit_verify. rewrite El. cbn [mbind option_bind]. eexists. split; [reflexivity|]. cbn.
  rewrite (verify_suffix _ _ _ _ Hv Hs). by rewrite bool_decide_eq_true_2.
Qed.
End Chain.

(** ** Tampering *)

Section Tampering.
Context {AT : AuditText} {AL : AuditTextLaws}.

Lemma hex_digit_inj a b : 0 <= a < 16 -> 0 <= b < 16 -> hex_digit a = hex_digit b -> a = b.
Proof. unfold hex_digit. destruct (Z.ltb_spec a 10), (Z.ltb_spec b 10); lia. Qed.

Lemma hex_encode_inj l l' : bytes_ok l -> bytes_ok l' -> hex_encode l = hex_encode l' -> l = l'.
Proof.
  intros Hl. revert l'. induction Hl as [|x l Hx Hl IH]; intros [|y l'] Hl' E; [done..|].
  apply Forall_cons in Hl' as [Hy Hl']. cbn in E. injection E as E1 E2 E3. unfold byte_ok in *.
  assert (forall z, 0 <= z < 256 -> 0 <= z / 16 < 16)
    by (intros z Hz; split; [apply Z.div_pos|apply Z.div_lt_upper_bound]; lia).
  apply hex_digit_inj in E1; [|auto..]. apply hex_digit_inj in E2; [|apply Z.mod_pos_bound; lia..].
  f_equal; [|by apply IH]. rewrite (Z.div_mod x 16), (Z.div_mod y 16) by lia. by rewrite E1, E2.
Qed.

Lemma field_inj x y l l' : u64_ok (len x) -> u64_ok (len y) -> field x ++ l = field y ++ l' -> x = y /\ l = l'.
Proof.
  intros Hx Hy E. unfold field in E. rewrite <-!app_assoc in E.
  apply app_inj_1 in E as [E1 E2]; [|by rewrite !length_be_bytes].
  assert (El : length x = length y).
  { apply (f_equal from_be) in E1. rewrite !from_be_be_bytes in E1. unfold wrap64, u64_ok in *.
    change (256 ^ Z.of_nat 8) with 18446744073709551616 in E1. rewrite !Z.mod_mod, !Z.mod_small in E1 by lia. lia. }
  by apply app_inj_1 in E2.
Qed.

(** The fields of an entry are Rust strings, so their lengths fit. *)
Definition sized (e : AuditEntry) : Prop :=
  u64_ok (len (ts e)) /\ u64_ok (len (action e)) /\ u64_ok (len (target e)) /\ u64_ok (len (result e)) /\
  u64_ok (len (prev_hash e)).

(** Different entries are hashed differently. *)
Lemma hash_input_inj e e' :
  sized e -> sized e' -> hash_input e = hash_input e' ->
  ts e = ts e' /\ actor e = actor e' /\ action e = action e' /\ target e = target e' /\ result e = result e' /\
  prev_hash e = prev_hash e'.
Proof.
  intros (H1 & H2 & H3 & H4 & H5) (H1' & H2' & H3' & H4' & H5') E. unfold hash_input in E. apply app_inv_head in E. cbn [map concat] in E.
  assert (Ha : forall a, u64_ok (len (AuditActor.as_str a))) by (intros []; by vm_compute).
  apply field_inj in E as [? E]; [|done..]. apply field_inj in E as [Ea E]; [|done..]. apply field_inj in E as [? E]; [|done..].
  apply field_inj in E as [? E]; [|done..]. apply field_inj in E as [? E]; [|done..]. apply field_inj in E as [? E]; [|done..].
  split_and!; try done. by destruct (actor e), (actor e').
Qed.

(** No two of the entries collide under SHA-256. *)
Definition no_collision (l l' : list AuditEntry) : Prop :=
  forall x y, x ∈ l -> y ∈ l' -> sha256 (hash_input x) = sha256 (hash_input y) -> hash_input x = hash_input y.

Lemma consistent_inj e e' :
  self_consistent e = true -> self_consistent e' = true -> hash_version e = 1 -> hash_version e' = 1 ->
  sized e -> sized e' -> (sha256 (hash_input e) = sha256 (hash_input e') -> hash_input e = hash_input e') ->
  hash e = hash e' -> e = e'.
Proof.
  intros Hc Hc' Hv Hv' Hs Hs' Hn Eh. unfold self_consistent in *. rewrite Hv in Hc. rewrite Hv' in Hc'.
  apply bool_decide_eq_true in Hc, Hc'. assert (Es : sha256 (hash_input e) = sha256 (hash_input e')).
  { apply hex_encode_inj; [apply sha256_ok..|]. change (compute_hash e = compute_hash e'). congruence. }
  destruct (hash_input_inj e e' Hs Hs' (Hn Es)) as (? & ? & ? & ? & ? & ?).
  destruct e, e'. cbn in *. congruence.
Qed.

Lemma verify_chain_snoc es e :
  verify_chain (es ++ [e]) = None ->
  verify_chain es = None /\ self_consistent e = true /\ forall x, last es = Some x -> prev_hash e = hash x.
Proof.
  destruct es as [|x es]; unfold verify_chain; cbn [app verify_from].
  { destruct (self_consistent e); [|done]. intros _. by split_and!. }
  destruct (self_consistent x); cbn [negb]; [|done]. intros (? & ? & ?)%verify_snoc. split_and!; [done..|].
  intros y Hy. unfold tip in *. rewrite last_cons in Hy. by destruct (last es); injection Hy as <-.
Qed.

Definition checkable (l : list AuditEntry) : Prop :=
  verify_chain l = None /\ Forall (fun e => hash_version e = 1 /\ sized e) l.

End Tampering.

(** ** A sample: four calls, the second cut short and the last without its newline *)

Section Sample.

(** A text names the place of its entry in a table. *)
Definition toy_line (n : nat) : bytes := 123 :: replicate (S n) 65 ++ [125].

Definition toy_parse (table : list AuditEntry) (l : bytes) : option AuditEntry :=
  let n := (length l - 3)%nat in if bool_decide (l = toy_line n) then table !! n else None.

#[local] Instance actor_eq : EqDecision AuditActor.t.
Proof. solve_decision. Defined.
#[local] Instance entry_eq : EqDecision AuditEntry.
Proof. solve_decision. Defined.

#[local] Instance table_audit (table : list AuditEntry) : AuditText := {|
  sha256 := fun m => le_bytes 8 (fnv1a_hash m) ++ zeros 24;
  entry_to_vec := fun e => (fun p => toy_line p.1) <$> list_find (fun x => x = e) table;
  entry_from_slice := toy_parse table;
|}.

Lemma table_audit_laws table : @AuditTextLaws (table_audit table).
Proof.
  assert (Hlen : forall n, length (toy_line n) = (n + 3)%nat)
    by (intros n; unfold toy_line; cbn; rewrite length_app, length_replicate; cbn; lia).
  assert (Hfront : forall n, toy_line n = (123 :: replicate (S n) 65) ++ [125]) by done.
  split.
  - intros m. cbn [sha256 table_audit]. split; [apply Forall_app; split; [apply bytes_ok_le_bytes|apply bytes_ok_zeros]|].
    by rewrite length_app, length_le_bytes, length_zeros.
  - intros e t _ ([n x] & (Hn & -> & _)%list_find_Some & ->)%fmap_Some. cbn [entry_from_slice table_audit fst]. unfold toy_parse.
    rewrite Hlen. replace (n + 3 - 3)%nat with n by lia. rewrite bool_decide_eq_true_2 by done. split; [done|].
    assert (Ha : Forall (fun b => 32 <= b < 128) (toy_line n)).
    { rewrite Hfront. apply Forall_app. split; [|by apply Forall_singleton]. apply Forall_cons. split; [done|]. by apply Forall_replicate. }
    split_and!; [split; [|apply ascii_valid]; (eapply Forall_impl; [done|]; unfold byte_ok; cbn; lia)
      |eapply Forall_impl; [done|]; cbn; lia|by eexists].
  - intros e t n _ ([i x] & _ & ->)%fmap_Some Hn. cbn [entry_from_slice table_audit fst] in *. unfold toy_parse.
    rewrite bool_decide_eq_false_2; [done|]. rewrite Hlen in Hn. rewrite !Hfront. intros E.
    rewrite take_app_le in E by (cbn; rewrite length_replicate; lia).
    assert (Hin : 125 ∈ take n (123 :: replicate (S i) 65)) by (rewrite E; set_solver).
    assert (125 ∈ 123 :: replicate (S i) 65) as [?|[? _]%elem_of_replicate]%elem_of_cons; [|done..].
    rewrite <-(take_drop n (123 :: replicate (S i) 65)). set_solver.
  - intros l e. cbn. unfold toy_parse. case_bool_decide as E; [|done]. intros _. rewrite E, Hfront. eexists _, _. by split; [|left].
Qed.

Definition named (a : AuditActor.t) (what who : string) : Action :=
  {| a_actor := a; a_action := str_bytes what; a_target := str_bytes who; a_result := str_bytes "ok" |}.

Definition good (n : option nat) : LogIo :=
  {| at_time := str_bytes "2026-01-01"; open_ok := true; scan_ok := true; cut_ok := true; newline_ok := true; written := n |}.

Definition sample_calls : list Call :=
  [(good None, named AuditActor.Api "ClientAdd" "alice"); (good (Some 2%nat), named AuditActor.Api "ClientAdd" "bob");
   (good None, named AuditActor.Cli "ClientRemove" "alice"); (good (Some 6%nat), named AuditActor.System "ClientAdd" "carol")].

(** The entries that the sample may write. *)
Definition sample_entry (n : nat) (before : bytes) : AuditEntry :=
  @new_entry (table_audit []) (str_bytes "2026-01-01") (default (named AuditActor.Api "" "") (snd <$> sample_calls !! n)) before.
Definition entry0 : AuditEntry := sample_entry 0 GENESIS_HASH.
Definition entry2 : AuditEntry := sample_entry 2 (hash entry0).
Definition sample_table : list AuditEntry :=
  [entry0; sample_entry 1 (hash entry0); entry2; sample_entry 3 (hash entry2)].

#[local] Instance sample_audit : AuditText := table_audit sample_table.
#[local] Instance sample_audit_laws : AuditTextLaws := table_audit_laws sample_table.

Lemma sample_calls_ok : Forall call_ok sample_calls /\ all_fit [] sample_calls.
Proof.
  assert (H : forallb (fun c : Call => forallb (fun s => bytes_okb s && utf8_valid s)
    [at_time c.1; a_action c.2; a_target c.2; a_result c.2]) sample_calls = true) by by vm_compute.
  split; [|vm_compute; by repeat split].
  apply Forall_forall. intros c Hc. rewrite forallb_forall in H. specialize (H c (proj1 (list_elem_of_In _ _) Hc)).
  cbn in H. rewrite !andb_true_iff in H. unfold call_ok, action_ok, string_ok.
  destruct H as ([? ?] & [? ?] & [? ?] & [? ?] & _). split_and!; try done; by apply bytes_ok_check.
Qed.

Lemma audit_chain_kept_witness :
  entries_in (run_log [] sample_calls) = [entry0; entry2; sample_entry 3 (hash entry2)] /\
  verify_from (Some GENESIS_HASH) 0 (entries_in (run_log [] sample_calls)) = None.
Proof.
  split; [by vm_compute|]. exact (proj1 (audit_chain_kept sample_calls (proj1 sample_calls_ok) (proj2 sample_calls_ok))).
Defined.

(** Right after the crash of the second call. *)
Lemma audit_tail_verifies_witness :
  exists v, audit_verify 200 (Some (run_log [] (take 2 sample_calls))) = Some v /\ av_verified v = true /\ av_entries v = [entry0].
Proof.
  assert (Hc : Forall call_ok (take 2 sample_calls)) by exact (Forall_take _ 2 _ (proj1 sample_calls_ok)).
  assert (Ha : all_fit [] (take 2 sample_calls)) by (vm_compute; by repeat split).
  destruct (audit_tail_verifies (take 2 sample_calls) 200 Hc Ha) as (v & E & Hv & _ & _ & Hall).
  exists v. split; [exact E|]. split; [exact Hv|]. rewrite Hall; by vm_compute.
Defined.

Definition collision_free (l l' : list AuditEntry) : bool :=
  forallb (fun x => forallb (fun y =>
    negb (bool_decide (sha256 (hash_input x) = sha256 (hash_input y))) || bool_decide (hash_input x = hash_input y)) l') l.

Lemma collision_free_check l l' : collision_free l l' = true -> no_collision l l'.
Proof.
  unfold collision_free. rewrite forallb_forall. intros H x y Hx%list_elem_of_In Hy%list_elem_of_In E.
  specialize (H x Hx). rewrite forallb_forall in H. specialize (H y Hy).
  rewrite bool_decide_eq_true_2 in H by done. by apply bool_decide_eq_true in H.
Qed.

Lemma sized_check e :
  forallb (fun x => len x <=? u64_max) [ts e; action e; target e; result e; prev_hash e] = true -> sized e.
Proof. cbn. rewrite !andb_true_iff, !Z.leb_le. unfold sized, u64_ok, u64_max. lia. Qed.

End Sample.
