(* ===== verification/PoolView.v ===== *)
(** * What an administrator sees of the pool

    [mgmt_service/pool_view.rs]: three views of the pool, the addresses that this node
    dials, the keys that its registry binds and the state of its connections, put together
    into one list of nodes. The theorem: the list has every name that any of the views has,
    once and in order, with exactly what the views say of it. *)

From S2P Require Import Prelude Collections Text Crypto.
From Stdlib Require Import Sorted.
Local Open Scope Z_scope.

Record PoolNodeInfo : Type := {
  node_id : bytes;
  address : option bytes;
  verified : bool;
  revoked : bool;
  connected : bool;
  last_seen_unix : option Z;
}.

Record PoolLinkInfo : Type := {
  pl_peer : bytes;
  pl_connected : bool;
  pl_converged : bool;
  pl_last_converged_unix : option Z;
  pl_partition_conflict : bool;
  pl_subnet_mismatch : bool;
}.

Record PoolHealth : Type := {
  transport : bytes;
  total_nodes : Z;
  connected_peers : Z;
  converged_peers : Z;
  diverged : bool;
  partition_conflict : bool;
  subnet_mismatch : bool;
}.

Record PoolSnapshot : Type := { nodes : list PoolNodeInfo; links : list PoolLinkInfo; health : PoolHealth }.

(** [pool_dialer::PeerSyncStatus] *)
Record PeerSyncStatus : Type := {
  ps_connected : bool;
  ps_last_converged_unix : option Z;
  ps_converged : bool;
  ps_last_seen_unix : option Z;
  ps_partition_conflict : bool;
  ps_subnet_mismatch : bool;
}.

Record PoolSnapshotInputs : Type := {
  in_peers : list bytes;
  in_registry_nodes : list (bytes * bytes);
  in_revoked : list bytes;
  in_statuses : list (bytes * PeerSyncStatus);
  in_transport : bytes;
}.

Definition displayed_transport (t : bytes) : bytes :=
  if bool_decide (t = str_bytes "legacy") || bool_decide (t = []) then str_bytes "masked" else t.

Definition empty_health (t : bytes) : PoolHealth :=
  {| transport := displayed_transport t; total_nodes := 0; connected_peers := 0; converged_peers := 0;
     diverged := false; partition_conflict := false; subnet_mismatch := false |}.

Definition empty_snapshot (t : bytes) : PoolSnapshot := {| nodes := []; links := []; health := empty_health t |}.

Definition blank_node (gone : list bytes) (key : bytes) : PoolNodeInfo :=
  {| node_id := key; address := None; verified := false; revoked := bool_decide (key ∈ gone);
     connected := false; last_seen_unix := None |}.

Definition set_verified (n : PoolNodeInfo) : PoolNodeInfo :=
  {| node_id := node_id n; address := address n; verified := true; revoked := revoked n;
     connected := connected n; last_seen_unix := last_seen_unix n |}.

Definition set_address (a : bytes) (n : PoolNodeInfo) : PoolNodeInfo :=
  {| node_id := node_id n; address := Some a; verified := verified n; revoked := revoked n;
     connected := connected n; last_seen_unix := last_seen_unix n |}.

Definition set_status (s : PeerSyncStatus) (n : PoolNodeInfo) : PoolNodeInfo :=
  {| node_id := node_id n; address := address n; verified := verified n; revoked := revoked n;
     connected := ps_connected s; last_seen_unix := ps_last_seen_unix s |}.

Definition link_of (p : bytes * PeerSyncStatus) : PoolLinkInfo :=
  {| pl_peer := p.1; pl_connected := ps_connected p.2; pl_converged := ps_converged p.2;
     pl_last_converged_unix := ps_last_converged_unix p.2; pl_partition_conflict := ps_partition_conflict p.2;
     pl_subnet_mismatch := ps_subnet_mismatch p.2 |}.

Abbreviation Nodes := (gmap bytes PoolNodeInfo).

(** The four passes over the inputs. *)
Definition add_registry (gone : list bytes) (l : list (bytes * bytes)) (m : Nodes) : Nodes :=
  fold_left (fun m p => <[p.1 := set_verified (blank_node gone p.1)]> m) l m.

Definition add_revoked (gone : list bytes) (l : list bytes) (m : Nodes) : Nodes :=
  fold_left (fun m i => <[i := default (blank_node gone i) (m !! i)]> m) l m.

Definition add_peers (gone : list bytes) (l : list bytes) (m : Nodes) : Nodes :=
  fold_left (fun m a => <[a := set_address a (default (blank_node gone a) (m !! a))]> m) l m.

Definition add_statuses (gone : list bytes) (l : list (bytes * PeerSyncStatus)) (m : Nodes) : Nodes :=
  fold_left (fun m p => <[p.1 := set_status p.2 (default (set_address p.1 (blank_node gone p.1)) (m !! p.1))]> m) l m.

(** The keys of a [BTreeMap] come in order. *)
Definition before_key (a b : bytes * PoolNodeInfo) : bool := bytes_lt a.1 b.1.

Definition build_pool_snapshot (i : PoolSnapshotInputs) : PoolSnapshot :=
  let gone := in_revoked i in
  let m := add_statuses gone (in_statuses i) (add_peers gone (in_peers i)
             (add_revoked gone gone (add_registry gone (in_registry_nodes i) ∅))) in
  let statuses := map snd (in_statuses i) in
  {| nodes := map snd (sort_by before_key (map_to_list m));
     links := sort_by (fun a b => bytes_lt (pl_peer a) (pl_peer b)) (map link_of (in_statuses i));
     health := {| transport := displayed_transport (in_transport i);
                  total_nodes := Z.of_nat (size m);
                  connected_peers := len (filter (fun s => ps_connected s = true) statuses);
                  converged_peers := len (filter (fun s => ps_converged s = true) statuses);
                  diverged := existsb (fun s => ps_connected s && negb (ps_converged s)) statuses;
                  partition_conflict := existsb ps_partition_conflict statuses;
                  subnet_mismatch := existsb ps_subnet_mismatch statuses |} |}.

(** ** The nodes *)

(** What the inputs say of a name: the last status counts, and the address is known when
    the name is dialled or is that of a connection only. *)
Definition last_status (i : PoolSnapshotInputs) (x : bytes) : option PeerSyncStatus :=
  snd <$> last (filter (fun p => p.1 = x) (in_statuses i)).

Definition node_says (i : PoolSnapshotInputs) (n : PoolNodeInfo) : Prop :=
  let x := node_id n in
  (verified n = true <-> x ∈ map fst (in_registry_nodes i)) /\
  (revoked n = true <-> x ∈ in_revoked i) /\
  (address n = if bool_decide (x ∈ in_peers i \/ x ∉ map fst (in_registry_nodes i) ++ in_revoked i) then Some x else None) /\
  connected n = default false (ps_connected <$> last_status i x) /\
  last_seen_unix n = (last_status i x ≫= ps_last_seen_unix).

Section Passes.
Context (gone : list bytes).

Lemma registry_lookup l m x :
  add_registry gone l m !! x = if bool_decide (x ∈ map fst l) then Some (set_verified (blank_node gone x)) else m !! x.
Proof.
  revert m. induction l as [|p l IH]; intros m; [done|]. cbn [add_registry fold_left map]. unfold add_registry in IH. rewrite IH.
  destruct (decide (x = p.1)) as [->|Hne].
  - rewrite lookup_insert_eq, (bool_decide_eq_true_2 (p.1 ∈ p.1 :: _)) by set_solver. by destruct (bool_decide _).
  - rewrite lookup_insert_ne by done. erewrite bool_decide_ext; [done|]. set_solver.
Qed.

Lemma revoked_lookup l m x :
  add_revoked gone l m !! x = if bool_decide (x ∈ l) then Some (default (blank_node gone x) (m !! x)) else m !! x.
Proof.
  revert m. induction l as [|y l IH]; intros m; [done|]. cbn [add_revoked fold_left]. unfold add_revoked in IH. rewrite IH.
  destruct (decide (x = y)) as [->|Hne].
  - rewrite lookup_insert_eq, (bool_decide_eq_true_2 (y ∈ y :: _)) by set_solver. by destruct (bool_decide _).
  - rewrite lookup_insert_ne by done. erewrite (bool_decide_ext (x ∈ y :: l)); [done|]. set_solver.
Qed.

Lemma peers_lookup l m x :
  add_peers gone l m !! x =
  if bool_decide (x ∈ l) then Some (set_address x (default (blank_node gone x) (m !! x))) else m !! x.
Proof.
  revert m. induction l as [|y l IH]; intros m; [done|]. cbn [add_peers fold_left]. unfold add_peers in IH. rewrite IH.
  destruct (decide (x = y)) as [->|Hne].
  - rewrite lookup_insert_eq, (bool_decide_eq_true_2 (y ∈ y :: _)) by set_solver. by destruct (bool_decide _).
  - rewrite lookup_insert_ne by done. erewrite (bool_decide_ext (x ∈ y :: l)); [done|]. set_solver.
Qed.

Lemma statuses_lookup l m x :
  add_statuses gone l m !! x =
  match snd <$> last (filter (fun p => p.1 = x) l) with
  | Some s => Some (set_status s (default (set_address x (blank_node gone x)) (m !! x)))
  | None => m !! x
  end.
Proof.
  revert m. induction l as [|[y s] l IH]; intros m; [done|]. cbn [add_statuses fold_left]. unfold add_statuses in IH. rewrite IH.
  rewrite filter_cons. cbn [fst snd]. destruct (decide (y = x)) as [->|Hne].
  - rewrite lookup_insert_eq. rewrite last_cons. by destruct (last _).
  - by rewrite lookup_insert_ne.
Qed.
End Passes.

(** Distinct keys, sorted, are in order. *)
Lemma sorted_keys (l : list (bytes * PoolNodeInfo)) :
  NoDup (map fst l) -> StronglySorted (fun a b => bytes_lt a b = true) (map fst (sort_by before_key l)).
Proof.
  intros Hn. assert (Hs : StronglySorted (fun a b => before_key b a = false) (sort_by before_key l)).
  { apply Sorted_StronglySorted; [|apply sort_by_sorted; intros a b; apply bytes_lt_asym].
    intros a b c Hab Hbc. unfold before_key in *. apply not_true_iff_false. intros Hca.
    destruct (bytes_lt a.1 b.1) eqn:E; [by rewrite (bytes_lt_trans _ _ _ Hca E) in Hbc|].
    rewrite (bytes_lt_total _ _ Hab E) in Hbc. congruence. }
  assert (Hn' : NoDup (map fst (sort_by before_key l))) by by rewrite sort_by_perm.
  induction Hs as [|a l' Hs IH Ha]; [constructor|]. cbn in *. apply NoDup_cons in Hn' as [Hna Hn'].
  constructor; [by apply IH|]. apply Forall_forall. intros x (b & -> & Hb)%list_elem_of_fmap.
  rewrite Forall_forall in Ha. specialize (Ha b Hb). unfold before_key in Ha. rewrite bytes_lt_neq; [by rewrite Ha|].
  intros E. apply Hna. rewrite E. by apply list_elem_of_fmap_2.
Qed.

Section Exact.
Context (i : PoolSnapshotInputs).

Definition all_nodes : Nodes :=
  let gone := in_revoked i in
  add_statuses gone (in_statuses i) (add_peers gone (in_peers i)
    (add_revoked gone gone (add_registry gone (in_registry_nodes i) ∅))).

Definition named_somewhere (x : bytes) : Prop :=
  x ∈ map fst (in_registry_nodes i) \/ x ∈ in_revoked i \/ x ∈ in_peers i \/ x ∈ map fst (in_statuses i).

Lemma last_status_None x : last_status i x = None <-> x ∉ map fst (in_statuses i).
Proof.
  unfold last_status. rewrite fmap_None, last_None. rewrite list_elem_of_fmap. split.
  - intros E (p & -> & Hp). assert (H : p ∈ filter (fun q => q.1 = p.1) (in_statuses i)) by by apply list_elem_of_filter.
    rewrite E in H. by apply not_elem_of_nil in H.
  - intros H. destruct (filter _ _) as [|p l] eqn:E; [done|]. exfalso. apply H. exists p.
    assert (Hp : p ∈ p :: l) by set_solver. rewrite <-E in Hp. by apply list_elem_of_filter in Hp as [-> ?].
Qed.

Lemma last_status_Some x : is_Some (last_status i x) <-> x ∈ map fst (in_statuses i).
Proof.
  rewrite <-not_eq_None_Some, last_status_None. destruct (decide (x ∈ map fst (in_statuses i))); tauto.
Qed.

Lemma all_nodes_named x : is_Some (all_nodes !! x) <-> named_somewhere x.
Proof.
  unfold all_nodes, named_somewhere. rewrite statuses_lookup, peers_lookup, revoked_lookup, registry_lookup, lookup_empty.
  fold (last_status i x). rewrite <-last_status_Some. unfold is_Some.
  destruct (last_status i x); repeat case_bool_decide; naive_solver.
Qed.

Lemma all_nodes_says x n : all_nodes !! x = Some n -> node_id n = x /\ node_says i n.
Proof.
  unfold all_nodes, node_says. rewrite statuses_lookup, peers_lookup, revoked_lookup, registry_lookup, lookup_empty.
  fold (last_status i x).
  destruct (bool_decide_reflect (x ∈ in_peers i)) as [Hp|Hp], (bool_decide_reflect (x ∈ in_revoked i)) as [Hr|Hr],
    (bool_decide_reflect (x ∈ map fst (in_registry_nodes i))) as [Hv|Hv], (last_status i x) as [s|] eqn:E;
    intros [= <-]; cbn [node_id address verified revoked connected last_seen_unix set_status set_address set_verified blank_node default from_option fmap option_fmap option_map mbind option_bind];
    rewrite E; cbn [node_id address verified revoked connected last_seen_unix set_status set_address set_verified blank_node default from_option fmap option_fmap option_map mbind option_bind];
    (split; [done|split; [done|split; [apply bool_decide_eq_true|split; [|done]]]]);
    ((rewrite bool_decide_eq_true_2 by set_solver) || (rewrite bool_decide_eq_false_2 by set_solver)); done.
Qed.

(** The view of the pool is exact: the nodes are the names in any of the inputs, each
    once and in order; a node is shown as verified, revoked, dialled or connected exactly
    as the registry, its list of revoked nodes, the peers and the latest status have it;
    there is one link per status; and the total counts the nodes. *)
Theorem pool_view_exact :
  let s := build_pool_snapshot i in
  StronglySorted (fun a b => bytes_lt a b = true) (map node_id (nodes s)) /\
  (forall x, x ∈ map node_id (nodes s) <-> named_somewhere x) /\
  Forall (node_says i) (nodes s) /\
  links s ≡ₚ map link_of (in_statuses i) /\ total_nodes (health s) = len (nodes s).
Proof.
  cbn [build_pool_snapshot nodes links health total_nodes]. fold all_nodes.
  set (l := sort_by before_key (map_to_list all_nodes)). assert (Hl : l ≡ₚ map_to_list all_nodes) by apply sort_by_perm.
  assert (Hin : forall p, p ∈ l -> all_nodes !! p.1 = Some p.2) by (intros [x n]; rewrite Hl; apply elem_of_map_to_list).
  assert (Hk : map node_id (map snd l) = map fst l).
  { rewrite map_map. apply map_ext_in. intros p Hp%list_elem_of_In%Hin. by apply all_nodes_says in Hp as [? _]. }
  rewrite Hk. split_and!.
  - apply sorted_keys, NoDup_fst_map_to_list.
  - intros x. rewrite <-all_nodes_named. assert (E : map fst l ≡ₚ map fst (map_to_list all_nodes)) by by rewrite Hl.
    rewrite E, list_elem_of_fmap. split.
    + intros ([y n] & -> & Hp%elem_of_map_to_list). by eexists.
    + intros [n Hx]. exists (x, n). by rewrite elem_of_map_to_list.
  - apply Forall_forall. intros n (p & -> & Hp%Hin)%list_elem_of_fmap. by apply all_nodes_says in Hp as [_ ?].
  - apply sort_by_perm.
  - by rewrite length_map, Hl, length_map_to_list.
Qed.
End Exact.
