(* ===== verification/MgmtService.v ===== *)
(** * The management service

    [mgmt_service] of the server: the operations on clients ([client_ops.rs]), the changes of
    configuration that must be confirmed ([heavy_settings.rs]), the errors and views
    ([mod.rs], [mgmt_error.rs]) and the router of requests that come through the tunnel
    ([tunnel_router.rs]). The service works on the client database, the configuration files
    with the manager of pending changes, and the audit log. The theorems: an edit
    of the exit node leaves the rest of the configuration alone, and a revocation that failed
    is answered like one of an unknown client. *)

From S2P Require Import Prelude Collections Text Utf8 IpAddr NetworkConfig Crypto Presets AuditLog PendingConfig PoolView ClientDb.
Local Open Scope Z_scope.

(** [str::contains] *)
Fixpoint contains (needle s : bytes) : bool :=
  starts_with needle s || match s with [] => false | _ :: s => contains needle s end.

Definition quoted (before subject after : bytes) : bytes := before ++ 39 :: subject ++ 39 :: after.

(** ** Errors *)

Module MgmtError.
Inductive t : Type :=
  | NotFound
  | Conflict (msg : bytes)
  | BadRequest (msg : bytes)
  | Forbidden
  | Unavailable (code : bytes)
  | Internal (msg : bytes).

Definition response_status (e : t) : Z :=
  match e with
  | NotFound => 404
  | Conflict _ => 409
  | BadRequest _ => 400
  | Forbidden => 403
  | Unavailable _ => 503
  | Internal _ => 500
  end.

(** [Display] *)
Definition show (e : t) : bytes :=
  match e with
  | NotFound => str_bytes "not found"
  | Conflict msg | BadRequest msg | Unavailable msg | Internal msg => msg
  | Forbidden => str_bytes "forbidden"
  end.
End MgmtError.

Record ManagementError : Type := { code : bytes; message : bytes; retry_after_ms : option Z }.

Definition new_error (c m : bytes) : ManagementError := {| code := c; message := m; retry_after_ms := None |}.

Definition for_status (status : Z) : ManagementError :=
  let '(c, m) :=
    if (status =? 400) || (status =? 422) then ("invalid_request", "Проверьте параметры запроса.")%string
    else if status =? 401 then ("unauthorized", "Для управления нужно подключиться к серверу.")%string
    else if status =? 403 then ("forbidden", "У клиента нет прав на это действие.")%string
    else if status =? 404 then ("not_found", "Запрошенный клиент или ресурс не найден.")%string
    else if status =? 405 then ("invalid_request", "Метод запроса не поддерживается.")%string
    else if status =? 409 then ("conflict", "Изменение конфликтует с текущим состоянием сервера.")%string
    else if status =? 413 then ("invalid_request", "Запрос превышает допустимый размер.")%string
    else if status =? 415 then ("invalid_request", "Тело запроса должно быть в формате JSON.")%string
    else if status =? 429 then ("rate_limited", "Запросы идут слишком часто. Повторите немного позже.")%string
    else if status =? 503 then ("service_unavailable", "Служба управления временно недоступна.")%string
    else if (400 <=? status) && (status <=? 499)
    then ("invalid_request", "Сервер отклонил запрос. Проверьте его параметры.")%string
    else ("internal_error", "Внутренняя ошибка сервера. Обратитесь к администратору.")%string in
  new_error (str_bytes c) (str_bytes m).

Definition rate_limited (ms : Z) : ManagementError :=
  let e := for_status 429 in {| code := code e; message := message e; retry_after_ms := Some ms |}.

(** [MgmtError::response_error] *)
Definition response_error (e : MgmtError.t) : ManagementError :=
  let other := for_status (MgmtError.response_status e) in
  match e with
  | MgmtError.Unavailable c =>
      if bool_decide (c = str_bytes "public_endpoint_not_configured")
      then new_error c (str_bytes "На сервере не задан публичный адрес. Укажите server_ip в конфигурации или AIVPN_SERVER_IP.")
      else if bool_decide (c = str_bytes "server_key_not_configured")
      then new_error c (str_bytes "На сервере не задан постоянный ключ. Укажите key_file в конфигурации или AIVPN_KEY_FILE.")
      else other
  | MgmtError.BadRequest m => new_error (str_bytes "invalid_request") m
  | MgmtError.Conflict m =>
      if contains (str_bytes "already exists") m || contains (str_bytes "already taken") m
      then new_error (str_bytes "conflict") (str_bytes "Клиент с таким именем уже существует. Выберите другое имя.")
      else other
  | _ => other
  end.

(** [Display] of an error of the database about the client [i] and the name [n]; what the
    operating system adds to a message is left out. *)
Definition show_error (i n : bytes) (e : error) : bytes :=
  match e with
  | SessionError s =>
      str_bytes "Session error: " ++
      if String.eqb s "Client not found" then quoted (str_bytes "Client ") i (str_bytes " not found")
      else if String.eqb s "Client already exists" then quoted (str_bytes "Client ") n (str_bytes " already exists")
      else if String.eqb s "Client name already taken" then quoted (str_bytes "Client name ") n (str_bytes " already taken")
      else str_bytes s
  | InvalidPacket s => str_bytes "Invalid packet: " ++ str_bytes s
  | Crypto s => str_bytes "Crypto error: " ++ str_bytes s
  | Io s => str_bytes "IO error: " ++ str_bytes s
  | Serialization s => str_bytes "Serialization error: " ++ str_bytes s
  | MaskError s => str_bytes "Mask error: " ++ str_bytes s
  | Channel s => str_bytes "Channel error: " ++ str_bytes s
  end.

(** ** Views *)

Record ClientView : Type := {
  cv_id : bytes;
  cv_name : bytes;
  cv_vpn_ip : bytes;
  cv_enabled : bool;
  cv_one_time : bool;
  cv_device_bound : bool;
  cv_created_at : Z;
  cv_stats : ClientStats;
  cv_qos : option ClientQos;
  cv_expires_at : option Z;
  cv_role : ClientRole.t;
  cv_exit_node : option bytes;
}.

(** [From<ClientConfig> for ClientView] *)
Definition view_of (c : ClientConfig) : ClientView :=
  {| cv_id := id c; cv_name := name c; cv_vpn_ip := show_ipv4 (vpn_ip c); cv_enabled := enabled c;
     cv_one_time := one_time c; cv_device_bound := bool_decide (is_Some (device_pubkey c));
     cv_created_at := created_at c; cv_stats := stats c; cv_qos := qos c; cv_expires_at := expires_at c;
     cv_role := role c; cv_exit_node := exit_node c |}.

Record StatusView : Type := { clients_total : Z; clients_enabled : Z; kernel_module : bool }.

(** The connection key of a client, before it is written as text. *)
Record KeyFields : Type := {
  k_server : bytes;
  k_pub : bytes;
  k_psk : bytes;
  k_net : ClientNetworkConfig;
  k_signing : option bytes;
  k_operator : option bytes;
}.

Record ApplyResponse : Type := { ar_token : bytes; applied : bool }.

(** One line of the list of masks. *)
Record MaskInfo : Type := {
  mi_id : bytes;
  mi_file : bytes;
  mi_size : Z;
  mi_modified : option bytes;
  mi_generated : bool;
}.

(** ** Requests *)

Record TunnelAddClientRequest : Type := {
  ta_name : bytes;
  ta_one_time : bool;
  ta_expires_at : option Z;
  ta_qos : option ClientQos;
}.

Record TunnelPatchClientRequest : Type := {
  tp_name : option bytes;
  tp_enabled : option bool;
  tp_one_time : option bool;
  tp_qos : option (option ClientQos);
  tp_expires_at : option (option Z);
  tp_exit_node : option (option bytes);
}.

Record TunnelApplyRequest : Type := {
  tr_client : option bytes;
  tr_mask : option bytes;
  tr_exit_node : option (option bytes);
}.

(** [serde_json::Value], an object in the order of its keys. *)
Inductive json : Type :=
  | JNull
  | JBool (b : bool)
  | JNumber (text : bytes)
  | JString (s : bytes)
  | JArray (l : list json)
  | JObject (l : list (bytes * json)).

(** serde_json, base64 and the alphanumeric characters outside of ASCII. *)
Class MgmtText : Type := {
  add_request : bytes -> option TunnelAddClientRequest;
  patch_request : bytes -> option TunnelPatchClientRequest;
  apply_request : bytes -> option TunnelApplyRequest;
  confirm_request : bytes -> option bytes;
  status_text : StatusView -> option bytes;
  client_text : ClientView -> option bytes;
  clients_text : list ClientView -> option bytes;
  connection_text : bytes -> option bytes;
  apply_text : ApplyResponse -> option bytes;
  entries_text : list AuditEntry -> option bytes;
  verify_text : AuditVerifyView -> option bytes;
  nodes_text : list PoolNodeInfo -> option bytes;
  health_text : PoolHealth -> option bytes;
  links_text : list PoolLinkInfo -> option bytes;
  masks_text : list MaskInfo -> option bytes;
  error_text : ManagementError -> option bytes;
  key_text : KeyFields -> option bytes;
  base64_url : bytes -> bytes;
  json_from_str : bytes -> option json;
  json_to_string_pretty : json -> option bytes;
  alphanumeric : bytes -> bool;
}.

(** ** State *)

(** What requests work on: the client database, the configuration files with the changes
    that wait for confirmation, and the file of the audit log. *)
Record Mgmt : Type := {
  host : Host;
  files : Files;
  pending : Manager;
  audit_file : option bytes;
}.

Definition with_host (h : Host) (s : Mgmt) : Mgmt :=
  {| host := h; files := files s; pending := pending s; audit_file := audit_file s |}.
Definition with_config (fm : Files * Manager) (s : Mgmt) : Mgmt :=
  {| host := host s; files := fm.1; pending := fm.2; audit_file := audit_file s |}.
Definition with_audit (f : option bytes) (s : Mgmt) : Mgmt :=
  {| host := host s; files := files s; pending := pending s; audit_file := f |}.

(** [MgmtCtx]; the flags say whether the logger, the path of its file and the manager of
    pending changes are there. *)
Record MgmtCtx : Type := {
  server_pub_key : option bytes;
  server_addr : option bytes;
  server_signing_pubkey : option bytes;
  mask_operator_pubkey : option bytes;
  audit_on : bool;
  mask_dir : bytes;
  config_path : option bytes;
  audit_log_on : bool;
  pending_on : bool;
  pool : option PoolSnapshot;
}.

(** The system during one request: for the database, for the files and for the log; the
    draws, the clock, the files that exist and the masks that are listed. *)
Record Env : Type := {
  db_sys : System;
  draw : Draw;
  file_io : ApplyIo;
  token_draw : bytes;
  instant : Z;
  log_io : LogIo;
  file_exists : bytes -> bool;
  config_readable : bool;
  kernel_loaded : bool;
  mask_files : list MaskInfo;
}.

(** The [audit] helper: one line by the API, unless the log is off. *)
Definition audit {AT : AuditText} (ctx : MgmtCtx) (env : Env) (what : string) (target result : bytes) (s : Mgmt) : Mgmt :=
  if audit_on ctx && open_ok (log_io env) then
    let a := {| a_actor := AuditActor.Api; a_action := str_bytes what; a_target := target; a_result := result |} in
    with_audit (Some (log (log_io env) a (default [] (audit_file s)))) s
  else s.

(** ** The configuration file *)

(** [Map::get], [insert] and [remove] of an object. *)
Fixpoint obj_get (k : bytes) (l : list (bytes * json)) : option json :=
  match l with
  | [] => None
  | (k', v) :: l => if bool_decide (k' = k) then Some v else obj_get k l
  end.

Fixpoint obj_insert (k : bytes) (v : json) (l : list (bytes * json)) : list (bytes * json) :=
  match l with
  | [] => [(k, v)]
  | (k', v') :: l =>
      if bool_decide (k' = k) then (k, v) :: l
      else if bytes_lt k k' then (k, v) :: (k', v') :: l
      else (k', v') :: obj_insert k v l
  end.

Definition obj_remove (k : bytes) (l : list (bytes * json)) : list (bytes * json) :=
  filter (fun p => p.1 <> k) l.

(** The edit of [pool.exit_node] in the configuration of the server, which is an object. *)
Definition set_exit_node (addr : option bytes) (v : json) : option json :=
  match v with
  | JObject obj =>
      let pool := match obj_get (str_bytes "pool") obj with Some (JObject p) => p | _ => [] end in
      let pool := match addr with
                  | Some a => obj_insert (str_bytes "exit_node") (JString a) pool
                  | None => obj_remove (str_bytes "exit_node") pool
                  end in
      Some (JObject (obj_insert (str_bytes "pool") (JObject pool) obj))
  | _ => None
  end.

(** [Path::join] *)
Definition join_path (dir p : bytes) : bytes :=
  if starts_with [47] p then p
  else match last dir with
       | Some c => if c =? 47 then dir ++ p else dir ++ 47 :: p
       | None => p
       end.

(** [str::chars], each character with its bytes. *)
Fixpoint chars_fuel (fuel : nat) (s : bytes) : list bytes :=
  match fuel, s with
  | S fuel, b :: rest => let n := (utf8_step b rest).1 in take n s :: chars_fuel fuel (drop n s)
  | _, _ => []
  end.

Definition chars (s : bytes) : list bytes := chars_fuel (length s) s.

(** [c.is_alphanumeric() || c == '-' || c == '_'] *)
Definition mask_char {MT : MgmtText} (c : bytes) : bool :=
  match c with
  | [b] => in_range 48 57 b || in_range 65 90 b || in_range 97 122 b || (b =? 45) || (b =? 95)
  | _ => alphanumeric c
  end.

Inductive HeavySetting : Type :=
  | ActiveMask (client mask : bytes)
  | ExitNode (addr : option bytes).

Record ResolvedHeavyWrite : Type := { rw_target_path : bytes; rw_new_content : bytes; rw_descriptor : bytes }.

(** A result of the service. *)
Definition reply (A : Type) : Type := A + MgmtError.t.

Definition failed (msg : bytes) : bytes := str_bytes "failed: " ++ msg.

Section Service.
Context {PR : Primitives} {SD : Serde} {AT : AuditText} {MT : MgmtText} {HI : HashIter}.
Context (ctx : MgmtCtx) (env : Env).

(** ** Clients *)

Definition list_clients (s : Mgmt) : list ClientView := map view_of (ClientDb.list_clients (host s)).

Definition client_name_valid (n : bytes) : bool := negb (bool_decide (n = []) || (64 <? len n)).

Definition bad_name : MgmtError.t := MgmtError.BadRequest (str_bytes "name must be 1–64 characters").

Record AddClientArgs : Type := {
  ac_name : bytes;
  ac_options : CreateClientOptions;
}.

Definition add_client (args : AddClientArgs) (s : Mgmt) : Mgmt * reply ClientView :=
  if negb (client_name_valid (ac_name args)) then (s, inr bad_name)
  else
  match add_client_with_options (ac_name args) (ac_options args) (draw env) (db_sys env) (host s) with
  | (h, Ok c) =>
      (audit ctx env "ClientAdd" (name c ++ str_bytes " (" ++ id c ++ str_bytes ")") (str_bytes "ok") (with_host h s),
       inl (view_of c))
  | (h, Err e) =>
      let msg := show_error [] (ac_name args) e in
      (audit ctx env "ClientAdd" (ac_name args) (failed msg) (with_host h s), inr (MgmtError.Conflict msg))
  | (h, Panic) => (with_host h s, inr (MgmtError.Internal []))
  end.

(** The kind of a failed update is read off its message. *)
Definition update_error (msg : bytes) : MgmtError.t :=
  if contains (str_bytes "not found") msg then MgmtError.NotFound
  else if contains (str_bytes "device binding") msg then MgmtError.Forbidden
  else if contains (str_bytes "exit_node") msg then MgmtError.BadRequest msg
  else MgmtError.Conflict msg.

Definition update_client (i : bytes) (args : UpdateClientParams) (s : Mgmt) : Mgmt * reply ClientView :=
  if match up_name args with Some n => negb (client_name_valid n) | None => false end then (s, inr bad_name)
  else
  match ClientDb.update_client i args (db_sys env) (host s) with
  | (h, Ok c) => (audit ctx env "ClientPatch" i (str_bytes "ok") (with_host h s), inl (view_of c))
  | (h, Err e) =>
      let msg := show_error i (default [] (up_name args)) e in
      (audit ctx env "ClientPatch" i (failed msg) (with_host h s), inr (update_error msg))
  | (h, Panic) => (with_host h s, inr (MgmtError.Internal []))
  end.

(** [remove_client], [revoke] and [reset_device] differ in the call and in the name of the
    action. *)
Definition on_client (what : string) (call : bytes -> System -> method Host unit) (i : bytes) (s : Mgmt)
    : Mgmt * reply unit :=
  match call i (db_sys env) (host s) with
  | (h, Ok _) => (audit ctx env what i (str_bytes "ok") (with_host h s), inl tt)
  | (h, Err e) => (audit ctx env what i (failed (show_error i [] e)) (with_host h s), inr MgmtError.NotFound)
  | (h, Panic) => (with_host h s, inr (MgmtError.Internal []))
  end.

Definition remove_client : bytes -> Mgmt -> Mgmt * reply unit := on_client "ClientRemove" ClientDb.remove_client.
Definition revoke : bytes -> Mgmt -> Mgmt * reply unit := on_client "ClientRevoke" ClientDb.remove_client.
Definition reset_device : bytes -> Mgmt -> Mgmt * reply unit := on_client "DeviceReset" reset_device_binding.

Definition connection_key (i : bytes) (s : Mgmt) : reply bytes :=
  match server_addr ctx with
  | None => inr (MgmtError.Unavailable (str_bytes "public_endpoint_not_configured"))
  | Some addr =>
      match server_pub_key ctx with
      | None => inr (MgmtError.Unavailable (str_bytes "server_key_not_configured"))
      | Some pub =>
          match find_by_id i (host s) with
          | None => inr MgmtError.NotFound
          | Some c =>
              match client_config (network_config (db (host s))) (vpn_ip c) with
              | Ok net =>
                  match key_text {| k_server := addr; k_pub := pub; k_psk := psk c; k_net := net;
                                    k_signing := server_signing_pubkey ctx;
                                    k_operator := mask_operator_pubkey ctx |} with
                  | Some text => inl (str_bytes "aivpn://" ++ base64_url text)
                  | None => inr (MgmtError.Internal (str_bytes "connection key serialization error"))
                  end
              | Err e => inr (MgmtError.Internal (show_error [] [] e))
              | Panic => inr (MgmtError.Internal [])
              end
          end
      end
  end.

Definition status (s : Mgmt) : StatusView :=
  let clients := ClientDb.list_clients (host s) in
  {| clients_total := len clients; clients_enabled := len (filter (fun c => enabled c = true) clients);
     kernel_module := kernel_loaded env |}.

(** ** Changes that must be confirmed *)

Definition internal (what : string) : MgmtError.t := MgmtError.Internal (str_bytes what).

Definition resolve_heavy_setting (setting : HeavySetting) (s : Mgmt) : reply ResolvedHeavyWrite :=
  match setting with
  | ActiveMask client mask =>
      if bool_decide (client = []) || bool_decide (mask = [])
      then inr (MgmtError.BadRequest (str_bytes "fields 'client' and 'mask' are required"))
      else if negb (forallb mask_char (chars mask)) then inr (MgmtError.BadRequest (str_bytes "invalid mask name"))
      else
      match match find_by_name client (host s) with Some c => Some c | None => find_by_id client (host s) end with
      | None => inr MgmtError.NotFound
      | Some c =>
          let mask_path := join_path (mask_dir ctx) (mask ++ str_bytes ".json") in
          if negb (file_exists env mask_path) && bool_decide (preset_masks.by_id mask = None) then inr MgmtError.NotFound
          else inl {| rw_target_path := join_path (join_path (mask_dir ctx) (str_bytes ".overrides")) (id c ++ str_bytes ".mask");
                      rw_new_content := mask;
                      rw_descriptor := str_bytes "active mask: " ++ id c ++ str_bytes " -> " ++ mask |}
      end
  | ExitNode addr =>
      match match addr with Some a => validate_exit_node_addr a | None => Ok tt end with
      | Err e => inr (MgmtError.BadRequest (show_error [] [] e))
      | Panic => inr (internal "")
      | Ok _ =>
          match config_path ctx with
          | None => inr (MgmtError.Unavailable (str_bytes "server config path not configured on this node"))
          | Some path =>
              match files s !! path with
              | None => inr (internal "read config")
              | Some content =>
                  if negb (config_readable env && utf8_valid content) then inr (internal "read config")
                  else
                  match json_from_str content with
                  | None => inr (internal "parse config")
                  | Some v =>
                      match set_exit_node addr v with
                      | None => inr (internal "config root is not a JSON object")
                      | Some v =>
                          match json_to_string_pretty v with
                          | None => inr (internal "serialize config")
                          | Some text =>
                              inl {| rw_target_path := path; rw_new_content := text;
                                     rw_descriptor := str_bytes "global exit node: " ++ default (str_bytes "(disabled)") addr |}
                          end
                      end
                  end
              end
          end
      end
  end.

(** [generate_token] *)
Definition generate_token : bytes := hex_encode (token_draw env).

Definition apply_heavy (setting : HeavySetting) (s : Mgmt) : Mgmt * reply ApplyResponse :=
  if negb (pending_on ctx) then (s, inr (internal "pending-config manager not configured on this node"))
  else
  match resolve_heavy_setting setting s with
  | inr e => (audit ctx env "ConfigApply" (str_bytes "(validation)") (failed (MgmtError.show e)) s, inr e)
  | inl w =>
      let t := generate_token in
      match apply_resolved (file_io env) t (rw_target_path w) (rw_new_content w) (rw_descriptor w) (instant env)
              (files s, pending s) with
      | (fm, Some _) =>
          (audit ctx env "ConfigApply" (rw_descriptor w ++ str_bytes " (token " ++ t ++ str_bytes ")")
             (str_bytes "ok, pending confirmation") (with_config fm s),
           inl {| ar_token := t; applied := true |})
      | (fm, None) =>
          (if negb (prior_ok (file_io env)) then with_config fm s
           else audit ctx env "ConfigApply" (rw_descriptor w)
                  (failed (if negb (mkdir_ok (file_io env)) then str_bytes "mkdir" else str_bytes "write")) (with_config fm s),
           inr (if negb (prior_ok (file_io env)) then internal "read prior config"
                else if negb (mkdir_ok (file_io env)) then internal "mkdir failed" else internal "write failed"))
      end
  end.

Definition confirm_config (t : bytes) (s : Mgmt) : Mgmt * reply PendingConfig :=
  if negb (pending_on ctx) then (s, inr (internal "pending-config manager not configured on this node"))
  else
  match confirm_and_take t (instant env) (pending s) with
  | (m, Some c) => (audit ctx env "ConfigConfirm" t (str_bytes "ok") (with_config (files s, m) s), inl c)
  | (m, None) =>
      (audit ctx env "ConfigConfirm" t (str_bytes "failed: unknown or expired token") (with_config (files s, m) s),
       inr MgmtError.NotFound)
  end.
End Service.

(** ** Routes *)

Definition METHOD_GET : Z := 0.
Definition METHOD_POST : Z := 1.
Definition METHOD_PATCH : Z := 2.
Definition METHOD_DELETE : Z := 3.
Definition DEFAULT_AUDIT_LIMIT : Z := 200.
Definition MAX_AUDIT_LIMIT : Z := 1000.

Module Route.
Inductive t : Type :=
  | Status
  | ClientsList
  | ClientAdd
  | ClientGet (i : bytes)
  | ClientPatch (i : bytes)
  | ClientDelete (i : bytes)
  | ClientConnectionKey (i : bytes)
  | ClientResetDevice (i : bytes)
  | ClientRevoke (i : bytes)
  | AuditLog (limit : Z) (verify : bool)
  | ConfigApply
  | ConfigConfirm
  | PoolNodes
  | PoolHealth
  | PoolLinks
  | MasksList.
End Route.

(** [str::split_once] *)
Definition split_once (sep : Z) (s : bytes) : option (bytes * bytes) :=
  match split sep s with
  | a :: b :: rest => Some (a, join sep (b :: rest))
  | _ => None
  end.

(** [str::parse::<usize>()] on a 64-bit server *)
Definition parse_usize (l : bytes) : option Z :=
  let digits := match l with c :: l' => if c =? 43 then l' else l | [] => l end in
  let '(v, n, rest) := read_digits 10 digits 0 0 in
  match rest with
  | [] => if (n =? 0)%nat then None else if v <=? u64_max then Some v else None
  | _ => None
  end.

Definition first_some {A B} (f : A -> option B) (l : list A) : option B := head (base.omap f l).

Definition parse_audit_limit (query : option bytes) : Z :=
  let raw := default DEFAULT_AUDIT_LIMIT
    (query ≫= fun q => first_some (strip_prefix (str_bytes "limit=")) (split 38 q) ≫= parse_usize) in
  Z.max 1 (Z.min MAX_AUDIT_LIMIT raw).

Definition parse_audit_verify (query : option bytes) : bool :=
  match query with
  | None => false
  | Some q =>
      existsb (fun kv =>
        match split_once 61 kv with
        | Some (k, v) => bool_decide (k = str_bytes "verify") &&
            (bool_decide (v = str_bytes "1") || bool_decide (v = str_bytes "true") || bool_decide (v = str_bytes "yes"))
        | None => false
        end) (split 38 q)
  end.

(** The segments of a path that are not empty; trimming slashes changes none of them. *)
Definition segments (path : bytes) : list bytes := filter (fun p => p <> []) (split 47 path).

Definition is_ (x : bytes) (w : string) : bool := bool_decide (x = str_bytes w).

Definition classify_route (method : Z) (path : bytes) : option Route.t :=
  let '(path_only, query) := match split_once 63 path with Some (p, q) => (p, Some q) | None => (path, None) end in
  match segments path_only with
  | api :: v1 :: rest =>
      if is_ api "api" && is_ v1 "v1" then
        match rest with
        | [a] =>
            if (method =? METHOD_GET) && is_ a "status" then Some Route.Status
            else if (method =? METHOD_GET) && is_ a "clients" then Some Route.ClientsList
            else if (method =? METHOD_POST) && is_ a "clients" then Some Route.ClientAdd
            else if (method =? METHOD_GET) && is_ a "audit-log"
            then Some (Route.AuditLog (parse_audit_limit query) (parse_audit_verify query))
            else if (method =? METHOD_GET) && is_ a "masks" then Some Route.MasksList
            else None
        | [a; b] =>
            if (method =? METHOD_GET) && is_ a "clients" then Some (Route.ClientGet b)
            else if (method =? METHOD_PATCH) && is_ a "clients" then Some (Route.ClientPatch b)
            else if (method =? METHOD_DELETE) && is_ a "clients" then Some (Route.ClientDelete b)
            else if (method =? METHOD_POST) && is_ a "config" && is_ b "apply" then Some Route.ConfigApply
            else if (method =? METHOD_POST) && is_ a "config" && is_ b "confirm" then Some Route.ConfigConfirm
            else if (method =? METHOD_GET) && is_ a "pool" && is_ b "nodes" then Some Route.PoolNodes
            else if (method =? METHOD_GET) && is_ a "pool" && is_ b "health" then Some Route.PoolHealth
            else if (method =? METHOD_GET) && is_ a "pool" && is_ b "links" then Some Route.PoolLinks
            else None
        | [a; b; c] =>
            if (method =? METHOD_GET) && is_ a "clients" && is_ c "connection-key" then Some (Route.ClientConnectionKey b)
            else if (method =? METHOD_POST) && is_ a "clients" && is_ c "reset-device" then Some (Route.ClientResetDevice b)
            else if (method =? METHOD_POST) && is_ a "clients" && is_ c "revoke" then Some (Route.ClientRevoke b)
            else None
        | _ => None
        end
      else None
  | _ => None
  end.

Definition authorize (role_u8 : Z) (method : Z) (path : bytes) : bool :=
  match classify_route method path with
  | None => false
  | Some route =>
      if role_u8 =? 2 then true
      else if role_u8 =? 1
      then (method =? METHOD_GET) && match route with Route.ClientConnectionKey _ => false | _ => true end
      else false
  end.

Definition revoke_target (method : Z) (path : bytes) : option bytes :=
  match classify_route method path with Some (Route.ClientRevoke i) => Some i | _ => None end.

Section Dispatch.
Context {PR : Primitives} {SD : Serde} {AT : AuditText} {MT : MgmtText} {HI : HashIter}.

(** Status and body of an answer. *)
Definition Answer : Type := Z * bytes.

Definition json_response (status : Z) (text : option bytes) : Answer :=
  match text with Some t => (status, t) | None => (500, []) end.

(** [ManagementError::to_body] *)
Definition to_body (e : ManagementError) : bytes := default [] (error_text e).

Definition err_response (e : MgmtError.t) : Answer := (MgmtError.response_status e, to_body (response_error e)).

Definition bad_json : MgmtError.t := MgmtError.BadRequest (str_bytes "Некорректный JSON или параметры запроса.").

Definition answer {A} (ok : A -> Answer) (r : reply A) : Answer :=
  match r with inl x => ok x | inr e => err_response e end.

Definition no_content {A} (_ : A) : Answer := (204, []).

(** A request whose body is read first. *)
Definition with_body {A} (r : option A) (k : A -> Mgmt -> Mgmt * Answer) (s : Mgmt) : Mgmt * Answer :=
  match r with Some x => k x s | None => (s, err_response bad_json) end.

Definition then_answer {A} (ok : A -> Answer) (r : Mgmt * reply A) : Mgmt * Answer := (r.1, answer ok r.2).

Definition patch_params (r : TunnelPatchClientRequest) : UpdateClientParams :=
  {| up_name := tp_name r; up_enabled := tp_enabled r; up_one_time := tp_one_time r; up_qos := tp_qos r;
     up_expires_at := tp_expires_at r; up_role := None; up_exit_node := tp_exit_node r |}.

Definition add_args (r : TunnelAddClientRequest) : AddClientArgs :=
  {| ac_name := ta_name r;
     ac_options := {| co_one_time := ta_one_time r; co_expires_at := ta_expires_at r; co_role := ClientRole.User;
                      co_qos := ta_qos r |} |}.

Definition apply_setting (r : TunnelApplyRequest) : HeavySetting :=
  match tr_exit_node r with
  | Some addr => ExitNode addr
  | None => ActiveMask (default [] (tr_client r)) (default [] (tr_mask r))
  end.

(** The pool as the context has it, or none. *)
Definition pool_or_none (ctx : MgmtCtx) : PoolSnapshot := default (empty_snapshot (str_bytes "none")) (pool ctx).

Definition audit_source (ctx : MgmtCtx) (s : Mgmt) : option bytes :=
  if audit_log_on ctx then audit_file s else None.

Definition serve_route (ctx : MgmtCtx) (env : Env) (body : bytes) (route : Route.t) (s : Mgmt) : Mgmt * Answer :=
  match route with
  | Route.Status => (s, json_response 200 (status_text (status env s)))
  | Route.ClientsList => (s, json_response 200 (clients_text (list_clients s)))
  | Route.ClientAdd =>
      with_body (add_request body)
        (fun r s => then_answer (fun v => json_response 201 (client_text v)) (add_client ctx env (add_args r) s)) s
  | Route.ClientGet i =>
      (s, match find_by_id i (host s) with
          | Some c => json_response 200 (client_text (view_of c))
          | None => err_response MgmtError.NotFound
          end)
  | Route.ClientPatch i =>
      with_body (patch_request body)
        (fun r s => then_answer (fun v => json_response 200 (client_text v)) (update_client ctx env i (patch_params r) s)) s
  | Route.ClientDelete i => then_answer no_content (remove_client ctx env i s)
  | Route.ClientConnectionKey i => (s, answer (fun k => json_response 200 (connection_text k)) (connection_key ctx i s))
  | Route.ClientResetDevice i => then_answer no_content (reset_device ctx env i s)
  | Route.ClientRevoke i => then_answer no_content (revoke ctx env i s)
  | Route.AuditLog limit verify =>
      (s, if verify
          then match audit_verify limit (audit_source ctx s) with
               | Some v => json_response 200 (verify_text v)
               | None => err_response MgmtError.NotFound
               end
          else match audit_tail limit (audit_source ctx s) with
               | Some l => json_response 200 (entries_text l)
               | None => err_response MgmtError.NotFound
               end)
  | Route.ConfigApply =>
      with_body (apply_request body)
        (fun r s => then_answer (fun v => json_response 200 (apply_text v)) (apply_heavy ctx env (apply_setting r) s)) s
  | Route.ConfigConfirm =>
      with_body (confirm_request body) (fun t s => then_answer no_content (confirm_config ctx env t s)) s
  | Route.PoolNodes => (s, json_response 200 (nodes_text (nodes (pool_or_none ctx))))
  | Route.PoolHealth => (s, json_response 200 (health_text (health (pool_or_none ctx))))
  | Route.PoolLinks => (s, json_response 200 (links_text (links (pool_or_none ctx))))
  | Route.MasksList => (s, json_response 200 (masks_text (mask_files env)))
  end.

Definition dispatch (ctx : MgmtCtx) (env : Env) (method : Z) (path body : bytes) (s : Mgmt) : Mgmt * Answer :=
  match classify_route method path with
  | None => (s, err_response MgmtError.NotFound)
  | Some route => serve_route ctx env body route s
  end.
End Dispatch.

(** ** Edits of an object *)

Lemma obj_get_insert k v l : obj_get k (obj_insert k v l) = Some v.
Proof.
  induction l as [|[k' v'] l IH]; cbn; [by rewrite bool_decide_eq_true_2|].
  destruct (bool_decide (k' = k)) eqn:E; cbn; [by rewrite bool_decide_eq_true_2|].
  destruct (bytes_lt k k'); cbn; [by rewrite bool_decide_eq_true_2|]. by rewrite E.
Qed.

Lemma obj_get_insert_ne j k v l : j <> k -> obj_get j (obj_insert k v l) = obj_get j l.
Proof.
  intros Hn. induction l as [|[k' v'] l IH]; cbn; [by rewrite bool_decide_eq_false_2 by congruence|].
  destruct (bool_decide_reflect (k' = k)) as [->|Hk]; cbn; [by rewrite bool_decide_eq_false_2 by congruence|].
  destruct (bytes_lt k k'); cbn; [by rewrite (bool_decide_eq_false_2 (k = j)) by congruence|]. by rewrite IH.
Qed.

Lemma obj_get_remove j k l : obj_get j (obj_remove k l) = if bool_decide (j = k) then None else obj_get j l.
Proof.
  induction l as [|[k' v'] l IH]; [by destruct (bool_decide (j = k))|]. unfold obj_remove in *. rewrite filter_cons. cbn [fst].
  destruct (decide (k' <> k)) as [D|D]; cbn [obj_get]; rewrite IH.
  - destruct (bool_decide_reflect (k' = j)) as [->|]; [by rewrite bool_decide_eq_false_2|done].
  - apply dec_stable in D as ->. destruct (bool_decide_reflect (j = k)) as [->|Hj]; [done|].
    by rewrite bool_decide_eq_false_2 by congruence.
Qed.

(** The members of an object; the object in a member, if it is one. *)
Definition member (k : bytes) (v : json) : option json := match v with JObject l => obj_get k l | _ => None end.
Definition pool_member (k : bytes) (v : json) : option json := member (str_bytes "pool") v ≫= member k.

Lemma pool_insert k p obj : pool_member k (JObject (obj_insert (str_bytes "pool") (JObject p) obj)) = obj_get k p.
Proof. unfold pool_member. cbn [member]. by rewrite obj_get_insert. Qed.

Lemma pool_get k obj :
  pool_member k (JObject obj) = obj_get k (match obj_get (str_bytes "pool") obj with Some (JObject p) => p | _ => [] end).
Proof. unfold pool_member. cbn [member]. by destruct (obj_get _ obj) as [[]|]. Qed.

Section Edits.
Context {SD : Serde} {MT : MgmtText} {HI : HashIter}.

(** A change of the exit node changes nothing else of the configuration. What is to be
    written on the file is the printed form of the file's own value, with every other member
    of the configuration and every other member of its pool section as it was, and with
    exactly the asked exit node, none when none is asked. *)
Theorem exit_node_edit_exact ctx env addr s w :
  resolve_heavy_setting ctx env (ExitNode addr) s = inl w ->
  exists content v v',
    config_path ctx = Some (rw_target_path w) /\ files s !! rw_target_path w = Some content /\
    json_from_str content = Some v /\ json_to_string_pretty v' = Some (rw_new_content w) /\
    pool_member (str_bytes "exit_node") v' = JString <$> addr /\
    (forall k, k <> str_bytes "exit_node" -> pool_member k v' = pool_member k v) /\
    (forall k, k <> str_bytes "pool" -> member k v' = member k v).
Proof.
  cbn [resolve_heavy_setting]. destruct (match addr with Some a => _ | None => _ end); [|done..].
  destruct (config_path ctx) as [path|]; [|done]. destruct (files s !! path) as [content|] eqn:Ef; [|done].
  destruct (negb _); [done|]. destruct (json_from_str content) as [v|] eqn:Ev; [|done].
  destruct (set_exit_node addr v) as [v'|] eqn:E; [|done]. destruct (json_to_string_pretty v') as [text|] eqn:Et; [|done].
  intros [= <-]. cbn [rw_target_path rw_new_content]. exists content, v, v'. do 4 (split; [done|]).
  destruct v as [| | | | |obj]; try done. cbn [set_exit_node] in E. injection E as <-.
  rewrite pool_insert. setoid_rewrite pool_insert. split_and!.
  - destruct addr; [by rewrite obj_get_insert|by rewrite obj_get_remove, bool_decide_eq_true_2].
  - intros k Hk. rewrite pool_get. destruct addr; [by apply obj_get_insert_ne|].
    by rewrite obj_get_remove, bool_decide_eq_false_2.
  - intros k Hk. by apply obj_get_insert_ne.
Qed.
End Edits.

Section Failures.
Context {PR : Primitives} {SD : Serde} {AT : AuditText} {MT : MgmtText} {HI : HashIter}.

(** A revocation that failed is answered like the revocation of a client that does not
    exist. When the file of the database cannot be locked, the client that was to be revoked
    stays as live as it was, and the answer is 404, not found. *)
Theorem failed_revocation_hidden ctx env body i s c :
  find_by_id i (host s) = Some c -> ClientDb.lock_ok (db_sys env) = false ->
  let '(s', a) := serve_route ctx env body (Route.ClientRevoke i) s in
  find_by_id i (host s') = Some c /\ a = err_response MgmtError.NotFound /\ a.1 = 404.
Proof.
  intros Hf Hl. cbn [serve_route]. unfold then_answer, revoke, on_client, ClientDb.remove_client, with_mutation.
  rewrite Hl. cbn. unfold audit. by destruct (_ && _).
Qed.
End Failures.
