(* ===== verification/MgmtAccess.v ===== *)
(** * Who may manage the server

    The gateway's side of management through the tunnel: [on_mgmt_request] and
    [dispatch_mgmt_request] of [gateway/control_dispatch.rs], [session_role] of
    [gateway/mod.rs], the throttle of [gateway/throttle.rs] and the diagnostic requests of
    [diagnostics.rs]. The role of a session is read anew for every request, from the record
    of a client whose device the session has proved. The theorems: only an administrator's
    proved device changes anything; what anybody else is told depends on no client's key; no
    run of requests gives a role to anybody; a revoked client is out for good; and a
    session is served at most once in two hundred milliseconds. *)

From S2P Require Import Prelude Collections Text Utf8 IpAddr NetworkConfig Crypto AuditLog PendingConfig PoolView ClientDb ClientStore MgmtService.
From Stdlib Require Import Sorted.
Local Open Scope Z_scope.

(** The fields of a session that say who the client is. *)
Record MgmtSession : Type := {
  session_id : bytes;
  client_id : option bytes;
  verified_device_pub : option bytes;
  mtls_cert : option (bytes * Z);
  mtls_ok : bool;
  is_pool_peer : bool;
  is_site : bool;
  client_admitted : bool;
}.

Definition with_mtls (ok : bool) (x : MgmtSession) : MgmtSession :=
  {| session_id := session_id x; client_id := client_id x; verified_device_pub := verified_device_pub x;
     mtls_cert := mtls_cert x; mtls_ok := ok; is_pool_peer := is_pool_peer x; is_site := is_site x;
     client_admitted := client_admitted x |}.

(** What a request finds of the configuration of the gateway and of its pool; [dialer] holds
    the tables of the dialler and of the registry. *)
Record TunnelConfig : Type := {
  server_private_key : bytes;
  mgmt_server_addr : option bytes;
  operator_pubkey : option bytes;
  logger_on : bool;
  masks_at : bytes;
  audit_log_path : bool;
  dialer : option PoolSnapshotInputs;
  pool_configured : bool;
}.

(** The gateway: whether certificates are asked for, its configuration, the state that the
    service works on, and the throttle. *)
Record Gateway : Type := {
  mtls_required : bool;
  config : TunnelConfig;
  mgmt : option Mgmt;
  throttle : gmap bytes Z;
}.

Definition with_mgmt (s : option Mgmt) (g : Gateway) : Gateway :=
  {| mtls_required := mtls_required g; config := config g; mgmt := s; throttle := throttle g |}.
Definition with_throttle (t : gmap bytes Z) (g : Gateway) : Gateway :=
  {| mtls_required := mtls_required g; config := config g; mgmt := mgmt g; throttle := t |}.

(** ** Throttling, in nanoseconds *)

Definition MGMT_THROTTLE : Z := 200 * 1000000.

Definition throttled (window : Z) (last_processed : option Z) (now : Z) : bool :=
  match last_processed with Some last => sat_sub now last <? window | None => false end.

Definition try_claim_slot (t : gmap bytes Z) (sid : bytes) (now window : Z) : gmap bytes Z * bool :=
  match t !! sid with
  | Some last => if throttled window (Some last) now then (t, false) else (<[sid := now]> t, true)
  | None => (<[sid := now]> t, true)
  end.

(** ** Roles *)

(** [refresh_mtls_gate]; [now_ms] is the time in milliseconds. *)
Definition refresh_mtls_gate (required : bool) (now_ms : Z) (x : MgmtSession) : MgmtSession :=
  let required := required && negb (is_pool_peer x) && negb (is_site x) in
  with_mtls (negb required ||
    match mtls_cert x with
    | Some (key, expiry) => bool_decide (verified_device_pub x = Some key) && (now_ms / 1000 <=? expiry)
    | None => false
    end) x.

(** The record speaks for the session. *)
Definition speaks_for (x : MgmtSession) (now : Z) (c : ClientConfig) : bool :=
  enabled c && negb (deleted c) && match expires_at c with Some t => now <? t | None => true end
  && bool_decide (is_Some (verified_device_pub x)) && bool_decide (device_pubkey c = verified_device_pub x).

Definition session_role (now : Z) (x : MgmtSession) (g : Gateway) : MgmtSession * ClientRole.t :=
  let x := refresh_mtls_gate (mtls_required g) (now / 1000000) x in
  (x,
   if negb (mtls_ok x) then ClientRole.User
   else
   match client_id x, mgmt g with
   | Some i, Some s =>
       match find_by_id i (host s) with
       | Some c => if speaks_for x now c then role c else ClientRole.User
       | None => ClientRole.User
       end
   | _, _ => ClientRole.User
   end).

(** ** Diagnostics *)

Definition PING : bytes := str_bytes "/diagnostics/v1/ping".
Definition UP : bytes := str_bytes "/diagnostics/v1/up".
Definition DOWN : bytes := str_bytes "/diagnostics/v1/down".
Definition BLOCK_BYTES : Z := 768.

Definition is_diagnostic (path : bytes) : bool :=
  bool_decide (path = PING) || bool_decide (path = UP) || bool_decide (path = DOWN).

(** The extendable output of BLAKE3 and the verifying key of an Ed25519 seed. *)
Class MorePrimitives : Type := { blake3_xof : bytes -> Z -> bytes; ed25519_verifying_key : bytes -> bytes }.

Section Requests.
Context {PR : Primitives} {MP : MorePrimitives} {SD : Serde} {AT : AuditText} {MT : MgmtText} {HI : HashIter}.

Definition diagnostic_response (method : Z) (path body : bytes) : Answer :=
  if (method =? 1) && bool_decide (path = PING) && (len body =? 8) then (200, body)
  else if (method =? 1) && bool_decide (path = UP) && (len body =? BLOCK_BYTES) then (200, blake3_hash body)
  else if (method =? 1) && bool_decide (path = DOWN) && (len body =? 8) then (200, blake3_xof body BLOCK_BYTES)
  else (400, []).

Definition derive_server_signing_key (private : bytes) : bytes := derive_key "aivpn-ed25519-signing-v1" private.

Definition tunnel_pool (c : TunnelConfig) : PoolSnapshot :=
  match dialer c with
  | Some i => build_pool_snapshot {| in_peers := in_peers i; in_registry_nodes := in_registry_nodes i;
                                     in_revoked := in_revoked i; in_statuses := in_statuses i;
                                     in_transport := str_bytes "masked" |}
  | None => empty_snapshot (str_bytes (if pool_configured c then "masked" else "none"))
  end.

(** The context of a request through the tunnel: no path of a configuration file. *)
Definition tunnel_ctx (c : TunnelConfig) : MgmtCtx :=
  let keyed := negb (bool_decide (server_private_key c = zeros 32)) in
  {| server_pub_key := if keyed then Some (public_key_bytes (from_private_key (server_private_key c))) else None;
     server_addr := mgmt_server_addr c;
     server_signing_pubkey := if keyed then Some (ed25519_verifying_key (derive_server_signing_key (server_private_key c))) else None;
     mask_operator_pubkey := operator_pubkey c; audit_on := logger_on c; mask_dir := masks_at c; config_path := None;
     audit_log_on := audit_log_path c; pending_on := true; pool := Some (tunnel_pool c) |}.

Definition dispatch_mgmt_request (env : Env) (method : Z) (path body : bytes) (g : Gateway) : Gateway * Answer :=
  match mgmt g with
  | None => (g, (503, to_body (new_error (str_bytes "client_database_unavailable")
                   (str_bytes "База клиентов временно недоступна. Обратитесь к администратору сервера."))))
  | Some s => let '(s, a) := dispatch (tunnel_ctx (config g)) env method path body s in (with_mgmt (Some s) g, a)
  end.

(** A request: its session, its system, whether the diagnostic budget of the session is
    left, method, path and body. *)
Record Request : Type := {
  rq_session : MgmtSession;
  rq_env : Env;
  rq_budget : bool;
  rq_method : Z;
  rq_path : bytes;
  rq_body : bytes;
}.

(** The answer to a request, and the client to disconnect, if it was revoked. *)
Record Outcome : Type := { answered : Answer; disconnect : option bytes }.

Definition on_diagnostic (r : Request) : Answer :=
  let x := rq_session r in
  let status :=
    if negb (client_admitted x) || negb (mtls_ok x) || is_pool_peer x || is_site x then 403
    else if negb (rq_budget r) then 429 else 200 in
  if status =? 200 then diagnostic_response (rq_method r) (rq_path r) (rq_body r)
  else (status, if status =? 429 then to_body (rate_limited 200) else to_body (for_status status)).

Definition on_mgmt_request (r : Request) (g : Gateway) : Gateway * Outcome :=
  if is_diagnostic (rq_path r) then (g, {| answered := on_diagnostic r; disconnect := None |})
  else
  let '(t, claimed) := try_claim_slot (throttle g) (session_id (rq_session r)) (instant (rq_env r)) MGMT_THROTTLE in
  let g := with_throttle t g in
  if negb claimed then (g, {| answered := (429, to_body (rate_limited 200)); disconnect := None |})
  else
  let role := (session_role (now (db_sys (rq_env r))) (rq_session r) g).2 in
  if negb (authorize (ClientRole.rank role) (rq_method r) (rq_path r))
  then (g, {| answered := (403, to_body (for_status 403)); disconnect := None |})
  else
  let revoke_id := revoke_target (rq_method r) (rq_path r) in
  let '(g, a) := dispatch_mgmt_request (rq_env r) (rq_method r) (rq_path r) (rq_body r) g in
  (g, {| answered := a; disconnect := if a.1 =? 204 then revoke_id else None |}).
End Requests.

(** ** Routes *)

(** The routes that change something. *)
Definition mutating (r : Route.t) : bool :=
  match r with
  | Route.ClientAdd | Route.ClientPatch _ | Route.ClientDelete _ | Route.ClientResetDevice _ | Route.ClientRevoke _
  | Route.ConfigApply | Route.ConfigConfirm => true
  | _ => false
  end.

(** A route is what its method says: a GET reads. *)
Lemma classify_get path route : classify_route METHOD_GET path = Some route -> mutating route = false.
Proof.
  unfold classify_route. change (METHOD_GET =? METHOD_GET) with true. change (METHOD_GET =? METHOD_POST) with false.
  change (METHOD_GET =? METHOD_PATCH) with false. change (METHOD_GET =? METHOD_DELETE) with false. cbn [andb].
  repeat (case_match; try done); by intros [= <-].
Qed.

Lemma authorize_spec role method path :
  authorize (ClientRole.rank role) method path = true ->
  exists route, classify_route method path = Some route /\
    (role = ClientRole.Admin \/
     role = ClientRole.Viewer /\ mutating route = false /\ forall i, route <> Route.ClientConnectionKey i).
Proof.
  unfold authorize. destruct (classify_route method path) as [route|] eqn:E; [|done]. intros H. exists route. split; [done|].
  destruct role; cbn in H; [done| |by left]. right. apply andb_true_iff in H as [Hm%Z.eqb_eq Hr]. split; [done|]. split.
  - rewrite Hm in E. by eapply classify_get.
  - by intros i ->.
Qed.

Section Access.
Context {PR : Primitives} {MP : MorePrimitives} {SD : Serde} {AT : AuditText} {MT : MgmtText} {HI : HashIter}.

Lemma serve_reading ctx env body route s : mutating route = false -> (serve_route ctx env body route s).1 = s.
Proof. by destruct route. Qed.

(** The session has proved the device of an administrator. *)
Definition proved_admin (r : Request) (g : Gateway) : Prop :=
  let x := rq_session r in
  let t := now (db_sys (rq_env r)) in
  exists s c key, mgmt g = Some s /\ find_by_id (id c) (host s) = Some c /\ client_id x = Some (id c) /\
    role c = ClientRole.Admin /\ enabled c = true /\ (forall e, expires_at c = Some e -> t < e) /\
    device_pubkey c = Some key /\ verified_device_pub x = Some key /\
    (mtls_required g = true -> is_pool_peer x = false -> is_site x = false ->
     exists expiry, mtls_cert x = Some (key, expiry) /\ t / 1000000 / 1000 <= expiry).

Lemma role_throttle t x n g : session_role n x (with_throttle t g) = session_role n x g.
Proof. done. Qed.

Lemma speaks_for_true x t c :
  speaks_for x t c = true ->
  enabled c = true /\ (forall e, expires_at c = Some e -> t < e) /\
  exists key, verified_device_pub x = Some key /\ device_pubkey c = Some key.
Proof.
  unfold speaks_for. rewrite !andb_true_iff, !bool_decide_eq_true. intros ((((H1 & _) & H2) & [key Hk]) & Hd).
  split; [done|]. split; [intros e He; rewrite He in H2; lia|]. exists key. by rewrite Hd, Hk.
Qed.

Lemma role_admin r g :
  (session_role (now (db_sys (rq_env r))) (rq_session r) g).2 = ClientRole.Admin -> proved_admin r g.
Proof.
  unfold session_role. cbn [snd]. destruct (mtls_ok _) eqn:Hm; [|done]. cbn [negb].
  cbn [client_id refresh_mtls_gate with_mtls]. destruct (client_id (rq_session r)) as [i|] eqn:Hi; [|done].
  destruct (mgmt g) as [s|] eqn:Hs; [|done]. destruct (find_by_id i (host s)) as [c|] eqn:F; [|done].
  destruct (speaks_for _ _ _) eqn:S; [|done]. intros Hr. apply speaks_for_true in S as (He & Hx & key & Hv & Hd).
  cbn in Hv. pose proof F as F'. apply find_elem in F' as [_ [Hid _]%live_id_true].
  exists s, c, key. rewrite Hid. split_and!; try done. intros Hq Hp Hsi. cbn in Hm. rewrite Hq, Hp, Hsi in Hm. cbn in Hm.
  destruct (mtls_cert (rq_session r)) as [[k e]|]; [|done]. apply andb_true_iff in Hm as [Hk%bool_decide_eq_true He'].
  exists e. split; [congruence|lia].
Qed.

(** What a request past the throttle and the role check comes to. *)
Lemma request_cases r g :
  let '(g', o) := on_mgmt_request r g in
  (mgmt g' = mgmt g /\ disconnect o = None) \/
  exists route, classify_route (rq_method r) (rq_path r) = Some route /\
    let role := (session_role (now (db_sys (rq_env r))) (rq_session r) g).2 in
    (role = ClientRole.Admin \/
     role = ClientRole.Viewer /\ mutating route = false /\ forall i, route <> Route.ClientConnectionKey i) /\
    match mgmt g with
    | Some s => mgmt g' = Some (serve_route (tunnel_ctx (config g)) (rq_env r) (rq_body r) route s).1 /\
        answered o = (serve_route (tunnel_ctx (config g)) (rq_env r) (rq_body r) route s).2 /\
        disconnect o = (if (answered o).1 =? 204 then match route with Route.ClientRevoke i => Some i | _ => None end else None)
    | None => False
    end.
Proof.
  unfold on_mgmt_request. destruct (is_diagnostic _); [by left|].
  destruct (try_claim_slot _ _ _ _) as [t claimed]. destruct claimed; cbn [negb]; [|by left]. rewrite role_throttle.
  set (role := (session_role _ _ g).2). destruct (authorize _ _ _) eqn:A; cbn [negb]; [|by left].
  apply authorize_spec in A as (route & E & Hr). unfold dispatch_mgmt_request, dispatch.
  destruct (mgmt g) as [s|] eqn:Hs.
  2:{ exfalso. assert (Hu : role = ClientRole.User); [|rewrite Hu in Hr; naive_solver].
      unfold role, session_role. cbn [snd]. rewrite Hs. destruct (negb _); [done|]. by destruct (client_id _). }
  cbn [mgmt with_throttle config]. rewrite Hs, E. change (config (with_throttle t g)) with (config g).
  destruct (serve_route _ _ _ _ _) as [s' a] eqn:Es. right. exists route.
  split; [done|]. split; [done|]. unfold revoke_target. rewrite E, Es. done.
Qed.

(** C9: Only the proved device of an administrator changes anything through the tunnel.
    When a request changes the clients, the configuration, the pending changes or the audit
    log, or has a client disconnected, then its session has proved the device key in the
    record of a client, read for this very request, that is live, enabled, not expired and
    an administrator, with a certificate for that key where certificates are asked for. *)
Theorem only_admin_changes r g g' o :
  on_mgmt_request r g = (g', o) -> mgmt g' <> mgmt g \/ disconnect o <> None -> proved_admin r g.
Proof.
  intros E. pose proof (request_cases r g) as H. rewrite E in H.
  destruct H as [[Hm Hd] | (route & _ & Hr & Hs)]; [naive_solver|]. intros Hch.
  destruct Hr as [Hr | (_ & Hw & Hk)]; [by apply role_admin|]. exfalso. destruct (mgmt g) as [s|]; [|done].
  destruct Hs as (Hm & _ & Hd). rewrite serve_reading in Hm by done. destruct Hch as [?|Hch]; [done|].
  apply Hch. rewrite Hd. destruct (_ =? _); [|done]. by destruct route.
Qed.

(** ** Keys *)

Definition set_psk (k : bytes) (c : ClientConfig) : ClientConfig :=
  {| id := id c; name := name c; psk := k; vpn_ip := vpn_ip c; enabled := enabled c;
     created_at := created_at c; stats := stats c; qos := qos c; device_pubkey := device_pubkey c;
     one_time := one_time c; expires_at := expires_at c; updated_at := updated_at c;
     deleted := deleted c; role := role c; exit_node := exit_node c |}.

Definition same_but_psk (a b : ClientConfig) : Prop := set_psk [] a = set_psk [] b.

(** The same clients but for their keys, and the same log. *)
Definition alike (s1 s2 : Mgmt) : Prop :=
  Forall2 same_but_psk (clients (data (db (host s1)))) (clients (data (db (host s2)))) /\ audit_file s1 = audit_file s2.

Lemma psk_fields a b :
  same_but_psk a b ->
  id a = id b /\ deleted a = deleted b /\ enabled a = enabled b /\ expires_at a = expires_at b /\
  device_pubkey a = device_pubkey b /\ role a = role b /\ view_of a = view_of b.
Proof. destruct a, b. unfold same_but_psk, set_psk. cbn. intros [=]. by subst. Qed.

Lemma find_alike i l1 l2 :
  Forall2 same_but_psk l1 l2 ->
  match find (live_id i) l1, find (live_id i) l2 with
  | Some a, Some b => same_but_psk a b
  | None, None => True
  | _, _ => False
  end.
Proof.
  induction 1 as [|a b l1 l2 Hab H IH]; [done|]. cbn. destruct (psk_fields a b Hab) as (E1 & E2 & _).
  assert (live_id i a = live_id i b) as -> by (unfold live_id, has_id; by rewrite E1, E2). by destruct (live_id i b).
Qed.

Lemma list_alike l1 l2 :
  Forall2 same_but_psk l1 l2 ->
  Forall2 same_but_psk (filter (fun c => deleted c = false) l1) (filter (fun c => deleted c = false) l2).
Proof.
  induction 1 as [|a b l1 l2 Hab H IH]; [done|]. rewrite !filter_cons.
  destruct (psk_fields a b Hab) as (_ & E & _). rewrite E. case_decide; [by constructor|done].
Qed.

Lemma views_alike l1 l2 :
  Forall2 same_but_psk l1 l2 ->
  map view_of l1 = map view_of l2 /\ length l1 = length l2 /\
  length (filter (fun c => enabled c = true) l1) = length (filter (fun c => enabled c = true) l2).
Proof.
  induction 1 as [|a b l1 l2 Hab H (IH1 & IH2 & IH3)]; [done|]. destruct (psk_fields a b Hab) as (_ & _ & E & _ & _ & _ & V).
  cbn [map length]. rewrite V, IH1, IH2, !filter_cons, E. split; [done|]. split; [done|]. case_decide; [cbn; by rewrite IH3|done].
Qed.

Lemma reading_alike ctx1 ctx2 env body route s1 s2 :
  alike s1 s2 -> pool ctx1 = pool ctx2 -> audit_log_on ctx1 = audit_log_on ctx2 ->
  mutating route = false -> (forall i, route <> Route.ClientConnectionKey i) ->
  (serve_route ctx1 env body route s1).2 = (serve_route ctx2 env body route s2).2.
Proof.
  intros [Hc Ha] Hp Hl Hm Hk. destruct (views_alike _ _ (list_alike _ _ Hc)) as (V & L & N).
  destruct route; try done; cbn [serve_route snd]; unfold pool_or_none, audit_source; rewrite ?Hp, ?Hl, ?Ha; try done.
  - unfold status, ClientDb.list_clients. by rewrite L, N.
  - unfold list_clients, ClientDb.list_clients. by rewrite V.
  - unfold find_by_id. pose proof (find_alike i _ _ Hc) as Hf.
    destruct (find _ _), (find _ _); try done. by apply psk_fields in Hf as (_ & _ & _ & _ & _ & _ & ->).
  - by destruct (Hk i).
Qed.

Lemma role_alike t x g1 g2 s1 s2 :
  mgmt g1 = Some s1 -> mgmt g2 = Some s2 -> alike s1 s2 -> mtls_required g1 = mtls_required g2 ->
  (session_role t x g1).2 = (session_role t x g2).2.
Proof.
  intros H1 H2 [Hc _] Hm. unfold session_role. cbn [snd]. rewrite H1, H2, Hm. destruct (negb _); [done|].
  destruct (client_id _) as [i|]; [|done]. unfold find_by_id. pose proof (find_alike i _ _ Hc) as Hf.
  destruct (find _ _) as [a|], (find _ _) as [b|]; try done. destruct (psk_fields a b Hf) as (_ & Ed & Ee & Ex & Ek & Er & _).
  unfold speaks_for. by rewrite Ed, Ee, Ex, Ek, Er.
Qed.

(** C31: Nobody but an administrator learns a key. Take two servers that differ at most in
    the keys of their clients, in their files and pending changes and in the keys of the
    server itself. To every request of a session that is not an administrator's both give
    the same answer: the answer depends on no client's pre-shared key and on none of the
    server's. *)
Theorem viewer_learns_no_key r g1 g2 s1 s2 :
  mgmt g1 = Some s1 -> mgmt g2 = Some s2 -> alike s1 s2 ->
  mtls_required g1 = mtls_required g2 -> throttle g1 = throttle g2 ->
  dialer (config g1) = dialer (config g2) -> pool_configured (config g1) = pool_configured (config g2) ->
  audit_log_path (config g1) = audit_log_path (config g2) ->
  (session_role (now (db_sys (rq_env r))) (rq_session r) g1).2 <> ClientRole.Admin ->
  answered (on_mgmt_request r g1).2 = answered (on_mgmt_request r g2).2.
Proof.
  intros H1 H2 Ha Hm Ht Hd Hc Hl Hr. pose proof (role_alike (now (db_sys (rq_env r))) (rq_session r) _ _ _ _ H1 H2 Ha Hm) as Er.
  unfold on_mgmt_request. destruct (is_diagnostic _); [done|]. rewrite Ht. destruct (try_claim_slot _ _ _ _) as [t []]; [|done].
  cbn [negb]. rewrite !role_throttle, <-Er. destruct (authorize _ _ _) eqn:A; [|done]. cbn [negb].
  apply authorize_spec in A as (route & E & [?|(_ & Hw & Hk)]); [done|].
  unfold dispatch_mgmt_request, dispatch. cbn [mgmt with_throttle]. rewrite H1, H2, E.
  assert (Hp : pool (tunnel_ctx (config g1)) = pool (tunnel_ctx (config g2))).
  { cbn [pool tunnel_ctx]. unfold tunnel_pool. by rewrite Hd, Hc. }
  pose proof (reading_alike (tunnel_ctx (config g1)) (tunnel_ctx (config g2)) (rq_env r) (rq_body r) route s1 s2
    Ha Hp Hl Hw Hk) as Hs.
  change (config (with_throttle t g1)) with (config g1). change (config (with_throttle t g2)) with (config g2).
  destruct (serve_route _ _ _ _ s1), (serve_route _ _ _ _ s2). done.
Qed.
End Access.

(** ** No role is given *)

Section Roles.
Context {PR : Primitives} {MP : MorePrimitives} {SD : Serde} {AT : AuditText} {MT : MgmtText} {HI : HashIter} {SL : SerdeLaws}.

(** A record gives the client [i] the role [r]. *)
Definition gives (i : bytes) (r : ClientRole.t) (l : list ClientConfig) : Prop :=
  exists c, c ∈ l /\ id c = i /\ role c = r.

Definition host_gives (i : bytes) (r : ClientRole.t) (h : Host) : Prop :=
  gives i r (clients (data (db h))) \/ exists d, stored (disk h) = Some d /\ gives i r (clients d).

Lemma gives_same i r l l' : Forall2 same_but_stats l' l -> gives i r l' -> gives i r l.
Proof.
  intros H (c & Hc & <- & <-). apply list_elem_of_lookup in Hc as [n Hn].
  destruct (Forall2_lookup_l _ _ _ _ _ H Hn) as (c' & Hn' & Hs). exists c'. split; [by eapply list_elem_of_lookup_2|].
  destruct (same_fields _ _ Hs) as [-> _]. by rewrite (same_role _ _ Hs).
Qed.

Lemma gives_absorbed i r t l mem :
  gives i r (reap_expired_tombstones t (absorb_all l mem)) -> gives i r l \/ gives i r mem.
Proof.
  intros (m & [_ Hm]%list_elem_of_filter & <- & <-). destruct (absorb_any l mem) as [Ha _].
  destruct (Ha m Hm) as (c & Hc & Hs). destruct (same_fields _ _ Hs) as [Ei _]. pose proof (same_role _ _ Hs) as Er.
  destruct Hc as [Hc|Hc]; [left|right]; exists c; auto.
Qed.

(** A transaction gives no role that its body does not give. *)
Lemma mutation_gives {R} (f : ClientDatabase -> method ClientDbFile R) sys h h' x i r :
  with_mutation f sys h = (h', x) -> (forall d, (f (db h) d).2 <> Panic) ->
  (forall d d' y, f (db h) d = (d', Ok y) -> gives i r (clients d') -> gives i r (clients d)) ->
  host_gives i r h' -> host_gives i r h.
Proof.
  intros E Hp Hf. apply transaction_cases in E as (_ & _ & E); [|done]. unfold host_gives.
  assert (Hr : forall d0 rb, stored (disk h) = Some d0 ->
    clients rb = reap_expired_tombstones (now sys) (absorb_all (clients d0) (clients (data (db h)))) ->
    gives i r (clients rb) -> host_gives i r h).
  { intros d0 rb Hd -> [?|?]%gives_absorbed; [right; by exists d0|by left]. }
  destruct x as [y|e|]; [| |done].
  - destruct E as (d0 & rb & Hd & Hrb & Ef & Es). intros [Hg|(d & Hs & Hg)]; [|rewrite Es in Hs; injection Hs as <-];
      by eapply Hr, Hf.
  - destruct E as (Hdisk & Hmem). rewrite Hdisk. intros [Hg|Hg]; [|by right].
    destruct Hmem as [<-|(d0 & Hd & Hsame)]; [by left|]. apply (gives_same _ _ _ _ Hsame) in Hg.
    apply gives_absorbed in Hg as [?|?]; [right; by exists d0|by left].
Qed.

Lemma gives_update i r p f l :
  (forall c, id (f c) = id c /\ (role (f c) = role c \/ role (f c) = ClientRole.User)) -> r <> ClientRole.User ->
  gives i r (update_first p f l) -> gives i r l.
Proof.
  intros Hf Hr (c & Hc & Hi & Hrole). apply elem_of_update_first in Hc as [Hc|(y & Hy & _ & ->)]; [by exists c|].
  destruct (Hf y) as [Ei Er]. exists y. split; [done|]. split; [congruence|]. destruct Er; congruence.
Qed.

Lemma gives_push i r c l : role c = ClientRole.User -> r <> ClientRole.User -> gives i r (l ++ [c]) -> gives i r l.
Proof.
  intros Hc Hr (x & [Hx|Hx%list_elem_of_singleton]%elem_of_app & Hi & Hrole); [by exists x|]. subst x. congruence.
Qed.

Lemma audit_host ctx env what t res s : host (audit ctx env what t res s) = host s.
Proof. unfold audit. by destruct (_ && _). Qed.

Lemma add_host ctx env args s :
  host (add_client ctx env args s).1 = host s \/
  host (add_client ctx env args s).1 = (add_client_with_options (ac_name args) (ac_options args) (draw env) (db_sys env) (host s)).1.
Proof.
  unfold add_client. destruct (negb _); [by left|]. right.
  destruct (add_client_with_options _ _ _ _ _) as [h []]; cbn; by rewrite ?audit_host.
Qed.

Lemma update_host ctx env i p s :
  host (update_client ctx env i p s).1 = host s \/
  host (update_client ctx env i p s).1 = (with_mutation (edit_client i p (now (db_sys env))) (db_sys env) (host s)).1.
Proof.
  unfold update_client. destruct (match up_name p with Some _ => _ | None => _ end); [by left|].
  unfold ClientDb.update_client, mbind, mlift.
  destruct (match up_name p with Some _ => _ | None => _ end) as [[]|e|]; [|left; cbn; by rewrite audit_host|by left].
  destruct (match up_exit_node p with Some _ => _ | None => _ end) as [[]|e|]; [|left; cbn; by rewrite audit_host|by left].
  right. destruct (with_mutation _ _ _) as [h []]; cbn; by rewrite ?audit_host.
Qed.

Lemma on_client_host ctx env what call i s :
  host (on_client ctx env what call i s).1 = (call i (db_sys env) (host s)).1.
Proof. unfold on_client. destruct (call _ _ _) as [h []]; cbn; by rewrite ?audit_host. Qed.

Lemma apply_host ctx env setting s : host (apply_heavy ctx env setting s).1 = host s.
Proof.
  unfold apply_heavy. destruct (negb _); [done|]. destruct (resolve_heavy_setting _ _ _ _); [|cbn; by rewrite audit_host].
  destruct (apply_resolved _ _ _ _ _ _ _) as [fm []]; cbn; [by rewrite audit_host|]. destruct (negb _); [done|]. by rewrite audit_host.
Qed.

Lemma confirm_host ctx env t s : host (confirm_config ctx env t s).1 = host s.
Proof.
  unfold confirm_config. destruct (negb _); [done|]. destruct (confirm_and_take _ _ _) as [m []]; cbn; by rewrite audit_host.
Qed.

Lemma forget_no_panic {S A} (m : method S A) x : (forget m x).2 <> Panic -> (m x).2 <> Panic.
Proof. unfold forget. by destruct (m x) as [? []]. Qed.

Lemma insert_gives n o dr t dbs d d' c i r :
  insert_with_options n o dr t dbs d = (d', Ok c) -> r <> ClientRole.User ->
  gives i r (clients d') -> gives i r (clients d).
Proof.
  unfold insert_with_options. destruct (bool_decide_reflect (co_role o = ClientRole.User)) as [Ho|]; [|done]. cbn [negb].
  destruct (insert_client _ _ _ _ _ _ _) as [d1 [c1| |]] eqn:E; [|done..]. intros [= <- _] Hr.
  apply insert_shape in E as (E & _). cbn [with_clients clients]. rewrite E, update_last_snoc. by apply gives_push.
Qed.

Lemma edit_gives j p t dbs d d' c i r :
  edit_client j p t dbs d = (d', Ok c) -> up_role p = None -> r <> ClientRole.User ->
  gives i r (clients d') -> gives i r (clients d).
Proof.
  unfold edit_client. cbv zeta. match goal with |- context [if ?b then _ else _] => destruct b end; [done|].
  destruct (find _ _); [|done]. destruct (_ && _); [done|]. intros [= <- _] Hp Hr. apply gives_update; [|done].
  intros x. split; [done|]. left. cbn. by rewrite Hp.
Qed.

Lemma on_client_gives (body : bytes -> Z -> ClientDatabase -> method ClientDbFile unit) e j sys h i r :
  (forall t dbs d, body j t dbs d = edit_body e t dbs d) ->
  (forall t dbs d d', body j t dbs d = (d', Ok tt) -> gives i r (clients d') -> gives i r (clients d)) ->
  host_gives i r (with_mutation (body j (now sys)) sys h).1 -> host_gives i r h.
Proof.
  intros He Hg. destruct (with_mutation _ _ _) as [h' x] eqn:E. cbn [fst]. eapply mutation_gives; [done| |].
  - intros d. rewrite He. apply edit_body_no_panic.
  - intros d d' []. apply Hg.
Qed.

Lemma bury_gives j t dbs d d' i r :
  bury j t dbs d = (d', Ok tt) -> r <> ClientRole.User -> gives i r (clients d') -> gives i r (clients d).
Proof.
  unfold bury. destruct (find _ _); [|done]. intros [= <-] Hr. apply gives_update; [|done]. intros x. split; [done|by left].
Qed.

Lemma unbind_gives j t dbs d d' i r :
  unbind_device j t dbs d = (d', Ok tt) -> r <> ClientRole.User -> gives i r (clients d') -> gives i r (clients d).
Proof.
  unfold unbind_device. destruct (find _ _); [|done]. intros [= <-] Hr. apply gives_update; [|done]. intros x. split; [done|by right].
Qed.

(** No route gives a role. *)
Lemma serve_gives ctx env body route s i r :
  r <> ClientRole.User -> host_gives i r (host (serve_route ctx env body route s).1) -> host_gives i r (host s).
Proof.
  intros Hr. destruct (mutating route) eqn:Hm; [|by rewrite serve_reading].
  destruct route; try done; cbn [serve_route]; unfold with_body, then_answer;
    cbn [fst].
  - destruct (add_request body) as [q|]; [|done]. cbn [fst]. destruct (add_host ctx env (add_args q) s) as [-> | ->]; [done|].
    unfold add_client_with_options. destruct (with_mutation _ _ _) as [h x] eqn:E. cbn [fst]. eapply mutation_gives; [done| |].
    + intros d. apply forget_no_panic. exact (edit_body_no_panic (InsertWith _ _ _) _ _ d).
    + intros d d' y Ei. by eapply insert_gives.
  - destruct (patch_request body) as [q|]; [|done]. cbn [fst].
    destruct (update_host ctx env i0 (patch_params q) s) as [-> | ->]; [done|].
    destruct (with_mutation _ _ _) as [h x] eqn:E. cbn [fst]. eapply mutation_gives; [done| |].
    + intros d. apply forget_no_panic. exact (edit_body_no_panic (Update _ _) _ _ d).
    + intros d d' y Ei. by eapply edit_gives.
  - unfold remove_client. rewrite on_client_host. apply (on_client_gives bury (Remove i0)); [done|]. intros. by eapply bury_gives.
  - unfold reset_device. rewrite on_client_host. apply (on_client_gives unbind_device (ResetDevice i0)); [done|].
    intros. by eapply unbind_gives.
  - unfold revoke. rewrite on_client_host. apply (on_client_gives bury (Remove i0)); [done|]. intros. by eapply bury_gives.
  - destruct (apply_request body); [|done]. cbn [fst]. by rewrite apply_host.
  - destruct (confirm_request body); [|done]. cbn [fst]. by rewrite confirm_host.
Qed.

(** A run of requests, of any sessions. *)
Definition run_requests (g : Gateway) (l : list Request) : Gateway := fold_left (fun g r => (on_mgmt_request r g).1) l g.

Definition gateway_gives (i : bytes) (r : ClientRole.t) (g : Gateway) : Prop :=
  exists s, mgmt g = Some s /\ host_gives i r (host s).

Lemma request_gives r g i role : role <> ClientRole.User -> gateway_gives i role (on_mgmt_request r g).1 -> gateway_gives i role g.
Proof.
  intros Hr (s' & Hs' & Hg). pose proof (request_cases r g) as H. destruct (on_mgmt_request r g) as [g' o]. cbn [fst] in Hs'.
  destruct H as [[Hm _] | (route & _ & _ & H)]; [exists s'; by rewrite <-Hm|].
  destruct (mgmt g) as [s|] eqn:Hs; [|done]. destruct H as (Hm & _). rewrite Hs' in Hm. injection Hm as ->.
  exists s. split; [done|]. by eapply serve_gives.
Qed.

(** C19: No role is given through the tunnel. After any run of requests, of any sessions,
    administrators' included, and with any failures of the disk, a client that has the
    role of a viewer or of an administrator, in memory or on the file, had that very role
    in memory or on the file before the run. *)
Theorem no_role_given g l i role :
  role <> ClientRole.User -> gateway_gives i role (run_requests g l) -> gateway_gives i role g.
Proof.
  intros Hr. revert g. induction l as [|r l IH]; intros g; [done|]. cbn [run_requests fold_left].
  intros H%IH. by eapply request_gives.
Qed.
End Roles.

(** ** Revoking *)

Section Revoking.
Context {PR : Primitives} {MP : MorePrimitives} {SD : Serde} {AT : AuditText} {MT : MgmtText} {HI : HashIter} {SL : SerdeLaws}.

(** An answer without content is one of the service. *)
Lemma answered_204 r g g' o route :
  on_mgmt_request r g = (g', o) -> (answered o).1 = 204 -> classify_route (rq_method r) (rq_path r) = Some route ->
  exists s, mgmt g = Some s /\ mgmt g' = Some (serve_route (tunnel_ctx (config g)) (rq_env r) (rq_body r) route s).1 /\
    answered o = (serve_route (tunnel_ctx (config g)) (rq_env r) (rq_body r) route s).2 /\
    disconnect o = revoke_target (rq_method r) (rq_path r).
Proof.
  intros E H4 Hc. unfold on_mgmt_request in E. destruct (is_diagnostic _).
  { exfalso. injection E as <- <-. revert H4. cbn [answered]. unfold on_diagnostic, diagnostic_response.
    repeat (case_match; try done). all: cbn; intros; simplify_eq; done. }
  destruct (try_claim_slot _ _ _ _) as [t []]; cbn [negb] in E; [|by injection E as <- <-].
  destruct (authorize _ _ _); cbn [negb] in E; [|by injection E as <- <-]. unfold dispatch_mgmt_request, dispatch in E.
  cbn [mgmt with_throttle] in E. destruct (mgmt g) as [s|]; [|by injection E as <- <-]. rewrite Hc in E. exists s.
  change (config (with_throttle t g)) with (config g) in E.
  destruct (serve_route _ _ _ _ _) as [s' a]. injection E as <- <-. cbn in *. by rewrite H4.
Qed.

Lemma revoke_204 ctx env i s :
  (then_answer no_content (revoke ctx env i s)).2.1 = 204 ->
  ClientDb.remove_client i (db_sys env) (host s) = (host (revoke ctx env i s).1, Ok tt).
Proof.
  unfold then_answer, revoke. pose proof (on_client_host ctx env "ClientRevoke" ClientDb.remove_client i s) as Eh.
  rewrite Eh. unfold on_client. destruct (ClientDb.remove_client i (db_sys env) (host s)) as [h [[]| |]]; done.
Qed.

Lemma role_unknown t x i g s :
  mgmt g = Some s -> client_id x = Some i -> find_by_id i (host s) = None -> (session_role t x g).2 = ClientRole.User.
Proof.
  intros Hs Hi Hf. unfold session_role. cbn [snd]. destruct (negb _); [done|]. cbn [client_id refresh_mtls_gate with_mtls].
  by rewrite Hi, Hs, Hf.
Qed.

End Revoking.

(** ** The throttle *)

(** Claims of one table, in their order: the times at which a session got its slot. *)
Fixpoint granted (sid : bytes) (window : Z) (t : gmap bytes Z) (calls : list (bytes * Z)) : list Z :=
  match calls with
  | [] => []
  | (x, n) :: calls =>
      let '(t', ok) := try_claim_slot t x n window in
      (if ok && bool_decide (x = sid) then [n] else []) ++ granted sid window t' calls
  end.

Lemma granted_after sid window t calls last :
  0 < window -> t !! sid = Some last -> Forall (fun n => last + window <= n) (granted sid window t calls).
Proof.
  intros Hw. revert t last. induction calls as [|[x n] calls IH]; intros t last Ht; [constructor|]. cbn [granted].
  unfold try_claim_slot. destruct (decide (x = sid)) as [->|Hne].
  - rewrite Ht. unfold throttled, sat_sub. destruct (Z.ltb_spec (Z.max 0 (n - last)) window) as [Hlt|Hge].
    + cbn. by apply IH.
    + cbn. rewrite bool_decide_eq_true_2 by done. cbn. apply Forall_cons. split; [lia|].
      eapply Forall_impl; [apply (IH _ n); apply lookup_insert_eq|]. cbn. lia.
  - destruct (t !! x); [destruct (throttled _ _ _)|]; rewrite ?(bool_decide_eq_false_2 (x = sid)) by done;
      cbn; apply IH; try done; by rewrite lookup_insert_ne.
Qed.

(** A session is served at most once in each window: whatever requests all sessions
    send and whatever times they are read at, the times at which one session gets its slot
    of the throttle are at least one window apart. *)
Theorem slots_apart sid window t calls :
  0 < window -> StronglySorted (fun a b => a + window <= b) (granted sid window t calls).
Proof.
  intros Hw. revert t. induction calls as [|[x n] calls IH]; intros t; [constructor|]. cbn [granted].
  destruct (try_claim_slot t x n window) as [t' ok] eqn:E. destruct ok; [|apply IH].
  destruct (bool_decide_reflect (x = sid)) as [->|]; [|apply IH]. cbn. constructor; [apply IH|].
  apply granted_after; [done|]. unfold try_claim_slot in E. destruct (t !! sid); [destruct (throttled _ _ _); [done|]|];
    injection E as <-; apply lookup_insert_eq.
Qed.

(** ** The exit node *)

Section ExitNode.
Context {PR : Primitives} {MP : MorePrimitives} {SD : Serde} {AT : AuditText} {MT : MgmtText} {HI : HashIter}.

(** The exit node of the server cannot be set through the tunnel. A request that names
    one is answered with 400 when the address is malformed and with 503 otherwise, for
    every administrator, and leaves clients, files and pending changes as they are. *)
Theorem tunnel_exit_node_refused cfg env body s q addr :
  apply_request body = Some q -> tr_exit_node q = Some addr ->
  let '(s', a) := serve_route (tunnel_ctx cfg) env body Route.ConfigApply s in
  host s' = host s /\ files s' = files s /\ pending s' = pending s /\ (a.1 = 503 \/ a.1 = 400).
Proof.
  intros Hq Ha. cbn [serve_route]. unfold with_body, then_answer. rewrite Hq. unfold apply_setting. rewrite Ha.
  unfold apply_heavy. cbn [pending_on tunnel_ctx negb resolve_heavy_setting config_path].
  assert (Hv : match addr with Some x => validate_exit_node_addr x | None => Ok tt end <> Panic).
  { destruct addr; [|done]. unfold validate_exit_node_addr. repeat (case_match; try done). }
  destruct (match addr with Some x => validate_exit_node_addr x | None => Ok tt end) as [[]|e|]; [| |done];
    cbn; unfold audit; destruct (_ && _); cbn; auto.
Qed.
End ExitNode.

(** ** A sample: an administrator, a viewer and a user *)

Section Sample.
#[local] Existing Instance toy_primitives.
#[local] Existing Instance ordered_iter.

Definition person (i : Z) (key : option bytes) (r : ClientRole.t) (secret : Z) : ClientConfig := {|
  id := [i]; name := [i]; psk := replicate 32 secret; vpn_ip := ipv4_new 10 0 0 i; enabled := true;
  created_at := 0; stats := no_stats; qos := None; device_pubkey := key; one_time := false;
  expires_at := None; updated_at := Some 0; deleted := false; role := r; exit_node := None |}.

Definition ann (secret : Z) : ClientConfig := person 97 (Some [1]) ClientRole.Admin secret.
Definition vic (secret : Z) : ClientConfig := person 118 (Some [2]) ClientRole.Viewer secret.
Definition bob (secret : Z) : ClientConfig := person 98 (Some [3]) ClientRole.User secret.

Definition people (secret : Z) : ClientDbFile :=
  {| clients := [ann secret; vic secret; bob secret]; next_host_offset := 3 |}.
Definition without_bob : ClientDbFile :=
  {| clients := [ann 5; vic 5; tombstone 1000 (bob 5)]; next_host_offset := 3 |}.

#[local] Instance people_serde : Serde := table_serde [people 5; without_bob] [[bob 5]].
#[local] Instance people_laws : SerdeLaws := table_laws _ _.
#[local] Instance people_audit : AuditText := table_audit [].
#[local] Instance people_primitives : MorePrimitives :=
  {| blake3_xof := fun m n => zeros (Z.to_nat n); ed25519_verifying_key := fun k => k |}.

(** Views are written as the names in them; the body of a request is the exit node to set. *)
#[local] Instance people_text : MgmtText := {|
  add_request := fun _ => None; patch_request := fun _ => None;
  apply_request := fun b => Some {| tr_client := None; tr_mask := None; tr_exit_node := Some (Some b) |};
  confirm_request := fun b => Some b;
  status_text := fun v => Some [clients_total v]; client_text := fun v => Some (cv_name v);
  clients_text := fun l => Some (concat (map cv_name l)); connection_text := fun k => Some k;
  apply_text := fun v => Some (ar_token v); entries_text := fun l => None; verify_text := fun v => None;
  nodes_text := fun l => Some []; health_text := fun h => Some []; links_text := fun l => Some []; masks_text := fun l => Some [];
  error_text := fun e => Some (code e); key_text := fun k => Some (k_psk k); base64_url := fun b => b;
  json_from_str := fun b => Some (JObject [(str_bytes "mode", JString b)]);
  json_to_string_pretty := fun v => match v with JObject l => Some (concat (map fst l)) | _ => None end; alphanumeric := fun _ => false |}.

Definition people_host (secret : Z) : Host :=
  {| db := {| data := people secret; network_config := default_vpn_network_config; partition := None; last_mtime := None |};
     disk := Some {| text := [65]; modified := 0 |} |}.

Definition people_state (secret : Z) : Mgmt :=
  {| host := people_host secret; files := ∅; pending := ∅; audit_file := None |}.

Definition people_gate (secret : Z) : Gateway :=
  {| mtls_required := false;
     config := {| server_private_key := zeros 31 ++ [secret]; mgmt_server_addr := Some [8]; operator_pubkey := None;
                  logger_on := false; masks_at := [9]; audit_log_path := false; dialer := None; pool_configured := false |};
     mgmt := Some (people_state secret);
     throttle := ∅ |}.

Definition sample_env (t : Z) (disk_ok : bool) : Env :=
  {| db_sys := {| now := t; ClientDb.lock_ok := true; ClientDb.read_ok := true; ClientDb.write_ok := disk_ok; write_time := t |};
     draw := {| draw_id := []; draw_psk := [] |}; file_io := PendingConfig.good_io; token_draw := [3]; instant := t;
     log_io := good None; file_exists := fun _ => false; config_readable := true; kernel_loaded := false; mask_files := [] |}.

Definition sample_request (who : Z) (key : option bytes) (t : Z) (method : Z) (path : string) : Request :=
  {| rq_session := {| session_id := [who]; client_id := Some [who]; verified_device_pub := key; mtls_cert := None;
                      mtls_ok := true; is_pool_peer := false; is_site := false; client_admitted := true |};
     rq_env := sample_env t true; rq_budget := true; rq_method := method; rq_path := str_bytes path; rq_body := [] |}.

Definition revoke_bob : Request := sample_request 97 (Some [1]) 1000 1 "/api/v1/clients/b/revoke".

Definition after_revoke : Gateway := (on_mgmt_request revoke_bob (people_gate 5)).1.


Definition revoke_done : Outcome := {| answered := (204, []); disconnect := Some [98] |}.

Lemma only_admin_changes_witness :
  (on_mgmt_request revoke_bob (people_gate 5)).2 = revoke_done /\
  proved_admin revoke_bob (people_gate 5).
Proof.
  split; [by vm_compute|].
  apply (only_admin_changes revoke_bob (people_gate 5) after_revoke revoke_done);
    [by vm_compute|by right].
Defined.

Definition list_people : Request := sample_request 118 (Some [2]) 1000 0 "/api/v1/clients".
Definition ask_key : Request := sample_request 118 (Some [2]) 1000 0 "/api/v1/clients/b/connection-key".

Lemma viewer_learns_no_key_witness :
  (answered (on_mgmt_request list_people (people_gate 5)).2).1 = 200 /\
  answered (on_mgmt_request list_people (people_gate 5)).2 = answered (on_mgmt_request list_people (people_gate 6)).2 /\
  answered (on_mgmt_request ask_key (people_gate 5)).2 = answered (on_mgmt_request ask_key (people_gate 6)).2.
Proof.
  assert (H : alike (people_state 5) (people_state 6)).
  { split; [|done]. cbn. apply Forall2_cons. split; [by vm_compute|]. apply Forall2_cons. split; [by vm_compute|].
    apply Forall2_cons. split; [by vm_compute|]. apply Forall2_nil_2. }
  split; [by vm_compute|]. split.
  - apply (viewer_learns_no_key list_people (people_gate 5) (people_gate 6) (people_state 5) (people_state 6) eq_refl eq_refl H);
      [done..|by vm_compute].
  - apply (viewer_learns_no_key ask_key (people_gate 5) (people_gate 6) (people_state 5) (people_state 6) eq_refl eq_refl H);
      [done..|by vm_compute].
Defined.

Lemma no_role_given_witness :
  gateway_gives [97] ClientRole.Admin (run_requests (people_gate 5) [list_people; revoke_bob]) /\
  gateway_gives [97] ClientRole.Admin (people_gate 5).
Proof.
  assert (H : gateway_gives [97] ClientRole.Admin (run_requests (people_gate 5) [list_people; revoke_bob])).
  { eexists. split; [by vm_compute|]. left. exists (ann 5). split; [|done]. vm_compute. left. }
  split; [exact H|]. by apply (no_role_given (people_gate 5) [list_people; revoke_bob] [97] ClientRole.Admin).
Defined.

Lemma people_ok : host_ok (fun _ => True) (people_host 5).
Proof.
  split; [vm_compute; by split_and!|].
  exists (people 5). split; [by vm_compute|]. split.
  { constructor; [repeat constructor; by vm_compute|].
    intros c Hc Hd. cbn in Hc. rewrite !elem_of_cons, elem_of_nil in Hc. destruct Hc as [->|[->|[->|[]]]]; by vm_compute. }
  split; [done|]. apply mirrors_refl. apply (bool_decide_eq_true_1 _). by vm_compute.
Qed.

Definition as_bob : Request := sample_request 98 (Some [3]) 5000 0 "/api/v1/clients".

Definition left_over : Mgmt := {|
  host := {| db := {| data := without_bob; network_config := default_vpn_network_config;
                      partition := None; last_mtime := Some 1000 |};
             disk := Some {| text := [65; 65]; modified := 1000 |} |};
  files := ∅; pending := ∅; audit_file := None |}.

(** Another node's copy, in which the client is live, comes in. *)
Definition stale_copy : list (Call * System) := [(Merged [65], db_sys (sample_env 4000 true))].

Definition after_merge : Gateway := with_mgmt (Some (with_host (serve (host left_over) stale_copy) left_over)) after_revoke.


Lemma slots_apart_witness :
  granted [1] MGMT_THROTTLE ∅ [([1], 5); ([1], 6); ([2], 7); ([1], MGMT_THROTTLE + 5)] = [5; MGMT_THROTTLE + 5] /\
  StronglySorted (fun a b => a + MGMT_THROTTLE <= b)
    (granted [1] MGMT_THROTTLE ∅ [([1], 5); ([1], 6); ([2], 7); ([1], MGMT_THROTTLE + 5)]).
Proof. split; [by vm_compute|]. by apply (slots_apart [1] MGMT_THROTTLE ∅). Defined.

Lemma tunnel_exit_node_refused_witness :
  let '(s', a) := serve_route (tunnel_ctx (config (people_gate 5))) (sample_env 0 true) (str_bytes "exit:51820")
    Route.ConfigApply (people_state 5) in
  host s' = people_host 5 /\ files s' = ∅ /\ pending s' = ∅ /\ (a.1 = 503 \/ a.1 = 400).
Proof.
  by apply (tunnel_exit_node_refused (config (people_gate 5)) (sample_env 0 true) (str_bytes "exit:51820") (people_state 5)
    {| tr_client := None; tr_mask := None; tr_exit_node := Some (Some (str_bytes "exit:51820")) |} (Some (str_bytes "exit:51820"))).
Defined.

Definition file_ctx : MgmtCtx :=
  {| server_pub_key := None; server_addr := None; server_signing_pubkey := None; mask_operator_pubkey := None;
     audit_on := false; mask_dir := [9]; config_path := Some [47]; audit_log_on := false; pending_on := true; pool := None |}.
Definition file_state : Mgmt := {| host := people_host 5; files := {[ [47] := [68] ]}; pending := ∅; audit_file := None |}.
Definition new_exit : ResolvedHeavyWrite :=
  {| rw_target_path := [47]; rw_new_content := str_bytes "modepool";
     rw_descriptor := str_bytes "global exit node: " ++ str_bytes "exit:51820" |}.

Lemma exit_node_edit_exact_witness :
  exists content v v',
    config_path file_ctx = Some [47] /\ files file_state !! [47] = Some content /\
    json_from_str content = Some v /\ json_to_string_pretty v' = Some (str_bytes "modepool") /\
    pool_member (str_bytes "exit_node") v' = JString <$> Some (str_bytes "exit:51820") /\
    (forall k, k <> str_bytes "exit_node" -> pool_member k v' = pool_member k v) /\
    (forall k, k <> str_bytes "pool" -> member k v' = member k v).
Proof.
  apply (exit_node_edit_exact file_ctx (sample_env 0 true) (Some (str_bytes "exit:51820")) file_state new_exit).
  by vm_compute.
Defined.

(** The system while another process holds the lock of the database. *)
Definition locked_env : Env :=
  {| db_sys := {| now := 1000; ClientDb.lock_ok := false; ClientDb.read_ok := true; ClientDb.write_ok := true; write_time := 0 |};
     draw := {| draw_id := []; draw_psk := [] |}; file_io := PendingConfig.good_io; token_draw := [3]; instant := 1000;
     log_io := good None; file_exists := fun _ => false; config_readable := true; kernel_loaded := false; mask_files := [] |}.

Lemma failed_revocation_hidden_witness :
  let '(s', a) := serve_route file_ctx locked_env [] (Route.ClientRevoke [98]) (people_state 5) in
  find_by_id [98] (host s') = Some (bob 5) /\ a = err_response MgmtError.NotFound /\ a.1 = 404.
Proof.
  assert (find_by_id [98] (host (people_state 5)) = Some (bob 5)) as Hf by by vm_compute.
  apply (failed_revocation_hidden file_ctx locked_env [] [98] (people_state 5) (bob 5) Hf eq_refl).
Defined.
End Sample.
