(* ===== verification/IpPacket.v ===== *)
(** * IP packets

    [ip_packet.rs]: the length and the addresses of a packet inside the tunnel, and the
    [flow] of [flow_queue.rs] that tells apart the connections it belongs to. The theorems:
    no bytes make the parser index out of range, what it accepts is a whole packet with at
    most zeros behind it, and what lies behind the packet does not matter. *)

From S2P Require Import Prelude IpAddr.
Local Open Scope Z_scope.

Record IpPacket : Type := {
  ip_source : IpAddr;
  ip_destination : IpAddr;
  ip_length : Z;
}.

(** [IpPacket::parse]; [Some] and [None] are its results, [Panic] an index out of range. *)
Definition parse_v4 (bytes : bytes) : outcome (option IpPacket) :=
  let! b0 := idx bytes 0 in
  let header_len := Z.land b0 15 * 4 in
  let! length := be_at 2 bytes 2 in
  if (header_len <? 20) || (length <? header_len) then Ok None
  else
  let! src := slice bytes 12 16 in
  let! dst := slice bytes 16 20 in
  Ok (Some {| ip_source := V4 (from_be src); ip_destination := V4 (from_be dst); ip_length := length |}).

Definition parse_v6 (bytes : bytes) : outcome (option IpPacket) :=
  let! payload := be_at 2 bytes 4 in
  let! next := idx bytes 6 in
  if (payload =? 0) && negb (next =? 59) then Ok None
  else
  let! src := slice bytes 8 24 in
  let! dst := slice bytes 24 40 in
  Ok (Some {| ip_source := V6 (ipv6_from_octets src); ip_destination := V6 (ipv6_from_octets dst);
              ip_length := 40 + payload |}).

Definition parse (bytes : bytes) : outcome (option IpPacket) :=
  match bytes with
  | [] => Ok None
  | b0 :: _ =>
      let version := Z.shiftr b0 4 in
      let! packet :=
        if (version =? 4) && (20 <=? len bytes) then parse_v4 bytes
        else if (version =? 6) && (40 <=? len bytes) then parse_v6 bytes
        else Ok None in
      match packet with
      | None => Ok None
      | Some p =>
          if len bytes <? ip_length p then Ok None
          else
          let! tail := slice_from bytes (ip_length p) in
          if existsb (fun b => negb (b =? 0)) tail then Ok None else Ok (Some p)
      end
  end.

(** [destination_shard]: which of [count] queues takes the packet. *)
Definition destination_shard (p : IpPacket) (count : Z) : Z :=
  match ip_destination p with V4 a => a | V6 a => a end mod Z.max 1 count.

(** ** Flows *)

Record Flow : Type := {
  f_source : IpAddr;
  f_destination : IpAddr;
  f_protocol : Z;
  f_ports : bytes;
}.

#[global] Instance Flow_eq_dec : EqDecision Flow.
Proof. solve_decision. Defined.

#[global] Instance Flow_countable : Countable Flow.
Proof.
  refine (inj_countable' (fun f => (f_source f, f_destination f, f_protocol f, f_ports f))
    (fun '(s, d, p, o) => {| f_source := s; f_destination := d; f_protocol := p; f_ports := o |}) _);
    by intros [].
Defined.

Definition flow (packet : bytes) : outcome (option Flow) :=
  let! parsed := parse packet in
  match parsed with
  | None => Ok None
  | Some ip =>
      let! b0 := idx packet 0 in
      let! at_ports :=
        if Z.shiftr b0 4 =? 4 then
          let! protocol := idx packet 9 in
          let! fragment := be_at 2 packet 6 in
          Ok (protocol, Z.land b0 15 * 4, negb (Z.land fragment 16383 =? 0))
        else
          let! protocol := idx packet 6 in
          Ok (protocol, 40, false) in
      let '(protocol, offset, fragmented) := at_ports in
      let! ports :=
        if negb fragmented && ((protocol =? 6) || (protocol =? 17)) && (offset + 4 <=? ip_length ip)
        then slice packet offset (offset + 4)
        else if negb fragmented && ((protocol =? 1) || (protocol =? 58)) && (offset + 8 <=? ip_length ip)
        then let! id := slice packet (offset + 4) (offset + 6) in Ok (id ++ [0; 0])
        else Ok [0; 0; 0; 0] in
      Ok (Some {| f_source := ip_source ip; f_destination := ip_destination ip; f_protocol := protocol; f_ports := ports |})
  end.

(** ** What the parser accepts *)

Definition packet_ok (l : bytes) (p : IpPacket) : Prop :=
  20 <= ip_length p <= len l /\ ip_ok (ip_source p) /\ ip_ok (ip_destination p).

Definition maybe (P : IpPacket -> Prop) (o : option IpPacket) : Prop := match o with Some p => P p | None => True end.

Lemma from_be_u32 l : bytes_ok l -> len l = 4 -> u32_ok (from_be l).
Proof. intros Hb Hl. pose proof (from_be_bound l Hb) as H. rewrite Hl in H. exact H. Qed.

Lemma parse_v4_safe l : bytes_ok l -> 20 <= len l ->
  safe (parse_v4 l) (maybe (fun p => 20 <= ip_length p /\ ip_ok (ip_source p) /\ ip_ok (ip_destination p))).
Proof.
  intros Hb Hl. unfold parse_v4. repeat safe_step; try exact I.
  all: cbn; split_and!; try lia; apply from_be_u32; try done; lia.
Qed.

Lemma parse_v6_safe l : bytes_ok l -> 40 <= len l ->
  safe (parse_v6 l) (maybe (fun p => 40 <= ip_length p /\ ip_ok (ip_source p) /\ ip_ok (ip_destination p))).
Proof.
  intros Hb Hl. unfold parse_v6. repeat safe_step; try exact I.
  all: cbn; split_and!; try lia; apply ipv6_from_octets_ok; try done; lia.
Qed.

(** Reads in front of a cut do not see what is behind it. *)
Lemma idx_within a b i : 0 <= i < len a -> idx (a ++ b) i = idx a i.
Proof. apply idx_app_l. Qed.

Lemma slice_within a b i j : 0 <= i <= j -> j <= len a -> slice (a ++ b) i j = slice a i j.
Proof.
  intros Hi Hj. unfold slice.
  rewrite (proj2 (Z.leb_le j (len (a ++ b)))) by (rewrite length_app; lia). rewrite (proj2 (Z.leb_le j (len a))) by lia.
  destruct (_ && true); [|done]. rewrite drop_app_le by lia. by rewrite take_app_le by (rewrite length_drop; lia).
Qed.

Lemma be_at_within n a b i : 0 <= i -> i + Z.of_nat n <= len a -> be_at n (a ++ b) i = be_at n a i.
Proof. intros Hi Hj. unfold be_at. by rewrite slice_within by lia. Qed.

Lemma parse_v4_within a b : 20 <= len a -> parse_v4 (a ++ b) = parse_v4 a.
Proof.
  intros Ha. unfold parse_v4. rewrite idx_within, be_at_within by lia.
  destruct (idx a 0) as [b0| |]; cbn [obind]; [|done..]. destruct (be_at 2 a 2) as [n| |]; cbn [obind]; [|done..].
  by rewrite !slice_within by lia.
Qed.

Lemma parse_v6_within a b : 40 <= len a -> parse_v6 (a ++ b) = parse_v6 a.
Proof. intros Ha. unfold parse_v6. by rewrite be_at_within, idx_within, !slice_within by lia. Qed.

Lemma tail_zeros l : existsb (fun b => negb (b =? 0)) l = false <-> l = zeros (length l).
Proof.
  induction l as [|b l IH]; [done|]. cbn. rewrite orb_false_iff, IH, negb_false_iff, Z.eqb_eq.
  split; [intros [-> E]; unfold zeros; cbn; by f_equal|by intros [= ? ?]].
Qed.

Definition body (bytes : bytes) : outcome (option IpPacket) :=
  if (Z.shiftr (default 0 (head bytes)) 4 =? 4) && (20 <=? len bytes) then parse_v4 bytes
  else if (Z.shiftr (default 0 (head bytes)) 4 =? 6) && (40 <=? len bytes) then parse_v6 bytes
  else Ok None.

Definition cut (bytes : bytes) (packet : option IpPacket) : outcome (option IpPacket) :=
  match packet with
  | None => Ok None
  | Some p =>
      if len bytes <? ip_length p then Ok None
      else
      let! tail := slice_from bytes (ip_length p) in
      if existsb (fun b => negb (b =? 0)) tail then Ok None else Ok (Some p)
  end.

Lemma parse_body l : parse l = let! p := body l in cut l p.
Proof. by destruct l. Qed.

Lemma body_safe l : bytes_ok l ->
  safe (body l) (maybe (fun p => 20 <= ip_length p /\ ip_ok (ip_source p) /\ ip_ok (ip_destination p))).
Proof.
  intros Hb. unfold body.
  safe_step; [apply parse_v4_safe; [done|lia]|]. safe_step; [|exact I].
  eapply safe_mono; [apply parse_v6_safe; [done|lia]|]. intros [p|]; cbn; [intros (? & ?); split; [lia|done]|done].
Qed.

(** No bytes make the parser panic; what it accepts is a packet of at least twenty bytes
    with addresses of its family, and nothing but zeros follow it. *)
Theorem ip_parse_exact l :
  bytes_ok l ->
  safe (parse l) (maybe (fun p => packet_ok l p /\ exists n, l = take (Z.to_nat (ip_length p)) l ++ zeros n)).
Proof.
  intros Hb. rewrite parse_body. apply safe_bind. eapply safe_mono; [by apply body_safe|].
  intros [p|]; cbn [maybe cut]; [|done]. intros (Hl & Ho). destruct (_ <? _) eqn:E; norm_bool E; [done|].
  apply safe_bind, safe_slice_from; [lia|]. intros t Ht _ _. destruct (existsb _ _) eqn:Ez; [done|]. cbn.
  split; [split; [lia|done]|]. apply tail_zeros in Ez. exists (length t). rewrite <-Ez.
  apply slice_Ok in Ht as (_ & _ & ->). rewrite (take_ge (drop _ _)) by (rewrite length_drop; lia). by rewrite take_drop.
Qed.

Lemma body_within a b p :
  bytes_ok (a ++ b) -> body (a ++ b) = Ok (Some p) -> len a = ip_length p -> forall b', body (a ++ b') = Ok (Some p).
Proof.
  intros Hb H Ha b'. pose proof (body_safe _ Hb) as Hs. rewrite H in Hs. destruct Hs as [H20 _].
  assert (Hh : forall c, head (a ++ c) = head a) by (intros c; destruct a; [cbn in *; lia|done]).
  assert (H2 : forall c n, n <= len a -> (n <=? len (a ++ c)) = true) by (intros c n Hn; apply Z.leb_le; rewrite length_app; lia).
  unfold body in *. rewrite Hh, H2, andb_true_r in H by lia. rewrite Hh, H2, andb_true_r by lia.
  destruct (_ =? 4); [rewrite parse_v4_within in H by lia; by rewrite parse_v4_within by lia|].
  destruct (_ =? 6); [|done]. cbn [andb] in *. destruct (40 <=? len (a ++ b)) eqn:E; norm_bool E; [|done].
  pose proof (parse_v6_safe _ Hb E) as H6. rewrite H in H6. destruct H6 as [H40 _].
  rewrite parse_v6_within in H by lia. rewrite H2 by lia. by rewrite parse_v6_within by lia.
Qed.

(** What follows a packet does not matter as long as it is zeros: a recovered packet, cut or
    padded, parses like the one that was sent. *)
Theorem padding_ignored l p n :
  bytes_ok l -> parse l = Ok (Some p) -> parse (take (Z.to_nat (ip_length p)) l ++ zeros n) = Ok (Some p).
Proof.
  intros Hb H. pose proof (ip_parse_exact l Hb) as Hs. rewrite H in Hs. destruct Hs as [(Hl & _) _].
  set (a := take _ l). assert (Ha : len a = ip_length p) by (unfold a; rewrite length_take; lia).
  rewrite parse_body in *. apply obind_Ok in H as (o & Ho & Hc).
  assert (o = Some p) as ->.
  { destruct o as [q|]; [|done]. cbn [cut] in Hc. destruct (_ <? _); [done|]. apply obind_Ok in Hc as (t & _ & Hc).
    destruct (existsb _ _); congruence. }
  rewrite (body_within a (drop (Z.to_nat (ip_length p)) l) p); [| |by unfold a; rewrite take_drop|done].
  2: { unfold a. by rewrite take_drop. }
  cbn [obind cut]. rewrite length_app, length_zeros. destruct (_ <? _) eqn:E; norm_bool E; [lia|].
  unfold slice_from. rewrite slice_app_r by (rewrite ?length_app, ?length_zeros; lia).
  rewrite <-Ha, Z.sub_diag, length_app, length_zeros, slice_all by (rewrite length_zeros; lia). cbn [obind].
  by rewrite (proj2 (tail_zeros (zeros n))) by (by rewrite length_zeros).
Qed.

Lemma flow_safe l : bytes_ok l -> safe (flow l) (fun _ => True).
Proof.
  intros Hb. unfold flow. apply safe_bind. eapply safe_mono; [by apply ip_parse_exact|].
  intros [p|]; [|done]. intros [(Hp & _) _].
  assert (Hi : forall b, 0 <= Z.land b 15) by (intros b; apply Z.land_nonneg; lia).
  do 2 safe_step. pose proof (Hi b). do 2 safe_step; repeat safe_step; cbv beta iota zeta; repeat safe_step; done.
Qed.

(** The parser reports no errors, so it always returns. *)
Definition no_err {A} (m : outcome A) : Prop := match m with Err _ => False | _ => True end.

Lemma no_err_bind {A B} (m : outcome A) (k : A -> outcome B) : no_err m -> (forall a, no_err (k a)) -> no_err (obind m k).
Proof. by destruct m; cbn; auto. Qed.

Lemma no_err_idx l i : no_err (idx l i).
Proof. unfold idx. by repeat case_match. Qed.
Lemma no_err_slice l i j : no_err (slice l i j).
Proof. unfold slice. by case_match. Qed.
Lemma no_err_be_at n l i : no_err (be_at n l i).
Proof. unfold be_at, omap. apply no_err_bind; [apply no_err_slice|done]. Qed.

Ltac no_err_step :=
  match goal with
  | |- no_err (obind _ _) => apply no_err_bind; [|intros ?]
  | |- no_err (idx _ _) => apply no_err_idx
  | |- no_err (slice _ _ _) => apply no_err_slice
  | |- no_err (slice_from _ _) => apply no_err_slice
  | |- no_err (be_at _ _ _) => apply no_err_be_at
  | |- no_err (Ok _) => exact I
  | |- no_err (match ?x with _ => _ end) => destruct x
  end.

Lemma parse_total l : bytes_ok l -> exists o, parse l = Ok o.
Proof.
  intros Hb. pose proof (ip_parse_exact l Hb) as Hs.
  assert (no_err (parse l)) as He by (unfold parse, parse_v4, parse_v6; repeat no_err_step).
  destruct (parse l) as [o|e|]; [by exists o|done..].
Qed.

Lemma flow_total l : bytes_ok l -> exists o, flow l = Ok o.
Proof.
  intros Hb. pose proof (flow_safe l Hb) as Hs.
  assert (no_err (flow l)) as He by (unfold flow, parse, parse_v4, parse_v6; repeat no_err_step).
  destruct (flow l) as [o|e|]; [by exists o|done..].
Qed.
