(* ===== verification/FlowQueue.v ===== *)
(** * Fair queues

    [FairQueue] of [flow_queue.rs]: packets wait in one lane for each connection and leave
    in turns. A full queue refuses a packet of a connection that already waits and otherwise
    throws out the last packet of a longest lane. The theorems: the queue implements a ring
    of lanes; nothing is lost, doubled or taken out of the order of its connection; and the
    first packet of a lane waits for no more turns than there are lanes in front. *)

From S2P Require Import Prelude Collections IpAddr IpPacket.
Local Open Scope Z_scope.

(** [Iterator::max_by_key]: the last of the elements with the greatest key. *)
Fixpoint max_from {A} (key : A -> Z) (best : A) (l : list A) : A :=
  match l with
  | [] => best
  | x :: l => max_from key (if key best <=? key x then x else best) l
  end.

Definition max_by_key {A} (key : A -> Z) (l : list A) : option A :=
  match l with [] => None | x :: l => Some (max_from key x l) end.

Section Queue.
Context {K T : Type} `{!EqDecision K, !Countable K} {HI : HashIter}.

Record FairQueue : Type := {
  lanes : gmap K (list T);
  active : list K;
  q_len : Z;
  capacity : Z;
}.

Definition new_queue (n : Z) : FairQueue := {| lanes := ∅; active := []; q_len := 0; capacity := Z.max 1 n |}.

Definition is_empty (q : FairQueue) : bool := q_len q =? 0.

Definition clear (q : FairQueue) : FairQueue := {| lanes := ∅; active := []; q_len := 0; capacity := capacity q |}.

(** The part of [push] that makes room: the queue without the last packet of a longest lane. *)
Definition evict (q : FairQueue) : outcome (FairQueue * option T) :=
  match max_by_key (fun e => len e.2) (hash_iter (lanes q)) with
  | None => Panic
  | Some (victim, lane) =>
      let left_over := removelast lane in
      Ok ({| lanes := if bool_decide (left_over = []) then delete victim (lanes q) else <[victim := left_over]> (lanes q);
             active := if bool_decide (left_over = []) then filter (fun c => c <> victim) (active q) else active q;
             q_len := q_len q - 1; capacity := capacity q |}, last lane)
  end.

Definition add (key : K) (item : T) (q : FairQueue) : FairQueue :=
  match lanes q !! key with
  | Some lane => {| lanes := <[key := lane ++ [item]]> (lanes q); active := active q; q_len := q_len q + 1; capacity := capacity q |}
  | None => {| lanes := <[key := [item]]> (lanes q); active := active q ++ [key]; q_len := q_len q + 1; capacity := capacity q |}
  end.

(** [push]: [inl] the packet thrown out, [inr] the packet refused. *)
Definition push (key : K) (item : T) (q : FairQueue) : outcome (FairQueue * (option T + T)) :=
  if q_len q =? capacity q then
    if bool_decide (is_Some (lanes q !! key)) then Ok (q, inr item)
    else let! (q, evicted) := evict q in Ok (add key item q, inl evicted)
  else Ok (add key item q, inl None).

Definition pop (q : FairQueue) : outcome (FairQueue * option T) :=
  match active q with
  | [] => Ok (q, None)
  | key :: active =>
      match lanes q !! key with
      | Some (item :: lane) =>
          Ok ({| lanes := if bool_decide (lane = []) then delete key (lanes q) else <[key := lane]> (lanes q);
                 active := if bool_decide (lane = []) then active else active ++ [key];
                 q_len := q_len q - 1; capacity := capacity q |}, Some item)
      | _ => Panic
      end
  end.

(** [oldest]: the least of the times of the heads of the lanes. *)
Definition oldest (timestamp : T -> Z) (q : FairQueue) : option Z :=
  min_by Z.ltb (base.omap (fun e => timestamp <$> head e.2) (hash_iter (lanes q))).

(** ** The ring *)

(** What the queue stands for: the lanes in the order of their turns, none of them empty. *)
Definition lane (q : FairQueue) (k : K) : list T := default [] (lanes q !! k).
Definition ring (q : FairQueue) : list (K * list T) := map (fun k => (k, lane q k)) (active q).
Definition waiting (q : FairQueue) : list T := concat (map (lane q) (active q)).

Record queue_ok (q : FairQueue) : Prop := {
  ok_active : NoDup (active q);
  ok_lanes : forall k l, lanes q !! k = Some l -> l <> [] /\ k ∈ active q;
  ok_turns : forall k, k ∈ active q -> is_Some (lanes q !! k);
  ok_len : q_len q = len (waiting q);
  ok_full : 1 <= capacity q /\ q_len q <= capacity q;
}.

Fixpoint ring_add (key : K) (item : T) (r : list (K * list T)) : list (K * list T) :=
  match r with
  | [] => [(key, [item])]
  | (k, l) :: r => if bool_decide (k = key) then (k, l ++ [item]) :: r else (k, l) :: ring_add key item r
  end.

Definition ring_pop (r : list (K * list T)) : list (K * list T) * option T :=
  match r with
  | (k, x :: l) :: r => (if bool_decide (l = []) then r else r ++ [(k, l)], Some x)
  | _ => (r, None)
  end.

(** Some longest lane loses its last packet. *)
Definition ring_evict (r r' : list (K * list T)) (x : T) : Prop :=
  exists before k l after, r = before ++ (k, l ++ [x]) :: after /\
    Forall (fun e => (length e.2 <= S (length l))%nat) r /\
    r' = before ++ (if bool_decide (l = []) then [] else [(k, l)]) ++ after.

Lemma max_from_spec {A} (key : A -> Z) best l :
  (max_from key best l = best \/ max_from key best l ∈ l) /\ key best <= key (max_from key best l) /\
  Forall (fun y => key y <= key (max_from key best l)) l.
Proof.
  revert best. induction l as [|x l IH]; intros best; [cbn; auto with lia|]. cbn [max_from].
  destruct (key best <=? key x) eqn:E; norm_bool E.
  - destruct (IH x) as (Hin & Hle & Hall). split; [right; destruct Hin as [->|]; by constructor|].
    split; [lia|by constructor].
  - destruct (IH best) as (Hin & Hle & Hall). split; [destruct Hin as [?|]; [by left|right; by constructor]|].
    split; [lia|]. constructor; [lia|done].
Qed.

Lemma max_by_key_spec {A} (key : A -> Z) l x :
  max_by_key key l = Some x -> x ∈ l /\ Forall (fun y => key y <= key x) l.
Proof.
  destruct l as [|y l]; [done|]. intros [= <-]. destruct (max_from_spec key y l) as (Hin & Hle & Hall).
  split; [destruct Hin as [->|]; by constructor|by constructor].
Qed.

Lemma waiting_ring q : waiting q = concat (map snd (ring q)).
Proof. unfold waiting, ring. by rewrite map_map. Qed.

Lemma ring_keys q : map fst (ring q) = active q.
Proof. unfold ring. rewrite map_map. apply map_id. Qed.

(** A queue that differs from another in one lane, which has its turn in the same place. *)
Lemma ring_at q before k after :
  active q = before ++ k :: after ->
  ring q = map (fun j => (j, lane q j)) before ++ (k, lane q k) :: map (fun j => (j, lane q j)) after.
Proof. intros E. unfold ring. by rewrite E, map_app. Qed.

Lemma lanes_same (f g : K -> list T) (l : list K) :
  (forall j, j ∈ l -> f j = g j) -> map (fun j => (j, f j)) l = map (fun j => (j, g j)) l.
Proof. intros H. apply map_ext_Forall, Forall_forall. intros j Hj. by rewrite H. Qed.

Lemma lane_insert q k l j a n c :
  lane {| lanes := <[k := l]> (lanes q); active := a; q_len := n; capacity := c |} j =
  if bool_decide (j = k) then l else lane q j.
Proof.
  unfold lane. cbn. destruct (bool_decide_reflect (j = k)) as [->|]; [by rewrite lookup_insert_eq|by rewrite lookup_insert_ne].
Qed.

Lemma ring_add_in key item r1 l r2 :
  key ∉ map fst r1 -> ring_add key item (r1 ++ (key, l) :: r2) = r1 ++ (key, l ++ [item]) :: r2.
Proof.
  induction r1 as [|[k l'] r1 IH]; cbn; intros Hn; [by rewrite bool_decide_eq_true_2|].
  apply not_elem_of_cons in Hn as [Hk Hn]. by rewrite bool_decide_eq_false_2, IH by done.
Qed.

Lemma ring_add_new key item r : key ∉ map fst r -> ring_add key item r = r ++ [(key, [item])].
Proof.
  induction r as [|[k l'] r IH]; cbn; intros Hn; [done|].
  apply not_elem_of_cons in Hn as [Hk Hn]. by rewrite bool_decide_eq_false_2, IH by done.
Qed.

Lemma active_split q k l :
  queue_ok q -> lanes q !! k = Some l ->
  exists before after, active q = before ++ k :: after /\ k ∉ before /\ k ∉ after.
Proof.
  intros Hok Hl. destruct (ok_lanes _ Hok _ _ Hl) as [_ Hin]. apply list_elem_of_split in Hin as (before & after & E).
  exists before, after. split; [done|]. pose proof (ok_active _ Hok) as Hn. rewrite E in Hn.
  apply NoDup_app in Hn as (_ & Hd & [Hk _]%NoDup_cons). split; [|done]. intros Hb. apply (Hd k Hb). left.
Qed.

Lemma lane_is q k l : lanes q !! k = Some l -> lane q k = l.
Proof. unfold lane. by intros ->. Qed.

Lemma add_ring key item q : queue_ok q -> ring (add key item q) = ring_add key item (ring q).
Proof.
  intros Hok. unfold add. destruct (lanes q !! key) as [l|] eqn:El.
  - destruct (active_split q key l Hok El) as (before & after & E & Hb & Ha).
    rewrite (ring_at q before key after E). rewrite ring_add_in by (rewrite map_map; cbn; by rewrite map_id).
    rewrite (ring_at _ before key after) by done.
    rewrite lane_insert, bool_decide_eq_true_2, (lane_is q key l) by done.
    f_equal; [|f_equal]; apply lanes_same; intros j Hj; rewrite lane_insert, bool_decide_eq_false_2; try done; by intros ->.
  - assert (Hn : key ∉ active q) by (intros H; destruct (ok_turns _ Hok key H); congruence).
    rewrite ring_add_new by (by rewrite ring_keys). unfold ring. cbn [active]. rewrite map_app. cbn [map].
    rewrite lane_insert, bool_decide_eq_true_2 by done. f_equal. apply lanes_same. intros j Hj.
    rewrite lane_insert, bool_decide_eq_false_2; [done|by intros ->].
Qed.

Lemma weight_add key item (r : list (K * list T)) :
  length (concat (map snd (ring_add key item r))) = S (length (concat (map snd r))).
Proof.
  induction r as [|[k l] r IH]; [done|]. cbn [ring_add]. destruct (bool_decide _); cbn; rewrite !length_app; [cbn|]; lia.
Qed.

Lemma add_ok key item q : queue_ok q -> q_len q < capacity q -> queue_ok (add key item q).
Proof.
  intros Hok Hlt. pose proof (add_ring key item q Hok) as Hr. destruct Hok as [Hn Hl Ht Hq Hc].
  assert (He : active (add key item q) = (if bool_decide (is_Some (lanes q !! key)) then active q else active q ++ [key])).
  { unfold add. destruct (lanes q !! key); [by rewrite bool_decide_eq_true_2|by rewrite bool_decide_eq_false_2 by apply is_Some_None]. }
  assert (Hkey : key ∈ active (add key item q)).
  { rewrite He. case_bool_decide as D; [destruct D as [l D]; by destruct (Hl _ _ D)|]. apply elem_of_app. right. left. }
  assert (Hlk : forall j l, lanes (add key item q) !! j = Some l -> (j = key /\ l <> []) \/ (j <> key /\ lanes q !! j = Some l)).
  { intros j l. unfold add. destruct (lanes q !! key) as [l'|]; cbn; rewrite lookup_insert_Some;
      intros [[<- <-]|[Hj ?]]; auto. left. split; [done|]. by destruct l'. }
  split.
  - rewrite He. case_bool_decide as D; [done|]. apply NoDup_app. split; [done|]. split; [|apply NoDup_singleton].
    intros j Hj ->%list_elem_of_singleton. by destruct D, (Ht key Hj).
  - intros j l [[-> Hne]|[Hj Hjl]]%Hlk; [done|]. destruct (Hl _ _ Hjl) as [? Hin]. split; [done|].
    rewrite He. case_bool_decide; [done|]. apply elem_of_app. by left.
  - intros j Hj. destruct (decide (j = key)) as [->|Hne].
    + unfold add. destruct (lanes q !! key); cbn; by rewrite lookup_insert_eq.
    + assert (lanes (add key item q) !! j = lanes q !! j) as -> by (unfold add; destruct (lanes q !! key); cbn; by rewrite lookup_insert_ne).
      apply Ht. rewrite He in Hj. case_bool_decide; [done|]. apply elem_of_app in Hj as [| ->%list_elem_of_singleton]; done.
  - rewrite waiting_ring, Hr, weight_add, <-waiting_ring. unfold add. destruct (lanes q !! key); cbn; lia.
  - unfold add. destruct (lanes q !! key); cbn; lia.
Qed.

Lemma weight_perm (f : K -> list T) (l l' : list K) :
  l ≡ₚ l' -> length (concat (map f l)) = length (concat (map f l')).
Proof. induction 1; cbn; rewrite ?length_app; lia. Qed.

Lemma weight_at (f : K -> list T) before k after :
  length (concat (map f (before ++ k :: after))) = (length (f k) + length (concat (map f (before ++ after))))%nat.
Proof. rewrite !map_app, !concat_app. cbn. rewrite !length_app. lia. Qed.

(** The queue with one packet less in one lane; [turns] are the turns of all but that lane. *)
Definition shrunk (k : K) (l : list T) (with_k without : list K) (q : FairQueue) : FairQueue :=
  {| lanes := if bool_decide (l = []) then delete k (lanes q) else <[k := l]> (lanes q);
     active := if bool_decide (l = []) then without else with_k; q_len := q_len q - 1; capacity := capacity q |}.

Lemma shrunk_lane k l a b q j : lane (shrunk k l a b q) j = if bool_decide (j = k) then l else lane q j.
Proof.
  unfold lane, shrunk. cbn [lanes]. destruct (bool_decide_reflect (j = k)) as [->|Hj]; case_bool_decide as D.
  - by rewrite lookup_delete_eq, D.
  - by rewrite lookup_insert_eq.
  - by rewrite lookup_delete_ne.
  - by rewrite lookup_insert_ne.
Qed.

Lemma shrunk_ok k l l' before after a b q :
  queue_ok q -> lanes q !! k = Some l -> length l = S (length l') ->
  active q = before ++ k :: after -> k ∉ before -> k ∉ after -> b ≡ₚ before ++ after -> a ≡ₚ k :: b ->
  queue_ok (shrunk k l' a b q).
Proof.
  intros [Hn Hl Ht Hq Hc] Hk Hlen E Hb Ha Pb Pa.
  assert (Hkb : k ∉ b) by (rewrite Pb, elem_of_app; tauto).
  assert (Hin : forall j, j ∈ active q <-> j = k \/ j ∈ b) by (intros j; rewrite E, Pb, !elem_of_app, elem_of_cons; tauto).
  assert (Hnb : NoDup b).
  { rewrite Pb. rewrite E in Hn. apply NoDup_app in Hn as (H1 & H2 & [_ H3]%NoDup_cons). apply NoDup_app.
    split_and!; [done| |done]. intros j Hj Hj'. apply (H2 j Hj). by right. }
  split.
  - unfold shrunk. cbn [active]. case_bool_decide; [done|]. rewrite Pa. by constructor.
  - intros j m. unfold shrunk. cbn [lanes active]. case_bool_decide as D.
    + rewrite lookup_delete_Some. intros [Hj Hm]. destruct (Hl _ _ Hm) as [? Hj']. split; [done|].
      apply Hin in Hj' as [->|]; done.
    + rewrite lookup_insert_Some, Pa, elem_of_cons. intros [[<- <-]|[Hj Hm]]; [auto|].
      destruct (Hl _ _ Hm) as [? Hj']. split; [done|]. apply Hin in Hj' as [->|]; [done|by right].
  - intros j Hj. unfold shrunk in *. cbn [lanes active] in *. case_bool_decide as D.
    + rewrite lookup_delete_ne by (by intros ->). apply Ht, Hin. by right.
    + destruct (decide (j = k)) as [->|]; [by rewrite lookup_insert_eq|]. rewrite lookup_insert_ne by done.
      apply Ht, Hin. by rewrite Pa, elem_of_cons in Hj.
  - assert (Hw : length (waiting q) = S (length (waiting (shrunk k l' a b q)))).
    { unfold waiting. rewrite E, weight_at, (lane_is q k l), Hlen by done.
      assert (Hs : length (concat (map (lane (shrunk k l' a b q)) b)) = length (concat (map (lane q) (before ++ after)))).
      { rewrite <-(weight_perm _ _ _ Pb). f_equal. f_equal. apply map_ext_Forall, Forall_forall. intros j Hj.
        rewrite shrunk_lane, bool_decide_eq_false_2; [done|by intros ->]. }
      unfold shrunk at 2. cbn [active]. case_bool_decide as D; [subst; cbn; lia|].
      rewrite (weight_perm _ _ _ Pa). cbn [map concat]. rewrite length_app, Hs, shrunk_lane, bool_decide_eq_true_2 by done. lia. }
    unfold shrunk at 1. cbn [q_len]. lia.
  - unfold shrunk. cbn. lia.
Qed.

Lemma shrunk_same k l a b q c : k ∉ c -> map (fun j => (j, lane (shrunk k l a b q) j)) c = map (fun j => (j, lane q j)) c.
Proof. intros Hc. apply lanes_same. intros j Hj. rewrite shrunk_lane, bool_decide_eq_false_2; [done|by intros ->]. Qed.

Lemma pop_spec q :
  queue_ok q -> exists q' o, pop q = Ok (q', o) /\ queue_ok q' /\ ring_pop (ring q) = (ring q', o).
Proof.
  intros Hok. unfold pop. destruct (active q) as [|k rest] eqn:Ea; [exists q, None; split_and!; try done; unfold ring; by rewrite Ea|].
  destruct (ok_turns _ Hok k) as [[|x l] El]; [rewrite Ea; left|by destruct (ok_lanes _ Hok _ _ El)|]. rewrite El.
  assert (Hn : k ∉ rest) by (pose proof (ok_active _ Hok) as H; rewrite Ea in H; by apply NoDup_cons in H as [? _]).
  exists (shrunk k l (rest ++ [k]) rest q), (Some x). split; [done|]. split.
  - apply (shrunk_ok k (x :: l) l [] rest); try done; [apply not_elem_of_nil|]. by rewrite Permutation_app_comm.
  - rewrite (ring_at q [] k rest Ea), (lane_is q k _ El). cbn [map app ring_pop]. f_equal. unfold ring.
    unfold shrunk at 2. cbn [active]. case_bool_decide as D; [by rewrite shrunk_same|].
    rewrite map_app, shrunk_same by done. cbn [map]. by rewrite shrunk_lane, bool_decide_eq_true_2.
Qed.

Lemma filter_absent (k : K) (l : list K) : k ∉ l -> filter (fun c => c <> k) l = l.
Proof.
  induction l as [|j l IH]; [done|]. intros [Hj Hl]%not_elem_of_cons. rewrite filter_cons_True by congruence. by rewrite IH.
Qed.

Lemma evict_spec q :
  queue_ok q -> active q <> [] ->
  exists q' x, evict q = Ok (q', Some x) /\ queue_ok q' /\ q_len q' = q_len q - 1 /\ capacity q' = capacity q /\
    ring_evict (ring q) (ring q') x.
Proof.
  intros Hok Hne. unfold evict. destruct (max_by_key _ _) as [[k l]|] eqn:Em.
  2: { destruct (active q) as [|k rest] eqn:Ea; [done|]. destruct (ok_turns _ Hok k) as [l El]; [rewrite Ea; left|].
       apply elem_of_iter in El. by destruct (hash_iter (lanes q)); [apply elem_of_nil in El|]. }
  apply max_by_key_spec in Em as [Hin Hmax]. apply elem_of_iter in Hin.
  destruct (ok_lanes _ Hok _ _ Hin) as [Hl _]. destruct (exists_last Hl) as (l' & x & ->).
  destruct (active_split q k _ Hok Hin) as (before & after & Ea & Hb & Ha).
  rewrite removelast_last, last_snoc.
  assert (Hf : filter (fun c => c <> k) (active q) = before ++ after).
  { rewrite Ea, filter_app, filter_cons_False by (by intros H; apply H).
    by rewrite !filter_absent. }
  exists (shrunk k l' (active q) (before ++ after) q), x. rewrite Hf. split; [done|]. split_and!; try done.
  - eapply shrunk_ok; try done; [rewrite length_app; cbn; lia|]. rewrite Ea. by rewrite Permutation_middle.
  - exists (map (fun j => (j, lane q j)) before), k, l', (map (fun j => (j, lane q j)) after). split_and!.
    + by rewrite (ring_at q before k after Ea), (lane_is q k _ Hin).
    + rewrite Forall_forall in Hmax. unfold ring. apply Forall_map, Forall_forall. intros j Hj. cbn.
      destruct (ok_turns _ Hok j Hj) as [m Hm]. rewrite (lane_is q j m Hm).
      apply elem_of_iter, Hmax in Hm. cbn in Hm. rewrite length_app in Hm. cbn in Hm. lia.
    + unfold ring. unfold shrunk at 2. cbn [active]. case_bool_decide as D; [by rewrite map_app, !shrunk_same|].
      rewrite Ea, map_app. cbn [map]. by rewrite !shrunk_same, shrunk_lane, bool_decide_eq_true_2.
Qed.

(** ** Lanes, step by step *)

Lemma add_lane key item q j : lane (add key item q) j = if bool_decide (j = key) then lane q j ++ [item] else lane q j.
Proof.
  unfold add. destruct (lanes q !! key) as [l|] eqn:El; rewrite lane_insert; case_bool_decide as D; subst; try done.
  - by rewrite (lane_is q key l).
  - unfold lane. by rewrite El.
Qed.

Lemma add_active key item q : active (add key item q) = active q \/ active (add key item q) = active q ++ [key].
Proof. unfold add. destruct (lanes q !! key); auto. Qed.

Lemma pop_lane q q' o :
  queue_ok q -> pop q = Ok (q', o) ->
  match o with
  | None => q' = q /\ active q = []
  | Some x => exists k rest, active q = k :: rest /\ lane q k = x :: lane q' k /\
      (forall j, j <> k -> lane q' j = lane q j) /\ (active q' = rest \/ active q' = rest ++ [k])
  end.
Proof.
  intros Hok. unfold pop. destruct (active q) as [|k rest] eqn:Ea; [by intros [= <- <-]|].
  destruct (lanes q !! k) as [[|x l]|] eqn:El; [done| |done]. intros [= <- <-]. exists k, rest. split; [done|].
  change {| lanes := _ |} with (shrunk k l (rest ++ [k]) rest q). split_and!.
  - by rewrite (lane_is q k _ El), shrunk_lane, bool_decide_eq_true_2.
  - intros j Hj. by rewrite shrunk_lane, bool_decide_eq_false_2.
  - cbn. case_bool_decide; auto.
Qed.

Lemma evict_lane q q' o :
  queue_ok q -> evict q = Ok (q', o) ->
  exists k y, o = Some y /\ lane q k = lane q' k ++ [y] /\ (forall j, j <> k -> lane q' j = lane q j) /\
    ((lane q' k <> [] /\ active q' = active q) \/ (lane q' k = [] /\ active q' = filter (fun c => c <> k) (active q))).
Proof.
  intros Hok. unfold evict. destruct (max_by_key _ _) as [[k l]|] eqn:Em; [|done].
  apply max_by_key_spec in Em as [Hin _]. apply elem_of_iter in Hin.
  destruct (ok_lanes _ Hok _ _ Hin) as [Hl _]. destruct (exists_last Hl) as (l' & x & ->).
  rewrite removelast_last, last_snoc. intros [= <- <-]. exists k, x. split; [done|].
  change {| lanes := _ |} with (shrunk k l' (active q) (filter (fun c => c <> k) (active q)) q).
  rewrite (lane_is q k _ Hin), shrunk_lane, bool_decide_eq_true_2 by done. split_and!; [done| |].
  - intros j Hj. by rewrite shrunk_lane, bool_decide_eq_false_2.
  - cbn. case_bool_decide; auto.
Qed.

(** ** Runs *)

Variable key : T -> K.

Inductive Event : Type :=
  | Push (x : T)
  | Pop.

(** What a step gives back: whether the packet was taken and which one was thrown out for
    it, or the packet whose turn it was. *)
Inductive Output : Type :=
  | Taken (thrown : option T)
  | Refused
  | Gave (o : option T).

Definition step (q : FairQueue) (e : Event) : outcome (FairQueue * Output) :=
  match e with
  | Push x => let! (q, r) := push (key x) x q in
              Ok (q, match r with inl thrown => Taken thrown | inr _ => Refused end)
  | Pop => let! (q, o) := pop q in Ok (q, Gave o)
  end.

Fixpoint run (q : FairQueue) (events : list Event) : outcome (FairQueue * list Output) :=
  match events with
  | [] => Ok (q, [])
  | e :: events =>
      let! (q, o) := step q e in
      let! (q, outs) := run q events in
      Ok (q, o :: outs)
  end.

(** The same on a ring of at most [n] packets. *)
Inductive ring_step (n : Z) : list (K * list T) -> Event -> Output -> list (K * list T) -> Prop :=
  | ring_room r x :
      len (concat (map snd r)) < n -> ring_step n r (Push x) (Taken None) (ring_add (key x) x r)
  | ring_full r r' x y :
      len (concat (map snd r)) = n -> key x ∉ map fst r -> ring_evict r r' y ->
      ring_step n r (Push x) (Taken (Some y)) (ring_add (key x) x r')
  | ring_refuse r x :
      len (concat (map snd r)) = n -> key x ∈ map fst r -> ring_step n r (Push x) Refused r
  | ring_turn r r' o : ring_pop r = (r', o) -> ring_step n r Pop (Gave o) r'.

Inductive ring_run (n : Z) : list (K * list T) -> list Event -> list Output -> list (K * list T) -> Prop :=
  | ring_done r : ring_run n r [] [] r
  | ring_next r r' r'' e es o os :
      ring_step n r e o r' -> ring_run n r' es os r'' -> ring_run n r (e :: es) (o :: os) r''.

Lemma push_cap k x q q' r : push k x q = Ok (q', r) -> capacity q' = capacity q.
Proof.
  assert (Ha : forall q, capacity (add k x q) = capacity q) by (intros q0; unfold add; by destruct (lanes q0 !! k)).
  unfold push, evict. repeat case_match; cbn; intros [= <- <-]; rewrite ?Ha; done.
Qed.

Lemma pop_cap q q' o : pop q = Ok (q', o) -> capacity q' = capacity q.
Proof. unfold pop. repeat case_match; intros [= <- <-]; done. Qed.

Lemma step_refines q e :
  queue_ok q ->
  exists q' o, step q e = Ok (q', o) /\ queue_ok q' /\ capacity q' = capacity q /\ ring_step (capacity q) (ring q) e o (ring q').
Proof.
  intros Hok. pose proof (ok_len _ Hok) as Hlen. rewrite waiting_ring in Hlen. destruct (ok_full _ Hok) as [Hc Hle].
  destruct e as [x|].
  2: { destruct (pop_spec q Hok) as (q' & o & E & Hok' & Hr). exists q', (Gave o). cbn [step]. rewrite E.
       split_and!; try done; [by eapply pop_cap|by constructor]. }
  assert (Hs : exists q' r, push (key x) x q = Ok (q', r) /\ queue_ok q' /\
     ring_step (capacity q) (ring q) (Push x) (match r with inl thrown => Taken thrown | inr _ => Refused end) (ring q')).
  { unfold push. destruct (q_len q =? capacity q) eqn:Eq; norm_bool Eq.
    - case_bool_decide as D.
      + exists q, (inr x). split_and!; try done. apply ring_refuse; [lia|]. rewrite ring_keys. destruct D as [l D].
        by destruct (ok_lanes _ Hok _ _ D).
      + destruct (evict_spec q Hok) as (q1 & y & E & Hok1 & Hl & Hcap & Hr).
        { intros Ha. pose proof (ring_keys q) as Hk. rewrite Ha in Hk. destruct (ring q); [cbn in *; lia|done]. }
        rewrite E. cbn [obind]. exists (add (key x) x q1), (inl (Some y)). split; [done|].
        split; [apply add_ok; [done|lia]|]. rewrite add_ring by done. apply ring_full; [lia| |done].
        rewrite ring_keys. intros Hin. by destruct D, (ok_turns _ Hok _ Hin).
    - exists (add (key x) x q), (inl None). split; [done|]. split; [apply add_ok; [done|lia]|].
      rewrite add_ring by done. apply ring_room. lia. }
  destruct Hs as (q' & r & E & Hok' & Hr). eexists q', _. cbn [step]. rewrite E. split; [done|].
  split_and!; [done|by eapply push_cap|done].
Qed.

Lemma queue_run_refines q events :
  queue_ok q ->
  exists q' outs, run q events = Ok (q', outs) /\ queue_ok q' /\ capacity q' = capacity q /\
    ring_run (capacity q) (ring q) events outs (ring q').
Proof.
  revert q. induction events as [|e es IH]; intros q Hok; [exists q, []; split_and!; try done; constructor|].
  destruct (step_refines q e Hok) as (q1 & o & E & Hok1 & Hc1 & Hs).
  destruct (IH q1 Hok1) as (q2 & os & E2 & Hok2 & Hc2 & Hr). exists q2, (o :: os). cbn [run]. rewrite E. cbn [obind]. rewrite E2.
  split_and!; try done; [congruence|]. rewrite Hc1 in *. by econstructor.
Qed.

Lemma new_queue_ok n : queue_ok (new_queue n).
Proof.
  split; cbn; [constructor| |by intros k ?%elem_of_nil|done|lia]. intros k l. by rewrite lookup_empty.
Qed.

(** C33: The queue implements a ring of lanes. Through any sequence of pushes and pops it
    never panics, never holds more than its capacity, and answers as a ring would in which
    a new connection goes to the end, the lane whose turn it was goes to the end, and a
    packet of a new connection for which there is no room takes the place of the last packet
    of a longest lane. *)
Theorem fair_queue_refines n events :
  exists q outs, run (new_queue n) events = Ok (q, outs) /\
    ring_run (Z.max 1 n) [] events outs (ring q) /\ q_len q = len (waiting q) /\ len (waiting q) <= Z.max 1 n.
Proof.
  destruct (queue_run_refines (new_queue n) events (new_queue_ok n)) as (q & outs & E & Hok & Hc & Hr).
  exists q, outs. pose proof (ok_len _ Hok). destruct (ok_full _ Hok). cbn in Hc. split_and!; try done. lia.
Qed.

(** ** Nothing lost, nothing out of order *)

Fixpoint taken (events : list Event) (outs : list Output) : list T :=
  match events, outs with
  | Push x :: es, Taken _ :: os => x :: taken es os
  | _ :: es, _ :: os => taken es os
  | _, _ => []
  end.

Definition given (outs : list Output) : list T := base.omap (fun o => match o with Gave (Some x) => Some x | _ => None end) outs.
Definition thrown (outs : list Output) : list T := base.omap (fun o => match o with Taken (Some x) => Some x | _ => None end) outs.

Definition of_flow (k : K) (l : list T) : list T := filter (fun x => key x = k) l.

Definition keyed (q : FairQueue) : Prop := forall k x, x ∈ lane q k -> key x = k.

(** What a step takes in, gives out and throws away, lane by lane. *)
Definition moved (q : FairQueue) (e : Event) (o : Output) (q' : FairQueue) : Prop :=
  forall k, of_flow k (given [o]) ++ lane q' k `sublist_of` lane q k ++ of_flow k (taken [e] [o]).

Lemma of_flow_at k x : of_flow k [x] = if bool_decide (key x = k) then [x] else [].
Proof. unfold of_flow. rewrite filter_cons, filter_nil. by case_bool_decide; case_decide. Qed.

Lemma add_moved x q q0 k :
  (forall j, lane q j `sublist_of` lane q0 j) -> lane (add (key x) x q) k `sublist_of` lane q0 k ++ of_flow k [x].
Proof.
  intros H. rewrite add_lane, of_flow_at. destruct (decide (k = key x)) as [->|Hk].
  - rewrite !bool_decide_eq_true_2 by done. apply sublist_app; [apply H|done].
  - rewrite !bool_decide_eq_false_2 by congruence. rewrite app_nil_r. apply H.
Qed.

Lemma add_keyed x q : keyed q -> keyed (add (key x) x q).
Proof.
  intros Hq k y. rewrite add_lane. case_bool_decide as D; [|apply Hq]. rewrite elem_of_app, list_elem_of_singleton.
  intros [?| ->]; [by apply Hq|done].
Qed.

Lemma evict_sub q q' o : queue_ok q -> evict q = Ok (q', o) -> forall j, lane q' j `sublist_of` lane q j.
Proof.
  intros Hok E j. destruct (evict_lane q q' o Hok E) as (k & y & _ & Hl & Hj & _).
  destruct (decide (j = k)) as [->|Hne]; [|by rewrite Hj]. rewrite Hl. by apply sublist_inserts_r.
Qed.

Lemma sub_keyed q q' : (forall j, lane q' j `sublist_of` lane q j) -> keyed q -> keyed q'.
Proof. intros H Hq k x Hx. apply Hq. eapply elem_of_submseteq; [done|]. by apply sublist_submseteq. Qed.

Lemma step_moved q e q' o :
  queue_ok q -> keyed q -> step q e = Ok (q', o) -> moved q e o q' /\ keyed q'.
Proof.
  intros Hok Hk. destruct e as [x|]; cbn [step]; intros (p & Hp & Hs)%obind_Ok; destruct p as [q1 r]; injection Hs as <- <-.
  - unfold push in Hp. destruct (_ =? _); [case_bool_decide|].
    + injection Hp as <- <-. split; [|done]. intros k. cbn. by rewrite app_nil_r.
    + apply obind_Ok in Hp as ([q0 y] & He & [= <- <-]). pose proof (evict_sub _ _ _ Hok He) as Hsub.
      split; [intros k; cbn; by apply add_moved|]. by apply add_keyed, (sub_keyed q).
    + injection Hp as <- <-. split; [intros k; cbn; by apply add_moved|by apply add_keyed].
  - pose proof (pop_lane q q1 r Hok Hp) as H. destruct r as [x|]; [|destruct H as [-> _]; split; [intros k; cbn; by rewrite app_nil_r|done]].
    destruct H as (k & rest & _ & Hl & Hj & _). assert (Hkx : key x = k) by (apply Hk; rewrite Hl; left).
    split.
    + intros j. cbn [given taken base.omap list_omap]. rewrite of_flow_at, app_nil_r.
      destruct (decide (j = k)) as [->|Hne]; [by rewrite bool_decide_eq_true_2, Hl|].
      rewrite bool_decide_eq_false_2 by congruence. by rewrite Hj.
    + intros j y Hy. destruct (decide (j = k)) as [->|Hne]; [apply Hk; rewrite Hl; by right|rewrite Hj in Hy by done; by apply Hk].
Qed.

Abbreviation all r := (concat (map snd r)).

Lemma ring_add_all k x (r : list (K * list T)) : all (ring_add k x r) ≡ₚ x :: all r.
Proof.
  induction r as [|[j l] r IH]; [done|]. cbn [ring_add]. destruct (bool_decide _); cbn; [|by rewrite IH, Permutation_middle].
  rewrite <-app_assoc. by rewrite Permutation_middle.
Qed.

Lemma ring_evict_all (r r' : list (K * list T)) y : ring_evict r r' y -> all r ≡ₚ y :: all r'.
Proof.
  intros (before & k & l & after & -> & _ & ->). rewrite !map_app, !concat_app. cbn. rewrite <-app_assoc.
  case_bool_decide as D; subst; cbn; rewrite ?app_nil_r; solve_Permutation.
Qed.

Lemma ring_pop_all (r r' : list (K * list T)) o : ring_pop r = (r', o) -> all r ≡ₚ option_list o ++ all r'.
Proof.
  destruct r as [|[k [|x l]] r]; cbn; intros [= <- <-]; try done. cbn. constructor.
  case_bool_decide as D; subst; [done|]. rewrite map_app, concat_app. cbn. rewrite app_nil_r. apply Permutation_app_comm.
Qed.

Lemma ring_run_all n r es os r' :
  ring_run n r es os r' -> taken es os ++ all r ≡ₚ given os ++ thrown os ++ all r'.
Proof.
  induction 1 as [|r r1 r2 e es o os Hs Hr IH]; [done|].
  destruct Hs as [r x _|r r1 x y _ _ He|r x _ _|r r1 p Hp]; cbn [taken given thrown base.omap list_omap] in *;
    fold (given os) (thrown os) in *.
  - rewrite ring_add_all in IH. rewrite <-IH. solve_Permutation.
  - rewrite ring_add_all in IH. rewrite (ring_evict_all _ _ _ He).
    transitivity (y :: taken es os ++ x :: all r1); [solve_Permutation|]. rewrite IH. solve_Permutation.
  - done.
  - rewrite (ring_pop_all _ _ _ Hp). destruct p as [x|]; cbn; [|done]. rewrite <-IH. solve_Permutation.
Qed.

Lemma run_moved q events q' outs :
  queue_ok q -> keyed q -> run q events = Ok (q', outs) ->
  forall k, of_flow k (given outs) ++ lane q' k `sublist_of` lane q k ++ of_flow k (taken events outs).
Proof.
  revert q outs. induction events as [|e es IH]; intros q outs Hok Hk; cbn [run].
  { intros [= <- <-] k. cbn. by rewrite app_nil_r. }
  intros ([q1 o] & Hs & ([q2 os] & Hr & [= <- <-])%obind_Ok)%obind_Ok k.
  destruct (step_moved q e q1 o Hok Hk Hs) as [Hm Hk1]. destruct (step_refines q e Hok) as (q1' & o' & Hs' & Hok1 & _).
  rewrite Hs in Hs'. injection Hs' as <- <-. specialize (IH q1 os Hok1 Hk1 Hr k). specialize (Hm k).
  assert (Eg : given (o :: os) = given [o] ++ given os) by (destruct o as [| |[]]; done).
  assert (Et : taken (e :: es) (o :: os) = taken [e] [o] ++ taken es os) by (destruct e, o; done).
  rewrite Eg, Et. unfold of_flow in *. rewrite !filter_app, <-!app_assoc.
  transitivity (of_flow k (given [o]) ++ lane q1 k ++ of_flow k (taken es os)); [by apply sublist_app|].
  rewrite !app_assoc. by apply sublist_app.
Qed.

(** The queue loses nothing, doubles nothing and keeps the order of each connection.
    After any sequence of pushes and pops the packets that were taken in are exactly those
    given out, those thrown out and those that wait; and of each connection the packets
    given out, followed by those that wait, are in the order in which they came. *)
Theorem queue_exact n events q outs :
  run (new_queue n) events = Ok (q, outs) ->
  taken events outs ≡ₚ given outs ++ thrown outs ++ waiting q /\
  forall k, of_flow k (given outs) ++ lane q k `sublist_of` of_flow k (taken events outs).
Proof.
  intros E. destruct (queue_run_refines (new_queue n) events (new_queue_ok n)) as (q' & os & E' & _ & _ & Hr).
  rewrite E in E'. injection E' as <- <-. split.
  - rewrite waiting_ring, <-(ring_run_all _ _ _ _ _ Hr). cbn. by rewrite app_nil_r.
  - intros k. apply (run_moved (new_queue n) events q outs (new_queue_ok n)); [|done].
    intros j x. unfold lane, new_queue. cbn [lanes]. rewrite lookup_empty. by intros ?%elem_of_nil.
Qed.

(** ** Turns *)

Fixpoint pops (events : list Event) : nat :=
  match events with Pop :: es => S (pops es) | _ :: es => pops es | [] => 0 end.

(** The lane of [k] has [x] in front, and at most [n] turns come before its own. *)
Definition in_line (k : K) (x : T) (n : nat) (q : FairQueue) : Prop :=
  exists l before after, lane q k = x :: l /\ active q = before ++ k :: after /\ (length before <= n)%nat.

Lemma step_in_line k x n q e q' o :
  queue_ok q -> in_line k x n q -> step q e = Ok (q', o) ->
  x ∈ given [o] ++ thrown [o] \/ in_line k x (match e with Pop => pred n | _ => n end) q' /\ (e = Pop -> n <> 0%nat).
Proof.
  intros Hok (l & before & after & Hl & Ha & Hn).
  assert (Hadd : forall y q0, in_line k x n q0 -> in_line k x n (add (key y) y q0)).
  { intros y q0 (m & b & a & Hm & Hb & Hlen). assert (exists m', lane (add (key y) y q0) k = x :: m') as [m' Hm'].
    { rewrite add_lane, Hm. case_bool_decide; by eexists. }
    exists m', b. destruct (add_active (key y) y q0) as [E|E]; rewrite E, Hb; [by exists a|].
    exists (a ++ [key y]). by rewrite <-app_assoc. }
  destruct e as [y|]; cbn [step]; intros (p & Hp & Hs)%obind_Ok; destruct p as [q1 r]; injection Hs as <- <-.
  - unfold push in Hp. destruct (_ =? _); [case_bool_decide|].
    + injection Hp as <- <-. right. split; [by exists l, before, after|done].
    + apply obind_Ok in Hp as ([q0 z] & He & [= <- <-]). destruct (evict_lane q q0 z Hok He) as (v & w & -> & Hv & Hj & Hact).
      destruct (decide (v = k)) as [->|Hne].
      * rewrite Hl in Hv. destruct (lane q0 k) as [|x' m] eqn:E0; [injection Hv as <- ->; left; left|].
        injection Hv as <- ->. right. split; [|done]. apply Hadd. destruct Hact as [[_ Hact]|[? _]]; [|done].
        exists m, before, after. by rewrite Hact.
      * right. split; [|done]. apply Hadd. exists l. rewrite Hj by done.
        destruct Hact as [[_ ->]|[_ ->]]; [by exists before, after|]. rewrite Ha, filter_app, filter_cons_True by congruence.
        eexists _, _. split; [done|]. split; [done|]. etransitivity; [apply length_filter|done].
    + injection Hp as <- <-. right. split; [|done]. apply Hadd. by exists l, before, after.
  - pose proof (pop_lane q q1 r Hok Hp) as H. destruct r as [y|]; [|destruct H as [_ H]; rewrite Ha in H; by destruct before].
    destruct H as (j & rest & Hr & Hlj & Hj & Hact). rewrite Ha in Hr. destruct before as [|b before].
    + injection Hr as <- <-. rewrite Hl in Hlj. injection Hlj as <- _. left. left.
    + injection Hr as -> <-. right. cbn in Hn. split; [|lia]. exists l.
      assert (k <> j) by (pose proof (ok_active _ Hok) as Hd; rewrite Ha in Hd; apply NoDup_cons in Hd as [Hd _];
        intros ->; apply Hd, elem_of_app; right; left).
      rewrite Hj by done. exists before. destruct Hact as [->| ->]; [exists after|exists (after ++ [j]); rewrite <-app_assoc];
        (split; [done|]; split; [done|lia]).
Qed.

(** No connection starves. A packet in front of its lane with [n] lanes before it is
    given out by the pop number [n + 1] at the latest, whatever is pushed in between,
    unless it is thrown out before. *)
Theorem flow_served k x n q events q' outs :
  queue_ok q -> in_line k x n q -> run q events = Ok (q', outs) -> (n < pops events)%nat ->
  x ∈ given outs ++ thrown outs.
Proof.
  revert q n outs. induction events as [|e es IH]; intros q n outs Hok Hi; cbn [run]; [cbn; lia|].
  intros ([q1 o] & Hs & ([q2 os] & Hr & [= <- <-])%obind_Ok)%obind_Ok Hp.
  destruct (step_refines q e Hok) as (q1' & o' & Hs' & Hok1 & _). rewrite Hs in Hs'. injection Hs' as <- <-.
  assert (Hx : x ∈ given [o] ++ thrown [o] \/ x ∈ given os ++ thrown os).
  { destruct (step_in_line k x n q e q1 o Hok Hi Hs) as [?|[Hi1 Hn]]; [by left|]. right.
    apply (IH q1 _ os Hok1 Hi1 Hr). destruct e; cbn in *; [done|]. specialize (Hn eq_refl). lia. }
  revert Hx. destruct o as [[]| |[]]; cbn; rewrite ?elem_of_app, ?elem_of_cons; unfold given, thrown; set_solver.
Qed.
End Queue.
Arguments FairQueue K T {_ _}.
Arguments Push {T} x.
Arguments Pop {T}.

(** ** The queue in front of the upload *)

(** [FlowQueue]: packets with the time they came in, and how long the oldest of them waited
    when the last one was taken. *)
Section Upload.
Context {HI : HashIter}.

Record FlowQueue : Type := { fair : FairQueue (option Flow) (bytes * Z); waited : Z }.

Definition new_flow_queue (n : Z) : FlowQueue := {| fair := new_queue n; waited := 0 |}.

Definition push_packet (now : Z) (packet : bytes) (f : FlowQueue) : outcome FlowQueue :=
  let! k := flow packet in
  let! (q, _) := push k (packet, now) (fair f) in
  Ok {| fair := q; waited := waited f |}.

Definition pop_packet (now : Z) (f : FlowQueue) : outcome (FlowQueue * option bytes) :=
  let wait := match oldest snd (fair f) with Some t => sat_sub now t | None => 0 end in
  let! (q, o) := pop (fair f) in
  Ok ({| fair := q; waited := wait |}, fst <$> o).

Fixpoint drain (now : Z) (packets : list bytes) (f : FlowQueue) : outcome FlowQueue :=
  match packets with
  | [] => Ok f
  | p :: packets => let! f := push_packet now p f in drain now packets f
  end.

Inductive TryRecvError : Type := Empty | Disconnected.

(** [try_next]: [rx] are the packets in the channel, [closed] says that no more will come. *)
Definition try_next (now : Z) (rx : list bytes) (closed : bool) (f : FlowQueue)
    : outcome (FlowQueue * list bytes * (bytes + TryRecvError)) :=
  let n := Z.to_nat (capacity (fair f)) in
  let! f := drain now (take n rx) f in
  let! (f, o) := pop_packet now f in
  let empty := if closed && (length rx <? n)%nat then Disconnected else Empty in
  Ok (f, drop n rx, match o with Some p => inl p | None => inr empty end).

(** [next]: [arrival] is what comes into an empty channel, nothing when it is closed first. *)
Definition next (now : Z) (rx : list bytes) (closed : bool) (arrival : option bytes) (f : FlowQueue)
    : outcome (FlowQueue * list bytes * option bytes) :=
  let! (f, rx, r) := try_next now rx closed f in
  match r with
  | inl p => Ok (f, rx, Some p)
  | inr Disconnected => Ok (f, rx, None)
  | inr Empty =>
      match arrival with
      | None => Ok (f, rx, None)
      | Some p =>
          let! f := push_packet now p f in
          let! (f, rx, r) := try_next now [] false f in
          Ok (f, rx, match r with inl p => Some p | inr _ => None end)
      end
  end.

Lemma push_ok {K T} `{!EqDecision K, !Countable K} (k : K) (x : T) q :
  queue_ok q -> exists q' r, push k x q = Ok (q', r) /\ queue_ok q' /\ active q' <> [] /\ capacity q' = capacity q.
Proof.
  intros Hok. destruct (step_refines (fun _ => k) q (Push x) Hok) as (q' & o & E & Hok' & Hc & Hs).
  cbn [step] in E. apply obind_Ok in E as ([q1 r] & E & [= <- <-]). exists q1, r. split_and!; try done.
  intros Ha. assert (Hr : ring q1 = []) by (unfold ring; by rewrite Ha). rewrite Hr in Hs.
  assert (Hadd : forall r', ring_add k x r' <> []) by (intros [|[]]; cbn; [done|]; by case_bool_decide).
  remember [] as e eqn:He in Hs. remember (Push x) as ev eqn:Hev. destruct Hs; subst; try done; injection Hev as ->;
    try (by destruct (Hadd _ He)).
  match goal with H : k ∈ _ |- _ => by apply elem_of_nil in H end.
Qed.

(** What a call does to the packets that wait, whatever the order. *)
Lemma push_bag {K T} `{!EqDecision K, !Countable K} (k : K) (x : T) q :
  queue_ok q ->
  exists q' r, push k x q = Ok (q', r) /\ queue_ok q' /\ capacity q' = capacity q /\
    match r with
    | inl None => q_len q < capacity q /\ waiting q' ≡ₚ x :: waiting q
    | inl (Some y) => q_len q = capacity q /\ y :: waiting q' ≡ₚ x :: waiting q
    | inr _ => q_len q = capacity q /\ waiting q' ≡ₚ waiting q
    end.
Proof.
  intros Hok. destruct (step_refines (fun _ => k) q (Push x) Hok) as (q' & o & E & Hok' & Hc & Hs).
  cbn [step] in E. apply obind_Ok in E as ([q1 r] & E & [= <- <-]). exists q1, r. split_and!; try done.
  rewrite (ok_len _ Hok), !waiting_ring.
  inversion Hs as [? ? Hl|? ? ? ? Hl Hk He|? ? Hl Hk|]; subst; destruct r as [[y'|]|z]; try done; simplify_eq; split; try done.
  - apply ring_add_all.
  - rewrite ring_add_all, (ring_evict_all _ _ _ He). apply perm_swap.
Qed.

Lemma pop_bag {K T} `{!EqDecision K, !Countable K} (q : FairQueue K T) :
  queue_ok q ->
  exists q' o, pop q = Ok (q', o) /\ queue_ok q' /\ capacity q' = capacity q /\ waiting q ≡ₚ option_list o ++ waiting q' /\
    (o = None -> waiting q' = []).
Proof.
  intros Hok. destruct (pop_spec q Hok) as (q' & o & E & Hok' & Hr). exists q', o.
  split; [done|]. split; [done|]. split; [by eapply pop_cap|]. rewrite !waiting_ring. split; [by apply ring_pop_all|].
  intros ->. apply (pop_lane _ _ _ Hok) in E as [-> Ha]. unfold ring. by rewrite Ha.
Qed.

Lemma push_packet_ok now p f :
  bytes_ok p -> queue_ok (fair f) ->
  exists f', push_packet now p f = Ok f' /\ queue_ok (fair f') /\ active (fair f') <> [].
Proof.
  intros Hb Hok. destruct (flow_total p Hb) as [k Ek]. destruct (push_ok k (p, now) (fair f) Hok) as (q & r & E & Hq & Ha & _).
  eexists. unfold push_packet. rewrite Ek. cbn [obind]. rewrite E. split; [done|]. by split.
Qed.

Lemma drain_ok now packets f :
  Forall bytes_ok packets -> queue_ok (fair f) ->
  exists f', drain now packets f = Ok f' /\ queue_ok (fair f') /\
    (active (fair f') = [] <-> active (fair f) = [] /\ packets = []).
Proof.
  revert f. induction packets as [|p l IH]; intros f Hb Hok; [exists f; naive_solver|].
  apply Forall_cons in Hb as [Hp Hb]. destruct (push_packet_ok now p f Hp Hok) as (f1 & E & H1 & Ha).
  destruct (IH f1 Hb H1) as (f2 & E2 & H2 & Ha2). exists f2. cbn [drain]. rewrite E. cbn [obind]. split_and!; try done.
  rewrite Ha2. naive_solver.
Qed.

(** The queue in front of the upload is live. Whatever bytes are in the channel, taking
    the next packet never panics; it gives a packet exactly if one waits or is in the
    channel, and reports the end exactly if there is none and the channel is closed. *)
Theorem try_next_live now rx closed f :
  Forall bytes_ok rx -> queue_ok (fair f) ->
  exists f' r, try_next now rx closed f = Ok (f', drop (Z.to_nat (capacity (fair f))) rx, r) /\ queue_ok (fair f') /\
    match r with
    | inl _ => active (fair f) <> [] \/ rx <> []
    | inr e => active (fair f) = [] /\ rx = [] /\ (e = Disconnected <-> closed = true)
    end.
Proof.
  intros Hb Hok. destruct (ok_full _ Hok) as [Hc _]. unfold try_next. remember (Z.to_nat (capacity (fair f))) as n eqn:En.
  destruct (drain_ok now (take n rx) f (Forall_take _ _ _ Hb) Hok) as (f1 & E1 & H1 & Ha). rewrite E1. cbn [obind].
  assert (Hrx : take n rx = [] <-> rx = []) by (destruct rx, n; cbn; split; try done; lia).
  destruct (pop_spec (fair f1) H1) as (q & o & E2 & H2 & _). unfold pop_packet. rewrite E2. cbn [obind].
  eexists _, _. split; [done|]. split; [done|]. pose proof (pop_lane _ _ _ H1 E2) as Hp. destruct o as [x|]; cbn.
  - destruct Hp as (k & rest & Hact & _). destruct (decide (active (fair f) = [])) as [E0|]; [|by left]. right. intros ->.
    rewrite Hrx in Ha. by rewrite Hact in Ha; destruct Ha as [_ Ha]; specialize (Ha (conj E0 eq_refl)).
  - destruct Hp as [_ Hact]. apply Ha in Hact as [? ->%Hrx]. split_and!; try done. cbn.
    destruct n; [lia|]. by destruct closed.
Qed.
End Upload.

(** ** A sample *)

Section Sample.
#[local] Existing Instance ordered_iter.

Definition two_flows : list (Event (T := Z * Z)) :=
  [Push (1, 10); Push (1, 11); Push (1, 12); Push (2, 20); Push (1, 13); Pop; Pop; Pop].

Lemma queue_exact_witness :
  match run fst (new_queue 3) two_flows with
  | Ok (q, outs) => given outs = [(1, 10); (2, 20); (1, 11)] /\ thrown outs = [(1, 12)] /\
      taken two_flows outs ≡ₚ given outs ++ thrown outs ++ waiting q
  | _ => False
  end.
Proof.
  destruct (run fst (new_queue 3) two_flows) as [[q outs]| |] eqn:E; [|by vm_compute in E..].
  pose proof (proj1 (queue_exact fst 3 two_flows q outs E)) as H. vm_compute in E. injection E as <- <-.
  split; [done|]. split; [done|exact H].
Defined.

Definition crowded : FairQueue Z (Z * Z) :=
  add 2 (2, 20) (add 1 (1, 11) (add 1 (1, 10) (new_queue 3))).

Lemma flow_served_witness :
  match run fst crowded [Push (3, 30); Pop; Push (3, 31); Pop] with
  | Ok (_, outs) => (2, 20) ∈ given outs ++ thrown outs
  | _ => False
  end.
Proof.
  destruct (run fst crowded [Push (3, 30); Pop; Push (3, 31); Pop]) as [[q outs]| |] eqn:E; [|by vm_compute in E..].
  refine (flow_served fst 2 (2, 20) 1 crowded _ q outs _ _ E _); [|exists [], [1], []; by vm_compute|cbn; lia].
  repeat (apply add_ok; [|by vm_compute]). apply new_queue_ok.
Defined.

Lemma try_next_live_witness :
  exists f' r, try_next 5 [[69; 0]; [69; 1]] false (new_flow_queue 4) = Ok (f', [], r) /\ queue_ok (fair f').
Proof.
  destruct (try_next_live 5 [[69; 0]; [69; 1]] false (new_flow_queue 4)) as (f' & r & E & Hok & _).
  - apply Forall_cons. split; [by apply bytes_ok_check|]. apply Forall_singleton. by apply bytes_ok_check.
  - apply new_queue_ok.
  - by exists f', r.
Defined.
End Sample.
