(* ===== verification/Pacing.v ===== *)
(** * Pacing

    [AdaptivePacer] of [pacing.rs]: when the next packet of a direction may leave. Short
    pauses are merged into batches of at most one millisecond and sixty-four packets. The
    arithmetic of the speed-up is floating point and a parameter; deadlines and batches are
    integers, in nanoseconds. The theorem: however fast the pacer is driven, a packet leaves
    at least a millisecond after the one hundred and twenty-eight packets earlier. *)

From S2P Require Import Prelude.
Local Open Scope Z_scope.

(** [Instant] counts seconds in an [i64]. *)
Definition instant_max : Z := 9223372036854775807 * 1000000000 + 999999999.
Definition checked_add (t d : Z) : option Z := if t + d <=? instant_max then Some (t + d) else None.

Definition duration_max : Z := 18446744073709551615 * 1000000000 + 999999999.
Definition duration_add (a b : Z) : Z := Z.min duration_max (a + b).

(** [checked_add(d).unwrap_or(fallback)] *)
Definition add_or (fallback t d : Z) : Z := default fallback (checked_add t d).

Definition CONTROL_INTERVAL : Z := 100 * 1000000.
Definition HIGH_WAIT : Z := 5 * 1000000.
Definition LOW_WAIT : Z := 1000000.
Definition BATCH_INTERVAL : Z := 1000000.
Definition MAX_BATCH_PACKETS : Z := 64.

Module PacingMode.
Inductive t : Type := Adaptive | Full | Off.
End PacingMode.

(** The speed-up: one, one step faster, recovered over a time of idleness, whether it is
    one, and a duration divided by it. *)
Class Speed : Type := {
  speed : Type;
  one : speed;
  faster : speed -> speed;
  recovered : Z -> speed -> speed;
  is_one : speed -> bool;
  div_f64 : Z -> speed -> Z;
}.

Section Pacer.
Context {SP : Speed}.

Record AdaptivePacer : Type := {
  mode : PacingMode.t;
  speedup : speed;
  window_start : option Z;
  min_wait : option Z;
  batch_start : option Z;
  batch_cost : Z;
  batch_packets : Z;
  pending_cost : option Z;
}.

Definition new_pacer (m : PacingMode.t) : AdaptivePacer :=
  {| mode := m; speedup := one; window_start := None; min_wait := None; batch_start := None; batch_cost := 0;
     batch_packets := 0; pending_cost := None |}.

Definition reset (p : AdaptivePacer) : AdaptivePacer := new_pacer (mode p).

Definition set_batch (start : option Z) (cost packets : Z) (pending : option Z) (p : AdaptivePacer) : AdaptivePacer :=
  {| mode := mode p; speedup := speedup p; window_start := window_start p; min_wait := min_wait p; batch_start := start;
     batch_cost := cost; batch_packets := packets; pending_cost := pending |}.

Definition clear_batch (p : AdaptivePacer) : AdaptivePacer := set_batch None 0 0 (pending_cost p) p.

Definition set_window (s : speed) (start wait : Z) (p : AdaptivePacer) : AdaptivePacer :=
  {| mode := mode p; speedup := s; window_start := Some start; min_wait := Some wait; batch_start := batch_start p;
     batch_cost := batch_cost p; batch_packets := batch_packets p; pending_cost := pending_cost p |}.

Definition delay (profile queue_wait now : Z) (p : AdaptivePacer) : AdaptivePacer * Z :=
  match mode p with
  | PacingMode.Full => (p, profile)
  | PacingMode.Off => (p, 0)
  | PacingMode.Adaptive =>
      let start := default now (window_start p) in
      let elapsed := sat_sub now start in
      let observed := Z.min (default queue_wait (min_wait p)) queue_wait in
      let p :=
        if CONTROL_INTERVAL <=? elapsed then
          set_window (if HIGH_WAIT <? observed then faster (speedup p)
                      else if (queue_wait <? LOW_WAIT) && (observed <? LOW_WAIT) then recovered elapsed (speedup p)
                      else speedup p) now queue_wait p
        else set_window (speedup p) start observed p in
      (p, if (profile =? 0) || is_one (speedup p) then profile else Z.max (div_f64 profile (speedup p)) 1)
  end.

Definition sent (now : Z) (p : AdaptivePacer) : AdaptivePacer :=
  match pending_cost p with
  | None => p
  | Some cost =>
      let p := set_batch (batch_start p) (batch_cost p) (batch_packets p) None p in
      let p := match batch_start p with
               | Some start => if BATCH_INTERVAL <=? sat_sub now start then clear_batch p else p
               | None => p
               end in
      set_batch (Some (default now (batch_start p))) (duration_add (batch_cost p) cost) (batch_packets p + 1) None p
  end.

Definition is_adaptive (p : AdaptivePacer) : bool := match mode p with PacingMode.Adaptive => true | _ => false end.

Definition schedule (profile queue_wait now : Z) (last_sent : option Z) (p : AdaptivePacer) : AdaptivePacer * Z :=
  let '(p, d) := delay profile queue_wait now p in
  let p := set_batch (batch_start p) (batch_cost p) (batch_packets p) (if is_adaptive p then Some d else None) p in
  let profile_deadline := Z.max (add_or now (default now last_sent) d) now in
  if negb (is_adaptive p) then (clear_batch p, profile_deadline)
  else
  let p := if BATCH_INTERVAL <=? sat_sub now (default now (batch_start p)) then clear_batch p else p in
  let start := default now (batch_start p) in
  let deadline := if is_one (speedup p) || (BATCH_INTERVAL <=? d) then profile_deadline else now in
  (p,
   if (MAX_BATCH_PACKETS <=? batch_packets p) || ((0 <? batch_packets p) && (BATCH_INTERVAL <? duration_add (batch_cost p) d))
   then Z.max (add_or now start BATCH_INTERVAL) deadline
   else deadline).

(** ** Bursts *)

(** The turn of one packet: it is scheduled, and later it leaves. *)
Record Turn : Type := { t_profile : Z; t_wait : Z; t_last : option Z; t_at : Z; t_sent : Z }.

Definition scheduled (x : Turn) (p : AdaptivePacer) : AdaptivePacer * Z :=
  schedule (t_profile x) (t_wait x) (t_at x) (t_last x) p.
Definition turn (x : Turn) (p : AdaptivePacer) : AdaptivePacer := sent (t_sent x) (scheduled x p).1.

(** The packets leave one after the other, none before its deadline. *)
Fixpoint obeys (p : AdaptivePacer) (before : Z) (l : list Turn) : Prop :=
  match l with
  | [] => True
  | x :: l => before <= t_at x <= t_sent x /\ (scheduled x p).2 <= t_sent x /\
      t_sent x + BATCH_INTERVAL <= instant_max /\ obeys (turn x p) (t_sent x) l
  end.

(** A batch that began at [b] and has [n] packets. *)
Definition in_batch (b n : Z) (p : AdaptivePacer) : Prop :=
  mode p = PacingMode.Adaptive /\ batch_start p = Some b /\ batch_packets p = n /\ 1 <= n <= MAX_BATCH_PACKETS.

Lemma delay_batch profile w now p p' d :
  delay profile w now p = (p', d) -> mode p' = mode p /\ batch_start p' = batch_start p /\ batch_packets p' = batch_packets p.
Proof. unfold delay. repeat case_match; intros [= <- <-]; done. Qed.

(** A packet that leaves within the interval of its batch joins it, and one that leaves
    later begins the next. *)
Lemma turn_batch x p b n :
  in_batch b n p -> b <= t_at x <= t_sent x -> (scheduled x p).2 <= t_sent x -> b + BATCH_INTERVAL <= instant_max ->
  (t_sent x < b + BATCH_INTERVAL /\ in_batch b (n + 1) (turn x p)) \/
  (b + BATCH_INTERVAL <= t_sent x /\ in_batch (t_sent x) 1 (turn x p)).
Proof.
  intros (Hm & Hb & Hn & Hr) Hx Hd Hmax. unfold turn, scheduled, schedule in *.
  destruct (delay (t_profile x) (t_wait x) (t_at x) p) as [p1 d] eqn:Ed. apply delay_batch in Ed as (M1 & B1 & N1).
  rewrite Hm in M1. rewrite Hb in B1. rewrite Hn in N1.
  assert (Ha : is_adaptive p1 = true) by (unfold is_adaptive; by rewrite M1). unfold is_adaptive in *.
  cbn [mode set_batch batch_start batch_packets] in *. rewrite M1 in *. cbn [negb fst snd] in *. rewrite B1 in *. cbn [from_option id] in *.
  assert (Es : forall u, b <= u -> sat_sub u b = u - b) by (unfold sat_sub; lia). rewrite (Es (t_at x)) in * by lia.
  destruct (BATCH_INTERVAL <=? t_at x - b) eqn:Eb; norm_bool Eb.
  - right. split; [lia|]. unfold sent. cbn. unfold in_batch. cbn. split_and!; try done; unfold MAX_BATCH_PACKETS; lia.
  - unfold sent. cbn [pending_cost set_batch fst batch_start]. rewrite ?B1. rewrite (Es (t_sent x)) by lia.
    destruct (BATCH_INTERVAL <=? t_sent x - b) eqn:Eu; norm_bool Eu.
    + right. split; [lia|]. unfold in_batch. cbn. split_and!; try done; unfold MAX_BATCH_PACKETS; lia.
    + left. split; [lia|]. unfold in_batch. cbn. rewrite ?N1, ?B1. split_and!; try done; [lia|].
      destruct (decide (n = MAX_BATCH_PACKETS)) as [->|]; [|lia]. exfalso.
      cbn [batch_packets set_batch snd] in Hd. rewrite N1 in Hd.
      rewrite (proj2 (Z.leb_le MAX_BATCH_PACKETS MAX_BATCH_PACKETS)) in Hd by lia. cbn [orb] in Hd.
      unfold add_or, checked_add in Hd. cbn [batch_start set_batch from_option id] in Hd. rewrite (proj2 (Z.leb_le _ _) Hmax) in Hd. cbn in Hd. lia.
Qed.

Lemma obeys_sorted p t l i y : obeys p t l -> l !! i = Some y -> t <= t_sent y.
Proof.
  revert p t i. induction l as [|x l IH]; intros p t [|i]; [done..| |]; intros (H1 & _ & _ & H2); [intros [= <-]; lia|].
  intros Hy. specialize (IH _ _ _ H2 Hy). lia.
Qed.

(** Within a batch of [n] packets there is room for sixty-four: one of the next packets, or
    the first that does not fit, begins a new batch. *)
Lemma batch_ends l p t b n i y :
  in_batch b n p -> b <= t -> b + BATCH_INTERVAL <= instant_max -> obeys p t l ->
  l !! i = Some y -> MAX_BATCH_PACKETS - n <= Z.of_nat i ->
  exists j x l', (j <= i)%nat /\ l !! j = Some x /\ b + BATCH_INTERVAL <= t_sent x /\ t <= t_sent x /\
    l' = drop (S j) l /\ exists p', in_batch (t_sent x) 1 p' /\ obeys p' (t_sent x) l' /\ t_sent x + BATCH_INTERVAL <= instant_max.
Proof.
  revert p t n i. induction l as [|x l IH]; intros p t n i Hin Hbt Hmax Hob Hi Hn; [done|].
  destruct Hob as (Hx & Hd & Hmx & Hob). destruct (turn_batch x p b n Hin) as [[Hs Hin']|[Hs Hin']]; [lia|done..| |].
  - destruct i as [|i]; [destruct Hin as (_ & _ & _ & ?), Hin' as (_ & _ & _ & ?); lia|].
    destruct (IH (turn x p) (t_sent x) (n + 1) i) as (j & z & l' & Hj & Hz & Hb & Ht & -> & Hp); [done|lia|done..|lia|].
    exists (S j), z, (drop (S j) l). split_and!; try done; lia.
  - exists 0%nat, x, l. split_and!; try done; try lia. by exists (turn x p).
Qed.

(** The first packet begins a batch. *)
Lemma turn_first x m : m = PacingMode.Adaptive -> in_batch (t_sent x) 1 (turn x (new_pacer m)).
Proof.
  intros ->. unfold turn, scheduled, schedule.
  destruct (delay (t_profile x) (t_wait x) (t_at x) (new_pacer PacingMode.Adaptive)) as [p d] eqn:Ed.
  apply delay_batch in Ed as (M & B & N). unfold is_adaptive. cbn in *. rewrite M. cbn. rewrite B. cbn.
  case_match; unfold sent, in_batch; cbn; rewrite ?B; cbn; rewrite ?N; unfold MAX_BATCH_PACKETS; split_and!; first [done | lia].
Qed.

(** Every packet that left is in a batch that began no later. *)
Lemma batch_at l p t b n i x :
  in_batch b n p -> b <= t -> b + BATCH_INTERVAL <= instant_max -> obeys p t l -> l !! i = Some x ->
  exists b' n' p', in_batch b' n' p' /\ b' <= t_sent x /\ b' + BATCH_INTERVAL <= instant_max /\
    obeys p' (t_sent x) (drop (S i) l).
Proof.
  revert p t b n i. induction l as [|z l IH]; intros p t b n i Hin Hbt Hmax Hob Hi; [done|].
  destruct Hob as (Hx & Hd & Hmx & Hob).
  assert (Hz : exists b' n', in_batch b' n' (turn z p) /\ b' <= t_sent z /\ b' + BATCH_INTERVAL <= instant_max).
  { destruct (turn_batch z p b n Hin) as [[Hs Hin']|[Hs Hin']]; [lia|done..| |]; eexists _, _; split_and!; try done; lia. }
  destruct Hz as (b' & n' & Hin' & Hb' & Hm'). destruct i as [|i]; [injection Hi as [= <-]; by exists b', n', (turn z p)|].
  by apply (IH (turn z p) (t_sent z) b' n').
Qed.

(** Bursts are bounded. However the speed-up moves, whatever the pauses of the mask and
    whenever packets come in: a packet that leaves through an adaptive pacer leaves at
    least one batch interval after the packet one hundred and twenty-eight places before
    it. *)
Theorem burst_bounded t l i x y :
  obeys (new_pacer PacingMode.Adaptive) t l -> l !! i = Some x -> l !! (i + 128)%nat = Some y ->
  t_sent x + BATCH_INTERVAL <= t_sent y.
Proof.
  intros Hob Hx Hy.
  assert (Hb : exists b n p, in_batch b n p /\ b <= t_sent x /\ b + BATCH_INTERVAL <= instant_max /\
    obeys p (t_sent x) (drop (S i) l)).
  { destruct l as [|z l]; [done|]. destruct Hob as (_ & _ & Hmx & Hob). pose proof (turn_first z _ eq_refl) as Hin.
    destruct i as [|i]; [injection Hx as [= <-]; eexists _, _, _; split_and!; [exact Hin|lia..|exact Hob]|].
    by apply (batch_at l (turn z (new_pacer PacingMode.Adaptive)) (t_sent z) (t_sent z) 1). }
  destruct Hb as (b & n & p & Hin & Hbx & Hmax & Hob1).
  assert (Hn : 1 <= n <= 64) by apply Hin.
  assert (Hget : drop (S i) l !! 127%nat = Some y) by (rewrite lookup_drop, <- Hy; f_equal; lia).
  destruct (lookup_lt_is_Some_2 (drop (S i) l) 63) as [w Hw]; [apply lookup_lt_Some in Hget; lia|].
  destruct (batch_ends _ _ _ _ _ _ _ Hin Hbx Hmax Hob1 Hw) as (j & u & l2 & Hj & Hu & _ & Hxu & -> & p2 & Hin2 & Hob2 & Hm2);
    [unfold MAX_BATCH_PACKETS; lia|].
  assert (Hy2 : drop (S j) (drop (S i) l) !! (126 - j)%nat = Some y).
  { rewrite lookup_drop, <- Hget. f_equal. lia. }
  destruct (batch_ends _ _ _ _ _ _ _ Hin2 (Z.le_refl _) Hm2 Hob2 Hy2) as (k & v & l3 & Hk & Hv & Huv & _ & -> & p3 & Hin3 & Hob3 & _);
    [unfold MAX_BATCH_PACKETS; lia|].
  destruct (decide (k = (126 - j)%nat)) as [->|Hne]; [rewrite Hv in Hy2; injection Hy2 as [= ->]; lia|].
  assert (Hy3 : drop (S k) (drop (S j) (drop (S i) l)) !! (125 - j - k)%nat = Some y).
  { rewrite lookup_drop, <- Hy2. f_equal. lia. }
  pose proof (obeys_sorted _ _ _ _ _ Hob3 Hy3). lia.
Qed.
End Pacer.

(** A pacer that is never sped up. *)
Definition unit_speed : Speed :=
  {| speed := unit; one := tt; faster s := s; recovered _ s := s; is_one _ := true; div_f64 d _ := d |}.

Definition sample_turn (i : nat) : Turn :=
  let n := Z.of_nat i / 64 in {| t_profile := 0; t_wait := 0; t_last := None; t_at := n * 1000000; t_sent := n * 1000000 |}.
Definition sample_turns : list Turn := sample_turn <$> seq 0 129.

(** Three full batches. *)
Lemma burst_bounded_witness :
  obeys (SP := unit_speed) (new_pacer (SP := unit_speed) PacingMode.Adaptive) 0 sample_turns /\
  t_sent (sample_turn 0) + BATCH_INTERVAL <= t_sent (sample_turn 128).
Proof.
  assert (H : obeys (SP := unit_speed) (new_pacer (SP := unit_speed) PacingMode.Adaptive) 0 sample_turns).
  { vm_compute. repeat split; discriminate. }
  split; [exact H|]. exact (burst_bounded (SP := unit_speed) 0 sample_turns 0 _ _ H eq_refl eq_refl).
Defined.
