(* ===== verification/DownlinkPacer.v ===== *)
(** * The downlink pacer

    [DownlinkPacer] of [gateway/downlink_pacing.rs]: packets for the clients wait in one
    stream for each session, the head of each stream with a deadline in one index. What the
    mimicry engine draws for a packet (size, pause and padding) is an argument of the
    operations. The theorems: the assertions of [debug_check] hold in every reachable state
    and nothing panics; a packet leaves once, under the profile it came in for, and never
    after a change of the profile; deadlines are kept, earliest first; and a session whose
    carrier is not ready holds up no other. *)

From S2P Require Import Prelude Collections Text Protocol Mask Mimicry IpAddr IpPacket FlowQueue Pacing.
Local Open Scope Z_scope.

Definition MAX_PACKETS_PER_SESSION : Z := 64.
Definition MAX_PACKETS_TOTAL : Z := 4096.
Definition MAX_CACHED_STREAMS : Z := 1024.
Definition LIGHT_MAX_DELAY : Z := 2 * 1000000.

(** What of a mask the pacer looks at: the mask with its version, and its reverse profile
    with the version of that. *)
Record Profile : Type := {
  of_mask : MaskProfile;
  version : Z;
  reverse_profile : option (MaskProfile * Z);
}.

Record ProfileKey : Type := {
  k_mask_id : bytes;
  k_version : Z;
  k_signature : bytes;
  k_reverse : option (bytes * Z * bytes);
}.

#[export] Instance ProfileKey_eq_dec : EqDecision ProfileKey.
Proof. solve_decision. Defined.

Definition new_key (profile : Profile) : ProfileKey :=
  {| k_mask_id := mask_id (of_mask profile); k_version := version profile; k_signature := signature (of_mask profile);
     k_reverse := (fun r => (mask_id r.1, r.2, signature r.1)) <$> reverse_profile profile |}.

Definition matches (key : ProfileKey) (profile : Profile) : bool :=
  (k_version key =? version profile)
  && bool_decide (k_signature key = signature (of_mask profile))
  && bool_decide (k_mask_id key = mask_id (of_mask profile))
  && match k_reverse key, reverse_profile profile with
     | None, None => true
     | Some (id, v, sig), Some reverse =>
         bool_decide (id = mask_id reverse.1) && (v =? reverse.2) && bool_decide (sig = signature reverse.1)
     | _, _ => false
     end.

Module DelayMode.
Inductive t : Type := Adaptive | Native | Profile | Light | Immediate.
End DelayMode.

Module ShapingLevel.
Inductive t : Type := Off | Light | Full | Adaptive.
End ShapingLevel.

(** What the engine draws for one packet. *)
Record Shape : Type := { s_size : Z; s_delay : Z; s_padding : option PaddingStrategy.t }.

Record PacedData : Type := {
  session_id : bytes;
  packet : bytes;
  target_size : Z;
  padding_override : option PaddingStrategy.t;
  profile_key : ProfileKey;
}.

Definition matches_profile (d : PacedData) (mask : Profile) : bool := matches (profile_key d) mask.

(** ** Deadlines *)

Definition saturate_add (base delay : Z) : Z := add_or base base delay.
Definition max_instant (left right : Z) : Z := if right <=? left then left else right.

(** The order of the keys of the index: the deadline, then the session. *)
Definition due_ltb (a b : Z * bytes) : bool := (a.1 <? b.1) || ((a.1 =? b.1) && bytes_lt a.2 b.2).

Section Pacer.
Context {SP : Speed} {HI : HashIter}.

Definition sample_shape (drawn : Shape) (mode : DelayMode.t) (queue_wait now : Z) (last_sent : option Z) (pacer : AdaptivePacer)
    : AdaptivePacer * (Z * Z * option PaddingStrategy.t) :=
  let anchor := default now last_sent in
  let pacer := match mode with DelayMode.Adaptive => pacer | _ => reset pacer end in
  let '(pacer, deadline) :=
    match mode with
    | DelayMode.Adaptive => schedule (s_delay drawn) queue_wait now last_sent pacer
    | DelayMode.Profile => (pacer, max_instant now (saturate_add anchor (s_delay drawn)))
    | DelayMode.Light => (pacer, max_instant now (saturate_add anchor (Z.min (s_delay drawn) LIGHT_MAX_DELAY)))
    | DelayMode.Immediate => (pacer, now)
    | DelayMode.Native => (pacer, now)
    end in
  (pacer, (s_size drawn, deadline, s_padding drawn)).

(** ** Streams *)

Record Pending : Type := { p_packet : bytes; queued_at : Z; p_mode : DelayMode.t }.

Record Head : Type := {
  h_packet : bytes;
  h_target_size : Z;
  h_padding_override : option PaddingStrategy.t;
  deadline : Z;
}.

Record Stream : Type := {
  pacer : AdaptivePacer;
  stream_key : ProfileKey;
  fifo : FairQueue (option Flow) Pending;
  head : option Head;
  last_sent : option Z;
  last_use : Z;
}.

Definition new_stream (key : ProfileKey) (now : Z) : Stream :=
  {| pacer := new_pacer PacingMode.Adaptive; stream_key := key; fifo := new_queue (MAX_PACKETS_PER_SESSION - 1);
     head := None; last_sent := None; last_use := now |}.

Definition len_packets (st : Stream) : Z := q_len (fifo st) + (if head st then 1 else 0).

Definition is_idle (st : Stream) : bool := match head st with None => is_empty (fifo st) | Some _ => false end.

(** ** The pacer *)

Record DownlinkPacer : Type := {
  streams : gmap bytes Stream;
  ready : gset (Z * bytes);
  total : Z;
}.

Definition new_downlink : DownlinkPacer := {| streams := ∅; ready := ∅; total := 0 |}.

(** [BTreeMap::first_key_value] *)
Definition first_ready (p : DownlinkPacer) : option (Z * bytes) := min_by due_ltb (elements (ready p)).

Definition next_deadline (p : DownlinkPacer) : option Z := fst <$> first_ready p.

Definition queued (m : gmap bytes Stream) : Z := foldr (fun e n => len_packets e.2 + n) 0 (hash_iter m).
Definition heads (m : gmap bytes Stream) : list (Z * bytes) :=
  base.omap (fun e => (fun h => (deadline h, e.1)) <$> head e.2) (hash_iter m).

(** The assertions of a debug build. *)
Definition debug_check (p : DownlinkPacer) : outcome unit :=
  if (total p <=? MAX_PACKETS_TOTAL) && (Z.of_nat (size (streams p)) <=? MAX_CACHED_STREAMS)
     && (total p =? queued (streams p)) && (size (ready p) =? length (heads (streams p)))%nat
     && forallb (fun e => (len_packets e.2 <=? MAX_PACKETS_PER_SESSION)
                          && match head e.2 with Some h => bool_decide ((deadline h, e.1) ∈ ready p) | None => true end)
          (hash_iter (streams p))
  then Ok tt else Panic.

Definition drop_queued (sid : bytes) (p : DownlinkPacer) : DownlinkPacer :=
  match streams p !! sid with
  | None => p
  | Some st =>
      {| streams := <[sid := {| pacer := pacer st; stream_key := stream_key st; fifo := clear (fifo st); head := None;
                                last_sent := last_sent st; last_use := last_use st |}]> (streams p);
         ready := match head st with Some h => ready p ∖ {[(deadline h, sid)]} | None => ready p end;
         total := sat_sub (total p) (len_packets st) |}
  end.

Definition sync_profile (sid : bytes) (mask : Profile) (p : DownlinkPacer) : DownlinkPacer :=
  match streams p !! sid with
  | None => p
  | Some st =>
      if matches (stream_key st) mask then p
      else
      let p := drop_queued sid p in
      match streams p !! sid with
      | None => p
      | Some st =>
          {| streams := <[sid := {| pacer := reset (pacer st); stream_key := new_key mask; fifo := fifo st; head := head st;
                                    last_sent := None; last_use := last_use st |}]> (streams p);
             ready := ready p; total := total p |}
      end
  end.

Definition make_room_for_new_stream (p : DownlinkPacer) : option DownlinkPacer :=
  if Z.of_nat (size (streams p)) <? MAX_CACHED_STREAMS then Some p
  else
  match min_by (fun a b => last_use a.2 <? last_use b.2) (filter (fun e => is_idle e.2 = true) (hash_iter (streams p))) with
  | None => None
  | Some (sid, _) => Some {| streams := delete sid (streams p); ready := ready p; total := total p |}
  end.

Definition push_packet (sid pkt : bytes) (now : Z) (mode : DelayMode.t) (drawn : Shape) (p : DownlinkPacer)
    : outcome (DownlinkPacer * bool) :=
  match streams p !! sid with
  | None => Panic
  | Some st =>
      match head st with
      | None =>
          let '(a, (size, due, padding)) := sample_shape drawn mode 0 now (last_sent st) (pacer st) in
          let h := {| h_packet := pkt; h_target_size := size; h_padding_override := padding; deadline := due |} in
          let p := {| streams := <[sid := {| pacer := a; stream_key := stream_key st; fifo := fifo st; head := Some h;
                                             last_sent := last_sent st; last_use := now |}]> (streams p);
                      ready := {[(due, sid)]} ∪ ready p; total := total p + 1 |} in
          let! _ := debug_check p in Ok (p, true)
      | Some _ =>
          let! k := flow pkt in
          let! (q, r) := push k {| p_packet := pkt; queued_at := now; p_mode := mode |} (fifo st) in
          let st' := {| pacer := pacer st; stream_key := stream_key st; fifo := q; head := head st;
                        last_sent := last_sent st; last_use := now |} in
          let p' n := {| streams := <[sid := st']> (streams p); ready := ready p; total := n |} in
          match r with
          | inr _ => Ok (p' (total p), false)
          | inl evicted =>
              let p := p' (if evicted then total p else total p + 1) in
              let! _ := debug_check p in Ok (p, true)
          end
      end
  end.

Definition enqueue_mode (sid : bytes) (mask : Profile) (pkt : bytes) (now : Z) (mode : DelayMode.t) (drawn : Shape)
    (p : DownlinkPacer) : outcome (DownlinkPacer * bool) :=
  if MAX_PACKET_SIZE <? len pkt then Ok (p, false)
  else
  let p := sync_profile sid mask p in
  match streams p !! sid with
  | Some st =>
      if (MAX_PACKETS_TOTAL <=? total p) && (len_packets st <? MAX_PACKETS_PER_SESSION) then Ok (p, false)
      else push_packet sid pkt now mode drawn p
  | None =>
      if MAX_PACKETS_TOTAL <=? total p then Ok (p, false)
      else
      match make_room_for_new_stream p with
      | None => Ok (p, false)
      | Some p =>
          push_packet sid pkt now mode drawn
            {| streams := <[sid := new_stream (new_key mask) now]> (streams p); ready := ready p; total := total p |}
      end
  end.

Definition enqueue_shaped (sid : bytes) (mask : Profile) (pkt : bytes) (now : Z) (level : ShapingLevel.t) (drawn : Shape)
    (p : DownlinkPacer) : outcome (DownlinkPacer * bool) :=
  let mode :=
    match level with
    | ShapingLevel.Adaptive => if needs_state (of_mask mask) then DelayMode.Native else DelayMode.Adaptive
    | ShapingLevel.Full => DelayMode.Profile
    | ShapingLevel.Light => DelayMode.Light
    | ShapingLevel.Off => DelayMode.Immediate
    end in
  enqueue_mode sid mask pkt now mode drawn p.

Definition enqueue_unpaced (sid : bytes) (mask : Profile) (pkt : bytes) (now : Z) (drawn : Shape) (p : DownlinkPacer)
    : outcome (DownlinkPacer * bool) :=
  enqueue_mode sid mask pkt now DelayMode.Immediate drawn p.

(** The stream after its head left, with the next packet in its place. *)
Definition advance (now : Z) (drawn : Shape) (st : Stream) : outcome (Stream * option Z) :=
  let a := sent now (pacer st) in
  let queue_wait := match oldest queued_at (fifo st) with Some at_ => sat_sub now at_ | None => 0 end in
  let! (q, o) := pop (fifo st) in
  let st' a h := {| pacer := a; stream_key := stream_key st; fifo := q; head := h; last_sent := Some now; last_use := now |} in
  match o with
  | None => Ok (st' a None, None)
  | Some pending =>
      let '(a, (size, due, padding)) := sample_shape drawn (p_mode pending) queue_wait now (Some now) a in
      Ok (st' a (Some {| h_packet := p_packet pending; h_target_size := size; h_padding_override := padding; deadline := due |}),
          Some due)
  end.

Definition pop_ready (now : Z) (drawn : Shape) (p : DownlinkPacer) : outcome (DownlinkPacer * option PacedData) :=
  match first_ready p with
  | None => Ok (p, None)
  | Some (due, sid) =>
      if now <? due then Ok (p, None)
      else
      match streams p !! sid ≫= (fun st => h ← head st; Some (st, h)) with
      | None =>
          let p := {| streams := streams p; ready := ready p ∖ {[(due, sid)]}; total := total p |} in
          let! _ := debug_check p in Ok (p, None)
      | Some (st, h) =>
          let! (st', next) := advance now drawn st in
          let left_over := ready p ∖ {[(due, sid)]} in
          let p := {| streams := <[sid := st']> (streams p);
                      ready := match next with Some d => {[(d, sid)]} ∪ left_over | None => left_over end;
                      total := sat_sub (total p) 1 |} in
          let! _ := debug_check p in
          Ok (p, Some {| session_id := sid; packet := h_packet h; target_size := h_target_size h;
                         padding_override := h_padding_override h; profile_key := stream_key st' |})
      end
  end.

(** A due head whose session cannot send is put off by twenty milliseconds. *)
Definition put_off (now due : Z) (sid : bytes) (p : DownlinkPacer) : DownlinkPacer :=
  let left_over := ready p ∖ {[(due, sid)]} in
  match streams p !! sid ≫= (fun st => h ← head st; Some (st, h)) with
  | None => {| streams := streams p; ready := left_over; total := total p |}
  | Some (st, h) =>
      let later := saturate_add now (20 * 1000000) in
      {| streams := <[sid := {| pacer := pacer st; stream_key := stream_key st; fifo := fifo st;
                                head := Some {| h_packet := h_packet h; h_target_size := h_target_size h;
                                                h_padding_override := h_padding_override h; deadline := later |};
                                last_sent := last_sent st; last_use := last_use st |}]> (streams p);
         ready := {[(later, sid)]} ∪ left_over; total := total p |}
  end.

(** The loop; without fuel it has not ended. *)
Fixpoint pop_loop (fuel : nat) (now : Z) (can_send : bytes -> bool) (drawn : Shape) (p : DownlinkPacer)
    : outcome (DownlinkPacer * option PacedData) :=
  match fuel with
  | O => Panic
  | S fuel =>
      match first_ready p with
      | None => Ok (p, None)
      | Some (due, sid) =>
          if now <? due then Ok (p, None)
          else if can_send sid then pop_ready now drawn p
          else pop_loop fuel now can_send drawn (put_off now due sid p)
      end
  end.

Definition pop_ready_when (now : Z) (can_send : bytes -> bool) (drawn : Shape) (p : DownlinkPacer)
    : outcome (DownlinkPacer * option PacedData) :=
  pop_loop (S (size (ready p))) now can_send drawn p.

(** ** The invariant *)

Definition stream_ok (st : Stream) : Prop :=
  queue_ok (fifo st) /\ capacity (fifo st) = MAX_PACKETS_PER_SESSION - 1 /\ (head st = None -> q_len (fifo st) = 0).

Record pacer_ok (p : DownlinkPacer) : Prop := {
  ok_streams : forall sid st, streams p !! sid = Some st -> stream_ok st;
  ok_size : Z.of_nat (size (streams p)) <= MAX_CACHED_STREAMS;
  ok_total : total p = queued (streams p);
  ok_limit : total p <= MAX_PACKETS_TOTAL;
  ok_ready : forall d sid, (d, sid) ∈ ready p <-> exists st h, streams p !! sid = Some st /\ head st = Some h /\ deadline h = d;
}.

Definition weight (l : list (bytes * Stream)) : Z := foldr (fun e n => len_packets e.2 + n) 0 l.

#[local] Instance weight_perm' : Proper ((≡ₚ) ==> (=)) weight.
Proof. intros l l' H. unfold weight. induction H; cbn; lia. Qed.

Lemma queued_insert m sid st : m !! sid = None -> queued (<[sid := st]> m) = len_packets st + queued m.
Proof.
  intros H. change (weight (hash_iter (<[sid := st]> m)) = len_packets st + weight (hash_iter m)).
  rewrite !hash_iter_perm, map_to_list_insert by done. done.
Qed.

Definition old_len (m : gmap bytes Stream) (sid : bytes) : Z := match m !! sid with Some st => len_packets st | None => 0 end.

Lemma queued_delete m sid : queued m = old_len m sid + queued (delete sid m).
Proof.
  unfold old_len. destruct (m !! sid) as [st|] eqn:E; [|by rewrite delete_id].
  rewrite <- (insert_delete_id m sid st E) at 1. by rewrite queued_insert by apply lookup_delete_eq.
Qed.

Lemma queued_update m sid st : queued (<[sid := st]> m) = len_packets st + (queued m - old_len m sid).
Proof.
  rewrite <- insert_delete_eq, queued_insert by apply lookup_delete_eq. rewrite (queued_delete m sid). lia.
Qed.

Lemma len_packets_ok st : stream_ok st -> 0 <= len_packets st <= MAX_PACKETS_PER_SESSION.
Proof.
  intros (Hq & Hc & Hh). unfold len_packets. destruct (ok_full _ Hq) as [_ ?]. pose proof (ok_len _ Hq). unfold MAX_PACKETS_PER_SESSION in *.
  destruct (head st); lia.
Qed.

Lemma weight_nonneg l : Forall (fun e => stream_ok e.2) l -> 0 <= weight l.
Proof. induction 1 as [|e l H _ IH]; [done|]. cbn. pose proof (len_packets_ok _ H). unfold weight in IH. lia. Qed.

Lemma queued_nonneg m : (forall sid st, m !! sid = Some st -> stream_ok st) -> 0 <= queued m.
Proof. intros H. apply weight_nonneg, Forall_forall. intros [sid st] He%elem_of_iter. by eapply H. Qed.

Lemma old_len_le p sid : pacer_ok p -> old_len (streams p) sid <= total p.
Proof.
  intros Hok. rewrite (ok_total _ Hok), (queued_delete _ sid). enough (0 <= queued (delete sid (streams p))) by lia.
  apply queued_nonneg. intros s st [_ H]%lookup_delete_Some. by eapply ok_streams.
Qed.

(** A pacer in which one stream changed. *)
Lemma update_ok p sid st r n :
  pacer_ok p -> stream_ok st -> (is_Some (streams p !! sid) \/ Z.of_nat (size (streams p)) < MAX_CACHED_STREAMS) ->
  n = total p - old_len (streams p) sid + len_packets st -> n <= MAX_PACKETS_TOTAL ->
  (forall d s, (d, s) ∈ r <-> if bool_decide (s = sid) then deadline <$> head st = Some d else (d, s) ∈ ready p) ->
  pacer_ok {| streams := <[sid := st]> (streams p); ready := r; total := n |}.
Proof.
  intros Hok Hst Hsz Hn Hl Hr. split; cbn.
  - intros s st' [[<- <-]|[_ H]]%lookup_insert_Some; [done|by eapply ok_streams].
  - pose proof (ok_size _ Hok). rewrite map_size_insert. destruct (streams p !! sid) eqn:E; [done|].
    destruct Hsz as [[? ?]|]; [done|lia].
  - rewrite queued_update, Hn, (ok_total _ Hok). lia.
  - done.
  - intros d s. rewrite Hr. case_bool_decide as D; [subst s; rewrite lookup_insert_eq|rewrite lookup_insert_ne by congruence; apply Hok].
    rewrite fmap_Some. split; [intros (h & ? & ->); by exists st, h|intros (? & h & [= <-] & ? & <-); by exists h].
Qed.

Lemma heads_spec m d sid : (d, sid) ∈ heads m <-> exists st h, m !! sid = Some st /\ head st = Some h /\ deadline h = d.
Proof.
  unfold heads. rewrite list_elem_of_omap. split.
  - intros ([s st] & He%elem_of_iter & (h & Eh & [= -> ->])%fmap_Some). by exists st, h.
  - intros (st & h & He & Eh & <-). exists (sid, st). split; [by apply elem_of_iter|]. cbn. by rewrite Eh.
Qed.

Lemma heads_NoDup m : NoDup (heads m).
Proof.
  unfold heads. pose proof (NoDup_iter m) as Hn. induction (hash_iter m) as [|[s st] l IH]; [constructor|].
  cbn in Hn. apply NoDup_cons in Hn as [Hs Hn]. cbn. destruct (head st) as [h|]; cbn; [|auto]. constructor; [|auto].
  intros ([s' st'] & Hin & (h' & _ & [= _ ->])%fmap_Some)%list_elem_of_omap. apply Hs, list_elem_of_fmap. by exists (s', st').
Qed.

(** The assertions follow from the invariant. *)
Lemma debug_check_ok p : pacer_ok p -> debug_check p = Ok tt.
Proof.
  intros Hok. unfold debug_check. rewrite (proj2 (Z.leb_le _ _) (ok_limit _ Hok)), (proj2 (Z.leb_le _ _) (ok_size _ Hok)).
  rewrite (proj2 (Z.eqb_eq _ _) (ok_total _ Hok)).
  assert (Hs : size (ready p) = length (heads (streams p))).
  { rewrite <- (size_list_to_set (C := gset (Z * bytes)) _ (heads_NoDup (streams p))). f_equal. apply set_eq. intros [d s].
    by rewrite elem_of_list_to_set, heads_spec, (ok_ready _ Hok). }
  rewrite Hs, Nat.eqb_refl. cbn [andb].
  assert (Hf : forallb (fun e => (len_packets e.2 <=? MAX_PACKETS_PER_SESSION)
      && match head e.2 with Some h => bool_decide ((deadline h, e.1) ∈ ready p) | None => true end) (hash_iter (streams p)) = true).
  { apply forallb_forall. intros [s st] He%list_elem_of_In%elem_of_iter. cbn.
    rewrite (proj2 (Z.leb_le _ _) (proj2 (len_packets_ok _ (ok_streams _ Hok _ _ He)))). destruct (head st) eqn:Eh; [|done].
    apply bool_decide_eq_true_2, (ok_ready _ Hok). by exists st, h. }
  by rewrite Hf.
Qed.

Lemma new_downlink_ok : pacer_ok new_downlink.
Proof.
  split; cbn; [intros sid st; by rewrite lookup_empty|by rewrite map_size_empty| |done|].
  - change (0 = weight (hash_iter (∅ : gmap bytes Stream))). by rewrite hash_iter_perm, map_to_list_empty.
  - intros d sid. split; [by intros ?%elem_of_empty|]. intros (st & h & H & _). by rewrite lookup_empty in H.
Qed.

(** ** The index *)

Lemma due_ltb_lt a b : due_ltb a b = true -> a.1 <= b.1.
Proof. unfold due_ltb. intros [H|[H _]%andb_prop]%orb_prop; norm_bool H; lia. Qed.
Lemma due_ltb_ge a b : due_ltb a b = false -> b.1 <= a.1.
Proof. unfold due_ltb. intros [H _]%orb_false_elim. norm_bool H. lia. Qed.

Lemma min_from_due (best : Z * bytes) l :
  (min_from due_ltb best l).1 <= best.1 /\ forall e, e ∈ l -> (min_from due_ltb best l).1 <= e.1.
Proof.
  revert best. induction l as [|x l IH]; intros best; [cbn; split; [lia|by intros e ?%elem_of_nil]|]. cbn [min_from].
  destruct (IH (if due_ltb x best then x else best)) as [H1 H2].
  assert ((if due_ltb x best then x else best).1 <= best.1 /\ (if due_ltb x best then x else best).1 <= x.1).
  { destruct (due_ltb x best) eqn:E; [apply due_ltb_lt in E|apply due_ltb_ge in E]; lia. }
  split; [lia|]. intros e [->|He]%elem_of_cons; [lia|by apply H2].
Qed.

Lemma first_ready_spec p : 
  match first_ready p with
  | None => ready p = ∅
  | Some (d, sid) => (d, sid) ∈ ready p /\ forall d' s, (d', s) ∈ ready p -> d <= d'
  end.
Proof.
  unfold first_ready. destruct (min_by due_ltb (elements (ready p))) as [[d sid]|] eqn:E.
  - split; [by apply elem_of_elements, (min_by_elem due_ltb)|]. intros d' s He%elem_of_elements.
    destruct (elements (ready p)) as [|x l]; [done|]. injection E as E. destruct (min_from_due x l) as [H1 H2]. rewrite E in *.
    apply elem_of_cons in He as [<-|He]; [done|by apply (H2 (d', s))].
  - apply min_by_None, elements_empty_iff in E. by apply leibniz_equiv.
Qed.

(** ** The operations *)

(** The packets of a stream. *)
Definition stream_packets (st : Stream) : list bytes := option_list (h_packet <$> head st) ++ map p_packet (waiting (fifo st)).

Lemma matches_key k mask : matches k mask = bool_decide (k = new_key mask).
Proof.
  destruct k as [id v sig rev]. unfold matches, new_key. cbn.
  destruct (Z.eqb_spec v (version mask)); cbn; [|rewrite bool_decide_eq_false_2 by congruence; done].
  case_bool_decide; cbn; [|rewrite bool_decide_eq_false_2 by congruence; done].
  case_bool_decide; cbn; [|rewrite bool_decide_eq_false_2 by congruence; done]. subst.
  destruct rev as [[[i w] g]|], (reverse_profile mask) as [[m w']|]; cbn;
    [|by rewrite bool_decide_eq_false_2 by congruence..|by rewrite bool_decide_eq_true_2].
  destruct (Z.eqb_spec w w'); repeat case_bool_decide; cbn; congruence.
Qed.

Lemma downlink_clear_ok (q : FairQueue (option Flow) Pending) : queue_ok q -> queue_ok (clear q).
Proof.
  intros H. destruct (ok_full _ H). split; cbn; [constructor| |by intros k ?%elem_of_nil|done|lia].
  intros k l. by rewrite lookup_empty.
Qed.

Lemma downlink_drop_ok p sid st :
  pacer_ok p -> streams p !! sid = Some st ->
  pacer_ok (drop_queued sid p) /\ exists st', streams (drop_queued sid p) = <[sid := st']> (streams p) /\
    stream_packets st' = [] /\ total (drop_queued sid p) = total p - len_packets st.
Proof.
  intros Hok E. pose proof (ok_streams _ Hok _ _ E) as Hst. destruct (Hst) as (Hq & Hc & _).
  pose proof (len_packets_ok _ Hst). pose proof (old_len_le p sid Hok) as Ho. pose proof (ok_limit _ Hok).
  unfold old_len in Ho. rewrite E in Ho. unfold drop_queued. rewrite E. cbn [streams total]. split.
  - apply update_ok; try done.
    + split_and!; [by apply downlink_clear_ok|done..].
    + left. by rewrite E.
    + unfold old_len. rewrite E. unfold sat_sub. rewrite Z.max_r by lia. unfold len_packets. cbn. lia.
    + unfold sat_sub. lia.
    + intros d s. cbn. assert (Hr := ok_ready _ Hok d s). case_bool_decide as D.
      * subst s. split; [|done]. intros Hin. exfalso. destruct (head st) as [h|] eqn:Eh.
        -- apply elem_of_difference in Hin as [Hin Hn]. apply Hr in Hin as (? & h' & E' & Eh' & <-). simplify_eq.
           by apply Hn, elem_of_singleton.
        -- apply Hr in Hin as (? & h' & E' & Eh' & _). simplify_eq.
      * destruct (head st) as [h|]; [|done]. rewrite elem_of_difference, elem_of_singleton. naive_solver.
  - eexists. split; [done|]. split; [done|]. unfold sat_sub. lia.
Qed.

Lemma sync_ok p sid mask :
  pacer_ok p ->
  pacer_ok (sync_profile sid mask p) /\
  match streams p !! sid with
  | None => sync_profile sid mask p = p
  | Some st => exists st', streams (sync_profile sid mask p) = <[sid := st']> (streams p) /\ stream_key st' = new_key mask /\
      stream_packets st' = if bool_decide (stream_key st = new_key mask) then stream_packets st else []
  end.
Proof.
  intros Hok. unfold sync_profile. destruct (streams p !! sid) as [st|] eqn:E; [|done]. rewrite matches_key.
  case_bool_decide as D; [split; [done|]; exists st; by rewrite insert_id|].
  destruct (downlink_drop_ok p sid st Hok E) as (Hok' & st' & Es & Hp & _). rewrite Es, lookup_insert_eq. split.
  - rewrite <- Es. assert (E' : streams (drop_queued sid p) !! sid = Some st') by (by rewrite Es, lookup_insert_eq).
    pose proof (ok_streams _ Hok' _ _ E') as Hst. apply update_ok; try done.
    + left. by rewrite E'.
    + unfold old_len. rewrite E'. unfold len_packets. cbn. lia.
    + apply Hok'.
    + intros d s. cbn. case_bool_decide as D'; [subst s|done]. rewrite (ok_ready _ Hok'), E', fmap_Some. naive_solver.
  - eexists. split; [apply insert_insert_eq|]. by split.
Qed.

Lemma waiting_nil (q : FairQueue (option Flow) Pending) : queue_ok q -> q_len q = 0 -> waiting q = [].
Proof. intros H E. rewrite (ok_len _ H) in E. destruct (waiting q); [done|cbn in E; lia]. Qed.

Lemma push_sub (x : Pending) (q q' : FairQueue (option Flow) Pending) (r : option Pending + Pending) :
  match r with
  | inl None => q_len q < capacity q /\ waiting q' ≡ₚ x :: waiting q
  | inl (Some y) => q_len q = capacity q /\ y :: waiting q' ≡ₚ x :: waiting q
  | inr _ => q_len q = capacity q /\ waiting q' ≡ₚ waiting q
  end -> map p_packet (waiting q') ⊆+ (if r then [p_packet x] else []) ++ map p_packet (waiting q).
Proof.
  destruct r as [[y|]|z]; intros [_ Hr]; apply (fmap_Permutation p_packet) in Hr; cbn in *; rewrite <- ?Hr; try done.
  by apply submseteq_cons.
Qed.

Lemma push_packet_spec sid pkt now mode drawn p st :
  pacer_ok p -> streams p !! sid = Some st -> bytes_ok pkt ->
  (total p < MAX_PACKETS_TOTAL \/ len_packets st = MAX_PACKETS_PER_SESSION) ->
  exists p' b, push_packet sid pkt now mode drawn p = Ok (p', b) /\ pacer_ok p' /\
    exists st', streams p' = <[sid := st']> (streams p) /\ stream_key st' = stream_key st /\
      stream_packets st' ⊆+ (if b then [pkt] else []) ++ stream_packets st.
Proof.
  intros Hok E Hb Hroom. pose proof (ok_streams _ Hok _ _ E) as Hst. destruct (Hst) as (Hq & Hc & Hh). pose proof (ok_limit _ Hok).
  unfold push_packet. rewrite E. destruct (head st) as [h|] eqn:Eh.
  - destruct (flow_total pkt Hb) as [k ->]. cbn [obind].
    destruct (push_bag k {| p_packet := pkt; queued_at := now; p_mode := mode |} (fifo st) Hq) as (q & r & -> & Hq' & Hc' & Hr). cbn [obind].
    assert (Hn : q_len q = q_len (fifo st) + match r with inl None => 1 | _ => 0 end).
    { rewrite (ok_len _ Hq), (ok_len _ Hq'). destruct r as [[y|]|z]; destruct Hr as [_ Hr]; apply Permutation_length in Hr; cbn in Hr; lia. }
    assert (Hp' : pacer_ok {| streams := <[sid := {| pacer := pacer st; stream_key := stream_key st; fifo := q; head := Some h;
        last_sent := last_sent st; last_use := now |}]> (streams p); ready := ready p;
        total := total p + match r with inl None => 1 | _ => 0 end |}).
    { apply update_ok; try done.
      + split_and!; [done|by rewrite <- Hc|done].
      + left. by rewrite E.
      + unfold old_len. rewrite E. unfold len_packets. cbn. rewrite Hn, Eh. lia.
      + destruct r as [[y|]|z]; [lia| |lia]. destruct Hr as [Hr _], Hroom as [|Hf]; [lia|].
        unfold len_packets in Hf. rewrite Eh in Hf. unfold MAX_PACKETS_PER_SESSION in *. lia.
      + intros d s. cbn. case_bool_decide as D; [subst s|done]. rewrite (ok_ready _ Hok), E. naive_solver. }
    assert (Hbag : h_packet h :: map p_packet (waiting q) ⊆+ (if r then [pkt] else []) ++ stream_packets st).
    { unfold stream_packets. rewrite Eh. cbn. rewrite <- Permutation_middle. apply submseteq_skip. by apply push_sub in Hr. }
    destruct r as [[y|]|z].
    + rewrite Z.add_0_r in Hp'. rewrite (debug_check_ok _ Hp'). eexists _, true. split; [done|]. split; [done|].
      eexists. split; [done|]. split; [done|]. exact Hbag.
    + rewrite (debug_check_ok _ Hp'). eexists _, true. split; [done|]. split; [done|].
      eexists. split; [done|]. split; [done|]. exact Hbag.
    + rewrite Z.add_0_r in Hp'. eexists _, false. split; [done|]. split; [done|].
      eexists. split; [done|]. split; [done|]. exact Hbag.
  - destruct (sample_shape drawn mode 0 now (last_sent st) (pacer st)) as [a [[size due] padding]].
    assert (Hp' : pacer_ok {| streams := <[sid := {| pacer := a; stream_key := stream_key st; fifo := fifo st;
        head := Some {| h_packet := pkt; h_target_size := size; h_padding_override := padding; deadline := due |};
        last_sent := last_sent st; last_use := now |}]> (streams p); ready := {[(due, sid)]} ∪ ready p; total := total p + 1 |}).
    { apply update_ok; try done.
      + left. by rewrite E.
      + unfold old_len. rewrite E. unfold len_packets. cbn. rewrite Eh. lia.
      + destruct Hroom as [|Hf]; [lia|]. unfold len_packets in Hf. rewrite Eh, (Hh eq_refl) in Hf. done.
      + intros d s. cbn. rewrite elem_of_union, elem_of_singleton. case_bool_decide as D; [subst s|naive_solver].
        rewrite (ok_ready _ Hok), E. naive_solver. }
    rewrite (debug_check_ok _ Hp'). eexists _, true. split; [done|]. split; [done|]. eexists. split; [done|]. split; [done|].
    unfold stream_packets. cbn. by rewrite Eh, (waiting_nil _ Hq (Hh eq_refl)).
Qed.

Lemma downlink_room_ok p p' :
  pacer_ok p -> make_room_for_new_stream p = Some p' ->
  pacer_ok p' /\ streams p' ⊆ streams p /\ Z.of_nat (size (streams p')) < MAX_CACHED_STREAMS /\ total p' = total p.
Proof.
  intros Hok. unfold make_room_for_new_stream. destruct (Z.ltb_spec (Z.of_nat (size (streams p))) MAX_CACHED_STREAMS) as [Hs|Hs];
    [by intros [= <-]|].
  destruct (min_by _ _) as [[sid st]|] eqn:Em; [|done]. intros [= <-]. cbn [streams total].
  apply min_by_elem, list_elem_of_filter in Em as [Hi He%elem_of_iter]. cbn in Hi. unfold is_idle in Hi.
  destruct (head st) eqn:Eh; [done|]. unfold is_empty in Hi. norm_bool Hi.
  assert (Hsz : size (streams p) = S (size (delete sid (streams p)))).
  { rewrite <- (insert_delete_id _ _ _ He) at 1. apply map_size_insert_None, lookup_delete_eq. }
  pose proof (ok_size _ Hok). split; [|split; [apply delete_subseteq|split; [lia|done]]].
  split; cbn [streams ready total]; try apply Hok.
  - intros s st' [_ H']%lookup_delete_Some. by eapply ok_streams.
  - lia.
  - rewrite (ok_total _ Hok), (queued_delete _ sid). unfold old_len, len_packets. rewrite He, Eh, Hi. lia.
  - intros d s. rewrite (ok_ready _ Hok). split; intros (st' & h & H1 & H2 & H3); exists st', h; split_and!; try done.
    + apply lookup_delete_Some. split; [|done]. intros ->. simplify_eq.
    + by apply lookup_delete_Some in H1 as [_ ?].
Qed.

(** The packets of a session that stay when a packet comes in under a profile. *)
Definition kept (sid : bytes) (mask : Profile) (p : DownlinkPacer) : list bytes :=
  match streams p !! sid with
  | Some st => if bool_decide (stream_key st = new_key mask) then stream_packets st else []
  | None => []
  end.

Definition enqueued (sid : bytes) (mask : Profile) (new : list bytes) (p p' : DownlinkPacer) : Prop :=
  forall s st, streams p' !! s = Some st ->
    if bool_decide (s = sid) then stream_key st = new_key mask /\ stream_packets st ⊆+ new ++ kept sid mask p
    else streams p !! s = Some st.

Lemma sync_enqueued sid mask p : pacer_ok p -> enqueued sid mask [] p (sync_profile sid mask p).
Proof.
  intros Hok s st Hs. destruct (sync_ok p sid mask Hok) as [_ H]. unfold kept. destruct (streams p !! sid) as [st0|] eqn:E0.
  - destruct H as (st' & Es & Hk & Hp). rewrite Es in Hs. destruct (bool_decide_reflect (s = sid)) as [->|D].
    + rewrite lookup_insert_eq in Hs. injection Hs as <-. split; [done|]. by rewrite Hp.
    + by rewrite lookup_insert_ne in Hs.
  - rewrite H in Hs. destruct (bool_decide_reflect (s = sid)) as [->|D]; [congruence|done].
Qed.

Lemma push_enqueued sid mask pkt now mode drawn p p1 st :
  pacer_ok p1 -> streams p1 !! sid = Some st -> bytes_ok pkt ->
  (total p1 < MAX_PACKETS_TOTAL \/ len_packets st = MAX_PACKETS_PER_SESSION) -> enqueued sid mask [] p p1 ->
  exists p' b, push_packet sid pkt now mode drawn p1 = Ok (p', b) /\ pacer_ok p' /\
    enqueued sid mask (if b then [pkt] else []) p p'.
Proof.
  intros Hok E Hb Hr He. destruct (push_packet_spec sid pkt now mode drawn p1 st) as (p' & b & Ep & Hok' & st' & Es & Hk & Hp); try done.
  exists p', b. split; [done|]. split; [done|]. intros s x Hx. rewrite Es in Hx. specialize (He s).
  destruct (decide (s = sid)) as [->|D]; [rewrite bool_decide_eq_true_2 in * by done|rewrite bool_decide_eq_false_2 in * by done].
  - rewrite lookup_insert_eq in Hx. injection Hx as <-. destruct (He st E) as [Hk' Hp']. split; [congruence|].
    etrans; [exact Hp|]. by apply submseteq_skips_l.
  - rewrite lookup_insert_ne in Hx by done. by apply He.
Qed.

Lemma insert_new_ok p sid mask now :
  pacer_ok p -> streams p !! sid = None -> Z.of_nat (size (streams p)) < MAX_CACHED_STREAMS ->
  pacer_ok {| streams := <[sid := new_stream (new_key mask) now]> (streams p); ready := ready p; total := total p |}.
Proof.
  intros Hok E Hs. apply update_ok; try done.
  - split_and!; [apply new_queue_ok|done..].
  - by right.
  - unfold old_len. rewrite E. unfold len_packets. cbn. lia.
  - apply Hok.
  - intros d s. cbn. case_bool_decide as D; [subst s|done]. rewrite (ok_ready _ Hok), E. naive_solver.
Qed.

Lemma enqueue_spec sid mask pkt now mode drawn p :
  pacer_ok p -> bytes_ok pkt ->
  exists p' b, enqueue_mode sid mask pkt now mode drawn p = Ok (p', b) /\ pacer_ok p' /\
    if MAX_PACKET_SIZE <? len pkt then p' = p /\ b = false else enqueued sid mask (if b then [pkt] else []) p p'.
Proof.
  intros Hok Hb. unfold enqueue_mode. destruct (MAX_PACKET_SIZE <? len pkt); [by exists p, false|].
  pose proof (sync_ok p sid mask Hok) as [Hok1 _]. pose proof (sync_enqueued sid mask p Hok) as He.
  set (p1 := sync_profile sid mask p) in *. destruct (streams p1 !! sid) as [st|] eqn:E.
  - destruct (_ && _) eqn:Ef; [by exists p1, false|].
    pose proof (len_packets_ok _ (ok_streams _ Hok1 _ _ E)) as Hl. pose proof (ok_limit _ Hok1).
    apply (push_enqueued sid mask pkt now mode drawn p p1 st); try done.
    apply andb_false_iff in Ef as [Ef|Ef]; norm_bool Ef; lia.
  - destruct (Z.leb_spec MAX_PACKETS_TOTAL (total p1)); [by exists p1, false|].
    destruct (make_room_for_new_stream p1) as [p2|] eqn:Em; [|by exists p1, false].
    destruct (downlink_room_ok p1 p2 Hok1 Em) as (Hok2 & Hsub & Hsz & Ht).
    assert (E2 : streams p2 !! sid = None) by (by eapply lookup_weaken_None).
    eapply (push_enqueued sid mask pkt now mode drawn p); [by apply insert_new_ok|apply lookup_insert_eq|done|left; cbn; lia|].
    intros s st. cbn. case_bool_decide as D; [subst s; rewrite lookup_insert_eq; intros [= <-]|rewrite lookup_insert_ne by done].
    + split; [done|]. apply submseteq_nil_l.
    + intros Hs. specialize (He s st (lookup_weaken _ _ _ _ Hs Hsub)). by rewrite bool_decide_eq_false_2 in He.
Qed.

(** ** The heads *)

Lemma advance_spec now drawn st h :
  stream_ok st -> head st = Some h ->
  exists st', advance now drawn st = Ok (st', deadline <$> head st') /\ stream_ok st' /\ stream_key st' = stream_key st /\
    stream_packets st ≡ₚ h_packet h :: stream_packets st' /\ len_packets st' = len_packets st - 1.
Proof.
  intros (Hq & Hc & _) Eh. unfold advance. destruct (pop_bag (fifo st) Hq) as (q & o & -> & Hq' & Hc' & Hw & Hn). cbn [obind].
  assert (Hl : q_len (fifo st) = len (option_list o) + q_len q).
  { rewrite (ok_len _ Hq), (ok_len _ Hq'). apply Permutation_length in Hw. rewrite length_app in Hw. lia. }
  assert (Hp : stream_packets st ≡ₚ h_packet h :: map p_packet (option_list o ++ waiting q)).
  { unfold stream_packets. rewrite Eh. cbn. constructor. by apply (fmap_Permutation p_packet). }
  destruct o as [pending|]; cbn [option_list app] in *.
  - destruct (sample_shape drawn (p_mode pending) _ now (Some now) (sent now (pacer st))) as [a [[size due] padding]].
    match goal with |- context [Ok (?x, _)] => exists x end. split; [reflexivity|]. split; [split_and!; [done|cbn; congruence|done]|]. split; [done|]. split; [done|].
    unfold len_packets. cbn. rewrite Eh. cbn in Hl. lia.
  - match goal with |- context [Ok (?x, _)] => exists x end. split; [reflexivity|]. split; [split_and!; [done|cbn; congruence|]|].
    + intros _. cbn. rewrite (ok_len _ Hq'), Hn by done. done.
    + split; [done|]. split; [done|]. unfold len_packets. cbn. rewrite Eh. cbn in Hl. lia.
Qed.

(** The stream behind the first entry of the index. *)
Lemma first_stream p due sid :
  pacer_ok p -> first_ready p = Some (due, sid) ->
  exists st h, streams p !! sid = Some st /\ head st = Some h /\ deadline h = due /\ (forall d s, (d, s) ∈ ready p -> due <= d).
Proof.
  intros Hok E. pose proof (first_ready_spec p) as H. rewrite E in H. destruct H as [Hin Hmin].
  apply (ok_ready _ Hok) in Hin as (st & h & ? & ? & ?). by exists st, h.
Qed.

(** The index when the deadline of one head changes. *)
Lemma moved_ready p due sid st h next :
  pacer_ok p -> streams p !! sid = Some st -> head st = Some h -> deadline h = due ->
  forall d s, (d, s) ∈ (match next with Some n => {[(n, sid)]} ∪ ready p ∖ {[(due, sid)]} | None => ready p ∖ {[(due, sid)]} end)
    <-> if bool_decide (s = sid) then next = Some d else (d, s) ∈ ready p.
Proof.
  intros Hok E Eh Ed d s. assert (Hr := ok_ready _ Hok d s).
  case_bool_decide as D; [subst s|destruct next; rewrite ?elem_of_union, elem_of_difference, !elem_of_singleton; naive_solver].
  rewrite E in Hr. destruct next; rewrite ?elem_of_union, elem_of_difference, !elem_of_singleton; naive_solver.
Qed.

Lemma pop_ready_spec now drawn p :
  pacer_ok p ->
  exists p' o, pop_ready now drawn p = Ok (p', o) /\ pacer_ok p' /\
    match o with
    | None => p' = p /\ forall d s, (d, s) ∈ ready p -> now < d
    | Some x => exists st st' h, streams p !! session_id x = Some st /\ head st = Some h /\
        streams p' = <[session_id x := st']> (streams p) /\ stream_key st' = stream_key st /\ profile_key x = stream_key st /\
        packet x = h_packet h /\ stream_packets st ≡ₚ packet x :: stream_packets st' /\
        deadline h <= now /\ (forall d s, (d, s) ∈ ready p -> deadline h <= d)
    end.
Proof.
  intros Hok. unfold pop_ready. destruct (first_ready p) as [[due sid]|] eqn:Ef.
  2: { exists p, None. split_and!; try done. intros d s. pose proof (first_ready_spec p) as H. rewrite Ef in H. by rewrite H. }
  destruct (first_stream p due sid Hok Ef) as (st & h & E & Eh & Ed & Hmin).
  destruct (Z.ltb_spec now due); [exists p, None; split_and!; try done; intros d s Hd%Hmin; lia|].
  rewrite E. cbn. rewrite Eh. cbn. pose proof (ok_streams _ Hok _ _ E) as Hst.
  destruct (advance_spec now drawn st h Hst Eh) as (st' & -> & Hst' & Hk & Hp & Hl). cbn [obind].
  assert (Ho : old_len (streams p) sid = len_packets st) by (unfold old_len; by rewrite E).
  pose proof (old_len_le p sid Hok). pose proof (len_packets_ok _ Hst'). pose proof (ok_limit _ Hok).
  assert (Hok' : pacer_ok {| streams := <[sid := st']> (streams p);
      ready := match deadline <$> head st' with Some d => {[(d, sid)]} ∪ ready p ∖ {[(due, sid)]} | None => ready p ∖ {[(due, sid)]} end;
      total := sat_sub (total p) 1 |}).
  { apply update_ok; try done; [left; by rewrite E|unfold sat_sub; lia..|]. by apply (moved_ready p due sid st h). }
  rewrite (debug_check_ok _ Hok'). cbn [obind]. eexists _, _. split; [done|]. split; [done|]. cbn.
  exists st, st', h. split_and!; try done; [lia|]. by rewrite Ed.
Qed.

(** ** Sessions that cannot send *)

(** What a session was given. *)
Definition given_to (s : bytes) (o : option PacedData) : list bytes :=
  match o with Some x => if bool_decide (session_id x = s) then [packet x] else [] | None => [] end.

(** From one state to another, nothing but the packet given out left its stream. *)
Definition gives (p : DownlinkPacer) (o : option PacedData) (p' : DownlinkPacer) : Prop :=
  (forall s st', streams p' !! s = Some st' -> exists st, streams p !! s = Some st /\ stream_key st' = stream_key st /\
     stream_packets st ≡ₚ given_to s o ++ stream_packets st') /\
  match o with Some x => exists st, streams p' !! session_id x = Some st /\ profile_key x = stream_key st | None => True end.

Lemma gives_trans p p1 p2 o : gives p None p1 -> gives p1 o p2 -> gives p o p2.
Proof.
  intros [H1 _] [H2 Hx]. split; [|done]. intros s st2 E2. destruct (H2 s st2 E2) as (st1 & E1 & Hk1 & Hp1).
  destruct (H1 s st1 E1) as (st & E & Hk & Hp). exists st. split; [done|]. split; [congruence|]. cbn in Hp. by rewrite Hp, Hp1.
Qed.

Lemma gives_refl p : gives p None p.
Proof. split; [|done]. intros s st E. by exists st. Qed.

(** The heads of the sessions that can send and whose deadline has come. *)
Definition sendable (now : Z) (can_send : bytes -> bool) (p : DownlinkPacer) (s : bytes) : Prop :=
  can_send s = true /\ exists d, d <= now /\ (d, s) ∈ ready p.

Lemma pop_ready_gives now drawn p :
  pacer_ok p ->
  exists p' o, pop_ready now drawn p = Ok (p', o) /\ pacer_ok p' /\ gives p o p' /\
    match o with
    | Some x => exists d, (d, session_id x) ∈ ready p /\ d <= now /\ forall d' s, (d', s) ∈ ready p -> d <= d'
    | None => forall d s, (d, s) ∈ ready p -> now < d
    end.
Proof.
  intros Hok. destruct (pop_ready_spec now drawn p Hok) as (p' & o & E & Hok' & Ho). exists p', o. split; [done|]. split; [done|].
  destruct o as [x|]; [|destruct Ho as [-> Ho]; split; [apply gives_refl|done]].
  destruct Ho as (st & st' & h & Es & Eh & Es' & Hk & Hx & _ & Hp & Hd & Hm). split.
  - split; [|exists st'; rewrite Es', lookup_insert_eq; split; [done|congruence]]. intros s u Hu. rewrite Es' in Hu. cbn.
    destruct (decide (session_id x = s)) as [<-|D].
    + rewrite lookup_insert_eq in Hu. injection Hu as <-. exists st. by rewrite bool_decide_eq_true_2.
    + rewrite lookup_insert_ne in Hu by done. exists u. by rewrite bool_decide_eq_false_2.
  - exists (deadline h). split; [|done]. apply (ok_ready _ Hok). by exists st, h.
Qed.

Definition later (now : Z) : Z := saturate_add now (20 * 1000000).

Lemma put_off_spec now due sid p :
  pacer_ok p -> first_ready p = Some (due, sid) ->
  pacer_ok (put_off now due sid p) /\ gives p None (put_off now due sid p) /\
  ready (put_off now due sid p) = {[(later now, sid)]} ∪ ready p ∖ {[(due, sid)]}.
Proof.
  intros Hok Ef. destruct (first_stream p due sid Hok Ef) as (st & h & E & Eh & Ed & _).
  unfold put_off. rewrite E. cbn. rewrite Eh. cbn. destruct (ok_streams _ Hok _ _ E) as (Hq & Hc & Hh). split; [|split; [|done]].
  - apply update_ok; try done; [by left; rewrite E| |apply Hok|].
    + unfold old_len. rewrite E. unfold len_packets. cbn. rewrite Eh. lia.
    + cbn [head fmap option_fmap option_map deadline]. exact (moved_ready p due sid st h (Some (later now)) Hok E Eh Ed).
  - split; [|done]. intros s st'. cbn. destruct (decide (s = sid)) as [->|D].
    + rewrite lookup_insert_eq. intros [= <-]. exists st. split; [done|]. split; [done|]. unfold stream_packets. cbn. by rewrite Eh.
    + rewrite lookup_insert_ne by done. intros Hs. by exists st'.
Qed.

Definition due_count (now : Z) (p : DownlinkPacer) : nat := size (filter (fun e => e.1 <= now) (ready p)).

Lemma put_off_count now due sid p :
  pacer_ok p -> first_ready p = Some (due, sid) -> due <= now -> now < later now ->
  (due_count now (put_off now due sid p) < due_count now p)%nat.
Proof.
  intros Hok Ef Hd Hl. destruct (put_off_spec now due sid p Hok Ef) as (_ & _ & Er). unfold due_count. rewrite Er.
  pose proof (first_ready_spec p) as Hin. rewrite Ef in Hin. destruct Hin as [Hin _].
  apply subset_size, strict_spec_alt. split.
  - intros [d s]. rewrite !elem_of_filter, elem_of_union, elem_of_difference, !elem_of_singleton. cbn. intros [Hle [[= -> ->]|[? _]]]; [lia|done].
  - intros Heq. assert (Hx : (due, sid) ∈ filter (fun e => e.1 <= now) (ready p)) by (apply elem_of_filter; done).
    rewrite <- Heq, elem_of_filter, elem_of_union, elem_of_difference, !elem_of_singleton in Hx.
    destruct Hx as [_ [[= Hx]|[_ Hx]]]; [lia|done].
Qed.

Lemma pop_loop_spec fuel now can_send drawn p :
  pacer_ok p -> now < later now -> (due_count now p < fuel)%nat ->
  exists p' o, pop_loop fuel now can_send drawn p = Ok (p', o) /\ pacer_ok p' /\ gives p o p' /\
    match o with
    | Some x => sendable now can_send p (session_id x)
    | None => forall s, ~ sendable now can_send p s
    end.
Proof.
  revert p. induction fuel as [|fuel IH]; intros p Hok Hl Hf; [lia|]. cbn [pop_loop].
  pose proof (first_ready_spec p) as Hfirst. destruct (first_ready p) as [[due sid]|] eqn:Ef.
  2: { exists p, None. split_and!; try done; [apply gives_refl|]. intros s (_ & d & _ & Hd). by rewrite Hfirst in Hd. }
  destruct Hfirst as [Hin Hmin]. destruct (Z.ltb_spec now due) as [Hd|Hd].
  { exists p, None. split_and!; try done; [apply gives_refl|]. intros s (_ & d & ? & ?%Hmin). lia. }
  destruct (can_send sid) eqn:Ec.
  - destruct (pop_ready_gives now drawn p Hok) as (p' & o & E & Hok' & Hg & Ho). exists p', o. split_and!; try done.
    destruct o as [x|]; [|specialize (Ho _ _ Hin); lia].
    assert (session_id x = sid) as ->; [|split; [done|by exists due]].
    unfold pop_ready in E. rewrite Ef, (proj2 (Z.ltb_ge _ _) Hd) in E.
    destruct (streams p !! sid ≫= _) as [[st h]|]; cbn in E; [|by destruct (debug_check _)].
    destruct (advance now drawn st) as [[st' nx]| |]; cbn in E; try done. destruct (debug_check _); cbn in E; try done.
    by injection E as _ <-.
  - destruct (put_off_spec now due sid p Hok Ef) as (Hok1 & Hg1 & Er).
    destruct (IH (put_off now due sid p) Hok1 Hl) as (p' & o & E & Hok' & Hg & Ho).
    { pose proof (put_off_count now due sid p Hok Ef Hd Hl). lia. }
    assert (Hs : forall s, sendable now can_send (put_off now due sid p) s <-> sendable now can_send p s).
    { intros s. unfold sendable. rewrite Er. split; intros (Hc & d & Hd' & Hr); split; try done; exists d; split; try done.
      - apply elem_of_union in Hr as [[= -> ->]%elem_of_singleton|[? _]%elem_of_difference]; [lia|done].
      - apply elem_of_union. right. apply elem_of_difference. split; [done|]. intros [= -> ->]%elem_of_singleton. congruence. }
    exists p', o. split; [done|]. split; [done|]. split; [by eapply gives_trans|]. destruct o as [x|]; [by apply Hs|]. intros s. by rewrite <- Hs.
Qed.

Lemma due_count_le now p : (due_count now p <= size (ready p))%nat.
Proof. apply subseteq_size. intros e. rewrite elem_of_filter. tauto. Qed.

Lemma later_gt now : now + 20 * 1000000 <= instant_max -> now < later now.
Proof. intros H. unfold later, saturate_add, add_or, checked_add. rewrite (proj2 (Z.leb_le _ _) H). cbn. lia. Qed.

(** ** Runs *)

Inductive DownEvent : Type :=
  | Enqueue (sid : bytes) (mask : Profile) (pkt : bytes) (now : Z) (mode : DelayMode.t) (drawn : Shape)
  | PopReady (now : Z) (drawn : Shape)
  | PopWhen (now : Z) (can_send : bytes -> bool) (drawn : Shape).

Inductive DownOutput : Type :=
  | Enqueued (accepted : bool)
  | Popped (o : option PacedData).

Definition down_step (p : DownlinkPacer) (e : DownEvent) : outcome (DownlinkPacer * DownOutput) :=
  match e with
  | Enqueue sid mask pkt now mode drawn => let! (p, b) := enqueue_mode sid mask pkt now mode drawn p in Ok (p, Enqueued b)
  | PopReady now drawn => let! (p, o) := pop_ready now drawn p in Ok (p, Popped o)
  | PopWhen now can_send drawn => let! (p, o) := pop_ready_when now can_send drawn p in Ok (p, Popped o)
  end.

Fixpoint down_run (p : DownlinkPacer) (events : list DownEvent) : outcome (DownlinkPacer * list DownOutput) :=
  match events with
  | [] => Ok (p, [])
  | e :: events =>
      let! (p, o) := down_step p e in
      let! (p, outs) := down_run p events in
      Ok (p, o :: outs)
  end.

(** The clock of the gateway is far from the end of its range, and packets are bytes. *)
Definition down_event_ok (e : DownEvent) : Prop :=
  match e with
  | Enqueue _ _ pkt _ _ _ => bytes_ok pkt
  | PopReady _ _ => True
  | PopWhen now _ _ => now + 20 * 1000000 <= instant_max
  end.

(** The book of what each session may still be sent: the profile of the last packet that
    came in for it, and the packets accepted under that profile since it last changed. *)
Abbreviation Book := (gmap bytes (ProfileKey * list bytes)).

Definition book_in (sid : bytes) (k : ProfileKey) (new : list bytes) (g : Book) : Book :=
  <[sid := (k, new ++ match g !! sid with Some (k', l) => if bool_decide (k' = k) then l else [] | None => [] end)]> g.

Fixpoint remove_one (x : bytes) (l : list bytes) : option (list bytes) :=
  match l with
  | [] => None
  | y :: l => if bool_decide (y = x) then Some l else cons y <$> remove_one x l
  end.

(** The book after a step; none if a packet went out that the book does not have. *)
Definition book_step (g : Book) (e : DownEvent) (o : DownOutput) : option Book :=
  match e, o with
  | Enqueue sid mask pkt _ _ _, Enqueued b =>
      Some (if MAX_PACKET_SIZE <? len pkt then g else book_in sid (new_key mask) (if b then [pkt] else []) g)
  | Enqueue _ _ _ _ _ _, Popped _ => None
  | _, Enqueued _ => None
  | _, Popped None => Some g
  | _, Popped (Some x) =>
      match g !! session_id x with
      | Some (k, l) =>
          if bool_decide (k = profile_key x) then (fun l' => <[session_id x := (k, l')]> g) <$> remove_one (packet x) l else None
      | None => None
      end
  end.

Fixpoint book_run (g : Book) (events : list DownEvent) (outs : list DownOutput) : option Book :=
  match events, outs with
  | [], [] => Some g
  | e :: events, o :: outs => g' ← book_step g e o; book_run g' events outs
  | _, _ => None
  end.

(** Every stream is in the book. *)
Definition booked (p : DownlinkPacer) (g : Book) : Prop :=
  forall s st, streams p !! s = Some st -> exists l, g !! s = Some (stream_key st, l) /\ stream_packets st ⊆+ l.

Lemma remove_one_spec x l : x ∈ l -> exists l', remove_one x l = Some l' /\ l ≡ₚ x :: l'.
Proof.
  induction l as [|y l IH]; [by intros ?%elem_of_nil|]. cbn. case_bool_decide as D; [subst; eauto|].
  intros [->|Hx]%elem_of_cons; [done|]. destruct (IH Hx) as (l' & -> & Hp). exists (y :: l'). split; [done|].
  rewrite Hp. apply perm_swap.
Qed.

Lemma booked_in sid mask new p p' g : booked p g -> enqueued sid mask new p p' -> booked p' (book_in sid (new_key mask) new g).
Proof.
  intros Hg He s st Hs. specialize (He s st Hs). unfold book_in.
  destruct (decide (s = sid)) as [->|D]; [rewrite bool_decide_eq_true_2 in He by done|rewrite bool_decide_eq_false_2 in He by done].
  - rewrite lookup_insert_eq. destruct He as [Hk Hp]. eexists. rewrite Hk. split; [done|]. etrans; [exact Hp|]. apply submseteq_skips_l.
    unfold kept. destruct (streams p !! sid) as [st0|] eqn:E0; [|apply submseteq_nil_l].
    destruct (Hg sid st0 E0) as (l & El & Hl). rewrite El. case_bool_decide; [done|apply submseteq_nil_l].
  - rewrite lookup_insert_ne by done. by apply Hg.
Qed.

Lemma booked_out p o p' g :
  booked p g -> gives p o p' ->
  exists g', match o with
    | Some x => match g !! session_id x with
        | Some (k, l) => if bool_decide (k = profile_key x) then (fun l' => <[session_id x := (k, l')]> g) <$> remove_one (packet x) l else None
        | None => None
        end
    | None => Some g
    end = Some g' /\ booked p' g'.
Proof.
  intros Hg [Hs Hx]. destruct o as [x|].
  - destruct Hx as (st' & E' & Hk'). destruct (Hs _ _ E') as (st & E & Hk & Hp). cbn in Hp. rewrite bool_decide_eq_true_2 in Hp by done.
    destruct (Hg _ _ E) as (l & -> & Hl). rewrite bool_decide_eq_true_2 by congruence.
    destruct (remove_one_spec (packet x) l) as (l' & -> & Hl'). { eapply elem_of_submseteq; [|exact Hl]. rewrite Hp. left. }
    exists (<[session_id x := (stream_key st, l')]> g). split; [done|]. intros s u Hu. destruct (Hs s u Hu) as (v & Ev & Hkv & Hpv). cbn in Hpv.
    destruct (decide (session_id x = s)) as [<-|D].
    + rewrite lookup_insert_eq. assert (u = st') as -> by congruence. assert (v = st) as -> by congruence. exists l'.
      split; [congruence|]. rewrite Hp, Hl' in Hl. apply submseteq_cons_l in Hl as (k' & Hk1 & Hsub).
      apply (Permutation_cons_inv (a := packet x)) in Hk1. by rewrite Hk1.
    + rewrite lookup_insert_ne by done. rewrite bool_decide_eq_false_2 in Hpv by done. cbn in Hpv. rewrite Hkv.
      destruct (Hg s v Ev) as (l2 & -> & Hl2). exists l2. split; [done|]. by rewrite <- Hpv.
  - exists g. split; [done|]. intros s u Hu. destruct (Hs s u Hu) as (v & Ev & Hkv & Hpv). cbn in Hpv. rewrite Hkv.
      destruct (Hg s v Ev) as (l2 & -> & Hl2). exists l2. split; [done|]. by rewrite <- Hpv.
Qed.

Lemma down_step_ok p e g :
  pacer_ok p -> booked p g -> down_event_ok e ->
  exists p' o g', down_step p e = Ok (p', o) /\ book_step g e o = Some g' /\ pacer_ok p' /\ booked p' g'.
Proof.
  intros Hok Hg He. destruct e as [sid mask pkt now mode drawn|now drawn|now can_send drawn]; cbn [down_step].
  - destruct (enqueue_spec sid mask pkt now mode drawn p Hok He) as (p' & b & -> & Hok' & Hb). cbn [obind].
    eexists _, _, _. split; [done|]. split; [done|]. split; [done|].
    destruct (MAX_PACKET_SIZE <? len pkt); [by destruct Hb as [-> _]|by eapply booked_in].
  - destruct (pop_ready_gives now drawn p Hok) as (p' & o & -> & Hok' & Hgive & _). cbn [obind].
    destruct (booked_out p o p' g Hg Hgive) as (g' & Eg & Hg'). exists p', (Popped o), g'. by split_and!.
  - destruct (pop_loop_spec (S (size (ready p))) now can_send drawn p Hok (later_gt _ He)) as (p' & o & E & Hok' & Hgive & _);
      [pose proof (due_count_le now p); lia|]. unfold pop_ready_when. rewrite E. cbn [obind].
    destruct (booked_out p o p' g Hg Hgive) as (g' & Eg & Hg'). exists p', (Popped o), g'. by split_and!.
Qed.

Lemma down_run_ok events p g :
  pacer_ok p -> booked p g -> Forall down_event_ok events ->
  exists p' outs g', down_run p events = Ok (p', outs) /\ book_run g events outs = Some g' /\ pacer_ok p' /\ booked p' g'.
Proof.
  revert p g. induction events as [|e es IH]; intros p g Hok Hg He; [exists p, [], g; by split_and!|].
  apply Forall_cons in He as [He Hes]. destruct (down_step_ok p e g Hok Hg He) as (p1 & o & g1 & E1 & B1 & H1 & G1).
  destruct (IH p1 g1 H1 G1 Hes) as (p2 & outs & g2 & E2 & B2 & H2 & G2). exists p2, (o :: outs), g2.
  cbn [down_run book_run]. rewrite E1. cbn [obind]. rewrite E2, B1. by split_and!.
Qed.

Lemma booked_new g : booked new_downlink g.
Proof. intros s st H. cbn in H. by rewrite lookup_empty in H. Qed.

(** C18: The downlink pacer is sound. Whatever packets come in, under whatever profiles, and
    however they are taken out: nothing panics, and the assertions of a debug build hold
    after every operation (no more than 64 packets for a session, 4096 in all and 1024
    streams, the counter exact, one entry of the index for each head). A packet leaves at
    most once, in the session it came in for, under the profile it came in for, and not
    after the profile of the session changed. *)
Theorem downlink_pacer_sound events :
  Forall down_event_ok events ->
  exists p outs g, down_run new_downlink events = Ok (p, outs) /\ book_run ∅ events outs = Some g /\
    debug_check p = Ok tt /\ booked p g.
Proof.
  intros He. destruct (down_run_ok events new_downlink ∅ new_downlink_ok (booked_new ∅) He) as (p & outs & g & E & B & Hok & Hg).
  exists p, outs, g. split_and!; try done. by apply debug_check_ok.
Qed.

(** A session whose carrier is not ready holds up no other, and the loop ends. After any
    run: taking the next packet gives one exactly if some session that can send has a head
    whose deadline has come, and what it gives is the head of such a session. *)
Theorem blocked_harmless events p outs now can_send drawn :
  Forall down_event_ok events -> down_run new_downlink events = Ok (p, outs) -> now + 20 * 1000000 <= instant_max ->
  exists p' o, pop_ready_when now can_send drawn p = Ok (p', o) /\
    match o with
    | Some x => sendable now can_send p (session_id x)
    | None => forall s, ~ sendable now can_send p s
    end.
Proof.
  intros He E Hn. destruct (down_run_ok events new_downlink ∅ new_downlink_ok (booked_new ∅) He) as (p1 & outs1 & g & E1 & _ & Hok & _).
  rewrite E in E1. injection E1 as <- <-.
  destruct (pop_loop_spec (S (size (ready p))) now can_send drawn p Hok (later_gt _ Hn)) as (p' & o & Eo & _ & _ & Ho);
    [pose proof (due_count_le now p); lia|]. by exists p', o.
Qed.
End Pacer.

(** ** A sample *)

Section Sample.
#[local] Existing Instance ordered_iter.
#[local] Existing Instance unit_speed.

Definition plain_mask (id : Z) : Profile :=
  {| of_mask := {| mask_id := [id]; spoof_protocol := SpoofProtocol.QUIC; header_template := []; eph_pub_offset := 0;
       eph_pub_length := 0; signature := []; header_spec := None; tag_offset := 0 |}; version := 1; reverse_profile := None |}.

Definition drawn_shape : Shape := {| s_size := 100; s_delay := 5; s_padding := None |}.

(** Two sessions; the profile of the first changes while a packet of it waits. *)
Definition changed_profile : list DownEvent :=
  [Enqueue [1] (plain_mask 1) [10] 0 DelayMode.Profile drawn_shape;
   Enqueue [1] (plain_mask 1) [11] 0 DelayMode.Profile drawn_shape;
   Enqueue [2] (plain_mask 1) [20] 0 DelayMode.Immediate drawn_shape;
   PopReady 1 drawn_shape;
   Enqueue [1] (plain_mask 2) [12] 2 DelayMode.Profile drawn_shape;
   Enqueue [1] (plain_mask 2) [13] 2 DelayMode.Profile drawn_shape;
   PopReady 20 drawn_shape].

Lemma changed_profile_ok : Forall down_event_ok changed_profile.
Proof.
  unfold changed_profile. repeat (apply Forall_cons; split; [first [exact I | by apply bytes_ok_check]|]). constructor.
Qed.

Definition out_packets (outs : list DownOutput) : list bytes :=
  base.omap (fun o => match o with Popped (Some x) => Some (packet x) | _ => None end) outs.

Lemma downlink_pacer_sound_witness :
  match down_run new_downlink changed_profile with
  | Ok (p, outs) => out_packets outs = [[20]; [12]] /\ debug_check p = Ok tt
  | _ => False
  end.
Proof.
  destruct (downlink_pacer_sound changed_profile changed_profile_ok) as (p & outs & g & E & _ & Hd & _). rewrite E.
  split; [|exact Hd].
  assert (outs = match down_run new_downlink changed_profile with Ok (_, o) => o | _ => [] end) as -> by (by rewrite E).
  by vm_compute.
Defined.

(** The first session cannot send, and the second is served. *)
Lemma blocked_harmless_witness :
  match down_run new_downlink (take 3 changed_profile) with
  | Ok (p, _) => exists p' o, pop_ready_when 1000 (fun s => bool_decide (s = [2])) drawn_shape p = Ok (p', Some o) /\
      session_id o = [2] /\ sendable 1000 (fun s => bool_decide (s = [2])) p (session_id o)
  | _ => False
  end.
Proof.
  destruct (down_run new_downlink (take 3 changed_profile)) as [[p outs]| |] eqn:E; [|by vm_compute in E..].
  destruct (blocked_harmless (take 3 changed_profile) p outs 1000 (fun s => bool_decide (s = [2])) drawn_shape) as (p' & o & Ep & Ho).
  - apply Forall_take, changed_profile_ok.
  - exact E.
  - by vm_compute.
  - assert (Hp : p = match down_run new_downlink (take 3 changed_profile) with Ok (x, _) => x | _ => new_downlink end) by (by rewrite E).
    destruct o as [x|].
    + exists p', x. split; [exact Ep|]. split; [|exact Ho]. 
      assert (x = default x (match pop_ready_when 1000 (fun s => bool_decide (s = [2])) drawn_shape p with Ok (_, o) => o | _ => None end))
        as -> by (by rewrite Ep). rewrite Hp. by vm_compute.
    + rewrite Hp in Ep. by vm_compute in Ep.
Defined.
End Sample.
