(* ===== verification/SiteRoutes.v ===== *)
(** * Sites

    [site_sync.rs]: which addresses a neighbouring site may send from, which site a
    destination belongs to, and which routes an announcement of a neighbour installs. JSON
    is a parameter; the [ip] commands that would be run are what the model gives out. The
    theorems: choosing a site is choosing the longest prefix among all subnets of all
    neighbours; a source is accepted only for the one neighbour it belongs to; an
    announcement installs exactly the announced subnets that the configuration gives to its
    verified sender, each once, through the tunnel, and no text of a peer becomes an option
    of the command. *)

From S2P Require Import Prelude Text Utf8 IpAddr NetworkConfig Crypto.
Local Open Scope Z_scope.

Definition MAX_SUBNETS_JSON_BYTES : Z := 4096.
Definition MAX_SUBNETS_PER_MSG : Z := 64.

Record SitePeerConfig : Type := {
  peer_name : bytes;
  endpoint : bytes;
  sync_key : bytes;
  remote_subnets : list bytes;
  peer_node_id : option bytes;
}.

Record SiteToSiteConfig : Type := {
  local_name : option bytes;
  local_subnets : list bytes;
  site_peers : list SitePeerConfig;
}.

(** ** Addresses of the standard library *)

(** [str::parse::<IpAddr>()] *)
Definition read_ip (l : bytes) : option (IpAddr * bytes) :=
  match read_ipv4 l with
  | Some (a, rest) => Some (V4 a, rest)
  | None => match read_ipv6 l with Some (a, rest) => Some (V6 a, rest) | None => None end
  end.

Definition parse_ip (l : bytes) : option IpAddr := match read_ip l with Some (a, []) => Some a | _ => None end.

Definition read_char (c : Z) (l : bytes) : option bytes :=
  match l with x :: l => if x =? c then Some l else None | [] => None end.

Definition read_port (l : bytes) : option (Z * bytes) := l ← read_char 58 l; read_number 10 (length l) true 65536 l.

Definition read_scope (l : bytes) : Z * bytes :=
  match read_char 37 l with
  | Some rest => match read_number 10 (length rest) true 4294967296 rest with Some r => r | None => (0, l) end
  | None => (0, l)
  end.

Definition read_socket_v4 (l : bytes) : option (SocketAddr * bytes) :=
  '(a, l) ← read_ipv4 l; '(p, l) ← read_port l; Some (SocketV4 a p, l).

Definition read_socket_v6 (l : bytes) : option (SocketAddr * bytes) :=
  l ← read_char 91 l; '(a, l) ← read_ipv6 l;
  let '(scope, l) := read_scope l in
  l ← read_char 93 l; '(p, l) ← read_port l; Some (SocketV6 a p 0 scope, l).

(** [str::parse::<SocketAddr>()] *)
Definition parse_socket (l : bytes) : option SocketAddr :=
  match (match read_socket_v4 l with Some r => Some r | None => read_socket_v6 l end) with
  | Some (a, []) => Some a
  | _ => None
  end.

Definition is_ipv4 (a : IpAddr) : bool := match a with V4 _ => true | V6 _ => false end.
Definition is_ipv6 (a : IpAddr) : bool := negb (is_ipv4 a).

Definition is_loopback (a : IpAddr) : bool :=
  match a with V4 x => x / 16777216 =? 127 | V6 x => ipv6_is_loopback x end.

Definition is_digit (c : Z) : bool := (48 <=? c) && (c <=? 57).
Definition is_lower (c : Z) : bool := (97 <=? c) && (c <=? 122).

(** ** Prefixes *)

Definition v4_mask (prefix : Z) : Z := if prefix =? 0 then 0 else shl32_max (32 - prefix).
Definition v6_mask (prefix : Z) : Z := if prefix =? 0 then 0 else mask_u128 prefix.

Definition parse_cidr (cidr : bytes) : option (IpAddr * Z) :=
  '(addr_str, prefix_str) ← split_once 47 cidr;
  if bool_decide (addr_str = []) || bool_decide (prefix_str = []) || negb (forallb is_digit prefix_str) then None
  else if (1 <? len prefix_str) && (default 0 (head prefix_str) =? 48) then None
  else
  prefix ← parse_u8 prefix_str;
  addr ← parse_ip addr_str;
  if (if is_ipv4 addr then 32 else 128) <? prefix then None else Some (addr, prefix).

Definition contains (network : IpAddr) (prefix : Z) (ip : IpAddr) : bool :=
  match network, ip with
  | V4 net, V4 host => let mask := v4_mask prefix in Z.land net mask =? Z.land host mask
  | V6 net, V6 host => let mask := v6_mask prefix in Z.land net mask =? Z.land host mask
  | _, _ => false
  end.

Definition host_bits_clear (addr : IpAddr) (prefix : Z) : bool :=
  match addr with
  | V4 x => Z.land x (u32_max - v4_mask prefix) =? 0
  | V6 x => Z.land x (2 ^ 128 - 1 - v6_mask prefix) =? 0
  end.

Definition matching_prefix_len (cidr : bytes) (ip : IpAddr) : option Z :=
  '(network, prefix) ← parse_cidr cidr; if contains network prefix ip then Some prefix else None.

Inductive PrefixClass : Type := Miss | Unique (n : Z) | Tie (n : Z).

Fixpoint classify_from (best : option Z) (tie : bool) (subnets : list bytes) (ip : IpAddr) : PrefixClass :=
  match subnets with
  | [] => match best with Some n => if tie then Tie n else Unique n | None => Miss end
  | subnet :: subnets =>
      match matching_prefix_len subnet ip with
      | None => classify_from best tie subnets ip
      | Some n =>
          match best with
          | None => classify_from (Some n) tie subnets ip
          | Some current =>
              if current <? n then classify_from (Some n) false subnets ip
              else if n =? current then classify_from best true subnets ip
              else classify_from best tie subnets ip
          end
      end
  end.

Definition classify_prefixes (subnets : list bytes) (ip : IpAddr) : PrefixClass := classify_from None false subnets ip.

Definition source_in_subnets (subnets : list bytes) (source : IpAddr) : bool :=
  match classify_prefixes subnets source with Unique _ => true | _ => false end.

(** ** Neighbours *)

Fixpoint single_from (pred : SitePeerConfig -> bool) (found : option SitePeerConfig) (peers : list SitePeerConfig)
    : option SitePeerConfig :=
  match peers with
  | [] => found
  | peer :: peers =>
      if pred peer then match found with Some _ => None | None => single_from pred (Some peer) peers end
      else single_from pred found peers
  end.

Definition single_peer (pred : SitePeerConfig -> bool) (peers : list SitePeerConfig) : option SitePeerConfig :=
  single_from pred None peers.

(** [map(str::trim).filter(|id| !id.is_empty())] *)
Definition given_id (o : option bytes) : option bytes :=
  id ← o; let id := trim id in if bool_decide (id = []) then None else Some id.

Definition peer_matches_node (peer : SitePeerConfig) (node_id : bytes) : bool :=
  let node_id := trim node_id in
  if bool_decide (node_id = []) then false
  else
  match given_id (peer_node_id peer) with
  | Some configured => bool_decide (configured = node_id)
  | None => bool_decide (peer_name peer = node_id)
  end.

Definition source_allowed_for_node_in (config : SiteToSiteConfig) (node_id : option bytes) (source : IpAddr) : bool :=
  match given_id node_id with
  | None => false
  | Some node_id =>
      match single_peer (fun peer => peer_matches_node peer node_id) (site_peers config) with
      | None => false
      | Some peer => source_in_subnets (remote_subnets peer) source
      end
  end.

Definition source_allowed_for_endpoint_in (config : SiteToSiteConfig) (ep : bytes) (source : IpAddr) : bool :=
  let ep := trim ep in
  if bool_decide (ep = []) then false
  else
  match single_peer (fun peer => bool_decide (trim (endpoint peer) = ep)) (site_peers config) with
  | None => false
  | Some peer => source_in_subnets (remote_subnets peer) source
  end.

Inductive SiteDestination : Type := Peer (ep : bytes) | Ambiguous.

Fixpoint destination_from (best : option Z) (ep : option bytes) (ambiguous : bool) (peers : list SitePeerConfig) (ip : IpAddr)
    : option SiteDestination :=
  match peers with
  | [] =>
      match best with
      | None => None
      | Some _ => if ambiguous then Some Ambiguous else Peer <$> ep
      end
  | peer :: peers =>
      let step n unique :=
        match best with
        | Some current =>
            if n <? current then destination_from best ep ambiguous peers ip
            else if n =? current then destination_from best None true peers ip
            else destination_from (Some n) unique (bool_decide (unique = None)) peers ip
        | None => destination_from (Some n) unique (bool_decide (unique = None)) peers ip
        end in
      match classify_prefixes (remote_subnets peer) ip with
      | Miss => destination_from best ep ambiguous peers ip
      | Unique n => step n (Some (endpoint peer))
      | Tie n => step n None
      end
  end.

Definition site_destination_in (peers : list SitePeerConfig) (dst : IpAddr) : option SiteDestination :=
  destination_from None None false peers dst.

(** ** Routes *)

(** [is_safe_subnet] refuses the default route, loopback and link-local networks. *)
Definition is_safe_subnet (cidr : bytes) : bool :=
  match parse_cidr cidr with
  | None => false
  | Some (addr, prefix) =>
      if (prefix =? 0) || is_loopback addr then false
      else match addr with
           | V4 x => (8 <=? prefix) && negb (x / 65536 =? 43518)
           | V6 x => (16 <=? prefix) && negb (Z.land (default 0 (ipv6_segments x !! 0%nat)) 65472 =? 65152)
           end
  end.

Definition subnet_installable (cidr : bytes) : bool :=
  match parse_cidr cidr with
  | None => false
  | Some (addr, prefix) => host_bits_clear addr prefix && is_safe_subnet cidr
  end.

Definition authorized_subnets_for (config : SiteToSiteConfig) (node_id : bytes) (advertised : list bytes)
    : option (SitePeerConfig * list bytes) :=
  peer ← single_peer (fun peer => peer_matches_node peer node_id) (site_peers config);
  Some (peer, filter (fun subnet => existsb (fun own => bool_decide (own = subnet)) (remote_subnets peer) = true) advertised).

(** The loop over the announced subnets. *)
Fixpoint plan_from (authorized install advertised : list bytes) : list bytes :=
  match advertised with
  | [] => install
  | subnet :: advertised =>
      if negb (existsb (fun own => bool_decide (own = subnet)) authorized) then plan_from authorized install advertised
      else if negb (subnet_installable subnet) then plan_from authorized install advertised
      else if negb (existsb (fun have => bool_decide (have = subnet)) install)
      then plan_from authorized (install ++ [subnet]) advertised
      else plan_from authorized install advertised
  end.

(** [serde_json]: the fields of the object in a text, [node_id] and [subnets], each empty
    when it is missing; nothing when the text is not such an object. *)
Class SiteJson : Type := { masked_form : bytes -> option (bytes * list bytes) }.

Definition parse_route_sync_payload {SJ : SiteJson} (json : bytes) : option (bytes * list bytes) :=
  '(node_id, subnets) ← masked_form json; if bool_decide (node_id = []) then None else Some (node_id, subnets).

Definition plan_route_installs {SJ : SiteJson} (config : SiteToSiteConfig) (json from_addr : bytes) (verified : option bytes)
    : list bytes :=
  match parse_socket from_addr with
  | None => []
  | Some _ =>
      if MAX_SUBNETS_JSON_BYTES <? len json then []
      else
      match parse_route_sync_payload json with
      | None => []
      | Some (claimed, advertised) =>
          let node := match given_id verified with Some v => v | None => claimed end in
          if MAX_SUBNETS_PER_MSG <? len advertised then []
          else
          match authorized_subnets_for config node advertised with
          | None => []
          | Some (_, authorized) => plan_from authorized [] advertised
          end
      end
  end.

Definition private_iface_name (name : bytes) : bool :=
  negb (bool_decide (name = [])) && (len name <=? 15) && is_lower (default 0 (head name))
  && forallb (fun c => is_lower c || is_digit c || (c =? 95) || (c =? 45)) name.

Definition rsplit_once (sep : Z) (l : bytes) : option (bytes * bytes) :=
  '(a, b) ← split_once sep (rev l); Some (rev b, rev a).

Definition route_gateway_host (via : bytes) : bytes :=
  let via := trim via in
  match read_char 91 via ≫= split_once 93 with
  | Some (inside, _) => inside
  | None =>
      if bool_decide (is_Some (parse_ip via)) then via
      else
      match rsplit_once 58 via with
      | Some (host, port) => if negb (bool_decide (port = [])) && forallb is_digit port then host else via
      | None => via
      end
  end.

Inductive NextHop : Type := Gateway (ip : IpAddr) | Device (name : bytes).

Definition route_next_hop (via : bytes) (want_v6 : bool) : option NextHop :=
  let host := route_gateway_host via in
  match parse_ip host with
  | Some ip => if ip_is_unspecified ip || negb (Bool.eqb (is_ipv6 ip) want_v6) then None else Some (Gateway ip)
  | None => if private_iface_name host then Some (Device host) else None
  end.

Definition show_ip (a : IpAddr) : bytes := match a with V4 x => show_ipv4 x | V6 x => show_ipv6 x end.

Definition route_ip_args (subnet via : bytes) : option (list bytes) :=
  if negb (subnet_installable subnet) then None
  else
  '(addr, _) ← parse_cidr subnet;
  hop ← route_next_hop via (is_ipv6 addr);
  Some ([str_bytes (if is_ipv6 addr then "-6" else "-4"); str_bytes "route"; str_bytes "add"; subnet]
        ++ match hop with
           | Gateway ip => [str_bytes "via"; show_ip ip]
           | Device name => [str_bytes "dev"; name]
           end).

(** ** The process *)

(** The two cells that are set once. *)
Record SiteState : Type := { site_tun : option bytes; site_config : option SiteToSiteConfig }.

Definition init_config_only (config : SiteToSiteConfig) (tun_name : bytes) (s : SiteState) : SiteState * (unit + string) :=
  if negb (private_iface_name tun_name) then (s, inr "Invalid site TUN interface"%string)
  else
  match site_tun s with
  | Some _ => (s, inr "Site routing already initialized"%string)
  | None =>
      let s := {| site_tun := Some tun_name; site_config := site_config s |} in
      match site_config s with
      | Some _ => (s, inr "Site configuration already initialized"%string)
      | None => ({| site_tun := site_tun s; site_config := Some config |}, inl tt)
      end
  end.

Definition source_allowed_for_node (s : SiteState) (node_id : option bytes) (source : IpAddr) : bool :=
  match site_config s with None => false | Some config => source_allowed_for_node_in config node_id source end.

Definition source_allowed_for_endpoint (s : SiteState) (ep : bytes) (source : IpAddr) : bool :=
  match site_config s with None => false | Some config => source_allowed_for_endpoint_in config ep source end.

Definition site_destination_for (s : SiteState) (dst : IpAddr) : option SiteDestination :=
  config ← site_config s; site_destination_in (site_peers config) dst.

(** The commands that are run. *)
Definition handle_route_sync {SJ : SiteJson} (s : SiteState) (json from_addr : bytes) (verified : option bytes) : list (list bytes) :=
  match site_config s, site_tun s with
  | Some config, Some tun => base.omap (fun subnet => route_ip_args subnet tun) (plan_route_installs config json from_addr verified)
  | _, _ => []
  end.

(** ** The longest prefix *)

(** The reference: all subnets of all neighbours that contain the address, and among them
    the ones with the longest prefix. *)
Definition own_hits (e : bytes) (subnets : list bytes) (ip : IpAddr) : list (Z * bytes) :=
  base.omap (fun s => (fun n => (n, e)) <$> matching_prefix_len s ip) subnets.

Definition hits (peers : list SitePeerConfig) (ip : IpAddr) : list (Z * bytes) :=
  concat (map (fun p => own_hits (endpoint p) (remote_subnets p) ip) peers).

Definition winners (l : list (Z * bytes)) : list (Z * bytes) :=
  filter (fun h => forallb (fun h' => h'.1 <=? h.1) l = true) l.

Definition longest_prefix (peers : list SitePeerConfig) (ip : IpAddr) : option SiteDestination :=
  match winners (hits peers ip) with
  | [] => None
  | [h] => Some (Peer h.2)
  | _ => Some Ambiguous
  end.

(** The scan in one pass: the longest prefix so far, and whose it is if it is one's only. *)
Definition add_hit (st : option (Z * option bytes)) (h : Z * bytes) : option (Z * option bytes) :=
  match st with
  | None => Some (h.1, Some h.2)
  | Some (c, u) => if h.1 <? c then st else if h.1 =? c then Some (c, None) else Some (h.1, Some h.2)
  end.

Abbreviation tally := (foldl add_hit).

Definition join_tally (st t : option (Z * option bytes)) : option (Z * option bytes) :=
  match st, t with
  | None, _ => t
  | _, None => st
  | Some (c, u), Some (n, v) => if n <? c then st else if n =? c then Some (c, None) else t
  end.

Lemma join_add st t h : join_tally st (add_hit t h) = add_hit (join_tally st t) h.
Proof.
  destruct st as [[c u]|], t as [[n v]|], h as [k e]; cbn; try done.
  all: repeat (match goal with |- context [?a <? ?b] => destruct (Z.ltb_spec a b) | |- context [?a =? ?b] => destruct (Z.eqb_spec a b) end;
    cbn; subst; try lia; try done).
Qed.

Lemma tally_join st l : tally st l = join_tally st (tally None l).
Proof.
  induction l as [|h l IH] using rev_ind; [by destruct st as [[]|]|]. rewrite !foldl_app, IH. cbn. by rewrite join_add.
Qed.

Definition class_of (st : option (Z * option bytes)) : PrefixClass :=
  match st with None => Miss | Some (n, Some _) => Unique n | Some (n, None) => Tie n end.

Lemma classify_from_tally e subnets ip best tie :
  (best = None -> tie = false) ->
  classify_from best tie subnets ip =
    class_of (tally ((fun n => (n, if tie then None else Some e)) <$> best) (own_hits e subnets ip)).
Proof.
  revert best tie. induction subnets as [|s l IH]; intros best tie Ht; cbn [classify_from own_hits base.omap list_omap].
  - destruct best; [by destruct tie|done].
  - destruct (matching_prefix_len s ip) as [n|]; [|by apply IH]. cbn. destruct best as [c|].
    + destruct (Z.ltb_spec c n); [|destruct (Z.eqb_spec n c)]; rewrite IH by done; f_equal; cbn.
      * rewrite (proj2 (Z.ltb_ge n c)), (proj2 (Z.eqb_neq n c)) by lia. done.
      * subst. by rewrite (proj2 (Z.ltb_ge c c)), Z.eqb_refl by lia.
      * by rewrite (proj2 (Z.ltb_lt n c)) by lia.
    + rewrite Ht by done. by rewrite IH.
Qed.

Lemma own_tally e subnets ip :
  tally None (own_hits e subnets ip) =
    match classify_prefixes subnets ip with Miss => None | Unique n => Some (n, Some e) | Tie n => Some (n, None) end.
Proof.
  unfold classify_prefixes. rewrite (classify_from_tally e) by done. cbn.
  assert (H : forall st, match st with Some (_, Some x) => x = e | _ => True end ->
    match tally st (own_hits e subnets ip) with Some (_, Some x) => x = e | _ => True end).
  { unfold own_hits. induction subnets as [|s l IH]; intros st Hst; [done|]. cbn. destruct (matching_prefix_len s ip) as [n|]; [|by apply IH].
    cbn. apply IH. destruct st as [[c u]|]; cbn; [|done]. destruct (n <? c); [done|]. by destruct (n =? c). }
  specialize (H None I). destruct (tally None _) as [[n [x|]]|]; by subst.
Qed.

Lemma destination_tally peers ip best ep :
  (best = None -> ep = None) ->
  destination_from best ep (bool_decide (is_Some best /\ ep = None)) peers ip =
    match tally ((fun n => (n, ep)) <$> best) (hits peers ip) with
    | None => None
    | Some (_, Some e) => Some (Peer e)
    | Some (_, None) => Some Ambiguous
    end.
Proof.
  revert best ep. induction peers as [|p peers IH]; intros best ep Hep; cbn [destination_from hits map concat].
  - destruct best as [n|]; [|done]. by destruct ep.
  - rewrite foldl_app, (tally_join _ (own_hits _ _ _)), own_tally. fold (hits peers ip).
    assert (Hstep : forall n u, 
      match best with
      | Some current => if n <? current then destination_from best ep (bool_decide (is_Some best /\ ep = None)) peers ip
          else if n =? current then destination_from best None true peers ip
          else destination_from (Some n) u (bool_decide (u = None)) peers ip
      | None => destination_from (Some n) u (bool_decide (u = None)) peers ip
      end = match tally (join_tally ((fun n => (n, ep)) <$> best) (Some (n, u))) (hits peers ip) with
            | None => None | Some (_, Some e) => Some (Peer e) | Some (_, None) => Some Ambiguous end).
    { intros n u. assert (Hn : destination_from (Some n) u (bool_decide (u = None)) peers ip =
        match tally (Some (n, u)) (hits peers ip) with
        | None => None | Some (_, Some e) => Some (Peer e) | Some (_, None) => Some Ambiguous end).
      { etrans; [|exact (IH (Some n) u ltac:(done))]. f_equal. apply bool_decide_ext. naive_solver. }
      destruct best as [c|]; cbn; [|done]. destruct (n <? c); [by rewrite IH|]. destruct (n =? c); [|done].
      etrans; [|exact (IH (Some c) None ltac:(done))]. f_equal. }
    destruct (classify_prefixes (remote_subnets p) ip) as [|n|n]; [|apply Hstep..].
    rewrite IH by done. by destruct best.
Qed.

(** What the one pass computes. *)
Lemma tally_spec l :
  match tally None l with
  | None => l = []
  | Some (c, u) => (exists e, (c, e) ∈ l) /\ (forall h, h ∈ l -> h.1 <= c) /\
      match filter (fun h => h.1 = c) l with [h] => u = Some h.2 | _ => u = None end
  end.
Proof.
  induction l as [|[n e] l IH] using rev_ind; [done|]. rewrite foldl_app. cbn [foldl].
  destruct (tally None l) as [[c u]|]; cbn [add_hit fst snd].
  - destruct IH as ((e0 & He0) & Hle & Hf). destruct (Z.ltb_spec n c) as [Hn|Hn]; [|destruct (Z.eqb_spec n c) as [->|Hne]].
    + split; [exists e0; apply elem_of_app; by left|]. split; [intros h [?|[= ->]%list_elem_of_singleton]%elem_of_app; [auto|cbn; lia]|].
      rewrite filter_app, filter_cons_False by (cbn; lia). by rewrite filter_nil, app_nil_r.
    + split; [exists e; apply elem_of_app; right; by apply list_elem_of_singleton|].
      split; [intros h [?|[= ->]%list_elem_of_singleton]%elem_of_app; [auto|cbn; lia]|].
      rewrite filter_app, (filter_cons_True _ (c, e)) by done. rewrite filter_nil.
      assert (Hin : (c, e0) ∈ filter (fun h => h.1 = c) l) by (by apply list_elem_of_filter).
      destruct (filter _ l) as [|x [|y r]]; [by apply elem_of_nil in Hin|done..].
    + split; [exists e; apply elem_of_app; right; by apply list_elem_of_singleton|].
      split; [intros h [Hh%Hle|[= ->]%list_elem_of_singleton]%elem_of_app; [lia|cbn; lia]|].
      rewrite filter_app, (filter_cons_True _ (n, e)), filter_nil by done.
      assert (filter (fun h : Z * bytes => h.1 = n) l = []) as ->; [|done].
      apply elem_of_nil_inv. intros h [? Hh%Hle]%list_elem_of_filter. lia.
  - subst l. cbn [app]. split; [exists e; by apply list_elem_of_singleton|]. split; [intros h [= ->]%list_elem_of_singleton; done|].
    by rewrite filter_cons_True.
Qed.

Lemma filter_agree {A} (P Q : A -> Prop) `{!forall x, Decision (P x), !forall x, Decision (Q x)} (l : list A) :
  (forall x, x ∈ l -> P x <-> Q x) -> filter P l = filter Q l.
Proof.
  induction l as [|x l IH]; intros Hag; [done|]. assert (Hx : P x <-> Q x) by (apply Hag; left).
  rewrite !filter_cons, IH by (intros y Hy; apply Hag; by right). repeat case_decide; tauto.
Qed.

Lemma winners_tally l :
  match tally None l with
  | None => winners l = []
  | Some (c, Some e) => exists h, winners l = [h] /\ h.2 = e
  | Some (c, None) => exists h h' r, winners l = h :: h' :: r
  end.
Proof.
  pose proof (tally_spec l) as H. destruct (tally None l) as [[c u]|]; [|by subst].
  destruct H as ((e & He) & Hle & Hf).
  assert (Hw : winners l = filter (fun h => h.1 = c) l).
  { apply filter_agree. intros h Hh. rewrite forallb_forall. specialize (Hle h Hh) as Hc. split.
    - intros Hall. apply list_elem_of_In, Hall in He. norm_bool He. cbn in He. lia.
    - intros Ec x Hx%list_elem_of_In%Hle. apply Z.leb_le. lia. }
  assert (Hin : (c, e) ∈ winners l) by (rewrite Hw; by apply list_elem_of_filter).
  rewrite <- Hw in Hf. destruct (winners l) as [|h [|h' r]]; [by apply elem_of_nil in Hin|..].
  - subst u. by exists h.
  - subst u. by exists h, h', r.
Qed.

(** A destination goes to the site with the longest prefix. The scan over the
    neighbours gives what the reference gives on all subnets of all of them: the neighbour
    of the one subnet with the longest prefix that contains the address, an ambiguity if
    there are several of that length, and nothing if no subnet contains it. *)
Theorem site_destination_lpm peers ip : site_destination_in peers ip = longest_prefix peers ip.
Proof.
  unfold site_destination_in, longest_prefix.
  pose proof (destination_tally peers ip None None ltac:(done)) as H. rewrite bool_decide_eq_false_2 in H by (by intros [[]]).
  rewrite H. cbn [fmap option_fmap option_map]. pose proof (winners_tally (hits peers ip)) as Hw.
  destruct (tally None (hits peers ip)) as [[c [e|]]|].
  - by destruct Hw as (h & -> & <-).
  - by destruct Hw as (h & h' & r & ->).
  - by rewrite Hw.
Qed.

(** ** Subnets *)

Definition width (a : IpAddr) : Z := if is_ipv4 a then 32 else 128.

(** The address is in the network: both are of one family and agree in the prefix. *)
Definition in_subnet (network : IpAddr) (prefix : Z) (ip : IpAddr) : Prop :=
  match network, ip with
  | V4 net, V4 host => net / 2 ^ (32 - prefix) = host / 2 ^ (32 - prefix)
  | V6 net, V6 host => net / 2 ^ (128 - prefix) = host / 2 ^ (128 - prefix)
  | _, _ => False
  end.

Lemma v4_mask_eq p : 0 <= p <= 32 -> v4_mask p = 2 ^ 32 - 2 ^ (32 - p).
Proof.
  intros Hp. unfold v4_mask. destruct (Z.eqb_spec p 0) as [->|]; [done|]. unfold shl32_max, wrap32.
  change u32_max with (2 ^ 32 - 1). change 4294967296 with (2 ^ 32). apply shl_ones_mod. lia.
Qed.

Lemma v6_mask_eq p : 0 <= p <= 128 -> v6_mask p = 2 ^ 128 - 2 ^ (128 - p).
Proof.
  intros Hp. unfold v6_mask. destruct (Z.eqb_spec p 0) as [->|]; [done|]. unfold mask_u128. apply shl_ones_mod. lia.
Qed.

Lemma land_same n p a b :
  0 <= p <= n -> 0 <= a < 2 ^ n -> 0 <= b < 2 ^ n ->
  (Z.land a (2 ^ n - 2 ^ (n - p)) =? Z.land b (2 ^ n - 2 ^ (n - p))) = true <-> a / 2 ^ (n - p) = b / 2 ^ (n - p).
Proof.
  intros Hp Ha Hb. assert (0 < 2 ^ (n - p)) by (apply Z.pow_pos_nonneg; lia).
  rewrite Z.eqb_eq, !(land_high n (n - p)) by lia. nia.
Qed.

Lemma contains_exact network prefix ip :
  ip_ok network -> ip_ok ip -> 0 <= prefix <= width network -> contains network prefix ip = true <-> in_subnet network prefix ip.
Proof.
  destruct network as [net|net], ip as [host|host]; cbn; intros Hn Hi Hp; try done.
  - rewrite v4_mask_eq by done. by apply land_same.
  - rewrite v6_mask_eq by done. by apply land_same.
Qed.

Lemma parse_ip_ok l a : parse_ip l = Some a -> ip_ok a.
Proof.
  unfold parse_ip, read_ip. destruct (read_ipv4 l) as [[x rest]|] eqn:E4.
  - destruct rest; [|done]. intros [= <-]. by apply read_ipv4_bound in E4.
  - destruct (read_ipv6 l) as [[x rest]|] eqn:E6; [|done]. destruct rest; [|done]. intros [= <-].
    apply (parse_ipv6_bound l). by apply parse_read.
Qed.

Lemma parse_cidr_ok s a p : parse_cidr s = Some (a, p) -> ip_ok a /\ 0 <= p <= width a.
Proof.
  unfold parse_cidr, width. destruct (split_once 47 s) as [[x y]|]; [|done]. cbn. destruct (_ || _); [done|]. destruct (_ && _); [done|].
  destruct (parse_u8 y) as [n|] eqn:En; [|done]. cbn. destruct (parse_ip x) as [b|] eqn:Eb; [|done]. cbn.
  destruct (Z.ltb_spec (if is_ipv4 b then 32 else 128) n) as [|Hl]; [done|]. intros [= <- <-]. split; [by apply parse_ip_ok in Eb|].
  split; [|done]. unfold parse_u8 in En. destruct (read_digits 10 _ 0 0) as [[v k] rest] eqn:Ed. destruct rest; [|done].
  destruct (k =? 0)%nat; [done|]. destruct (v <? 256); [|done]. injection En as <-. by apply read_digits_nonneg in Ed.
Qed.

(** ** Sources *)

Lemma single_from_spec pred found peers :
  single_from pred found peers =
    match option_list found ++ filter (fun p => pred p = true) peers with [p] => Some p | _ => None end.
Proof.
  revert found. induction peers as [|p peers IH]; intros found; cbn [single_from].
  - by destruct found.
  - rewrite filter_cons. destruct (pred p) eqn:E; [rewrite decide_True by done|rewrite decide_False by done; apply IH].
    destruct found as [f|]; [done|]. by rewrite IH.
Qed.

(** One neighbour has the identity, and no other. *)
Definition only_peer (pred : SitePeerConfig -> bool) (peers : list SitePeerConfig) (peer : SitePeerConfig) : Prop :=
  filter (fun p => pred p = true) peers = [peer].

Lemma single_peer_spec pred peers peer : single_peer pred peers = Some peer <-> only_peer pred peers peer.
Proof.
  unfold single_peer, only_peer. rewrite single_from_spec. cbn. destruct (filter _ peers) as [|p [|q r]]; naive_solver.
Qed.

Lemma source_in_spec subnets ip e : source_in_subnets subnets ip = true <-> length (winners (own_hits e subnets ip)) = 1%nat.
Proof.
  unfold source_in_subnets. pose proof (winners_tally (own_hits e subnets ip)) as H. rewrite own_tally in H.
  destruct (classify_prefixes subnets ip).
  - by rewrite H.
  - by destruct H as (h & -> & _).
  - by destruct H as (h & h' & r & ->).
Qed.

(** A packet of a neighbour is let in only with an address that the configuration gives
    to it. A source is allowed for a session exactly if the session has a verified, non-empty
    node identity, exactly one configured neighbour has that identity, and exactly one of
    that neighbour's subnets has the longest prefix that contains the source. *)
Theorem site_source_exact config node source :
  source_allowed_for_node_in config node source = true <->
  exists id peer, given_id node = Some id /\ only_peer (fun p => peer_matches_node p id) (site_peers config) peer /\
    length (winners (own_hits (endpoint peer) (remote_subnets peer) source)) = 1%nat.
Proof.
  unfold source_allowed_for_node_in. destruct (given_id node) as [id|]; [|naive_solver].
  destruct (single_peer _ (site_peers config)) as [peer|] eqn:E.
  - rewrite (source_in_spec _ _ (endpoint peer)). apply single_peer_spec in E. split; [by exists id, peer|].
    intros (i & q & [= <-] & Hq & Hw). unfold only_peer in *. congruence.
  - split; [done|]. intros (i & q & [= <-] & Hq%single_peer_spec & _). congruence.
Qed.

(** ** Announcements *)

Lemma existsb_in (x : bytes) l : existsb (fun own => bool_decide (own = x)) l = true <-> x ∈ l.
Proof.
  rewrite existsb_exists. split.
  - intros (y & Hy & D%bool_decide_eq_true_1). subst. by apply list_elem_of_In.
  - intros Hx. exists x. split; [by apply list_elem_of_In|]. by apply bool_decide_eq_true_2.
Qed.

Lemma plan_from_spec authorized install advertised :
  NoDup install -> (forall s, s ∈ install -> s ∈ authorized /\ subnet_installable s = true) ->
  NoDup (plan_from authorized install advertised) /\
  forall s, s ∈ plan_from authorized install advertised <->
    s ∈ install \/ s ∈ advertised /\ s ∈ authorized /\ subnet_installable s = true.
Proof.
  revert install. induction advertised as [|x l IH]; intros install Hn Hi; cbn [plan_from]; [set_solver|].
  assert (Hskip : ~ (x ∈ authorized /\ subnet_installable x = true) \/ x ∈ install ->
    NoDup (plan_from authorized install l) /\ forall s, s ∈ plan_from authorized install l <->
      s ∈ install \/ s ∈ x :: l /\ s ∈ authorized /\ subnet_installable s = true).
  { intros Hx. destruct (IH install Hn Hi) as [H1 H2]. split; [done|]. intros s. rewrite H2, elem_of_cons. naive_solver. }
  destruct (existsb (fun own => bool_decide (own = x)) authorized) eqn:Ea; cbn [negb].
  2: { apply Hskip. left. intros [H%existsb_in _]. congruence. }
  apply existsb_in in Ea. destruct (subnet_installable x) eqn:Es; cbn [negb]; [|apply Hskip; left; naive_solver].
  destruct (existsb (fun have => bool_decide (have = x)) install) eqn:Eh; cbn [negb].
  { apply existsb_in in Eh. apply Hskip. by right. }
  assert (Hx : x ∉ install) by (rewrite <- existsb_in; congruence).
  destruct (IH (install ++ [x])) as [H1 H2].
  - apply NoDup_app. split; [done|]. split; [set_solver|apply NoDup_singleton].
  - intros s [?| ->%list_elem_of_singleton]%elem_of_app; [by apply Hi|done].
  - split; [done|]. intros s. rewrite H2, elem_of_app, list_elem_of_singleton, elem_of_cons. naive_solver.
Qed.

(** ** Names and commands *)

Lemma read_digits_suffix radix l acc k r n rest : read_digits radix l acc k = (r, n, rest) -> exists pre, l = pre ++ rest.
Proof.
  revert acc k. induction l as [|c l IH]; intros acc k; cbn [read_digits]; [intros [= _ _ <-]; by exists []|].
  destruct (to_digit radix c); [|intros [= _ _ <-]; by exists []]. intros (pre & ->)%IH. by exists (c :: pre).
Qed.

Lemma read_number_suffix radix m z b l r rest : read_number radix m z b l = Some (r, rest) -> exists pre, l = pre ++ rest.
Proof.
  unfold read_number. destruct (read_digits radix l 0 0) as [[x n] l2] eqn:Ed. apply read_digits_suffix in Ed.
  repeat case_match; try done. by intros [= _ <-].
Qed.

Lemma read_ipv4_dot l a rest : read_ipv4 l = Some (a, rest) -> 46 ∈ l.
Proof.
  unfold read_ipv4. cbn [read_separator Nat.ltb Nat.leb]. destruct (read_number 10 3 false 256 l) as [[x l1]|] eqn:E; [|done].
  apply read_number_suffix in E as (pre & ->). destruct l1 as [|c l1]; [done|].
  unfold char_dot. destruct (Z.eqb_spec c 46) as [->|]; [set_solver|done].
Qed.

Lemma read_groups_plain fuel i l : 58 ∉ l -> 46 ∉ l -> exists g b rest pre,
  read_groups fuel i l = (g, b, rest) /\ l = pre ++ rest /\ b = false /\ (length g <= 1)%nat.
Proof.
  intros Hc Hd. assert (H4 : forall j, read_separator char_colon j read_ipv4 l = None).
  { intros [|j]; unfold read_separator; cbn [Nat.ltb Nat.leb].
    - destruct (read_ipv4 l) as [[a r]|] eqn:E; [by apply read_ipv4_dot in E|done].
    - destruct l as [|c l]; [done|]. unfold char_colon. destruct (Z.eqb_spec c 58); [set_solver|done]. }
  assert (Hsep : forall (A : Type) j (inner : bytes -> option (A * bytes)) m, 58 ∉ m -> read_separator char_colon (S j) inner m = None).
  { intros A j inner [|c m] Hm; cbn; [done|]. unfold char_colon. destruct (Z.eqb_spec c 58); [set_solver|done]. }
  destruct fuel as [|fuel]; cbn [read_groups]; [exists [], false, l, []; split_and!; first [done | cbn; lia]|].
  rewrite H4. replace (if (0 <? fuel)%nat then None else None : option (Z * bytes)) with (None : option (Z * bytes)) by (by destruct (0 <? fuel)%nat).
  destruct (read_separator char_colon i (read_number 16 4 true 65536) l) as [[g rest]|] eqn:E;
    [|exists [], false, l, []; split_and!; first [done | cbn; lia]].
  destruct i as [|i]; [|by rewrite Hsep in E]. cbn in E. apply read_number_suffix in E as (pre & ->).
  assert (Hr : read_groups fuel 1 rest = ([], false, rest)).
  { destruct fuel; [done|]. cbn [read_groups]. rewrite !Hsep by set_solver. by destruct (0 <? fuel)%nat. }
  rewrite Hr. exists [g], false, rest, pre. split_and!; first [done | cbn; lia].
Qed.

Lemma parse_ip_plain l : 58 ∉ l -> 46 ∉ l -> parse_ip l = None.
Proof.
  intros Hc Hd. unfold parse_ip, read_ip. destruct (read_ipv4 l) as [[a r]|] eqn:E4; [by apply read_ipv4_dot in E4|].
  unfold read_ipv6. destruct (read_groups_plain 8 0 l Hc Hd) as (g & b & rest & pre & -> & -> & -> & Hg).
  rewrite (proj2 (Nat.eqb_neq (length g) 8)) by lia. destruct rest as [|c1 [|c2 rest]]; [done..|].
  unfold char_colon. destruct (Z.eqb_spec c1 58); [set_solver|done].
Qed.

(** The characters of the name of an interface. *)
Definition iface_char (c : Z) : Prop := 97 <= c <= 122 \/ 48 <= c <= 57 \/ c = 95 \/ c = 45.

Lemma iface_name_spec name :
  private_iface_name name = true -> name <> [] /\ Forall iface_char name /\ exists c r, name = c :: r /\ 97 <= c <= 122.
Proof.
  unfold private_iface_name, is_lower, is_digit. intros H. rewrite !andb_true_iff in H. destruct H as [[[Hn _] Hh] Ha].
  apply negb_true_iff, bool_decide_eq_false_1 in Hn. split; [done|]. split.
  - apply Forall_forall. intros c Hc%list_elem_of_In. rewrite forallb_forall in Ha. apply Ha in Hc.
    rewrite !orb_true_iff, !andb_true_iff, !Z.leb_le, !Z.eqb_eq in Hc. unfold iface_char. lia.
  - destruct name as [|c r]; [done|]. exists c, r. split; [done|]. cbn in Hh. lia.
Qed.

Lemma iface_space c d e : iface_char c -> (space1 c = false /\ space2 c d = false /\ space3 c d e = false) /\ space2 d c = false /\ space3 d e c = false.
Proof.
  unfold iface_char, space1, space2, space3. intros H.
  split_and!; rewrite ?orb_false_iff, ?andb_false_iff, ?Z.leb_gt, ?Z.eqb_neq; lia.
Qed.

Lemma skip_plain width n s : width s = 0%nat -> skip_spaces width n s = s.
Proof. destruct n; [done|]. cbn. by intros ->. Qed.

Lemma trim_iface name : Forall iface_char name -> trim name = name.
Proof.
  intros H. unfold trim.
  assert (H1 : space_width name = 0%nat).
  { destruct name as [|c r]; [done|]. apply Forall_cons in H as [H _]. unfold space_width. cbn [nth].
    destruct (iface_space c (nth 0 r 0) (nth 1 r 0) H) as [(-> & H2 & H3) _]. destruct r as [|d [|e r]]; cbn in *; by rewrite ?H2, ?H3. }
  rewrite (skip_plain space_width) by done.
  assert (H2 : space_width_rev (rev name) = 0%nat).
  { apply Forall_rev in H. destruct (rev name) as [|c r]; [done|]. apply Forall_cons in H as [H _]. unfold space_width_rev. cbn [nth].
    destruct (iface_space c (nth 0 r 0) (nth 1 r 0) H) as [(-> & _) (H3 & _)].
    destruct (iface_space c (nth 1 r 0) (nth 0 r 0) H) as [_ (_ & H4)]. destruct r as [|d [|e r]]; cbn in *; by rewrite ?H3, ?H4. }
  rewrite (skip_plain space_width_rev) by done. apply rev_involutive.
Qed.

Lemma split_once_plain sep l : sep ∉ l -> split_once sep l = None.
Proof.
  induction l as [|c l IH]; intros H; [done|]. cbn. destruct (Z.eqb_spec c sep); [set_solver|]. rewrite IH by set_solver. done.
Qed.

Lemma tun_hop tun v6 : private_iface_name tun = true -> route_next_hop tun v6 = Some (Device tun).
Proof.
  intros H. destruct (iface_name_spec tun H) as (Hn & Hf & c & r & E & Hc).
  assert (Hno : forall x, ~ iface_char x -> x ∉ tun) by (intros x Hx Hin; rewrite Forall_forall in Hf; by apply Hf in Hin).
  assert (Hp : parse_ip tun = None) by (apply parse_ip_plain; apply Hno; unfold iface_char; lia).
  assert (Hg : route_gateway_host tun = tun).
  { unfold route_gateway_host. rewrite (trim_iface tun Hf).
    assert (read_char 91 tun = None) as ->. { rewrite E. cbn. by rewrite (proj2 (Z.eqb_neq c 91)) by lia. }
    cbn [mbind option_bind]. rewrite Hp, bool_decide_eq_false_2 by (by intros []). unfold rsplit_once.
    rewrite split_once_plain; [done|]. rewrite list_elem_of_In, <- in_rev, <- list_elem_of_In. apply Hno. unfold iface_char. lia. }
  unfold route_next_hop. by rewrite Hg, Hp, H.
Qed.

(** A network whose routes may be installed: no host bits, not too wide, neither loopback
    nor link-local. *)
Definition network_ok (addr : IpAddr) (prefix : Z) : Prop :=
  match addr with
  | V4 x => x mod 2 ^ (32 - prefix) = 0 /\ 8 <= prefix <= 32 /\ x / 2 ^ 24 <> 127 /\ x / 2 ^ 16 <> 43518
  | V6 x => x mod 2 ^ (128 - prefix) = 0 /\ 16 <= prefix <= 128 /\ x <> 1 /\ x / 2 ^ 118 <> 1018
  end.

Lemma low_bits n p x : 0 <= p <= n -> (Z.land x (2 ^ n - 1 - (2 ^ n - 2 ^ (n - p))) =? 0) = true <-> x mod 2 ^ (n - p) = 0.
Proof.
  intros Hp. replace (2 ^ n - 1 - (2 ^ n - 2 ^ (n - p))) with (Z.ones (n - p)) by (rewrite Z.ones_equiv; lia).
  rewrite Z.land_ones by lia. apply Z.eqb_eq.
Qed.

Lemma link_local_spec x : u128_ok x -> (Z.land (default 0 (ipv6_segments x !! 0%nat)) 65472 =? 65152) = true <-> x / 2 ^ 118 = 1018.
Proof.
  intros Hx. unfold u128_ok in Hx. cbn [ipv6_segments map lookup list_lookup default from_option id].
  change (65536 ^ 7) with (2 ^ 112). change 65472 with (2 ^ 16 - 2 ^ 6). change 65536 with (2 ^ 16) at 1.
  assert (Hq : 0 <= x / 2 ^ 112 < 2 ^ 16).
  { split; [apply Z.div_pos; lia|apply Z.div_lt_upper_bound; [lia|]]. change (2 ^ 112 * 2 ^ 16) with 340282366920938463463374607431768211456. lia. }
  rewrite Z.mod_small, land_high, Z.eqb_eq by lia. change (2 ^ 118) with (2 ^ 112 * 2 ^ 6). rewrite <- Z.div_div by lia. lia.
Qed.

Lemma installable_spec s :
  subnet_installable s = true <-> exists addr prefix, parse_cidr s = Some (addr, prefix) /\ network_ok addr prefix.
Proof.
  unfold subnet_installable, is_safe_subnet. destruct (parse_cidr s) as [[a p]|] eqn:E; [|naive_solver].
  apply parse_cidr_ok in E as [Ha Hp].
  enough (Hok : host_bits_clear a p && (if (p =? 0) || is_loopback a then false else
      match a with V4 x => (8 <=? p) && negb (x / 65536 =? 43518)
      | V6 x => (16 <=? p) && negb (Z.land (default 0 (ipv6_segments x !! 0%nat)) 65472 =? 65152) end) = true <-> network_ok a p) by naive_solver.
  destruct a as [x|x]; cbn [network_ok host_bits_clear is_loopback width is_ipv4] in *; rewrite andb_true_iff.
  - rewrite v4_mask_eq by done. change u32_max with (2 ^ 32 - 1). rewrite low_bits by done.
    change (2 ^ 24) with 16777216. change (2 ^ 16) with 65536.
    destruct (Z.eqb_spec p 0), (Z.eqb_spec (x / 16777216) 127); cbn [orb]; try (split; [naive_solver|lia]);
      rewrite andb_true_iff, Z.leb_le, negb_true_iff, Z.eqb_neq; lia.
  - rewrite v6_mask_eq by done. rewrite low_bits by done. unfold ipv6_is_loopback.
    pose proof (link_local_spec x Ha) as Hl. destruct (Z.land _ 65472 =? 65152);
    destruct (Z.eqb_spec p 0), (Z.eqb_spec x 1); cbn [orb negb]; rewrite ?andb_true_r, ?andb_false_r, ?Z.leb_le; naive_solver lia.
Qed.

(** A network never reads as an option. *)
Lemma cidr_no_option s a p : parse_cidr s = Some (a, p) -> head s <> Some 45.
Proof.
  destruct s as [|c s]; [done|]. intros E [= ->]. unfold parse_cidr in E. cbn [split_once] in E. change (45 =? 47) with false in E. cbv iota in E.
  destruct (split_once 47 s) as [[x y]|]; [|done]. cbn [base.mbind option_bind] in E. destruct (_ || _); [done|]. destruct (_ && _); [done|].
  destruct (parse_u8 y); [|done]. cbn [base.mbind option_bind] in E. assert (He : parse_ip (45 :: x) = None) by (by destruct x). by rewrite He in E.
Qed.

Section Announce.
Context {SJ : SiteJson}.

(** The command for one network. *)
Definition route_command (addr : IpAddr) (subnet tun : bytes) : list bytes :=
  [str_bytes (if is_ipv6 addr then "-6" else "-4"); str_bytes "route"; str_bytes "add"; subnet; str_bytes "dev"; tun].

Lemma route_args_tun subnet tun :
  private_iface_name tun = true ->
  forall cmd, route_ip_args subnet tun = Some cmd <->
    exists addr prefix, parse_cidr subnet = Some (addr, prefix) /\ network_ok addr prefix /\ cmd = route_command addr subnet tun.
Proof.
  intros Ht cmd. unfold route_ip_args. pose proof (installable_spec subnet) as Hi.
  destruct (subnet_installable subnet); cbn [negb]; [|split; [done|naive_solver]].
  destruct (proj1 Hi eq_refl) as (addr & prefix & E & Hok). rewrite E. cbn [base.mbind option_bind]. rewrite tun_hop by done. cbn.
  split; [intros [= <-]; by exists addr, prefix|]. by intros (? & ? & [= <- <-] & _ & ->).
Qed.

(** What an announcement has to be for its subnets to be looked at. *)
Definition announces (json from : bytes) (claimed : bytes) (advertised : list bytes) : Prop :=
  is_Some (parse_socket from) /\ len json <= MAX_SUBNETS_JSON_BYTES /\ masked_form json = Some (claimed, advertised) /\
  claimed <> [] /\ len advertised <= MAX_SUBNETS_PER_MSG.

Lemma plan_spec config json from verified :
  NoDup (plan_route_installs config json from verified) /\
  forall s, s ∈ plan_route_installs config json from verified <->
    exists claimed advertised peer, announces json from claimed advertised /\
      only_peer (fun p => peer_matches_node p (default claimed (given_id verified))) (site_peers config) peer /\
      s ∈ advertised /\ s ∈ remote_subnets peer /\ subnet_installable s = true.
Proof.
  assert (Hnil : forall P : bytes -> Prop, (forall s, ~ P s) -> NoDup ([] : list bytes) /\ forall s, s ∈ [] <-> P s).
  { intros P HP. split; [constructor|]. intros s. split; [by intros ?%elem_of_nil|]. intros H. by destruct (HP s). }
  unfold plan_route_installs, announces. destruct (parse_socket from) as [sock|] eqn:Es;
    [|apply Hnil; by intros s (? & ? & ? & ([? ?] & _) & _)].
  destruct (Z.ltb_spec MAX_SUBNETS_JSON_BYTES (len json)); [apply Hnil; intros s (? & ? & ? & (_ & ? & _) & _); lia|].
  unfold parse_route_sync_payload. destruct (masked_form json) as [[claimed advertised]|] eqn:Ej;
    [|apply Hnil; by intros s (? & ? & ? & (_ & _ & ? & _) & _)]. cbn [base.mbind option_bind].
  destruct (bool_decide_reflect (claimed = [])) as [->|Hc]; [apply Hnil; intros s (? & ? & ? & (_ & _ & [= <- <-] & ? & _) & _); done|].
  destruct (Z.ltb_spec MAX_SUBNETS_PER_MSG (len advertised)); [apply Hnil; intros s (? & ? & ? & (_ & _ & [= <- <-] & _ & ?) & _); lia|].
  replace (match given_id verified with Some v => v | None => claimed end) with (default claimed (given_id verified))
    by (by destruct (given_id verified)).
  unfold authorized_subnets_for. destruct (single_peer _ (site_peers config)) as [peer|] eqn:Ep; cbn [base.mbind option_bind].
  2: { apply Hnil. intros s (? & ? & ? & (_ & _ & [= <- <-] & _) & Hp%single_peer_spec & _). congruence. }
  destruct (plan_from_spec (filter (fun subnet => existsb (fun own => bool_decide (own = subnet)) (remote_subnets peer) = true) advertised)
    [] advertised) as [H1 H2]; [constructor|by intros s ?%elem_of_nil|]. split; [done|]. intros s.
  rewrite H2, elem_of_nil, list_elem_of_filter, existsb_in. apply single_peer_spec in Ep. split.
  - intros [[]|(Ha & (Hr & _) & Hi)]. exists claimed, advertised, peer. by split_and!.
  - intros (? & ? & q & (_ & _ & [= <- <-] & _) & Hq & Ha & Hr & Hi). right. unfold only_peer in *. assert (q = peer) as -> by congruence. done.
Qed.

(** C20: An announcement installs exactly what it may. Once the process has its configuration
    and tunnel: the commands an announcement causes are, each once, those that route through
    the tunnel an announced network which the configuration gives to the one neighbour that
    has the sender's identity (the verified one where there is one, whatever the body
    claims), which has no host bits, is not too wide, and is neither loopback nor
    link-local. No network begins with a dash, so none reads as an option. *)
Theorem site_routes_exact config tun s json from verified :
  init_config_only config tun {| site_tun := None; site_config := None |} = (s, inl tt) ->
  NoDup (handle_route_sync s json from verified) /\
  forall cmd, cmd ∈ handle_route_sync s json from verified <->
    exists claimed advertised peer subnet addr prefix, announces json from claimed advertised /\
      only_peer (fun p => peer_matches_node p (default claimed (given_id verified))) (site_peers config) peer /\
      subnet ∈ advertised /\ subnet ∈ remote_subnets peer /\ parse_cidr subnet = Some (addr, prefix) /\ network_ok addr prefix /\
      head subnet <> Some 45 /\ cmd = route_command addr subnet tun.
Proof.
  unfold init_config_only. destruct (private_iface_name tun) eqn:Et; [|done]. intros [= <-]. unfold handle_route_sync. cbn [site_config site_tun].
  destruct (plan_spec config json from verified) as [Hn Hp]. split.
  - clear Hp. induction Hn as [|x l Hx Hl IH]; [constructor|]. cbn. destruct (route_ip_args x tun) as [cmd|] eqn:E; [|done]. constructor; [|done].
    intros (y & Hy & E')%list_elem_of_omap. apply (route_args_tun x tun Et) in E as (a & p & _ & _ & ->).
    apply (route_args_tun y tun Et) in E' as (b & q & _ & _ & E'). injection E' as [= _ ->]. done.
  - intros cmd. rewrite list_elem_of_omap. split.
    + intros (x & Hx & (a & p & E & Hok & ->)%(route_args_tun x tun Et)). apply Hp in Hx as (claimed & advertised & peer & H1 & H2 & H3 & H4 & _).
      exists claimed, advertised, peer, x, a, p. split_and!; try done. by eapply cidr_no_option.
    + intros (claimed & advertised & peer & x & a & p & H1 & H2 & H3 & H4 & H5 & H6 & _ & ->). exists x. split.
      * apply Hp. exists claimed, advertised, peer. split_and!; try done. apply installable_spec. by exists a, p.
      * apply (route_args_tun x tun Et). by exists a, p.
Qed.
End Announce.

(** ** A sample *)

Section Sample.
Definition branch : SitePeerConfig :=
  {| peer_name := str_bytes "branch"; endpoint := str_bytes "198.51.100.7:443"; sync_key := [];
     remote_subnets := [str_bytes "10.20.0.0/16"; str_bytes "fd20::/48"]; peer_node_id := None |}.

Definition depot : SitePeerConfig :=
  {| peer_name := str_bytes "depot"; endpoint := str_bytes "203.0.113.9:443"; sync_key := [];
     remote_subnets := [str_bytes "10.20.30.0/24"; str_bytes "169.254.0.0/16"]; peer_node_id := Some (str_bytes " node-2 ") |}.

Definition two_sites : SiteToSiteConfig :=
  {| local_name := None; local_subnets := []; site_peers := [branch; depot] |}.

(** A message that claims to come from the depot, with a network of each neighbour. *)
Definition sample_json : SiteJson :=
  {| masked_form _ := Some (str_bytes "node-2", [str_bytes "10.20.0.0/16"; str_bytes "10.20.30.0/24"; str_bytes "10.20.0.0/16"]) |}.

Definition sample_state : SiteState := {| site_tun := Some (str_bytes "tun0"); site_config := Some two_sites |}.

Example longer_prefix_wins : site_destination_in (site_peers two_sites) (V4 (ipv4_new 10 20 30 4)) = Some (Peer (endpoint depot)).
Proof. vm_compute. reflexivity. Qed.

(** The verified identity decides, not the claimed one. *)
Lemma site_routes_exact_witness :
  handle_route_sync (SJ := sample_json) sample_state [] (str_bytes "198.51.100.7:443") (Some (str_bytes "branch"))
    = [route_command (V4 (ipv4_new 10 20 0 0)) (str_bytes "10.20.0.0/16") (str_bytes "tun0")] /\
  NoDup (handle_route_sync (SJ := sample_json) sample_state [] (str_bytes "198.51.100.7:443") (Some (str_bytes "branch"))).
Proof.
  split; [vm_compute; reflexivity|].
  assert (E : init_config_only two_sites (str_bytes "tun0") {| site_tun := None; site_config := None |} = (sample_state, inl tt))
    by (vm_compute; reflexivity).
  exact (proj1 (site_routes_exact (SJ := sample_json) two_sites (str_bytes "tun0") sample_state [] (str_bytes "198.51.100.7:443")
    (Some (str_bytes "branch")) E)).
Defined.
End Sample.
