(* ===== verification/ExitRouting.v ===== *)
(** * Exits

    Where the traffic of a client leaves the pool: [gateway/exit_routing.rs], the tasks that
    dial other servers ([pool_dialer.rs]), the cache of exits of [gateway/mod.rs], and the
    routes back to the server a packet came from ([gateway/chain_reverse.rs]). The theorems:
    after a change exactly the servers that are needed are dialled and no server of the
    configuration is ever dropped; a task that was stopped can neither appear as live nor
    take down its successor; traffic bound for a global exit never leaves locally; and a
    route back cannot be taken over while its owner lives. *)

From S2P Require Import Prelude Collections Text Utf8 IpAddr NetworkConfig Crypto ClientDb.
Local Open Scope Z_scope.

(** ** The dialer *)

(** A task has a generation, which its stop flag belongs to; it runs sessions one after the
    other, and a session that has heard from the peer is registered as its sender. *)
Record Dialer : Type := {
  d_node_id : option bytes;
  d_peers : list bytes;
  site_peer_addrs : list bytes;
  started : bool;
  dialed_peers : gset bytes;
  runtime_exit_peers : gset bytes;
  peer_stop_flags : gmap bytes Z;
  stopped : gset Z;
  tasks : gmap Z bytes;
  spawn_count : Z;
  peer_senders : gmap bytes (Z * Z);
}.

Definition new_dialer (node_id : bytes) (peers sites : list bytes) : Dialer :=
  {| d_node_id := Some node_id; d_peers := filter (fun p => p <> node_id) peers; site_peer_addrs := sites; started := false;
     dialed_peers := ∅; runtime_exit_peers := ∅; peer_stop_flags := ∅; stopped := ∅; tasks := ∅; spawn_count := 0;
     peer_senders := ∅ |}.

(** [queue_site_peer], without the keys *)
Definition queue_site_peer (endpoint : bytes) (d : Dialer) : Dialer :=
  if bool_decide (endpoint ∈ d_peers d) || bool_decide (endpoint ∈ site_peer_addrs d) then d
  else
  {| d_node_id := d_node_id d; d_peers := d_peers d; site_peer_addrs := site_peer_addrs d ++ [endpoint]; started := started d;
     dialed_peers := dialed_peers d; runtime_exit_peers := runtime_exit_peers d; peer_stop_flags := peer_stop_flags d;
     stopped := stopped d; tasks := tasks d; spawn_count := spawn_count d; peer_senders := peer_senders d |}.

Definition spawn_dial_loop (peer : bytes) (is_runtime_exit : bool) (d : Dialer) : Dialer * bool :=
  if bool_decide (peer ∈ dialed_peers d) then (d, false)
  else if negb (started d) then (d, false)
  else
  ({| d_node_id := d_node_id d; d_peers := d_peers d; site_peer_addrs := site_peer_addrs d; started := true;
      dialed_peers := {[peer]} ∪ dialed_peers d;
      runtime_exit_peers := if is_runtime_exit then {[peer]} ∪ runtime_exit_peers d else runtime_exit_peers d;
      peer_stop_flags := <[peer := spawn_count d]> (peer_stop_flags d); stopped := stopped d;
      tasks := <[spawn_count d := peer]> (tasks d); spawn_count := spawn_count d + 1; peer_senders := peer_senders d |}, true).

Definition mark_started (d : Dialer) : Dialer :=
  {| d_node_id := d_node_id d; d_peers := d_peers d; site_peer_addrs := site_peer_addrs d; started := true;
     dialed_peers := dialed_peers d; runtime_exit_peers := runtime_exit_peers d; peer_stop_flags := peer_stop_flags d;
     stopped := stopped d; tasks := tasks d; spawn_count := spawn_count d; peer_senders := peer_senders d |}.

Definition start (d : Dialer) : Dialer :=
  fold_left (fun d p => (spawn_dial_loop p false d).1) (d_peers d ++ site_peer_addrs d) (mark_started d).

Definition add_peer (addr : bytes) (d : Dialer) : Dialer :=
  let addr := trim addr in
  if bool_decide (addr = []) then d
  else if bool_decide (d_node_id d = Some addr) then d
  else (spawn_dial_loop addr true d).1.

Definition remove_peer (addr : bytes) (d : Dialer) : Dialer * bool :=
  let addr := trim addr in
  if bool_decide (addr = []) then (d, false)
  else if negb (bool_decide (addr ∈ runtime_exit_peers d)) then (d, false)
  else
  ({| d_node_id := d_node_id d; d_peers := d_peers d; site_peer_addrs := site_peer_addrs d; started := started d;
      dialed_peers := dialed_peers d ∖ {[addr]}; runtime_exit_peers := runtime_exit_peers d ∖ {[addr]};
      peer_stop_flags := delete addr (peer_stop_flags d);
      stopped := match peer_stop_flags d !! addr with Some g => {[g]} ∪ stopped d | None => stopped d end;
      tasks := tasks d; spawn_count := spawn_count d; peer_senders := delete addr (peer_senders d) |}, true).

Definition set_senders (m : gmap bytes (Z * Z)) (d : Dialer) : Dialer :=
  {| d_node_id := d_node_id d; d_peers := d_peers d; site_peer_addrs := site_peer_addrs d; started := started d;
     dialed_peers := dialed_peers d; runtime_exit_peers := runtime_exit_peers d; peer_stop_flags := peer_stop_flags d;
     stopped := stopped d; tasks := tasks d; spawn_count := spawn_count d; peer_senders := m |}.

(** The first message on a session of a task: [with_active] of the generation, then the
    registration. *)
Definition promote (generation sess : Z) (d : Dialer) : Dialer :=
  match tasks d !! generation with
  | None => d
  | Some peer =>
      if bool_decide (generation ∈ stopped d) then d else set_senders (<[peer := (generation, sess)]> (peer_senders d)) d
  end.

(** The end of a session: it removes the sender only if it is its own. *)
Definition session_end (generation sess : Z) (d : Dialer) : Dialer :=
  match tasks d !! generation with
  | None => d
  | Some peer =>
      if bool_decide (peer_senders d !! peer = Some (generation, sess)) then set_senders (delete peer (peer_senders d)) d else d
  end.

Definition has_live_session (d : Dialer) (peer : bytes) : bool := bool_decide (is_Some (peer_senders d !! peer)).

(** ** Keeping the set of exits *)

Definition trimmed_exit (c : ClientConfig) : option bytes :=
  addr ← exit_node c; let addr := trim addr in if bool_decide (addr = []) then None else Some addr.

Fixpoint exits_from (already seen : gset bytes) (clients : list ClientConfig) : list bytes :=
  match clients with
  | [] => []
  | c :: clients =>
      match trimmed_exit c with
      | None => exits_from already seen clients
      | Some addr =>
          if bool_decide (addr ∈ already) then exits_from already seen clients
          else if bool_decide (addr ∈ seen) then exits_from already seen clients
          else addr :: exits_from already ({[addr]} ∪ seen) clients
      end
  end.

Definition exits_needing_dial (clients : list ClientConfig) (already : gset bytes) : list bytes := exits_from already ∅ clients.

Definition add_dial_peers_for_client_exits_for (clients : list ClientConfig) (d : Dialer) : Dialer :=
  fold_left (fun d addr => add_peer addr d) (exits_needing_dial clients (dialed_peers d)) d.

(** The global exit and the dialer, which a node may be without. *)
Record Exits : Type := { masked_exit_addr : option bytes; pool_dialer : option Dialer }.

Definition apply_global_exit_swap (new_global : option bytes) (e : Exits) : Exits :=
  match pool_dialer e with
  | None => e
  | Some d =>
      if bool_decide (masked_exit_addr e = new_global) then e
      else {| masked_exit_addr := new_global;
              pool_dialer := Some match new_global with Some addr => add_peer addr d | None => d end |}
  end.

Definition needed_exits (global : option bytes) (clients : list ClientConfig) : gset bytes :=
  list_to_set (option_list global ++ base.omap trimmed_exit clients).

(** The addresses come out of a hash set, in the order [l]. *)
Definition teardown_unused_exit_dials_for (l : list bytes) (clients : list ClientConfig) (e : Exits) : Exits :=
  match pool_dialer e with
  | None => e
  | Some d =>
      let needed := needed_exits (masked_exit_addr e) clients in
      {| masked_exit_addr := masked_exit_addr e;
         pool_dialer := Some (fold_left (fun d addr => if bool_decide (addr ∈ needed) then d else (remove_peer addr d).1) l d) |}
  end.

(** [read_global_exit_node]: what the member [pool.exit_node] of the file holds, if the file
    can be read and holds a string there. *)
Definition global_exit (member : option bytes) : option bytes :=
  addr ← member; let addr := trim addr in if bool_decide (addr = []) then None else Some addr.

Definition apply_global_exit_and_teardown (member : option bytes) (clients : list ClientConfig) (order : gset bytes -> list bytes)
    (e : Exits) : Exits :=
  match pool_dialer e with
  | None => e
  | Some _ =>
      let e := apply_global_exit_swap (global_exit member) e in
      let e := {| masked_exit_addr := masked_exit_addr e;
                  pool_dialer := add_dial_peers_for_client_exits_for clients <$> pool_dialer e |} in
      teardown_unused_exit_dials_for (order (default ∅ (runtime_exit_peers <$> pool_dialer e))) clients e
  end.

(** ** The decision for a packet *)

Module ExitDecision.
Inductive t : Type := NoExit | Send (addr : bytes) (local_fallback : bool).
End ExitDecision.

Definition choose_exit (client_exit global : option bytes) (is_live : bytes -> bool) : ExitDecision.t :=
  match client_exit with
  | Some c =>
      if is_live c then ExitDecision.Send c true
      else match global with Some g => ExitDecision.Send g true | None => ExitDecision.NoExit end
  | None => match global with Some g => ExitDecision.Send g false | None => ExitDecision.NoExit end
  end.

(** [resolve_client_exit_addr]: the cache of exits in front of the database. *)
Definition resolve_client_exit_addr (ip : Ipv4Addr) (db : option Host) (cache : gmap Z (option bytes))
    : gmap Z (option bytes) * option bytes :=
  match cache !! ip with
  | Some cached => (cache, cached)
  | None =>
      let resolved := h ← db; c ← find_by_vpn_ip ip h; exit_node c in
      (<[ip := resolved]> cache, resolved)
  end.

Definition exit_decision_for_session (vpn_ip : option Ipv4Addr) (db : option Host) (e : Exits) (cache : gmap Z (option bytes))
    : gmap Z (option bytes) * ExitDecision.t :=
  let '(cache, client_exit) :=
    match vpn_ip with Some ip => resolve_client_exit_addr ip db cache | None => (cache, None) end in
  (cache, choose_exit client_exit (masked_exit_addr e)
            (fun addr => match pool_dialer e with Some d => has_live_session d addr | None => false end)).

(** Where a packet went: to the exit in a message, out of the tunnel interface or the NAT of
    this server, or nowhere. *)
Inductive Egress : Type := ToExit (addr : bytes) | Local | Dropped.

(** [forward_via_exit]; [accepts] says that the queue of a live session takes the message. *)
Definition forward_via_exit (accepts : bytes -> bool) (addr : bytes) (local_fallback : bool) (e : Exits) : Egress :=
  let sent := match pool_dialer e with Some d => has_live_session d addr && accepts addr | None => false end in
  if negb local_fallback then if sent then ToExit addr else Dropped
  else if sent then ToExit addr else Local.

(** The end of [forward_client_data]: [force_local] for packets another server forwards. *)
Definition route_client_data (accepts : bytes -> bool) (force_local site : bool) (vpn_ip : option Ipv4Addr) (db : option Host)
    (e : Exits) (cache : gmap Z (option bytes)) : gmap Z (option bytes) * Egress :=
  if force_local || site then (cache, Local)
  else
  let '(cache, decision) := exit_decision_for_session vpn_ip db e cache in
  (cache, match decision with
          | ExitDecision.Send addr fallback => forward_via_exit accepts addr fallback e
          | ExitDecision.NoExit => Local
          end).

(** ** Routes back *)

(** Times are in nanoseconds. *)
Definition CHAIN_REVERSE_ROUTE_TTL : Z := 600 * 1000000000.
Definition CHAIN_REVERSE_SWEEP_EVERY : Z := 256.

(** The counter of the code wraps around at a power of two, which keeps its remainder. *)
Record ReverseRoutes : Type := { routes : gmap IpAddr (bytes * Z); insert_count : Z }.

Definition chain_reverse_route_insert (src_ip : IpAddr) (session_id : bytes) (now : Z) (incumbent_is_live : bytes -> bool)
    (r : ReverseRoutes) : ReverseRoutes :=
  let m :=
    match routes r !! src_ip with
    | None => <[src_ip := (session_id, now)]> (routes r)
    | Some (existing, last_seen) =>
        let expired := CHAIN_REVERSE_ROUTE_TTL <=? sat_sub now last_seen in
        let dead := negb (incumbent_is_live existing) in
        if bool_decide (existing = session_id) || expired || dead then <[src_ip := (session_id, now)]> (routes r) else routes r
    end in
  let n := insert_count r + 1 in
  {| routes := if n mod CHAIN_REVERSE_SWEEP_EVERY =? 0
               then filter (fun e => sat_sub now e.2.2 < CHAIN_REVERSE_ROUTE_TTL) m else m;
     insert_count := n |}.

Definition chain_reverse_route_lookup (dst_ip : IpAddr) (now : Z) (r : ReverseRoutes) : option bytes :=
  '(session_id, last_seen) ← routes r !! dst_ip;
  if sat_sub now last_seen <? CHAIN_REVERSE_ROUTE_TTL then Some session_id else None.

(** ** Trimming twice *)

Lemma skip_spaces_stop width n s :
  (width [] = 0%nat) -> (forall s, (width s <= length s)%nat \/ width s = 0%nat) -> (length s <= n)%nat ->
  width (skip_spaces width n s) = 0%nat.
Proof.
  intros H0 Hw. revert s. induction n as [|n IH]; intros s Hn; cbn [skip_spaces].
  - destruct s; [done|cbn in Hn; lia].
  - destruct (width s) as [|k] eqn:E; [done|]. apply IH. rewrite length_drop. lia.
Qed.

Lemma skip_spaces_fix width n s : width s = 0%nat -> skip_spaces width n s = s.
Proof. destruct n; [done|]. cbn. by intros ->. Qed.

Lemma skip_spaces_suffix width n s : exists pre, s = pre ++ skip_spaces width n s.
Proof.
  revert s. induction n as [|n IH]; intros s; cbn [skip_spaces]; [by exists []|]. destruct (width s) as [|k]; [by exists []|].
  destruct (IH (drop (S k) s)) as [pre E]. exists (take (S k) s ++ pre). by rewrite <- app_assoc, <- E, take_drop.
Qed.

(** A space needs its own bytes: a string whose prefix begins with one begins with it. *)
Lemma space_width_app s t : space_width s <> 0%nat -> space_width (s ++ t) <> 0%nat.
Proof.
  unfold space_width. destruct s as [|a [|b [|c s]]]; cbn [nth app].
  - done.
  - destruct (space1 a); [done|]. assert (space2 a 0 = false) as -> by (unfold space2; cbn; by rewrite andb_false_r).
    assert (space3 a 0 0 = false) as ->; [|done]. unfold space3. cbn. by rewrite !andb_false_r.
  - destruct (space1 a); [done|]. destruct (space2 a b); [done|].
    assert (space3 a b 0 = false) as ->; [|done]. unfold space3. cbn. by rewrite !andb_false_r.
  - done.
Qed.

Lemma space_width_le s : (space_width s <= length s)%nat \/ space_width s = 0%nat.
Proof.
  unfold space_width. destruct s as [|a [|b [|c s]]]; cbn [nth length].
  - by right.
  - destruct (space1 a); [left; lia|]. right. assert (space2 a 0 = false) as -> by (unfold space2; cbn; by rewrite andb_false_r).
    assert (space3 a 0 0 = false) as ->; [|done]. unfold space3. cbn. by rewrite !andb_false_r.
  - destruct (space1 a); [left; lia|]. destruct (space2 a b); [left; lia|]. right.
    assert (space3 a b 0 = false) as ->; [|done]. unfold space3. cbn. by rewrite !andb_false_r.
  - left. destruct (space1 a), (space2 a b), (space3 a b c); lia.
Qed.

Lemma space_width_rev_le s : (space_width_rev s <= length s)%nat \/ space_width_rev s = 0%nat.
Proof.
  unfold space_width_rev. destruct s as [|a [|b [|c s]]]; cbn [nth length].
  - by right.
  - destruct (space1 a); [left; lia|]. right. done.
  - destruct (space1 a); [left; lia|]. destruct (space2 b a); [left; lia|]. right. done.
  - left. destruct (space1 a), (space2 b a), (space3 c b a); lia.
Qed.

Lemma trim_idem s : trim (trim s) = trim s.
Proof.
  unfold trim at 1 3. set (u := skip_spaces space_width (length s) s).
  assert (Hu : space_width u = 0%nat) by (by apply skip_spaces_stop; [|apply space_width_le|]).
  set (v := skip_spaces space_width_rev (length u) (rev u)).
  assert (Hv : space_width_rev v = 0%nat) by (apply skip_spaces_stop; [done|apply space_width_rev_le|by rewrite length_rev]).
  change (trim s) with (rev v).
  assert (Hp : space_width (rev v) = 0%nat).
  { destruct (skip_spaces_suffix space_width_rev (length u) (rev u)) as [pre E]. fold v in E.
    assert (Eu : u = rev v ++ rev pre) by (by rewrite <- rev_app_distr, <- E, rev_involutive).
    destruct (decide (space_width (rev v) = 0%nat)) as [|Hn]; [done|]. apply (space_width_app _ (rev pre)) in Hn. by rewrite <- Eu in Hn. }
  rewrite (skip_spaces_fix space_width) by done. rewrite rev_involutive. by rewrite (skip_spaces_fix space_width_rev).
Qed.

(** ** The invariant of the dialer *)

Record dial_ok (d : Dialer) : Prop := {
  ok_runtime : runtime_exit_peers d ⊆ dialed_peers d;
  ok_named : forall p, p ∈ runtime_exit_peers d -> trim p = p /\ p <> [] /\ d_node_id d <> Some p;
  ok_flags : forall p, p ∈ dialed_peers d <-> is_Some (peer_stop_flags d !! p);
  ok_current : forall p g, peer_stop_flags d !! p = Some g -> tasks d !! g = Some p /\ g ∉ stopped d;
  ok_tasks : forall g p, tasks d !! g = Some p -> g < spawn_count d /\ (g ∉ stopped d -> peer_stop_flags d !! p = Some g);
  ok_stopped : forall g, g ∈ stopped d -> g < spawn_count d;
  ok_senders : forall p x, peer_senders d !! p = Some x -> peer_stop_flags d !! p = Some x.1;
}.

Lemma new_dialer_ok node peers sites : dial_ok (new_dialer node peers sites).
Proof. split; cbn; try set_solver. intros p. rewrite lookup_empty. split; [set_solver|by intros []]. Qed.

Lemma spawn_ok peer b d :
  dial_ok d -> (b = true -> trim peer = peer /\ peer <> [] /\ d_node_id d <> Some peer) -> dial_ok (spawn_dial_loop peer b d).1.
Proof.
  intros [H1 H2 H3 H4 H5 H6 H7] Hb. unfold spawn_dial_loop. case_bool_decide as D; [done|]. destruct (started d); [|done]. cbn [negb fst].
  assert (Hnew : tasks d !! spawn_count d = None) by (apply eq_None_not_Some; intros [p Hp]; apply H5 in Hp as [? _]; lia).
  assert (Hns : spawn_count d ∉ stopped d) by (intros ?%H6; lia).
  assert (Hnf : peer_stop_flags d !! peer = None) by (apply eq_None_not_Some; by rewrite <- H3).
  split; cbn.
  - destruct b; set_solver.
  - intros p. destruct b; [|apply H2]. rewrite elem_of_union, elem_of_singleton. naive_solver.
  - intros p. rewrite elem_of_union, elem_of_singleton, lookup_insert_is_Some, H3. destruct (decide (peer = p)); naive_solver.
  - intros p g [[<- <-]|[Hp Hg]]%lookup_insert_Some; [by rewrite lookup_insert_eq|]. apply H4 in Hg as [Hg ?].
    rewrite lookup_insert_ne; [done|]. intros <-. congruence.
  - intros g p [[<- <-]|[Hg Hp]]%lookup_insert_Some; [split; [lia|]; intros _; apply lookup_insert_eq|].
    destruct (H5 _ _ Hp) as [? Hs]. split; [lia|]. intros Hn. specialize (Hs Hn). rewrite lookup_insert_ne; [done|]. intros ->. congruence.
  - intros g Hg%H6. lia.
  - intros p x Hx. apply H7 in Hx. rewrite lookup_insert_ne; [done|]. intros ->. congruence.
Qed.

Lemma add_ok' addr d : dial_ok d -> dial_ok (add_peer addr d).
Proof.
  intros H. unfold add_peer. case_bool_decide as D1; [done|]. case_bool_decide as D2; [done|]. apply spawn_ok; [done|].
  intros _. by rewrite trim_idem.
Qed.

Lemma dial_remove_ok addr d : dial_ok d -> dial_ok (remove_peer addr d).1.
Proof.
  intros [H1 H2 H3 H4 H5 H6 H7]. unfold remove_peer. case_bool_decide; [done|]. case_bool_decide as D; [|done]. cbn [negb fst].
  remember (trim addr) as a eqn:Ea. assert (Ha : a ∈ dialed_peers d) by set_solver. apply H3 in Ha as [g Hg]. rewrite Hg.
  destruct (H4 _ _ Hg) as [Ht Hs]. split; cbn.
  - set_solver.
  - intros p [Hp _]%elem_of_difference. by apply H2.
  - intros p. rewrite elem_of_difference, elem_of_singleton, lookup_delete_is_Some, H3. naive_solver.
  - intros p g' [Hn Hp]%lookup_delete_Some. destruct (H4 _ _ Hp) as [Ht' Hs']. split; [done|].
    rewrite elem_of_union, elem_of_singleton. intros [->|?]; [congruence|done].
  - intros g' p Hp. destruct (H5 _ _ Hp) as [? Hq]. split; [done|]. rewrite elem_of_union, elem_of_singleton. intros Hn.
    rewrite lookup_delete_ne; [apply Hq; tauto|]. intros ->. rewrite Hq in Hg by tauto. injection Hg as ->. tauto.
  - intros g'. rewrite elem_of_union, elem_of_singleton. intros [->|?%H6]; [|done]. by apply H5 in Ht as [? _].
  - intros p x [Hn Hx]%lookup_delete_Some. rewrite lookup_delete_ne by done. by apply H7.
Qed.

Lemma promote_ok g sess d : dial_ok d -> dial_ok (promote g sess d).
Proof.
  intros [H1 H2 H3 H4 H5 H6 H7]. unfold promote. destruct (tasks d !! g) as [peer|] eqn:E; [|done]. case_bool_decide as D; [done|].
  split; cbn; try done. intros p x [[<- <-]|[Hn Hx]]%lookup_insert_Some; [|by apply H7]. cbn. by apply H5 in E as [_ ->].
Qed.

Lemma session_end_ok g sess d : dial_ok d -> dial_ok (session_end g sess d).
Proof.
  intros [H1 H2 H3 H4 H5 H6 H7]. unfold session_end. destruct (tasks d !! g) as [peer|] eqn:E; [|done]. case_bool_decide as D; [|done].
  split; cbn; try done. intros p x [_ Hx]%lookup_delete_Some. by apply H7.
Qed.

(** ** Runs *)

Inductive DialEvent : Type :=
  | AddPeer (addr : bytes)
  | RemovePeer (addr : bytes)
  | Promote (generation sess : Z)
  | SessionEnd (generation sess : Z).

Definition dial_step (d : Dialer) (e : DialEvent) : Dialer :=
  match e with
  | AddPeer addr => add_peer addr d
  | RemovePeer addr => (remove_peer addr d).1
  | Promote g s => promote g s d
  | SessionEnd g s => session_end g s d
  end.

Lemma dial_step_ok d e : dial_ok d -> dial_ok (dial_step d e).
Proof. destruct e; cbn; auto using add_ok', dial_remove_ok, promote_ok, session_end_ok. Qed.

(** The peers of the configuration are dialled, and not as exits of the moment. *)
Definition startup_ok (l : list bytes) (d : Dialer) : Prop := forall p, p ∈ l -> p ∈ dialed_peers d /\ p ∉ runtime_exit_peers d.

Lemma startup_step l d e : dial_ok d -> startup_ok l d -> startup_ok l (dial_step d e).
Proof.
  intros Hok Hl p Hp. specialize (Hl p Hp) as [Hd Hr]. destruct e as [a|a|g s|g s]; cbn.
  - unfold add_peer, spawn_dial_loop. repeat (case_bool_decide; try done). destruct (started d); cbn; [|done]. set_solver.
  - unfold remove_peer. repeat (case_bool_decide; try done). cbn. set_solver.
  - unfold promote. repeat case_match; done.
  - unfold session_end. repeat case_match; done.
Qed.

Lemma dial_start_ok l d :
  dial_ok d -> started d = true -> runtime_exit_peers d = ∅ ->
  let d' := fold_left (fun d p => (spawn_dial_loop p false d).1) l d in
  dial_ok d' /\ started d' = true /\ runtime_exit_peers d' = ∅ /\ dialed_peers d' = list_to_set l ∪ dialed_peers d.
Proof.
  revert d. induction l as [|x l IH]; intros d Hok Hs Hr; cbn; [split_and!; try done; set_solver|].
  assert (Hx : dial_ok (spawn_dial_loop x false d).1 /\ started (spawn_dial_loop x false d).1 = true /\
    runtime_exit_peers (spawn_dial_loop x false d).1 = ∅ /\ dialed_peers (spawn_dial_loop x false d).1 = {[x]} ∪ dialed_peers d).
  { split; [by apply spawn_ok|]. unfold spawn_dial_loop. rewrite Hs. case_bool_decide; cbn; split_and!; try done. set_solver. }
  destruct Hx as (H1 & H2 & H3 & H4). destruct (IH _ H1 H2 H3) as (I1 & I2 & I3 & I4). split_and!; try done. rewrite I4, H4. set_solver.
Qed.

Lemma started_ok node peers sites :
  dial_ok (start (new_dialer node peers sites)) /\
  startup_ok (d_peers (new_dialer node peers sites) ++ sites) (start (new_dialer node peers sites)).
Proof.
  unfold start. set (d := new_dialer node peers sites). assert (Hd : dial_ok (mark_started d)) by (destruct (new_dialer_ok node peers sites); by split).
  destruct (dial_start_ok (d_peers d ++ site_peer_addrs d) (mark_started d) Hd) as (H1 & H2 & H3 & H4); try done.
  split; [done|]. intros p Hp. rewrite H4, H3. split; [|set_solver]. apply elem_of_union_l. by apply elem_of_list_to_set.
Qed.

(** The dialer keeps its peers and its sessions apart. Whatever exits are added and
    removed, and whenever the sessions of old and new tasks come up and end: every peer of
    the configuration stays dialled; a session counts as live only if it belongs to the
    task that dials its peer now, never to one that was stopped; and the end of a session
    of a stopped task takes no live session down. *)
Theorem dialer_sound node peers sites events :
  let d := fold_left dial_step events (start (new_dialer node peers sites)) in
  (forall p, p ∈ peers -> p <> node -> p ∈ dialed_peers d) /\ (forall p, p ∈ sites -> p ∈ dialed_peers d) /\
  (forall p g s, peer_senders d !! p = Some (g, s) ->
     p ∈ dialed_peers d /\ peer_stop_flags d !! p = Some g /\ tasks d !! g = Some p /\ g ∉ stopped d) /\
  (forall g s, g ∈ stopped d -> promote g s d = d /\ session_end g s d = d).
Proof.
  intros d. assert (Hd : dial_ok d /\ startup_ok (d_peers (new_dialer node peers sites) ++ sites) d).
  { subst d. destruct (started_ok node peers sites) as [Ha Hb]. revert Ha Hb. generalize (start (new_dialer node peers sites)).
    induction events as [|e es IH]; intros d Hok Hl; [done|]. cbn. apply IH; [by apply dial_step_ok|by apply startup_step]. }
  destruct Hd as [Hok Hl]. split_and!.
  - intros p Hp Hn. apply Hl, elem_of_app. left. by apply list_elem_of_filter.
  - intros p Hp. apply Hl, elem_of_app. by right.
  - intros p g s Hx. apply (ok_senders _ Hok) in Hx as Hf. cbn in Hf. destruct (ok_current _ Hok _ _ Hf) as [Ht Hs].
    split_and!; try done. apply (ok_flags _ Hok). by rewrite Hf.
  - intros g s Hg. unfold promote, session_end. destruct (tasks d !! g) as [p|] eqn:E; [|done]. rewrite bool_decide_eq_true_2 by done.
    split; [done|]. case_bool_decide as D; [|done]. apply (ok_senders _ Hok) in D. cbn in D. by apply (ok_current _ Hok) in D as [_ ?].
Qed.

(** ** The set of exits *)

(** An address that may be dialled. *)
Definition dialable (d : Dialer) (a : bytes) : Prop := a <> [] /\ d_node_id d <> Some a.

(** What stays the same while exits come and go. *)
Definition same_base (d d' : Dialer) : Prop :=
  started d' = started d /\ d_node_id d' = d_node_id d /\ dialed_peers d' ∖ runtime_exit_peers d' = dialed_peers d ∖ runtime_exit_peers d.

#[local] Instance same_base_trans : Transitive same_base.
Proof. intros d1 d2 d3 (?&?&?) (?&?&?). repeat split; congruence. Qed.

Lemma add_peer_set a d :
  dial_ok d -> started d = true ->
  same_base d (add_peer a d) /\
  forall x, x ∈ dialed_peers (add_peer a d) <-> x ∈ dialed_peers d \/ x = trim a /\ dialable d x.
Proof.
  intros Hok Hs. pose proof (ok_runtime _ Hok) as Hr. unfold add_peer, same_base, dialable.
  case_bool_decide as D1; [split; [done|]; naive_solver|]. case_bool_decide as D2; [split; [done|]; naive_solver|].
  unfold spawn_dial_loop. case_bool_decide as D3; [split; [done|]; naive_solver|]. rewrite Hs. cbn. split.
  - split_and!; try done. apply set_eq. intros x. rewrite !elem_of_difference, !elem_of_union, !elem_of_singleton.
    assert (trim a ∉ runtime_exit_peers d) by set_solver. naive_solver.
  - intros x. rewrite elem_of_union, elem_of_singleton. naive_solver.
Qed.

Lemma add_all l d :
  dial_ok d -> started d = true ->
  let d' := fold_left (fun d addr => add_peer addr d) l d in
  dial_ok d' /\ same_base d d' /\
  forall x, x ∈ dialed_peers d' <-> x ∈ dialed_peers d \/ (exists a, a ∈ l /\ x = trim a) /\ dialable d x.
Proof.
  revert d. induction l as [|a l IH]; intros d Hok Hs; cbn; [split_and!; try done; set_solver|].
  destruct (add_peer_set a d Hok Hs) as [Hb Hx]. pose proof Hb as (Hst & Hn & _).
  destruct (IH (add_peer a d) (add_ok' a d Hok) ltac:(congruence)) as (H1 & H2 & H3). split; [done|]. split; [by etrans|].
  intros x. rewrite H3, Hx. unfold dialable. rewrite Hn.
  assert (E : (exists b, b ∈ a :: l /\ x = trim b) <-> x = trim a \/ exists b, b ∈ l /\ x = trim b) by (setoid_rewrite elem_of_cons; naive_solver).
  rewrite E. tauto.
Qed.

Lemma exits_from_spec already seen cs a :
  a ∈ exits_from already seen cs <-> a ∉ already /\ a ∉ seen /\ a ∈ base.omap trimmed_exit cs.
Proof.
  revert seen. induction cs as [|c cs IH]; intros seen; cbn [exits_from base.omap list_omap]; [set_solver|].
  destruct (trimmed_exit c) as [x|]; [|apply IH]. case_bool_decide; [rewrite IH; set_solver|].
  case_bool_decide; [rewrite IH; set_solver|]. rewrite elem_of_cons, IH, elem_of_cons, elem_of_union, elem_of_singleton.
  destruct (decide (a = x)); naive_solver.
Qed.

Lemma trimmed_exit_spec c a : trimmed_exit c = Some a -> trim a = a /\ a <> [].
Proof.
  unfold trimmed_exit. destruct (exit_node c) as [x|]; [|done]. cbn. case_bool_decide; [done|]. intros [= <-]. by rewrite trim_idem.
Qed.

Lemma global_exit_spec m a : global_exit m = Some a -> trim a = a /\ a <> [].
Proof.
  unfold global_exit. destruct m as [x|]; [|done]. cbn. case_bool_decide; [done|]. intros [= <-]. by rewrite trim_idem.
Qed.

Lemma remove_peer_set a d :
  dial_ok d -> trim a = a -> a <> [] ->
  let d' := (remove_peer a d).1 in
  same_base d d' /\ dialed_peers d' = dialed_peers d ∖ (runtime_exit_peers d ∩ {[a]}) /\
  runtime_exit_peers d' = runtime_exit_peers d ∖ {[a]}.
Proof.
  intros Hok Ht Hn. pose proof (ok_runtime _ Hok) as Hr. unfold remove_peer, same_base. rewrite Ht, bool_decide_eq_false_2 by done.
  case_bool_decide as D; cbn; split_and!; try done; set_solver.
Qed.

Lemma remove_all (needed : gset bytes) l d :
  dial_ok d -> (forall a, a ∈ l -> trim a = a /\ a <> []) ->
  let d' := fold_left (fun d addr => if bool_decide (addr ∈ needed) then d else (remove_peer addr d).1) l d in
  dial_ok d' /\ same_base d d' /\ runtime_exit_peers d' = runtime_exit_peers d ∖ (list_to_set l ∖ needed).
Proof.
  revert d. induction l as [|a l IH]; intros d Hok Hl; cbn; [split_and!; try done; set_solver|].
  destruct (Hl a ltac:(left)) as [Ht Hn]. assert (Hl' : forall x, x ∈ l -> trim x = x /\ x <> []) by (intros x Hx; apply Hl; by right).
  case_bool_decide as D.
  - destruct (IH d Hok Hl') as (H1 & H2 & H3). split_and!; try done. rewrite H3. set_solver.
  - destruct (remove_peer_set a d Hok Ht Hn) as (Hb & _ & Hr). destruct (IH _ (dial_remove_ok a d Hok) Hl') as (H1 & H2 & H3).
    split; [done|]. split; [by etrans|]. rewrite H3, Hr. set_solver.
Qed.

(** A node whose dialer runs and dials its global exit. *)
Definition exits_ok (base : gset bytes) (node : option bytes) (e : Exits) : Prop :=
  exists d, pool_dialer e = Some d /\ dial_ok d /\ started d = true /\ d_node_id d = node /\
    dialed_peers d ∖ runtime_exit_peers d = base /\
    forall g, masked_exit_addr e = Some g -> g ∈ dialed_peers d \/ node = Some g.

Lemma swap_ok base node m e :
  exits_ok base node e ->
  exits_ok base node (apply_global_exit_swap (global_exit m) e) /\
  masked_exit_addr (apply_global_exit_swap (global_exit m) e) = global_exit m.
Proof.
  intros (d & Ed & Hok & Hs & Hn & Hb & Hg). unfold apply_global_exit_swap. rewrite Ed. case_bool_decide as D; [split; [by exists d|done]|].
  split; [|done]. destruct (global_exit m) as [a|] eqn:Em; cbn.
  - destruct (global_exit_spec m a Em) as [Ht Ha]. destruct (add_peer_set a d Hok Hs) as [(H1 & H2 & H3) Hx].
    exists (add_peer a d). split_and!; try done; [by apply add_ok'|congruence..|]. intros g [= <-]. rewrite Hx, Ht.
    destruct (decide (node = Some a)); [by right|]. left. right. split; [done|]. by rewrite <- Hn in *.
  - exists d. split_and!; try done.
Qed.

Lemma update_exact base node m cs order e :
  (forall s : gset bytes, order s ≡ₚ elements s) -> exits_ok base node e ->
  let e' := apply_global_exit_and_teardown m cs order e in
  exits_ok base node e' /\ masked_exit_addr e' = global_exit m /\
  exists d, pool_dialer e' = Some d /\
    forall a, a ∈ dialed_peers d <-> a ∈ base \/ a ∈ needed_exits (global_exit m) cs /\ node <> Some a.
Proof.
  intros Hord He. unfold apply_global_exit_and_teardown. destruct He as (d0 & Ed0 & He). rewrite Ed0.
  destruct (swap_ok base node m e (ex_intro _ d0 (conj Ed0 He))) as [(d & Ed & Hok & Hs & Hn & Hb & Hg) Em].
  set (e1 := apply_global_exit_swap (global_exit m) e) in *. rewrite Ed. cbn [fmap option_fmap option_map default from_option id masked_exit_addr].
  unfold add_dial_peers_for_client_exits_for. set (l := exits_needing_dial cs (dialed_peers d)).
  destruct (add_all l d Hok Hs) as (Hok1 & (Hs1 & Hn1 & Hb1) & Hx1). set (d1 := fold_left _ l d) in *.
  unfold teardown_unused_exit_dials_for. cbn [pool_dialer masked_exit_addr].
  set (needed := needed_exits (masked_exit_addr e1) cs).
  destruct (remove_all needed (order (runtime_exit_peers d1)) d1 Hok1) as (Hok2 & (Hs2 & Hn2 & Hb2) & Hr2).
  { intros a. rewrite Hord, elem_of_elements. intros Ha. by destruct (ok_named _ Hok1 a Ha) as (? & ? & _). }
  set (d2 := fold_left _ (order _) d1) in *.
  assert (Hr2' : runtime_exit_peers d2 = runtime_exit_peers d1 ∩ needed).
  { rewrite Hr2. apply set_eq. intros x. rewrite elem_of_difference, elem_of_difference, elem_of_list_to_set, Hord, elem_of_elements, elem_of_intersection.
    destruct (decide (x ∈ needed)); naive_solver. }
  assert (Hneed : needed = needed_exits (global_exit m) cs) by (unfold needed; by rewrite Em).
  assert (Hall : forall a, a ∈ dialed_peers d2 <-> a ∈ base \/ a ∈ needed /\ node <> Some a).
  { intros a. pose proof (ok_runtime _ Hok2) as Hsub. assert (Hbase : base = dialed_peers d2 ∖ runtime_exit_peers d2) by congruence.
    assert (Hb1' : base = dialed_peers d1 ∖ runtime_exit_peers d1) by congruence. split.
    - intros Ha. destruct (decide (a ∈ runtime_exit_peers d2)) as [Hr|Hr]; [|left; rewrite Hbase; by apply elem_of_difference].
      right. destruct (ok_named _ Hok2 a Hr) as (_ & _ & Hnode). rewrite Hr2' in Hr. split; [by apply elem_of_intersection in Hr as [_ ?]|congruence].
    - intros [Ha|[Ha Hnode]]; [rewrite Hbase in Ha; by apply elem_of_difference in Ha as [? _]|].
      assert (Hd1 : a ∈ dialed_peers d1).
      { rewrite Hx1. destruct (decide (a ∈ dialed_peers d)) as [|Hnd]; [by left|]. right.
        rewrite Hneed in Ha. unfold needed_exits in Ha. rewrite elem_of_list_to_set, elem_of_app in Ha. destruct Ha as [Ha|Ha].
        - exfalso. destruct (global_exit m) as [g|] eqn:Eg; [|by apply elem_of_nil in Ha]. apply list_elem_of_singleton in Ha as ->.
          destruct (Hg g Em); congruence.
        - pose proof Ha as (c & _ & [Ht Hne]%trimmed_exit_spec)%list_elem_of_omap. split; [|split; [done|congruence]].
          exists a. split; [apply exits_from_spec; split_and!; try done; set_solver|done]. }
      destruct (decide (a ∈ runtime_exit_peers d1)) as [Hr|Hr].
      + apply Hsub. rewrite Hr2'. by apply elem_of_intersection.
      + assert (Hba : a ∈ base) by (rewrite Hb1'; by apply elem_of_difference). rewrite Hbase in Hba. by apply elem_of_difference in Hba as [? _]. }
  split_and!; [|exact Em|exists d2; rewrite <- Hneed; by split].
  exists d2. cbn. split_and!; try done; [congruence..|]. intros g Hge. destruct (decide (node = Some g)); [by right|]. left. apply Hall. right.
  split; [|done]. rewrite Hneed, <- Em, Hge. unfold needed_exits. rewrite elem_of_list_to_set, elem_of_app. left. by left.
Qed.


(** An exit that was written with white space around it is dialled without it and looked up
    with it. *)
Theorem padded_exit_unused node peers sites events c global :
  trim c <> c -> c ∉ peers -> c ∉ sites ->
  let d := fold_left dial_step events (start (new_dialer node peers sites)) in
  has_live_session d c = false /\
  choose_exit (Some c) global (has_live_session d) =
    match global with Some g => ExitDecision.Send g true | None => ExitDecision.NoExit end.
Proof.
  intros Ht Hp Hsi d. assert (Hl : has_live_session d c = false).
  { apply bool_decide_eq_false_2. intros [[g s] Hx].
    assert (Hd : dial_ok d /\ forall x, x ∈ dialed_peers d -> trim x = x \/ x ∈ peers \/ x ∈ sites).
    { subst d. clear Hx. destruct (started_ok node peers sites) as [Ha _].
      assert (Hb : forall x, x ∈ dialed_peers (start (new_dialer node peers sites)) -> trim x = x \/ x ∈ peers \/ x ∈ sites).
      { assert (Hm : dial_ok (mark_started (new_dialer node peers sites))) by (destruct (new_dialer_ok node peers sites); by split).
        destruct (dial_start_ok (filter (fun p => p <> node) peers ++ sites) _ Hm) as (_ & _ & _ & H4); try done.
        unfold start. cbn [d_peers site_peer_addrs new_dialer]. rewrite H4. intros x. cbn.
        rewrite elem_of_union, elem_of_list_to_set, elem_of_app, list_elem_of_filter. set_solver. }
      revert Ha Hb. generalize (start (new_dialer node peers sites)).
      induction events as [|e es IH]; intros d Hok Hx; [done|]. cbn. apply IH; [by apply dial_step_ok|].
      intros x. destruct e as [a|a|g' s'|g' s']; cbn.
      - unfold add_peer, spawn_dial_loop. repeat (case_bool_decide; try apply Hx). destruct (started d); cbn; [|apply Hx].
        rewrite elem_of_union, elem_of_singleton. intros [->|?]; [left; apply trim_idem|by apply Hx].
      - unfold remove_peer. repeat (case_bool_decide; try apply Hx). cbn. set_solver.
      - unfold promote. repeat case_match; apply Hx.
      - unfold session_end. repeat case_match; apply Hx. }
    destruct Hd as [Hok Hall]. apply (ok_senders _ Hok) in Hx. assert (Hin : c ∈ dialed_peers d) by (apply (ok_flags _ Hok); by rewrite Hx).
    apply Hall in Hin as [?|[?|?]]; congruence. }
  split; [done|]. unfold choose_exit. by rewrite Hl.
Qed.

(** The database takes such an address. *)
Example padded_exit_valid : validate_exit_node_addr (str_bytes " exit.example.com:51820") = Ok tt.
Proof. vm_compute. reflexivity. Qed.


(** ** The cache of exits *)

(** Workers fill the cache while the database changes: a worker that misses reads the
    database, and writes what it read at some later time. *)
Record CacheState : Type := { c_db : Host; c_cache : gmap Z (option bytes); c_reads : gmap nat (Z * option bytes) }.

Inductive CacheEvent : Type :=
  | Miss (worker : nat) (ip : Z)
  | Fill (worker : nat)
  | Change (h : Host).

Definition current_exit (h : Host) (ip : Z) : option bytes := c ← find_by_vpn_ip ip h; exit_node c.

Definition cache_step (s : CacheState) (e : CacheEvent) : CacheState :=
  match e with
  | Miss w ip =>
      match c_cache s !! ip with
      | Some _ => s
      | None => {| c_db := c_db s; c_cache := c_cache s; c_reads := <[w := (ip, current_exit (c_db s) ip)]> (c_reads s) |}
      end
  | Fill w =>
      match c_reads s !! w with
      | Some (ip, r) => {| c_db := c_db s; c_cache := <[ip := r]> (c_cache s); c_reads := delete w (c_reads s) |}
      | None => s
      end
  | Change h => {| c_db := h; c_cache := ∅; c_reads := c_reads s |}
  end.

(** No change comes between a read and its write. *)
Fixpoint quiet (s : CacheState) (events : list CacheEvent) : Prop :=
  match events with
  | [] => True
  | e :: es => (match e with Change _ => c_reads s = ∅ | _ => True end) /\ quiet (cache_step s e) es
  end.

Definition cache_coherent (s : CacheState) : Prop :=
  (forall ip r, c_cache s !! ip = Some r -> r = current_exit (c_db s) ip) /\
  (forall w ip r, c_reads s !! w = Some (ip, r) -> r = current_exit (c_db s) ip).

Lemma quiet_coherent s events : cache_coherent s -> quiet s events -> cache_coherent (fold_left cache_step events s).
Proof.
  revert s. induction events as [|e es IH]; intros s Hs Hq; [done|]. cbn. destruct Hq as [He Hq]. apply IH; [|done].
  destruct Hs as [H1 H2]. destruct e as [w ip|w|h]; cbn.
  - destruct (c_cache s !! ip); [done|]. split; cbn; [done|]. intros w' ip' r [[_ [= <- <-]]|[_ ?]]%lookup_insert_Some; [done|by eapply H2].
  - destruct (c_reads s !! w) as [[ip r]|] eqn:E; [|done]. split; cbn.
    + intros ip' r' [[<- <-]|[_ ?]]%lookup_insert_Some; [by eapply H2|by apply H1].
    + intros w' ip' r' [_ ?]%lookup_delete_Some. by eapply H2.
  - split; cbn; [intros ip r; by rewrite lookup_empty|]. rewrite He. intros w ip r. by rewrite lookup_empty.
Qed.

(** A change between the read and the write of a worker leaves the old exit in the cache,
    which serves it until the next change. *)
Theorem stale_exit_cached h h' ip :
  let s := fold_left cache_step [Miss 0 ip; Change h'; Fill 0] {| c_db := h; c_cache := ∅; c_reads := ∅ |} in
  c_db s = h' /\ resolve_client_exit_addr ip (Some h') (c_cache s) = (c_cache s, current_exit h ip).
Proof. cbn. rewrite lookup_empty. cbn. rewrite lookup_insert_eq. cbn. split; [done|]. unfold resolve_client_exit_addr. by rewrite lookup_insert_eq. Qed.

(** ** Routes back *)

Record Forward : Type := { f_src : IpAddr; f_session : bytes; f_now : Z; f_live : bytes -> bool }.

Definition forward_step (r : ReverseRoutes) (f : Forward) : ReverseRoutes :=
  chain_reverse_route_insert (f_src f) (f_session f) (f_now f) (f_live f) r.

Lemma insert_lookup src sid now live r ip :
  routes (chain_reverse_route_insert src sid now live r) !! ip = routes r !! ip \/
  routes (chain_reverse_route_insert src sid now live r) !! ip = None /\
    (forall o t, routes r !! ip = Some (o, t) -> CHAIN_REVERSE_ROUTE_TTL <= sat_sub now t) \/
  ip = src /\ routes (chain_reverse_route_insert src sid now live r) !! ip = Some (sid, now) /\
    (forall o t, routes r !! ip = Some (o, t) -> o = sid \/ CHAIN_REVERSE_ROUTE_TTL <= sat_sub now t \/ live o = false).
Proof.
  unfold chain_reverse_route_insert. cbn [routes].
  set (m := match routes r !! src with Some _ => _ | None => _ end).
  assert (Hm : m !! ip = routes r !! ip \/ ip = src /\ m !! ip = Some (sid, now) /\
    (forall o t, routes r !! ip = Some (o, t) -> o = sid \/ CHAIN_REVERSE_ROUTE_TTL <= sat_sub now t \/ live o = false)).
  { subst m. destruct (routes r !! src) as [[o t]|] eqn:E.
    - destruct (_ || _) eqn:Eb; [|by left]. destruct (decide (ip = src)) as [->|]; [|left; by rewrite lookup_insert_ne].
      right. rewrite lookup_insert_eq. split_and!; try done. intros o' t' Ho. rewrite E in Ho. injection Ho as <- <-.
      apply orb_prop in Eb as [[D|D]%orb_prop|D]; [left; by apply bool_decide_eq_true_1 in D|right; left; by apply Z.leb_le|].
      right; right. by apply negb_true_iff in D.
    - destruct (decide (ip = src)) as [->|]; [|left; by rewrite lookup_insert_ne]. right. rewrite lookup_insert_eq. split_and!; try done.
      intros o t Ho. congruence. }
  destruct (_ =? 0); [|by destruct Hm as [|]; [left|right; right]].
  destruct Hm as [Hm|(Hs & Hm & Ho)].
  - destruct (m !! ip) as [[o t]|] eqn:E.
    + destruct (decide (sat_sub now t < CHAIN_REVERSE_ROUTE_TTL)) as [Hl|Hl].
      * left. rewrite <- Hm. by apply map_lookup_filter_Some.
      * right. left. split; [apply map_lookup_filter_None; right; intros y; rewrite E; by intros [= <-]|].
        intros o' t' H'. rewrite <- Hm in H'. injection H' as <- <-. lia.
    + left. rewrite <- Hm. apply map_lookup_filter_None. by left.
  - right. right. split_and!; try done. apply map_lookup_filter_Some. split; [done|]. cbn. unfold sat_sub, CHAIN_REVERSE_ROUTE_TTL. lia.
Qed.

(** The clock does not run backwards. *)
Fixpoint in_time (t : Z) (fs : list Forward) (now : Z) : Prop :=
  match fs with [] => t <= now | f :: fs => t <= f_now f /\ in_time (f_now f) fs now end.

Lemma in_time_le t fs now : in_time t fs now -> t <= now.
Proof. revert t. induction fs as [|f fs IH]; intros t; cbn; [done|]. intros [? ?%IH]. lia. Qed.

Lemma in_time_weaken t t' fs now : t <= t' -> in_time t' fs now -> in_time t fs now.
Proof. destruct fs; cbn; intros; lia || (intuition lia). Qed.

Lemma route_kept fs r ip sid t now :
  routes r !! ip = Some (sid, t) -> in_time t fs now -> now - t < CHAIN_REVERSE_ROUTE_TTL ->
  Forall (fun f => f_src f = ip -> f_session f <> sid -> f_live f sid = true) fs ->
  exists t', routes (fold_left forward_step fs r) !! ip = Some (sid, t') /\ t <= t' <= now.
Proof.
  revert r t. induction fs as [|f fs IH]; intros r t Hr Ht Hn Hf; cbn [fold_left].
  - exists t. cbn in Ht. split; [done|lia].
  - destruct Ht as [Hf1 Ht]. apply Forall_cons in Hf as [Hl Hf]. pose proof (in_time_le _ _ _ Ht) as Hle. unfold forward_step at 2.
    destruct (insert_lookup (f_src f) (f_session f) (f_now f) (f_live f) r ip) as [E|[[E Ho]|(Hs & E & Ho)]].
    + rewrite Hr in E. destruct (IH _ t E (in_time_weaken _ _ _ _ Hf1 Ht) Hn Hf) as (t' & ? & ?). by exists t'.
    + specialize (Ho _ _ Hr). unfold sat_sub in Ho. lia.
    + destruct (decide (f_session f = sid)) as [Es|Es].
      * destruct (IH _ (f_now f) (eq_trans E (f_equal (fun x => Some (x, f_now f)) Es)) Ht ltac:(lia) Hf) as (t' & ? & ?). exists t'. split; [done|lia].
      * exfalso. destruct (Ho _ _ Hr) as [?|[?|Hd]]; [congruence|unfold sat_sub in *; lia|]. rewrite Hl in Hd; congruence.
Qed.

Lemma route_origin fs r ip sid t :
  routes (fold_left forward_step fs r) !! ip = Some (sid, t) ->
  routes r !! ip = Some (sid, t) \/ exists f, f ∈ fs /\ f_src f = ip /\ f_session f = sid /\ f_now f = t.
Proof.
  revert r. induction fs as [|f fs IH]; intros r; cbn [fold_left]; [by left|].
  intros [H|(g & Hg & H)]%IH; [|right; exists g; split; [by right|done]]. unfold forward_step in H.
  destruct (insert_lookup (f_src f) (f_session f) (f_now f) (f_live f) r ip) as [E|[[E _]|(Hs & E & _)]].
  - left. congruence.
  - congruence.
  - right. exists f. rewrite E in H. injection H as <- <-. split; [left|done].
Qed.

(** A route back belongs to the server that forwards for the client. A reply is sent to
    a session only if that session forwarded a packet from the address within the last ten
    minutes. Once a session forwards for an address, no packet of any other session takes
    the route over while the session lives and forwards again within ten minutes. *)
Theorem reverse_route_owned ip :
  (forall fs now sid, chain_reverse_route_lookup ip now (fold_left forward_step fs {| routes := ∅; insert_count := 0 |}) = Some sid ->
     exists f, f ∈ fs /\ f_src f = ip /\ f_session f = sid /\ now - f_now f < CHAIN_REVERSE_ROUTE_TTL) /\
  (forall r fs now sid t, chain_reverse_route_lookup ip t r = Some sid -> 
     (forall u, routes r !! ip = Some (sid, u) -> in_time u fs now /\ now - u < CHAIN_REVERSE_ROUTE_TTL) ->
     Forall (fun f => f_src f = ip -> f_session f <> sid -> f_live f sid = true) fs ->
     chain_reverse_route_lookup ip now (fold_left forward_step fs r) = Some sid).
Proof.
  split.
  - intros fs now sid. unfold chain_reverse_route_lookup. destruct (routes _ !! ip) as [[s u]|] eqn:E; [|done]. cbn.
    destruct (Z.ltb_spec (sat_sub now u) CHAIN_REVERSE_ROUTE_TTL) as [Hl|]; [|done]. intros [= ->].
    apply route_origin in E as [E|(f & Hf & Hs & Hi & <-)]; [cbn in E; by rewrite lookup_empty in E|].
    exists f. split_and!; try done. unfold sat_sub in Hl. lia.
  - intros r fs now sid t Hl Ht Hf. unfold chain_reverse_route_lookup in Hl |- *.
    destruct (routes r !! ip) as [[s u]|] eqn:E; [|done]. cbn in Hl. destruct (_ <? _) in Hl; [|done]. injection Hl as ->.
    destruct (Ht u eq_refl) as [Hi Hn]. destruct (route_kept fs r ip sid u now E Hi Hn Hf) as (v & -> & Hv). cbn.
    rewrite (proj2 (Z.ltb_lt _ _)); [done|]. unfold sat_sub, CHAIN_REVERSE_ROUTE_TTL in *. lia.
Qed.

(** ** A sample *)

Section Sample.

Lemma padded_exit_unused_witness :
  let c := str_bytes " exit.example.com:51820" in
  let d := fold_left dial_step [AddPeer c; Promote 0 0] (start (new_dialer [9] [] [])) in
  has_live_session d (trim c) = true /\ choose_exit (Some c) None (has_live_session d) = ExitDecision.NoExit.
Proof.
  split; [vm_compute; reflexivity|].
  apply (padded_exit_unused [9] [] [] [AddPeer (str_bytes " exit.example.com:51820"); Promote 0 0] (str_bytes " exit.example.com:51820") None).
  - by vm_compute.
  - apply not_elem_of_nil.
  - apply not_elem_of_nil.
Defined.

End Sample.
