(* ===== verification/Icmp.v ===== *)
(** * Answers to ping

    [build_icmp_echo_reply] and [compute_checksum] of [gateway/data_plane.rs]: the gateway
    answers an echo request to its own address inside the tunnel. The theorem: no request
    makes it panic, and what it answers is a whole IP packet from the gateway to the sender,
    with two right checksums and the payload of the request. *)

From S2P Require Import Prelude IpAddr IpPacket.
Local Open Scope Z_scope.

(** ** The Internet checksum *)

Fixpoint word_sum (data : bytes) : Z :=
  match data with
  | a :: b :: data => a * 256 + b + word_sum data
  | [a] => Z.shiftl a 8
  | [] => 0
  end.

(** The loop that folds the carries; the sum is a u32, so that two rounds are enough. *)
Fixpoint fold_carries (fuel : nat) (sum : Z) : Z :=
  match fuel with
  | O => sum
  | S fuel => if Z.shiftr sum 16 =? 0 then sum else fold_carries fuel (Z.land sum 65535 + Z.shiftr sum 16)
  end.

Definition compute_checksum (data : bytes) : outcome Z :=
  let sum := word_sum data in
  if u32_max <? sum then Panic else Ok (wrap16 (u32_max - fold_carries 3 sum)).

(** ** The reply *)

Definition build_icmp_echo_reply (request : bytes) (server_ip : Ipv4Addr) : outcome (option bytes) :=
  let! o := parse request in
  match o with
  | None => Ok None
  | Some parsed =>
      let! b0 := idx request 0 in
      if negb (Z.shiftr b0 4 =? 4) then Ok None
      else
      let! protocol := idx request 9 in
      if negb (protocol =? 1) then Ok None
      else
      let header_len := Z.land b0 15 * 4 in
      let! fragment := be_at 2 request 6 in
      if negb (Z.land fragment 16383 =? 0) || (ip_length parsed <? header_len + 8) then Ok None
      else
      let! icmp := slice request header_len (ip_length parsed) in
      let! kind := idx icmp 0 in
      if negb (kind =? 8) then Ok None
      else
      let! code := idx icmp 1 in
      if negb (code =? 0) then Ok None
      else
      let! sum := compute_checksum icmp in
      if negb (sum =? 0) then Ok None
      else
      let! tos := idx request 1 in
      let! ident := slice request 4 6 in
      let! sender := slice request 12 16 in
      let! rest := slice_from icmp 4 in
      let! icmp_sum := compute_checksum ([0; code; 0; 0] ++ rest) in
      let front := [69; tos] ++ be_bytes 2 (wrap16 (20 + len icmp)) ++ ident ++ be_bytes 2 (Z.land fragment 16384) ++ [64; 1] in
      let back := ipv4_octets server_ip ++ sender in
      let! ip_sum := compute_checksum (front ++ [0; 0] ++ back) in
      Ok (Some (front ++ be_bytes 2 ip_sum ++ back ++ [0; code] ++ be_bytes 2 icmp_sum ++ rest))
  end.

(** ** Sums modulo 65535 *)

Lemma two_step (P : bytes -> Prop) : P [] -> (forall a, P [a]) -> (forall a b l, P l -> P (a :: b :: l)) -> forall l, P l.
Proof.
  intros H0 H1 H2. assert (H : forall l, P l /\ forall a, P (a :: l)); [|by intros l; apply H].
  induction l as [|b l [IH1 IH2]]; [done|]. split; [done|]. intros a. by apply H2.
Qed.

Lemma word_sum_bound l : bytes_ok l -> 0 <= word_sum l <= 65535 * ((len l + 1) / 2).
Proof.
  induction l as [|a|a b l IH] using two_step; [done| |].
  - intros [Ha _]%Forall_cons. unfold byte_ok in Ha. cbn [word_sum length]. rewrite Z.shiftl_mul_pow2 by lia.
    change (2 ^ 8) with 256. change ((Z.of_nat 1 + 1) / 2) with 1. lia.
  - intros [Ha [Hb Hl]%Forall_cons]%Forall_cons. unfold byte_ok in *. specialize (IH Hl). cbn [word_sum length].
    replace (Z.of_nat (S (S (length l))) + 1) with (len l + 1 + 1 * 2) by lia. rewrite Z.div_add by lia. lia.
Qed.

Lemma word_sum_app l r : Nat.Even (length l) -> word_sum (l ++ r) = word_sum l + word_sum r.
Proof.
  induction l as [|a|a b l IH] using two_step; intros He; [done| |].
  - destruct He as [k Hk]. cbn in Hk. lia.
  - cbn [app word_sum]. rewrite IH; [lia|]. destruct He as [k Hk]. cbn in Hk. exists (k - 1)%nat. lia.
Qed.

Lemma be2 x : 0 <= x < 65536 -> be_bytes 2 x = [x / 256; x mod 256].
Proof. intros Hx. unfold be_bytes. cbn. f_equal. rewrite Z.mod_small; [done|]. split; [apply Z.div_pos|apply Z.div_lt_upper_bound]; lia. Qed.

Lemma word_sum_be2 x l : 0 <= x < 65536 -> word_sum (be_bytes 2 x ++ l) = x + word_sum l.
Proof. intros Hx. rewrite be2 by done. cbn [app word_sum]. pose proof (Z.div_mod x 256). lia. Qed.

Lemma fold_once s : 0 <= s -> Z.land s 65535 + Z.shiftr s 16 = s - 65535 * (s / 65536).
Proof.
  intros Hs. change 65535 with (Z.ones 16) at 1. rewrite Z.land_ones, Z.shiftr_div_pow2 by lia. change (2 ^ 16) with 65536.
  pose proof (Z.div_mod s 65536). lia.
Qed.

(** The fold is the representative of the sum between 1 and 65535, and 0 only for 0. *)
Lemma fold_spec s : 0 <= s <= u32_max -> exists q, fold_carries 3 s = s - 65535 * q /\ 0 <= fold_carries 3 s <= 65535 /\ (0 < s -> 0 < fold_carries 3 s).
Proof.
  intros Hs. unfold u32_max in Hs.
  assert (Hstep : forall n x, 0 <= x -> fold_carries (S n) x = if x <? 65536 then x else fold_carries n (x - 65535 * (x / 65536))).
  { intros n x Hx. cbn [fold_carries]. rewrite fold_once by done. rewrite Z.shiftr_div_pow2 by lia. change (2 ^ 16) with 65536.
    destruct (Z.ltb_spec x 65536) as [Hl|Hl]; [by rewrite Z.div_small by lia|].
    assert (1 <= x / 65536) by (apply Z.div_le_lower_bound; lia). by rewrite (proj2 (Z.eqb_neq (x / 65536) 0)) by lia. }
  rewrite Hstep by lia. destruct (Z.ltb_spec s 65536); [exists 0; lia|].
  assert (H1 : 1 <= s / 65536 < 65536) by (split; [apply Z.div_le_lower_bound|apply Z.div_lt_upper_bound]; lia).
  pose proof (Z.div_mod s 65536 ltac:(lia)) as Hd. pose proof (Z.mod_pos_bound s 65536 ltac:(lia)) as Hm.
  set (s1 := s - 65535 * (s / 65536)). assert (Hs1 : 1 <= s1 <= 131070) by (unfold s1; lia).
  rewrite Hstep by lia. destruct (Z.ltb_spec s1 65536); [exists (s / 65536); unfold s1 in *; lia|].
  assert (H2 : s1 / 65536 = 1) by (symmetry; apply Z.div_unique with (s1 - 65536); lia).
  rewrite H2, Hstep by lia. rewrite (proj2 (Z.ltb_lt _ _)) by lia. exists (s / 65536 + 1). unfold s1 in *. lia.
Qed.

Lemma checksum_spec l :
  bytes_ok l -> len l <= 65535 -> exists c, compute_checksum l = Ok c /\ 0 <= c <= 65535 /\
    (c = 0 <-> 0 < word_sum l /\ (65535 | word_sum l)) /\ (65535 | word_sum l + c) /\ (0 < word_sum l + c).
Proof.
  intros Hb Hl. pose proof (word_sum_bound l Hb) as Hw.
  assert (Hd : (len l + 1) / 2 <= 32768) by (apply Z.div_le_upper_bound; lia).
  assert (Hs : 0 <= word_sum l <= u32_max) by (unfold u32_max; lia).
  unfold compute_checksum. rewrite (proj2 (Z.ltb_ge u32_max (word_sum l))) by lia.
  destruct (fold_spec (word_sum l) Hs) as (q & Hq & Hr & Hpos).
  assert (Hc : wrap16 (u32_max - fold_carries 3 (word_sum l)) = 65535 - fold_carries 3 (word_sum l)).
  { unfold wrap16, u32_max. replace (4294967295 - fold_carries 3 (word_sum l)) with (65535 - fold_carries 3 (word_sum l) + 65535 * 65536) by lia.
    rewrite Z.mod_add by lia. apply Z.mod_small. lia. }
  exists (65535 - fold_carries 3 (word_sum l)). rewrite Hc. split; [done|]. split; [lia|]. split; [|split].
  - split.
    + intros H0. assert (He : fold_carries 3 (word_sum l) = 65535) by lia. split; [|exists (q + 1); lia].
      destruct (decide (word_sum l = 0)) as [E|]; [|lia]. rewrite E in He. done.
    + intros [Hp [k Hk]]. specialize (Hpos Hp). lia.
  - exists (q + 1). lia.
  - destruct (decide (word_sum l = 0)) as [E|]; [|lia]. by rewrite E.
Qed.

(** A block with its checksum in place sums to nothing. *)
Lemma checksum_zero front back c :
  bytes_ok front -> bytes_ok back -> Nat.Even (length front) -> len front + 2 + len back <= 65535 ->
  compute_checksum (front ++ [0; 0] ++ back) = Ok c -> compute_checksum (front ++ be_bytes 2 c ++ back) = Ok 0.
Proof.
  intros Hf Hb He Hl Hc.
  assert (Hok : bytes_ok (front ++ [0; 0] ++ back)) by (apply Forall_app; split; [done|]; repeat (constructor; [unfold byte_ok; lia|]); done).
  destruct (checksum_spec _ Hok) as (c' & Ec & Hr & _ & Hdiv & Hpos); [rewrite !length_app; cbn; lia|].
  rewrite Hc in Ec. injection Ec as <-. rewrite word_sum_app in Hdiv, Hpos by done. cbn [app word_sum] in Hdiv, Hpos.
  assert (Hb2 : bytes_ok (be_bytes 2 c)) by apply bytes_ok_be_bytes.
  destruct (checksum_spec (front ++ be_bytes 2 c ++ back)) as (z & Ez & _ & Hz & _).
  { by rewrite !Forall_app. }
  { rewrite !length_app, length_be_bytes. lia. }
  rewrite Ez. f_equal. apply Hz. rewrite word_sum_app, word_sum_be2 by (done || lia). split; [lia|].
  replace (word_sum front + (c + word_sum back)) with (word_sum front + (0 * 256 + 0 + word_sum back) + c) by lia. done.
Qed.

(** ** The answer *)

Lemma slice_at a b c i j : i = len a -> j = len a + len b -> slice (a ++ b ++ c) i j = Ok b.
Proof. intros -> ->. rewrite slice_app_r by lia. replace (len a - len a) with 0 by lia. apply slice_app_l. lia. Qed.

(** The fields of an accepted IPv4 packet. *)
Lemma parse_v4_fields l p b0 :
  bytes_ok l -> parse l = Ok (Some p) -> idx l 0 = Ok b0 -> Z.shiftr b0 4 = 4 ->
  exists src, slice l 12 16 = Ok src /\ ip_source p = V4 (from_be src) /\
    20 <= Z.land b0 15 * 4 <= ip_length p /\ ip_length p <= 65535 /\ ip_length p <= len l.
Proof.
  intros Hb Hp H0 Hv. pose proof (ip_parse_exact l Hb) as Hs. rewrite Hp in Hs. destruct Hs as [(Hlen & _) _].
  destruct l as [|x l']; [done|]. rewrite idx_cons_0 in H0. injection H0 as ->. remember (b0 :: l') as l eqn:El.
  assert (Hp4 : parse_v4 l = Ok (Some p)).
  { rewrite El in Hp. cbn [parse] in Hp. rewrite <- El, Hv in Hp. change (4 =? 4) with true in Hp. cbn [andb] in Hp.
    rewrite (proj2 (Z.leb_le 20 (len l))) in Hp by lia. apply obind_Ok in Hp as ([q|] & Hq & Hc); [|done].
    destruct (_ <? _); [done|]. apply obind_Ok in Hc as (t & _ & Hc). destruct (existsb _ _); [done|]. congruence. }
  unfold parse_v4 in Hp4. rewrite El in Hp4 at 1. rewrite idx_cons_0 in Hp4. cbn [obind] in Hp4.
  apply obind_Ok in Hp4 as (n & Hn & Hp4). destruct (_ || _) eqn:Eb; [done|]. apply obind_Ok in Hp4 as (src & Hsrc & Hp4).
  apply obind_Ok in Hp4 as (dst & _ & [= <-]). exists src. apply orb_false_iff in Eb as [E1 E2]. norm_bool E1. norm_bool E2. cbn.
  unfold be_at, omap in Hn. apply obind_Ok in Hn as (w & Hw & [= <-]). pose proof (slice_bytes_ok _ _ _ _ Hb Hw) as Hwb.
  apply slice_length in Hw. pose proof (from_be_bound w Hwb) as Hbd. rewrite Hw in Hbd. cbn in Hlen. split_and!; try done; lia.
Qed.

Lemma reply_parse tos ident f c src dst tail :
  len ident = 2 -> len f = 2 -> len c = 2 -> len src = 4 -> len dst = 4 -> 20 + len tail <= 65535 ->
  parse (([69; tos] ++ be_bytes 2 (20 + len tail) ++ ident ++ f ++ [64; 1]) ++ c ++ (src ++ dst) ++ tail) =
    Ok (Some {| ip_source := V4 (from_be src); ip_destination := V4 (from_be dst); ip_length := 20 + len tail |}).
Proof.
  intros H1 H2 H3 H4 H5 Hl. set (n := 20 + len tail) in *.
  set (l := ([69; tos] ++ _) ++ _).
  assert (Hlen : len l = n) by (unfold l, n; rewrite !length_app, length_be_bytes; cbn [length]; lia).
  assert (Hp : parse_v4 l = Ok (Some {| ip_source := V4 (from_be src); ip_destination := V4 (from_be dst); ip_length := n |})).
  { unfold parse_v4. assert (idx l 0 = Ok 69) as -> by reflexivity. cbn [obind].
    assert (be_at 2 l 2 = Ok n) as ->.
    { unfold l, be_at, omap. rewrite <- !app_assoc, (slice_at [69; tos] (be_bytes 2 n)) by (cbn; rewrite ?length_be_bytes; lia). cbn [obind].
      rewrite from_be_be_bytes. f_equal. apply Z.mod_small. change (256 ^ Z.of_nat 2) with 65536. unfold n in *. lia. }
    cbn [obind]. change (Z.land 69 15 * 4) with 20. rewrite (proj2 (Z.ltb_ge n 20)) by (unfold n; lia). cbn [orb Z.ltb Z.compare].
    replace l with ((([69; tos] ++ be_bytes 2 n ++ ident ++ f ++ [64; 1]) ++ c) ++ src ++ dst ++ tail) by (unfold l; by rewrite <- !app_assoc).
    rewrite (slice_at _ src) by (rewrite ?length_app, ?length_be_bytes; cbn [length]; lia). cbn [obind].
    rewrite (app_assoc _ src), (slice_at _ dst) by (rewrite ?length_app, ?length_be_bytes; cbn [length]; lia). done. }
  assert (Hl0 : parse l = let! packet := (if (4 =? 4) && (20 <=? len l) then parse_v4 l else if (4 =? 6) && (40 <=? len l) then parse_v6 l else Ok None) in
    match packet with None => Ok None | Some p => if len l <? ip_length p then Ok None else
      let! tail := slice_from l (ip_length p) in if existsb (fun b => negb (b =? 0)) tail then Ok None else Ok (Some p) end) by reflexivity.
  rewrite Hl0, (proj2 (Z.leb_le 20 (len l))), Hp by (rewrite Hlen; unfold n; lia). cbn [andb Z.eqb Pos.eqb obind ip_length].
  rewrite Hlen, (proj2 (Z.ltb_ge n n)) by lia. unfold slice_from. rewrite Hlen.
  replace (slice l n n) with (Ok ([] : bytes)); [done|]. symmetry. apply slice_Ok. split; [unfold n; lia|]. split; [lia|]. by replace (n - n) with 0 by lia.
Qed.

(** What the answer to a request must be. *)
Definition answers (request : bytes) (server_ip : Ipv4Addr) (reply : bytes) : Prop :=
  exists p header code sum, parse request = Ok (Some p) /\
    parse reply = Ok (Some {| ip_source := V4 server_ip; ip_destination := ip_source p; ip_length := len reply |}) /\
    compute_checksum (take 20 reply) = Ok 0 /\ compute_checksum (drop 20 reply) = Ok 0 /\
    20 <= header /\ slice request header (header + 4) = Ok ([8; code] ++ sum) /\
    slice request (header + 4) (ip_length p) = Ok (drop 24 reply) /\ slice reply 20 22 = Ok [0; code].

Lemma checksum_total l (Q : Z -> Prop) :
  bytes_ok l -> len l <= 65535 -> (forall c, compute_checksum l = Ok c -> 0 <= c <= 65535 -> Q c) -> safe (compute_checksum l) Q.
Proof. intros Hb Hl HQ. destruct (checksum_spec l Hb Hl) as (c & E & Hc & _). rewrite E. cbn. by apply HQ. Qed.

(** The reply that is put together. *)
Lemma reply_answers request server_ip p header tos ident sender f icmp x y rest c d :
  u32_ok server_ip -> bytes_ok (tos :: ident ++ sender ++ rest) -> parse request = Ok (Some p) -> ip_source p = V4 (from_be sender) ->
  20 <= header -> slice request header (ip_length p) = Ok icmp -> icmp = [8; 0; x; y] ++ rest ->
  len icmp + 20 <= 65535 -> len ident = 2 -> len sender = 4 -> 0 <= f < 65536 ->
  let front := [69; tos] ++ be_bytes 2 (20 + len icmp) ++ ident ++ be_bytes 2 f ++ [64; 1] in
  let back := ipv4_octets server_ip ++ sender in
  compute_checksum ([0; 0; 0; 0] ++ rest) = Ok c -> compute_checksum (front ++ [0; 0] ++ back) = Ok d ->
  answers request server_ip (front ++ be_bytes 2 d ++ back ++ [0; 0] ++ be_bytes 2 c ++ rest).
Proof.
  intros Hip Hb Hp Hsrc Hh Hi Ei Hn H2 H4 Hf front back Hc Hd.
  assert (Hl : len icmp = 4 + len rest) by (rewrite Ei, length_app; cbn; lia).
  apply Forall_cons in Hb as [Htos Hb]. apply Forall_app in Hb as [Hbi Hb]. apply Forall_app in Hb as [Hbs Hbr].
  set (tail := [0; 0] ++ be_bytes 2 c ++ rest). assert (Ht : len tail = len icmp) by (unfold tail; rewrite !length_app, length_be_bytes; cbn; lia).
  assert (Hlo : len (ipv4_octets server_ip) = 4) by (unfold ipv4_octets; by rewrite length_be_bytes).
  assert (Hhead : length (front ++ be_bytes 2 d ++ back) = 20%nat)
    by (unfold front, back, ipv4_octets; rewrite !length_app, !length_be_bytes; cbn [length]; lia).
  assert (Hbytes : bytes_ok front /\ bytes_ok back).
  { unfold front, back, ipv4_octets. rewrite !Forall_app. split_and!; try apply bytes_ok_be_bytes; try done; by repeat (constructor; [done|]). }
  replace (front ++ be_bytes 2 d ++ back ++ tail) with ((front ++ be_bytes 2 d ++ back) ++ tail) by (by rewrite <- !app_assoc).
  exists p, header, 0, [x; y]. pose proof (slice_length _ _ _ _ Hi) as Hil. apply slice_Ok in Hi as (Hi1 & Hi2 & Hi3). split; [done|]. split_and!.
  - assert (El : len ((front ++ be_bytes 2 d ++ back) ++ tail) = 20 + len tail) by (rewrite length_app, Hhead; lia).
    assert (Er : (front ++ be_bytes 2 d ++ back) ++ tail = front ++ be_bytes 2 d ++ back ++ tail) by (by rewrite <- !app_assoc).
    rewrite El, Er. unfold front, back. rewrite <- Ht, reply_parse by (rewrite ?length_be_bytes; done || lia). rewrite Hsrc. do 3 f_equal.
    unfold ipv4_octets. f_equal. rewrite from_be_be_bytes. apply Z.mod_small. unfold u32_ok in Hip. exact Hip.
  - rewrite take_app_length' by done. apply checksum_zero; try apply Hbytes; try done.
    + unfold front. rewrite !length_app, !length_be_bytes. exists 5%nat. cbn [length]. lia.
    + unfold front, back, ipv4_octets. rewrite !length_app, !length_be_bytes. cbn [length]. lia.
  - rewrite drop_app_length' by done. unfold tail. apply (checksum_zero [0; 0] rest c); try done; [by repeat (constructor; [done|])|by exists 1%nat|].
    cbn [length]. lia.
  - done.
  - apply slice_Ok. split; [lia|]. split; [lia|]. replace (header + 4 - header) with 4 by lia.
    assert (E4 : take 4 icmp = [8; 0; x; y]) by (by rewrite Ei). cbn [app]. rewrite <- E4, Hi3, take_take. by rewrite Nat.min_l by lia.
  - apply slice_Ok. split; [lia|]. split; [lia|]. unfold tail.
    replace (drop 24 _) with rest by (rewrite (app_assoc [0; 0]), app_assoc; symmetry; apply drop_app_length';
      rewrite length_app, Hhead, length_app, length_be_bytes; done).
    assert (Er : rest = drop 4 icmp) by (by rewrite Ei).
    rewrite Er, Hi3, skipn_firstn_comm, drop_drop. f_equal; [lia|f_equal; lia].
  - rewrite slice_app_r by lia. rewrite Hhead. apply slice_app_l. done.
Qed.

(** The answer to a ping is right. No bytes make the gateway panic; and what it answers
    to an echo request is a whole IP packet from its address to the sender of the request,
    with right checksums of the header and of the message, of the type of a reply, and with
    the identifier, the sequence number and the payload of the request. *)
Theorem echo_reply_valid request server_ip :
  bytes_ok request -> u32_ok server_ip ->
  safe (build_icmp_echo_reply request server_ip) (fun o => match o with Some reply => answers request server_ip reply | None => True end).
Proof.
  intros Hb Hip. unfold build_icmp_echo_reply. pose proof (ip_parse_exact request Hb) as Hs.
  destruct (parse request) as [[p|]|e|] eqn:Hp; cbn [obind]; try done. destruct Hs as [(Hlen & _) _].
  apply safe_bind, safe_idx; [lia|]. intros b0 H0 _. destruct (Z.eqb_spec (Z.shiftr b0 4) 4) as [Hv|]; [|done]. cbn [negb].
  destruct (parse_v4_fields request p b0 Hb Hp H0 Hv) as (src & Hsrc & Es & Hhdr & Hmax & Hle). set (header := Z.land b0 15 * 4) in *.
  apply safe_bind, safe_idx; [lia|]. intros proto _ _. destruct (proto =? 1); [|done]. cbn [negb].
  apply safe_bind, safe_be_at; [lia|cbn; lia|]. intros fragment _ Hfr. specialize (Hfr Hb). destruct (_ || _) eqn:Eg; [done|].
  apply orb_false_iff in Eg as [_ Eg]. norm_bool Eg.
  apply safe_bind, safe_slice; [lia|lia|]. intros icmp Hi Hil Hib. specialize (Hib Hb).
  destruct icmp as [|k [|code [|x [|y rest]]]]; [cbn in Hil; lia..|]. remember (k :: code :: x :: y :: rest) as icmp eqn:Ei.
  apply safe_bind, safe_idx; [lia|]. intros k' Hk _. rewrite Ei, idx_cons_0 in Hk. injection Hk as <-.
  destruct (Z.eqb_spec k 8) as [->|]; [|done]. cbn [negb].
  apply safe_bind, safe_idx; [lia|]. intros code' Hc _. rewrite Ei, idx_cons_S in Hc by lia. injection Hc as <-.
  destruct (Z.eqb_spec code 0) as [->|]; [|done]. cbn [negb].
  apply safe_bind, checksum_total; [done|lia|]. intros sum _ _. destruct (sum =? 0); [|done]. cbn [negb].
  apply safe_bind, safe_idx; [lia|]. intros tos _ Htos. specialize (Htos Hb).
  apply safe_bind, safe_slice; [lia|lia|]. intros ident _ Hidl Hidb. specialize (Hidb Hb).
  rewrite Hsrc. cbn [obind]. pose proof (slice_length _ _ _ _ Hsrc) as Hsl. pose proof (slice_bytes_ok _ _ _ _ Hb Hsrc) as Hsb.
  assert (Hrest : slice_from icmp 4 = Ok rest).
  { rewrite Ei. unfold slice_from. change (8 :: 0 :: x :: y :: rest) with ([8; 0; x; y] ++ rest).
    rewrite slice_app_r by (cbn; lia). apply slice_all. rewrite length_app. cbn. lia. }
  rewrite Hrest. cbn [obind].
  assert (Hrb : bytes_ok rest) by (rewrite Ei in Hib; by repeat (apply Forall_cons in Hib as [_ Hib])).
  assert (Hrl : len icmp = 4 + len rest) by (rewrite Ei; cbn; lia).
  apply safe_bind, checksum_total; [repeat (constructor; [done|]); done|rewrite length_app; cbn; lia|]. intros c Hc _.
  assert (Hfl : 0 <= Z.land fragment 16384 < 65536).
  { change (256 ^ Z.of_nat 2) with 65536 in Hfr. pose proof (land_bound fragment 16384 ltac:(lia)). lia. }
  replace (wrap16 (20 + len icmp)) with (20 + len icmp) by (unfold wrap16; symmetry; apply Z.mod_small; lia).
  apply safe_bind, checksum_total.
  - unfold ipv4_octets. rewrite !Forall_app. split_and!; try apply bytes_ok_be_bytes; try done; by repeat (constructor; [done|]).
  - unfold ipv4_octets. rewrite !length_app, !length_be_bytes. cbn [length]. lia.
  - intros d Hd _. cbn [safe].
    apply (reply_answers request server_ip p header tos ident src (Z.land fragment 16384) icmp x y rest c d); try done; try lia.
    constructor; [done|]. by rewrite !Forall_app.
Qed.

(** ** A sample *)

(** Ten bytes of echo request from 10.0.0.2 to 10.0.0.1. *)
Definition ping : bytes :=
  [69; 0; 0; 30; 0; 7; 64; 0; 64; 1; 0; 0; 10; 0; 0; 2; 10; 0; 0; 1] ++ [8; 0; 222; 194; 18; 52; 0; 1; 7; 8].

Lemma echo_reply_valid_witness :
  exists reply, build_icmp_echo_reply ping (ipv4_new 10 0 0 1) = Ok (Some reply) /\ answers ping (ipv4_new 10 0 0 1) reply.
Proof.
  assert (Hb : bytes_ok ping) by (by apply bytes_ok_check). assert (Hu : u32_ok (ipv4_new 10 0 0 1)) by (by vm_compute).
  pose proof (echo_reply_valid ping (ipv4_new 10 0 0 1) Hb Hu) as H.
  destruct (build_icmp_echo_reply ping (ipv4_new 10 0 0 1)) as [[reply|]| |] eqn:E; [|by vm_compute in E..].
  exists reply. split; [reflexivity|exact H].
Defined.
