(* ===== verification/Qos.v ===== *)
(** * Quality of service

    [qos.rs]: the limits of bandwidth of every client and the class of service of its
    packets. A token bucket counts in binary64, which [SpecFloat] computes. The theorems:
    after the database is read again the limits are exactly those of the clients in it, and
    nobody gets tokens from that; marking a packet changes its class only, and leaves a
    right checksum. *)

From Stdlib Require Import SpecFloat.
From S2P Require Import Prelude IpAddr NetworkConfig IpPacket Icmp ClientDb ClientStore.
Local Open Scope Z_scope.

(** ** Binary64 *)

Abbreviation f64 := spec_float.

Definition f64_of (x : Z) : f64 := binary_normalize 53 1024 x 0 false.
Definition f64_add : f64 -> f64 -> f64 := SFadd 53 1024.
Definition f64_sub : f64 -> f64 -> f64 := SFsub 53 1024.
Definition f64_mul : f64 -> f64 -> f64 := SFmul 53 1024.
Definition f64_div : f64 -> f64 -> f64 := SFdiv 53 1024.

(** [f64::min] and [f64::max]: the other one if one is not a number. *)
Definition f64_min (a b : f64) : f64 :=
  match SFcompare a b with Some Gt => b | Some _ => a | None => match a with S754_nan => b | _ => a end end.
Definition f64_max (a b : f64) : f64 :=
  match SFcompare a b with Some Lt => b | Some _ => a | None => match a with S754_nan => b | _ => a end end.

(** [x as u64] *)
Definition f64_to_u64 (a : f64) : Z :=
  match a with
  | S754_finite false m e => Z.min u64_max (Z.shiftl (Zpos m) e)
  | S754_infinity false => u64_max
  | _ => 0
  end.

(** [Duration::as_secs_f64] of a number of nanoseconds. *)
Definition as_secs_f64 (d : Z) : f64 :=
  f64_add (f64_of (d / 1000000000)) (f64_div (f64_of (d mod 1000000000)) (f64_of 1000000000)).

(** The literal [0.1]. *)
Definition tenth : f64 := f64_div (f64_of 1) (f64_of 10).

(** ** Buckets *)

Record TokenBucket : Type := { capacity : Z; tokens : f64; rate_bps : Z; last : Z }.

Definition new_bucket (rate now : Z) : TokenBucket :=
  let c := f64_to_u64 (f64_max (f64_mul (f64_of rate) tenth) (f64_of 1500)) in
  {| capacity := c; tokens := f64_of c; rate_bps := rate; last := now |}.

Definition try_consume (n now : Z) (b : TokenBucket) : TokenBucket * bool :=
  let elapsed := as_secs_f64 (sat_sub now (last b)) in
  let t := f64_min (f64_add (tokens b) (f64_mul elapsed (f64_of (rate_bps b)))) (f64_of (capacity b)) in
  let enough := SFleb (f64_of n) t in
  ({| capacity := capacity b; tokens := if enough then f64_sub t (f64_of n) else t; rate_bps := rate_bps b; last := now |}, enough).

Record ClientBuckets : Type := { up : option TokenBucket; down : option TokenBucket; dscp : option Z }.

(** [QosEnforcer] *)
Abbreviation Enforcer := (gmap bytes ClientBuckets).

Definition update_bucket (bucket : option TokenBucket) (rate : option Z) (now : Z) : option TokenBucket :=
  let rate := match rate with Some r => if 0 <? r then Some r else None | None => None end in
  match bucket, rate with
  | Some current, Some r =>
      let b := (try_consume 0 now current).1 in
      let c := Z.max (r / 10) 1500 in
      Some {| capacity := c; tokens := f64_min (tokens b) (f64_of c); rate_bps := r; last := last b |}
  | _, _ => (fun r => new_bucket r now) <$> rate
  end.

Definition set_client (client_id : bytes) (q : ClientQos) (now : Z) (e : Enforcer) : Enforcer :=
  let current := default {| up := None; down := None; dscp := None |} (e !! client_id) in
  <[client_id := {| up := update_bucket (up current) (bandwidth_limit_up q) now;
                    down := update_bucket (down current) (bandwidth_limit_down q) now;
                    dscp := dscp_class q |}]> e.

Definition remove_client (client_id : bytes) (e : Enforcer) : Enforcer := delete client_id e.

Definition sync_client (now : Z) (e : Enforcer) (c : ClientConfig) : Enforcer :=
  match qos c with Some q => set_client (id c) q now e | None => remove_client (id c) e end.

Definition sync_from_db (h : Host) (now : Z) (e : Enforcer) : Enforcer :=
  let live := list_clients h in
  filter (fun b => b.1 ∈ map id live) (fold_left (sync_client now) live e).

Definition check_upstream (client_id : bytes) (n now : Z) (e : Enforcer) : Enforcer * bool :=
  match e !! client_id with
  | Some b =>
      match up b with
      | Some bucket =>
          let '(bucket, ok) := try_consume n now bucket in
          (<[client_id := {| up := Some bucket; down := down b; dscp := dscp b |}]> e, ok)
      | None => (e, true)
      end
  | None => (e, true)
  end.

Definition check_downstream (client_id : bytes) (n now : Z) (e : Enforcer) : Enforcer * bool :=
  match e !! client_id with
  | Some b =>
      match down b with
      | Some bucket =>
          let '(bucket, ok) := try_consume n now bucket in
          (<[client_id := {| up := up b; down := Some bucket; dscp := dscp b |}]> e, ok)
      | None => (e, true)
      end
  | None => (e, true)
  end.

Definition get_dscp (client_id : bytes) (e : Enforcer) : option Z := b ← e !! client_id; dscp b.

(** ** The class of service of a packet *)

(** [data[i] = x] *)
Definition set_idx (data : bytes) (i x : Z) : outcome bytes :=
  if (0 <=? i) && (i <? len data) then Ok (<[Z.to_nat i := x]> data) else Panic.

(** The sum of [ipv4_checksum], in a u32 that wraps around. *)
Fixpoint header_sum (sum : Z) (header : bytes) : outcome Z :=
  match header with
  | a :: b :: header => header_sum (wrap32 (sum + Z.lor (Z.shiftl a 8) b)) header
  | [_] => Panic
  | [] => Ok sum
  end.

Definition ipv4_checksum (header : bytes) : outcome Z :=
  let! sum := header_sum 0 header in
  Ok (u16_max - wrap16 (fold_carries 3 sum)).

Definition apply_dscp_ipv4 (pkt : bytes) (dscp : Z) : outcome (bytes * bool) :=
  if len pkt <? 20 then Ok (pkt, false)
  else
  let! b0 := idx pkt 0 in
  if negb (Z.shiftr b0 4 =? 4) then Ok (pkt, false)
  else
  let header_len := Z.land b0 15 * 4 in
  if (header_len <? 20) || (len pkt <? header_len) || (63 <? dscp) then Ok (pkt, false)
  else
  let dscp := Z.land dscp 63 in
  let! b1 := idx pkt 1 in
  let ecn := Z.land b1 3 in
  let! pkt := set_idx pkt 1 (Z.lor (wrap8 (Z.shiftl dscp 2)) ecn) in
  let! pkt := set_idx pkt 10 0 in
  let! pkt := set_idx pkt 11 0 in
  let! header := slice pkt 0 header_len in
  let! sum := ipv4_checksum header in
  let! pkt := set_idx pkt 10 (Z.shiftr sum 8) in
  let! pkt := set_idx pkt 11 (Z.land sum 255) in
  Ok (pkt, true).

Definition apply_dscp_ipv6 (pkt : bytes) (dscp : Z) : outcome (bytes * bool) :=
  if len pkt <? 40 then Ok (pkt, false)
  else
  let! b0 := idx pkt 0 in
  if negb (Z.shiftr b0 4 =? 6) || (63 <? dscp) then Ok (pkt, false)
  else
  let! pkt := set_idx pkt 0 (Z.lor (Z.land b0 240) (Z.shiftr dscp 2)) in
  let! b1 := idx pkt 1 in
  let! pkt := set_idx pkt 1 (Z.lor (Z.land b1 63) (wrap8 (Z.shiftl (Z.land dscp 3) 6))) in
  Ok (pkt, true).

Definition apply_dscp (pkt : bytes) (dscp : Z) : outcome (bytes * bool) :=
  match pkt with
  | b0 :: _ =>
      if Z.shiftr b0 4 =? 4 then apply_dscp_ipv4 pkt dscp
      else if Z.shiftr b0 4 =? 6 then apply_dscp_ipv6 pkt dscp
      else Ok (pkt, false)
  | [] => Ok (pkt, false)
  end.

(** ** Buckets and the database *)

(** The tokens of a bucket at a time. *)
Definition refilled (now : Z) (b : TokenBucket) : f64 := tokens (try_consume 0 now b).1.

Lemma sfcompare_antisym a b c : SFcompare a b = Some c -> SFcompare b a = Some (CompOpp c).
Proof.
  destruct a as [s|s| |s m e], b as [s'|s'| |s' m' e']; cbn; try done; try (by intros [= <-]; repeat (case_match; simplify_eq)).
  rewrite (Z.compare_antisym e e'). change (Pos.compare_cont Eq m m') with (m ?= m')%positive. change (Pos.compare_cont Eq m' m) with (m' ?= m)%positive.
  rewrite (Pos.compare_antisym m m'). intros [= <-]. by destruct s, s', (Z.compare e e'), (Pos.compare m m').
Qed.

Lemma sfcompare_refl a : a <> S754_nan -> SFcompare a a = Some Eq.
Proof.
  destruct a as [s|s| |s m e]; try done; [by destruct s|]. intros _. cbn. rewrite Z.compare_refl.
  change (Pos.compare_cont Eq m m) with (m ?= m)%positive. rewrite Pos.compare_refl. by destruct s.
Qed.

(** The smaller of two numbers is at most the first. *)
Lemma f64_min_le a b : a <> S754_nan -> b <> S754_nan -> SFleb (f64_min a b) a = true.
Proof.
  intros Ha Hb. unfold f64_min, SFleb. destruct (SFcompare a b) as [[]|] eqn:E; try by rewrite sfcompare_refl.
  - by rewrite (sfcompare_antisym _ _ _ E).
  - by destruct a; rewrite ?sfcompare_refl.
Qed.

(** What the limit of a client makes of its bucket: none without a limit, a full one for a
    new limit, and no token more than there were for a client that had one. *)
Definition follows (now : Z) (old : option TokenBucket) (limit : option Z) (new : option TokenBucket) : Prop :=
  match limit with
  | Some r =>
      if 0 <? r then
        exists b, new = Some b /\ rate_bps b = r /\
          match old with
          | Some o => capacity b = Z.max (r / 10) 1500 /\ tokens b = f64_min (refilled now o) (f64_of (capacity b))
          | None => b = new_bucket r now
          end
      else new = None
  | None => new = None
  end.

Lemma update_follows now old limit : follows now old limit (update_bucket old limit now).
Proof.
  unfold follows, update_bucket. destruct limit as [r|]; [|by destruct old]. destruct (0 <? r); [|by destruct old].
  destruct old as [o|]; eexists; split; try done.
Qed.

Lemma sync_other now e c i : id c <> i -> sync_client now e c !! i = e !! i.
Proof. intros Hi. unfold sync_client, set_client, remove_client. destruct (qos c); [by rewrite lookup_insert_ne|by rewrite lookup_delete_ne]. Qed.

Lemma sync_others now l e i : i ∉ map id l -> fold_left (sync_client now) l e !! i = e !! i.
Proof.
  revert e. induction l as [|c l IH]; intros e Hi; [done|]. cbn in *. rewrite not_elem_of_cons in Hi. destruct Hi as [H1 H2].
  rewrite IH by done. by apply sync_other.
Qed.

Lemma id_in c l : c ∈ l -> id c ∈ map id l.
Proof. intros Hc. apply list_elem_of_fmap. by exists c. Qed.

(** What the pass over the clients leaves for one of them. *)
Lemma sync_lookup now l e c : NoDup (map id l) -> c ∈ l -> fold_left (sync_client now) l e !! id c = sync_client now e c !! id c.
Proof.
  revert e. induction l as [|d l IH]; intros e Hn Hc; [by apply not_elem_of_nil in Hc|]. cbn in *. apply NoDup_cons in Hn as [Hd Hn].
  apply elem_of_cons in Hc as [->|Hc]; [by rewrite sync_others|]. rewrite IH by done.
  assert (Hne : id d <> id c) by (intros E; apply Hd; rewrite E; by apply id_in).
  unfold sync_client at 1 3, set_client, remove_client. destruct (qos c); [|by rewrite !lookup_delete_eq].
  rewrite !lookup_insert_eq. by rewrite sync_other.
Qed.

(** After the database is read again, the limits in force are those of the clients in
    it. Exactly the clients with settings have an entry, of their class of service; a limit
    of nothing is no limit, and such a client's packets always pass; a client whose limit
    stays or changes gets no tokens beyond those it had, and only a new limit starts with a
    full bucket. *)
Theorem qos_follows_db h now e :
  NoDup (map id (list_clients h)) ->
  let e' := sync_from_db h now e in
  (forall i, is_Some (e' !! i) <-> exists c, c ∈ list_clients h /\ id c = i /\ is_Some (qos c)) /\
  (forall c q, c ∈ list_clients h -> qos c = Some q -> exists b, e' !! id c = Some b /\ dscp b = dscp_class q /\
     follows now (b ← e !! id c; up b) (bandwidth_limit_up q) (up b) /\
     follows now (b ← e !! id c; down b) (bandwidth_limit_down q) (down b) /\
     (forall n t, bandwidth_limit_up q = Some 0 -> check_upstream (id c) n t e' = (e', true))).
Proof.
  intros Hn e'. set (pass := fold_left (sync_client now) (list_clients h) e).
  assert (Hin : forall c, c ∈ list_clients h -> e' !! id c = sync_client now e c !! id c).
  { intros c Hc. rewrite <- (sync_lookup now _ e c Hn Hc). fold pass. subst e'. unfold sync_from_db. fold pass.
    destruct (pass !! id c) as [b|] eqn:E.
    - apply map_lookup_filter_Some. split; [done|]. cbn. by apply id_in.
    - apply map_lookup_filter_None. by left. }
  split.
  - intros i. split.
    + intros [b Hb]. assert (Hi : i ∈ map id (list_clients h)) by (subst e'; unfold sync_from_db in Hb; by apply map_lookup_filter_Some in Hb as [_ Hi]).
      apply list_elem_of_fmap in Hi as (c & -> & Hc). exists c. split_and!; try done. rewrite (Hin c Hc) in Hb. unfold sync_client in Hb.
      destruct (qos c); [done|]. unfold remove_client in Hb. by rewrite lookup_delete_eq in Hb.
    + intros (c & Hc & <- & q & Hq). rewrite (Hin c Hc). unfold sync_client, set_client. rewrite Hq, lookup_insert_eq. by eexists.
  - intros c q Hc Hq. eexists. rewrite (Hin c Hc). unfold sync_client, set_client at 1. rewrite Hq, lookup_insert_eq. split; [done|]. cbn [dscp up down].
    split_and!; try done; [destruct (e !! id c); apply update_follows..|].
    intros n t H0. unfold check_upstream. rewrite (Hin c Hc). unfold sync_client, set_client. rewrite Hq, lookup_insert_eq. cbn [up].
    rewrite H0. by destruct (up _).
Qed.

(** ** Marked packets *)

Lemma for_bytes (P : Z -> bool) : forallb P (map Z.of_nat (seq 0 256)) = true -> forall b, byte_ok b -> P b = true.
Proof.
  intros H b Hb. rewrite forallb_forall in H. apply H. unfold byte_ok in Hb. apply in_map_iff. exists (Z.to_nat b). split; [lia|]. apply in_seq. lia.
Qed.

Lemma tos_bits d b : 0 <= d <= 63 -> byte_ok b -> Z.lor (wrap8 (Z.shiftl (Z.land d 63) 2)) (Z.land b 3) = d * 4 + b mod 4.
Proof.
  intros Hd Hb. apply Z.eqb_eq. revert b Hb. apply for_bytes. revert d Hd.
  assert (H : forall d, byte_ok d -> implb (d <=? 63) (forallb (fun b => Z.lor (wrap8 (Z.shiftl (Z.land d 63) 2)) (Z.land b 3) =? d * 4 + b mod 4) (map Z.of_nat (seq 0 256))) = true).
  { apply for_bytes. by vm_compute. }
  intros d Hd. specialize (H d ltac:(unfold byte_ok; lia)). by rewrite (proj2 (Z.leb_le d 63)) in H by lia.
Qed.

Lemma class_bits d b : 0 <= d <= 63 -> byte_ok b ->
  Z.lor (Z.land b 240) (Z.shiftr d 2) = b / 16 * 16 + d / 4 /\
  Z.lor (Z.land b 63) (wrap8 (Z.shiftl (Z.land d 3) 6)) = d mod 4 * 64 + b mod 64.
Proof.
  intros Hd Hb. rewrite <- !Z.eqb_eq, <- andb_true_iff. revert b Hb. apply for_bytes. revert d Hd.
  assert (H : forall d, byte_ok d -> implb (d <=? 63) (forallb (fun b => (Z.lor (Z.land b 240) (Z.shiftr d 2) =? b / 16 * 16 + d / 4) &&
    (Z.lor (Z.land b 63) (wrap8 (Z.shiftl (Z.land d 3) 6)) =? d mod 4 * 64 + b mod 64)) (map Z.of_nat (seq 0 256))) = true).
  { apply for_bytes. by vm_compute. }
  intros d Hd. specialize (H d ltac:(unfold byte_ok; lia)). by rewrite (proj2 (Z.leb_le d 63)) in H by lia.
Qed.

Lemma word_lor a b : byte_ok a -> byte_ok b -> Z.lor (Z.shiftl a 8) b = a * 256 + b.
Proof.
  intros Ha Hb. apply Z.eqb_eq. revert b Hb. apply for_bytes. revert a Ha. apply for_bytes. by vm_compute.
Qed.

(** The sum does not wrap around on a header. *)
Lemma header_sum_eq l s :
  bytes_ok l -> Nat.Even (length l) -> 0 <= s -> s + 65535 * len l <= u32_max -> header_sum s l = Ok (s + word_sum l).
Proof.
  revert s. induction l as [|a|a b l IH] using two_step; intros s Hb He Hs Hl.
  - cbn. f_equal. lia.
  - destruct He as [k Hk]. cbn in Hk. lia.
  - apply Forall_cons in Hb as [Ha Hb]. apply Forall_cons in Hb as [Hb Hr]. cbn [header_sum word_sum length] in *. rewrite word_lor by done.
    unfold u32_max, byte_ok in *. unfold wrap32. rewrite Z.mod_small by lia. rewrite IH; [f_equal; lia|done| |lia|lia].
    destruct He as [k Hk]. exists (k - 1)%nat. lia.
Qed.

Lemma ipv4_checksum_eq l : bytes_ok l -> Nat.Even (length l) -> len l <= 60 -> ipv4_checksum l = compute_checksum l.
Proof.
  intros Hb He Hl. unfold ipv4_checksum, compute_checksum. rewrite header_sum_eq by (done || unfold u32_max; lia). cbn [obind].
  pose proof (word_sum_bound l Hb) as Hw. assert (Hd : (len l + 1) / 2 <= 61) by (apply Z.div_le_upper_bound; lia).
  rewrite (proj2 (Z.ltb_ge u32_max (word_sum l))) by (unfold u32_max; lia). rewrite Z.add_0_l.
  destruct (fold_spec (word_sum l)) as (q & _ & Hq & _); [unfold u32_max; lia|]. f_equal.
  unfold wrap16, u32_max, u16_max. rewrite (Z.mod_small (fold_carries _ _)) by lia.
  apply (Z.mod_unique _ _ 65535); lia.
Qed.

(** The bytes of a header of IPv4 that marking it changes. *)
Definition marked_v4 (pkt out : bytes) (dscp : Z) : Prop :=
  exists a b c d mid rest s, pkt = a :: b :: mid ++ c :: d :: rest /\ length mid = 8%nat /\
    out = a :: dscp * 4 + b mod 4 :: mid ++ be_bytes 2 s ++ rest /\
    compute_checksum (take (Z.to_nat (Z.land a 15 * 4)) out) = Ok 0.

Definition marked_v6 (pkt out : bytes) (dscp : Z) : Prop :=
  exists a b rest, pkt = a :: b :: rest /\ out = a / 16 * 16 + dscp / 4 :: dscp mod 4 * 64 + b mod 64 :: rest.

Lemma set_idx_ok l i x : 0 <= i < len l -> set_idx l i x = Ok (<[Z.to_nat i := x]> l).
Proof. intros Hi. unfold set_idx. rewrite (proj2 (Z.leb_le 0 i)), (proj2 (Z.ltb_lt i (len l))) by lia. done. Qed.

(** The header that is marked, with its checksum. *)
Lemma mark_header a b mid rest h :
  bytes_ok (a :: b :: mid ++ rest) -> length mid = 8%nat -> h = Z.land a 15 * 4 -> 20 <= h <= 12 + len rest ->
  exists s, ipv4_checksum (take (Z.to_nat h) (a :: b :: mid ++ 0 :: 0 :: rest)) = Ok s /\ 0 <= s < 65536 /\
    compute_checksum (take (Z.to_nat h) (a :: b :: mid ++ be_bytes 2 s ++ rest)) = Ok 0.
Proof.
  intros Hb Hm -> Hh. set (h := Z.land a 15 * 4) in *.
  apply Forall_cons in Hb as [Ha Hb]. apply Forall_cons in Hb as [Hb Hr]. apply Forall_app in Hr as [Hmid Hr].
  assert (Hla : 0 <= Z.land a 15 < 16) by (change 15 with (Z.ones 4); rewrite Z.land_ones by lia; apply Z.mod_pos_bound; lia).
  assert (Ht : forall x y, take (Z.to_nat h) (a :: b :: mid ++ x :: y :: rest) = (a :: b :: mid) ++ [x; y] ++ take (Z.to_nat (h - 12)) rest).
  { intros x y. change (a :: b :: mid ++ x :: y :: rest) with ((a :: b :: mid) ++ [x; y] ++ rest). rewrite app_assoc, take_app_ge by (rewrite length_app; cbn [length]; lia).
    rewrite <- app_assoc. do 3 f_equal. rewrite length_app. cbn [length]. lia. }
  rewrite Ht. set (back := take _ rest). assert (Hbb : bytes_ok back) by (by apply Forall_take).
  assert (Hbl : len back = h - 12) by (unfold back; rewrite length_take; lia).
  assert (Hok : bytes_ok ((a :: b :: mid) ++ [0; 0] ++ back)).
  { rewrite !Forall_app. split_and!; try done; repeat (constructor; [done|]); done. }
  assert (Hlen : len ((a :: b :: mid) ++ [0; 0] ++ back) = h) by (rewrite !length_app; cbn [length]; lia).
  destruct (checksum_spec _ Hok ltac:(lia)) as (s & Es & Hs & _). exists s. split; [|split; [lia|]].
  - rewrite ipv4_checksum_eq; [done|done| |lia]. exists (Z.to_nat (Z.land a 15 * 2)). lia.
  - rewrite be2 by lia. cbn [app]. rewrite Ht. rewrite <- be2 by lia. apply checksum_zero; try done.
    + by do 2 (constructor; [done|]).
    + exists 5%nat. cbn. lia.
    + fold back. rewrite Hbl. cbn [length]. rewrite Hm. unfold h. lia.
Qed.

Lemma set_sum a b mid c d rest z : length mid = 8%nat ->
  set_idx (a :: b :: mid ++ c :: d :: rest) 10 z = Ok (a :: b :: mid ++ z :: d :: rest) /\
  set_idx (a :: b :: mid ++ c :: d :: rest) 11 z = Ok (a :: b :: mid ++ c :: z :: rest).
Proof.
  intros Hm. assert (Hl : len (a :: b :: mid ++ c :: d :: rest) = 12 + len rest) by (cbn [length]; rewrite length_app; cbn [length]; lia).
  rewrite !set_idx_ok by lia. destruct mid as [|m1 [|m2 [|m3 [|m4 [|m5 [|m6 [|m7 [|m8 [|]]]]]]]]]; done.
Qed.

Lemma sum_bytes s : 0 <= s < 65536 -> Z.shiftr s 8 = s / 256 /\ Z.land s 255 = s mod 256.
Proof. intros Hs. rewrite Z.shiftr_div_pow2 by lia. change 255 with (Z.ones 8). rewrite Z.land_ones by lia. done. Qed.

(** What a packet that is left alone lacks, and a valid class. *)
Definition unmarked (pkt : bytes) (dscp version : Z) : Prop :=
  forall p b0, parse pkt = Ok (Some p) -> idx pkt 0 = Ok b0 -> Z.shiftr b0 4 = version -> 63 < dscp.

Lemma dscp_v4_safe pkt dscp :
  bytes_ok pkt -> 0 <= dscp ->
  safe (apply_dscp_ipv4 pkt dscp) (fun r => if r.2 then dscp <= 63 /\ 20 <= len pkt /\ marked_v4 pkt r.1 dscp else r.1 = pkt /\ unmarked pkt dscp 4).
Proof.
  intros Hb Hd. unfold apply_dscp_ipv4. pose proof (parse_v4_fields pkt) as Hf.
  destruct (Z.ltb_spec (len pkt) 20) as [|Hl].
  { split; [done|]. intros p b0 Hp H0 Hv. destruct (Hf p b0 Hb Hp H0 Hv) as (_ & _ & _ & ? & _ & ?). lia. }
  destruct pkt as [|a [|b [|m1 [|m2 [|m3 [|m4 [|m5 [|m6 [|m7 [|m8 [|c [|d rest]]]]]]]]]]]]; try (cbn in Hl; lia).
  set (mid := [m1; m2; m3; m4; m5; m6; m7; m8]). change (a :: b :: m1 :: m2 :: m3 :: m4 :: m5 :: m6 :: m7 :: m8 :: c :: d :: rest) with (a :: b :: mid ++ c :: d :: rest) in *.
  rewrite idx_cons_0. cbn [obind]. destruct (Z.eqb_spec (Z.shiftr a 4) 4) as [Hv|]; cbn [negb].
  2:{ split; [done|]. intros p b0 _ H0 Hv. rewrite idx_cons_0 in H0. congruence. }
  set (h := Z.land a 15 * 4).
  destruct (_ || _) eqn:Eg.
  { split; [done|]. intros p b0 Hp H0 _. rewrite idx_cons_0 in H0. injection H0 as <-.
    destruct (Hf p a Hb Hp (idx_cons_0 _ _) Hv) as (_ & _ & _ & ? & _ & ?). fold h in H. rewrite !orb_true_iff, !Z.ltb_lt in Eg. lia. }
  clear Hf. apply orb_false_iff in Eg as [[E1 E2]%orb_false_iff E3]. norm_bool E1. norm_bool E2. norm_bool E3.
  rewrite idx_cons_S by lia. change (1 - 1) with 0. rewrite idx_cons_0. cbn [obind].
  assert (Hbb : byte_ok b) by (apply Forall_cons in Hb as [_ Hb]; by apply Forall_cons in Hb as [? _]).
  rewrite tos_bits by (done || lia). set (t := dscp * 4 + b mod 4).
  rewrite set_idx_ok by lia. cbn [obind]. change (<[Z.to_nat 1 := t]> (a :: b :: mid ++ c :: d :: rest)) with (a :: t :: mid ++ c :: d :: rest).
  assert (Hm : length mid = 8%nat) by done.
  assert (Hlen : forall u v w x, len (u :: v :: mid ++ w :: x :: rest) = 12 + len rest) by (intros; cbn [length]; rewrite length_app; cbn [length]; lia).
  rewrite Hlen in E2. rewrite (proj1 (set_sum a t mid c d rest 0 Hm)). cbn [obind]. rewrite (proj2 (set_sum a t mid 0 d rest 0 Hm)). cbn [obind].
  assert (Hok : bytes_ok (a :: t :: mid ++ rest)).
  { apply Forall_cons in Hb as [Ha Hb]. apply Forall_cons in Hb as [_ Hb]. apply Forall_app in Hb as [H1 H2].
    apply Forall_cons in H2 as [_ H2]. apply Forall_cons in H2 as [_ H2]. constructor; [done|]. constructor; [|by apply Forall_app].
    unfold byte_ok, t in *. pose proof (Z.mod_pos_bound b 4). lia. }
  destruct (mark_header a t mid rest h Hok Hm eq_refl ltac:(lia)) as (s & Es & Hs & Ez).
  assert (slice (a :: t :: mid ++ 0 :: 0 :: rest) 0 h = Ok (take (Z.to_nat h) (a :: t :: mid ++ 0 :: 0 :: rest))) as ->.
  { apply slice_Ok. rewrite Hlen, Z.sub_0_r. by split_and!; try lia. }
  cbn [obind]. rewrite Es. cbn [obind]. rewrite (proj1 (set_sum a t mid 0 0 rest _ Hm)). cbn [obind].
  rewrite (proj2 (set_sum a t mid _ 0 rest _ Hm)). cbn [obind safe snd fst]. split_and!; try done.
  exists a, b, c, d, mid, rest, s. split_and!; try done; rewrite ?be2 by lia; cbn [app]; fold t.
  - by destruct (sum_bytes s Hs) as [-> ->].
  - destruct (sum_bytes s Hs) as [-> ->]. by rewrite <- Ez, be2 by lia.
Qed.

Lemma set_first a b rest z :
  set_idx (a :: b :: rest) 0 z = Ok (z :: b :: rest) /\ set_idx (a :: b :: rest) 1 z = Ok (a :: z :: rest).
Proof. rewrite !set_idx_ok by (cbn [length]; lia). done. Qed.

Lemma dscp_v6_safe pkt dscp :
  bytes_ok pkt -> 0 <= dscp ->
  safe (apply_dscp_ipv6 pkt dscp) (fun r => if r.2 then dscp <= 63 /\ 40 <= len pkt /\ marked_v6 pkt r.1 dscp else r.1 = pkt /\ unmarked pkt dscp 6).
Proof.
  intros Hb Hd. unfold apply_dscp_ipv6. destruct (Z.ltb_spec (len pkt) 40) as [|Hl].
  { split; [done|]. intros p b0 Hp H0 Hv. destruct pkt as [|x l]; [done|]. rewrite idx_cons_0 in H0. injection H0 as ->.
    cbn [parse] in Hp. rewrite Hv, (proj2 (Z.leb_gt 40 _)) in Hp by done. done. }
  destruct pkt as [|a [|b rest]]; [cbn in Hl; lia..|]. rewrite idx_cons_0. cbn [obind]. destruct (_ || _) eqn:E.
  { split; [done|]. intros p b0 _ H0 Hv. rewrite idx_cons_0 in H0. injection H0 as ->. rewrite Hv in E. cbn in E. lia. }
  apply orb_false_iff in E as [_ E]. norm_bool E. apply Forall_cons in Hb as [Ha Hb]. apply Forall_cons in Hb as [Hb _].
  destruct (class_bits dscp a ltac:(lia) Ha) as [-> _]. destruct (class_bits dscp b ltac:(lia) Hb) as [_ Eb].
  rewrite (proj1 (set_first a b rest _)). cbn [obind]. rewrite idx_cons_S by lia. change (1 - 1) with 0.
  rewrite idx_cons_0. cbn [obind]. rewrite Eb, (proj2 (set_first _ b rest _)). cbn [obind safe snd fst]. split_and!; try done.
  by exists a, b, rest.
Qed.

(** Marking changes nothing that the parser reads. *)
Lemma parse_tail (a a' : Z) l l' n (p : IpPacket) :
  20 <= ip_length p -> len (a :: l) = len (a' :: l') -> n <= 20 -> drop (Z.to_nat n) (a :: l) = drop (Z.to_nat n) (a' :: l') ->
  (if len (a :: l) <? ip_length p then Ok None else
     let! tail := slice_from (a :: l) (ip_length p) in if existsb (fun b => negb (b =? 0)) tail then Ok None else Ok (Some p)) =
  (if len (a' :: l') <? ip_length p then Ok None else
     let! tail := slice_from (a' :: l') (ip_length p) in if existsb (fun b => negb (b =? 0)) tail then Ok None else Ok (Some p)).
Proof.
  intros Hp Hl Hn Hd. rewrite Hl. destruct (_ <? _); [done|]. unfold slice_from, slice. rewrite Hl.
  replace (Z.to_nat (ip_length p)) with (Z.to_nat n + (Z.to_nat (ip_length p) - Z.to_nat n))%nat by lia.
  by rewrite <- !drop_drop, Hd.
Qed.

Lemma parse_marked_v4 a b b' c c' d d' mid rest :
  bytes_ok (a :: b :: mid ++ c :: d :: rest) -> length mid = 8%nat -> Z.shiftr a 4 = 4 ->
  20 <= len (a :: b :: mid ++ c :: d :: rest) ->
  parse (a :: b' :: mid ++ c' :: d' :: rest) = parse (a :: b :: mid ++ c :: d :: rest).
Proof.
  intros Hb Hm Hv Hl. set (pkt := b :: mid ++ c :: d :: rest) in *. set (out := b' :: mid ++ c' :: d' :: rest).
  assert (Hlen : len (a :: out) = len (a :: pkt)) by (unfold out, pkt; cbn [length]; by rewrite !length_app).
  assert (H4 : parse_v4 (a :: out) = parse_v4 (a :: pkt)).
  { unfold out, pkt. destruct mid as [|m1 [|m2 [|m3 [|m4 [|m5 [|m6 [|m7 [|m8 [|]]]]]]]]]; try done. }
  cbn [parse]. rewrite Hv, Hlen, H4. change (4 =? 4) with true. cbn [andb]. rewrite (proj2 (Z.leb_le 20 _)) by done.
  pose proof (parse_v4_safe (a :: pkt) Hb Hl) as Hs. destruct (parse_v4 (a :: pkt)) as [[p|]| |]; cbn [obind]; try done.
  rewrite <- Hlen at 1. apply (parse_tail a a out pkt 12); [by destruct Hs|done|lia|].
  change (Z.to_nat 12) with 12%nat. unfold out, pkt. destruct mid as [|m1 [|m2 [|m3 [|m4 [|m5 [|m6 [|m7 [|m8 [|]]]]]]]]]; done.
Qed.

Lemma parse_marked_v6 a a' b b' rest :
  bytes_ok (a :: b :: rest) -> Z.shiftr a 4 = 6 -> Z.shiftr a' 4 = 6 -> 40 <= len (a :: b :: rest) ->
  parse (a' :: b' :: rest) = parse (a :: b :: rest).
Proof.
  intros Hb Hv Hv' Hl. assert (H6 : parse_v6 (a' :: b' :: rest) = parse_v6 (a :: b :: rest)) by done.
  cbn [parse]. rewrite Hv, Hv', H6. change (6 =? 4) with false. change (6 =? 6) with true. cbn [andb].
  change (len (a' :: b' :: rest)) with (len (a :: b :: rest)). rewrite (proj2 (Z.leb_le 40 _)) by done.
  pose proof (parse_v6_safe (a :: b :: rest) Hb Hl) as Hs. destruct (parse_v6 (a :: b :: rest)) as [[p|]| |]; cbn [obind]; try done.
  apply (parse_tail a' a (b' :: rest) (b :: rest) 2); [destruct Hs; lia|done|lia|done].
Qed.

(** Marking the class of service harms no packet. No bytes make it panic; a packet that
    is marked keeps its length, its addresses and all but its class, and has a right
    checksum; a packet that is not is left alone, and a packet of the tunnel is always
    marked with a valid class. *)
Theorem dscp_marked pkt dscp :
  bytes_ok pkt -> 0 <= dscp ->
  safe (apply_dscp pkt dscp) (fun r =>
    parse r.1 = parse pkt /\ len r.1 = len pkt /\ bytes_ok r.1 /\
    (if r.2 then dscp <= 63 /\ (marked_v4 pkt r.1 dscp \/ marked_v6 pkt r.1 dscp) else r.1 = pkt) /\
    (dscp <= 63 -> forall p, parse pkt = Ok (Some p) -> r.2 = true)).
Proof.
  intros Hb Hd. destruct pkt as [|a l]; [by split_and!|]. unfold apply_dscp.
  assert (Hver : forall v, Z.shiftr a 4 = v -> unmarked (a :: l) dscp v -> dscp <= 63 -> forall p, parse (a :: l) = Ok (Some p) -> false = true).
  { intros v Hv Hu Hle p Hp. specialize (Hu p a Hp (idx_cons_0 _ _) Hv). lia. }
  destruct (Z.eqb_spec (Z.shiftr a 4) 4) as [Hv|Hv].
  - apply (safe_mono _ _ _ (dscp_v4_safe (a :: l) dscp Hb Hd)). intros [out [|]]; cbn [fst snd].
    + intros (Hle & Hl & a' & b & c & d & mid & rest & s & E & Hm & -> & Hs). injection E as <- ->.
      split_and!; try done.
      * change (be_bytes 2 s) with [(s / 256) mod 256; s mod 256]. by apply parse_marked_v4.
      * cbn [length]. rewrite !length_app, length_be_bytes. cbn [length]. lia.
      * apply Forall_cons in Hb as [Ha Hb]. apply Forall_cons in Hb as [Hb Hr]. constructor; [done|]. constructor.
        { unfold byte_ok in *. pose proof (Z.mod_pos_bound b 4). lia. }
        apply Forall_app in Hr as [Hr1 Hr2]. apply Forall_cons in Hr2 as [_ Hr2]. apply Forall_cons in Hr2 as [_ Hr2].
        apply Forall_app. split; [done|]. apply Forall_app. split; [apply bytes_ok_be_bytes|done].
      * left. by exists a, b, c, d, mid, rest, s.
    + intros [-> Hu]. split_and!; try done. by apply (Hver 4).
  - destruct (Z.eqb_spec (Z.shiftr a 4) 6) as [Hv6|Hv6].
    + apply (safe_mono _ _ _ (dscp_v6_safe (a :: l) dscp Hb Hd)). intros [out [|]]; cbn [fst snd].
      * intros (Hle & Hl & a' & b & rest & E & ->). injection E as <- ->. rewrite Z.shiftr_div_pow2 in Hv6 by lia. change (2 ^ 4) with 16 in Hv6.
        assert (Hd4 : 0 <= dscp / 4 < 16) by (split; [apply Z.div_pos|apply Z.div_lt_upper_bound]; lia).
        pose proof (Z.mod_pos_bound dscp 4 ltac:(lia)). pose proof (Z.mod_pos_bound b 64 ltac:(lia)). split_and!; try done.
        -- apply parse_marked_v6; [done| | |done]; rewrite Z.shiftr_div_pow2 by lia; change (2 ^ 4) with 16; [done|].
           rewrite Hv6. symmetry. apply (Z.div_unique _ _ _ (dscp / 4)); lia.
        -- apply Forall_cons in Hb as [Ha Hb]. apply Forall_cons in Hb as [Hb Hr]. unfold byte_ok in *. repeat constructor; try done; lia.
        -- right. by exists a, b, rest.
      * intros [-> Hu]. split_and!; try done. by apply (Hver 6).
    + cbn [safe fst snd]. split_and!; try done. intros _ p Hp. exfalso. cbn [parse] in Hp.
      rewrite (proj2 (Z.eqb_neq _ 4)), (proj2 (Z.eqb_neq _ 6)) in Hp by done. done.
Qed.

(** ** A sample *)

Lemma dscp_marked_witness :
  exists out, apply_dscp ping 46 = Ok (out, true) /\ parse out = parse ping /\ idx out 1 = Ok 184 /\ compute_checksum (take 20 out) = Ok 0.
Proof.
  assert (Hb : bytes_ok ping) by (by apply bytes_ok_check). pose proof (dscp_marked ping 46 Hb ltac:(done)) as H.
  destruct (apply_dscp ping 46) as [[out ok]| |] eqn:E; [|by vm_compute in E..]. exists out. destruct H as (Hp & _).
  assert (E2 := E). vm_compute in E2. injection E2 as <- <-. split_and!; done.
Defined.

Definition limited : ClientConfig :=
  set_qos {| bandwidth_limit_up := Some 0; bandwidth_limit_down := Some 1; dscp_class := Some 46; priority := None |} 0 (alice false 0).

Definition limited_host : Host :=
  {| db := {| data := {| clients := [limited]; next_host_offset := 3 |}; network_config := default_vpn_network_config;
              partition := None; last_mtime := None |}; disk := None |}.

Lemma qos_follows_db_witness :
  exists b, sync_from_db limited_host 0 ∅ !! [97] = Some b /\ dscp b = Some 46 /\ up b = None /\
    down b = Some (new_bucket 1 0) /\ (try_consume 1500 0 (new_bucket 1 0)).2 = true /\ (try_consume 1501 0 (new_bucket 1 0)).2 = false.
Proof.
  assert (Hn : NoDup (map id (list_clients limited_host))) by (apply NoDup_singleton).
  destruct (qos_follows_db limited_host 0 ∅ Hn) as [_ H].
  destruct (H limited {| bandwidth_limit_up := Some 0; bandwidth_limit_down := Some 1; dscp_class := Some 46; priority := None |}) as (b & Hb & Hd & Hu & (x & Hx & _ & ->) & _).
  - by left.
  - done.
  - exists b. split_and!; done.
Defined.
