(* ===== verification/Forwarding.v ===== *)
(** * Forwarding of packets

    What the gateway does with the packets inside the tunnel: [forward_client_data], the
    data of [process_inner_payload] and [forward_recovered_fec] of
    [gateway/packet_ingress.rs], [session_allows_client_data] and [kernel_qos_decide] of
    [gateway/kernel_offload.rs], [on_route_sync], [on_site_data] and [on_chain_forward] of
    [gateway/control_dispatch.rs], the packets of a neighbour in [pool_dialer.rs], and the
    choices of [tun_read_loop] and [downlink_worker] of [gateway/data_plane.rs]. The
    theorems: clients send with their own address and reach each other only if that is
    allowed, packets for a site go to that site only, and answers find their way back. *)

From S2P Require Import Prelude Collections IpAddr NetworkConfig Crypto Session SessionReplay SessionTags SessionManager SessionIndex.
From S2P Require Import ClientDb IpPacket Icmp Qos SiteRoutes ExitRouting.
Import Session (vpn_ip, client_id).
Local Open Scope Z_scope.

Module QosGate.
Inductive t : Type := PassCharged | Drop | Userspace.
End QosGate.

Section Forwarding.
Context {PR : Primitives} {HI : HashIter}.

(** ** The gateway *)

Record Plane : Type := {
  network : VpnNetworkConfig;
  allow_peer_routing : bool;
  exit_node_enabled : bool;
  require_node_enrollment : bool;
  mtls_config_required : bool;
  manager : Manager;
  client_db : option Host;
  enforcer : Enforcer;
  sites : SiteState;
  exits : Exits;
  exit_cache : gmap Z (option bytes);
  reverse : ReverseRoutes;
}.

Definition with_manager (m : Manager) (p : Plane) : Plane :=
  {| network := network p; allow_peer_routing := allow_peer_routing p; exit_node_enabled := exit_node_enabled p;
     require_node_enrollment := require_node_enrollment p; mtls_config_required := mtls_config_required p; manager := m;
     client_db := client_db p; enforcer := enforcer p; sites := sites p; exits := exits p; exit_cache := exit_cache p;
     reverse := reverse p |}.

Definition with_enforcer (e : Enforcer) (p : Plane) : Plane :=
  {| network := network p; allow_peer_routing := allow_peer_routing p; exit_node_enabled := exit_node_enabled p;
     require_node_enrollment := require_node_enrollment p; mtls_config_required := mtls_config_required p; manager := manager p;
     client_db := client_db p; enforcer := e; sites := sites p; exits := exits p; exit_cache := exit_cache p;
     reverse := reverse p |}.

Definition with_cache (c : gmap Z (option bytes)) (p : Plane) : Plane :=
  {| network := network p; allow_peer_routing := allow_peer_routing p; exit_node_enabled := exit_node_enabled p;
     require_node_enrollment := require_node_enrollment p; mtls_config_required := mtls_config_required p; manager := manager p;
     client_db := client_db p; enforcer := enforcer p; sites := sites p; exits := exits p; exit_cache := c;
     reverse := reverse p |}.

Definition with_reverse (r : ReverseRoutes) (p : Plane) : Plane :=
  {| network := network p; allow_peer_routing := allow_peer_routing p; exit_node_enabled := exit_node_enabled p;
     require_node_enrollment := require_node_enrollment p; mtls_config_required := mtls_config_required p; manager := manager p;
     client_db := client_db p; enforcer := enforcer p; sites := sites p; exits := exits p; exit_cache := exit_cache p;
     reverse := r |}.

(** The clocks when a packet is handled, the answer of the kernel to [qos_charge] (a code or
    an error number) if it accelerates the tunnel, and whether the queue of a dialled
    session takes a message. *)
Record Moment : Type := {
  unix_ms : Z;
  date : Z;
  instant : Z;
  qos_charge : option (bytes -> Z -> Z -> Z + Z);
  accepts : bytes -> bool;
}.

(** ** Who may send *)

Definition inner_client_ipv4 (cfg : VpnNetworkConfig) (address : IpAddr) : option Ipv4Addr :=
  match address with V4 ip => Some ip | V6 ip => client_ip_for_ipv6 cfg ip end.

Definition session_for_inner_ip (address : IpAddr) (p : Plane) : Plane * option bytes :=
  match inner_client_ipv4 (network p) address with
  | Some ip => let '(m, s) := get_session_by_vpn_ip (manager p) ip in (with_manager m p, s)
  | None => (p, None)
  end.

Definition session_allows_source (cfg : VpnNetworkConfig) (s : Session) (address : IpAddr) : bool :=
  match address with
  | V4 ip => allows_data_source s ip
  | V6 ip => match client_ip_for_ipv6 cfg ip with Some assigned => bool_decide (vpn_ip (identity s) = Some assigned) | None => false end
  end.

Definition device_proof_pending (i : Identity) (c : ClientConfig) : bool :=
  (one_time c || negb (bool_decide (role c = ClientRole.User)))
  && (negb (bool_decide (is_Some (verified_device_pub i))) || negb (bool_decide (verified_device_pub i = device_pubkey c))).

Definition session_allows_client_data (i : Identity) (db : option Host) (now : Z) : bool :=
  if is_masked_pool_peer i || is_site_peer i then true
  else
  match (c ← client_id i; h ← db; find_by_id c h) with
  | Some c =>
      enabled c && negb (deleted c) && match expires_at c with Some t => now <? t | None => true end && negb (device_proof_pending i c)
  | None => false
  end.

(** [refresh_mtls_gate] of the gateway and [session_allows_client_data], which come together. *)
Definition data_gate (io : Moment) (sid : bytes) (ms : Managed) (p : Plane) : Plane * bool :=
  let i := identity (session ms) in
  let required := mtls_config_required p && negb (is_masked_pool_peer i) && negb (is_site_peer i) in
  let '(s, open) := refresh_mtls_gate (session ms) required (unix_ms io) in
  (with_manager (update_session (manager p) sid (fun _ => s)) p,
   open && session_allows_client_data (identity s) (client_db p) (date io)).

(** ** The uplink *)

Definition QOS_ACCEPT : Z := 0.
Definition QOS_DROP : Z := 1.
Definition QOS_FALLBACK : Z := 2.
Definition QOS_DIR_UP : Z := 0.
Definition QOS_DIR_DOWN : Z := 1.
Definition ENOENT : Z := 2.

Definition classify_qos (code : Z) : QosGate.t :=
  if code =? QOS_ACCEPT then QosGate.PassCharged
  else if code =? QOS_DROP then QosGate.Drop
  else if code =? QOS_FALLBACK then QosGate.Userspace
  else QosGate.Drop.

Definition kernel_qos_decide (ka : option (bytes -> Z -> Z -> Z + Z)) (sid : bytes) (dir nbytes : Z) : QosGate.t :=
  match ka with
  | None => QosGate.Userspace
  | Some charge =>
      if nbytes =? 0 then QosGate.PassCharged
      else
      match charge sid dir nbytes with
      | inl code => classify_qos code
      | inr err => if err =? ENOENT then QosGate.Userspace else QosGate.Drop
      end
  end.

(** A packet with the way it went. *)
Definition forward_client_data (io : Moment) (sid payload : bytes) (force_local : bool) (p : Plane)
    : outcome (Plane * list (Egress * bytes)) :=
  match sessions (manager p) !! sid with
  | None => Ok (p, [])
  | Some ms =>
      let '(p, open) := data_gate io sid ms p in
      if negb open then Ok (p, [])
      else
      let i := identity (session ms) in
      let nbytes := Z.min (len payload) u32_max in
      let '(p, pass) :=
        match kernel_qos_decide (qos_charge io) sid QOS_DIR_UP nbytes with
        | QosGate.Drop => (p, false)
        | QosGate.PassCharged => (p, true)
        | QosGate.Userspace =>
            match client_id i with
            | Some c => let '(e, ok) := check_upstream c (len payload) (instant io) (enforcer p) in (with_enforcer e p, ok)
            | None => (p, true)
            end
        end in
      if negb pass then Ok (p, [])
      else
      let! packet :=
        match (c ← client_id i; get_dscp c (enforcer p)) with
        | Some d => omap fst (apply_dscp payload d)
        | None => Ok payload
        end in
      let '(cache, out) :=
        route_client_data (accepts io) force_local (is_site_peer i) (vpn_ip i) (client_db p) (exits p) (exit_cache p) in
      Ok (with_cache cache p, [(out, packet)])
  end.

(** The checks of the addresses of a packet that a client sends. *)
Definition addresses_allowed (ms : Managed) (header : IpPacket) (p : Plane) : Plane * bool :=
  if negb (session_allows_source (network p) (session ms) (ip_source header)) then (p, false)
  else if allow_peer_routing p then (p, true)
  else
  let '(p, peer) := session_for_inner_ip (ip_destination header) p in
  (p, negb (bool_decide (is_Some peer))).

(** [fec_recovered_len] and [forward_recovered_fec]; the [expect] does not fail, since the cut
    packet parses. *)
Definition forward_recovered_fec (io : Moment) (sid recovered : bytes) (p : Plane) : outcome (Plane * list (Egress * bytes)) :=
  let! o := parse recovered in
  match o with
  | None => Ok (p, [])
  | Some h =>
      let recovered := take (Z.to_nat (ip_length h)) recovered in
      let! o := parse recovered in
      match o, sessions (manager p) !! sid with
      | None, _ => Panic
      | _, None => Ok (p, [])
      | Some header, Some ms =>
          let '(p, ok) := addresses_allowed ms header p in
          if negb ok then Ok (p, []) else forward_client_data io sid recovered false p
      end
  end.

(** The data of [process_inner_payload]; [fec] is what the error correction of the session
    makes of the packet: an error, a packet that was there before, or a packet with one that
    it recovers. *)
Definition on_data (io : Moment) (sid payload : bytes) (fec : bytes -> outcome (option (option bytes))) (p : Plane)
    : outcome (Plane * list (Egress * bytes)) :=
  match sessions (manager p) !! sid with
  | None => Ok (p, [])
  | Some ms =>
      let '(p, open) := data_gate io sid ms p in
      if negb open then Ok (p, [])
      else
      let! o := parse payload in
      match o with
      | None => Ok (p, [])
      | Some header =>
          let! payload := slice payload 0 (ip_length header) in
          let '(p, ok) := addresses_allowed ms header p in
          if negb ok then Ok (p, [])
          else
          let! recorded := fec payload in
          match recorded with
          | None => Ok (p, [])
          | Some recovered =>
              let! (p, sent) := forward_client_data io sid payload false p in
              match recovered with
              | None => Ok (p, sent)
              | Some r => let! (p, more) := forward_recovered_fec io sid r p in Ok (p, sent ++ more)
              end
          end
      end
  end.

(** ** Other servers *)

Definition route_sync_must_be_dropped_unverified (is_masked_pool enrollment : bool) (verified : option bytes) : bool :=
  is_masked_pool && enrollment && negb (bool_decide (is_Some verified)).

(** [on_route_sync]: the commands that are run; [from] is the address of the session in text. *)
Definition on_route_sync {SJ : SiteJson} (ms : Managed) (from subnets_json : bytes) (p : Plane) : list (list bytes) :=
  let i := identity (session ms) in
  if route_sync_must_be_dropped_unverified (is_masked_pool_peer i) (require_node_enrollment p) (verified_node_id ms) then []
  else if is_site_peer i || is_masked_pool_peer i then handle_route_sync (sites p) subnets_json from (verified_node_id ms)
  else [].

(** [on_site_data]: the packet that is written to the interface. *)
Definition on_site_data (ms : Managed) (payload : bytes) (p : Plane) : outcome (option bytes) :=
  let i := identity (session ms) in
  if route_sync_must_be_dropped_unverified (is_masked_pool_peer i) (require_node_enrollment p) (verified_node_id ms) then Ok None
  else if negb (is_masked_pool_peer i) then Ok None
  else
  let! o := parse payload in
  match o with
  | None => Ok None
  | Some header =>
      if negb (source_allowed_for_node (sites p) (verified_node_id ms) (ip_source header)) then Ok None
      else let! packet := slice payload 0 (ip_length header) in Ok (Some packet)
  end.

(** The same on the side that dialled the neighbour. *)
Definition dialed_site_data (peer payload : bytes) (p : Plane) : outcome (option bytes) :=
  let! o := parse payload in
  match o with
  | None => Ok None
  | Some header =>
      if negb (source_allowed_for_endpoint (sites p) peer (ip_source header)) then Ok None
      else let! packet := slice payload 0 (ip_length header) in Ok (Some packet)
  end.

Definition on_chain_forward (io : Moment) (sid payload : bytes) (p : Plane) : outcome (Plane * list (Egress * bytes)) :=
  if negb (exit_node_enabled p) then Ok (p, [])
  else
  let! o := parse payload in
  match o, sessions (manager p) !! sid with
  | Some header, Some ms =>
      let peer := is_masked_pool_peer (identity (session ms)) in
      let allowed :=
        if peer then
          (negb (require_node_enrollment p) || bool_decide (is_Some (verified_node_id ms)))
          && match inner_client_ipv4 (network p) (ip_source header) with
             | Some ip => is_usable_host (network p) ip && negb (ip =? v_server_vpn_ip (network p))
             | None => false
             end
        else session_allows_source (network p) (session ms) (ip_source header) in
      if negb allowed then Ok (p, [])
      else
      let '(p, to_client) := if allow_peer_routing p then (p, None) else session_for_inner_ip (ip_destination header) p in
      if bool_decide (is_Some to_client) then Ok (p, [])
      else
      let p :=
        if peer then
          with_reverse (chain_reverse_route_insert (ip_source header) sid (instant io)
                          (fun id => bool_decide (is_Some (sessions (manager p) !! id))) (reverse p)) p
        else p in
      let! payload := slice payload 0 (ip_length header) in
      forward_client_data io sid payload true p
  | _, _ => Ok (p, [])
  end.

(** ** The interface and the downlink *)

Inductive TunAction : Type :=
  | EchoReply (reply : bytes)
  | ToSite (ep packet : bytes)
  | ToWorker (worker : Z) (packet : bytes)
  | TunDropped.

(** A packet that [tun_read_loop] reads; a message for a site is queued at its dialer. *)
Definition tun_packet (worker_count : Z) (buf : bytes) (p : Plane) : outcome (Plane * TunAction) :=
  let! o := parse buf in
  match o with
  | None => Ok (p, TunDropped)
  | Some header =>
      let! packet := slice buf 0 (ip_length header) in
      let! to_server :=
        if bool_decide (ip_destination header = V4 (v_server_vpn_ip (network p))) && (28 <=? len packet)
        then omap (fun protocol => protocol =? 1) (idx packet 9) else Ok false in
      if to_server then
        let! reply := build_icmp_echo_reply packet (v_server_vpn_ip (network p)) in
        Ok (p, match reply with Some r => EchoReply r | None => TunDropped end)
      else
      match site_destination_for (sites p) (ip_destination header) with
      | Some (Peer ep) => Ok (p, if bool_decide (is_Some (pool_dialer (exits p))) then ToSite ep packet else TunDropped)
      | Some Ambiguous => Ok (p, TunDropped)
      | None =>
          let '(p, sender) := if allow_peer_routing p then (p, None) else session_for_inner_ip (ip_source header) p in
          if bool_decide (is_Some sender) then Ok (p, TunDropped)
          else Ok (p, ToWorker (destination_shard header worker_count) packet)
      end
  end.

Inductive Downlink : Type := ToClient (sid : bytes) | BackTo (sid : bytes) | NoSession.

(** The session that [downlink_worker] sends a packet to, as data or as a message, with the
    checks in front of the queues and limits; [planned] for a packet that was held back. *)
Definition downlink (io : Moment) (planned : bool) (packet : bytes) (p : Plane) : outcome (Plane * Downlink) :=
  let! o := parse packet in
  match o with
  | None => Ok (p, NoSession)
  | Some header =>
      let '(p, found) := session_for_inner_ip (ip_destination header) p in
      match found with
      | None =>
          if planned then Ok (p, NoSession)
          else
          match chain_reverse_route_lookup (ip_destination header) (instant io) (reverse p) with
          | Some sid => Ok (p, if bool_decide (is_Some (sessions (manager p) !! sid)) then BackTo sid else NoSession)
          | None => Ok (p, NoSession)
          end
      | Some sid =>
          match sessions (manager p) !! sid with
          | None => Ok (p, NoSession)
          | Some ms =>
              let i := identity (session ms) in
              if kernel_faulted i || negb (session_allows_client_data i (client_db p) (date io))
                 || PacketCipher.is_initial (packet_cipher (keys (session ms))) then Ok (p, NoSession)
              else
              let '(s, open) := refresh_mtls_gate (session ms) (mtls_required i) (unix_ms io) in
              Ok (with_manager (update_session (manager p) sid (fun _ => s)) p, if open then ToClient sid else NoSession)
          end
      end
  end.

(** ** What forwarding leaves alone *)

(** What the checks of this file read of a session. *)
Definition face (ms : Managed) : option Z * option bytes * bool * bool * bool * option bytes * option bytes :=
  let i := identity (session ms) in
  (vpn_ip i, client_id i, client_admitted i, is_masked_pool_peer i, is_site_peer i, verified_device_pub i, verified_node_id ms).

Record plane_ok (p : Plane) : Prop := {
  po_manager : manager_ok (manager p);
  po_dscp : forall c b d, enforcer p !! c = Some b -> dscp b = Some d -> 0 <= d;
}.

(** [p'] differs from [p] in no configuration and in no session that the checks could see. *)
Record alike (p p' : Plane) : Prop := {
  al_network : network p' = network p;
  al_peer : allow_peer_routing p' = allow_peer_routing p;
  al_db : client_db p' = client_db p;
  al_sites : sites p' = sites p;
  al_faces : forall id, face <$> sessions (manager p') !! id = face <$> sessions (manager p) !! id;
  al_ok : plane_ok p -> plane_ok p';
  al_reverse : reverse p' = reverse p;
}.

#[local] Instance alike_refl : Reflexive alike.
Proof. by intros p; split. Qed.

#[local] Instance alike_trans : Transitive alike.
Proof.
  intros p1 p2 p3 H1 H2. split; try (etrans; [apply H2|apply H1]).
  intros H. by apply H2, H1.
Qed.

Lemma alike_lookup p p' sid ms : alike p p' -> sessions (manager p) !! sid = Some ms ->
  exists ms', sessions (manager p') !! sid = Some ms' /\ face ms' = face ms.
Proof.
  intros Ha Hs. pose proof (al_faces _ _ Ha sid) as Hf. rewrite Hs in Hf. cbn in Hf.
  destruct (sessions (manager p') !! sid) as [ms'|]; [|done]. apply (inj Some) in Hf. by exists ms'.
Qed.

Lemma face_eq ms ms' : face ms' = face ms ->
  vpn_ip (identity (session ms')) = vpn_ip (identity (session ms)) /\ routable ms' = routable ms /\
  is_masked_pool_peer (identity (session ms')) = is_masked_pool_peer (identity (session ms)) /\
  (forall db now, session_allows_client_data (identity (session ms')) db now = session_allows_client_data (identity (session ms)) db now).
Proof.
  unfold face, routable, session_allows_client_data, device_proof_pending. intros [= -> -> -> -> -> -> _]. done.
Qed.

Lemma get_vpn_sessions m ip : sessions (get_session_by_vpn_ip m ip).1 = sessions m.
Proof.
  assert (Hr : sessions (repair_vpn_ip m ip).1 = sessions m) by (unfold repair_vpn_ip; by destruct (select _ _)).
  unfold get_session_by_vpn_ip. repeat case_match; done.
Qed.

Lemma update_alike p sid ms s :
  sessions (manager p) !! sid = Some ms -> face (with_session ms s) = face ms ->
  alike p (with_manager (update_session (manager p) sid (fun _ => s)) p).
Proof.
  intros Hs Hf. split; try done.
  - intros id. cbn [manager with_manager]. unfold update_session. rewrite Hs. cbn [sessions with_sessions].
    destruct (decide (id = sid)) as [->|]; [rewrite lookup_insert_eq, Hs; cbn; by f_equal|by rewrite lookup_insert_ne].
  - intros [Hm Hd]. split; [|done]. cbn [manager with_manager]. apply update_session_ok; [done|].
    intros ms' Hs'. rewrite Hs in Hs'. injection Hs' as <-. by apply face_eq in Hf as [? _].
Qed.

Lemma gate_face ms required ts : face (with_session ms (refresh_mtls_gate (session ms) required ts).1) = face ms.
Proof. done. Qed.

Lemma data_gate_alike io sid ms p :
  sessions (manager p) !! sid = Some ms -> alike p (data_gate io sid ms p).1 /\ enforcer (data_gate io sid ms p).1 = enforcer p /\
  ((data_gate io sid ms p).2 = true -> session_allows_client_data (identity (session ms)) (client_db p) (date io) = true).
Proof.
  intros Hs. unfold data_gate. destruct (refresh_mtls_gate _ _ _) as [s open] eqn:E.
  assert (Hf : face (with_session ms s) = face ms) by (pose proof (gate_face ms (mtls_config_required p && negb (is_masked_pool_peer (identity (session ms)))
    && negb (is_site_peer (identity (session ms)))) (unix_ms io)) as H; by rewrite E in H).
  split_and!; [by apply (update_alike p sid ms)|done|]. cbn [snd]. intros [_ H]%andb_true_iff.
  apply face_eq in Hf as (_ & _ & _ & Hf). by rewrite <- Hf.
Qed.

Lemma lookup_inner_alike a p : alike p (session_for_inner_ip a p).1 /\ enforcer (session_for_inner_ip a p).1 = enforcer p.
Proof.
  unfold session_for_inner_ip. destruct (inner_client_ipv4 _ _) as [ip|]; [|by split].
  pose proof (keeps_lookup_vpn (manager p) ip) as (Hk & _). pose proof (get_vpn_sessions (manager p) ip) as Hs.
  destruct (get_session_by_vpn_ip (manager p) ip) as [m s]. cbn [fst] in *. split; [|done]. split; try done.
  - intros id. cbn [manager with_manager]. by rewrite Hs.
  - intros [Hm Hd]. split; [|done]. by apply Hk.
Qed.

(** Who holds the address that a packet names. *)
Lemma lookup_inner_spec a p : plane_ok p ->
  match (session_for_inner_ip a p).2 with
  | Some sid => exists ms ip, sessions (manager p) !! sid = Some ms /\ routable ms = true /\
      inner_client_ipv4 (network p) a = Some ip /\ vpn_ip (identity (session ms)) = Some ip
  | None => forall sid ms ip, sessions (manager p) !! sid = Some ms -> routable ms = true ->
      inner_client_ipv4 (network p) a = Some ip -> vpn_ip (identity (session ms)) <> Some ip
  end.
Proof.
  intros [Hm _]. unfold session_for_inner_ip. destruct (inner_client_ipv4 _ _) as [ip|]; [|done].
  pose proof (route_exact (manager p) ip Hm) as Hr. destruct (get_session_by_vpn_ip (manager p) ip) as [m [sid|]]; cbn [snd] in *.
  - destruct Hr as (ms & ? & ? & ?). by exists ms, ip.
  - intros sid ms ip' Hs Hro [= <-] Hv. specialize (Hr _ _ Hs Hv). congruence.
Qed.

Lemma allows_source_spec cfg s a :
  session_allows_source cfg s a = true <-> exists ip, inner_client_ipv4 cfg a = Some ip /\ vpn_ip (identity s) = Some ip.
Proof.
  unfold session_allows_source, allows_data_source, inner_client_ipv4. destruct a as [ip|ip].
  - rewrite bool_decide_eq_true. naive_solver.
  - destruct (client_ip_for_ipv6 cfg ip) as [x|]; [rewrite bool_decide_eq_true|]; naive_solver.
Qed.

(** No session holds the address. *)
Definition no_client (p : Plane) (a : IpAddr) : Prop :=
  forall sid ms ip, sessions (manager p) !! sid = Some ms -> routable ms = true ->
    inner_client_ipv4 (network p) a = Some ip -> vpn_ip (identity (session ms)) <> Some ip.

Lemma no_client_alike p p' a : alike p p' -> no_client p' a -> no_client p a.
Proof.
  intros Ha Hn sid ms ip Hs Hr Hi Hv. destruct (alike_lookup p p' sid ms Ha Hs) as (ms' & Hs' & Hf). apply face_eq in Hf as (Hv' & Hr' & _).
  apply (Hn sid ms' ip); [done|congruence|by rewrite (al_network _ _ Ha)|congruence].
Qed.

Lemma addresses_spec ms h p : plane_ok p ->
  alike p (addresses_allowed ms h p).1 /\ enforcer (addresses_allowed ms h p).1 = enforcer p /\
  ((addresses_allowed ms h p).2 = true ->
   (exists ip, inner_client_ipv4 (network p) (ip_source h) = Some ip /\ vpn_ip (identity (session ms)) = Some ip) /\
   (allow_peer_routing p = false -> no_client p (ip_destination h))).
Proof.
  intros Hp. unfold addresses_allowed. destruct (session_allows_source _ _ _) eqn:Es; [|by split_and!]. cbn [negb].
  apply allows_source_spec in Es. destruct (allow_peer_routing p); [by split_and!|].
  destruct (lookup_inner_alike (ip_destination h) p) as [Ha He]. pose proof (lookup_inner_spec (ip_destination h) p Hp) as Hl.
  destruct (session_for_inner_ip _ p) as [p' [sid|]]; cbn [fst snd] in *; by split_and!.
Qed.

Lemma check_dscp c n now e k b d :
  (check_upstream c n now e).1 !! k = Some b -> dscp b = Some d -> exists b0, e !! k = Some b0 /\ dscp b0 = Some d.
Proof.
  unfold check_upstream. destruct (e !! c) as [b0|] eqn:E; [|by exists b]. destruct (up b0); [|by exists b].
  destruct (try_consume _ _ _) as [bu ok]. cbn [fst]. destruct (decide (k = c)) as [->|]; [|rewrite lookup_insert_ne by done; by exists b].
  rewrite lookup_insert_eq. intros [= <-]. cbn. by exists b0.
Qed.

Lemma enforcer_alike e p :
  (forall k b d, e !! k = Some b -> dscp b = Some d -> exists b0, enforcer p !! k = Some b0 /\ dscp b0 = Some d) -> alike p (with_enforcer e p).
Proof.
  intros He. split; try done. intros [Hm Hd]. split; [done|]. intros k b d Hk Hb. destruct (He k b d Hk Hb) as (b0 & ? & ?). by apply (Hd k b0).
Qed.

Lemma cache_alike c p : alike p (with_cache c p).
Proof. split; try done. by intros [Hm Hd]. Qed.

Lemma route_local accepts site ip db e c : (route_client_data accepts true site ip db e c).2 = Local.
Proof. done. Qed.

(** A packet that is forwarded is the one that came, but for its class of service. *)
Lemma forward_spec io sid payload force_local p :
  plane_ok p -> bytes_ok payload ->
  safe (forward_client_data io sid payload force_local p) (fun r => alike p r.1 /\
    forall e pkt, (e, pkt) ∈ r.2 -> parse pkt = parse payload /\ len pkt = len payload /\ (force_local = true -> e = Local) /\
      exists ms, sessions (manager p) !! sid = Some ms /\ session_allows_client_data (identity (session ms)) (client_db p) (date io) = true).
Proof.
  intros Hp Hb. unfold forward_client_data. destruct (sessions (manager p) !! sid) as [ms|] eqn:Hs.
  2:{ split; [done|]. by intros e pkt ?%not_elem_of_nil. }
  destruct (data_gate_alike io sid ms p Hs) as (Ha & He & Ho). destruct (data_gate io sid ms p) as [p1 open]. cbn [fst snd] in *.
  destruct open; cbn [negb]; [|split; [done|by intros e pkt ?%not_elem_of_nil]]. specialize (Ho eq_refl).
  set (q := match kernel_qos_decide _ _ _ _ with QosGate.Drop => _ | _ => _ end).
  assert (Hq : alike p q.1).
  { subst q. destruct (kernel_qos_decide _ _ _ _); cbn [fst]; [done..|]. destruct (client_id _) as [c|]; [|done].
    destruct (check_upstream c _ _ (enforcer p1)) as [e ok] eqn:Ec. cbn [fst]. etrans; [exact Ha|]. apply enforcer_alike.
    intros k b d Hk. apply (check_dscp c (len payload) (instant io) (enforcer p1)). by rewrite Ec. }
  clearbody q. destruct q as [p2 pass]. cbn [fst] in Hq. destruct pass; cbn [negb]; [|split; [done|by intros e pkt ?%not_elem_of_nil]].
  assert (Hpkt : safe (match (c ← client_id (identity (session ms)); get_dscp c (enforcer p2)) with Some d => omap fst (apply_dscp payload d) | None => Ok payload end)
    (fun pkt => parse pkt = parse payload /\ len pkt = len payload)).
  { destruct (_ ≫= _) as [d|] eqn:Ed; [|done]. apply safe_omap. apply (safe_mono _ _ _ (dscp_marked payload d Hb ltac:(
      apply bind_Some in Ed as (c & _ & Ed); unfold get_dscp in Ed; apply bind_Some in Ed as (b & Hb' & Hd); by eapply (po_dscp p2 (al_ok _ _ Hq Hp))))).
    by intros [pkt ok] (? & ? & _). }
  apply safe_bind. apply (safe_mono _ _ _ Hpkt). intros pkt [H1 H2]. pose proof (route_local (accepts io)) as Hl.
  destruct (route_client_data _ _ _ _ _ _ _) as [cache out] eqn:Er. cbn [safe fst snd]. split; [etrans; [exact Hq|apply cache_alike]|].
  intros e pkt' [[= -> ->]|?%not_elem_of_nil]%elem_of_cons; [|done]. split_and!; try done; [|by exists ms].
  intros ->. by injection Er as <- <-.
Qed.

(** ** Clients *)

(** What a client may send: a whole packet, from the address of its session, while the
    database lets it, and to no other client unless that is allowed. *)
Definition permitted (io : Moment) (p : Plane) (sid pkt : bytes) : Prop :=
  exists ms h ip, sessions (manager p) !! sid = Some ms /\ parse pkt = Ok (Some h) /\ ip_length h = len pkt /\
    inner_client_ipv4 (network p) (ip_source h) = Some ip /\ vpn_ip (identity (session ms)) = Some ip /\
    session_allows_client_data (identity (session ms)) (client_db p) (date io) = true /\
    (allow_peer_routing p = false -> no_client p (ip_destination h)).

Lemma permitted_alike io p p' sid pkt : alike p p' -> permitted io p' sid pkt -> permitted io p sid pkt.
Proof.
  intros Ha (ms' & h & ip & Hs & Hp & Hl & Hi & Hv & Hd & Hn). pose proof (al_faces _ _ Ha sid) as Hf. rewrite Hs in Hf. cbn in Hf.
  destruct (sessions (manager p) !! sid) as [ms|] eqn:Hs0; [|done]. apply (inj Some), face_eq in Hf as (Ev & _ & _ & Ed).
  exists ms, h, ip. split_and!; try done; [by rewrite <- (al_network _ _ Ha)|congruence|by rewrite <- Ed, <- (al_db _ _ Ha)|].
  intros H. apply (no_client_alike p p' _ Ha), Hn. by rewrite (al_peer _ _ Ha).
Qed.

Lemma parse_whole l h : bytes_ok l -> parse l = Ok (Some h) ->
  let pkt := take (Z.to_nat (ip_length h)) l in
  parse pkt = Ok (Some h) /\ ip_length h = len pkt /\ bytes_ok pkt /\ slice l 0 (ip_length h) = Ok pkt.
Proof.
  intros Hb Hp pkt. pose proof (ip_parse_exact l Hb) as Hs. rewrite Hp in Hs. destruct Hs as [(Hl & _) _].
  split_and!; [|unfold pkt; rewrite length_take; lia|by apply Forall_take|].
  - rewrite <- (padding_ignored l h 0 Hb Hp). unfold zeros. cbn. by rewrite app_nil_r.
  - apply slice_Ok. split_and!; [lia..|]. by rewrite Z.sub_0_r.
Qed.

(** What a session sends after the checks of the addresses. *)
Lemma checked_forward io sid ms h pkt p :
  plane_ok p -> bytes_ok pkt -> sessions (manager p) !! sid = Some ms -> parse pkt = Ok (Some h) -> ip_length h = len pkt ->
  safe (let '(p, ok) := addresses_allowed ms h p in if negb ok then Ok (p, []) else forward_client_data io sid pkt false p)
    (fun r => alike p r.1 /\ forall e out, (e, out) ∈ r.2 -> permitted io p sid out).
Proof.
  intros Hp Hb Hs Hh Hl. destruct (addresses_spec ms h p Hp) as (Ha & _ & Hok). destruct (addresses_allowed ms h p) as [p1 ok]. cbn [fst snd] in *.
  destruct ok; cbn [negb]; [|split; [done|by intros e out ?%not_elem_of_nil]]. destruct (Hok eq_refl) as [(ip & Hi & Hv) Hn].
  apply (safe_mono _ _ _ (forward_spec io sid pkt false p1 (al_ok _ _ Ha Hp) Hb)). intros [p2 l] [H1 H2]. cbn [fst snd] in *.
  split; [by etrans|]. intros e out (Ep & El & _ & ms1 & Hs1 & Hd)%H2.
  destruct (alike_lookup p p1 sid ms Ha Hs) as (ms1' & Hs1' & Hf). rewrite Hs1' in Hs1. injection Hs1 as ->.
  apply face_eq in Hf as (_ & _ & _ & Hf). exists ms, h, ip. split_and!; try done; [by rewrite Ep|by rewrite El|by rewrite <- Hf, <- (al_db _ _ Ha)].
Qed.

Lemma recovered_spec io sid r p :
  plane_ok p -> bytes_ok r ->
  safe (forward_recovered_fec io sid r p) (fun x => alike p x.1 /\ forall e out, (e, out) ∈ x.2 -> permitted io p sid out).
Proof.
  intros Hp Hb. unfold forward_recovered_fec. pose proof (ip_parse_exact r Hb) as Hs. destruct (parse r) as [[h|]| |] eqn:Eh; cbn [obind]; try done.
  2:{ split; [done|by intros e out ?%not_elem_of_nil]. }
  destruct (parse_whole r h Hb Eh) as (Hw & Hl & Hbw & _). rewrite Hw. cbn [obind].
  destruct (sessions (manager p) !! sid) as [ms|] eqn:Hm; [|split; [done|by intros e out ?%not_elem_of_nil]].
  by apply checked_forward.
Qed.

(** C6: Clients are kept apart. Whatever bytes a session sends as data, and whatever the
    error correction recovers from them, nothing panics, and every packet that leaves is a
    whole IP packet from the address of that session, sent while the database still allows
    the client to send; and unless routing between clients is on, its destination is no
    address of any connected client, in IPv4 or IPv6. *)
Theorem clients_isolated io sid payload fec p :
  plane_ok p -> bytes_ok payload ->
  (forall l, bytes_ok l -> safe (fec l) (fun o => match o with Some (Some r) => bytes_ok r | _ => True end)) ->
  safe (on_data io sid payload fec p) (fun r => plane_ok r.1 /\ forall e pkt, (e, pkt) ∈ r.2 -> permitted io p sid pkt).
Proof.
  intros Hp Hb Hfec. unfold on_data. assert (Hnil : forall e pkt, (e, pkt) ∈ ([] : list (Egress * bytes)) -> permitted io p sid pkt) by (by intros ? ? ?%not_elem_of_nil).
  destruct (sessions (manager p) !! sid) as [ms|] eqn:Hs; [|by split].
  destruct (data_gate_alike io sid ms p Hs) as (Ha & _). destruct (data_gate io sid ms p) as [p1 open]. cbn [fst] in Ha.
  pose proof (al_ok _ _ Ha Hp) as Hp1. destruct open; cbn [negb]; [|by split].
  pose proof (ip_parse_exact payload Hb) as Hx. destruct (parse payload) as [[h|]| |] eqn:Eh; cbn [obind]; try done.
  destruct (parse_whole payload h Hb Eh) as (Hw & Hl & Hbw & ->). cbn [obind]. set (pkt := take _ payload) in *.
  destruct (alike_lookup p p1 sid ms Ha Hs) as (ms1 & Hs1 & Hf1).
  assert (Hadd : addresses_allowed ms h p1 = addresses_allowed ms1 h p1).
  { unfold addresses_allowed, session_allows_source, allows_data_source. by destruct (face_eq _ _ Hf1) as (-> & _). }
  rewrite Hadd. pose proof (checked_forward io sid ms1 h pkt p1 Hp1 Hbw Hs1 Hw Hl) as Hc.
  destruct (addresses_spec ms1 h p1 Hp1) as (Ha2 & _). destruct (addresses_allowed ms1 h p1) as [p2 ok]. cbn [fst] in Ha2.
  destruct ok; cbn [negb] in *; [|split; [by apply (al_ok _ _ Ha2)|done]].
  apply safe_bind. apply (safe_mono _ _ _ (Hfec pkt Hbw)). intros [recovered|]; [|intros _; split; [by apply (al_ok _ _ Ha2)|done]]. intros Hr.
  apply safe_bind. apply (safe_mono _ _ _ Hc). intros [p3 sent] [Ha3 Hsent]. cbn [fst snd] in *. pose proof (al_ok _ _ Ha3 Hp1) as Hp3.
  assert (Hall : forall e out, (e, out) ∈ sent -> permitted io p sid out) by (intros e out Ho; apply (permitted_alike io p p1 _ _ Ha); by eapply Hsent).
  destruct recovered as [r|]; [|by split].
  apply safe_bind. apply (safe_mono _ _ _ (recovered_spec io sid r p3 Hp3 Hr)). intros [p4 more] [Ha4 Hmore]. cbn [safe fst snd] in *.
  split; [by apply (al_ok _ _ Ha4)|]. intros e out [Ho|Ho]%elem_of_app; [by eapply Hall|].
  apply (permitted_alike io p p3); [by etrans|]. by eapply Hmore.
Qed.

(** ** The interface *)

Definition neighbours (p : Plane) : list SitePeerConfig := match site_config (sites p) with Some c => site_peers c | None => [] end.

Lemma site_destination_spec p dst : site_destination_for (sites p) dst = longest_prefix (neighbours p) dst.
Proof. unfold site_destination_for, neighbours. destruct (site_config (sites p)); [apply site_destination_lpm|done]. Qed.

(** What becomes of a packet from the interface. *)
Definition routed (p : Plane) (count : Z) (h : IpPacket) (pkt : bytes) (a : TunAction) : Prop :=
  let server := v_server_vpn_ip (network p) in
  match a with
  | EchoReply reply => ip_destination h = V4 server /\ answers pkt server reply
  | ToSite ep x => x = pkt /\ longest_prefix (neighbours p) (ip_destination h) = Some (Peer ep)
  | ToWorker i x => x = pkt /\ longest_prefix (neighbours p) (ip_destination h) = None /\ 0 <= i < Z.max 1 count /\
      i = destination_shard h count /\ (allow_peer_routing p = false -> no_client p (ip_source h))
  | TunDropped => ip_destination h = V4 server \/ is_Some (longest_prefix (neighbours p) (ip_destination h)) \/
      allow_peer_routing p = false /\ ~ no_client p (ip_source h)
  end.

(** C22: A packet from the interface goes where it belongs. No bytes make the reader panic,
    and what is no whole packet is dropped. A packet for a site goes to the neighbour of the
    longest prefix and never to a client; an ambiguous one goes nowhere. A packet reaches
    the workers only if no site claims it and, unless routing between clients is on, if it
    comes from no connected client; the worker depends on the destination alone. A ping to
    the gateway is answered, and nothing is dropped without one of these reasons. *)
Theorem interface_routed count buf p :
  plane_ok p -> bytes_ok buf -> u32_ok (v_server_vpn_ip (network p)) ->
  safe (tun_packet count buf p) (fun r => plane_ok r.1 /\
    match parse buf with Ok (Some h) => routed p count h (take (Z.to_nat (ip_length h)) buf) r.2 | _ => r.2 = TunDropped end).
Proof.
  intros Hp Hb Hu. unfold tun_packet. pose proof (ip_parse_exact buf Hb) as Hx. destruct (parse buf) as [[h|]| |] eqn:Eh; cbn [obind]; try done.
  destruct Hx as [Hok _]. destruct (parse_whole buf h Hb Eh) as (Hw & Hl & Hbw & ->). cbn [obind]. set (pkt := take _ buf) in *.
  apply safe_bind. set (g := _ && _) in *.
  assert (Hsrv : safe (if g then omap (fun protocol => protocol =? 1) (idx pkt 9) else Ok false) (fun b => b = true -> ip_destination h = V4 (v_server_vpn_ip (network p)))).
  { subst g. destruct (bool_decide _) eqn:Ed; [|done]. apply bool_decide_eq_true_1 in Ed. cbn [andb]. destruct (Z.leb_spec 28 (len pkt)); [|done].
    apply safe_omap, safe_idx; [lia|]. done. }
  apply (safe_mono _ _ _ Hsrv). intros [|] Ht; [specialize (Ht eq_refl)|].
  - apply safe_bind. apply (safe_mono _ _ _ (echo_reply_valid pkt _ Hbw Hu)). intros [reply|] Ha; cbn; split; try done. by left.
  - rewrite site_destination_spec. destruct (longest_prefix (neighbours p) (ip_destination h)) as [[ep|]|] eqn:El.
    + case_bool_decide; cbn; split; try done. right. left. by rewrite El.
    + cbn. split; [done|]. right. left. by rewrite El.
    + assert (Hsh : 0 <= destination_shard h count < Z.max 1 count) by (apply Z.mod_pos_bound; lia).
      destruct (allow_peer_routing p) eqn:Er.
      * rewrite bool_decide_eq_false_2 by (by intros []). cbn. rewrite Er. by split_and!; try apply Hsh.
      * pose proof (lookup_inner_spec (ip_source h) p Hp) as Hs. destruct (lookup_inner_alike (ip_source h) p) as [Ha _].
        destruct (session_for_inner_ip (ip_source h) p) as [p' [sid|]]; cbn [fst snd] in *.
        -- rewrite bool_decide_eq_true_2 by done. cbn. split; [by apply (al_ok _ _ Ha)|]. right. right. split; [done|]. intros Hn.
           destruct Hs as (ms & ip & H1 & H2 & H3 & H4). by apply (Hn sid ms ip).
        -- rewrite bool_decide_eq_false_2 by (by intros []). cbn. split; [by apply (al_ok _ _ Ha)|]. by split_and!; try apply Hsh.
Qed.

(** ** Neighbours *)

(** C26: What a neighbour sends enters only with an address of its own. A packet in a
    message of another server is written to the interface exactly if it is a whole IP
    packet, the session is one of the pool with a verified identity, exactly one configured
    neighbour has that identity, and exactly one of that neighbour's subnets has the longest
    prefix that contains the source; bytes that are not lead to no panic. *)
Theorem site_data_owned ms payload p :
  bytes_ok payload ->
  exists o, on_site_data ms payload p = Ok o /\
  forall pkt, o = Some pkt <->
    exists h node id peer, parse payload = Ok (Some h) /\ pkt = take (Z.to_nat (ip_length h)) payload /\
      is_masked_pool_peer (identity (session ms)) = true /\ verified_node_id ms = Some node /\ given_id (Some node) = Some id /\
      only_peer (fun q => peer_matches_node q id) (neighbours p) peer /\
      length (winners (own_hits (endpoint peer) (remote_subnets peer) (ip_source h))) = 1%nat.
Proof.
  intros Hb. unfold on_site_data, route_sync_must_be_dropped_unverified.
  destruct (is_masked_pool_peer _) eqn:Em; cbn [andb negb].
  2:{ exists None. split; [done|]. naive_solver. }
  destruct (require_node_enrollment p && negb (bool_decide (is_Some (verified_node_id ms)))) eqn:Ev.
  { exists None. split; [done|]. apply andb_true_iff in Ev as [_ Ev]. apply negb_true_iff, bool_decide_eq_false in Ev.
    intros pkt. split; [done|]. intros (h & node & id & peer & _ & _ & _ & Hn & _). destruct Ev. by exists node. }
  clear Ev. pose proof (ip_parse_exact payload Hb) as Hx. destruct (parse_total payload Hb) as [o Eh]. rewrite Eh in *. cbn [obind]. destruct o as [h|].
  2:{ exists None. split; [done|]. naive_solver. }
  destruct (parse_whole payload h Hb Eh) as (_ & _ & _ & Hsl). rewrite Hsl. cbn [obind]. unfold source_allowed_for_node, neighbours.
  assert (Hspec : match site_config (sites p) with Some c => source_allowed_for_node_in c (verified_node_id ms) (ip_source h) | None => false end = true <->
    exists id peer, given_id (verified_node_id ms) = Some id /\
      only_peer (fun q => peer_matches_node q id) (match site_config (sites p) with Some c => site_peers c | None => [] end) peer /\
      length (winners (own_hits (endpoint peer) (remote_subnets peer) (ip_source h))) = 1%nat).
  { destruct (site_config (sites p)) as [c|]; [apply site_source_exact|]. split; [done|]. by intros (id & peer & _ & Ho & _). }
  destruct (match site_config (sites p) with Some c => _ | None => false end) eqn:Ea; cbn [negb].
  - exists (Some (take (Z.to_nat (ip_length h)) payload)). split; [done|]. intros pkt. split.
    + intros [= <-]. destruct (proj1 Hspec eq_refl) as (id & peer & Hg & Ho & Hl). destruct (verified_node_id ms) as [node|]; [|done].
      by exists h, node, id, peer.
    + intros (h' & node & id & peer & [= <-] & -> & _). done.
  - exists None. split; [done|]. intros pkt. split; [done|]. intros (h' & node & id & peer & [= <-] & _ & _ & Hn & Hg & Ho & Hl).
    exfalso. assert (false = true); [|done]. apply Hspec. exists id, peer. by rewrite Hn.
Qed.

(** ** Other servers' clients *)

(** The server that forwards gets the route, unless a live one has it. *)
Lemma insert_own src sid now live r :
  routes (chain_reverse_route_insert src sid now live r) !! src = Some (sid, now) \/
  exists o t, routes r !! src = Some (o, t) /\ o <> sid /\ live o = true /\ sat_sub now t < CHAIN_REVERSE_ROUTE_TTL.
Proof.
  unfold chain_reverse_route_insert. cbn [routes].
  assert (Hkeep : forall m : gmap IpAddr (bytes * Z), m !! src = Some (sid, now) ->
    (if (insert_count r + 1) mod CHAIN_REVERSE_SWEEP_EVERY =? 0 then filter (fun e => sat_sub now e.2.2 < CHAIN_REVERSE_ROUTE_TTL) m else m) !! src = Some (sid, now)).
  { intros m Hm. destruct (_ =? 0); [|done]. apply map_lookup_filter_Some. split; [done|]. cbn. unfold sat_sub, CHAIN_REVERSE_ROUTE_TTL. lia. }
  destruct (routes r !! src) as [[o t]|] eqn:E; [|left; apply Hkeep, lookup_insert_eq].
  destruct (_ || _) eqn:Eb; [left; apply Hkeep, lookup_insert_eq|]. right. exists o, t. apply orb_false_iff in Eb as [[E1 E2]%orb_false_iff E3].
  apply bool_decide_eq_false in E1. apply Z.leb_gt in E2. apply negb_false_iff in E3. done.
Qed.

Lemma downlink_back io reply h p sid t :
  plane_ok p -> parse reply = Ok (Some h) -> no_client p (ip_destination h) -> routes (reverse p) !! ip_destination h = Some (sid, t) ->
  instant io - t < CHAIN_REVERSE_ROUTE_TTL -> is_Some (sessions (manager p) !! sid) -> exists p', downlink io false reply p = Ok (p', BackTo sid).
Proof.
  intros Hp Hr Hn Ht Hi [ms Hs]. unfold downlink. rewrite Hr. cbn [obind]. pose proof (lookup_inner_spec (ip_destination h) p Hp) as Hl.
  destruct (lookup_inner_alike (ip_destination h) p) as [Ha _]. destruct (session_for_inner_ip _ p) as [p' [x|]]; cbn [fst snd] in *.
  { destruct Hl as (ms' & ip & H1 & H2 & H3 & H4). by destruct (Hn x ms' ip). }
  unfold chain_reverse_route_lookup. rewrite (al_reverse _ _ Ha), Ht. cbn. rewrite (proj2 (Z.ltb_lt _ _)) by (unfold sat_sub, CHAIN_REVERSE_ROUTE_TTL in *; lia).
  destruct (alike_lookup p p' sid ms Ha Hs) as (ms' & Hs' & _). rewrite bool_decide_eq_true_2 by (by rewrite Hs'). by exists p'.
Qed.

Lemma reverse_alike r p : plane_ok p -> plane_ok (with_reverse r p).
Proof. by intros [Hm Hd]. Qed.

(** What another server may have forwarded, and the way back of the answers to it: they go
    to that server, or to another one that forwards for the same client. *)
Definition forwarded (io : Moment) (p : Plane) (sid pkt : bytes) (p' : Plane) : Prop :=
  exists ms h ip, sessions (manager p) !! sid = Some ms /\ parse pkt = Ok (Some h) /\ inner_client_ipv4 (network p) (ip_source h) = Some ip /\
    (allow_peer_routing p = false -> no_client p (ip_destination h)) /\
    if is_masked_pool_peer (identity (session ms)) then
      (require_node_enrollment p = true -> is_Some (verified_node_id ms)) /\
      is_usable_host (network p) ip = true /\ ip <> v_server_vpn_ip (network p) /\
      ((exists owner t, routes (reverse p) !! ip_source h = Some (owner, t) /\ owner <> sid /\ is_Some (sessions (manager p) !! owner) /\
          instant io - t < CHAIN_REVERSE_ROUTE_TTL) \/
       forall io' reply h', parse reply = Ok (Some h') -> ip_destination h' = ip_source h -> no_client p (ip_source h) ->
         instant io' - instant io < CHAIN_REVERSE_ROUTE_TTL -> exists p'', downlink io' false reply p' = Ok (p'', BackTo sid))
    else vpn_ip (identity (session ms)) = Some ip.

Lemma no_client_back p p' a : alike p p' -> no_client p a -> no_client p' a.
Proof.
  intros Ha Hn sid ms' ip Hs Hr Hi Hv. pose proof (al_faces _ _ Ha sid) as Hf. rewrite Hs in Hf. cbn in Hf.
  destruct (sessions (manager p) !! sid) as [ms|] eqn:Hs0; [|done]. apply (inj Some), face_eq in Hf as (Ev & Er & _).
  apply (Hn sid ms ip); [done|congruence|by rewrite <- (al_network _ _ Ha)|congruence].
Qed.

(** The state in which the packet of a peer is forwarded. *)
Lemma forwarded_peer io p p1 p3 sid ms h ip pkt :
  plane_ok p -> alike p p1 -> sessions (manager p) !! sid = Some ms -> is_masked_pool_peer (identity (session ms)) = true ->
  (negb (require_node_enrollment p) || bool_decide (is_Some (verified_node_id ms))) = true ->
  inner_client_ipv4 (network p) (ip_source h) = Some ip -> is_usable_host (network p) ip && negb (ip =? v_server_vpn_ip (network p)) = true ->
  (allow_peer_routing p = false -> no_client p (ip_destination h)) -> parse pkt = Ok (Some h) ->
  alike (with_reverse (chain_reverse_route_insert (ip_source h) sid (instant io)
           (fun id => bool_decide (is_Some (sessions (manager p1) !! id))) (reverse p1)) p1) p3 ->
  forwarded io p sid pkt p3.
Proof.
  intros Hp Ha Hs Em Hv Hi Hu Hn Hpkt H3. exists ms, h, ip. rewrite Em. apply andb_true_iff in Hu as [Hu1 Hu2]. apply negb_true_iff, Z.eqb_neq in Hu2.
  split_and!; try done.
  { intros Hr. rewrite Hr in Hv. by apply bool_decide_eq_true_1 in Hv. }
  set (live := fun id => bool_decide _) in H3. destruct (insert_own (ip_source h) sid (instant io) live (reverse p1)) as [E|(o & t & E & Ho & Hl & Ht)].
  - right. intros io' reply h' Hr Hd Hc Hio. assert (H1 : plane_ok p1) by (by apply (al_ok _ _ Ha)).
    set (p2 := with_reverse _ p1) in H3. assert (H2 : plane_ok p2) by (by apply reverse_alike).
    assert (Hc3 : no_client p3 (ip_source h)).
    { apply (no_client_back p2 p3); [done|]. by apply (no_client_back p p1). }
    destruct (alike_lookup p p1 sid ms Ha Hs) as (ms1 & Hs1 & _). destruct (alike_lookup p2 p3 sid ms1 H3 Hs1) as (ms3 & Hs3 & _).
    apply (downlink_back io' reply h' p3 sid (instant io)); [by apply (al_ok _ _ H3)|done|by rewrite Hd| |done|by exists ms3].
    rewrite (al_reverse _ _ H3), Hd. exact E.
  - left. exists o, t. rewrite (al_reverse _ _ Ha) in E. split_and!; try done; [|unfold sat_sub in Ht; lia].
    apply bool_decide_eq_true_1 in Hl as [ms1 Hs1]. pose proof (al_faces _ _ Ha o) as Hf. rewrite Hs1 in Hf. by destruct (sessions (manager p) !! o).
Qed.

(** Packets for other servers' clients find their way. Whatever another session hands
    over to be forwarded, nothing panics, and a packet leaves here only, if this node is an
    exit, and from an address the session may use: its own for a client, one of the tunnel's
    network for another server, whose identity is verified if that is required. An answer
    that comes back within ten minutes to an address no client here holds goes to the server
    that forwarded, unless another live one forwards for that address. *)
Theorem chain_returns io sid payload p :
  plane_ok p -> bytes_ok payload ->
  safe (on_chain_forward io sid payload p) (fun r => plane_ok r.1 /\
    forall e pkt, (e, pkt) ∈ r.2 -> e = Local /\ exit_node_enabled p = true /\ forwarded io p sid pkt r.1).
Proof.
  intros Hp Hb. unfold on_chain_forward. assert (Hnil : forall (Q : Egress -> bytes -> Prop) e pkt, (e, pkt) ∈ ([] : list (Egress * bytes)) -> Q e pkt) by (by intros ? ? ? ?%not_elem_of_nil).
  destruct (exit_node_enabled p); cbn [negb]; [|split; [done|by apply Hnil]].
  pose proof (ip_parse_exact payload Hb) as Hx. destruct (parse payload) as [[h|]| |] eqn:Eh; cbn [obind]; try done; [|split; [done|by apply Hnil]]. clear Hx.
  destruct (sessions (manager p) !! sid) as [ms|] eqn:Hs; [|split; [done|by apply Hnil]].
  destruct (parse_whole payload h Hb Eh) as (Hw & Hl & Hbw & Hsl). set (pkt := take _ payload) in *.
  match goal with |- context [if negb ?c then Ok (p, []) else _] => destruct c eqn:Eal end; cbn [negb]; [|split; [done|by apply Hnil]].
  set (q := if allow_peer_routing p then (p, None) else session_for_inner_ip (ip_destination h) p).
  assert (Hq : alike p q.1 /\ (q.2 = None -> allow_peer_routing p = false -> no_client p (ip_destination h))).
  { subst q. destruct (allow_peer_routing p); [by split|]. destruct (lookup_inner_alike (ip_destination h) p) as [Ha _].
    pose proof (lookup_inner_spec (ip_destination h) p Hp) as Hspec. split; [done|]. intros E _. by rewrite E in Hspec. }
  clearbody q. destruct q as [p1 tc]. cbn [fst snd] in Hq. destruct Hq as [Ha Hn]. pose proof (al_ok _ _ Ha Hp) as Hp1.
  destruct tc as [x|].
  { rewrite (bool_decide_eq_true_2 (is_Some (Some x))) by done. split; [done|by apply Hnil]. }
  rewrite (bool_decide_eq_false_2 (is_Some (@None bytes))) by (by intros []). specialize (Hn eq_refl). rewrite Hsl. cbn [obind].
  destruct (is_masked_pool_peer (identity (session ms))) eqn:Em.
  - apply andb_true_iff in Eal as [Hv Hu]. destruct (inner_client_ipv4 (network p) (ip_source h)) as [ip|] eqn:Hi; [|done].
    apply (safe_mono _ _ _ (forward_spec io sid pkt true _ (reverse_alike _ _ Hp1) Hbw)). intros [p3 out] [Ha3 Hout]. cbn [fst snd] in *.
    split; [by apply (al_ok _ _ Ha3), reverse_alike|]. intros e x (Hpx & _ & He & _)%Hout. split_and!; [by apply He|done|].
    apply (forwarded_peer io p p1 p3 sid ms h ip x); try done. by rewrite Hpx.
  - apply allows_source_spec in Eal as (ip & Hi & Hv).
    apply (safe_mono _ _ _ (forward_spec io sid pkt true p1 Hp1 Hbw)). intros [p3 out] [Ha3 Hout]. cbn [fst snd] in *.
    split; [by apply (al_ok _ _ Ha3)|]. intros e x (Hpx & _ & He & _)%Hout. split_and!; [by apply He|done|].
    exists ms, h, ip. rewrite Em. split_and!; try done. by rewrite Hpx.
Qed.
End Forwarding.

(** ** A sample *)

#[local] Existing Instance toy_primitives.
#[local] Existing Instance ordered_iter.

Definition sample_identity (client : bool) : Identity :=
  {| vpn_ip := if client then Some (ipv4_new 10 0 0 2) else None; client_id := if client then Some [97] else None; client_admitted := client;
     kernel_epoch := 0; kernel_faulted := false; kernel_prev_epoch := 0; is_site_peer := false; is_masked_pool_peer := negb client;
     verified_device_pub := None; mtls_ok := false; mtls_required := false; mtls_cert := None |}.

Definition sample_session (client : bool) : Managed :=
  {| session := with_identity (sample_identity client) (new_session (witness_keys 1) 0); client_addr := witness_addr; last_seen := 0;
     verified_node_id := if client then None else Some (str_bytes "branch") |}.

(** A client of the database at 10.0.0.2, and another server. *)
Definition sample_plane : Plane :=
  {| network := default_vpn_network_config; allow_peer_routing := false; exit_node_enabled := true; require_node_enrollment := true;
     mtls_config_required := false;
     manager := with_vpn {[ipv4_new 10 0 0 2 := zeros 16]}
       (with_sessions {[zeros 16 := sample_session true; replicate 16 1 := sample_session false]} witness_manager);
     client_db := Some limited_host; enforcer := {[[97] := {| up := None; down := None; dscp := Some 46 |}]}; sites := sample_state;
     exits := {| masked_exit_addr := None; pool_dialer := None |}; exit_cache := ∅;
     reverse := {| routes := ∅; insert_count := 0 |} |}.

Definition sample_moment : Moment := {| unix_ms := 500; date := 0; instant := 1; qos_charge := None; accepts := fun _ => true |}.

Lemma sample_plane_ok : plane_ok sample_plane.
Proof.
  split.
  - split; cbn.
    + intros t i. by rewrite lookup_empty.
    + intros id. rewrite lookup_empty. by intros [? ?].
    + intros ip id H. apply lookup_singleton_Some in H as [<- <-]. by eexists.
  - intros c b d. cbn [enforcer sample_plane]. intros [<- <-]%lookup_singleton_Some. cbn. by intros [= <-].
Qed.

Lemma ping_ok : bytes_ok ping.
Proof. by apply bytes_ok_check. Qed.

Lemma clients_isolated_witness :
  exists p pkt, on_data sample_moment (zeros 16) ping (fun _ => Ok (Some None)) sample_plane = Ok (p, [(Local, pkt)]) /\
    idx pkt 1 = Ok 184 /\ permitted sample_moment sample_plane (zeros 16) pkt.
Proof.
  pose proof (clients_isolated sample_moment (zeros 16) ping (fun _ => Ok (Some None)) sample_plane sample_plane_ok ping_ok ltac:(done)) as H.
  assert (E : omap (fun r => map fst r.2) (on_data sample_moment (zeros 16) ping (fun _ => Ok (Some None)) sample_plane) = Ok [Local] /\
    omap (fun r => map (fun x => idx x.2 1) r.2) (on_data sample_moment (zeros 16) ping (fun _ => Ok (Some None)) sample_plane) = Ok [Ok 184])
    by (split; vm_compute; reflexivity).
  destruct (on_data _ _ _ _ _) as [[p [|[e pkt] [|]]]| |]; cbn in E; destruct E as [E1 E2]; try done. injection E1 as ->. injection E2 as E2.
  exists p, pkt. split_and!; [done|done|]. apply (proj2 H Local pkt). by left.
Defined.

(** A packet of 20 bytes between two addresses. *)
Definition bare (src dst : Ipv4Addr) : bytes := [69; 0; 0; 20; 0; 0; 0; 0; 64; 17; 0; 0] ++ ipv4_octets src ++ ipv4_octets dst.

Lemma bare_ok src dst : bytes_ok (bare src dst).
Proof. unfold bare. rewrite !Forall_app. split_and!; [repeat (constructor; [done|]); done|apply bytes_ok_be_bytes..]. Qed.

Lemma interface_routed_witness :
  exists p, tun_packet 4 (bare (ipv4_new 10 0 0 1) (ipv4_new 10 0 0 2)) sample_plane = Ok (p, ToWorker 2 (bare (ipv4_new 10 0 0 1) (ipv4_new 10 0 0 2))) /\
    no_client sample_plane (V4 (ipv4_new 10 0 0 1)) /\
    omap snd (tun_packet 4 (bare (ipv4_new 10 0 0 2) (ipv4_new 10 0 0 3)) sample_plane) = Ok TunDropped.
Proof.
  set (b := bare (ipv4_new 10 0 0 1) (ipv4_new 10 0 0 2)).
  assert (Hu : u32_ok (v_server_vpn_ip (network sample_plane))) by (by vm_compute).
  pose proof (interface_routed 4 b sample_plane sample_plane_ok (bare_ok _ _) Hu) as H.
  assert (E : omap snd (tun_packet 4 b sample_plane) = Ok (ToWorker 2 b)) by (vm_compute; reflexivity).
  destruct (tun_packet 4 b sample_plane) as [[p a]| |]; [|done..]. cbn in E. injection E as ->. exists p. split_and!; [done| |vm_compute; reflexivity].
  destruct H as [_ H]. assert (Ep : omap (fmap ip_source) (parse b) = Ok (Some (V4 (ipv4_new 10 0 0 1)))) by (vm_compute; reflexivity).
  destruct (parse b) as [[h|]| |]; try done. cbn [omap obind fmap option_fmap option_map] in Ep. assert (Es : ip_source h = V4 (ipv4_new 10 0 0 1)) by congruence.
  rewrite <- Es. by apply H.
Defined.

Lemma site_data_owned_witness :
  on_site_data (sample_session false) (bare (ipv4_new 10 20 5 6) (ipv4_new 10 0 0 2)) sample_plane
    = Ok (Some (bare (ipv4_new 10 20 5 6) (ipv4_new 10 0 0 2))) /\
  on_site_data (sample_session false) (bare (ipv4_new 10 30 5 6) (ipv4_new 10 0 0 2)) sample_plane = Ok None.
Proof.
  destruct (site_data_owned (sample_session false) (bare (ipv4_new 10 20 5 6) (ipv4_new 10 0 0 2)) sample_plane (bare_ok _ _)) as (o & Ho & _).
  split; [|vm_compute; reflexivity]. rewrite Ho, <- Ho. vm_compute. reflexivity.
Defined.

Lemma chain_returns_witness :
  exists p pkt, on_chain_forward sample_moment (replicate 16 1) (bare (ipv4_new 10 0 0 9) (ipv4_new 1 1 1 1)) sample_plane = Ok (p, [(Local, pkt)]) /\
    forwarded sample_moment sample_plane (replicate 16 1) pkt p /\
    omap snd (downlink sample_moment false (bare (ipv4_new 1 1 1 1) (ipv4_new 10 0 0 9)) p) = Ok (BackTo (replicate 16 1)).
Proof.
  pose proof (chain_returns sample_moment (replicate 16 1) (bare (ipv4_new 10 0 0 9) (ipv4_new 1 1 1 1)) sample_plane sample_plane_ok (bare_ok _ _)) as H.
  assert (E : omap (fun r => (map fst r.2, omap snd (downlink sample_moment false (bare (ipv4_new 1 1 1 1) (ipv4_new 10 0 0 9)) r.1)))
    (on_chain_forward sample_moment (replicate 16 1) (bare (ipv4_new 10 0 0 9) (ipv4_new 1 1 1 1)) sample_plane)
    = Ok ([Local], Ok (BackTo (replicate 16 1)))) by (vm_compute; reflexivity).
  destruct (on_chain_forward _ _ _ _) as [[p [|[e pkt] [|]]]| |]; try done. cbn [omap obind map fst snd] in E. injection E as -> E.
  exists p, pkt. split_and!; [done| |exact E]. destruct H as [_ H]. by apply (H Local pkt); left.
Defined.
