(* ===== verification/IngressLimits.v ===== *)
(** * Limits on what unknown senders can cost

    [source_rates.rs], [gateway/preauth.rs] and [gateway/throttle.rs]: the rate of packets
    of every address, the time of the processor that handshakes may take, and the slots of
    sessions for expensive requests. The theorems: no address gets more than two windows'
    worth of packets into any second, the table stays bounded and a flood from other
    addresses changes nothing for the ones in it; handshakes take a tenth of one processor
    at most; and two claims of a slot are a window apart. *)

From S2P Require Import Prelude IpAddr.
Local Open Scope Z_scope.

(** Times are in nanoseconds. *)
Definition second : Z := 1000000000.

(** ** The rates of addresses *)

Record SourceRates : Type := { entries : gmap IpAddr (Z * Z); last_sweep : option Z }.

Definition no_rates : SourceRates := {| entries := ∅; last_sweep := None |}.

Definition sweep (now : Z) (r : SourceRates) : SourceRates :=
  if match last_sweep r with Some last => second <=? sat_sub now last | None => true end
  then {| entries := filter (fun e => sat_sub now e.2.2 < second) (entries r); last_sweep := Some now |}
  else r.

Definition allow (ip : IpAddr) (now capacity limit : Z) (r : SourceRates) : SourceRates * bool :=
  let full (r : SourceRates) := capacity <=? Z.of_nat (size (entries r)) in
  let unknown := negb (bool_decide (is_Some (entries r !! ip))) in
  let swept := if full r && unknown then sweep now r else r in
  if full r && unknown && full swept then (swept, false)
  else
  let '(count, since) := default (0, now) (entries swept !! ip) in
  let '(count, since) := if second <=? sat_sub now since then (0, now) else (count, since) in
  let granted := negb (limit <=? count) in
  ({| entries := <[ip := (if granted then count + 1 else count, since)]> (entries swept); last_sweep := last_sweep swept |}, granted).

Record UdpIngressRates : Type := { untrusted : SourceRates; authenticated : SourceRates }.

Definition allow_ingress (ip : IpAddr) (now capacity : Z) (limits : Z * Z) (is_authenticated : bool) (r : UdpIngressRates)
    : UdpIngressRates * bool :=
  if is_authenticated then
    let '(rates, ok) := allow ip now capacity limits.2 (authenticated r) in ({| untrusted := untrusted r; authenticated := rates |}, ok)
  else
    let '(rates, ok) := allow ip now capacity limits.1 (untrusted r) in ({| untrusted := rates; authenticated := authenticated r |}, ok).

(** ** The time for handshakes *)

Definition i128_max : Z := 2 ^ 127 - 1.
Definition sat_i128 (x : Z) : Z := Z.max (- 2 ^ 127) (Z.min i128_max x).

Definition FULL_CREDIT : Z := 100000000.

Record PreauthBudget : Type := { credit_ns : Z; updated : Z; busy : bool }.

Definition new_budget (now : Z) : PreauthBudget := {| credit_ns := FULL_CREDIT; updated := now; busy := false |}.

Definition refill (now : Z) (b : PreauthBudget) : PreauthBudget :=
  let elapsed := sat_sub now (updated b) in
  {| credit_ns := Z.min (sat_i128 (credit_ns b + elapsed / 10)) FULL_CREDIT; updated := now; busy := busy b |}.

Definition try_begin (now : Z) (b : PreauthBudget) : PreauthBudget * bool :=
  let b := refill now b in
  if busy b || (credit_ns b <=? 0) then (b, false)
  else ({| credit_ns := credit_ns b; updated := updated b; busy := true |}, true).

Definition finish (now cost : Z) (b : PreauthBudget) : PreauthBudget :=
  let b := refill now b in
  {| credit_ns := sat_i128 (credit_ns b - cost); updated := updated b; busy := false |}.

(** [PreauthLease]: [acquire], and the [drop] of the lease that started at [started]. *)
Definition acquire (now : Z) (b : PreauthBudget) : PreauthBudget * option Z :=
  let '(b, ok) := try_begin now b in (b, if ok then Some now else None).

Definition drop_lease (now started : Z) (b : PreauthBudget) : PreauthBudget := finish now (sat_sub now started) b.

(** ** Slots of sessions *)

Definition MASK_PREFERENCE_THROTTLE : Z := 2 * second.
Definition MASK_FEEDBACK_THROTTLE : Z := 5 * second.
Definition MGMT_THROTTLE : Z := 200000000.

Definition throttled (last_processed : option Z) (now window : Z) : bool :=
  match last_processed with Some last => sat_sub now last <? window | None => false end.

Definition mask_preference_throttled (last : option Z) (now : Z) : bool := throttled last now MASK_PREFERENCE_THROTTLE.
Definition mask_feedback_throttled (last : option Z) (now : Z) : bool := throttled last now MASK_FEEDBACK_THROTTLE.
Definition mgmt_throttled (last : option Z) (now : Z) : bool := throttled last now MGMT_THROTTLE.

Definition try_claim_slot (throttle : gmap bytes Z) (session_id : bytes) (now : Z) (is_throttled : option Z -> Z -> bool)
    : gmap bytes Z * bool :=
  match throttle !! session_id with
  | Some last => if is_throttled (Some last) now then (throttle, false) else (<[session_id := now]> throttle, true)
  | None => (<[session_id := now]> throttle, true)
  end.

Definition try_claim_mask_preference_slot (throttle : gmap bytes Z) (session_id : bytes) (now : Z) : gmap bytes Z * bool :=
  try_claim_slot throttle session_id now mask_preference_throttled.
Definition try_claim_mask_feedback_slot (throttle : gmap bytes Z) (session_id : bytes) (now : Z) : gmap bytes Z * bool :=
  try_claim_slot throttle session_id now mask_feedback_throttled.
Definition try_claim_mgmt_slot (throttle : gmap bytes Z) (session_id : bytes) (now : Z) : gmap bytes Z * bool :=
  try_claim_slot throttle session_id now mgmt_throttled.

(** ** Packets in a second *)

(** The packets that were let in, newest first, each with the start of its window. *)
Record Grant : Type := { g_ip : IpAddr; g_time : Z; g_window : Z }.

Section Rates.
Variables capacity limit : Z.

(** A run over packets of addresses at times. *)
Definition rate_step (st : SourceRates * list Grant) (q : IpAddr * Z) : SourceRates * list Grant :=
  let '(r, ok) := allow q.1 q.2 capacity limit st.1 in
  (r, if ok then {| g_ip := q.1; g_time := q.2; g_window := default 0 (snd <$> entries r !! q.1) |} :: st.2 else st.2).

(** The clock does not run backwards. *)
Fixpoint ordered (t : Z) (qs : list (IpAddr * Z)) : Prop :=
  match qs with [] => True | q :: qs => t <= q.2 /\ ordered q.2 qs end.

Definition in_window (ip : IpAddr) (w : Z) (g : Grant) : Prop := g_ip g = ip /\ g_window g = w.
#[local] Instance in_window_dec ip w g : Decision (in_window ip w g).
Proof. apply _. Defined.

(** At time [t]: the windows of an address are a second apart and hold [limit] packets each;
    the last one is the one in the table. *)
Record rates_ok (t : Z) (st : SourceRates * list Grant) : Prop := {
  ro_times : forall g, g ∈ st.2 -> g_window g <= g_time g < g_window g + second /\ g_time g <= t;
  ro_apart : forall g g', g ∈ st.2 -> g' ∈ st.2 -> g_ip g = g_ip g' ->
    g_window g = g_window g' \/ second <= Z.abs (g_window g - g_window g');
  ro_count : forall ip w, Z.of_nat (length (filter (in_window ip w) st.2)) <= Z.max 0 limit;
  ro_entry : forall ip n w, entries st.1 !! ip = Some (n, w) -> w <= t /\
    Z.of_nat (length (filter (in_window ip w) st.2)) <= n /\
    forall g, g ∈ st.2 -> g_ip g = ip -> g_window g = w \/ g_window g + second <= w;
  ro_gone : forall ip, entries st.1 !! ip = None -> forall g, g ∈ st.2 -> g_ip g = ip -> g_window g + second <= t;
  ro_size : Z.of_nat (size (entries st.1)) <= Z.max 0 capacity;
}.

Lemma rates_later t t' st : t <= t' -> rates_ok t st -> rates_ok t' st.
Proof.
  intros Ht [H1 H2 H3 H4 H5 H6]. split; try done.
  - intros g Hg. destruct (H1 g Hg). lia.
  - intros ip n w He. destruct (H4 _ _ _ He) as (? & ? & ?). split_and!; [lia|done..].
  - intros ip He g Hg Hi. specialize (H5 ip He g Hg Hi). lia.
Qed.

Lemma rates_sweep_ok now r log : rates_ok now (r, log) -> rates_ok now (sweep now r, log).
Proof.
  intros [H1 H2 H3 H4 H5 H6]. unfold sweep. destruct (match last_sweep r with Some _ => _ | None => _ end); [|done]. cbn [fst snd entries] in *.
  split; cbn [fst snd entries]; try done.
  - intros ip n w [He _]%map_lookup_filter_Some. by apply H4.
  - intros ip He g Hg Hi. destruct (entries r !! ip) as [[n w]|] eqn:E; [|by apply (H5 ip)].
    destruct (H4 _ _ _ E) as (_ & _ & Hw). apply map_lookup_filter_None in He as [He|He]; [congruence|]. specialize (He _ E). cbn in He.
    unfold sat_sub, second in *. destruct (Hw g Hg Hi); lia.
  - pose proof (map_subseteq_size _ _ (map_filter_subseteq (fun e : IpAddr * (Z * Z) => sat_sub now e.2.2 < second) (entries r))). lia.
Qed.

(** What is known of the window that a packet falls into. *)
Definition window_ok (now : Z) (log : list Grant) (ip : IpAddr) (n w : Z) : Prop :=
  w <= now < w + second /\ Z.of_nat (length (filter (in_window ip w) log)) <= n /\
  forall g, g ∈ log -> g_ip g = ip -> g_window g = w \/ g_window g + second <= w.

Lemma filter_none {A} (P : A -> Prop) `{!forall x, Decision (P x)} l : (forall x, x ∈ l -> ~ P x) -> filter P l = [].
Proof.
  induction l as [|x l IH]; intros Hl; [done|]. rewrite filter_cons, decide_False by (apply Hl; by left). apply IH. intros y Hy. apply Hl. by right.
Qed.

Lemma fresh_window now log ip : (forall g, g ∈ log -> g_ip g = ip -> g_window g + second <= now) -> window_ok now log ip 0 now.
Proof.
  intros H. split_and!; [unfold second; lia|unfold second; lia| |].
  - rewrite filter_none; [done|]. intros g Hg [Hi Hw]. specialize (H g Hg Hi). unfold second in H. lia.
  - intros g Hg Hi. right. by apply H.
Qed.

Lemma current_window now r log ip :
  rates_ok now (r, log) ->
  let '(n, w) := default (0, now) (entries r !! ip) in
  let '(n, w) := if second <=? sat_sub now w then (0, now) else (n, w) in window_ok now log ip n w.
Proof.
  intros [H1 H2 H3 H4 H5 H6]. cbn [fst snd] in *. destruct (entries r !! ip) as [[n w]|] eqn:E; cbn [default from_option id].
  - destruct (H4 _ _ _ E) as (Hw & Hn & Hg). destruct (Z.leb_spec second (sat_sub now w)) as [Hl|Hl]; unfold sat_sub in Hl.
    + apply fresh_window. intros g Hg' Hi. destruct (Hg g Hg' Hi); unfold second in *; lia.
    + split_and!; try done. unfold second in *. lia.
  - replace (second <=? sat_sub now now) with false by (symmetry; apply Z.leb_gt; unfold sat_sub, second; lia).
    apply fresh_window. intros g Hg Hi. by apply (H5 ip).
Qed.

Lemma size_room (m : gmap IpAddr (Z * Z)) ip x :
  Z.of_nat (size m) <= Z.max 0 capacity -> is_Some (m !! ip) \/ Z.of_nat (size m) < capacity ->
  Z.of_nat (size (<[ip := x]> m)) <= Z.max 0 capacity.
Proof.
  intros Hm Hr. rewrite map_size_insert. destruct (m !! ip); [done|]. destruct Hr as [[]|Hr]; [done|lia].
Qed.

Lemma granted_ok now r log ip n w :
  rates_ok now (r, log) -> window_ok now log ip n w -> n < limit -> (is_Some (entries r !! ip) \/ Z.of_nat (size (entries r)) < capacity) ->
  rates_ok now ({| entries := <[ip := (n + 1, w)]> (entries r); last_sweep := last_sweep r |}, {| g_ip := ip; g_time := now; g_window := w |} :: log).
Proof.
  intros [H1 H2 H3 H4 H5 H6] (Hw & Hn & Hg) Hlim Hroom. set (x := {| g_ip := ip; g_time := now; g_window := w |}).
  assert (Hfar : forall g, g ∈ log -> g_ip g = ip -> g_window x = g_window g \/ second <= Z.abs (g_window x - g_window g)).
  { intros g Hg' Hi. destruct (Hg g Hg' Hi) as [->|?]; [by left|]. right. cbn. unfold second in *. lia. }
  split; cbn [fst snd entries] in *.
  - intros g [->|Hg']%elem_of_cons; [cbn; lia|by apply H1].
  - intros g g' [->|Ha]%elem_of_cons [->|Hb]%elem_of_cons Hi; [by left|by apply Hfar| |by apply H2].
    destruct (Hfar g Ha) as [?|?]; [done|by left|right; lia].
  - intros i v. rewrite filter_cons. case_decide as D; [|apply H3]. destruct D as [Hi Hv]. cbn in Hi, Hv. subst i v. cbn [length]. lia.
  - intros i m v. destruct (decide (i = ip)) as [->|Hne].
    + rewrite lookup_insert_eq. intros [= <- <-]. split; [lia|]. rewrite filter_cons, decide_True by done. cbn [length]. split; [lia|].
      intros g [->|Hg']%elem_of_cons Hi; [by left|by apply Hg].
    + rewrite lookup_insert_ne by done. intros He. destruct (H4 _ _ _ He) as (? & ? & Hall). split; [done|].
      rewrite filter_cons, decide_False by (intros [Hi _]; cbn in Hi; congruence). split; [done|].
      intros g [->|Hg']%elem_of_cons Hi; [cbn in Hi; congruence|by apply Hall].
  - intros i He g [->|Hg']%elem_of_cons Hi.
    + cbn in Hi. subst i. by rewrite lookup_insert_eq in He.
    + destruct (decide (i = ip)) as [->|Hne]; [by rewrite lookup_insert_eq in He|]. rewrite lookup_insert_ne in He by done. by apply (H5 i).
  - by apply size_room.
Qed.

(** A packet that is refused leaves the log alone. *)
Lemma refused_ok now r log ip n w :
  rates_ok now (r, log) -> window_ok now log ip n w -> (is_Some (entries r !! ip) \/ Z.of_nat (size (entries r)) < capacity) ->
  rates_ok now ({| entries := <[ip := (n, w)]> (entries r); last_sweep := last_sweep r |}, log).
Proof.
  intros [H1 H2 H3 H4 H5 H6] (Hw & Hn & Hg) Hroom. split; cbn [fst snd entries] in *; try done; [| |by apply size_room].
  - intros i m v. destruct (decide (i = ip)) as [->|Hne]; [|rewrite lookup_insert_ne by done; by apply H4].
    rewrite lookup_insert_eq. intros [= <- <-]. split_and!; [lia|done..].
  - intros i He. destruct (decide (i = ip)) as [->|Hne]; [by rewrite lookup_insert_eq in He|]. rewrite lookup_insert_ne in He by done. by apply H5.
Qed.

Lemma lease_step_ok t st q : rates_ok t st -> t <= q.2 -> rates_ok q.2 (rate_step st q).
Proof.
  intros H Ht. apply (rates_later t q.2) in H; [|done]. destruct st as [r log], q as [ip now]. cbn [fst snd] in *.
  unfold rate_step, allow. cbn [fst snd]. set (unknown := negb (bool_decide (is_Some (entries r !! ip)))).
  set (r1 := if (capacity <=? Z.of_nat (size (entries r))) && unknown then sweep now r else r).
  assert (H1 : rates_ok now (r1, log)) by (unfold r1; destruct (_ && unknown); [by apply rates_sweep_ok|done]).
  destruct (_ && unknown && _) eqn:Ef; [done|].
  assert (Hroom : is_Some (entries r1 !! ip) \/ Z.of_nat (size (entries r1)) < capacity).
  { unfold r1 in *. destruct (capacity <=? Z.of_nat (size (entries r))) eqn:Ec; cbn [andb] in *; [|right; by apply Z.leb_gt].
    destruct unknown eqn:Eu; cbn [andb] in *; [right; by apply Z.leb_gt|left]. by apply negb_false_iff, bool_decide_eq_true_1 in Eu. }
  pose proof (current_window now r1 log ip H1) as Hw. destruct (default (0, now) (entries r1 !! ip)) as [n w].
  destruct (if second <=? sat_sub now w then (0, now) else (n, w)) as [m v]. clearbody r1.
  destruct (Z.leb_spec limit m); cbn [negb fst snd entries].
  - by apply refused_ok.
  - rewrite lookup_insert_eq. cbn. by apply granted_ok.
Qed.

Lemma lease_run_ok t st qs : rates_ok t st -> ordered t qs -> exists t', rates_ok t' (fold_left rate_step qs st).
Proof.
  revert t st. induction qs as [|q qs IH]; intros t st Hs; cbn; [by exists t|]. intros [Ht Ho]. apply (IH q.2); [by apply (lease_step_ok t)|done].
Qed.

(** A second meets two windows at most. *)
Lemma two_windows t log ip from :
  (forall r, rates_ok t (r, log) -> exists a b, forall g, g ∈ log -> g_ip g = ip -> from <= g_time g < from + second -> g_window g = a \/ g_window g = b).
Proof.
  intros r [H1 H2 _ _ _ _]. cbn [fst snd] in *. set (hits := filter (fun g => g_ip g = ip /\ from <= g_time g < from + second) log).
  assert (Hh : forall g, g ∈ hits <-> (g_ip g = ip /\ from <= g_time g < from + second) /\ g ∈ log) by (intros g; unfold hits; by rewrite list_elem_of_filter).
  destruct hits as [|x l] eqn:El.
  { exists 0, 0. intros g Hg Hi Ht. exfalso. apply (not_elem_of_nil g), Hh. done. }
  assert (Hx : x ∈ x :: l) by left. apply Hh in Hx as [[Hxi Hxt] Hx].
  destruct (decide (Exists (fun g => g_window g <> g_window x) (x :: l))) as [(y & Hy & Hne)%Exists_exists|Hall].
  - exists (g_window x), (g_window y). intros g Hg Hi Ht. apply Hh in Hy as [[Hyi Hyt] Hy]. unfold second in *.
    pose proof (H1 x Hx). pose proof (H1 y Hy). pose proof (H1 g Hg).
    pose proof (H2 x y Hx Hy ltac:(congruence)). pose proof (H2 x g Hx Hg ltac:(congruence)). pose proof (H2 y g Hy Hg ltac:(congruence)). lia.
  - exists (g_window x), (g_window x). intros g Hg Hi Ht. left. destruct (decide (g_window g = g_window x)); [done|]. destruct Hall.
    apply Exists_exists. exists g. split; [by apply Hh|done].
Qed.

Lemma filter_two {A} (P Q R : A -> Prop) `{!forall x, Decision (P x), !forall x, Decision (Q x), !forall x, Decision (R x)} l :
  (forall x, x ∈ l -> P x -> Q x \/ R x) -> (length (filter P l) <= length (filter Q l) + length (filter R l))%nat.
Proof.
  induction l as [|x l IH]; intros Hl; [done|]. specialize (IH (fun y Hy => Hl y (list_elem_of_further _ _ _ Hy))).
  rewrite !filter_cons. specialize (Hl x (list_elem_of_here _ _)). repeat case_decide; cbn [length]; try lia. naive_solver.
Qed.

(** Packets of other addresses do not touch a window that lasts. *)
Lemma other_step r log q ip n w :
  q.1 <> ip -> q.2 < w + second -> entries r !! ip = Some (n, w) -> entries (rate_step (r, log) q).1 !! ip = Some (n, w).
Proof.
  intros Hq Ht He. unfold rate_step, allow. cbn [fst snd].
  assert (Hs : forall b : bool, entries (if b then sweep q.2 r else r) !! ip = Some (n, w)).
  { intros []; [|done]. unfold sweep. destruct (match last_sweep r with Some _ => _ | None => _ end); [|done]. cbn [entries].
    apply map_lookup_filter_Some. split; [done|]. cbn. unfold sat_sub, second in *. lia. }
  destruct (_ && _ && _); [apply Hs|]. destruct (default (0, q.2) _) as [m v].
  destruct (if second <=? sat_sub q.2 v then (0, q.2) else (m, v)) as [m' v']. cbn [fst entries].
  rewrite lookup_insert_ne by done. apply Hs.
Qed.

(** C27: Nobody can flood the gateway. For packets of any addresses in any order, with a
    clock that does not run backwards, at most twice the limit of packets of one address is
    let in during any second, and the table never holds more addresses than its capacity. An
    address that is in the table with room in its window is let in, however many packets of
    other addresses came before; they do not touch its count while its window lasts. *)
Theorem flood_bounded t0 qs ip from :
  ordered t0 qs ->
  let '(r, log) := fold_left rate_step qs (no_rates, []) in
  Z.of_nat (length (filter (fun g => g_ip g = ip /\ from <= g_time g < from + second) log)) <= 2 * Z.max 0 limit /\
  Z.of_nat (size (entries r)) <= Z.max 0 capacity /\
  forall others n w now, Forall (fun q => q.1 <> ip /\ q.2 <= now) others -> now < w + second -> entries r !! ip = Some (n, w) -> n < limit ->
    let r' := (fold_left rate_step others (r, log)).1 in
    entries r' !! ip = Some (n, w) /\ (allow ip now capacity limit r').2 = true.
Proof.
  intros Ho. assert (H0 : rates_ok t0 (no_rates, [])).
  { split; cbn; try (intros; set_solver); [intros _ _; lia|rewrite map_size_empty; lia]. }
  destruct (lease_run_ok t0 _ qs H0 Ho) as [t Ht]. destruct (fold_left rate_step qs _) as [r log]. split_and!.
  - destruct (two_windows t log ip from r Ht) as (a & b & Hab). destruct Ht as [_ _ Hc _ _ _]. cbn [snd] in Hc.
    pose proof (Hc ip a). pose proof (Hc ip b).
    pose proof (filter_two (fun g => g_ip g = ip /\ from <= g_time g < from + second) (in_window ip a) (in_window ip b) log) as Hf.
    assert (Hin : forall g, g ∈ log -> g_ip g = ip /\ from <= g_time g < from + second -> in_window ip a g \/ in_window ip b g).
    { intros g Hg [Hi Hg']. destruct (Hab g Hg Hi Hg'); [left|right]; done. }
    specialize (Hf Hin). lia.
  - by destruct Ht.
  - intros others n w now Hoth Hnow He Hn. cbn zeta. assert (E : entries (fold_left rate_step others (r, log)).1 !! ip = Some (n, w)).
    { clear Ht. revert r log He. induction Hoth as [|q l [Hq Hqt] Hl IH]; intros r log He; [done|]. cbn [fold_left].
      destruct (rate_step (r, log) q) as [r' log'] eqn:Eq. apply IH. pose proof (other_step r log q ip n w Hq ltac:(lia) He) as Hs. by rewrite Eq in Hs. }
    split; [done|]. unfold allow. rewrite E. rewrite (bool_decide_eq_true_2 (is_Some (Some (n, w)))) by done. cbn [negb]. rewrite !andb_false_r. cbn [andb].
    rewrite E. cbn [default from_option id]. rewrite (proj2 (Z.leb_gt second _)) by (unfold sat_sub, second in *; lia).
    by rewrite (proj2 (Z.leb_gt limit n)).
Qed.
End Rates.

(** ** The processor *)

Inductive LeaseEvent : Type := Acquire (t : Z) | Release (t : Z).

Definition event_time (e : LeaseEvent) : Z := match e with Acquire t => t | Release t => t end.

(** The budget, the start of the lease that is out, and the time that leases took. *)
Definition lease_step (st : PreauthBudget * option Z * Z) (e : LeaseEvent) : PreauthBudget * option Z * Z :=
  let '(b, lease, spent) := st in
  match e with
  | Acquire t => let '(b, o) := acquire t b in (b, match o with Some s => Some s | None => lease end, spent)
  | Release t =>
      match lease with
      | Some s => (drop_lease t s b, None, spent + sat_sub t s)
      | None => st
      end
  end.

Fixpoint events_ordered (t : Z) (es : list LeaseEvent) : Prop :=
  match es with [] => True | e :: es => t <= event_time e /\ events_ordered (event_time e) es end.

Record budget_ok (t0 t : Z) (st : PreauthBudget * option Z * Z) : Prop := {
  bo_busy : busy st.1.1 = bool_decide (is_Some st.1.2);
  bo_time : t0 <= updated st.1.1 <= t;
  bo_credit : credit_ns st.1.1 <= FULL_CREDIT;
  bo_spent : 10 * st.2 <= 10 * FULL_CREDIT + (updated st.1.1 - t0) - 10 * credit_ns st.1.1;
  bo_debt : 0 <= credit_ns st.1.1 + st.2;
  bo_lease : match st.1.2 with Some s => t0 <= s <= t /\ 1 <= credit_ns st.1.1 /\ 0 <= st.2 <= s - t0 | None => 0 <= st.2 <= t - t0 end;
}.

Lemma refill_ok t0 t now b lease spent :
  budget_ok t0 t (b, lease, spent) -> t <= now -> now <= t0 + 2 ^ 100 -> budget_ok t0 now (refill now b, lease, spent).
Proof.
  intros [H1 H2 H3 H4 H5 H6] Ht Hn. cbn [fst snd] in *.
  assert (Hs : 0 <= spent <= 2 ^ 100) by (destruct lease; lia).
  set (e := sat_sub now (updated b) / 10). assert (He : 0 <= e /\ 10 * e <= now - updated b /\ e <= 2 ^ 100).
  { unfold e, sat_sub. rewrite Z.max_r by lia. pose proof (Z.mul_div_le (now - updated b) 10). split; [apply Z.div_pos; lia|].
    split; [lia|]. assert ((now - updated b) / 10 <= now - updated b) by (apply Z.div_le_upper_bound; lia). lia. }
  assert (Hsat : sat_i128 (credit_ns b + e) = credit_ns b + e).
  { unfold sat_i128, i128_max, FULL_CREDIT in *. assert (2 ^ 127 = 2 ^ 27 * 2 ^ 100) as -> by done. lia. }
  assert (Hr : refill now b = {| credit_ns := Z.min (credit_ns b + e) FULL_CREDIT; updated := now; busy := busy b |}) by (unfold refill; fold e; by rewrite Hsat).
  rewrite Hr. split; cbn [fst snd credit_ns updated busy]; try done; try (unfold FULL_CREDIT in *; lia).
  destruct lease; unfold FULL_CREDIT in *; lia.
Qed.

Lemma lease_drop_ok t0 t s b spent now :
  budget_ok t0 t (b, Some s, spent) -> t <= now -> now <= t0 + 2 ^ 100 ->
  budget_ok t0 now (drop_lease now s b, None, spent + sat_sub now s) /\ 1 - sat_sub now s <= credit_ns (drop_lease now s b) /\ updated (drop_lease now s b) = now.
Proof.
  intros H Ht Hn. pose proof (refill_ok t0 t now b (Some s) spent H Ht Hn) as [H1 H2 H3 H4 H5 H6]. cbn [fst snd] in *. unfold drop_lease, finish.
  set (b' := refill now b) in *. assert (Hc : sat_sub now s = now - s) by (unfold sat_sub; lia). rewrite Hc.
  assert (Hu : updated b' = now) by done.
  assert (Hsat : sat_i128 (credit_ns b' - (now - s)) = credit_ns b' - (now - s)).
  { unfold sat_i128, i128_max, FULL_CREDIT in *. assert (2 ^ 127 = 2 ^ 27 * 2 ^ 100) as -> by done. lia. }
  rewrite Hsat. split; [|split; [cbn [credit_ns]; lia|done]]. split; cbn [fst snd credit_ns updated busy]; try done; unfold FULL_CREDIT in *; lia.
Qed.

Lemma acquire_spec t0 t b lease spent now :
  budget_ok t0 t (b, lease, spent) -> t <= now -> now <= t0 + 2 ^ 100 ->
  match acquire now b with
  | (b', Some s) => s = now /\ lease = None /\ budget_ok t0 now (b', Some now, spent) /\ 10 * spent < 10 * FULL_CREDIT + (now - t0)
  | (b', None) => budget_ok t0 now (b', lease, spent) /\ (lease = None -> credit_ns (refill now b) <= 0)
  end.
Proof.
  intros H Ht Hn. pose proof (refill_ok t0 t now b lease spent H Ht Hn) as Hr. unfold acquire, try_begin.
  set (b' := refill now b) in *. assert (Hu : updated b' = now) by done. pose proof Hr as [H1 H2 H3 H4 H5 H6]. cbn [fst snd] in *. rewrite H1. destruct lease as [s|].
  - rewrite (bool_decide_eq_true_2 (is_Some (Some s))) by done. cbn [orb]. split; [done|]. done.
  - rewrite (bool_decide_eq_false_2 (is_Some (@None Z))) by (by intros []). cbn [orb]. destruct (Z.leb_spec (credit_ns b') 0); [by split|].
    split_and!; try done; [|lia]. split; cbn [fst snd credit_ns updated busy]; try done; lia.
Qed.

Lemma leases_ok t0 t st es :
  budget_ok t0 t st -> events_ordered t es -> Forall (fun e => event_time e <= t0 + 2 ^ 100) es -> exists t', t <= t' /\ Forall (fun e => event_time e <= t') es /\
    (forall m, t <= m -> Forall (fun e => event_time e <= m) es -> t' <= m) /\ budget_ok t0 t' (fold_left lease_step es st).
Proof.
  revert t st. induction es as [|e es IH]; intros t st Hs; cbn; [intros _ _; exists t; split_and!; try done; lia|].
  intros [Ht Ho] [He Hes]%Forall_cons. destruct (IH (event_time e) (lease_step st e)) as (t' & H1 & H2 & H3 & H4); [|done|done|].
  - destruct st as [[b lease] spent], e as [x|x]; cbn [lease_step event_time] in *.
    + pose proof (acquire_spec t0 t b lease spent x Hs Ht He) as Ha. destruct (acquire x b) as [b' [s|]]; [by destruct Ha as (-> & _ & ? & _)|by destruct Ha].
    + destruct lease as [s|]; [by apply (lease_drop_ok t0 t)|]. destruct Hs as [G1 G2 G3 G4 G5 G6]. split; cbn [fst snd] in *; try done; lia.
  - exists t'. split_and!; try done; [lia|by constructor|]. intros m Hm [? Hf]%Forall_cons. by apply H3.
Qed.

(** C28: Handshakes of unknown senders take a tenth of one processor. At every time, for any
    sequence of attempts that end with an error or a success after any time, a new attempt
    starts only if no other is running and all the earlier ones together took less than a
    tenth of the time since the start and another tenth of a second; and after an attempt
    the next one is let in at the latest ten times its length later. *)
Theorem handshakes_bounded t0 es :
  events_ordered t0 es -> Forall (fun e => event_time e <= t0 + 2 ^ 99) es ->
  let '(b, lease, spent) := fold_left lease_step es (new_budget t0, None, 0) in
  forall now, Forall (fun e => event_time e <= now) es -> t0 <= now <= t0 + 2 ^ 99 ->
  ((acquire now b).2 <> None -> lease = None /\ 10 * spent < 10 * FULL_CREDIT + (now - t0)) /\
  (forall s later, lease = Some s -> now + 10 * (now - s) <= later <= t0 + 2 ^ 100 -> (acquire later (drop_lease now s b)).2 = Some later).
Proof.
  intros Ho He. assert (H0 : budget_ok t0 t0 (new_budget t0, None, 0)) by (split; cbn; unfold FULL_CREDIT; try done; lia).
  assert (H99 : 2 ^ 100 = 2 * 2 ^ 99) by done.
  destruct (leases_ok t0 t0 _ es H0 Ho) as (t & _ & _ & Hleast & Hok); [eapply Forall_impl; [exact He|]; cbn; intros; lia|].
  destruct (fold_left lease_step es _) as [[b lease] spent]. intros now Hnow Hr. pose proof (Hleast now ltac:(lia) Hnow) as Htn. split.
  - pose proof (acquire_spec t0 t b lease spent now Hok Htn ltac:(lia)) as Ha. destruct (acquire now b) as [b' [s|]]; [|done].
    intros _. by destruct Ha as (_ & ? & _ & ?).
  - intros s later -> Hl. destruct (lease_drop_ok t0 t s b spent now Hok Htn ltac:(lia)) as (Hd & Hc & Hu).
    destruct Hok as [_ _ _ _ _ Hls]. cbn in Hls. assert (Hsub : sat_sub now s = now - s) by (unfold sat_sub; lia).
    pose proof (acquire_spec t0 now _ None _ later Hd ltac:(lia) ltac:(lia)) as Ha. destruct (acquire later _) as [b' [s'|]]; [by destruct Ha as (-> & _)|].
    exfalso. destruct Ha as [_ Ha]. specialize (Ha eq_refl).
    pose proof (refill_ok t0 now later _ None _ Hd ltac:(lia) ltac:(lia)) as [_ _ _ _ Hdebt _]. cbn [fst snd] in Hdebt.
    unfold refill in Ha. cbn [credit_ns] in Ha. rewrite Hu in Ha. assert (Hdiv : now - s <= sat_sub later now / 10) by (apply Z.div_le_lower_bound; unfold sat_sub; lia).
    unfold sat_i128, i128_max, FULL_CREDIT in Ha. lia.
Qed.

(** ** Slots *)

Section Slots.
Variable window : Z.

Definition slot_step (st : gmap bytes Z * list (bytes * Z)) (q : bytes * Z) : gmap bytes Z * list (bytes * Z) :=
  let '(m, ok) := try_claim_slot st.1 q.1 q.2 (fun last now => throttled last now window) in (m, if ok then q :: st.2 else st.2).

Fixpoint claims_ordered (t : Z) (qs : list (bytes * Z)) : Prop :=
  match qs with [] => True | q :: qs => t <= q.2 /\ claims_ordered q.2 qs end.

Record slots_ok (t : Z) (st : gmap bytes Z * list (bytes * Z)) : Prop := {
  so_last : forall i x, (i, x) ∈ st.2 -> exists l, st.1 !! i = Some l /\ x <= l <= t;
  so_claim : forall i l, st.1 !! i = Some l -> (i, l) ∈ st.2;
}.

(** Claims of one session, newest first, are a window apart. *)
Fixpoint spaced (log : list (bytes * Z)) : Prop :=
  match log with [] => True | q :: log => (forall x, (q.1, x) ∈ log -> x + window <= q.2) /\ spaced log end.

Lemma claim_spec t st q : slots_ok t st -> spaced st.2 -> t <= q.2 ->
  slots_ok q.2 (slot_step st q) /\ spaced (slot_step st q).2 /\
  ((slot_step st q).2 = q :: st.2 <-> forall x, (q.1, x) ∈ st.2 -> x + window <= q.2) /\
  ((slot_step st q).2 = q :: st.2 \/ (slot_step st q).2 = st.2).
Proof.
  intros [H1 H2] Hs Ht. destruct st as [m log], q as [i now]. cbn [fst snd] in *. unfold slot_step, try_claim_slot. cbn [fst snd].
  assert (Hnew : (forall x, (i, x) ∈ log -> x + window <= now) -> slots_ok now (<[i := now]> m, (i, now) :: log) /\ spaced ((i, now) :: log)).
  { intros Hall. split; [|by split]. split; cbn [fst snd].
    - intros j x [[= -> ->]|Hx]%elem_of_cons; [exists now; rewrite lookup_insert_eq; split; [done|lia]|].
      destruct (decide (j = i)) as [->|]; [|rewrite lookup_insert_ne by done; destruct (H1 _ _ Hx) as (l & ? & ?); exists l; split; [done|lia]].
      exists now. rewrite lookup_insert_eq. destruct (H1 _ _ Hx) as (l & _ & ?). split; [done|lia].
    - intros j l. destruct (decide (j = i)) as [->|]; [rewrite lookup_insert_eq; intros [= <-]; left|rewrite lookup_insert_ne by done; intros Hl; right; by apply H2]. }
  destruct (m !! i) as [last|] eqn:El; cbn [throttled].
  - pose proof (H2 _ _ El) as Hlast. destruct (H1 _ _ Hlast) as (l' & El' & Hl'). rewrite El in El'. injection El' as <-.
    destruct (Z.ltb_spec (sat_sub now last) window) as [Hw|Hw]; unfold sat_sub in Hw; cbn [snd].
    + split_and!; [|done| |by right].
      * split; cbn [fst snd]; [|done]. intros j x Hx. destruct (H1 _ _ Hx) as (l & ? & ?). exists l. split; [done|lia].
      * split; [intros E; by apply (f_equal length) in E; cbn in E; lia|]. intros Hall. specialize (Hall _ Hlast). lia.
    + assert (Hall : forall x, (i, x) ∈ log -> x + window <= now \/ window <= 0).
      { intros x Hx. destruct (H1 _ _ Hx) as (l & El2 & ?). rewrite El in El2. injection El2 as <-. destruct (decide (window <= 0)); [by right|]. left. lia. }
      assert (Hall' : forall x, (i, x) ∈ log -> x + window <= now).
      { intros x Hx. destruct (Hall x Hx); [done|]. destruct (H1 _ _ Hx) as (l & _ & ?). lia. }
      destruct (Hnew Hall'). split_and!; [done|done|by split|by left].
  - assert (Hall' : forall x, (i, x) ∈ log -> x + window <= now) by (intros x Hx; destruct (H1 _ _ Hx) as (l & El2 & _); congruence).
    destruct (Hnew Hall'). split_and!; [done|done|by split|by left].
Qed.

Lemma claims_ok t st qs : slots_ok t st -> spaced st.2 -> claims_ordered t qs ->
  exists t', (forall m, t <= m -> Forall (fun q => q.2 <= m) qs -> t' <= m) /\
    slots_ok t' (fold_left slot_step qs st) /\ spaced (fold_left slot_step qs st).2.
Proof.
  revert t st. induction qs as [|q qs IH]; intros t st Hs Hsp; cbn; [intros _; by exists t|].
  intros [Ht Ho]. destruct (claim_spec t st q Hs Hsp Ht) as (H1 & H2 & _). destruct (IH q.2 _ H1 H2 Ho) as (t' & Hm & Hr).
  exists t'. split; [|done]. intros m Htm [Hq Hqs]%Forall_cons. by apply Hm.
Qed.

(** An expensive request of a session is handled once in a window. For claims of any
    sessions in any order, with a clock that does not run backwards, two successful claims
    of one session are a window apart; and a claim fails only if the same session had one
    within the window, so that no session can take the slot of another. *)
Theorem slots_spaced t qs :
  claims_ordered t qs ->
  let '(m, log) := fold_left slot_step qs (∅, []) in
  spaced log /\
  forall i now, t <= now -> Forall (fun q => q.2 <= now) qs ->
    ((try_claim_slot m i now (fun last now => throttled last now window)).2 = true <-> forall x, (i, x) ∈ log -> x + window <= now).
Proof.
  intros Ho. assert (H0 : slots_ok t (∅, [])) by (split; cbn; [intros i x H; by apply not_elem_of_nil in H|intros i l; by rewrite lookup_empty]).
  destruct (claims_ok t _ qs H0 I Ho) as (t' & Hm & Hok & Hsp). destruct (fold_left slot_step qs _) as [m log]. split; [done|].
  intros i now Ht Hq. destruct (claim_spec t' (m, log) (i, now) Hok Hsp (Hm now Ht Hq)) as (_ & _ & Hiff & _).
  cbn [fst snd] in Hiff. rewrite <- Hiff. unfold slot_step. cbn [fst snd]. destruct (try_claim_slot _ _ _ _) as [m' [|]]; cbn [snd].
  - done.
  - split; [done|]. intros E. apply (f_equal length) in E. cbn in E. lia.
Qed.
End Slots.

(** ** Samples *)

Lemma flood_bounded_witness :
  let '(r, log) := fold_left (rate_step 4 2) [(V4 1, 0); (V4 1, 1); (V4 1, 2); (V4 2, 3)] (no_rates, []) in
  length log = 3%nat /\ Z.of_nat (length (filter (fun g => g_ip g = V4 1 /\ 0 <= g_time g < 0 + second) log)) <= 4.
Proof.
  pose proof (flood_bounded 4 2 0 [(V4 1, 0); (V4 1, 1); (V4 1, 2); (V4 2, 3)] (V4 1) 0 ltac:(cbn; lia)) as H.
  assert (E : length (fold_left (rate_step 4 2) [(V4 1, 0); (V4 1, 1); (V4 1, 2); (V4 2, 3)] (no_rates, [])).2 = 3%nat) by (vm_compute; reflexivity).
  destruct (fold_left _ _ _) as [r log]. split; [exact E|]. destruct H as [H _]. exact H.
Defined.

Lemma handshakes_bounded_witness :
  let es := [Acquire 0; Release 250000000] in
  let '(b, lease, spent) := fold_left lease_step es (new_budget 0, None, 0) in
  lease = None /\ spent = 250000000 /\ (acquire 1000000000 b).2 = None /\ (acquire 2000000000 b).2 = Some 2000000000 /\
  10 * spent < 10 * FULL_CREDIT + 2000000000.
Proof.
  set (es := [Acquire 0; Release 250000000]).
  assert (Hf : forall n, 250000000 <= n -> Forall (fun e => event_time e <= n) es) by (intros n Hn; repeat constructor; cbn; lia).
  pose proof (handshakes_bounded 0 es ltac:(cbn; lia) (Hf (0 + 2 ^ 99) ltac:(lia))) as H.
  assert (E : (let '(b, lease, spent) := fold_left lease_step es (new_budget 0, None, 0) in
    (lease, spent, (acquire 1000000000 b).2, (acquire 2000000000 b).2)) = (None, 250000000, None, Some 2000000000)) by (vm_compute; reflexivity).
  cbn zeta. destruct (fold_left lease_step es _) as [[b lease] spent]. injection E as -> -> E1 E2. split; [done|]. split; [done|]. split; [done|]. split; [done|].
  destruct (H 2000000000 (Hf 2000000000 ltac:(lia)) ltac:(lia)) as [Ha _]. destruct Ha as [_ Ha]; [by rewrite E2|]. lia.
Defined.

Lemma slots_spaced_witness :
  let '(m, log) := fold_left (slot_step MGMT_THROTTLE) [([1], 0); ([1], 5); ([2], 6)] (∅, []) in
  length log = 2%nat /\ spaced MGMT_THROTTLE log /\ (try_claim_mgmt_slot m [1] 200000000).2 = true.
Proof.
  pose proof (slots_spaced MGMT_THROTTLE 0 [([1], 0); ([1], 5); ([2], 6)] ltac:(cbn; lia)) as H.
  assert (E : (let '(m, log) := fold_left (slot_step MGMT_THROTTLE) [([1], 0); ([1], 5); ([2], 6)] (∅, []) in
    (length log, (try_claim_mgmt_slot m [1] 200000000).2)) = (2%nat, true)) by (vm_compute; reflexivity).
  destruct (fold_left _ _ _) as [m log]. injection E as E1 E2. destruct H as [H _]. done.
Defined.
