(* ===== verification/MaskCatalog.v ===== *)
(** * The catalog of masks

    [gateway/mask_catalog.rs], with the calls of [mask_store.rs] that change it: the masks
    in use, the ones that a detector took out, and the primary one. The methods work on two
    concurrent maps; each is modelled once as a whole and once as the sequence of the single
    operations on the maps, so that methods of several tasks can interleave. The theorems:
    the detectors never leave the server without a mask, a mask they take out stays out for
    its time and comes back after it, every order of the maps gives the same primary mask,
    and registering and taking out the same mask at the same time leaves it in one map. *)

From S2P Require Import Prelude Collections Text Mask.
Local Open Scope Z_scope.

Definition COMPROMISED_TTL : Z := 3600 * 1000000000.

Record MaskCatalog : Type := {
  masks : gmap bytes MaskProfile;
  compromised : gmap bytes (Z * MaskProfile);
  primary_mask_id : bytes;
}.

Definition with_masks (m : gmap bytes MaskProfile) (c : MaskCatalog) : MaskCatalog :=
  {| masks := m; compromised := compromised c; primary_mask_id := primary_mask_id c |}.
Definition with_compromised (m : gmap bytes (Z * MaskProfile)) (c : MaskCatalog) : MaskCatalog :=
  {| masks := masks c; compromised := m; primary_mask_id := primary_mask_id c |}.

Definition new_catalog : MaskCatalog := {| masks := ∅; compromised := ∅; primary_mask_id := [] |}.

Section Catalog.
Context {HI : HashIter}.

Definition set_primary_mask_id (id : bytes) (c : MaskCatalog) : MaskCatalog :=
  {| masks := masks c; compromised := compromised c; primary_mask_id := id |}.

Definition is_compromised (id : bytes) (c : MaskCatalog) : bool := bool_decide (is_Some (compromised c !! id)).

Definition register_mask (mask : MaskProfile) (c : MaskCatalog) : MaskCatalog :=
  let id := mask_id mask in
  if is_compromised id c then c
  else
  let c := with_masks (<[id := mask]> (masks c)) c in
  if is_compromised id c then with_masks (delete id (masks c)) c else c.

Definition select_fallback (current : bytes) (c : MaskCatalog) : option MaskProfile :=
  snd <$> head (filter (fun e => e.1 <> current) (hash_iter (masks c))).

Definition mark_compromised_with_fallback (id : bytes) (now : Z) (c : MaskCatalog) : MaskCatalog * option MaskProfile :=
  match select_fallback id c with
  | None => (c, None)
  | Some fallback =>
      let c := match masks c !! id with
               | Some mask => with_compromised (<[id := (now, mask)]> (compromised c)) c
               | None => c
               end in
      (with_masks (delete id (masks c)) c, Some fallback)
  end.

Definition expired (now : Z) (c : MaskCatalog) : list (bytes * MaskProfile) :=
  map (fun e => (e.1, e.2.2)) (filter (fun e => COMPROMISED_TTL <= sat_sub now e.2.1) (hash_iter (compromised c))).

Definition restore (c : MaskCatalog) (e : bytes * MaskProfile) : MaskCatalog :=
  let c := with_compromised (delete e.1 (compromised c)) c in with_masks (<[e.1 := e.2]> (masks c)) c.

Definition sweep_expired_compromised (now : Z) (c : MaskCatalog) : MaskCatalog := fold_left restore (expired now c) c.

Definition remove_mask (id : bytes) (c : MaskCatalog) : MaskCatalog := with_masks (delete id (masks c)) c.

Definition available_count (c : MaskCatalog) : Z := Z.of_nat (size (masks c)).

Definition primary_mask (c : MaskCatalog) : option MaskProfile :=
  match masks c !! primary_mask_id c with
  | Some mask => Some mask
  | None => snd <$> min_by (fun a b : bytes * MaskProfile => bytes_lt a.1 b.1) (hash_iter (masks c))
  end.

(** ** Payloads for the detectors *)

(** [slice::get(a..)] *)
Definition get_from (l : bytes) (a : Z) : option bytes := if a <=? len l then Some (drop (Z.to_nat a) l) else None.

Definition inner_l7_prefix (ip : bytes) : outcome bytes :=
  if len ip <? 20 then Ok []
  else
  let! b0 := idx ip 0 in
  if negb (Z.shiftr b0 4 =? 4) then Ok []
  else
  let ihl := Z.land b0 15 * 4 in
  if (ihl <? 20) || (len ip <? ihl) then Ok []
  else
  let! protocol := idx ip 9 in
  let! l7_off :=
    if protocol =? 17 then Ok (Some (ihl + 8))
    else if protocol =? 6 then
      match get_from ip ihl with
      | Some tcp => if 13 <=? len tcp then let! b := idx tcp 12 in Ok (Some (ihl + Z.shiftr b 4 * 4)) else Ok None
      | None => Ok None
      end
    else Ok None in
  match l7_off with
  | None => Ok []
  | Some off =>
      match get_from ip off with
      | Some l7 => slice l7 0 (Z.min (len l7) 16)
      | None => Ok []
      end
  end.

(** ** Methods that interleave *)

(** What is left of a call, in steps of one operation on one map each. *)
Inductive Task : Type :=
  | RegisterCheck (mask : MaskProfile)
  | RegisterInsert (mask : MaskProfile)
  | RegisterRecheck (id : bytes)
  | RegisterUndo (id : bytes)
  | MarkSelect (id : bytes)
  | MarkRead (id : bytes)
  | MarkInsert (id : bytes) (mask : MaskProfile)
  | MarkRemove (id : bytes)
  | SweepCollect
  | SweepForget (l : list (bytes * MaskProfile))
  | SweepInsert (id : bytes) (mask : MaskProfile) (l : list (bytes * MaskProfile))
  | RemoveMask (id : bytes).

Definition sweep_rest (l : list (bytes * MaskProfile)) : option Task := match l with [] => None | _ => Some (SweepForget l) end.

Definition task_step (now : Z) (t : Task) (c : MaskCatalog) : MaskCatalog * option Task :=
  match t with
  | RegisterCheck mask => (c, if is_compromised (mask_id mask) c then None else Some (RegisterInsert mask))
  | RegisterInsert mask => (with_masks (<[mask_id mask := mask]> (masks c)) c, Some (RegisterRecheck (mask_id mask)))
  | RegisterRecheck id => (c, if is_compromised id c then Some (RegisterUndo id) else None)
  | RegisterUndo id => (remove_mask id c, None)
  | MarkSelect id => (c, match select_fallback id c with None => None | Some _ => Some (MarkRead id) end)
  | MarkRead id => (c, match masks c !! id with Some mask => Some (MarkInsert id mask) | None => Some (MarkRemove id) end)
  | MarkInsert id mask => (with_compromised (<[id := (now, mask)]> (compromised c)) c, Some (MarkRemove id))
  | MarkRemove id => (remove_mask id c, None)
  | SweepCollect => (c, sweep_rest (expired now c))
  | SweepForget l =>
      match l with
      | [] => (c, None)
      | (id, mask) :: l => (with_compromised (delete id (compromised c)) c, Some (SweepInsert id mask l))
      end
  | SweepInsert id mask l => (with_masks (<[id := mask]> (masks c)) c, sweep_rest l)
  | RemoveMask id => (remove_mask id c, None)
  end.

(** The tasks that are under way, and a step of any one of them. *)
Inductive interleave : MaskCatalog * list Task -> MaskCatalog * list Task -> Prop :=
  | interleave_step now c c' l1 t o l2 :
      task_step now t c = (c', o) -> interleave (c, l1 ++ t :: l2) (c', l1 ++ option_list o ++ l2).

(** A task on its own. *)
Fixpoint run_task (fuel : nat) (now : Z) (t : Task) (c : MaskCatalog) : MaskCatalog :=
  match fuel with
  | O => c
  | S fuel => let '(c, o) := task_step now t c in match o with Some t => run_task fuel now t c | None => c end
  end.

(** ** The two models agree *)

Lemma run_sweep now l c fuel : (2 * length l <= fuel)%nat -> l <> [] -> run_task fuel now (SweepForget l) c = fold_left restore l c.
Proof.
  revert c fuel. induction l as [|[id mask] l IH]; intros c fuel Hf Hl; [done|]. cbn [length] in Hf. destruct fuel as [|[|fuel]]; [lia..|].
  cbn [run_task task_step fold_left]. destruct l as [|e l]; [done|]. cbn [sweep_rest]. rewrite IH by (done || lia). done.
Qed.

(** A call that is not disturbed does what the method does. *)
Lemma tasks_are_methods now c :
  (forall mask, run_task 4 now (RegisterCheck mask) c = register_mask mask c) /\
  (forall id, run_task 4 now (MarkSelect id) c = (mark_compromised_with_fallback id now c).1) /\
  (forall fuel, (2 * length (expired now c) < fuel)%nat -> run_task fuel now SweepCollect c = sweep_expired_compromised now c).
Proof.
  split_and!.
  - intros mask. cbn [run_task task_step]. unfold register_mask. destruct (is_compromised (mask_id mask) c) eqn:E; [done|].
    assert (E' : forall m, is_compromised (mask_id mask) (with_masks m c) = false) by (intros m; exact E). cbn [run_task task_step]. by rewrite !E'.
  - intros id. cbn [run_task task_step]. unfold mark_compromised_with_fallback. destruct (select_fallback id c); [|done]. cbn [run_task task_step].
    by destruct (masks c !! id).
  - intros fuel Hf. destruct fuel as [|fuel]; [lia|]. cbn [run_task task_step]. unfold sweep_expired_compromised.
    destruct (expired now c) as [|e l] eqn:E; [done|]. cbn [sweep_rest]. apply run_sweep; [lia|done].
Qed.

(** ** Calls one after another *)

Definition apart (c : MaskCatalog) : Prop := forall id, is_Some (masks c !! id) -> compromised c !! id = None.

Lemma select_fallback_spec id c :
  match select_fallback id c with
  | Some f => exists k, k <> id /\ masks c !! k = Some f
  | None => forall k, is_Some (masks c !! k) -> k = id
  end.
Proof.
  unfold select_fallback. set (l := filter _ _).
  assert (Hl : forall k f, (k, f) ∈ l <-> k <> id /\ masks c !! k = Some f).
  { intros k f. unfold l. rewrite list_elem_of_filter, elem_of_iter. done. }
  clearbody l. destruct l as [|[k f] l]; cbn.
  - intros k [f Hf]. destruct (decide (k = id)); [done|]. exfalso. apply (not_elem_of_nil (k, f)), Hl. done.
  - exists k. apply Hl. left.
Qed.

Lemma elem_expired now c id mask : (id, mask) ∈ expired now c <-> exists t, compromised c !! id = Some (t, mask) /\ COMPROMISED_TTL <= sat_sub now t.
Proof.
  unfold expired. rewrite list_elem_of_fmap. split.
  - intros ([k [t m]] & [= -> ->] & He). apply list_elem_of_filter in He as [Ht He]. apply elem_of_iter in He. by exists t.
  - intros (t & He & Ht). exists (id, (t, mask)). split; [done|]. apply list_elem_of_filter. split; [done|]. by apply elem_of_iter.
Qed.

Lemma restore_lookup l c id :
  NoDup l.*1 ->
  masks (fold_left restore l c) !! id = match (list_to_map l : gmap bytes MaskProfile) !! id with Some mask => Some mask | None => masks c !! id end /\
  compromised (fold_left restore l c) !! id = match (list_to_map l : gmap bytes MaskProfile) !! id with Some _ => None | None => compromised c !! id end.
Proof.
  revert c. induction l as [|[k mask] l IH]; intros c Hn; cbn [fold_left list_to_map foldr fst snd]; [by rewrite lookup_empty|].
  rewrite fmap_cons in Hn. apply NoDup_cons in Hn as [Hk Hn]. destruct (IH (restore c (k, mask)) Hn) as [-> ->].
  destruct (decide (id = k)) as [->|Hne].
  - change (foldr _ ∅ l) with (list_to_map (M := gmap bytes MaskProfile) l). rewrite lookup_insert_eq, not_elem_of_list_to_map_1 by done. cbn.
    by rewrite lookup_insert_eq, lookup_delete_eq.
  - change (foldr _ ∅ l) with (list_to_map (M := gmap bytes MaskProfile) l). rewrite lookup_insert_ne by done. cbn.
    by rewrite lookup_insert_ne, lookup_delete_ne by done.
Qed.

Lemma expired_NoDup now c : NoDup (expired now c).*1.
Proof.
  unfold expired. rewrite <- list_fmap_compose. cbn. pose proof (NoDup_iter (compromised c)) as H. revert H. generalize (hash_iter (compromised c)) as l.
  induction l as [|e l IH]; intros H; [constructor|]. rewrite fmap_cons in H. apply NoDup_cons in H as [He H]. rewrite filter_cons. case_decide; [|by apply IH].
  rewrite fmap_cons. apply NoDup_cons. split; [|by apply IH]. intros (x & Ex & [_ Hx]%list_elem_of_filter)%list_elem_of_fmap. apply He, list_elem_of_fmap. by exists x.
Qed.

(** What a sweep leaves of one mask. *)
Lemma sweep_spec now c id :
  let c' := sweep_expired_compromised now c in
  match compromised c !! id with
  | Some (t, mask) =>
      if COMPROMISED_TTL <=? sat_sub now t then masks c' !! id = Some mask /\ compromised c' !! id = None
      else masks c' !! id = masks c !! id /\ compromised c' !! id = Some (t, mask)
  | None => masks c' !! id = masks c !! id /\ compromised c' !! id = None
  end.
Proof.
  intros c'. destruct (restore_lookup (expired now c) c id (expired_NoDup now c)) as [Hm Hc]. subst c'. unfold sweep_expired_compromised. rewrite Hm, Hc.
  destruct ((list_to_map (expired now c) : gmap bytes MaskProfile) !! id) as [m|] eqn:E.
  - apply elem_of_list_to_map_2, elem_expired in E as (t & -> & Ht). by rewrite (proj2 (Z.leb_le _ _)).
  - destruct (compromised c !! id) as [[t mask]|] eqn:Ec; [|done]. destruct (Z.leb_spec COMPROMISED_TTL (sat_sub now t)); [|done]. exfalso.
    apply not_elem_of_list_to_map_2 in E. apply E, list_elem_of_fmap. exists (id, mask). split; [done|]. apply elem_expired. by exists t.
Qed.

Inductive CatalogCall : Type := Register (mask : MaskProfile) | Mark (id : bytes) | Sweep | SetPrimary (id : bytes).

Definition catalog_call (c : MaskCatalog) (q : CatalogCall * Z) : MaskCatalog :=
  match q.1 with
  | Register mask => register_mask mask c
  | Mark id => (mark_compromised_with_fallback id q.2 c).1
  | Sweep => sweep_expired_compromised q.2 c
  | SetPrimary id => set_primary_mask_id id c
  end.

Definition serves (c : MaskCatalog) : Prop := apart c /\ exists id, is_Some (masks c !! id).

Lemma call_serves c q : serves c -> serves (catalog_call c q).
Proof.
  intros [Ha [k Hk]]. destruct q as [[mask|id| |id] now]; unfold catalog_call; cbn [fst snd].
  - unfold register_mask, is_compromised. case_bool_decide as Hc; [by split; [|exists k]|]. cbn [compromised with_masks]. rewrite bool_decide_eq_false_2 by done.
    split; [|exists (mask_id mask); cbn; by rewrite lookup_insert_eq]. intros i. cbn. destruct (decide (i = mask_id mask)) as [->|].
    + intros _. by apply eq_None_not_Some.
    + rewrite lookup_insert_ne by done. apply Ha.
  - unfold mark_compromised_with_fallback. pose proof (select_fallback_spec id c) as Hf. destruct (select_fallback id c) as [f|]; [|by split; [|exists k]].
    destruct Hf as (j & Hj & Hf). split.
    + intros i. cbn [fst masks with_masks]. destruct (decide (i = id)) as [->|Hne]; [intros [x Hx]; destruct (masks c !! id); cbn in Hx; by rewrite lookup_delete_eq in Hx|].
      destruct (masks c !! id); cbn; rewrite lookup_delete_ne by done; intros Hi; rewrite ?lookup_insert_ne by done; by apply Ha.
    + exists j. destruct (masks c !! id); cbn; rewrite lookup_delete_ne by done; by rewrite Hf.
  - split.
    + intros i Hi. pose proof (sweep_spec now c i) as H. cbn zeta in H. destruct (compromised c !! i) as [[t m]|] eqn:E; [|by destruct H].
      destruct (_ <=? _); [by destruct H|]. destruct H as [H _]. rewrite H in Hi. specialize (Ha i Hi). congruence.
    + exists k. pose proof (sweep_spec now c k) as H. cbn zeta in H. destruct (compromised c !! k) as [[t m]|] eqn:E; [specialize (Ha k Hk); congruence|].
      destruct H as [-> _]. done.
  - by split; [|exists k].
Qed.

(** A mask that is out stays out for its time. *)
Lemma call_kept c q id t mask :
  apart c -> compromised c !! id = Some (t, mask) -> q.2 < t + COMPROMISED_TTL -> compromised (catalog_call c q) !! id = Some (t, mask).
Proof.
  intros Ha Hc Ht. assert (Hm : masks c !! id = None) by (destruct (masks c !! id) eqn:E; [rewrite (Ha id) in Hc; done|done]).
  destruct q as [[m|i| |i] now]; unfold catalog_call; cbn [fst snd] in *.
  - unfold register_mask. destruct (is_compromised _ c); [done|]. by destruct (is_compromised _ _).
  - unfold mark_compromised_with_fallback. destruct (select_fallback i c); [|done]. destruct (masks c !! i) eqn:E; [|done]. cbn.
    rewrite lookup_insert_ne by congruence. done.
  - pose proof (sweep_spec now c id) as H. cbn zeta in H. rewrite Hc in H.
    rewrite (proj2 (Z.leb_gt _ _)) in H by (unfold sat_sub, COMPROMISED_TTL in *; lia). by destruct H.
  - done.
Qed.

Lemma not_lt_trans a b c : bytes_lt b a = false -> bytes_lt c b = false -> bytes_lt c a = false.
Proof.
  intros H1 H2. destruct (bytes_lt c a) eqn:E; [|done]. destruct (bytes_lt a b) eqn:F.
  - by rewrite (bytes_lt_trans _ _ _ E F) in H2.
  - rewrite (bytes_lt_total a b F H1) in *. congruence.
Qed.

Lemma min_named (l : list (bytes * MaskProfile)) x :
  min_by (fun a b => bytes_lt a.1 b.1) l = Some x -> forall y, y ∈ l -> bytes_lt y.1 x.1 = false.
Proof.
  assert (H : forall l best, bytes_lt best.1 (min_from (fun a b : bytes * MaskProfile => bytes_lt a.1 b.1) best l).1 = false /\
    forall y, y ∈ l -> bytes_lt y.1 (min_from (fun a b : bytes * MaskProfile => bytes_lt a.1 b.1) best l).1 = false).
  { clear l. induction l as [|z l IH]; intros best; cbn [min_from]; [split; [apply bytes_lt_irrefl|by intros y ?%not_elem_of_nil]|].
    destruct (IH (if bytes_lt z.1 best.1 then z else best)) as [H1 H2].
    assert (Hz : bytes_lt best.1 (if bytes_lt z.1 best.1 then z else best).1 = false /\ bytes_lt z.1 (if bytes_lt z.1 best.1 then z else best).1 = false).
    { destruct (bytes_lt z.1 best.1) eqn:E; [|by rewrite bytes_lt_irrefl]. by rewrite bytes_lt_irrefl, (bytes_lt_asym _ _ E). }
    destruct Hz as [Hb Hz]. split; [by eapply not_lt_trans|]. intros y [->|Hy]%elem_of_cons; [by eapply not_lt_trans|by apply H2]. }
  destruct l as [|z l]; [done|]. intros [= <-]. destruct (H l z) as [H1 H2]. intros y [->|Hy]%elem_of_cons; [done|by apply H2].
Qed.

(** The primary mask is determined by the masks: the chosen one, or the one of the smallest
    name. *)
Lemma primary_spec c :
  match primary_mask c with
  | Some mask => masks c !! primary_mask_id c = Some mask \/
      masks c !! primary_mask_id c = None /\ exists id, masks c !! id = Some mask /\ forall k, is_Some (masks c !! k) -> bytes_lt k id = false
  | None => masks c = ∅
  end.
Proof.
  unfold primary_mask. destruct (masks c !! primary_mask_id c) as [m|] eqn:E; [by left|].
  destruct (min_by _ (hash_iter (masks c))) as [[id m]|] eqn:Em; cbn [fmap option_fmap option_map snd].
  - right. split; [done|]. exists id. split; [by apply min_by_elem, elem_of_iter in Em|]. intros k [x Hx].
    apply elem_of_iter in Hx. by apply (min_named _ _ Em (k, x)).
  - apply min_by_None in Em. apply map_empty. intros k. destruct (masks c !! k) as [x|] eqn:Ek; [|done].
    apply elem_of_iter in Ek. rewrite Em in Ek. by apply not_elem_of_nil in Ek.
Qed.

Lemma calls_serve c calls : serves c -> serves (fold_left catalog_call calls c).
Proof. revert c. induction calls as [|q l IH]; intros c Hc; [done|]. by apply IH, call_serves. Qed.

Lemma calls_kept c calls id t mask :
  serves c -> compromised c !! id = Some (t, mask) -> Forall (fun q => q.2 < t + COMPROMISED_TTL) calls ->
  compromised (fold_left catalog_call calls c) !! id = Some (t, mask).
Proof.
  intros Hs Hc Hq. revert c Hs Hc. induction Hq as [|q l Hq Hl IH]; intros c Hs Hc; [done|]. apply IH; [by apply call_serves|].
  apply call_kept; [by destruct Hs|done|done].
Qed.


(** ** Calls at the same time *)

Definition fresh (t : Task) : Prop := match t with RegisterCheck _ | MarkSelect _ | RemoveMask _ => True | _ => False end.
Definition sweeping (t : Task) : bool := match t with SweepCollect | SweepForget _ | SweepInsert _ _ _ => true | _ => false end.

(** The mask that a task is about to take out of use. *)
Definition takes_out (t : Task) : option bytes :=
  match t with RegisterRecheck id | RegisterUndo id | MarkRemove id => Some id | _ => None end.

Definition steps_left (t : Task) : nat :=
  match t with RegisterCheck _ | MarkSelect _ => 4 | RegisterInsert _ | MarkRead _ => 3 | RegisterRecheck _ | MarkInsert _ _ => 2 | _ => 1 end.

Definition watched (st : MaskCatalog * list Task) : Prop :=
  Forall (fun t => sweeping t = false) st.2 /\
  forall id, is_Some (masks st.1 !! id) -> is_Some (compromised st.1 !! id) -> exists t, t ∈ st.2 /\ takes_out t = Some id.

(** A step watches the masks that it puts into both maps. *)
Lemma step_watched now t c c' o id :
  task_step now t c = (c', o) -> sweeping t = false -> is_Some (masks c' !! id) -> is_Some (compromised c' !! id) ->
  (exists t', o = Some t' /\ takes_out t' = Some id) \/ is_Some (masks c !! id) /\ is_Some (compromised c !! id) /\ takes_out t <> Some id.
Proof.
  destruct t as [m|m|i|i|i|i|i m|i| |l|i m l|i]; cbn [task_step sweeping takes_out]; intros E Hs; try discriminate Hs; injection E as <- <-; cbn [masks compromised with_masks with_compromised remove_mask]; intros Hm Hc.
  - by right.
  - destruct (decide (id = mask_id m)) as [->|Hne]; [left; by eexists|]. right. rewrite lookup_insert_ne in Hm by done. done.
  - unfold is_compromised. case_bool_decide as Hb; [|right; split_and!; try done; intros [= ->]; done].
    destruct (decide (i = id)) as [->|]; [left; by eexists|]. right. split_and!; try done. congruence.
  - right. destruct (decide (id = i)) as [->|]; [rewrite lookup_delete_eq in Hm; by destruct Hm|]. rewrite lookup_delete_ne in Hm by done. split_and!; try done. congruence.
  - by right.
  - by right.
  - destruct (decide (id = i)) as [->|Hne]; [left; by eexists|]. right. rewrite lookup_insert_ne in Hc by done. done.
  - right. destruct (decide (id = i)) as [->|]; [rewrite lookup_delete_eq in Hm; by destruct Hm|]. rewrite lookup_delete_ne in Hm by done. split_and!; try done. congruence.
  - right. destruct (decide (id = i)) as [->|]; [rewrite lookup_delete_eq in Hm; by destruct Hm|]. rewrite lookup_delete_ne in Hm by done. done.
Qed.

Lemma step_kind now t c c' o : task_step now t c = (c', o) -> sweeping t = false ->
  Forall (fun t => sweeping t = false) (option_list o) /\ (sum_list_with steps_left (option_list o) < steps_left t)%nat.
Proof.
  destruct t; cbn [task_step sweeping]; intros E Hs; try discriminate Hs; injection E as <- <-; repeat case_match; cbn; split; repeat constructor; lia.
Qed.

Lemma interleave_watched st st' : interleave st st' -> watched st -> watched st' /\ (sum_list_with steps_left st'.2 < sum_list_with steps_left st.2)%nat.
Proof.
  intros [now c c' l1 t o l2 E] [Hk Hw]. cbn [fst snd] in *. apply Forall_app in Hk as [Hk1 Hk2]. apply Forall_cons in Hk2 as [Ht Hk2].
  destruct (step_kind _ _ _ _ _ E Ht) as [Ho Hm]. split; [split; cbn [fst snd]|].
  - by rewrite !Forall_app.
  - intros id H1 H2. destruct (step_watched _ _ _ _ _ id E Ht H1 H2) as [(t' & -> & Ht')|(H3 & H4 & Hne)].
    + exists t'. split; [|done]. rewrite !elem_of_app. right. left. left.
    + destruct (Hw id H3 H4) as (t' & Hin & Ht'). exists t'. split; [|done]. rewrite !elem_of_app. apply elem_of_app in Hin as [?|[->|?]%elem_of_cons]; [by left|done|by right; right].
  - rewrite !sum_list_with_app. cbn. lia.
Qed.

(** Registering a mask and taking it out at the same time leaves it in one map. However
    the single operations of any number of such calls interleave, with calls that remove
    masks as well, they come to an end, and when they have, no mask is both in use and taken
    out; until then every mask that is in both has a call under way that takes it out of
    use. *)
Theorem register_mark_race c calls n c' left :
  apart c -> Forall fresh calls -> nsteps interleave n (c, calls) (c', left) ->
  (n <= 4 * length calls)%nat /\ (left = [] -> apart c') /\
  (forall id, is_Some (masks c' !! id) -> is_Some (compromised c' !! id) -> exists t, t ∈ left /\ takes_out t = Some id).
Proof.
  intros Ha Hf Hn.
  assert (Hw : watched (c, calls)).
  { split; cbn [fst snd]; [eapply Forall_impl; [exact Hf|]; by intros []|]. intros id H1 [x Hx]. rewrite (Ha id H1) in Hx. done. }
  assert (Hb : (sum_list_with steps_left calls <= 4 * length calls)%nat).
  { clear -Hf. induction Hf as [|t l Ht Hl IH]; cbn; [lia|]. destruct t; cbn; lia. }
  assert (Hrun : forall st st' k, nsteps interleave k st st' -> watched st -> watched st' /\ (k + sum_list_with steps_left st'.2 <= sum_list_with steps_left st.2)%nat).
  { clear. intros st st' k Hk. induction Hk as [st|k st1 st2 st3 Hs Hk IH]; intros Hw; [by split|].
    destruct (interleave_watched _ _ Hs Hw) as [Hw2 Hm]. destruct (IH Hw2) as [Hw3 Hm3]. split; [done|lia]. }
  destruct (Hrun _ _ _ Hn Hw) as [[_ Hw'] Hm]. cbn [fst snd] in *. split_and!; [lia| |done].
  intros ->. intros id H1. destruct (compromised c' !! id) eqn:E; [|done]. destruct (Hw' id H1) as (t & Ht & _); [by rewrite E|]. by apply not_elem_of_nil in Ht.
Qed.
End Catalog.

(** Two servers with the same masks have the same primary mask, whatever the order of their
    maps. *)
Theorem primary_agrees (HI1 HI2 : HashIter) c1 c2 :
  masks c1 = masks c2 -> primary_mask_id c1 = primary_mask_id c2 -> primary_mask (HI := HI1) c1 = primary_mask (HI := HI2) c2.
Proof.
  intros Hm Hp. pose proof (primary_spec (HI := HI1) c1) as H1. pose proof (primary_spec (HI := HI2) c2) as H2. rewrite Hm, Hp in H1.
  destruct (primary_mask c1) as [m1|], (primary_mask c2) as [m2|]; try done.
  - destruct H1 as [H1|[N1 (i & Hi & Li)]], H2 as [H2|[N2 (j & Hj & Lj)]]; try congruence.
    assert (i = j) as -> by (apply bytes_lt_total; [apply Lj; by rewrite Hi|apply Li; by rewrite Hj]). congruence.
  - rewrite H2 in H1. destruct H1 as [H1|[_ (i & Hi & _)]]; [by rewrite lookup_empty in H1|by rewrite lookup_empty in Hi].
  - rewrite H1 in H2. destruct H2 as [H2|[_ (i & Hi & _)]]; [by rewrite lookup_empty in H2|by rewrite lookup_empty in Hi].
Qed.

(** No packet makes the sample of its payload panic, and the sample is at most 16 bytes that
    lie together in the packet. *)
Theorem l7_prefix_safe ip :
  bytes_ok ip -> safe (inner_l7_prefix ip) (fun l => len l <= 16 /\ exists a b, ip = a ++ l ++ b).
Proof.
  assert (Hnil : len (@nil Z) <= 16 /\ exists a b : bytes, ip = a ++ [] ++ b) by (split; [cbn; lia|by exists [], ip]).
  intros Hb. unfold inner_l7_prefix. safe_step; [done|]. apply safe_bind, safe_idx; [lia|]. intros b0 _ H0. specialize (H0 Hb).
  destruct (negb _); [done|]. set (ihl := Z.land b0 15 * 4). destruct (_ || _) eqn:E; [done|]. apply orb_false_iff in E as [E1 E2]. norm_bool E1. norm_bool E2.
  apply safe_bind, safe_idx; [lia|]. intros protocol _ _. apply safe_bind.
  apply (safe_mono _ (fun o => match o with Some off => 0 <= off | None => True end)).
  { destruct (protocol =? 17); [cbn; lia|]. destruct (protocol =? 6); [|done]. destruct (get_from ip ihl) as [tcp|] eqn:Et; [|done].
    safe_step; [|done]. apply safe_bind, safe_idx; [lia|]. intros b _ Hbb. cbn. unfold get_from in Et. destruct (_ <=? _); [|done]. injection Et as <-.
    specialize (Hbb (Forall_drop _ _ _ Hb)). unfold byte_ok in Hbb. rewrite Z.shiftr_div_pow2 by lia. pose proof (Z.div_pos b (2 ^ 4)). lia. }
  intros [off|] Hoff; [|done]. destruct (get_from ip off) as [l7|] eqn:El; [|done]. unfold get_from in El. destruct (_ <=? _); [|done]. injection El as <-.
  set (l7 := drop _ ip). apply safe_slice; [lia|lia|]. intros s Hs Hl _. split; [lia|]. apply slice_Ok in Hs as (_ & _ & ->).
  exists (take (Z.to_nat off) ip), (drop (Z.to_nat (Z.min (len l7) 16)) l7). rewrite Z.sub_0_r. cbn [drop Z.to_nat].
  rewrite take_drop. unfold l7. by rewrite take_drop.
Qed.

(** ** What the catalog does not promise *)

(** A mask that is removed while it is taken out is in use again after its hour. *)
Theorem removed_mask_returns {HI : HashIter} c id t mask now :
  compromised c !! id = Some (t, mask) -> t + COMPROMISED_TTL <= now ->
  masks (sweep_expired_compromised now (remove_mask id c)) !! id = Some mask.
Proof.
  intros Hc Hn. pose proof (sweep_spec now (remove_mask id c) id) as H. cbn zeta in H. change (compromised (remove_mask id c)) with (compromised c) in H.
  rewrite Hc in H. rewrite (proj2 (Z.leb_le _ _)) in H by (unfold sat_sub, COMPROMISED_TTL in *; lia). by destruct H.
Qed.

(** One step of the task at a position. *)
Definition pick {HI : HashIter} (now : Z) (st : MaskCatalog * list Task) (i : nat) : MaskCatalog * list Task :=
  match st.2 !! i with
  | Some t => let '(c, o) := task_step now t st.1 in (c, take i st.2 ++ option_list o ++ drop (S i) st.2)
  | None => st
  end.

Lemma pick_interleaves {HI : HashIter} now st i : (i < length st.2)%nat -> interleave st (pick now st i).
Proof.
  intros Hi. destruct (lookup_lt_is_Some_2 _ _ Hi) as [t Ht]. unfold pick. rewrite Ht. destruct st as [c l]. cbn [fst snd] in *.
  destruct (task_step now t c) as [c' o] eqn:E. rewrite <- (take_drop_middle l i t Ht) at 1. by apply (interleave_step now).
Qed.

(** The positions of a schedule exist. *)
Fixpoint runnable {HI : HashIter} (now : Z) (st : MaskCatalog * list Task) (sched : list nat) : bool :=
  match sched with [] => true | i :: sched => Nat.ltb i (length st.2) && runnable now (pick now st i) sched end.

Lemma schedule_runs {HI : HashIter} now st sched : runnable now st sched = true -> nsteps interleave (length sched) st (fold_left (pick now) sched st).
Proof.
  revert st. induction sched as [|i sched IH]; intros st; cbn; [constructor|]. intros [Hi%Nat.ltb_lt Hr]%andb_true_iff.
  eapply nsteps_l; [by apply (pick_interleaves now)|by apply IH].
Qed.

(** ** Samples *)

Definition plain_mask (id : bytes) : MaskProfile :=
  {| mask_id := id; spoof_protocol := SpoofProtocol.QUIC; header_template := zeros 20; eph_pub_offset := 20; eph_pub_length := 32;
     signature := zeros 64; header_spec := None; tag_offset := default_tag_offset |}.

Definition two_masks : MaskCatalog :=
  {| masks := {[[66] := plain_mask [66]]}; compromised := {[[65] := (0, plain_mask [65])]}; primary_mask_id := [65] |}.

#[local] Existing Instance ordered_iter.

Lemma two_masks_serve : serves two_masks.
Proof.
  split.
  - intros id [x Hx]. cbn in *. apply lookup_singleton_Some in Hx as [<- _]. done.
  - by exists [66].
Qed.

(** A sweep that restores a mask while another task registers it and a third one takes it
    out leaves it in both maps. *)
Theorem sweep_race :
  let calls := [SweepCollect; RegisterCheck (plain_mask [65]); MarkSelect [65]] in
  exists c, rtc interleave (two_masks, calls) (c, []) /\ is_Some (masks c !! [65]) /\ is_Some (compromised c !! [65]).
Proof.
  intros calls. set (run := fold_left (pick COMPROMISED_TTL) [0; 0; 1; 1; 1; 1; 1; 1; 1; 0]%nat (two_masks, calls)).
  assert (E : run.2 = [] /\ bool_decide (is_Some (masks run.1 !! [65])) = true /\ bool_decide (is_Some (compromised run.1 !! [65])) = true)
    by (split_and!; vm_compute; reflexivity).
  assert (Hr : rtc interleave (two_masks, calls) run) by (eapply rtc_nsteps_2, schedule_runs; vm_compute; reflexivity).
  clearbody run. destruct E as (E1 & E2%bool_decide_eq_true_1 & E3%bool_decide_eq_true_1).
  destruct run as [c l]. cbn [fst snd] in *. subst l. by exists c.
Qed.


Lemma register_mark_race_witness :
  exists c, nsteps interleave 8 (with_compromised ∅ two_masks, [RegisterCheck (plain_mask [65]); MarkSelect [65]]) (c, []) /\ apart c.
Proof.
  set (calls := [RegisterCheck (plain_mask [65]); MarkSelect [65]]). set (c0 := with_compromised ∅ two_masks).
  set (run := fold_left (pick 5) [0; 1; 0; 1; 1; 0; 0; 0]%nat (c0, calls)).
  assert (E : run.2 = []) by (vm_compute; reflexivity).
  assert (Hr : nsteps interleave 8 (c0, calls) run) by (apply (schedule_runs 5 (c0, calls) [0; 1; 0; 1; 1; 0; 0; 0]%nat); vm_compute; reflexivity).
  clearbody run. destruct run as [c l]. cbn [snd] in E. subst l. exists c. split; [exact Hr|].
  destruct (register_mark_race c0 calls 8 c []) as (_ & Ha & _); [intros id Hid; apply lookup_empty|repeat constructor|exact Hr|by apply Ha].
Defined.
