(* ===== verification/MgmtClient.v ===== *)
(** * The client of the management API

    [MgmtClient] of [mgmt.rs]: requests through the tunnel, their responses, and the role of
    the client. A call is a task that waits for the queue, for its response or for a retry,
    and that a reset of the session, its deadline or its caller ends at any time; the tasks,
    the responses and the resets are events in any order. The theorem: a call gets only a
    response to a request of its own, a request that changes something is sent once, nothing
    is sent for an old session or after the deadline, and the pace of the server is kept. *)

From S2P Require Import Prelude Protocol Pacing MgmtAccess.
Local Open Scope Z_scope.

(** Times are in nanoseconds. *)
Definition REQUEST_INTERVAL : Z := 210000000.
Definition MAX_GET_RETRIES : Z := 2.
Definition MAX_ACTIVE_REQUESTS : Z := 64.

(** Where a call is: in front of the send queue; waiting for the response to a request;
    with a response; waiting for a retry; at its end, with the response and the request that
    it answers, or with an error. *)
Inductive Phase : Type :=
  | Waiting
  | Sent (req : Z)
  | Answered (req status : Z) (body : bytes)
  | Retrying (at_time : Z)
  | Finished (req status : Z) (body : bytes)
  | Failed (reason : string).

Record Call : Type := {
  c_epoch : Z;
  c_deadline : Z;
  c_method : Z;
  c_path : bytes;
  c_body : bytes;
  c_attempt : Z;
  c_phase : Phase;
}.

Definition with_phase (x : Phase) (c : Call) : Call :=
  {| c_epoch := c_epoch c; c_deadline := c_deadline c; c_method := c_method c; c_path := c_path c; c_body := c_body c;
     c_attempt := c_attempt c; c_phase := x |}.

(** A request on the wire, with its call and its time. *)
Record Sending : Type := { s_req : Z; s_call : nat; s_epoch : Z; s_method : Z; s_path : bytes; s_body : bytes; s_time : Z }.

(** The fields of [MgmtClient], the clock, the calls, and what was sent and received. *)
Record Client : Type := {
  pending : gmap Z nat;
  req_seq : Z;
  cached_role : Z;
  last_sent : option Z;
  session_epoch : Z;
  clock : Z;
  calls : gmap nat Call;
  next_call : nat;
  wire : list Sending;
  received : list (Z * Z * bytes);
}.

Definition new_client (now : Z) : Client :=
  {| pending := ∅; req_seq := 1; cached_role := 0; last_sent := None; session_epoch := 0; clock := now; calls := ∅; next_call := 0;
     wire := []; received := [] |}.

Definition with_pending (p : gmap Z nat) (s : Client) : Client :=
  {| pending := p; req_seq := req_seq s; cached_role := cached_role s; last_sent := last_sent s; session_epoch := session_epoch s;
     clock := clock s; calls := calls s; next_call := next_call s; wire := wire s; received := received s |}.
Definition with_call (k : nat) (c : Call) (s : Client) : Client :=
  {| pending := pending s; req_seq := req_seq s; cached_role := cached_role s; last_sent := last_sent s;
     session_epoch := session_epoch s; clock := clock s; calls := <[k := c]> (calls s); next_call := next_call s; wire := wire s;
     received := received s |}.

Definition active (c : Call) : bool := match c_phase c with Finished _ _ _ | Failed _ => false | _ => true end.

(** The slots of one kind that are taken. *)
Definition taken (diagnostic : bool) (s : Client) : Z :=
  Z.of_nat (size (filter (fun e : nat * Call => active e.2 && eqb (is_diagnostic (c_path e.2)) diagnostic = true) (calls s))).

Definition reset (s : Client) : Client :=
  {| pending := ∅; req_seq := req_seq s; cached_role := 0; last_sent := last_sent s; session_epoch := wrap64 (session_epoch s + 1);
     clock := clock s; calls := calls s; next_call := next_call s; wire := wire s; received := received s |}.

Definition on_capabilities (role : Z) (s : Client) : Client :=
  {| pending := pending s; req_seq := req_seq s; cached_role := role; last_sent := last_sent s; session_epoch := session_epoch s;
     clock := clock s; calls := calls s; next_call := next_call s; wire := wire s; received := received s |}.

(** [on_mgmt_response]; a call that has ended dropped its receiver. *)
Definition on_mgmt_response (req status : Z) (body : bytes) (s : Client) : Client :=
  let s := {| pending := pending s; req_seq := req_seq s; cached_role := cached_role s; last_sent := last_sent s;
              session_epoch := session_epoch s; clock := clock s; calls := calls s; next_call := next_call s; wire := wire s;
              received := (req, status, body) :: received s |} in
  match pending s !! req with
  | None => s
  | Some k =>
      let s := with_pending (delete req (pending s)) s in
      match calls s !! k with
      | Some c => match c_phase c with Sent r => if r =? req then with_call k (with_phase (Answered req status body) c) s else s | _ => s end
      | None => s
      end
  end.

(** The start of [mgmt_call]; a call that is refused does not become a task. *)
Definition mgmt_call (method : Z) (path body : bytes) (timeout : Z) (s : Client) : Client * option string :=
  if (MAX_MGMT_PATH_SIZE <? len path) || (MAX_MGMT_BODY_SIZE <? len body) then (s, Some "Management request exceeds protocol limits"%string)
  else
  match checked_add (clock s) timeout with
  | None => (s, Some "mgmt_call: timeout exceeds clock limits"%string)
  | Some deadline =>
      if MAX_ACTIVE_REQUESTS <=? taken (is_diagnostic path) s then (s, Some "mgmt_call: management request queue is full"%string)
      else
      let c := {| c_epoch := session_epoch s; c_deadline := deadline; c_method := method; c_path := path; c_body := body;
                  c_attempt := 0; c_phase := Waiting |} in
      ({| pending := pending s; req_seq := req_seq s; cached_role := cached_role s; last_sent := last_sent s;
          session_epoch := session_epoch s; clock := clock s; calls := <[next_call s := c]> (calls s); next_call := S (next_call s);
          wire := wire s; received := received s |}, None)
  end.

(** The number for a request: the first from the counter on that is not pending. *)
Fixpoint allocate (fuel : nat) (seq : Z) (p : gmap Z nat) : Z * Z :=
  match fuel with
  | O => (seq, wrap32 (seq + 1))
  | S fuel => if bool_decide (is_Some (p !! seq)) then allocate fuel (wrap32 (seq + 1)) p else (seq, wrap32 (seq + 1))
  end.

(** A call at the head of the queue, with room in the channel: the part under the mutex. The
    queue is held from the look at [last_sent] on, so that nothing changes it in between. *)
Definition send_request (k : nat) (s : Client) : Client :=
  match calls s !! k with
  | Some c =>
      match c_phase c with
      | Waiting =>
          let diagnostic := is_diagnostic (c_path c) in
          let early := match last_sent s with Some t => negb diagnostic && (clock s <? t + REQUEST_INTERVAL) | None => false end in
          if early then s
          else if negb (session_epoch s =? c_epoch c) then with_call k (with_phase (Failed "mgmt_call: session reset"%string) c) s
          else if c_deadline c <=? clock s
          then with_call k (with_phase (Failed "mgmt_call: timed out awaiting request queue or MgmtResponse"%string) c) s
          else
          let '(req, seq) := allocate (S (size (pending s))) (req_seq s) (pending s) in
          {| pending := <[req := k]> (pending s); req_seq := seq; cached_role := cached_role s;
             last_sent := if diagnostic then last_sent s else Some (clock s); session_epoch := session_epoch s; clock := clock s;
             calls := <[k := {| c_epoch := c_epoch c; c_deadline := c_deadline c; c_method := c_method c; c_path := c_path c;
                                c_body := if c_method c =? 0 then c_body c else []; c_attempt := c_attempt c; c_phase := Sent req |}]> (calls s);
             next_call := next_call s;
             wire := {| s_req := req; s_call := k; s_epoch := session_epoch s; s_method := c_method c; s_path := c_path c;
                        s_body := c_body c; s_time := clock s |} :: wire s;
             received := received s |}
      | _ => s
      end
  | None => s
  end.

Section Client.
(** [retry_after_ms] of the body of a response, if [serde_json] reads it. *)
Context (retry_after_ms : bytes -> option Z).

(** A call that sees its response. *)
Definition take_response (k : nat) (s : Client) : Client :=
  match calls s !! k with
  | Some c =>
      match c_phase c with
      | Answered req status body =>
          let s := with_pending (delete req (pending s)) s in
          if c_deadline c <=? clock s
          then with_call k (with_phase (Failed "mgmt_call: timed out awaiting request queue or MgmtResponse"%string) c) s
          else if is_diagnostic (c_path c) || negb (c_method c =? 0) || negb (status =? 429) || (c_attempt c =? MAX_GET_RETRIES)
          then with_call k (with_phase (Finished req status body) c) s
          else
          let delay := match retry_after_ms body with Some ms => ms * 1000000 | None => REQUEST_INTERVAL end in
          let retry_at := Z.min (default (c_deadline c) (checked_add (clock s) delay)) (c_deadline c) in
          with_call k (with_phase (Retrying retry_at) c) s
      | _ => s
      end
  | None => s
  end.

(** The end of the wait for a retry. *)
Definition wake (k : nat) (s : Client) : Client :=
  match calls s !! k with
  | Some c =>
      match c_phase c with
      | Retrying t =>
          if clock s <? t then s
          else with_call k {| c_epoch := c_epoch c; c_deadline := c_deadline c; c_method := c_method c; c_path := c_path c;
                              c_body := c_body c; c_attempt := c_attempt c + 1; c_phase := Waiting |} s
      | _ => s
      end
  | None => s
  end.

(** The end of a call from outside: its caller drops it, its deadline is over, or the
    session was reset; the entry of its request goes with it. *)
Definition abandon (k : nat) (s : Client) : Client :=
  match calls s !! k with
  | Some c =>
      if negb (active c) then s
      else
      let s := match c_phase c with
               | Sent req | Answered req _ _ => with_pending (delete req (pending s)) s
               | _ => s
               end in
      with_call k (with_phase (Failed "mgmt_call: ended"%string) c) s
  | None => s
  end.

Inductive Event : Type :=
  | Tick (d : Z)
  | CallMgmt (method : Z) (path body : bytes) (timeout : Z)
  | SendRequest (k : nat)
  | Response (req status : Z) (body : bytes)
  | TakeResponse (k : nat)
  | Wake (k : nat)
  | Abandon (k : nat)
  | Reset
  | Capabilities (role : Z).

Definition client_step (s : Client) (e : Event) : Client :=
  match e with
  | Tick d => {| pending := pending s; req_seq := req_seq s; cached_role := cached_role s; last_sent := last_sent s;
                 session_epoch := session_epoch s; clock := clock s + Z.max 0 d; calls := calls s; next_call := next_call s;
                 wire := wire s; received := received s |}
  | CallMgmt method path body timeout => (mgmt_call method path body timeout s).1
  | SendRequest k => send_request k s
  | Response req status body => on_mgmt_response req status body s
  | TakeResponse k => take_response k s
  | Wake k => wake k s
  | Abandon k => abandon k s
  | Reset => reset s
  | Capabilities role => on_capabilities role s
  end.

(** ** The invariant *)

Definition sends (k : nat) (w : list Sending) : Z := Z.of_nat (length (filter (fun m => s_call m = k) w)).

(** The request that a call waits for or has the response of. *)
Definition request_of (x : Phase) : option Z := match x with Sent r | Answered r _ _ | Finished r _ _ => Some r | _ => None end.
Definition response_of (x : Phase) : option (Z * Z * bytes) := match x with Answered r t b | Finished r t b => Some (r, t, b) | _ => None end.

Record call_ok (w : list Sending) (got : list (Z * Z * bytes)) (k : nat) (c : Call) : Prop := {
  co_attempt : 0 <= c_attempt c <= MAX_GET_RETRIES;
  co_retry : 0 < c_attempt c -> c_method c = 0 /\ is_diagnostic (c_path c) = false;
  co_sends : sends k w <= c_attempt c + match c_phase c with Waiting => 0 | _ => 1 end;
  co_again : match c_phase c with Retrying _ => c_attempt c < MAX_GET_RETRIES /\ c_method c = 0 /\ is_diagnostic (c_path c) = false | _ => True end;
  co_request : forall r, request_of (c_phase c) = Some r -> exists m, m ∈ w /\ s_req m = r /\ s_call m = k;
  co_response : forall x, response_of (c_phase c) = Some x -> x ∈ got;
}.

(** The requests of the slow kind, newest first, are an interval apart. *)
Fixpoint paced (w : list Sending) : Prop :=
  match w with
  | [] => True
  | m :: w => (is_diagnostic (s_path m) = false -> forall m', m' ∈ w -> is_diagnostic (s_path m') = false -> s_time m' + REQUEST_INTERVAL <= s_time m) /\ paced w
  end.

Record client_ok (s : Client) : Prop := {
  ok_pending : forall r k, pending s !! r = Some k -> exists c, calls s !! k = Some c /\ c_phase c = Sent r;
  ok_seq : req_seq s = 1 + Z.of_nat (length (wire s));
  ok_ids : NoDup (map s_req (wire s)) /\ forall m, m ∈ wire s -> s_req m < req_seq s;
  ok_calls : forall k c, calls s !! k = Some c -> (k < next_call s)%nat /\ call_ok (wire s) (received s) k c;
  ok_wire : forall m, m ∈ wire s -> exists c, calls s !! s_call m = Some c /\ s_epoch m = c_epoch c /\ s_time m < c_deadline c /\
    s_path m = c_path c /\ s_method m = c_method c /\ s_time m <= clock s;
  ok_pace : paced (wire s) /\ forall m, m ∈ wire s -> is_diagnostic (s_path m) = false -> exists t, last_sent s = Some t /\ s_time m <= t <= clock s;
  ok_slots : forall d, taken d s <= MAX_ACTIVE_REQUESTS;
}.

Definition same_call (c c' : Call) : Prop :=
  c_epoch c' = c_epoch c /\ c_deadline c' = c_deadline c /\ c_path c' = c_path c /\ c_method c' = c_method c.

(** The calls that take the slots of a kind. *)
Definition users (d : bool) (s : Client) : gset nat :=
  dom (filter (fun e : nat * Call => active e.2 && eqb (is_diagnostic (c_path e.2)) d = true) (calls s)).

Lemma taken_users d s : taken d s = Z.of_nat (size (users d s)).
Proof. unfold taken, users. by rewrite size_dom. Qed.

Lemma elem_of_users d s k : k ∈ users d s <-> exists c, calls s !! k = Some c /\ active c = true /\ is_diagnostic (c_path c) = d.
Proof.
  unfold users. rewrite elem_of_dom. split.
  - intros [c [Hc [Ha Hd%eqb_prop]%andb_true_iff]%map_lookup_filter_Some]. by exists c.
  - intros (c & Hc & Ha & Hd). exists c. apply map_lookup_filter_Some. split; [done|]. cbn. rewrite Ha, Hd. by destruct d.
Qed.

Lemma taken_within d s (x : gset nat) : users d s ⊆ x -> taken d s <= Z.of_nat (size x).
Proof. intros H. rewrite taken_users. apply inj_le. by apply subseteq_size. Qed.

Lemma taken_update d s k c c' s' :
  calls s !! k = Some c -> calls s' = <[k := c']> (calls s) -> c_path c' = c_path c -> (active c' = true -> active c = true) -> taken d s' <= taken d s.
Proof.
  intros Hc Hs Hp Ha. rewrite (taken_users d s). apply taken_within. intros j (x & Hx & Hax & Hdx)%elem_of_users. apply elem_of_users.
  rewrite Hs in Hx. destruct (decide (j = k)) as [->|Hne].
  - rewrite lookup_insert_eq in Hx. injection Hx as <-. exists c. split_and!; [done|by apply Ha|congruence].
  - rewrite lookup_insert_ne in Hx by done. by exists x.
Qed.

(** A call that moves on without sending. *)
Lemma move_ok s k c c' p' :
  client_ok s -> calls s !! k = Some c -> same_call c c' -> call_ok (wire s) (received s) k c' -> (active c' = true -> active c = true) ->
  (forall r j, p' !! r = Some j -> pending s !! r = Some j /\ j <> k) ->
  client_ok (with_call k c' (with_pending p' s)).
Proof.
  intros [H1 H2 H3 H4 H5 H6 H7] Hc (S1 & S2 & S3 & S4) Hk Ha Hp. split; cbn [pending req_seq wire calls received clock last_sent next_call with_call with_pending]; try done.
  - intros r j Hr. destruct (Hp r j Hr) as [Hr' Hj]. rewrite lookup_insert_ne by done. by apply H1.
  - intros j x. destruct (decide (j = k)) as [->|]; [rewrite lookup_insert_eq; intros [= <-]; split; [by apply (H4 k c)|done]|].
    rewrite lookup_insert_ne by done. apply H4.
  - intros m Hm. destruct (H5 m Hm) as (x & Hx & E). destruct (decide (s_call m = k)) as [Ek|].
    + rewrite Ek, Hc in Hx. injection Hx as <-. exists c'. rewrite Ek, lookup_insert_eq. split; [done|]. by rewrite S1, S2, S3, S4.
    + exists x. by rewrite lookup_insert_ne.
  - intros d. etrans; [|apply (H7 d)]. by apply (taken_update d s k c c').
Qed.

(** Only a call that waits for it has an entry. *)
Lemma pending_of s r k c : client_ok s -> pending s !! r = Some k -> calls s !! k = Some c -> c_phase c = Sent r.
Proof. intros H Hr Hc. destruct (ok_pending s H r k Hr) as (x & Hx & E). congruence. Qed.

Lemma response_ok s r t b : client_ok s -> client_ok (on_mgmt_response r t b s).
Proof.
  intros H. unfold on_mgmt_response. set (s1 := {| pending := pending s |}).
  assert (H1 : client_ok s1).
  { destruct H as [G1 G2 G3 G4 G5 G6 G7]. split; try done. intros k c Hc. destruct (G4 k c Hc) as [? [C1 C2 C3 C4 C5 C6]]. split; [done|].
    split; try done. intros x Hx. right. by apply C6. }
  change (pending s1) with (pending s). destruct (pending s !! r) as [k|] eqn:Er; [|done].
  change (calls (with_pending (delete r (pending s)) s1)) with (calls s). destruct (ok_pending s H r k Er) as (c & Hc & Hp). rewrite Hc, Hp, Z.eqb_refl.
  destruct (ok_calls s H k c Hc) as [_ [C1 C2 C3 C4 C5 C6]].
  apply (move_ok s1 k c (with_phase (Answered r t b) c)); try done.
  - split; try done; cbn [c_attempt c_phase with_phase c_method c_path wire received s1].
    + by rewrite Hp in C3.
    + cbn. intros x [= <-]. apply C5. by rewrite Hp.
    + cbn. intros x [= <-]. left.
  - unfold active. by rewrite Hp.
  - intros q j [Hq Hj]%lookup_delete_Some. split; [done|]. intros ->. pose proof (pending_of s q k c H Hj Hc). congruence.
Qed.

(** The entries of the other calls. *)
Lemma others_kept s k c p' :
  client_ok s -> calls s !! k = Some c -> (forall r, c_phase c = Sent r -> p' = delete r (pending s)) -> (forall r j, p' !! r = Some j -> pending s !! r = Some j) ->
  forall r j, p' !! r = Some j -> pending s !! r = Some j /\ j <> k.
Proof.
  intros H Hc Hd Hsub r j Hr. split; [by apply Hsub|]. intros ->. pose proof (pending_of s r k c H (Hsub _ _ Hr) Hc) as Hp.
  rewrite (Hd r Hp), lookup_delete_eq in Hr. done.
Qed.

Lemma failed_ok s k c reason p' :
  client_ok s -> calls s !! k = Some c -> (c_phase c = Waiting -> sends k (wire s) <= c_attempt c) ->
  (forall r j, p' !! r = Some j -> pending s !! r = Some j /\ j <> k) ->
  client_ok (with_call k (with_phase (Failed reason) c) (with_pending p' s)).
Proof.
  intros H Hc _ Hp. destruct (ok_calls s H k c Hc) as [_ [C1 C2 C3 C4 C5 C6]]. apply (move_ok s k c); try done.
  split; try done; cbn [c_attempt c_phase with_phase]. destruct (c_phase c); lia.
Qed.

Lemma with_pending_id s : with_pending (pending s) s = s.
Proof. by destruct s. Qed.

Lemma take_response_ok s k : client_ok s -> client_ok (take_response k s).
Proof.
  intros H. unfold take_response. destruct (calls s !! k) as [c|] eqn:Hc; [|done]. destruct (c_phase c) as [|r|r t b|x|r t b|x] eqn:Hp; try done.
  destruct (ok_calls s H k c Hc) as [_ [C1 C2 C3 C4 C5 C6]].
  assert (Hk : forall q j, delete r (pending s) !! q = Some j -> pending s !! q = Some j /\ j <> k).
  { apply (others_kept s k c); try done; [congruence|]. by intros q j [_ ?]%lookup_delete_Some. }
  change (clock (with_pending (delete r (pending s)) s)) with (clock s). destruct (_ <=? clock s); [by apply failed_ok; [..|congruence|]|].
  destruct (is_diagnostic (c_path c) || negb (c_method c =? 0) || negb (t =? 429) || (c_attempt c =? MAX_GET_RETRIES)) eqn:E.
  - apply (move_ok s k c); try done. split; try done; cbn [c_attempt c_phase with_phase]; rewrite Hp in *; try done.
  - apply orb_false_iff in E as [[[E1 E2]%orb_false_iff E3]%orb_false_iff E4]. apply negb_false_iff, Z.eqb_eq in E2. apply Z.eqb_neq in E4.
    apply (move_ok s k c); try done; [|unfold active; by rewrite Hp].
    split; try done; cbn [c_attempt c_phase with_phase c_method c_path]; rewrite Hp in *; try done. split_and!; try done. lia.
Qed.

Lemma wake_ok s k : client_ok s -> client_ok (wake k s).
Proof.
  intros H. unfold wake. destruct (calls s !! k) as [c|] eqn:Hc; [|done]. destruct (c_phase c) as [|r|r t b|x|r t b|x] eqn:Hp; try done.
  destruct (_ <? _); [done|]. destruct (ok_calls s H k c Hc) as [_ [C1 C2 C3 C4 C5 C6]]. rewrite Hp in C3, C4. destruct C4 as (C4 & Cm & Cd).
  rewrite <- (with_pending_id s) at 1. apply (move_ok s k c); try done; [|unfold active; by rewrite Hp|].
  - split; cbn [c_attempt c_phase c_method c_path]; try done; lia.
  - apply (others_kept s k c); try done. congruence.
Qed.

Lemma abandon_ok s k : client_ok s -> client_ok (abandon k s).
Proof.
  intros H. unfold abandon. destruct (calls s !! k) as [c|] eqn:Hc; [|done]. destruct (negb (active c)); [done|].
  assert (Hw : c_phase c = Waiting -> sends k (wire s) <= c_attempt c).
  { intros Hp. destruct (ok_calls s H k c Hc) as [_ [_ _ C3 _ _ _]]. rewrite Hp in C3. lia. }
  assert (Hd : forall r, (forall q, c_phase c = Sent q -> q = r) -> forall q j, delete r (pending s) !! q = Some j -> pending s !! q = Some j /\ j <> k).
  { intros r Hr. apply (others_kept s k c); try done; [|by intros q j [_ ?]%lookup_delete_Some]. intros q Hq. by rewrite (Hr q Hq). }
  destruct (c_phase c) as [|r|r t b|x|r t b|x] eqn:Hp.
  2,3: apply failed_ok; try done; [congruence|]; apply Hd; congruence.
  all: rewrite <- (with_pending_id s) at 1; apply failed_ok; try done; try (rewrite Hp; done); try congruence; apply (others_kept s k c); try done; congruence.
Qed.

Lemma allocate_first fuel seq p : p !! seq = None -> allocate (S fuel) seq p = (seq, wrap32 (seq + 1)).
Proof. intros H. cbn. rewrite H. by rewrite bool_decide_eq_false_2 by (by intros []). Qed.

Lemma call_ok_other w got k c m : s_call m <> k -> call_ok w got k c -> call_ok (m :: w) got k c.
Proof.
  intros Hm [C1 C2 C3 C4 C5 C6]. split; try done.
  - unfold sends in *. by rewrite filter_cons, decide_False.
  - intros r Hr. destruct (C5 r Hr) as (x & Hx & ?). exists x. split; [by right|done].
Qed.

(** Few enough requests that the counter does not wrap around. *)
Definition few (s : Client) : Prop := Z.of_nat (length (wire s)) < 2 ^ 32 - 2.

(** The call and the request of a send. *)
Definition sent_call (req : Z) (c : Call) : Call :=
  {| c_epoch := c_epoch c; c_deadline := c_deadline c; c_method := c_method c; c_path := c_path c;
     c_body := if c_method c =? 0 then c_body c else []; c_attempt := c_attempt c; c_phase := Sent req |}.

Definition sending (k : nat) (c : Call) (req : Z) (s : Client) : Sending :=
  {| s_req := req; s_call := k; s_epoch := session_epoch s; s_method := c_method c; s_path := c_path c; s_body := c_body c; s_time := clock s |}.

Lemma send_cases s k :
  client_ok s -> few s ->
  send_request k s = s \/
  (exists c reason, calls s !! k = Some c /\ c_phase c = Waiting /\ send_request k s = with_call k (with_phase (Failed reason) c) s) \/
  (exists c, calls s !! k = Some c /\ c_phase c = Waiting /\ c_epoch c = session_epoch s /\ clock s < c_deadline c /\
     (is_diagnostic (c_path c) = false -> forall t, last_sent s = Some t -> t + REQUEST_INTERVAL <= clock s) /\ pending s !! req_seq s = None /\
     send_request k s =
       {| pending := <[req_seq s := k]> (pending s); req_seq := req_seq s + 1; cached_role := cached_role s;
          last_sent := if is_diagnostic (c_path c) then last_sent s else Some (clock s); session_epoch := session_epoch s; clock := clock s;
          calls := <[k := sent_call (req_seq s) c]> (calls s); next_call := next_call s; wire := sending k c (req_seq s) s :: wire s;
          received := received s |}).
Proof.
  intros H Hf. unfold send_request. destruct (calls s !! k) as [c|] eqn:Hc; [|by left]. destruct (c_phase c) eqn:Hp; try by left.
  set (early := match last_sent s with Some t => _ | None => _ end). destruct early eqn:Ee; [by left|].
  destruct (Z.eqb_spec (session_epoch s) (c_epoch c)) as [Eep|]; cbn [negb]; [|right; left; eexists _, _; by split_and!].
  destruct (Z.leb_spec (c_deadline c) (clock s)); [right; left; eexists _, _; by split_and!|]. right. right. exists c.
  assert (Hn : pending s !! req_seq s = None).
  { destruct (pending s !! req_seq s) as [j|] eqn:Ej; [|done]. destruct (ok_pending s H _ _ Ej) as (x & Hx & Ex).
    destruct (ok_calls s H j x Hx) as [_ [_ _ _ _ C5 _]]. destruct (C5 (req_seq s)) as (m & Hm & Er & _); [by rewrite Ex|].
    destruct (ok_ids s H) as [_ Hlt]. specialize (Hlt m Hm). lia. }
  rewrite allocate_first by done. assert (wrap32 (req_seq s + 1) = req_seq s + 1) as ->.
  { unfold wrap32. rewrite (ok_seq s H). apply Z.mod_small. unfold few in Hf. change 4294967296 with (2 ^ 32). lia. }
  split_and!; try done. intros Hd t Ht. unfold early in Ee. rewrite Ht, Hd in Ee. cbn in Ee. by apply Z.ltb_ge in Ee.
Qed.

Lemma send_ok s k : client_ok s -> few s -> client_ok (send_request k s).
Proof.
  intros H Hf. destruct (send_cases s k H Hf) as [->|[(c & reason & Hc & Hp & ->)|(c & Hc & Hp & Hep & Hdl & Hpace & Hfree & ->)]]; [done| |].
  { rewrite <- (with_pending_id s) at 1. apply failed_ok; try done; [|apply (others_kept s k c); try done; congruence].
    intros _. destruct (ok_calls s H k c Hc) as [_ [_ _ C3 _ _ _]]. rewrite Hp in C3. lia. }
  destruct H as [H1 H2 H3 H4 H5 H6 H7]. set (m := sending k c (req_seq s) s). destruct (H4 k c Hc) as [Hk [C1 C2 C3 C4 C5 C6]].
  split; cbn [pending req_seq wire calls received clock last_sent next_call session_epoch].
  - intros r j. destruct (decide (r = req_seq s)) as [->|Hne].
    + rewrite lookup_insert_eq. intros [= <-]. exists (sent_call (req_seq s) c). by rewrite lookup_insert_eq.
    + rewrite lookup_insert_ne by done. intros Hr. destruct (H1 r j Hr) as (x & Hx & Ex). assert (j <> k) by (intros ->; rewrite Hc in Hx; congruence).
      exists x. by rewrite lookup_insert_ne.
  - cbn [length]. lia.
  - destruct H3 as [H3a H3b]. split; [cbn [map]; apply NoDup_cons; split; [|done]|].
    + intros (x & Ex & Hx)%list_elem_of_fmap. specialize (H3b x Hx). cbn in Ex. lia.
    + intros x [->|Hx]%elem_of_cons; [cbn; lia|]. specialize (H3b x Hx). lia.
  - intros j x. destruct (decide (j = k)) as [->|Hne].
    + rewrite lookup_insert_eq. intros [= <-]. split; [done|]. split; cbn [c_attempt c_phase c_method c_path sent_call]; try done.
      * unfold sends in *. rewrite filter_cons, decide_True by done. cbn [length]. rewrite Hp in C3. lia.
      * intros r [= <-]. exists m. split; [left|done].
    + rewrite lookup_insert_ne by done. intros Hx. destruct (H4 j x Hx). split; [done|]. by apply call_ok_other.
  - intros x [->|Hx]%elem_of_cons.
    + exists (sent_call (req_seq s) c). cbn [s_call m sending]. rewrite lookup_insert_eq. cbn. by split_and!; try lia.
    + destruct (H5 x Hx) as (y & Hy & Ey). destruct (decide (s_call x = k)) as [E|]; [|exists y; by rewrite lookup_insert_ne].
      rewrite E, Hc in Hy. injection Hy as <-. exists (sent_call (req_seq s) c). rewrite E, lookup_insert_eq. by split.
  - destruct H6 as [H6a H6b]. split.
    + split; [|done]. intros Hd m' Hm' Hd'. destruct (H6b m' Hm' Hd') as (t & Ht & Hle). specialize (Hpace Hd t Ht). cbn [m sending s_time]. lia.
    + intros x [->|Hx]%elem_of_cons Hd.
      * cbn [m sending s_path] in Hd. rewrite Hd. exists (clock s). cbn. split; [done|lia].
      * destruct (H6b x Hx Hd) as (t & Ht & Hle). destruct (is_diagnostic (c_path c)); [by exists t|]. exists (clock s). split; [done|lia].
  - intros d. etrans; [|apply (H7 d)]. apply (taken_update d s k c (sent_call (req_seq s) c)); try done. unfold active. by rewrite Hp.
Qed.

Lemma client_start_ok s method path body timeout : client_ok s -> client_ok (mgmt_call method path body timeout s).1.
Proof.
  intros H. unfold mgmt_call. destruct (_ || _); [done|]. destruct (checked_add _ _) as [deadline|]; [|done].
  destruct (Z.leb_spec MAX_ACTIVE_REQUESTS (taken (is_diagnostic path) s)) as [|Hfree]; [done|]. cbn [fst]. set (c := {| c_epoch := session_epoch s |}).
  destruct H as [H1 H2 H3 H4 H5 H6 H7].
  assert (Hnew : calls s !! next_call s = None) by (destruct (calls s !! next_call s) as [x|] eqn:E; [destruct (H4 _ _ E); lia|done]).
  assert (Hne : forall k x, calls s !! k = Some x -> k <> next_call s) by (intros k x Hx ->; congruence).
  split; cbn [pending req_seq wire calls received clock last_sent next_call session_epoch]; try done.
  - intros r k Hr. destruct (H1 r k Hr) as (x & Hx & E). exists x. by rewrite lookup_insert_ne by (apply not_eq_sym; by eapply Hne).
  - intros k x. destruct (decide (k = next_call s)) as [->|]; [|rewrite lookup_insert_ne by done; intros Hx; destruct (H4 k x Hx); split; [lia|done]].
    rewrite lookup_insert_eq. intros [= <-]. split; [lia|]. split; cbn; unfold MAX_GET_RETRIES; try done; try lia.
    unfold sends. replace (filter _ (wire s)) with (@nil Sending); [done|]. symmetry. apply elem_of_nil_inv. intros m [Em Hm]%list_elem_of_filter.
    destruct (H5 m Hm) as (y & Hy & _). rewrite Em, Hnew in Hy. done.
  - intros m Hm. destruct (H5 m Hm) as (x & Hx & E). exists x. by rewrite lookup_insert_ne by (apply not_eq_sym; by eapply Hne).
  - intros d. specialize (H7 d). rewrite taken_users in Hfree, H7.
    match goal with |- taken d ?x <= _ => assert (Hu : users d x ⊆ if eqb (is_diagnostic path) d then {[next_call s]} ∪ users d s else users d s) end.
    { intros k (x & Hx & Ha & Hd)%elem_of_users. cbn [calls] in Hx. destruct (decide (k = next_call s)) as [->|].
      - rewrite lookup_insert_eq in Hx. injection Hx as <-. cbn in Hd. rewrite Hd, eqb_reflx. set_solver.
      - rewrite lookup_insert_ne in Hx by done. assert (k ∈ users d s) by (apply elem_of_users; by exists x). destruct (eqb _ d); set_solver. }
    etrans; [apply (taken_within d _ _ Hu)|]. destruct (eqb (is_diagnostic path) d) eqn:Ed; [|done]. apply eqb_prop in Ed. rewrite Ed in Hfree.
    rewrite size_union_alt, size_singleton. assert (size (users d s ∖ {[next_call s]}) <= size (users d s))%nat by (apply subseteq_size; set_solver). lia.
Qed.

Lemma client_step_ok s e : client_ok s -> few s -> client_ok (client_step s e).
Proof.
  intros H Hf. destruct e as [d|method path body timeout|k|r t b|k|k|k| |role]; cbn [client_step].
  - destruct H as [H1 H2 H3 H4 H5 [H6a H6b] H7]. split; try done; cbn [wire calls clock last_sent].
    + intros m Hm. destruct (H5 m Hm) as (c & ? & ? & ? & ? & ? & ?). exists c. split_and!; try done. lia.
    + split; [done|]. intros m Hm Hd. destruct (H6b m Hm Hd) as (t & ? & ?). exists t. split; [done|lia].
  - by apply client_start_ok.
  - by apply send_ok.
  - by apply response_ok.
  - by apply take_response_ok.
  - by apply wake_ok.
  - by apply abandon_ok.
  - destruct H as [H1 H2 H3 H4 H5 H6 H7]. by split.
  - by destruct H as [H1 H2 H3 H4 H5 H6 H7].
Qed.

Lemma wire_grows s e : (length (wire s) <= length (wire (client_step s e)))%nat.
Proof.
  destruct e as [d|method path body timeout|k|r t b|k|k|k| |role]; cbn [client_step]; try done.
  - unfold mgmt_call. repeat case_match; done.
  - unfold send_request. repeat case_match; cbn; lia.
  - unfold on_mgmt_response. repeat case_match; done.
  - unfold take_response. repeat case_match; done.
  - unfold wake. repeat case_match; done.
  - unfold abandon. repeat case_match; done.
Qed.

Lemma client_run_ok s events : client_ok s -> few (fold_left client_step events s) -> client_ok (fold_left client_step events s).
Proof.
  assert (Hg : forall l x, (length (wire x) <= length (wire (fold_left client_step l x)))%nat).
  { induction l as [|e l IH]; intros x; [done|]. cbn. pose proof (wire_grows x e). specialize (IH (client_step x e)). lia. }
  revert s. induction events as [|e events IH]; intros s Hs Hf; [done|]. cbn [fold_left] in *. apply IH; [|done]. apply client_step_ok; [done|].
  unfold few in *. pose proof (Hg events (client_step s e)). pose proof (wire_grows s e). lia.
Qed.

Lemma client_new_ok now : client_ok (new_client now).
Proof.
  split; try done; cbn [wire new_client]; try (by intros m ?%not_elem_of_nil).
  - split; [constructor|]. by intros m ?%not_elem_of_nil.
  - split; [done|]. by intros m ?%not_elem_of_nil.
Qed.

Lemma req_unique w m m' : NoDup (map s_req w) -> m ∈ w -> m' ∈ w -> s_req m' = s_req m -> m' = m.
Proof.
  induction w as [|x w IH]; intros Hn Hm Hm' E; [by apply not_elem_of_nil in Hm|]. cbn in Hn. apply NoDup_cons in Hn as [Hx Hn].
  assert (Hin : forall y, y ∈ w -> s_req y ∈ map s_req w) by (intros y Hy; apply list_elem_of_fmap; by exists y).
  apply elem_of_cons in Hm as [->|Hm], Hm' as [->|Hm']; try done.
  - destruct Hx. rewrite <- E. by apply Hin.
  - destruct Hx. rewrite E. by apply Hin.
  - by apply IH.
Qed.

(** C17: The management client keeps requests and responses apart. Through any events, in any
    order, of fewer than four thousand million requests: a call ends with a response only if
    the server sent that response to a request of the call itself, and no other call has a
    request of that number; a call that changes something is sent at most once and a read at
    most three times; requests are 210 ms apart, but for the diagnostic ones; every request
    is sent before the deadline and in the session of its call; at most 64 calls of a kind
    are under way; and a response to a pending request reaches the call that sent it. *)
Theorem mgmt_client_sound now events :
  let s := fold_left client_step events (new_client now) in
  few s ->
  (forall k c r t b, calls s !! k = Some c -> c_phase c = Finished r t b -> (r, t, b) ∈ received s /\
     exists m, m ∈ wire s /\ s_req m = r /\ s_call m = k /\ forall m', m' ∈ wire s -> s_req m' = r -> m' = m) /\
  (forall k c, calls s !! k = Some c -> sends k (wire s) <= if (c_method c =? 0) && negb (is_diagnostic (c_path c)) then 3 else 1) /\
  paced (wire s) /\
  (forall m, m ∈ wire s -> exists c, calls s !! s_call m = Some c /\ s_epoch m = c_epoch c /\ s_time m < c_deadline c) /\
  (forall d, taken d s <= MAX_ACTIVE_REQUESTS) /\
  (forall r k t b, pending s !! r = Some k -> exists c, calls (on_mgmt_response r t b s) !! k = Some c /\ c_phase c = Answered r t b).
Proof.
  intros s Hf. pose proof (client_run_ok (new_client now) events (client_new_ok now) Hf) as Hok. fold s in Hok. split_and!.
  - intros k c r t b Hc Hp. destruct (ok_calls s Hok k c Hc) as [_ [_ _ _ _ C5 C6]]. rewrite Hp in C5, C6. split; [by apply C6|].
    destruct (C5 r eq_refl) as (m & Hm & Er & Ek). exists m. split_and!; try done. intros m' Hm' E. apply (req_unique (wire s)); try done; [by apply (ok_ids s Hok)|congruence].
  - intros k c Hc. destruct (ok_calls s Hok k c Hc) as [_ [C1 C2 C3 _ _ _]]. unfold MAX_GET_RETRIES in C1.
    assert (sends k (wire s) <= c_attempt c + 1) by (destruct (c_phase c); lia).
    destruct (decide (0 < c_attempt c)) as [Hpos|]; [destruct (C2 Hpos) as [-> ->]; cbn; lia|]. destruct (_ && _); lia.
  - by destruct (ok_pace s Hok).
  - intros m Hm. destruct (ok_wire s Hok m Hm) as (c & ? & ? & ? & _). by exists c.
  - apply (ok_slots s Hok).
  - intros r k t b Hr. destruct (ok_pending s Hok r k Hr) as (c & Hc & Hp). unfold on_mgmt_response. cbn [pending]. rewrite Hr. cbn [calls with_pending].
    rewrite Hc, Hp, Z.eqb_refl. exists (with_phase (Answered r t b) c). cbn. by rewrite lookup_insert_eq.
Qed.
End Client.

(** ** A sample *)

(** A read that is refused once, a change, and a response that comes twice. *)
Definition sample_events : list Event :=
  [CallMgmt 0 [47] [] 9000000000; CallMgmt 1 [47] [1] 9000000000; SendRequest 0; SendRequest 1; Tick 210000000; SendRequest 1;
   Response 1 429 []; TakeResponse 0; Response 2 200 [7]; Response 2 500 []; TakeResponse 1; Tick 210000000; Wake 0; SendRequest 0;
   Response 3 200 [8]; TakeResponse 0].

Lemma mgmt_client_sound_witness :
  let s := fold_left (client_step (fun _ => None)) sample_events (new_client 0) in
  length (wire s) = 3%nat /\ sends 0 (wire s) = 2 /\ c_phase <$> calls s !! 0%nat = Some (Finished 3 200 [8]) /\
  c_phase <$> calls s !! 1%nat = Some (Finished 2 200 [7]) /\ paced (wire s).
Proof.
  intros s. assert (Hf : few s) by (by vm_compute).
  destruct (mgmt_client_sound (fun _ => None) 0 sample_events Hf) as (_ & _ & Hp & _).
  split; [vm_compute; reflexivity|]. split; [vm_compute; reflexivity|]. split; [vm_compute; reflexivity|]. split; [vm_compute; reflexivity|]. exact Hp.
Defined.
