(* ===== verification/MaskFeedback.v ===== *)
(** * Feedback of the clients about masks

    [mask_feedback.rs] and the handler of [MaskFeedback] messages
    ([on_mask_feedback] of [gateway/control_dispatch.rs]): the outcomes that clients report,
    counted by country and mask, and the masks that are recommended to the clients of a
    region. Who reported a mask is kept as a HyperLogLog sketch only, whose estimate is in
    binary64; the natural logarithm and the powers of two of the platform are parameters.

    The theorems: a recommended mask was reported by a set of distinct authenticated clients
    of the continent whose estimated number reaches the threshold, however often each of
    them reported; the store never exceeds its limits and its counter is right; and a report
    shows at once in the recommendations for every listed country of its continent. *)

From Stdlib Require Import SpecFloat.
From S2P Require Import Prelude Collections Text Crypto Control Qos IngressLimits.
Local Open Scope Z_scope.

(** [f64::ln] and [f64::powi], whose precision is that of the platform. *)
Class Libm : Type := { ln : f64 -> f64; powi : f64 -> Z -> f64 }.

(** [f64::round]: halves away from zero. *)
Definition f64_round (a : f64) : f64 :=
  match a with
  | S754_finite s m e =>
      if 0 <=? e then a
      else let n := (2 * Zpos m + Z.shiftl 1 (- e)) / Z.shiftl 1 (1 - e) in
           if n =? 0 then S754_zero s else f64_of (if s then - n else n)
  | _ => a
  end.

(** Binary32: [x as f32], division, and the bits of a value. *)
Abbreviation f32 := spec_float.
Definition f32_of (x : Z) : f32 := binary_normalize 24 128 x 0 false.
Definition f32_div : f32 -> f32 -> f32 := SFdiv 24 128.

Definition f32_bits (a : f32) : Z :=
  let sign (s : bool) := if s then Z.shiftl 1 31 else 0 in
  match a with
  | S754_zero s => sign s
  | S754_infinity s => sign s + Z.shiftl 255 23
  | S754_nan => Z.shiftl 255 23 + Z.shiftl 1 22
  | S754_finite s m e =>
      sign s + (if Zpos m <? Z.shiftl 1 23 then Zpos m else Z.shiftl (e + 150) 23 + (Zpos m - Z.shiftl 1 23))
  end.

(** ** The sketch *)

Definition HLL_BITS : Z := 10.
Definition HLL_REGISTERS : Z := 1024.
Definition DEFAULT_K_ANON : Z := 20.
Definition MAX_MASK_ID_LEN : Z := 64.
Definition MAX_BUCKETS : Z := 100000.
Definition MAX_BUCKETS_PER_COUNTRY : Z := MAX_BUCKETS / 10.
Definition EVICTION_SAMPLE_SIZE : nat := 32.
Definition REGIONAL_HINTS_CACHE_TTL : Z := 45 * second.
Definition DEFAULT_RETENTION_HOURS : Z := 7 * 24.
Definition MAX_VOTES_PER_REPORTER : Z := 4.

Definition capped_score (success_count fail_count reporter_estimate : Z) : f32 :=
  let cap := Z.min u64_max (reporter_estimate * MAX_VOTES_PER_REPORTER) in
  let effective_success := Z.min success_count cap in
  let effective_fail := Z.min fail_count cap in
  let total := wrap64 (effective_success + effective_fail) in
  if total =? 0 then S754_zero false else f32_div (f32_of effective_success) (f32_of total).

(** The registers. *)
Abbreviation Hll := (list Z).

Definition new_hll : Hll := replicate (Z.to_nat HLL_REGISTERS) 0.

(** [u64::trailing_zeros] of a number that is not 0. *)
Definition trailing_zeros (w : Z) : Z := Z.log2 (Z.land w (- w)).

Section Sketch.
Context {PR : Primitives} {LM : Libm}.

(** The register and the rank of a token. *)
Definition hll_slot (token : bytes) : nat * Z :=
  let h := from_le (take 8 (blake3_hash token)) in
  let w := Z.shiftr h HLL_BITS in
  (Z.to_nat (Z.land h (HLL_REGISTERS - 1)), if w =? 0 then 64 - HLL_BITS + 1 else trailing_zeros w + 1).

Definition hll_add (token : bytes) (s : Hll) : Hll :=
  let '(idx, rank) := hll_slot token in
  match s !! idx with Some r => if r <? rank then <[idx := rank]> s else s | None => s end.

Definition hll_merge (s other : Hll) : Hll :=
  zip_with (fun a b => if a <? b then b else a) s other.

Definition estimate (s : Hll) : Z :=
  let m := f64_of HLL_REGISTERS in
  let alpha := f64_div (f64_div (f64_of 7213) (f64_of 10000))
                 (f64_add (f64_of 1) (f64_div (f64_div (f64_of 1079) (f64_of 1000)) m)) in
  let sum := fold_left (fun acc r => f64_add acc (powi (f64_of 2) (- r))) s (f64_of 0) in
  let raw := f64_div (f64_mul (f64_mul alpha m) m) sum in
  let zeros := Z.of_nat (length (filter (fun r => r = 0) s)) in
  if SFleb raw (f64_mul (f64_div (f64_of 5) (f64_of 2)) m) && (0 <? zeros)
  then f64_to_u64 (f64_max (f64_round (f64_mul m (ln (f64_div m (f64_of zeros))))) (f64_of 0))
  else f64_to_u64 (f64_max (f64_round raw) (f64_of 0)).
End Sketch.

(** ** Buckets *)

Record MaskBucket : Type := { success_count : Z; fail_count : Z; reporters : Hll; last_updated_hour : Z }.

Definition new_mask_bucket : MaskBucket :=
  {| success_count := 0; fail_count := 0; reporters := new_hll; last_updated_hour := 0 |}.

Definition success_rate {LM : Libm} (b : MaskBucket) : f32 :=
  capped_score (success_count b) (fail_count b) (estimate (reporters b)).

(** ** Regions *)

Definition COUNTRY_CONTINENT : list (bytes * bytes) :=
  let on (continent : string) (countries : list string) := map (fun c => (str_bytes c, str_bytes continent)) countries in
  on "NA" ["US"; "CA"; "MX"]
  ++ on "SA" ["BR"; "AR"; "CL"; "CO"; "PE"; "VE"; "EC"]
  ++ on "EU" ["GB"; "DE"; "FR"; "IT"; "ES"; "NL"; "PL"; "SE"; "NO"; "FI"; "DK"; "CH"; "AT"; "BE"; "PT"; "IE"; "GR";
              "CZ"; "RO"; "HU"; "UA"; "RU"; "BY"; "BG"; "SK"; "HR"; "RS"]
  ++ on "AS" ["TR"; "CN"; "JP"; "KR"; "IN"; "ID"; "TH"; "VN"; "PH"; "MY"; "SG"; "PK"; "BD"; "IR"; "IQ"; "SA"; "AE";
              "IL"; "KZ"; "UZ"; "HK"; "TW"]
  ++ on "AF" ["EG"; "NG"; "ZA"; "KE"; "ET"; "MA"; "DZ"; "TN"; "GH"; "UG"]
  ++ on "OC" ["AU"; "NZ"].

(** The codes of the table are ASCII, so that a code that equals one of them is UTF-8. *)
Definition continent_for (country_code : bytes) : bytes :=
  match List.find (fun e => bool_decide (e.1 = country_code)) COUNTRY_CONTINENT with
  | Some e => e.2
  | None => country_code
  end.

Definition continent_members (continent self_country : bytes) : list bytes :=
  let members := map fst (filter (fun e => e.2 = continent) COUNTRY_CONTINENT) in
  if bool_decide (self_country ∈ members) then members else members ++ [self_country].

(** The countries whose reports count for a country, and whose recommendations a report
    of it takes out of the cache. *)
Definition region (country_code : bytes) : list bytes := continent_members (continent_for country_code) country_code.

(** ** The store *)

Record FeedbackMap : Type := { countries : gmap bytes (gmap bytes MaskBucket); total_buckets : Z }.

Record HintsCacheEntry : Type := { computed_at : Z; hints : list (bytes * f32) }.

Record MaskFeedbackStore : Type := {
  k_anon : Z;
  reporter_salt : bytes;
  buckets : FeedbackMap;
  hints_cache : gmap bytes HintsCacheEntry;
}.

(** [salt] is what [rand::random] gave. *)
Definition with_k_anon (k : Z) (salt : bytes) : MaskFeedbackStore :=
  {| k_anon := k; reporter_salt := salt; buckets := {| countries := ∅; total_buckets := 0 |}; hints_cache := ∅ |}.

Definition new_store (salt : bytes) : MaskFeedbackStore := with_k_anon DEFAULT_K_ANON salt.

Section Store.
Context {PR : Primitives} {LM : Libm} {HI : HashIter}.

Definition evict_one (map : FeedbackMap) : FeedbackMap * bool :=
  let all := concat ((fun ci => (fun mb => (ci.1, mb.1, last_updated_hour mb.2)) <$> hash_iter ci.2) <$> hash_iter (countries map)) in
  match min_by (fun a b => a.2 <? b.2) (take EVICTION_SAMPLE_SIZE all) with
  | Some (country, mask_id, _) =>
      let countries' :=
        match countries map !! country with
        | Some inner =>
            let inner := delete mask_id inner in
            if bool_decide (inner = ∅) then delete country (countries map) else <[country := inner]> (countries map)
        | None => countries map
        end in
      ({| countries := countries'; total_buckets := sat_sub (total_buckets map) 1 |}, true)
  | None => (map, false)
  end.

Definition evict_one_within_country (inner : gmap bytes MaskBucket) : gmap bytes MaskBucket * bool :=
  match min_by (fun a b => last_updated_hour a.2 <? last_updated_hour b.2) (hash_iter inner) with
  | Some (mask_id, _) => (delete mask_id inner, true)
  | None => (inner, false)
  end.

(** The votes of one message. *)
Definition add_vote (votes : gmap bytes (bool * bool)) (entry : MaskOutcome.t) : gmap bytes (bool * bool) :=
  if MAX_MASK_ID_LEN <? len (MaskOutcome.mask_id entry) then votes
  else let v := default (false, false) (votes !! MaskOutcome.mask_id entry) in
       <[MaskOutcome.mask_id entry := (v.1 || (0 <? MaskOutcome.success entry), v.2 || (0 <? MaskOutcome.fail entry))]> votes.

Definition votes_of (entries : list MaskOutcome.t) : gmap bytes (bool * bool) := fold_left add_vote (take 64 entries) ∅.

(** The room for a new bucket; nothing if there is none, and the vote is skipped. *)
Definition make_room_global (map : FeedbackMap) : FeedbackMap * bool :=
  if MAX_BUCKETS <=? total_buckets map then evict_one map else (map, true).

Definition make_room_country (country_code : bytes) (map : FeedbackMap) : FeedbackMap * bool :=
  let inner := countries map !! country_code in
  if MAX_BUCKETS_PER_COUNTRY <=? default 0 ((fun i => Z.of_nat (size i)) <$> inner)
  then match inner with
       | Some i =>
           let '(i, evicted) := evict_one_within_country i in
           if evicted
           then ({| countries := <[country_code := i]> (countries map); total_buckets := sat_sub (total_buckets map) 1 |}, true)
           else (map, false)
       | None => (map, false)
       end
  else (map, true).

Definition count_vote (hour : Z) (salted_token : bytes) (vote : bool * bool) (b : MaskBucket) : MaskBucket :=
  {| success_count := sat_add64 (success_count b) (Z.b2z vote.1);
     fail_count := sat_add64 (fail_count b) (Z.b2z vote.2);
     reporters := hll_add salted_token (reporters b);
     last_updated_hour := hour |}.

Definition record_vote (country_code salted_token : bytes) (hour : Z) (map : FeedbackMap) (kv : bytes * (bool * bool)) : FeedbackMap :=
  let '(mask_id, vote) := kv in
  let already_exists := bool_decide (is_Some (countries map !! country_code ≫= lookup mask_id)) in
  let '(map, room) :=
    if already_exists then (map, true)
    else let '(map1, room) := make_room_global map in
         if room then make_room_country country_code map1 else (map1, false) in
  if room
  then let inner := default ∅ (countries map !! country_code) in
       let bucket := count_vote hour salted_token vote (default new_mask_bucket (inner !! mask_id)) in
       {| countries := <[country_code := <[mask_id := bucket]> inner]> (countries map);
          total_buckets := total_buckets map + (if already_exists then 0 else 1) |}
  else map.

Definition record_feedback (country_code client_reporter_token : bytes) (entries : list MaskOutcome.t) (hour : Z)
    (s : MaskFeedbackStore) : MaskFeedbackStore :=
  match entries with
  | [] => s
  | _ =>
      let votes := votes_of entries in
      if bool_decide (votes = ∅) then s
      else
        let salted_token := blake3_hash (reporter_salt s ++ client_reporter_token) in
        {| k_anon := k_anon s; reporter_salt := reporter_salt s;
           buckets := fold_left (record_vote country_code salted_token hour) (hash_iter votes) (buckets s);
           hints_cache := fold_left (fun c member => delete member c) (region country_code) (hints_cache s) |}
  end.

Definition sweep_stale (now_hour max_age_hours now : Z) (s : MaskFeedbackStore) : MaskFeedbackStore * Z :=
  let fresh (kb : bytes * MaskBucket) := sat_sub now_hour (last_updated_hour kb.2) <= max_age_hours in
  let kept := (fun inner => filter fresh inner) <$> countries (buckets s) in
  let removed := map_fold (fun _ inner n => n + (Z.of_nat (size inner) - Z.of_nat (size (filter fresh inner)))) 0 (countries (buckets s)) in
  ({| k_anon := k_anon s; reporter_salt := reporter_salt s;
      buckets := {| countries := filter (fun ci => ci.2 <> ∅) kept; total_buckets := sat_sub (total_buckets (buckets s)) removed |};
      hints_cache := filter (fun ce => sat_sub now (computed_at ce.2) < REGIONAL_HINTS_CACHE_TTL) (hints_cache s) |}, removed).

Definition bucket_count (s : MaskFeedbackStore) : Z := total_buckets (buckets s).
Definition region_count (s : MaskFeedbackStore) : Z := Z.of_nat (size (countries (buckets s))).

(** ** Recommendations *)

Definition cached_hints (country_code : bytes) (now : Z) (s : MaskFeedbackStore) : option (list (bytes * f32)) :=
  entry ← hints_cache s !! country_code;
  if sat_sub now (computed_at entry) <? REGIONAL_HINTS_CACHE_TTL then Some (hints entry) else None.

(** The masks that reach the threshold in the country itself. *)
Definition direct_pass (s : MaskFeedbackStore) (country_code : bytes) : list (bytes * f32) :=
  match countries (buckets s) !! country_code with
  | Some inner =>
      (fun mb => (mb.1, success_rate mb.2)) <$> filter (fun mb => k_anon s <= estimate (reporters mb.2)) (hash_iter inner)
  | None => []
  end.

Definition bucket_of (s : MaskFeedbackStore) (mask_id member : bytes) : option MaskBucket :=
  countries (buckets s) !! member ≫= lookup mask_id.

(** The buckets of a mask in the countries of the region, added up. *)
Definition roll_up (s : MaskFeedbackStore) (members : list bytes) (mask_id : bytes) : Hll * Z * Z :=
  fold_left (fun acc member =>
    match bucket_of s mask_id member with
    | Some b => let '(merged, success, fail) := acc in
        (hll_merge merged (reporters b), sat_add64 success (success_count b), sat_add64 fail (fail_count b))
    | None => acc
    end) members (new_hll, 0, 0).

(** The set of the masks reported anywhere in the region. *)
Definition candidates (s : MaskFeedbackStore) (members : list bytes) : gmap bytes unit :=
  fold_left (fun acc member =>
    match countries (buckets s) !! member with Some inner => ((fun _ => tt) <$> inner) ∪ acc | None => acc end) members ∅.

Definition roll_up_pass (s : MaskFeedbackStore) (members : list bytes) (satisfied : list (bytes * f32)) (mask_id : bytes) : list (bytes * f32) :=
  if bool_decide (mask_id ∈ satisfied.*1) then satisfied
  else let '(merged, success, fail) := roll_up s members mask_id in
       let e := estimate merged in
       if k_anon s <=? e then satisfied ++ [(mask_id, capped_score success fail e)] else satisfied.

(** [b.1.partial_cmp(&a.1).unwrap_or(Equal)]: best first. *)
Definition better (a b : bytes * f32) : bool :=
  match SFcompare b.2 a.2 with Some Lt => true | _ => false end.

Definition compute_top_masks_for_region (s : MaskFeedbackStore) (country_code : bytes) : list (bytes * f32) :=
  let members := region country_code in
  let satisfied := fold_left (roll_up_pass s members) (hash_iter (candidates s members)).*1 (direct_pass s country_code) in
  take 32 (sort_by better satisfied).

Definition top_masks_for_region (country_code : bytes) (now : Z) (s : MaskFeedbackStore) : MaskFeedbackStore * list (bytes * f32) :=
  match cached_hints country_code now s with
  | Some cached => (s, cached)
  | None =>
      let result := compute_top_masks_for_region s country_code in
      ({| k_anon := k_anon s; reporter_salt := reporter_salt s; buckets := buckets s;
          hints_cache := <[country_code := {| computed_at := now; hints := result |}]> (hints_cache s) |}, result)
  end.

(** ** The handler *)

Record FeedbackState : Type := { mask_feedback : MaskFeedbackStore; mask_feedback_throttle : gmap bytes Z }.

Record FeedbackSettings : Type := { feedback_report_failure_threshold : Z; feedback_report_interval_secs : Z }.

(** A message [MaskFeedback], of a session with the client [client_id]. *)
Record Report : Type := {
  r_session : bytes; r_client : option bytes; r_entries : list MaskOutcome.t; r_country : bytes; r_hour : Z; r_now : Z;
}.

(** With the messages that are sent to the session. *)
Definition on_mask_feedback (config : FeedbackSettings) (r : Report) (st : FeedbackState) : FeedbackState * list ControlPayload.t :=
  let s1 :=
    match r_entries r, r_client r with
    | _ :: _, Some client_id => record_feedback (r_country r) (blake3_hash client_id) (r_entries r) (r_hour r) (mask_feedback st)
    | _, _ => mask_feedback st
    end in
  let '(throttle, claimed) := try_claim_mask_feedback_slot (mask_feedback_throttle st) (r_session r) (r_now r) in
  if negb claimed then ({| mask_feedback := s1; mask_feedback_throttle := throttle |}, [])
  else
    let '(s2, top) := top_masks_for_region (r_country r) (r_now r) s1 in
    ({| mask_feedback := s2; mask_feedback_throttle := throttle |},
     (match top with
      | [] => []
      | _ => [ControlPayload.RegionalMaskHints (r_country r) ((fun h => (h.1, f32_bits h.2)) <$> top)]
      end)
     ++ [ControlPayload.FeedbackConfig (feedback_report_failure_threshold config) (feedback_report_interval_secs config)]).

(** What happens to the store: messages, and the periodic sweep. *)
Inductive FeedbackEvent : Type :=
  | Reported (r : Report)
  | Swept (now_hour now : Z).

Definition feedback_step (config : FeedbackSettings) (st : FeedbackState) (e : FeedbackEvent) : FeedbackState * list ControlPayload.t :=
  match e with
  | Reported r => on_mask_feedback config r st
  | Swept now_hour now =>
      ({| mask_feedback := (sweep_stale now_hour DEFAULT_RETENTION_HOURS now (mask_feedback st)).1;
          mask_feedback_throttle := mask_feedback_throttle st |}, [])
  end.

Definition feedback_run (config : FeedbackSettings) (salt : bytes) (events : list FeedbackEvent) : FeedbackState :=
  fold_left (fun st e => (feedback_step config st e).1) events
    {| mask_feedback := new_store salt; mask_feedback_throttle := ∅ |}.
End Store.

(** ** What a sketch knows *)

Section SketchFacts.
Context {PR : Primitives} {LM : Libm}.

(** The sketch of some tokens. *)
Definition sketch (tokens : list bytes) : Hll := foldr hll_add new_hll tokens.

(** The highest rank of the tokens of a register. *)
Definition rank_at (i : nat) (tokens : list bytes) : Z :=
  foldr (fun t m => if bool_decide ((hll_slot t).1 = i) then Z.max (hll_slot t).2 m else m) 0 tokens.

Lemma slot_in_range t : ((hll_slot t).1 < length new_hll)%nat.
Proof.
  unfold new_hll, hll_slot. rewrite length_replicate. cbn [fst]. replace (HLL_REGISTERS - 1) with (Z.ones 10) by done.
  rewrite Z.land_ones by lia. pose proof (Z.mod_pos_bound (from_le (take 8 (blake3_hash t))) (2 ^ 10)). unfold HLL_REGISTERS. lia.
Qed.

Lemma hll_add_length t s : length (hll_add t s) = length s.
Proof. unfold hll_add. destruct (hll_slot t) as [i r]. destruct (s !! i) as [x|]; [|done]. destruct (x <? r); [apply length_insert|done]. Qed.

Lemma sketch_length l : length (sketch l) = length new_hll.
Proof. induction l as [|t l IH]; [done|]. cbn [sketch foldr]. by rewrite hll_add_length. Qed.

Lemma sketch_lookup l i : (i < length new_hll)%nat -> sketch l !! i = Some (rank_at i l).
Proof.
  intros Hi. induction l as [|t l IH].
  { apply lookup_replicate_2. by unfold new_hll in Hi; rewrite length_replicate in Hi. }
  cbn [sketch foldr rank_at]. fold (sketch l) (rank_at i l). unfold hll_add.
  pose proof (slot_in_range t) as Ht. destruct (hll_slot t) as [j r]. cbn [fst snd] in *.
  destruct (lookup_lt_is_Some_2 (sketch l) j) as [x Ex]; [by rewrite sketch_length|]. rewrite Ex.
  case_bool_decide as Hj.
  - subst j. rewrite IH in Ex. injection Ex as <-. destruct (Z.ltb_spec (rank_at i l) r).
    + rewrite list_lookup_insert_eq by (by rewrite sketch_length). f_equal. lia.
    + rewrite IH. f_equal. lia.
  - destruct (x <? r); [by rewrite list_lookup_insert_ne|done].
Qed.

Lemma sketch_ext l s : length s = length new_hll ->
  (forall i, (i < length new_hll)%nat -> s !! i = Some (rank_at i l)) -> s = sketch l.
Proof.
  intros Hl H. apply list_eq. intros i. destruct (decide (i < length new_hll)%nat) as [Hi|Hi].
  - by rewrite H, sketch_lookup.
  - rewrite !lookup_ge_None_2; [done|rewrite sketch_length; lia|lia].
Qed.

Lemma rank_at_spec i l x : x <= rank_at i l <-> x <= 0 \/ exists t, t ∈ l /\ (hll_slot t).1 = i /\ x <= (hll_slot t).2.
Proof.
  induction l as [|t l IH]; cbn [rank_at foldr].
  { split; [by left|]. intros [?|(t & Ht & _)]; [done|by apply elem_of_nil in Ht]. }
  fold (rank_at i l).
  assert (E : (exists u, u ∈ t :: l /\ (hll_slot u).1 = i /\ x <= (hll_slot u).2) <->
    ((hll_slot t).1 = i /\ x <= (hll_slot t).2) \/ exists u, u ∈ l /\ (hll_slot u).1 = i /\ x <= (hll_slot u).2).
  { split; [intros (u & [->|Hu]%elem_of_cons & H); [by left|right; by exists u]|].
    intros [H|(u & Hu & H)]; [exists t; split; [left|done]|exists u; split; [by right|done]]. }
  rewrite E. case_bool_decide as Ht; [rewrite Z.max_le_iff|]; rewrite IH; tauto.
Qed.

(** A sketch knows the set of its tokens only, and merging two gives the one of both sets. *)
Lemma sketch_set l1 l2 : (forall t, t ∈ l1 <-> t ∈ l2) -> sketch l1 = sketch l2.
Proof.
  intros H. apply sketch_ext; [apply sketch_length|]. intros i Hi. rewrite sketch_lookup by done. f_equal.
  apply Z.le_antisymm; apply rank_at_spec; [pose proof (proj1 (rank_at_spec i l1 (rank_at i l1)))|pose proof (proj1 (rank_at_spec i l2 (rank_at i l2)))];
    destruct H0 as [|(t & ? & ?)]; try lia; try (by left); right; exists t; split; [by apply H|done|by apply H|done].
Qed.

Lemma rank_at_app i l1 l2 : rank_at i (l1 ++ l2) = Z.max (rank_at i l1) (rank_at i l2).
Proof.
  induction l1 as [|t l1 IH]; cbn [app rank_at foldr].
  - assert (0 <= rank_at i l2) by (apply rank_at_spec; by left). by rewrite Z.max_r.
  - fold (rank_at i (l1 ++ l2)) (rank_at i l1). case_bool_decide; [rewrite IH; lia|done].
Qed.

Lemma sketch_merge l1 l2 : hll_merge (sketch l1) (sketch l2) = sketch (l1 ++ l2).
Proof.
  apply sketch_ext; [unfold hll_merge; rewrite length_zip_with, !sketch_length; lia|].
  intros i Hi. unfold hll_merge. rewrite lookup_zip_with, !sketch_lookup by done. cbn. f_equal. rewrite rank_at_app.
  destruct (Z.ltb_spec (rank_at i l1) (rank_at i l2)); lia.
Qed.
End SketchFacts.

(** ** Who reported what *)

Section History.
Context {PR : Primitives} {LM : Libm} {HI : HashIter}.

Definition token (salt client : bytes) : bytes := blake3_hash (salt ++ blake3_hash client).

(** A client reported a mask of a country. *)
Definition reported (events : list FeedbackEvent) (client country mask : bytes) : Prop :=
  exists r e, Reported r ∈ events /\ r_client r = Some client /\ r_country r = country /\
    e ∈ take 64 (r_entries r) /\ MaskOutcome.mask_id e = mask.

(** Enough distinct clients of the region of a country reported a mask. *)
Definition anonymous (events : list FeedbackEvent) (salt : bytes) (k : Z) (country mask : bytes) : Prop :=
  exists R, NoDup R /\ (forall c, c ∈ R -> exists member, member ∈ region country /\ reported events c member mask) /\
    k <= estimate (sketch (token salt <$> R)).

Definition lookup2 (map : FeedbackMap) (c m : bytes) : option MaskBucket := countries map !! c ≫= lookup m.

Definition explained (events : list FeedbackEvent) (salt : bytes) (map : FeedbackMap) : Prop :=
  forall c m b, lookup2 map c m = Some b ->
    exists R, (forall x, x ∈ R -> reported events x c m) /\ reporters b = sketch (token salt <$> R).

Record honest (events : list FeedbackEvent) (salt : bytes) (s : MaskFeedbackStore) : Prop := {
  ho_k : k_anon s = DEFAULT_K_ANON;
  ho_salt : reporter_salt s = salt;
  ho_buckets : explained events salt (buckets s);
  ho_cache : forall c e, hints_cache s !! c = Some e -> Forall (fun h => anonymous events salt DEFAULT_K_ANON c h.1) (hints e);
}.

Lemma reported_mono ev ev' c co m : ev ⊆ ev' -> reported ev c co m -> reported ev' c co m.
Proof. intros Hs (r & e & ? & ?). exists r, e. auto. Qed.

Lemma anonymous_mono ev ev' salt k c m : ev ⊆ ev' -> anonymous ev salt k c m -> anonymous ev' salt k c m.
Proof.
  intros Hs (R & ? & HR & ?). exists R. split_and!; [done| |done]. intros x Hx. destruct (HR x Hx) as (member & ? & ?).
  exists member. eauto using reported_mono.
Qed.

Lemma explained_mono ev ev' salt map : ev ⊆ ev' -> explained ev salt map -> explained ev' salt map.
Proof. intros Hs H c m b Hb. destruct (H c m b Hb) as (R & ? & ?). exists R. eauto using reported_mono. Qed.

Lemma honest_mono ev ev' salt s : ev ⊆ ev' -> honest ev salt s -> honest ev' salt s.
Proof.
  intros Hs [? ? ? Hc]. split; [done|done|by eapply explained_mono|]. intros c e He. eapply Forall_impl; [by apply Hc|].
  intros h. by apply anonymous_mono.
Qed.

(** A map with fewer buckets. *)
Definition below (map' map : FeedbackMap) : Prop := forall c m b, lookup2 map' c m = Some b -> lookup2 map c m = Some b.

Lemma lookup2_insert map c inner n c' m :
  lookup2 {| countries := <[c := inner]> (countries map); total_buckets := n |} c' m = if decide (c' = c) then inner !! m else lookup2 map c' m.
Proof. unfold lookup2. cbn. destruct (decide (c' = c)) as [->|]; [by rewrite lookup_insert_eq|by rewrite lookup_insert_ne]. Qed.

Lemma below_set map c i j n : countries map !! c = Some i -> j ⊆ i ->
  below {| countries := <[c := j]> (countries map); total_buckets := n |} map.
Proof.
  intros Hc Hj c' m b. rewrite lookup2_insert. destruct (decide (c' = c)) as [->|]; [|done].
  intros Hb. unfold lookup2. rewrite Hc. cbn. by eapply lookup_weaken.
Qed.

Lemma below_evict map : below (evict_one map).1 map.
Proof.
  unfold evict_one. destruct (min_by _ _) as [[[c m] h]|]; [|by intros ?]. cbn [fst].
  destruct (countries map !! c) as [i|] eqn:Ec; [|by intros ?]. case_bool_decide.
  - intros c' m' b. unfold lookup2. cbn. destruct (decide (c' = c)) as [->|]; [by rewrite lookup_delete_eq|by rewrite lookup_delete_ne].
  - by eapply below_set; [|apply delete_subseteq].
Qed.

Lemma below_country c map : below (make_room_country c map).1 map.
Proof.
  unfold make_room_country, evict_one_within_country. case_match; [|by intros ?]. destruct (countries map !! c) as [i|] eqn:Ec; [|by intros ?].
  destruct (min_by _ _) as [[m b]|]; [|by intros ?]. by eapply below_set; [|apply delete_subseteq].
Qed.

Lemma below_room c map :
  below (let '(map1, room) := make_room_global map in if room then make_room_country c map1 else (map1, false)).1 map.
Proof.
  assert (Hg : below (make_room_global map).1 map) by (unfold make_room_global; case_match; [apply below_evict|by intros ?]).
  destruct (make_room_global map) as [map1 []]; cbn [fst] in *; [|done]. intros x m b Hb. apply Hg. by apply (below_country c).
Qed.

(** A vote changes one bucket at most, by counting itself in it. *)
Lemma record_vote_buckets c tok hour map m v c' m' b :
  lookup2 (record_vote c tok hour map (m, v)) c' m' = Some b ->
  lookup2 map c' m' = Some b \/
  (c' = c /\ m' = m /\ exists b0, (b0 = new_mask_bucket \/ lookup2 map c m = Some b0) /\ b = count_vote hour tok v b0).
Proof.
  unfold record_vote. set (ex := bool_decide _). set (q := if ex then (map, true) else _). intros H.
  assert (Hq : below q.1 map) by (subst q; destruct ex; [by intros ?|apply below_room]). clearbody q ex.
  destruct q as [map1 []]; cbn [fst] in Hq; [|left; by apply Hq].
  rewrite lookup2_insert in H. destruct (decide (c' = c)) as [->|]; [|left; by apply Hq].
  destruct (decide (m' = m)) as [->|].
  - rewrite lookup_insert_eq in H. injection H as <-. right. split_and!; [done|done|].
    destruct (countries map1 !! c) as [i|] eqn:Ei; [destruct (i !! m) as [b0|] eqn:Em|]; cbn; rewrite ?lookup_empty; cbn.
    + exists b0. rewrite Em. split; [right; apply Hq; unfold lookup2; by rewrite Ei|done].
    + exists new_mask_bucket. rewrite Em. auto.
    + exists new_mask_bucket. auto.
  - rewrite lookup_insert_ne in H by done. left. apply Hq. unfold lookup2.
    destruct (countries map1 !! c); [done|]. cbn in H. by rewrite lookup_empty in H.
Qed.

Lemma explained_votes ev salt client c hour votes map :
  (forall m, m ∈ votes.*1 -> reported ev client c m) -> explained ev salt map ->
  explained ev salt (fold_left (record_vote c (token salt client) hour) votes map).
Proof.
  revert map. induction votes as [|[m v] votes IH]; intros map Hv Hmap; [done|]. cbn [fold_left]. apply IH; [set_solver|].
  intros c' m' b [Hb|(-> & -> & b0 & Hb0 & ->)]%record_vote_buckets; [by apply Hmap|]. cbn [reporters count_vote].
  assert (exists R, (forall x, x ∈ R -> reported ev x c m) /\ reporters b0 = sketch (token salt <$> R)) as (R & HR & ->)
    by (destruct Hb0 as [->|Hb0]; [exists []; set_solver|by eapply Hmap]).
  exists (client :: R). split; [|done]. intros x [->|?]%elem_of_cons; [apply Hv; set_solver|by apply HR].
Qed.

Lemma votes_reported entries m : m ∈ (hash_iter (votes_of entries)).*1 -> exists e, e ∈ take 64 entries /\ MaskOutcome.mask_id e = m /\ len m <= MAX_MASK_ID_LEN.
Proof.
  intros ([m' v] & -> & Hv)%list_elem_of_fmap. apply elem_of_iter in Hv. cbn [fst]. unfold votes_of in Hv.
  assert (forall l acc, is_Some (fold_left add_vote l acc !! m') -> is_Some (acc !! m') \/ exists e, e ∈ l /\ MaskOutcome.mask_id e = m' /\ len m' <= MAX_MASK_ID_LEN) as H.
  { induction l as [|e l IH]; intros acc Hs; [by left|]. cbn [fold_left] in Hs. destruct (IH _ Hs) as [Ha|(e' & ? & ?)]; [|right; exists e'; split; [by right|done]].
    unfold add_vote in Ha. destruct (Z.ltb_spec MAX_MASK_ID_LEN (len (MaskOutcome.mask_id e))); [by left|].
    destruct (decide (m' = MaskOutcome.mask_id e)) as [->|]; [right; exists e; split; [left|auto]|rewrite lookup_insert_ne in Ha by done; by left]. }
  destruct (H (take 64 entries) ∅) as [Hs|?]; [by eexists|by rewrite lookup_empty in Hs; destruct Hs|done].
Qed.

Lemma cache_kept (l : list bytes) (cache : gmap bytes HintsCacheEntry) c :
  fold_left (fun c member => delete member c) l cache !! c = if decide (c ∈ l) then None else cache !! c.
Proof.
  revert cache. induction l as [|x l IH]; intros cache; [by rewrite decide_False by set_solver|]. cbn [fold_left]. rewrite IH.
  destruct (decide (c ∈ l)) as [H|H]; [by rewrite decide_True by set_solver|]. destruct (decide (c = x)) as [->|].
  - rewrite decide_True by set_solver. apply lookup_delete_eq.
  - rewrite decide_False by set_solver. by apply lookup_delete_ne.
Qed.

Lemma honest_record ev salt r client s : Reported r ∈ ev -> r_client r = Some client -> honest ev salt s ->
  honest ev salt (record_feedback (r_country r) (blake3_hash client) (r_entries r) (r_hour r) s).
Proof.
  intros Hr Hc [Hk Hs Hb Hh]. unfold record_feedback. destruct (r_entries r) as [|e0 es] eqn:He; [by split|]. rewrite <- He.
  case_bool_decide; [by split|]. split; cbn; [done|done| |].
  - rewrite Hs. apply explained_votes; [|done]. intros m (e & ? & ? & _)%votes_reported. by exists r, e.
  - intros c e. rewrite cache_kept. destruct (decide _); [done|]. apply Hh.
Qed.

Lemma honest_sweep ev salt hour age now s : honest ev salt s -> honest ev salt (sweep_stale hour age now s).1.
Proof.
  intros [Hk Hs Hb Hh]. split; cbn; [done|done| |].
  - intros c m b Hl. apply Hb. unfold lookup2 in *. cbn in Hl.
    destruct (filter _ _ !! c) as [i|] eqn:Ei; [|done]. cbn in Hl. apply map_lookup_filter_Some in Ei as [Ei _].
    rewrite lookup_fmap in Ei. destruct (countries (buckets s) !! c) as [i0|]; [|done]. injection Ei as <-.
    by apply map_lookup_filter_Some in Hl as [? _].
  - intros c e [He _]%map_lookup_filter_Some. by eapply Hh.
Qed.

Lemma self_in_region c : c ∈ region c.
Proof. unfold region, continent_members. case_bool_decide; [done|]. apply elem_of_app. right. by left. Qed.

(** Repeated reports of a client count once. *)
Lemma anonymous_from ev salt k c m R : (forall x, x ∈ R -> exists member, member ∈ region c /\ reported ev x member m) ->
  k <= estimate (sketch (token salt <$> R)) -> anonymous ev salt k c m.
Proof.
  intros HR Hk. exists (remove_dups R). split_and!; [apply NoDup_remove_dups|intros x Hx; apply HR; by rewrite elem_of_remove_dups in Hx|].
  rewrite (sketch_set _ (token salt <$> R)); [done|]. intros t. rewrite !list_elem_of_fmap. by setoid_rewrite elem_of_remove_dups.
Qed.

Lemma direct_anonymous ev salt s c : honest ev salt s ->
  Forall (fun h => anonymous ev salt DEFAULT_K_ANON c h.1) (direct_pass s c).
Proof.
  intros [Hk _ Hb _]. unfold direct_pass. destruct (countries (buckets s) !! c) as [i|] eqn:Ei; [|constructor].
  apply Forall_forall. intros h ([m b] & -> & [Hest Hin]%list_elem_of_filter)%list_elem_of_fmap. cbn [fst snd] in *.
  apply elem_of_iter in Hin. destruct (Hb c m b) as (R & HR & E); [unfold lookup2; by rewrite Ei|].
  apply (anonymous_from _ _ _ _ _ R); [|by rewrite <- E, <- Hk]. intros x Hx. exists c. split; [apply self_in_region|by apply HR].
Qed.

Lemma roll_up_explained ev salt s members m : explained ev salt (buckets s) ->
  exists R, (forall x, x ∈ R -> exists member, member ∈ members /\ reported ev x member m) /\
    (roll_up s members m).1.1 = sketch (token salt <$> R).
Proof.
  intros Hb. unfold roll_up. set (f := fun acc member => _).
  enough (H : forall l acc R0, l ⊆ members -> (forall x, x ∈ R0 -> exists member, member ∈ members /\ reported ev x member m) ->
    acc.1.1 = sketch (token salt <$> R0) ->
    exists R, (forall x, x ∈ R -> exists member, member ∈ members /\ reported ev x member m) /\ (fold_left f l acc).1.1 = sketch (token salt <$> R))
    by (apply (H members _ []); [done|set_solver|done]).
  induction l as [|c l IH]; intros acc R0 Hl HR0 Hacc; [by exists R0|]. cbn [fold_left].
  assert (Hc : c ∈ members) by set_solver. assert (Hl' : l ⊆ members) by set_solver.
  destruct (bucket_of s m c) as [b|] eqn:Eb; [|by apply (IH _ R0); [| |subst f; cbn; rewrite Eb]].
  destruct (Hb c m b Eb) as (R & HR & E). apply (IH _ (R0 ++ R)); [done| |].
  - intros x [?|?]%elem_of_app; [by apply HR0|]. exists c. split; [done|by apply HR].
  - subst f. cbn. rewrite Eb. destruct acc as [[h su] fa]. cbn in *. by rewrite Hacc, E, sketch_merge, fmap_app.
Qed.

Lemma compute_anonymous ev salt s c : honest ev salt s ->
  Forall (fun h => anonymous ev salt DEFAULT_K_ANON c h.1) (compute_top_masks_for_region s c).
Proof.
  intros Hh. unfold compute_top_masks_for_region. apply Forall_take. rewrite sort_by_perm.
  generalize (hash_iter (candidates s (region c))).*1. pose proof (direct_anonymous _ _ _ c Hh) as Hd. revert Hd.
  generalize (direct_pass s c). intros sat Hd l. revert sat Hd. induction l as [|m l IH]; intros sat Hd; [done|].
  cbn [fold_left]. apply IH. unfold roll_up_pass. case_bool_decide; [done|].
  destruct (roll_up_explained ev salt s (region c) m (ho_buckets _ _ _ Hh)) as (R & HR & E).
  destruct (roll_up s (region c) m) as [[merged su] fa]. cbn in E. subst merged.
  destruct (Z.leb_spec (k_anon s) (estimate (sketch (token salt <$> R)))) as [Hk|]; [|done].
  apply Forall_app. split; [done|]. constructor; [|constructor]. cbn. rewrite (ho_k _ _ _ Hh) in Hk. by apply (anonymous_from _ _ _ _ _ R).
Qed.

Lemma top_honest ev salt s c now : honest ev salt s ->
  honest ev salt (top_masks_for_region c now s).1 /\
  Forall (fun h => anonymous ev salt DEFAULT_K_ANON c h.1) (top_masks_for_region c now s).2.
Proof.
  intros Hh. unfold top_masks_for_region, cached_hints. pose proof (compute_anonymous _ _ _ c Hh) as Hc.
  destruct (hints_cache s !! c) as [e|] eqn:Ee; cbn; [destruct (_ <? _); [split; [done|by apply (ho_cache _ _ _ Hh)]|]|];
    (split; [|done]; destruct Hh as [? ? ? Hca]; split; cbn; [done..|]; intros c' e';
     destruct (decide (c' = c)) as [->|]; [rewrite lookup_insert_eq; by intros [= <-]|rewrite lookup_insert_ne by done; apply Hca]).
Qed.

Lemma step_honest config ev salt st e : e ∈ ev -> honest ev salt (mask_feedback st) ->
  honest ev salt (mask_feedback (feedback_step config st e).1) /\
  forall c masks, ControlPayload.RegionalMaskHints c masks ∈ (feedback_step config st e).2 ->
    Forall (fun h => anonymous ev salt DEFAULT_K_ANON c h.1) masks.
Proof.
  intros Hin Hh. destruct e as [r|hour now]; [|split; [by apply honest_sweep|intros ? ? H%elem_of_nil; done]].
  cbn [feedback_step]. unfold on_mask_feedback. set (s1 := match r_entries r with [] => _ | _ => _ end).
  assert (H1 : honest ev salt s1).
  { subst s1. destruct (r_entries r) as [|x l] eqn:El; [done|]. destruct (r_client r) as [client|] eqn:Ec; [|done].
    rewrite <- El. by apply honest_record. }
  destruct (try_claim_mask_feedback_slot _ _ _) as [thr claimed]. destruct claimed; cbn [negb]; [|split; [done|intros ? ? H%elem_of_nil; done]].
  destruct (top_honest _ _ _ (r_country r) (r_now r) H1) as [H2 H3].
  destruct (top_masks_for_region _ _ s1) as [s2 top]. cbn [fst snd] in *. split; [done|]. intros c masks [Hm|Hm]%elem_of_app.
  - destruct top; [by apply elem_of_nil in Hm|]. apply list_elem_of_singleton in Hm as [= -> ->]. rewrite Forall_forall in H3.
    apply Forall_forall. intros h Hmem. change (h ∈ (fun h => (h.1, f32_bits h.2)) <$> p :: top) in Hmem.
    apply list_elem_of_fmap in Hmem as (h0 & -> & Hin0). by apply (H3 h0).
  - by apply list_elem_of_singleton in Hm.
Qed.

Lemma run_honest config salt ev : honest ev salt (mask_feedback (feedback_run config salt ev)).
Proof.
  unfold feedback_run. set (f := fun st e => _). set (st0 := {| mask_feedback := _ |}).
  enough (H : forall l st, l ⊆ ev -> honest ev salt (mask_feedback st) -> honest ev salt (mask_feedback (fold_left f l st))).
  { apply H; [done|]. split; cbn; [done|done| |by intros ? ?; rewrite lookup_empty]. intros c m b. unfold lookup2. cbn. by rewrite lookup_empty. }
  induction l as [|e l IH]; intros st Hl Hst; [done|]. cbn [fold_left]. apply IH; [set_solver|].
  apply step_honest; [set_solver|done].
Qed.

(** C14: whatever the clients send and whenever the store is swept, a mask that is recommended
    to a client, fresh or from the cache, was reported, in the countries of the region, by a
    set of distinct authenticated clients whose estimated number is at least the threshold of
    anonymity: repeating a report, or reporting without an authenticated identity, adds
    nothing to it. *)
Theorem hints_k_anonymous config salt events e c masks :
  ControlPayload.RegionalMaskHints c masks ∈ (feedback_step config (feedback_run config salt events) e).2 ->
  forall m score, (m, score) ∈ masks -> anonymous (events ++ [e]) salt DEFAULT_K_ANON c m.
Proof.
  intros Hm m score Hin. assert (Hh : honest (events ++ [e]) salt (mask_feedback (feedback_run config salt events))).
  { eapply honest_mono; [|apply run_honest]. set_solver. }
  destruct (step_honest config (events ++ [e]) salt (feedback_run config salt events) e) as [_ H]; [set_solver|done|].
  specialize (H c masks Hm). rewrite Forall_forall in H. by apply (H (m, score)).
Qed.
End History.

(** ** Limits *)

Section Limits.
Context {PR : Primitives} {LM : Libm} {HI : HashIter}.

(** All buckets with their ages, in the order in which the maps yield them. *)
Definition ages (map : FeedbackMap) : list (bytes * bytes * Z) :=
  concat ((fun ci => (fun mb => (ci.1, mb.1, last_updated_hour mb.2)) <$> hash_iter ci.2) <$> hash_iter (countries map)).

Definition total (m : gmap bytes (gmap bytes MaskBucket)) : Z :=
  map_fold (fun _ inner n => n + Z.of_nat (size inner)) 0 m.

Definition weight (m : gmap bytes (gmap bytes MaskBucket)) (c : bytes) : Z := default 0 ((fun i => Z.of_nat (size i)) <$> m !! c).

Lemma total_new m c inner : m !! c = None -> total (<[c := inner]> m) = total m + Z.of_nat (size inner).
Proof. intros Hc. unfold total. rewrite map_fold_insert_L; [done|lia|done]. Qed.

Lemma total_delete m c : total m = total (delete c m) + weight m c.
Proof.
  unfold weight. destruct (m !! c) as [i|] eqn:Ec; cbn.
  - rewrite <- (insert_delete_id _ _ _ Ec) at 1. apply total_new, lookup_delete_eq.
  - rewrite delete_id by done. lia.
Qed.

Lemma total_insert m c inner : total (<[c := inner]> m) = total m - weight m c + Z.of_nat (size inner).
Proof. rewrite <- insert_delete_eq, total_new by apply lookup_delete_eq. rewrite (total_delete m c). lia. Qed.

Lemma total_ge m c : 0 <= weight m c <= total m.
Proof.
  assert (forall m, 0 <= total m) as H.
  { intros m'. unfold total. apply (map_fold_weak_ind (fun r _ => 0 <= r)); lia. }
  specialize (H (delete c m)). rewrite (total_delete m c). unfold weight. destruct (m !! c); cbn; lia.
Qed.

(** The counter is right, no country is without buckets, and the limits hold. *)
Record bounded (map : FeedbackMap) : Prop := {
  bd_total : total_buckets map = total (countries map);
  bd_max : total_buckets map <= MAX_BUCKETS;
  bd_country : forall c i, countries map !! c = Some i -> i <> ∅ /\ Z.of_nat (size i) <= MAX_BUCKETS_PER_COUNTRY;
  bd_ids : forall c m b, lookup2 map c m = Some b ->
    len m <= MAX_MASK_ID_LEN /\ 0 <= success_count b <= u64_max /\ 0 <= fail_count b <= u64_max /\ length (reporters b) = length new_hll;
}.

Lemma weight_le map c : bounded map -> weight (countries map) c <= MAX_BUCKETS_PER_COUNTRY.
Proof.
  intros [_ _ Hc _]. unfold weight. destruct (countries map !! c) as [i|] eqn:E; cbn; [by apply (Hc c)|done].
Qed.

Lemma size_delete_in (i : gmap bytes MaskBucket) m b : i !! m = Some b -> Z.of_nat (size (delete m i)) = Z.of_nat (size i) - 1.
Proof.
  intros H. pose proof (map_size_delete m i) as E. rewrite H in E.
  assert (size i <> 0%nat) by (rewrite map_size_non_empty_iff; intros ->; by rewrite lookup_empty in H). lia.
Qed.

Lemma elem_of_concat {A} (x : A) ls : x ∈ concat ls <-> exists l, x ∈ l /\ l ∈ ls.
Proof. induction ls as [|l ls IH]; cbn [concat]; [set_solver|]. rewrite elem_of_app, IH. set_solver. Qed.

Lemma elem_of_ages map c m h : (c, m, h) ∈ ages map <-> exists i b, countries map !! c = Some i /\ i !! m = Some b /\ h = last_updated_hour b.
Proof.
  unfold ages. rewrite elem_of_concat. setoid_rewrite list_elem_of_fmap. split.
  - intros (l & Hl & ([c' i] & -> & Hci%elem_of_iter)). apply list_elem_of_fmap in Hl as ([m' b] & [= -> -> ->] & Hmb%elem_of_iter). by exists i, b.
  - intros (i & b & Hci & Hmb & ->). eexists. split; [|exists (c, i); split; [done|by apply elem_of_iter]].
    apply list_elem_of_fmap. exists (m, b). split; [done|by apply elem_of_iter].
Qed.

Lemma sample_nonempty map : bounded map -> 0 < total_buckets map -> exists x, x ∈ ages map.
Proof.
  intros Hb Hpos. destruct (decide (countries map = ∅)) as [He|He].
  - rewrite (bd_total _ Hb), He in Hpos. unfold total in Hpos. rewrite map_fold_empty in Hpos. lia.
  - apply map_choose in He as (c & i & Hci). destruct (bd_country _ Hb _ _ Hci) as [Hne _]. apply map_choose in Hne as (m & b & Hmb).
    exists (c, m, last_updated_hour b). apply elem_of_ages. by exists i, b.
Qed.

Lemma evict_one_bounded map : bounded map -> bounded (evict_one map).1 /\
  (0 < total_buckets map -> (evict_one map).2 = true /\ total_buckets (evict_one map).1 = total_buckets map - 1).
Proof.
  intros Hb. unfold evict_one. fold (ages map). set (all := ages map).
  destruct (min_by _ (take EVICTION_SAMPLE_SIZE all)) as [[[c m] h]|] eqn:Em.
  - assert ((c, m, h) ∈ all) as Hin by (apply min_by_elem in Em; by eapply subseteq_take).
    apply elem_of_ages in Hin as (i & b & Hci & Hmb & ->). cbn [fst snd] in *. rewrite Hci.
    pose proof (size_delete_in _ _ _ Hmb) as Hsz. pose proof (total_delete (countries map) c) as Htd. unfold weight in Htd. rewrite Hci in Htd. cbn in Htd.
    pose proof (total_ge (countries map) c). pose proof (total_ge (delete c (countries map)) c). destruct (bd_country _ Hb _ _ Hci) as [Hne Hcap].
    pose proof (below_evict map) as Hbel. unfold evict_one in Hbel. fold (ages map) in Hbel. fold all in Hbel. rewrite Em in Hbel. cbn [fst] in Hbel. rewrite Hci in Hbel.
    assert (0 < size i)%nat by (apply Nat.neq_0_lt_0; by rewrite map_size_non_empty_iff).
    destruct Hb as [Ht Hm Hc Hi]. unfold sat_sub. split; [|cbn; split; [done|lia]]. split.
    + cbn. case_bool_decide as He; [rewrite He, map_size_empty in Hsz; lia|]. rewrite total_insert. unfold weight. rewrite Hci. cbn. lia.
    + cbn. lia.
    + cbn. intros c' i0. case_bool_decide as He.
      * intros [_ ?]%lookup_delete_Some. by apply (Hc c').
      * destruct (decide (c' = c)) as [->|]; [rewrite lookup_insert_eq; intros [= <-]; split; [done|lia]|rewrite lookup_insert_ne by done; apply Hc].
    + intros c' m' b' Hl. apply (Hi c' m'). apply Hbel, Hl.
  - split; [done|]. intros Hpos. apply min_by_None in Em. exfalso. destruct (sample_nonempty map Hb Hpos) as [x Hx]. fold all in Hx.
    destruct all; [by apply elem_of_nil in Hx|done].
Qed.

Lemma evict_country_bounded map c i : bounded map -> countries map !! c = Some i -> 1 < Z.of_nat (size i) ->
  bounded {| countries := <[c := (evict_one_within_country i).1]> (countries map); total_buckets := sat_sub (total_buckets map) 1 |} /\
  (evict_one_within_country i).2 = true /\ Z.of_nat (size (evict_one_within_country i).1) = Z.of_nat (size i) - 1.
Proof.
  intros Hb Hci Hsz. unfold evict_one_within_country. destruct (min_by _ _) as [[m b]|] eqn:Em.
  - apply min_by_elem, elem_of_iter in Em. pose proof (size_delete_in _ _ _ Em) as Hd. cbn [fst snd].
    pose proof (below_set map c i (delete m i) (sat_sub (total_buckets map) 1) Hci (delete_subseteq _ _)) as Hbel.
    pose proof (total_ge (countries map) c) as Hge. unfold weight in Hge. rewrite Hci in Hge. cbn in Hge.
    destruct Hb as [Ht Hm Hc Hi]. split_and!; [|done|done]. unfold sat_sub in *. split; [| | |intros c' m' b' Hl; by apply (Hi c' m'), Hbel].
    + cbn. rewrite total_insert. unfold weight. rewrite Hci. cbn. lia.
    + cbn. lia.
    + cbn. intros c' i'. destruct (decide (c' = c)) as [->|]; [|rewrite lookup_insert_ne by done; apply Hc].
      rewrite lookup_insert_eq. intros [= <-]. destruct (Hc _ _ Hci). split; [intros E; rewrite E, map_size_empty in Hd; lia|lia].
  - apply min_by_None in Em. apply (f_equal length) in Em. rewrite length_iter in Em. cbn in Em. lia.
Qed.

(** There is always room for a new bucket afterwards. *)
Lemma room_global map : bounded map ->
  bounded (make_room_global map).1 /\ (make_room_global map).2 = true /\ total_buckets (make_room_global map).1 < MAX_BUCKETS.
Proof.
  intros Hb. unfold make_room_global. destruct (Z.leb_spec MAX_BUCKETS (total_buckets map)); [|by cbn].
  destruct (evict_one_bounded map Hb) as [H1 H2]. destruct H2 as [-> H2]; [unfold MAX_BUCKETS in *; lia|].
  split_and!; [done|done|]. rewrite H2. pose proof (bd_max _ Hb). lia.
Qed.

Lemma room_country c map : bounded map -> total_buckets map < MAX_BUCKETS ->
  bounded (make_room_country c map).1 /\ (make_room_country c map).2 = true /\
  total_buckets (make_room_country c map).1 < MAX_BUCKETS /\ weight (countries (make_room_country c map).1) c < MAX_BUCKETS_PER_COUNTRY.
Proof.
  intros Hb Hlt. pose proof (weight_le map c Hb) as Hw. unfold weight in Hw. unfold make_room_country.
  destruct (Z.leb_spec MAX_BUCKETS_PER_COUNTRY (default 0 ((fun i => Z.of_nat (size i)) <$> countries map !! c))); [|by cbn].
  destruct (countries map !! c) as [i|] eqn:Ei; [|done]. cbn in H, Hw.
  destruct (evict_country_bounded map c i Hb Ei) as (H1 & H2 & H3); [by eapply Z.lt_le_trans; [|exact H]|].
  destruct (evict_one_within_country i) as [j ok]. cbn [fst snd] in *. subst ok. cbn [fst snd countries total_buckets].
  split_and!; [done|done|unfold sat_sub; unfold MAX_BUCKETS in *; lia|]. unfold weight. rewrite lookup_insert_eq. cbn. lia.
Qed.

Definition room_for (c m : bytes) (map : FeedbackMap) : FeedbackMap * bool :=
  if bool_decide (is_Some (lookup2 map c m)) then (map, true)
  else let '(map1, room) := make_room_global map in if room then make_room_country c map1 else (map1, false).

Lemma room_for_bounded c m map : bounded map ->
  bounded (room_for c m map).1 /\ (room_for c m map).2 = true /\ below (room_for c m map).1 map /\
  (lookup2 map c m = None ->
   total_buckets (room_for c m map).1 < MAX_BUCKETS /\ weight (countries (room_for c m map).1) c < MAX_BUCKETS_PER_COUNTRY) /\
  (forall b, lookup2 map c m = Some b -> (room_for c m map).1 = map).
Proof.
  intros Hb. unfold room_for. case_bool_decide as Hex.
  - split_and!; [done|done|by intros ?|intros E; rewrite E in Hex; by destruct Hex|done].
  - pose proof (below_room c map) as Hbel. destruct (room_global map Hb) as (H1 & H2 & H3).
    destruct (make_room_global map) as [map1 room]. cbn [fst snd] in *. subst room.
    destruct (room_country c map1 H1 H3) as (? & ? & ? & ?). split_and!; [done|done|done|done|].
    intros b Hl. destruct Hex. by eexists.
Qed.

Lemma vote_range x v : 0 <= x <= u64_max -> 0 <= sat_add64 x (Z.b2z v) <= u64_max.
Proof. unfold sat_add64, u64_max. destruct v; cbn; lia. Qed.

Lemma record_vote_bounded c tok hour map m v : len m <= MAX_MASK_ID_LEN -> bounded map -> bounded (record_vote c tok hour map (m, v)).
Proof.
  intros Hlen Hb. pose proof (fun c' m' b => record_vote_buckets c tok hour map m v c' m' b) as Hbk.
  assert (Hids : forall c' m' b, lookup2 (record_vote c tok hour map (m, v)) c' m' = Some b ->
    len m' <= MAX_MASK_ID_LEN /\ 0 <= success_count b <= u64_max /\ 0 <= fail_count b <= u64_max /\ length (reporters b) = length new_hll).
  { intros c' m' b [Hl|(-> & -> & b0 & Hb0 & ->)]%Hbk; [by apply (bd_ids _ Hb c')|]. split; [done|]. cbn [count_vote success_count fail_count reporters].
    rewrite hll_add_length. destruct Hb0 as [->|Hb0]; [split_and!; try apply vote_range; done|].
    destruct (bd_ids _ Hb _ _ _ Hb0) as (_ & ? & ? & ?). split_and!; try by apply vote_range. done. }
  clear Hbk. revert Hids. unfold record_vote. fold (lookup2 map c m) (room_for c m map).
  destruct (room_for_bounded c m map Hb) as (H1 & H2 & Hbel & Hnew & Hold). destruct (room_for c m map) as [map1 room]. cbn [fst snd] in *. subst room.
  intros Hids. split; [..|done]; cbn [countries total_buckets].
  - rewrite total_insert, (bd_total _ H1). destruct (lookup2 map c m) as [b|] eqn:El.
    + rewrite bool_decide_eq_true_2 by (by eexists). specialize (Hold b eq_refl). subst map1. unfold lookup2 in El. unfold weight.
      destruct (countries map !! c) as [i|]; [|done]. cbn in *. rewrite map_size_insert, El. unfold Datatypes.id. lia.
    + rewrite bool_decide_eq_false_2 by (by intros [? ?]). unfold weight. destruct (countries map1 !! c) as [i|] eqn:Ei; cbn.
      * rewrite map_size_insert_None; [lia|]. destruct (i !! m) as [b|] eqn:Em; [|done]. rewrite (Hbel c m b) in El; [done|]. unfold lookup2. by rewrite Ei.
      * rewrite map_size_insert_None by apply lookup_empty. rewrite map_size_empty. lia.
  - destruct (lookup2 map c m) as [b|]; [rewrite bool_decide_eq_true_2 by (by eexists); pose proof (bd_max _ H1); lia|].
    rewrite bool_decide_eq_false_2 by (by intros [? ?]). destruct (Hnew eq_refl). lia.
  - intros c' i'. destruct (decide (c' = c)) as [->|]; [|rewrite lookup_insert_ne by done; apply (bd_country _ H1)].
    rewrite lookup_insert_eq. intros [= <-]. split; [apply insert_non_empty|]. rewrite map_size_insert. pose proof (weight_le _ c H1) as Hw.
    unfold weight in *. destruct (countries map1 !! c) as [i|] eqn:Ei; cbn in *; [|by rewrite lookup_empty, map_size_empty].
    destruct (i !! m) eqn:Em; cbn; [done|]. destruct (lookup2 map c m) as [b|] eqn:El; [|destruct (Hnew eq_refl); lia].
    rewrite (Hold b eq_refl) in Ei. unfold lookup2 in El. rewrite Ei in El. cbn in El. by rewrite Em in El.
Qed.

Section Sweep.
Context (fresh : bytes * MaskBucket -> Prop) {fresh_dec : forall x, Decision (fresh x)}.

Definition swept (m : gmap bytes (gmap bytes MaskBucket)) : gmap bytes (gmap bytes MaskBucket) :=
  filter (fun ci => ci.2 <> ∅) ((fun inner => filter fresh inner) <$> m).

Definition stale (m : gmap bytes (gmap bytes MaskBucket)) : Z :=
  map_fold (fun _ inner n => n + (Z.of_nat (size inner) - Z.of_nat (size (filter fresh inner)))) 0 m.

Lemma swept_total m : total m = total (swept m) + stale m.
Proof.
  induction m as [|c i m Hc IH] using map_ind.
  { unfold swept, stale, total. by rewrite fmap_empty, map_filter_empty, !map_fold_empty. }
  rewrite total_new by done. unfold stale, swept. rewrite map_fold_insert_L by (done || lia). fold (stale m).
  rewrite fmap_insert, map_filter_insert.
  assert (Hn : ((fun inner => filter fresh inner) <$> m) !! c = None) by (by rewrite lookup_fmap, Hc).
  destruct (decide _) as [He|He]; cbn [snd] in He.
  - rewrite total_new; [fold (swept m); lia|]. apply map_lookup_filter_None. by left.
  - rewrite delete_id by done. fold (swept m). assert (filter fresh i = ∅) as -> by (by apply dec_stable). rewrite map_size_empty. lia.
Qed.

Lemma swept_lookup m c i : swept m !! c = Some i -> exists i0, m !! c = Some i0 /\ i = filter fresh i0 /\ i <> ∅.
Proof.
  unfold swept. intros [H Hne]%map_lookup_filter_Some. rewrite lookup_fmap in H. destruct (m !! c) as [i0|]; [|done].
  injection H as <-. by exists i0.
Qed.

Lemma swept_bounded map : bounded map -> bounded {| countries := swept (countries map); total_buckets := sat_sub (total_buckets map) (stale (countries map)) |}.
Proof.
  intros [Ht Hm Hc Hi]. pose proof (swept_total (countries map)) as Hst. pose proof (total_ge (swept (countries map)) []) as Hge.
  assert (Hs : 0 <= stale (countries map)).
  { unfold stale. apply (map_fold_weak_ind (fun r _ => 0 <= r)); [done|]. intros _ i _ r _ Hr.
    pose proof (map_subseteq_size _ _ (map_filter_subseteq fresh i)). lia. }
  split; cbn [countries total_buckets].
  - unfold sat_sub. lia.
  - unfold sat_sub. unfold MAX_BUCKETS in *. lia.
  - intros c i (i0 & Hi0 & -> & Hne)%swept_lookup. split; [done|]. destruct (Hc _ _ Hi0).
    pose proof (map_subseteq_size _ _ (map_filter_subseteq fresh i0)). lia.
  - intros c m b. unfold lookup2. cbn. destruct (swept _ !! c) as [i|] eqn:Ei; [|done]. apply swept_lookup in Ei as (i0 & Hi0 & -> & _).
    cbn. intros [Hl _]%map_lookup_filter_Some. apply (Hi c m). unfold lookup2. by rewrite Hi0.
Qed.
End Sweep.

Lemma record_bounded c tok entries hour s : bounded (buckets s) -> bounded (buckets (record_feedback c tok entries hour s)).
Proof.
  intros Hb. unfold record_feedback. destruct entries as [|e0 es]; [done|]. case_bool_decide; [done|]. cbn [buckets].
  set (votes := hash_iter _). assert (Hv : forall m, m ∈ votes.*1 -> len m <= MAX_MASK_ID_LEN) by (intros m (? & _ & _ & ?)%votes_reported; done).
  clearbody votes. revert Hv Hb. generalize (buckets s). induction votes as [|[m v] votes IH]; intros map Hv Hb; [done|]. cbn [fold_left].
  apply IH; [intros; apply Hv; by right|]. apply record_vote_bounded; [apply Hv; by left|done].
Qed.

Lemma top_buckets c now s : buckets (top_masks_for_region c now s).1 = buckets s.
Proof. unfold top_masks_for_region. by destruct (cached_hints c now s). Qed.

Lemma step_bounded config st e : bounded (buckets (mask_feedback st)) -> bounded (buckets (mask_feedback (feedback_step config st e).1)).
Proof.
  intros Hb. destruct e as [r|hour now]; cbn [feedback_step].
  - unfold on_mask_feedback. set (s1 := match r_entries r with [] => _ | _ => _ end).
    assert (H1 : bounded (buckets s1)) by (subst s1; destruct (r_entries r); [done|]; destruct (r_client r); [by apply record_bounded|done]).
    destruct (try_claim_mask_feedback_slot _ _ _) as [thr []]; cbn [negb]; [|done].
    pose proof (top_buckets (r_country r) (r_now r) s1) as Ht. destruct (top_masks_for_region _ _ s1). cbn in *. by rewrite Ht.
  - by apply (swept_bounded (fun kb => sat_sub hour (last_updated_hour kb.2) <= DEFAULT_RETENTION_HOURS)).
Qed.

(** Whatever authenticated clients report, with names of masks and countries of their own
    choice, the store holds 100000 buckets at most, and 10000 of one country; the counter
    [total_buckets] that guards the first limit is the number of the buckets, the names are
    at most 64 bytes long, and neither counters nor sketches leave their widths. *)
Theorem feedback_bounded config salt events : bounded (buckets (mask_feedback (feedback_run config salt events))).
Proof.
  unfold feedback_run. set (f := fun st e => _). set (st0 := {| mask_feedback := _ |}).
  assert (H0 : bounded (buckets (mask_feedback st0))).
  { split; cbn; [unfold total; by rewrite map_fold_empty|done|intros c i H; by rewrite lookup_empty in H|].
    intros c m b H. unfold lookup2 in H. cbn in H. by rewrite lookup_empty in H. }
  clearbody st0. revert st0 H0. induction events as [|e l IH]; intros st Hst; [done|]. cbn [fold_left]. apply IH. by apply step_bounded.
Qed.
End Limits.

(** ** What a report changes *)

Section Visible.
Context {PR : Primitives} {LM : Libm} {HI : HashIter}.

(** A country of the table. *)
Definition listed (c : bytes) : Prop := c ∈ COUNTRY_CONTINENT.*1.

(** The codes of the table are distinct, and every one has its own continent. *)
Lemma continent_listed : forallb (fun e => bool_decide (continent_for e.1 = e.2)) COUNTRY_CONTINENT = true.
Proof. by vm_compute. Qed.

Lemma continent_of e : e ∈ COUNTRY_CONTINENT -> continent_for e.1 = e.2.
Proof.
  intros He. pose proof continent_listed as H. rewrite forallb_forall in H. specialize (H e). apply list_elem_of_In in He.
  by apply H, bool_decide_eq_true in He.
Qed.

Lemma in_region c c' : listed c -> c' ∈ region c <-> listed c' /\ continent_for c' = continent_for c.
Proof.
  intros ([x k] & -> & He)%list_elem_of_fmap. cbn [fst]. unfold region, continent_members.
  pose proof (continent_of _ He) as Hk. cbn [fst snd] in Hk. rewrite Hk. set (l := map fst _).
  assert (Hl : forall y, y ∈ l <-> exists k', (y, k') ∈ COUNTRY_CONTINENT /\ k' = k).
  { intros y. subst l. rewrite list_elem_of_fmap. split.
    - intros ([y' k'] & -> & [? ?]%list_elem_of_filter). by exists k'.
    - intros (k' & ? & ->). exists (y, k). split; [done|]. by apply list_elem_of_filter. }
  rewrite bool_decide_eq_true_2 by (apply Hl; by exists k). rewrite Hl. split.
  - intros (k' & Hin & ->). split; [apply list_elem_of_fmap; by exists (c', k)|]. apply (continent_of _ Hin).
  - intros [([y k'] & -> & Hin)%list_elem_of_fmap Hc]. cbn [fst] in *. exists k'. split; [done|]. rewrite <- Hc. symmetry. apply (continent_of _ Hin).
Qed.

(** A report that counts shows in the next recommendation for its country, and for every
    country of the table on the same continent, whatever was in the cache: the answer is
    computed from the buckets as the report left them. *)
Theorem report_visible c c' client entries hour now s :
  votes_of entries <> ∅ -> c' = c \/ (listed c' /\ c ∈ region c') ->
  let s' := record_feedback c client entries hour s in
  (top_masks_for_region c' now s').2 = compute_top_masks_for_region s' c'.
Proof.
  intros Hv Hc s'. assert (Hin : c' ∈ region c).
  { destruct Hc as [->|[Hl Hr]]; [apply self_in_region|]. apply in_region in Hr as [Hlc He]; [|done]. by apply in_region. }
  unfold top_masks_for_region, cached_hints. assert (hints_cache s' !! c' = None) as ->; [|done].
  subst s'. unfold record_feedback. destruct entries as [|e es]; [by cbn in Hv|]. rewrite bool_decide_eq_false_2 by done.
  cbn [hints_cache]. rewrite cache_kept. by rewrite decide_True.
Qed.

(** A code that is not in the table but is the code of a continent, as that of Afghanistan or
    of Namibia is, gets the reports of that continent, and the reports of its countries
    leave its recommendations in the cache. *)
Lemma continent_code_region :
  region (str_bytes "AF") = map str_bytes ["EG"; "NG"; "ZA"; "KE"; "ET"; "MA"; "DZ"; "TN"; "GH"; "UG"; "AF"] /\
  region (str_bytes "NA") = map str_bytes ["US"; "CA"; "MX"; "NA"] /\
  str_bytes "AF" ∉ region (str_bytes "EG").
Proof. split_and!; [by vm_compute|by vm_compute|]. apply (bool_decide_eq_false_1 _). by vm_compute. Qed.
End Visible.

(** ** Witnesses *)

(** A logarithm by the series of the area tangent, and powers by repeated products. *)
Definition series_ln (x : f64) : f64 :=
  let y := f64_div (f64_sub x (f64_of 1)) (f64_add x (f64_of 1)) in
  let term := fix term (n : nat) (k : Z) (p : f64) : f64 :=
    match n with O => f64_of 0 | S n => f64_add (f64_div p (f64_of k)) (term n (k + 2) (f64_mul p (f64_mul y y))) end in
  f64_mul (f64_of 2) (term 30%nat 1 y).

Definition series_libm : Libm := {|
  ln := series_ln;
  powi := fun b n =>
    let p := Nat.iter (Z.to_nat (Z.abs n)) (f64_mul b) (f64_of 1) in if n <? 0 then f64_div (f64_of 1) p else p |}.

Definition feedback_settings : FeedbackSettings := {| feedback_report_failure_threshold := 3; feedback_report_interval_secs := 3600 |}.

Definition quic_outcome : MaskOutcome.t := {| MaskOutcome.mask_id := str_bytes "quic"; MaskOutcome.success := 9; MaskOutcome.fail := 0 |}.

(** One client reports a mask from a country. *)
Definition report_from (country : string) (client : Z) : FeedbackEvent :=
  Reported {| r_session := [client]; r_client := Some [client]; r_entries := [quic_outcome]; r_country := str_bytes country;
              r_hour := 1; r_now := client * second |}.

(** Twelve clients of one country and thirteen of its neighbour. *)
Definition feedback_events : list FeedbackEvent :=
  map (fun i => report_from "FR" (Z.of_nat i)) (seq 0 12) ++ map (fun i => report_from "DE" (Z.of_nat i)) (seq 12 12).

Definition feedback_masks : list (bytes * Z) := [(str_bytes "quic", f32_one)].

Lemma hints_k_anonymous_witness :
  ControlPayload.RegionalMaskHints (str_bytes "DE") feedback_masks ∈
    (feedback_step (PR := toy_primitives) (LM := series_libm) (HI := ordered_iter) feedback_settings
       (feedback_run (PR := toy_primitives) (LM := series_libm) (HI := ordered_iter) feedback_settings [] feedback_events)
       (report_from "DE" 24)).2 /\
  anonymous (PR := toy_primitives) (LM := series_libm) (feedback_events ++ [report_from "DE" 24]) [] DEFAULT_K_ANON (str_bytes "DE") (str_bytes "quic").
Proof.
  assert (H : ControlPayload.RegionalMaskHints (str_bytes "DE") feedback_masks ∈
    (feedback_step (PR := toy_primitives) (LM := series_libm) (HI := ordered_iter) feedback_settings
       (feedback_run (PR := toy_primitives) (LM := series_libm) (HI := ordered_iter) feedback_settings [] feedback_events)
       (report_from "DE" 24)).2) by (vm_compute; left).
  split; [exact H|]. apply (hints_k_anonymous (PR := toy_primitives) (LM := series_libm) (HI := ordered_iter) feedback_settings [] feedback_events _ _ _ H _ f32_one).
  left.
Defined.

Lemma report_visible_witness :
  let s' := record_feedback (PR := toy_primitives) (HI := ordered_iter) (str_bytes "FR") [] [quic_outcome] 1 (new_store []) in
  (top_masks_for_region (LM := series_libm) (HI := ordered_iter) (str_bytes "DE") 7 s').2
    = compute_top_masks_for_region (LM := series_libm) (HI := ordered_iter) s' (str_bytes "DE").
Proof.
  apply (report_visible (PR := toy_primitives) (LM := series_libm) (HI := ordered_iter) (str_bytes "FR") (str_bytes "DE") [] [quic_outcome] 1 7 (new_store [])).
  - intros H. apply (f_equal (fun m => m !! str_bytes "quic")) in H. vm_compute in H. discriminate H.
  - right. split; apply (bool_decide_eq_true_1 _); vm_compute; reflexivity.
Defined.
